(* ===== verification/_CoqProject ===== *)
-Q . S2P
Prelude.v
Capabilities.v
CapabilitiesTheory.v
Probe.v
Planes.v
PlanesTheory.v
Reach.v
ReachTheory.v
EntityReach.v
EntityReachTheory.v
Chains.v
JobQueue.v
JobQueueTheory.v
JobFleet.v
JobFleetTheory.v
JobContext.v
StaticCache.v
StaticCacheTheory.v
Reconcile.v
ReconcileTheory.v
RetryPolicy.v
RateLimit.v
PyText.v
EventIndex.v
EventIndexTheory.v
IndexSessions.v
LogFetch.v
LogFetchTheory.v
EventFold.v
EventFoldTheory.v
Allowlist.v
AllowlistTheory.v
Evidence.v
EvidenceTheory.v
Gate.v
Admission.v
ProtocolMerge.v
GateTheory.v
MergeTheory.v
GateChains.v
GateDerive.v
GateLiveness.v
EvalContext.v
ReachReads.v
ReachReadsTheory.v
Surface.v
SurfaceReference.v
SurfaceTheory.v
SurfaceEquivalence.v
SurfaceDict.v
SurfaceSound.v
SurfaceClaims.v
Shapes.v
Binding.v
Authority.v
Equality.v
Membership.v
Evaluator.v
FailClosed.v
EvaluatorTheory.v
TreeSemantics.v
InliningTheory.v
ScoreModel.v
Signals.v
Units.v
UnitsTheory.v
Grade.v
GradeTheory.v
Value.v
Balances.v
BalancesTheory.v
Collection.v
CollectionTheory.v
ValueLoad.v
ValueTheory.v
Contributions.v
ContributionsTheory.v
