(* ===== verification/Prelude.v ===== *)
(** * PSAT verification library (root file: documentation and shared prelude)

    PSAT (Protocol Security Assessment Tool) analyses deployed smart contracts
    and publishes who can do what to them.  Jobs move through a pipeline of
    stages (discovery, static analysis, resolution, policy, effects, coverage),
    each drained by workers that claim rows of a Postgres queue under a lease.
    Resolution turns the guards of a contract's functions into capabilities
    (sets of callers with a quality and provenance); the scorer then walks the
    control graph to say what each principal reaches.  This library models the
    Python code that decides those answers and the machinery that keeps the
    pipeline consistent, and proves what makes it correct.

    ** Files

    - [Prelude]: Python strings and values, orders, generic list lemmas.
    - [Capabilities]: [services/resolution/capabilities.py].  A capability is the
      record [CapabilityExpr]; the factories are [Cap.*]; [intersect], [union],
      [negate] and their helpers keep the source's names.
    - [CapabilitiesTheory]: what a capability denotes (a caller set compatible
      with its kind and quality), soundness of the combinators alone and in any
      AND/OR/NOT composition ([gate]), provenance (as-of heights, deferrals,
      empty sets, subjects).
    - [Probe]: [services/resolution/probe.py], the membership and signature
      probes, sound against the same denotation.  The registry that enumerates a
      descriptor and the leaf evaluator are arguments.
    - [Planes], [PlanesTheory]: [services/scoring/planes] ([_shared.py],
      [control.py], [conferral.py], [conditions.py]) and the entity keys of
      [schema.py].  The control closure conserves what was read, a gate confers
      exactly what was witnessed, a hop is withheld exactly when disproved.
    - [Reach], [ReachTheory]: [hop_bound] and [_bfs] of
      [services/scoring/reach.py] and [_closure] of [fold/closure.py].  Both walks
      compute reachability over clear hops; the breadth-first one is shortest;
      the published gaps are the frontier.
    - [EntityReach], [EntityReachTheory]: [_relax], [entity_reach],
      [merge_reach] and the assembly of [load_protocol_reach].  Relaxation is the
      greatest route-respecting assignment; everything published is backed.
    - [Chains]: [utils/chains.py], the chain registry, with its theorems.
    - [JobQueue]: [db/queue/jobs.py] and what it writes through: the columns of
      [db/models/jobs.py], [derive_job_chain_id] of [db/models/base.py], the
      claim gate of [services/worker_lifecycle.py], the daemon leases of
      [db/queue/heartbeats.py], the stage exits and dependency updates of
      [workers/base.py].  The database is the record [db]; each function is one
      transaction from a database to the committed one or an error.
    - [JobQueueTheory]: every lease-checked write as a guarded row transformer;
      claims, the stale sweep, the restart flag.
    - [JobFleet]: what else writes a job row: the readiness-gated claims of
      [services/worker_workload.py] and the selection and coverage workers, the
      stale recovery and legacy heartbeat of [workers/base.py], the operator's
      retry and cancellation ([routers/jobs.py]), the re-enqueued policy stage
      ([deferred_reconciler.py]), the mirrored proxy flag and the resumed effects
      jobs.
    - [JobFleetTheory]: the transition system [step] over every write of the job
      table, exits without a token and stale recoveries included.  The lease
      discipline is an invariant of its reachable states; what a live lease
      excludes and what goes around it; a lost lease opens nothing again; a
      crashed worker's job is recovered.
    - [JobContext]: creation, request merging, proxy-context conversion,
      dependents, daemon leases.
    - [StaticCache], [StaticCacheTheory]: the lookups of
      [db/queue/static_cache.py]: the analyzer era of a job through the donors
      its artifacts were copied from, the test that a job stands for the current
      analyzer, [find_existing_job_for_address].  The donor walk decides the
      inductive relation [proves]; the lookup returns the best standing job.
    - [Reconcile], [ReconcileTheory]: [reconcile_impl_job_for_proxy] and
      [adopt_current_proxy_context] of [db/queue/jobs.py], with what other
      sessions commit between their statements as an argument: what each answer
      means, idempotence, termination under interference.
    - [RetryPolicy]: [workers/retry_policy.py] and the failure path of
      [workers/base.py]: bounded retries, bounded backoff.
    - [RateLimit]: [utils/ratelimit.py].
    - [PyText]: Python's [int], [hex] and [bytes] texts and JSON texts, with
      their round trips; used by the four components below.
    - [EventIndex], [EventIndexTheory]: the writer of the event index,
      [workers/event_log_indexer.py] from [enroll_event_cursor] through
      [plan_group], [run_plan] and [_bulk_insert_logs], on the tables of
      [db/models/balances.py] (record [index]).  The fetcher is an argument, and
      so is what other sessions commit between two writes.  A chain is a list
      of logs with block hashes; a visit ends and keeps the index faithful to
      it, and the rewinds of a plan undo a reorganisation the stamps can see.
    - [IndexSessions]: the two upgrades of the enrolment pass, and every
      transaction on the index by any session as the inductive [commit]; every
      [reachable] index is faithful on every chain.
    - [LogFetch], [LogFetchTheory]: [services/resolution/repos/event_logs_rpc.py],
      the node as a function of the request number and range.  Pages tile the
      range whatever the node answers, strict pages are consistent, decoding
      inverts the wire encoding; with the indexer it gives
      [rpc_visit_faithful].
    - [EventFold], [EventFoldTheory]: [repos/event_logs_pg.py] and
      [event_tail.py], the folds of indexed rows and a live tail into members
      and values.  A fold published as complete is the fold of the chain's own
      history; it answers whenever the cursors are warm.
    - [Allowlist], [AllowlistTheory]: the index replay, the value filter and the
      typed comparison of [services/resolution/mapping_enumerator.py].
    - [Evidence], [EvidenceTheory]: [services/discovery/membership_gate/rules.py]
      and the witness table of [db/models/contracts.py].  Validation accepts
      encodings of an algebraic type of evidence and every one of them; the
      table implements the log of its writes and revocations.
    - [Gate]: the readers of stored facts, the anchor chains and the re-check of
      a witness ([membership_gate/readers.py], [transitivity.py], the registry
      rows of [deployers.py]) over the session, the record [gate].  The grant
      classes the claim matchers register are an argument.
    - [Admission]: what changes the session: nomination, promotion, derivation
      and admission ([admission.py]), registration, and the demotion cascade
      ([revocation.py]).
    - [ProtocolMerge]: [_merge_protocol_into] of [db/queue/discovery.py] with its
      witness and deployer rows.
    - [GateTheory]: the transition system [gate_step] over the operations of
      [Admission] and the observation of new facts; its invariant; the cascade
      ends and reports exactly what it did.
    - [MergeTheory]: with merges, every member stays backed as long as no backing
      witness meets a revoked row of the other protocol; where one does, the
      member is left without a witness.
    - [GateChains]: the ground of each way an address becomes a via; an anchor
      chain by an inductive derivation apart from the search.
    - [GateDerive], [GateLiveness]: what is derived verifies and is written, and
      a derivable candidate is admitted in the same call.
    - [EvalContext]: the frames and contexts of the predicate evaluator and the
      Python idioms of the files below.
    - [ReachReads], [ReachReadsTheory]: [services/resolution/reach_reads.py], the
      reader of recorded conditions on exact Solidity values.  Conversions follow
      Solidity, the word codec is a bijection, a verdict is a function of the
      recorded reads, and calldata is proven only by calldata that satisfies it.
    - [Surface], [SurfaceReference]: [services/policy/capability_surface.py] (the
      projection of a serialized capability to rows, public paths and residual
      checks) and the expansion its test suite keeps as reference; the
      serialization is [capability_to_dict] of [capability_resolver.py].
    - [SurfaceTheory], [SurfaceEquivalence]: the projection returns the expansion.
    - [SurfaceDict], [SurfaceSound]: reading a serialized capability back; a
      closed surface names every caller the capability denotes.
    - [SurfaceClaims]: the currency, empty credits and role grants of a surface.
    - [Shapes]: [permissionless_shapes.py], the leaf tests of
      [predicate_evaluator/core.py], [permit.py], [telemetry.py] and
      [predicate_types.py].
    - [Binding]: [predicate_evaluator/binding.py], parameters and frames.
    - [Authority], [Equality], [Membership]: [authority.py], [equality.py],
      [descriptors.py] and [membership.py] of the evaluator: live reads, equality
      principals, external checks, view-keyed memberships.
    - [Evaluator]: [predicate_evaluator/core.py] and [materialization.py] with the
      registry of [adapters/__init__.py]: from a predicate tree to the capability
      of its callers, inlined contracts included.
    - [FailClosed], [EvaluatorTheory]: an unresolved caller gate keeps the
      function closed through evaluation, serialization and projection.
    - [TreeSemantics]: where the leaves are exact, the evaluated capability
      denotes the callers of the boolean tree.
    - [InliningTheory]: inlining only refines a gate, the nesting of frames is
      bounded, conjunctions of conditions hold on one calldata.
    - [ScoreModel]: the parameters of [services/scoring/constants.py] and
      Python's [round], with their ranges and monotonicity.
    - [Signals]: the inputs of the fold: the three-state values and signals of
      [schema.py], the gate readings of [fold/gates.py] and the principal plane
      ([planes/principals.py]).
    - [Units], [UnitsTheory]: [_UnitResolver] and the freeze verdict of
      [fold/core.py].  The union-find computes the closure of the coalitions that
      act as two Safes; a timelock is never priced below who can go through it; a
      freeze verdict is a statement about quorums.
    - [Grade], [GradeTheory]: the subsumption of [_aggregate], [_grade] and
      [_exposure_coverage] of [fold/grade.py] and the publication of
      [ScoreDocument].  Rows are conserved, an entity is charged once, the figures
      stand or fall together.
    - [Value], [ValueLoad], [ValueTheory]: the value plane of [planes/value.py] and
      its loader over the tables of [Balances].  Off a priced sheet only a
      witnessed zero is published.
    - [Contributions], [ContributionsTheory]: [fold/contributions.py], what one call
      is charged at the entities it reaches.  The figures share the magnitude the
      call proved, come from witnesses only, and leave no key out.
    - [Balances], [BalancesTheory]: [services/monitoring/balance_reads.py],
      [balance_observation.py] and the view [contract_balances_latest]: the record
      [Store], one observation with its retention prune, and the readers of what is
      current.  The pruned store refines the insert-only log.
    - [Collection], [CollectionTheory]: [balance_collection.py], the leases of a read
      and its publication, as a transition system over interleaved transactions.

    ** Modelling choices

    Text is ASCII.  A dict of untyped values is an association list or a finite
    map of [pyval].  Machine integers do not occur: Python's are unbounded and
    are [Z].  Times are integers of microseconds; the backoff's seconds are
    rationals, floating-point rounding is not modelled.  Query results arrive as
    lists in query order.  SQL row locks are the sequential order of
    transactions; [SKIP LOCKED] is a set of locked ids given to the operation.
    The session copy of a locked row agrees with the row except for [request],
    which the code re-reads.  UUIDs are positives or texts supplied fresh.
    Scores and dollars are rationals and [round] is exact half-even rounding;
    [log10] and the parsing of a float's text are arguments, and a number in a
    gate's JSON is an integer.

    ** Fuel

    The walks of [Reach] run on [walk_fuel], one unit per seed and edge plus one:
    each iteration removes a worklist entry and only unexpanded edges add one
    ([dfs_loop_spec], [bfs_loop_spec]).  [relax] runs on one more than the sum of
    all hops, which every changing pass lowers ([relax_loop_spec]).
    [str_remove_all] runs on the text's length.  [era_walk] runs on one more than
    the number of jobs, each iteration but the last expanding another one
    ([era_walk_ok]); [reconcile_loop] runs on the turns it is given, the last
    quiet, and always answers ([reconcile_under_interference]).  [pages_loop] runs
    on twice the blocks of the range, a bisection producing no more ranges than
    that; [chunk_loop] on the target block, each turn moving the frontier;
    [prefixes_loop] on the number of logs.  [iter_pages_ok] and
    [visit_keeps_index_faithful] prove that they suffice.  [quiesce] runs on one
    more than the unrevoked witnesses, each turn that goes on revoking one
    ([quiesce_ends]); the budgets of [independent_anchor_rule] and
    [anchor_chain_for] are the source's own depth limit.  [ReachReads.evaluate]
    runs on the reader's depth limit plus one ([DEPTH_FUEL]); the projection's
    work budget is the source's.  [normalize_value_for_frame] runs on the number
    of bound parameters, each nesting marking another one
    ([frame_nesting_bound]).  [Units.find] runs on one more than the keys of the
    union-find, each step climbing to another one ([find_total]); [alias_climb] on
    two more than the aliases, each turn marking another one
    ([alias_fixed_point_total]).  The evaluator's [fuel] and [frames] stand for the
    interpreter's recursion limit: its theorems hold at every value, and running
    out is the exception the code raises.

    ** Not modelled

    Arguments of the model, because what they enumerate comes from a node or a
    third party: the standard adapters and the event materializer of the
    evaluator, the HyperSync client, price and balance providers.  SQL and
    orchestration around modelled cores: the donor copies of the static cache, the
    loaders of the conferral and condition planes, the upserts of
    [db/queue/discovery.py] (its merge apart), the passes of [recursive.py], the schedule of a
    collection pass, the indexer's pass scheduler, the rounds of the membership
    gate's fixpoint and its affinity heuristics.  Of the scoring fold: the valuation
    of a row from the reach walks, the confidence pass, the distillation of signals
    and the narration, which are inputs of [Grade] or text.  Code that is I/O around
    RPC nodes, Slither, forks, web pages, documents or object storage is not
    modelled. *)

From stdpp Require Import base gmap sets list strings sorting pretty.
From Stdlib Require Import String Ascii ZArith Lia.

(** ** Strings: Python's order and [str.lower] *)

Definition ascii_lower (c : ascii) : ascii :=
  let n := N_of_ascii c in
  if (65 <=? n)%N && (n <=? 90)%N then ascii_of_N (n + 32) else c.

Fixpoint str_lower (s : string) : string :=
  match s with
  | EmptyString => EmptyString
  | String c s => String (ascii_lower c) (str_lower s)
  end.

Definition str_le (s1 s2 : string) : Prop := String.leb s1 s2 = true.

#[export] Instance str_le_dec : RelDecision str_le.
Proof. intros s1 s2. unfold str_le. apply _. Defined.

#[export] Instance str_le_total : Total str_le.
Proof. intros s1 s2. apply String.leb_total. Qed.

#[export] Instance str_le_antisymm : AntiSymm (=) str_le.
Proof. intros s1 s2. apply String.leb_antisym. Qed.

Lemma ascii_compare_N c1 c2 : Ascii.compare c1 c2 = N.compare (N_of_ascii c1) (N_of_ascii c2).
Proof. reflexivity. Qed.

Lemma N_of_ascii_inj c1 c2 : N_of_ascii c1 = N_of_ascii c2 -> c1 = c2.
Proof. intros H. rewrite <- (ascii_N_embedding c1), <- (ascii_N_embedding c2). by rewrite H. Qed.

#[export] Instance str_le_trans : Transitive str_le.
Proof.
  unfold str_le, String.leb. intros s1. induction s1 as [|c1 s1 IH]; intros [|c2 s2] [|c3 s3];
    cbn; try done.
  rewrite !ascii_compare_N.
  destruct (N.compare_spec (N_of_ascii c1) (N_of_ascii c2)) as [E12|L12|G12]; [| |done];
  destruct (N.compare_spec (N_of_ascii c2) (N_of_ascii c3)) as [E23|L23|G23]; try done; intros H1 H2;
  destruct (N.compare_spec (N_of_ascii c1) (N_of_ascii c3)) as [E13|L13|G13]; try done; try lia.
  by eapply IH.
Qed.

#[export] Instance str_le_refl : Reflexive str_le.
Proof. intros s. destruct (str_le_total s s); done. Qed.

Lemma ascii_lower_idemp c : ascii_lower (ascii_lower c) = ascii_lower c.
Proof. destruct c as [[] [] [] [] [] [] [] []]; reflexivity. Qed.

Lemma str_lower_idemp s : str_lower (str_lower s) = str_lower s.
Proof. induction s as [|c s IH]; cbn; [done|]. by rewrite ascii_lower_idemp, IH. Qed.

(** ASCII whitespace, as [str.strip], [str.split] and [\s] see it. *)
Definition is_space (c : ascii) : bool :=
  let n := N_of_ascii c in ((9 <=? n)%N && (n <=? 13)%N) || ((28 <=? n)%N && (n <=? 32)%N).

Fixpoint str_lstrip (s : string) : string :=
  match s with
  | EmptyString => EmptyString
  | String c s' => if is_space c then str_lstrip s' else s
  end.

Fixpoint str_rstrip (s : string) : string :=
  match s with
  | EmptyString => EmptyString
  | String c s' =>
      match str_rstrip s' with
      | EmptyString => if is_space c then EmptyString else String c EmptyString
      | r => String c r
      end
  end.

(** [s.strip()] *)
Definition str_strip (s : string) : string := str_rstrip (str_lstrip s).

(** Stripping is idempotent. *)
Lemma rstrip_idemp s : str_rstrip (str_rstrip s) = str_rstrip s.
Proof.
  induction s as [|c s IH]; cbn; [done|].
  destruct (str_rstrip s) as [|d r] eqn:E.
  - destruct (is_space c) eqn:Es; cbn; [done|]. by rewrite Es.
  - cbn in IH |- *. by rewrite IH.
Qed.

Lemma rstrip_head c s :
  is_space c = false -> exists r, str_rstrip (String c s) = String c r.
Proof. intros Hc. cbn. destruct (str_rstrip s); rewrite ?Hc; eauto. Qed.

Lemma lstrip_cases s : str_lstrip s = EmptyString \/ exists c s', str_lstrip s = String c s' /\ is_space c = false.
Proof.
  induction s as [|c s IH]; cbn; [by left|]. destruct (is_space c) eqn:E; [done|]. right; eauto.
Qed.

Lemma strip_idemp s : str_strip (str_strip s) = str_strip s.
Proof.
  unfold str_strip. destruct (lstrip_cases s) as [->|(c & s' & -> & Hc)]; [done|].
  destruct (rstrip_head c s' Hc) as [r Hr]. rewrite Hr at 1. cbn [str_lstrip]. rewrite Hc.
  by rewrite <- Hr, rstrip_idemp.
Qed.

Fixpoint str_forall (p : ascii -> bool) (s : string) : bool :=
  match s with EmptyString => true | String c s => p c && str_forall p s end.

(** What follows the prefix [pre] of [s], if [s] starts with it. *)
Fixpoint str_after (pre s : string) : option string :=
  match pre, s with
  | EmptyString, _ => Some s
  | String c pre, String d s => if Ascii.eqb c d then str_after pre s else None
  | String _ _, EmptyString => None
  end.

(** [s.split(sep)] for a one-character separator. *)
Fixpoint str_split (sep : ascii) (s : string) : list string :=
  match s with
  | EmptyString => [EmptyString]
  | String c s =>
      if Ascii.eqb c sep then EmptyString :: str_split sep s
      else match str_split sep s with
           | p :: ps => String c p :: ps
           | [] => [String c EmptyString]
           end
  end.

(** [s.endswith(suf)] *)
Fixpoint str_ends_with (suf s : string) : bool :=
  String.eqb s suf || match s with EmptyString => false | String _ s => str_ends_with suf s end.

(** [s.replace(pat, "")] for a non-empty pattern, left to right. *)
Fixpoint str_remove_all (fuel : nat) (pat s : string) : string :=
  match fuel, s with
  | S fuel, String c s' =>
      match str_after pat s with
      | Some rest => str_remove_all fuel pat rest
      | None => String c (str_remove_all fuel pat s')
      end
  | _, _ => s
  end.

(** ** Python values

    The untyped [dict[str, Any]] payloads the code passes around (trace steps,
    probe descriptors, serialized capabilities).  A dict is an association
    list, the first binding of a key being the one [dict.get] returns. *)

Inductive pyval :=
  | PyNone
  | PyBool (b : bool)
  | PyInt (z : Z)
  | PyStr (s : string)
  | PyList (l : list pyval)
  | PyDict (d : list (string * pyval)).

Fixpoint assoc_get {A} (k : string) (d : list (string * A)) : option A :=
  match d with
  | [] => None
  | (k', v) :: d => if decide (k = k') then Some v else assoc_get k d
  end.

(** [d.get(k)]: [None] when the key is absent. *)
Definition py_get (k : string) (d : list (string * pyval)) : pyval :=
  match assoc_get k d with Some v => v | None => PyNone end.

(** [bool(v)]. *)
Definition py_truthy (v : pyval) : bool :=
  match v with
  | PyNone => false
  | PyBool b => b
  | PyInt z => negb (z =? 0)%Z
  | PyStr s => negb (String.eqb s "")
  | PyList l => match l with [] => false | _ => true end
  | PyDict d => match d with [] => false | _ => true end
  end.

(** [v or w]. *)
Definition py_or (v w : pyval) : pyval := if py_truthy v then v else w.

(** [v == "s"] *)
Definition py_eq_str (v : pyval) (s : string) : bool :=
  match v with PyStr s' => String.eqb s' s | _ => false end.

Lemma py_eq_str_true v s : py_eq_str v s = true <-> v = PyStr s.
Proof. destruct v; cbn; try done. rewrite String.eqb_eq. split; congruence. Qed.

Definition py_of_opt (o : option string) : pyval :=
  match o with Some s => PyStr s | None => PyNone end.

(** [repr] of a string: single quotes unless the text has a single quote and no
    double one; backslashes, the chosen quote and control bytes escaped. *)
Definition hex_digit (n : N) : ascii :=
  if (n <? 10)%N then ascii_of_N (48 + n) else ascii_of_N (87 + n).

Definition repr_char (quote c : ascii) : string :=
  let n := N_of_ascii c in
  if Ascii.eqb c quote || Ascii.eqb c "\" then String "\" (String c "")
  else if (n =? 10)%N then "\n"
  else if (n =? 13)%N then "\r"
  else if (n =? 9)%N then "\t"
  else if (n <? 32)%N || (n =? 127)%N
       then String "\" (String "x" (String (hex_digit (n / 16)) (String (hex_digit (n mod 16)) "")))
  else String c "".

Fixpoint str_has (c : ascii) (s : string) : bool :=
  match s with EmptyString => false | String d s => Ascii.eqb c d || str_has c s end.

Fixpoint str_concat_map (f : ascii -> string) (s : string) : string :=
  match s with EmptyString => EmptyString | String c s => (f c ++ str_concat_map f s)%string end.

Definition squote : ascii := "'".
Definition dquote : ascii := ascii_of_N 34.

Definition repr_str (s : string) : string :=
  let q := if str_has squote s && negb (str_has dquote s) then dquote else squote in
  (String q "" ++ str_concat_map (repr_char q) s ++ String q "")%string.

Fixpoint str_join (sep : string) (l : list string) : string :=
  match l with
  | [] => ""
  | [s] => s
  | s :: l => (s ++ sep ++ str_join sep l)%string
  end.

Fixpoint py_repr (v : pyval) : string :=
  match v with
  | PyNone => "None"
  | PyBool b => if b then "True" else "False"
  | PyInt z => pretty z
  | PyStr s => repr_str s
  | PyList l => ("[" ++ str_join ", " (List.map py_repr l) ++ "]")%string
  | PyDict d =>
      ("{" ++ str_join ", " (List.map (fun kv => (repr_str kv.1 ++ ": " ++ py_repr kv.2)%string) d) ++ "}")%string
  end.

(** [str(v)], which is what an f-string interpolates. *)
Definition py_str (v : pyval) : string :=
  match v with PyStr s => s | _ => py_repr v end.

Definition fmt_opt (o : option string) : string := py_str (py_of_opt o).

(** ** Lists *)

(** [x or []] on an optional list. *)
Definition or_nil {A} (o : option (list A)) : list A := default [] o.

Definition str_lt (s1 s2 : string) : Prop := str_le s1 s2 /\ s1 <> s2.

(** Two strictly increasing lists with the same elements are equal. *)
Lemma sorted_lt_ext (l1 l2 : list string) :
  StronglySorted str_lt l1 -> StronglySorted str_lt l2 ->
  (forall x, x ∈ l1 <-> x ∈ l2) -> l1 = l2.
Proof.
  intros H1. revert l2. induction H1 as [|a l1 H1 IH Ha]; intros l2 H2 E.
  - destruct l2 as [|b l2]; [done|]. set_solver.
  - destruct H2 as [|b l2 H2 Hb]; [set_solver|].
    rewrite Forall_forall in Ha, Hb.
    assert (a = b) as ->.
    { destruct (decide (a = b)) as [|Hne]; [done|].
      assert (b ∈ l1) as Hb1 by (specialize (E b); set_solver).
      assert (a ∈ l2) as Ha2 by (specialize (E a); set_solver).
      destruct (Ha _ Hb1), (Hb _ Ha2). by apply (anti_symm str_le). }
    f_equal. apply IH; [done|]. intros x.
    assert (b ∉ l1) by (intros ?; by edestruct (Ha b)).
    assert (b ∉ l2) by (intros ?; by edestruct (Hb b)).
    specialize (E x). set_solver.
Qed.

Lemma sorted_le_NoDup_lt (l : list string) :
  StronglySorted str_le l -> NoDup l -> StronglySorted str_lt l.
Proof.
  induction 1 as [|a l Hl IH Ha]; intros Hnd; [constructor|].
  apply NoDup_cons in Hnd as [Hn Hnd]. constructor; [by apply IH|].
  rewrite Forall_forall in Ha |- *. intros x Hx. split; [by apply Ha|]. intros ->. done.
Qed.

Lemma sorted_lt_NoDup (l : list string) : StronglySorted str_lt l -> NoDup l.
Proof.
  induction 1 as [|a l Hl IH Ha]; constructor; [|done].
  rewrite Forall_forall in Ha. intros Hin. by destruct (Ha _ Hin).
Qed.

(** Minimum of a list of integers, [None] on the empty list. *)
Definition z_min_list (l : list Z) : option Z :=
  match l with [] => None | z :: l => Some (foldr Z.min z l) end.

Lemma foldr_min_le (z : Z) (l : list Z) x : x = z \/ x ∈ l -> (foldr Z.min z l <= x)%Z.
Proof.
  induction l as [|y l IH]; cbn; intros H.
  - set_unfold. destruct H as [->|[]]; lia.
  - rewrite elem_of_cons in H. destruct H as [->|[->|H]]; [specialize (IH (or_introl eq_refl))| |specialize (IH (or_intror H))]; lia.
Qed.

(** [d or x] on a present value. *)
Lemma default_some {A} (x y : A) : default x (Some y) = y.
Proof. done. Qed.

(** ** Automation *)

Ltac case_match_eqn := match goal with |- context [match ?x with _ => _ end] => destruct x eqn:? end.

Create HintDb psat.
#[export] Hint Rewrite str_lower_idemp : psat.
