(* ===== verification/Capabilities.v ===== *)
(** * The authority-set algebra ([services/resolution/capabilities.py])

    The resolver lowers every guarded function to a [CapabilityExpr]: who may
    call it.  This file has the data types, the factories ([Cap]), the
    combinators [intersect], [union] and [negate] with their helpers, and the
    fold-provenance bookkeeping, one definition per Python function.  The
    theorems are in [CapabilitiesTheory]. *)

From stdpp Require Import base gmap sets list strings sorting pretty.
From Stdlib Require Import String Ascii ZArith Lia.
From S2P Require Import Prelude.

Open Scope string_scope.

(** ** Vocabulary *)

Inductive CapKind :=
  | K_finite_set | K_threshold_group | K_cofinite_blacklist | K_signature_witness
  | K_external_check_only | K_conditional_universal | K_unsupported | K_AND | K_OR.

#[export] Instance CapKind_eq_dec : EqDecision CapKind.
Proof. solve_decision. Defined.

(** The literal the source stores, for the f-strings that print it. *)
Definition kind_name (k : CapKind) : string :=
  match k with
  | K_finite_set => "finite_set"
  | K_threshold_group => "threshold_group"
  | K_cofinite_blacklist => "cofinite_blacklist"
  | K_signature_witness => "signature_witness"
  | K_external_check_only => "external_check_only"
  | K_conditional_universal => "conditional_universal"
  | K_unsupported => "unsupported"
  | K_AND => "AND"
  | K_OR => "OR"
  end.

Inductive MembershipQuality := exact | lower_bound | upper_bound.
Inductive CapabilityConfidence := enumerable | partial | check_only.

Inductive EmptyReason :=
  | empty_by_design | unreadable_revert | unreadable_empty | needs_enumeration
  | bad_input | not_read | owner_read_zero | slot_read_zero | owner_read_burn_address.

Inductive Subject := root | bound.

#[export] Instance MembershipQuality_eq_dec : EqDecision MembershipQuality.
Proof. solve_decision. Defined.
#[export] Instance CapabilityConfidence_eq_dec : EqDecision CapabilityConfidence.
Proof. solve_decision. Defined.
#[export] Instance EmptyReason_eq_dec : EqDecision EmptyReason.
Proof. solve_decision. Defined.
#[export] Instance Subject_eq_dec : EqDecision Subject.
Proof. solve_decision. Defined.

Definition reason_name (r : EmptyReason) : string :=
  match r with
  | empty_by_design => "empty_by_design"
  | unreadable_revert => "unreadable_revert"
  | unreadable_empty => "unreadable_empty"
  | needs_enumeration => "needs_enumeration"
  | bad_input => "bad_input"
  | not_read => "not_read"
  | owner_read_zero => "owner_read_zero"
  | slot_read_zero => "slot_read_zero"
  | owner_read_burn_address => "owner_read_burn_address"
  end.

Definition READ_CONFIRMED_EMPTY_REASONS : list EmptyReason := [owner_read_zero; slot_read_zero].

Inductive ConditionKind :=
  | C_time | C_pause | C_reentrancy | C_business | C_self_service | C_one_shot | C_permit_sig | C_denylist.

#[export] Instance ConditionKind_eq_dec : EqDecision ConditionKind.
Proof. solve_decision. Defined.

Record Condition := MkCondition {
  cond_kind : ConditionKind;
  cond_description : string;
  cond_parameter_index : option Z;
  cond_parameter_name : option string
}.

#[export] Instance Condition_eq_dec : EqDecision Condition.
Proof. solve_decision. Defined.

Record ExternalCheck := MkExternalCheck {
  target_address : option string;
  target_call_selector : option string;
  extra : list (string * pyval)
}.

(** [int | Literal["not_determined"]] (the [None] of the source is the option). *)
Inductive AsOf := AsOfBlock (h : Z) | AsOfNotDetermined.

#[export] Instance AsOf_eq_dec : EqDecision AsOf.
Proof. solve_decision. Defined.

Definition trace_step : Type := list (string * pyval).

Inductive CapabilityExpr := MkCap {
  kind : CapKind;
  members : option (list string);
  threshold : option (Z * list string);
  blacklist : option (list string);
  signer : option CapabilityExpr;
  check : option ExternalCheck;
  conditions : list Condition;
  unsupported_reason : option string;
  children : list CapabilityExpr;
  membership_quality : MembershipQuality;
  blacklist_quality : MembershipQuality;
  confidence : CapabilityConfidence;
  empty_reason : option EmptyReason;
  last_indexed_block : option Z;
  exact_as_of : option AsOf;
  trace : list trace_step;
  subject : Subject
}.

(** Field updates the source performs on a freshly built object. *)
Definition set_trace (t : list trace_step) (c : CapabilityExpr) : CapabilityExpr :=
  MkCap (kind c) (members c) (threshold c) (blacklist c) (signer c) (check c) (conditions c)
    (unsupported_reason c) (children c) (membership_quality c) (blacklist_quality c) (confidence c)
    (empty_reason c) (last_indexed_block c) (exact_as_of c) t (subject c).

Definition set_provenance (h : option Z) (e : option AsOf) (c : CapabilityExpr) : CapabilityExpr :=
  MkCap (kind c) (members c) (threshold c) (blacklist c) (signer c) (check c) (conditions c)
    (unsupported_reason c) (children c) (membership_quality c) (blacklist_quality c) (confidence c)
    (empty_reason c) h e (trace c) (subject c).

(** ** [_canon_addresses] *)

Definition canon_le (v w : string) : Prop := str_le (str_lower v) (str_lower w).

#[export] Instance canon_le_dec : RelDecision canon_le.
Proof. intros v w. unfold canon_le. apply _. Defined.

Fixpoint canon_loop (seen : gset string) (vs : list string) : list string :=
  match vs with
  | [] => []
  | v :: vs =>
      let key := str_lower v in
      if decide (key ∈ seen) then canon_loop seen vs
      else key :: canon_loop ({[key]} ∪ seen) vs
  end.

Definition canon_addresses (values : list string) : list string :=
  canon_loop ∅ (merge_sort canon_le values).

(** ** Factories *)

Module Cap.

Definition finite_set (ms : list string) (quality : MembershipQuality) (conf : CapabilityConfidence)
    (conds : list Condition) (lib : option Z) (tr : list trace_step) (subj : Subject)
    (er : option EmptyReason) : CapabilityExpr :=
  MkCap K_finite_set (Some (canon_addresses ms)) None None None None conds None [] quality exact conf
    er lib None tr subj.

Definition threshold_group (m : Z) (signers : list string) (conf : CapabilityConfidence)
    (conds : list Condition) : CapabilityExpr :=
  MkCap K_threshold_group None (Some (m, canon_addresses signers)) None None None conds None [] exact exact
    conf None None None [] root.

Definition cofinite_blacklist (bl : list string) (conf : CapabilityConfidence) (conds : list Condition)
    (subj : Subject) (quality : MembershipQuality) : CapabilityExpr :=
  MkCap K_cofinite_blacklist None None (Some (canon_addresses bl)) None None conds None [] exact quality conf
    None None None [] subj.

Definition signature_witness (sg : CapabilityExpr) (conds : list Condition) : CapabilityExpr :=
  MkCap K_signature_witness None None None (Some sg) None conds None [] exact exact check_only
    None None None [] root.

Definition external_check_only (chk : ExternalCheck) (conds : list Condition) : CapabilityExpr :=
  MkCap K_external_check_only None None None None (Some chk) conds None [] exact exact check_only
    None None None [] root.

Definition conditional_universal (c : Condition) : CapabilityExpr :=
  MkCap K_conditional_universal None None None None None [c] None [] exact exact enumerable
    None None None [] root.

Definition unsupported (reason : string) : CapabilityExpr :=
  MkCap K_unsupported None None None None None [] (Some reason) [] exact exact check_only
    None None None [] root.

Definition structural (k : CapKind) (cs : list CapabilityExpr) : CapabilityExpr :=
  MkCap k None None None None None [] None cs exact exact enumerable None None None [] root.

Definition structural_and (cs : list CapabilityExpr) : CapabilityExpr :=
  match cs with [c] => c | _ => structural K_AND cs end.

Definition structural_or (cs : list CapabilityExpr) : CapabilityExpr :=
  match cs with [c] => c | _ => structural K_OR cs end.

End Cap.

(** ** Quality and confidence lattices *)

(** [{qa, qb} <= {"exact", "lower_bound"}] *)
Definition exact_or_lower (qa qb : MembershipQuality) : bool :=
  match qa, qb with upper_bound, _ | _, upper_bound => false | _, _ => true end.

Definition intersect_quality (qa qb : MembershipQuality) : option MembershipQuality :=
  if decide (qa = exact /\ qb = exact) then Some exact
  else if exact_or_lower qa qb then Some lower_bound
  else None.

Definition union_quality (qa qb : MembershipQuality) : option MembershipQuality :=
  if decide (qa = exact /\ qb = exact) then Some exact
  else if exact_or_lower qa qb then Some lower_bound
  else if decide (qa = upper_bound /\ qb = upper_bound) then Some upper_bound
  else None.

Definition combine_blacklist_quality (qa qb : MembershipQuality) : MembershipQuality :=
  if decide (qa = qb) then qa else lower_bound.

Definition confidence_order (c : CapabilityConfidence) : Z :=
  match c with enumerable => 2 | partial => 1 | check_only => 0 end.

Definition meet_confidence (a b : CapabilityConfidence) : CapabilityConfidence :=
  if (confidence_order a <=? confidence_order b)%Z then a else b.

(** ** Fold provenance *)

Definition any_none (hs : list (option Z)) : bool :=
  existsb (fun h => match h with None => true | Some _ => false end) hs.

(** [_propagated_height]: MIN of the heights, [None] when one is missing. *)
Definition propagated_height (ops : list CapabilityExpr) : option Z :=
  let heights := List.map last_indexed_block ops in
  if any_none heights then None else z_min_list (omap id heights).

Definition effective_quality (cap : CapabilityExpr) : MembershipQuality :=
  if decide (kind cap = K_cofinite_blacklist) then blacklist_quality cap else membership_quality cap.

(** [_carry_fold_provenance] *)
Definition carry_fold_provenance (cap : CapabilityExpr) (ops : list CapabilityExpr) (licensed : bool)
    : CapabilityExpr :=
  let heights := List.map last_indexed_block ops in
  let lib := propagated_height ops in
  if existsb (fun op => bool_decide (exact_as_of op = Some AsOfNotDetermined)) ops
     || (negb (any_none heights) && Nat.ltb 1 (List.length (remove_dups heights)))
  then set_provenance lib (Some AsOfNotDetermined) cap
  else if negb licensed then set_provenance lib None cap
  else if negb (bool_decide (effective_quality cap = exact)) then set_provenance lib None cap
  else if any_none heights then set_provenance lib None cap
  else set_provenance lib (AsOfBlock <$> (head heights ≫= id)) cap.

(** [not op.members] on an optional list. *)
Definition no_members (c : CapabilityExpr) : bool :=
  match or_nil (members c) with [] => true | _ => false end.

Definition inherited_empty_reason (ops : list CapabilityExpr) : option EmptyReason :=
  let reasons := remove_dups (omap (fun op =>
    if bool_decide (kind op = K_finite_set) && no_members op then empty_reason op else None) ops) in
  match reasons with [r] => Some r | _ => None end.

Definition reason_le (r1 r2 : EmptyReason) : Prop := str_le (reason_name r1) (reason_name r2).

#[export] Instance reason_le_dec : RelDecision reason_le.
Proof. intros r1 r2. unfold reason_le. apply _. Defined.

Definition union_empty_reason (a b : CapabilityExpr) : option EmptyReason :=
  let unproven := merge_sort reason_le (remove_dups (omap (fun op =>
    match empty_reason op with
    | Some r => if bool_decide (r ∈ READ_CONFIRMED_EMPTY_REASONS) then None else Some r
    | None => None
    end) [a; b])) in
  match unproven with r :: _ => Some r | [] => inherited_empty_reason [a; b] end.

(** ** Deferrals and conditions *)

Definition DEFERRED_MARKER : string := "deferred_pending_index".
Definition DEFERRED_STEP : string := "deferred_external_check".

(** [list(v)] of an iterable value; [deferred_topic0s] is only ever stored as a
    list by the adapters, and a non-iterable has no elements here. *)
Fixpoint str_chars (s : string) : list pyval :=
  match s with EmptyString => [] | String c s => PyStr (String c "") :: str_chars s end.

Definition py_list (v : pyval) : list pyval :=
  match v with
  | PyList l => l
  | PyStr s => str_chars s
  | PyDict d => List.map (fun kv => PyStr kv.1) d
  | _ => []
  end.

Definition deferral_steps (chk : option ExternalCheck) : list trace_step :=
  match chk with
  | None => []
  | Some chk =>
      if negb (py_truthy (py_get DEFERRED_MARKER (extra chk))) then []
      else
        let topic0s := py_get "deferred_topic0s" (extra chk) in
        if negb (py_truthy topic0s) then []
        else [[("step", PyStr DEFERRED_STEP);
               (DEFERRED_MARKER, PyBool true);
               ("target_address", py_of_opt (target_address chk));
               ("deferred_topic0s", PyList (py_list topic0s))]]
  end.

Definition is_deferral (step : trace_step) : bool := py_truthy (py_get DEFERRED_MARKER step).

Definition carried_deferrals (ops : list CapabilityExpr) : list trace_step :=
  List.concat (List.map (fun op => List.filter is_deferral (trace op)) ops).

Definition with_operand_traces (cap : CapabilityExpr) (ops : list CapabilityExpr) : CapabilityExpr :=
  set_trace (carried_deferrals ops) cap.

Definition dot_selector (selector : pyval) : string :=
  if py_truthy selector then "." ++ py_str selector else "".

Definition external_check_as_condition (chk : option ExternalCheck) : option Condition :=
  match chk with
  | None => None
  | Some chk =>
      match target_address chk with
      | Some target =>
          Some (MkCondition C_denylist
            ("denylist exclusion via external check " ++ target ++ dot_selector (py_of_opt (target_call_selector chk)))
            None None)
      | None => Some (MkCondition C_denylist "denylist exclusion via external check" None None)
      end
  end.

Fixpoint first_step_target (steps : list trace_step) (selector : pyval) : option (pyval * pyval) :=
  match steps with
  | [] => None
  | step :: steps =>
      if py_truthy (py_get "target" step)
      then Some (py_get "target" step, py_or selector (py_get "selector" step))
      else first_step_target steps selector
  end.

Definition bound_condition_description (bnd : CapabilityExpr) : string :=
  let target := match check bnd with Some c => target_address c | None => None end in
  let selector := py_of_opt (match check bnd with Some c => target_call_selector c | None => None end) in
  let found := match target with
               | Some t => Some (PyStr t, selector)
               | None => first_step_target (trace bnd) selector
               end in
  match found with
  | Some (t, sel) =>
      "delegated authorization: intermediate contract must be authorized for " ++ py_str t ++ dot_selector sel
  | None => "delegated cross-contract authorization (intermediate-contract caller)"
  end.

Definition bound_as_conditions (bnd : CapabilityExpr) : list Condition :=
  (conditions bnd ++ [MkCondition C_business (bound_condition_description bnd) None None])%list.

(** [_attach_conditions]: a copy with the conditions appended (the object itself
    when there are none). *)
Definition attach_conditions (cap : CapabilityExpr) (conds : list Condition) : CapabilityExpr :=
  match conds with
  | [] => cap
  | _ =>
      MkCap (kind cap) (members cap) (threshold cap) (blacklist cap) (signer cap) (check cap)
        (conditions cap ++ conds)%list (unsupported_reason cap) (children cap) (membership_quality cap)
        (blacklist_quality cap) (confidence cap) (empty_reason cap) (last_indexed_block cap)
        (exact_as_of cap) (trace cap) (subject cap)
  end.

Definition intersect_cross_subject (a b : CapabilityExpr) : CapabilityExpr :=
  let '(rt, bnd) := if decide (subject b = bound) then (a, b) else (b, a) in
  let out := attach_conditions rt (bound_as_conditions bnd) in
  set_trace (trace out ++ carried_deferrals [bnd]
             ++ deferral_steps (if decide (kind bnd = K_external_check_only) then check bnd else None))%list out.

(** ** Combinators *)

Definition is_nil {A} (l : list A) : bool := match l with [] => true | _ => false end.

Definition str_set (l : list string) : gset string := list_to_set l.

Definition intersect_finite (a b : CapabilityExpr) : CapabilityExpr :=
  let am := str_set (or_nil (members a)) in
  let bm := str_set (or_nil (members b)) in
  let common := canon_addresses (elements (am ∩ bm)) in
  match intersect_quality (membership_quality a) (membership_quality b) with
  | None => Cap.structural_and [a; b]
  | Some quality =>
      if is_nil common && bool_decide (am <> ∅) && bool_decide (bm <> ∅)
      then Cap.structural_and [a; b]
      else
        let cap := Cap.finite_set common quality (meet_confidence (confidence a) (confidence b))
          (conditions a ++ conditions b)%list None [] (subject a)
          (if is_nil common then inherited_empty_reason [a; b] else None) in
        carry_fold_provenance (set_trace (trace a ++ trace b)%list cap) [a; b] true
  end.

Definition union_finite (a b : CapabilityExpr) : CapabilityExpr :=
  let merged := canon_addresses (or_nil (members a) ++ or_nil (members b))%list in
  match union_quality (membership_quality a) (membership_quality b) with
  | None => Cap.structural_or [a; b]
  | Some quality =>
      let cap := Cap.finite_set merged quality (meet_confidence (confidence a) (confidence b))
        (conditions a ++ conditions b)%list None [] (subject a)
        (if is_nil merged then union_empty_reason a b else None) in
      carry_fold_provenance (set_trace (trace a ++ trace b)%list cap) [a; b] true
  end.

Definition intersect_finite_blacklist (fin blk : CapabilityExpr) : CapabilityExpr :=
  let members_set := str_set (or_nil (members fin)) in
  let bl := str_set (or_nil (blacklist blk)) in
  let out := canon_addresses (elements (members_set ∖ bl)) in
  let inherited_empty := bool_decide (members_set = ∅) in
  let cap := Cap.finite_set out (membership_quality fin) (meet_confidence (confidence fin) (confidence blk))
    (conditions fin ++ conditions blk)%list None [] root
    (if is_nil out && inherited_empty then inherited_empty_reason [fin] else None) in
  carry_fold_provenance (set_trace (trace fin ++ trace blk)%list cap) [fin; blk]
    (negb (is_nil out) || inherited_empty).

Definition union_finite_blacklist (fin blk : CapabilityExpr) : CapabilityExpr :=
  let bl := str_set (or_nil (blacklist blk)) in
  let fs := str_set (or_nil (members fin)) in
  let out := canon_addresses (elements (bl ∖ fs)) in
  carry_fold_provenance
    (with_operand_traces
       (Cap.cofinite_blacklist out (meet_confidence (confidence fin) (confidence blk))
          (conditions fin ++ conditions blk)%list root (blacklist_quality blk))
       [fin; blk])
    [fin; blk] true.

(** Both-cofinite arms of [intersect] and [union]. *)
Definition intersect_cofinite (a b : CapabilityExpr) : CapabilityExpr :=
  carry_fold_provenance
    (with_operand_traces
       (Cap.cofinite_blacklist (canon_addresses (or_nil (blacklist a) ++ or_nil (blacklist b))%list)
          enumerable [] root (combine_blacklist_quality (blacklist_quality a) (blacklist_quality b)))
       [a; b])
    [a; b] true.

Definition union_cofinite (a b : CapabilityExpr) : CapabilityExpr :=
  let ab := str_set (or_nil (blacklist a)) in
  let bb := str_set (or_nil (blacklist b)) in
  carry_fold_provenance
    (with_operand_traces
       (Cap.cofinite_blacklist (canon_addresses (elements (ab ∩ bb)))
          enumerable [] root (combine_blacklist_quality (blacklist_quality a) (blacklist_quality b)))
       [a; b])
    [a; b] true.

Definition intersect (a b : CapabilityExpr) : CapabilityExpr :=
  if decide (kind a = K_unsupported)
  then Cap.unsupported ("intersect_with_unsupported_" ++ fmt_opt (unsupported_reason a))
  else if decide (kind b = K_unsupported)
  then Cap.unsupported ("intersect_with_unsupported_" ++ fmt_opt (unsupported_reason b))
  else if decide (kind a = K_conditional_universal) then attach_conditions b (conditions a)
  else if decide (kind b = K_conditional_universal) then attach_conditions a (conditions b)
  else if decide (subject a <> subject b) then intersect_cross_subject a b
  else
    match kind a, kind b with
    | K_finite_set, K_finite_set => intersect_finite a b
    | K_finite_set, K_cofinite_blacklist => intersect_finite_blacklist a b
    | K_cofinite_blacklist, K_finite_set => intersect_finite_blacklist b a
    | K_cofinite_blacklist, K_cofinite_blacklist => intersect_cofinite a b
    | _, _ => Cap.structural_and [a; b]
    end.

Definition union (a b : CapabilityExpr) : CapabilityExpr :=
  if decide (kind a = K_unsupported) then Cap.structural_or [a; b]
  else if decide (kind b = K_unsupported) then Cap.structural_or [a; b]
  else if decide (subject a <> subject b) then Cap.structural_or [a; b]
  else
    match kind a, kind b with
    | K_finite_set, K_finite_set => union_finite a b
    | K_cofinite_blacklist, K_cofinite_blacklist => union_cofinite a b
    | K_finite_set, K_cofinite_blacklist => union_finite_blacklist a b
    | K_cofinite_blacklist, K_finite_set => union_finite_blacklist b a
    | K_conditional_universal, K_conditional_universal =>
        if decide (conditions a = conditions b) then a else Cap.structural_or [a; b]
    | _, _ => Cap.structural_or [a; b]
    end.

Fixpoint negate (a : CapabilityExpr) : CapabilityExpr :=
  match kind a with
  | K_finite_set =>
      carry_fold_provenance
        (Cap.cofinite_blacklist (or_nil (members a)) (confidence a) (conditions a) (subject a)
           (if decide (membership_quality a = exact) then exact else lower_bound))
        [a] true
  | K_cofinite_blacklist =>
      carry_fold_provenance
        (Cap.finite_set (or_nil (blacklist a))
           (if decide (blacklist_quality a = exact) then exact else lower_bound)
           (confidence a) (conditions a) None [] (subject a) None)
        [a] true
  | K_external_check_only =>
      let conds := match external_check_as_condition (check a) with
                   | Some probe => (conditions a ++ [probe])%list
                   | None => conditions a
                   end in
      set_trace (deferral_steps (check a))
        (Cap.cofinite_blacklist [] (confidence a) conds (subject a) lower_bound)
  | K_conditional_universal => Cap.unsupported "negate_conditional_universal"
  | K_threshold_group | K_signature_witness =>
      Cap.unsupported ("negate_unsupported_capability_" ++ kind_name (kind a))
  | K_unsupported => Cap.unsupported ("negate_of_" ++ fmt_opt (unsupported_reason a))
  | K_AND => Cap.structural_or (List.map negate (children a))
  | K_OR => Cap.structural_and (List.map negate (children a))
  end.

(** ** Serialized capabilities *)

Definition REACH_NOT_DETERMINED : string := "reach_condition_not_determined".

(** [s in text] *)
Fixpoint str_contains (pat s : string) : bool :=
  match str_after pat s with
  | Some _ => true
  | None => match s with EmptyString => false | String _ s => str_contains pat s end
  end.

(** [s in v]; [None] is the [TypeError] of a value that is no container. *)
Definition py_contains (s : string) (v : pyval) : option bool :=
  match v with
  | PyList l => Some (existsb (fun x => py_eq_str x s) l)
  | PyStr t => Some (str_contains s t)
  | PyDict d => Some (existsb (fun kv => String.eqb kv.1 s) d)
  | _ => None
  end.

(** [(v or {}).get(key)]; [None] is the [AttributeError] of a value that is no
    dict. *)
Definition get_or_empty (key : string) (v : pyval) : option pyval :=
  match py_or v (PyDict []) with PyDict d => Some (py_get key d) | _ => None end.

Definition is_reach_not_determined (cap_dict : pyval) : option bool :=
  match cap_dict with
  | PyDict d =>
      if negb (py_eq_str (py_get "kind" d) "external_check_only") then Some false
      else
        extra ← get_or_empty "extra" (py_get "check" d);
        basis ← get_or_empty "basis" extra;
        py_contains REACH_NOT_DETERMINED (py_or basis (PyList []))
  | _ => Some false
  end.
