(* ===== verification/CapabilitiesTheory.v ===== *)
(** * Correctness of the authority-set algebra

    - canonical address lists: [canon_addresses] computes the unique sorted,
      lower-cased, duplicate-free list of its input;
    - a semantics [denotes]: the sets of callers a capability is compatible
      with, given the quality it claims; [intersect], [union] and [negate]
      are sound for it, alone and composed ([gate]);
    - fold provenance: no composition mints an as-of height its leaves do not
      share;
    - emptiness and deferral bookkeeping. *)

From stdpp Require Import base gmap sets list strings sorting.
From Stdlib Require Import String Ascii ZArith Lia.
From S2P Require Import Prelude Capabilities.

(** ** Canonical address lists *)

Definition canonical (l : list string) : Prop :=
  StronglySorted str_lt l /\ Forall (fun x => str_lower x = x) l.

#[export] Instance canon_le_total : Total canon_le.
Proof. intros v w. apply (total str_le). Qed.
#[export] Instance canon_le_trans : Transitive canon_le.
Proof. intros u v w. unfold canon_le. apply (transitivity (R := str_le)). Qed.

Lemma elem_of_canon_loop x seen vs :
  x ∈ canon_loop seen vs <-> x ∉ seen /\ exists v, v ∈ vs /\ x = str_lower v.
Proof.
  revert seen. induction vs as [|v vs IH]; intros seen; cbn; [set_solver|].
  case_decide as Hin; rewrite ?elem_of_cons, IH; split.
  - intros [Hn (w & Hw & ->)]. split; [done|]. exists w. set_solver.
  - intros [Hn (w & Hw & ->)]. split; [done|]. apply elem_of_cons in Hw as [->|Hw]; [done|]. by exists w.
  - intros [->|[Hn (w & Hw & ->)]]; (split; [set_solver|]); eexists; (split; [|done]); set_solver.
  - intros [Hn (w & Hw & ->)]. destruct (decide (str_lower w = str_lower v)) as [->|Hne]; [by left|].
    right. split; [set_solver|]. apply elem_of_cons in Hw as [->|Hw]; [done|]. by exists w.
Qed.

Lemma NoDup_canon_loop seen vs : NoDup (canon_loop seen vs).
Proof.
  revert seen. induction vs as [|v vs IH]; intros seen; cbn; [constructor|].
  case_decide; [done|]. constructor; [|done]. rewrite elem_of_canon_loop. set_solver.
Qed.

Lemma sorted_canon_loop seen vs :
  StronglySorted canon_le vs -> StronglySorted str_le (canon_loop seen vs).
Proof.
  intros H. revert seen. induction H as [|v vs H IH Hv]; intros seen; cbn; [constructor|].
  case_decide; [done|]. constructor; [done|].
  rewrite Forall_forall in Hv |- *. intros x (Hn & w & Hw & ->)%elem_of_canon_loop. by apply Hv.
Qed.

Lemma elem_of_canon x vs : x ∈ canon_addresses vs <-> exists v, v ∈ vs /\ x = str_lower v.
Proof.
  unfold canon_addresses. rewrite elem_of_canon_loop.
  setoid_rewrite (merge_sort_Permutation canon_le vs). set_solver.
Qed.

Lemma canon_canonical vs : canonical (canon_addresses vs).
Proof.
  split.
  - apply sorted_le_NoDup_lt; [|apply NoDup_canon_loop].
    apply sorted_canon_loop, StronglySorted_merge_sort; apply _.
  - apply Forall_forall. intros x (v & _ & ->)%elem_of_canon. apply str_lower_idemp.
Qed.

Lemma canonical_lower l x : canonical l -> x ∈ l -> str_lower x = x.
Proof. intros [_ H] Hx. rewrite Forall_forall in H. by apply H. Qed.

Lemma canonical_nil : canonical [].
Proof. split; constructor. Qed.

(** On lower-cased input only the order and the duplicates change. *)
Lemma elem_of_canon_lower x vs :
  (forall v, v ∈ vs -> str_lower v = v) -> x ∈ canon_addresses vs <-> x ∈ vs.
Proof.
  intros H. rewrite elem_of_canon. split.
  - intros (v & Hv & ->). by rewrite H.
  - intros Hx. exists x. by rewrite H.
Qed.

Lemma canon_fixpoint l : canonical l -> canon_addresses l = l.
Proof.
  intros Hl. apply sorted_lt_ext; [apply canon_canonical|apply Hl|].
  intros x. apply elem_of_canon_lower. intros v. by apply canonical_lower.
Qed.

Lemma canon_idemp vs : canon_addresses (canon_addresses vs) = canon_addresses vs.
Proof. apply canon_fixpoint, canon_canonical. Qed.

Lemma is_nil_true {A} (l : list A) : is_nil l = true <-> l = [].
Proof. by destruct l. Qed.

#[export] Hint Resolve canon_canonical canonical_nil : psat.
#[export] Hint Rewrite canon_idemp : psat.

(** ** Well-formed capabilities *)

Section CapInduction.
Context (P : CapabilityExpr -> Prop).
Hypothesis step : forall c, Forall P (children c) -> P c.

Fixpoint cap_children_ind (c : CapabilityExpr) : P c :=
  step c (match c with
          | MkCap _ _ _ _ _ _ _ _ cs _ _ _ _ _ _ _ _ =>
              (fix go (cs : list CapabilityExpr) : Forall P cs :=
                 match cs with
                 | [] => Forall_nil_2 P
                 | c :: cs => Forall_cons_2 P c cs (cap_children_ind c) (go cs)
                 end) cs
          end).
End CapInduction.

(** Lists are in canonical form, as every factory leaves them. *)
Inductive wf_cap : CapabilityExpr -> Prop :=
  | wf_cap_intro c :
      canonical (or_nil (members c)) -> canonical (or_nil (blacklist c)) ->
      canonical (default [] (snd <$> threshold c)) ->
      Forall wf_cap (children c) -> wf_cap c.

(** The quality of what a leaf enumerates: members for a finite set, the
    exclusion for a cofinite one.  No producer in the source emits
    [upper_bound]; [qualified] states it. *)
Inductive qualified : CapabilityExpr -> Prop :=
  | qualified_intro c :
      (kind c = K_finite_set -> membership_quality c <> upper_bound) ->
      (kind c = K_cofinite_blacklist -> blacklist_quality c <> upper_bound) ->
      Forall qualified (children c) -> qualified c.

(** ** Semantics: the caller sets a capability is compatible with *)

Definition callers : Type := string -> bool.

Definition claims (q : MembershipQuality) (l : list string) (S : callers) : Prop :=
  match q with
  | exact => forall x, S x = true <-> x ∈ l
  | lower_bound => forall x, x ∈ l -> S x = true
  | upper_bound => forall x, S x = true -> x ∈ l
  end.

Definition excludes (q : MembershipQuality) (l : list string) (S : callers) : Prop :=
  claims q l (fun x => negb (S x)).

Inductive denotes : CapabilityExpr -> callers -> Prop :=
  | den_finite c S :
      kind c = K_finite_set -> claims (membership_quality c) (or_nil (members c)) S -> denotes c S
  | den_cofinite c S :
      kind c = K_cofinite_blacklist -> excludes (blacklist_quality c) (or_nil (blacklist c)) S -> denotes c S
  | den_threshold c S :
      kind c = K_threshold_group ->
      (forall x, S x = true <-> x ∈ default [] (snd <$> threshold c)) -> denotes c S
  | den_universal c S : kind c = K_conditional_universal -> (forall x, S x = true) -> denotes c S
  | den_opaque c S :
      kind c ∈ [K_signature_witness; K_external_check_only; K_unsupported] -> denotes c S
  | den_and c Ss S :
      kind c = K_AND -> Forall2 denotes (children c) Ss ->
      (forall x, S x = forallb (fun T => T x) Ss) -> denotes c S
  | den_or c Ss S :
      kind c = K_OR -> Forall2 denotes (children c) Ss ->
      (forall x, S x = existsb (fun T => T x) Ss) -> denotes c S.

Lemma claims_ext q l S S' : (forall x, S x = S' x) -> claims q l S -> claims q l S'.
Proof. intros E. destruct q; cbn; intros H x; rewrite <- E; apply H. Qed.

Lemma denotes_ext c S S' : (forall x, S x = S' x) -> denotes c S -> denotes c S'.
Proof.
  intros E H. destruct H.
  - apply den_finite; [done|]. by eapply claims_ext.
  - apply den_cofinite; [done|]. eapply claims_ext; [|done]. intros x. cbn. by rewrite E.
  - apply den_threshold; [done|]. intros x. by rewrite <- E.
  - apply den_universal; [done|]. intros x. by rewrite <- E.
  - by apply den_opaque.
  - eapply den_and; [done..|]. intros x. by rewrite <- E.
  - eapply den_or; [done..|]. intros x. by rewrite <- E.
Qed.

#[export] Instance denotes_proper :
  Proper ((=) ==> pointwise_relation string (=) ==> iff) denotes.
Proof. intros c ? <- S S' E. split; apply denotes_ext; intros x; by rewrite E. Qed.

(** The fields the semantics reads. *)
Definition same_core (c d : CapabilityExpr) : Prop :=
  kind c = kind d /\ members c = members d /\ threshold c = threshold d /\ blacklist c = blacklist d /\
  children c = children d /\ membership_quality c = membership_quality d /\
  blacklist_quality c = blacklist_quality d.

Lemma denotes_core c d S : same_core c d -> denotes c S -> denotes d S.
Proof.
  intros (Ek & Em & Et & Eb & Ec & Emq & Ebq) H.
  destruct H; rewrite ?Ek, ?Em, ?Et, ?Eb, ?Ec, ?Emq, ?Ebq in *; eauto using denotes.
Qed.

Lemma wf_cap_core c d : same_core c d -> wf_cap c -> wf_cap d.
Proof.
  intros (Ek & Em & Et & Eb & Ec & _) H. destruct H as [c H1 H2 H3 H4].
  rewrite Em in H1. rewrite Eb in H2. rewrite Et in H3. rewrite Ec in H4. by constructor.
Qed.

Lemma qualified_core c d : same_core c d -> qualified c -> qualified d.
Proof.
  intros (Ek & Em & Et & Eb & Ec & Emq & Ebq) H. destruct H as [c H1 H2 H3].
  rewrite Ek, Emq in H1. rewrite Ek, Ebq in H2. rewrite Ec in H3. by constructor.
Qed.

Lemma same_core_refl c : same_core c c.
Proof. by unfold same_core. Qed.

Lemma same_core_attach c conds : same_core c (attach_conditions c conds).
Proof. by destruct conds. Qed.

Lemma same_core_trace c t : same_core c (set_trace t c).
Proof. done. Qed.

Lemma same_core_carry c ops l : same_core c (carry_fold_provenance c ops l).
Proof. unfold carry_fold_provenance. by repeat case_match. Qed.

Lemma same_core_cross a b :
  same_core (if decide (subject b = bound) then a else b) (intersect_cross_subject a b).
Proof. unfold intersect_cross_subject. case_decide; apply same_core_attach. Qed.

#[export] Hint Resolve same_core_refl same_core_attach same_core_trace same_core_carry : psat.

(** A combinator's result through the bookkeeping wrappers. *)
Ltac through_core :=
  eapply denotes_core; [first [apply same_core_carry | apply same_core_attach]|];
  try (eapply denotes_core; [apply same_core_trace|]).

Lemma denotes_structural_and a b Sa Sb :
  denotes a Sa -> denotes b Sb -> denotes (Cap.structural_and [a; b]) (fun x => Sa x && Sb x).
Proof.
  intros Ha Hb. apply (den_and _ [Sa; Sb]); cbn; [done|by repeat apply Forall2_cons_2; try apply Forall2_nil_2|].
  intros x. by rewrite andb_true_r.
Qed.

Lemma denotes_structural_or a b Sa Sb :
  denotes a Sa -> denotes b Sb -> denotes (Cap.structural_or [a; b]) (fun x => Sa x || Sb x).
Proof.
  intros Ha Hb. apply (den_or _ [Sa; Sb]); cbn; [done|by repeat apply Forall2_cons_2; try apply Forall2_nil_2|].
  intros x. by rewrite orb_false_r.
Qed.

(** Inversion by kind. *)
Lemma denotes_finite_inv c S :
  kind c = K_finite_set -> denotes c S -> claims (membership_quality c) (or_nil (members c)) S.
Proof. intros E H. destruct H as [| | | |? ? Hk| |]; try congruence. rewrite E in Hk. set_solver. Qed.

Lemma denotes_cofinite_inv c S :
  kind c = K_cofinite_blacklist -> denotes c S -> excludes (blacklist_quality c) (or_nil (blacklist c)) S.
Proof. intros E H. destruct H as [| | | |? ? Hk| |]; try congruence. rewrite E in Hk. set_solver. Qed.

Lemma denotes_universal_inv c S : kind c = K_conditional_universal -> denotes c S -> forall x, S x = true.
Proof. intros E H. destruct H as [| | | |? ? Hk| |]; try congruence. rewrite E in Hk. set_solver. Qed.

Lemma wf_members c : wf_cap c -> canonical (or_nil (members c)).
Proof. by intros []. Qed.
Lemma wf_blacklist c : wf_cap c -> canonical (or_nil (blacklist c)).
Proof. by intros []. Qed.

(** Set operations on canonical lists, through [canon_addresses]. *)
Lemma elem_of_canon_elements (X : gset string) x :
  (forall v, v ∈ X -> str_lower v = v) -> x ∈ canon_addresses (elements X) <-> x ∈ X.
Proof. intros H. rewrite elem_of_canon_lower; [set_solver|]. intros v Hv. apply H. set_solver. Qed.

Lemma elem_of_canon_inter l1 l2 x :
  canonical l1 -> x ∈ canon_addresses (elements (str_set l1 ∩ str_set l2)) <-> x ∈ l1 /\ x ∈ l2.
Proof.
  intros H. unfold str_set. rewrite elem_of_canon_elements; [set_solver|].
  intros v Hv. apply (canonical_lower l1); [done|set_solver].
Qed.

Lemma elem_of_canon_diff l1 l2 x :
  canonical l1 -> x ∈ canon_addresses (elements (str_set l1 ∖ str_set l2)) <-> x ∈ l1 /\ x ∉ l2.
Proof.
  intros H. unfold str_set. rewrite elem_of_canon_elements; [set_solver|].
  intros v Hv. apply (canonical_lower l1); [done|set_solver].
Qed.

Lemma elem_of_canon_app l1 l2 x :
  canonical l1 -> canonical l2 -> x ∈ canon_addresses (l1 ++ l2)%list <-> x ∈ l1 \/ x ∈ l2.
Proof.
  intros H1 H2. rewrite elem_of_canon_lower; [apply elem_of_app|].
  intros v [Hv|Hv]%elem_of_app; eauto using canonical_lower.
Qed.

(** ** Soundness of the closed forms *)

Section ClosedForms.
Context (a b : CapabilityExpr) (Sa Sb : callers).
Context (Wa : wf_cap a) (Wb : wf_cap b) (Da : denotes a Sa) (Db : denotes b Sb).

Lemma intersect_finite_sound :
  kind a = K_finite_set -> kind b = K_finite_set ->
  denotes (intersect_finite a b) (fun x => Sa x && Sb x).
Proof.
  intros Ka Kb. apply denotes_finite_inv in Da as Ca, Db as Cb; [|done..].
  unfold intersect_finite, intersect_quality.
  destruct (membership_quality a), (membership_quality b); cbn in *;
    try (apply denotes_structural_and; done);
    (destruct (is_nil _ && _ && _); [by apply denotes_structural_and|]);
    through_core; (apply den_finite; [done|]); cbn; intros x; rewrite canon_idemp, elem_of_canon_inter by
      (by apply wf_members); rewrite ?andb_true_iff; specialize (Ca x); specialize (Cb x); tauto.
Qed.

Lemma union_finite_sound :
  kind a = K_finite_set -> kind b = K_finite_set ->
  denotes (union_finite a b) (fun x => Sa x || Sb x).
Proof.
  intros Ka Kb. apply denotes_finite_inv in Da as Ca, Db as Cb; [|done..].
  unfold union_finite, union_quality.
  destruct (membership_quality a), (membership_quality b); cbn in *;
    try (apply denotes_structural_or; done);
    through_core; (apply den_finite; [done|]); cbn; intros x; rewrite canon_idemp, elem_of_canon_app by
      (by apply wf_members); rewrite ?orb_true_iff; specialize (Ca x); specialize (Cb x); tauto.
Qed.

Lemma intersect_finite_blacklist_sound :
  kind a = K_finite_set -> kind b = K_cofinite_blacklist -> blacklist_quality b = exact ->
  denotes (intersect_finite_blacklist a b) (fun x => Sa x && Sb x).
Proof.
  intros Ka Kb Qb. apply denotes_finite_inv in Da as Ca; [|done].
  apply denotes_cofinite_inv in Db as Cb; [|done]. unfold excludes in Cb. rewrite Qb in Cb. cbn in Cb.
  assert (forall x, Sb x = true <-> x ∉ or_nil (blacklist b)) as Cb'.
  { intros x. rewrite <- Cb. by destruct (Sb x). }
  unfold intersect_finite_blacklist. through_core. apply den_finite; [done|]. cbn.
  destruct (membership_quality a); cbn in *; intros x;
    rewrite canon_idemp, elem_of_canon_diff by (by apply wf_members);
    rewrite ?andb_true_iff; specialize (Ca x); specialize (Cb' x); tauto.
Qed.

Lemma union_finite_blacklist_sound :
  kind a = K_finite_set -> kind b = K_cofinite_blacklist -> membership_quality a = exact ->
  denotes (union_finite_blacklist a b) (fun x => Sa x || Sb x).
Proof.
  intros Ka Kb Qa. apply denotes_finite_inv in Da as Ca; [|done].
  apply denotes_cofinite_inv in Db as Cb; [|done]. rewrite Qa in Ca. cbn in Ca. unfold excludes in Cb.
  assert (forall x, negb (Sa x) = true <-> x ∉ or_nil (members a)) as Ca'.
  { intros x. rewrite <- Ca. by destruct (Sa x). }
  unfold union_finite_blacklist. through_core. apply den_cofinite; [done|]. unfold excludes. cbn.
  destruct (blacklist_quality b); cbn in *; intros x;
    rewrite canon_idemp, elem_of_canon_diff by (by apply wf_blacklist);
    rewrite negb_orb, andb_true_iff; specialize (Ca' x); specialize (Cb x); tauto.
Qed.

Lemma intersect_cofinite_sound :
  kind a = K_cofinite_blacklist -> kind b = K_cofinite_blacklist ->
  blacklist_quality a <> upper_bound -> blacklist_quality b <> upper_bound ->
  denotes (intersect_cofinite a b) (fun x => Sa x && Sb x).
Proof.
  intros Ka Kb Qa Qb. apply denotes_cofinite_inv in Da as Ca, Db as Cb; [|done..].
  unfold intersect_cofinite, combine_blacklist_quality. through_core.
  apply den_cofinite; [done|]. unfold excludes in *. cbn.
  destruct (blacklist_quality a), (blacklist_quality b); cbn in *; try done; intros x;
    rewrite canon_idemp, elem_of_canon_app by (by apply wf_blacklist);
    rewrite negb_andb, orb_true_iff; specialize (Ca x); specialize (Cb x); tauto.
Qed.

Lemma union_cofinite_sound :
  kind a = K_cofinite_blacklist -> kind b = K_cofinite_blacklist ->
  blacklist_quality a <> upper_bound -> blacklist_quality b <> upper_bound ->
  denotes (union_cofinite a b) (fun x => Sa x || Sb x).
Proof.
  intros Ka Kb Qa Qb. apply denotes_cofinite_inv in Da as Ca, Db as Cb; [|done..].
  unfold union_cofinite, combine_blacklist_quality. through_core.
  apply den_cofinite; [done|]. unfold excludes in *. cbn.
  destruct (blacklist_quality a), (blacklist_quality b); cbn in *; try done; intros x;
    rewrite canon_idemp, elem_of_canon_inter by (by apply wf_blacklist);
    rewrite negb_orb, andb_true_iff; specialize (Ca x); specialize (Cb x); tauto.
Qed.
End ClosedForms.

(** ** Soundness of the combinators *)

(** A cofinite operand met by a finite one enumerates its exclusions. *)
Definition exclusion_exact (a b : CapabilityExpr) : Prop :=
  (kind a = K_finite_set -> kind b = K_cofinite_blacklist -> blacklist_quality b = exact) /\
  (kind b = K_finite_set -> kind a = K_cofinite_blacklist -> blacklist_quality a = exact).

(** A finite operand joined to a cofinite one is enumerated in full. *)
Definition allowance_exact (a b : CapabilityExpr) : Prop :=
  (kind a = K_finite_set -> kind b = K_cofinite_blacklist -> membership_quality a = exact) /\
  (kind b = K_finite_set -> kind a = K_cofinite_blacklist -> membership_quality b = exact).

Lemma qualified_blacklist c :
  qualified c -> kind c = K_cofinite_blacklist -> blacklist_quality c <> upper_bound.
Proof. by intros []. Qed.

Lemma qualified_members c :
  qualified c -> kind c = K_finite_set -> membership_quality c <> upper_bound.
Proof. by intros []. Qed.

Lemma denotes_swap_and c Sa Sb :
  denotes c (fun x => Sb x && Sa x) -> denotes c (fun x => Sa x && Sb x).
Proof. apply denotes_ext. intros x. apply andb_comm. Qed.

Lemma denotes_swap_or c Sa Sb :
  denotes c (fun x => Sb x || Sa x) -> denotes c (fun x => Sa x || Sb x).
Proof. apply denotes_ext. intros x. apply orb_comm. Qed.

Lemma intersect_denotes a b Sa Sb :
  wf_cap a -> wf_cap b -> qualified a -> qualified b -> subject a = subject b -> exclusion_exact a b ->
  denotes a Sa -> denotes b Sb -> denotes (intersect a b) (fun x => Sa x && Sb x).
Proof.
  intros Wa Wb Qa Qb Es [X1 X2] Da Db. unfold intersect.
  case_decide as Ka; [apply den_opaque; cbn; set_solver|].
  case_decide as Kb; [apply den_opaque; cbn; set_solver|].
  case_decide as Ua.
  { through_core. eapply denotes_ext; [|exact Db]. intros x. cbn. by rewrite (denotes_universal_inv a Sa). }
  case_decide as Ub.
  { through_core. eapply denotes_ext; [|exact Da]. intros x. cbn.
    by rewrite (denotes_universal_inv b Sb), andb_true_r. }
  rewrite decide_False by (by intros []).
  destruct (kind a) eqn:Ea, (kind b) eqn:Eb; try done; try (by apply denotes_structural_and).
  - by apply intersect_finite_sound.
  - apply intersect_finite_blacklist_sound; auto.
  - apply denotes_swap_and, intersect_finite_blacklist_sound; auto.
  - apply intersect_cofinite_sound; auto using qualified_blacklist.
Qed.

Lemma union_denotes a b Sa Sb :
  wf_cap a -> wf_cap b -> qualified a -> qualified b -> allowance_exact a b ->
  denotes a Sa -> denotes b Sb -> denotes (union a b) (fun x => Sa x || Sb x).
Proof.
  intros Wa Wb Qa Qb [X1 X2] Da Db. unfold union.
  case_decide as Ka; [by apply denotes_structural_or|].
  case_decide as Kb; [by apply denotes_structural_or|].
  case_decide as Es; [by apply denotes_structural_or|].
  destruct (kind a) eqn:Ea, (kind b) eqn:Eb; try done; try (by apply denotes_structural_or).
  - by apply union_finite_sound.
  - apply union_finite_blacklist_sound; auto.
  - apply denotes_swap_or, union_finite_blacklist_sound; auto.
  - apply union_cofinite_sound; auto using qualified_blacklist.
  - case_decide; [|by apply denotes_structural_or].
    apply den_universal; [done|]. intros x. by rewrite (denotes_universal_inv a Sa).
Qed.

(** De Morgan over a list of denotations. *)
Lemma forallb_negb (Ss : list callers) x :
  negb (forallb (fun T => T x) Ss) = existsb (fun T => T x) (List.map (fun T y => negb (T y)) Ss).
Proof. induction Ss as [|T Ss IH]; cbn; [done|]. by rewrite negb_andb, IH. Qed.

Lemma existsb_negb (Ss : list callers) x :
  negb (existsb (fun T => T x) Ss) = forallb (fun T => T x) (List.map (fun T y => negb (T y)) Ss).
Proof. induction Ss as [|T Ss IH]; cbn; [done|]. by rewrite negb_orb, IH. Qed.

Lemma denotes_structural_or_list cs Ss S :
  Forall2 denotes cs Ss -> (forall x, S x = existsb (fun T => T x) Ss) ->
  denotes (Cap.structural_or cs) S.
Proof.
  intros H E. destruct H as [|c T cs Ss Hc [|c' T' cs' Ss' Hc' H]].
  - eapply (den_or _ []); done.
  - eapply denotes_ext; [|exact Hc]. intros x. by rewrite E; cbn; rewrite orb_false_r.
  - eapply den_or; [done| |done]. cbn. apply Forall2_cons_2; [done|]. by apply Forall2_cons_2.
Qed.

Lemma denotes_structural_and_list cs Ss S :
  Forall2 denotes cs Ss -> (forall x, S x = forallb (fun T => T x) Ss) ->
  denotes (Cap.structural_and cs) S.
Proof.
  intros H E. destruct H as [|c T cs Ss Hc [|c' T' cs' Ss' Hc' H]].
  - eapply (den_and _ []); done.
  - eapply denotes_ext; [|exact Hc]. intros x. by rewrite E; cbn; rewrite andb_true_r.
  - eapply den_and; [done| |done]. cbn. apply Forall2_cons_2; [done|]. by apply Forall2_cons_2.
Qed.

Lemma negate_denotes a Sa :
  wf_cap a -> qualified a -> denotes a Sa -> denotes (negate a) (fun x => negb (Sa x)).
Proof.
  revert Sa. induction a as [a IH] using cap_children_ind. intros Sa Wa Qa Da.
  assert (forall Ss, Forall2 denotes (children a) Ss ->
          Forall2 denotes (List.map negate (children a)) (List.map (fun T y => negb (T y)) Ss)) as IHs.
  { intros Ss HSs. destruct Wa as [? _ _ _ Wc], Qa as [? _ _ Qc]. induction HSs; cbn; [constructor|].
    repeat match goal with H : Forall _ (_ :: _) |- _ => apply Forall_cons in H as [? ?] end.
    constructor; auto. }
  pose proof (qualified_members a Qa) as Qm. pose proof (qualified_blacklist a Qa) as Qb.
  destruct a as [k ms th bl sg ck cds ur cs mq bq cf er lib eao tr sj]; cbn in *.
  inversion Da as [? ? K C|? ? K C|? ? K C|? ? K C|? ? K|? Ss ? K HS HSx|? Ss ? K HS HSx]; subst; cbn in *; try subst k; cbn -[carry_fold_provenance].
  - through_core. apply den_cofinite; [done|]. unfold excludes. cbn.
    rewrite canon_fixpoint by (by apply (wf_members _ Wa)).
    destruct mq; cbn in *; try (exfalso; by apply Qm); intros x; rewrite negb_involutive; naive_solver.
  - through_core. apply den_finite; [done|]. unfold excludes in C. cbn.
    rewrite canon_fixpoint by (by apply (wf_blacklist _ Wa)).
    destruct bq; cbn in *; try (exfalso; by apply Qb); done.
  - apply den_opaque. set_solver.
  - apply den_opaque. set_solver.
  - set_unfold in K. destruct K as [->|[->|[->|[]]]]; cbn.
    + apply den_opaque. set_solver.
    + apply den_cofinite; [done|]. unfold excludes. cbn. set_solver.
    + apply den_opaque. set_solver.
  - eapply denotes_structural_or_list; [by apply IHs|]. intros x. by rewrite HSx, forallb_negb.
  - eapply denotes_structural_and_list; [by apply IHs|]. intros x. by rewrite HSx, existsb_negb.
Qed.

(** ** The combinators keep capabilities well formed *)

Lemma wf_finite_set ms q cf cd l t s e : wf_cap (Cap.finite_set ms q cf cd l t s e).
Proof. constructor; cbn; auto with psat. Qed.
Lemma wf_cofinite bl cf cd s q : wf_cap (Cap.cofinite_blacklist bl cf cd s q).
Proof. constructor; cbn; auto with psat. Qed.
Lemma wf_unsupported r : wf_cap (Cap.unsupported r).
Proof. constructor; cbn; auto with psat. Qed.
Lemma wf_structural_and cs : Forall wf_cap cs -> wf_cap (Cap.structural_and cs).
Proof.
  intros H. destruct H as [|c cs Hc [|c' cs' Hc' H]]; cbn; [|done|];
    constructor; cbn; auto using Forall_nil_2, Forall_cons_2 with psat.
Qed.
Lemma wf_structural_or cs : Forall wf_cap cs -> wf_cap (Cap.structural_or cs).
Proof.
  intros H. destruct H as [|c cs Hc [|c' cs' Hc' H]]; cbn; [|done|];
    constructor; cbn; auto using Forall_nil_2, Forall_cons_2 with psat.
Qed.

#[export] Hint Resolve wf_finite_set wf_cofinite wf_unsupported wf_structural_and wf_structural_or : psat.
#[export] Hint Resolve Forall_nil_2 Forall_cons_2 : psat.

Ltac wf_core :=
  eapply wf_cap_core; [first [apply same_core_carry | apply same_core_attach | apply same_core_cross]|].

Lemma wf_intersect a b : wf_cap a -> wf_cap b -> wf_cap (intersect a b).
Proof.
  intros Wa Wb. unfold intersect. repeat case_decide; auto with psat; try (by wf_core).
  - wf_core. by case_decide.
  - unfold intersect_finite, intersect_finite_blacklist, intersect_cofinite, with_operand_traces.
    repeat case_match; auto with psat; wf_core; (eapply wf_cap_core; [apply same_core_trace|]); auto with psat.
Qed.

Lemma wf_union a b : wf_cap a -> wf_cap b -> wf_cap (union a b).
Proof.
  intros Wa Wb. unfold union. do 3 (case_decide; [auto with psat|]).
  unfold union_finite, union_finite_blacklist, union_cofinite, with_operand_traces.
  repeat case_match; auto with psat; wf_core; (eapply wf_cap_core; [apply same_core_trace|]); auto with psat.
Qed.

Lemma Forall_map_children (P : CapabilityExpr -> Prop) cs :
  Forall (fun c => P c -> P (negate c)) cs -> Forall P cs -> Forall P (List.map negate cs).
Proof. induction 1; cbn; [done|]. intros [? ?]%Forall_cons. constructor; auto. Qed.

Lemma wf_negate a : wf_cap a -> wf_cap (negate a).
Proof.
  induction a as [a IH] using cap_children_ind. intros Wa.
  assert (Forall wf_cap (List.map negate (children a))) as Wc.
  { apply Forall_map_children; [done|]. by destruct Wa. }
  destruct a as [k ? ? ? ? ? ? ? ? ? ? ? ? ? ? ? ?]; destruct k;
    cbn -[carry_fold_provenance Cap.structural_or Cap.structural_and Cap.unsupported Cap.finite_set
          Cap.cofinite_blacklist] in *;
    auto with psat; try wf_core; auto with psat.
  eapply wf_cap_core; [apply same_core_trace|]. auto with psat.
Qed.

(** ** Exact capabilities of the root caller *)

Inductive exact_cap : CapabilityExpr -> Prop :=
  | exact_cap_intro c :
      kind c <> K_external_check_only -> subject c = root ->
      (kind c = K_finite_set -> membership_quality c = exact) ->
      (kind c = K_cofinite_blacklist -> blacklist_quality c = exact) ->
      Forall exact_cap (children c) -> exact_cap c.

Lemma exact_cap_core c d : same_core c d -> subject d = subject c -> exact_cap c -> exact_cap d.
Proof.
  intros (Ek & Em & Et & Eb & Ec & Emq & Ebq) Es H. destruct H as [c H1 H2 H3 H4 H5].
  rewrite Ek in *. rewrite Emq in H3. rewrite Ebq in H4. rewrite Ec in H5. rewrite <- Es in H2.
  by constructor.
Qed.

Lemma exact_members c : exact_cap c -> kind c = K_finite_set -> membership_quality c = exact.
Proof. by intros []. Qed.
Lemma exact_blacklist c : exact_cap c -> kind c = K_cofinite_blacklist -> blacklist_quality c = exact.
Proof. by intros []. Qed.
Lemma exact_root c : exact_cap c -> subject c = root.
Proof. by intros []. Qed.

Lemma exact_qualified c : exact_cap c -> qualified c.
Proof.
  induction c as [c IH] using cap_children_ind. intros X. destruct X as [c H1 H2 H3 H4 H5].
  constructor; [intros K; by rewrite H3|intros K; by rewrite H4|].
  clear H1 H2 H3 H4. induction H5; inversion IH; subst; constructor; auto.
Qed.

Lemma exact_finite_set ms cf cd l t e : exact_cap (Cap.finite_set ms exact cf cd l t root e).
Proof. by constructor; cbn. Qed.
Lemma exact_cofinite bl cf cd : exact_cap (Cap.cofinite_blacklist bl cf cd root exact).
Proof. by constructor; cbn. Qed.
Lemma exact_unsupported r : exact_cap (Cap.unsupported r).
Proof. by constructor; cbn. Qed.
Lemma exact_structural_and cs : Forall exact_cap cs -> exact_cap (Cap.structural_and cs).
Proof.
  intros H. destruct H as [|c cs Hc [|c' cs' Hc' H]]; cbn; [|done|]; constructor; cbn; try done;
    auto using Forall_cons_2.
Qed.
Lemma exact_structural_or cs : Forall exact_cap cs -> exact_cap (Cap.structural_or cs).
Proof.
  intros H. destruct H as [|c cs Hc [|c' cs' Hc' H]]; cbn; [|done|]; constructor; cbn; try done;
    auto using Forall_cons_2.
Qed.

Lemma subject_carry c ops l : subject (carry_fold_provenance c ops l) = subject c.
Proof. unfold carry_fold_provenance. by repeat case_match. Qed.
Lemma subject_attach c cds : subject (attach_conditions c cds) = subject c.
Proof. by destruct cds. Qed.

#[export] Hint Resolve exact_finite_set exact_cofinite exact_unsupported exact_structural_and
  exact_structural_or : psat.

Ltac exact_core :=
  eapply exact_cap_core;
    [first [apply same_core_carry | apply same_core_attach]
    |first [apply subject_carry | apply subject_attach]|];
  try (eapply exact_cap_core; [apply same_core_trace|done|]).

Lemma exact_intersect a b : exact_cap a -> exact_cap b -> exact_cap (intersect a b).
Proof.
  intros Xa Xb. unfold intersect. pose proof (exact_root a Xa) as Ra. pose proof (exact_root b Xb) as Rb.
  do 2 (case_decide; [auto with psat|]). do 2 (case_decide; [by exact_core|]).
  rewrite Ra, Rb. rewrite decide_False by (by intros []).
  destruct (kind a) eqn:Ka, (kind b) eqn:Kb; auto with psat.
  - unfold intersect_finite. rewrite (exact_members a), (exact_members b), Ra by done.
    change (intersect_quality exact exact) with (Some exact); cbv iota.
    destruct (is_nil _ && _ && _); [auto with psat|]. exact_core. auto with psat.
  - unfold intersect_finite_blacklist. rewrite (exact_members a) by done. exact_core. auto with psat.
  - unfold intersect_finite_blacklist. rewrite (exact_members b) by done. exact_core. auto with psat.
  - unfold intersect_cofinite. rewrite (exact_blacklist a), (exact_blacklist b) by done.
    exact_core. apply exact_cofinite.
Qed.

Lemma exact_union a b : exact_cap a -> exact_cap b -> exact_cap (union a b).
Proof.
  intros Xa Xb. unfold union. pose proof (exact_root a Xa) as Ra. pose proof (exact_root b Xb) as Rb.
  do 3 (case_decide; [auto with psat|]).
  destruct (kind a) eqn:Ka, (kind b) eqn:Kb; auto with psat.
  - unfold union_finite. rewrite (exact_members a), (exact_members b), Ra by done.
    exact_core. apply exact_finite_set.
  - unfold union_finite_blacklist. rewrite (exact_blacklist b) by done. exact_core. apply exact_cofinite.
  - unfold union_finite_blacklist. rewrite (exact_blacklist a) by done. exact_core. apply exact_cofinite.
  - unfold union_cofinite. rewrite (exact_blacklist a), (exact_blacklist b) by done.
    exact_core. apply exact_cofinite.
  - case_decide; auto with psat.
Qed.

Lemma exact_negate a : exact_cap a -> exact_cap (negate a).
Proof.
  induction a as [a IH] using cap_children_ind. intros Xa.
  assert (Forall exact_cap (List.map negate (children a))) as Xc.
  { apply Forall_map_children; [done|]. by destruct Xa. }
  pose proof (exact_root a Xa) as Ra. pose proof (exact_members a Xa) as Ma.
  pose proof (exact_blacklist a Xa) as Ba. assert (kind a <> K_external_check_only) as Na by (by destruct Xa).
  destruct a as [k ? ? ? ? ? ? ? ? ? ? ? ? ? ? ? ?]; destruct k;
    cbn -[carry_fold_provenance Cap.structural_or Cap.structural_and Cap.unsupported Cap.finite_set
          Cap.cofinite_blacklist] in *; subst;
    auto with psat; try done; exact_core.
  - rewrite Ma by done. apply exact_cofinite.
  - rewrite Ba by done. apply exact_finite_set.
Qed.

(** ** Compositions *)

Inductive gate :=
  | GLeaf (c : CapabilityExpr) (T : callers)
  | GAnd (g h : gate)
  | GOr (g h : gate)
  | GNot (g : gate).

Fixpoint eval_gate (g : gate) : CapabilityExpr :=
  match g with
  | GLeaf c _ => c
  | GAnd g h => intersect (eval_gate g) (eval_gate h)
  | GOr g h => union (eval_gate g) (eval_gate h)
  | GNot g => negate (eval_gate g)
  end.

Fixpoint gate_callers (g : gate) : callers :=
  match g with
  | GLeaf _ T => T
  | GAnd g h => fun x => gate_callers g x && gate_callers h x
  | GOr g h => fun x => gate_callers g x || gate_callers h x
  | GNot g => fun x => negb (gate_callers g x)
  end.

Fixpoint gate_leaves (P : CapabilityExpr -> callers -> Prop) (g : gate) : Prop :=
  match g with
  | GLeaf c T => P c T
  | GAnd g h | GOr g h => gate_leaves P g /\ gate_leaves P h
  | GNot g => gate_leaves P g
  end.

Lemma gate_inv g :
  gate_leaves (fun c S => wf_cap c /\ exact_cap c /\ denotes c S) g ->
  wf_cap (eval_gate g) /\ exact_cap (eval_gate g) /\ denotes (eval_gate g) (gate_callers g).
Proof.
  induction g as [c S|g IHg h IHh|g IHg h IHh|g IHg]; cbn; [done|intros [Hg Hh]..|intros Hg].
  - destruct (IHg Hg) as (Wg & Xg & Dg), (IHh Hh) as (Wh & Xh & Dh).
    split_and!; auto using wf_intersect, exact_intersect.
    apply intersect_denotes; auto using exact_qualified.
    + by rewrite !exact_root.
    + split; intros; by apply exact_blacklist.
  - destruct (IHg Hg) as (Wg & Xg & Dg), (IHh Hh) as (Wh & Xh & Dh).
    split_and!; auto using wf_union, exact_union.
    apply union_denotes; auto using exact_qualified. split; intros; by apply exact_members.
  - destruct (IHg Hg) as (Wg & Xg & Dg).
    split_and!; auto using wf_negate, exact_negate, negate_denotes, exact_qualified.
Qed.

(** ** Fold provenance *)

Lemma remove_dups_all_equal {A} `{EqDecision A} (l : list A) x y :
  (List.length (remove_dups l) <= 1)%nat -> x ∈ l -> y ∈ l -> x = y.
Proof.
  intros Hl Hx Hy. rewrite <- elem_of_remove_dups in Hx, Hy.
  destruct (remove_dups l) as [|z [|w r]]; cbn in Hl; [set_solver| |lia]. set_solver.
Qed.

Lemma any_none_false hs : any_none hs = false <-> forall h, h ∈ hs -> is_Some h.
Proof.
  unfold any_none. induction hs as [|[h|] hs IH]; cbn.
  - set_solver.
  - rewrite IH. set_unfold. naive_solver.
  - split; [done|]. intros H. destruct (H None) as [? ?]; [set_solver|done].
Qed.

Definition poisoned (c : CapabilityExpr) : Prop := exact_as_of c = Some AsOfNotDetermined.

Lemma last_indexed_carry c ops l :
  last_indexed_block (carry_fold_provenance c ops l) = propagated_height ops.
Proof. unfold carry_fold_provenance. by repeat case_match. Qed.

Lemma kind_carry c ops l : kind (carry_fold_provenance c ops l) = kind c.
Proof. unfold carry_fold_provenance. by repeat case_match. Qed.

(** A refusal in an operand poisons the result. *)
Lemma carry_poisoned c ops l op : op ∈ ops -> poisoned op -> poisoned (carry_fold_provenance c ops l).
Proof.
  intros Hin Hp. unfold carry_fold_provenance.
  rewrite (proj2 (existsb_exists _ ops)); [done|].
  exists op. by rewrite <- list_elem_of_In, bool_decide_eq_true.
Qed.

(** A published as-of is the height of every operand. *)
Lemma carry_as_of c ops l h :
  exact_as_of (carry_fold_provenance c ops l) = Some (AsOfBlock h) ->
  l = true /\ effective_quality c = exact /\
  forall op, op ∈ ops -> last_indexed_block op = Some h /\ ~ poisoned op.
Proof.
  unfold carry_fold_provenance. destruct (existsb _ _) eqn:Ep; [done|].
  destruct (negb (any_none _) && _) eqn:Ed; [done|]. destruct l; [|done]. cbn.
  case_bool_decide as Eq; [|done]. cbn. destruct (any_none _) eqn:En; [done|]. cbn.
  intros Eh. split_and!; [done..|]. intros op Hop. split.
  - cbn [negb andb] in Ed. apply Nat.ltb_ge in Ed.
    destruct ops as [|op0 ops]; [set_solver|]. cbn in Eh.
    destruct (last_indexed_block op0) as [h0|] eqn:E0; [|done]. cbn in Eh. simplify_eq.
    rewrite <- E0. eapply remove_dups_all_equal; [exact Ed| |]; rewrite list_elem_of_In.
    + apply in_map. by rewrite <- list_elem_of_In.
    + by left.
  - intros Hp. assert (existsb (fun op => bool_decide (exact_as_of op = Some AsOfNotDetermined)) ops = true); [|congruence].
    apply existsb_exists. exists op. by rewrite <- list_elem_of_In, bool_decide_eq_true.
Qed.

(** The propagated height is the least operand height, and needs all of them. *)
Lemma propagated_height_min ops h :
  propagated_height ops = Some h ->
  (forall op, op ∈ ops -> exists k, last_indexed_block op = Some k /\ (h <= k)%Z) /\
  (exists op, op ∈ ops /\ last_indexed_block op = Some h).
Proof.
  unfold propagated_height. destruct (any_none _) eqn:En; [done|]. intros E.
  rewrite any_none_false in En.
  assert (forall k, k ∈ omap id (List.map last_indexed_block ops) <->
          exists op, op ∈ ops /\ last_indexed_block op = Some k) as Hk.
  { intros k. rewrite list_elem_of_omap. setoid_rewrite list_elem_of_In. setoid_rewrite in_map_iff.
    split; [intros (? & (op & <- & ?) & ?); eauto|intros (op & ? & ?); eexists; eauto]. }
  destruct (omap id _) as [|z zs] eqn:Ez; [done|]. cbn in E. simplify_eq. split.
  - intros op Hop. destruct (En (last_indexed_block op)) as [k Ek].
    { rewrite list_elem_of_In. apply in_map. by rewrite <- list_elem_of_In. }
    exists k. split; [done|]. apply foldr_min_le. rewrite <- elem_of_cons, Hk. eauto.
  - apply Hk. clear. induction zs as [|y zs IH]; cbn; [set_solver|].
    destruct (Z.min_spec y (foldr Z.min z zs)) as [[_ ->]|[_ ->]]; set_solver.
Qed.

Definition heights_equal (h : Z) : gate -> Prop := gate_leaves (fun c _ => last_indexed_block c = Some h).

(** Provenance of a closed form built from a composition. *)
Definition provenance_ok (g : gate) (c : CapabilityExpr) : Prop :=
  (poisoned c \/ last_indexed_block c = None \/
   exists h, last_indexed_block c = Some h /\ heights_equal h g) /\
  (forall h, exact_as_of c = Some (AsOfBlock h) -> last_indexed_block c = Some h).

Definition enumerated (c : CapabilityExpr) : Prop := kind c = K_finite_set \/ kind c = K_cofinite_blacklist.

(** Shape of every composition of enumerated root leaves. *)
Definition comp_shape (g : gate) (c : CapabilityExpr) : Prop :=
  subject c = root /\
  (enumerated c /\ provenance_ok g c \/
   (kind c = K_AND \/ kind c = K_OR) /\ (2 <= List.length (children c))%nat /\ exact_as_of c = None).

Lemma provenance_carry2 g1 g2 g a b c l :
  (forall h, heights_equal h g1 -> heights_equal h g2 -> heights_equal h g) ->
  provenance_ok g1 a -> provenance_ok g2 b -> provenance_ok g (carry_fold_provenance c [a; b] l).
Proof.
  intros Hg [Pa Ha] [Pb Hb].
  destruct (decide (exact_as_of a = Some AsOfNotDetermined)) as [Na|Na];
    [|destruct (decide (exact_as_of b = Some AsOfNotDetermined)) as [Nb|Nb]].
  1,2: assert (poisoned (carry_fold_provenance c [a; b] l)) as P by
    (eapply carry_poisoned; [|eassumption]; set_solver); split; [by left|]; intros h; unfold poisoned in P; congruence.
  destruct (propagated_height [a; b]) as [h|] eqn:Eh.
  - destruct (propagated_height_min _ _ Eh) as [Hall _].
    destruct (Hall a) as (ka & Eka & _); [set_solver|]. destruct (Hall b) as (kb & Ekb & _); [set_solver|].
    destruct (decide (ka = kb)) as [<-|Hne].
    + destruct (propagated_height_min _ _ Eh) as [_ (op & Hop & Eop)].
      assert (h = ka) as -> by (set_unfold in Hop; destruct Hop as [->|[->|[]]]; congruence).
      split.
      * right; right. exists ka. rewrite last_indexed_carry. split; [done|].
        destruct Pa as [?|[?|(h1 & E1 & G1)]]; [done|congruence|].
        destruct Pb as [?|[?|(h2 & E2 & G2)]]; [done|congruence|].
        simplify_eq. by apply Hg.
      * intros h' E'. rewrite last_indexed_carry. destruct (carry_as_of _ _ _ _ E') as (_ & _ & Hop').
        destruct (Hop' a) as [? _]; [set_solver|]. congruence.
    + split; [left|].
      * unfold poisoned, carry_fold_provenance.
        replace (negb _ && _) with true; [by rewrite orb_true_r|].
        cbn [List.map any_none existsb]. rewrite Eka, Ekb. cbn [orb negb andb]. symmetry.
        apply Nat.ltb_lt, Nat.nle_gt. intros Hl.
        assert (Some ka = Some kb); [|congruence]. eapply remove_dups_all_equal; [exact Hl|set_solver..].
      * intros h' E'. destruct (carry_as_of _ _ _ _ E') as (_ & _ & Hop').
        destruct (Hop' a) as [? _]; [set_solver|]. destruct (Hop' b) as [? _]; [set_solver|]. congruence.
  - split; [right; left; by rewrite last_indexed_carry|].
    intros h' E'. destruct (carry_as_of _ _ _ _ E') as (_ & _ & Hop').
    unfold propagated_height in Eh. cbn in Eh.
    destruct (Hop' a) as [Ea _]; [set_solver|]. destruct (Hop' b) as [Eb _]; [set_solver|].
    by rewrite Ea, Eb in Eh.
Qed.

Lemma provenance_carry1 g g' a c l :
  (forall h, heights_equal h g -> heights_equal h g') ->
  provenance_ok g a -> provenance_ok g' (carry_fold_provenance c [a] l).
Proof.
  intros Hg [Pa Ha].
  destruct (decide (exact_as_of a = Some AsOfNotDetermined)) as [Na|Na].
  { assert (poisoned (carry_fold_provenance c [a] l)) as P by
      (eapply carry_poisoned; [|eassumption]; set_solver).
    split; [by left|]. intros h. unfold poisoned in P. congruence. }
  assert (propagated_height [a] = last_indexed_block a) as Eh.
  { unfold propagated_height. cbn. by destruct (last_indexed_block a). }
  split.
  - right. rewrite last_indexed_carry, Eh.
    destruct Pa as [?|[?|(h & E & G)]]; [done|by left|right; eauto].
  - intros h E. destruct (carry_as_of _ _ _ _ E) as (_ & _ & Hop).
    destruct (Hop a) as [? _]; [set_solver|]. by rewrite last_indexed_carry, Eh.
Qed.

Lemma comp_shape_structural k g a b :
  k = K_AND \/ k = K_OR -> comp_shape g (Cap.structural k [a; b]).
Proof. intros Hk. split; [done|]. right. cbn. split_and!; [done|lia|done]. Qed.

Lemma comp_shape_carry2 g1 g2 g a b c l :
  (forall h, heights_equal h g1 -> heights_equal h g2 -> heights_equal h g) ->
  provenance_ok g1 a -> provenance_ok g2 b -> enumerated c -> subject c = root ->
  comp_shape g (carry_fold_provenance c [a; b] l).
Proof.
  intros Hg Pa Pb Hc Hs. split; [by rewrite subject_carry|]. left. split.
  - unfold enumerated. by rewrite kind_carry.
  - by eapply provenance_carry2.
Qed.

Lemma structural_or_length cs :
  (2 <= List.length cs)%nat -> Cap.structural_or cs = Cap.structural K_OR cs.
Proof. destruct cs as [|? [|? ?]]; cbn; [lia|lia|done]. Qed.
Lemma structural_and_length cs :
  (2 <= List.length cs)%nat -> Cap.structural_and cs = Cap.structural K_AND cs.
Proof. destruct cs as [|? [|? ?]]; cbn; [lia|lia|done]. Qed.

(** The combinators past their guards. *)
Definition plain (c : CapabilityExpr) : Prop :=
  kind c <> K_unsupported /\ kind c <> K_conditional_universal.

Lemma intersect_dispatch a b :
  plain a -> plain b -> subject a = subject b ->
  intersect a b = match kind a, kind b with
                  | K_finite_set, K_finite_set => intersect_finite a b
                  | K_finite_set, K_cofinite_blacklist => intersect_finite_blacklist a b
                  | K_cofinite_blacklist, K_finite_set => intersect_finite_blacklist b a
                  | K_cofinite_blacklist, K_cofinite_blacklist => intersect_cofinite a b
                  | _, _ => Cap.structural_and [a; b]
                  end.
Proof.
  intros [Pa Ua] [Pb Ub] E. unfold intersect. do 4 (rewrite decide_False by done).
  by rewrite decide_False by (by intros []).
Qed.

Lemma union_dispatch a b :
  plain a -> plain b -> subject a = subject b ->
  union a b = match kind a, kind b with
              | K_finite_set, K_finite_set => union_finite a b
              | K_cofinite_blacklist, K_cofinite_blacklist => union_cofinite a b
              | K_finite_set, K_cofinite_blacklist => union_finite_blacklist a b
              | K_cofinite_blacklist, K_finite_set => union_finite_blacklist b a
              | _, _ => Cap.structural_or [a; b]
              end.
Proof.
  intros [Pa Ua] [Pb Ub] E. unfold union. do 2 (rewrite decide_False by done).
  rewrite decide_False by (by intros []). by destruct (kind a), (kind b).
Qed.

Lemma comp_shape_plain g c : comp_shape g c -> plain c.
Proof. intros [_ [[[K|K] _]|[[K|K] _]]]; split; rewrite K; done. Qed.

Section Binary.
Context (g1 g2 g : gate) (a b : CapabilityExpr).
Context (Hg : forall h, heights_equal h g <-> heights_equal h g1 /\ heights_equal h g2).
Context (Ca : comp_shape g1 a) (Cb : comp_shape g2 b).

Local Ltac shape := first
  [ by apply comp_shape_structural; auto
  | eapply (comp_shape_carry2 g1 g2); [naive_solver|done|done|by left|done]
  | eapply (comp_shape_carry2 g1 g2); [naive_solver|done|done|by right|done]
  | eapply (comp_shape_carry2 g2 g1); [naive_solver|done|done|by left|done]
  | eapply (comp_shape_carry2 g2 g1); [naive_solver|done|done|by right|done] ].

Lemma comp_shape_and : comp_shape g (intersect a b).
Proof.
  rewrite intersect_dispatch by (eauto using comp_shape_plain; destruct Ca, Cb; congruence).
  destruct Ca as [Ra [[[Ka|Ka] Pa]|[[Ka|Ka] _]]], Cb as [Rb [[[Kb|Kb] Pb]|[[Kb|Kb] _]]];
    rewrite Ka, ?Kb; try shape.
  unfold intersect_finite. destruct (intersect_quality _ _); [|shape].
  destruct (is_nil _ && _ && _); shape.
Qed.

Lemma comp_shape_or : comp_shape g (union a b).
Proof.
  rewrite union_dispatch by (eauto using comp_shape_plain; destruct Ca, Cb; congruence).
  destruct Ca as [Ra [[[Ka|Ka] Pa]|[[Ka|Ka] _]]], Cb as [Rb [[[Kb|Kb] Pb]|[[Kb|Kb] _]]];
    rewrite Ka, ?Kb; try shape.
  unfold union_finite. destruct (union_quality _ _); shape.
Qed.
End Binary.

Lemma comp_shape_not g a : comp_shape g a -> comp_shape (GNot g) (negate a).
Proof.
  intros [Ra Sa]. destruct a as [k ? ? ? ? ? ? ? cs ? ? ? ? ? ? ? ?]. cbn in Ra. subst.
  destruct Sa as [[[Ka|Ka] Pa]|[[Ka|Ka] [Hl _]]]; cbn in Ka; subst k; cbn -[carry_fold_provenance Cap.structural_or
    Cap.structural_and] in *.
  1,2: (split; [by rewrite subject_carry|]); left; (split; [unfold enumerated; rewrite kind_carry; cbn; auto|]);
    eapply provenance_carry1; [|exact Pa]; done.
  1: rewrite structural_or_length by (by rewrite length_map).
  2: rewrite structural_and_length by (by rewrite length_map).
  all: split; [done|]; right; cbn; rewrite length_map; auto.
Qed.

Definition indexed_leaf (c : CapabilityExpr) : Prop :=
  enumerated c /\ subject c = root /\
  (forall h, exact_as_of c = Some (AsOfBlock h) -> last_indexed_block c = Some h).

Lemma comp_shape_gate g : gate_leaves (fun c _ => indexed_leaf c) g -> comp_shape g (eval_gate g).
Proof.
  induction g as [c S|g IHg h IHh|g IHg h IHh|g IHg]; cbn.
  - intros (E & R & H). split; [done|]. left. split; [done|]. split; [|done].
    destruct (last_indexed_block c) as [h|] eqn:El; [right; right; by exists h|by right; left].
  - intros [Hg Hh]. apply (comp_shape_and g h); auto.
  - intros [Hg Hh]. apply (comp_shape_or g h); auto.
  - intros Hg. by apply comp_shape_not; auto.
Qed.

Lemma gate_as_of g h :
  gate_leaves (fun c _ => indexed_leaf c) g ->
  exact_as_of (eval_gate g) = Some (AsOfBlock h) -> heights_equal h g.
Proof.
  intros H E. destruct (comp_shape_gate g H) as [_ [[_ [P Hl]]|(_ & _ & N)]]; [|congruence].
  destruct P as [P|[P|(h' & E' & G)]].
  - unfold poisoned in P. congruence.
  - rewrite (Hl h E) in P. done.
  - rewrite (Hl h E) in E'. by simplify_eq.
Qed.

(** ** Emptiness *)

Lemma str_set_nil l : str_set l = ∅ <-> l = [].
Proof.
  unfold str_set. split; [|by intros ->]. destruct l as [|x l]; [done|]. intros E. exfalso.
  assert (x ∈ (∅ : gset string)) by (rewrite <- E; set_solver). set_solver.
Qed.

Lemma members_carry c ops l : members (carry_fold_provenance c ops l) = members c.
Proof. unfold carry_fold_provenance. by repeat case_match. Qed.
Lemma empty_reason_carry c ops l : empty_reason (carry_fold_provenance c ops l) = empty_reason c.
Proof. unfold carry_fold_provenance. by repeat case_match. Qed.
Lemma trace_carry c ops l : trace (carry_fold_provenance c ops l) = trace c.
Proof. unfold carry_fold_provenance. by repeat case_match. Qed.
Lemma children_carry c ops l : children (carry_fold_provenance c ops l) = children c.
Proof. unfold carry_fold_provenance. by repeat case_match. Qed.

#[export] Hint Rewrite members_carry empty_reason_carry trace_carry children_carry kind_carry
  subject_carry last_indexed_carry : psat.

Lemma intersect_finite_empty a b :
  kind (intersect_finite a b) = K_finite_set -> members (intersect_finite a b) = Some [] ->
  or_nil (members a) = [] \/ or_nil (members b) = [].
Proof.
  unfold intersect_finite. destruct (intersect_quality _ _); [|done].
  destruct (is_nil _) eqn:En; cbn [andb].
  - destruct (decide (or_nil (members a) = [])) as [|Na]; [auto|].
    destruct (decide (or_nil (members b) = [])) as [|Nb]; [auto|].
    rewrite <- str_set_nil in Na, Nb. by rewrite !bool_decide_true by done.
  - intros _. rewrite members_carry. cbn. rewrite canon_idemp. intros E. injection E as E.
    by rewrite E in En.
Qed.

(** ** Deferral steps *)

Fixpoint held_steps (c : CapabilityExpr) : list trace_step :=
  (trace c ++ List.concat (List.map held_steps (children c)))%list.

Definition flat (c : CapabilityExpr) : Prop := enumerated c -> children c = [].

Lemma held_flat c : children c = [] -> held_steps c = trace c.
Proof. destruct c; cbn. intros ->. apply app_nil_r. Qed.

Lemma elem_of_carried step ops :
  step ∈ carried_deferrals ops <-> is_deferral step = true /\ exists op, op ∈ ops /\ step ∈ trace op.
Proof.
  unfold carried_deferrals. setoid_rewrite list_elem_of_In. rewrite in_concat. setoid_rewrite in_map_iff. split.
  - intros (l & (op & <- & Hop) & [Hs Hd]%filter_In). eauto.
  - intros (Hd & op & Hop & Hs). eexists. split; [eexists; split; [reflexivity|done]|]. by apply filter_In.
Qed.

Lemma held_structural k a b step :
  step ∈ held_steps a \/ step ∈ held_steps b -> step ∈ held_steps (Cap.structural k [a; b]).
Proof. cbn. rewrite app_nil_r. set_solver. Qed.

Section Deferrals.
Context (a b : CapabilityExpr) (step : trace_step).
Context (Fa : children a = []) (Fb : children b = []).
Context (Hs : step ∈ held_steps a \/ step ∈ held_steps b) (Hd : is_deferral step = true).

Lemma deferral_traced c l :
  children c = [] -> trace c = (trace a ++ trace b)%list \/ trace c = (trace b ++ trace a)%list
    \/ trace c = carried_deferrals [a; b] \/ trace c = carried_deferrals [b; a] ->
  step ∈ held_steps (carry_fold_provenance c [a; b] l) /\ step ∈ held_steps (carry_fold_provenance c [b; a] l).
Proof.
  rewrite !held_flat in Hs by done. intros Hc Ht.
  rewrite !held_flat by (by autorewrite with psat). rewrite !trace_carry.
  destruct Ht as [->|[->|[->| ->]]]; rewrite ?elem_of_app, ?elem_of_carried; set_solver.
Qed.
End Deferrals.

Lemma intersect_deferrals a b step :
  plain a -> plain b -> subject a = subject b -> flat a -> flat b ->
  step ∈ held_steps a \/ step ∈ held_steps b -> is_deferral step = true ->
  step ∈ held_steps (intersect a b).
Proof.
  intros Pa Pb E Fa Fb Hs Hd. rewrite intersect_dispatch by done.
  unfold flat, enumerated in Fa, Fb.
  destruct (kind a), (kind b); try (by apply held_structural);
    specialize (Fa ltac:(auto)); specialize (Fb ltac:(auto)).
  - unfold intersect_finite. destruct (intersect_quality _ _); [|by apply held_structural].
    destruct (is_nil _ && _ && _); [by apply held_structural|].
    apply (deferral_traced a b); auto.
  - apply (deferral_traced a b); auto.
  - apply (deferral_traced a b); auto.
  - apply (deferral_traced a b); auto.
Qed.

Lemma union_deferrals a b step :
  plain a -> plain b -> subject a = subject b -> flat a -> flat b ->
  step ∈ held_steps a \/ step ∈ held_steps b -> is_deferral step = true ->
  step ∈ held_steps (union a b).
Proof.
  intros Pa Pb E Fa Fb Hs Hd. rewrite union_dispatch by done.
  unfold flat, enumerated in Fa, Fb.
  destruct (kind a), (kind b); try (by apply held_structural);
    specialize (Fa ltac:(auto)); specialize (Fb ltac:(auto)).
  - unfold union_finite. destruct (union_quality _ _); [|by apply held_structural].
    apply (deferral_traced a b); auto.
  - apply (deferral_traced a b); auto.
  - apply (deferral_traced a b); auto.
  - apply (deferral_traced a b); auto.
Qed.

(** ** Properties *)

(** [_canon_addresses] is a canonical form: two address lists get the same
    canonical list exactly when they hold the same addresses up to letter case,
    whatever their order and duplicates. *)
Theorem canon_addresses_canonical_form (vs ws : list string) :
  canon_addresses vs = canon_addresses ws <->
  (forall x, (exists v, v ∈ vs /\ str_lower v = x) <-> (exists w, w ∈ ws /\ str_lower w = x)).
Proof.
  split.
  - intros E x. pose proof (elem_of_canon x vs) as H1. pose proof (elem_of_canon x ws) as H2.
    rewrite E in H1. naive_solver.
  - intros E. apply sorted_lt_ext; [apply canon_canonical..|]. intros x.
    rewrite !elem_of_canon. specialize (E x). naive_solver.
Qed.

(** C1: A composition of exact, root-subject leaves under the AND, OR and NOT
    combinators denotes the boolean combination of the leaves' caller sets; a
    finite result lists precisely those callers and a cofinite result excludes
    precisely the others. *)
Theorem gate_exact_sound (g : gate) :
  gate_leaves (fun c T => wf_cap c /\ exact_cap c /\ denotes c T) g ->
  denotes (eval_gate g) (gate_callers g) /\
  (kind (eval_gate g) = K_finite_set ->
     forall x, x ∈ or_nil (members (eval_gate g)) <-> gate_callers g x = true) /\
  (kind (eval_gate g) = K_cofinite_blacklist ->
     forall x, x ∈ or_nil (blacklist (eval_gate g)) <-> gate_callers g x = false).
Proof.
  intros H. destruct (gate_inv g H) as (W & X & D). split_and!; [done|intros K x..].
  - apply denotes_finite_inv in D; [|done]. rewrite (exact_members _ X K) in D. symmetry. apply D.
  - apply denotes_cofinite_inv in D; [|done]. unfold excludes in D. rewrite (exact_blacklist _ X K) in D.
    rewrite <- negb_true_iff. symmetry. apply D.
Qed.

(** A finite leaf with the set it lists. *)
Definition finite_leaf (ms : list string) : CapabilityExpr :=
  Cap.finite_set ms exact enumerable [] None [] root None.
Definition listed (ms : list string) : callers := fun x => bool_decide (x ∈ canon_addresses ms).

Lemma finite_leaf_ok ms :
  wf_cap (finite_leaf ms) /\ exact_cap (finite_leaf ms) /\ denotes (finite_leaf ms) (listed ms).
Proof.
  split_and!; [apply wf_finite_set|apply exact_finite_set|].
  apply den_finite; [done|]. intros x. unfold listed. by rewrite bool_decide_eq_true.
Qed.

Definition example_gate : gate :=
  GAnd (GOr (GLeaf (finite_leaf ["0xB"; "0xa"]) (listed ["0xB"; "0xa"]))
            (GLeaf (finite_leaf ["0xc"]) (listed ["0xc"])))
       (GNot (GLeaf (finite_leaf ["0xb"]) (listed ["0xb"]))).

Lemma gate_exact_sound_witness :
  members (eval_gate example_gate) = Some ["0xa"; "0xc"] /\
  denotes (eval_gate example_gate) (gate_callers example_gate).
Proof.
  split; [vm_compute; reflexivity|].
  refine (proj1 (gate_exact_sound example_gate _)).
  cbn. split_and!; apply finite_leaf_ok.
Defined.

(** [intersect] is sound for every quality it accepts: whatever callers the
    operands are compatible with, the result is compatible with their
    intersection, provided a cofinite operand met by a finite one enumerates
    its exclusions exactly. *)
Theorem intersect_sound (a b : CapabilityExpr) (Sa Sb : callers) :
  wf_cap a -> wf_cap b -> qualified a -> qualified b -> subject a = subject b -> exclusion_exact a b ->
  denotes a Sa -> denotes b Sb ->
  wf_cap (intersect a b) /\ denotes (intersect a b) (fun x => Sa x && Sb x).
Proof. intros. split; [by apply wf_intersect|by apply intersect_denotes]. Qed.

(** Witness operands: a lower-bound finite set and an exact denylist. *)
Definition partial_leaf : CapabilityExpr := Cap.finite_set ["0xa"; "0xb"] lower_bound partial [] None [] root None.
Definition deny_leaf : CapabilityExpr := Cap.cofinite_blacklist ["0xb"] enumerable [] root exact.

Lemma partial_leaf_ok : wf_cap partial_leaf /\ qualified partial_leaf /\ denotes partial_leaf (fun _ => true).
Proof. split_and!; [apply wf_finite_set|by constructor|]. by apply den_finite. Qed.

Lemma deny_leaf_ok :
  wf_cap deny_leaf /\ qualified deny_leaf /\ denotes deny_leaf (fun x => negb (listed ["0xb"] x)).
Proof.
  split_and!; [apply wf_cofinite|by constructor|]. apply den_cofinite; [done|].
  intros x. rewrite negb_involutive. unfold listed. by rewrite bool_decide_eq_true.
Qed.

Lemma intersect_sound_witness :
  members (intersect partial_leaf deny_leaf) = Some ["0xa"] /\
  denotes (intersect partial_leaf deny_leaf) (fun x => true && negb (listed ["0xb"] x)).
Proof.
  split; [vm_compute; reflexivity|].
  destruct partial_leaf_ok as (W1 & Q1 & D1), deny_leaf_ok as (W2 & Q2 & D2).
  refine (proj2 (intersect_sound partial_leaf deny_leaf _ _ W1 W2 Q1 Q2 eq_refl _ D1 D2)).
  by split.
Defined.

(** [union] is sound the same way, with the finite operand of a mixed union
    enumerated in full; operands of different subjects are never merged. *)
Theorem union_sound (a b : CapabilityExpr) (Sa Sb : callers) :
  wf_cap a -> wf_cap b -> qualified a -> qualified b -> allowance_exact a b ->
  denotes a Sa -> denotes b Sb ->
  wf_cap (union a b) /\ denotes (union a b) (fun x => Sa x || Sb x) /\
  (subject a <> subject b -> union a b = Cap.structural K_OR [a; b]).
Proof.
  intros. split_and!; [by apply wf_union|by apply union_denotes|].
  intros E. unfold union. repeat case_decide; done.
Qed.

Lemma union_sound_witness :
  blacklist (union (finite_leaf ["0xb"]) deny_leaf) = Some [] /\
  denotes (union (finite_leaf ["0xb"]) deny_leaf) (fun x => listed ["0xb"] x || negb (listed ["0xb"] x)).
Proof.
  split; [vm_compute; reflexivity|].
  destruct (finite_leaf_ok ["0xb"]) as (W1 & X1 & D1), deny_leaf_ok as (W2 & Q2 & D2).
  refine (proj1 (proj2 (union_sound _ _ _ _ W1 W2 (exact_qualified _ X1) Q2 _ D1 D2))).
  by split.
Defined.

(** [negate] is sound on every kind, structural nodes included (De Morgan):
    the result is compatible with the complement of whatever the operand is
    compatible with. *)
Theorem negate_sound (a : CapabilityExpr) (Sa : callers) :
  wf_cap a -> qualified a -> denotes a Sa ->
  wf_cap (negate a) /\ denotes (negate a) (fun x => negb (Sa x)).
Proof. intros. split; [by apply wf_negate|by apply negate_denotes]. Qed.

Lemma negate_sound_witness :
  blacklist_quality (negate partial_leaf) = lower_bound /\ denotes (negate partial_leaf) (fun _ => negb true).
Proof.
  split; [reflexivity|]. destruct partial_leaf_ok as (W1 & Q1 & D1).
  exact (proj2 (negate_sound partial_leaf _ W1 Q1 D1)).
Defined.

(** Whatever is composed out of enumerated root leaves with AND, OR and NOT,
    an as-of height on the result is the index height of every single leaf:
    a composition that mixes heights, or includes a leaf without one, never
    publishes an as-of, however it is nested. *)
Theorem as_of_not_laundered (g : gate) (h : Z) :
  gate_leaves (fun c _ => indexed_leaf c) g ->
  exact_as_of (eval_gate g) = Some (AsOfBlock h) ->
  gate_leaves (fun c _ => last_indexed_block c = Some h) g.
Proof. apply gate_as_of. Qed.

Definition indexed_at (h : Z) (ms : list string) : CapabilityExpr :=
  Cap.finite_set ms exact enumerable [] (Some h) [] root None.

Definition example_indexed : gate :=
  GOr (GLeaf (indexed_at 17 ["0xa"]) (listed ["0xa"]))
      (GNot (GLeaf (indexed_at 17 ["0xb"]) (listed ["0xb"]))).

Lemma as_of_not_laundered_witness :
  exact_as_of (eval_gate example_indexed) = Some (AsOfBlock 17) /\
  gate_leaves (fun c _ => last_indexed_block c = Some 17%Z) example_indexed /\
  exact_as_of (eval_gate (GAnd example_indexed (GLeaf (indexed_at 16 ["0xa"]) (listed ["0xa"]))))
    = Some AsOfNotDetermined.
Proof.
  split; [vm_compute; reflexivity|]. split; [|vm_compute; reflexivity].
  apply (as_of_not_laundered example_indexed 17); [|vm_compute; reflexivity].
  cbn. split; (split_and!; [by left|done|done]).
Defined.

(** The intersection of two finite sets is published as an empty finite set
    only when one of the operands was already empty; emptiness the
    intersection itself creates stays a structural AND. *)
Theorem intersect_never_creates_empty (a b : CapabilityExpr) :
  kind a = K_finite_set -> kind b = K_finite_set -> subject a = subject b ->
  kind (intersect a b) = K_finite_set -> members (intersect a b) = Some [] ->
  or_nil (members a) = [] \/ or_nil (members b) = [].
Proof.
  intros Ka Kb E. rewrite intersect_dispatch; [|split; by rewrite ?Ka, ?Kb..|done].
  rewrite Ka, Kb. apply intersect_finite_empty.
Qed.

Lemma intersect_never_creates_empty_witness :
  kind (intersect (finite_leaf ["0xa"]) (finite_leaf ["0xb"])) = K_AND /\
  (or_nil (members (finite_leaf [])) = [] \/ or_nil (members (finite_leaf ["0xb"])) = []).
Proof.
  split; [vm_compute; reflexivity|].
  by apply (intersect_never_creates_empty (finite_leaf []) (finite_leaf ["0xb"])).
Defined.

(** No combinator loses a cold-index deferral: a deferral step recorded in
    either operand (or below it) is still reachable in their intersection and
    in their union, so the reconciler can re-resolve the result. *)
Theorem deferrals_survive (a b : CapabilityExpr) (step : trace_step) :
  plain a -> plain b -> subject a = subject b -> flat a -> flat b ->
  step ∈ held_steps a \/ step ∈ held_steps b -> is_deferral step = true ->
  step ∈ held_steps (intersect a b) /\ step ∈ held_steps (union a b).
Proof. intros. split; [by apply intersect_deferrals|by apply union_deferrals]. Qed.

Definition deferred_check : ExternalCheck :=
  MkExternalCheck (Some "0xd") (Some "0x12345678")
    [(DEFERRED_MARKER, PyBool true); ("deferred_topic0s", PyList [PyStr "0xt"])].
Definition deferred_deny : CapabilityExpr := negate (Cap.external_check_only deferred_check []).
Definition deferred_step : trace_step :=
  [("step", PyStr DEFERRED_STEP); (DEFERRED_MARKER, PyBool true);
   ("target_address", PyStr "0xd"); ("deferred_topic0s", PyList [PyStr "0xt"])].

Lemma deferrals_survive_witness :
  deferral_steps (Some deferred_check) = [deferred_step] /\
  deferred_step ∈ held_steps (intersect deferred_deny deny_leaf).
Proof.
  split; [reflexivity|].
  refine (proj1 (deferrals_survive deferred_deny deny_leaf deferred_step _ _ eq_refl _ _ _ eq_refl));
    [by split..|done|done|]. left. cbn. set_solver.
Defined.

(** Intersecting a root-caller gate with an inlined (bound) one keeps the
    root's caller set, subject, index height and as-of untouched; the bound
    side becomes side conditions, and its deferrals stay in the trace. *)
Theorem cross_subject_keeps_root (rt bnd : CapabilityExpr) :
  plain rt -> plain bnd -> subject rt = root -> subject bnd = bound ->
  let r := intersect rt bnd in
  same_core rt r /\ subject r = root /\ intersect bnd rt = r /\
  last_indexed_block r = last_indexed_block rt /\ exact_as_of r = exact_as_of rt /\
  conditions r = (conditions rt ++ bound_as_conditions bnd)%list /\
  (forall step, step ∈ trace bnd -> is_deferral step = true -> step ∈ trace r).
Proof.
  intros [P1 U1] [P2 U2] E1 E2 r.
  assert (intersect bnd rt = r /\ r = intersect_cross_subject rt bnd) as [Es Er].
  { unfold r, intersect. rewrite !(decide_False (P := kind rt = _)), !(decide_False (P := kind bnd = _)) by done. rewrite E1, E2.
    rewrite (decide_True (P := bound <> root)), (decide_True (P := root <> bound)) by done.
    unfold intersect_cross_subject. by rewrite E1, E2. }
  rewrite Es, Er. unfold intersect_cross_subject. rewrite E2, decide_True by done.
  unfold bound_as_conditions, attach_conditions.
  destruct (conditions bnd) as [|c cs] eqn:Ec; cbn; (split_and!; [done..|]);
    intros step Hs Hd; rewrite app_nil_r, !elem_of_app; right; left;
    rewrite list_elem_of_In, filter_In, <- list_elem_of_In; done.
Qed.

Definition bound_check : CapabilityExpr :=
  MkCap K_external_check_only None None None None (Some deferred_check) [] None [] exact exact check_only
    None None None [] bound.

Lemma cross_subject_keeps_root_witness :
  members (intersect (finite_leaf ["0xa"]) bound_check) = Some ["0xa"] /\
  same_core (finite_leaf ["0xa"]) (intersect (finite_leaf ["0xa"]) bound_check).
Proof.
  split; [vm_compute; reflexivity|].
  refine (proj1 (cross_subject_keeps_root (finite_leaf ["0xa"]) bound_check _ _ eq_refl eq_refl)); by split.
Defined.

(** Two bound-subject operands, an allow-list and a denylist, combine into a
    root-subject capability: the subject is not propagated on the mixed arms. *)
Theorem bound_mixed_becomes_root (fin blk : CapabilityExpr) :
  kind fin = K_finite_set -> kind blk = K_cofinite_blacklist -> subject fin = bound -> subject blk = bound ->
  subject (intersect fin blk) = root /\ subject (union fin blk) = root.
Proof.
  intros Kf Kb Sf Sb.
  rewrite intersect_dispatch, union_dispatch by (first [split; by rewrite ?Kf, ?Kb|congruence]).
  rewrite Kf, Kb. unfold intersect_finite_blacklist, union_finite_blacklist.
  by rewrite !subject_carry.
Qed.

Lemma bound_mixed_becomes_root_witness :
  subject (intersect (Cap.finite_set ["0xa"] exact enumerable [] None [] bound None)
                     (Cap.cofinite_blacklist ["0xb"] enumerable [] bound exact)) = root.
Proof.
  exact (proj1 (bound_mixed_becomes_root
    (Cap.finite_set ["0xa"] exact enumerable [] None [] bound None)
    (Cap.cofinite_blacklist ["0xb"] enumerable [] bound exact) eq_refl eq_refl eq_refl eq_refl)).
Defined.

(** An exclusion that was never enumerated (the complement of an external
    probe is a lower-bound, empty blacklist) is subtracted as if it were
    complete: an exact allow-list intersected with it still claims to be exact,
    although the callers compatible with both operands need not be its members. *)
Theorem unenumerated_exclusion_claims_exact :
  let deny := negate (Cap.external_check_only deferred_check []) in
  let allow := finite_leaf ["0xa"] in
  let r := intersect allow deny in
  blacklist_quality deny = lower_bound /\
  kind r = K_finite_set /\ membership_quality r = exact /\
  denotes allow (listed ["0xa"]) /\ denotes deny (fun _ => false) /\
  ~ denotes r (fun x => listed ["0xa"] x && false).
Proof.
  cbn zeta. split_and!; try (vm_compute; reflexivity).
  - apply finite_leaf_ok.
  - apply den_cofinite; [done|]. by intros x.
  - intros D. apply denotes_finite_inv in D; [|vm_compute; reflexivity].
    assert (Em : members (intersect (finite_leaf ["0xa"])
      (negate (Cap.external_check_only deferred_check []))) = Some ["0xa"]) by (vm_compute; reflexivity).
    assert (Eq : membership_quality (intersect (finite_leaf ["0xa"])
      (negate (Cap.external_check_only deferred_check []))) = exact) by (vm_compute; reflexivity).
    rewrite Eq, Em in D. specialize (D "0xa"). cbv beta in D. rewrite andb_false_r in D.
    clear Eq Em. discriminate (proj2 D (list_elem_of_here _ _)).
Qed.
