(* ===== verification/Probe.v ===== *)
(** * Membership probes ([services/resolution/probe.py])

    [probe_membership] answers whether an address is in the set of one leaf of a
    predicate tree, from the capability the adapter registry enumerates for the
    leaf's descriptor.  The registry is injected in the source and is a
    parameter here.  The theorems relate the answers to [denotes]. *)

From stdpp Require Import base gmap sets list strings.
From Stdlib Require Import String ZArith Lia.
From S2P Require Import Prelude Capabilities CapabilitiesTheory.

Open Scope string_scope.

(** A node of a predicate tree; a leaf is the source's [LeafPredicate] dict. *)
Inductive ptree := PNode (op : string) (leaf : option (list (string * pyval))) (kids : list ptree).

Inductive tri := Yes | No | Unknown.

#[export] Instance tri_eq_dec : EqDecision tri.
Proof. solve_decision. Defined.

Definition tri_name (t : tri) : string :=
  match t with Yes => "yes" | No => "no" | Unknown => "unknown" end.

(** The answer dict: [result], [reason] and the entries a branch adds. *)
Record answer := MkAnswer { result : tri; reason : string; more : list (string * pyval) }.

Fixpoint walk_leaves (t : ptree) : list (list (string * pyval)) :=
  match t with
  | PNode op leaf kids =>
      if String.eqb op "LEAF" then match leaf with Some l => [l] | None => [] end
      else List.concat (List.map walk_leaves kids)
  end.

Definition lower_mem (member_lower : string) (l : list string) : bool :=
  bool_decide (member_lower ∈ str_set (List.map str_lower l)).

Fixpoint resolve_in_capability (cap : CapabilityExpr) (member : string) : answer :=
  let member_lower := str_lower member in
  match kind cap with
  | K_finite_set =>
      let in_set := lower_mem member_lower (or_nil (members cap)) in
      match membership_quality cap with
      | exact => MkAnswer (if in_set then Yes else No) "finite_set_exact" []
      | lower_bound =>
          if in_set then MkAnswer Yes "finite_set_lower_bound" [] else MkAnswer Unknown "lower_bound_absent" []
      | upper_bound =>
          if negb in_set then MkAnswer No "finite_set_upper_bound" [] else MkAnswer Unknown "upper_bound_present" []
      end
  | K_threshold_group =>
      let signers := snd (default (0%Z, []) (threshold cap)) in
      if lower_mem member_lower signers then MkAnswer Yes "threshold_group_signer" []
      else MkAnswer No "threshold_group_non_signer" []
  | K_cofinite_blacklist =>
      if lower_mem member_lower (or_nil (blacklist cap)) then MkAnswer No "cofinite_blacklisted" []
      else MkAnswer Yes "cofinite_not_blacklisted" []
  | K_external_check_only =>
      MkAnswer Unknown "external_check_only"
        [("probe_target", py_of_opt (check cap ≫= target_address));
         ("probe_selector", py_of_opt (check cap ≫= target_call_selector))]
  | K_signature_witness => MkAnswer Unknown "signature_witness" []
  | K_unsupported =>
      MkAnswer Unknown "capability_unsupported" [("capability_unsupported_reason", py_of_opt (unsupported_reason cap))]
  | K_AND =>
      let statuses := List.map (fun c => result (resolve_in_capability c member)) (children cap) in
      if forallb (fun s => bool_decide (s = Yes)) statuses then MkAnswer Yes "and_all_yes" []
      else if existsb (fun s => bool_decide (s = No)) statuses then MkAnswer No "and_any_no" []
      else MkAnswer Unknown "and_some_unknown" []
  | K_OR =>
      let statuses := List.map (fun c => result (resolve_in_capability c member)) (children cap) in
      if existsb (fun s => bool_decide (s = Yes)) statuses then MkAnswer Yes "or_any_yes" []
      else if forallb (fun s => bool_decide (s = No)) statuses then MkAnswer No "or_all_no" []
      else MkAnswer Unknown "or_some_unknown" []
  | K_conditional_universal => MkAnswer Yes "conditional_universal" []
  end.

Definition quality_name (q : MembershipQuality) : string :=
  match q with exact => "exact" | lower_bound => "lower_bound" | upper_bound => "upper_bound" end.
Definition confidence_name (c : CapabilityConfidence) : string :=
  match c with enumerable => "enumerable" | partial => "partial" | check_only => "check_only" end.

Section Registry.
(** [registry.enumerate(descriptor, ctx)] *)
Context (enumerate : pyval -> CapabilityExpr).

Definition probe_membership (t : ptree) (predicate_index : Z) (member : string) : answer :=
  let leaves := walk_leaves t in
  let count := Z.of_nat (List.length leaves) in
  if negb ((0 <=? predicate_index) && (predicate_index <? count))%Z
  then MkAnswer Unknown "leaf_index_out_of_range" [("leaf_count", PyInt count)]
  else
    let leaf := default [] (leaves !! Z.to_nat predicate_index) in
    let leaf_kind := py_get "kind" leaf in
    let role := py_get "authority_role" leaf in
    if negb (py_eq_str leaf_kind "membership")
    then MkAnswer Unknown "non_membership_leaf" [("leaf_kind", leaf_kind); ("authority_role", role)]
    else
        let descriptor := py_get "set_descriptor" leaf in
        if negb (py_truthy descriptor)
        then MkAnswer Unknown "no_set_descriptor" [("leaf_kind", leaf_kind); ("authority_role", role)]
        else
          let cap := enumerate descriptor in
          let a := resolve_in_capability cap member in
          MkAnswer (result a) (reason a)
            (more a ++ [("leaf_kind", leaf_kind); ("authority_role", role);
                        ("capability_kind", PyStr (kind_name (kind cap)));
                        ("membership_quality", PyStr (quality_name (membership_quality cap)));
                        ("confidence", PyStr (confidence_name (confidence cap)))])%list.

(** [evaluate_tree_with_registry(make_leaf_node(leaf), registry, ctx)] *)
Context (evaluate_leaf : list (string * pyval) -> CapabilityExpr).

Definition probe_signature (t : ptree) (predicate_index : Z) (recovered_signer : string) : answer :=
  let leaves := walk_leaves t in
  let count := Z.of_nat (List.length leaves) in
  if negb ((0 <=? predicate_index) && (predicate_index <? count))%Z
  then MkAnswer Unknown "leaf_index_out_of_range" [("leaf_count", PyInt count)]
  else
    let leaf := default [] (leaves !! Z.to_nat predicate_index) in
    let leaf_kind := py_get "kind" leaf in
    let role := py_get "authority_role" leaf in
    if negb (py_eq_str leaf_kind "signature_auth")
    then MkAnswer Unknown "non_signature_leaf" [("leaf_kind", leaf_kind); ("authority_role", role)]
    else
        let cap := evaluate_leaf leaf in
        match kind cap, signer cap with
        | K_signature_witness, Some sg =>
            let a := resolve_in_capability sg recovered_signer in
            MkAnswer (result a) (reason a)
              (more a ++ [("capability_kind", PyStr "signature_witness");
                          ("signer_capability_kind", PyStr (kind_name (kind sg)));
                          ("leaf_kind", leaf_kind); ("authority_role", role)])%list
        | _, _ =>
            MkAnswer Unknown ("unexpected_signature_capability_" ++ kind_name (kind cap))
              [("leaf_kind", leaf_kind); ("authority_role", role);
               ("capability_kind", PyStr (kind_name (kind cap)))]
        end.
End Registry.

(** ** Answers against the semantics *)

(** Every exclusion the capability subtracts is enumerated in full. *)
Inductive exclusions_enumerated : CapabilityExpr -> Prop :=
  | exclusions_intro c :
      (kind c = K_cofinite_blacklist -> blacklist_quality c = exact) ->
      Forall exclusions_enumerated (children c) -> exclusions_enumerated c.

Definition agrees (t : tri) (b : bool) : Prop :=
  match t with Yes => b = true | No => b = false | Unknown => True end.

Lemma lower_mem_canonical x l : canonical l -> lower_mem x l = true <-> x ∈ l.
Proof.
  intros Hl. unfold lower_mem, str_set. rewrite bool_decide_eq_true, elem_of_list_to_set.
  setoid_rewrite list_elem_of_In. rewrite in_map_iff. setoid_rewrite <- list_elem_of_In. split.
  - intros (y & <- & Hy). by rewrite (canonical_lower l).
  - intros Hx. exists x. split; [by apply (canonical_lower l)|done].
Qed.

Lemma agrees_and ts bs :
  Forall2 agrees ts bs ->
  (forallb (fun s => bool_decide (s = Yes)) ts = true -> forallb id bs = true) /\
  (existsb (fun s => bool_decide (s = No)) ts = true -> forallb id bs = false).
Proof.
  induction 1 as [|t b ts bs H _ [IH1 IH2]]; cbn; [done|]. split.
  - rewrite !andb_true_iff, bool_decide_eq_true. intros [-> ?]. auto.
  - rewrite orb_true_iff, bool_decide_eq_true. intros [->|?]; [by rewrite H|].
    rewrite IH2 by done. apply andb_false_r.
Qed.

Lemma agrees_or ts bs :
  Forall2 agrees ts bs ->
  (existsb (fun s => bool_decide (s = Yes)) ts = true -> existsb id bs = true) /\
  (forallb (fun s => bool_decide (s = No)) ts = true -> existsb id bs = false).
Proof.
  induction 1 as [|t b ts bs H _ [IH1 IH2]]; cbn; [done|]. split.
  - rewrite !orb_true_iff, bool_decide_eq_true. intros [->|?]; auto.
  - rewrite andb_true_iff, bool_decide_eq_true, orb_false_iff. intros [-> ?]. auto.
Qed.

Lemma forallb_apply (Ss : list callers) x : forallb (fun T => T x) Ss = forallb id (List.map (fun T => T x) Ss).
Proof. induction Ss; cbn; congruence. Qed.
Lemma existsb_apply (Ss : list callers) x : existsb (fun T => T x) Ss = existsb id (List.map (fun T => T x) Ss).
Proof. induction Ss; cbn; congruence. Qed.

Lemma resolve_agrees cap S member :
  wf_cap cap -> exclusions_enumerated cap -> denotes cap S ->
  agrees (result (resolve_in_capability cap member)) (S (str_lower member)).
Proof.
  revert S. induction cap as [cap IH] using cap_children_ind. intros T W X D.
  assert (canonical (or_nil (members cap))) as Cm by (by apply wf_members).
  assert (canonical (or_nil (blacklist cap))) as Cb by (by apply wf_blacklist).
  assert (canonical (default [] (snd <$> threshold cap))) as Ct by (by destruct W).
  assert (kind cap = K_cofinite_blacklist -> blacklist_quality cap = exact) as Xb by (by destruct X).
  assert (forall Ss, Forall2 denotes (children cap) Ss ->
    Forall2 agrees (List.map (fun c => result (resolve_in_capability c member)) (children cap))
      (List.map (fun T => T (str_lower member)) Ss)) as IHs.
  { intros Ss HSs. destruct W as [? _ _ _ Wc], X as [? _ Xc]. induction HSs; cbn; [constructor|].
    repeat match goal with H : Forall _ (_ :: _) |- _ => apply Forall_cons in H as [? ?] end.
    constructor; auto. }
  clear IH W X.
  pose proof (lower_mem_canonical (str_lower member) _ Cm) as Mm.
  pose proof (lower_mem_canonical (str_lower member) _ Cb) as Mb.
  pose proof (lower_mem_canonical (str_lower member) _ Ct) as Mt.
  destruct cap as [k ms th bl sg ck cds ur cs mq bq cf er lib eao tr sj]; cbn in *.
  inversion D as [? ? K C|? ? K C|? ? K C|? ? K C|? ? K|? Ss ? K HS HSx|? Ss ? K HS HSx]; subst; cbn in *; try subst k.
  - clear - C Mm. destruct mq; cbn in *; specialize (C (str_lower member)); destruct (lower_mem _ _), (T _); cbn;
      intuition congruence.
  - rewrite Xb in C by done. clear - C Mb. specialize (C (str_lower member)). cbn in C.
    destruct (lower_mem _ _), (T _); cbn in *; intuition congruence.
  - clear - C Mt. specialize (C (str_lower member)). destruct th as [[m sgs]|]; cbn in *;
      destruct (lower_mem _ _), (T _); cbn; intuition congruence.
  - apply C.
  - set_unfold in K. destruct K as [->|[->|[->|[]]]]; exact I.
  - rewrite HSx, forallb_apply. destruct (agrees_and _ _ (IHs _ HS)) as [A1 A2].
    destruct (forallb _ _) eqn:E1; [by apply A1|]. destruct (existsb _ _) eqn:E2; [by apply A2|done].
  - rewrite HSx, existsb_apply. destruct (agrees_or _ _ (IHs _ HS)) as [A1 A2].
    destruct (existsb _ _) eqn:E1; [by apply A1|]. destruct (forallb _ _) eqn:E2; [by apply A2|done].
Qed.

(** ** Properties *)

(** A probe of a leaf never contradicts the truth: if the capability the
    registry enumerates for the leaf's descriptor is compatible with a caller
    set and enumerates its exclusions, then a [yes] means the probed address is
    in the set and a [no] that it is not; any other leaf answers [unknown]. *)
Theorem probe_membership_sound (enumerate : pyval -> CapabilityExpr) (t : ptree) (i : Z) (member : string)
    (T : callers) :
  (forall leaf, walk_leaves t !! Z.to_nat i = Some leaf ->
     let cap := enumerate (py_get "set_descriptor" leaf) in
     wf_cap cap /\ exclusions_enumerated cap /\ denotes cap T) ->
  agrees (result (probe_membership enumerate t i member)) (T (str_lower member)) /\
  ((i < 0)%Z -> result (probe_membership enumerate t i member) = Unknown).
Proof.
  intros H. unfold probe_membership. split.
  - destruct (negb _); [done|]. destruct (walk_leaves t !! Z.to_nat i) as [leaf|] eqn:E; cbn [default]; [|done].
    destruct (H leaf eq_refl) as (W & X & D).
    destruct (py_eq_str _ _); [|done]. destruct (py_truthy _); [|done]. by apply resolve_agrees.
  - intros Hi. by rewrite (proj2 (Z.leb_gt 0 i)) by lia.
Qed.

Definition membership_leaf : list (string * pyval) :=
  [("kind", PyStr "membership"); ("authority_role", PyStr "caller_authority");
   ("set_descriptor", PyDict [("kind", PyStr "mapping_membership")])].
Definition membership_tree : ptree :=
  PNode "AND" None [PNode "LEAF" (Some [("kind", PyStr "equality")]) []; PNode "LEAF" (Some membership_leaf) []].

Lemma probe_membership_sound_witness :
  result (probe_membership (fun _ => finite_leaf ["0xAb"]) membership_tree 1 "0xaB") = Yes /\
  agrees (result (probe_membership (fun _ => finite_leaf ["0xAb"]) membership_tree 1 "0xaB"))
    (listed ["0xAb"] (str_lower "0xaB")).
Proof.
  split; [vm_compute; reflexivity|].
  refine (proj1 (probe_membership_sound (fun _ => finite_leaf ["0xAb"]) membership_tree 1 "0xaB"
    (listed ["0xAb"]) _)).
  intros leaf _. cbn zeta. destruct (finite_leaf_ok ["0xAb"]) as (W & X & D).
  split_and!; [exact W| |exact D]. constructor; [done|constructor].
Defined.

(** A signature probe reports the answer of the signer set of the evaluated
    leaf, never that of the signature capability itself, and is [unknown] for
    every leaf that does not evaluate to a signature witness. *)
Theorem probe_signature_signer (evaluate_leaf : list (string * pyval) -> CapabilityExpr) (t : ptree) (i : Z)
    (who : string) :
  result (probe_signature evaluate_leaf t i who) <> Unknown ->
  exists leaf sg, walk_leaves t !! Z.to_nat i = Some leaf /\ (0 <= i)%Z /\
    py_get "kind" leaf = PyStr "signature_auth" /\
    kind (evaluate_leaf leaf) = K_signature_witness /\ signer (evaluate_leaf leaf) = Some sg /\
    result (probe_signature evaluate_leaf t i who) = result (resolve_in_capability sg who).
Proof.
  unfold probe_signature. destruct (negb _) eqn:Er; [done|].
  apply negb_false_iff, andb_true_iff in Er as [Hi Hn]. apply Z.leb_le in Hi. apply Z.ltb_lt in Hn.
  destruct (walk_leaves t !! Z.to_nat i) as [leaf|] eqn:E; cbn [default from_option id].
  - destruct (py_eq_str _ _) eqn:Ek; cbn [negb]; [|done]. apply py_eq_str_true in Ek.
    cbv zeta. unfold id in *. intros Hu.
    destruct (kind (evaluate_leaf leaf)) eqn:Ec; cbn in Hu; try congruence.
    destruct (signer (evaluate_leaf leaf)) as [sg|] eqn:Es; cbn in Hu; [|congruence]. exists leaf, sg. auto 10.
  - apply lookup_ge_None in E. lia.
Qed.

Definition signature_tree : ptree := PNode "LEAF" (Some [("kind", PyStr "signature_auth")]) [].

Lemma probe_signature_signer_witness :
  exists leaf sg, walk_leaves signature_tree !! 0%nat = Some leaf /\ (0 <= 0)%Z /\
    py_get "kind" leaf = PyStr "signature_auth" /\
    kind (Cap.signature_witness (finite_leaf ["0xa"]) []) = K_signature_witness /\
    signer (Cap.signature_witness (finite_leaf ["0xa"]) []) = Some sg /\
    result (probe_signature (fun _ => Cap.signature_witness (finite_leaf ["0xa"]) []) signature_tree 0 "0xA")
      = result (resolve_in_capability sg "0xA").
Proof.
  apply (probe_signature_signer (fun _ => Cap.signature_witness (finite_leaf ["0xa"]) []) signature_tree 0 "0xA").
  vm_compute. discriminate.
Defined.

(** On a denylist nobody enumerated (the complement of an external probe,
    whose blacklist is a lower bound) the probe answers [yes] for every address,
    although such a denylist is compatible with excluding all of them. *)
Theorem probe_answers_yes_on_unenumerated_denylist (who : string) :
  let deny := negate (Cap.external_check_only deferred_check []) in
  blacklist_quality deny = lower_bound /\
  resolve_in_capability deny who = MkAnswer Yes "cofinite_not_blacklisted" [] /\
  denotes deny (fun _ => false).
Proof. cbn zeta. split_and!; [done|done|]. apply den_cofinite; [done|]. by intros x. Qed.
