(* ===== verification/Planes.v ===== *)
(** * The scorer's control, conferral and condition planes

    [services/scoring/planes]: [_shared.py] (edge-scope grammar, zero keys),
    [control.py] (control edges and their closure), [conferral.py] (what a gate
    confers), [conditions.py] (whether a destination's own guards accept the
    caller), and the entity keys of [services/scoring/schema.py].

    The loaders read query results in the source; here they take the rows in
    query order and build the same plane. *)

From stdpp Require Import base gmap sets list strings sorting pretty.
From Stdlib Require Import String Ascii ZArith Lia.
From S2P Require Import Prelude.

Open Scope string_scope.

(** ** Entity keys ([schema.py]) *)

Definition coalesce_chain (chain : option string) : string :=
  let token := str_lower (str_strip (default "" chain)) in
  if String.eqb token "" || String.eqb token "mainnet" then "ethereum" else token.

Definition entity_key (chain address : option string) : string :=
  coalesce_chain chain ++ "::" ++ str_lower (default "" address).

Definition ZERO_ADDRESS : string := "0x0000000000000000000000000000000000000000".

Definition is_zero_key (key : string) : bool := str_ends_with ("::" ++ ZERO_ADDRESS) key.

(** ** Edge scopes ([_shared.py]) *)

Inductive ScopeKind := SCOPE_ROLES | SCOPE_STATE_VAR | SCOPE_NOT_DETERMINED.

#[export] Instance ScopeKind_eq_dec : EqDecision ScopeKind.
Proof. solve_decision. Defined.

Record EdgeScope := MkScope {
  scope_kind : ScopeKind;
  scope_roles : list Z;
  scope_state_var : option string;
  scope_label : option string
}.

Definition is_determined (s : EdgeScope) : bool := negb (bool_decide (scope_kind s = SCOPE_NOT_DETERMINED)).

Definition ROLE_SCOPED_RELATIONS : list string := ["role_principal"].

Definition is_digit (c : ascii) : bool := let n := N_of_ascii c in (48 <=? n)%N && (n <=? 57)%N.
Definition is_letter (c : ascii) : bool :=
  let n := N_of_ascii c in ((65 <=? n)%N && (n <=? 90)%N) || ((97 <=? n)%N && (n <=? 122)%N).
Definition is_ident_start (c : ascii) : bool := is_letter c || Ascii.eqb c "_" || Ascii.eqb c "$".
Definition is_ident_char (c : ascii) : bool := is_ident_start c || is_digit c.

(** [int(n)] of a run of decimal digits. *)
Fixpoint digits_value (acc : Z) (s : string) : Z :=
  match s with
  | EmptyString => acc
  | String c s => digits_value (10 * acc + (Z.of_N (N_of_ascii c) - 48)) s
  end.

(** A comma-separated piece of the role list: digits, with blanks around them. *)
Definition role_piece (p : string) : option Z :=
  let d := str_strip p in
  if negb (String.eqb d "") && str_forall is_digit d then Some (digits_value 0 d) else None.

(** [_ROLES_LABEL.match] on stripped text, giving the numbers of group 1:
    ["roles"], at least one blank, then comma-separated digit runs. *)
Definition roles_label (text : string) : option (list Z) :=
  match str_after "roles" text with
  | Some (String c rest) => if is_space c then mapM role_piece (str_split "," rest) else None
  | _ => None
  end.

Definition is_identifier (text : string) : bool :=
  match text with
  | EmptyString => false
  | String c rest => is_ident_start c && str_forall is_ident_char rest
  end.

(** [tuple(sorted({...}))] on integers. *)
Definition sorted_ints (l : list Z) : list Z := merge_sort Z.le (remove_dups l).

Definition parse_edge_scope (label relation : option string) : EdgeScope :=
  let text := str_strip (default "" label) in
  if String.eqb text "" then MkScope SCOPE_NOT_DETERMINED [] None None
  else match roles_label text with
       | Some ns => MkScope SCOPE_ROLES (sorted_ints ns) None (Some text)
       | None =>
           if match relation with Some r => bool_decide (r ∈ ROLE_SCOPED_RELATIONS) | None => false end
           then MkScope SCOPE_NOT_DETERMINED [] None (Some text)
           else if is_identifier text then MkScope SCOPE_STATE_VAR [] (Some text) (Some text)
           else MkScope SCOPE_NOT_DETERMINED [] None (Some text)
       end.

(** ** Control edges ([control.py]) *)

Record ControlEdge := MkEdge {
  principal : string;
  anchor : string;
  relation : option string;
  scope : EdgeScope;
  witness : string;
  edge_id : option Z
}.

Inductive RefusalRule :=
  | REFUSAL_ZERO_PRINCIPAL | REFUSAL_ZERO_ANCHOR | REFUSAL_SELF_EDGE | REFUSAL_MALFORMED_NODE_ID.

#[export] Instance RefusalRule_eq_dec : EqDecision RefusalRule.
Proof. solve_decision. Defined.

Record RefusedEdge := MkRefused {
  ref_rule : RefusalRule;
  ref_principal : string;
  ref_anchor : string;
  ref_relation : option string;
  ref_witness : string;
  ref_edge_id : option Z
}.

Record RenouncedAuthority := MkRenounced {
  ren_anchor : string;
  ren_relation : option string;
  ren_scope : EdgeScope;
  ren_witness : string;
  ren_edge_id : option Z
}.

(** [__post_init__]: the rows of each principal, in edge order. *)
Definition group_edges (edges : list ControlEdge) : gmap string (list ControlEdge) :=
  foldl (fun grouped e => <[principal e := (default [] (grouped !! principal e) ++ [e])%list]> grouped) ∅ edges.

Record ControlClosure := MkClosure {
  edges : list ControlEdge;
  refusals : list RefusedEdge;
  renounced : list RenouncedAuthority;
  not_determined_controllers : gmap string string
}.

Definition edges_from (c : ControlClosure) (p : string) : list ControlEdge :=
  default [] (group_edges (edges c) !! p).

(** [tuple(self._out)], whose keys were inserted in sorted order. *)
Definition sorted_strings (l : list string) : list string := merge_sort str_le l.

Definition principals (c : ControlClosure) : list string :=
  sorted_strings ((map_to_list (group_edges (edges c))).*1).

Definition controlled_by (c : ControlClosure) (p : string) : list string :=
  sorted_strings (remove_dups (List.map anchor (edges_from c p))).

Definition rule_name (r : RefusalRule) : string :=
  match r with
  | REFUSAL_ZERO_PRINCIPAL => "zero_address_principal"
  | REFUSAL_ZERO_ANCHOR => "zero_address_anchor"
  | REFUSAL_SELF_EDGE => "self_referential_column"
  | REFUSAL_MALFORMED_NODE_ID => "malformed_node_id"
  end.

Definition bump (k : string) (counts : gmap string nat) : gmap string nat :=
  <[k := S (default 0 (counts !! k))]> counts.

Definition refusal_counts (c : ControlClosure) : gmap string nat :=
  foldl (fun counts x => bump (rule_name (ref_rule x)) counts)
    (list_to_map (List.map (fun r => (rule_name r, 0))
       [REFUSAL_ZERO_PRINCIPAL; REFUSAL_ZERO_ANCHOR; REFUSAL_SELF_EDGE; REFUSAL_MALFORMED_NODE_ID]))
    (refusals c).

(** The dict [renounced_counts] returns. *)
Record RenouncedCounts := MkRenouncedCounts {
  rc_edges : nat;
  rc_authority_slots : nat;
  rc_anchors : nat;
  rc_by_label : gmap string nat
}.

Definition renounced_counts (c : ControlClosure) : RenouncedCounts :=
  let slots := remove_dups (List.map (fun r => (ren_anchor r, scope_label (ren_scope r))) (renounced c)) in
  MkRenouncedCounts (List.length (renounced c)) (List.length slots)
    (List.length (remove_dups (List.map ren_anchor (renounced c))))
    (foldl (fun counts slot => bump (fmt_opt slot.2) counts) ∅ slots).

(** The accumulators of [load_control_closure]. *)
Record load_acc := MkAcc {
  acc_edges : list ControlEdge;
  acc_refusals : list RefusedEdge;
  acc_renounced : list RenouncedAuthority
}.

Definition admit_edge (acc : load_acc) (cand : ControlEdge) : load_acc :=
  let zero_principal := is_zero_key (principal cand) in
  let ren := if zero_principal && bool_decide (relation cand = Some "controller_value")
             then (acc_renounced acc ++ [MkRenounced (anchor cand) (relation cand) (scope cand) (witness cand)
                                          (edge_id cand)])%list
             else acc_renounced acc in
  let self_column := String.eqb (principal cand) (anchor cand) && bool_decide (relation cand = None) in
  if zero_principal || is_zero_key (anchor cand) || self_column
  then
    let rule := if zero_principal then REFUSAL_ZERO_PRINCIPAL
                else if is_zero_key (anchor cand) then REFUSAL_ZERO_ANCHOR else REFUSAL_SELF_EDGE in
    MkAcc (acc_edges acc)
      (acc_refusals acc ++ [MkRefused rule (principal cand) (anchor cand) (relation cand) (witness cand)
                             (edge_id cand)])%list ren
  else MkAcc (acc_edges acc ++ [cand])%list (acc_refusals acc) ren.

(** Rows the loader reads: graph edges with their contract's chain, and contracts. *)
Record GraphEdgeRow := MkGraphEdgeRow {
  row_id : Z; from_node_id : option string; to_node_id : option string;
  row_relation : option string; row_label : option string; row_chain : option string
}.
Record ContractRow := MkContractRow {
  c_address : string; c_chain : option string; c_admin : option string; c_beacon : option string
}.

Definition NOT_DETERMINED : string := "not_determined".
Definition EDGE_WITNESS_CONTROL_GRAPH : string := "control_graph_edges".
Definition EDGE_WITNESS_ADMIN_COLUMN : string := "contracts.admin".
Definition EDGE_WITNESS_BEACON_COLUMN : string := "contracts.beacon".

(** [_lower(str(x or "").replace("address:", ""))] *)
Definition node_address (id : option string) : string :=
  let s := default "" id in str_lower (str_remove_all (S (String.length s)) "address:" s).

Definition non_empty (s : string) : bool := negb (String.eqb s "").

Definition load_graph_row (acc : load_acc) (r : GraphEdgeRow) : load_acc :=
  let source := node_address (from_node_id r) in
  let target := node_address (to_node_id r) in
  if negb (non_empty source) || negb (non_empty target)
  then MkAcc (acc_edges acc)
         (acc_refusals acc ++
            [MkRefused REFUSAL_MALFORMED_NODE_ID
               (if non_empty target then entity_key (row_chain r) (Some target) else NOT_DETERMINED)
               (if non_empty source then entity_key (row_chain r) (Some source) else NOT_DETERMINED)
               (row_relation r) EDGE_WITNESS_CONTROL_GRAPH (Some (row_id r))])%list
         (acc_renounced acc)
  else admit_edge acc
         (MkEdge (entity_key (row_chain r) (Some target)) (entity_key (row_chain r) (Some source))
            (row_relation r) (parse_edge_scope (row_label r) (row_relation r))
            EDGE_WITNESS_CONTROL_GRAPH (Some (row_id r))).

Definition load_contract_columns (acc : load_acc) (c : ContractRow) : load_acc :=
  let chain := coalesce_chain (c_chain c) in
  foldl (fun acc '(column, wit) =>
           if negb (non_empty (default "" column)) then acc
           else admit_edge acc
                  (MkEdge (entity_key (Some chain) column) (entity_key (Some chain) (Some (c_address c)))
                     None (MkScope SCOPE_NOT_DETERMINED [] None None) wit None))
    acc [(c_admin c, EDGE_WITNESS_ADMIN_COLUMN); (c_beacon c, EDGE_WITNESS_BEACON_COLUMN)].

Definition MAPPING_ENUMERATION_COMPLETE : string := "complete".

(** [controllers_not_determined]: entities no replay completed for. *)
Definition controllers_not_determined (statuses : gmap string (gset string)) : gmap string string :=
  omap (fun ss => if bool_decide (MAPPING_ENUMERATION_COMPLETE ∈ ss) then None
                  else Some (str_join "," (sorted_strings (elements ss)))) statuses.

Definition replay_statuses (nodes : list (option string * option string * string)) : gmap string (gset string) :=
  foldl (fun m '(address, chain, status) =>
           let key := entity_key chain address in <[key := {[status]} ∪ default ∅ (m !! key)]> m) ∅ nodes.

(** Authority-carrying relations, which the edge query keeps. *)
Definition CONTROL_RELATIONS : list string := ["controller_value"; "role_principal"; "mapping_member"].

Definition is_control_row (r : GraphEdgeRow) : bool :=
  match row_relation r with Some rel => bool_decide (rel ∈ CONTROL_RELATIONS) | None => false end.

(** [load_control_closure], on the protocol's rows in id order: its graph
    edges, the nodes that carry an enumeration status, and its contracts. *)
Definition load_control_closure (rows : list GraphEdgeRow)
    (nodes : list (option string * option string * string)) (contracts : list ContractRow) : ControlClosure :=
  let acc := foldl load_contract_columns (foldl load_graph_row (MkAcc [] [] []) (List.filter is_control_row rows)) contracts in
  MkClosure (acc_edges acc) (acc_refusals acc) (acc_renounced acc)
    (controllers_not_determined (replay_statuses nodes)).

(** ** What a gate confers ([conferral.py]) *)

Inductive ConferralOutcome :=
  | CONFERRAL_CONFERRED | CONFERRAL_SCOPE_NOT_DETERMINED | CONFERRAL_ROLE_NOT_LICENSED
  | CONFERRAL_VARIABLE_NOT_REWRITTEN | CONFERRAL_WRITES_NOT_EXTRACTED.

#[export] Instance ConferralOutcome_eq_dec : EqDecision ConferralOutcome.
Proof. solve_decision. Defined.

Record LicensedFunction := MkLicensed { lf_selector : string; lf_name : string }.

#[export] Instance LicensedFunction_eq_dec : EqDecision LicensedFunction.
Proof. solve_decision. Defined.

(** [order=True]: field-wise lexicographic. *)
Definition lf_le (f g : LicensedFunction) : Prop :=
  (lf_selector f = lf_selector g /\ str_le (lf_name f) (lf_name g)) \/
  (lf_selector f <> lf_selector g /\ str_le (lf_selector f) (lf_selector g)).

#[export] Instance lf_le_dec : RelDecision lf_le.
Proof. intros f g. unfold lf_le. apply _. Defined.

Record ConferralVerdict := MkVerdict {
  outcome : ConferralOutcome;
  licensed : list LicensedFunction;
  verdict_basis : string
}.

Definition conferred (v : ConferralVerdict) : bool := bool_decide (outcome v = CONFERRAL_CONFERRED).

Record ConferralPlane := MkConferral {
  role_functions : gmap (string * Z) (list LicensedFunction);
  writes_by_function : gmap Z (gset string);
  writes_by_capability : gmap string (gset string);
  writes_by_deployment_selector : gmap (string * string) (gset string)
}.

Record GateGrant := MkGrant {
  grant_capability : string;
  grant_rewrites : gset string;
  writes_extracted : bool;
  grant_basis : string;
  grant_plane : ConferralPlane
}.

Definition licensed_functions (pl : ConferralPlane) (destination : string) (roles : list Z)
    : list LicensedFunction :=
  merge_sort lf_le (remove_dups
    (List.concat (List.map (fun role => default [] (role_functions pl !! (destination, role))) roles))).

Definition fmt_ints (l : list Z) : string := py_repr (PyList (List.map PyInt l)).
Definition fmt_strs (l : list string) : string := py_repr (PyList (List.map PyStr l)).
Definition fmt_nat (n : nat) : string := pretty n.

Definition opt_in (v : option string) (ws : gset string) : bool :=
  match v with Some v => bool_decide (v ∈ ws) | None => false end.

Definition confers (g : GateGrant) (sc : EdgeScope) (destination : string) : ConferralVerdict :=
  if negb (is_determined sc)
  then MkVerdict CONFERRAL_SCOPE_NOT_DETERMINED []
         ("the edge's label names no role and no state variable, so what this gate " ++
          "would confer here is not_determined")
  else if decide (scope_kind sc = SCOPE_ROLES)
  then
    let lic := licensed_functions (grant_plane g) destination (scope_roles sc) in
    match lic with
    | [] =>
        MkVerdict CONFERRAL_ROLE_NOT_LICENSED []
          ("no witnessed trace step licenses role(s) " ++ fmt_ints (scope_roles sc) ++ " to a named " ++
           "function of " ++ destination ++ ", so the hop confers nothing that can be named")
    | _ =>
        MkVerdict CONFERRAL_CONFERRED lic
          ("role(s) " ++ fmt_ints (scope_roles sc) ++ " license " ++ fmt_nat (List.length lic) ++
           " named function(s) at " ++ destination ++
           " (function_principals.details.trace[].selector joined to effective_functions.selector)")
    end
  else if negb (writes_extracted g)
  then MkVerdict CONFERRAL_WRITES_NOT_EXTRACTED [] (grant_basis g)
  else if opt_in (scope_state_var sc) (grant_rewrites g)
  then MkVerdict CONFERRAL_CONFERRED []
         ("same-kind: " ++ grant_capability g ++ " is witnessed rewriting a variable named '" ++
          fmt_opt (scope_state_var sc) ++ "' on its own contract, which is the name the hop's authority " ++
          "slot carries on the destination's (" ++ grant_basis g ++ "). A NAME MATCH ACROSS TWO " ++
          "CONTRACTS' STORAGE, not a witness that seizing one exercises the other — the " ++
          "composition step is unwitnessed and this bound only removes hops of a different kind")
  else MkVerdict CONFERRAL_VARIABLE_NOT_REWRITTEN []
         (grant_capability g ++ " is witnessed rewriting " ++
          fmt_strs (sorted_strings (elements (grant_rewrites g))) ++ " on its own " ++
          "contract and not '" ++ fmt_opt (scope_state_var sc) ++ "', so this hop runs on an authority of a " ++
          "different kind from the one the gate seizes. Refused as a same-kind bound; " ++
          "whether it composes anyway turns on the intermediate node's function surface, " ++
          "which this plane does not consult").

(** [f"{key}"] of the optional (entity, selector) pair. *)
Definition fmt_key (key : option (string * string)) : string :=
  match key with
  | None => "None"
  | Some (e, s) => "(" ++ repr_str e ++ ", " ++ repr_str s ++ ")"
  end.
Definition fmt_opt_int (z : option Z) : string := match z with Some z => pretty z | None => "None" end.

Definition grant_for (pl : ConferralPlane) (capability : string) (function_id : option Z)
    (entity selector : option string) : GateGrant :=
  match function_id ≫= (fun f => writes_by_function pl !! f) with
  | Some writes =>
      MkGrant capability writes true
        ("effective_functions.state_writes(function " ++ fmt_opt_int function_id ++ ")") pl
  | None =>
      let key := if non_empty (default "" entity) && non_empty (default "" selector)
                 then Some (default "" entity, str_lower (default "" selector)) else None in
      match key ≫= (fun k => writes_by_deployment_selector pl !! k) with
      | Some recovered =>
          MkGrant capability recovered true
            ("effective_functions.state_writes recovered on (deployment, selector) " ++ fmt_key key ++ " — " ++
             "function_id " ++ fmt_opt_int function_id ++ " does not resolve") pl
      | None =>
          MkGrant capability ∅ false
            ("effective_functions.state_writes carries no extracted array for this gate: " ++
             "function_id " ++ fmt_opt_int function_id ++ " does not resolve and (deployment, selector) " ++
             fmt_key key ++ " recovers no single agreed answer, so what this gate rewrites was never read") pl
      end
  end.

Definition capability_grant (pl : ConferralPlane) (capability : string) : GateGrant :=
  match writes_by_capability pl !! capability with
  | None =>
      MkGrant capability ∅ false
        ("no function carrying " ++ capability ++ " has extracted state_writes in this protocol") pl
  | Some writes =>
      MkGrant capability writes true
        ("union of effective_functions.state_writes over every " ++ capability ++ " witness in this protocol") pl
  end.

(** ** What a destination's conditions say of the caller ([conditions.py]) *)

Inductive HopState := HOP_WALKED | HOP_NOT_DETERMINED.
Inductive Surface := SURFACE_FUNCTION_PRINCIPAL | SURFACE_DESTINATION_FUNCTIONS | SURFACE_NONE.
Inductive WalkCoverage :=
  | WALKED_ON_ANALYSED_FULLY | WALKED_ON_ANALYSED_PARTLY | WALKED_ON_UNANALYSED | WALKED_NO_FUNCTION.

#[export] Instance HopState_eq_dec : EqDecision HopState.
Proof. solve_decision. Defined.

Record DestinationFunction := MkDest {
  function_id : Z;
  function_name : string;
  caller_pinned_to_self : list string;
  analysed : bool;
  selector : option string;
  predicates_text : list string;
  predicate_entries_stored : nat
}.

Record ConditionPlane := MkConditions {
  by_entity : gmap string (list DestinationFunction);
  licensed_pairs : gmap (string * string) (list DestinationFunction)
}.

Record HopConditions := MkHop {
  hop_state : HopState;
  hop_basis : string;
  hop_surface : Surface;
  functions_consulted : nat;
  disproving : list (string * Z * list string);
  coverage : option WalkCoverage
}.

Definition count_if {A} (p : A -> bool) (l : list A) : nat := List.length (List.filter p l).
Definition unpinned (fn : DestinationFunction) : bool :=
  match caller_pinned_to_self fn with [] => true | _ => false end.

(** The surface [hop] consults, and what kind it is. *)
Definition consulted_surface (pl : ConditionPlane) (caller destination : string)
    : list DestinationFunction * Surface :=
  match default [] (licensed_pairs pl !! (destination, caller)) with
  | [] => match default [] (by_entity pl !! destination) with
          | [] => ([], SURFACE_NONE)
          | s => (s, SURFACE_DESTINATION_FUNCTIONS)
          end
  | s => (s, SURFACE_FUNCTION_PRINCIPAL)
  end.

Definition hop (pl : ConditionPlane) (caller destination : string) : HopConditions :=
  if String.eqb caller destination
  then MkHop HOP_WALKED "caller_is_the_destination" SURFACE_NONE 0 [] (Some WALKED_NO_FUNCTION)
  else
    let '(surface, surface_kind) := consulted_surface pl caller destination in
    match surface with
    | [] => MkHop HOP_WALKED "destination_functions_not_analysed(no caller condition witnessed)" SURFACE_NONE 0 []
              (Some WALKED_NO_FUNCTION)
    | _ =>
        let permitted := List.filter unpinned surface in
        let total := List.length surface in
        match permitted with
        | [] => MkHop HOP_NOT_DETERMINED "caller_pinned_to_the_destination_itself_on_every_consulted_function"
                  surface_kind total
                  (List.map (fun fn => (function_name fn, function_id fn, caller_pinned_to_self fn)) surface) None
        | _ =>
            let analysed_n := count_if analysed permitted in
            let consulted_analysed := count_if analysed surface in
            MkHop HOP_WALKED
              ("caller_condition_permits(" ++ fmt_nat (List.length permitted) ++ " of " ++ fmt_nat total ++
               " consulted functions, " ++ fmt_nat analysed_n ++ " of them with conditions extracted; " ++
               fmt_nat consulted_analysed ++ " of " ++ fmt_nat total ++ " consulted functions analysed)")
              surface_kind total []
              (Some (if Nat.eqb analysed_n 0 then WALKED_ON_UNANALYSED
                     else if Nat.eqb consulted_analysed total then WALKED_ON_ANALYSED_FULLY
                     else WALKED_ON_ANALYSED_PARTLY))
        end
    end.

Inductive PredicateState :=
  | PREDICATES_EXTRACTED | PREDICATES_COLUMN_HOLDS_NO_ARRAY | PREDICATES_FUNCTION_NOT_LOCATED.

Record DestinationPredicates := MkPredicates {
  dp_state : PredicateState;
  dp_function_id : option Z;
  dp_function_name : option string;
  dp_descriptions : option (list string);
  dp_entries_stored : option nat;
  dp_functions_matching : nat
}.

(** [min(matching, key=...)]: the first of the least function ids. *)
Fixpoint min_function (best : DestinationFunction) (l : list DestinationFunction) : DestinationFunction :=
  match l with
  | [] => best
  | fn :: l => min_function (if (function_id fn <? function_id best)%Z then fn else best) l
  end.

Definition predicates (pl : ConditionPlane) (destination sel : string) : DestinationPredicates :=
  let wanted := str_lower sel in
  let matching :=
    if non_empty wanted
    then List.filter (fun fn => match selector fn with
                                | Some s => non_empty s && String.eqb (str_lower s) wanted
                                | None => false
                                end) (default [] (by_entity pl !! destination))
    else [] in
  match matching with
  | [] => MkPredicates PREDICATES_FUNCTION_NOT_LOCATED None None None None 0
  | f :: fs =>
      let fn := min_function f fs in
      if negb (analysed fn)
      then MkPredicates PREDICATES_COLUMN_HOLDS_NO_ARRAY (Some (function_id fn)) (Some (function_name fn)) None None
             (List.length matching)
      else MkPredicates PREDICATES_EXTRACTED (Some (function_id fn)) (Some (function_name fn))
             (Some (predicates_text fn)) (Some (predicate_entries_stored fn)) (List.length matching)
  end.
