(* ===== verification/PlanesTheory.v ===== *)
(** * What the scorer's planes admit and withhold

    The control closure neither drops nor invents authority, a gate confers
    exactly what was witnessed, and a hop is withheld exactly when every guard
    read pins the caller. *)

From stdpp Require Import base gmap sets list strings sorting pretty.
From Stdlib Require Import String Ascii ZArith Lia.
From S2P Require Import Prelude Planes.

Local Open Scope string_scope.

(** ** The control closure *)

(** The rows and columns that offer an edge. *)
Definition columns_offered (c : ContractRow) : nat :=
  (if non_empty (default "" (c_admin c)) then 1 else 0) + (if non_empty (default "" (c_beacon c)) then 1 else 0).

Definition edge_ok (e : ControlEdge) : Prop :=
  is_zero_key (principal e) = false /\ is_zero_key (anchor e) = false /\
  (relation e = None -> principal e <> anchor e).

(** The refusal that a renounced authority coincides with. *)
Definition refused_as (r : RenouncedAuthority) (x : RefusedEdge) : Prop :=
  ref_rule x = REFUSAL_ZERO_PRINCIPAL /\ ref_anchor x = ren_anchor r /\
  ref_relation x = Some "controller_value" /\ ref_edge_id x = ren_edge_id r.

(** What every accumulator of the loader satisfies, [n] offers in. *)
Definition acc_ok (n : nat) (acc : load_acc) : Prop :=
  Forall edge_ok (acc_edges acc) /\
  List.length (acc_edges acc) + List.length (acc_refusals acc) = n /\
  Forall (fun r => exists x, x ∈ acc_refusals acc /\ refused_as r x) (acc_renounced acc).

Lemma renounced_mono (l : list RenouncedAuthority) (xs ys : list RefusedEdge) :
  Forall (fun r => exists x, x ∈ xs /\ refused_as r x) l -> Forall (fun r => exists x, x ∈ (xs ++ ys)%list /\ refused_as r x) l.
Proof. intros H. eapply Forall_impl; [exact H|]. intros r (x & Hx & Hr). exists x. rewrite elem_of_app. auto. Qed.

Lemma admit_edge_ok n acc cand : acc_ok n acc -> acc_ok (S n) (admit_edge acc cand).
Proof.
  intros (He & Hn & Hr). unfold admit_edge, acc_ok.
  destruct (is_zero_key (principal cand)) eqn:Ezp; cbn [andb orb].
  - cbn [acc_edges acc_refusals acc_renounced]. rewrite length_app. cbn [List.length]. split_and!; [done|lia|].
    case_bool_decide as Erel; [apply Forall_app; split|]; try (by apply renounced_mono).
    apply Forall_singleton. eexists. split; [apply elem_of_app; right; by left|]. done.
  - destruct (is_zero_key (anchor cand)) eqn:Eza; cbn [orb].
    { cbn. rewrite length_app. cbn. split_and!; [done|lia|]. by apply renounced_mono. }
    destruct (String.eqb (principal cand) (anchor cand) && bool_decide (relation cand = None)) eqn:Es.
    { cbn. rewrite length_app. cbn. split_and!; [done|lia|]. by apply renounced_mono. }
    cbn. rewrite length_app. cbn. split_and!; [|lia|done]. apply Forall_app. split; [done|]. apply Forall_singleton.
    split_and!; [done|done|]. intros Hrel Heq. rewrite Heq, String.eqb_refl, Hrel in Es. done.
Qed.

Lemma load_graph_row_ok n acc r : acc_ok n acc -> acc_ok (S n) (load_graph_row acc r).
Proof.
  intros H. unfold load_graph_row. destruct (_ || _); [|by apply admit_edge_ok].
  destruct H as (He & Hn & Hr). unfold acc_ok. cbn. rewrite length_app. cbn. split_and!; [done|lia|].
  by apply renounced_mono.
Qed.

Lemma load_contract_ok n acc c : acc_ok n acc -> acc_ok (n + columns_offered c) (load_contract_columns acc c).
Proof.
  intros H. unfold load_contract_columns, columns_offered. cbn [foldl].
  assert (forall col cand m a, acc_ok m a ->
    acc_ok (m + (if non_empty (default "" col) then 1 else 0)) (if negb (non_empty (default "" col)) then a else admit_edge a cand)) as Hc.
  { intros col cand m a Ha. destruct (non_empty (default "" col)); cbn [negb];
      [rewrite Nat.add_1_r; by apply admit_edge_ok|by rewrite Nat.add_0_r]. }
  rewrite Nat.add_assoc. apply Hc, Hc, H.
Qed.

Lemma load_acc_ok rows contracts :
  acc_ok (List.length rows + list_sum (List.map columns_offered contracts))
    (foldl load_contract_columns (foldl load_graph_row (MkAcc [] [] []) rows) contracts).
Proof.
  assert (forall rows n acc, acc_ok n acc -> acc_ok (n + List.length rows) (foldl load_graph_row acc rows)) as H1.
  { clear. induction rows as [|r rows IH]; intros n acc H; cbn; [by rewrite Nat.add_0_r|].
    rewrite <- Nat.add_succ_comm. by apply IH, load_graph_row_ok. }
  assert (forall cs n acc, acc_ok n acc -> acc_ok (n + list_sum (List.map columns_offered cs)) (foldl load_contract_columns acc cs)) as H2.
  { clear. induction cs as [|c cs IH]; intros n acc H; cbn; [by rewrite Nat.add_0_r|].
    rewrite Nat.add_assoc. by apply IH, load_contract_ok. }
  apply H2. apply (H1 rows 0). split_and!; [constructor|done|constructor].
Qed.

(** The control closure is faithful to what was read.  Every graph row of an
    authority relation and every filled admin or beacon column becomes either an
    edge or a counted refusal, so nothing is dropped silently; no edge touches
    the zero address on either end and no column edge is a self-loop; and every
    renounced authority is one of the zero-principal refusals, read from a
    [controller_value] row. *)
Theorem control_closure_conserves rows nodes contracts :
  let c := load_control_closure rows nodes contracts in
  List.length (edges c) + List.length (refusals c) =
    List.length (List.filter is_control_row rows) + list_sum (List.map columns_offered contracts) /\
  (forall e, e ∈ edges c -> is_zero_key (principal e) = false /\ is_zero_key (anchor e) = false /\
     (relation e = None -> principal e <> anchor e)) /\
  (forall r, r ∈ renounced c -> exists x, x ∈ refusals c /\ ref_rule x = REFUSAL_ZERO_PRINCIPAL /\
     ref_anchor x = ren_anchor r /\ ref_relation x = Some "controller_value" /\ ref_edge_id x = ren_edge_id r).
Proof.
  cbv zeta. unfold load_control_closure. destruct (load_acc_ok (List.filter is_control_row rows) contracts) as (He & Hn & Hr).
  split_and!; [exact Hn|exact (proj1 (Forall_forall _ _) He)|exact (proj1 (Forall_forall _ _) Hr)].
Qed.

(** ** Conferral *)

Lemma elem_of_licensed pl dest roles f :
  f ∈ licensed_functions pl dest roles <->
  exists role, role ∈ roles /\ f ∈ default [] (role_functions pl !! (dest, role)).
Proof.
  unfold licensed_functions. rewrite merge_sort_Permutation, elem_of_remove_dups.
  induction roles as [|r roles IH]; cbn [List.map List.concat].
  - split; [by intros ?%elem_of_nil|]. intros (r & Hr & _). by apply elem_of_nil in Hr.
  - rewrite elem_of_app, IH. setoid_rewrite elem_of_cons. naive_solver.
Qed.

(** A gate confers a hop exactly on a witness.  The scope must be
    determined; a role scope confers when one of its roles licenses a named
    function at the destination, and what it confers is exactly the functions
    its roles license there; a variable scope confers when the gate's writes
    were extracted and name that variable. *)
Theorem confers_exactly_the_witnessed g sc destination :
  let v := confers g sc destination in
  (conferred v = true <->
     match scope_kind sc with
     | SCOPE_NOT_DETERMINED => False
     | SCOPE_ROLES => exists role f, role ∈ scope_roles sc /\ f ∈ default [] (role_functions (grant_plane g) !! (destination, role))
     | SCOPE_STATE_VAR => writes_extracted g = true /\ exists x, scope_state_var sc = Some x /\ x ∈ grant_rewrites g
     end) /\
  (forall f, f ∈ licensed v <->
     scope_kind sc = SCOPE_ROLES /\ exists role, role ∈ scope_roles sc /\ f ∈ default [] (role_functions (grant_plane g) !! (destination, role))).
Proof.
  cbv zeta. pose proof (elem_of_licensed (grant_plane g) destination (scope_roles sc)) as Hl.
  unfold confers, is_determined. destruct (scope_kind sc) eqn:Ek; cbn [negb].
  - rewrite bool_decide_eq_false_2 by done. cbn [negb]. rewrite decide_True by done.
    destruct (licensed_functions _ _ _) as [|f l] eqn:El; cbn [outcome licensed conferred].
    + split; [|intros f; rewrite <- Hl; naive_solver]. split; [done|]. intros (role & f & H1 & H2).
      exfalso. assert (f ∈ ([] : list LicensedFunction)) as []%elem_of_nil. apply Hl. eauto.
    + split; [|intros f'; rewrite <- Hl; naive_solver]. split; [|done]. intros _.
      destruct (proj1 (Hl f)) as (role & H1 & H2); [by left|]. eauto.
  - rewrite bool_decide_eq_false_2 by done. cbn [negb]. rewrite decide_False by done.
    destruct (writes_extracted g) eqn:Ew; cbn [negb].
    2: { split; [naive_solver|]. intros f. cbn. rewrite elem_of_nil. naive_solver. }
    unfold opt_in. destruct (scope_state_var sc) as [x|].
    2: { split; [naive_solver|]. intros f. cbn. rewrite elem_of_nil. naive_solver. }
    case_bool_decide as Hx; (split; [|intros f; cbn; rewrite elem_of_nil; naive_solver]).
    + split; [eauto|done].
    + split; [done|]. intros (_ & y & [= <-] & Hy). done.
  - rewrite bool_decide_eq_true_2 by done. cbn [negb]. split; [done|]. intros f. cbn. rewrite elem_of_nil. naive_solver.
Qed.

(** ** Caller conditions *)

Lemma filter_unpinned_nil l : List.filter unpinned l = [] <-> Forall (fun fn => caller_pinned_to_self fn <> []) l.
Proof.
  induction l as [|fn l IH]; cbn; [split; [constructor|done]|]. unfold unpinned at 1.
  rewrite Forall_cons, <- IH. destruct (caller_pinned_to_self fn); [|split; [by intros ->|by intros [_ ?]]].
  split; [done|]. by intros [? _].
Qed.

(** A hop is withheld exactly when it is disproved.  The conditions refuse a
    caller other than the destination itself when functions of the destination
    were read (those licensed to the caller if any, else all of them) and every
    one of them pins its caller to the destination; each is then listed with
    what pins it.  In every other case the hop is walked, and how much of the
    surface had been read is stated: in full only when every function consulted
    was analysed. *)
Theorem hop_withheld_iff_disproved pl caller destination :
  let surface := (consulted_surface pl caller destination).1 in
  let h := hop pl caller destination in
  (hop_state h = HOP_NOT_DETERMINED <->
     caller <> destination /\ surface <> [] /\ forall fn, fn ∈ surface -> caller_pinned_to_self fn <> []) /\
  (hop_state h = HOP_NOT_DETERMINED -> coverage h = None /\
     disproving h = List.map (fun fn => (function_name fn, function_id fn, caller_pinned_to_self fn)) surface) /\
  (hop_state h = HOP_WALKED -> disproving h = [] /\ is_Some (coverage h)) /\
  (coverage h = Some WALKED_ON_ANALYSED_FULLY -> surface <> [] /\ forall fn, fn ∈ surface -> analysed fn = true).
Proof.
  cbv zeta. unfold hop. destruct (String.eqb_spec caller destination) as [->|Hne].
  { split_and!; [naive_solver|done|done|done]. }
  destruct (consulted_surface pl caller destination) as [surface kind]. cbn [fst].
  destruct surface as [|f l] eqn:Es; [split_and!; [naive_solver|done|done|done]|]. rewrite <- Es in *.
  pose proof (filter_unpinned_nil surface) as Hp. rewrite Forall_forall in Hp.
  destruct (List.filter unpinned surface) as [|g gs] eqn:Ep.
  - split_and!; try done. split; [|done]. intros _. split_and!; [done|by rewrite Es|]. by apply Hp.
  - split_and!; try done.
    + split; [done|]. intros (_ & _ & H). exfalso. by apply Hp in H.
    + cbn [coverage]. destruct (Nat.eqb _ 0); [done|].
      destruct (Nat.eqb_spec (count_if analysed surface) (List.length surface)) as [Hc|]; [|done].
      intros _. split; [by rewrite Es|]. unfold count_if in Hc. clear -Hc. induction surface as [|x surface IH]; [by intros ? ?%elem_of_nil|].
      cbn in Hc. destruct (analysed x) eqn:Ex; cbn in Hc.
      * intros fn [->|H]%elem_of_cons; [done|]. apply IH; [lia|done].
      * exfalso. pose proof (List.filter_length_le analysed surface). lia.
Qed.
