(* ===== verification/Reach.v ===== *)
(** * The reach walks

    [services/scoring/reach.py] ([hop_bound], the breadth-first [_bfs], [_relax],
    [entity_reach], [merge_reach]) and the fold's depth-first [_closure]
    ([services/scoring/fold/closure.py]).  Both walks share [hop_bound].

    The worklist loops carry fuel; [ReachTheory] shows the fuel given here always
    drains the worklist. *)

From stdpp Require Import base gmap sets list strings sorting pretty.
From Stdlib Require Import String Ascii ZArith Lia.
From S2P Require Import Prelude Planes.

Open Scope string_scope.

#[export] Instance LicensedFunction_countable : Countable LicensedFunction :=
  inj_countable' (fun f => (lf_selector f, lf_name f)) (fun p => MkLicensed p.1 p.2) ltac:(by intros []).

(** ** Per-hop verdict *)

Inductive HopReason := HOP_REFUSED_SCOPE | HOP_REFUSED_CONFERRAL | HOP_REFUSED_CONDITION.

#[export] Instance HopReason_eq_dec : EqDecision HopReason.
Proof. solve_decision. Defined.

(** The refusal dict; the fields of the arm that did not refuse are [None]. *)
Record HopBound := MkBound {
  hb_caller : string;
  hb_destination : string;
  hb_reason : HopReason;
  hb_conferral : option ConferralOutcome;
  hb_capability : option string;
  hb_relation : option string;
  hb_witness : string;
  hb_edge_label : option string;
  hb_basis : string;
  hb_surface : option Surface;
  hb_functions_consulted : option nat;
  hb_disproving : option (list (string * Z * list string))
}.

Definition condition_bound (e : ControlEdge) (h : HopConditions) : option HopBound :=
  if decide (hop_state h = HOP_WALKED) then None
  else Some (MkBound (principal e) (anchor e) HOP_REFUSED_CONDITION None None (relation e) (witness e)
               (scope_label (scope e)) (hop_basis h) (Some (hop_surface h)) (Some (functions_consulted h))
               (Some (disproving h))).

Definition hop_bound (e : ControlEdge) (conditions : ConditionPlane) (grant : option GateGrant) : option HopBound :=
  let by_condition := condition_bound e (hop conditions (principal e) (anchor e)) in
  match grant with
  | None => by_condition
  | Some g =>
      let verdict := confers g (scope e) (anchor e) in
      if negb (conferred verdict)
      then Some (MkBound (principal e) (anchor e)
                   (if decide (outcome verdict = CONFERRAL_SCOPE_NOT_DETERMINED)
                    then HOP_REFUSED_SCOPE else HOP_REFUSED_CONFERRAL)
                   (Some (outcome verdict)) (Some (grant_capability g)) (relation e) (witness e)
                   (scope_label (scope e)) (verdict_basis verdict) None None None)
      else by_condition
  end.

(** Lexicographic order of key pairs, for [sorted(d.items())] (keys are distinct). *)
Definition pair_le (p q : string * string) : Prop :=
  (p.1 = q.1 /\ str_le p.2 q.2) \/ (p.1 <> q.1 /\ str_le p.1 q.1).

#[export] Instance pair_le_dec : RelDecision pair_le.
Proof. intros p q. unfold pair_le. apply _. Defined.

Definition item_le {A} (x y : (string * string) * A) : Prop := pair_le x.1 y.1.

#[export] Instance item_le_dec {A} : RelDecision (@item_le A).
Proof. intros x y. unfold item_le. apply _. Defined.

Definition sorted_items {A} (m : gmap (string * string) A) : list ((string * string) * A) :=
  merge_sort item_le (map_to_list m).

Definition setdefault {A} (k : string * string) (v : A) (m : gmap (string * string) A) : gmap (string * string) A :=
  match m !! k with Some _ => m | None => <[k := v]> m end.

Section Walk.
Context (cl : ControlClosure) (conditions : ConditionPlane) (grant : option GateGrant).

Definition bound_of (e : ControlEdge) : option HopBound := hop_bound e conditions grant.

(** ** [_bfs] *)

Record bfs_state := MkBfs {
  dist : gmap string Z;
  parent : gmap string string;
  refused : gmap (string * string) HopBound;
  queue : list string
}.

Definition bfs_edge (key : string) (st : bfs_state) (e : ControlEdge) : bfs_state :=
  if is_zero_key (anchor e) then st
  else match bound_of e with
       | None =>
           match dist st !! anchor e with
           | Some _ => st
           | None =>
               MkBfs (<[anchor e := (default 0 (dist st !! key) + 1)%Z]> (dist st))
                 (<[anchor e := key]> (parent st)) (refused st) (queue st ++ [anchor e])%list
           end
       | Some b => MkBfs (dist st) (parent st) (setdefault (principal e, anchor e) b (refused st)) (queue st)
       end.

Fixpoint bfs_loop (fuel : nat) (st : bfs_state) : bfs_state :=
  match fuel, queue st with
  | S fuel, key :: rest =>
      bfs_loop fuel (foldl (bfs_edge key) (MkBfs (dist st) (parent st) (refused st) rest) (edges_from cl key))
  | _, _ => st
  end.

Definition nonzero_seeds (seeds : gset string) : list string :=
  List.filter (fun k => negb (is_zero_key k)) (sorted_strings (elements seeds)).

Definition bfs_init (seeds : gset string) : bfs_state :=
  let ks := nonzero_seeds seeds in
  MkBfs (list_to_map (List.map (fun k => (k, 1%Z)) ks)) ∅ ∅ ks.

Definition walk_fuel (seeds : gset string) : nat :=
  S (List.length (nonzero_seeds seeds) + List.length (edges cl)).

Definition bfs_final (seeds : gset string) : bfs_state := bfs_loop (walk_fuel seeds) (bfs_init seeds).

Definition bfs (seeds : gset string) : gmap string Z * gmap string string * list HopBound :=
  let st := bfs_final seeds in
  (dist st, parent st,
   List.map snd (List.filter (fun x => bool_decide (dist st !! x.1.2 = None)) (sorted_items (refused st)))).

(** ** [_closure] (the fold's walk) *)

Record WalkedHop := MkWalked {
  wh_caller : string; wh_destination : string; wh_licensed : gset LicensedFunction
}.

(** The Python list used as a stack, its end at the head here. *)
Record dfs_state := MkDfs {
  seen : gset string;
  withheld : gmap (string * string) HopBound;
  licensed_at : gmap string (gset LicensedFunction);
  walked : gmap (string * string) (gset LicensedFunction);
  stack : list string
}.

Definition licensed_here (e : ControlEdge) : gset LicensedFunction :=
  match grant with
  | None => ∅
  | Some g => list_to_set (licensed (confers g (scope e) (anchor e)))
  end.

Definition dfs_edge (st : dfs_state) (e : ControlEdge) : dfs_state :=
  if is_zero_key (anchor e) then st
  else match bound_of e with
       | None =>
           let here := licensed_here e in
           let pair := (principal e, anchor e) in
           MkDfs (seen st) (withheld st)
             (match grant with
              | None => licensed_at st
              | Some _ => <[anchor e := default ∅ (licensed_at st !! anchor e) ∪ here]> (licensed_at st)
              end)
             (<[pair := default ∅ (walked st !! pair) ∪ here]> (walked st))
             (if decide (anchor e ∈ seen st) then stack st else anchor e :: stack st)
       | Some b =>
           MkDfs (seen st) (setdefault (principal e, anchor e) b (withheld st)) (licensed_at st) (walked st)
             (stack st)
       end.

Fixpoint dfs_loop (fuel : nat) (st : dfs_state) : dfs_state :=
  match fuel, stack st with
  | S fuel, key :: rest =>
      if decide (key ∈ seen st)
      then dfs_loop fuel (MkDfs (seen st) (withheld st) (licensed_at st) (walked st) rest)
      else dfs_loop fuel
             (foldl dfs_edge (MkDfs ({[key]} ∪ seen st) (withheld st) (licensed_at st) (walked st) rest)
                (edges_from cl key))
  | _, _ => st
  end.

Definition dfs_final (seeds : gset string) : dfs_state :=
  dfs_loop (walk_fuel seeds) (MkDfs ∅ ∅ ∅ ∅ (rev (nonzero_seeds seeds))).

Definition closure (seeds : gset string)
    : gset string * list HopBound * gmap string (gset LicensedFunction) * list WalkedHop :=
  let st := dfs_final seeds in
  (seen st,
   List.map snd (List.filter (fun x => bool_decide (x.1.2 ∉ seen st)) (sorted_items (withheld st))),
   omap (fun rows => if decide (rows = ∅) then None else Some rows) (licensed_at st),
   List.map (fun x => MkWalked x.1.1 x.1.2 x.2) (sorted_items (walked st))).
End Walk.
