(* ===== verification/ReachTheory.v ===== *)
(** * Correctness of the reach walks

    The specification is the relation [walks]: one control edge of the closure
    whose hop verdict is clear and whose anchor is not the burn sentinel.  Both
    walks terminate with an empty worklist and compute exactly the keys
    reachable from the non-zero seeds; the breadth-first one numbers them with
    the length of a shortest path. *)

From stdpp Require Import base gmap sets list strings sorting relations.
From Stdlib Require Import String Ascii ZArith Lia.
From S2P Require Import Prelude Planes Reach.

(** ** Grouping by principal *)

Lemma group_edges_lookup es p :
  default [] (group_edges es !! p) = List.filter (fun e => bool_decide (principal e = p)) es.
Proof.
  unfold group_edges.
  assert (forall m : gmap string (list ControlEdge), default [] (foldl (fun grouped e => <[principal e := (default [] (grouped !! principal e) ++ [e])%list]>
            grouped) m es !! p)
          = (default [] (m !! p) ++ List.filter (fun e => bool_decide (principal e = p)) es)%list) as H.
  { induction es as [|e es IH]; intros m; cbn; [by rewrite app_nil_r|].
    rewrite IH. case_bool_decide as E.
    - subst p. rewrite lookup_insert_eq. cbn. by rewrite <- app_assoc.
    - by rewrite lookup_insert_ne by done. }
  rewrite H. by rewrite lookup_empty.
Qed.

Lemma elem_of_edges_from cl p e : e ∈ edges_from cl p <-> e ∈ edges cl /\ principal e = p.
Proof.
  unfold edges_from. rewrite group_edges_lookup, list_elem_of_In, filter_In, bool_decide_eq_true.
  by rewrite <- list_elem_of_In.
Qed.

Lemma filter_length_mono {A} (p q : A -> bool) l :
  (forall x, q x = true -> p x = true) -> (List.length (List.filter q l) <= List.length (List.filter p l))%nat.
Proof.
  intros H. induction l as [|x l IH]; cbn; [lia|].
  destruct (q x) eqn:Eq; [rewrite (H x Eq); cbn; lia|]. destruct (p x); cbn; lia.
Qed.

Lemma filter_length_strict {A} (p q : A -> bool) l x :
  (forall x, q x = true -> p x = true) -> x ∈ l -> p x = true -> q x = false ->
  (List.length (List.filter q l) < List.length (List.filter p l))%nat.
Proof.
  intros H Hx Hp Hq. induction Hx as [x l|x y l Hx IH]; cbn.
  - rewrite Hp, Hq. cbn. pose proof (filter_length_mono p q l H). lia.
  - specialize (IH Hp Hq). destruct (q y) eqn:Ey; [rewrite (H y Ey); cbn; lia|]. destruct (p y); cbn; lia.
Qed.

Lemma sorted_app_replicate (l : list Z) n m :
  StronglySorted Z.le l -> (forall x, x ∈ l -> (x <= m)%Z) -> StronglySorted Z.le (l ++ replicate n m)%list.
Proof.
  induction 1 as [|x l Hl IH Hx]; intros Hm; cbn.
  - induction n as [|n IHn]; cbn; constructor; [done|]. apply Forall_forall. intros y Hy.
    apply elem_of_replicate in Hy as [-> _]. lia.
  - constructor; [apply IH; intros; apply Hm; by right|]. apply Forall_app. split; [done|].
    apply Forall_forall. intros y [-> _]%elem_of_replicate. apply Hm. by left.
Qed.

(** ** Specification *)

Section Spec.
Context (cl : ControlClosure) (conditions : ConditionPlane) (grant : option GateGrant).

Definition clear (e : ControlEdge) : Prop :=
  is_zero_key (anchor e) = false /\ hop_bound e conditions grant = None.

(** One walked hop. *)
Definition walks (k k' : string) : Prop :=
  exists e, e ∈ edges cl /\ principal e = k /\ anchor e = k' /\ clear e.

Definition seed_of (seeds : gset string) (k : string) : Prop := k ∈ seeds /\ is_zero_key k = false.

(** Reached from the seeds in [n] hops. *)
Definition reached_in (seeds : gset string) (n : nat) (k : string) : Prop :=
  exists s, seed_of seeds s /\ nsteps walks n s k.

Definition reachable (seeds : gset string) (k : string) : Prop :=
  exists s, seed_of seeds s /\ rtc walks s k.

Lemma reachable_nsteps seeds k : reachable seeds k <-> exists n, reached_in seeds n k.
Proof.
  split.
  - intros (s & Hs & [n Hn]%rtc_nsteps_1). by exists n, s.
  - intros (n & s & Hs & Hn). exists s. split; [done|]. by eapply rtc_nsteps_2.
Qed.

(** A set closed under [walks] that has the seeds has everything reachable. *)
Lemma reachable_closed seeds (P : string -> Prop) :
  (forall s, seed_of seeds s -> P s) -> (forall k k', P k -> walks k k' -> P k') ->
  forall k, reachable seeds k -> P k.
Proof. intros H0 H1 k (s & Hs & Hk). apply H0 in Hs. clear H0. induction Hk; eauto. Qed.

Lemma elem_of_nonzero_seeds seeds k : k ∈ nonzero_seeds seeds <-> seed_of seeds k.
Proof.
  unfold nonzero_seeds, sorted_strings, seed_of.
  rewrite list_elem_of_In, filter_In, <- list_elem_of_In, merge_sort_Permutation, negb_true_iff. set_solver.
Qed.

(** ** The depth-first walk *)

Notation dfs_edge := (dfs_edge conditions grant).
Notation dfs_loop := (dfs_loop cl conditions grant).

Record dfs_inv (seeds : gset string) (st : dfs_state) : Prop := {
  dfs_sound : forall k, k ∈ seen st \/ k ∈ stack st -> reachable seeds k;
  dfs_seeds : forall s, seed_of seeds s -> s ∈ seen st \/ s ∈ stack st;
  dfs_closed : forall k k', k ∈ seen st -> walks k k' -> k' ∈ seen st \/ k' ∈ stack st
}.

(** Edges still to be expanded: their principal was not seen. *)
Definition dfs_measure (st : dfs_state) : nat :=
  (List.length (stack st) + List.length (List.filter (fun e => bool_decide (principal e ∉ seen st)) (edges cl)))%nat.

Lemma dfs_edge_effect st e :
  seen (dfs_edge st e) = seen st /\
  (exists new, stack (dfs_edge st e) = (new ++ stack st)%list /\ (List.length new <= 1)%nat /\
     (forall k, k ∈ new -> k = anchor e /\ clear e)) /\
  (clear e -> anchor e ∈ seen st \/ anchor e ∈ stack (dfs_edge st e)).
Proof.
  unfold Reach.dfs_edge, clear, bound_of. destruct (is_zero_key (anchor e)) eqn:Ez.
  - split_and!; [done| |by intros []]. exists []. cbn. split_and!; [done|lia|set_solver].
  - destruct (hop_bound e conditions grant) as [b|] eqn:Eb; cbn.
    + split_and!; [done| |by intros []]. exists []. cbn. split_and!; [done|lia|set_solver].
    + split_and!; [done| |].
      * case_decide; [exists []|exists [anchor e]]; cbn; (split_and!; [done|lia|set_solver]).
      * intros _. case_decide; set_solver.
Qed.

Lemma dfs_edges_effect es st :
  let st' := foldl dfs_edge st es in
  seen st' = seen st /\
  (exists new, stack st' = (new ++ stack st)%list /\ (List.length new <= List.length es)%nat /\
     (forall k, k ∈ new -> exists e, e ∈ es /\ anchor e = k /\ clear e)) /\
  (forall e, e ∈ es -> clear e -> anchor e ∈ seen st \/ anchor e ∈ stack st').
Proof.
  revert st. induction es as [|e es IH]; intros st; cbn.
  - split_and!; [done| |set_solver]. exists []. cbn. split_and!; [done|lia|set_solver].
  - destruct (dfs_edge_effect st e) as (E1 & (n1 & S1 & L1 & N1) & C1).
    destruct (IH (dfs_edge st e)) as (E2 & (n2 & S2 & L2 & N2) & C2).
    rewrite E1 in *. split_and!; [done| |].
    + exists (n2 ++ n1)%list. rewrite S2, S1, app_assoc, length_app. split_and!; [done|cbn; lia|].
      intros k [Hk|Hk]%elem_of_app.
      * destruct (N2 k Hk) as (e' & ? & ?). exists e'. split; [by right|done].
      * destruct (N1 k Hk) as [-> ?]. exists e. split; [by left|done].
    + intros e' [->|He']%elem_of_cons Hc; [|by apply C2].
      destruct (C1 Hc) as [?|?]; [by left|]. right. rewrite S2. set_solver.
Qed.

Lemma filter_unseen_length key (sn : gset string) :
  key ∉ sn ->
  (List.length (List.filter (fun e => bool_decide (principal e ∉ {[key]} ∪ sn)) (edges cl)) +
   List.length (edges_from cl key)
   = List.length (List.filter (fun e => bool_decide (principal e ∉ sn)) (edges cl)))%nat.
Proof.
  intros Hk. unfold edges_from. rewrite group_edges_lookup.
  induction (edges cl) as [|e es IH]; cbn; [done|].
  destruct (decide (principal e = key)) as [->|Hne].
  - rewrite (bool_decide_true (key = key)), (bool_decide_true (key ∉ sn)) by done.
    rewrite bool_decide_false by set_solver. cbn. lia.
  - rewrite (bool_decide_false (principal e = key)) by done.
    destruct (decide (principal e ∈ sn)).
    + rewrite !bool_decide_false by set_solver. lia.
    + rewrite !bool_decide_true by set_solver. cbn. lia.
Qed.

Lemma dfs_loop_spec fuel seeds st :
  dfs_inv seeds st -> (dfs_measure st < fuel)%nat ->
  stack (dfs_loop fuel st) = [] /\ dfs_inv seeds (dfs_loop fuel st).
Proof.
  revert st. induction fuel as [|fuel IH]; intros st I M; [lia|]. cbn.
  destruct (stack st) as [|key rest] eqn:Es; [done|]. destruct I as [Is Id Ic].
  unfold dfs_measure in M. rewrite Es in Is, Id, Ic, M. cbn in M. case_decide as Hk.
  - apply IH; [|unfold dfs_measure; cbn; lia].
    constructor; cbn; [intros k [?|?]; apply Is; [by left|by right; right]| |]; intros.
    + destruct (Id s) as [?|[->|?]%elem_of_cons]; auto.
    + destruct (Ic k k') as [?|[->|?]%elem_of_cons]; auto.
  - set (st0 := MkDfs ({[key]} ∪ seen st) (withheld st) (licensed_at st) (walked st) rest).
    destruct (dfs_edges_effect (edges_from cl key) st0) as (E & (new & S & L & N) & C).
    change (seen st0) with ({[key]} ∪ seen st) in *. change (stack st0) with rest in *.
    apply IH.
    + constructor; rewrite ?E, ?S.
      * intros k. rewrite elem_of_union, elem_of_singleton, elem_of_app.
        intros [[->|?]|[Hn|?]]; [apply Is; by right; left|apply Is; by left| |apply Is; by right; right].
        destruct (N k Hn) as (e & [He Hp]%elem_of_edges_from & <- & Hc).
        destruct (Is key) as (s & Hs & Hr); [by right; left|]. exists s. split; [done|].
        eapply rtc_r; [exact Hr|]. exists e. done.
      * intros s Hs. rewrite elem_of_union, elem_of_singleton, elem_of_app.
        destruct (Id s Hs) as [?|[->|?]%elem_of_cons]; auto.
      * intros k k' [->%elem_of_singleton|Hk']%elem_of_union Hw.
        -- destruct Hw as (e & He & Hp & <- & Hc).
           rewrite <- S. apply C; [by apply elem_of_edges_from|done].
        -- rewrite elem_of_union, elem_of_singleton, elem_of_app.
           destruct (Ic k k' Hk' Hw) as [?|[->|?]%elem_of_cons]; auto.
    + unfold dfs_measure. rewrite E, S, length_app.
      rewrite <- (filter_unseen_length key) in M by done. lia.
Qed.

Lemma dfs_final_spec seeds :
  let st := dfs_final cl conditions grant seeds in
  stack st = [] /\ forall k, k ∈ seen st <-> reachable seeds k.
Proof.
  unfold dfs_final. destruct (dfs_loop_spec (walk_fuel cl seeds) seeds
    (MkDfs ∅ ∅ ∅ ∅ (rev (nonzero_seeds seeds)))) as [Es [Is Id Ic]].
  - constructor; cbn; try set_solver.
    + intros k [?|Hk]; [set_solver|]. rewrite list_elem_of_In, <- in_rev, <- list_elem_of_In in Hk.
      exists k. rewrite elem_of_nonzero_seeds in Hk. split; [done|constructor].
    + intros s Hs. right. rewrite list_elem_of_In, <- in_rev, <- list_elem_of_In. by apply elem_of_nonzero_seeds.
  - unfold dfs_measure, walk_fuel. cbn [stack seen]. rewrite length_rev.
    match goal with |- context [List.filter ?f (edges cl)] => pose proof (filter_length_le f (edges cl)) end. lia.
  - cbn zeta. set (st := Reach.dfs_loop _ _ _ _ _) in *. split; [done|]. rewrite Es in *.
    intros k. split; [intros ?; apply Is; by left|].
    intros Hk. apply (reachable_closed seeds (fun k => k ∈ seen st)); [| |done].
    + intros s Hs. destruct (Id s Hs) as [?|?%not_elem_of_nil]; done.
    + intros k1 k2 H1 H2. destruct (Ic k1 k2 H1 H2) as [?|?%not_elem_of_nil]; done.
Qed.

(** *** The withheld hops *)

Definition refuses (e : ControlEdge) (b : HopBound) : Prop :=
  is_zero_key (anchor e) = false /\ hop_bound e conditions grant = Some b.

Definition pair_of (e : ControlEdge) : string * string := (principal e, anchor e).

Record withheld_inv (st : dfs_state) : Prop := {
  wh_all : forall e b, e ∈ edges cl -> principal e ∈ seen st -> refuses e b -> is_Some (withheld st !! pair_of e);
  wh_from : forall pr b, withheld st !! pr = Some b ->
    exists e, e ∈ edges cl /\ principal e ∈ seen st /\ pr = pair_of e /\ refuses e b
}.

Lemma setdefault_lookup {A} k (v : A) m k' :
  setdefault k v m !! k' = match m !! k' with Some w => Some w | None => if decide (k = k') then Some v else None end.
Proof.
  unfold setdefault. destruct (m !! k) as [w|] eqn:E.
  - destruct (m !! k') eqn:E'; [done|]. case_decide; [congruence|done].
  - rewrite lookup_insert. case_decide; [subst; by rewrite E|]. by destruct (m !! k').
Qed.

Lemma dfs_edge_withheld st e pr :
  withheld (dfs_edge st e) !! pr =
    match withheld st !! pr with
    | Some b => Some b
    | None => if decide (pair_of e = pr /\ is_zero_key (anchor e) = false) then hop_bound e conditions grant else None
    end.
Proof.
  unfold Reach.dfs_edge, bound_of. destruct (is_zero_key (anchor e)) eqn:Ez.
  - rewrite decide_False by naive_solver. by destruct (withheld st !! pr).
  - destruct (hop_bound e conditions grant) as [b|] eqn:Eb; cbn.
    + rewrite setdefault_lookup. destruct (withheld st !! pr); [done|].
      unfold pair_of. repeat case_decide; naive_solver.
    + destruct (withheld st !! pr); [done|]. by case_decide.
Qed.

Lemma dfs_edges_withheld es st :
  let st' := foldl dfs_edge st es in
  (forall pr b, withheld st !! pr = Some b -> withheld st' !! pr = Some b) /\
  (forall e b, e ∈ es -> refuses e b -> is_Some (withheld st' !! pair_of e)) /\
  (forall pr b, withheld st' !! pr = Some b ->
     withheld st !! pr = Some b \/ exists e, e ∈ es /\ pr = pair_of e /\ refuses e b).
Proof.
  revert st. induction es as [|e es IH]; intros st; cbn; [set_solver|].
  destruct (IH (dfs_edge st e)) as (M & A & F). setoid_rewrite dfs_edge_withheld in F.
  assert (forall pr b, withheld st !! pr = Some b -> withheld (dfs_edge st e) !! pr = Some b) as M0.
  { intros pr b Hb. by rewrite dfs_edge_withheld, Hb. }
  split_and!.
  - eauto.
  - intros e' b [->|He]%elem_of_cons Hr; [|eauto]. destruct Hr as [Hz Hb].
    destruct (withheld st !! pair_of e) as [b0|] eqn:E0; [exists b0; eauto|].
    exists b. apply M. by rewrite dfs_edge_withheld, E0, decide_True.
  - intros pr b Hb. destruct (F pr b Hb) as [H|(e' & ? & ?)]; [|right; exists e'; split; [by right|done]].
    destruct (withheld st !! pr); [by left|]. case_decide as Hd; [|done]. destruct Hd as [<- ?].
    right. exists e. split_and!; [by left|done|by split].
Qed.

Lemma dfs_loop_withheld fuel st : withheld_inv st -> withheld_inv (dfs_loop fuel st).
Proof.
  revert st. induction fuel as [|fuel IH]; intros st W; [done|]. cbn.
  destruct (stack st) as [|key rest]; [done|]. case_decide as Hk; [apply IH; by destruct W|].
  set (st0 := MkDfs ({[key]} ∪ seen st) (withheld st) (licensed_at st) (walked st) rest).
  apply IH. destruct (dfs_edges_withheld (edges_from cl key) st0) as (M & A & F).
  destruct (dfs_edges_effect (edges_from cl key) st0) as (E & _).
  constructor; rewrite E; cbn [seen st0].
  - intros e b He [Hs%elem_of_singleton|Hs]%elem_of_union Hr.
    + apply (A e b); [by apply elem_of_edges_from|done].
    + destruct (wh_all st W e b He Hs Hr) as [b' Hb']. exists b'. by apply M.
  - intros pr b Hb. destruct (F pr b Hb) as [H|(e & [He Hp]%elem_of_edges_from & ? & ?)].
    + destruct (wh_from st W pr b H) as (e & ? & ? & ? & ?). exists e. split_and!; [done|set_solver|done..].
    + exists e. split_and!; [done|set_solver|done..].
Qed.

Lemma elem_of_sorted_items {A} (m : gmap (string * string) A) pr v : (pr, v) ∈ sorted_items m <-> m !! pr = Some v.
Proof. unfold sorted_items. by rewrite merge_sort_Permutation, elem_of_map_to_list. Qed.

Lemma hop_bound_pair e b : hop_bound e conditions grant = Some b -> hb_caller b = principal e /\ hb_destination b = anchor e.
Proof.
  unfold hop_bound, condition_bound. destruct grant as [g|]; cbn; repeat case_match; intros; by simplify_eq.
Qed.

Lemma closure_gaps seeds b :
  let gaps := (closure cl conditions grant seeds).1.1.2 in
  b ∈ gaps <-> exists pr, withheld (dfs_final cl conditions grant seeds) !! pr = Some b /\
                          ~ reachable seeds pr.2.
Proof.
  cbn. rewrite list_elem_of_In, in_map_iff. setoid_rewrite filter_In. setoid_rewrite bool_decide_eq_true.
  setoid_rewrite <- list_elem_of_In. destruct (dfs_final_spec seeds) as [_ Hs]. setoid_rewrite Hs.
  split.
  - intros ([pr b'] & <- & H & Hn). exists pr. rewrite elem_of_sorted_items in H. done.
  - intros (pr & H & Hn). exists (pr, b). by rewrite elem_of_sorted_items.
Qed.

(** ** The breadth-first walk *)

Notation bfs_edge := (bfs_edge conditions grant).
Notation bfs_loop := (bfs_loop cl conditions grant).

(** Edges whose anchor is not numbered yet. *)
Definition unreached (st : bfs_state) : nat :=
  List.length (List.filter (fun e => bool_decide (dist st !! anchor e = None)) (edges cl)).

(** What expanding [key] (at distance [D]) along some edges does. *)
Record bfs_effect (D : Z) (es : list ControlEdge) (st st' : bfs_state) (new : list string) : Prop := {
  be_queue : queue st' = (queue st ++ new)%list;
  be_mono : forall k d, dist st !! k = Some d -> dist st' !! k = Some d;
  be_new : forall k, k ∈ new -> dist st' !! k = Some (D + 1)%Z /\ exists e, e ∈ es /\ anchor e = k /\ clear e;
  be_dom : forall k d, dist st' !! k = Some d -> dist st !! k = Some d \/ k ∈ new;
  be_clear : forall e, e ∈ es -> clear e -> is_Some (dist st' !! anchor e);
  be_measure : es ⊆ edges cl -> (List.length new + unreached st' <= unreached st)%nat
}.

Lemma bfs_effect_same D es st st' :
  queue st' = queue st -> dist st' = dist st ->
  (forall e, e ∈ es -> clear e -> is_Some (dist st !! anchor e)) -> bfs_effect D es st st' [].
Proof.
  intros Eq Ed C. constructor; rewrite ?Eq, ?Ed; try done; try set_solver.
  - by rewrite app_nil_r.
  - intros _. unfold unreached. rewrite Ed. cbn. lia.
Qed.

Lemma bfs_edge_effect key D st e :
  dist st !! key = Some D -> exists new, bfs_effect D [e] st (bfs_edge key st e) new.
Proof.
  intros Hk. unfold Reach.bfs_edge, bound_of. destruct (is_zero_key (anchor e)) eqn:Ez.
  { exists []. apply bfs_effect_same; [done..|]. intros e' ->%list_elem_of_singleton [? _]. congruence. }
  destruct (hop_bound e conditions grant) as [b|] eqn:Eb.
  { exists []. apply bfs_effect_same; [done..|]. intros e' ->%list_elem_of_singleton [_ ?]. congruence. }
  destruct (dist st !! anchor e) as [d|] eqn:Ed.
  { exists []. apply bfs_effect_same; [done..|]. by intros e' ->%list_elem_of_singleton _. }
  exists [anchor e]. rewrite Hk. constructor; cbn.
  - done.
  - intros k d Hd. rewrite lookup_insert_ne; [done|]. intros <-. congruence.
  - intros k ->%list_elem_of_singleton. rewrite lookup_insert_eq. split; [done|].
    exists e. split_and!; [by left|done|by split].
  - intros k d. rewrite lookup_insert. case_decide as E; [|by left]. subst. right. by left.
  - intros e' ->%list_elem_of_singleton _. rewrite lookup_insert_eq. by eexists.
  - intros Hes. unfold unreached. cbn. apply Nat.le_succ_l. eapply filter_length_strict.
    + intros e'. rewrite !bool_decide_eq_true, lookup_insert. by case_decide.
    + apply Hes. by left.
    + by apply bool_decide_eq_true.
    + apply bool_decide_eq_false. by rewrite lookup_insert_eq.
Qed.

Lemma bfs_edges_effect key D es st :
  dist st !! key = Some D -> exists new, bfs_effect D es st (foldl (bfs_edge key) st es) new.
Proof.
  revert st. induction es as [|e es IH]; intros st Hk; cbn.
  { exists []. by apply bfs_effect_same; [..|set_solver]. }
  destruct (bfs_edge_effect key D st e Hk) as [n1 E1].
  destruct (IH (bfs_edge key st e)) as [n2 E2]; [by apply (be_mono _ _ _ _ _ E1)|].
  destruct E1 as [Q1 M1 N1 D1 C1 L1], E2 as [Q2 M2 N2 D2 C2 L2]. exists (n1 ++ n2)%list. constructor.
  - by rewrite Q2, Q1, app_assoc.
  - eauto.
  - intros k [Hn|Hn]%elem_of_app.
    + destruct (N1 k Hn) as (Hd & e' & ->%list_elem_of_singleton & ?). split; [eauto|]. exists e. split; [by left|done].
    + destruct (N2 k Hn) as (Hd & e' & ? & ?). split; [done|]. exists e'. split; [by right|done].
  - intros k d Hd. rewrite elem_of_app. destruct (D2 k d Hd) as [Hd'|?]; [|by auto]. destruct (D1 k d Hd'); auto.
  - intros e' [->|He]%elem_of_cons Hc; [|by apply C2].
    destruct (C1 e (list_elem_of_here _ _) Hc) as [d Hd]. exists d. eauto.
  - intros Hes. rewrite length_app. assert (es ⊆ edges cl) by set_solver. assert ([e] ⊆ edges cl) by set_solver.
    specialize (L1 ltac:(done)). specialize (L2 ltac:(done)). lia.
Qed.

Definition num (st : bfs_state) (k : string) : Z := default 0%Z (dist st !! k).

Record bfs_inv (seeds : gset string) (st : bfs_state) : Prop := {
  b_path : forall k d, dist st !! k = Some d -> exists n, d = (Z.of_nat n + 1)%Z /\ reached_in seeds n k;
  b_seeds : forall s, seed_of seeds s -> dist st !! s = Some 1%Z;
  b_queue : forall k, k ∈ queue st -> is_Some (dist st !! k);
  b_closed : forall k d k', dist st !! k = Some d -> k ∉ queue st -> walks k k' ->
    exists d', dist st !! k' = Some d' /\ (d' <= d + 1)%Z;
  b_sorted : StronglySorted Z.le (List.map (num st) (queue st));
  b_head : forall h rest k d, queue st = h :: rest -> dist st !! k = Some d -> (d <= num st h + 1)%Z
}.

Lemma bfs_step_inv seeds st key rest :
  bfs_inv seeds st -> queue st = key :: rest ->
  let st0 := MkBfs (dist st) (parent st) (refused st) rest in
  bfs_inv seeds (foldl (bfs_edge key) st0 (edges_from cl key)).
Proof.
  intros [Ip Is Iq Ic Io Ih] Eq st0. rewrite Eq in Iq, Io. cbn in Io.
  destruct (Iq key) as [D HD]; [by left|].
  destruct (bfs_edges_effect key D (edges_from cl key) st0 HD) as [new E].
  set (st' := foldl _ st0 _) in *. destruct E as [Qu Mo Ne Do Cl _]. cbn in Qu, Mo, Do.
  assert (num st key = D) as HnD by (unfold num; by rewrite HD).
  assert (forall k d, dist st !! k = Some d -> (d <= D + 1)%Z) as Hmax by (rewrite <- HnD; eauto).
  assert (forall k, k ∈ rest -> num st' k = num st k) as Hnum.
  { intros k Hk. destruct (Iq k) as [d Hd]; [by right|]. unfold num. by rewrite Hd, (Mo _ _ Hd). }
  assert (forall k, k ∈ new -> num st' k = (D + 1)%Z) as Hnew.
  { intros k Hk. unfold num. by rewrite (proj1 (Ne k Hk)). }
  apply StronglySorted_inv in Io as [Ios Ioh]. rewrite HnD in Ioh.
  constructor; rewrite ?Qu.
  - intros k d Hd. destruct (Do k d Hd) as [?|Hn]; [by apply Ip|].
    destruct (Ne k Hn) as (Hd' & e & [He Hp]%elem_of_edges_from & Ha & Hc).
    destruct (Ip key _ HD) as (n & -> & s & Hs & Hst). exists (S n). split; [simplify_eq; lia|].
    exists s. split; [done|]. eapply nsteps_r; [exact Hst|]. by exists e.
  - intros s Hs. by apply Mo, Is.
  - intros k [Hk|Hk]%elem_of_app; [destruct (Iq k) as [d Hd]; [by right|]; exists d; by apply Mo|].
    exists (D + 1)%Z. apply Ne, Hk.
  - intros k d k' Hd [Hnr Hnn]%not_elem_of_app Hw. destruct (Do k d Hd) as [Hd0|?]; [|done].
    destruct (decide (k = key)) as [->|Hne].
    + destruct Hw as (e & He & Hp & <- & Hc).
      destruct (Cl e) as [d' Hd']; [by apply elem_of_edges_from|done|]. exists d'. split; [done|].
      rewrite HD in Hd0. simplify_eq. destruct (Do _ _ Hd') as [?|Hn]; [eauto|].
      destruct (Ne _ Hn) as [? _]. simplify_eq. lia.
    + destruct (Ic k d k' Hd0) as (d' & Hd' & Hle); [rewrite Eq; set_solver|done|]. eauto.
  - rewrite map_app.
    replace (List.map (num st') rest) with (List.map (num st) rest) by
      (apply map_ext_in; intros; symmetry; apply Hnum; by apply list_elem_of_In).
    replace (List.map (num st') new) with (replicate (List.length new) (D + 1)%Z).
    + apply sorted_app_replicate; [done|]. intros x Hx.
      rewrite list_elem_of_In, in_map_iff in Hx. destruct Hx as (k & <- & Hk). rewrite <- list_elem_of_In in Hk.
      destruct (Iq k) as [d Hd]; [by right|]. unfold num at 1. rewrite Hd. by apply (Hmax k).
    + clear - Hnew. induction new as [|k new IH]; cbn; [done|]. rewrite Hnew by (by left).
      f_equal. apply IH. intros. apply Hnew. by right.
  - intros h rest' k d Eh Hd.
    assert (D <= num st' h)%Z as Hh.
    { assert (h ∈ rest \/ h ∈ new) as [Hr|Hn] by (rewrite <- elem_of_app, Eh; by left).
      - rewrite Hnum by done. rewrite Forall_forall in Ioh. apply Ioh.
        rewrite list_elem_of_In. apply in_map. by rewrite <- list_elem_of_In.
      - rewrite Hnew by done. lia. }
    destruct (Do k d Hd) as [Hd'|Hn]; [specialize (Hmax k d Hd'); lia|].
    destruct (Ne k Hn) as [? _]. simplify_eq. lia.
Qed.

Definition bfs_measure (st : bfs_state) : nat := (List.length (queue st) + unreached st)%nat.

Lemma bfs_loop_spec fuel seeds st :
  bfs_inv seeds st -> (bfs_measure st < fuel)%nat ->
  queue (bfs_loop fuel st) = [] /\ bfs_inv seeds (bfs_loop fuel st).
Proof.
  revert st. induction fuel as [|fuel IH]; intros st I M; [lia|]. cbn.
  destruct (queue st) as [|key rest] eqn:Eq; [done|].
  pose proof (bfs_step_inv seeds st key rest I Eq) as I'. apply IH; [exact I'|].
  destruct (b_queue _ _ I key) as [D HD]; [rewrite Eq; by left|].
  set (st0 := MkBfs (dist st) (parent st) (refused st) rest).
  destruct (bfs_edges_effect key D (edges_from cl key) st0 HD) as [new E].
  pose proof (be_measure _ _ _ _ _ E) as L. unfold bfs_measure in *.
  rewrite (be_queue _ _ _ _ _ E), length_app. rewrite Eq in M. cbn in M.
  assert (unreached st0 = unreached st) as Eu by done.
  cbn [queue st0]. assert (edges_from cl key ⊆ edges cl) as Hsub by
    (intros e He; by apply elem_of_edges_from in He as [? _]).
  specialize (L Hsub). lia.
Qed.

Lemma bfs_init_lookup seeds k d :
  dist (bfs_init seeds) !! k = Some d <-> seed_of seeds k /\ d = 1%Z.
Proof.
  cbn. rewrite <- elem_of_nonzero_seeds. induction (nonzero_seeds seeds) as [|x l IH]; cbn.
  - rewrite lookup_empty. set_solver.
  - rewrite lookup_insert, elem_of_cons. case_decide as E; [naive_solver|]. rewrite IH. naive_solver.
Qed.

Lemma bfs_init_inv seeds : bfs_inv seeds (bfs_init seeds).
Proof.
  assert (forall k, k ∈ queue (bfs_init seeds) -> dist (bfs_init seeds) !! k = Some 1%Z) as Hq.
  { intros k Hk. apply bfs_init_lookup. split; [by apply elem_of_nonzero_seeds|done]. }
  constructor.
  - intros k d [Hs ->]%bfs_init_lookup. exists 0%nat. split; [done|]. exists k. split; [done|constructor].
  - intros s Hs. by apply bfs_init_lookup.
  - intros k Hk. rewrite Hq by done. by eexists.
  - intros k d k' [Hs ->]%bfs_init_lookup Hn. destruct Hn. by apply elem_of_nonzero_seeds.
  - replace (List.map _ _) with (replicate (List.length (queue (bfs_init seeds))) 1%Z).
    + apply (sorted_app_replicate []); [constructor|set_solver].
    + clear - Hq. unfold num. induction (queue (bfs_init seeds)) as [|k q IH] in Hq |- *; cbn; [done|].
      rewrite Hq by (by left). cbn. f_equal. apply IH. intros. apply Hq. by right.
  - intros h rest k d Eh [_ ->]%bfs_init_lookup. unfold num. rewrite Hq by (rewrite Eh; by left). cbn. lia.
Qed.

Lemma bfs_final_spec seeds :
  let st := bfs_final cl conditions grant seeds in
  queue st = [] /\
  (forall n k, reached_in seeds n k -> is_Some (dist st !! k)) /\
  forall k d, dist st !! k = Some d <->
    exists n, d = (Z.of_nat n + 1)%Z /\ reached_in seeds n k /\ (forall m, reached_in seeds m k -> (n <= m)%nat).
Proof.
  unfold bfs_final. destruct (bfs_loop_spec (walk_fuel cl seeds) seeds (bfs_init seeds)) as [Eq I].
  - apply bfs_init_inv.
  - unfold bfs_measure, unreached, walk_fuel. cbn [queue bfs_init].
    match goal with |- context [List.filter ?f (edges cl)] => pose proof (filter_length_le f (edges cl)) end. lia.
  - cbn zeta. set (st := Reach.bfs_loop _ _ _ _ _) in *. split; [done|].
    assert (forall n k, reached_in seeds n k -> exists d, dist st !! k = Some d /\ (d <= Z.of_nat n + 1)%Z) as Hle.
    { intros n. induction n as [|n IH]; intros k (s & Hs & Hk).
      - inversion Hk; subst. exists 1%Z. split; [by apply (b_seeds _ _ I)|lia].
      - apply nsteps_inv_r in Hk as (k0 & Hk0 & Hw).
        destruct (IH k0) as (d0 & Hd0 & Hle0); [by exists s|].
        destruct (b_closed _ _ I k0 d0 k Hd0) as (d & Hd & Hle1); [rewrite Eq; set_solver|done|].
        exists d. split; [done|lia]. }
    split; [intros n k Hn; destruct (Hle n k Hn) as (d & ? & _); by exists d|].
    intros k d. split.
    + intros Hd. destruct (b_path _ _ I k d Hd) as (n & -> & Hn). exists n. split_and!; [done..|].
      intros m Hm. destruct (Hle m k Hm) as (d' & Hd' & ?). simplify_eq. lia.
    + intros (n & -> & Hn & Hmin). destruct (Hle n k Hn) as (d & Hd & Hd').
      destruct (b_path _ _ I k d Hd) as (m & -> & Hm). specialize (Hmin m Hm).
      assert (n = m) as -> by lia. done.
Qed.
End Spec.

(** ** Properties *)

(** C32: The fold's walk terminates with an empty stack on every graph, and the
    set it returns is exactly the set of keys reachable from the non-zero seeds
    through hops whose verdict is clear. *)
Theorem closure_is_reachability (cl : ControlClosure) (conditions : ConditionPlane) (grant : option GateGrant)
    (seeds : gset string) :
  stack (dfs_final cl conditions grant seeds) = [] /\
  forall k, k ∈ (closure cl conditions grant seeds).1.1.1 <-> reachable cl conditions grant seeds k.
Proof. apply dfs_final_spec. Qed.

(** The published gaps are exactly the withheld frontier: every gap is the
    refusal of a hop out of a reached key into a key that was not reached, and
    every such hop has a gap naming its caller and destination. *)
Theorem closure_gaps_are_the_frontier (cl : ControlClosure) (conditions : ConditionPlane) (grant : option GateGrant)
    (seeds : gset string) :
  let gaps := (closure cl conditions grant seeds).1.1.2 in
  let reach := reachable cl conditions grant seeds in
  (forall b, b ∈ gaps -> exists e, e ∈ edges cl /\ reach (principal e) /\ ~ reach (anchor e) /\
                                   hop_bound e conditions grant = Some b) /\
  (forall e, e ∈ edges cl -> reach (principal e) -> is_zero_key (anchor e) = false -> ~ reach (anchor e) ->
     exists b, b ∈ gaps /\ hb_caller b = principal e /\ hb_destination b = anchor e).
Proof.
  cbn zeta. destruct (dfs_final_spec cl conditions grant seeds) as [_ Hs].
  assert (withheld_inv cl conditions grant (dfs_final cl conditions grant seeds)) as [Wa Wf].
  { apply dfs_loop_withheld. constructor; set_solver. }
  split.
  - intros b (pr & Hw & Hn)%closure_gaps. destruct (Wf pr b Hw) as (e & He & Hp & -> & _ & Hb).
    exists e. rewrite <- Hs. done.
  - intros e He Hp Hz Hn. destruct (hop_bound e conditions grant) as [b0|] eqn:Eb.
    + destruct (Wa e b0) as [b Hb]; [done|by apply Hs|done|].
      exists b. split; [apply closure_gaps; by exists (pair_of e)|].
      destruct (Wf _ _ Hb) as (e' & _ & _ & [= E1 E2] & _ & Hb'). rewrite E1, E2. by eapply hop_bound_pair.
    + destruct Hn. destruct Hp as (s & Hs' & Hr). exists s. split; [done|].
      eapply rtc_r; [exact Hr|]. exists e. done.
Qed.

(** The surface's breadth-first walk drains its queue and numbers exactly the
    reachable keys, each with one more than the least number of hops that
    reaches it from a seed. *)
Theorem bfs_shortest (cl : ControlClosure) (conditions : ConditionPlane) (grant : option GateGrant)
    (seeds : gset string) (k : string) (d : Z) :
  queue (bfs_final cl conditions grant seeds) = [] /\
  ((bfs cl conditions grant seeds).1.1 !! k = Some d <->
   exists n, d = (Z.of_nat n + 1)%Z /\ reached_in cl conditions grant seeds n k /\
             forall m, reached_in cl conditions grant seeds m k -> (n <= m)%nat).
Proof. destruct (bfs_final_spec cl conditions grant seeds) as (Hq & _ & Hd). split; [done|apply Hd]. Qed.

(** The surface's reach and the fold's reach cannot drift: from the same seeds
    and grant the two walks reach the same keys. *)
Theorem walks_agree (cl : ControlClosure) (conditions : ConditionPlane) (grant : option GateGrant)
    (seeds : gset string) :
  dom (bfs cl conditions grant seeds).1.1 = (closure cl conditions grant seeds).1.1.1.
Proof.
  apply set_eq. intros k. rewrite elem_of_dom. destruct (dfs_final_spec cl conditions grant seeds) as [_ Hs].
  cbn. rewrite Hs. destruct (bfs_final_spec cl conditions grant seeds) as (_ & Hi & Hd). split.
  - intros [d Hk]. apply Hd in Hk as (n & _ & Hn & _). apply reachable_nsteps. by exists n.
  - intros (n & Hn)%reachable_nsteps. by apply (Hi n).
Qed.
