(* ===== verification/EntityReach.v ===== *)
(** * Published reach

    [services/scoring/reach.py] above the walk: [_relax], [entity_reach],
    [merge_reach] and the assembly of [load_protocol_reach] (on the planes and
    signals its loaders return).  A dict whose entries are published sorted is a
    finite map; the frontier is the sorted list. *)

From stdpp Require Import base gmap sets list strings sorting pretty.
From Stdlib Require Import String Ascii ZArith Lia.
From S2P Require Import Prelude Planes Reach ReachTheory.

Local Open Scope string_scope.
Local Open Scope Z_scope.

(** ** Signals *)

(** The columns of a [FunctionSignal] the reach reads. *)
Record FunctionSignal := MkSignal {
  fs_chain : string;
  fs_deployment_address : string;
  fs_claim_id : string;
  fs_principal_keys : list string;
  fs_value_state : string;
  fs_value_entity_keys : list string;
  fs_selector : string;
  fs_function_id : option Z
}.

Definition VALUE_STATE_PROVEN_REACH : string := "proven_reach".

Definition CODE_CONTROL_CAPABILITIES : list string := ["delegatecall.execute"; "exec.arbitrary"; "upgrade.implementation"].
Definition GATE_CONTROL_CAPABILITIES : list string :=
  ["authority.replace"; "ownership.transfer"; "roles.grant"; "roles.configure"; "authorized_caller.rotate"].
Definition TRANSITIVE_CAPABILITIES : list string := (CODE_CONTROL_CAPABILITIES ++ GATE_CONTROL_CAPABILITIES)%list.

(** ** Records *)

Inductive ReachBasis := BASIS_CLOSURE_EDGE | BASIS_SIGNAL_SEED | BASIS_WALKED_HOP.

Record ReachEntry := MkEntry { re_hop : Z; re_basis : ReachBasis }.

Inductive FrontierReason := HOP_REFUSED (r : HopReason) | AUTHORITY_EXERCISE_NOT_WITNESSED.

#[export] Instance FrontierReason_eq_dec : EqDecision FrontierReason.
Proof. solve_decision. Defined.

Record FrontierEntry := MkFrontier { fe_from : string; fe_to : string; fe_reason : FrontierReason; fe_basis : string }.

Record EntityRecord := MkRecord {
  er_reached : gmap string ReachEntry;
  er_parents : gmap string string;
  er_frontier : list FrontierEntry
}.

Definition AUTHORITY_EXERCISE_BASIS : string := "no witness of what exercising this stored authority reaches".

(** [sorted(d.items())] on string keys. *)
Definition key_le {A} (x y : string * A) : Prop := str_le x.1 y.1.

#[export] Instance key_le_dec {A} : RelDecision (@key_le A).
Proof. intros x y. unfold key_le. apply _. Defined.

Definition sorted_dict {A} (m : gmap string A) : list (string * A) := merge_sort key_le (map_to_list m).

(** ** [_relax] *)

Definition relax_one (self_keys : gset string) (acc : gmap string ReachEntry * bool) (edge : string * string) :
    gmap string ReachEntry * bool :=
  let (reached, changed) := acc in
  let (child, parent) := edge in
  match reached !! child with
  | None => acc
  | Some entry =>
      let parent_hop := if bool_decide (parent ∈ self_keys) then Some 0 else re_hop <$> reached !! parent in
      match parent_hop with
      | Some h => if h + 1 <? re_hop entry then (<[child := MkEntry (h + 1) (re_basis entry)]> reached, true) else acc
      | None => acc
      end
  end.

Definition relax_pass (self_keys : gset string) (parents : list (string * string)) (reached : gmap string ReachEntry) :
    gmap string ReachEntry * bool :=
  foldl (relax_one self_keys) (reached, false) parents.

Fixpoint relax_loop (fuel : nat) (self_keys : gset string) (parents : list (string * string))
    (reached : gmap string ReachEntry) : gmap string ReachEntry :=
  match fuel with
  | O => reached
  | S fuel =>
      let (reached', changed) := relax_pass self_keys parents reached in
      if changed then relax_loop fuel self_keys parents reached' else reached'
  end.

(** Each pass that changes something lowers this sum. *)
Definition hop_sum (reached : gmap string ReachEntry) : nat :=
  map_fold (fun _ e n => (Z.to_nat (re_hop e) + n)%nat) 0%nat reached.

Definition relax (self_keys : gset string) (parents : gmap string string) (reached : gmap string ReachEntry) :
    gmap string ReachEntry :=
  relax_loop (S (hop_sum reached)) self_keys (map_to_list parents) reached.

(** ** [entity_reach] *)

Record reach_state := MkReach {
  rs_reached : gmap string ReachEntry;
  rs_parents : gmap string string;
  rs_frontier : gmap (string * string) FrontierEntry
}.

Section Entity.
Context (closure : ControlClosure) (conditions : ConditionPlane) (conferral : ConferralPlane).
Context (canonical : string -> string) (entity : string).

Definition self_keys : gset string := {[entity; canonical entity]}.

Definition admit_key (key : string) (hop : Z) (basis : ReachBasis) (parent : string) (st : reach_state) : reach_state :=
  let key := canonical key in
  let parent := canonical parent in
  if bool_decide (key ∈ self_keys) || String.eqb key parent then st
  else
    let take := MkReach (<[key := MkEntry hop basis]> (rs_reached st)) (<[key := parent]> (rs_parents st)) (rs_frontier st) in
    match rs_reached st !! key with
    | None => take
    | Some current => if hop <? re_hop current then take else st
    end.

Definition refuse (from to : string) (reason : FrontierReason) (basis : string) (st : reach_state) : reach_state :=
  let pair := (canonical from, canonical to) in
  if String.eqb pair.1 pair.2 then st
  else
    let put := MkReach (rs_reached st) (rs_parents st)
                 (<[pair := MkFrontier pair.1 pair.2 reason basis]> (rs_frontier st)) in
    match rs_frontier st !! pair with
    | None => put
    | Some standing => if decide (fe_reason standing = AUTHORITY_EXERCISE_NOT_WITNESSED) then put else st
    end.

(** [parent[key]] is there for every key at hop two or more
    ([bfs_parents]). *)
Definition merge_walk (seeds : gset string) (grant : option GateGrant) (hop_offset : Z) (st : reach_state) : reach_state :=
  let '(dist, parent, gaps) := bfs closure conditions grant seeds in
  let st := foldl (fun st '(key, h) =>
                     if 2 <=? h
                     then match parent !! key with
                          | Some p => admit_key key (h + hop_offset) BASIS_WALKED_HOP p st
                          | None => st
                          end
                     else st) st (sorted_dict dist) in
  foldl (fun st b => refuse (hb_caller b) (hb_destination b) (HOP_REFUSED (hb_reason b)) (hb_basis b) st) st gaps.

Definition signal_grant (s : FunctionSignal) : option GateGrant :=
  if bool_decide (fs_claim_id s ∈ CODE_CONTROL_CAPABILITIES) then None
  else Some (grant_for conferral (fs_claim_id s) (fs_function_id s)
               (Some (entity_key (Some (fs_chain s)) (Some (fs_deployment_address s)))) (Some (fs_selector s))).

(** One of the entity's own edges; the set collects the column anchors. *)
Definition own_edge (acc : reach_state * gset string) (e : ControlEdge) : reach_state * gset string :=
  let (st, code_seeds) := acc in
  if is_zero_key (anchor e) then acc
  else
    let st := admit_key (anchor e) 1 BASIS_CLOSURE_EDGE entity st in
    match relation e with
    | None => (st, {[anchor e]} ∪ code_seeds)
    | Some _ =>
        (foldl (fun st onward =>
                  if is_zero_key (anchor onward) then st
                  else refuse (anchor e) (anchor onward) AUTHORITY_EXERCISE_NOT_WITNESSED AUTHORITY_EXERCISE_BASIS st)
           st (edges_from closure (anchor e)),
         code_seeds)
    end.

Definition signal_seeds (s : FunctionSignal) : gset string :=
  list_to_set (List.filter (fun k => negb (is_zero_key k)) (fs_value_entity_keys s)).

Definition own_signal (st : reach_state) (s : FunctionSignal) : reach_state :=
  if negb (String.eqb (fs_value_state s) VALUE_STATE_PROVEN_REACH) then st
  else
    let seeds := signal_seeds s in
    let st := foldl (fun st key => admit_key key 1 BASIS_SIGNAL_SEED entity st) st (sorted_strings (elements seeds)) in
    if negb (bool_decide (fs_claim_id s ∈ TRANSITIVE_CAPABILITIES)) then st
    else merge_walk seeds (signal_grant s) 0 st.

Definition seeded_signal (st : reach_state) (s : FunctionSignal) : reach_state :=
  merge_walk {[entity]} (signal_grant s) (-1) st.

Context (signals_by_principal signals_by_seed : gmap string (list FunctionSignal)).

(** The state the walks leave, before hops are relaxed. *)
Definition collected : reach_state :=
  let (st, code_seeds) := foldl own_edge (MkReach ∅ ∅ ∅, ∅) (edges_from closure entity) in
  let st := if decide (code_seeds = ∅) then st else merge_walk code_seeds None 0 st in
  let st := foldl own_signal st (default [] (signals_by_principal !! entity)) in
  foldl seeded_signal st (default [] (signals_by_seed !! entity)).

Definition entity_reach : EntityRecord :=
  let st := collected in
  let reached := relax self_keys (rs_parents st) (rs_reached st) in
  MkRecord reached (rs_parents st)
    (List.map snd (List.filter (fun x => bool_decide (reached !! x.1.2 = None) && bool_decide (x.1.2 ∉ self_keys))
       (sorted_items (rs_frontier st)))).
End Entity.

(** ** [merge_reach] *)

Definition merge_reached (record : EntityRecord) (acc : gmap string ReachEntry * gmap string string)
    (item : string * ReachEntry) : gmap string ReachEntry * gmap string string :=
  let (reached, parents) := acc in
  let (key, entry) := item in
  let take := (<[key := entry]> reached, match er_parents record !! key with Some p => <[key := p]> parents | None => parents end) in
  match reached !! key with
  | None => take
  | Some current => if re_hop entry <? re_hop current then take else acc
  end.

Definition merge_frontier (merged : gmap (string * string) FrontierEntry) (entry : FrontierEntry) :
    gmap (string * string) FrontierEntry :=
  let pair := (fe_from entry, fe_to entry) in
  match merged !! pair with
  | None => <[pair := entry]> merged
  | Some held => if decide (fe_reason held = AUTHORITY_EXERCISE_NOT_WITNESSED) then <[pair := entry]> merged else merged
  end.

(** What an entity's standing record becomes when a second one arrives. *)
Definition merge_record (entity : string) (standing record : EntityRecord) : EntityRecord :=
  let (reached, parents) := foldl (merge_reached record) (er_reached standing, er_parents standing) (map_to_list (er_reached record)) in
  let merged := foldl merge_frontier
                  (foldl (fun m e => <[(fe_from e, fe_to e) := e]> m) ∅ (er_frontier standing)) (er_frontier record) in
  let reached := relax {[entity]} parents reached in
  MkRecord reached parents
    (List.map snd (List.filter (fun x => bool_decide (reached !! x.1.2 = None) && negb (String.eqb x.1.2 entity)) (sorted_items merged))).

Definition merge_entity (out : gmap string EntityRecord) (item : string * EntityRecord) : gmap string EntityRecord :=
  let (entity, record) := item in
  match out !! entity with
  | None => <[entity := record]> out
  | Some standing => <[entity := merge_record entity standing record]> out
  end.

Definition merge_reach (records : list (gmap string EntityRecord)) : gmap string EntityRecord :=
  foldl (fun out entities => foldl merge_entity out (sorted_dict entities)) ∅ records.

(** ** [load_protocol_reach] *)

Definition setdefault_append (key : string) (s : FunctionSignal) (m : gmap string (list FunctionSignal)) :
    gmap string (list FunctionSignal) :=
  <[key := (default [] (m !! key) ++ [s])%list]> m.

Definition index_signal (acc : gmap string (list FunctionSignal) * gmap string (list FunctionSignal)) (s : FunctionSignal) :
    gmap string (list FunctionSignal) * gmap string (list FunctionSignal) :=
  let (by_principal, by_seed) := acc in
  if negb (String.eqb (fs_value_state s) VALUE_STATE_PROVEN_REACH) then acc
  else
    let by_principal := foldl (fun m k => setdefault_append k s m) by_principal (sorted_strings (remove_dups (fs_principal_keys s))) in
    if negb (bool_decide (fs_claim_id s ∈ TRANSITIVE_CAPABILITIES)) then (by_principal, by_seed)
    else
      (by_principal,
       foldl (fun m k => if is_zero_key k then m else setdefault_append k s m) by_seed (sorted_strings (remove_dups (fs_value_entity_keys s)))).

Definition protocol_reach (closure : ControlClosure) (conditions : ConditionPlane) (conferral : ConferralPlane)
    (signals : list FunctionSignal) (alias : gmap string string) : gmap string EntityRecord :=
  let canonical key := default key (alias !! key) in
  let (by_principal, by_seed) := foldl index_signal (∅, ∅) signals in
  let entities := sorted_strings (elements (list_to_set (principals closure) ∪ dom by_principal ∪ dom by_seed : gset string)) in
  merge_reach
    (List.map (fun entity => {[canonical entity := entity_reach closure conditions conferral canonical entity by_principal by_seed]})
       (List.filter (fun k => negb (is_zero_key k)) entities)).
