(* ===== verification/EntityReachTheory.v ===== *)
(** * Published reach: what it claims

    Relaxation reaches a fixpoint, the shortest hops the drawn routes allow, and
    adds no key; every key an entity's record publishes is backed by an edge, a
    proven signal seed or a clear walk; and no frontier entry names a reached
    key. *)

From stdpp Require Import base gmap sets list strings sorting pretty.
From Stdlib Require Import String Ascii ZArith Lia.
From S2P Require Import Prelude Planes Reach ReachTheory EntityReach.

Local Open Scope string_scope.
Local Open Scope Z_scope.

(** ** Relaxation *)

Definition hops_nonneg (reached : gmap string ReachEntry) : Prop := forall k e, reached !! k = Some e -> 0 <= re_hop e.

Lemma hop_sum_insert_new reached k e :
  reached !! k = None -> hop_sum (<[k := e]> reached) = (Z.to_nat (re_hop e) + hop_sum reached)%nat.
Proof. intros H. unfold hop_sum. rewrite map_fold_insert_L; [done|intros; lia|done]. Qed.

Lemma hop_sum_update reached k e e' :
  reached !! k = Some e ->
  (hop_sum (<[k := e']> reached) + Z.to_nat (re_hop e) = hop_sum reached + Z.to_nat (re_hop e'))%nat.
Proof.
  intros H. rewrite <- (insert_delete_id reached k e H) at 2. rewrite <- insert_delete_eq.
  rewrite !hop_sum_insert_new by apply lookup_delete_eq. lia.
Qed.

(** Lower bounds that respect the drawn routes. *)
Definition feasible (self_keys : gset string) (parents : list (string * string)) (dom_ : gset string) (x : string -> Z) : Prop :=
  forall child parent, (child, parent) ∈ parents -> child ∈ dom_ ->
    (parent ∈ self_keys -> x child <= 1) /\ (parent ∉ self_keys -> parent ∈ dom_ -> x child <= x parent + 1).

Definition below (x : string -> Z) (reached : gmap string ReachEntry) : Prop :=
  forall k e, reached !! k = Some e -> x k <= re_hop e.

(** [r'] has the keys and bases of [r], with hops no longer. *)
Definition shortened (r r' : gmap string ReachEntry) : Prop :=
  forall k, match r !! k, r' !! k with
            | Some e, Some e' => re_basis e' = re_basis e /\ re_hop e' <= re_hop e
            | None, None => True
            | _, _ => False
            end.

Lemma shortened_refl r : shortened r r.
Proof. intros k. by destruct (r !! k). Qed.

Lemma shortened_trans r1 r2 r3 : shortened r1 r2 -> shortened r2 r3 -> shortened r1 r3.
Proof.
  intros H1 H2 k. specialize (H1 k). specialize (H2 k).
  destruct (r1 !! k), (r2 !! k), (r3 !! k); try done. destruct H1, H2. split; [congruence|lia].
Qed.

Lemma shortened_dom r r' : shortened r r' -> dom r' = dom r.
Proof.
  intros H. apply set_eq. intros k. rewrite !elem_of_dom. specialize (H k).
  destruct (r !! k), (r' !! k); done.
Qed.

Lemma relax_one_spec self_keys parents r changed child parent :
  hops_nonneg r -> (child, parent) ∈ parents ->
  let '(r', changed') := relax_one self_keys (r, changed) (child, parent) in
  shortened r r' /\ hops_nonneg r' /\
  (forall x, feasible self_keys parents (dom r) x -> below x r -> below x r') /\
  ((r' = r /\ changed' = changed /\
     (forall e, r !! child = Some e ->
        (parent ∈ self_keys -> re_hop e <= 1) /\
        (parent ∉ self_keys -> forall p, r !! parent = Some p -> re_hop e <= re_hop p + 1))) \/
   (changed' = true /\ (hop_sum r' < hop_sum r)%nat)).
Proof.
  intros Hnn Hin. unfold relax_one. destruct (r !! child) as [e|] eqn:Ec.
  2: { split_and!; [apply shortened_refl|done|done|by left]. }
  set (ph := if bool_decide (parent ∈ self_keys) then Some 0 else re_hop <$> r !! parent).
  destruct ph as [h|] eqn:Eh; unfold ph in Eh.
  2: { case_bool_decide; [done|]. destruct (r !! parent) eqn:Ep; [done|].
       split_and!; [apply shortened_refl|done|done|]. left. split_and!; [done|done|]. naive_solver. }
  assert (0 <= h) as Hh.
  { case_bool_decide; [simplify_eq; lia|]. destruct (r !! parent) as [p|] eqn:Ep; [|done]. cbn in Eh. simplify_eq. by eapply Hnn. }
  destruct (Z.ltb_spec (h + 1) (re_hop e)) as [Hlt|Hge].
  - split_and!.
    + intros k. destruct (decide (k = child)) as [->|Hne]; [rewrite Ec, lookup_insert_eq; cbn; split; [done|lia]|].
      rewrite lookup_insert_ne by done. by destruct (r !! k).
    + intros k e'. rewrite lookup_insert_Some. intros [[<- <-]|[_ H]]; [cbn; lia|by eapply Hnn].
    + intros x Hx Hb k e'. rewrite lookup_insert_Some. intros [[<- <-]|[_ H]]; [|by apply Hb]. cbn.
      destruct (Hx child parent Hin) as [H1 H2]; [by apply elem_of_dom; eauto|].
      case_bool_decide as Hs; [simplify_eq; specialize (H1 Hs); lia|].
      destruct (r !! parent) as [p|] eqn:Ep; [|done]. cbn in Eh. simplify_eq.
      specialize (H2 Hs). specialize (Hb parent p Ep). rewrite elem_of_dom in H2. specialize (H2 ltac:(eauto)). lia.
    + right. split; [done|]. pose proof (hop_sum_update r child e (MkEntry (h + 1) (re_basis e)) Ec) as Hs. cbn in Hs. lia.
  - split_and!; [apply shortened_refl|done|done|]. left. split_and!; [done|done|]. intros e' [= <-].
    case_bool_decide; [simplify_eq; split; [lia|done]|]. split; [done|]. intros _ p Hp. rewrite Hp in Eh. cbn in Eh. simplify_eq. lia.
Qed.

(** Every listed route is tight: the published hops respect it. *)
Definition tight (self_keys : gset string) (es : list (string * string)) (r : gmap string ReachEntry) : Prop :=
  forall child parent e, (child, parent) ∈ es -> r !! child = Some e ->
    (parent ∈ self_keys -> re_hop e <= 1) /\
    (parent ∉ self_keys -> forall p, r !! parent = Some p -> re_hop e <= re_hop p + 1).

Lemma relax_fold_spec self_keys parents es r changed :
  hops_nonneg r -> (forall e, e ∈ es -> e ∈ parents) ->
  let '(r', changed') := foldl (relax_one self_keys) (r, changed) es in
  shortened r r' /\ hops_nonneg r' /\
  (forall x, feasible self_keys parents (dom r) x -> below x r -> below x r') /\
  ((r' = r /\ changed' = changed /\ tight self_keys es r) \/ (changed' = true /\ (hop_sum r' < hop_sum r)%nat)).
Proof.
  revert r changed. induction es as [|[child parent] es IH]; intros r changed Hnn Hin; cbn [foldl].
  { split_and!; [apply shortened_refl|done|done|]. left. split_and!; [done|done|]. intros c p e Hcp. by apply elem_of_nil in Hcp. }
  pose proof (relax_one_spec self_keys parents r changed child parent Hnn ltac:(apply Hin; left)) as H1.
  destruct (relax_one self_keys (r, changed) (child, parent)) as [r1 c1].
  destruct H1 as (Hs1 & Hn1 & Hb1 & Hc1).
  specialize (IH r1 c1 Hn1 ltac:(intros e He; apply Hin; by right)).
  destruct (foldl (relax_one self_keys) (r1, c1) es) as [r2 c2]. destruct IH as (Hs2 & Hn2 & Hb2 & Hc2).
  rewrite (shortened_dom _ _ Hs1) in Hb2.
  split_and!; [by eapply shortened_trans|done|by eauto|].
  destruct Hc1 as [(-> & -> & Ht)|[-> Hlt1]].
  - destruct Hc2 as [(-> & -> & Ht2)|[-> Hlt2]]; [|by right]. left. split_and!; [done|done|].
    intros c p e [[= -> ->]|Hcp]%elem_of_cons He; [by apply Ht|by eapply Ht2].
  - right. destruct Hc2 as [(-> & -> & _)|[-> Hlt2]]; [done|]. split; [done|lia].
Qed.

Lemma relax_loop_spec fuel self_keys parents r :
  hops_nonneg r -> (hop_sum r < fuel)%nat ->
  let r' := relax_loop fuel self_keys parents r in
  shortened r r' /\ tight self_keys parents r' /\
  (forall x, feasible self_keys parents (dom r) x -> below x r -> below x r').
Proof.
  revert r. induction fuel as [|fuel IH]; intros r Hnn Hf; [lia|]. cbn [relax_loop]. unfold relax_pass.
  pose proof (relax_fold_spec self_keys parents parents r false Hnn ltac:(done)) as H.
  destruct (foldl (relax_one self_keys) (r, false) parents) as [r1 c1]. destruct H as (Hs & Hn & Hb & [(-> & -> & Ht)|[-> Hlt]]).
  - split_and!; [done|done|done].
  - destruct (IH r1 Hn ltac:(lia)) as (Hs' & Ht' & Hb'). rewrite (shortened_dom _ _ Hs) in Hb'.
    split_and!; [by eapply shortened_trans|done|by eauto].
Qed.

(** Relaxation terminates at the right hops.  It keeps the published keys
    and their bases and never lengthens a hop; in the result every drawn route is
    respected (one hop from the entity's own keys, at most one more than the
    parent's otherwise); and it shortens no more than that: any assignment of
    hops below the input that respects the routes is below the result, so the
    order in which the routes are visited does not matter. *)
Theorem relax_is_greatest self_keys parents reached :
  (forall k e, reached !! k = Some e -> 0 <= re_hop e) ->
  let r' := relax self_keys parents reached in
  shortened reached r' /\
  (forall child parent e, parents !! child = Some parent -> r' !! child = Some e ->
     (parent ∈ self_keys -> re_hop e <= 1) /\
     (parent ∉ self_keys -> forall p, r' !! parent = Some p -> re_hop e <= re_hop p + 1)) /\
  (forall x : string -> Z,
     (forall child parent, parents !! child = Some parent -> child ∈ dom reached ->
        (parent ∈ self_keys -> x child <= 1) /\ (parent ∉ self_keys -> parent ∈ dom reached -> x child <= x parent + 1)) ->
     (forall k e, reached !! k = Some e -> x k <= re_hop e) ->
     forall k e, r' !! k = Some e -> x k <= re_hop e).
Proof.
  intros Hnn r'. destruct (relax_loop_spec (S (hop_sum reached)) self_keys (map_to_list parents) reached Hnn ltac:(lia)) as (Hs & Ht & Hb).
  split_and!; [exact Hs| |].
  - intros child parent e Hp He. apply (Ht child parent e); [by apply elem_of_map_to_list|done].
  - intros x Hx. apply Hb. intros child parent Hin. apply Hx. by apply elem_of_map_to_list.
Qed.

Lemma relax_is_greatest_witness :
  let reached := {["a" := MkEntry 1 BASIS_CLOSURE_EDGE; "b" := MkEntry 5 BASIS_WALKED_HOP]} in
  let r' := relax {["e"]} {["a" := "e"; "b" := "a"]} reached in
  shortened reached r' /\ re_hop <$> (r' !! "b") = Some 2.
Proof.
  split; [|vm_compute; reflexivity].
  refine (proj1 (relax_is_greatest {["e"]} {["a" := "e"; "b" := "a"]} {["a" := MkEntry 1 BASIS_CLOSURE_EDGE; "b" := MkEntry 5 BASIS_WALKED_HOP]} _)).
  intros k e. rewrite lookup_insert_Some, lookup_singleton_Some. intros [[_ <-]|[_ [_ <-]]]; cbn; lia.
Defined.

(** ** The walk's parents *)

Section Parents.
Context (cl : ControlClosure) (conditions : ConditionPlane) (grant : option GateGrant).

Definition parents_ok (st : bfs_state) : Prop :=
  (forall k d, dist st !! k = Some d -> d = 1 \/ exists p, parent st !! k = Some p /\ walks cl conditions grant p k /\ is_Some (dist st !! p)) /\
  (forall k, k ∈ queue st -> is_Some (dist st !! k)).

Lemma bfs_edge_parents key st e :
  parents_ok st -> is_Some (dist st !! key) -> e ∈ edges cl -> principal e = key ->
  parents_ok (bfs_edge conditions grant key st e) /\ is_Some (dist (bfs_edge conditions grant key st e) !! key).
Proof.
  intros [Hp Hq] Hk He Hpr. unfold bfs_edge, bound_of. destruct (is_zero_key (anchor e)) eqn:Ez; [done|].
  destruct (hop_bound e conditions grant) eqn:Eb; [done|]. destruct (dist st !! anchor e) as [d0|] eqn:Ed; [done|].
  assert (forall k, is_Some (dist st !! k) -> forall v, is_Some (<[anchor e := v]> (dist st) !! k)) as Hmono.
  { intros k Hks v. destruct (decide (k = anchor e)) as [->|]; [rewrite lookup_insert_eq; eauto|by rewrite lookup_insert_ne]. }
  split; [|by apply Hmono]. split; cbn.
  - intros k d. rewrite lookup_insert_Some. intros [[<- <-]|[Hne Hd]].
    + right. exists key. rewrite lookup_insert_eq. split_and!; [done| |by apply Hmono].
      exists e. split_and!; [done|done|done|by split].
    + destruct (Hp k d Hd) as [->|(p & Hpp & Hw & Hpd)]; [by left|]. right. exists p.
      rewrite lookup_insert_ne by done. split_and!; [done|done|by apply Hmono].
  - intros k [H|H]%elem_of_app; [by apply Hmono, Hq|]. apply list_elem_of_singleton in H as ->. rewrite lookup_insert_eq. eauto.
Qed.

Lemma bfs_edges_parents key es st :
  parents_ok st -> is_Some (dist st !! key) -> (forall e, e ∈ es -> e ∈ edges cl /\ principal e = key) ->
  parents_ok (foldl (bfs_edge conditions grant key) st es).
Proof.
  revert st. induction es as [|e es IH]; intros st Hp Hk He; cbn; [done|].
  destruct (He e) as [H1 H2]; [by left|]. destruct (bfs_edge_parents key st e Hp Hk H1 H2) as [Hp' Hk'].
  apply IH; [done|done|]. intros e' He'. apply He. by right.
Qed.

Lemma bfs_loop_parents fuel st : parents_ok st -> parents_ok (bfs_loop cl conditions grant fuel st).
Proof.
  revert st. induction fuel as [|fuel IH]; intros st H; cbn; [done|]. destruct (queue st) as [|key rest] eqn:Eq; [done|].
  destruct H as [Hp Hq]. rewrite Eq in Hq. apply IH, bfs_edges_parents.
  - split; cbn; [done|]. intros k Hk. apply Hq. by right.
  - cbn. apply Hq. by left.
  - intros e. by rewrite elem_of_edges_from.
Qed.

(** A key numbered two or more was walked to from a reached parent. *)
Lemma bfs_parents seeds k d :
  dist (bfs_final cl conditions grant seeds) !! k = Some d -> 2 <= d ->
  exists p, parent (bfs_final cl conditions grant seeds) !! k = Some p /\ walks cl conditions grant p k /\
    reachable cl conditions grant seeds p /\ reachable cl conditions grant seeds k.
Proof.
  intros Hd H2. destruct (bfs_final_spec cl conditions grant seeds) as (_ & _ & Hspec).
  assert (forall x, is_Some (dist (bfs_final cl conditions grant seeds) !! x) -> reachable cl conditions grant seeds x) as Hr.
  { intros x [dx Hx]. apply Hspec in Hx as (n & _ & Hn & _). apply reachable_nsteps. by exists n. }
  assert (parents_ok (bfs_final cl conditions grant seeds)) as [Hp _].
  { apply bfs_loop_parents. split; cbn.
    - intros x dx Hx. left. apply elem_of_list_to_map_2 in Hx. apply list_elem_of_In, in_map_iff in Hx as (y & [= _ <-] & _). done.
    - intros x Hx. destruct (list_to_map (List.map (fun k0 => (k0, 1)) (nonzero_seeds seeds)) !! x) eqn:E; [eauto|].
      exfalso. apply not_elem_of_list_to_map_2 in E. apply E. apply list_elem_of_fmap. exists (x, 1). split; [done|].
      apply list_elem_of_In, in_map_iff. exists x. split; [done|]. by apply list_elem_of_In. }
  destruct (Hp k d Hd) as [->|(p & Hpp & Hw & Hpd)]; [lia|]. exists p. split_and!; [done|done|by apply Hr|apply Hr; eauto].
Qed.
End Parents.

(** ** The walk's gaps are edges *)

Section Gaps.
Context (cl : ControlClosure) (conditions : ConditionPlane) (grant : option GateGrant).

Definition refused_ok (st : bfs_state) : Prop :=
  forall pr b, refused st !! pr = Some b ->
    exists e, e ∈ edges cl /\ is_zero_key (anchor e) = false /\ hop_bound e conditions grant = Some b.

Lemma bfs_edge_refused key st e : refused_ok st -> e ∈ edges cl -> refused_ok (bfs_edge conditions grant key st e).
Proof.
  intros H He. unfold bfs_edge, bound_of. destruct (is_zero_key (anchor e)) eqn:Ez; [done|].
  destruct (hop_bound e conditions grant) as [b|] eqn:Eb; [|by destruct (dist st !! anchor e)].
  intros pr b'. cbn. unfold setdefault. destruct (refused st !! _) eqn:Er; [apply H|].
  rewrite lookup_insert_Some. intros [[_ <-]|[_ Hb]]; [eauto|by eapply H].
Qed.

Lemma bfs_edges_refused key es st :
  refused_ok st -> (forall e, e ∈ es -> e ∈ edges cl) -> refused_ok (foldl (bfs_edge conditions grant key) st es).
Proof.
  revert st. induction es as [|e es IH]; intros st H He; cbn; [done|].
  apply IH; [apply bfs_edge_refused; [done|apply He; by left]|]. intros e' H'. apply He. by right.
Qed.

Lemma bfs_loop_refused fuel st : refused_ok st -> refused_ok (bfs_loop cl conditions grant fuel st).
Proof.
  revert st. induction fuel as [|fuel IH]; intros st H; cbn; [done|]. destruct (queue st) as [|key rest]; [done|].
  apply IH, bfs_edges_refused; [done|]. intros e. rewrite elem_of_edges_from. by intros [? _].
Qed.

Lemma bfs_gap_edge seeds b : b ∈ (bfs cl conditions grant seeds).2 ->
  exists e, e ∈ edges cl /\ is_zero_key (anchor e) = false /\ hb_caller b = principal e /\ hb_destination b = anchor e.
Proof.
  unfold bfs. cbn [snd]. intros Hb. apply list_elem_of_In, in_map_iff in Hb as ([pr b'] & <- & Hf).
  apply filter_In in Hf as [Hf _]. apply list_elem_of_In, elem_of_sorted_items in Hf.
  assert (refused_ok (bfs_final cl conditions grant seeds)) as Hr.
  { apply bfs_loop_refused. intros pr' b''. cbn. by rewrite lookup_empty. }
  destruct (Hr _ _ Hf) as (e & He & Hz & Eb). exists e. destruct (hop_bound_pair _ _ _ _ Eb) as [? ?]. done.
Qed.
End Gaps.

(** ** What backs a published key *)

Section Backed.
Context (cl : ControlClosure) (conditions : ConditionPlane) (conferral : ConferralPlane).
Context (canonical : string -> string) (entity : string).
Context (by_principal by_seed : gmap string (list FunctionSignal)).

Notation self := (self_keys canonical entity).
Notation admit_key := (admit_key canonical entity).
Notation refuse := (refuse canonical).
Notation merge_walk := (merge_walk cl conditions canonical entity).

(** A proven-reach signal the entity holds. *)
Definition held_signal (s : FunctionSignal) : Prop :=
  s ∈ default [] (by_principal !! entity) /\ fs_value_state s = VALUE_STATE_PROVEN_REACH.

Definition own_column (e : ControlEdge) : Prop :=
  e ∈ edges cl /\ principal e = entity /\ is_zero_key (anchor e) = false /\ relation e = None.

Inductive backed : string -> Prop :=
  | backed_edge e : e ∈ edges cl -> principal e = entity -> is_zero_key (anchor e) = false -> backed (anchor e)
  | backed_seed s k : held_signal s -> k ∈ fs_value_entity_keys s -> is_zero_key k = false -> backed k
  | backed_code e k : own_column e -> rtc (walks cl conditions None) (anchor e) k -> backed k
  | backed_signal s k0 k : held_signal s -> fs_claim_id s ∈ TRANSITIVE_CAPABILITIES ->
      k0 ∈ fs_value_entity_keys s -> is_zero_key k0 = false ->
      rtc (walks cl conditions (signal_grant conferral s)) k0 k -> backed k
  | backed_standpoint s k : s ∈ default [] (by_seed !! entity) -> is_zero_key entity = false ->
      rtc (walks cl conditions (signal_grant conferral s)) entity k -> backed k.

Definition good (st : reach_state) : Prop :=
  (forall k e, rs_reached st !! k = Some e ->
     k ∉ self /\ 1 <= re_hop e /\ is_Some (rs_parents st !! k) /\ exists raw, canonical raw = k /\ backed raw) /\
  (forall pr fe, rs_frontier st !! pr = Some fe ->
     (fe_from fe, fe_to fe) = pr /\
     exists e, e ∈ edges cl /\ is_zero_key (anchor e) = false /\ pr = (canonical (principal e), canonical (anchor e))).

(** Keys are never dropped and their hops never grow. *)
Definition st_le (st st' : reach_state) : Prop :=
  forall k e, rs_reached st !! k = Some e -> exists e', rs_reached st' !! k = Some e' /\ re_hop e' <= re_hop e.

Definition step_ok (st st' : reach_state) : Prop := (good st -> good st') /\ st_le st st'.

Lemma step_ok_refl st : step_ok st st.
Proof. split; [done|]. intros k e He. exists e. split; [done|lia]. Qed.

Lemma step_ok_trans st1 st2 st3 : step_ok st1 st2 -> step_ok st2 st3 -> step_ok st1 st3.
Proof.
  intros [G1 L1] [G2 L2]. split; [auto|]. intros k e (e' & H1 & Hle1)%L1. destruct (L2 _ _ H1) as (e'' & ? & ?).
  exists e''. split; [done|lia].
Qed.

Lemma foldl_step_ok {A} (f : reach_state -> A -> reach_state) l st :
  (forall x st, x ∈ l -> step_ok st (f st x)) -> step_ok st (foldl f st l).
Proof.
  revert st. induction l as [|x l IH]; intros st H; cbn; [apply step_ok_refl|].
  eapply step_ok_trans; [apply H; left|]. apply IH. intros y st' Hy. apply H. by right.
Qed.

Lemma admit_step key hop basis parent st :
  backed key -> 1 <= hop -> step_ok st (admit_key key hop basis parent st).
Proof.
  intros Hb Hh. unfold EntityReach.admit_key. case_bool_decide as Hs; cbn [orb]; [apply step_ok_refl|].
  destruct (String.eqb _ _); [apply step_ok_refl|].
  assert (forall cur, (rs_reached st !! canonical key = cur) -> match cur with Some c => hop < re_hop c | None => True end ->
    step_ok st (MkReach (<[canonical key := MkEntry hop basis]> (rs_reached st))
                  (<[canonical key := canonical parent]> (rs_parents st)) (rs_frontier st))) as Htake.
  { intros cur Ec Hcur. split.
    - intros [G1 G2]. split; [|exact G2]. cbn. intros k e. rewrite lookup_insert_Some. intros [[<- <-]|[Hne He]].
      + split_and!; [done|done|rewrite lookup_insert_eq; eauto|eauto].
      + destruct (G1 k e He) as (? & ? & ? & ?). rewrite lookup_insert_ne by done. done.
    - intros k e He. cbn. destruct (decide (k = canonical key)) as [->|Hne].
      + rewrite lookup_insert_eq. exists (MkEntry hop basis). split; [done|]. rewrite He in Ec. subst cur. cbn. lia.
      + rewrite lookup_insert_ne by done. exists e. split; [done|lia]. }
  destruct (rs_reached st !! canonical key) as [cur|] eqn:Ec; [|by apply (Htake None)].
  destruct (Z.ltb_spec hop (re_hop cur)); [by apply (Htake (Some cur))|apply step_ok_refl].
Qed.

Lemma refuse_step from to reason basis e st :
  e ∈ edges cl -> is_zero_key (anchor e) = false -> from = principal e -> to = anchor e ->
  step_ok st (refuse from to reason basis st).
Proof.
  intros He Hz -> ->. unfold EntityReach.refuse. cbn [fst snd]. destruct (String.eqb _ _); [apply step_ok_refl|].
  set (pr := (canonical (principal e), canonical (anchor e))).
  assert (step_ok st (MkReach (rs_reached st) (rs_parents st)
    (<[pr := MkFrontier (canonical (principal e)) (canonical (anchor e)) reason basis]> (rs_frontier st)))) as Hput.
  { split.
    - intros [G1 G2]. split; [exact G1|]. cbn. intros pr' fe. rewrite lookup_insert_Some.
      intros [[<- <-]|[_ Hf]]; [|by apply G2]. split; [done|]. eauto.
    - intros k x Hx. exists x. split; [done|lia]. }
  destruct (rs_frontier st !! pr); [|done]. case_decide; [done|apply step_ok_refl].
Qed.

(** A walk whose reachable keys are backed. *)
Lemma merge_walk_step seeds grant offset st :
  (forall k, reachable cl conditions grant seeds k -> backed k) -> -1 <= offset ->
  step_ok st (merge_walk seeds grant offset st).
Proof.
  intros Hb Ho. unfold EntityReach.merge_walk. pose proof (bfs_gap_edge cl conditions grant seeds) as Hgap.
  pose proof (bfs_parents cl conditions grant seeds) as Hpar.
  destruct (bfs cl conditions grant seeds) as [[dist par] gaps] eqn:E. injection E as <- <- _. cbn [snd] in Hgap.
  eapply step_ok_trans; [|apply foldl_step_ok; intros b s Hin; destruct (Hgap b Hin) as (e & He & Hz & Hc & Hd); by eapply refuse_step].
  apply foldl_step_ok. intros [key h] s Hin.
  unfold sorted_dict in Hin. rewrite merge_sort_Permutation in Hin. apply elem_of_map_to_list in Hin.
  destruct (Z.leb_spec 2 h) as [H2|]; [|apply step_ok_refl].
  destruct (Hpar key h Hin H2) as (p & -> & _ & _ & Hr). apply admit_step; [by apply Hb|lia].
Qed.

(** The entity's own edges, with the column anchors they collect. *)
Lemma own_edges_step es st seeds :
  (forall e, e ∈ es -> e ∈ edges cl /\ principal e = entity) ->
  let r := foldl (own_edge cl canonical entity) (st, seeds) es in
  step_ok st r.1 /\
  (forall k, k ∈ r.2 -> k ∈ seeds \/ exists e, own_column e /\ anchor e = k) /\
  (forall e, e ∈ es -> is_zero_key (anchor e) = false -> canonical (anchor e) ∉ self ->
     exists x, rs_reached r.1 !! canonical (anchor e) = Some x /\ re_hop x <= 1).
Proof.
  revert st seeds. induction es as [|e es IH]; intros st seeds He; cbn [foldl].
  { split_and!; [apply step_ok_refl|by left|]. intros e H. by apply elem_of_nil in H. }
  destruct (He e) as [H1 H2]; [by left|].
  assert (forall e', e' ∈ es -> e' ∈ edges cl /\ principal e' = entity) as He' by (intros e' ?; apply He; by right).
  assert (exists st1 seeds1, own_edge cl canonical entity (st, seeds) e = (st1, seeds1) /\ step_ok st st1 /\
    (forall k, k ∈ seeds1 -> k ∈ seeds \/ exists e, own_column e /\ anchor e = k) /\
    (is_zero_key (anchor e) = false -> canonical (anchor e) ∉ self ->
      exists x, rs_reached st1 !! canonical (anchor e) = Some x /\ re_hop x <= 1)) as (st1 & seeds1 & -> & Hs1 & Hk1 & Hd1).
  { unfold own_edge. destruct (is_zero_key (anchor e)) eqn:Ez; [by exists st, seeds; split_and!; [done|apply step_ok_refl|by left|]|].
    assert (backed (anchor e)) as Hb by by eapply backed_edge.
    pose proof (admit_step (anchor e) 1 BASIS_CLOSURE_EDGE entity st Hb ltac:(lia)) as Ha.
    set (st1 := admit_key (anchor e) 1 BASIS_CLOSURE_EDGE entity st) in *.
    assert (canonical (anchor e) ∉ self -> exists x, rs_reached st1 !! canonical (anchor e) = Some x /\ re_hop x <= 1) as Hd1.
    { intros Hn. unfold st1, EntityReach.admit_key. rewrite bool_decide_eq_false_2 by done. cbn [orb].
      destruct (String.eqb_spec (canonical (anchor e)) (canonical entity)) as [E|_].
      { destruct Hn. rewrite E. unfold self_keys. set_solver. }
      destruct (rs_reached st !! canonical (anchor e)) as [cur|] eqn:Ec.
      - destruct (Z.ltb_spec 1 (re_hop cur)); [cbn; rewrite lookup_insert_eq; by eexists|]. exists cur. done.
      - cbn. rewrite lookup_insert_eq. by eexists. }
    destruct (relation e) as [rel|] eqn:Er.
    - eexists _, seeds. split; [reflexivity|].
      assert (step_ok st1 (foldl (fun st onward => if is_zero_key (anchor onward) then st
                else refuse (anchor e) (anchor onward) AUTHORITY_EXERCISE_NOT_WITNESSED AUTHORITY_EXERCISE_BASIS st)
                st1 (edges_from cl (anchor e)))) as Hf.
      { apply foldl_step_ok. intros o s' Ho. rewrite elem_of_edges_from in Ho. destruct Ho as [Ho1 Ho2].
        destruct (is_zero_key (anchor o)) eqn:Ezo; [apply step_ok_refl|]. by eapply refuse_step. }
      split_and!; [by eapply step_ok_trans|by left|]. intros _ Hn. destruct (Hd1 Hn) as (x & Hx & Hle).
      destruct (proj2 Hf _ _ Hx) as (x' & Hx' & Hle'). exists x'. split; [done|lia].
    - exists st1, ({[anchor e]} ∪ seeds). split_and!; [done|done| |auto].
      intros k [->%elem_of_singleton|]%elem_of_union; [right; by exists e|by left]. }
  destruct (IH st1 seeds1 He') as (Hs & Hk & Hd).
  split_and!; [by eapply step_ok_trans| |].
  - intros k [H|H]%Hk; [by apply Hk1|by right].
  - intros e' [->|Hin]%elem_of_cons Hz Hn; [|by apply Hd].
    destruct (Hd1 Hz Hn) as (x & Hx & Hle). destruct (proj2 Hs _ _ Hx) as (x' & Hx' & Hle'). exists x'. split; [done|lia].
Qed.

Lemma own_signal_step s st :
  s ∈ default [] (by_principal !! entity) -> step_ok st (own_signal cl conditions conferral canonical entity st s).
Proof.
  intros Hin. unfold own_signal. destruct (String.eqb_spec (fs_value_state s) VALUE_STATE_PROVEN_REACH) as [Ev|]; cbn [negb]; [|apply step_ok_refl].
  assert (held_signal s) as Hh by done.
  assert (forall k, k ∈ signal_seeds s -> k ∈ fs_value_entity_keys s /\ is_zero_key k = false) as Hsd.
  { intros k. unfold signal_seeds. rewrite elem_of_list_to_set, list_elem_of_In, filter_In, <- list_elem_of_In, negb_true_iff. done. }
  assert (step_ok st (foldl (fun st key => admit_key key 1 BASIS_SIGNAL_SEED entity st) st (sorted_strings (elements (signal_seeds s))))) as H0.
  { apply foldl_step_ok. intros k st' Hk. unfold sorted_strings in Hk. rewrite merge_sort_Permutation, elem_of_elements in Hk.
    destruct (Hsd k Hk). apply admit_step; [by eapply backed_seed|lia]. }
  eapply step_ok_trans; [exact H0|].
  case_bool_decide as Ht; cbn [negb]; [|apply step_ok_refl]. apply merge_walk_step; [|lia].
  intros k (k0 & [Hk0 _] & Hr). destruct (Hsd k0 Hk0). by eapply backed_signal.
Qed.

Lemma seeded_signal_step s st :
  s ∈ default [] (by_seed !! entity) -> step_ok st (seeded_signal cl conditions conferral canonical entity st s).
Proof.
  intros Hin. apply merge_walk_step; [|lia]. intros k (k0 & [->%elem_of_singleton Hz] & Hr). by eapply backed_standpoint.
Qed.

Lemma collected_ok :
  let st := collected cl conditions conferral canonical entity by_principal by_seed in
  good st /\
  forall e, e ∈ edges cl -> principal e = entity -> is_zero_key (anchor e) = false -> canonical (anchor e) ∉ self ->
    exists x, rs_reached st !! canonical (anchor e) = Some x /\ re_hop x <= 1.
Proof.
  cbv zeta. unfold collected.
  destruct (own_edges_step (edges_from cl entity) (MkReach ∅ ∅ ∅) ∅) as (Hs1 & Hk1 & Hd1);
    [intros e; by rewrite elem_of_edges_from|].
  destruct (foldl (own_edge cl canonical entity) (MkReach ∅ ∅ ∅, ∅) (edges_from cl entity)) as [st1 seeds1]. cbn [fst snd] in *.
  set (st2 := if decide (seeds1 = ∅) then st1 else merge_walk seeds1 None 0 st1).
  assert (step_ok st1 st2) as Hs2.
  { unfold st2. case_decide; [apply step_ok_refl|]. apply merge_walk_step; [|lia].
    intros k (k0 & [Hk0 _] & Hr). destruct (Hk1 k0 Hk0) as [?|(e & He & <-)]; [set_solver|]. by eapply backed_code. }
  set (st3 := foldl (own_signal cl conditions conferral canonical entity) st2 _).
  assert (step_ok st2 st3) as Hs3 by (apply foldl_step_ok; intros s st' Hin; by apply own_signal_step).
  set (st4 := foldl _ st3 _).
  assert (step_ok st3 st4) as Hs4 by (apply foldl_step_ok; intros s st' Hin; by apply seeded_signal_step).
  assert (step_ok st1 st4) as H14 by (do 2 (eapply step_ok_trans; [eassumption|]); done).
  split.
  - apply (proj1 H14), (proj1 Hs1). split; cbn; intros *; by rewrite lookup_empty.
  - intros e He Hp Hz Hn. destruct (Hd1 e) as (x & Hx & Hle); [by apply elem_of_edges_from|done|done|].
    destruct (proj2 H14 _ _ Hx) as (x' & Hx' & Hle'). exists x'. split; [done|lia].
Qed.
End Backed.

(** C33: an entity's published reach claims nothing it cannot back and withholds
    no direct authority.  Every reached key is the canonical form of a key some
    closure edge of the entity names, some proven signal it holds seeds, or a
    walk of clear hops reaches from its column anchors, from such seeds under the
    signal's own grant, or from its own standpoint; it is never the entity
    itself, is at hop one or more and has a parent drawn.  Every non-zero anchor
    of the entity's edges is published at hop one.  A frontier entry is an edge
    of the closure whose destination is neither reached nor the entity. *)
Theorem entity_reach_backed cl conditions conferral canonical entity by_principal by_seed :
  let r := entity_reach cl conditions conferral canonical entity by_principal by_seed in
  (forall k e, er_reached r !! k = Some e ->
     k ∉ self_keys canonical entity /\ 1 <= re_hop e /\ is_Some (er_parents r !! k) /\
     exists raw, canonical raw = k /\ backed cl conditions conferral entity by_principal by_seed raw) /\
  (forall e, e ∈ edges cl -> principal e = entity -> is_zero_key (anchor e) = false ->
     canonical (anchor e) ∉ self_keys canonical entity ->
     exists x, er_reached r !! canonical (anchor e) = Some x /\ re_hop x = 1) /\
  (forall fe, fe ∈ er_frontier r ->
     er_reached r !! fe_to fe = None /\ fe_to fe ∉ self_keys canonical entity /\
     exists e, e ∈ edges cl /\ is_zero_key (anchor e) = false /\
       fe_from fe = canonical (principal e) /\ fe_to fe = canonical (anchor e)).
Proof.
  cbv zeta. unfold entity_reach. cbn [er_reached er_parents er_frontier].
  destruct (collected_ok cl conditions conferral canonical entity by_principal by_seed) as [[G1 G2] Hd].
  set (st := collected cl conditions conferral canonical entity by_principal by_seed) in *.
  assert (hops_nonneg (rs_reached st)) as Hnn by (intros k e He; destruct (G1 k e He) as (_ & ? & _); lia).
  destruct (relax_loop_spec (S (hop_sum (rs_reached st))) (self_keys canonical entity) (map_to_list (rs_parents st)) (rs_reached st) Hnn ltac:(lia))
    as (Hs & _ & Hb).
  fold (relax (self_keys canonical entity) (rs_parents st) (rs_reached st)) in Hs, Hb.
  set (r' := relax (self_keys canonical entity) (rs_parents st) (rs_reached st)) in *.
  assert (forall k e, r' !! k = Some e -> 1 <= re_hop e) as H1.
  { apply (Hb (fun _ => 1)); [intros c p _ _; split; lia|]. intros k e He. by destruct (G1 k e He) as (_ & ? & _). }
  split_and!.
  - intros k e He. pose proof (Hs k) as Hk. rewrite He in Hk. destruct (rs_reached st !! k) as [e0|] eqn:E0; [|done].
    destruct (G1 k e0 E0) as (? & _ & ? & ?). split_and!; [done|by eapply H1|done|done].
  - intros e He Hp Hz Hn. destruct (Hd e He Hp Hz Hn) as (x & Hx & Hle). pose proof (Hs (canonical (anchor e))) as Hk.
    rewrite Hx in Hk. destruct (r' !! canonical (anchor e)) as [y|] eqn:Ey; [|done]. exists y. split; [done|].
    specialize (H1 _ _ Ey). lia.
  - intros fe Hin. apply list_elem_of_In, in_map_iff in Hin as ([pr fe'] & <- & Hf). apply filter_In in Hf as [Hf Hc].
    apply list_elem_of_In, elem_of_sorted_items in Hf. rewrite andb_true_iff, !bool_decide_eq_true in Hc. cbn [fst snd] in *.
    destruct (G2 _ _ Hf) as (<- & e & He & Hz & [= E1 E2]). cbn [snd] in Hc. destruct Hc as [Hc1 Hc2].
    split_and!; [done|done|]. exists e. done.
Qed.
