(* ===== verification/Chains.v ===== *)
(** * Chain registry

    [utils/chains.py]: the loose-label front door [canonical_chain], the
    registry [CHAINS] with its two indexes, the resolvers [chain_by_id],
    [chain_by_name] and [require_chain], the deployment allowlist, and the
    cache token under which per-chain rows are stored.  The environment
    variable [PSAT_SUPPORTED_CHAIN_IDS] is the argument [env] of the functions
    that read it.  Text is ASCII. *)

From stdpp Require Import base gmap sets list strings pretty.
From Stdlib Require Import String Ascii ZArith Lia.
From S2P Require Import Prelude.

Local Open Scope string_scope.
Local Open Scope Z_scope.

(** ** Labels *)

Definition CHAIN_ALIASES : list (string * string) :=
  [("mainnet", "ethereum");
   ("eth", "ethereum");
   ("ethereum", "ethereum");
   ("ethereum mainnet", "ethereum");
   ("eth mainnet", "ethereum");
   ("base", "base");
   ("base mainnet", "base");
   ("arbitrum", "arbitrum");
   ("arbitrum one", "arbitrum");
   ("optimism", "optimism");
   ("optimistic ethereum", "optimism");
   ("polygon", "polygon");
   ("polygon pos", "polygon");
   ("matic", "polygon");
   ("avalanche", "avalanche");
   ("avalanche c-chain", "avalanche");
   ("avax", "avalanche");
   ("bsc", "bsc");
   ("bnb", "bsc");
   ("bnb chain", "bsc");
   ("binance smart chain", "bsc");
   ("linea", "linea");
   ("scroll", "scroll");
   ("zksync", "zksync");
   ("zk sync", "zksync");
   ("blast", "blast");
   ("unknown", "unknown")].

(** A character of the regular expression class [\s_-]. *)
Definition is_chain_sep (c : ascii) : bool := is_space c || Ascii.eqb c "_" || Ascii.eqb c "-".

(** [re.sub] of every maximal run of separators by one space; [prev] says that
    the character before was a separator. *)
Fixpoint collapse_seps (prev : bool) (s : string) : string :=
  match s with
  | EmptyString => EmptyString
  | String c s =>
      if is_chain_sep c
      then if prev then collapse_seps true s else String " " (collapse_seps true s)
      else String c (collapse_seps false s)
  end.

(** [re.sub(..., " ", text.strip()).strip().lower()] *)
Definition normalize_chain (text : string) : string :=
  str_lower (str_strip (collapse_seps false (str_strip text))).

Definition canonical_chain (value : pyval) : option string :=
  match value with
  | PyNone => None
  | _ =>
      let text := str_strip (py_str value) in
      if String.eqb text "" then None
      else
        let normalized := str_lower (str_strip (collapse_seps false text)) in
        Some (default normalized (assoc_get normalized CHAIN_ALIASES))
  end.

Fixpoint canonical_chain_loop (values : list pyval) (seen : gset string) (out : list string) : list string :=
  match values with
  | [] => out
  | value :: values =>
      match canonical_chain value with
      | None => canonical_chain_loop values seen out
      | Some chain =>
          if String.eqb chain "" || bool_decide (chain ∈ seen)
          then canonical_chain_loop values seen out
          else canonical_chain_loop values ({[chain]} ∪ seen) (out ++ [chain])
      end
  end.

Definition canonical_chain_list (values : option (list pyval)) : option (list string) :=
  values ← values; Some (canonical_chain_loop values ∅ []).

(** ** Registry *)

Definition DEFAULT_CONFIRMATION_DEPTH : Z := 12.
Definition MAX_GETLOGS_RANGE : Z := 2000.

(** [block_time_ms] is the source's [block_time_s] in thousandths. *)
Record ChainInfo := mkChainInfo {
  chain_id : Z;
  ci_name : string;
  aliases : list string;
  native_asset : string;
  hypersync_url : option string;
  explorer_base_url : string;
  confirmation_depth : Z;
  max_getlogs_range : Z;
  block_time_ms : Z;
  bridge_executors : list string;
  cross_domain_messengers : list string;
  native_price_action : string;
}.

Definition default_native_price_action : string := "ethprice".

Definition CHAINS : list ChainInfo :=
  [mkChainInfo 1 "ethereum" ["mainnet"] "ETH" (Some "https://eth.hypersync.xyz")
     "https://etherscan.io" DEFAULT_CONFIRMATION_DEPTH MAX_GETLOGS_RANGE 12000
     [] [] default_native_price_action;
   mkChainInfo 42161 "arbitrum" [] "ETH" None
     "https://arbiscan.io" DEFAULT_CONFIRMATION_DEPTH MAX_GETLOGS_RANGE 250
     [] [] default_native_price_action;
   mkChainInfo 10 "optimism" [] "ETH" None
     "https://optimistic.etherscan.io" DEFAULT_CONFIRMATION_DEPTH MAX_GETLOGS_RANGE 2000
     [] [] default_native_price_action;
   mkChainInfo 137 "polygon" [] "POL" None
     "https://polygonscan.com" DEFAULT_CONFIRMATION_DEPTH MAX_GETLOGS_RANGE 2100
     [] [] default_native_price_action;
   mkChainInfo 8453 "base" [] "ETH" (Some "https://base.hypersync.xyz")
     "https://basescan.org" 75 MAX_GETLOGS_RANGE 2000
     ["0x4200000000000000000000000000000000000010"] ["0x4200000000000000000000000000000000000007"] default_native_price_action;
   mkChainInfo 43114 "avalanche" [] "AVAX" None
     "https://snowtrace.io" DEFAULT_CONFIRMATION_DEPTH MAX_GETLOGS_RANGE 2000
     [] [] default_native_price_action;
   mkChainInfo 56 "bsc" [] "BNB" None
     "https://bscscan.com" DEFAULT_CONFIRMATION_DEPTH MAX_GETLOGS_RANGE 3000
     [] [] "bnbprice";
   mkChainInfo 59144 "linea" [] "ETH" None
     "https://lineascan.build" DEFAULT_CONFIRMATION_DEPTH MAX_GETLOGS_RANGE 2000
     [] [] default_native_price_action;
   mkChainInfo 534352 "scroll" [] "ETH" None
     "https://scrollscan.com" DEFAULT_CONFIRMATION_DEPTH MAX_GETLOGS_RANGE 3000
     [] [] default_native_price_action;
   mkChainInfo 324 "zksync" [] "ETH" None
     "https://era.zksync.network" DEFAULT_CONFIRMATION_DEPTH MAX_GETLOGS_RANGE 1000
     [] [] default_native_price_action;
   mkChainInfo 81457 "blast" [] "ETH" None
     "https://blastscan.io" DEFAULT_CONFIRMATION_DEPTH MAX_GETLOGS_RANGE 2000
     [] [] default_native_price_action;
   mkChainInfo 34443 "mode" [] "ETH" None
     "https://explorer.mode.network" DEFAULT_CONFIRMATION_DEPTH MAX_GETLOGS_RANGE 2000
     [] [] default_native_price_action;
   mkChainInfo 80094 "berachain" ["bera"] "BERA" None
     "https://berascan.com" DEFAULT_CONFIRMATION_DEPTH MAX_GETLOGS_RANGE 2000
     [] [] default_native_price_action].

(** The keys [(info.name, *info.aliases)] an entry is indexed under. *)
Definition chain_keys (info : ChainInfo) : list string := ci_name info :: aliases info.

(** ** Errors *)

Inductive chain_error :=
  | ValueError (msg : string)
  | UnknownChainError (msg : string)
  | UnsupportedChainError (msg : string).

Inductive result (A : Type) :=
  | Ok (a : A)
  | Raise (e : chain_error).
Arguments Ok {A} a.
Arguments Raise {A} e.

#[export] Instance result_bind : MBind result :=
  fun _ _ f m => match m with Ok a => f a | Raise e => Raise e end.
#[export] Instance result_ret : MRet result := fun _ a => Ok a.

Definition of_result {A} (r : result A) : option A :=
  match r with Ok a => Some a | Raise _ => None end.

(** ** Indexes *)

Fixpoint index_keys (info : ChainInfo) (keys : list string) (by_name : gmap string ChainInfo) :
    result (gmap string ChainInfo) :=
  match keys with
  | [] => Ok by_name
  | key :: keys =>
      if bool_decide (is_Some (by_name !! key))
      then Raise (ValueError ("duplicate chain name/alias in registry: " ++ repr_str key))
      else index_keys info keys (<[key := info]> by_name)
  end.

Fixpoint index_chains (chains : list ChainInfo) (by_id : gmap Z ChainInfo) (by_name : gmap string ChainInfo) :
    result (gmap Z ChainInfo * gmap string ChainInfo) :=
  match chains with
  | [] => Ok (by_id, by_name)
  | info :: chains =>
      if bool_decide (is_Some (by_id !! chain_id info))
      then Raise (ValueError ("duplicate chain_id in registry: " ++ pretty (chain_id info)))
      else
        by_name ← index_keys info (chain_keys info) by_name;
        index_chains chains (<[chain_id info := info]> by_id) by_name
  end.

Definition build_indexes (chains : list ChainInfo) : result (gmap Z ChainInfo * gmap string ChainInfo) :=
  index_chains chains ∅ ∅.

(** [_BY_ID] and [_BY_NAME], bound when the module is imported. *)
Definition BY_ID : gmap Z ChainInfo :=
  match build_indexes CHAINS with Ok (by_id, _) => by_id | Raise _ => ∅ end.
Definition BY_NAME : gmap string ChainInfo :=
  match build_indexes CHAINS with Ok (_, by_name) => by_name | Raise _ => ∅ end.

(** ** Resolvers *)

Definition chain_by_id (chain_id : Z) : result ChainInfo :=
  match BY_ID !! chain_id with
  | None => Raise (UnknownChainError ("unknown chain_id: " ++ pretty chain_id))
  | Some info => Ok info
  end.

Definition chain_by_name (name : pyval) : result ChainInfo :=
  let unknown := Raise (UnknownChainError ("unknown chain name: " ++ py_repr name)) in
  match name with
  | PyStr s =>
      if String.eqb (str_strip s) "" then unknown
      else
        match BY_NAME !! normalize_chain s with
        | Some info => Ok info
        | None =>
            match canonical_chain name with
            | Some canonical =>
                if negb (String.eqb canonical "") && negb (String.eqb canonical "unknown")
                then match BY_NAME !! canonical with Some info => Ok info | None => unknown end
                else unknown
            | None => unknown
            end
        end
  | _ => unknown
  end.

(** [int(v)] on the text forms Python reads: surrounding whitespace, a sign,
    decimal digits with single underscores between them. *)
Definition digit_value (c : ascii) : option Z :=
  let n := N_of_ascii c in
  if (48 <=? n)%N && (n <=? 57)%N then Some (Z.of_N n - 48) else None.

(** Digits after a digit was read; [acc] is the value so far. *)
Fixpoint int_digits (acc : Z) (s : string) : option Z :=
  match s with
  | EmptyString => Some acc
  | String c s =>
      match digit_value c with
      | Some d => int_digits (10 * acc + d) s
      | None =>
          if Ascii.eqb c "_"
          then match s with
               | String c' s' => d ← digit_value c'; int_digits (10 * acc + d) s'
               | EmptyString => None
               end
          else None
      end
  end.

Definition int_unsigned (s : string) : option Z :=
  match s with
  | EmptyString => None
  | String c s => d ← digit_value c; int_digits d s
  end.

Definition int_of_str (s : string) : option Z :=
  match str_strip s with
  | String c s' =>
      if Ascii.eqb c "-" then z ← int_unsigned s'; Some (- z)
      else if Ascii.eqb c "+" then int_unsigned s'
      else int_unsigned (String c s')
  | EmptyString => None
  end.

(** [int(v)]; [None] is the [TypeError] or [ValueError] the callers catch. *)
Definition py_int (v : pyval) : option Z :=
  match v with
  | PyInt z => Some z
  | PyBool b => Some (if b then 1 else 0)
  | PyStr s => int_of_str s
  | _ => None
  end.

Definition require_chain (chain_id chain : pyval) (context : string) : result ChainInfo :=
  let none_supplied :=
    Raise (UnsupportedChainError
      (context ++ ": no chain supplied (chain_id=" ++ py_repr chain_id ++ ", chain=" ++ py_repr chain ++
       "); chain is required and can no longer default to mainnet")) in
  let by_name :=
    match chain with
    | PyStr s =>
        if negb (String.eqb (str_strip s) "") && negb (String.eqb (str_lower (str_strip s)) "unknown")
        then match chain_by_name chain with
             | Ok info => Ok info
             | Raise _ => Raise (UnsupportedChainError (context ++ ": unsupported chain name " ++ py_repr chain))
             end
        else none_supplied
    | _ => none_supplied
    end in
  match py_int chain_id with
  | Some parsed =>
      match chain_by_id parsed with
      | Ok info => Ok info
      | Raise _ => Raise (UnsupportedChainError (context ++ ": unsupported chain_id " ++ py_repr chain_id))
      end
  | None => by_name
  end.

(** ** The deployment's allowlist *)

Definition SUPPORTED_CHAIN_IDS_ENV : string := "PSAT_SUPPORTED_CHAIN_IDS".
Definition DEFAULT_SUPPORTED_CHAIN_IDS : gset Z := {[ 1 ]}.

Fixpoint add_chain_tokens (tokens : list string) (ids : gset Z) : gset Z :=
  match tokens with
  | [] => ids
  | token :: tokens =>
      let token := str_strip token in
      if String.eqb token "" then add_chain_tokens tokens ids
      else match int_of_str token with
           | Some z => add_chain_tokens tokens ({[z]} ∪ ids)
           | None => add_chain_tokens tokens ids
           end
  end.

Definition supported_chain_ids (env : option string) : gset Z :=
  match env with
  | None => DEFAULT_SUPPORTED_CHAIN_IDS
  | Some raw =>
      if String.eqb (str_strip raw) "" then DEFAULT_SUPPORTED_CHAIN_IDS
      else
        let ids := add_chain_tokens (str_split "," raw) ∅ in
        if decide (ids = ∅) then DEFAULT_SUPPORTED_CHAIN_IDS else ids
  end.

(** [ChainInfo.supported] *)
Definition supported (env : option string) (info : ChainInfo) : bool :=
  bool_decide (chain_id info ∈ supported_chain_ids env).

Definition require_supported_chain (env : option string) (cid chain : pyval) (context : string) : result ChainInfo :=
  info ← require_chain cid chain context;
  if bool_decide (chain_id info ∈ supported_chain_ids env) then Ok info
  else Raise (UnsupportedChainError
    (context ++ ": chain " ++ repr_str (ci_name info) ++ " (chain_id=" ++ pretty (chain_id info) ++
     ") is not enabled for this deployment; add it to " ++ SUPPORTED_CHAIN_IDS_ENV ++ " to enable it")).

(** A [str | int | None] argument. *)
Inductive chain_arg := CNone | CInt (z : Z) | CStr (s : string).

Definition is_digit (c : ascii) : bool :=
  match digit_value c with Some _ => true | None => false end.

(** [text.isdigit()] *)
Definition str_isdigit (s : string) : bool := negb (String.eqb s "") && str_forall is_digit s.

Definition chain_enabled (env : option string) (chain : chain_arg) : bool :=
  let allow := supported_chain_ids env in
  match chain with
  | CNone => bool_decide (1 ∈ allow)
  | CInt z => bool_decide (z ∈ allow)
  | CStr s =>
      let text := str_strip s in
      if String.eqb text "" then bool_decide (1 ∈ allow)
      else if str_isdigit text
      then match int_of_str text with Some z => bool_decide (z ∈ allow) | None => false end
      else match chain_by_name (PyStr text) with
           | Ok info => bool_decide (chain_id info ∈ allow)
           | Raise _ => false
           end
  end.

Definition chain_cache_token (chain : chain_arg) : string :=
  match chain with
  | CNone => "1"
  | CInt z => pretty z
  | CStr s =>
      let text := str_strip s in
      if String.eqb text "" then "1"
      else if str_isdigit text then text
      else match chain_by_name (PyStr text) with
           | Ok info => pretty (chain_id info)
           | Raise _ => str_lower text
           end
  end.

(** ** Listings *)

Definition all_chains : list ChainInfo := CHAINS.

Fixpoint accept_spellings (keys : list string) (out : gmap string string) : gmap string string :=
  match keys with
  | [] => out
  | key :: keys =>
      let normalized := normalize_chain key in
      match chain_by_name (PyStr normalized) with
      | Ok info => accept_spellings keys (<[normalized := ci_name info]> out)
      | Raise _ => accept_spellings keys out
      end
  end.

Definition accepted_chain_spellings : gmap string string :=
  accept_spellings ((map_to_list BY_NAME).*1 ++ CHAIN_ALIASES.*1) ∅.

Definition chain_name_to_id_map : gmap string Z :=
  foldl (fun out info => foldl (fun out key => <[key := chain_id info]> out) out (chain_keys info)) ∅ CHAINS.


(** ** Normalization is stable *)

Lemma is_space_lower c : is_space (ascii_lower c) = is_space c.
Proof. destruct c as [[] [] [] [] [] [] [] []]; reflexivity. Qed.

Lemma is_chain_sep_lower c : is_chain_sep (ascii_lower c) = is_chain_sep c.
Proof. destruct c as [[] [] [] [] [] [] [] []]; reflexivity. Qed.

Lemma is_space_sep c : is_space c = true -> is_chain_sep c = true.
Proof. unfold is_chain_sep. by intros ->. Qed.

Lemma lstrip_lower s : str_lstrip (str_lower s) = str_lower (str_lstrip s).
Proof. induction s as [|c s IH]; cbn; [done|]. rewrite is_space_lower. by destruct (is_space c). Qed.

Lemma rstrip_lower s : str_rstrip (str_lower s) = str_lower (str_rstrip s).
Proof.
  induction s as [|c s IH]; cbn; [done|]. rewrite IH, is_space_lower.
  destruct (str_rstrip s); cbn; [by destruct (is_space c)|done].
Qed.

Lemma strip_lower s : str_strip (str_lower s) = str_lower (str_strip s).
Proof. unfold str_strip. by rewrite lstrip_lower, rstrip_lower. Qed.

Lemma collapse_lower p s : collapse_seps p (str_lower s) = str_lower (collapse_seps p s).
Proof.
  revert p. induction s as [|c s IH]; intros p; cbn; [done|].
  rewrite is_chain_sep_lower, !IH. destruct (is_chain_sep c), p; done.
Qed.

(** The only separators are single spaces; [p] says one came just before. *)
Fixpoint tidy (p : bool) (s : string) : bool :=
  match s with
  | EmptyString => true
  | String c s =>
      if is_chain_sep c then Ascii.eqb c " " && negb p && tidy true s else tidy false s
  end.

Lemma tidy_weaken s : tidy true s = true -> tidy false s = true.
Proof.
  destruct s as [|c s]; cbn; [done|]. destruct (is_chain_sep c); [|done].
  by rewrite andb_false_r.
Qed.

Lemma collapse_tidy p s : tidy p (collapse_seps p s) = true.
Proof.
  revert p. induction s as [|c s IH]; intros p; cbn; [done|].
  destruct (is_chain_sep c) eqn:E; cbn; [|by rewrite E, IH].
  destruct p; [by rewrite IH|]. cbn. by rewrite IH.
Qed.

Lemma collapse_of_tidy p s : tidy p s = true -> collapse_seps p s = s.
Proof.
  revert p. induction s as [|c s IH]; intros p; cbn; [done|].
  destruct (is_chain_sep c) eqn:E; intros H; [|by rewrite IH].
  rewrite !andb_true_iff in H. destruct H as [[Hc Hp] Ht].
  destruct p; [done|]. apply Ascii.eqb_eq in Hc as ->. by rewrite IH.
Qed.

Lemma tidy_lstrip p s : tidy p s = true -> tidy false (str_lstrip s) = true.
Proof.
  revert p. induction s as [|c s IH]; intros p H; cbn; [done|].
  destruct (is_space c) eqn:E.
  - cbn in H. rewrite (is_space_sep _ E), !andb_true_iff in H. destruct H as [_ H]. by apply (IH true).
  - destruct p; [by apply tidy_weaken|done].
Qed.

Lemma tidy_rstrip p s : tidy p s = true -> tidy p (str_rstrip s) = true.
Proof.
  revert p. induction s as [|c s IH]; intros p H; cbn; [done|].
  cbn in H. destruct (is_chain_sep c) eqn:E.
  - rewrite !andb_true_iff in H. destruct H as [[Hc Hp] Ht]. specialize (IH _ Ht).
    destruct (str_rstrip s); [destruct (is_space c); [done|]|]; cbn [tidy] in *; rewrite E, Hc, Hp; done.
  - specialize (IH _ H).
    destruct (str_rstrip s); [destruct (is_space c); [done|]|]; cbn [tidy] in *; rewrite E; done.
Qed.

Lemma tidy_lower p s : tidy p (str_lower s) = tidy p s.
Proof.
  revert p. induction s as [|c s IH]; intros p; cbn; [done|]. rewrite is_chain_sep_lower, !IH.
  destruct (is_chain_sep c) eqn:E; [|done].
  f_equal. f_equal. destruct c as [[] [] [] [] [] [] [] []]; done.
Qed.

Lemma normalize_tidy s : tidy false (normalize_chain s) = true.
Proof.
  unfold normalize_chain. rewrite tidy_lower. unfold str_strip at 1.
  apply tidy_rstrip, (tidy_lstrip false), collapse_tidy.
Qed.

Lemma normalize_strip s : str_strip (normalize_chain s) = normalize_chain s.
Proof. unfold normalize_chain. by rewrite strip_lower, strip_idemp. Qed.

Lemma normalize_lower s : str_lower (normalize_chain s) = normalize_chain s.
Proof. unfold normalize_chain. by rewrite str_lower_idemp. Qed.

Lemma normalize_idemp s : normalize_chain (normalize_chain s) = normalize_chain s.
Proof.
  unfold normalize_chain at 1.
  rewrite normalize_strip, (collapse_of_tidy _ _ (normalize_tidy s)), normalize_strip.
  apply normalize_lower.
Qed.

(** Normalization sees neither the case nor the padding of its input. *)
Lemma normalize_of_lower s : normalize_chain (str_lower s) = normalize_chain s.
Proof. unfold normalize_chain. by rewrite strip_lower, collapse_lower, strip_lower, str_lower_idemp. Qed.

Lemma normalize_of_strip s : normalize_chain (str_strip s) = normalize_chain s.
Proof. unfold normalize_chain. by rewrite strip_idemp. Qed.

(** ** The resolver as a function of the normalized name *)

Definition resolve_key (k : string) : option ChainInfo :=
  match BY_NAME !! k with
  | Some info => Some info
  | None =>
      let canonical := default k (assoc_get k CHAIN_ALIASES) in
      if negb (String.eqb canonical "") && negb (String.eqb canonical "unknown")
      then BY_NAME !! canonical else None
  end.

Lemma normalize_blank s : str_strip s = "" -> normalize_chain s = "".
Proof. unfold normalize_chain. by intros ->. Qed.

Lemma canonical_of_str s :
  canonical_chain (PyStr s) =
    if String.eqb (str_strip s) "" then None
    else Some (default (normalize_chain s) (assoc_get (normalize_chain s) CHAIN_ALIASES)).
Proof. reflexivity. Qed.

Lemma resolve_key_blank : resolve_key "" = None.
Proof. vm_compute. reflexivity. Qed.

Lemma resolve_key_unknown : resolve_key "unknown" = None.
Proof. vm_compute. reflexivity. Qed.

Lemma chain_by_name_resolves s info :
  chain_by_name (PyStr s) = Ok info <-> resolve_key (normalize_chain s) = Some info.
Proof.
  unfold chain_by_name. rewrite canonical_of_str.
  destruct (String.eqb_spec (str_strip s) "") as [E|E].
  - rewrite (normalize_blank _ E), resolve_key_blank. split; discriminate.
  - unfold resolve_key. destruct (BY_NAME !! normalize_chain s); [naive_solver|].
    destruct (negb _ && negb _); [|naive_solver].
    destruct (BY_NAME !! _); naive_solver.
Qed.

(** Resolution depends on the normalized spelling alone. *)
Lemma chain_by_name_ext s t info :
  normalize_chain s = normalize_chain t ->
  chain_by_name (PyStr s) = Ok info -> chain_by_name (PyStr t) = Ok info.
Proof. intros E. by rewrite !chain_by_name_resolves, E. Qed.

Lemma assoc_get_elem {A} k (d : list (string * A)) v : assoc_get k d = Some v -> k ∈ d.*1.
Proof.
  induction d as [|[k' v'] d IH]; cbn; [done|]. case_decide as E; [subst; left|].
  intros H. right. by apply IH.
Qed.

Definition spelling_keys : list string := (map_to_list BY_NAME).*1 ++ CHAIN_ALIASES.*1.

(** Only registry keys and alias-table keys resolve. *)
Lemma resolve_key_in k info : resolve_key k = Some info -> k ∈ spelling_keys.
Proof.
  unfold resolve_key, spelling_keys. intros H. rewrite elem_of_app.
  destruct (BY_NAME !! k) as [i|] eqn:E.
  - left. rewrite list_elem_of_fmap. exists (k, i). by rewrite elem_of_map_to_list.
  - destruct (assoc_get k CHAIN_ALIASES) eqn:Ea; [right; by eapply assoc_get_elem|].
    cbn in H. rewrite E in H. by destruct (negb _ && negb _).
Qed.

Lemma tidy_normalized k : tidy false k = true -> str_strip k = k -> str_lower k = k -> normalize_chain k = k.
Proof. intros H1 H2 H3. unfold normalize_chain. by rewrite H2, (collapse_of_tidy _ _ H1), H2, H3. Qed.

(** What the loop of [accepted_chain_spellings] leaves, key by key. *)
Lemma accept_spellings_spec keys out k :
  accept_spellings keys out !! k =
    match resolve_key k with
    | Some info => if decide (k ∈ normalize_chain <$> keys) then Some (ci_name info) else out !! k
    | None => out !! k
    end.
Proof.
  revert out. induction keys as [|key keys IH]; intros out; cbn [accept_spellings fmap list_fmap].
  { destruct (resolve_key k); [|done]. rewrite decide_False; [done|]. apply not_elem_of_nil. }
  destruct (chain_by_name (PyStr (normalize_chain key))) as [info|e] eqn:E.
  - apply chain_by_name_resolves in E. rewrite normalize_idemp in E. rewrite IH.
    destruct (decide (k = normalize_chain key)) as [->|Hne].
    + rewrite E, lookup_insert_eq, (decide_True (P := _ ∈ _ :: _)) by left. by case_decide.
    + rewrite lookup_insert_ne by done. destruct (resolve_key k); [|done].
      apply decide_ext. rewrite elem_of_cons. split; [by right|]. intros [H|H]; [by destruct Hne|exact H].
  - rewrite IH. destruct (resolve_key k) as [info|] eqn:Ek; [|done].
    apply decide_ext. rewrite elem_of_cons. split; [auto|]. intros [->|]; [|done].
    exfalso. rewrite <- (normalize_idemp key) in Ek. apply chain_by_name_resolves in Ek. congruence.
Qed.

(** [accepted_chain_spellings] is exact: a label resolves through
    [chain_by_name] to the chain called [nm] if and only if the published table
    maps the label's normalized form to [nm]. *)
Theorem accepted_spellings_exact s nm :
  accepted_chain_spellings !! normalize_chain s = Some nm <->
  exists info, chain_by_name (PyStr s) = Ok info /\ ci_name info = nm.
Proof.
  unfold accepted_chain_spellings. rewrite accept_spellings_spec, lookup_empty. split.
  - destruct (resolve_key _) as [info|] eqn:E; [|done]. case_decide; [|done].
    intros [= <-]. exists info. by rewrite chain_by_name_resolves.
  - intros (info & H & <-). apply chain_by_name_resolves in H. rewrite H, decide_True; [done|].
    rewrite <- (normalize_idemp s). apply list_elem_of_fmap_2. by eapply resolve_key_in.
Qed.

(** ** Indexes *)

Lemma index_keys_ok info keys m m' :
  index_keys info keys m = Ok m' <->
  NoDup keys /\ (forall k, k ∈ keys -> m !! k = None) /\
  m' = foldl (fun m k => <[k := info]> m) m keys.
Proof.
  revert m. induction keys as [|key keys IH]; intros m; cbn [index_keys foldl].
  { split; [intros [= <-]|intros (_ & _ & ->); done]. split; [constructor|]. set_solver. }
  case_bool_decide as D.
  { split; [done|]. intros (_ & H & _). destruct D as [i Hi]. rewrite H in Hi by left. done. }
  apply eq_None_not_Some in D. rewrite IH, NoDup_cons. split.
  - intros (Hnd & Hn & ->). split_and!; [|done| |done].
    + intros Hin. specialize (Hn _ Hin). by rewrite lookup_insert_eq in Hn.
    + intros k [->|Hk]%elem_of_cons; [done|]. specialize (Hn _ Hk).
      by apply lookup_insert_None in Hn as [? _].
  - intros ([Hni Hnd] & Hn & ->). split_and!; [done| |done].
    intros k Hk. rewrite lookup_insert_ne by (intros ->; done). apply Hn. by right.
Qed.

Lemma foldl_insert_lookup (info : ChainInfo) (keys : list string) m k :
  (foldl (fun m k => <[k := info]> m) m keys : gmap string ChainInfo) !! k =
    if decide (k ∈ keys) then Some info else m !! k.
Proof.
  revert m. induction keys as [|key keys IH]; intros m; cbn [foldl].
  { rewrite decide_False; [done|apply not_elem_of_nil]. }
  rewrite IH. destruct (decide (k = key)) as [->|Hne].
  - rewrite lookup_insert_eq, (decide_True (P := _ ∈ _ :: _)) by left. by case_decide.
  - rewrite lookup_insert_ne by done. apply decide_ext. set_solver.
Qed.

(** What the two indexes hold after the loop, relative to what they held
    before it. *)
Lemma index_chains_ok chains i n i' n' :
  index_chains chains i n = Ok (i', n') ->
  (forall z info, i' !! z = Some info <-> i !! z = Some info \/ (info ∈ chains /\ chain_id info = z)) /\
  (forall k info, n' !! k = Some info <-> n !! k = Some info \/ (info ∈ chains /\ k ∈ chain_keys info)).
Proof.
  revert i n. induction chains as [|c chains IH]; intros i n; cbn [index_chains].
  { intros [= <- <-]. split; intros; set_solver. }
  case_bool_decide as D; [done|]. apply eq_None_not_Some in D.
  destruct (index_keys c (chain_keys c) n) as [n1|] eqn:E; [|done]. cbn [mbind result_bind].
  apply index_keys_ok in E as (_ & Hfree & ->).
  intros [Hi Hn]%IH. split.
  - intros z info. rewrite Hi, elem_of_cons. destruct (decide (z = chain_id c)) as [->|Hne].
    + rewrite lookup_insert_eq, D. naive_solver.
    + rewrite lookup_insert_ne by done. naive_solver.
  - intros k info. rewrite Hn, elem_of_cons, foldl_insert_lookup. case_decide as Dk.
    + rewrite (Hfree _ Dk). naive_solver.
    + naive_solver.
Qed.

Lemma registry_no_duplicates : match build_indexes CHAINS with Ok _ => true | Raise _ => false end = true.
Proof. vm_compute. reflexivity. Qed.

Lemma registry_builds : build_indexes CHAINS = Ok (BY_ID, BY_NAME).
Proof.
  pose proof registry_no_duplicates as H. unfold BY_ID, BY_NAME.
  destruct (build_indexes CHAINS) as [[i n]|e]; [reflexivity|discriminate H].
Qed.

Lemma chain_by_id_ok z info : chain_by_id z = Ok info <-> info ∈ CHAINS /\ chain_id info = z.
Proof.
  destruct (index_chains_ok _ _ _ _ _ registry_builds) as [Hi _]. specialize (Hi z info).
  unfold chain_by_id. destruct (BY_ID !! z); naive_solver.
Qed.

(** Importing the registry raises no duplicate error, and its two indexes
    are exactly the table: [chain_by_id] finds an entry under its id and only
    there, and [_BY_NAME] maps a key to an entry exactly when the key is the
    entry's name or one of its aliases. *)
Theorem registry_indexes_exact :
  build_indexes CHAINS = Ok (BY_ID, BY_NAME) /\
  (forall z info, chain_by_id z = Ok info <-> info ∈ CHAINS /\ chain_id info = z) /\
  (forall k info, BY_NAME !! k = Some info <-> info ∈ CHAINS /\ k ∈ chain_keys info).
Proof.
  split; [apply registry_builds|]. destruct (index_chains_ok _ _ _ _ _ registry_builds) as [Hi Hn].
  split; intros x info; [apply chain_by_id_ok|rewrite Hn; naive_solver].
Qed.

Lemma lower_strip_unknown s : str_lower (str_strip s) = "unknown" -> resolve_key (normalize_chain s) = None.
Proof.
  intros E. rewrite <- normalize_of_strip, <- normalize_of_lower, E. exact resolve_key_unknown.
Qed.

Lemma require_chain_ok cid chain context info :
  require_chain cid chain context = Ok info <->
  match py_int cid with
  | Some z => chain_by_id z = Ok info
  | None => chain_by_name chain = Ok info
  end.
Proof.
  unfold require_chain. destruct (py_int cid) as [z|].
  { destruct (chain_by_id z); naive_solver. }
  destruct chain as [| | |s| |]; try done.
  destruct (String.eqb_spec (str_strip s) "") as [E|E]; cbn [negb andb].
  { rewrite chain_by_name_resolves, (normalize_blank _ E), resolve_key_blank. split; discriminate. }
  destruct (String.eqb_spec (str_lower (str_strip s)) "unknown") as [E'|E']; cbn [negb andb].
  { rewrite chain_by_name_resolves, (lower_strip_unknown _ E'). split; discriminate. }
  destruct (chain_by_name (PyStr s)); naive_solver.
Qed.

(** [require_chain] never falls back to mainnet.  A parsable [chain_id]
    decides alone, whatever name is given; otherwise the name decides; and
    there is no other way to get a chain.  In particular no id and no name, or
    the ["unknown"] sentinel, is an error. *)
Theorem require_chain_never_defaults cid chain context info :
  require_chain cid chain context = Ok info <->
  match py_int cid with
  | Some z => info ∈ CHAINS /\ chain_id info = z
  | None =>
      exists s, chain = PyStr s /\ resolve_key (normalize_chain s) = Some info
  end.
Proof.
  rewrite require_chain_ok. destruct (py_int cid); [apply chain_by_id_ok|].
  split; [|intros (s & -> & H); by apply chain_by_name_resolves].
  destruct chain as [| | |s| |]; try done. rewrite chain_by_name_resolves. eauto.
Qed.

(** ** Cache tokens and the allowlist *)

Lemma digit_plain c : is_digit c = true -> is_chain_sep c = false /\ ascii_lower c = c.
Proof. destruct c as [[] [] [] [] [] [] [] []]; cbn; done. Qed.

Lemma digits_tidy p s : str_forall is_digit s = true -> tidy p s = true /\ str_lower s = s.
Proof.
  revert p. induction s as [|c s IH]; intros p H; [done|]. cbn in H.
  rewrite andb_true_iff in H. destruct H as [Hc Hs]. destruct (digit_plain c Hc) as [E El].
  destruct (IH false Hs) as [Ht Hl]. cbn. by rewrite E, El, Hl.
Qed.

Lemma isdigit_unresolved s : str_isdigit (str_strip s) = true -> resolve_key (normalize_chain s) = None.
Proof.
  intros H. destruct (resolve_key _) as [info|] eqn:E; [|done]. exfalso.
  apply resolve_key_in in E. unfold str_isdigit in H. rewrite andb_true_iff in H. destruct H as [Hne Hd].
  destruct (digits_tidy false _ Hd) as [Ht Hl].
  rewrite <- normalize_of_strip, tidy_normalized in E by (done || apply strip_idemp).
  assert (Forall (fun k => str_isdigit k = false) spelling_keys) as HF.
  { apply (bool_decide_unpack _). clear. vm_compute. exact I. }
  rewrite Forall_forall in HF. specialize (HF _ E). unfold str_isdigit in HF. by rewrite Hne, Hd in HF.
Qed.

(** What a text token stands for once it resolves to a registered chain. *)
Lemma resolved_text s info :
  chain_by_name (PyStr s) = Ok info ->
  String.eqb (str_strip s) "" = false /\ str_isdigit (str_strip s) = false /\
  chain_by_name (PyStr (str_strip s)) = Ok info.
Proof.
  intros H. pose proof H as H'. apply chain_by_name_resolves in H'. split_and!.
  - destruct (String.eqb_spec (str_strip s) "") as [E|]; [|done].
    rewrite (normalize_blank _ E), resolve_key_blank in H'. discriminate H'.
  - destruct (str_isdigit (str_strip s)) eqn:E; [|done]. by rewrite (isdigit_unresolved _ E) in H'.
  - revert H. apply chain_by_name_ext. by rewrite normalize_of_strip.
Qed.

Lemma lower_isdigit s : str_isdigit (str_lower s) = true -> str_isdigit s = true.
Proof.
  unfold str_isdigit. rewrite !andb_true_iff. intros [H1 H2]. split; [by destruct s|].
  clear H1. induction s as [|c s IH]; [done|]. cbn in *. rewrite andb_true_iff in H2 |- *.
  destruct H2 as [Hc Hs]. split; [|by apply IH]. revert Hc. clear.
  destruct c as [[] [] [] [] [] [] [] []]; cbn; done.
Qed.

Lemma registry_ids_digits : Forall (fun info => str_isdigit (pretty (chain_id info)) = true) CHAINS.
Proof. apply (bool_decide_unpack _). vm_compute. exact I. Qed.

Lemma resolve_key_registered k info : resolve_key k = Some info -> info ∈ CHAINS.
Proof.
  intros H. assert (exists k, BY_NAME !! k = Some info) as [k' Hk].
  { unfold resolve_key in H. destruct (BY_NAME !! k) eqn:E; [naive_solver|].
    destruct (negb _ && negb _); naive_solver. }
  destruct (index_chains_ok _ _ _ _ _ registry_builds) as [_ Hn]. apply Hn in Hk. naive_solver.
Qed.

(** The cache token of a text is the token of a registered chain's id
    exactly when the text names that chain by a resolvable label, is the id in
    decimal, or is blank and the chain is mainnet.  So every spelling of a chain
    and its id share one cache row, and no unregistered label shares it. *)
Theorem cache_token_collapses s info :
  info ∈ CHAINS ->
  chain_cache_token (CStr s) = chain_cache_token (CInt (chain_id info)) <->
  chain_by_name (PyStr s) = Ok info \/ str_strip s = pretty (chain_id info) \/
  (str_strip s = "" /\ chain_id info = 1).
Proof.
  intros Hin. pose proof registry_ids_digits as Hd. rewrite Forall_forall in Hd. specialize (Hd _ Hin).
  unfold chain_cache_token. split.
  - destruct (String.eqb_spec (str_strip s) "") as [E|E].
    { intros H. right; right. split; [done|]. change "1"%string with (pretty 1 : string) in H. by apply (inj pretty) in H. }
    destruct (str_isdigit (str_strip s)) eqn:Ed; [by auto|].
    destruct (chain_by_name (PyStr (str_strip s))) as [info'|] eqn:E'; intros H.
    + left. apply (inj pretty) in H. apply chain_by_name_resolves in E'.
      pose proof (resolve_key_registered _ _ E') as Hin'.
      assert (info' = info) as ->.
      { assert (chain_by_id (chain_id info) = Ok info') by by rewrite chain_by_id_ok.
        assert (chain_by_id (chain_id info) = Ok info) by by rewrite chain_by_id_ok. congruence. }
      apply chain_by_name_resolves. by rewrite <- normalize_of_strip.
    + rewrite <- H in Hd. apply lower_isdigit in Hd. congruence.
  - intros [H|[H|[-> ->]]]; [|rewrite H, Hd; by destruct (String.eqb_spec (pretty (chain_id info)) "") as [E|]; [rewrite E in Hd|]|done].
    destruct (resolved_text _ _ H) as (-> & -> & ->). done.
Qed.

Definition ethereum_info : ChainInfo := Eval cbv in default (mkChainInfo 0 "" [] "" None "" 0 0 0 [] [] "") (head CHAINS).

Lemma cache_token_collapses_witness :
  ethereum_info ∈ CHAINS /\
  chain_cache_token (CStr " ETH-mainnet ") = chain_cache_token (CInt (chain_id ethereum_info)).
Proof.
  assert (ethereum_info ∈ CHAINS) as H by left. split; [exact H|].
  apply (cache_token_collapses " ETH-mainnet " ethereum_info H). left. vm_compute. reflexivity.
Defined.

Lemma add_chain_tokens_spec tokens ids z :
  z ∈ add_chain_tokens tokens ids <->
  z ∈ ids \/ exists t, t ∈ tokens /\ int_of_str (str_strip t) = Some z.
Proof.
  revert ids. induction tokens as [|t tokens IH]; intros ids; cbn [add_chain_tokens].
  { split; [by left|]. intros [H|(t & Ht & _)]; [done|]. by apply elem_of_nil in Ht. }
  destruct (String.eqb_spec (str_strip t) "") as [E|E].
  - rewrite IH. assert (int_of_str (str_strip t) = None) by by rewrite E. set_solver.
  - destruct (int_of_str (str_strip t)) as [z'|] eqn:E'; rewrite IH; set_solver.
Qed.

Lemma supported_chain_ids_nonempty env : supported_chain_ids env <> ∅.
Proof.
  unfold supported_chain_ids, DEFAULT_SUPPORTED_CHAIN_IDS.
  destruct env as [raw|]; [|set_solver]. destruct (String.eqb _ _); [set_solver|].
  case_decide; set_solver.
Qed.

(** The allowlist guards of work origination and of the state-writing edge
    agree.  Whenever the writing edge accepts a chain named [s], the chain is
    registered, is in the allowlist and [chain_enabled] says yes; and when
    [chain_enabled] says yes to a label that is neither blank nor a number, the
    writing edge accepts it. *)
Theorem allowlist_guards_agree env s context :
  (forall info, require_supported_chain env PyNone (PyStr s) context = Ok info ->
     info ∈ CHAINS /\ supported env info = true /\ chain_enabled env (CStr s) = true) /\
  (chain_enabled env (CStr s) = true ->
   str_strip s = "" \/ str_isdigit (str_strip s) = true \/
   exists info, require_supported_chain env PyNone (PyStr s) context = Ok info).
Proof.
  unfold require_supported_chain, chain_enabled, supported. cbv zeta. split.
  - intros info. destruct (require_chain _ _ _) as [i|] eqn:E; cbn [mbind result_bind]; [|done].
    case_bool_decide as D; [|done]. intros [= ->].
    apply (require_chain_ok PyNone (PyStr s)) in E. cbn in E.
    pose proof (resolved_text _ _ E) as (-> & -> & ->). rewrite bool_decide_eq_true_2 by done.
    apply chain_by_name_resolves, resolve_key_registered in E. done.
  - destruct (String.eqb_spec (str_strip s) "") as [|E]; [by left|].
    destruct (str_isdigit (str_strip s)); [by right; left|].
    destruct (chain_by_name (PyStr (str_strip s))) as [info|] eqn:En; [|done].
    intros D. right; right. exists info.
    assert (chain_by_name (PyStr s) = Ok info) as En'
      by (revert En; apply chain_by_name_ext, normalize_of_strip).
    rewrite (proj2 (require_chain_ok PyNone (PyStr s) context info) En'). cbn [mbind result_bind]. by rewrite D.
Qed.

(** The alias-table row for ["avalanche c-chain"] is dead.  The hyphen is
    turned into a space before the table is read, so no label resolves through
    it: Avalanche's own spelling is rejected and canonicalized to itself. *)
Theorem avalanche_alias_unreachable :
  assoc_get "avalanche c-chain" CHAIN_ALIASES = Some "avalanche" /\
  (forall s, normalize_chain s <> "avalanche c-chain") /\
  canonical_chain (PyStr "Avalanche C-Chain") = Some "avalanche c chain" /\
  of_result (chain_by_name (PyStr "Avalanche C-Chain")) = None.
Proof.
  split_and!; [reflexivity| |vm_compute; reflexivity|vm_compute; reflexivity].
  intros s E. pose proof (normalize_tidy s) as H. rewrite E in H. by vm_compute in H.
Qed.

Lemma strip_blank_forall s : str_strip s = "" -> str_forall is_space s = true.
Proof.
  unfold str_strip. induction s as [|c s IH]; [done|]. cbn [str_lstrip str_forall].
  destruct (is_space c) eqn:E; [exact IH|]. intros H. exfalso.
  destruct (rstrip_head c s E) as [r Hr]. by rewrite Hr in H.
Qed.

Lemma blank_split s : str_forall is_space s = true -> str_split "," s = [s].
Proof.
  induction s as [|c s IH]; [done|]. cbn [str_forall str_split]. intros [Hc Hs]%andb_true_iff.
  rewrite (IH Hs). destruct (Ascii.eqb_spec c ","%char) as [->|]; done.
Qed.

(** The allowlist is what its docstring says.  A chain id is enabled when
    some comma-separated token of the variable reads as that integer; when no
    token does (variable unset, blank or without integers) mainnet alone is. *)
Theorem supported_chain_ids_exact env z :
  z ∈ supported_chain_ids env <->
  let parsed z := exists raw t, env = Some raw /\ t ∈ str_split "," raw /\ int_of_str (str_strip t) = Some z in
  parsed z \/ (z = 1 /\ forall z', ~ parsed z').
Proof.
  cbv zeta. unfold supported_chain_ids, DEFAULT_SUPPORTED_CHAIN_IDS.
  destruct env as [raw|]; [|rewrite elem_of_singleton; naive_solver].
  destruct (String.eqb_spec (str_strip raw) "") as [E|E].
  - pose proof (blank_split _ (strip_blank_forall _ E)) as Hs.
    assert (forall z', ~ exists raw' t, Some raw = Some raw' /\ t ∈ str_split "," raw' /\ int_of_str (str_strip t) = Some z').
    { intros z' (raw' & t & [= <-] & Ht & Hz). rewrite Hs, list_elem_of_singleton in Ht. subst t.
      by rewrite E in Hz. }
    rewrite elem_of_singleton. naive_solver.
  - pose proof (add_chain_tokens_spec (str_split "," raw) ∅) as H. case_decide as D.
    + rewrite elem_of_singleton. split.
      2: { intros [(raw' & t & [= <-] & Ht & Hz)|[-> _]]; [|done]. exfalso.
           assert (z ∈ (∅ : gset Z)) as []%not_elem_of_empty. rewrite <- D. apply H. eauto. }
      intros ->. right. split; [done|].
      intros z' (raw' & t & [= <-] & Ht & Hz).
      assert (z' ∈ (∅ : gset Z)) as []%not_elem_of_empty. rewrite <- D. apply H. eauto.
    + rewrite H. split; [intros [?|(t & Ht & Hz)]; [set_solver|]; left; eauto|].
      intros [(raw' & t & [= <-] & Ht & Hz)|[-> Hno]]; [eauto|].
      exfalso. apply D. apply set_eq. intros z'. rewrite H. split; [|set_solver].
      intros [?|(t & Ht & Hz)]; [done|]. exfalso. apply (Hno z'). eauto.
Qed.

(** ** Canonical labels *)

Lemma alias_values_canonical : Forall (fun kv => canonical_chain (PyStr kv.2) = Some kv.2) CHAIN_ALIASES.
Proof. apply (bool_decide_unpack _). vm_compute. exact I. Qed.

Lemma assoc_get_pair {A} k (d : list (string * A)) v : assoc_get k d = Some v -> (k, v) ∈ d.
Proof.
  induction d as [|[k' v'] d IH]; cbn; [done|]. case_decide as E.
  - intros [= ->]. subst. left.
  - intros H. right. by apply IH.
Qed.

Lemma canonical_form v c :
  canonical_chain v = Some c ->
  exists s, c = default (normalize_chain s) (assoc_get (normalize_chain s) CHAIN_ALIASES).
Proof.
  intros H. exists (py_str v). unfold canonical_chain in H.
  assert (forall b (x : string), (if b : bool then None else Some x) = Some c -> c = x) as Hif
    by (intros [] x; congruence).
  destruct v; [done|..]; exact (Hif _ _ H).
Qed.

Lemma canonical_stable v c : canonical_chain v = Some c -> c <> "" -> canonical_chain (PyStr c) = Some c.
Proof.
  intros [s Hc]%canonical_form Hne. destruct (assoc_get (normalize_chain s) CHAIN_ALIASES) as [a|] eqn:E; cbn in Hc; subst c.
  - pose proof alias_values_canonical as H. rewrite Forall_forall in H.
    exact (H _ (assoc_get_pair _ _ _ E)).
  - rewrite canonical_of_str, normalize_strip, normalize_idemp, E.
    by rewrite (proj2 (String.eqb_neq _ _) Hne).
Qed.

Lemma canonical_chain_loop_spec values seen out :
  NoDup out -> (forall c, c ∈ seen <-> c ∈ out) ->
  let r := canonical_chain_loop values seen out in
  NoDup r /\ out `prefix_of` r /\
  (forall c, c ∈ r <-> c ∈ out \/ (c <> "" /\ exists v, v ∈ values /\ canonical_chain v = Some c)).
Proof.
  revert seen out. induction values as [|v values IH]; intros seen out Hnd Hseen; cbn [canonical_chain_loop].
  { split_and!; [done|done|]. intros c. split; [by left|]. intros [H|(_ & v & Hv & _)]; [done|].
    by apply elem_of_nil in Hv. }
  destruct (canonical_chain v) as [c|] eqn:E.
  2: { destruct (IH seen out Hnd Hseen) as (H1 & H2 & H3). split_and!; [done|done|].
       intros c. rewrite H3. setoid_rewrite elem_of_cons. naive_solver. }
  destruct (String.eqb_spec c "") as [->|Hc]; cbn [orb].
  { destruct (IH seen out Hnd Hseen) as (H1 & H2 & H3). split_and!; [done|done|].
    intros c. rewrite H3. setoid_rewrite elem_of_cons. naive_solver. }
  case_bool_decide as D.
  - destruct (IH seen out Hnd Hseen) as (H1 & H2 & H3). split_and!; [done|done|].
    intros c'. rewrite H3. setoid_rewrite elem_of_cons. rewrite Hseen in D. naive_solver.
  - destruct (IH ({[c]} ∪ seen) (out ++ [c])%list) as (H1 & H2 & H3).
    + rewrite NoDup_app. split_and!; [done| |apply NoDup_singleton].
      intros x Hx. rewrite list_elem_of_singleton. intros ->. by apply D, Hseen.
    + intros x. rewrite elem_of_union, elem_of_app, elem_of_singleton, list_elem_of_singleton, Hseen. tauto.
    + split_and!; [done|etrans; [|exact H2]; by apply prefix_app_r|].
      intros c'. rewrite H3, elem_of_app, list_elem_of_singleton. setoid_rewrite elem_of_cons. naive_solver.
Qed.

(** [canonical_chain_list] returns a duplicate-free list of exactly the
    non-empty canonical forms of its inputs, and each of them is canonical: put
    through [canonical_chain] again it comes back unchanged. *)
Theorem canonical_chain_list_canonical values :
  exists out, canonical_chain_list (Some values) = Some out /\ NoDup out /\
  (forall c, c ∈ out <-> c <> "" /\ exists v, v ∈ values /\ canonical_chain v = Some c) /\
  Forall (fun c => canonical_chain (PyStr c) = Some c) out.
Proof.
  destruct (canonical_chain_loop_spec values ∅ []) as (H1 & _ & H3); [constructor|set_solver|].
  exists (canonical_chain_loop values ∅ []).
  assert (forall c, c ∈ canonical_chain_loop values ∅ [] <-> c <> "" /\ exists v, v ∈ values /\ canonical_chain v = Some c) as H4.
  { intros c. rewrite H3. split; [|by auto]. intros [H|H]; [by apply elem_of_nil in H|done]. }
  split_and!; [done|done|done|].
  apply Forall_forall. intros c (Hne & v & _ & Hv)%H4. by eapply canonical_stable.
Qed.
