(* ===== verification/JobQueue.v ===== *)
(** * The job queue

    [db/queue/jobs.py]: creating, claiming, advancing, deferring, retrying,
    failing and converting the rows of the [jobs] table, with the lease check
    each worker write goes through; the vocabulary and [derive_job_chain_id] of
    [db/models/base.py]; the columns of [Job] and [JobDependency] in
    [db/models/jobs.py]; the claim gate of [services/worker_lifecycle.py]; the
    daemon leases of [db/queue/heartbeats.py]; and the stage exits of
    [workers/base.py].

    The database is a record of tables.  A function is one transaction: it
    returns the committed database or the error raised, in which case nothing
    was committed.  [now] is the transaction's [NOW()], in microseconds; ids and
    lease tokens are UUIDs, taken from positives and passed in where the code
    mints one.  A row lock the code waits for is the sequential order of
    transactions; a lock it skips ([SKIP LOCKED]) is the argument [locked]. *)

From stdpp Require Import base gmap sets list strings pretty sorting.
From Stdlib Require Import String Ascii ZArith Lia.
From S2P Require Import Prelude Chains.

Local Open Scope string_scope.
Local Open Scope Z_scope.

(** ** Vocabulary *)

Inductive JobStatus := queued | processing | completed | failed | failed_terminal.

Inductive JobStage :=
  | discovery | dapp_crawl | defillama_scan | selection | static
  | resolution | policy | effects | coverage | done.

#[export] Instance JobStatus_eq_dec : EqDecision JobStatus.
Proof. solve_decision. Defined.
#[export] Instance JobStage_eq_dec : EqDecision JobStage.
Proof. solve_decision. Defined.

(** [JobStage.value] *)
Definition stage_value (s : JobStage) : string :=
  match s with
  | discovery => "discovery" | dapp_crawl => "dapp_crawl" | defillama_scan => "defillama_scan"
  | selection => "selection" | static => "static" | resolution => "resolution" | policy => "policy"
  | effects => "effects" | coverage => "coverage" | done => "done"
  end.

(** The enumeration in its order, which is the progression. *)
Definition STAGES : list JobStage :=
  [discovery; dapp_crawl; defillama_scan; selection; static; resolution; policy; effects; coverage; done].

Definition RESTART_STATIC_REQUEST_KEY : string := "restart_static_for_proxy_context".

Definition CONTEXT_READING_STAGES : list JobStage := [static; resolution; policy; effects; coverage].
Definition RAN_PAST_STATIC_STAGES : list JobStage := [resolution; policy; effects; coverage; done].

(** One second of [timestamptz]. *)
Definition SECOND : Z := 1000000.

Definition DEFAULT_JOB_STALE_TIMEOUT : Z := 900.
Definition DEFAULT_JOB_LEASE_TTL_S : Z := DEFAULT_JOB_STALE_TIMEOUT.

(** ** Rows *)

Record Job := mkJob {
  address : option string;
  job_chain_id : option Z;
  company : option string;
  job_name : option string;
  status : JobStatus;
  stage : JobStage;
  detail : option string;
  request : option (gmap string pyval);
  error : option string;
  worker_id : option string;
  trace_id : option string;
  protocol_id : option Z;
  is_proxy : bool;
  retry_count : Z;
  next_attempt_at : option Z;
  last_failure_kind : option string;
  lease_id : option positive;
  lease_expires_at : option Z;
  source_content_hash : option string;
  analysis_schema_version : option Z;
  created_at : Z;
  updated_at : Z;
}.

Definition set_status (v : JobStatus) (j : Job) : Job :=
  mkJob (j.(address)) (j.(job_chain_id)) (j.(company)) (j.(job_name)) v (j.(stage)) (j.(detail))
    (j.(request)) (j.(error)) (j.(worker_id)) (j.(trace_id)) (j.(protocol_id)) (j.(is_proxy))
    (j.(retry_count)) (j.(next_attempt_at)) (j.(last_failure_kind)) (j.(lease_id))
    (j.(lease_expires_at)) (j.(source_content_hash)) (j.(analysis_schema_version)) (j.(created_at))
    (j.(updated_at)).
Definition set_stage (v : JobStage) (j : Job) : Job :=
  mkJob (j.(address)) (j.(job_chain_id)) (j.(company)) (j.(job_name)) (j.(status)) v (j.(detail))
    (j.(request)) (j.(error)) (j.(worker_id)) (j.(trace_id)) (j.(protocol_id)) (j.(is_proxy))
    (j.(retry_count)) (j.(next_attempt_at)) (j.(last_failure_kind)) (j.(lease_id))
    (j.(lease_expires_at)) (j.(source_content_hash)) (j.(analysis_schema_version)) (j.(created_at))
    (j.(updated_at)).
Definition set_detail (v : option string) (j : Job) : Job :=
  mkJob (j.(address)) (j.(job_chain_id)) (j.(company)) (j.(job_name)) (j.(status)) (j.(stage)) v
    (j.(request)) (j.(error)) (j.(worker_id)) (j.(trace_id)) (j.(protocol_id)) (j.(is_proxy))
    (j.(retry_count)) (j.(next_attempt_at)) (j.(last_failure_kind)) (j.(lease_id))
    (j.(lease_expires_at)) (j.(source_content_hash)) (j.(analysis_schema_version)) (j.(created_at))
    (j.(updated_at)).
Definition set_request (v : option (gmap string pyval)) (j : Job) : Job :=
  mkJob (j.(address)) (j.(job_chain_id)) (j.(company)) (j.(job_name)) (j.(status)) (j.(stage))
    (j.(detail)) v (j.(error)) (j.(worker_id)) (j.(trace_id)) (j.(protocol_id)) (j.(is_proxy))
    (j.(retry_count)) (j.(next_attempt_at)) (j.(last_failure_kind)) (j.(lease_id))
    (j.(lease_expires_at)) (j.(source_content_hash)) (j.(analysis_schema_version)) (j.(created_at))
    (j.(updated_at)).
Definition set_error (v : option string) (j : Job) : Job :=
  mkJob (j.(address)) (j.(job_chain_id)) (j.(company)) (j.(job_name)) (j.(status)) (j.(stage))
    (j.(detail)) (j.(request)) v (j.(worker_id)) (j.(trace_id)) (j.(protocol_id)) (j.(is_proxy))
    (j.(retry_count)) (j.(next_attempt_at)) (j.(last_failure_kind)) (j.(lease_id))
    (j.(lease_expires_at)) (j.(source_content_hash)) (j.(analysis_schema_version)) (j.(created_at))
    (j.(updated_at)).
Definition set_worker_id (v : option string) (j : Job) : Job :=
  mkJob (j.(address)) (j.(job_chain_id)) (j.(company)) (j.(job_name)) (j.(status)) (j.(stage))
    (j.(detail)) (j.(request)) (j.(error)) v (j.(trace_id)) (j.(protocol_id)) (j.(is_proxy))
    (j.(retry_count)) (j.(next_attempt_at)) (j.(last_failure_kind)) (j.(lease_id))
    (j.(lease_expires_at)) (j.(source_content_hash)) (j.(analysis_schema_version)) (j.(created_at))
    (j.(updated_at)).
Definition set_retry_count (v : Z) (j : Job) : Job :=
  mkJob (j.(address)) (j.(job_chain_id)) (j.(company)) (j.(job_name)) (j.(status)) (j.(stage))
    (j.(detail)) (j.(request)) (j.(error)) (j.(worker_id)) (j.(trace_id)) (j.(protocol_id))
    (j.(is_proxy)) v (j.(next_attempt_at)) (j.(last_failure_kind)) (j.(lease_id)) (j.(lease_expires_at))
    (j.(source_content_hash)) (j.(analysis_schema_version)) (j.(created_at)) (j.(updated_at)).
Definition set_next_attempt_at (v : option Z) (j : Job) : Job :=
  mkJob (j.(address)) (j.(job_chain_id)) (j.(company)) (j.(job_name)) (j.(status)) (j.(stage))
    (j.(detail)) (j.(request)) (j.(error)) (j.(worker_id)) (j.(trace_id)) (j.(protocol_id))
    (j.(is_proxy)) (j.(retry_count)) v (j.(last_failure_kind)) (j.(lease_id)) (j.(lease_expires_at))
    (j.(source_content_hash)) (j.(analysis_schema_version)) (j.(created_at)) (j.(updated_at)).
Definition set_last_failure_kind (v : option string) (j : Job) : Job :=
  mkJob (j.(address)) (j.(job_chain_id)) (j.(company)) (j.(job_name)) (j.(status)) (j.(stage))
    (j.(detail)) (j.(request)) (j.(error)) (j.(worker_id)) (j.(trace_id)) (j.(protocol_id))
    (j.(is_proxy)) (j.(retry_count)) (j.(next_attempt_at)) v (j.(lease_id)) (j.(lease_expires_at))
    (j.(source_content_hash)) (j.(analysis_schema_version)) (j.(created_at)) (j.(updated_at)).
Definition set_lease_id (v : option positive) (j : Job) : Job :=
  mkJob (j.(address)) (j.(job_chain_id)) (j.(company)) (j.(job_name)) (j.(status)) (j.(stage))
    (j.(detail)) (j.(request)) (j.(error)) (j.(worker_id)) (j.(trace_id)) (j.(protocol_id))
    (j.(is_proxy)) (j.(retry_count)) (j.(next_attempt_at)) (j.(last_failure_kind)) v
    (j.(lease_expires_at)) (j.(source_content_hash)) (j.(analysis_schema_version)) (j.(created_at))
    (j.(updated_at)).
Definition set_lease_expires_at (v : option Z) (j : Job) : Job :=
  mkJob (j.(address)) (j.(job_chain_id)) (j.(company)) (j.(job_name)) (j.(status)) (j.(stage))
    (j.(detail)) (j.(request)) (j.(error)) (j.(worker_id)) (j.(trace_id)) (j.(protocol_id))
    (j.(is_proxy)) (j.(retry_count)) (j.(next_attempt_at)) (j.(last_failure_kind)) (j.(lease_id)) v
    (j.(source_content_hash)) (j.(analysis_schema_version)) (j.(created_at)) (j.(updated_at)).
Definition set_updated_at (v : Z) (j : Job) : Job :=
  mkJob (j.(address)) (j.(job_chain_id)) (j.(company)) (j.(job_name)) (j.(status)) (j.(stage))
    (j.(detail)) (j.(request)) (j.(error)) (j.(worker_id)) (j.(trace_id)) (j.(protocol_id))
    (j.(is_proxy)) (j.(retry_count)) (j.(next_attempt_at)) (j.(last_failure_kind)) (j.(lease_id))
    (j.(lease_expires_at)) (j.(source_content_hash)) (j.(analysis_schema_version)) (j.(created_at)) v.

(** The plain columns, which is what a flush compares with the loaded row. *)
Definition columns (j : Job) :=
  (address j, job_chain_id j, company j, job_name j, status j, stage j,
   detail j, error j, worker_id j, trace_id j, protocol_id j, is_proxy j,
   retry_count j, next_attempt_at j, last_failure_kind j, lease_id j, lease_expires_at j, source_content_hash j,
   analysis_schema_version j, created_at j).

Inductive DepStatus := pending | satisfied | degraded | cycle_degraded.

#[export] Instance DepStatus_eq_dec : EqDecision DepStatus.
Proof. solve_decision. Defined.

Record JobDependency := mkDep {
  depender_job_id : positive;
  provider_chain : option string;
  provider_address : string;
  required_stage : JobStage;
  dep_status : DepStatus;
  satisfied_at : option Z;
}.

Inductive Phase := running | draining | stopped.

#[export] Instance Phase_eq_dec : EqDecision Phase.
Proof. solve_decision. Defined.

(** The row of [worker_lifecycle]. *)
Record Lifecycle := mkLifecycle {
  boot_id : option positive;
  machine_id : option string;
  phase : Phase;
  started_at : option Z;
  heartbeat_at : option Z;
  last_work_at : option Z;
  idle_since : option Z;
}.

Record DaemonLease := mkDaemonLease { holder : positive; expires_at : Z }.

(** [enrollment] is the monitoring enrollment queue, [(reason, dirty_at)] by
    protocol. *)
Record db := mkDb {
  jobs : gmap positive Job;
  deps : list JobDependency;
  enrollment : gmap Z (string * Z);
  lifecycle : option Lifecycle;
  daemon_leases : gmap string DaemonLease;
}.

Definition set_jobs (js : gmap positive Job) (d : db) : db :=
  mkDb js (deps d) (enrollment d) (lifecycle d) (daemon_leases d).
Definition set_deps (ds : list JobDependency) (d : db) : db :=
  mkDb (jobs d) ds (enrollment d) (lifecycle d) (daemon_leases d).
Definition set_enrollment (e : gmap Z (string * Z)) (d : db) : db :=
  mkDb (jobs d) (deps d) e (lifecycle d) (daemon_leases d).
Definition set_lifecycle (l : option Lifecycle) (d : db) : db :=
  mkDb (jobs d) (deps d) (enrollment d) l (daemon_leases d).
Definition set_daemon_leases (l : gmap string DaemonLease) (d : db) : db :=
  mkDb (jobs d) (deps d) (enrollment d) (lifecycle d) l.

Definition put_job (id : positive) (j : Job) (d : db) : db := set_jobs (<[id := j]> (jobs d)) d.

(** The ORM writes a row back only if a loaded column changed, and then
    [onupdate] stamps [updated_at]. *)
Definition flush (now : Z) (old new : Job) : Job :=
  if decide (columns old = columns new) then new else set_updated_at now new.

(** ** JSONB *)

(** [request[key].astext]: NULL when the column, the key or the value is null.
    Of a nested list or object only that its text is not null matters. *)
Definition astext (request : option (gmap string pyval)) (key : string) : option string :=
  r ← request;
  v ← (r !! key : option pyval);
  match v with
  | PyNone => None
  | PyBool true => Some "true"
  | PyBool false => Some "false"
  | _ => Some (py_str v)
  end.

(** [dict.get(key)] *)
Definition dict_get (key : string) (d : gmap string pyval) : pyval := default PyNone (d !! key).

(** ** Errors and transactions *)

Inductive queue_error :=
  | LeaseLost (job_id : positive)
  | NoResultFound
  | BootSuperseded
  | ChainError (e : chain_error).

Definition tx (A : Type) : Type := queue_error + A.

#[export] Instance tx_ret : MRet (sum queue_error) := fun _ a => inr a.
#[export] Instance tx_bind : MBind (sum queue_error) :=
  fun _ _ f m => match m with inl e => inl e | inr a => f a end.

Definition lift_chain {A} (r : result A) : queue_error + A :=
  match r with Ok a => inr a | Raise e => inl (ChainError e) end.

(** ** The claim gate ([worker_lifecycle.py]) *)

(** [boot] is [PSAT_WORKER_BOOT_ID] of the calling process. *)
Definition claim_allowed (boot : option positive) (d : db) : queue_error + bool :=
  match boot with
  | None => inr true
  | Some b =>
      match lifecycle d with
      | None => inl NoResultFound
      | Some row => inr (bool_decide (phase row = running) && bool_decide (boot_id row = Some b))
      end
  end.

Definition note_claim (boot : option positive) (clock : Z) (d : db) : db :=
  match boot, lifecycle d with
  | Some b, Some row =>
      if decide (boot_id row = Some b)
      then set_lifecycle (Some (mkLifecycle (boot_id row) (machine_id row) (phase row) (started_at row)
             (heartbeat_at row) (Some clock) (idle_since row))) d
      else d
  | _, _ => d
  end.

Definition register_boot (boot : positive) (machine : string) (clock : Z) (d : db) : db :=
  match lifecycle d with
  | Some row =>
      set_lifecycle (Some (mkLifecycle (Some boot) (Some machine) running (Some clock) (Some clock) (Some clock) None)) d
  | None => d
  end.

(** [row_locked]: another transaction holds the row, so the refresh skips it. *)
Definition boot_phase (boot : positive) (row_locked : bool) (clock : Z) (d : db) : queue_error + (Phase * db) :=
  match lifecycle d with
  | Some row =>
      if decide (boot_id row = Some boot)
      then inr (phase row,
             if row_locked then d
             else set_lifecycle (Some (mkLifecycle (boot_id row) (machine_id row) (phase row) (started_at row)
                    (Some clock) (last_work_at row) (idle_since row))) d)
      else inl BootSuperseded
  | None => inl BootSuperseded
  end.

Definition finish_boot (boot : positive) (clock : Z) (d : db) : db :=
  match lifecycle d with
  | Some row =>
      if decide (boot_id row = Some boot)
      then set_lifecycle (Some (mkLifecycle (boot_id row) (machine_id row) stopped (started_at row)
             (Some clock) (last_work_at row) (idle_since row))) d
      else d
  | None => d
  end.

(** ** Daemon leases ([heartbeats.py]) *)

Definition DEFAULT_DAEMON_LEASE_TTL_S : Z := 120.

Definition try_acquire_daemon_lease (nm : string) (h : positive) (ttl_seconds now : Z) (d : db) : bool * db :=
  let row := mkDaemonLease h (now + ttl_seconds * SECOND) in
  match daemon_leases d !! nm with
  | None => (true, set_daemon_leases (<[nm := row]> (daemon_leases d)) d)
  | Some cur =>
      if bool_decide (expires_at cur < now) || bool_decide (holder cur = h)
      then (true, set_daemon_leases (<[nm := row]> (daemon_leases d)) d)
      else (false, d)
  end.

Definition renew_daemon_lease (nm : string) (h : positive) (ttl_seconds now : Z) (d : db) : bool * db :=
  try_acquire_daemon_lease nm h ttl_seconds now d.

(** ** Creating jobs *)

Definition derive_job_chain_id (chain_value : pyval) (address : option string) : option Z :=
  match address with
  | None => None
  | Some _ =>
      let blank := match chain_value with PyNone => true | PyStr s => String.eqb (str_strip s) "" | _ => false end in
      if blank then Some 1
      else match chain_by_name chain_value with
           | Ok info => Some (chain_id info)
           | Raise _ => Some 1
           end
  end.

Definition stamped_chain (raw : pyval) (cid : option Z) : result (option string) :=
  match cid with
  | None => Ok None
  | Some z =>
      if String.eqb (default "" (canonical_chain raw)) ""
      then info ← chain_by_id z; Ok (Some (ci_name info))
      else match chain_by_name raw with
           | Ok named => Ok (if decide (chain_id named = z) then Some (ci_name named) else None)
           | Raise _ => Ok None
           end
  end.

(** Text and integer columns read from the request. *)
Definition as_str (v : pyval) : option string := match v with PyStr s => Some s | _ => None end.
Definition as_int (v : pyval) : option Z := match v with PyInt z => Some z | _ => None end.

(** [trace] is the ambient trace id, [fresh_trace] the one minted otherwise;
    [id] is the new primary key. *)
Definition create_job (id : positive) (trace : option string) (fresh_trace : string) (now : Z)
    (request_dict : gmap string pyval) (initial_stage : JobStage) (d : db) : queue_error + (Job * db) :=
  let trace_id := match trace with Some t => if String.eqb t "" then fresh_trace else t | None => fresh_trace end in
  let address := as_str (dict_get "address" request_dict) in
  let cid := derive_job_chain_id (dict_get "chain" request_dict) address in
  stamped ← lift_chain (stamped_chain (dict_get "chain" request_dict) cid);
  let request_dict :=
    match stamped with
    | Some s => if py_eq_str (dict_get "chain" request_dict) s then request_dict
                else <["chain" := PyStr s]> request_dict
    | None => request_dict
    end in
  let job :=
    mkJob address cid (as_str (dict_get "company" request_dict)) (as_str (dict_get "name" request_dict))
      queued initial_stage (Some "Queued for analysis") (Some request_dict) None None (Some trace_id)
      (as_int (dict_get "protocol_id" request_dict)) false 0 None None None None None None now now in
  inr (job, put_job id job d).

(** ** Claiming *)

Definition has_pending_dep (d : db) (id : positive) : bool :=
  existsb (fun dep => bool_decide (depender_job_id dep = id) && bool_decide (dep_status dep = pending)) (deps d).

(** The [WHERE] of the claim and the rows [SKIP LOCKED] leaves. *)
Definition claimable (d : db) (target_stage : JobStage) (locked : gset positive) (now : Z) (id : positive) (j : Job) : bool :=
  bool_decide (stage j = target_stage) && bool_decide (status j = queued) &&
  match next_attempt_at j with None => true | Some t => (t <=? now)%Z end &&
  negb (has_pending_dep d id) && bool_decide (id ∉ locked).

(** [ORDER BY created_at LIMIT 1]: the first row of least creation time. *)
Fixpoint oldest (rows : list (positive * Job)) : option (positive * Job) :=
  match rows with
  | [] => None
  | (id, j) :: rows =>
      match oldest rows with
      | Some (id', j') => if (created_at j' <? created_at j)%Z then Some (id', j') else Some (id, j)
      | None => Some (id, j)
      end
  end.

(** [token] is the [uuid4] minted for the lease. *)
Definition claim_job (boot : option positive) (target_stage : JobStage) (worker : string) (lease_ttl_seconds : Z)
    (token : positive) (locked : gset positive) (now clock : Z) (d : db) : queue_error + (option (positive * Job) * db) :=
  allowed ← claim_allowed boot d;
  if negb allowed then inr (None, d)
  else
    match oldest (filter (fun row => claimable d target_stage locked now row.1 row.2 = true) (map_to_list (jobs d))) with
    | None => inr (None, d)
    | Some (id, j) =>
        let d := note_claim boot clock d in
        let j := set_status processing (set_worker_id (Some worker) (set_lease_id (Some token) j)) in
        let j := set_updated_at now (set_lease_expires_at (Some (now + lease_ttl_seconds * SECOND)) j) in
        inr (Some (id, j), put_job id j d)
    end.

(** ** Lease checks *)

(** A supplied token must be the row's; no token skips the check. *)
Definition check_lease_or_raise (id : positive) (j : Job) (lease : option positive) : queue_error + unit :=
  match lease with
  | None => inr tt
  | Some l => if decide (lease_id j = Some l) then inr tt else inl (LeaseLost id)
  end.

Definition locked_job (id : positive) (lease : option positive) (d : db) : queue_error + option Job :=
  match lease with
  | Some l =>
      match jobs d !! id with
      | None => inr None
      | Some row => if decide (lease_id row = Some l) then inr (jobs d !! id) else inl (LeaseLost id)
      end
  | None => inr (jobs d !! id)
  end.

Definition heartbeat_job (id lease : positive) (lease_ttl_seconds now : Z) (d : db) : queue_error + db :=
  match jobs d !! id with
  | Some j =>
      if decide (lease_id j = Some lease)
      then inr (put_job id (set_updated_at now (set_lease_expires_at (Some (now + lease_ttl_seconds * SECOND)) j)) d)
      else inl (LeaseLost id)
  | None => inl (LeaseLost id)
  end.

Definition update_job_detail (id : positive) (text : string) (now : Z) (d : db) : db :=
  match jobs d !! id with
  | Some j => put_job id (flush now j (set_detail (Some text) j)) d
  | None => d
  end.

(** ** Stage exits *)

(** [worker_id], [lease_id] and [lease_expires_at] set to NULL. *)
Definition drop_claim (j : Job) : Job := set_worker_id None (set_lease_id None (set_lease_expires_at None j)).

(** The row after the flag is consumed, or [None] when it is not set. *)
Definition restart_static_if_flagged (now : Z) (j : Job) : option Job :=
  if decide (astext (request j) RESTART_STATIC_REQUEST_KEY = Some "true")
  then
    let j := set_updated_at now (set_request (delete RESTART_STATIC_REQUEST_KEY <$> request j) j) in
    let j := drop_claim (set_status queued (set_stage static j)) in
    Some (set_detail (Some "Re-running static in proxy context") (set_next_attempt_at None j))
  else None.

Definition advance_job (id : positive) (next_stage : JobStage) (text : string) (lease : option positive)
    (now : Z) (d : db) : queue_error + db :=
  job ← locked_job id lease d;
  match job with
  | None => inr d
  | Some j =>
      _ ← check_lease_or_raise id j lease;
      match restart_static_if_flagged now j with
      | Some j' => inr (put_job id j' d)
      | None =>
          let j' := set_status queued (set_stage next_stage j) in
          let j' := set_detail (Some (if String.eqb text "" then "Advanced to " ++ stage_value next_stage else text)) j' in
          inr (put_job id (flush now j (drop_claim j')) d)
      end
  end.

Definition mark_enrollment_dirty (protocol : Z) (reason : string) (delay_s now : Z) (d : db) : db :=
  let dirty_at := if (delay_s <=? 0)%Z then now else now + delay_s * SECOND in
  set_enrollment (<[protocol := (reason, dirty_at)]> (enrollment d)) d.

Definition complete_job (id : positive) (text : string) (lease : option positive) (now : Z) (d : db) : queue_error + db :=
  job ← locked_job id lease d;
  match job with
  | None => inr d
  | Some j =>
      _ ← check_lease_or_raise id j lease;
      match restart_static_if_flagged now j with
      | Some j' => inr (put_job id j' d)
      | None =>
          let newly_completed := bool_decide (status j <> completed) in
          let j' := drop_claim (set_detail (Some text) (set_status completed (set_stage done j))) in
          let d' := put_job id (flush now j j') d in
          match protocol_id j with
          | Some p =>
              if newly_completed && negb (String.eqb (default "" (address j)) "")
              then inr (mark_enrollment_dirty p "analysis_complete" 0 now d')
              else inr d'
          | None => inr d'
          end
      end
  end.

Definition static_restart_pending (id : positive) (lease : option positive) (d : db) : queue_error + bool :=
  match jobs d !! id with
  | None => inr false
  | Some row =>
      _ ← check_lease_or_raise id row lease;
      inr (bool_decide (astext (request row) RESTART_STATIC_REQUEST_KEY = Some "true"))
  end.

Definition defer_job (id : positive) (text : string) (delay_seconds : Z) (lease : option positive)
    (now : Z) (d : db) : queue_error + db :=
  job ← locked_job id lease d;
  match job with
  | None => inr d
  | Some j =>
      _ ← check_lease_or_raise id j lease;
      let j := drop_claim (set_detail (Some text) (set_status queued j)) in
      inr (put_job id (set_updated_at now (set_next_attempt_at (Some (now + delay_seconds * SECOND)) j)) d)
  end.

(** ** Request merging and proxy-context conversion *)

(** [defaults || coalesce(request, {}) || patch], the right operand winning. *)
Definition merged_request (defaults : gmap string pyval) (request : option (gmap string pyval)) (patch : gmap string pyval) :
    gmap string pyval :=
  patch ∪ (default ∅ request ∪ defaults).

Definition merge_job_request (id : positive) (patch defaults : gmap string pyval) (unless_present : option string)
    (now : Z) (d : db) : bool * db :=
  match jobs d !! id with
  | None => (false, d)
  | Some row =>
      let blocked := match unless_present with Some k => bool_decide (is_Some (astext (request row) k)) | None => false end in
      if blocked then (false, d)
      else (true, put_job id (set_updated_at now (set_request (Some (merged_request defaults (request row) patch)) row)) d)
  end.

(** A truthy optional string. *)
Definition nonempty (o : option string) : option string :=
  match o with Some s => if String.eqb s "" then None else Some s | None => None end.

Definition opt_binding (key : string) (v : option string) : gmap string pyval :=
  match v with Some s => {[key := PyStr s]} | None => ∅ end.

Definition convert_impl_job_to_proxy_context (id : positive) (proxy_addr : string) (proxy_type : option string)
    (discovery_relationship : string) (parent_job_id : option string) (now : Z) (d : db) : bool * db :=
  let patch := <["proxy_address" := PyStr proxy_addr]> (opt_binding "proxy_type" (nonempty proxy_type)) in
  let defaults := <["discovery_relationship" := PyStr discovery_relationship]>
                    (opt_binding "parent_job_id" (nonempty parent_job_id)) in
  match merge_job_request id patch defaults (Some "proxy_address") now d with
  | (false, d) => (false, d)
  | (true, d) =>
      match jobs d !! id with
      | None => (true, d)
      | Some j =>
          if bool_decide (status j = processing) && bool_decide (stage j ∈ CONTEXT_READING_STAGES)
          then (true, (merge_job_request id {[RESTART_STATIC_REQUEST_KEY := PyBool true]} ∅ None now d).2)
          else if bool_decide (status j = completed) || bool_decide (stage j ∈ RAN_PAST_STATIC_STAGES)
          then
            let j := drop_claim (set_status queued (set_stage static j)) in
            let j := set_next_attempt_at None j in
            (true, put_job id (set_detail (Some ("Re-resolving in proxy context (" ++ proxy_addr ++ ")")) j) d)
          else (true, d)
      end
  end.

(** ** Failures *)

(** [datetime.isoformat()] of a UTC time. *)
Definition pad (width : nat) (z : Z) : string :=
  let s : string := pretty z in
  (String.concat "" (replicate (width - String.length s)%nat "0") ++ s)%string.

(** Proleptic Gregorian date of a day number, day 0 being 1970-01-01. *)
Definition civil_from_days (days : Z) : Z * Z * Z :=
  let z := days + 719468 in
  let era := z / 146097 in
  let doe := z mod 146097 in
  let yoe := (doe - doe / 1460 + doe / 36524 - doe / 146096) / 365 in
  let doy := doe - (365 * yoe + yoe / 4 - yoe / 100) in
  let mp := (5 * doy + 2) / 153 in
  let day := doy - (153 * mp + 2) / 5 + 1 in
  let month := if mp <? 10 then mp + 3 else mp - 9 in
  let year := yoe + era * 400 + (if month <=? 2 then 1 else 0) in
  (year, month, day).

Definition isoformat (t : Z) : string :=
  let secs := t / SECOND in
  let us := t mod SECOND in
  let '(y, mo, dd) := civil_from_days (secs / 86400) in
  let sod := secs mod 86400 in
  pad 4 y ++ "-" ++ pad 2 mo ++ "-" ++ pad 2 dd ++ "T" ++
  pad 2 (sod / 3600) ++ ":" ++ pad 2 (sod / 60 mod 60) ++ ":" ++ pad 2 (sod mod 60) ++
  (if us =? 0 then "" else "." ++ pad 6 us) ++ "+00:00".

Definition fail_job (id : positive) (err : string) (now : Z) (d : db) : db :=
  match jobs d !! id with
  | None => d
  | Some j =>
      put_job id (flush now j (set_worker_id None (set_detail (Some "Failed") (set_error (Some err) (set_status failed j))))) d
  end.

Definition requeue_job (id : positive) (err : string) (retries next_attempt : Z) (lease : option positive)
    (now : Z) (d : db) : queue_error + db :=
  job ← locked_job id lease d;
  match job with
  | None => inr d
  | Some j =>
      _ ← check_lease_or_raise id j lease;
      match restart_static_if_flagged now j with
      | Some j' => inr (put_job id j' d)
      | None =>
          let j' := set_retry_count retries (set_error (Some err) (set_status queued j)) in
          let j' := set_last_failure_kind (Some "transient") (set_next_attempt_at (Some next_attempt) j') in
          let j' := set_detail (Some ("Retry scheduled for " ++ isoformat next_attempt)) j' in
          inr (put_job id (flush now j (drop_claim j')) d)
      end
  end.

Definition fail_job_terminal (id : positive) (err kind : string) (retries : option Z) (lease : option positive)
    (now : Z) (d : db) : queue_error + db :=
  job ← locked_job id lease d;
  match job with
  | None => inr d
  | Some j =>
      _ ← check_lease_or_raise id j lease;
      let j' := default j (restart_static_if_flagged now j) in
      let j' := set_detail (Some "Failed (terminal)") (set_error (Some err) (set_status failed_terminal j')) in
      let j' := drop_claim (set_next_attempt_at None (set_last_failure_kind (Some kind) j')) in
      let j' := match retries with Some n => set_retry_count n j' | None => j' end in
      inr (put_job id (flush now j j') d)
  end.

(** ** The stale sweep *)

Definition stuck (stale_timeout_seconds now : Z) (j : Job) : bool :=
  bool_decide (status j = processing) &&
  match lease_expires_at j with
  | Some t => (t <? now)%Z
  | None => (updated_at j <? now - stale_timeout_seconds * SECOND)%Z
  end.

(** Raw SQL: [updated_at] is not touched. *)
Definition reclaim_stuck_jobs (stale_timeout_seconds : Z) (locked : gset positive) (now : Z) (d : db) : list positive * db :=
  let hit (id : positive) (j : Job) := stuck stale_timeout_seconds now j && bool_decide (id ∉ locked) in
  let rescued := (filter (fun row => hit row.1 row.2 = true) (map_to_list (jobs d))).*1 in
  (rescued, set_jobs (map_imap (fun id j => Some (if hit id j then drop_claim (set_status queued j) else j)) (jobs d)) d).

(** ** Dependencies ([workers/base.py]) *)

Definition provider_chain_for (j : Job) : option string :=
  match job_chain_id j with
  | Some z => match chain_by_id z with Ok info => Some (ci_name info) | Raise _ => None end
  | None => match request j with Some r => canonical_chain (dict_get "chain" r) | None => None end
  end.

Fixpoint stage_index (s : JobStage) (l : list JobStage) : nat :=
  match l with [] => 0 | x :: l => if decide (x = s) then 0 else S (stage_index s l) end.

Definition satisfied_stages (completed_stage : JobStage) : list JobStage :=
  filter (fun s => (stage_index s STAGES <= stage_index completed_stage STAGES)%nat) STAGES.

(** SQL's [provider_chain == chain]: NULL on the row matches nothing, and an
    absent Python value compiles to [IS NULL]. *)
Definition provided_by (chain : option string) (addr : string) (dep : JobDependency) : bool :=
  bool_decide (provider_chain dep = chain) && bool_decide (provider_address dep = addr) &&
  bool_decide (dep_status dep = pending).

Definition set_dep_status (st : DepStatus) (clock : Z) (dep : JobDependency) : JobDependency :=
  mkDep (depender_job_id dep) (provider_chain dep) (provider_address dep) (required_stage dep) st (Some clock).

Definition satisfy_dependencies (j : Job) (completed_stage : JobStage) (clock : Z) (d : db) : Z * db :=
  let addr := str_lower (default "" (address j)) in
  if String.eqb addr "" then (0, d)
  else
    let hit (dep : JobDependency) := provided_by (provider_chain_for j) addr dep &&
                   bool_decide (required_stage dep ∈ satisfied_stages completed_stage) in
    (Z.of_nat (List.length (filter (fun dep => hit dep = true) (deps d))),
     set_deps (List.map (fun dep => if hit dep then set_dep_status satisfied clock dep else dep) (deps d)) d).

Definition degrade_dependencies (j : Job) (clock : Z) (d : db) : Z * db :=
  let addr := str_lower (default "" (address j)) in
  if String.eqb addr "" then (0, d)
  else
    let hit (dep : JobDependency) := provided_by (provider_chain_for j) addr dep in
    (Z.of_nat (List.length (filter (fun dep => hit dep = true) (deps d))),
     set_deps (List.map (fun dep => if hit dep then set_dep_status degraded clock dep else dep) (deps d)) d).

(** ** What a worker does when its stage ends *)

(** The success path of [_execute_job]: one transaction. *)
Definition finish_stage (id : positive) (j : Job) (this_stage next_stage : JobStage) (lease : option positive)
    (now clock : Z) (d : db) : queue_error + db :=
  restart ← static_restart_pending id lease d;
  let d := if restart : bool then d else (satisfy_dependencies j this_stage clock d).2 in
  if decide (next_stage = done)
  then complete_job id "Analysis complete" lease now d
  else advance_job id next_stage ("Completed " ++ stage_value this_stage) lease now d.

Definition finalize_terminal_failure (id : positive) (j : Job) (err kind : string) (retries : option Z)
    (lease : option positive) (now clock : Z) (d : db) : queue_error + db :=
  fail_job_terminal id err kind retries lease now (degrade_dependencies j clock d).2.
