(* ===== verification/JobQueueTheory.v ===== *)
(** * The job queue: leases, claims and exits

    The abstract view of the queue's writes: each lease-checked write is one
    row transformer guarded by the lease ([guarded]); the queue's steps form a
    relation in [JobFleetTheory]; here claims are first
    come, first served among the due and unblocked rows; a stage's exit consumes
    the restart flag. *)

From stdpp Require Import base gmap sets list strings pretty sorting.
From Stdlib Require Import String Ascii ZArith Lia.
From S2P Require Import Prelude Chains JobQueue.

Local Open Scope string_scope.
Local Open Scope Z_scope.

(** ** Lease-guarded writes *)

(** The caller's token, when it gives one, is the row's. *)
Definition lease_ok (lease : option positive) (j : Job) : bool :=
  match lease with None => true | Some l => bool_decide (lease_id j = Some l) end.

(** A write of row [id] by the holder of [lease]: nothing on a missing row,
    [LeaseLost] on a moved lease, otherwise the row transformer's outcome. *)
Definition guarded (id : positive) (lease : option positive) (k : Job -> db) (d : db) : queue_error + db :=
  match jobs d !! id with
  | None => inr d
  | Some j => if lease_ok lease j then inr (k j) else inl (LeaseLost id)
  end.

(** Either the row a consumed flag gives, or the exit's own. *)
Definition unless_flagged (now : Z) (f : Job -> Job) (j : Job) : Job :=
  match restart_static_if_flagged now j with Some j' => j' | None => f j end.

Definition advanced (next_stage : JobStage) (text : string) (now : Z) (j : Job) : Job :=
  flush now j (drop_claim (set_detail (Some (if String.eqb text "" then "Advanced to " ++ stage_value next_stage else text))
    (set_status queued (set_stage next_stage j)))).

Definition completed_row (text : string) (now : Z) (j : Job) : Job :=
  flush now j (drop_claim (set_detail (Some text) (set_status completed (set_stage done j)))).

Definition deferred (text : string) (delay_seconds now : Z) (j : Job) : Job :=
  set_updated_at now (set_next_attempt_at (Some (now + delay_seconds * SECOND))
    (drop_claim (set_detail (Some text) (set_status queued j)))).

Definition requeued (err : string) (retries next_attempt now : Z) (j : Job) : Job :=
  flush now j (drop_claim (set_detail (Some ("Retry scheduled for " ++ isoformat next_attempt))
    (set_last_failure_kind (Some "transient") (set_next_attempt_at (Some next_attempt)
      (set_retry_count retries (set_error (Some err) (set_status queued j))))))).

Definition terminal_row (err kind : string) (retries : option Z) (now : Z) (j : Job) : Job :=
  let j' := drop_claim (set_next_attempt_at None (set_last_failure_kind (Some kind)
    (set_detail (Some "Failed (terminal)") (set_error (Some err) (set_status failed_terminal
      (default j (restart_static_if_flagged now j))))))) in
  flush now j (match retries with Some n => set_retry_count n j' | None => j' end).

(** Enrollment is notified when a row with a protocol and an address becomes
    completed. *)
Definition notify_completed (now : Z) (j : Job) (d : db) : db :=
  match restart_static_if_flagged now j, protocol_id j with
  | None, Some p =>
      if bool_decide (status j <> completed) && negb (String.eqb (default "" (address j)) "")
      then mark_enrollment_dirty p "analysis_complete" 0 now d else d
  | _, _ => d
  end.

(** The lock, the lease check and what follows them, as one guard. *)
Lemma locked_then_check id lease d (k : Job -> queue_error + db) :
  (job ← locked_job id lease d;
   match job with None => inr d | Some j => check_lease_or_raise id j lease ≫= fun _ => k j end) =
  match jobs d !! id with
  | None => inr d
  | Some j => if lease_ok lease j then k j else inl (LeaseLost id)
  end.
Proof.
  unfold locked_job, check_lease_or_raise, lease_ok.
  destruct lease as [l|]; destruct (jobs d !! id) as [j|]; cbn; try done.
  destruct (decide (lease_id j = Some l)) as [E|E]; cbn.
  - rewrite (bool_decide_eq_true_2 _ E). by destruct (decide _).
  - by rewrite (bool_decide_eq_false_2 _ E).
Qed.

Ltac solve_guarded op :=
  unfold op, guarded, unless_flagged, notify_completed; rewrite locked_then_check;
  destruct (jobs _ !! _) as [j|]; [|done]; destruct (lease_ok _ j); [|done];
  try (destruct (restart_static_if_flagged _ j)); try done.

Lemma advance_job_guarded id next_stage text lease now d :
  advance_job id next_stage text lease now d =
  guarded id lease (fun j => put_job id (unless_flagged now (advanced next_stage text now) j) d) d.
Proof. solve_guarded advance_job. Qed.

Lemma complete_job_guarded id text lease now d :
  complete_job id text lease now d =
  guarded id lease (fun j =>
    notify_completed now j (put_job id (unless_flagged now (completed_row text now) j) d)) d.
Proof. solve_guarded complete_job. destruct (protocol_id j); [|done]. by destruct (_ && _). Qed.

Lemma defer_job_guarded id text delay lease now d :
  defer_job id text delay lease now d = guarded id lease (fun j => put_job id (deferred text delay now j) d) d.
Proof. solve_guarded defer_job. Qed.

Lemma requeue_job_guarded id err retries next_attempt lease now d :
  requeue_job id err retries next_attempt lease now d =
  guarded id lease (fun j => put_job id (unless_flagged now (requeued err retries next_attempt now) j) d) d.
Proof. solve_guarded requeue_job. Qed.

Lemma fail_job_terminal_guarded id err kind retries lease now d :
  fail_job_terminal id err kind retries lease now d =
  guarded id lease (fun j => put_job id (terminal_row err kind retries now j) d) d.
Proof. unfold terminal_row. solve_guarded fail_job_terminal. Qed.

Lemma guarded_stale id l k d j :
  jobs d !! id = Some j -> lease_id j <> Some l -> guarded id (Some l) k d = inl (LeaseLost id).
Proof. intros E H. unfold guarded, lease_ok. rewrite E. by rewrite bool_decide_eq_false_2. Qed.

Lemma guarded_inr id lease k d d' :
  guarded id lease k d = inr d' ->
  (jobs d !! id = None /\ d' = d) \/
  exists j, jobs d !! id = Some j /\ lease_ok lease j = true /\ d' = k j.
Proof.
  unfold guarded. destruct (jobs d !! id) as [j|]; [|intros [= <-]; by left].
  destruct (lease_ok lease j) eqn:E; [|done]. intros [= <-]. right. eauto.
Qed.

(** A worker whose lease has moved can change nothing.  With a token that is
    not the row's current one, every lease-checked write of the queue (the
    heartbeat, the five stage exits and the restart query that precedes them)
    raises [LeaseLost], so its transaction commits nothing. *)
Theorem stale_lease_rejected id l j d now :
  jobs d !! id = Some j -> lease_id j <> Some l ->
  (forall ttl, heartbeat_job id l ttl now d = inl (LeaseLost id)) /\
  (forall next_stage text, advance_job id next_stage text (Some l) now d = inl (LeaseLost id)) /\
  (forall text, complete_job id text (Some l) now d = inl (LeaseLost id)) /\
  (forall text delay, defer_job id text delay (Some l) now d = inl (LeaseLost id)) /\
  (forall err n t, requeue_job id err n t (Some l) now d = inl (LeaseLost id)) /\
  (forall err kind n, fail_job_terminal id err kind n (Some l) now d = inl (LeaseLost id)) /\
  static_restart_pending id (Some l) d = inl (LeaseLost id) /\
  (forall this next clock, finish_stage id j this next (Some l) now clock d = inl (LeaseLost id)).
Proof.
  intros E H.
  assert (static_restart_pending id (Some l) d = inl (LeaseLost id)) as Hs.
  { unfold static_restart_pending, check_lease_or_raise. rewrite E. by rewrite decide_False. }
  split_and!; intros; rewrite ?advance_job_guarded, ?complete_job_guarded, ?defer_job_guarded,
    ?requeue_job_guarded, ?fail_job_terminal_guarded; try (by eapply guarded_stale); [|done|].
  - unfold heartbeat_job. rewrite E. by rewrite decide_False.
  - unfold finish_stage. by rewrite Hs.
Qed.

(** ** Rows under the transformers *)

Lemma flush_cases now old new : flush now old new = new \/ flush now old new = set_updated_at now new.
Proof. unfold flush. case_decide; auto. Qed.

Ltac flush_case := match goal with |- context [flush ?n ?o ?w] => destruct (flush_cases n o w) as [-> | ->] end.

Lemma restart_some now j j' :
  restart_static_if_flagged now j = Some j' ->
  astext (request j) RESTART_STATIC_REQUEST_KEY = Some "true" /\
  j' = set_detail (Some "Re-running static in proxy context") (set_next_attempt_at None
         (drop_claim (set_status queued (set_stage static
           (set_updated_at now (set_request (delete RESTART_STATIC_REQUEST_KEY <$> request j) j)))))).
Proof. unfold restart_static_if_flagged. case_decide; [|done]. by intros [= <-]. Qed.

Lemma restart_none now j :
  restart_static_if_flagged now j = None <-> astext (request j) RESTART_STATIC_REQUEST_KEY <> Some "true".
Proof. unfold restart_static_if_flagged. by case_decide. Qed.

(** The row is released: nobody holds or owns it. *)
Definition released (j : Job) : Prop := lease_id j = None /\ worker_id j = None /\ lease_expires_at j = None.

(** What the queue keeps true of a row: a running job has an owner, a lease and a
    stage that runs; a job that is not running has no owner; a finished or
    terminally failed one is released; a lease and its expiry come together; an
    addressed job names a registered chain.  A queued or failed row may still
    carry the lease of the claim it was taken from. *)
Definition row_ok (j : Job) : Prop :=
  (status j = processing -> is_Some (lease_id j) /\ is_Some (worker_id j) /\ stage j <> done) /\
  (status j <> processing -> worker_id j = None) /\
  (status j = completed \/ status j = failed_terminal -> released j) /\
  (is_Some (lease_id j) <-> is_Some (lease_expires_at j)) /\
  (is_Some (address j) -> exists z info, job_chain_id j = Some z /\ chain_by_id z = Ok info).

(** A transformer that keeps rows consistent and never takes another's lease. *)
Definition row_step (f : Job -> Job) : Prop :=
  forall j, row_ok j -> row_ok (f j) /\ (lease_id (f j) = None \/ lease_id (f j) = lease_id j).

Ltac solve_row :=
  unfold row_ok, released in *; cbn; intros; split_and!; try done; try tauto; naive_solver.

Lemma restart_row_step now j j' : restart_static_if_flagged now j = Some j' -> row_ok j -> row_ok j' /\ lease_id j' = None.
Proof. intros [_ ->]%restart_some. solve_row. Qed.

Lemma unless_flagged_step now f : row_step f -> row_step (unless_flagged now f).
Proof.
  intros Hf j Hj. unfold unless_flagged. destruct (restart_static_if_flagged now j) as [j'|] eqn:E; [|by apply Hf].
  destruct (restart_row_step _ _ _ E Hj). auto.
Qed.

Lemma advanced_step ns text now : row_step (advanced ns text now).
Proof. intros j Hj. unfold advanced. flush_case; solve_row. Qed.

Lemma completed_step text now : row_step (completed_row text now).
Proof. intros j Hj. unfold completed_row. flush_case; solve_row. Qed.

Lemma deferred_step text delay now : row_step (deferred text delay now).
Proof. intros j Hj. solve_row. Qed.

Lemma requeued_step err n t now : row_step (requeued err n t now).
Proof. intros j Hj. unfold requeued. flush_case; solve_row. Qed.

Lemma requeued_fields err n t now j :
  let j' := requeued err n t now j in request j' = request j /\ status j' = queued /\ retry_count j' = n.
Proof. cbv zeta. unfold requeued. flush_case; done. Qed.

Lemma terminal_fields err kind retries now j :
  let j' := terminal_row err kind retries now j in
  status j' = failed_terminal /\ (restart_static_if_flagged now j = None -> request j' = request j).
Proof.
  cbv zeta. unfold terminal_row. destruct (restart_static_if_flagged now j); destruct retries; flush_case; done.
Qed.

Lemma terminal_step err kind retries now : row_step (terminal_row err kind retries now).
Proof.
  intros j Hj. unfold terminal_row.
  destruct (restart_static_if_flagged now j) as [j'|] eqn:E; cbn [default].
  - apply restart_some in E as [_ ->]. destruct retries; flush_case; solve_row.
  - destruct retries; flush_case; solve_row.
Qed.

(** ** Conversion as a row transformer *)

Definition context_patch (proxy_addr : string) (proxy_type : option string) : gmap string pyval :=
  <["proxy_address" := PyStr proxy_addr]> (opt_binding "proxy_type" (nonempty proxy_type)).
Definition context_defaults (rel : string) (parent : option string) : gmap string pyval :=
  <["discovery_relationship" := PyStr rel]> (opt_binding "parent_job_id" (nonempty parent)).

Definition merge_row (defaults patch : gmap string pyval) (now : Z) (j : Job) : Job :=
  set_updated_at now (set_request (Some (merged_request defaults (request j) patch)) j).

Definition converted (proxy_addr : string) (proxy_type : option string) (rel : string) (parent : option string)
    (now : Z) (j : Job) : Job :=
  let j1 := merge_row (context_defaults rel parent) (context_patch proxy_addr proxy_type) now j in
  if bool_decide (status j = processing) && bool_decide (stage j ∈ CONTEXT_READING_STAGES)
  then merge_row ∅ {[RESTART_STATIC_REQUEST_KEY := PyBool true]} now j1
  else if bool_decide (status j = completed) || bool_decide (stage j ∈ RAN_PAST_STATIC_STAGES)
  then set_detail (Some ("Re-resolving in proxy context (" ++ proxy_addr ++ ")"))
         (set_next_attempt_at None (drop_claim (set_status queued (set_stage static j1))))
  else j1.

Lemma jobs_put id j d : jobs (put_job id j d) = <[id := j]> (jobs d).
Proof. done. Qed.

Lemma put_put id j j' d : put_job id j (put_job id j' d) = put_job id j d.
Proof. unfold put_job, set_jobs. cbn. by rewrite insert_insert_eq. Qed.

Lemma convert_row id pa pt rel parent now d :
  convert_impl_job_to_proxy_context id pa pt rel parent now d =
  match jobs d !! id with
  | None => (false, d)
  | Some j =>
      if bool_decide (is_Some (astext (request j) "proxy_address")) then (false, d)
      else (true, put_job id (converted pa pt rel parent now j) d)
  end.
Proof.
  unfold convert_impl_job_to_proxy_context, merge_job_request. destruct (jobs d !! id) as [j|] eqn:E; [|done].
  case_bool_decide; [done|]. rewrite jobs_put, lookup_insert_eq. unfold converted. cbn [status stage merge_row set_updated_at set_request].
  destruct (_ && _); [cbn [snd]; by rewrite put_put|].
  destruct (_ || _); [by rewrite put_put|done].
Qed.

Lemma converted_step pa pt rel parent now : row_step (converted pa pt rel parent now).
Proof.
  intros j Hj. unfold converted.
  case_bool_decide; cbn [andb]; [case_bool_decide|];
    repeat (destruct (bool_decide _ || bool_decide _)); solve_row.
Qed.

Definition claimed (worker : string) (token : positive) (ttl now : Z) (j : Job) : Job :=
  set_updated_at now (set_lease_expires_at (Some (now + ttl * SECOND))
    (set_status processing (set_worker_id (Some worker) (set_lease_id (Some token) j)))).

Definition reclaimed (j : Job) : Job := drop_claim (set_status queued j).

Lemma reclaimed_step : row_step reclaimed.
Proof. intros j Hj. solve_row. Qed.

Lemma jobs_reclaim timeout locked now d id :
  jobs (reclaim_stuck_jobs timeout locked now d).2 !! id =
    (fun j => if stuck timeout now j && bool_decide (id ∉ locked) then reclaimed j else j) <$> jobs d !! id.
Proof. cbn. rewrite map_lookup_imap. by destruct (jobs d !! id). Qed.

(** ** Oldest first *)

Lemma oldest_spec rows :
  match oldest rows with
  | None => rows = []
  | Some row => row ∈ rows /\ forall row', row' ∈ rows -> created_at row.2 <= created_at row'.2
  end.
Proof.
  induction rows as [|[id j] rows IH]; cbn; [done|].
  destruct (oldest rows) as [[id' j']|]; cbn in IH.
  - destruct IH as [Hin Hle]. destruct (Z.ltb_spec (created_at j') (created_at j)); cbn.
    + split; [by right|]. intros row' [->|H']%elem_of_cons; [cbn; lia|by apply Hle].
    + split; [by left|]. intros row' [->|H']%elem_of_cons; [cbn; lia|]. specialize (Hle _ H'). cbn in Hle. lia.
  - subst. split; [by left|]. intros row' [->|[]%elem_of_nil]%elem_of_cons. cbn. lia.
Qed.

Lemma jobs_note_claim boot clock d : jobs (note_claim boot clock d) = jobs d.
Proof. unfold note_claim. destruct boot, (lifecycle d); try done. by case_decide. Qed.

Lemma deps_note_claim boot clock d : deps (note_claim boot clock d) = deps d.
Proof. unfold note_claim. destruct boot, (lifecycle d); try done. by case_decide. Qed.

Lemma claim_job_cases boot target worker ttl token locked now clock d r d' :
  claim_job boot target worker ttl token locked now clock d = inr (r, d') ->
  (r = None /\ d' = d) \/
  exists id j, r = Some (id, claimed worker token ttl now j) /\ jobs d !! id = Some j /\
    claimable d target locked now id j = true /\
    jobs d' = <[id := claimed worker token ttl now j]> (jobs d) /\ deps d' = deps d /\
    (forall id' j', jobs d !! id' = Some j' -> claimable d target locked now id' j' = true -> created_at j <= created_at j').
Proof.
  unfold claim_job. destruct (claim_allowed boot d) as [e|[]]; cbn; [done| |intros [= <- <-]; by left].
  match goal with |- context [oldest ?l] => pose proof (oldest_spec l) as Ho; destruct (oldest l) as [[id j]|] end.
  2: intros [= <- <-]; by left.
  intros [= <- <-]. right. exists id, j. destruct Ho as [Hin Hle]. cbn in Hin, Hle.
  apply list_elem_of_filter in Hin as [Hc Hin]. apply elem_of_map_to_list in Hin. cbn in Hc.
  split_and!; [done|done|done| | |].
  - by rewrite jobs_put, jobs_note_claim.
  - cbn. apply deps_note_claim.
  - intros id' j' Hj' Hc'. apply (Hle (id', j')). apply list_elem_of_filter. split; [done|].
    by apply elem_of_map_to_list.
Qed.

(** ** Created rows *)

Lemma chain_by_name_registered v info : chain_by_name v = Ok info -> chain_by_id (chain_id info) = Ok info.
Proof.
  destruct v as [| | |s| |]; try done. intros H%chain_by_name_resolves.
  apply chain_by_id_ok. split; [by eapply resolve_key_registered|done].
Qed.

Lemma mainnet_registered : exists info, chain_by_id 1 = Ok info.
Proof. exists ethereum_info. vm_compute. reflexivity. Qed.

Lemma derive_registered v a z : derive_job_chain_id v (Some a) = Some z -> exists info, chain_by_id z = Ok info.
Proof.
  unfold derive_job_chain_id. destruct (match v with PyNone => _ | _ => _ end).
  { intros [= <-]. apply mainnet_registered. }
  destruct (chain_by_name v) as [info|] eqn:E; intros [= <-]; [|apply mainnet_registered].
  exists info. by eapply chain_by_name_registered.
Qed.

Lemma stamped_ok v a : exists s, stamped_chain v (derive_job_chain_id v a) = Ok s.
Proof.
  unfold stamped_chain. destruct (derive_job_chain_id v a) as [z|] eqn:E; [|eauto].
  destruct a as [a|]; [|done]. destruct (derive_registered _ _ _ E) as [info Hi]. rewrite Hi.
  destruct (String.eqb _ _); [cbn; eauto|]. destruct (chain_by_name v); eauto.
Qed.

Lemma create_job_ok id trace ft now r st d :
  exists j, create_job id trace ft now r st d = inr (j, put_job id j d) /\
    row_ok j /\ status j = queued /\ stage j = st /\ lease_id j = None.
Proof.
  unfold create_job. set (v := dict_get "chain" r). set (a := as_str (dict_get "address" r)).
  destruct (stamped_ok v a) as [s ->]. cbn [lift_chain mbind tx_bind]. eexists. split; [reflexivity|].
  split_and!; try done. unfold row_ok, released. cbn. split_and!; [done..|].
  intros [a' Ha]. fold a in Ha. rewrite Ha. destruct (derive_job_chain_id v (Some a')) as [z|] eqn:E.
  - destruct (derive_registered _ _ _ E). eauto.
  - exfalso. revert E. unfold derive_job_chain_id. destruct (match v with PyNone => _ | _ => _ end); [done|].
    by destruct (chain_by_name v).
Qed.

(** ** Rows of the remaining writes *)

Lemma jobs_notify now j d : jobs (notify_completed now j d) = jobs d.
Proof.
  unfold notify_completed. destruct (restart_static_if_flagged now j), (protocol_id j); try done.
  by destruct (_ && _).
Qed.

Lemma merge_job_request_row id patch defaults unless now d :
  (merge_job_request id patch defaults unless now d).2 = d \/
  exists j, jobs d !! id = Some j /\
    jobs (merge_job_request id patch defaults unless now d).2 = <[id := merge_row defaults patch now j]> (jobs d).
Proof.
  unfold merge_job_request. destruct (jobs d !! id) as [j|] eqn:E; [|by left].
  destruct (match unless with Some _ => _ | None => _ end); [by left|]. right. eauto.
Qed.

Lemma merge_row_step defaults patch now : row_step (merge_row defaults patch now).
Proof. intros j Hj. solve_row. Qed.

Lemma detail_step text now : row_step (fun j => flush now j (set_detail (Some text) j)).
Proof. intros j Hj. flush_case; solve_row. Qed.

Lemma failed_step err now :
  row_step (fun j => flush now j (set_worker_id None (set_detail (Some "Failed") (set_error (Some err) (set_status failed j))))).
Proof. intros j Hj. flush_case; solve_row. Qed.

Lemma claimable_spec d target locked now id j :
  claimable d target locked now id j = true <->
  stage j = target /\ status j = queued /\ (forall t, next_attempt_at j = Some t -> t <= now) /\
  has_pending_dep d id = false /\ id ∉ locked.
Proof.
  unfold claimable. rewrite !andb_true_iff, !bool_decide_eq_true, negb_true_iff.
  assert ((match next_attempt_at j with Some t => t <=? now | None => true end) = true <->
          (forall t, next_attempt_at j = Some t -> t <= now)) as ->; [|tauto].
  destruct (next_attempt_at j) as [t|]; [|naive_solver]. rewrite Z.leb_le. naive_solver.
Qed.

Definition empty_db : db := mkDb ∅ [] ∅ None ∅.

(** A two-job database: job 1 queued in the static stage, job 2 running under
    lease 7 until time 5000. *)
Definition demo_job (st : JobStage) (stt : JobStatus) (lease : option positive) (created : Z) : Job :=
  mkJob (Some "0xabc") (Some 1) None None stt st None (Some ∅) None
    (if lease then Some "w" else None) None None false 0 None None lease
    (if lease then Some 5000 else None) None None created created.

Definition demo_db : db :=
  mkDb {[ 1%positive := demo_job static queued None 10; 2%positive := demo_job static processing (Some 7%positive) 20 ]}
    [] ∅ None ∅.

Lemma stale_lease_rejected_witness :
  advance_job 2 resolution "" (Some 6%positive) 100 demo_db = inl (LeaseLost 2).
Proof.
  apply (stale_lease_rejected 2 6 (demo_job static processing (Some 7%positive) 20) demo_db 100);
    [vm_compute; reflexivity|discriminate].
Defined.

(** ** Claims and the sweep *)

(** What a claim does, on every outcome.  It raises only when a managed
    worker finds no lifecycle row.  It returns nothing, changing nothing, exactly
    when the gate is closed or no row is claimable.  Otherwise it takes a row
    that is queued in the asked stage, due, free of pending dependencies and
    not locked, and no claimable row is older; that row is now running under the
    new lease, expiring [ttl] seconds from now, and no other row changed. *)
Theorem claim_job_fifo boot target worker ttl token locked now clock d :
  match claim_job boot target worker ttl token locked now clock d with
  | inl e => e = NoResultFound /\ is_Some boot /\ lifecycle d = None
  | inr (None, d') =>
      d' = d /\ (claim_allowed boot d = inr false \/
                 forall id j, jobs d !! id = Some j -> claimable d target locked now id j = false)
  | inr (Some (id, j'), d') =>
      claim_allowed boot d = inr true /\
      exists j, jobs d !! id = Some j /\
        stage j = target /\ status j = queued /\ (forall t, next_attempt_at j = Some t -> t <= now) /\
        has_pending_dep d id = false /\ id ∉ locked /\
        (forall id2 j2, jobs d !! id2 = Some j2 -> claimable d target locked now id2 j2 = true -> created_at j <= created_at j2) /\
        jobs d' = <[id := j']> (jobs d) /\
        status j' = processing /\ stage j' = target /\ lease_id j' = Some token /\ worker_id j' = Some worker /\
        lease_expires_at j' = Some (now + ttl * SECOND) /\ request j' = request j /\ retry_count j' = retry_count j
  end.
Proof.
  destruct (claim_job boot target worker ttl token locked now clock d) as [e|[r d']] eqn:E.
  - unfold claim_job, claim_allowed in E. destruct boot as [b|]; [destruct (lifecycle d) eqn:El|].
    + cbn in E. destruct (negb _); [done|]. by destruct (oldest _) as [[]|].
    + by injection E as <-.
    + cbn in E. by destruct (oldest _) as [[]|].
  - destruct (claim_job_cases _ _ _ _ _ _ _ _ _ _ _ E) as [[-> ->]|(id & j & -> & Hj & Hc & Hd & _ & Hmin)].
    + split; [done|]. unfold claim_job in E. destruct (claim_allowed boot d) as [|[]]; [done| |by left].
      right. cbn in E. intros id j Hj.
      match type of E with context [oldest ?l] => pose proof (oldest_spec l) as Ho; destruct (oldest l) as [[]|] end; [done|].
      apply not_true_is_false. intros Hc. assert ((id, j) ∈ ([] : list (positive * Job))) as []%elem_of_nil.
      rewrite <- Ho. apply list_elem_of_filter. by rewrite elem_of_map_to_list.
    + split; [unfold claim_job in E; by destruct (claim_allowed boot d) as [|[]]|].
      apply claimable_spec in Hc as (? & ? & ? & ? & ?). exists j. split_and!; done.
Qed.

(** The sweep rescues exactly the stuck jobs.  A running job whose lease
    expired (or, with no lease on record, that was not updated for the timeout)
    and that nobody has locked goes back to its queue, its claim dropped and
    everything else kept; every other row is untouched, a terminally failed one
    always. *)
Theorem reclaim_exact timeout locked now d id :
  let (rescued, d') := reclaim_stuck_jobs timeout locked now d in
  match jobs d !! id with
  | None => id ∉ rescued /\ jobs d' !! id = None
  | Some j =>
      (id ∈ rescued <-> status j = processing /\ id ∉ locked /\
         match lease_expires_at j with Some t => t < now | None => updated_at j < now - timeout * SECOND end) /\
      (id ∈ rescued -> jobs d' !! id = Some (set_worker_id None (set_lease_id None (set_lease_expires_at None (set_status queued j))))) /\
      (id ∉ rescued -> jobs d' !! id = Some j)
  end.
Proof.
  destruct (reclaim_stuck_jobs timeout locked now d) as [rescued d'] eqn:E.
  pose proof (jobs_reclaim timeout locked now d id) as Hd. rewrite E in Hd. cbn [snd] in Hd.
  injection E as Hr _. assert (id ∈ rescued <-> exists j, jobs d !! id = Some j /\ stuck timeout now j && bool_decide (id ∉ locked) = true) as Hin.
  { rewrite <- Hr, list_elem_of_fmap. split.
    - intros ([i j] & -> & [Hh Hm]%list_elem_of_filter). apply elem_of_map_to_list in Hm. eauto.
    - intros (j & Hj & Hh). exists (id, j). split; [done|]. apply list_elem_of_filter. by rewrite elem_of_map_to_list. }
  rewrite Hd. destruct (jobs d !! id) as [j|]; cbn; [|naive_solver].
  assert (stuck timeout now j && bool_decide (id ∉ locked) = true <-> status j = processing /\ id ∉ locked /\
    match lease_expires_at j with Some t => t < now | None => updated_at j < now - timeout * SECOND end) as Hs.
  { unfold stuck. rewrite !andb_true_iff, !bool_decide_eq_true.
    destruct (lease_expires_at j); rewrite Z.ltb_lt; tauto. }
  split_and!; [rewrite Hin; naive_solver| |].
  - intros (j' & [= <-] & ->)%Hin. done.
  - intros Hn. destruct (stuck timeout now j && bool_decide (id ∉ locked)) eqn:Eh; [|done]. exfalso. apply Hn, Hin. eauto.
Qed.

(** ** The restart flag *)

Definition flagged (j : Job) : Prop := astext (request j) RESTART_STATIC_REQUEST_KEY = Some "true".

Lemma astext_delete r k k' : astext (delete k <$> r) k' = if decide (k = k') then None else astext r k'.
Proof.
  destruct r as [r|]; cbn; [|by case_decide]. case_decide as E; [subst; by rewrite lookup_delete_eq|].
  by rewrite lookup_delete_ne.
Qed.

Lemma flagged_ext j j' : request j' = request j -> ~ flagged j -> ~ flagged j'.
Proof. unfold flagged. by intros ->. Qed.

Lemma flagged_restarts now j : flagged j -> exists j', restart_static_if_flagged now j = Some j'.
Proof. intros H. unfold restart_static_if_flagged. rewrite decide_True by done. eauto. Qed.

(** The row every flagged exit but the terminal one leaves. *)
Definition restarted (now : Z) (j : Job) : Job :=
  set_detail (Some "Re-running static in proxy context") (set_next_attempt_at None
    (drop_claim (set_status queued (set_stage static
      (set_updated_at now (set_request (delete RESTART_STATIC_REQUEST_KEY <$> request j) j)))))).

Lemma unless_flagged_restarted now f j : flagged j -> unless_flagged now f j = restarted now j.
Proof.
  intros H. unfold unless_flagged. destruct (flagged_restarts now j H) as [j' E]. rewrite E.
  by apply restart_some in E as [_ ->].
Qed.

Lemma guarded_ok id lease k d j :
  jobs d !! id = Some j -> lease_ok lease j = true -> guarded id lease k d = inr (k j).
Proof. intros E H. unfold guarded. by rewrite E, H. Qed.

Lemma static_restart_pending_ok id lease d j :
  jobs d !! id = Some j -> lease_ok lease j = true ->
  static_restart_pending id lease d = inr (bool_decide (astext (request j) RESTART_STATIC_REQUEST_KEY = Some "true")).
Proof.
  intros Hj Hl. unfold static_restart_pending, check_lease_or_raise. rewrite Hj.
  destruct lease as [l|]; [|done]. apply bool_decide_eq_true in Hl. by rewrite decide_True.
Qed.

(** A job flagged while its stage was running is re-run from static, once.
    Advancing, completing and requeueing it all leave the same row: queued in
    static, due at once, released, the flag gone and every other request key
    kept; the retry count is not spent, enrollment is not told and the stage's
    dependents are not satisfied.  A terminal failure also consumes the flag. *)
Theorem restart_flag_consumed id lease now clock d j :
  jobs d !! id = Some j -> lease_ok lease j = true -> flagged j ->
  let d' := put_job id (restarted now j) d in
  (forall next_stage text, advance_job id next_stage text lease now d = inr d') /\
  (forall text, complete_job id text lease now d = inr d') /\
  (forall err n t, requeue_job id err n t lease now d = inr d') /\
  (forall this_stage next_stage, finish_stage id j this_stage next_stage lease now clock d = inr d') /\
  status (restarted now j) = queued /\ stage (restarted now j) = static /\ released (restarted now j) /\
  next_attempt_at (restarted now j) = None /\ retry_count (restarted now j) = retry_count j /\
  (forall k, astext (request (restarted now j)) k =
     if decide (RESTART_STATIC_REQUEST_KEY = k) then None else astext (request j) k) /\
  (forall err kind n, exists j', fail_job_terminal id err kind n lease now d = inr (put_job id j' d) /\
     status j' = failed_terminal /\ released j' /\ astext (request j') RESTART_STATIC_REQUEST_KEY = None).
Proof.
  intros Hj Hl Hf d'.
  assert (forall ns text, advance_job id ns text lease now d = inr d') as Hadv.
  { intros ns text. rewrite advance_job_guarded, (guarded_ok _ _ _ _ _ Hj Hl), unless_flagged_restarted; done. }
  assert (forall text, complete_job id text lease now d = inr d') as Hcomp.
  { intros text. rewrite complete_job_guarded, (guarded_ok _ _ _ _ _ Hj Hl), unless_flagged_restarted by done.
    unfold notify_completed. by destruct (flagged_restarts now j Hf) as [? ->]. }
  split_and!; try done.
  - intros err n t. rewrite requeue_job_guarded, (guarded_ok _ _ _ _ _ Hj Hl), unless_flagged_restarted; done.
  - intros this ns. unfold finish_stage. rewrite (static_restart_pending_ok _ _ _ _ Hj Hl).
    rewrite (bool_decide_eq_true_2 _ Hf). cbn [mbind tx_bind]. case_decide; [apply Hcomp|apply Hadv].
  - intros k. apply astext_delete.
  - intros err kind n. rewrite fail_job_terminal_guarded, (guarded_ok _ _ _ _ _ Hj Hl). eexists. split; [reflexivity|].
    unfold terminal_row. destruct (flagged_restarts now j Hf) as [j' E]. rewrite E. apply restart_some in E as [_ ->].
    cbn [default]. destruct n; flush_case; split_and!; try done;
      change (astext (delete RESTART_STATIC_REQUEST_KEY <$> request j) RESTART_STATIC_REQUEST_KEY = None);
      rewrite astext_delete; by rewrite decide_True.
Qed.

(** The demo database after job 2 was converted while it ran. *)
Definition demo_flagged : db := (convert_impl_job_to_proxy_context 2 "0xproxy" None "implementation" None 3000 demo_db).2.

Definition demo_flagged_job : Job := default (demo_job static queued None 0) (jobs demo_flagged !! 2%positive).

Lemma restart_flag_consumed_witness :
  advance_job 2 resolution "" (Some 7%positive) 4000 demo_flagged = inr (put_job 2 (restarted 4000 demo_flagged_job) demo_flagged).
Proof.
  apply (restart_flag_consumed 2 (Some 7%positive) 4000 0 demo_flagged demo_flagged_job);
    [vm_compute; reflexivity|vm_compute; reflexivity|vm_compute; reflexivity].
Defined.

(** Deferral is the one exit that ignores the restart flag.  A flagged job
    that is deferred stays in its stage with the flag set, so the stage runs
    again on the new context and its next exit sends the job back to static
    once more. *)
Theorem defer_keeps_restart_flag id text delay lease now d j :
  jobs d !! id = Some j -> lease_ok lease j = true -> flagged j ->
  exists j', defer_job id text delay lease now d = inr (put_job id j' d) /\
    status j' = queued /\ stage j' = stage j /\ flagged j'.
Proof.
  intros Hj Hl Hf. rewrite defer_job_guarded, (guarded_ok _ _ _ _ _ Hj Hl). eexists. split; [reflexivity|]. done.
Qed.

Lemma defer_keeps_restart_flag_witness :
  exists j', defer_job 2 "waiting" 60 (Some 7%positive) 4000 demo_flagged = inr (put_job 2 j' demo_flagged) /\
    status j' = queued /\ stage j' = static /\ flagged j'.
Proof.
  apply (defer_keeps_restart_flag 2 "waiting" 60 (Some 7%positive) 4000 demo_flagged demo_flagged_job);
    [vm_compute; reflexivity|vm_compute; reflexivity|vm_compute; reflexivity].
Defined.
