(* ===== verification/JobFleet.v ===== *)
(** * The other writers of the job table

    What writes a [jobs] row outside [db/queue/jobs.py]: the claims of the
    selection and coverage workers ([services/worker_workload.py],
    [workers/selection_worker.py], [workers/coverage_worker.py]), the stale
    recovery and the legacy heartbeat of [workers/base.py], the operator's retry
    and cancellation ([routers/jobs.py]), the re-enqueued policy stage
    ([services/resolution/deferred_reconciler.py]), the proxy flag mirrored from
    an artifact ([db/queue/artifacts.py]) and the resumed effects jobs
    ([services/effects/balance_dependencies.py]).

    As in [JobQueue], a function is one transaction.  [now] is the database's
    [NOW()], [clock] the worker's own [datetime.now]. *)

From stdpp Require Import base gmap sets list strings sorting.
From Stdlib Require Import String Ascii ZArith Lia.
From S2P Require Import Prelude Chains JobQueue.

Local Open Scope string_scope.
Local Open Scope Z_scope.

(** ** Readiness-gated claims *)

(** The two stages with a claim of their own. *)
Variant custom_stage := SelectionStage | CoverageStage.

Definition job_stage (cs : custom_stage) : JobStage := match cs with SelectionStage => selection | CoverageStage => coverage end.

Definition STUCK_SELECTION_TIMEOUT : Z := 1800.
Definition STUCK_COVERAGE_TIMEOUT : Z := 3600.

(** What the workload census takes for the selection timeout. *)
Definition CENSUS_SELECTION_TIMEOUT : Z := 3600.

(** The earliest [updated_at] first. *)
Fixpoint least_updated (rows : list (positive * Job)) : option (positive * Job) :=
  match rows with
  | [] => None
  | (id, j) :: rows =>
      match least_updated rows with
      | Some (id', j') => if (updated_at j' <? updated_at j)%Z then Some (id', j') else Some (id, j)
      | None => Some (id, j)
      end
  end.

Section CustomClaims.
(** The text of a primary key, and whether the audits of a protocol have settled
    ([audit_reports]). *)
Variable id_text : positive -> string.
Variable audits_settled : Z -> bool.

(** No sibling of the cascade is still crawling. *)
Definition SELECTION_READY (d : db) (id : positive) : bool :=
  negb (existsb (fun row => bool_decide (stage row.2 ∈ [dapp_crawl; defillama_scan]) &&
                            bool_decide (astext (request row.2) "root_job_id" = Some (id_text id)) &&
                            bool_decide (status row.2 ∈ [queued; processing])) (map_to_list (jobs d))).

(** A job without a protocol waits for no audit. *)
Definition COVERAGE_READY (j : Job) : bool := match protocol_id j with Some p => audits_settled p | None => true end.

(** [stuck] is the timeout of the fallback, [None] for the ready claim. *)
Definition custom_claim_statement (cs : custom_stage) (stuck : option Z) (locked : gset positive) (now : Z) (d : db) :
    option (positive * Job) :=
  let predicate (id : positive) (j : Job) :=
    match stuck, cs with
    | Some timeout, _ => (updated_at j <? now - timeout * SECOND)%Z
    | None, SelectionStage => SELECTION_READY d id
    | None, CoverageStage => COVERAGE_READY j
    end in
  least_updated (filter (fun row => bool_decide (stage row.2 = job_stage cs) && bool_decide (status row.2 = queued) &&
                                    predicate row.1 row.2 && bool_decide (row.1 ∉ locked) = true) (map_to_list (jobs d))).

(** The lease of [claim_job], mirrored. *)
Definition finalize_claim (boot : option positive) (worker : string) (token : positive) (now clock : Z) (id : positive)
    (j : Job) (d : db) : (positive * Job) * db :=
  let d := note_claim boot clock d in
  let j := set_status processing (set_worker_id (Some worker) (set_lease_id (Some token) j)) in
  let j := set_updated_at now (set_lease_expires_at (Some (now + DEFAULT_JOB_LEASE_TTL_S * SECOND)) j) in
  ((id, j), put_job id j d).

(** [_claim_ready_job] and [_claim_next_job], or [_claim_stuck_job]. *)
Definition custom_claim (boot : option positive) (cs : custom_stage) (stuck : option Z) (worker : string) (token : positive)
    (locked : gset positive) (now clock : Z) (d : db) : queue_error + (option (positive * Job) * db) :=
  allowed ← claim_allowed boot d;
  if negb allowed then inr (None, d)
  else match custom_claim_statement cs stuck locked now d with
       | None => inr (None, d)
       | Some (id, j) => let (row, d) := finalize_claim boot worker token now clock id j d in inr (Some row, d)
       end.

(** [_claim_job] of both workers: ready first, stuck only when nothing is. *)
Definition custom_claim_job (boot : option positive) (cs : custom_stage) (worker : string) (token : positive)
    (locked : gset positive) (now clock : Z) (d : db) : queue_error + (option (positive * Job) * db) :=
  r ← custom_claim boot cs None worker token locked now clock d;
  match r with
  | (Some row, d) => inr (Some row, d)
  | (None, d) =>
      custom_claim boot cs (Some match cs with SelectionStage => STUCK_SELECTION_TIMEOUT | CoverageStage => STUCK_COVERAGE_TIMEOUT end)
        worker token locked now clock d
  end.
End CustomClaims.

(** ** Stale recovery ([workers/base.py]) *)

Definition STALE_JOB_TIMEOUT : Z := 600.

(** Read by [updated_at] alone: the lease is neither looked at nor cleared. *)
Definition is_stale (target_stage : JobStage) (clock : Z) (j : Job) : bool :=
  bool_decide (stage j = target_stage) && bool_decide (status j = processing) &&
  (updated_at j <? clock - STALE_JOB_TIMEOUT * SECOND)%Z.

Definition recover_stale_job (now : Z) (j : Job) : Job :=
  flush now j (set_detail (Some "Re-queued after stale processing timeout") (set_worker_id None (set_status queued j))).

Definition recover_stale_jobs (target_stage : JobStage) (now clock : Z) (d : db) : db :=
  set_jobs ((fun j => if is_stale target_stage clock j then recover_stale_job now j else j) <$> jobs d) d.

(** The heartbeat of a worker whose claim has no lease. *)
Definition legacy_heartbeat (id : positive) (clock : Z) (d : db) : db :=
  match jobs d !! id with Some j => put_job id (set_updated_at clock j) d | None => d end.

(** ** Operators ([routers/jobs.py]) *)

Inductive http_error := NotFound | Conflict.

(** The row of [retry_job]; the lease columns are left as they are. *)
Definition retried (now : Z) (j : Job) : Job :=
  flush now j (set_error None (set_worker_id None (set_detail (Some "Manual retry requested by operator")
    (set_last_failure_kind None (set_next_attempt_at None (set_retry_count 0 (set_status queued j))))))).

Definition retry_job (id : positive) (now : Z) (d : db) : http_error + db :=
  match jobs d !! id with
  | None => inl NotFound
  | Some j => if decide (status j = failed_terminal) then inr (put_job id (retried now j) d) else inl Conflict
  end.

(** The edges of a deleted job go with it ([ON DELETE CASCADE]). *)
Definition cancel_queued_company_jobs (known_company : bool) (name : string) (d : db) : http_error + (list positive * db) :=
  if negb known_company then inl NotFound
  else
    let hit (j : Job) := bool_decide (company j = Some name) && bool_decide (status j = queued) in
    let deleted := (filter (fun row => hit row.2 = true) (map_to_list (jobs d))).*1 in
    inr (deleted, set_deps (filter (fun dep => depender_job_id dep ∉ deleted) (deps d))
                    (set_jobs (filter (fun row => hit row.2 = false) (jobs d)) d)).

(** ** The policy stage again ([deferred_reconciler.py]) *)

Definition requeue_policy (text : string) (j : Job) : Job :=
  set_detail (Some text) (set_next_attempt_at None (drop_claim (set_status queued (set_stage policy j)))).

(** The guard of every caller: only a finished job, and none while another job
    of its address is queued or running ([address_active]). *)
Definition reenqueue_policy (id : positive) (text : string) (address_active : bool) (now : Z) (d : db) : db :=
  match jobs d !! id with
  | Some j =>
      if decide (status j = completed /\ stage j = done) then
        if address_active then d else put_job id (flush now j (requeue_policy text j)) d
      else d
  | None => d
  end.

(** ** Other columns *)

Definition set_is_proxy (v : bool) (j : Job) : Job :=
  mkJob (j.(address)) (j.(job_chain_id)) (j.(company)) (j.(job_name)) (j.(status)) (j.(stage))
    (j.(detail)) (j.(request)) (j.(error)) (j.(worker_id)) (j.(trace_id)) (j.(protocol_id)) v
    (j.(retry_count)) (j.(next_attempt_at)) (j.(last_failure_kind)) (j.(lease_id)) (j.(lease_expires_at))
    (j.(source_content_hash)) (j.(analysis_schema_version)) (j.(created_at)) (j.(updated_at)).

(** [is_proxy] is what the flags say of it, for the [contract_flags] artifact
    when it is an object. *)
Definition mirror_contract_flags_to_job (id : positive) (name : string) (flag : option bool) (now : Z) (d : db) : db :=
  match flag with
  | Some v => if String.eqb name "contract_flags"
              then match jobs d !! id with Some j => put_job id (set_updated_at now (set_is_proxy v j)) d | None => d end
              else d
  | None => d
  end.

(** The job that resumes the effects of one function ([balance_dependencies.py]). *)
Definition resume_effects_job (id : positive) (deployment_address : string) (chain : Z) (protocol work_id function_id : Z)
    (now : Z) (d : db) : queue_error + db :=
  info ← lift_chain (chain_by_id chain);
  let request : gmap string pyval :=
    list_to_map [("address", PyStr deployment_address); ("chain", PyStr (ci_name info)); ("protocol_id", PyInt protocol);
                 ("effects_resume_work_id", PyInt work_id); ("effects_function_ids", PyList [PyInt function_id])] in
  inr (put_job id (mkJob (Some deployment_address) (Some chain) None None queued effects
                     (Some "Resuming effects after token collection") (Some request) None None None (Some protocol) false 0
                     None None None None None None now now) d).
