(* ===== verification/JobFleetTheory.v ===== *)
(** * Leases among all the writers of the job table

    The queue as a transition system: every transaction of [JobQueue] and
    [JobFleet] that writes a [jobs] row, in any order, with or without a lease
    token.  [step_rows] says what one transaction may do to each row; the
    invariants follow from it:

    - the shape of every reachable row ([lease_discipline]);
    - a lease that was lost is lost for good ([lost_lease_fenced]);
    - what a live, renewed lease protects from ([lease_excludes_others]), and the
      two kinds of write that go around it ([unfenced_writes]);
    - an expired job is claimable after a sweep ([crashed_job_recovered]). *)

From stdpp Require Import base gmap sets list strings pretty sorting.
From Stdlib Require Import String Ascii ZArith Lia.
From S2P Require Import Prelude Chains JobQueue JobQueueTheory JobFleet.

Local Open Scope string_scope.
Local Open Scope Z_scope.

(** ** Transactions *)

(** The database and the lease tokens minted so far ([uuid4] repeats none). *)
Definition system : Type := db * gset positive.

(** A write of columns that say nothing of who runs the job, where and when. *)
Record annotated (now clock : Z) (j j' : Job) : Prop := {
  annotated_status : status j' = status j;
  annotated_stage : stage j' = stage j;
  annotated_worker : worker_id j' = worker_id j;
  annotated_lease : lease_id j' = lease_id j;
  annotated_expiry : lease_expires_at j' = lease_expires_at j;
  annotated_address : address j' = address j;
  annotated_chain : job_chain_id j' = job_chain_id j;
  annotated_time : updated_at j' = updated_at j \/ updated_at j' = now \/ updated_at j' = clock;
}.

(** [step now clock actor s s']: one transaction at database time [now] by a
    session whose own clock reads [clock].  [actor] is the lease token given by
    the caller of a lease-checked write, [None] on the paths that give none. *)
Inductive step (now clock : Z) (actor : option positive) : system -> system -> Prop :=
  | step_create id trace ft r st j d d' m :
      jobs d !! id = None -> create_job id trace ft now r st d = inr (j, d') -> step now clock actor (d, m) (d', m)
  | step_resume id addr chain protocol work fn d d' m :
      jobs d !! id = None -> resume_effects_job id addr chain protocol work fn now d = inr d' -> step now clock actor (d, m) (d', m)
  | step_claim boot target worker ttl token locked r d d' m :
      target <> done -> token ∉ m ->
      claim_job boot target worker ttl token locked now clock d = inr (r, d') ->
      step now clock actor (d, m) (d', {[token]} ∪ m)
  | step_custom_claim id_text settled boot cs stuck worker token locked r d d' m :
      token ∉ m -> custom_claim id_text settled boot cs stuck worker token locked now clock d = inr (r, d') ->
      step now clock actor (d, m) (d', {[token]} ∪ m)
  | step_heartbeat id l ttl d d' m :
      actor = Some l -> heartbeat_job id l ttl now d = inr d' -> step now clock actor (d, m) (d', m)
  | step_legacy_heartbeat id d m : step now clock actor (d, m) (legacy_heartbeat id clock d, m)
  | step_detail id text d m : step now clock actor (d, m) (update_job_detail id text now d, m)
  | step_mirror id name flag d m : step now clock actor (d, m) (mirror_contract_flags_to_job id name flag now d, m)
  | step_label id j j' d m :
      jobs d !! id = Some j -> annotated now clock j j' -> step now clock actor (d, m) (put_job id j' d, m)
  | step_merge id patch defaults unless_present d m :
      step now clock actor (d, m) ((merge_job_request id patch defaults unless_present now d).2, m)
  | step_advance id next_stage text d d' m :
      advance_job id next_stage text actor now d = inr d' -> step now clock actor (d, m) (d', m)
  | step_complete id text d d' m :
      complete_job id text actor now d = inr d' -> step now clock actor (d, m) (d', m)
  | step_defer id text delay d d' m :
      defer_job id text delay actor now d = inr d' -> step now clock actor (d, m) (d', m)
  | step_requeue id err retries next_attempt d d' m :
      requeue_job id err retries next_attempt actor now d = inr d' -> step now clock actor (d, m) (d', m)
  | step_terminal id err kind retries d d' m :
      fail_job_terminal id err kind retries actor now d = inr d' -> step now clock actor (d, m) (d', m)
  | step_fail id err d m : actor = None -> step now clock actor (d, m) (fail_job id err now d, m)
  | step_convert id proxy_addr proxy_type rel parent d m :
      step now clock actor (d, m) ((convert_impl_job_to_proxy_context id proxy_addr proxy_type rel parent now d).2, m)
  | step_reclaim timeout locked d m :
      step now clock actor (d, m) ((reclaim_stuck_jobs timeout locked now d).2, m)
  | step_recover target d m : step now clock actor (d, m) (recover_stale_jobs target now clock d, m)
  | step_policy id text active d m : step now clock actor (d, m) (reenqueue_policy id text active now d, m)
  | step_retry id d d' m : retry_job id now d = inr d' -> step now clock actor (d, m) (d', m)
  | step_cancel known name ids d d' m :
      cancel_queued_company_jobs known name d = inr (ids, d') -> step now clock actor (d, m) (d', m).

Inductive reachable : system -> Prop :=
  | reach_init d : jobs d = ∅ -> reachable (d, ∅)
  | reach_step now clock actor s s' : reachable s -> step now clock actor s s' -> reachable s'.

(** ** What a transaction does to one row *)

(** The row keeps or drops its lease, and stays consistent. *)
Definition settles (j j' : Job) : Prop := row_ok j' /\ (lease_id j' = None \/ lease_id j' = lease_id j).

(** [fresh] is the token the transaction mints for this row. *)
Inductive row_event (now clock : Z) (actor fresh : option positive) : option Job -> option Job -> Prop :=
  | row_untouched o : row_event now clock actor fresh o o
  | row_created j : row_ok j -> lease_id j = None -> row_event now clock actor fresh None (Some j)
  | row_deleted j : status j = queued -> row_event now clock actor fresh (Some j) None
  | row_claimed j worker token ttl :
      fresh = Some token -> status j = queued -> stage j <> done ->
      row_event now clock actor fresh (Some j) (Some (claimed worker token ttl now j))
  | row_renewed j l t :
      actor = Some l -> lease_id j = Some l ->
      row_event now clock actor fresh (Some j) (Some (set_updated_at now (set_lease_expires_at (Some t) j)))
  | row_annotated j j' : annotated now clock j j' -> row_event now clock actor fresh (Some j) (Some j')
  | row_left j j' : lease_ok actor j = true -> settles j j' -> row_event now clock actor fresh (Some j) (Some j')
  | row_swept j :
      status j = processing -> (forall t, lease_expires_at j = Some t -> t < now) ->
      row_event now clock actor fresh (Some j) (Some (reclaimed j))
  | row_recovered j target :
      is_stale target clock j = true -> row_event now clock actor fresh (Some j) (Some (recover_stale_job now j))
  | row_restarted j j' : status j <> processing -> settles j j' -> row_event now clock actor fresh (Some j) (Some j').

Create HintDb fleet.
#[local] Hint Constructors row_event : fleet.

(** The token a transaction mints at a row. *)
Definition minted_at (fresh : option (positive * positive)) (id : positive) : option positive :=
  match fresh with Some (i, t) => if decide (i = id) then Some t else None | None => None end.

Definition rows_ok (d : db) : Prop := forall id j, jobs d !! id = Some j -> row_ok j.

(** Every row changes by one event, and at most one mints a token. *)
Definition rows_move (now clock : Z) (actor : option positive) (fresh : option (positive * positive)) (d d' : db) : Prop :=
  forall id, row_event now clock actor (minted_at fresh id) (jobs d !! id) (jobs d' !! id).

Lemma rows_same now clock actor d d' : jobs d' = jobs d -> rows_move now clock actor None d d'.
Proof. intros E id. rewrite E. constructor. Qed.

(** A transaction that writes one row. *)
Lemma rows_one now clock actor fresh d d' id o' :
  (forall i t, fresh = Some (i, t) -> i = id) -> jobs d' = partial_alter (fun _ => o') id (jobs d) ->
  row_event now clock actor (minted_at fresh id) (jobs d !! id) o' -> rows_move now clock actor fresh d d'.
Proof.
  intros Hf E H i. rewrite E. destruct (decide (i = id)) as [->|Hne]; [by rewrite lookup_partial_alter_eq|].
  rewrite lookup_partial_alter_ne by done. destruct fresh as [[x t]|]; [|constructor]. constructor.
Qed.

Lemma rows_put now clock actor d d' id j' :
  jobs d' = <[id := j']> (jobs d) -> row_event now clock actor None (jobs d !! id) (Some j') ->
  rows_move now clock actor None d d'.
Proof. intros E H. eapply (rows_one _ _ _ _ _ _ id); [done|exact E|exact H]. Qed.

Lemma rows_guarded now clock actor id f k d d' :
  row_step f -> rows_ok d -> guarded id actor k d = inr d' -> (forall j, jobs (k j) = <[id := f j]> (jobs d)) ->
  rows_move now clock actor None d d'.
Proof.
  intros Hf Hok [[_ ->]|(j & Hj & Hl & ->)]%guarded_inr Hk; [by apply rows_same|].
  eapply rows_put; [apply Hk|]. rewrite Hj. apply row_left; [done|]. by apply Hf, (Hok id).
Qed.

Ltac annotate := constructor; cbn; auto.

Lemma detail_annotated text now clock j : annotated now clock j (flush now j (set_detail (Some text) j)).
Proof. flush_case; annotate. Qed.

Lemma merge_annotated defaults patch now clock j : annotated now clock j (merge_row defaults patch now j).
Proof. annotate. Qed.

Lemma annotated_trans now clock j j1 j2 : annotated now clock j j1 -> annotated now clock j1 j2 -> annotated now clock j j2.
Proof. intros [] []. constructor; try congruence. intuition congruence. Qed.

(** Where a stage runs, it reads its context or has not run past static. *)
Lemma context_stage st : st <> done -> st ∉ CONTEXT_READING_STAGES -> st ∉ RAN_PAST_STATIC_STAGES.
Proof.
  intros Hd Hc Hr. destruct st; try done; try (apply Hc; unfold CONTEXT_READING_STAGES; set_solver);
    unfold RAN_PAST_STATIC_STAGES in Hr; set_solver.
Qed.

(** A conversion annotates a running row and restarts one that is not. *)
Lemma convert_event pa pt rel parent now clock actor j :
  row_ok j -> row_event now clock actor None (Some j) (Some (converted pa pt rel parent now j)).
Proof.
  intros Hok. destruct (decide (status j = processing)) as [Hs|Hs].
  - apply row_annotated. destruct Hok as (Hp & _). destruct (Hp Hs) as (_ & _ & Hd). unfold converted.
    rewrite Hs, (bool_decide_eq_true_2 (processing = processing)), (bool_decide_eq_false_2 (processing = completed)) by done.
    cbn [andb orb]. case_bool_decide as Hc; [annotate|]. rewrite bool_decide_eq_false_2 by (by apply context_stage). annotate.
  - apply row_restarted; [done|]. by apply converted_step.
Qed.

Lemma claimed_ok worker token ttl now j : row_ok j -> stage j <> done -> row_ok (claimed worker token ttl now j).
Proof. intros Hj Hs. unfold row_ok in *. cbn. split_and!; try done; naive_solver. Qed.

Lemma recovered_fields now j :
  let j' := recover_stale_job now j in
  status j' = queued /\ worker_id j' = None /\ stage j' = stage j /\ lease_id j' = lease_id j /\
  lease_expires_at j' = lease_expires_at j /\ address j' = address j /\ job_chain_id j' = job_chain_id j /\
  next_attempt_at j' = next_attempt_at j /\ request j' = request j.
Proof. cbv zeta. unfold recover_stale_job. flush_case; done. Qed.

Lemma retried_settles now j : row_ok j -> status j = failed_terminal -> settles j (retried now j).
Proof. intros Hj Hs. unfold settles, retried. flush_case; solve_row. Qed.

Lemma policy_settles now text j : row_ok j -> settles j (flush now j (requeue_policy text j)).
Proof. intros Hj. unfold settles. flush_case; solve_row. Qed.

Lemma failed_settles err now j : row_ok j ->
  settles j (flush now j (set_worker_id None (set_detail (Some "Failed") (set_error (Some err) (set_status failed j))))).
Proof. intros Hj. unfold settles. flush_case; solve_row. Qed.

(** The claims of the three kinds write the same row. *)
Lemma least_updated_elem rows row : least_updated rows = Some row -> row ∈ rows.
Proof.
  revert row. induction rows as [|[id j] rows IH]; intros row; cbn; [done|].
  destruct (least_updated rows) as [[id' j']|]; [|intros [= <-]; by left].
  destruct (_ <? _); intros [= <-]; [right; by apply IH|by left].
Qed.

Lemma custom_claim_cases id_text settled boot cs stuck worker token locked now clock d r d' :
  custom_claim id_text settled boot cs stuck worker token locked now clock d = inr (r, d') ->
  (r = None /\ d' = d) \/
  exists id j, r = Some (id, claimed worker token DEFAULT_JOB_LEASE_TTL_S now j) /\ jobs d !! id = Some j /\
    status j = queued /\ stage j = job_stage cs /\ jobs d' = <[id := claimed worker token DEFAULT_JOB_LEASE_TTL_S now j]> (jobs d).
Proof.
  unfold custom_claim. destruct (claim_allowed boot d) as [e|[]]; cbn [mbind tx_bind negb]; [done| |intros [= <- <-]; by left].
  destruct (custom_claim_statement _ _ _ _ _ _ _) as [[id j]|] eqn:E; [|intros [= <- <-]; by left].
  intros [= <- <-]. right. exists id, j. unfold custom_claim_statement in E.
  apply least_updated_elem, list_elem_of_filter in E as [Hp Hm]. apply elem_of_map_to_list in Hm. cbn in Hp.
  rewrite !andb_true_iff, !bool_decide_eq_true in Hp. destruct Hp as [[[Hst Hs] _] _].
  split_and!; try done. by rewrite jobs_put, jobs_note_claim.
Qed.

Lemma rows_claim now clock actor d d' id j worker token ttl :
  jobs d !! id = Some j -> status j = queued -> stage j <> done -> jobs d' = <[id := claimed worker token ttl now j]> (jobs d) ->
  rows_move now clock actor (Some (id, token)) d d'.
Proof.
  intros Hj Hs Hd E. eapply rows_one; [by intros i t [= <- _]|exact E|]. rewrite Hj. eapply row_claimed; [|done|done].
  cbn. by rewrite decide_True.
Qed.

Lemma resume_created id addr chain protocol work fn now d d' :
  resume_effects_job id addr chain protocol work fn now d = inr d' ->
  exists j, row_ok j /\ lease_id j = None /\ d' = put_job id j d.
Proof.
  unfold resume_effects_job. destruct (chain_by_id chain) as [info|e] eqn:Ec; cbn; [|done]. intros [= <-].
  eexists. split_and!; [| |done]; [|done]. unfold row_ok, released. cbn. split_and!; try done; try naive_solver.
Qed.

Lemma created_ok id trace ft now r st d :
  exists j, create_job id trace ft now r st d = inr (j, put_job id j d) /\ row_ok j /\ lease_id j = None.
Proof. destruct (create_job_ok id trace ft now r st d) as (j & H & Hr & _ & _ & Hl). eauto. Qed.

(** The sweeps, over every row. *)
Lemma rows_reclaim now clock actor timeout locked d : rows_move now clock actor None d (reclaim_stuck_jobs timeout locked now d).2.
Proof.
  intros i. rewrite jobs_reclaim. destruct (jobs d !! i) as [j|] eqn:E; cbn [fmap option_fmap option_map]; [|constructor].
  destruct (stuck timeout now j && _) eqn:Eh; [|constructor]. apply andb_true_iff in Eh as [Eh _]. unfold stuck in Eh.
  apply andb_true_iff in Eh as [Hs%bool_decide_eq_true Ht]. apply row_swept; [done|]. intros t He. rewrite He in Ht. by apply Z.ltb_lt in Ht.
Qed.

Lemma jobs_recover target now clock d id :
  jobs (recover_stale_jobs target now clock d) !! id =
    (fun j => if is_stale target clock j then recover_stale_job now j else j) <$> jobs d !! id.
Proof. cbn. apply lookup_fmap. Qed.

Lemma rows_recover now clock actor target d : rows_move now clock actor None d (recover_stale_jobs target now clock d).
Proof.
  intros i. rewrite jobs_recover. destruct (jobs d !! i) as [j|]; cbn; [|constructor]. destruct (is_stale target clock j) eqn:Es; [|constructor].
  by eapply row_recovered.
Qed.

Lemma rows_cancel now clock actor known name ids d d' :
  cancel_queued_company_jobs known name d = inr (ids, d') -> rows_move now clock actor None d d'.
Proof.
  unfold cancel_queued_company_jobs. destruct (negb known); [done|]. intros [= _ <-] i. cbn. destruct (jobs d !! i) as [j|] eqn:E.
  - destruct (bool_decide (company j = Some name) && bool_decide (status j = queued)) eqn:Eh.
    + rewrite map_lookup_filter_None_2; [|right; intros x Hx; rewrite E in Hx; injection Hx as <-; cbn; congruence].
      apply row_deleted. apply andb_true_iff in Eh as [_ Hq%bool_decide_eq_true]. done.
    + rewrite (map_lookup_filter_Some_2 _ _ _ _ E) by done. constructor.
  - rewrite map_lookup_filter_None_2 by auto. constructor.
Qed.

(** The shape of a write by primary key. *)
Lemma rows_by_id now clock actor d id (write : Job -> db) :
  (forall j, jobs d !! id = Some j -> rows_move now clock actor None d (write j)) ->
  rows_move now clock actor None d (match jobs d !! id with Some j => write j | None => d end).
Proof. intros H. destruct (jobs d !! id); [by apply H|by apply rows_same]. Qed.

Lemma rows_annotate now clock actor d id j j' :
  jobs d !! id = Some j -> annotated now clock j j' -> rows_move now clock actor None d (put_job id j' d).
Proof. intros Hj Ha. eapply rows_put; [done|]. rewrite Hj. by apply row_annotated. Qed.

Lemma rows_restart now clock actor d id j j' :
  jobs d !! id = Some j -> status j <> processing -> settles j j' -> rows_move now clock actor None d (put_job id j' d).
Proof. intros Hj Hs H. eapply rows_put; [done|]. rewrite Hj. by apply row_restarted. Qed.

Lemma rows_create now clock actor d id j :
  jobs d !! id = None -> row_ok j -> lease_id j = None -> rows_move now clock actor None d (put_job id j d).
Proof. intros Hn Hr Hl. eapply rows_put; [done|]. rewrite Hn. by apply row_created. Qed.

(** A claim mints its token at the row it takes, if any. *)
Lemma rows_claims now clock actor d d' (m : gset positive) token (r : option (positive * Job)) :
  token ∉ m ->
  (r = None /\ d' = d) \/ (exists id j worker ttl, jobs d !! id = Some j /\ status j = queued /\ stage j <> done /\
     jobs d' = <[id := claimed worker token ttl now j]> (jobs d)) ->
  exists fresh, rows_move now clock actor fresh d d' /\ forall i t, fresh = Some (i, t) -> t ∉ m /\ t ∈ {[token]} ∪ m.
Proof.
  intros Hf [[_ ->]|(id & j & worker & ttl & Hj & Hq & Hs & Hd)].
  - exists None. split; [by apply rows_same|done].
  - exists (Some (id, token)). split; [by eapply rows_claim|]. intros i t [= _ <-]. set_solver.
Qed.

(** ** Every transaction, row by row *)

Lemma step_rows now clock actor s s' : step now clock actor s s' -> rows_ok s.1 ->
  exists fresh, rows_move now clock actor fresh s.1 s'.1 /\ s.2 ⊆ s'.2 /\ forall i t, fresh = Some (i, t) -> t ∉ s.2 /\ t ∈ s'.2.
Proof.
  intros Hstep Hok.
  enough (exists fresh, rows_move now clock actor fresh s.1 s'.1 /\ forall i t, fresh = Some (i, t) -> t ∉ s.2 /\ t ∈ s'.2) as (fresh & H1 & H2).
  { exists fresh. split_and!; [done| |done]. destruct Hstep; cbn; set_solver. }
  destruct Hstep as
    [id trace ft r st j d d' m Hn Hc|id addr ch pr wk fn d d' m Hn Hc|boot target worker ttl token locked r d d' m Ht Hf Hc
    |tx se boot cs stk worker token locked r d d' m Hf Hc|id l ttl d d' m Ha Hc|id d m|id text d m|id name flag d m|id j j' d m Hj Han
    |id patch defaults up d m|id ns text d d' m Hc|id text d d' m Hc|id text delay d d' m Hc|id err retries na d d' m Hc
    |id err kind retries d d' m Hc|id err d m Ha|id pa pt rel parent d m|timeout locked d m|target d m|id text active d m|id d d' m Hc
    |known name ids d d' m Hc]; cbn [fst snd] in *;
    match goal with _ : _ ∉ _ |- _ => idtac | _ => exists None; split; [|done] end.
  - destruct (created_ok id trace ft now r st d) as (j' & E & Hr & Hl). rewrite E in Hc. injection Hc as <- <-. by apply rows_create.
  - destruct (resume_created _ _ _ _ _ _ _ _ _ Hc) as (j & Hr & Hl & ->). by apply rows_create.
  - eapply rows_claims; [done|]. destruct (claim_job_cases _ _ _ _ _ _ _ _ _ _ _ Hc) as [?|(id & j & _ & Hj & Hcl & Hd & _)]; [by left|].
    right. apply claimable_spec in Hcl as (<- & Hq & _). by exists id, j, worker, ttl.
  - eapply rows_claims; [done|]. destruct (custom_claim_cases _ _ _ _ _ _ _ _ _ _ _ _ _ Hc) as [?|(id & j & _ & Hj & Hq & Hst & Hd)]; [by left|].
    right. exists id, j, worker, DEFAULT_JOB_LEASE_TTL_S. rewrite Hst. by destruct cs.
  - unfold heartbeat_job in Hc. destruct (jobs d !! id) as [j|] eqn:E; [|done]. case_decide as Hl; [|done]. injection Hc as <-.
    eapply rows_put; [done|]. rewrite E. by eapply row_renewed.
  - apply rows_by_id. intros j Hj. eapply rows_annotate; [done|annotate].
  - apply rows_by_id. intros j Hj. eapply rows_annotate; [done|apply detail_annotated].
  - unfold mirror_contract_flags_to_job. destruct flag as [v|]; [|by apply rows_same]. destruct (String.eqb _ _); [|by apply rows_same].
    apply rows_by_id. intros j Hj. eapply rows_annotate; [done|annotate].
  - by eapply rows_annotate.
  - destruct (merge_job_request_row id patch defaults up now d) as [->|(j & Hj & Hd)]; [by apply rows_same|].
    eapply rows_put; [exact Hd|]. rewrite Hj. apply row_annotated, merge_annotated.
  - rewrite advance_job_guarded in Hc. by eapply (rows_guarded _ _ _ _ _ _ _ _ (unless_flagged_step now _ (advanced_step ns text now)) Hok Hc).
  - rewrite complete_job_guarded in Hc. eapply (rows_guarded _ _ _ _ _ _ _ _ (unless_flagged_step now _ (completed_step text now)) Hok Hc).
    intros j. by rewrite jobs_notify.
  - rewrite defer_job_guarded in Hc. by eapply (rows_guarded _ _ _ _ _ _ _ _ (deferred_step text delay now) Hok Hc).
  - rewrite requeue_job_guarded in Hc. by eapply (rows_guarded _ _ _ _ _ _ _ _ (unless_flagged_step now _ (requeued_step err retries na now)) Hok Hc).
  - rewrite fail_job_terminal_guarded in Hc. by eapply (rows_guarded _ _ _ _ _ _ _ _ (terminal_step err kind retries now) Hok Hc).
  - apply rows_by_id. intros j Hj. eapply rows_put; [done|]. rewrite Hj, Ha. apply row_left; [done|]. by apply failed_settles, (Hok id).
  - rewrite convert_row. destruct (jobs d !! id) as [j|] eqn:E; [|by apply rows_same]. case_bool_decide; [by apply rows_same|].
    eapply rows_put; [done|]. rewrite E. by apply convert_event, (Hok id).
  - apply rows_reclaim.
  - apply rows_recover.
  - apply rows_by_id. intros j Hj. case_decide as Hg; [|by apply rows_same]. destruct active; [by apply rows_same|].
    eapply rows_restart; [done|naive_solver congruence|by apply policy_settles, (Hok id)].
  - unfold retry_job in Hc. destruct (jobs d !! id) as [j|] eqn:E; [|done]. case_decide as Hs; [|done]. injection Hc as <-.
    eapply rows_restart; [done|congruence|]. apply retried_settles; [by apply (Hok id)|done].
  - by eapply rows_cancel.
Qed.

(** ** The lease discipline *)

Definition leases_ok (s : system) : Prop :=
  rows_ok s.1 /\ (forall id j l, jobs s.1 !! id = Some j -> lease_id j = Some l -> l ∈ s.2) /\
  (forall id id' j j' l, jobs s.1 !! id = Some j -> jobs s.1 !! id' = Some j' -> lease_id j = Some l -> lease_id j' = Some l -> id = id').

(** A row after an event is consistent, and its lease was its own before or is
    the minted one. *)
Lemma event_row now clock actor fresh o j' : row_event now clock actor fresh o (Some j') -> (forall j, o = Some j -> row_ok j) ->
  row_ok j' /\ forall l, lease_id j' = Some l -> fresh = Some l \/ exists j, o = Some j /\ lease_id j = Some l.
Proof.
  intros H Hok. inversion H as [|? Hr Hl| |j wk tk ttl Hf Hs Hd|j l t Ha Hl|j ? Han|j ? Hl [Hr Hk]|j Hs He|j target Hs|j ? Hs [Hr Hk]]; subst.
  - split; [by apply Hok|]. eauto.
  - split; [done|]. intros l. by rewrite Hl.
  - split; [by apply claimed_ok; [apply Hok|]|]. cbn. by left.
  - specialize (Hok j eq_refl). split; [|eauto]. destruct Hok as (Hp & Hw & Hf & Hle & Ha'). unfold row_ok. cbn. split_and!; try done.
    intros Hst. destruct (Hf Hst). congruence.
  - specialize (Hok j eq_refl). destruct Han as [A1 A2 A3 A4 A5 A6 A7 _]. split; [|rewrite A4; eauto].
    unfold row_ok, released in *. by rewrite A1, A2, A3, A4, A5, A6, A7.
  - split; [done|]. intros l El. right. exists j. split; [done|]. destruct Hk; congruence.
  - specialize (Hok j eq_refl). split; [by apply reclaimed_step|done].
  - specialize (Hok j eq_refl). pose proof (recovered_fields now j) as (F1 & F2 & F3 & F4 & F5 & F6 & F7 & _).
    split; [|rewrite F4; eauto]. destruct Hok as (_ & _ & _ & ? & ?).
    unfold row_ok. rewrite F1, F2, F4, F5, F6, F7. split_and!; try done. by intros [?|?].
  - split; [done|]. intros l El. right. exists j. split; [done|]. destruct Hk; congruence.
Qed.

Lemma step_leases_ok now clock actor s s' : step now clock actor s s' -> leases_ok s -> leases_ok s'.
Proof.
  intros Hstep (Hok & Hm & Hu). destruct (step_rows _ _ _ _ _ Hstep Hok) as (fresh & Hrows & Hsub & Hfresh).
  assert (forall id j', jobs s'.1 !! id = Some j' -> row_ok j' /\ forall l, lease_id j' = Some l ->
    fresh = Some (id, l) \/ exists j, jobs s.1 !! id = Some j /\ lease_id j = Some l) as H.
  { intros id j' Hj'. specialize (Hrows id). rewrite Hj' in Hrows. destruct (event_row _ _ _ _ _ _ Hrows) as [Hr Hl]; [intros; by apply (Hok id)|].
    split; [done|]. intros l El. destruct (Hl l El) as [Hf|?]; [left|by right]. unfold minted_at in Hf. destruct fresh as [[i t]|]; [|done].
    case_decide; [|done]. congruence. }
  split_and!.
  - intros id j Hj. by apply (H id).
  - intros id j l Hj El. destruct (proj2 (H id j Hj) l El) as [Hf|(j0 & Hj0 & El0)]; [by apply (Hfresh id)|]. by eapply Hsub, Hm.
  - intros id id' j j' l Hj Hj' El El'.
    destruct (proj2 (H id j Hj) l El) as [Hf|(j0 & Hj0 & El0)], (proj2 (H id' j' Hj') l El') as [Hf'|(j1 & Hj1 & El1)].
    + congruence.
    + destruct (Hfresh _ _ Hf) as [Hn _]. by destruct Hn; eapply Hm.
    + destruct (Hfresh _ _ Hf') as [Hn _]. by destruct Hn; eapply Hm.
    + by eapply Hu.
Qed.

Lemma reachable_leases_ok s : reachable s -> leases_ok s.
Proof.
  induction 1 as [d Hd|now clock actor s s' _ IH Hstep]; [|by eapply step_leases_ok].
  unfold leases_ok, rows_ok. cbn. rewrite Hd. split_and!; intros *; by rewrite lookup_empty.
Qed.

(** C39: the lease discipline holds in every state the job table can reach by any
    order of its transactions (creations, the three kinds of claim, heartbeats,
    exits with or without a token, merges, conversions, sweeps, stale recoveries,
    re-enqueued policies, operator retries and cancellations, label writes).  A
    running job has an owner, a lease, an expiry and a stage that runs; a job
    that is not running has no owner; a completed or terminally failed one has no
    lease either (a queued or failed one may keep the token of the claim it was
    taken from); lease and expiry come together; two jobs never share a token;
    every token was minted by a claim; an addressed job names a registered
    chain. *)
Theorem lease_discipline s id j :
  reachable s -> jobs s.1 !! id = Some j ->
  (status j = processing ->
     is_Some (lease_id j) /\ is_Some (worker_id j) /\ is_Some (lease_expires_at j) /\ stage j <> done) /\
  (status j <> processing -> worker_id j = None) /\
  (status j = completed \/ status j = failed_terminal -> lease_id j = None /\ lease_expires_at j = None) /\
  (is_Some (lease_id j) <-> is_Some (lease_expires_at j)) /\
  (is_Some (address j) -> exists z info, job_chain_id j = Some z /\ chain_by_id z = Ok info) /\
  (forall l, lease_id j = Some l -> l ∈ s.2 /\
     forall id' j', jobs s.1 !! id' = Some j' -> lease_id j' = Some l -> id' = id).
Proof.
  intros Hr Hj. destruct (reachable_leases_ok _ Hr) as (Hok & Hm & Hu). destruct (Hok _ _ Hj) as (Hp & Hw & Hf & Hle & Ha).
  split_and!; [|done| |done|done|].
  - intros Hs. destruct (Hp Hs) as (? & ? & ?). split_and!; try done. by apply Hle.
  - intros Hs. by destruct (Hf Hs) as (? & _ & ?).
  - intros l El. split; [by eapply Hm|]. intros id' j' Hj' El'. by eapply Hu.
Qed.

(** ** A lost lease *)

(** Any transaction, by anybody, at any time. *)
Definition any_step (s s' : system) : Prop := exists now clock actor, step now clock actor s s'.

(** A minted token the row does not carry, or no row. *)
Definition lost (id l : positive) (s : system) : Prop :=
  leases_ok s /\ l ∈ s.2 /\ forall j, jobs s.1 !! id = Some j -> lease_id j <> Some l.

Lemma lost_step id l s s' : any_step s s' -> lost id l s -> lost id l s'.
Proof.
  intros (now & clock & actor & Hstep) (Hok & Hl & Hno). split; [by eapply step_leases_ok|].
  destruct (step_rows _ _ _ _ _ Hstep (proj1 Hok)) as (fresh & Hrows & Hsub & Hfresh). split; [by apply Hsub|].
  intros j' Hj' El. specialize (Hrows id). rewrite Hj' in Hrows.
  destruct (event_row _ _ _ _ _ _ Hrows) as [_ Hk]; [intros; by apply (proj1 Hok id)|]. destruct (Hk l El) as [Hf|(j & Hj & El0)].
  - unfold minted_at in Hf. destruct fresh as [[i t]|]; [|done]. case_decide; [|done]. injection Hf as ->. by destruct (Hfresh _ _ eq_refl).
  - by eapply Hno.
Qed.

Lemma lost_steps id l s s' : rtc any_step s s' -> lost id l s -> lost id l s'.
Proof. induction 1 as [|x y z Hs _ IH]; [done|]. intros H. apply IH. by eapply lost_step. Qed.

(** What a lost lease can still do to its row: nothing.  Each lease-checked write
    raises [LeaseLost], so nothing of its transaction commits; when the row is
    gone the heartbeat raises and the exits commit nothing new. *)
Definition fenced (id l : positive) (d : db) : Prop :=
  forall now, (forall ttl, heartbeat_job id l ttl now d = inl (LeaseLost id)) /\
  match jobs d !! id with
  | Some _ =>
      (forall next_stage text, advance_job id next_stage text (Some l) now d = inl (LeaseLost id)) /\
      (forall text, complete_job id text (Some l) now d = inl (LeaseLost id)) /\
      (forall text delay, defer_job id text delay (Some l) now d = inl (LeaseLost id)) /\
      (forall err n t, requeue_job id err n t (Some l) now d = inl (LeaseLost id)) /\
      (forall err kind n, fail_job_terminal id err kind n (Some l) now d = inl (LeaseLost id))
  | None =>
      (forall next_stage text, advance_job id next_stage text (Some l) now d = inr d) /\
      (forall text, complete_job id text (Some l) now d = inr d) /\
      (forall text delay, defer_job id text delay (Some l) now d = inr d) /\
      (forall err n t, requeue_job id err n t (Some l) now d = inr d) /\
      (forall err kind n, fail_job_terminal id err kind n (Some l) now d = inr d)
  end.

Lemma lost_fenced id l s : lost id l s -> fenced id l s.1.
Proof.
  intros (_ & _ & Hno) now. destruct (jobs s.1 !! id) as [j|] eqn:E.
  - destruct (stale_lease_rejected id l j s.1 now E (Hno j eq_refl)) as (? & ? & ? & ? & ? & ? & _). done.
  - split; [intros; unfold heartbeat_job; by rewrite E|].
    split_and!; intros; rewrite ?advance_job_guarded, ?complete_job_guarded, ?defer_job_guarded, ?requeue_job_guarded,
      ?fail_job_terminal_guarded; unfold guarded; by rewrite E.
Qed.

(** C28: a lost lease is lost for good.  Once the row of a job does not carry a
    token that was minted (it was reclaimed, released, taken over or deleted),
    then after any further transactions by anybody, exits without a token and
    stale recoveries included, the token still opens nothing: the heartbeat and
    the five exits under it raise [LeaseLost], or find no row and change
    nothing. *)
Theorem lost_lease_fenced id l s s' :
  reachable s -> l ∈ s.2 -> (forall j, jobs s.1 !! id = Some j -> lease_id j <> Some l) -> rtc any_step s s' -> fenced id l s'.1.
Proof. intros Hr Hl Hno Hs. eapply lost_fenced, lost_steps; [exact Hs|]. split; [by apply reachable_leases_ok|done]. Qed.

(** ** What a live lease excludes *)

(** The job runs under the lease until [e], in a stage, and was written at [u] or
    later. *)
Definition held (id l : positive) (e u : Z) (st : JobStage) (s : system) : Prop :=
  exists j, jobs s.1 !! id = Some j /\ status j = processing /\ lease_id j = Some l /\
    lease_expires_at j = Some e /\ stage j = st /\ u <= updated_at j.

(** A transaction within the lease's lifetime, and within the stale timeout of
    the time [u], by anybody who gives a token other than this one where the
    transaction checks one. *)
Definition step_by_others (l : positive) (e u : Z) (s s' : system) : Prop :=
  exists now clock l', u <= now <= e /\ u <= clock <= u + STALE_JOB_TIMEOUT * SECOND /\ l' <> l /\ step now clock (Some l') s s'.

Lemma held_step id l e u st s s' : leases_ok s -> held id l e u st s -> step_by_others l e u s s' -> held id l e u st s'.
Proof.
  intros Hok (j & Hj & Hs & Hl & He & Hst & Hu) (now & clock & l' & Hnow & Hclock & Hne & Hstep).
  destruct (step_rows _ _ _ _ _ Hstep (proj1 Hok)) as (fresh & Hrows & _). specialize (Hrows id). rewrite Hj in Hrows. unfold held.
  inversion Hrows as [|? ? ? E|? Hq|? ? ? ? _ Hq|? l0 t Ha Hl0|? j' Han|? j' Hlk _|? _ Hexp|? target Hstale|? j' Hns _]; subst; try congruence.
  - exists j. split_and!; done.
  - exists j'. destruct Han as [A1 A2 A3 A4 A5 A6 A7 A8]. split_and!; try congruence. destruct A8 as [->|[->| ->]]; lia.
  - cbn in Hlk. apply bool_decide_eq_true in Hlk. congruence.
  - specialize (Hexp e He). lia.
  - exfalso. unfold is_stale in Hstale. rewrite !andb_true_iff, Z.ltb_lt in Hstale. lia.
Qed.

(** C7: what a live lease excludes.  Take a job running under a lease that expires
    at [e] and whose row was written at [u] or later (by its claim, or by its last
    heartbeat).  As long as the database's time is between [u] and [e], and every
    worker's clock within the stale timeout of [u], no sequence of transactions
    takes the job away or changes its stage: creations, claims of every kind,
    sweeps, stale recoveries, request merges, proxy-context conversions,
    re-enqueued policies, retries, cancellations, label writes, and exits and
    heartbeats that present another token.  Exits that present no token are not
    among them. *)
Theorem lease_excludes_others id l e u st s s' :
  reachable s -> held id l e u st s -> rtc (step_by_others l e u) s s' -> held id l e u st s'.
Proof.
  intros Hr%reachable_leases_ok H Hs. induction Hs as [|s1 s2 s3 Hstep _ IH]; [done|]. apply IH; [|by eapply held_step].
  destruct Hstep as (now & clock & l' & _ & _ & _ & Hstep). by eapply step_leases_ok.
Qed.

(** What goes around a lease.  However long a running job's lease still has to
    live: an exit that presents no token completes or advances the job all the
    same; and once the row was not written for the stale timeout, a stale
    recovery queues it with the lease still on it, so that another worker can
    claim it while the first one's heartbeat is still accepted. *)
Theorem unfenced_writes id d j l e now clock :
  jobs d !! id = Some j -> status j = processing -> lease_id j = Some l -> lease_expires_at j = Some e -> now <= e ->
  (~ flagged j ->
     (forall text, exists d' j', complete_job id text None now d = inr d' /\ jobs d' !! id = Some j' /\ status j' = completed /\ lease_id j' = None) /\
     (forall next_stage text, exists d' j', advance_job id next_stage text None now d = inr d' /\ jobs d' !! id = Some j' /\
        status j' = queued /\ stage j' = next_stage /\ lease_id j' = None)) /\
  (updated_at j < clock - STALE_JOB_TIMEOUT * SECOND ->
     let d' := recover_stale_jobs (stage j) now clock d in
     exists j', jobs d' !! id = Some j' /\ lease_id j' = Some l /\ lease_expires_at j' = Some e /\
       (forall ttl, exists d2, heartbeat_job id l ttl now d' = inr d2) /\
       ((forall t, next_attempt_at j = Some t -> t <= now) -> has_pending_dep d id = false -> claimable d' (stage j) ∅ now id j' = true)).
Proof.
  intros Hj Hs Hl He Hlive. split.
  - intros Hnf. assert (restart_static_if_flagged now j = None) as Hr by by apply restart_none. split.
    + intros text. rewrite complete_job_guarded, (guarded_ok _ None _ _ _ Hj eq_refl). do 2 eexists. split; [done|].
      rewrite jobs_notify, jobs_put, lookup_insert_eq. split; [done|]. unfold unless_flagged. rewrite Hr. unfold completed_row. flush_case; done.
    + intros ns text. rewrite advance_job_guarded, (guarded_ok _ None _ _ _ Hj eq_refl). do 2 eexists. split; [done|].
      rewrite jobs_put, lookup_insert_eq. split; [done|]. unfold unless_flagged. rewrite Hr. unfold advanced. flush_case; done.
  - intros Hstale d'. pose proof (recovered_fields now j) as (F1 & F2 & F3 & F4 & F5 & _ & _ & F8 & _).
    assert (jobs d' !! id = Some (recover_stale_job now j)) as Hj'.
    { unfold d'. rewrite jobs_recover, Hj. cbn. unfold is_stale. rewrite Hs, !bool_decide_eq_true_2 by done.
      by rewrite (proj2 (Z.ltb_lt _ _) Hstale). }
    exists (recover_stale_job now j). rewrite F4, F5. split_and!; try done.
    + intros ttl. eexists. unfold heartbeat_job. rewrite Hj', F4, decide_True by done. done.
    + intros Hdue Hdep. apply claimable_spec. rewrite F8. split_and!; try done.
Qed.


(** ** A small queue *)

(** A job created in an empty queue, and claimed until 900 s later. *)
Definition demo_request : gmap string pyval := {["address" := PyStr "0xabc"]}.
Definition demo_created_job : Job :=
  match create_job 1 None "t" 10 demo_request static empty_db with inr (j, _) => j | inl _ => demo_job static queued None 0 end.
Definition demo_created : db := put_job 1 demo_created_job empty_db.
Definition demo_claimed_job : Job := claimed "w" 7 900 20 demo_created_job.
Definition demo_claimed : db := put_job 1 demo_claimed_job demo_created.
Definition demo_minted : gset positive := {[7%positive]} ∪ ∅.

Lemma demo_claim_reachable : reachable (demo_claimed, demo_minted).
Proof.
  apply (reach_step 20 20 None (demo_created, ∅)).
  - apply (reach_step 10 10 None (empty_db, ∅)); [by apply reach_init|].
    apply (step_create 10 10 None 1 None "t" demo_request static demo_created_job); vm_compute; reflexivity.
  - apply (step_claim 20 20 None None static "w" 900 7 ∅ (Some (1%positive, demo_claimed_job)));
      [discriminate|apply not_elem_of_empty|vm_compute; reflexivity].
Qed.

Lemma lease_discipline_witness : jobs demo_claimed !! 1%positive = Some demo_claimed_job /\ is_Some (worker_id demo_claimed_job).
Proof.
  assert (jobs demo_claimed !! 1%positive = Some demo_claimed_job) as Hj by reflexivity. split; [exact Hj|].
  apply (lease_discipline (demo_claimed, demo_minted) 1 demo_claimed_job); [exact demo_claim_reachable|exact Hj|reflexivity].
Defined.

(** Another session converts the job, and 600 s after the claim a worker recovers
    stale jobs. *)
Definition demo_converted : db := (convert_impl_job_to_proxy_context 1 "0xproxy" None "implementation" None (300 * SECOND) demo_claimed).2.

Lemma lease_excludes_others_witness :
  held 1 7 (20 + 900 * SECOND) 20 static (demo_claimed, demo_minted) /\
  held 1 7 (20 + 900 * SECOND) 20 static (recover_stale_jobs static (600 * SECOND) (600 * SECOND) demo_converted, demo_minted).
Proof.
  assert (held 1 7 (20 + 900 * SECOND) 20 static (demo_claimed, demo_minted)) as H.
  { exists demo_claimed_job. split; [reflexivity|]. split; [reflexivity|]. split; [reflexivity|]. split; [reflexivity|]. split; [reflexivity|].
    vm_compute. discriminate. }
  split; [exact H|]. eapply (lease_excludes_others _ _ _ _ _ _ _ demo_claim_reachable H).
  eapply rtc_l; [exists (300 * SECOND), (300 * SECOND), 6%positive; split_and!;
    [vm_compute; discriminate|vm_compute; discriminate|vm_compute; discriminate|vm_compute; discriminate|lia|apply step_convert]|].
  eapply rtc_l; [exists (600 * SECOND), (600 * SECOND), 6%positive; split_and!;
    [vm_compute; discriminate|vm_compute; discriminate|vm_compute; discriminate|vm_compute; discriminate|lia|apply step_recover]|]. apply rtc_refl.
Defined.

(** With no heartbeat, the row is stale 600 s after the claim, 300 s before its
    lease expires. *)
Lemma unfenced_writes_witness : exists j', jobs (recover_stale_jobs static (700 * SECOND) (700 * SECOND) demo_claimed) !! 1%positive = Some j' /\
  lease_id j' = Some 7%positive /\ claimable (recover_stale_jobs static (700 * SECOND) (700 * SECOND) demo_claimed) static ∅ (700 * SECOND) 1 j' = true.
Proof.
  destruct (unfenced_writes 1 demo_claimed demo_claimed_job 7 (20 + 900 * SECOND) (700 * SECOND) (700 * SECOND)) as [_ H];
    [reflexivity|reflexivity|reflexivity|reflexivity|vm_compute; discriminate|].
  destruct H as (j' & Hj' & Hl & _ & _ & Hc); [vm_compute; reflexivity|]. exists j'. split; [exact Hj'|]. split; [exact Hl|].
  apply Hc; [intros t Ht; vm_compute in Ht; discriminate Ht|vm_compute; reflexivity].
Defined.

Definition demo_swept : db := (reclaim_stuck_jobs 900 ∅ (1000 * SECOND) demo_claimed).2.


(** After the sweep another worker claims the job under a new token. *)
Definition demo_retaken : option (positive * Job) * db :=
  match claim_job None static "v" 900 8 ∅ (1000 * SECOND) 0 demo_swept with inr r => r | inl _ => (None, demo_swept) end.

Lemma lost_lease_fenced_witness : fenced 1 7 demo_retaken.2 /\ (lease_id <$> jobs demo_retaken.2 !! 1%positive) = Some (Some 8%positive).
Proof.
  split; [|vm_compute; reflexivity].
  apply (lost_lease_fenced 1 7 (demo_swept, demo_minted) (demo_retaken.2, {[8%positive]} ∪ demo_minted)).
  - apply (reach_step (1000 * SECOND) 0 None (demo_claimed, demo_minted)); [exact demo_claim_reachable|apply step_reclaim].
  - apply elem_of_union_l, elem_of_singleton; reflexivity.
  - intros j Hj. vm_compute in Hj. injection Hj as <-. discriminate.
  - apply rtc_once. exists (1000 * SECOND), 0, None.
    apply (step_claim (1000 * SECOND) 0 None None static "v" 900 8 demo_minted demo_retaken.1); 
      [discriminate|set_solver|vm_compute; reflexivity].
Defined.
