(* ===== verification/JobContext.v ===== *)
(** * Requests, chains and dependencies of a job

    What the queue promises about the JSON request of a job (created with the
    chain its column names, merged without losing concurrent writes, converted
    to a proxy context at most once), about the rows that depend on it, and about
    the singleton leases of the daemons. *)

From stdpp Require Import base gmap sets list strings pretty sorting.
From Stdlib Require Import String Ascii ZArith Lia.
From S2P Require Import Prelude Chains JobQueue JobQueueTheory.

Local Open Scope string_scope.
Local Open Scope Z_scope.

(** ** Creation stamps the chain *)

Lemma registered_name_resolves info : info ∈ CHAINS -> chain_by_name (PyStr (ci_name info)) = Ok info.
Proof.
  unfold CHAINS. rewrite !elem_of_cons, elem_of_nil.
  intros H. repeat (destruct H as [-> | H]; [vm_compute; reflexivity|]). done.
Qed.

Lemma chain_by_id_name z info : chain_by_id z = Ok info -> chain_by_name (PyStr (ci_name info)) = Ok info.
Proof. intros [H _]%chain_by_id_ok. by apply registered_name_resolves. Qed.

(** Creating a job never fails, and its request cannot disagree with its
    chain column.  An address-less job has no chain id and keeps its request.
    An addressed job has a registered chain id, and its request's chain is that
    chain's canonical name; unless the request carried a label no chain answers
    to, which is kept as it was given while the column says mainnet. *)
Theorem create_job_stamps_chain id trace fresh now r st d :
  exists j, create_job id trace fresh now r st d = inr (j, put_job id j d) /\
  status j = queued /\ stage j = st /\
  match as_str (dict_get "address" r) with
  | None => job_chain_id j = None /\ request j = Some r
  | Some _ =>
      exists z info, job_chain_id j = Some z /\ chain_by_id z = Ok info /\
      ((exists req, request j = Some req /\ dict_get "chain" req = PyStr (ci_name info) /\
          forall k, k <> "chain" -> req !! k = r !! k) \/
       (z = 1 /\ request j = Some r /\ forall i, chain_by_name (dict_get "chain" r) <> Ok i))
  end.
Proof.
  set (v := dict_get "chain" r). unfold create_job. fold v.
  destruct (as_str (dict_get "address" r)) as [a|] eqn:Ea.
  2: { eexists. split; [reflexivity|]. done. }
  destruct (derive_job_chain_id v (Some a)) as [z|] eqn:Ez.
  2: { exfalso. revert Ez. unfold derive_job_chain_id. destruct (match v with PyNone => _ | _ => _ end); [done|].
       by destruct (chain_by_name v). }
  destruct (derive_registered _ _ _ Ez) as [info Hi].
  assert (forall nm, nm = ci_name info -> exists req,
    (if py_eq_str v nm then r else <["chain" := PyStr nm]> r) = req /\
    dict_get "chain" req = PyStr (ci_name info) /\ forall k, k <> "chain" -> req !! k = r !! k) as Hstamp.
  { intros nm ->. eexists. split; [reflexivity|]. destruct (py_eq_str v (ci_name info)) eqn:Ev.
    - apply py_eq_str_true in Ev. done.
    - unfold dict_get. rewrite lookup_insert_eq. split; [done|]. intros k Hk. by rewrite lookup_insert_ne. }
  unfold stamped_chain. rewrite Hi. destruct (String.eqb (default "" (canonical_chain v)) "") eqn:Ec.
  - cbn [mbind result_bind lift_chain tx_bind]. eexists. split; [reflexivity|]. split_and!; [done|done|].
    exists z, info. split_and!; [done|done|]. left. destruct (Hstamp (ci_name info) eq_refl) as (req & <- & ?). eauto.
  - destruct (chain_by_name v) as [named|] eqn:En; cbn [mbind lift_chain tx_bind].
    + assert (chain_id named = z) as Hz.
      { revert Ez. unfold derive_job_chain_id. destruct v as [| | |s| |]; try done.
        destruct (String.eqb_spec (str_strip s) "") as [Es|]; [|rewrite En; by intros [= <-]].
        apply chain_by_name_resolves in En. rewrite (normalize_blank _ Es), resolve_key_blank in En. discriminate En. }
      assert (named = info) as -> by (apply chain_by_name_registered in En; rewrite Hz in En; congruence).
      rewrite decide_True by done. eexists. split; [reflexivity|]. split_and!; [done|done|].
      exists z, info. split_and!; [done|done|]. left. destruct (Hstamp (ci_name info) eq_refl) as (req & <- & ?). eauto.
    + eexists. split; [reflexivity|]. split_and!; [done|done|]. exists z, info. split_and!; [done|done|]. right.
      split_and!; [|done|by intros ? [=]].
      revert Ez. unfold derive_job_chain_id. rewrite En. destruct (match v with PyNone => _ | _ => _ end); congruence.
Qed.

(** ** Requests are merged in place *)

Lemma merged_lookup defaults r patch k :
  merged_request defaults r patch !! k =
    match patch !! k with
    | Some v => Some v
    | None => match (default ∅ r : gmap string pyval) !! k with Some v => Some v | None => defaults !! k end
    end.
Proof.
  unfold merged_request. rewrite !lookup_union. destruct (patch !! k), ((default ∅ r : gmap string pyval) !! k), (defaults !! k); done.
Qed.

(** No lost updates.  Two writers that patch different keys of one request
    leave the same request in either order, with both patches in it and every
    key neither of them wrote as it was. *)
Theorem merge_job_request_commutes id p1 p2 t1 t2 t3 t4 d j :
  jobs d !! id = Some j -> p1 ##ₘ p2 ->
  exists j12 j21,
    jobs (merge_job_request id p2 ∅ None t2 (merge_job_request id p1 ∅ None t1 d).2).2 !! id = Some j12 /\
    jobs (merge_job_request id p1 ∅ None t4 (merge_job_request id p2 ∅ None t3 d).2).2 !! id = Some j21 /\
    request j12 = request j21 /\
    exists r, request j12 = Some r /\
      forall k, r !! k = match p1 !! k with
                        | Some v => Some v
                        | None => match p2 !! k with Some v => Some v | None => (default ∅ (request j) : gmap string pyval) !! k end
                        end.
Proof.
  intros Hj Hd.
  assert (forall a b ta tb, exists jab,
    jobs (merge_job_request id b ∅ None tb (merge_job_request id a ∅ None ta d).2).2 !! id = Some jab /\
    request jab = Some (merged_request ∅ (Some (merged_request ∅ (request j) a)) b)) as Hm.
  { intros a b ta tb. unfold merge_job_request. rewrite Hj. cbn [snd]. rewrite jobs_put, lookup_insert_eq.
    cbn [snd]. rewrite jobs_put, lookup_insert_eq. eexists. by split. }
  destruct (Hm p1 p2 t1 t2) as (j12 & H12 & R12). destruct (Hm p2 p1 t3 t4) as (j21 & H21 & R21).
  exists j12, j21. split_and!; [done|done| |].
  - rewrite R12, R21. f_equal. apply map_eq. intros k. rewrite !merged_lookup. rewrite !default_some, !merged_lookup.
    specialize (Hd k). destruct (p1 !! k), (p2 !! k); cbn in Hd; done.
  - eexists. split; [done|]. intros k. rewrite merged_lookup. rewrite default_some, merged_lookup, lookup_empty.
    specialize (Hd k). destruct (p1 !! k), (p2 !! k); cbn in Hd; try done;
      by destruct ((default ∅ (request j) : gmap string pyval) !! k).
Qed.

Lemma merge_job_request_commutes_witness :
  exists j12 j21,
    jobs (merge_job_request 1 {["b" := PyInt 2]} ∅ None 2 (merge_job_request 1 {["a" := PyInt 1]} ∅ None 1 demo_db).2).2
      !! 1%positive = Some j12 /\
    jobs (merge_job_request 1 {["a" := PyInt 1]} ∅ None 4 (merge_job_request 1 {["b" := PyInt 2]} ∅ None 3 demo_db).2).2
      !! 1%positive = Some j21 /\ request j12 = request j21.
Proof.
  destruct (merge_job_request_commutes 1 {["a" := PyInt 1]} {["b" := PyInt 2]} 1 2 3 4 demo_db (demo_job static queued None 10))
    as (j12 & j21 & H1 & H2 & H3 & _); [vm_compute; reflexivity|by apply map_disjoint_singleton_r_2|].
  exists j12, j21. auto.
Defined.

(** ** Conversion to proxy context *)

Lemma astext_lookup r k : astext r k =
  match (default ∅ r : gmap string pyval) !! k with
  | None | Some PyNone => None
  | Some (PyBool true) => Some "true"
  | Some (PyBool false) => Some "false"
  | Some v => Some (py_str v)
  end.
Proof. destruct r as [r|]; cbn; [|by rewrite lookup_empty]. by destruct (r !! k) as [[]|]. Qed.

Lemma context_patch_proxy pa pt : context_patch pa pt !! "proxy_address" = Some (PyStr pa).
Proof. unfold context_patch. by rewrite lookup_insert_eq. Qed.

Lemma context_patch_other pa pt k : k <> "proxy_address" -> k <> "proxy_type" -> context_patch pa pt !! k = None.
Proof.
  intros H1 H2. unfold context_patch. rewrite lookup_insert_ne by done. unfold opt_binding.
  destruct (nonempty pt); [by rewrite lookup_singleton_ne|apply lookup_empty].
Qed.

Lemma converted_request pa pt rel parent now j k :
  k <> "proxy_address" -> k <> "proxy_type" -> k <> RESTART_STATIC_REQUEST_KEY ->
  forall v, (default ∅ (request j) : gmap string pyval) !! k = Some v ->
  (default ∅ (request (converted pa pt rel parent now j)) : gmap string pyval) !! k = Some v.
Proof.
  intros H1 H2 H3 v Hv.
  assert (merged_request (context_defaults rel parent) (request j) (context_patch pa pt) !! k = Some v) as Hm
    by (rewrite merged_lookup, (context_patch_other pa pt k H1 H2), Hv; done).
  unfold converted. destruct (_ && _); [|destruct (_ || _); exact Hm].
  unfold merge_row. cbn [request set_updated_at set_request]. rewrite default_some, merged_lookup, lookup_singleton_ne, default_some by done. by rewrite Hm.
Qed.

Lemma converted_proxy pa pt rel parent now j :
  astext (request (converted pa pt rel parent now j)) "proxy_address" = Some pa.
Proof.
  assert (merged_request (context_defaults rel parent) (request j) (context_patch pa pt) !! "proxy_address" = Some (PyStr pa)) as Hm
    by (rewrite merged_lookup, context_patch_proxy; done).
  rewrite astext_lookup. unfold converted, merge_row, drop_claim. destruct (_ && _); [|destruct (_ || _)];
    cbn [request set_updated_at set_request set_detail set_next_attempt_at set_worker_id set_lease_id set_lease_expires_at set_status set_stage];
    rewrite default_some; [|by rewrite Hm..].
  rewrite merged_lookup, lookup_singleton_ne, default_some by done. by rewrite Hm.
Qed.

Lemma converted_phase pa pt rel parent now j :
  let j' := converted pa pt rel parent now j in
  if bool_decide (status j = processing) && bool_decide (stage j ∈ CONTEXT_READING_STAGES)
  then flagged j' /\ status j' = processing /\ stage j' = stage j /\ lease_id j' = lease_id j
  else if bool_decide (status j = completed) || bool_decide (stage j ∈ RAN_PAST_STATIC_STAGES)
  then status j' = queued /\ stage j' = static /\ released j' /\ next_attempt_at j' = None
  else status j' = status j /\ stage j' = stage j /\ lease_id j' = lease_id j.
Proof.
  cbv zeta. unfold converted. destruct (_ && _) eqn:E; [|destruct (_ || _); done].
  rewrite andb_true_iff, !bool_decide_eq_true in E. destruct E as [Hs _].
  split_and!; [|exact Hs|done|done]. unfold flagged. rewrite astext_lookup. unfold merge_row.
  cbn [request set_updated_at set_request]. by rewrite default_some, merged_lookup, lookup_singleton_eq.
Qed.

(** A job takes a proxy context at most once, and loses nothing by it.  With
    no such job, or a job that already has a context, conversion says no and
    changes nothing.  Otherwise it says yes: the job carries the proxy, every
    other key of its request is kept, and the stages that read the context will
    run in it: a running context-reading stage keeps its lease and is flagged to
    restart, a job that ran past static is queued there again, and any other job
    just waits for its static stage.  A later conversion, for any proxy, then
    says no. *)
Theorem conversion_once id pa pt rel parent now d pa' pt' rel' parent' now' :
  let (ok, d') := convert_impl_job_to_proxy_context id pa pt rel parent now d in
  convert_impl_job_to_proxy_context id pa' pt' rel' parent' now' d' = (false, d') /\
  match jobs d !! id with
  | None => ok = false /\ d' = d
  | Some j =>
      if bool_decide (is_Some (astext (request j) "proxy_address")) then ok = false /\ d' = d
      else ok = true /\ exists j', d' = put_job id j' d /\
        astext (request j') "proxy_address" = Some pa /\
        (forall k v, k <> "proxy_address" -> k <> "proxy_type" -> k <> RESTART_STATIC_REQUEST_KEY ->
           (default ∅ (request j) : gmap string pyval) !! k = Some v ->
           (default ∅ (request j') : gmap string pyval) !! k = Some v) /\
        if bool_decide (status j = processing) && bool_decide (stage j ∈ CONTEXT_READING_STAGES)
        then flagged j' /\ status j' = processing /\ stage j' = stage j /\ lease_id j' = lease_id j
        else if bool_decide (status j = completed) || bool_decide (stage j ∈ RAN_PAST_STATIC_STAGES)
        then status j' = queued /\ stage j' = static /\ released j' /\ next_attempt_at j' = None
        else status j' = status j /\ stage j' = stage j /\ lease_id j' = lease_id j
  end.
Proof.
  rewrite convert_row. destruct (jobs d !! id) as [j|] eqn:Hj.
  2: { split; [|done]. by rewrite convert_row, Hj. }
  destruct (bool_decide (is_Some (astext (request j) "proxy_address"))) eqn:Hb.
  - split; [|done]. by rewrite convert_row, Hj, Hb.
  - split; [rewrite convert_row, jobs_put, lookup_insert_eq, converted_proxy; by rewrite bool_decide_eq_true_2|].
    split; [done|]. exists (converted pa pt rel parent now j). split_and!; [done|apply converted_proxy| |apply converted_phase].
    intros k v H1 H2 H3. by apply converted_request.
Qed.

(** ** Dependents *)

Lemma satisfied_stages_spec s c :
  s ∈ satisfied_stages c <-> (stage_index s STAGES <= stage_index c STAGES)%nat.
Proof.
  unfold satisfied_stages. rewrite list_elem_of_filter. split; [by intros [? _]|]. intros H. split; [done|].
  unfold STAGES. destruct s; rewrite !elem_of_cons; tauto.
Qed.

Lemma deps_notify now j d : deps (notify_completed now j d) = deps d.
Proof.
  unfold notify_completed. destruct (restart_static_if_flagged now j), (protocol_id j); try done.
  by destruct (_ && _).
Qed.

(** The dependency rows a stage's success satisfies. *)
Definition satisfies (j : Job) (this_stage : JobStage) (dep : JobDependency) : Prop :=
  address j <> None /\ address j <> Some "" /\
  provider_chain dep = provider_chain_for j /\ provider_address dep = str_lower (default "" (address j)) /\
  dep_status dep = pending /\ (stage_index (required_stage dep) STAGES <= stage_index this_stage STAGES)%nat.

Lemma str_lower_empty s : String.eqb (str_lower s) "" = String.eqb s "".
Proof. by destruct s. Qed.

Lemma satisfy_deps_spec j this clock d :
  exists f, deps (satisfy_dependencies j this clock d).2 = List.map f (deps d) /\
    jobs (satisfy_dependencies j this clock d).2 = jobs d /\
    forall dep, (satisfies j this dep -> f dep = set_dep_status satisfied clock dep) /\
                (~ satisfies j this dep -> f dep = dep).
Proof.
  unfold satisfy_dependencies. rewrite str_lower_empty.
  destruct (String.eqb_spec (default "" (address j)) "") as [E|E].
  - exists (fun dep => dep). split_and!; [by rewrite map_id|done|]. intros dep. split; [|done].
    intros (H1 & H2 & _). exfalso. destruct (address j) as [a|]; [|done]. cbn in E. by subst.
  - eexists. split_and!; [reflexivity|reflexivity|]. intros dep.
    assert (provided_by (provider_chain_for j) (str_lower (default "" (address j))) dep &&
            bool_decide (required_stage dep ∈ satisfied_stages this) = true <-> satisfies j this dep) as H.
    { unfold provided_by, satisfies. rewrite !andb_true_iff, !bool_decide_eq_true, satisfied_stages_spec.
      split; [|tauto]. intros H. split_and!; try tauto; intros Ha; rewrite Ha in E; done. }
    split; intros Hs; cbn beta; [by rewrite (proj2 H Hs)|].
    by rewrite (not_true_is_false _ (fun e => Hs (proj1 H e))).
Qed.

(** A stage's success and its effect on dependents are one transaction.  If
    the job is not flagged to restart, the job moves to the next stage (or is
    completed) and every pending dependency on this provider whose required
    stage has been reached is satisfied, no other one being touched. *)
Theorem finish_stage_releases_dependents id j this_stage next_stage lease now clock d :
  jobs d !! id = Some j -> lease_ok lease j = true -> ~ flagged j ->
  exists d' j' f, finish_stage id j this_stage next_stage lease now clock d = inr d' /\
    jobs d' = <[id := j']> (jobs d) /\ stage j' = next_stage /\ released j' /\
    status j' = (if decide (next_stage = done) then completed else queued) /\
    deps d' = List.map f (deps d) /\
    forall dep, (satisfies j this_stage dep -> f dep = set_dep_status satisfied clock dep) /\
                (~ satisfies j this_stage dep -> f dep = dep).
Proof.
  intros Hj Hl Hf. unfold finish_stage. rewrite (static_restart_pending_ok _ _ _ _ Hj Hl), (bool_decide_eq_false_2 _ Hf).
  cbn [mbind tx_bind]. destruct (satisfy_deps_spec j this_stage clock d) as (f & Hdeps & Hjobs & Hspec).
  set (d1 := (satisfy_dependencies j this_stage clock d).2) in *.
  assert (jobs d1 !! id = Some j) as Hj1 by by rewrite Hjobs.
  assert (restart_static_if_flagged now j = None) as Hr by by apply restart_none.
  case_decide as Hn.
  - rewrite complete_job_guarded, (guarded_ok _ _ _ _ _ Hj1 Hl). unfold unless_flagged. rewrite Hr.
    eexists _, (completed_row "Analysis complete" now j), f. split; [reflexivity|].
    rewrite jobs_notify, deps_notify, jobs_put, Hjobs. subst next_stage.
    split_and!; try done; unfold completed_row, released; flush_case; done.
  - rewrite advance_job_guarded, (guarded_ok _ _ _ _ _ Hj1 Hl). unfold unless_flagged. rewrite Hr.
    eexists _, (advanced next_stage _ now j), f. split; [reflexivity|].
    rewrite jobs_put, Hjobs. split_and!; try done; unfold advanced, released; flush_case; done.
Qed.

(** ** Daemon leases *)

(** An attempt on one name by [holder] at a time. *)
Record attempt := mkAttempt { by_holder : positive; at_time : Z; for_seconds : Z }.

Fixpoint attempts (nm : string) (l : list attempt) (d : db) : list bool * db :=
  match l with
  | [] => ([], d)
  | a :: l =>
      let (won, d) := try_acquire_daemon_lease nm (by_holder a) (for_seconds a) (at_time a) d in
      let (ws, d) := attempts nm l d in (won :: ws, d)
  end.

(** A daemon's singleton lease is exclusive until it expires.  After a win
    at time [t] for [ttl] seconds, every attempt by anybody else up to the expiry
    loses and leaves the lease as it is, and the holder's own renewal wins. *)
Theorem daemon_lease_exclusive nm h t ttl d d' l :
  try_acquire_daemon_lease nm h ttl t d = (true, d') ->
  (forall a, a ∈ l -> by_holder a <> h /\ at_time a <= t + ttl * SECOND) ->
  attempts nm l d' = (replicate (List.length l) false, d') /\
  (forall t' ttl', (renew_daemon_lease nm h ttl' t' d').1 = true).
Proof.
  intros Hw Hl. assert (daemon_leases d' !! nm = Some (mkDaemonLease h (t + ttl * SECOND))) as Hd.
  { unfold try_acquire_daemon_lease in Hw. destruct (daemon_leases d !! nm) as [cur|]; [destruct (_ || _)|];
      simplify_eq; cbn; by rewrite lookup_insert_eq. }
  clear Hw d. split.
  - induction l as [|a l IH]; [done|]. cbn [attempts List.length replicate].
    destruct (Hl a) as [Hh Ht]; [by left|]. unfold try_acquire_daemon_lease at 1. rewrite Hd. cbn [expires_at holder].
    rewrite !bool_decide_eq_false_2 by (congruence || lia). cbn [orb].
    rewrite IH; [done|]. intros a' Ha'. apply Hl. by right.
  - intros t' ttl'. unfold renew_daemon_lease, try_acquire_daemon_lease. rewrite Hd. cbn [expires_at holder].
    rewrite (bool_decide_eq_true_2 (h = h)) by done. by rewrite orb_true_r.
Qed.

Lemma daemon_lease_exclusive_witness :
  let d' := (try_acquire_daemon_lease "indexer" 1 120 0 empty_db).2 in
  attempts "indexer" [mkAttempt 2 60000000 120; mkAttempt 3 120000000 120] d' = ([false; false], d').
Proof.
  apply (daemon_lease_exclusive "indexer" 1 0 120 empty_db
           (try_acquire_daemon_lease "indexer" 1 120 0 empty_db).2 [mkAttempt 2 60000000 120; mkAttempt 3 120000000 120]).
  - reflexivity.
  - intros a [->|[->|[]%elem_of_nil]%elem_of_cons]%elem_of_cons; cbn; unfold SECOND; lia.
Defined.

Lemma finish_stage_releases_dependents_witness :
  exists d' j' f, finish_stage 2 (demo_job static processing (Some 7%positive) 20) static resolution (Some 7%positive) 100 100
      (set_deps [mkDep 1 (Some "ethereum") "0xabc" static pending None] demo_db) = inr d' /\
    stage j' = resolution /\ jobs d' = <[2%positive := j']> (jobs demo_db) /\
    deps d' = List.map f [mkDep 1 (Some "ethereum") "0xabc" static pending None].
Proof.
  destruct (finish_stage_releases_dependents 2 (demo_job static processing (Some 7%positive) 20) static resolution
    (Some 7%positive) 100 100 (set_deps [mkDep 1 (Some "ethereum") "0xabc" static pending None] demo_db))
    as (d' & j' & f & H1 & H2 & H3 & _ & _ & H6 & _).
  - vm_compute. reflexivity.
  - vm_compute. reflexivity.
  - vm_compute. discriminate.
  - exists d', j', f. auto.
Defined.
