(* ===== verification/StaticCache.v ===== *)
(** * Which job stands for the current analyzer

    [db/queue/static_cache.py]: the analyzer era of a job, proved by following
    the donors its artifacts were copied from ([proven_analysis_schema_version],
    with the memo shared by lookups), the standing test built on it, and
    [find_existing_job_for_address].  UUIDs are the job table's keys; their text
    form is the class [UUIDText]. *)

From stdpp Require Import base gmap sets list strings sorting pretty.
From Stdlib Require Import String Ascii ZArith Lia.
From S2P Require Import Prelude Chains JobQueue.

Local Open Scope string_scope.
Local Open Scope Z_scope.

(** [str(u)] and [uuid.UUID(text)], [None] being its [ValueError].  Several
    spellings may denote one UUID; the canonical one reads back. *)
Class UUIDText := {
  uuid_text : positive -> string;
  uuid_parse : string -> option positive;
  uuid_parse_text : forall u, uuid_parse (uuid_text u) = Some u
}.

(** A codec for the examples: the binary digits, lowest first. *)
Fixpoint bits_text (u : positive) : string :=
  match u with
  | xH => "1"
  | xO u => String "0" (bits_text u)
  | xI u => String "1" (bits_text u)
  end.

Fixpoint bits_parse (s : string) : option positive :=
  match s with
  | "" => None
  | "1" => Some xH
  | String c s => u ← bits_parse s; if Ascii.eqb c "1" then Some (xI u) else if Ascii.eqb c "0" then Some (xO u) else None
  end.

Lemma bits_parse_text u : bits_parse (bits_text u) = Some u.
Proof.
  induction u as [u IH|u IH|]; [| |done]; cbn [bits_text].
  - transitivity (u ← bits_parse (bits_text u); Some (xI u)); [by destruct u|by rewrite IH].
  - transitivity (u ← bits_parse (bits_text u); Some (xO u)); [done|by rewrite IH].
Qed.

Definition bits_uuid : UUIDText := {| uuid_text := bits_text; uuid_parse := bits_parse; uuid_parse_text := bits_parse_text |}.

Definition ANALYSIS_SCHEMA_VERSION : Z := 12.

Section Era.
Context `{UUIDText}.

(** [request.get("cache_source_job_id")] as text, [None] when falsy. *)
Definition donor_text (j : Job) : option string :=
  match request j with
  | Some r => let v := dict_get "cache_source_job_id" r in if py_truthy v then Some (py_str v) else None
  | None => None
  end.

(** [session.get(Job, key)]: a text that is no UUID fails in the database. *)
Definition donor_row (d : db) (text : string) : option Job := u ← uuid_parse text; jobs d !! u.

(** [_settle] *)
Definition settle (path : list string) (era : option Z) (memo : gmap string (option Z)) : option Z * gmap string (option Z) :=
  (era, foldl (fun m t => <[t := era]> m) memo path).

Fixpoint era_walk (fuel : nat) (d : db) (path : list string) (memo : gmap string (option Z)) (current : Job) :
    option Z * gmap string (option Z) :=
  match fuel with
  | O => settle path None memo
  | S fuel =>
      match donor_text current with
      | None => settle path None memo
      | Some donor =>
          if bool_decide (donor ∈ path) then settle path None memo
          else
            match memo !! donor with
            | Some era => settle path era memo
            | None =>
                let path := (path ++ [donor])%list in
                match donor_row d donor with
                | None => settle path None memo
                | Some next =>
                    match analysis_schema_version next with
                    | Some version => settle path (Some version) memo
                    | None => era_walk fuel d path memo next
                    end
                end
            end
      end
  end.

(** Every iteration but the last expands a row not expanded before. *)
Definition era_fuel (d : db) : nat := S (size (jobs d)).

Definition proven_analysis_schema_version (d : db) (id : positive) (job : Job) (memo : gmap string (option Z)) :
    option Z * gmap string (option Z) :=
  match analysis_schema_version job with
  | Some version => (Some version, memo)
  | None =>
      match memo !! uuid_text id with
      | Some era => (era, memo)
      | None => era_walk (era_fuel d) d [uuid_text id] memo job
      end
  end.

Definition job_artifacts_are_current (d : db) (id : positive) (job : Job) (memo : gmap string (option Z)) :
    bool * gmap string (option Z) :=
  let (era, memo) := proven_analysis_schema_version d id job memo in
  (bool_decide (era = Some ANALYSIS_SCHEMA_VERSION), memo).

Definition job_stands_for_current_analyzer (d : db) (id : positive) (job : Job) (memo : gmap string (option Z)) :
    bool * gmap string (option Z) :=
  match status job with
  | queued | processing => (true, memo)
  | failed => (false, memo)
  | completed =>
      let (era, memo) := proven_analysis_schema_version d id job memo in
      (bool_decide (era = Some ANALYSIS_SCHEMA_VERSION), memo)
  | failed_terminal =>
      let (era, memo) := proven_analysis_schema_version d id job memo in
      (bool_decide (era = None) || bool_decide (era = Some ANALYSIS_SCHEMA_VERSION), memo)
  end.

(** ** The prefilter and the order of the lookups *)

Definition is_active (job : Job) : bool := bool_decide (status job = queued) || bool_decide (status job = processing).

Definition not_stamped_with_other_era (job : Job) : bool :=
  negb (bool_decide (status job = failed)) &&
  (is_active job || bool_decide (analysis_schema_version job = None) ||
   bool_decide (analysis_schema_version job = Some ANALYSIS_SCHEMA_VERSION)).

(** The [CASE] that sorts first the rows accepted from their own columns. *)
Definition stands_without_walk_first (job : Job) : Z :=
  if is_active job || bool_decide (analysis_schema_version job = Some ANALYSIS_SCHEMA_VERSION) then 0 else 1.

(** [ORDER BY stands_without_walk_first, updated_at DESC] *)
Definition lookup_le (x y : positive * Job) : Prop :=
  stands_without_walk_first x.2 < stands_without_walk_first y.2 \/
  (stands_without_walk_first x.2 = stands_without_walk_first y.2 /\ updated_at y.2 <= updated_at x.2).

#[local] Instance lookup_le_dec : RelDecision lookup_le.
Proof. intros x y. unfold lookup_le. apply _. Defined.

Definition ordered_rows (p : positive -> Job -> bool) (d : db) : list (positive * Job) :=
  merge_sort lookup_le (filter (fun row => p row.1 row.2 = true) (map_to_list (jobs d))).

(** The first row of a list that stands, the memo threaded through. *)
Fixpoint first_standing (d : db) (rows : list (positive * Job)) (memo : gmap string (option Z)) :
    option (positive * Job) * gmap string (option Z) :=
  match rows with
  | [] => (None, memo)
  | (id, j) :: rows =>
      let (stands, memo) := job_stands_for_current_analyzer d id j memo in
      if stands then (Some (id, j), memo) else first_standing d rows memo
  end.

(** [_existing_job_stmt]: an effects-only retry is no job for its address. *)
Definition existing_job_matches (addr : string) (chain : option string) (j : Job) : bool :=
  bool_decide (str_lower <$> JobQueue.address j = Some (str_lower addr)) &&
  bool_decide (astext (request j) "effects_resume_work_id" = None) &&
  match chain with
  | Some c => bool_decide (is_Some (job_chain_id j)) &&
              bool_decide (job_chain_id j = derive_job_chain_id (PyStr c) (Some addr))
  | None => true
  end.

Definition existing_job_rows (addr : string) (chain : option string) (d : db) : list (positive * Job) :=
  ordered_rows (fun _ j => existing_job_matches addr chain j && not_stamped_with_other_era j) d.

Definition find_existing_job_for_address (d : db) (addr : string) (chain : option string) : option (positive * Job) :=
  let rows := existing_job_rows addr chain d in
  match rows with
  | [] => None
  | (id, first) :: _ =>
      if is_active first || bool_decide (analysis_schema_version first = Some ANALYSIS_SCHEMA_VERSION)
      then Some (id, first)
      else (first_standing d rows ∅).1
  end.
End Era.
