(* ===== verification/StaticCacheTheory.v ===== *)
(** * The analyzer era of a job, and the job that stands for an address

    The donor walk of [StaticCache] against the relation it decides: a job's era
    is proved by its own stamp or by the donor its artifacts were copied from.
    On it, the lookups: the first row in the statement's order that stands, the
    prefilter of the statement dropping none that does. *)

From stdpp Require Import base gmap sets list strings sorting pretty.
From Stdlib Require Import String Ascii ZArith Lia.
From S2P Require Import Prelude Chains JobQueue StaticCache.

Local Open Scope string_scope.
Local Open Scope Z_scope.

Section Theory.
Context `{UUIDText}.

(** ** The era a donor chain proves *)

Inductive proves (d : db) : Job -> Z -> Prop :=
  | proves_stamped j v : analysis_schema_version j = Some v -> proves d j v
  | proves_donor j t j' v :
      analysis_schema_version j = None -> donor_text j = Some t -> donor_row d t = Some j' ->
      proves d j' v -> proves d j v.

Definition era_of (d : db) (j : Job) (era : option Z) : Prop := forall v, era = Some v <-> proves d j v.

Lemma proves_own_stamp d j v w : analysis_schema_version j = Some v -> proves d j w -> v = w.
Proof. intros Hv Hp. destruct Hp; congruence. Qed.

Lemma proves_step d j t j' :
  analysis_schema_version j = None -> donor_text j = Some t -> donor_row d t = Some j' ->
  forall v, proves d j v <-> proves d j' v.
Proof.
  intros Hn Ht Hr v. split; [|by eapply proves_donor].
  intros Hp. destruct Hp; simplify_eq; congruence.
Qed.

Lemma proves_needs_donor d j v :
  proves d j v -> analysis_schema_version j = None -> exists t j', donor_text j = Some t /\ donor_row d t = Some j'.
Proof. intros [] ?; [congruence|eauto]. Qed.

(** A set of texts closed under donors, none of them stamped, proves nothing. *)
Lemma closed_proves_nothing d (path : list string) :
  (forall t, t ∈ path -> exists j t', donor_row d t = Some j /\ analysis_schema_version j = None /\
     donor_text j = Some t' /\ t' ∈ path) ->
  forall j v, proves d j v -> forall t, t ∈ path -> donor_row d t = Some j -> False.
Proof.
  intros Hc j v Hp. induction Hp as [j v Hv|j t0 j' v Hn Ht Hr Hp IH]; intros t Hin Hj.
  - destruct (Hc t Hin) as (k & t' & Hk & Hk' & _). congruence.
  - destruct (Hc t Hin) as (k & t' & Hk & _ & Hd & Hin'). assert (k = j) as -> by congruence.
    assert (t' = t0) as -> by congruence. eauto.
Qed.

Lemma era_of_none d j : (forall v, ~ proves d j v) -> era_of d j None.
Proof. intros Hn v. split; [done|]. intros Hp. by destruct (Hn v). Qed.

Lemma era_of_stamped d j v : analysis_schema_version j = Some v -> era_of d j (Some v).
Proof. intros Hv w. split; [intros [= <-]; by apply proves_stamped|]. intros Hp. f_equal. by eapply proves_own_stamp. Qed.

Lemma era_of_det d j e e' : era_of d j e -> era_of d j e' -> e = e'.
Proof.
  intros H1 H2. destruct e as [v|], e' as [w|]; [| | |done].
  - symmetry. by apply H2, H1.
  - symmetry. by apply H2, H1.
  - by apply H1, H2.
Qed.

Lemma era_of_iff d j j' e : (forall v, proves d j v <-> proves d j' v) -> era_of d j' e -> era_of d j e.
Proof. intros Hi He v. rewrite Hi. apply He. Qed.

(** ** The memo *)

Definition text_era (d : db) (t : string) (era : option Z) : Prop :=
  match donor_row d t with Some j => era_of d j era | None => era = None end.

Definition memo_ok (d : db) (memo : gmap string (option Z)) : Prop :=
  forall t era, memo !! t = Some era -> text_era d t era.

Lemma memo_ok_empty d : memo_ok d ∅.
Proof. intros t era. by rewrite lookup_empty. Qed.

Lemma settle_ok d path era memo :
  memo_ok d memo -> (forall t, t ∈ path -> text_era d t era) -> memo_ok d (settle path era memo).2.
Proof.
  unfold settle. cbn [snd]. revert memo. induction path as [|t path IH]; intros memo Hm Hp; [done|].
  cbn. apply IH; [|intros; apply Hp; by right]. intros t' era'. rewrite lookup_insert_Some.
  intros [[-> <-]|[_ Ht]]; [apply Hp; by left|by apply Hm].
Qed.

(** ** The walk *)

(** What the walk knows of its path: each text is a row with no stamp whose era
    is the current row's, and whose donor is on the path unless it is current. *)
Definition on_path (d : db) (path : list string) (current : Job) (t : string) : Prop :=
  exists j, donor_row d t = Some j /\ analysis_schema_version j = None /\
    (forall v, proves d j v <-> proves d current v) /\
    (j = current \/ exists t', donor_text j = Some t' /\ t' ∈ path).

Lemma on_path_era d path current t era :
  on_path d path current t -> era_of d current era -> text_era d t era.
Proof. intros (j & Hr & _ & Hi & _) He. unfold text_era. rewrite Hr. by eapply era_of_iff. Qed.

Lemma on_path_extend d path current t donor next :
  analysis_schema_version current = None -> donor_text current = Some donor -> donor_row d donor = Some next ->
  on_path d path current t -> on_path d (path ++ [donor])%list next t.
Proof.
  intros Hn Hd Hr (j & Hj & Hjn & Hi & Hc). exists j. split_and!; [done|done| |].
  - intros v. by rewrite Hi, (proves_step d current donor next Hn Hd Hr).
  - right. destruct Hc as [->|(t' & ? & ?)]; [exists donor|exists t']; rewrite elem_of_app, ?list_elem_of_singleton; auto.
Qed.

Lemma cycle_proves_nothing d path current donor :
  (exists t, t ∈ path /\ donor_row d t = Some current) ->
  (forall t, t ∈ path -> on_path d path current t) -> donor_text current = Some donor -> donor ∈ path ->
  forall v, ~ proves d current v.
Proof.
  intros (t & Hin & Ht) Hp Hd Hdin v Hv. eapply (closed_proves_nothing d path); [|exact Hv|exact Hin|exact Ht].
  intros t' Hin'. destruct (Hp t' Hin') as (j & Hj & Hjn & _ & [->|(t2 & ? & ?)]); [exists current, donor|exists j, t2]; auto.
Qed.

Lemma unexpanded_shrinks (d : db) (seen : gset positive) c :
  c ∈ dom (jobs d) -> c ∉ seen ->
  (size (dom (jobs d) ∖ ({[c]} ∪ seen)) < size (dom (jobs d) ∖ seen))%nat.
Proof.
  intros Hc Hs. apply subset_size. split; [set_solver|]. intros Hsub. specialize (Hsub c). set_solver.
Qed.

(** The result of a walk: the current row's era, in a memo still right. *)
Definition walk_ok (d : db) (current : Job) (r : option Z * gmap string (option Z)) : Prop :=
  era_of d current r.1 /\ memo_ok d r.2.

Lemma walk_settles d path current memo era :
  memo_ok d memo -> (forall t, t ∈ path -> on_path d path current t) -> era_of d current era ->
  walk_ok d current (settle path era memo).
Proof. intros Hm Hp He. split; [exact He|]. apply settle_ok; [done|]. intros t Ht. by eapply on_path_era; [apply Hp|]. Qed.

(** [seen] holds the rows already expanded, whose donors are all on the path. *)
Lemma era_walk_ok d fuel : forall path memo c current (seen : gset positive),
  memo_ok d memo -> jobs d !! c = Some current -> analysis_schema_version current = None ->
  (exists t, t ∈ path /\ uuid_parse t = Some c) ->
  (forall t, t ∈ path -> on_path d path current t) ->
  (forall u, u ∈ seen -> exists j t, jobs d !! u = Some j /\ donor_text j = Some t /\ t ∈ path) ->
  (size (dom (jobs d) ∖ seen) < fuel)%nat ->
  walk_ok d current (era_walk fuel d path memo current).
Proof.
  induction fuel as [|fuel IH]; intros path memo c current seen Hm Hc Hn (tc & Htc & Hpc) Hp Hseen Hf; [lia|].
  assert (donor_row d tc = Some current) as Hrc by (unfold donor_row; by rewrite Hpc).
  cbn [era_walk]. destruct (donor_text current) as [donor|] eqn:Hd.
  2: { apply walk_settles; [done..|]. apply era_of_none. intros v (t & ? & ? & _)%proves_needs_donor; congruence. }
  destruct (bool_decide (donor ∈ path)) eqn:Hin.
  { rewrite bool_decide_eq_true in Hin. apply walk_settles; [done..|]. apply era_of_none. eapply cycle_proves_nothing; eauto. }
  rewrite bool_decide_eq_false in Hin.
  assert (forall e, text_era d donor e -> era_of d current e) as Hdon.
  { unfold text_era. intros e He. destruct (donor_row d donor) as [next|] eqn:Hr.
    - eapply era_of_iff; [by apply (proves_step d current donor next)|done].
    - subst e. apply era_of_none. intros v (t & ? & Ht & Hr')%proves_needs_donor; congruence. }
  destruct (memo !! donor) as [era|] eqn:Hmd.
  { apply walk_settles; [done..|]. by apply Hdon, Hm. }
  destruct (donor_row d donor) as [next|] eqn:Hr.
  2: { assert (text_era d donor None) as Hte by (unfold text_era; by rewrite Hr).
       split; [by apply Hdon|]. apply settle_ok; [done|]. intros t. rewrite elem_of_app, list_elem_of_singleton.
       intros [Ht| ->]; [eapply on_path_era; [by apply Hp|by apply Hdon]|done]. }
  assert (forall t, t ∈ (path ++ [donor])%list -> t = donor \/ t ∈ path) as Hsplit
    by (intros t; rewrite elem_of_app, list_elem_of_singleton; tauto).
  destruct (analysis_schema_version next) as [version|] eqn:Hv.
  { assert (text_era d donor (Some version)) as Hte by (unfold text_era; rewrite Hr; by apply era_of_stamped).
    split; [by apply Hdon|]. apply settle_ok; [done|].
    intros t [->|Ht]%Hsplit; [done|eapply on_path_era; [by apply Hp|by apply Hdon]]. }
  unfold donor_row in Hr. destruct (uuid_parse donor) as [u|] eqn:Hu; [|done]. cbn in Hr.
  assert (donor_row d donor = Some next) as Hr' by (unfold donor_row; by rewrite Hu).
  destruct (IH (path ++ [donor])%list memo u next ({[c]} ∪ seen)) as [He Hm']; try done.
  - exists donor. rewrite elem_of_app, list_elem_of_singleton. auto.
  - intros t [->|Ht]%Hsplit; [exists next; split_and!; [done|done|done|by left]|].
    by apply (on_path_extend d path current); [..|apply Hp].
  - intros u' [->%elem_of_singleton|Hu']%elem_of_union.
    + exists current, donor. rewrite elem_of_app, list_elem_of_singleton. auto.
    + destruct (Hseen u' Hu') as (j & t & ? & ? & ?). exists j, t. rewrite elem_of_app. auto.
  - assert (c ∉ seen) as Hcs.
    { intros Hcs. destruct (Hseen c Hcs) as (j & t & Hj & Ht & Hin'). by simplify_eq. }
    pose proof (unexpanded_shrinks d seen c (elem_of_dom_2 _ _ _ Hc) Hcs). lia.
  - split; [|done]. eapply era_of_iff; [by apply (proves_step d current donor next)|done].
Qed.

Lemma proven_version_ok d id job memo :
  memo_ok d memo -> jobs d !! id = Some job -> walk_ok d job (proven_analysis_schema_version d id job memo).
Proof.
  intros Hm Hj. assert (donor_row d (uuid_text id) = Some job) as Hr
    by (unfold donor_row; rewrite uuid_parse_text; exact Hj).
  unfold proven_analysis_schema_version. destruct (analysis_schema_version job) as [v|] eqn:Hv.
  { split; [by apply era_of_stamped|done]. }
  destruct (memo !! uuid_text id) as [era|] eqn:Hid.
  { split; [|done]. apply Hm in Hid. unfold text_era in Hid. by rewrite Hr in Hid. }
  apply (era_walk_ok d _ [uuid_text id] memo id job ∅); try done.
  - exists (uuid_text id). rewrite list_elem_of_singleton. auto using uuid_parse_text.
  - intros t ->%list_elem_of_singleton. exists job. split_and!; [done|done|done|by left].
  - unfold era_fuel. rewrite difference_empty_L, size_dom. lia.
Qed.

(** The donor walk terminates and decides the era.  Whatever the donors of
    the table (shared, missing, badly spelled, in a cycle), and whatever earlier
    lookups left in the memo, the version returned is the one the job's stamp or
    its donor chain proves, and none when nothing is proved; and the memo it
    leaves is right about every job it mentions, so later lookups may use it. *)
Theorem proven_version_decides d id job memo :
  memo_ok d memo -> jobs d !! id = Some job ->
  let (era, memo') := proven_analysis_schema_version d id job memo in
  (forall v, era = Some v <-> proves d job v) /\ memo_ok d memo'.
Proof.
  intros Hm Hj. pose proof (proven_version_ok d id job memo Hm Hj) as Hw.
  by destruct (proven_analysis_schema_version d id job memo).
Qed.

(** ** Standing for the current analyzer *)

Definition stands (d : db) (j : Job) : Prop :=
  match status j with
  | queued | processing => True
  | failed => False
  | completed => proves d j ANALYSIS_SCHEMA_VERSION
  | failed_terminal => forall v, proves d j v -> v = ANALYSIS_SCHEMA_VERSION
  end.

Lemma job_stands_ok d id j memo :
  memo_ok d memo -> jobs d !! id = Some j ->
  ((job_stands_for_current_analyzer d id j memo).1 = true <-> stands d j) /\
  memo_ok d (job_stands_for_current_analyzer d id j memo).2.
Proof.
  intros Hm Hj. pose proof (proven_version_ok d id j memo Hm Hj) as [He Hm'].
  unfold job_stands_for_current_analyzer, stands.
  destruct (status j); try (by split); destruct (proven_analysis_schema_version d id j memo) as [era memo'];
    cbn [fst snd] in *; (split; [|done]).
  - rewrite bool_decide_eq_true. apply He.
  - rewrite orb_true_iff, !bool_decide_eq_true. split.
    + intros [-> | ->] v Hv%He; [done|congruence].
    + intros Hs. destruct era as [v|]; [|by left]. right. f_equal. by apply Hs, He.
Qed.

(** The prefilter drops no row that stands. *)
Lemma stands_prefilter d j : stands d j -> not_stamped_with_other_era j = true.
Proof.
  unfold stands, not_stamped_with_other_era, is_active. destruct (status j) eqn:Hs; try done; intros Hst; cbn;
    destruct (analysis_schema_version j) as [v|] eqn:Hv; try done.
  - apply bool_decide_eq_true. f_equal. by eapply proves_own_stamp.
  - apply bool_decide_eq_true. f_equal. by apply Hst, proves_stamped.
Qed.

(** Rows that sort first stand, whatever their donors, unless they failed. *)
Lemma accepted_stands d j :
  not_stamped_with_other_era j = true ->
  is_active j || bool_decide (analysis_schema_version j = Some ANALYSIS_SCHEMA_VERSION) = true -> stands d j.
Proof.
  unfold stands, not_stamped_with_other_era, is_active. destruct (status j); try done; intros _;
    intros Hv%orb_true_iff; destruct Hv as [|Hv%bool_decide_eq_true]; try done.
  - by apply proves_stamped.
  - intros v Hp. symmetry. by eapply proves_own_stamp.
Qed.

(** ** The lookups *)

Definition is_first_standing (d : db) (rows : list (positive * Job)) (r : option (positive * Job)) : Prop :=
  match r with
  | Some row => exists before after, rows = (before ++ row :: after)%list /\ stands d row.2 /\
                  forall row', row' ∈ before -> ~ stands d row'.2
  | None => forall row', row' ∈ rows -> ~ stands d row'.2
  end.

Lemma first_standing_ok d rows : forall memo,
  memo_ok d memo -> (forall row, row ∈ rows -> jobs d !! row.1 = Some row.2) ->
  is_first_standing d rows (first_standing d rows memo).1 /\ memo_ok d (first_standing d rows memo).2.
Proof.
  induction rows as [|[id j] rows IH]; intros memo Hm Hr; cbn [first_standing].
  { split; [|done]. intros row' []%not_elem_of_nil. }
  assert (jobs d !! id = Some j) as Hj by (apply (Hr (id, j)); by left).
  destruct (job_stands_ok d id j memo Hm Hj) as [Hs Hm'].
  destruct (job_stands_for_current_analyzer d id j memo) as [[] memo']; cbn [fst snd] in *.
  { split; [|done]. exists [], rows. split_and!; [done|by apply Hs|]. intros row' []%not_elem_of_nil. }
  assert (~ stands d j) as Hn by (by rewrite <- Hs).
  destruct (IH memo' Hm') as [Hf Hm'']; [intros row Hin; apply Hr; by right|]. split; [|done].
  destruct (first_standing d rows memo').1 as [row|]; cbn [is_first_standing] in *.
  - destruct Hf as (before & after & -> & Hst & Hb). exists ((id, j) :: before), after. split_and!; [done|done|].
    intros row' [-> | Hin]%elem_of_cons; [done|by apply Hb].
  - intros row' [-> | Hin]%elem_of_cons; [done|by apply Hf].
Qed.

#[local] Instance lookup_le_trans : Transitive lookup_le.
Proof. intros x y z. unfold lookup_le. lia. Qed.

#[local] Instance lookup_le_total : Total lookup_le.
Proof. intros x y. unfold lookup_le. lia. Qed.

Lemma ordered_rows_elem p d id j :
  (id, j) ∈ ordered_rows p d <-> jobs d !! id = Some j /\ p id j = true.
Proof.
  unfold ordered_rows. rewrite (merge_sort_Permutation _ _), list_elem_of_filter, elem_of_map_to_list. cbn. tauto.
Qed.

(** The best row that matches and stands: what each lookup looks for. *)
Definition best_standing (d : db) (p : Job -> bool) (r : option (positive * Job)) : Prop :=
  match r with
  | Some (id, j) =>
      jobs d !! id = Some j /\ p j = true /\ stands d j /\
      forall id' j', jobs d !! id' = Some j' -> p j' = true -> stands d j' -> lookup_le (id, j) (id', j')
  | None => forall id' j', jobs d !! id' = Some j' -> p j' = true -> ~ stands d j'
  end.

Lemma first_standing_best d p r :
  is_first_standing d (ordered_rows (fun _ j => p j && not_stamped_with_other_era j) d) r -> best_standing d p r.
Proof.
  set (rows := ordered_rows _ d).
  assert (forall id j, jobs d !! id = Some j -> p j = true -> stands d j -> (id, j) ∈ rows) as Hall.
  { intros id j Hj Hp Hs. apply ordered_rows_elem. split; [done|]. by rewrite Hp, (stands_prefilter d j Hs). }
  destruct r as [[id j]|]; cbn [is_first_standing best_standing].
  2: { intros Hn id j Hj Hp Hs. by apply (Hn (id, j)), Hs; apply Hall. }
  intros (before & after & Hrows & Hst & Hb).
  assert ((id, j) ∈ rows) as Hin by (rewrite Hrows, elem_of_app, elem_of_cons; auto).
  apply ordered_rows_elem in Hin as [Hj [Hp _]%andb_true_iff]. split_and!; [done..|].
  intros id' j' Hj' Hp' Hs'. specialize (Hall id' j' Hj' Hp' Hs').
  assert (StronglySorted lookup_le rows) as Hsorted by (apply StronglySorted_merge_sort; apply _).
  rewrite Hrows in Hall, Hsorted. apply elem_of_app in Hall as [Hin|[[= -> ->]|Hin]%elem_of_cons].
  - by destruct (Hb _ Hin).
  - unfold lookup_le. lia.
  - apply StronglySorted_app_1_r, StronglySorted_inv in Hsorted as [_ Hf]. by eapply (proj1 (Forall_forall _ _)) in Hf.
Qed.

(** The job found for an address is the right one.  A job is returned
    exactly when some job of that address (and chain), not an effects-only
    retry, stands for the current analyzer; it is such a job; and none that
    stands sorts before it: a job that stands on its own columns is preferred,
    then the most recently updated.  The one-row shortcut, the prefilter of the
    statement and the memo lose nothing. *)
Theorem find_existing_job_best d addr chain :
  best_standing d (existing_job_matches addr chain) (find_existing_job_for_address d addr chain).
Proof.
  apply first_standing_best. unfold find_existing_job_for_address, existing_job_rows.
  set (rows := ordered_rows _ d).
  assert (forall row, row ∈ rows -> jobs d !! row.1 = Some row.2) as Hr
    by (intros [id j] Hin; by apply ordered_rows_elem in Hin as [? _]).
  destruct rows as [|[id first] rest] eqn:Erows; [intros row' []%not_elem_of_nil|].
  destruct (is_active first || _) eqn:Ha; [|by apply first_standing_ok; [apply memo_ok_empty|]].
  exists [], rest. split_and!; [done| |intros row' []%not_elem_of_nil]. apply accepted_stands; [|done].
  assert ((id, first) ∈ rows) as Hin by (rewrite Erows; by left).
  by apply ordered_rows_elem in Hin as [_ [_ ?]%andb_true_iff].
Qed.
End Theory.

(** ** Examples: job 1 copied job 2, which was stamped; job 3 copied itself. *)

Definition era_job (stamp : option Z) (donor : string) : Job :=
  mkJob (Some "0xabc") (Some 1) None None completed done None (Some {["cache_source_job_id" := PyStr donor]}) None
    None None None false 0 None None None None None stamp 0 0.

Definition era_db : db :=
  mkDb {[ 1%positive := era_job None "01"; 2%positive := era_job (Some 12) ""; 3%positive := era_job None "11" ]}
    [] ∅ None ∅.

Example era_copied : (@proven_analysis_schema_version bits_uuid era_db 1 (era_job None "01") ∅).1 = Some 12.
Proof. vm_compute. reflexivity. Qed.

Example era_cycle : (@proven_analysis_schema_version bits_uuid era_db 3 (era_job None "11") ∅).1 = None.
Proof. vm_compute. reflexivity. Qed.

Lemma proven_version_decides_witness :
  (@proven_analysis_schema_version bits_uuid era_db 1 (era_job None "01") ∅).1 = Some 12 /\
  @proves bits_uuid era_db (era_job None "01") 12.
Proof.
  pose proof (@proven_version_decides bits_uuid era_db 1 (era_job None "01") ∅
    (@memo_ok_empty bits_uuid era_db) ltac:(vm_compute; reflexivity)) as Hw.
  assert ((@proven_analysis_schema_version bits_uuid era_db 1 (era_job None "01") ∅).1 = Some 12) as He
    by (vm_compute; reflexivity).
  split; [exact He|].
  destruct (@proven_analysis_schema_version bits_uuid era_db 1 (era_job None "01") ∅) as [era memo].
  destruct Hw as [Hw _]. apply Hw. exact He.
Defined.
