(* ===== verification/Reconcile.v ===== *)
(** * One implementation job per deployment

    [db/queue/jobs.py]: [reconcile_impl_job_for_proxy], which decides whether a
    proxy's implementation needs a job of its own, and
    [adopt_current_proxy_context], which gives a lone implementation job the
    context of a proxy that points at it.  Between two statements of one call
    other sessions may commit anything; what they do is an argument. *)

From stdpp Require Import base gmap sets list strings sorting pretty.
From Stdlib Require Import String Ascii ZArith Lia.
From S2P Require Import Prelude Chains JobQueue JobQueueTheory JobContext StaticCache StaticCacheTheory.

Local Open Scope string_scope.
Local Open Scope Z_scope.

(** ** Lookups of implementation jobs *)

Inductive impl_kind := same_proxy | standalone | other_proxy.

(** [_impl_job_lookup]: the bound parameters, those of an unscoped shape absent. *)
Record lookup_params := mkLookup {
  p_impl : string;
  p_proxy : string;
  p_chain_id : option (option Z);
  p_root : option string;
}.

Definition impl_job_lookup (impl_lc proxy_lc : string) (chain root_job_id : option string) : lookup_params :=
  mkLookup impl_lc proxy_lc ((fun c => derive_job_chain_id (PyStr c) (Some impl_lc)) <$> chain) root_job_id.

(** [func.lower(Job.request["proxy_address"].as_string())] *)
Definition job_proxy (j : Job) : option string := str_lower <$> astext (request j) "proxy_address".

(** SQL equality with a bound value: NULL equals nothing. *)
Definition sql_eq {A} `{EqDecision A} (column value : option A) : bool :=
  bool_decide (is_Some column) && bool_decide (column = value).

(** The [where] clause of [_impl_job_stmt] but for the era prefilter. *)
Definition impl_job_matches (kind : impl_kind) (p : lookup_params) (j : Job) : bool :=
  sql_eq (address j) (Some (p_impl p)) &&
  sql_eq (str_lower <$> address j) (Some (p_impl p)) &&
  bool_decide (astext (request j) "effects_resume_work_id" = None) &&
  match p_chain_id p with Some z => sql_eq (job_chain_id j) z | None => true end &&
  match p_root p with Some r => sql_eq (astext (request j) "root_job_id") (Some r) | None => true end &&
  match kind with
  | same_proxy => sql_eq (job_proxy j) (Some (p_proxy p))
  | standalone => bool_decide (job_proxy j = None)
  | other_proxy => bool_decide (is_Some (job_proxy j)) && negb (bool_decide (job_proxy j = Some (p_proxy p)))
  end.

(** [_impl_job_stmt] of kinds [same_proxy] and [standalone]. *)
Definition impl_job_rows (kind : impl_kind) (p : lookup_params) (d : db) : list (positive * Job) :=
  ordered_rows (fun _ j => impl_job_matches kind p j && not_stamped_with_other_era j) d.

Inductive reconciled := skip | backpatched | spawn.

(** One turn of the loop: what other sessions commit between its statements, and
    the time of its conversion. *)
Record turn := mkTurn {
  before_standalone : db -> db;
  before_convert : db -> db;
  turn_now : Z;
}.

Definition quiet (now : Z) : turn := mkTurn (fun d => d) (fun d => d) now.

(** ** Adoption: the contract rows it reads *)

Record Contract := mkContract {
  contract_address : string;
  contract_chain : option string;
  contract_is_proxy : bool;
  contract_proxy_type : option string;
  contract_implementation : option string;
  contract_job_id : option positive;
}.

Inductive adopt_error := ProxyContextUnsettled (proxies : list string) | AdoptChainError (e : chain_error).

Definition POINTER_WRITING_STAGES : list JobStage := [discovery; static].

(** [_mainnet_coalesced_chain] *)
Definition mainnet_coalesced_chain (chain : string) : string :=
  str_lower (if String.eqb chain "" then "ethereum" else chain).

(** The [where] clause of the pointer statement. *)
Definition points_at (impl_lc chain : string) (c : Contract) : bool :=
  bool_decide (str_lower <$> contract_implementation c = Some impl_lc) &&
  negb (String.eqb (str_lower (contract_address c)) impl_lc) &&
  (contract_is_proxy c || bool_decide (contract_proxy_type c = Some "beacon")) &&
  String.eqb (str_lower (default "ethereum" (contract_chain c))) (mainnet_coalesced_chain chain).

(** A job still to write the pointer of one of these proxies. *)
Definition writes_pointer (d : db) (proxies : list string) (cid : Z) (id : positive) (j : Job) : bool :=
  match address j with Some a => bool_decide (str_lower a ∈ proxies) | None => false end &&
  bool_decide (job_chain_id j = Some cid) &&
  bool_decide (stage j ∈ POINTER_WRITING_STAGES) && is_active j &&
  bool_decide (astext (request j) "effects_resume_work_id" = None) &&
  negb (has_pending_dep d id).

(** [sorted({...})] of the addresses, blank ones left out. *)
Definition in_flight (d : db) (proxies : list string) (cid : Z) : list string :=
  merge_sort str_le (elements (list_to_set (C := gset string) (omap (fun row =>
    a ← address row.2; if String.eqb a "" then None else Some (str_lower a))
    (filter (fun row => writes_pointer d proxies cid row.1 row.2 = true) (map_to_list (jobs d)))))).

(** [isinstance(v, str) and v] *)
Definition nonblank (v : pyval) : option string := nonempty (as_str v).

Section Reconcile.
Context `{UUIDText}.

Definition first_standing_impl_job (d : db) (kind : impl_kind) (p : lookup_params) (eras : gmap string (option Z)) :
    option (positive * Job) * gmap string (option Z) :=
  let rows := impl_job_rows kind p d in
  match rows with
  | [] => (None, eras)
  | (id, first) :: _ =>
      let (stands, eras) := job_stands_for_current_analyzer d id first eras in
      if stands then (Some (id, first), eras) else first_standing d rows eras
  end.

(** The [while True] loop.  Each turn that goes round found a job another session
    converted meanwhile; [None] is a loop still going when the turns end. *)
Fixpoint reconcile_loop (turns : list turn) (p : lookup_params) (proxy_type : option string) (rel : string)
    (eras : gmap string (option Z)) (d : db) : option reconciled * db :=
  match turns with
  | [] => (None, d)
  | t :: turns =>
      let (same, eras) := first_standing_impl_job d same_proxy p eras in
      match same with
      | Some _ => (Some skip, d)
      | None =>
          let d := before_standalone t d in
          let (alone, eras) := first_standing_impl_job d standalone p eras in
          match alone with
          | None => (Some spawn, d)
          | Some (id, _) =>
              let (converted, d) :=
                convert_impl_job_to_proxy_context id (p_proxy p) proxy_type rel None (turn_now t) (before_convert t d) in
              if converted then (Some backpatched, d) else reconcile_loop turns p proxy_type rel eras d
          end
      end
  end.

(** The turns other sessions interfere with are followed by a quiet one. *)
Definition reconcile_impl_job_for_proxy (impl_addr proxy_addr : string) (proxy_type chain root_job_id : option string)
    (rel : string) (turns : list turn) (now : Z) (d : db) : option reconciled * db :=
  reconcile_loop (turns ++ [quiet now])%list
    (impl_job_lookup (str_lower impl_addr) (str_lower proxy_addr) chain root_job_id) proxy_type rel ∅ d.

(** ** Adoption *)

(** The first proxy with no standing implementation job of its own. *)
Fixpoint choose_proxy (d : db) (impl_lc chain : string) (proxies : list Contract) (eras : gmap string (option Z)) :
    option Contract :=
  match proxies with
  | [] => None
  | c :: proxies =>
      let p := impl_job_lookup impl_lc (str_lower (contract_address c)) (Some chain) None in
      let (own, eras) := first_standing_impl_job d same_proxy p eras in
      match own with
      | None => Some c
      | Some _ => choose_proxy d impl_lc chain proxies eras
      end
  end.

(** [contracts] are the contract rows in the order of their ids; [others] is
    what other sessions commit between the reads and the conversion. *)
Definition adopt_current_proxy_context (contracts : list Contract) (id : positive) (job : Job) (chain : string)
    (others : db -> db) (now : Z) (d : db) : adopt_error + (option string * db) :=
  let req := default ∅ (request job) in
  match nonblank (dict_get "proxy_address" req) with
  | Some carried => inr (Some carried, d)
  | None =>
      match nonempty (address job), dict_get "effects_resume_work_id" req with
      | Some addr, PyNone =>
          let impl_lc := str_lower addr in
          match filter (fun c => points_at impl_lc chain c = true) contracts with
          | [] => inr (None, d)
          | (first :: _) as proxies =>
              match chain_by_name (PyStr chain) with
              | Raise e => inl (AdoptChainError e)
              | Ok info =>
                  match in_flight d (map (fun c => str_lower (contract_address c)) proxies) (chain_id info) with
                  | (_ :: _) as unsettled => inl (ProxyContextUnsettled unsettled)
                  | [] =>
                      let chosen := default first (choose_proxy d impl_lc chain proxies ∅) in
                      let d := (convert_impl_job_to_proxy_context id (str_lower (contract_address chosen))
                                  (contract_proxy_type chosen) "implementation"
                                  (uuid_text <$> contract_job_id chosen) now (others d)).2 in
                      let stored := match jobs d !! id with Some j => default ∅ (request j) | None => ∅ end in
                      inr (nonblank (dict_get "proxy_address" stored), d)
                  end
              end
          end
      | _, _ => inr (None, d)
      end
  end.
End Reconcile.
