(* ===== verification/ReconcileTheory.v ===== *)
(** * What reconciling and adopting decide

    The lookups of [Reconcile] find the best standing job; a reconcile that runs
    alone answers by what stands, converts at most one job and is answered
    [skip] when repeated; interference can only delay it; adoption waits for
    unsettled pointers and then takes the first proxy still without a job. *)

From stdpp Require Import base gmap sets list strings sorting pretty.
From Stdlib Require Import String Ascii ZArith Lia.
From S2P Require Import Prelude Chains JobQueue JobQueueTheory JobContext StaticCache StaticCacheTheory Reconcile.

Local Open Scope string_scope.
Local Open Scope Z_scope.

(** ** Conversion keeps what the lookups read *)

Definition CONTEXT_KEYS : list string :=
  ["proxy_address"; "proxy_type"; RESTART_STATIC_REQUEST_KEY; "discovery_relationship"; "parent_job_id"].

Ltac not_context_key := apply (bool_decide_eq_true_1 _); vm_compute; reflexivity.

Lemma context_defaults_other rel parent k :
  k <> "discovery_relationship" -> k <> "parent_job_id" -> context_defaults rel parent !! k = None.
Proof.
  intros H1 H2. unfold context_defaults. rewrite lookup_insert_ne by done. unfold opt_binding.
  destruct (nonempty parent); [by rewrite lookup_singleton_ne|apply lookup_empty].
Qed.

Lemma converted_key pa pt rel parent now j k :
  k ∉ CONTEXT_KEYS ->
  (default ∅ (request (converted pa pt rel parent now j)) : gmap string pyval) !! k =
  (default ∅ (request j) : gmap string pyval) !! k.
Proof.
  unfold CONTEXT_KEYS. rewrite !not_elem_of_cons. intros (H1 & H2 & H3 & H4 & H5 & _).
  assert (merged_request (context_defaults rel parent) (request j) (context_patch pa pt) !! k =
          (default ∅ (request j) : gmap string pyval) !! k) as Hm.
  { rewrite merged_lookup, (context_patch_other pa pt k H1 H2), (context_defaults_other rel parent k H4 H5).
    by destruct (_ !! k). }
  unfold converted. destruct (_ && _); [|destruct (_ || _); exact Hm].
  unfold merge_row. cbn [request set_updated_at set_request].
  rewrite default_some, merged_lookup, lookup_singleton_ne, default_some, Hm by done.
  destruct ((default ∅ (request j) : gmap string pyval) !! k); [done|apply lookup_empty].
Qed.

Lemma converted_proxy_key pa pt rel parent now j :
  (default ∅ (request (converted pa pt rel parent now j)) : gmap string pyval) !! "proxy_address" = Some (PyStr pa).
Proof.
  assert (merged_request (context_defaults rel parent) (request j) (context_patch pa pt) !! "proxy_address" = Some (PyStr pa)) as Hm
    by (rewrite merged_lookup, context_patch_proxy; done).
  unfold converted. destruct (_ && _); [|destruct (_ || _); exact Hm].
  unfold merge_row. cbn [request set_updated_at set_request].
  by rewrite default_some, merged_lookup, lookup_singleton_ne, default_some, Hm by done.
Qed.

Lemma astext_none_get r k : astext r k = None -> dict_get k (default ∅ r) = PyNone.
Proof.
  rewrite astext_lookup. unfold dict_get.
  by destruct ((default ∅ r : gmap string pyval) !! k) as [[|[]| | | |]|].
Qed.

Lemma converted_astext pa pt rel parent now j k :
  k ∉ CONTEXT_KEYS -> astext (request (converted pa pt rel parent now j)) k = astext (request j) k.
Proof. intros Hk. by rewrite !astext_lookup, converted_key. Qed.

Lemma converted_columns pa pt rel parent now j :
  let j' := converted pa pt rel parent now j in
  address j' = address j /\ job_chain_id j' = job_chain_id j /\ analysis_schema_version j' = analysis_schema_version j.
Proof. cbv zeta. unfold converted. destruct (_ && _); [|destruct (_ || _)]; done. Qed.

Lemma donor_text_lookup `{UUIDText} j :
  donor_text j = let v := dict_get "cache_source_job_id" (default ∅ (request j)) in
                 if py_truthy v then Some (py_str v) else None.
Proof. unfold donor_text. by destruct (request j). Qed.

Section Theory.
Context `{UUIDText}.

(** Rows that agree on what the donor walk reads, and tables of such rows. *)
Definition same_era_row (j j' : Job) : Prop :=
  analysis_schema_version j = analysis_schema_version j' /\ donor_text j = donor_text j'.

Definition same_eras (d d' : db) : Prop := forall u, option_Forall2 same_era_row (jobs d !! u) (jobs d' !! u).

Lemma proves_same_eras d d' j v : same_eras d d' -> proves d j v -> forall j', same_era_row j j' -> proves d' j' v.
Proof.
  intros Hd Hp. induction Hp as [j v Hv|j t j1 v Hn Ht Hr Hp IH]; intros j' [Ha Hdt].
  - apply proves_stamped. congruence.
  - unfold donor_row in Hr. destruct (uuid_parse t) as [u|] eqn:Hu; [|done]. cbn in Hr.
    specialize (Hd u). rewrite Hr in Hd. inversion Hd as [? j2 Hs Hj1 Hj2|]; subst.
    apply (proves_donor d' j' t j2); [congruence|congruence|unfold donor_row; by rewrite Hu|by apply IH].
Qed.

Lemma same_era_row_refl j : same_era_row j j.
Proof. done. Qed.

Lemma same_eras_sym d d' : same_eras d d' -> same_eras d' d.
Proof. intros Hd u. specialize (Hd u). inversion Hd as [? ? []|]; constructor; split; congruence. Qed.

Lemma same_eras_put d id j j' : jobs d !! id = Some j -> same_era_row j j' -> same_eras d (put_job id j' d).
Proof.
  intros Hj Hs u. rewrite jobs_put. destruct (decide (u = id)) as [->|].
  - rewrite lookup_insert_eq, Hj. by constructor.
  - rewrite lookup_insert_ne by done. destruct (jobs d !! u); constructor. done.
Qed.

Lemma stands_same_eras d d' j j' :
  same_eras d d' -> same_era_row j j' -> status j = status j' -> stands d j -> stands d' j'.
Proof.
  intros Hd Hs Hst. unfold stands. rewrite <- Hst. destruct (status j); try done.
  - intros Hp. by eapply proves_same_eras.
  - intros Hp v Hv. apply Hp. eapply proves_same_eras; [by apply same_eras_sym|done|]. destruct Hs. by split.
Qed.

Lemma converted_same_era pa pt rel parent now j : same_era_row j (converted pa pt rel parent now j).
Proof.
  split; [by destruct (converted_columns pa pt rel parent now j) as (_ & _ & ->)|].
  rewrite !donor_text_lookup. unfold dict_get. by rewrite converted_key by not_context_key.
Qed.

(** A job that stood still stands once converted. *)
Lemma converted_stands pa pt rel parent now d id j :
  jobs d !! id = Some j -> stands d j ->
  let j' := converted pa pt rel parent now j in stands (put_job id j' d) j'.
Proof.
  intros Hj Hs j'. pose proof (converted_phase pa pt rel parent now j) as Hp. cbv zeta in Hp. fold j' in Hp.
  pose proof (converted_same_era pa pt rel parent now j) as He. fold j' in He.
  assert (status j' = status j \/ status j' = queued \/ status j' = processing) as [Hst|[Hst|Hst]].
  { destruct (_ && _); [tauto|]. destruct (_ || _); tauto. }
  - eapply stands_same_eras; [by apply (same_eras_put d id j)|done|done|done].
  - unfold stands. by rewrite Hst.
  - unfold stands. by rewrite Hst.
Qed.

(** Its row then answers the lookups of the proxy it was given. *)
Lemma converted_matches p pt rel parent now j :
  str_lower (p_proxy p) = p_proxy p -> impl_job_matches standalone p j = true ->
  impl_job_matches same_proxy p (converted (p_proxy p) pt rel parent now j) = true.
Proof.
  intros Hl. unfold impl_job_matches, job_proxy. destruct (converted_columns (p_proxy p) pt rel parent now j) as (-> & -> & _).
  rewrite converted_proxy. cbn [fmap option_fmap option_map]. rewrite Hl.
  rewrite !converted_astext by not_context_key.
  rewrite !andb_true_iff. intros [Hs _]. split; [exact Hs|]. unfold sql_eq. by rewrite !bool_decide_eq_true_2.
Qed.

(** ** The lookups *)

Lemma impl_rows_in_table kind p d row : row ∈ impl_job_rows kind p d -> jobs d !! row.1 = Some row.2.
Proof. destruct row as [id j]. unfold impl_job_rows. by intros [? _]%ordered_rows_elem. Qed.

Lemma first_standing_impl_ok d kind p eras :
  memo_ok d eras ->
  best_standing d (impl_job_matches kind p) (first_standing_impl_job d kind p eras).1 /\
  memo_ok d (first_standing_impl_job d kind p eras).2.
Proof.
  intros Hm. unfold first_standing_impl_job.
  assert (forall row, row ∈ impl_job_rows kind p d -> jobs d !! row.1 = Some row.2) as Hr by apply impl_rows_in_table.
  pose proof (first_standing_best d (impl_job_matches kind p)) as Hbest. fold (impl_job_rows kind p d) in Hbest.
  destruct (impl_job_rows kind p d) as [|[id first] rest] eqn:Erows.
  { split; [|done]. apply Hbest. intros row' []%not_elem_of_nil. }
  assert (jobs d !! id = Some first) as Hf by (apply (Hr (id, first)); by left).
  destruct (job_stands_ok d id first eras Hm Hf) as [Hs Hm'].
  destruct (job_stands_for_current_analyzer d id first eras) as [[] eras']; cbn [fst snd] in *.
  - split; [|done]. apply Hbest. exists [], rest. split_and!; [done|by apply Hs|intros row' []%not_elem_of_nil].
  - destruct (first_standing_ok d ((id, first) :: rest) eras' Hm' Hr) as [Hfs Hm'']. auto.
Qed.

Lemma first_standing_elem d rows memo row : (first_standing d rows memo).1 = Some row -> row ∈ rows.
Proof.
  revert memo. induction rows as [|[id j] rows IH]; intros memo; cbn; [done|].
  destruct (job_stands_for_current_analyzer d id j memo) as [[] memo']; cbn.
  - intros [= <-]. by left.
  - intros Hf. right. by eapply IH.
Qed.

(** Even on a memo another session's writes made stale. *)
Lemma first_standing_impl_elem d kind p eras id j :
  (first_standing_impl_job d kind p eras).1 = Some (id, j) ->
  jobs d !! id = Some j /\ impl_job_matches kind p j = true.
Proof.
  intros Hf. assert ((id, j) ∈ impl_job_rows kind p d) as Hin.
  { revert Hf. unfold first_standing_impl_job. destruct (impl_job_rows kind p d) as [|[i f] rest]; [done|].
    destruct (job_stands_for_current_analyzer d i f eras) as [[] eras']; [intros [= <- <-]; by left|apply first_standing_elem]. }
  unfold impl_job_rows in Hin. by apply ordered_rows_elem in Hin as [? [? _]%andb_true_iff].
Qed.

Lemma standalone_has_no_context p j : impl_job_matches standalone p j = true -> astext (request j) "proxy_address" = None.
Proof.
  unfold impl_job_matches, job_proxy. rewrite !andb_true_iff, bool_decide_eq_true. intros [_ Hp].
  by destruct (astext (request j) "proxy_address").
Qed.

Lemma convert_standalone p j id pt rel parent now d :
  jobs d !! id = Some j -> impl_job_matches standalone p j = true ->
  convert_impl_job_to_proxy_context id (p_proxy p) pt rel parent now d =
    (true, put_job id (converted (p_proxy p) pt rel parent now j) d).
Proof.
  intros Hj Hm. rewrite convert_row, Hj, (standalone_has_no_context p j Hm).
  by rewrite bool_decide_eq_false_2 by apply is_Some_None.
Qed.

(** ** Reconciling *)

(** Some job of the table matches the lookup and stands. *)
Definition has_standing (d : db) (kind : impl_kind) (p : lookup_params) : Prop :=
  exists id j, jobs d !! id = Some j /\ impl_job_matches kind p j = true /\ stands d j.

Lemma best_none d kind p : best_standing d (impl_job_matches kind p) None <-> ~ has_standing d kind p.
Proof.
  split; [intros Hb (id & j & Hj & Hm & Hs); by eapply Hb|].
  intros Hn id j Hj Hm Hs. apply Hn. by exists id, j.
Qed.

Lemma lookup_decides d kind p eras :
  memo_ok d eras ->
  memo_ok d (first_standing_impl_job d kind p eras).2 /\
  match (first_standing_impl_job d kind p eras).1 with
  | Some (id, j) => jobs d !! id = Some j /\ impl_job_matches kind p j = true /\ stands d j
  | None => ~ has_standing d kind p
  end.
Proof.
  intros Hm. destruct (first_standing_impl_ok d kind p eras Hm) as [Hb Hm']. split; [done|].
  destruct (first_standing_impl_job d kind p eras).1 as [[id j]|]; [|by apply best_none].
  destruct Hb as (? & ? & ? & _). done.
Qed.

Lemma reconcile_skips turns p pt rel d :
  turns <> [] -> has_standing d same_proxy p -> reconcile_loop turns p pt rel ∅ d = (Some skip, d).
Proof.
  intros Ht Hs. destruct turns as [|t turns]; [done|]. cbn [reconcile_loop].
  destruct (lookup_decides d same_proxy p ∅ (memo_ok_empty d)) as [_ Hl].
  by destruct (first_standing_impl_job d same_proxy p ∅) as [[[id j]|] eras].
Qed.

Definition reconcile_params (impl_addr proxy_addr : string) (chain root : option string) : lookup_params :=
  impl_job_lookup (str_lower impl_addr) (str_lower proxy_addr) chain root.

(** A reconcile that runs alone answers by what stands, and is idempotent.
    [skip] when a job of that implementation and proxy stands; otherwise
    [backpatched] when a job without a proxy stands, and then exactly one such
    job is given the proxy, still stands and now answers for the pair; otherwise
    [spawn].  Nothing else is written, the loop always answers, and unless the
    answer was [spawn] every later reconcile of the pair answers [skip]. *)
Theorem reconcile_alone impl proxy pt chain root rel now d turns pt' rel' now' :
  let p := reconcile_params impl proxy chain root in
  let (answer, d') := reconcile_impl_job_for_proxy impl proxy pt chain root rel [] now d in
  match answer with
  | Some skip => has_standing d same_proxy p /\ d' = d
  | Some backpatched =>
      ~ has_standing d same_proxy p /\
      exists id j j', jobs d !! id = Some j /\ impl_job_matches standalone p j = true /\ stands d j /\
        d' = put_job id j' d /\ impl_job_matches same_proxy p j' = true /\ stands d' j'
  | Some spawn => ~ has_standing d same_proxy p /\ ~ has_standing d standalone p /\ d' = d
  | None => False
  end /\
  (answer <> Some spawn -> reconcile_impl_job_for_proxy impl proxy pt' chain root rel' turns now' d' = (Some skip, d')).
Proof.
  intros p. unfold reconcile_impl_job_for_proxy at 1. fold (reconcile_params impl proxy chain root). fold p.
  assert (forall d0, has_standing d0 same_proxy p ->
    reconcile_impl_job_for_proxy impl proxy pt' chain root rel' turns now' d0 = (Some skip, d0)) as Hskip
    by (intros d0 H0; apply reconcile_skips; [by destruct turns|exact H0]).
  cbn [app reconcile_loop quiet before_standalone before_convert turn_now].
  destruct (lookup_decides d same_proxy p ∅ (memo_ok_empty d)) as [Hm1 Hl1].
  destruct (first_standing_impl_job d same_proxy p ∅) as [[[id j]|] eras]; cbn [fst snd] in *.
  { assert (has_standing d same_proxy p) by (exists id, j; tauto). auto. }
  destruct (lookup_decides d standalone p eras Hm1) as [_ Hl2].
  destruct (first_standing_impl_job d standalone p eras) as [[[id j]|] eras']; cbn [fst] in *; [|by split].
  destruct Hl2 as (Hj & Hm & Hs). rewrite (convert_standalone p j) by done.
  pose proof (converted_stands (p_proxy p) pt rel None now d id j Hj Hs) as Hst. cbv zeta in Hst.
  assert (impl_job_matches same_proxy p (converted (p_proxy p) pt rel None now j) = true) as Hmm
    by (apply converted_matches; [apply str_lower_idemp|done]).
  set (j' := converted (p_proxy p) pt rel None now j) in *. split; [split; [done|]; exists id, j, j'; split_and!; done|].
  intros _. apply Hskip. exists id, j'. rewrite jobs_put, lookup_insert_eq. auto.
Qed.

(** Interference only delays a reconcile.  Whatever other sessions commit
    between its statements, for as many turns as they like, it answers once they
    let one turn pass; [skip] is never said without a job of the pair in the
    table, and [backpatched] never without having converted a job that had no
    proxy at the moment of the conversion. *)
Theorem reconcile_under_interference impl proxy pt chain root rel turns now d :
  let p := reconcile_params impl proxy chain root in
  exists answer d', reconcile_impl_job_for_proxy impl proxy pt chain root rel turns now d = (Some answer, d') /\
  match answer with
  | skip => exists id j, jobs d' !! id = Some j /\ impl_job_matches same_proxy p j = true
  | backpatched => exists id j j' d0, jobs d0 !! id = Some j /\ astext (request j) "proxy_address" = None /\
      d' = put_job id j' d0 /\ astext (request j') "proxy_address" = Some (str_lower proxy)
  | spawn => True
  end.
Proof.
  intros p. unfold reconcile_impl_job_for_proxy. fold (reconcile_params impl proxy chain root). fold p.
  generalize (∅ : gmap string (option Z)). revert d. induction turns as [|t turns IH]; intros d eras; cbn [app reconcile_loop].
  all: pose proof (first_standing_impl_elem d same_proxy p eras) as He1.
  all: destruct (first_standing_impl_job d same_proxy p eras) as [[[id j]|] eras1]; cbn [fst] in He1;
    [exists skip, d; split; [done|]; exists id, j; by apply He1|clear He1].
  - cbn [quiet before_standalone before_convert turn_now].
    pose proof (first_standing_impl_elem d standalone p eras1) as He.
    destruct (first_standing_impl_job d standalone p eras1) as [[[id j]|] eras2]; cbn [fst] in He; [|by exists spawn, d].
    destruct (He id j eq_refl) as [Hj Hm]. rewrite (convert_standalone p j) by done.
    eexists backpatched, _. split; [done|]. eexists id, j, _, d. split_and!; [done| |done|apply converted_proxy].
    by eapply standalone_has_no_context.
  - destruct (first_standing_impl_job (before_standalone t d) standalone p eras1) as [[[id j]|] eras2]; [|by eexists spawn, _].
    rewrite convert_row. set (d0 := before_convert t (before_standalone t d)).
    destruct (jobs d0 !! id) as [j0|] eqn:Hj0; [|apply IH]. case_bool_decide as Hb; [apply IH|].
    eexists backpatched, _. split; [done|]. eexists id, j0, _, d0. split_and!; [done| |done|apply converted_proxy].
    by apply eq_None_not_Some.
Qed.

(** ** Adopting *)

(** A standing implementation job of the proxy's own. *)
Definition has_own_job (d : db) (impl_lc chain : string) (c : Contract) : Prop :=
  has_standing d same_proxy (impl_job_lookup impl_lc (str_lower (contract_address c)) (Some chain) None).

Lemma choose_proxy_spec d impl_lc chain proxies : forall eras,
  memo_ok d eras ->
  match choose_proxy d impl_lc chain proxies eras with
  | Some c => exists before after, proxies = (before ++ c :: after)%list /\ ~ has_own_job d impl_lc chain c /\
                forall c', c' ∈ before -> has_own_job d impl_lc chain c'
  | None => forall c', c' ∈ proxies -> has_own_job d impl_lc chain c'
  end.
Proof.
  induction proxies as [|c proxies IH]; intros eras Hm; cbn [choose_proxy]; [intros c' []%not_elem_of_nil|].
  destruct (lookup_decides d same_proxy (impl_job_lookup impl_lc (str_lower (contract_address c)) (Some chain) None) eras Hm)
    as [Hm' Hl].
  destruct (first_standing_impl_job d same_proxy _ eras) as [[[id j]|] eras']; cbn [fst snd] in *.
  2: { exists [], proxies. split_and!; [done|done|intros c' []%not_elem_of_nil]. }
  assert (has_own_job d impl_lc chain c) as Hown by (exists id, j; done).
  specialize (IH eras' Hm'). destruct (choose_proxy d impl_lc chain proxies eras') as [c0|].
  - destruct IH as (before & after & -> & Hn & Hb). exists (c :: before), after. split_and!; [done|done|].
    intros c' [-> | Hin]%elem_of_cons; [done|by apply Hb].
  - intros c' [-> | Hin]%elem_of_cons; [done|by apply IH].
Qed.

(** The proxy taken: the first without a job of its own, else the first. *)
Definition taken (d : db) (impl_lc chain : string) (proxies : list Contract) (c : Contract) : Prop :=
  exists before after, proxies = (before ++ c :: after)%list /\
    ((~ has_own_job d impl_lc chain c /\ forall c', c' ∈ before -> has_own_job d impl_lc chain c') \/
     (before = [] /\ forall c', c' ∈ proxies -> has_own_job d impl_lc chain c')).

Lemma chosen_taken d impl_lc chain first rest :
  taken d impl_lc chain (first :: rest) (default first (choose_proxy d impl_lc chain (first :: rest) ∅)).
Proof.
  pose proof (choose_proxy_spec d impl_lc chain (first :: rest) ∅ (memo_ok_empty d)) as Hc.
  destruct (choose_proxy d impl_lc chain (first :: rest) ∅) as [c|]; cbn [default].
  - destruct Hc as (before & after & Hp & Hn & Hb). exists before, after. auto.
  - exists [], rest. auto.
Qed.

Lemma in_flight_elem d proxies cid a :
  a ∈ in_flight d proxies cid <->
  exists id j x, jobs d !! id = Some j /\ writes_pointer d proxies cid id j = true /\ address j = Some x /\ x <> "" /\
    a = str_lower x.
Proof.
  unfold in_flight. rewrite (merge_sort_Permutation _ _), elem_of_elements, elem_of_list_to_set, list_elem_of_omap.
  split.
  - intros ([id j] & [Hw Hin%elem_of_map_to_list]%list_elem_of_filter & Hx). cbn in Hw, Hx.
    destruct (address j) as [x|] eqn:Ha; [|done]. cbn in Hx. destruct (String.eqb_spec x ""); [done|].
    injection Hx as <-. exists id, j, x. auto.
  - intros (id & j & x & Hj & Hw & Ha & Hx & ->). exists (id, j). split.
    + apply list_elem_of_filter. split; [done|]. by apply elem_of_map_to_list.
    + cbn. rewrite Ha. cbn. by rewrite (proj2 (String.eqb_neq x "") Hx).
Qed.

Lemma writer_address d proxies cid id j :
  writes_pointer d proxies cid id j = true -> exists x, address j = Some x /\ str_lower x ∈ proxies.
Proof.
  unfold writes_pointer. destruct (address j) as [x|]; [|done].
  rewrite !andb_true_iff, bool_decide_eq_true. intros (((((Hin & _) & _) & _) & _) & _). eauto.
Qed.

Lemma nonempty_some s : s <> "" -> nonempty (Some s) = Some s.
Proof. intros Hs. unfold nonempty. by rewrite (proj2 (String.eqb_neq s "") Hs). Qed.

Lemma lower_nonempty s : s <> "" -> str_lower s <> "".
Proof. by rewrite <- !String.eqb_neq, str_lower_empty. Qed.

(** The proxies reported are those with a job still to write their pointer. *)
Lemma in_flight_unsettled d (proxies : list Contract) cid a :
  (forall c, c ∈ proxies -> contract_address c <> "") ->
  a ∈ in_flight d (map (fun c => str_lower (contract_address c)) proxies) cid <->
  exists id j, jobs d !! id = Some j /\ str_lower <$> address j = Some a /\
    writes_pointer d (map (fun c => str_lower (contract_address c)) proxies) cid id j = true.
Proof.
  intros Hc. rewrite in_flight_elem. split.
  - intros (id & j & x & Hj & Hw & Hx & _ & ->). exists id, j. by rewrite Hx.
  - intros (id & j & Hj & Hl & Hw). destruct (writer_address _ _ _ _ _ Hw) as (x & Hx & Hin). rewrite Hx in Hl.
    injection Hl as <-. exists id, j, x. split_and!; try done. intros ->.
    apply list_elem_of_In, in_map_iff in Hin as (c & Hlow & Hcin%list_elem_of_In).
    by destruct (lower_nonempty _ (Hc c Hcin)).
Qed.

Lemma adopt_converts c id job rel parent now d :
  jobs d !! id = Some job -> astext (request job) "proxy_address" = None -> contract_address c <> "" ->
  let proxy := str_lower (contract_address c) in
  let d' := (convert_impl_job_to_proxy_context id proxy (contract_proxy_type c) rel parent now d).2 in
  nonblank (dict_get "proxy_address" (match jobs d' !! id with Some j => default ∅ (request j) | None => ∅ end)) = Some proxy /\
  exists j', d' = put_job id j' d /\ astext (request j') "proxy_address" = Some proxy.
Proof.
  intros Hj Hp Hne proxy d'.
  assert (d' = put_job id (converted proxy (contract_proxy_type c) rel parent now job) d) as ->.
  { subst d'. rewrite convert_row, Hj, Hp. by rewrite bool_decide_eq_false_2 by apply is_Some_None. }
  rewrite jobs_put, lookup_insert_eq. unfold dict_get. rewrite converted_proxy_key. split.
  - by apply nonempty_some, lower_nonempty.
  - eexists. split; [done|]. apply converted_proxy.
Qed.

(** Adoption decides only on settled pointers, and then by a fixed rule.
    For a job with an address, no proxy context and no effects-only retry: with
    no proxy on the chain pointing at it the job is left alone; a chain nobody
    knows is an error; while some claimable job of such a proxy is queued or
    running in a stage that rewrites the pointer, exactly those proxies are
    reported and nothing is decided; otherwise the job takes the first proxy (by
    row) that has no standing implementation job of its own, else the first,
    and that proxy's address is the answer. *)
Theorem adopt_decides contracts id job addr chain now d :
  jobs d !! id = Some job -> address job = Some addr -> addr <> "" ->
  astext (request job) "proxy_address" = None -> astext (request job) "effects_resume_work_id" = None ->
  (forall c, c ∈ contracts -> contract_address c <> "") ->
  let proxies := filter (fun c => points_at (str_lower addr) chain c = true) contracts in
  let unsettled cid a := exists id' j, jobs d !! id' = Some j /\ str_lower <$> address j = Some a /\
    writes_pointer d (map (fun c => str_lower (contract_address c)) proxies) cid id' j = true in
  match adopt_current_proxy_context contracts id job chain (fun d => d) now d with
  | inr (None, d') => proxies = [] /\ d' = d
  | inr (Some proxy, d') =>
      exists c j' info, taken d (str_lower addr) chain proxies c /\ proxy = str_lower (contract_address c) /\
        chain_by_name (PyStr chain) = Ok info /\ (forall a, ~ unsettled (chain_id info) a) /\
        d' = put_job id j' d /\ astext (request j') "proxy_address" = Some proxy
  | inl (ProxyContextUnsettled l) =>
      l <> [] /\ exists info, chain_by_name (PyStr chain) = Ok info /\ forall a, a ∈ l <-> unsettled (chain_id info) a
  | inl (AdoptChainError e) => proxies <> [] /\ chain_by_name (PyStr chain) = Raise e
  end.
Proof.
  intros Hj Ha Hne Hp He Hc proxies unsettled.
  assert (forall c, c ∈ proxies -> contract_address c <> "") as Hcp by (intros c [_ Hin]%list_elem_of_filter; by apply Hc).
  unfold adopt_current_proxy_context.
  rewrite (astext_none_get _ _ Hp), (astext_none_get _ _ He), Ha, (nonempty_some addr Hne). cbn [nonblank as_str nonempty].
  fold proxies. pose proof (fun cid a => in_flight_unsettled d proxies cid a Hcp : _ <-> unsettled cid a) as Hfl.
  clearbody unsettled proxies. destruct proxies as [|first rest]; [done|].
  destruct (chain_by_name (PyStr chain)) as [info|e]; [|done].
  specialize (Hfl (chain_id info)). destruct (in_flight d _ (chain_id info)) as [|a l].
  2: { split; [done|]. exists info. split; [done|]. intros a'. apply Hfl. }
  pose proof (chosen_taken d (str_lower addr) chain first rest) as Ht.
  set (chosen := default first _) in *.
  assert (contract_address chosen <> "") as Hch.
  { destruct Ht as (before & after & Hpr & _). apply Hcp. rewrite Hpr, elem_of_app, elem_of_cons. auto. }
  destruct (adopt_converts chosen id job "implementation" (uuid_text <$> contract_job_id chosen) now d Hj Hp Hch)
    as (Hnb & j' & Hd' & Hj'). rewrite Hnb.
  exists chosen, j', info. split_and!; try done. intros a Hu. by apply Hfl, not_elem_of_nil in Hu.
Qed.
End Theory.

(** ** Examples: a proxy at [0xp] points at the address of the demo jobs. *)

Definition demo_proxy : Contract := mkContract "0xP" None true (Some "eip1967") (Some "0xABC") (Some 9%positive).

Example reconcile_converts :
  (@reconcile_impl_job_for_proxy bits_uuid "0xABC" "0xP" None (Some "ethereum") None "implementation" [] 50 demo_db).1
  = Some backpatched.
Proof. vm_compute. reflexivity. Qed.

Lemma adopt_decides_witness :
  exists d' j', @adopt_current_proxy_context bits_uuid [demo_proxy] 2 (demo_job static processing (Some 7%positive) 20)
      "ethereum" (fun d => d) 50 demo_db = inr (Some "0xp", d') /\
    d' = put_job 2 j' demo_db /\ astext (request j') "proxy_address" = Some "0xp".
Proof.
  pose proof (@adopt_decides bits_uuid [demo_proxy] 2 (demo_job static processing (Some 7%positive) 20) "0xabc" "ethereum" 50
    demo_db ltac:(vm_compute; reflexivity) eq_refl ltac:(discriminate) ltac:(vm_compute; reflexivity)
    ltac:(vm_compute; reflexivity)) as Hw.
  cbv zeta in Hw.
  assert (forall c, c ∈ [demo_proxy] -> contract_address c <> "") as Hc
    by (intros c ->%list_elem_of_singleton; discriminate).
  specialize (Hw Hc).
  assert (exists d', @adopt_current_proxy_context bits_uuid [demo_proxy] 2 (demo_job static processing (Some 7%positive) 20)
      "ethereum" (fun d => d) 50 demo_db = inr (Some "0xp", d')) as [d' He] by (eexists; vm_compute; reflexivity).
  rewrite He in Hw. destruct Hw as (c & j' & info & _ & _ & _ & _ & Hd & Hj). by exists d', j'.
Defined.
