(* ===== verification/RetryPolicy.v ===== *)
(** * Retry policy

    [workers/retry_policy.py]: which exceptions are worth a retry, how many
    retries there are and when the next one is due; and the failure path of
    [workers/base.py], which applies the policy to a claimed job.  An exception
    is the list of the named classes it is an instance of, with the attributes
    the policy reads.  Seconds are exact rationals; [timedelta] rounds them to
    microseconds. *)

From stdpp Require Import base gmap sets list strings pretty.
From Stdlib Require Import String ZArith QArith Qround Qminmax Lia Lqa.
From S2P Require Import Prelude Chains JobQueue JobQueueTheory.

Local Open Scope string_scope.
Local Open Scope Z_scope.

(** ** Classification *)

Inductive Kind := transient | terminal | resource_exhausted.

#[export] Instance Kind_eq_dec : EqDecision Kind.
Proof. solve_decision. Defined.

(** The literal. *)
Definition kind_value (k : Kind) : string :=
  match k with transient => "transient" | terminal => "terminal" | resource_exhausted => "resource_exhausted" end.

Inductive exc_class :=
  | ResourceExhausted | DBAPIError | HTTPError
  | RequestsConnectionError | RequestsTimeout | ChunkedEncodingError | SocketTimeout | ReadTimeoutError
  | NewConnectionError | ProtocolError | ClassificationIncompleteError | CompilerUnavailableError | AnvilSpawnError
  | ForkRpcTimeoutError | ChildProcessKilled | StorageContentNotDetermined | StorageKeyAbsent | StorageUnavailable
  | Psycopg2OperationalError
  | PyValueError | PyTypeError | PyKeyError | PyAssertionError | StorageContentAbsent.

#[export] Instance exc_class_eq_dec : EqDecision exc_class.
Proof. solve_decision. Defined.

Inductive exc := mkExc {
  instance_of : list exc_class;
  connection_invalidated : bool;
  orig : option exc;
  response_status : option Z;
}.

Definition TRANSIENT_HTTP : list Z := [408; 425; 429; 500; 502; 503; 504; 522; 524].

Definition TRANSIENT_TYPES : list exc_class :=
  [RequestsConnectionError; RequestsTimeout; ChunkedEncodingError; SocketTimeout; ReadTimeoutError;
   NewConnectionError; ProtocolError; ClassificationIncompleteError; CompilerUnavailableError; AnvilSpawnError;
   ForkRpcTimeoutError; ChildProcessKilled; StorageContentNotDetermined; StorageKeyAbsent; StorageUnavailable;
   Psycopg2OperationalError].

Definition TERMINAL_TYPES : list exc_class :=
  [PyValueError; PyTypeError; PyKeyError; PyAssertionError; StorageContentAbsent].

(** [isinstance(exc, types)] *)
Definition isinstance (cls types : list exc_class) : bool := existsb (fun c => bool_decide (c ∈ types)) cls.

Fixpoint classify (e : exc) : Kind :=
  match e with
  | mkExc cls invalidated orig status =>
      if isinstance cls [ResourceExhausted] then resource_exhausted
      else
        let by_type :=
          if isinstance cls [HTTPError]
          then match status with
               | Some s => if bool_decide (s ∈ TRANSIENT_HTTP) then transient else terminal
               | None => terminal
               end
          else if isinstance cls TRANSIENT_TYPES then transient
          else if isinstance cls TERMINAL_TYPES then terminal
          else terminal in
        if isinstance cls [DBAPIError]
        then if invalidated then transient
             else match orig with Some o => classify o | None => by_type end
        else by_type
  end.

(** ** Budget and backoff *)

Definition DEFAULT_MAX_RETRIES : Z := 5.
Definition DEFAULT_RETRY_BASE_S : Q := 30.
Definition RETRY_CAP_S : Q := inject_Z (30 * 60).

(** [raw] is [PSAT_JOB_MAX_RETRIES]. *)
Definition max_retries (raw : option string) : Z :=
  match raw with
  | Some s => if String.eqb s "" then DEFAULT_MAX_RETRIES
              else match int_of_str s with Some n => Z.max 0 n | None => DEFAULT_MAX_RETRIES end
  | None => DEFAULT_MAX_RETRIES
  end.

(** [raw] is [PSAT_JOB_RETRY_BASE_S]; [to_float] is Python's [float] on text. *)
Definition retry_base_s (to_float : string -> option Q) (raw : option string) : Q :=
  match raw with
  | Some s => if String.eqb s "" then DEFAULT_RETRY_BASE_S
              else match to_float s with Some q => Qmax 0 q | None => DEFAULT_RETRY_BASE_S end
  | None => DEFAULT_RETRY_BASE_S
  end.

(** [timedelta(seconds=q)] in microseconds, ties to even. *)
Definition microseconds (q : Q) : Z :=
  let x := (q * inject_Z SECOND)%Q in
  let lo := Qfloor x in
  match Qcompare (x - inject_Z lo) (1 # 2) with
  | Lt => lo
  | Gt => lo + 1
  | Eq => if Z.even lo then lo else lo + 1
  end.

(** [None] is the [OverflowError] of multiplying a float by [2**n], [n] above
    1023.  [jitter] is the draw of [uniform(0.75, 1.25)]. *)
Definition compute_next_attempt (base jitter : Q) (retries now : Z) : option Z :=
  let safe_count := Z.max 0 retries in
  if 1023 <? safe_count then None
  else
    let delay := Qmin (base * inject_Z (2 ^ safe_count))%Q RETRY_CAP_S in
    let delay := Qmin (delay * jitter)%Q RETRY_CAP_S in
    Some (now + microseconds delay).

(** ** The failure path of [_execute_job]

    [j] is the claimed job and [clock] the worker's clock.  A backoff that
    overflows escapes the handler: [None]. *)
Definition handle_failure (max_retries : Z) (base jitter : Q) (id : positive) (j : Job) (e : exc) (err : string)
    (lease : option positive) (now clock : Z) (d : db) : option (queue_error + db) :=
  let kind := classify e in
  let prior_retry_count := retry_count j in
  let new_retry_count := prior_retry_count + 1 in
  let will_retry := bool_decide (kind = transient) && (new_retry_count <? max_retries) in
  if will_retry
  then
    next ← compute_next_attempt base jitter prior_retry_count clock;
    Some (requeue_job id err new_retry_count next lease now d)
  else
    let terminal_retry_count := if bool_decide (kind = transient) then Some new_retry_count else None in
    Some (finalize_terminal_failure id j err (kind_value kind) terminal_retry_count lease now clock d).

(** ** Backoff bounds *)

Lemma microseconds_close q :
  (q * inject_Z SECOND - (1 # 2) <= inject_Z (microseconds q) <= q * inject_Z SECOND + (1 # 2))%Q.
Proof.
  unfold microseconds. set (x := (q * inject_Z SECOND)%Q).
  pose proof (Qfloor_le x) as Hlo. pose proof (Qlt_floor x) as Hhi.
  rewrite inject_Z_plus in Hhi. change (inject_Z 1) with 1%Q in Hhi.
  assert (inject_Z (Qfloor x + 1) == inject_Z (Qfloor x) + 1)%Q as E by (rewrite inject_Z_plus; reflexivity).
  destruct (Qcompare_spec (x - inject_Z (Qfloor x)) (1 # 2)) as [H|H|H].
  - destruct (Z.even (Qfloor x)); rewrite ?E; lra.
  - lra.
  - rewrite E. lra.
Qed.

Lemma inject_le_Z a b : (inject_Z a <= inject_Z b + (1 # 2))%Q -> a <= b.
Proof.
  intros H. destruct (Z_le_gt_dec a b) as [|Hgt]; [done|]. exfalso.
  assert (inject_Z (b + 1) <= inject_Z a)%Q as H' by (rewrite <- Zle_Qle; lia).
  rewrite inject_Z_plus in H'. change (inject_Z 1) with 1%Q in H'. lra.
Qed.

Lemma cap_us : (RETRY_CAP_S * inject_Z SECOND == inject_Z (1800 * SECOND))%Q.
Proof. reflexivity. Qed.

(** The backoff is the documented one.  For a jitter within 25% the next
    attempt comes no earlier than now and no later than the half-hour cap, and
    within half a microsecond of [base * 2^n] seconds times the jitter, capped
    before and after. *)
Theorem backoff_bounded base jitter retries now :
  (0 <= base)%Q -> (3 # 4 <= jitter <= 5 # 4)%Q -> 0 <= retries <= 1023 ->
  exists t, compute_next_attempt base jitter retries now = Some t /\
    now <= t <= now + 1800 * SECOND /\
    let delay := Qmin (Qmin (base * inject_Z (2 ^ retries)) RETRY_CAP_S * jitter)%Q RETRY_CAP_S in
    (delay * inject_Z SECOND - (1 # 2) <= inject_Z (t - now) <= delay * inject_Z SECOND + (1 # 2))%Q /\
    ((3 # 4) * Qmin (base * inject_Z (2 ^ retries)) RETRY_CAP_S <= delay)%Q.
Proof.
  intros Hb [Hj1 Hj2] Hr. unfold compute_next_attempt. rewrite Z.max_r by lia.
  replace (1023 <? retries) with false by (symmetry; apply Z.ltb_ge; lia).
  set (raw := Qmin (base * inject_Z (2 ^ retries))%Q RETRY_CAP_S).
  set (delay := Qmin (raw * jitter)%Q RETRY_CAP_S).
  assert (0 <= raw <= RETRY_CAP_S)%Q as [Hraw0 Hraw1].
  { split; [|apply Q.le_min_r]. apply Q.min_glb; [|discriminate]. apply Qmult_le_0_compat; [done|].
    change 0%Q with (inject_Z 0). rewrite <- Zle_Qle. lia. }
  assert ((3 # 4) * raw <= delay)%Q as Hd.
  { apply Q.min_glb; [nra|]. apply Qle_trans with raw; [lra|done]. }
  assert (delay <= RETRY_CAP_S)%Q as Hcap by apply Q.le_min_r.
  pose proof (microseconds_close delay) as [H1 H2].
  eexists. split; [reflexivity|]. split.
  - assert (0 <= microseconds delay) as H0.
    { apply inject_le_Z. change (inject_Z 0) with 0%Q.
      assert (0 <= delay)%Q by lra. assert (0 <= delay * inject_Z SECOND)%Q; [|lra].
      apply Qmult_le_0_compat; [done|discriminate]. }
    assert (microseconds delay <= 1800 * SECOND); [|lia].
    apply inject_le_Z. rewrite <- cap_us.
    assert (delay * inject_Z SECOND <= RETRY_CAP_S * inject_Z SECOND)%Q; [|lra].
    apply Qmult_le_compat_r; [done|discriminate].
  - cbv zeta. replace (now + microseconds delay - now) with (microseconds delay) by lia. auto.
Qed.

Lemma backoff_bounded_witness :
  exists t, compute_next_attempt 30 (5 # 4) 3 1000 = Some t /\ 1000 <= t <= 1000 + 1800 * SECOND.
Proof.
  destruct (backoff_bounded 30 (5 # 4) 3 1000) as (t & H1 & H2 & _);
    [discriminate|split; discriminate|lia|]. exists t. auto.
Defined.

(** ** Retries are bounded *)

(** One failed attempt at job [id]: some worker claims it, runs its stage, and
    the exception goes through the failure path. *)
Definition attempt_fails (m : Z) (base jitter : Q) (id : positive) (d d' : db) : Prop :=
  exists boot worker ttl token locked now clock st j d1 e err,
    claim_job boot st worker ttl token locked now clock d = inr (Some (id, j), d1) /\
    exists now' clock', handle_failure m base jitter id j e err (Some token) now' clock' d1 = Some (inr d').

Lemma jobs_degrade j clock d : jobs (degrade_dependencies j clock d).2 = jobs d.
Proof. unfold degrade_dependencies. by destruct (String.eqb _ _). Qed.

(** After a failed attempt the job is queued with one retry more, below the
    budget, or terminally failed. *)
Lemma attempt_fails_row m base jitter id d d' j :
  attempt_fails m base jitter id d d' -> jobs d !! id = Some j -> ~ flagged j ->
  status j = queued /\ exists j', jobs d' !! id = Some j' /\ ~ flagged j' /\
    ((status j' = queued /\ retry_count j' = retry_count j + 1 /\ retry_count j + 1 < m) \/ status j' = failed_terminal).
Proof.
  intros (boot & worker & ttl & token & locked & now & clock & st & j0 & d1 & e & err & Hc & now' & clock' & Hf) Hj Hnf.
  destruct (claim_job_cases _ _ _ _ _ _ _ _ _ _ _ Hc) as [[? _]|(i & j1 & [= <- ->] & Hj1 & Hcl & Hd1 & _)]; [done|].
  assert (j1 = j) as -> by congruence. apply claimable_spec in Hcl as (_ & Hq & _). split; [done|].
  assert (jobs d1 !! id = Some (claimed worker token ttl now j)) as Hrow by by rewrite Hd1, lookup_insert_eq.
  set (jc := claimed worker token ttl now j) in *.
  assert (~ flagged jc) as Hnf' by done. assert (lease_ok (Some token) jc = true) as Hl by by apply bool_decide_eq_true_2.
  assert (restart_static_if_flagged now' jc = None) as Hr by by apply restart_none.
  unfold handle_failure in Hf. destruct (_ && _) eqn:Ew.
  - destruct (compute_next_attempt _ _ _ _) as [t|]; cbn [mbind option_bind] in Hf; [|done]. injection Hf as Hf.
    rewrite requeue_job_guarded, (guarded_ok _ _ _ _ _ Hrow Hl) in Hf. injection Hf as <-.
    unfold unless_flagged. rewrite Hr. eexists. split; [by rewrite jobs_put, lookup_insert_eq|].
    rewrite andb_true_iff, Z.ltb_lt in Ew. destruct Ew as [_ Ew].
    destruct (requeued_fields err (retry_count jc + 1) t now' jc) as (E1 & E2 & E3).
    split; [by apply (flagged_ext jc)|]. left. split_and!; [exact E2|exact E3|exact Ew].
  - injection Hf as Hf. unfold finalize_terminal_failure in Hf.
    assert (jobs (degrade_dependencies jc clock' d1).2 !! id = Some jc) as Hrow' by by rewrite jobs_degrade.
    rewrite fail_job_terminal_guarded, (guarded_ok _ _ _ _ _ Hrow' Hl) in Hf. injection Hf as <-.
    eexists. split; [by rewrite jobs_put, lookup_insert_eq|].
    match goal with |- context [terminal_row ?a ?b ?c ?n ?x] => destruct (terminal_fields a b c n x) as [E1 E2] end.
    split; [apply (flagged_ext jc); [by apply E2|done]|]. by right.
Qed.

(** No poison loop.  A job that fails on every attempt, with whatever
    exceptions and whoever claims it, is attempted at most [max(1, m - r)] times,
    [m] being the retry budget and [r] the retries already spent: after that it
    is terminally failed and cannot be claimed. *)
Theorem retries_bounded m base jitter id d d' j n :
  jobs d !! id = Some j -> ~ flagged j ->
  nsteps (attempt_fails m base jitter id) n d d' ->
  Z.of_nat n <= Z.max 1 (m - retry_count j).
Proof.
  intros Hj Hf Hn. revert j Hj Hf. induction Hn as [|n d d1 d2 Hs Hn IH]; intros j Hj Hf; [lia|].
  destruct (attempt_fails_row _ _ _ _ _ _ _ Hs Hj Hf) as (_ & j' & Hj' & Hf' & [(Hq & Hc & Hlt)|Ht]).
  - specialize (IH j' Hj' Hf'). rewrite Hc in IH. lia.
  - destruct Hn as [|n d1 d2 d3 Hs' _]; [lia|].
    destruct (attempt_fails_row _ _ _ _ _ _ _ Hs' Hj' Hf') as [Hq _]. congruence.
Qed.

(** The attempt the witness makes: the queued demo job fails with a timeout. *)
Definition demo_timeout : exc := mkExc [RequestsTimeout] false None None.

Lemma retries_bounded_witness :
  exists d', nsteps (attempt_fails 5 30 1 1) 1 demo_db d' /\ 1 <= Z.max 1 (5 - 0).
Proof.
  assert (exists d', attempt_fails 5 30 1 1 demo_db d') as [d' H].
  { eexists. exists None, "w2", 900, 8%positive, ∅, 100, 100, static. eexists _, _, demo_timeout, "timeout".
    split; [vm_compute; reflexivity|]. exists 200, 200. vm_compute. reflexivity. }
  exists d'. split; [by apply nsteps_once|].
  apply (retries_bounded 5 30 1 1 demo_db d' (demo_job static queued None 10) 1).
  - vm_compute. reflexivity.
  - vm_compute. discriminate.
  - by apply nsteps_once.
Defined.
