(* ===== verification/RateLimit.v ===== *)
(** * Sliding-window rate limiter

    [utils/ratelimit.py], [SlidingWindowRateLimiter]: a bucket of accepted hit
    times per key, pruned on use and swept every so many hits.  Time is counted
    in ticks, [TICKS] to the second.  The lock makes each call one step. *)

From stdpp Require Import base gmap sets list fin_maps.
From Stdlib Require Import ZArith Lia.
From S2P Require Import Prelude.

Local Open Scope Z_scope.

Definition TICKS : Z := 1000000.

Section limiter.
Context {K : Type} `{Countable K}.

Record Limiter := mkLimiter {
  limit : Z;
  window : Z;
  max_keys : Z;
  sweep_every : Z;
  buckets : gmap K (list Z);
  hits_since_sweep : Z;
  full_sweeps : Z;
}.

(** [__init__] *)
Definition new_limiter (lim win mk se : Z) : Limiter := mkLimiter lim win mk (Z.max 1 se) ∅ 0 0.

(** [while bucket and bucket[0] + window_s < now: bucket.popleft()] *)
Fixpoint prune (win now : Z) (bucket : list Z) : list Z :=
  match bucket with
  | [] => []
  | t :: rest => if t + win <? now then prune win now rest else bucket
  end.

Definition non_empty (b : list Z) : option (list Z) := match b with [] => None | _ => Some b end.

Definition sweep (now : Z) (s : Limiter) : Limiter :=
  mkLimiter (limit s) (window s) (max_keys s) (sweep_every s)
    (omap (fun b => non_empty (prune (window s) now b)) (buckets s)) 0 (full_sweeps s + 1).

Definition set_bucket (key : K) (b : list Z) (s : Limiter) : Limiter :=
  mkLimiter (limit s) (window s) (max_keys s) (sweep_every s) (<[key := b]> (buckets s)) (hits_since_sweep s) (full_sweeps s).

(** Seconds to wait, or [None] within budget. *)
Definition hit (key : K) (now : Z) (s : Limiter) : option Z * Limiter :=
  if limit s <=? 0 then (None, s)
  else
    let s := mkLimiter (limit s) (window s) (max_keys s) (sweep_every s) (buckets s) (hits_since_sweep s + 1) (full_sweeps s) in
    let s := if sweep_every s <=? hits_since_sweep s then sweep now s else s in
    match buckets s !! key with
    | None =>
        if max_keys s <=? Z.of_nat (size (buckets s)) then (Some (Z.max 1 (Z.quot (window s) TICKS)), s)
        else (None, set_bucket key [now] s)
    | Some bucket =>
        let bucket := prune (window s) now bucket in
        match bucket with
        | first :: _ =>
            if limit s <=? Z.of_nat (List.length bucket)
            then (Some (Z.max 0 (Z.quot (first + window s - now) TICKS) + 1), set_bucket key bucket s)
            else (None, set_bucket key (bucket ++ [now]) s)
        | [] => (None, set_bucket key [now] s)
        end
    end.

Definition reset (s : Limiter) : Limiter :=
  mkLimiter (limit s) (window s) (max_keys s) (sweep_every s) ∅ 0 0.

(** ** Pruning *)

Lemma prune_split win now b : exists dropped,
  b = dropped ++ prune win now b /\ Forall (fun t => t + win < now) dropped /\
  (forall t rest, prune win now b = t :: rest -> now <= t + win).
Proof.
  induction b as [|t b (dropped & E & Hd & Hh)]; cbn; [by exists []|].
  destruct (Z.ltb_spec (t + win) now).
  - exists (t :: dropped). cbn. rewrite <- E. split_and!; [done|by constructor|done].
  - exists []. split_and!; [done|constructor|]. by intros ? ? [= <- _].
Qed.

Lemma prune_length win now b : (List.length (prune win now b) <= List.length b)%nat.
Proof. destruct (prune_split win now b) as (dr & E & _). rewrite E at 2. rewrite length_app. lia. Qed.

(** What a key's bucket holds, an absent key holding nothing. *)
Definition bucket_of (key : K) (s : Limiter) : list Z := default [] (buckets s !! key).

Definition limits_ok (s : Limiter) : Prop :=
  (forall key, Z.of_nat (List.length (bucket_of key s)) <= Z.max 0 (limit s)) /\
  Z.of_nat (size (buckets s)) <= Z.max 0 (max_keys s).

Lemma sweep_bucket now s key : bucket_of key (sweep now s) = prune (window s) now (bucket_of key s).
Proof.
  unfold bucket_of, sweep. cbn. rewrite lookup_omap. destruct (buckets s !! key) as [b|]; [|done]. cbn.
  by destruct (prune (window s) now b).
Qed.

Lemma omap_size (f : list Z -> option (list Z)) (m : gmap K (list Z)) : (size (omap f m) <= size m)%nat.
Proof.
  rewrite <- !size_dom. apply subseteq_size. intros k. rewrite !elem_of_dom, lookup_omap.
  by destruct (m !! k) as [b|]; [eauto|intros [? [=]]].
Qed.

(** The state the checks run on: the hit counted, the sweep done if due. *)
Definition counted (now : Z) (s : Limiter) : Limiter :=
  let s := mkLimiter (limit s) (window s) (max_keys s) (sweep_every s) (buckets s) (hits_since_sweep s + 1) (full_sweeps s) in
  if sweep_every s <=? hits_since_sweep s then sweep now s else s.

(** Nothing but pruning separates a counted bucket from the stored one. *)
Lemma counted_bucket now s key :
  prune (window s) now (bucket_of key (counted now s)) = prune (window s) now (bucket_of key s) /\
  limit (counted now s) = limit s /\ window (counted now s) = window s /\ max_keys (counted now s) = max_keys s /\
  (size (buckets (counted now s)) <= size (buckets s))%nat.
Proof.
  unfold counted. destruct (_ <=? _); [|done]. rewrite sweep_bucket. cbn -[omap].
  split_and!; [|done|done|done|apply omap_size].
  destruct (prune_split (window s) now (bucket_of key s)) as (_ & _ & _ & Hh).
  change (bucket_of key _) with (bucket_of key s).
  destruct (prune (window s) now (bucket_of key s)) as [|t rest]; [done|]. cbn.
  rewrite (proj2 (Z.ltb_ge _ _)); [done|]. by eapply Hh.
Qed.

Lemma hit_counted key now s : 0 < limit s ->
  hit key now s =
    let c := counted now s in
    match buckets c !! key with
    | None =>
        if max_keys s <=? Z.of_nat (size (buckets c)) then (Some (Z.max 1 (Z.quot (window s) TICKS)), c)
        else (None, set_bucket key [now] c)
    | Some bucket =>
        let b := prune (window s) now bucket in
        match b with
        | first :: _ =>
            if limit s <=? Z.of_nat (List.length b)
            then (Some (Z.max 0 (Z.quot (first + window s - now) TICKS) + 1), set_bucket key b c)
            else (None, set_bucket key (b ++ [now]) c)
        | [] => (None, set_bucket key [now] c)
        end
    end.
Proof.
  intros Hl. unfold hit. rewrite (proj2 (Z.leb_gt _ _)) by done.
  destruct (counted_bucket now s key) as (_ & E1 & E2 & E3 & _). unfold counted in *. cbv zeta.
  by rewrite E1, E2, E3.
Qed.

Lemma bucket_set key key' b s :
  bucket_of key (set_bucket key' b s) = if decide (key' = key) then b else bucket_of key s.
Proof.
  unfold bucket_of, set_bucket. cbn. case_decide as E; [subst; by rewrite lookup_insert_eq|by rewrite lookup_insert_ne].
Qed.

(** The verdict and the buckets after a hit, in terms of the pruned bucket. *)
Lemma hit_spec key now s : 0 < limit s ->
  let b := prune (window s) now (bucket_of key s) in
  let (wait, s') := hit key now s in
  limit s' = limit s /\ window s' = window s /\ max_keys s' = max_keys s /\
  (forall k, k <> key -> bucket_of k s' = bucket_of k (counted now s)) /\
  match wait with
  | None => Z.of_nat (List.length b) < limit s /\ bucket_of key s' = b ++ [now] /\
      ((size (buckets s') <= size (buckets (counted now s)))%nat \/ Z.of_nat (size (buckets s')) <= max_keys s)
  | Some w => 1 <= w /\ bucket_of key s' = b /\ size (buckets s') = size (buckets (counted now s)) /\
      ((buckets (counted now s) !! key = None /\ max_keys s <= Z.of_nat (size (buckets (counted now s)))) \/
       exists first rest, b = first :: rest /\ is_Some (buckets s' !! key) /\ limit s <= Z.of_nat (List.length b) /\
         w = Z.max 0 (Z.quot (first + window s - now) TICKS) + 1)
  end.
Proof.
  intros Hl. cbv zeta. rewrite (hit_counted _ _ _ Hl). cbv zeta.
  destruct (counted_bucket now s key) as (Eb & E1 & E2 & E3 & _). rewrite <- Eb.
  set (c := counted now s) in *. unfold bucket_of in Eb |- *.
  destruct (buckets c !! key) as [bucket|] eqn:Ec; cbn [default] in *; unfold id in *.
  - assert (forall x, size (<[key := x]> (buckets c)) = size (buckets c)) as Hsz
      by (intros x; rewrite map_size_insert_Some; [done|by rewrite Ec]).
    assert (forall x k, k <> key -> bucket_of k (set_bucket key x c) = bucket_of k c) as Hother
      by (intros x k Hk; rewrite bucket_set; by rewrite decide_False).
    assert (forall x, bucket_of key (set_bucket key x c) = x) as Hsame
      by (intros x; rewrite bucket_set; by rewrite decide_True).
    assert (forall x, size (buckets (set_bucket key x c)) = size (buckets c)) as Hsz' by (intros x; apply Hsz).
    destruct (prune_split (window s) now bucket) as (_ & _ & _ & Hh).
    destruct (prune (window s) now bucket) as [|first rest] eqn:Ep.
    + split_and!; try done; [apply Hother|apply Hsame|left; rewrite Hsz'; done].
    + destruct (Z.leb_spec (limit s) (Z.of_nat (List.length (first :: rest)))).
      * split_and!; try done; [apply Hother|lia|apply Hsame|].
        right. exists first, rest. split_and!; try done. cbn. rewrite lookup_insert_eq. by eexists.
      * split_and!; try done; [apply Hother|apply Hsame|left; rewrite Hsz'; done].
  - destruct (Z.leb_spec (max_keys s) (Z.of_nat (size (buckets c)))).
    + split_and!; try done; [lia|by rewrite Ec|by left].
    + split_and!; try done.
      * intros k Hk. pose proof (bucket_set k key [now] c) as Hb. by rewrite decide_False in Hb.
      * pose proof (bucket_set key key [now] c) as Hb. by rewrite decide_True in Hb.
      * right. cbn. rewrite map_size_insert_None by done. lia.
Qed.

(** ** Memory is bounded *)

Lemma counted_limits now s : limits_ok s -> limits_ok (counted now s).
Proof.
  intros [H1 H2]. unfold counted. destruct (_ <=? _); [|by split]. split.
  - intros key. rewrite sweep_bucket. change (bucket_of key _) with (bucket_of key s). cbn [window limit sweep].
    pose proof (prune_length (window s) now (bucket_of key s)). specialize (H1 key). lia.
  - cbn -[omap]. pose proof (omap_size (fun b => non_empty (prune (window s) now b)) (buckets s)). lia.
Qed.

Lemma hit_limits key now s : 0 < limit s -> limits_ok s -> limits_ok (hit key now s).2.
Proof.
  intros Hl Hok. pose proof (counted_limits now s Hok) as [Hc1 Hc2]. destruct Hok as [H1 H2].
  pose proof (hit_spec key now s Hl) as Hs. destruct (counted_bucket now s key) as (_ & E1 & E2 & E3 & _).
  destruct (hit key now s) as [wait s']. cbn [snd].
  destruct Hs as (L1 & L2 & L3 & Hother & Hw).
  pose proof (prune_length (window s) now (bucket_of key s)) as Hlen.
  split.
  - intros k. rewrite L1. destruct (decide (k = key)) as [->|Hne].
    + specialize (H1 key). destruct wait as [w|].
      * destruct Hw as (_ & -> & _). lia.
      * destruct Hw as (Hlt & -> & _). rewrite length_app. cbn. lia.
    + rewrite Hother by done. specialize (Hc1 k). by rewrite E1 in Hc1.
  - rewrite L3. destruct wait as [w|].
    + destruct Hw as (_ & _ & -> & _). by rewrite E3 in Hc2.
    + destruct Hw as (_ & _ & [?|?]); [rewrite E3 in Hc2; lia|lia].
Qed.

(** ** Runs *)

(** The state after a sequence of hits, and the times one key was let through. *)
Fixpoint run (evs : list (K * Z)) (s : Limiter) : Limiter :=
  match evs with [] => s | (key, now) :: evs => run evs (hit key now s).2 end.

Fixpoint accepted (k : K) (evs : list (K * Z)) (s : Limiter) : list Z :=
  match evs with
  | [] => []
  | (key, now) :: evs =>
      let (wait, s') := hit key now s in
      if bool_decide (key = k) && bool_decide (wait = None) then now :: accepted k evs s' else accepted k evs s'
  end.

(** Times do not go back, starting from [last]. *)
Fixpoint ordered (last : Z) (evs : list (K * Z)) : Prop :=
  match evs with [] => True | (_, now) :: evs => last <= now /\ ordered now evs end.

(** The hits of [h] still inside the window that ends at [t]. *)
Definition in_window (win t : Z) (h : list Z) : list Z := filter (fun a => t <= a + win) h.

(** Every hit of the history, with those before it that are in its window, is
    within the limit. *)
Definition within (lim win : Z) (h : list Z) : Prop :=
  forall i t, h !! i = Some t -> Z.of_nat (List.length (in_window win t (take (S i) h))) <= lim.

(** The bucket is the history less hits that have left the window. *)
Definition tracks (k : K) (last : Z) (h : list Z) (s : Limiter) : Prop :=
  exists dropped, h = dropped ++ bucket_of k s /\ Forall (fun a => a + window s < last) dropped.

Lemma within_snoc lim win h t :
  within lim win h -> Z.of_nat (List.length (in_window win t (h ++ [t]))) <= lim -> within lim win (h ++ [t]).
Proof.
  intros Hh Ht i x Hx. destruct (decide (i < List.length h)%nat) as [Hi|Hi].
  - rewrite lookup_app_l in Hx by done. rewrite take_app_le by lia. by apply Hh.
  - rewrite lookup_app_r in Hx by lia. apply list_lookup_singleton_Some in Hx as [E <-].
    rewrite take_ge; [done|]. rewrite length_app. cbn. lia.
Qed.

Lemma in_window_dropped win t dropped b :
  Forall (fun a => a + win < t) dropped -> in_window win t (dropped ++ b) = in_window win t b.
Proof.
  intros Hd. unfold in_window. rewrite filter_app. replace (filter _ dropped) with (@nil Z); [done|].
  symmetry. induction Hd as [|a l Ha _ IH]; [done|]. rewrite filter_cons_False; [done|lia].
Qed.

Lemma tracks_hit k last h key now s :
  0 < limit s -> last <= now -> tracks k last h s -> within (limit s) (window s) h ->
  let (wait, s') := hit key now s in
  let h' := if bool_decide (key = k) && bool_decide (wait = None) then h ++ [now] else h in
  limit s' = limit s /\ window s' = window s /\ tracks k now h' s' /\ within (limit s) (window s) h'.
Proof.
  intros Hl Hle (dropped & Eh & Hd) Hw. pose proof (hit_spec key now s Hl) as Hs.
  destruct (hit key now s) as [wait s']. destruct Hs as (L1 & L2 & _ & Hother & Hk).
  split_and!; [done|done| |].
  all: assert (Forall (fun a => a + window s < now) dropped) as Hd' by (eapply Forall_impl; [exact Hd|cbn; lia]).
  all: destruct (prune_split (window s) now (bucket_of k s)) as (dr & Eb & Hdr & _).
  all: assert (Forall (fun a => a + window s < now) (dropped ++ dr)) as Hdd by by apply Forall_app.
  all: assert (h = (dropped ++ dr) ++ prune (window s) now (bucket_of k s)) as Eh' by by rewrite <- app_assoc, <- Eb.
  - unfold tracks. rewrite L2. case_bool_decide as Ek; [subst key|].
    + destruct wait as [w|]; cbn [andb].
      * rewrite bool_decide_eq_false_2 by done. destruct Hk as (_ & -> & _). exists (dropped ++ dr). done.
      * rewrite bool_decide_eq_true_2 by done. destruct Hk as (_ & -> & _). exists (dropped ++ dr).
        split; [|done]. by rewrite Eh' at 1; rewrite <- app_assoc.
    + cbn [andb]. rewrite Hother by done. unfold counted. destruct (_ <=? _); [|by exists dropped].
      rewrite sweep_bucket. by exists (dropped ++ dr).
  - case_bool_decide as Ek; [subst key|done]. destruct wait as [w|]; cbn [andb].
    + by rewrite bool_decide_eq_false_2.
    + rewrite bool_decide_eq_true_2 by done. destruct Hk as (Hlt & _). apply within_snoc; [done|].
      rewrite Eh', <- app_assoc, (in_window_dropped _ _ _ _ Hdd).
      pose proof (length_filter (fun a => now <= a + window s) (prune (window s) now (bucket_of k s) ++ [now])) as Hf.
      rewrite length_app in Hf. cbn [List.length] in Hf. unfold in_window. lia.
Qed.

Lemma accepted_within k last h evs s :
  0 < limit s -> ordered last evs -> tracks k last h s -> within (limit s) (window s) h ->
  within (limit s) (window s) (h ++ accepted k evs s).
Proof.
  revert last h s. induction evs as [|[key now] evs IH]; intros last h s Hl Ho Ht Hw; cbn [accepted].
  { by rewrite app_nil_r. }
  destruct Ho as [Hle Ho]. pose proof (tracks_hit k last h key now s Hl Hle Ht Hw) as Hs.
  destruct (hit key now s) as [wait s']. destruct Hs as (L1 & L2 & Ht' & Hw').
  rewrite <- L1, <- L2 in Hw' |- *. destruct (_ && _).
  - specialize (IH now _ s' ltac:(lia) Ho Ht' Hw'). by rewrite <- app_assoc in IH.
  - apply (IH now); [lia|done..].
Qed.

(** The limiter limits.  Started empty and hit by any keys at times that do
    not go back, sweeps and the key cap included, it never lets one key through
    more than [limit] times in any window: among the hits let through, each one
    and those within [window] before it are at most [limit]. *)
Theorem sliding_window_limit lim win mk se evs start k :
  0 < lim -> ordered start evs ->
  within lim win (accepted k evs (new_limiter lim win mk se)).
Proof.
  intros Hl Ho.
  assert (tracks k start [] (new_limiter lim win mk se)) as Ht.
  { exists []. split; [|constructor]. unfold bucket_of. cbn. by rewrite lookup_empty. }
  assert (within lim win []) as Hw by by intros i t.
  exact (accepted_within k start [] evs (new_limiter lim win mk se) Hl Ho Ht Hw).
Qed.

Lemma run_limits evs s : 0 < limit s -> limits_ok s ->
  limits_ok (run evs s) /\ limit (run evs s) = limit s /\ max_keys (run evs s) = max_keys s.
Proof.
  revert s. induction evs as [|[key now] evs IH]; intros s Hl Hok; cbn [run]; [done|].
  pose proof (hit_limits key now s Hl Hok) as Hok'. pose proof (hit_spec key now s Hl) as Hs.
  destruct (hit key now s) as [wait s']. cbn [snd] in *. destruct Hs as (L1 & _ & L3 & _).
  rewrite <- L1, <- L3. apply IH; [lia|done].
Qed.

Lemma omap_size_lt (f : list Z -> option (list Z)) (m : gmap K (list Z)) key b :
  m !! key = Some b -> f b = None -> (size (omap f m) < size m)%nat.
Proof.
  intros Hk Hf. rewrite <- !size_dom. apply subset_size. split.
  - intros k. rewrite !elem_of_dom, lookup_omap. by destruct (m !! k) as [x|]; [eauto|intros [? [=]]].
  - intros Hsub. assert (key ∈ dom (omap f m)) as Hin by (apply Hsub, elem_of_dom; eauto).
    rewrite elem_of_dom, lookup_omap, Hk in Hin. cbn in Hin. rewrite Hf in Hin. by destruct Hin.
Qed.

(** A key that only the sweep removed leaves room under the cap. *)
Lemma counted_room now s key :
  limits_ok s -> is_Some (buckets s !! key) -> buckets (counted now s) !! key = None ->
  Z.of_nat (size (buckets (counted now s))) < max_keys s.
Proof.
  intros [_ H2] [b Hb] Hn. assert (0 < size (buckets s))%nat as Hpos.
  { destruct (size (buckets s)) eqn:E; [|lia]. apply map_size_empty_inv in E. by rewrite E, lookup_empty in Hb. }
  unfold counted in *. destruct (_ <=? _); [|cbn in Hn; congruence]. cbn -[omap] in *.
  rewrite lookup_omap, Hb in Hn. cbn in Hn. pose proof (omap_size_lt (fun b => non_empty (prune (window s) now b)) _ _ _ Hb Hn). lia.
Qed.

(** The wait it asks for is enough.  After any run, if a key's hit is
    refused with a wait of [w] seconds (rather than by the key cap), then [w] is
    at least one and a hit of that key [w] seconds later is let through. *)
Theorem wait_suffices lim win mk se evs key now w s' :
  0 < lim ->
  let s := run evs (new_limiter lim win mk se) in
  hit key now s = (Some w, s') -> is_Some (buckets s' !! key) ->
  1 <= w /\ (hit key (now + w * TICKS) s').1 = None.
Proof.
  intros Hl s Hh Hsome. assert (limits_ok (new_limiter lim win mk se)) as Hok0.
  { split; [intros k; unfold bucket_of; cbn; rewrite lookup_empty; cbn; lia|cbn; rewrite map_size_empty; lia]. }
  destruct (run_limits evs (new_limiter lim win mk se) Hl Hok0) as (Hok & L1 & L3). fold s in Hok, L1, L3.
  assert (0 < limit s) as Hls by by rewrite L1.
  pose proof (hit_limits key now s Hls Hok) as Hok'. pose proof (hit_spec key now s Hls) as Hs.
  rewrite Hh in Hs, Hok'. cbn [snd] in Hok'. destruct Hs as (M1 & M2 & M3 & _ & Hw1 & Hb & _ & Hcase).
  split; [done|]. destruct Hcase as [[Habs _]|(first & rest & Eb & _ & Hlen & Hw)].
  { exfalso. rewrite (hit_counted _ _ _ Hls) in Hh. cbv zeta in Hh. rewrite Habs in Hh. destruct (_ <=? _); [|done].
    injection Hh as _ <-. rewrite Habs in Hsome. by destruct Hsome. }
  assert (0 < limit s') as Hls' by lia.
  pose proof (hit_spec key (now + w * TICKS) s' Hls') as Hs2. destruct (hit key (now + w * TICKS) s') as [[w2|] s2]; [|done].
  exfalso. destruct Hs2 as (_ & _ & _ & _ & _ & _ & _ & [[Habs Hcap]|(f2 & r2 & Eb2 & _ & Hlen2 & _)]).
  - pose proof (counted_room (now + w * TICKS) s' key Hok' Hsome Habs). lia.
  - rewrite Hb, Eb in Eb2, Hlen2. cbn [prune] in Hlen2.
    assert (first + window s' < now + w * TICKS) as Hexp.
    { rewrite M2, Hw. assert (first + window s - now < (Z.max 0 (Z.quot (first + window s - now) TICKS) + 1) * TICKS); [|lia].
      unfold TICKS. pose proof (Z.quot_rem' (first + window s - now) 1000000).
      pose proof (Z.rem_bound_abs (first + window s - now) 1000000). lia. }
    rewrite (proj2 (Z.ltb_lt _ _) Hexp) in Hlen2.
    pose proof (prune_length (window s') (now + w * TICKS) rest).
    destruct Hok' as [Hb1 _]. specialize (Hb1 key). rewrite Hb, Eb in Hb1. cbn [List.length] in Hb1. lia.
Qed.

End limiter.

(** Limit 2 in a ten-second window: the third hit is refused, the fourth comes
    when told to. *)
Definition demo_hits : list (nat * Z) := [(1%nat, 0); (1%nat, 1 * TICKS); (1%nat, 2 * TICKS); (1%nat, 12 * TICKS)].

Lemma sliding_window_limit_witness :
  within 2 (10 * TICKS) (accepted 1%nat demo_hits (new_limiter 2 (10 * TICKS) 100 4096)).
Proof. apply (sliding_window_limit 2 (10 * TICKS) 100 4096 demo_hits 0 1%nat); [lia|cbn; unfold TICKS; lia]. Defined.

Lemma wait_suffices_witness :
  (hit 1%nat (2 * TICKS + 9 * TICKS) (hit 1%nat (2 * TICKS) (run (take 2 demo_hits) (new_limiter 2 (10 * TICKS) 100 4096))).2).1 = None.
Proof.
  apply (wait_suffices 2 (10 * TICKS) 100 4096 (take 2 demo_hits) 1%nat (2 * TICKS) 9);
    [lia|vm_compute; reflexivity|vm_compute; eexists; reflexivity].
Defined.
