(* ===== verification/PyText.v ===== *)
(** * Python's conversions between text, bytes and integers

    [int(text, base)], [hex(n)], [bytes.fromhex], [bytes.hex], padding and slices,
    on ASCII text; a [bytes] value is a [string] of its bytes.  The round trips
    shared by the components that read hexadecimal text. *)

From stdpp Require Import base list strings sorting pretty.
From Stdlib Require Import String Ascii ZArith Lia.
From S2P Require Import Prelude.

Local Open Scope string_scope.
Local Open Scope Z_scope.

#[local] Arguments String.append !_ _ : simpl nomatch.

(** ** Digits *)

(** The value of a digit in bases up to 16. *)
Definition digit_of (base : Z) (c : ascii) : option Z :=
  let n := Z.of_N (N_of_ascii c) in
  let v := if (48 <=? n) && (n <=? 57) then n - 48
           else if (97 <=? n) && (n <=? 102) then n - 87
           else if (65 <=? n) && (n <=? 70) then n - 55 else 99 in
  if v <? base then Some v else None.

Definition is_hex (c : ascii) : bool := bool_decide (is_Some (digit_of 16 c)).

Definition hex_char (z : Z) : ascii := hex_digit (Z.to_N z).

Lemma digit_hex_char z : 0 <= z < 16 -> digit_of 16 (hex_char z) = Some z.
Proof.
  intros Hz. assert (z = 0 \/ z = 1 \/ z = 2 \/ z = 3 \/ z = 4 \/ z = 5 \/ z = 6 \/ z = 7 \/ z = 8 \/ z = 9 \/ z = 10 \/ z = 11 \/
    z = 12 \/ z = 13 \/ z = 14 \/ z = 15) as Hc by lia.
  repeat (destruct Hc as [-> | Hc]; [reflexivity|]). by rewrite Hc.
Qed.

(** ** [int(text, base)]

    Surrounding whitespace, a sign, for base 16 an optional [0x] with an optional
    underscore, then digits with single underscores between them. *)

Definition is_c_space (c : ascii) : bool :=
  let n := N_of_ascii c in ((9 <=? n)%N && (n <=? 13)%N) || (n =? 32)%N.

Fixpoint lstrip_with (p : ascii -> bool) (s : string) : string :=
  match s with EmptyString => s | String c s' => if p c then lstrip_with p s' else s end.

Fixpoint rstrip_with (p : ascii -> bool) (s : string) : string :=
  match s with
  | EmptyString => s
  | String c s' => match rstrip_with p s' with EmptyString => if p c then "" else String c "" | r => String c r end
  end.

(** [under]: the previous character does not allow an underscore or the end. *)
Fixpoint int_digits (base acc : Z) (under : bool) (s : string) : option Z :=
  match s with
  | EmptyString => if under then None else Some acc
  | String c s =>
      if Ascii.eqb c "_" then if under then None else int_digits base acc true s
      else match digit_of base c with Some d => int_digits base (acc * base + d) false s | None => None end
  end.

Definition skip_hex_prefix (s : string) : string :=
  match s with
  | String "0" (String "x" s') | String "0" (String "X" s') => match s' with String "_" s'' => s'' | _ => s' end
  | _ => s
  end.

Definition int_unsigned (base : Z) (s : string) : option Z :=
  int_digits base 0 true (if base =? 16 then skip_hex_prefix s else s).

Definition int_text (base : Z) (s : string) : option Z :=
  match rstrip_with is_c_space (lstrip_with is_c_space s) with
  | String "-" s => Z.opp <$> int_unsigned base s
  | String "+" s => int_unsigned base s
  | s => int_unsigned base s
  end.

(** [int(v)] for a value from JSON; [None] for the exceptions. *)
Definition py_int (v : pyval) : option Z :=
  match v with
  | PyBool b => Some (if b then 1 else 0)
  | PyInt z => Some z
  | PyStr s => int_text 10 s
  | _ => None
  end.

(** ** [hex(n)] *)

Fixpoint hex_loop (fuel : nat) (z : Z) (acc : string) : string :=
  match fuel with
  | O => acc
  | S fuel => let acc := String (hex_char (z mod 16)) acc in if z <? 16 then acc else hex_loop fuel (z / 16) acc
  end.

(** Each digit takes four bits. *)
Definition hex_text (z : Z) : string := "0x" ++ hex_loop (S (Z.to_nat (Z.log2 z))) z "".

Lemma int_hex_loop fuel : forall z u acc,
  0 <= z -> (Z.to_nat (Z.log2 z) < fuel)%nat -> int_digits 16 0 u (hex_loop fuel z acc) = int_digits 16 z false acc.
Proof.
  induction fuel as [|fuel IH]; intros z u acc Hz Hf; [lia|]. cbn [hex_loop].
  assert (Hd : forall a u, int_digits 16 a u (String (hex_char (z mod 16)) acc) = int_digits 16 (a * 16 + z mod 16) false acc).
  { intros a u'. assert (0 <= z mod 16 < 16) as Hm by (apply Z.mod_pos_bound; lia). cbn [int_digits].
    pose proof (digit_hex_char _ Hm) as Hdig. rewrite Hdig.
    destruct (Ascii.eqb_spec (hex_char (z mod 16)) "_") as [E|]; [by rewrite E in Hdig|done]. }
  destruct (Z.ltb_spec z 16) as [Hlt|Hge].
  - rewrite Hd. rewrite Z.mod_small by lia. done.
  - rewrite IH; [|apply Z.div_pos; lia|].
    + rewrite Hd. f_equal. pose proof (Z.div_mod z 16). lia.
    + assert (Z.log2 (z / 16) < Z.log2 z) as Hlog.
      { change 16 with (2 ^ 4). rewrite <- Z.shiftr_div_pow2 by lia. rewrite Z.log2_shiftr by lia.
        assert (4 <= Z.log2 z) by (apply Z.log2_le_pow2; lia). lia. }
      pose proof (Z.log2_nonneg (z / 16)). lia.
Qed.

Lemma hex_not_space c z : digit_of 16 c = Some z -> is_c_space c = false.
Proof. destruct c as [[] [] [] [] [] [] [] []]; done. Qed.

Lemma lstrip_none p s : str_forall (fun c => negb (p c)) s = true -> lstrip_with p s = s.
Proof. destruct s as [|c s]; cbn; [done|]. by destruct (p c). Qed.

Lemma rstrip_none p s : str_forall (fun c => negb (p c)) s = true -> rstrip_with p s = s.
Proof.
  induction s as [|c s IH]; cbn; [done|]. intros [Hc Hs]%andb_true_iff. rewrite (IH Hs).
  destruct s; [|done]. by destruct (p c).
Qed.

Lemma hex_loop_clean fuel : forall z acc, str_forall (fun c => negb (is_c_space c)) acc = true -> 0 <= z ->
  str_forall (fun c => negb (is_c_space c)) (hex_loop fuel z acc) = true.
Proof.
  induction fuel as [|fuel IH]; intros z acc Ha Hz; [done|]. cbn [hex_loop].
  assert (str_forall (fun c => negb (is_c_space c)) (String (hex_char (z mod 16)) acc) = true) as Ha'.
  { cbn. rewrite Ha, andb_true_r. rewrite (hex_not_space _ (z mod 16)); [done|]. apply digit_hex_char, Z.mod_pos_bound. lia. }
  destruct (z <? 16); [done|]. apply IH; [done|]. apply Z.div_pos; lia.
Qed.

(** [int(hex(n), 16) == n] *)
Lemma int_hex_text z : 0 <= z -> int_text 16 (hex_text z) = Some z.
Proof.
  intros Hz. unfold int_text. pose proof (hex_loop_clean (S (Z.to_nat (Z.log2 z))) z "" eq_refl Hz) as Hcl.
  assert (str_forall (fun c => negb (is_c_space c)) (hex_text z) = true) as Hc by exact Hcl.
  rewrite lstrip_none, rstrip_none by done. unfold hex_text. cbn [append].
  unfold int_unsigned. cbn [Z.eqb Pos.eqb].
  pose proof (int_hex_loop (S (Z.to_nat (Z.log2 z))) z true "" Hz ltac:(lia)) as Hi. cbn [int_digits] in Hi.
  set (body := hex_loop _ _ _) in *. cbn [skip_hex_prefix].
  destruct body as [|c body]; [done|]. destruct (Ascii.eqb_spec c "_") as [->|Hne]; [done|].
  rewrite <- Hi. f_equal. destruct c as [[] [] [] [] [] [] [] []]; done.
Qed.

(** ** Bytes *)

Fixpoint bytes_hex (b : string) : string :=
  match b with
  | EmptyString => ""
  | String c b => let n := Z.of_N (N_of_ascii c) in String (hex_char (n / 16)) (String (hex_char (n mod 16)) (bytes_hex b))
  end.

(** [bytes.fromhex], which skips whitespace between bytes. *)
Fixpoint bytes_fromhex (s : string) : option string :=
  match s with
  | EmptyString => Some ""
  | String c s' =>
      if is_c_space c then bytes_fromhex s'
      else match s' with
           | String d s'' =>
               match digit_of 16 c, digit_of 16 d, bytes_fromhex s'' with
               | Some h, Some l, Some b => Some (String (ascii_of_N (Z.to_N (h * 16 + l))) b)
               | _, _, _ => None
               end
           | EmptyString => None
           end
  end.

Lemma byte_range c : 0 <= Z.of_N (N_of_ascii c) < 256.
Proof. destruct c as [[] [] [] [] [] [] [] []]; cbn; lia. Qed.

Lemma fromhex_hex b : bytes_fromhex (bytes_hex b) = Some b.
Proof.
  induction b as [|c b IH]; [done|]. cbn [bytes_hex bytes_fromhex]. pose proof (byte_range c) as Hc.
  set (n := Z.of_N (N_of_ascii c)) in *.
  assert (0 <= n / 16 < 16) as Hh by (split; [apply Z.div_pos; lia|apply Z.div_lt_upper_bound; lia]).
  assert (0 <= n mod 16 < 16) as Hl by (apply Z.mod_pos_bound; lia).
  rewrite (hex_not_space _ _ (digit_hex_char _ Hh)), (digit_hex_char _ Hh), (digit_hex_char _ Hl), IH.
  replace (n / 16 * 16 + n mod 16) with n by (pose proof (Z.div_mod n 16); lia).
  unfold n. by rewrite N2Z.id, ascii_N_embedding.
Qed.

Lemma bytes_hex_length b : String.length (bytes_hex b) = (2 * String.length b)%nat.
Proof. induction b as [|c b IH]; cbn; [done|]. rewrite IH. lia. Qed.

(** ** Slices and padding *)

(** [s[n:]] and [s[:n]] *)
Fixpoint str_drop (n : nat) (s : string) : string :=
  match n, s with S n, String _ s => str_drop n s | O, s => s | S _, EmptyString => "" end.

Fixpoint str_take (n : nat) (s : string) : string :=
  match n, s with S n, String c s => String c (str_take n s) | _, _ => "" end.

(** [s[-n:]] *)
Definition str_last (n : nat) (s : string) : string := str_drop (String.length s - n) s.

Fixpoint str_repeat (c : ascii) (n : nat) : string := match n with O => "" | S n => String c (str_repeat c n) end.

(** [s.ljust(n, c)] and [s.rjust(n, c)] *)
Definition ljust (n : nat) (c : ascii) (s : string) : string := s ++ str_repeat c (n - String.length s).
Definition rjust (n : nat) (c : ascii) (s : string) : string := str_repeat c (n - String.length s) ++ s.

Lemma str_drop_length n s : String.length (str_drop n s) = (String.length s - n)%nat.
Proof. revert s. induction n as [|n IH]; intros [|c s]; cbn; try done; try lia. Qed.

Lemma str_length_app s t : String.length (s ++ t) = (String.length s + String.length t)%nat.
Proof. induction s as [|c s IH]; cbn [append String.length str_drop str_take str_lower Nat.add]; [done|]. by rewrite IH. Qed.

Lemma str_repeat_length c n : String.length (str_repeat c n) = n.
Proof. induction n as [|n IH]; cbn; [done|]. by rewrite IH. Qed.

Lemma str_drop_app s t : str_drop (String.length s) (s ++ t) = t.
Proof. induction s as [|c s IH]; cbn [append String.length str_drop str_take str_lower Nat.add]; [by destruct t|done]. Qed.

Lemma str_take_app s t : str_take (String.length s) (s ++ t) = s.
Proof. induction s as [|c s IH]; cbn [append String.length str_drop str_take str_lower Nat.add]; [by destruct t|by rewrite IH]. Qed.

Lemma str_lower_app s t : str_lower (s ++ t) = str_lower s ++ str_lower t.
Proof. induction s as [|c s IH]; cbn [append String.length str_drop str_take str_lower Nat.add]; [done|]. by rewrite IH. Qed.

Lemma str_lower_length s : String.length (str_lower s) = String.length s.
Proof. induction s as [|c s IH]; cbn; [done|]. by rewrite IH. Qed.

Lemma str_after_app pre s : str_after pre (pre ++ s) = Some s.
Proof. induction pre as [|c pre IH]; cbn; [done|]. by rewrite Ascii.eqb_refl. Qed.

Lemma str_after_eq pre s r : str_after pre s = Some r -> s = pre ++ r.
Proof.
  revert s. induction pre as [|c pre IH]; intros [|d s]; cbn; try congruence.
  destruct (Ascii.eqb_spec c d) as [->|]; [|done]. intros H. by rewrite (IH s H).
Qed.

(** ** [json.dumps(v, sort_keys=True)] *)

Definition json_char (c : ascii) : string :=
  let n := N_of_ascii c in
  if (n =? 34)%N then String "\" (String c "")
  else if (n =? 92)%N then "\\"
  else if (n =? 10)%N then "\n"
  else if (n =? 13)%N then "\r"
  else if (n =? 9)%N then "\t"
  else if (n =? 8)%N then "\b"
  else if (n =? 12)%N then "\f"
  else if (n <? 32)%N || (126 <? n)%N
       then "\u00" ++ String (hex_digit (n / 16)) (String (hex_digit (n mod 16)) "")
  else String c "".

Definition json_str (s : string) : string := String dquote (str_concat_map json_char s ++ String dquote "").

Definition by_key {A} (a b : string * A) : Prop := str_le a.1 b.1.

#[export] Instance by_key_dec {A} : RelDecision (by_key (A := A)).
Proof. intros a b. unfold by_key. apply _. Defined.

Fixpoint json_text (v : pyval) : string :=
  match v with
  | PyNone => "null"
  | PyBool b => if b then "true" else "false"
  | PyInt z => pretty z
  | PyStr s => json_str s
  | PyList l => "[" ++ str_join ", " (List.map json_text l) ++ "]"
  | PyDict d =>
      "{" ++ str_join ", " (List.map (fun kt => json_str kt.1 ++ ": " ++ kt.2)
               (merge_sort by_key (List.map (fun kv => (kv.1, json_text kv.2)) d))) ++ "}"
  end.
