(* ===== verification/EventIndex.v ===== *)
(** * The durable event index: its writer

    [workers/event_log_indexer.py] ([plan_group], [run_plan] and the helpers of a
    page: write prefixes, buckets, inserts, rewinds, window statistics, span
    sizing) over the tables [indexed_event_logs] and [indexed_event_cursors] of
    [db/models/balances.py], with [enroll_event_cursor].

    The index is the record [index] of the two tables.  Each write prefix is one
    transaction that locks the group's cursors; between two of them other
    sessions may commit anything, which is the list [others] a visit carries.
    The log fetcher and the block hash reader are interfaces of the code
    ([LogFetcher], [BlockHashFetcher]) and are arguments here. *)

From stdpp Require Import base gmap sets list strings sorting pretty.
From Stdlib Require Import String Ascii ZArith QArith Qround Lia.
From S2P Require Import Prelude.

Local Open Scope string_scope.
Local Open Scope Z_scope.

(** ** Logs, rows and cursors *)

(** [FetchedEventLog]; [raw] is excluded from equality by the source. *)
Record FetchedEventLog := mkLog {
  tx_hash : string;
  log_index : Z;
  block_number : Z;
  block_hash : string;
  transaction_index : Z;
  topics : list string;
  data_words : list string;
  log_address : string;
  data_hex : option string;
}.

(** [IndexedEventLog]: the columns outside the primary key. *)
Record IndexedEventLog := mkRow {
  row_block_number : Z;
  row_block_hash : string;
  row_transaction_index : Z;
  row_topics : list string;
  row_data_words : list string;
  row_data_hex : option string;
}.

(** Primary keys: chain, emitter, topic; for a row also its transaction and
    position. *)
Definition cursor_key : Type := Z * string * string.
Definition log_key : Type := cursor_key * (string * Z).

Record IndexedEventCursor := mkCursor {
  last_indexed_block : Z;
  last_indexed_block_hash : option string;
  last_run_at : Z;
  backfill_complete : bool;
  first_indexed_block : option Z;
  first_indexed_block_basis : option string;
  enrollment_basis : option string;
  max_window_log_count : option Z;
  window_stats_cap : option Z;
  window_stats_basis : option string;
  last_advanced_at : option Z;
  recent_logs_per_block : option Q;
  enrolled_seed_block : option Z;
  request_span_limit : option Z;
}.

Record index := mkIndex {
  logs : gmap log_key IndexedEventLog;
  cursors : gmap cursor_key IndexedEventCursor;
}.

Definition FIRST_INDEXED_BASIS_CREATION : string := "creation_block_minus_one".
Definition CURSOR_BASIS_NOT_DETERMINED : string := "not_determined".
Definition ENROLLMENT_BASIS_PREDICATE_HINT : string := "predicate_tree_hint".
Definition ENROLLMENT_BASIS_TRACKED_TOPICS : string := "tracked_topics_asserted".
Definition WINDOW_STATS_CONTINUOUS : string := "continuous_from_first_indexed_block".
Definition WINDOW_STATS_NOT_DETERMINED : string := CURSOR_BASIS_NOT_DETERMINED.
Definition MIN_REQUEST_SPAN_LIMIT : Z := 10000.

(** ** Enrolment *)

Definition or_text (o : option string) (d : string) : string :=
  match o with Some s => if String.eqb s "" then d else s | None => d end.

Definition enroll_event_cursor (chain : Z) (event_address topic0 : string) (start_block : Z)
    (first_block : option Z) (first_basis basis : option string) (now : Z) (i : index) : bool * index :=
  let k : cursor_key := (chain, str_lower event_address, str_lower topic0) in
  match cursors i !! k with
  | Some _ => (false, i)
  | None =>
      let c := mkCursor start_block None now false first_block
                 (Some (or_text first_basis CURSOR_BASIS_NOT_DETERMINED))
                 (Some (or_text basis CURSOR_BASIS_NOT_DETERMINED)) None None
                 (Some (if bool_decide (first_basis = Some FIRST_INDEXED_BASIS_CREATION)
                        then WINDOW_STATS_CONTINUOUS else WINDOW_STATS_NOT_DETERMINED))
                 None None (Some start_block) None in
      (true, mkIndex (logs i) (<[k := c]> (cursors i)))
  end.

(** ** Pages *)

Record FetchWindowStat := mkStat {
  stat_from_block : Z;
  stat_to_block : Z;
  stat_returned_log_count : option Z;
  stat_cap : option Z;
}.

Record LogPage := mkPage {
  from_block : Z;
  to_block : Z;
  page_logs : list FetchedEventLog;
  stats : list FetchWindowStat;
  rejected : Z;
  rejected_span : option Z;
}.

Definition returned_log_count (p : LogPage) : option Z :=
  let counts := map stat_returned_log_count (stats p) in
  match counts with
  | [] => None
  | _ => foldr (fun c acc => x ← c; y ← acc; Some (x + y)) (Some 0) counts
  end.

Definition page_density (p : LogPage) : option Q :=
  (fun count => inject_Z count / inject_Z (to_block p - from_block p + 1))%Q <$> returned_log_count p.

(** ** Page sizes *)

Record PageLimits := mkLimits {
  max_block_span : Z;
  initial_span_blocks : Z;
  target_page_logs : Z;
  max_pages : option Z;
}.

Definition Qmax_list (q : Q) (l : list Q) : Q := foldr (fun x y => if Qle_bool x y then y else x) q l.

Definition initial_span (densities : list (option Q)) (limits : PageLimits) (never_advanced : bool) : Z :=
  let max_span := Z.max 1 (max_block_span limits) in
  match omap (fun d => q ← d; if Qle_bool q 0 then None else Some q) densities with
  | q :: known => Z.max 1 (Z.min max_span (Qfloor (inject_Z (target_page_logs limits) / Qmax_list q known)))
  | [] => if never_advanced then max_span else Z.max 1 (Z.min (initial_span_blocks limits) max_span)
  end.

Definition refused_span_limit (p : LogPage) : option Z :=
  (fun span => Z.max (span / 2) MIN_REQUEST_SPAN_LIMIT) <$> rejected_span p.

Definition next_span (p : LogPage) (limits : PageLimits) : Z :=
  let max_span := Z.max 1 (max_block_span limits) in
  let blocks := to_block p - from_block p + 1 in
  match returned_log_count p with
  | None => Z.max 1 (Z.min max_span blocks)
  | Some count =>
      if 2 * count <? target_page_logs limits then Z.max 1 (Z.min max_span (blocks * 2))
      else Z.max 1 (Z.min max_span (target_page_logs limits * blocks / count))
  end.

(** [min] of an optional limit and another. *)
Definition min_opt (o : option Z) (z : Z) : Z := match o with Some x => Z.min x z | None => z end.

(** ** Write prefixes *)

Definition log_bytes (l : FetchedEventLog) : Z :=
  256 + foldr (fun w acc => Z.of_nat (String.length w) + 4 + acc) 0 (topics l ++ data_words l)%list.

(** The leading logs of one block: how many and how large. *)
Fixpoint block_run (block : Z) (l : list FetchedEventLog) : nat * Z :=
  match l with
  | x :: l => if block_number x =? block then let (n, b) := block_run block l in (S n, log_bytes x + b) else (O, 0)
  | [] => (O, 0)
  end.

Fixpoint prefixes_loop (fuel : nat) (l : list FetchedEventLog) (offset block_start : nat) (payload_bytes : Z)
    (window_end max_rows max_bytes : Z) : list (nat * nat * Z) :=
  match fuel, drop block_start l with
  | S fuel, x :: _ =>
      let block := block_number x in
      let (run, block_bytes) := block_run block (drop block_start l) in
      let block_end := (block_start + run)%nat in
      if bool_decide (offset < block_start)%nat &&
         ((Z.max 1 max_rows <? Z.of_nat (block_end - offset)) || (Z.max 1 max_bytes <? payload_bytes + block_bytes))
      then (offset, block_start, block - 1) ::
             prefixes_loop fuel l block_start block_end block_bytes window_end max_rows max_bytes
      else prefixes_loop fuel l offset block_end (payload_bytes + block_bytes) window_end max_rows max_bytes
  | _, _ => [(offset, List.length l, window_end)]
  end.

(** Every iteration consumes at least one log. *)
Definition write_prefixes (l : list FetchedEventLog) (window_end max_rows max_bytes : Z) : list (nat * nat * Z) :=
  prefixes_loop (List.length l) l 0 0 0 window_end max_rows max_bytes.

Definition slice {A} (from to : nat) (l : list A) : list A := take (to - from) (drop from l).

(** ** Rows *)

Inductive index_error := CursorsMoved | NotContiguous | NotCovered | TopicNotRequested | EmitterOutside | StampNotRead.

(** The emitter a log is attributed to, and its topic. *)
Definition emitter (single_address : option string) (l : FetchedEventLog) : string :=
  default (str_lower (log_address l)) single_address.

Definition log_topic0 (l : FetchedEventLog) : option string := str_lower <$> head (topics l).

(** [_bucket_logs], read at one key. *)
Definition bucket_logs (ls : list FetchedEventLog) (single_address : option string) (addresses : list string) :
    index_error + (string -> string -> list FetchedEventLog) :=
  if existsb (fun l => match topics l with [] => false | _ => negb (bool_decide (emitter single_address l ∈ addresses)) end) ls
  then inl EmitterOutside
  else inr (fun a t => filter (fun l => emitter single_address l = a /\ log_topic0 l = Some t) ls).

Definition row_of (l : FetchedEventLog) : IndexedEventLog :=
  mkRow (block_number l) (block_hash l) (transaction_index l) (topics l) (data_words l) (data_hex l).

Definition key_of (k : cursor_key) (l : FetchedEventLog) : log_key := (k, (tx_hash l, log_index l)).

(** [ON CONFLICT DO NOTHING]; the count is of the rows inserted. *)
Fixpoint bulk_insert_logs (k : cursor_key) (ls : list FetchedEventLog) (rows : gmap log_key IndexedEventLog) :
    Z * gmap log_key IndexedEventLog :=
  match ls with
  | [] => (0, rows)
  | l :: ls =>
      match rows !! key_of k l with
      | Some _ => bulk_insert_logs k ls rows
      | None => let (n, rows) := bulk_insert_logs k ls (<[key_of k l := row_of l]> rows) in (1 + n, rows)
      end
  end.

(** ** Cursor updates *)

Definition set_position (b : Z) (h : option string) (complete : bool) (c : IndexedEventCursor) : IndexedEventCursor :=
  mkCursor b h (last_run_at c) complete (first_indexed_block c) (first_indexed_block_basis c) (enrollment_basis c)
    (max_window_log_count c) (window_stats_cap c) (window_stats_basis c) (last_advanced_at c) (recent_logs_per_block c)
    (enrolled_seed_block c) (request_span_limit c).

Definition set_window (count cap : option Z) (basis : option string) (c : IndexedEventCursor) : IndexedEventCursor :=
  mkCursor (last_indexed_block c) (last_indexed_block_hash c) (last_run_at c) (backfill_complete c)
    (first_indexed_block c) (first_indexed_block_basis c) (enrollment_basis c) count cap basis (last_advanced_at c)
    (recent_logs_per_block c) (enrolled_seed_block c) (request_span_limit c).

Definition set_progress (advanced : option Z) (density : option Q) (limit : option Z) (c : IndexedEventCursor) : IndexedEventCursor :=
  mkCursor (last_indexed_block c) (last_indexed_block_hash c) (last_run_at c) (backfill_complete c)
    (first_indexed_block c) (first_indexed_block_basis c) (enrollment_basis c) (max_window_log_count c)
    (window_stats_cap c) (window_stats_basis c) advanced density (enrolled_seed_block c) limit.

Definition set_run (now : Z) (c : IndexedEventCursor) : IndexedEventCursor :=
  mkCursor (last_indexed_block c) (last_indexed_block_hash c) now (backfill_complete c) (first_indexed_block c)
    (first_indexed_block_basis c) (enrollment_basis c) (max_window_log_count c) (window_stats_cap c)
    (window_stats_basis c) (last_advanced_at c) (recent_logs_per_block c) (enrolled_seed_block c) (request_span_limit c).

(** The one value of a list, [None] when its values differ. *)
Definition sole {A} `{EqDecision A} (l : list A) : option A :=
  match l with x :: l => if forallb (fun y => bool_decide (y = x)) l then Some x else None | [] => None end.

Definition z_max_list (l : list Z) : option Z :=
  match l with [] => None | z :: l => Some (foldr Z.max z l) end.

Definition fold_window_stats (c : IndexedEventCursor) (ss : list FetchWindowStat) : IndexedEventCursor :=
  let not_determined := Some WINDOW_STATS_NOT_DETERMINED in
  match ss with
  | [] => set_window (max_window_log_count c) (window_stats_cap c) not_determined c
  | _ =>
      let counts := omap stat_returned_log_count ss in
      let c := if bool_decide (List.length counts = List.length ss) then c
               else set_window (max_window_log_count c) (window_stats_cap c) not_determined c in
      match z_max_list counts with
      | None => c
      | Some highest =>
          let observed_cap := mjoin (sole (map stat_cap ss)) in
          let count := Some (match max_window_log_count c with None => highest | Some m => Z.max m highest end) in
          if bool_decide (observed_cap = None) ||
             (bool_decide (is_Some (window_stats_cap c)) && negb (bool_decide (window_stats_cap c = observed_cap)))
          then set_window count None not_determined c
          else set_window count observed_cap (window_stats_basis c) c
      end
  end.

(** ** The locked group *)

Definition key_le (x y : cursor_key * IndexedEventCursor) : Prop :=
  let '(_, a, t) := x.1 in let '(_, a', t') := y.1 in
  str_lower a <> str_lower a' /\ str_le (str_lower a) (str_lower a') \/ str_lower a = str_lower a' /\ str_le t t'.

#[local] Instance key_le_dec : RelDecision key_le.
Proof. intros [[[c a] t] x] [[[c' a'] t'] y]. unfold key_le. cbn. apply _. Defined.

(** [_cursor_rows_query] *)
Definition cursor_rows (chain : Z) (addresses : list string) (i : index) : list (cursor_key * IndexedEventCursor) :=
  merge_sort key_le (filter (fun row => row.1.1.1 = chain /\ str_lower row.1.1.2 ∈ addresses) (map_to_list (cursors i))).

Definition position_row : Type := string * string * Z * option string.

Definition member_position (row : cursor_key * IndexedEventCursor) : position_row :=
  (str_lower row.1.1.2, str_lower row.1.2, last_indexed_block row.2, last_indexed_block_hash row.2).

Definition member_positions (rows : list (cursor_key * IndexedEventCursor)) : list position_row := map member_position rows.

Record Rewind := mkRewind { rewind_to : Z; rewind_hash : option string }.

Record Member := mkMember {
  m_address : string;
  m_topic0 : string;
  m_last : Z;
  m_block_hash : option string;
  m_logs_per_block : option Q;
  m_advanced : bool;
  m_span_limit : option Z;
}.

Record GroupPlan := mkPlan {
  plan_chain : Z;
  addresses : list string;
  members : list Member;
  rewinds : gmap string Rewind;
}.

Definition member_of (row : cursor_key * IndexedEventCursor) : Member :=
  mkMember (str_lower row.1.1.2) (str_lower row.1.2) (last_indexed_block row.2) (last_indexed_block_hash row.2)
    (recent_logs_per_block row.2) (bool_decide (is_Some (last_advanced_at row.2)))
    (match request_span_limit row.2 with Some z => if z =? 0 then None else Some z | None => None end).

(** [sorted({...})] *)
Definition sorted_set (l : list string) : list string :=
  merge_sort str_le (elements (list_to_set (C := gset string) l)).

(** The reorg check of one member. *)
Definition plan_member (hash_at : Z -> option string) (target confirmation_depth : Z) (rw : gmap string Rewind) (m : Member) :
    gmap string Rewind :=
  match rw !! m_address m with
  | Some _ => rw
  | None =>
      match m_block_hash m with
      | Some stamp =>
          if (m_last m <=? 0) || (target <=? m_last m) then rw
          else match hash_at (m_last m) with
               | None => rw
               | Some observed =>
                   if String.eqb observed stamp then rw
                   else let r := Z.max 0 (m_last m - confirmation_depth) in
                        <[m_address m := mkRewind r (if r =? 0 then None else hash_at r)]> rw
               end
      | None => rw
      end
  end.

Definition plan_group (chain : Z) (wanted : list string) (target : Z) (hash_at : Z -> option string)
    (confirmation_depth : Z) (i : index) : GroupPlan :=
  let wanted := sorted_set (map str_lower wanted) in
  let ms := map member_of (cursor_rows chain wanted i) in
  mkPlan chain wanted ms (foldl (plan_member hash_at target confirmation_depth) ∅ ms).

Definition lock_members (p : GroupPlan) (expected : list position_row) (i : index) :
    index_error + list (cursor_key * IndexedEventCursor) :=
  let rows := cursor_rows (plan_chain p) (addresses p) i in
  if decide (member_positions rows = expected) then inr rows else inl CursorsMoved.

(** [_apply_rewinds] *)
Definition rewind_cursor (p : GroupPlan) (k : cursor_key) (c : IndexedEventCursor) : IndexedEventCursor :=
  let '(chain, a, _) := k in
  match rewinds p !! str_lower a with
  | Some r => if decide (chain = plan_chain p /\ str_lower a ∈ addresses p) then
                if rewind_to r <? last_indexed_block c then set_position (rewind_to r) (rewind_hash r) false c else c
              else c
  | None => c
  end.

Definition rewound_away (p : GroupPlan) (k : log_key) (r : IndexedEventLog) : Prop :=
  k.1.1.1 = plan_chain p /\
  match rewinds p !! str_lower k.1.1.2 with Some w => rewind_to w < row_block_number r | None => False end.

#[local] Instance rewound_away_dec p k r : Decision (rewound_away p k r).
Proof. unfold rewound_away. destruct (rewinds p !! str_lower k.1.1.2); apply _. Defined.

Definition apply_rewinds (p : GroupPlan) (i : index) : index :=
  mkIndex (filter (fun kr => ~ rewound_away p kr.1 kr.2) (logs i)) (map_imap (fun k c => Some (rewind_cursor p k c)) (cursors i)).

(** ** One write prefix: one transaction *)

(** What a visit fixed before its writes: the topics requested, the target, the
    hashes read so far and the page being written. *)
Record write_context := mkWrite {
  w_topics : list string;
  w_target : Z;
  w_memo : gmap Z (option string);
  w_page : LogPage;
  w_now : Z;
}.

(** A cursor the prefix moves. *)
Definition advance_cursor (w : write_context) (prefix_end : Z) (c : IndexedEventCursor) : IndexedEventCursor :=
  let c := fold_window_stats (set_position prefix_end None (backfill_complete c) c) (stats (w_page w)) in
  let density := match page_density (w_page w) with Some q => Some q | None => recent_logs_per_block c end in
  let limit := match refused_span_limit (w_page w) with
               | Some z => Some (match request_span_limit c with None => z | Some s => Z.min s z end)
               | None => request_span_limit c
               end in
  set_progress (Some (w_now w)) density limit c.

(** A cursor at or past the target is complete, unlimited and stamped. *)
Definition complete_cursor (w : write_context) (c : IndexedEventCursor) : index_error + IndexedEventCursor :=
  let c := set_progress (last_advanced_at c) (recent_logs_per_block c) None c in
  match last_indexed_block_hash c with
  | Some h => inr (set_position (last_indexed_block c) (Some h) true c)
  | None =>
      match w_memo w !! last_indexed_block c with
      | Some h => inr (set_position (last_indexed_block c) h true c)
      | None => inl StampNotRead
      end
  end.

(** The body of the loop over the locked cursors. *)
Definition write_cursor (w : write_context) (prefix_end : Z) (buckets : string -> string -> list FetchedEventLog)
    (k : cursor_key) (c : IndexedEventCursor) (i : index) : index_error + (Z * Z * index) :=
  let '(chain, a, t) := k in
  let address := str_lower a in let topic0 := str_lower t in
  let last := last_indexed_block c in
  match
    (if last <? prefix_end
     then if negb (bool_decide (topic0 ∈ w_topics w)) then inl TopicNotRequested
          else let (n, rows) := bulk_insert_logs (chain, address, topic0)
                                  (filter (fun l => last < block_number l) (buckets address topic0)) (logs i) in
               inr (n, rows, advance_cursor w prefix_end c)
     else inr (0, logs i, c)) : index_error + (Z * gmap log_key IndexedEventLog * IndexedEventCursor)
  with
  | inl e => inl e
  | inr (n, rows, c) =>
      if w_target w <=? last_indexed_block c
      then match complete_cursor w c with
           | inl e => inl e
           | inr c => inr (n, 1, mkIndex rows (<[k := set_run (w_now w) c]> (cursors i)))
           end
      else inr (n, 0, mkIndex rows (<[k := set_run (w_now w) c]> (cursors i)))
  end.

Fixpoint write_cursors (w : write_context) (prefix_end : Z) (buckets : string -> string -> list FetchedEventLog)
    (rows : list (cursor_key * IndexedEventCursor)) (i : index) : index_error + (Z * Z * index) :=
  match rows with
  | [] => inr (0, 0, i)
  | (k, c) :: rows =>
      match write_cursor w prefix_end buckets k c i with
      | inl e => inl e
      | inr (n, at_target, i) =>
          match write_cursors w prefix_end buckets rows i with
          | inl e => inl e
          | inr (n', at_target', i) => inr (n + n', at_target + at_target', i)
          end
      end
  end.

(** [plan.addresses[0] if len(plan.addresses) == 1 else None] *)
Definition single_address (p : GroupPlan) : option string := match addresses p with [a] => Some a | _ => None end.

Definition write_prefix (p : GroupPlan) (w : write_context) (expected : list position_row) (rewind_pending : bool)
    (ls : list FetchedEventLog) (prefix_end : Z) (i : index) : index_error + (list position_row * index) :=
  match lock_members p expected i with
  | inl e => inl e
  | inr _ =>
      let i := if rewind_pending then apply_rewinds p i else i in
      match bucket_logs ls (single_address p) (addresses p) with
      | inl e => inl e
      | inr buckets =>
          match write_cursors w prefix_end buckets (cursor_rows (plan_chain p) (addresses p) i) i with
          | inl e => inl e
          | inr (_, _, i) => inr (member_positions (cursor_rows (plan_chain p) (addresses p) i), i)
          end
      end
  end.

(** ** A visit *)

(** The local state of [run_plan] between two statements. *)
Record visit := mkVisit {
  expected : list position_row;
  position : list position_row;
  rewind_pending : bool;
  span : Z;
  span_limit : option Z;
  pages : Z;
  memo : gmap Z (option string);
  others : list (index -> index);
}.

(** How a visit ends: done, stopped by a budget, or an exception. *)
Inductive outcome := Finished | Stopped | Raised (e : index_error).

Definition disturb (v : visit) (i : index) : index := match others v with f :: _ => f i | [] => i end.

(** [sorted(page.logs, key=lambda log: log.block_number)] *)
Definition block_le (a b : FetchedEventLog) : Prop := block_number a <= block_number b.

#[export] Instance block_le_dec : RelDecision block_le.
Proof. intros a b. unfold block_le. apply _. Defined.

Section Visit.
(** The fetcher of the protocol class: topics, first and last block. *)
Variable iter_pages : list string -> Z -> Z -> list LogPage.
(** The chain's block hashes; [None] when the node has none. *)
Variable block_hash_at : Z -> option string.
(** Whether the stop event is set, and the deadline passed, after so many pages. *)
Variable stop_set : Z -> bool.
Variable deadline_passed : Z -> bool.
Variable p : GroupPlan.
Variable limits : PageLimits.
Variable target write_max_rows write_max_bytes now : Z.

(** [hash_at], remembered in the memo. *)
Definition hash_at (b : Z) (m : gmap Z (option string)) : gmap Z (option string) :=
  match m !! b with Some _ => m | None => <[b := block_hash_at b]> m end.

(** The prefixes of one page.  An index is returned with every outcome: the
    prefixes before an exception are committed. *)
Fixpoint write_page (topics_ : list string) (page : LogPage) (ls : list FetchedEventLog) (prefixes : list (nat * nat * Z))
    (v : visit) (i : index) : option index_error * visit * index :=
  match prefixes with
  | [] => (None, v, i)
  | (offset, end_offset, prefix_end) :: prefixes =>
      let w := mkWrite topics_ target (memo v) page now in
      match write_prefix p w (expected v) (rewind_pending v) (slice offset end_offset ls) prefix_end (disturb v i) with
      | inl e => (Some e, v, disturb v i)
      | inr (expected', i) =>
          write_page topics_ page ls prefixes
            (mkVisit expected' expected' false (span v) (span_limit v) (pages v) (memo v) (tail (others v))) i
      end
  end.

Definition out_of_budget (n : Z) : bool :=
  match max_pages limits with Some m => m <=? n | None => false end || deadline_passed n.

(** The pages of one request. *)
Fixpoint page_loop (topics_ : list string) (chunk_end : Z) (ps : list LogPage) (expected_from : Z) (v : visit) (i : index) :
    option outcome * Z * visit * index :=
  match ps with
  | [] => (None, expected_from, v, i)
  | page :: ps =>
      if negb (from_block page =? expected_from) || (chunk_end <? to_block page) || (to_block page <? from_block page)
      then (Some (Raised NotContiguous), expected_from, v, i)
      else
        let ls := merge_sort block_le (page_logs page) in
        let limit := match refused_span_limit page with Some z => Some (min_opt (span_limit v) z) | None => span_limit v end in
        let prefixes := write_prefixes ls (to_block page) write_max_rows write_max_bytes in
        match write_page topics_ page ls prefixes v i with
        | (Some e, v, i) => (Some (Raised e), expected_from, v, i)
        | (None, v, i) =>
            let n := pages v + 1 in
            let v := mkVisit (expected v) (position v) (rewind_pending v) (min_opt limit (next_span page limits)) limit n
                       (memo v) (others v) in
            if stop_set n || out_of_budget n then (Some Stopped, to_block page + 1, v, i)
            else page_loop topics_ chunk_end ps (to_block page + 1) v i
        end
  end.

Definition position_block (r : position_row) : Z := r.1.2.

Definition behind (v : visit) (b : Z) : list position_row := filter (fun r => position_block r < b) (position v).

(** [while frontier < target] *)
Fixpoint chunk_loop (fuel : nat) (frontier : Z) (v : visit) (i : index) : option (outcome * visit * index) :=
  if target <=? frontier then Some (Finished, v, i)
  else
    match fuel with
    | O => None
    | S fuel =>
        if stop_set (pages v) || (negb (pages v =? 0) && out_of_budget (pages v)) then Some (Stopped, v, i)
        else
          let chunk_end := Z.min target (frontier + span v) in
          let topics_ := sorted_set (map (fun r => r.1.1.2) (behind v chunk_end)) in
          let m := if target <=? chunk_end then hash_at target (memo v) else memo v in
          let v := mkVisit (expected v) (position v) (rewind_pending v) (span v) (span_limit v) (pages v) m (others v) in
          match page_loop topics_ chunk_end (iter_pages topics_ (frontier + 1) chunk_end) (frontier + 1) v i with
          | (Some o, _, v, i) => Some (o, v, i)
          | (None, expected_from, v, i) =>
              if expected_from =? chunk_end + 1
              then chunk_loop fuel (default target (z_min_list (map position_block (behind v target)))) v i
              else Some (Raised NotCovered, v, i)
          end
    end.

(** The positions after the planned rewinds. *)
Definition planned_position (m : Member) : position_row :=
  let last := match rewinds p !! m_address m with Some r => Z.min (m_last m) (rewind_to r) | None => m_last m end in
  (m_address m, m_topic0 m, last, m_block_hash m).

Definition planned_stamp (m : Member) : option string :=
  match rewinds p !! m_address m with
  | Some r => if m_last m <=? rewind_to r then m_block_hash m else rewind_hash r
  | None => m_block_hash m
  end.

(** All positions at or past the target: complete them under the lock. *)
Definition complete_group (rows : list (cursor_key * IndexedEventCursor)) (i : index) : index :=
  foldl (fun i kc => mkIndex (logs i)
    (<[kc.1 := set_run now (set_position (last_indexed_block kc.2) (last_indexed_block_hash kc.2) true kc.2)]> (cursors i)))
    i rows.

Definition run_plan (fuel : nat) (memo0 : gmap Z (option string)) (disturbances : list (index -> index)) (i : index) :
    option (outcome * visit * index) :=
  let exp := map (fun m => (m_address m, m_topic0 m, m_last m, m_block_hash m)) (members p) in
  let pos := map planned_position (members p) in
  let v0 := mkVisit exp pos (bool_decide (rewinds p <> ∅)) 0 None 0 memo0 disturbances in
  match members p with
  | [] => Some (Finished, v0, i)
  | _ =>
      if forallb (fun r => target <=? position_block r) pos
      then match lock_members p exp (disturb v0 i) with
           | inl e => Some (Raised e, v0, disturb v0 i)
           | inr rows => Some (Finished, v0, complete_group rows (disturb v0 i))
           end
      else
        let m := foldl (fun m mem => if (target <=? position_block (planned_position mem)) && bool_decide (planned_stamp mem = None)
                                     then hash_at (position_block (planned_position mem)) m else m) memo0 (members p) in
        let active := filter (fun mem => position_block (planned_position mem) < target) (members p) in
        let limit := z_min_list (omap m_span_limit active) in
        let sp := min_opt limit (initial_span (map m_logs_per_block active) limits (negb (existsb m_advanced active))) in
        let v := mkVisit exp pos (rewind_pending v0) sp limit 0 m disturbances in
        chunk_loop fuel (default target (z_min_list (map position_block (behind v target)))) v i
  end.
End Visit.
