(* ===== verification/EventIndexTheory.v ===== *)
(** * The event index is faithful to the chain

    The invariant of the durable index: every cursor's rows are exactly the
    chain's logs of its emitter and topic in the range it covers, and its stamp
    is the chain's hash.  Every write of the indexer keeps it, whatever other
    sessions commit in between; a visit always ends; and a reorganisation no
    deeper than the confirmation depth is undone by the rewind it triggers. *)

From stdpp Require Import base gmap sets list strings sorting pretty.
From Stdlib Require Import String Ascii ZArith QArith Lia.
From S2P Require Import Prelude EventIndex.

Local Open Scope string_scope.
Local Open Scope Z_scope.

(** ** The chain *)

Record chain := mkChain {
  chain_logs : list FetchedEventLog;
  chain_hash : Z -> option string;
}.

(** A log is identified by its transaction and position. *)
Definition well_formed (ch : chain) : Prop :=
  forall l l', l ∈ chain_logs ch -> l' ∈ chain_logs ch ->
    tx_hash l = tx_hash l' -> log_index l = log_index l' -> l = l'.

Definition emitted (k : cursor_key) (l : FetchedEventLog) : Prop := log_address l = k.1.2 /\ log_topic0 l = Some k.2.

Definition stored (i : index) (k : cursor_key) (l : FetchedEventLog) : Prop :=
  logs i !! key_of k l = Some (row_of l).

(** A row is a log of its cursor's emitter and topic, inside the range. *)
Definition backed (ch : chain) (k : cursor_key) (c : IndexedEventCursor) (h : string) (n : Z) (r : IndexedEventLog) : Prop :=
  exists l, l ∈ chain_logs ch /\ emitted k l /\ tx_hash l = h /\ log_index l = n /\ row_of l = r /\
    block_number l <= last_indexed_block c.

Definition covers (ch : chain) (i : index) (k : cursor_key) (c : IndexedEventCursor) : Prop :=
  forall l seed, enrolled_seed_block c = Some seed -> l ∈ chain_logs ch -> emitted k l ->
    seed < block_number l <= last_indexed_block c -> stored i k l.

Definition stamp_true (ch : chain) (c : IndexedEventCursor) : Prop :=
  forall h, last_indexed_block_hash c = Some h -> chain_hash ch (last_indexed_block c) = Some h.

(** Faithful for the cursors in scope: those of a chain, or of a group. *)
Record faithful (scope : cursor_key -> Prop) (ch : chain) (i : index) : Prop := {
  faithful_keys : forall (k : cursor_key) c, scope k -> cursors i !! k = Some c -> str_lower k.1.2 = k.1.2 /\ str_lower k.2 = k.2;
  faithful_covers : forall (k : cursor_key) c, scope k -> cursors i !! k = Some c -> covers ch i k c;
  faithful_rows : forall (k : cursor_key) h m r, scope k -> logs i !! ((k, (h, m)) : log_key) = Some r ->
    exists c, cursors i !! k = Some c /\ backed ch k c h m r;
  faithful_stamps : forall (k : cursor_key) c, scope k -> cursors i !! k = Some c -> stamp_true ch c;
}.

Definition on_chain (n : Z) (k : cursor_key) : Prop := k.1.1 = n.
Definition in_group (p : GroupPlan) (k : cursor_key) : Prop := k.1.1 = plan_chain p /\ str_lower k.1.2 ∈ addresses p.

(** A scope a plan writes in: its group and no other chain. *)
Definition plan_scope (p : GroupPlan) (scope : cursor_key -> Prop) : Prop :=
  (forall k, in_group p k -> scope k) /\ (forall k, scope k -> k.1.1 = plan_chain p).

(** ** Inserts *)

Lemma insert_keeps k ls : forall rows lk r, rows !! lk = Some r -> (bulk_insert_logs k ls rows).2 !! lk = Some r.
Proof.
  induction ls as [|l ls IH]; intros rows lk r Hr; [done|]. cbn [bulk_insert_logs].
  destruct (rows !! key_of k l) eqn:E; [by apply IH|].
  specialize (IH (<[key_of k l := row_of l]> rows) lk r).
  destruct (bulk_insert_logs k ls (<[_:=_]> rows)) as [m rows']. cbn in *. apply IH.
  rewrite lookup_insert_ne; [done|]. intros <-. congruence.
Qed.

Lemma insert_from k ls : forall rows lk r, (bulk_insert_logs k ls rows).2 !! lk = Some r ->
  rows !! lk = Some r \/ exists l, l ∈ ls /\ lk = key_of k l /\ r = row_of l.
Proof.
  induction ls as [|l ls IH]; intros rows lk r Hr; [by left|]. cbn [bulk_insert_logs] in Hr.
  destruct (rows !! key_of k l) eqn:E.
  - destruct (IH _ _ _ Hr) as [?|(l' & ? & ?)]; [by left|right; exists l'; split; [by right|done]].
  - specialize (IH (<[key_of k l := row_of l]> rows) lk r).
    destruct (bulk_insert_logs k ls (<[_:=_]> rows)) as [m rows']. cbn in *.
    destruct (IH Hr) as [Hl|(l' & ? & ?)]; [|right; exists l'; split; [by right|done]].
    apply lookup_insert_Some in Hl as [[<- <-]|[_ ?]]; [right; exists l; split; [by left|done]|by left].
Qed.

Lemma insert_present k ls : forall rows l, l ∈ ls ->
  exists r, (bulk_insert_logs k ls rows).2 !! key_of k l = Some r.
Proof.
  induction ls as [|x ls IH]; intros rows l Hl; [by apply not_elem_of_nil in Hl|]. cbn [bulk_insert_logs].
  destruct (rows !! key_of k x) as [r|] eqn:E.
  - apply elem_of_cons in Hl as [->|Hl]; [exists r; by apply insert_keeps|by apply IH].
  - pose proof (insert_keeps k ls (<[key_of k x := row_of x]> rows)) as Hk.
    specialize (IH (<[key_of k x := row_of x]> rows) l).
    destruct (bulk_insert_logs k ls (<[_:=_]> rows)) as [m rows']. cbn in *.
    apply elem_of_cons in Hl as [->|Hl]; [|by apply IH]. exists (row_of x). apply Hk. by rewrite lookup_insert_eq.
Qed.

(** ** What a page must say of the chain *)

(** A fetched log is a chain log; a single-address page leaves the emitter out. *)
Definition copy_of (single : option string) (l lc : FetchedEventLog) : Prop :=
  emitter single l = log_address lc /\ tx_hash l = tx_hash lc /\ log_index l = log_index lc /\ row_of l = row_of lc.

Lemma copy_block s l lc : copy_of s l lc -> block_number l = block_number lc.
Proof. intros (_ & _ & _ & Hr). by injection Hr. Qed.

Lemma copy_topic0 s l lc : copy_of s l lc -> log_topic0 l = log_topic0 lc.
Proof. intros (_ & _ & _ & Hr). injection Hr. unfold log_topic0. by intros _ _ -> _ _ _. Qed.

(** A bucket holds exactly a cursor's logs in a range. *)
Definition bucket_exact (ch : chain) (k : cursor_key) (lo hi : Z) (ls : list FetchedEventLog) : Prop :=
  (forall lc, lc ∈ chain_logs ch -> emitted k lc -> lo < block_number lc <= hi ->
     exists l, l ∈ ls /\ tx_hash l = tx_hash lc /\ log_index l = log_index lc /\ block_number l = block_number lc) /\
  (forall l, l ∈ ls -> lo < block_number l -> block_number l <= hi /\
     exists lc, lc ∈ chain_logs ch /\ emitted k lc /\ tx_hash l = tx_hash lc /\ log_index l = log_index lc /\ row_of l = row_of lc).

(** Inserting a bucket keeps the rows exact and extends their range. *)
Lemma insert_exact ch k rows lo hi ls (seed : Z) :
  well_formed ch -> bucket_exact ch k lo hi ls ->
  (forall h m r, rows !! ((k, (h, m)) : log_key) = Some r -> exists l, l ∈ chain_logs ch /\ emitted k l /\ tx_hash l = h /\
     log_index l = m /\ row_of l = r) ->
  (forall l, l ∈ chain_logs ch -> emitted k l -> seed < block_number l <= lo ->
     rows !! key_of k l = Some (row_of l)) ->
  let rows' := (bulk_insert_logs k (filter (fun l => lo < block_number l) ls) rows).2 in
  forall l, l ∈ chain_logs ch -> emitted k l -> seed < block_number l <= hi ->
    rows' !! key_of k l = Some (row_of l).
Proof.
  intros Hwf [Hall Hex] Hrows Hlo rows' lc Hlc Hem Hb.
  destruct (decide (block_number lc <= lo)) as [Hle|Hgt].
  { apply insert_keeps. apply Hlo; [done|done|lia]. }
  destruct (Hall lc Hlc Hem) as (l & Hl & Ht & Hi & Hbn); [lia|].
  destruct (insert_present k (filter (fun l => lo < block_number l) ls) rows l) as [r Hr].
  { apply list_elem_of_filter. split; [lia|done]. }
  replace (key_of k l) with (key_of k lc) in Hr by (unfold key_of; congruence). fold rows' in Hr. rewrite Hr. f_equal.
  apply insert_from in Hr as [Hr|(l' & Hl' & [= Ht' Hi'] & ->)].
  - destruct (Hrows _ _ _ Hr) as (lc' & Hin & _ & ? & ? & <-). f_equal. by apply Hwf.
  - apply list_elem_of_filter in Hl' as [Hb' Hl']. destruct (Hex l' Hl' Hb') as (_ & lc' & Hin & _ & ? & ? & ->).
    f_equal. apply Hwf; [done|done|congruence|congruence].
Qed.

(** ** One cursor of a prefix *)

(** The columns the invariant reads. *)
Definition anchor (c : IndexedEventCursor) := (enrolled_seed_block c, first_indexed_block c, first_indexed_block_basis c, enrollment_basis c).

Lemma window_fields c ss :
  let c' := fold_window_stats c ss in
  last_indexed_block c' = last_indexed_block c /\ last_indexed_block_hash c' = last_indexed_block_hash c /\
  backfill_complete c' = backfill_complete c /\ anchor c' = anchor c.
Proof.
  cbv zeta. unfold fold_window_stats. destruct ss as [|s ss]; [done|].
  destruct (bool_decide (List.length _ = _)); destruct (z_max_list _); try done; by destruct (_ || _).
Qed.

Lemma advance_fields w e c :
  let c' := advance_cursor w e c in
  last_indexed_block c' = e /\ last_indexed_block_hash c' = None /\ backfill_complete c' = backfill_complete c /\ anchor c' = anchor c.
Proof.
  cbv zeta. pose proof (window_fields (set_position e None (backfill_complete c) c) (stats (w_page w))) as H.
  cbv zeta in H. unfold advance_cursor. cbv zeta. destruct H as (H1 & H2 & H3 & H4). done.
Qed.

Lemma complete_fields w c c' :
  complete_cursor w c = inr c' ->
  last_indexed_block c' = last_indexed_block c /\ backfill_complete c' = true /\ anchor c' = anchor c /\
  (last_indexed_block_hash c' = last_indexed_block_hash c \/ w_memo w !! last_indexed_block c = Some (last_indexed_block_hash c')).
Proof.
  unfold complete_cursor. cbn [last_indexed_block_hash set_progress last_indexed_block]. destruct (last_indexed_block_hash c) as [h|].
  - intros [= <-]. auto.
  - destruct (w_memo w !! last_indexed_block c) as [h|] eqn:E; [|done]. intros [= <-]. auto.
Qed.

(** What a prefix leaves of a cursor. *)
Definition moved (w : write_context) (e : Z) (c c' : IndexedEventCursor) : Prop :=
  last_indexed_block c' = Z.max (last_indexed_block c) e /\ anchor c' = anchor c /\
  (w_target w <= last_indexed_block c' -> backfill_complete c' = true) /\
  (last_indexed_block_hash c' = None \/ last_indexed_block c' = last_indexed_block c /\ last_indexed_block_hash c' = last_indexed_block_hash c \/
   w_memo w !! last_indexed_block c' = Some (last_indexed_block_hash c')).

(** [write_cursor] inserts a cursor's new logs and moves it. *)
Lemma write_cursor_inv w e buckets (k : cursor_key) c i n m i' :
  write_cursor w e buckets k c i = inr (n, m, i') ->
  exists c', moved w e c c' /\ cursors i' = <[k := c']> (cursors i) /\ (last_indexed_block c < e -> str_lower k.2 ∈ w_topics w) /\
    logs i' = (if last_indexed_block c <? e
               then (bulk_insert_logs (k.1.1, str_lower k.1.2, str_lower k.2)
                      (filter (fun l => last_indexed_block c < block_number l) (buckets (str_lower k.1.2) (str_lower k.2))) (logs i)).2
               else logs i).
Proof.
  destruct k as [[ch a] t]. unfold write_cursor. cbn [fst snd].
  destruct (Z.ltb_spec (last_indexed_block c) e) as [Hlt|Hge].
  - destruct (bool_decide (str_lower t ∈ w_topics w)) eqn:Hreq; [|done]. apply bool_decide_eq_true in Hreq. cbn [negb].
    destruct (bulk_insert_logs _ _ _) as [ins rows]. cbn [snd].
    destruct (advance_fields w e c) as (H1 & H2 & H3 & H4). set (c1 := advance_cursor w e c) in *. rewrite H1.
    destruct (Z.leb_spec (w_target w) e) as [Ht|Ht].
    + destruct (complete_cursor w c1) as [|c2] eqn:Ec; [done|]. intros [= <- <- <-].
      apply complete_fields in Ec as (E1 & E2 & E3 & E4). exists (set_run (w_now w) c2). split_and!; [|done|done|done].
      unfold moved. cbn [last_indexed_block set_run last_indexed_block_hash backfill_complete]. rewrite E1, H1.
      split_and!; [lia|by rewrite <- H4, <- E3|done|]. rewrite H1 in E4. destruct E4 as [E4|E4]; [left; congruence|auto].
    + intros [= <- <- <-]. exists (set_run (w_now w) c1). split_and!; [|done|done|done].
      unfold moved. cbn [last_indexed_block set_run last_indexed_block_hash backfill_complete]. rewrite H1.
      split_and!; [lia|by rewrite <- H4|lia|by left].
  - destruct (Z.leb_spec (w_target w) (last_indexed_block c)) as [Ht|Ht].
    + destruct (complete_cursor w c) as [|c2] eqn:Ec; [done|]. intros [= <- <- <-].
      apply complete_fields in Ec as (E1 & E2 & E3 & E4). exists (set_run (w_now w) c2). split_and!; [|done|lia|done].
      unfold moved. cbn [last_indexed_block set_run last_indexed_block_hash backfill_complete]. rewrite E1.
      split_and!; [lia|by rewrite <- E3|done|]. destruct E4 as [E4|E4]; auto.
    + intros [= <- <- <-]. exists (set_run (w_now w) c). split_and!; [|done|lia|done].
      unfold moved. cbn [last_indexed_block set_run last_indexed_block_hash backfill_complete].
      split_and!; [lia|done|lia|by right; left].
Qed.

Definition memo_true (ch : chain) (m : gmap Z (option string)) : Prop := forall b h, m !! b = Some h -> h = chain_hash ch b.

(** Moving one cursor over a range its bucket covers keeps the index faithful. *)
Lemma write_cursor_faithful scope ch w e buckets (k : cursor_key) c i n m i' :
  well_formed ch -> faithful scope ch i -> scope k -> memo_true ch (w_memo w) -> cursors i !! k = Some c ->
  (last_indexed_block c < e -> k.2 ∈ w_topics w -> bucket_exact ch k (last_indexed_block c) e (buckets k.1.2 k.2)) ->
  write_cursor w e buckets k c i = inr (n, m, i') -> faithful scope ch i'.
Proof.
  intros Hwf Hf Hsk Hmemo Hc Hb0 Hw. destruct (faithful_keys _ _ _ Hf k c Hsk Hc) as [Ha Ht].
  apply write_cursor_inv in Hw as (c' & (Hl & Han & _ & Hst) & Hcs & Hreq & Hls). rewrite Ha, Ht in Hls. rewrite Ht in Hreq.
  assert (Hb : last_indexed_block c < e -> bucket_exact ch k (last_indexed_block c) e (buckets k.1.2 k.2)) by auto. clear Hb0 Hreq.
  replace ((k.1.1, k.1.2, k.2) : cursor_key) with k in Hls by by destruct k as [[]].
  set (new := filter (fun l => last_indexed_block c < block_number l) (buckets k.1.2 k.2)) in *.
  assert (Hkeep : forall lk r, logs i !! lk = Some r -> logs i' !! lk = Some r)
    by (intros lk r Hr; rewrite Hls; destruct (_ <? e); [by apply insert_keeps|done]).
  assert (Hother : forall k0 c0, k0 <> k -> cursors i' !! k0 = Some c0 -> cursors i !! k0 = Some c0)
    by (intros k0 c0 Hne; by rewrite Hcs, lookup_insert_ne).
  assert (Hown : cursors i' !! k = Some c') by by rewrite Hcs, lookup_insert_eq.
  injection Han as Hseed _ _ _. split.
  - intros k0 c0 Hk0 H0. destruct (decide (k0 = k)) as [->|Hne]; [done|]. by eapply (faithful_keys _ _ _ Hf), Hother.
  - intros k0 c0 Hk0 H0 l seed Hs Hin Hem Hbl. destruct (decide (k0 = k)) as [->|Hne].
    + simplify_eq. rewrite Hseed in Hs. rewrite Hl in Hbl. unfold stored. rewrite Hls.
      destruct (Z.ltb_spec (last_indexed_block c) e) as [Hlt|Hge].
      * apply (insert_exact ch k (logs i) _ e _ seed); try done; [by apply Hb| | |lia].
        -- intros h m0 r Hr. destruct (faithful_rows _ _ _ Hf k h m0 r Hsk Hr) as (c0 & _ & l0 & ? & ? & ? & ? & ? & _). eauto 10.
        -- intros l0 Hl0 He0 Hb0. by apply (faithful_covers _ _ _ Hf k c Hsk Hc l0 seed).
      * apply (faithful_covers _ _ _ Hf k c Hsk Hc l seed); try done. lia.
    + apply Hkeep. by eapply (faithful_covers _ _ _ Hf k0 c0 Hk0 (Hother _ _ Hne H0) l seed).
  - intros k0 h m0 r Hk0 Hr.
    assert (logs i !! ((k0, (h, m0)) : log_key) = Some r \/ last_indexed_block c < e /\ k0 = k /\ exists l, l ∈ new /\
      h = tx_hash l /\ m0 = log_index l /\ r = row_of l) as [Hr0|(Hlt & -> & l & Hl0 & -> & -> & ->)].
    { rewrite Hls in Hr. destruct (Z.ltb_spec (last_indexed_block c) e); [|by left].
      apply insert_from in Hr as [?|(l & ? & [= -> -> ->] & ->)]; eauto 10. }
    + destruct (faithful_rows _ _ _ Hf k0 h m0 r Hk0 Hr0) as (c0 & H0 & l & Hin & He & ? & ? & ? & Hle).
      destruct (decide (k0 = k)) as [->|Hne].
      * exists c'. split; [done|]. exists l. simplify_eq. split_and!; try done. lia.
      * exists c0. split; [by rewrite Hcs, lookup_insert_ne|]. by exists l.
    + apply list_elem_of_filter in Hl0 as [Hb0 Hin0]. destruct (proj2 (Hb Hlt) l Hin0 Hb0) as (Hle & lc & Hin & He & ? & ? & Hrow).
      exists c'. split; [done|]. exists lc. split_and!; try done. injection Hrow as Hbn _ _ _ _ _. lia.
  - intros k0 c0 Hk0 H0. destruct (decide (k0 = k)) as [->|Hne]; [|by eapply (faithful_stamps _ _ _ Hf), Hother].
    simplify_eq. intros h Hh. destruct Hst as [Hst|[[Hst1 Hst2]|Hst]]; [congruence| |].
    + rewrite Hst1. apply (faithful_stamps _ _ _ Hf k c Hsk Hc). congruence.
    + apply Hmemo in Hst. congruence.
Qed.

(** ** The group's cursors *)

Lemma cursor_rows_elem n addrs i (k : cursor_key) c :
  (k, c) ∈ cursor_rows n addrs i <-> cursors i !! k = Some c /\ k.1.1 = n /\ str_lower k.1.2 ∈ addrs.
Proof.
  unfold cursor_rows. rewrite (merge_sort_Permutation _ _), list_elem_of_filter, elem_of_map_to_list. cbn. tauto.
Qed.

Lemma NoDup_fst_filter {A B} (P : A * B -> Prop) `{!forall x, Decision (P x)} (l : list (A * B)) :
  NoDup l.*1 -> NoDup (filter P l).*1.
Proof.
  induction l as [|x l IH]; intros Hnd; [done|]. cbn in Hnd. apply NoDup_cons in Hnd as [Hx Hnd].
  rewrite filter_cons. destruct (decide (P x)); [|by apply IH]. cbn. apply NoDup_cons. split; [|by apply IH].
  intros (y & Hy & [_ Hin]%list_elem_of_filter)%list_elem_of_fmap. apply Hx, list_elem_of_fmap. by exists y.
Qed.

Lemma cursor_rows_nodup n addrs i : NoDup (cursor_rows n addrs i).*1.
Proof.
  unfold cursor_rows. rewrite (fmap_Permutation fst _ _ (merge_sort_Permutation _ _)).
  apply NoDup_fst_filter, NoDup_fst_map_to_list.
Qed.

Lemma write_cursors_moves w e buckets rows : forall i n m i',
  NoDup rows.*1 -> (forall (k : cursor_key) c, (k, c) ∈ rows -> cursors i !! k = Some c) ->
  write_cursors w e buckets rows i = inr (n, m, i') ->
  (forall (k : cursor_key) c, (k, c) ∈ rows -> exists c', cursors i' !! k = Some c' /\ moved w e c c') /\
  (forall (k : cursor_key), k ∉ rows.*1 -> cursors i' !! k = cursors i !! k).
Proof.
  induction rows as [|[k c] rows IH]; intros i n m i' Hnd Hrows Hw; cbn [write_cursors] in Hw.
  { injection Hw as <- <- <-. split; [|done]. intros ? ? []%not_elem_of_nil. }
  destruct (write_cursor w e buckets k c i) as [|[[n1 m1] i1]] eqn:E1; [done|].
  destruct (write_cursors w e buckets rows i1) as [|[[n2 m2] i2]] eqn:E2; [done|]. injection Hw as <- <- <-.
  cbn in Hnd. apply NoDup_cons in Hnd as [Hk Hnd].
  apply write_cursor_inv in E1 as (c' & Hmv & Hcs & _ & _).
  assert (forall k0 c0, (k0, c0) ∈ rows -> k0 <> k) as Hne
    by (intros k0 c0 Hin ->; apply Hk, list_elem_of_fmap; by exists (k, c0)).
  destruct (IH i1 n2 m2 i2 Hnd) as [IH1 IH2]; [|done|].
  { intros k0 c0 Hin. rewrite Hcs, lookup_insert_ne; [apply Hrows; by right|]. intros <-. by eapply Hne. }
  split.
  - intros k0 c0 [[= -> ->]|Hin]%elem_of_cons; [|by apply IH1].
    exists c'. split; [|done]. by rewrite IH2, Hcs, lookup_insert_eq.
  - intros k0 [Hk0 Hk1]%not_elem_of_cons. by rewrite IH2, Hcs, lookup_insert_ne.
Qed.

Lemma write_cursors_faithful scope ch w e buckets rows : forall i a b i',
  well_formed ch -> memo_true ch (w_memo w) -> faithful scope ch i ->
  NoDup rows.*1 ->
  (forall (k : cursor_key) c, (k, c) ∈ rows -> cursors i !! k = Some c /\ scope k /\
     (last_indexed_block c < e -> k.2 ∈ w_topics w -> bucket_exact ch k (last_indexed_block c) e (buckets k.1.2 k.2))) ->
  write_cursors w e buckets rows i = inr (a, b, i') -> faithful scope ch i'.
Proof.
  induction rows as [|[k c] rows IH]; intros i a b i' Hwf Hm Hf Hnd Hrows Hw; cbn [write_cursors] in Hw.
  { by injection Hw as <- <- <-. }
  destruct (write_cursor w e buckets k c i) as [|[[n1 m1] i1]] eqn:E1; [done|].
  destruct (write_cursors w e buckets rows i1) as [|[[n2 m2] i2]] eqn:E2; [done|]. injection Hw as <- <- <-.
  cbn in Hnd. apply NoDup_cons in Hnd as [Hk Hnd].
  destruct (Hrows k c) as (Hc & Hkn & Hb); [by left|].
  eapply (IH i1); [done|done| |done| |exact E2].
  - by eapply write_cursor_faithful.
  - intros k0 c0 Hin. destruct (Hrows k0 c0) as (Hc0 & ? & ?); [by right|]. split; [|done].
    apply write_cursor_inv in E1 as (c' & _ & Hcs & _ & _). rewrite Hcs, lookup_insert_ne; [done|].
    intros <-. apply Hk, list_elem_of_fmap. by exists (k, c0).
Qed.

(** ** Rewinds *)

Definition agree (ch ch' : chain) (b : Z) : Prop :=
  (forall l, block_number l <= b -> l ∈ chain_logs ch <-> l ∈ chain_logs ch') /\
  (forall m, m <= b -> chain_hash ch m = chain_hash ch' m).

Lemma agree_refl ch b : agree ch ch b.
Proof. split; [done|]. intros; done. Qed.

(** A plan rewinds only its own addresses, to heights whose hash it read. *)
Definition plan_ok (ch : chain) (p : GroupPlan) : Prop :=
  (forall a r, rewinds p !! a = Some r -> a ∈ addresses p) /\
  (forall a r h, rewinds p !! a = Some r -> rewind_hash r = Some h -> chain_hash ch (rewind_to r) = Some h).

Lemma rewound_lookup p i (k : cursor_key) : cursors (apply_rewinds p i) !! k = rewind_cursor p k <$> cursors i !! k.
Proof. cbn. rewrite map_lookup_imap. by destruct (cursors i !! k). Qed.

Lemma rewound_logs p i lk r :
  logs (apply_rewinds p i) !! lk = Some r <-> logs i !! lk = Some r /\ ~ rewound_away p lk r.
Proof. cbn. by rewrite map_lookup_filter_Some. Qed.

Lemma rewind_fields p (k : cursor_key) c :
  let c' := rewind_cursor p k c in
  anchor c' = anchor c /\
  (c' = c \/ exists r, rewinds p !! str_lower k.1.2 = Some r /\ last_indexed_block c' = rewind_to r /\
             rewind_to r < last_indexed_block c /\ last_indexed_block_hash c' = rewind_hash r /\ backfill_complete c' = false).
Proof.
  destruct k as [[n a] t]. unfold rewind_cursor. cbn [fst snd]. cbv zeta.
  destruct (rewinds p !! str_lower a) as [r|]; [|by auto]. destruct (decide _); [|by auto].
  destruct (Z.ltb_spec (rewind_to r) (last_indexed_block c)); [|by auto]. split; [done|]. right. exists r. auto.
Qed.

(** A rewound cursor of the plan's own is at or below the rewind point. *)
Lemma rewound_below p (k : cursor_key) c r :
  k.1.1 = plan_chain p -> str_lower k.1.2 ∈ addresses p -> rewinds p !! str_lower k.1.2 = Some r ->
  last_indexed_block (rewind_cursor p k c) = Z.min (last_indexed_block c) (rewind_to r).
Proof.
  destruct k as [[n a] t]. unfold rewind_cursor. cbn [fst snd]. intros Hn Ha ->. rewrite decide_True by done.
  destruct (Z.ltb_spec (rewind_to r) (last_indexed_block c)); cbn [last_indexed_block set_position]; lia.
Qed.

(** Rewinding below the point where two chains part makes the index faithful to
    the second. *)
Lemma rewinds_faithful scope ch ch' p i :
  plan_scope p scope -> plan_ok ch' p -> faithful scope ch i ->
  (forall (k : cursor_key) c, scope k -> cursors i !! k = Some c -> agree ch ch' (last_indexed_block (rewind_cursor p k c))) ->
  faithful scope ch' (apply_rewinds p i).
Proof.
  intros [_ Hchain] [Hin Hhash] Hf Hag.
  assert (Hcur : forall (k : cursor_key) c', cursors (apply_rewinds p i) !! k = Some c' -> exists c, cursors i !! k = Some c /\ c' = rewind_cursor p k c).
  { intros k c'. rewrite rewound_lookup. destruct (cursors i !! k) as [c|]; [|done]. intros [= <-]. eauto. }
  assert (Hle : forall (k : cursor_key) c, last_indexed_block (rewind_cursor p k c) <= last_indexed_block c).
  { intros k c. destruct (rewind_fields p k c) as [_ [->|(r & _ & -> & ? & _)]]; lia. }
  split.
  - intros k c' Hk (c & Hc & ->)%Hcur. by apply (faithful_keys _ _ _ Hf k c).
  - intros k c' Hk (c & Hc & ->)%Hcur l seed Hs Hl He Hb. apply rewound_logs.
    assert (l ∈ chain_logs ch) as Hl' by (apply (Hag k c Hk Hc); [lia|done]).
    destruct (rewind_fields p k c) as [[= Hseed _ _ _] _]. rewrite Hseed in Hs. specialize (Hle k c).
    split; [apply (faithful_covers _ _ _ Hf k c Hk Hc l seed); try done; lia|].
    intros [_ Haway]. cbn in Haway. destruct (rewinds p !! str_lower k.1.2) as [r|] eqn:Er; [|done].
    rewrite (rewound_below p k c r (Hchain k Hk) (Hin _ _ Er) Er) in Hb. lia.
  - intros k h m r Hk [Hr Haway]%rewound_logs.
    destruct (faithful_rows _ _ _ Hf k h m r Hk Hr) as (c & Hc & l & Hl & He & ? & ? & Hrow & Hb).
    exists (rewind_cursor p k c). split; [by rewrite rewound_lookup, Hc|].
    assert (block_number l <= last_indexed_block (rewind_cursor p k c)) as Hb'.
    { destruct (rewind_fields p k c) as [_ [->|(w & Hw & -> & _)]]; [done|].
      destruct (decide (block_number l <= rewind_to w)); [done|]. destruct Haway. split; [by apply Hchain|]. cbn. rewrite Hw, <- Hrow. cbn. lia. }
    exists l. split_and!; try done. by apply (Hag k c Hk Hc).
  - intros k c' Hk (c & Hc & ->)%Hcur h Hh. destruct (rewind_fields p k c) as [_ [Heq|(r & Hr & Hl & _ & Hh' & _)]].
    + specialize (Hag k c Hk Hc). rewrite Heq in Hh, Hag |- *. destruct Hag as [_ <-]; [|lia]. by apply (faithful_stamps _ _ _ Hf k c Hk Hc).
    + rewrite Hl. eapply Hhash; [done|]. congruence.
Qed.

(** ** Write prefixes cut a page at block boundaries *)

(** A page's prefixes from block [lo]: each slice holds exactly the logs up to
    its end, and the last ends at the window's. *)
Inductive cut (ls : list FetchedEventLog) (window_end : Z) : Z -> nat -> list (nat * nat * Z) -> Prop :=
  | cut_last lo offset :
      lo <= window_end -> (forall l, l ∈ drop offset ls -> lo <= block_number l <= window_end) ->
      cut ls window_end lo offset [(offset, List.length ls, window_end)]
  | cut_more lo offset e prefix_end ps :
      lo <= prefix_end -> (forall l, l ∈ slice offset e ls -> lo <= block_number l <= prefix_end) ->
      (forall l, l ∈ drop e ls -> prefix_end < block_number l) ->
      (offset <= e)%nat -> cut ls window_end (prefix_end + 1) e ps ->
      cut ls window_end lo offset ((offset, e, prefix_end) :: ps).

Lemma slice_drop {A} (o e : nat) (l : list A) : (o <= e)%nat -> (slice o e l ++ drop e l)%list = drop o l.
Proof.
  intros He. unfold slice. rewrite take_drop_commute. replace (o + (e - o))%nat with e by lia. by apply drop_take_drop.
Qed.

Lemma block_run_spec b l :
  let (n, _) := block_run b l in
  (n <= List.length l)%nat /\ (forall x, x ∈ take n l -> block_number x = b) /\
  match drop n l with y :: _ => block_number y <> b | [] => True end.
Proof.
  induction l as [|x l IH]; cbn [block_run].
  { split_and!; [done|intros ? []%not_elem_of_nil|done]. }
  destruct (Z.eqb_spec (block_number x) b) as [Hx|Hx].
  - destruct (block_run b l) as [n bytes]. destruct IH as (Hn & Ht & Hd). cbn. split_and!; [lia| |done].
    intros y [->|Hy]%elem_of_cons; [done|by apply Ht].
  - cbn. split_and!; [lia|intros ? []%not_elem_of_nil|done].
Qed.

Lemma sorted_parts (l : list FetchedEventLog) n :
  StronglySorted block_le l ->
  StronglySorted block_le (drop n l) /\ forall x y, x ∈ take n l -> y ∈ drop n l -> block_number x <= block_number y.
Proof.
  intros Hs. rewrite <- (take_drop n l) in Hs. split; [by apply StronglySorted_app_1_r in Hs|].
  intros x y Hx Hy. by eapply (StronglySorted_app_1_elem_of block_le) in Hs.
Qed.

Lemma prefixes_loop_cut ls we mr mb fuel : forall lo offset bs payload,
  StronglySorted block_le ls -> lo <= we -> (offset <= bs <= List.length ls)%nat -> (List.length ls - bs <= fuel)%nat ->
  (forall x, x ∈ drop offset ls -> lo <= block_number x <= we) ->
  (forall x y, x ∈ slice offset bs ls -> y ∈ drop bs ls -> block_number x < block_number y) ->
  cut ls we lo offset (prefixes_loop fuel ls offset bs payload we mr mb).
Proof.
  induction fuel as [|fuel IH]; intros lo offset bs payload Hs Hlo Hbs Hf Hall Hlt; cbn [prefixes_loop].
  { by apply cut_last. }
  destruct (drop bs ls) as [|x rest] eqn:Ed; [by apply cut_last|].
  pose proof (block_run_spec (block_number x) (x :: rest)) as Hrun.
  destruct (block_run (block_number x) (x :: rest)) as [run bytes] eqn:Er. destruct Hrun as (Hn & Htake & Hdrop).
  assert (1 <= run)%nat as Hrun.
  { cbn [block_run] in Er. rewrite Z.eqb_refl in Er. destruct (block_run (block_number x) rest). injection Er as <- _. lia. }
  assert (List.length (x :: rest) = (List.length ls - bs)%nat) as Hlen by (rewrite <- Ed; apply length_drop).
  destruct (sorted_parts ls bs Hs) as [Hsd _]. rewrite Ed in Hsd.
  assert (Hnext : forall y z, y ∈ take run (x :: rest) -> z ∈ drop run (x :: rest) -> block_number y < block_number z).
  { intros y z Hy Hz. rewrite (Htake y Hy). destruct (drop run (x :: rest)) as [|d ds] eqn:Edd; [by apply not_elem_of_nil in Hz|].
    destruct (sorted_parts (x :: rest) run Hsd) as [Hss Hxy]. rewrite Edd in Hss, Hxy.
    assert (block_number x <= block_number d) as Hxd by (apply Hxy; [destruct run; [lia|]; by left|by left]).
    assert (block_number d <= block_number z) as Hdz.
    { apply elem_of_cons in Hz as [->|Hz]; [lia|]. apply StronglySorted_inv in Hss as [_ Hss].
      exact (proj1 (Forall_forall _ _) Hss z Hz). }
    lia. }
  assert (Hdd : drop (bs + run) ls = drop run (x :: rest)) by by rewrite <- Ed, drop_drop.
  assert (Hin : forall y, y ∈ x :: rest -> lo <= block_number y <= we).
  { intros y Hy. apply Hall. rewrite <- (slice_drop offset bs ls) by lia. rewrite elem_of_app, Ed. by right. }
  destruct (bool_decide (offset < bs)%nat && _) eqn:Ecut.
  - apply andb_true_iff in Ecut as [Hob%bool_decide_eq_true _].
    assert (exists z, z ∈ slice offset bs ls) as [z Hz].
    { destruct (slice offset bs ls) as [|z ?] eqn:E; [|exists z; by left]. exfalso.
      assert (List.length (slice offset bs ls) = 0%nat) as H0 by by rewrite E. revert H0. unfold slice.
      rewrite length_take, length_drop. lia. }
    apply cut_more; try lia.
    + specialize (Hlt z x Hz ltac:(by left)). specialize (Hall z). rewrite <- (slice_drop offset bs ls), elem_of_app in Hall by lia. specialize (Hall (or_introl Hz)). lia.
    + intros l Hl. specialize (Hlt l x Hl ltac:(by left)).
      specialize (Hall l). rewrite <- (slice_drop offset bs ls), elem_of_app in Hall by lia. specialize (Hall (or_introl Hl)). lia.
    + intros l Hl. rewrite Ed in Hl. apply elem_of_cons in Hl as [->|Hl]; [lia|].
      apply StronglySorted_inv in Hsd as [_ Hsd]. pose proof (proj1 (Forall_forall _ _) Hsd l Hl) as Hb. unfold block_le in Hb. lia.
    + apply IH; try done; try lia.
      * specialize (Hin x ltac:(by left)). lia.
      * intros y Hy. rewrite Ed in Hy. split; [|by apply Hin]. apply elem_of_cons in Hy as [->|Hy]; [lia|].
        apply StronglySorted_inv in Hsd as [_ Hsd]. pose proof (proj1 (Forall_forall _ _) Hsd y Hy) as Hb. unfold block_le in Hb. lia.
      * intros y z' Hy Hz'. rewrite Hdd in Hz'. unfold slice in Hy. rewrite Ed in Hy. replace (bs + run - bs)%nat with run in Hy by lia. by apply Hnext.
  - apply IH; try done; try lia.
    intros y z Hy Hz. rewrite Hdd in Hz.
    assert (y ∈ slice offset bs ls \/ y ∈ take run (x :: rest)) as [Hy'|Hy'].
    { revert Hy. unfold slice. replace (bs + run - offset)%nat with ((bs - offset) + run)%nat by lia.
      rewrite <- take_take_drop, drop_drop, elem_of_app. replace (offset + (bs - offset))%nat with bs by lia. by rewrite Ed. }
    + apply Hlt; [done|]. rewrite <- (take_drop run (x :: rest)), elem_of_app. by right.
    + by apply Hnext.
Qed.

#[local] Instance block_le_trans : Transitive block_le.
Proof. intros a b c. unfold block_le. lia. Qed.
#[local] Instance block_le_total : Total block_le.
Proof. intros a b. unfold block_le. lia. Qed.

Lemma write_prefixes_cut page_ls we mr mb lo :
  lo <= we -> (forall x, x ∈ page_ls -> lo <= block_number x <= we) ->
  let ls := merge_sort block_le page_ls in cut ls we lo 0 (write_prefixes ls we mr mb).
Proof.
  intros Hlo Hall ls. apply prefixes_loop_cut; try done; try lia.
  - apply StronglySorted_merge_sort; apply _.
  - intros x Hx. rewrite drop_0 in Hx. apply Hall. by rewrite <- (merge_sort_Permutation block_le page_ls).
  - intros x y Hx. by apply not_elem_of_nil in Hx.
Qed.

(** ** One prefix *)

(** A slice holds exactly the requested logs of its blocks. *)
Definition prefix_exact (ch : chain) (p : GroupPlan) (topics_ : list string) (lo hi : Z) (ls : list FetchedEventLog) : Prop :=
  (forall lc t, lc ∈ chain_logs ch -> log_address lc ∈ addresses p -> log_topic0 lc = Some t -> t ∈ topics_ ->
     lo <= block_number lc <= hi -> exists l, l ∈ ls /\ copy_of (single_address p) l lc) /\
  (forall l, l ∈ ls -> lo <= block_number l <= hi /\ exists lc, lc ∈ chain_logs ch /\ copy_of (single_address p) l lc).

Lemma bucket_of_prefix ch p topics_ lo hi ls buckets (k : cursor_key) last :
  prefix_exact ch p topics_ lo hi ls -> bucket_logs ls (single_address p) (addresses p) = inr buckets ->
  k.1.2 ∈ addresses p -> k.2 ∈ topics_ -> lo - 1 <= last ->
  bucket_exact ch k last hi (buckets k.1.2 k.2).
Proof.
  intros [Hall Hex] Hbk Ha Ht Hlast. unfold bucket_logs in Hbk. destruct (existsb _ _); [done|]. injection Hbk as <-. split.
  - intros lc Hlc [He1 He2] Hb. destruct (Hall lc k.2) as (l & Hl & Hcopy); [done|by rewrite He1|done|done|lia|].
    exists l. pose proof (copy_block _ _ _ Hcopy). pose proof (copy_topic0 _ _ _ Hcopy) as Ht0.
    destruct Hcopy as (Hem & Htx & Hli & _). split_and!; try done. apply list_elem_of_filter. split; [|done]. split; congruence.
  - intros l [[Hem Ht0] Hl]%list_elem_of_filter _. destruct (Hex l Hl) as (Hb & lc & Hlc & Hcopy). split; [lia|].
    pose proof (copy_topic0 _ _ _ Hcopy) as Htc. destruct Hcopy as (Hem' & Htx & Hli & Hrow).
    exists lc. split; [done|]. split; [|done]. split; congruence.
Qed.

Definition adjusted (p : GroupPlan) (pending : bool) (r : position_row) : Z :=
  if pending then match rewinds p !! r.1.1.1 with Some w => Z.min (position_block r) (rewind_to w) | None => position_block r end
  else position_block r.

(** The index a prefix writes to. *)
Definition prefix_base (p : GroupPlan) (pending : bool) (i : index) : index := if pending then apply_rewinds p i else i.

Lemma base_positions ch p pending i (k : cursor_key) c :
  plan_ok ch p -> (k, c) ∈ cursor_rows (plan_chain p) (addresses p) (prefix_base p pending i) ->
  exists r, r ∈ member_positions (cursor_rows (plan_chain p) (addresses p) i) /\ last_indexed_block c = adjusted p pending r.
Proof.
  intros [Hin _]. rewrite cursor_rows_elem. intros (Hc & Hk & Ha).
  assert (exists c0, cursors i !! k = Some c0 /\ c = (if pending then rewind_cursor p k c0 else c0)) as (c0 & Hc0 & ->).
  { unfold prefix_base in Hc. destruct pending; [|by exists c]. rewrite rewound_lookup in Hc.
    destruct (cursors i !! k) as [c0|]; [|done]. injection Hc as <-. by exists c0. }
  exists (member_position (k, c0)). split.
  - apply list_elem_of_fmap. exists (k, c0). split; [done|]. by apply cursor_rows_elem.
  - unfold adjusted, position_block. cbn. destruct pending; [|done].
    destruct (rewinds p !! str_lower k.1.2) as [r|] eqn:Er; [by apply rewound_below|].
    destruct (rewind_fields p k c0) as [_ [->|(r & Hr & _)]]; [done|congruence].
Qed.

Lemma write_prefix_inv p w exp pending ls e i exp' i' :
  write_prefix p w exp pending ls e i = inr (exp', i') ->
  exists n m buckets, member_positions (cursor_rows (plan_chain p) (addresses p) i) = exp /\
    bucket_logs ls (single_address p) (addresses p) = inr buckets /\
    write_cursors w e buckets (cursor_rows (plan_chain p) (addresses p) (prefix_base p pending i)) (prefix_base p pending i) =
      inr (n, m, i') /\
    exp' = member_positions (cursor_rows (plan_chain p) (addresses p) i').
Proof.
  unfold write_prefix, lock_members. destruct (decide _) as [Hexp|]; [|done]. fold (prefix_base p pending i).
  destruct (bucket_logs _ _ _) as [|buckets]; [done|].
  destruct (write_cursors _ _ _ _ _) as [|[[n m] i2]] eqn:E; [done|]. intros [= <- <-]. by exists n, m, buckets.
Qed.

(** After a prefix every position is at or past its end. *)
Lemma write_prefix_positions ch p w exp pending ls e i exp' i' :
  plan_ok ch p -> write_prefix p w exp pending ls e i = inr (exp', i') ->
  forall r, r ∈ exp' -> e <= position_block r.
Proof.
  intros Hp (n & m & buckets & _ & _ & Hw & ->)%write_prefix_inv r.
  intros ([k c'] & -> & Hin)%list_elem_of_fmap. apply cursor_rows_elem in Hin as (Hc' & Hk & Ha). cbn.
  apply write_cursors_moves in Hw as [Hmv Hrest]; [|apply cursor_rows_nodup|intros k0 c0 H0; by apply cursor_rows_elem in H0 as [? _]].
  destruct (decide (k ∈ (cursor_rows (plan_chain p) (addresses p) (prefix_base p pending i)).*1)) as [Hin|Hnin].
  - apply list_elem_of_fmap in Hin as ([k0 c0] & -> & Hin). destruct (Hmv k0 c0 Hin) as (c1 & Hc1 & Hm1 & _).
    cbn in *. simplify_eq. unfold position_block. cbn. lia.
  - exfalso. apply Hnin. rewrite (Hrest k Hnin) in Hc'. apply list_elem_of_fmap. exists (k, c'). split; [done|]. by apply cursor_rows_elem.
Qed.

(** What a write leaves: the group's rows as expected, complete at the target. *)
Definition written (p : GroupPlan) (target : Z) (exp : list position_row) (i : index) : Prop :=
  exp = member_positions (cursor_rows (plan_chain p) (addresses p) i) /\
  forall (k : cursor_key) c, (k, c) ∈ cursor_rows (plan_chain p) (addresses p) i -> target <= last_indexed_block c -> backfill_complete c = true.

Lemma write_prefix_written p w exp pending ls e i exp' i' :
  write_prefix p w exp pending ls e i = inr (exp', i') -> written p (w_target w) exp' i'.
Proof.
  intros (n & m & buckets & _ & _ & Hw & ->)%write_prefix_inv. split; [done|].
  intros k c' (Hc' & Hk & Ha)%cursor_rows_elem.
  apply write_cursors_moves in Hw as [Hmv Hrest]; [|apply cursor_rows_nodup|intros k0 c0 H0; by apply cursor_rows_elem in H0 as [? _]].
  destruct (decide (k ∈ (cursor_rows (plan_chain p) (addresses p) (prefix_base p pending i)).*1)) as [Hin|Hnin].
  - apply list_elem_of_fmap in Hin as ([k0 c0] & -> & Hin). destruct (Hmv k0 c0 Hin) as (c1 & Hc1 & _ & _ & Hcm & _).
    cbn in *. by simplify_eq.
  - exfalso. apply Hnin. rewrite (Hrest k Hnin) in Hc'. apply list_elem_of_fmap. exists (k, c'). split; [done|]. by apply cursor_rows_elem.
Qed.

(** The index is faithful once the pending rewinds are applied. *)
Definition based (scope : cursor_key -> Prop) (ch : chain) (p : GroupPlan) (pending : bool) (i : index) : Prop :=
  faithful scope ch (prefix_base p pending i).

Lemma write_prefix_faithful scope ch p w exp pending ls lo e i exp' i' :
  plan_scope p scope -> well_formed ch -> memo_true ch (w_memo w) -> plan_ok ch p -> based scope ch p pending i ->
  prefix_exact ch p (w_topics w) lo e ls -> (forall r, r ∈ exp -> lo - 1 <= adjusted p pending r) ->
  write_prefix p w exp pending ls e i = inr (exp', i') -> faithful scope ch i'.
Proof.
  intros Hsc Hwf Hm Hp Hfb Hpe Hlo (n & m & buckets & Hexp & Hbk & Hw & ->)%write_prefix_inv.
  eapply write_cursors_faithful; [done|done|exact Hfb|apply cursor_rows_nodup| |exact Hw].
  intros k c Hin. pose proof (base_positions ch p pending i k c Hp Hin) as (r & Hr & Hl).
  apply cursor_rows_elem in Hin as (Hc & Hk & Ha). assert (scope k) as Hsk by by apply (proj1 Hsc).
  split_and!; [done|done|]. intros Hlt Ht. destruct (faithful_keys _ _ _ Hfb k c Hsk Hc) as [Hlow _]. rewrite Hlow in Ha.
  eapply bucket_of_prefix; [done|done|done|done|]. rewrite Hl. apply Hlo. by rewrite <- Hexp.
Qed.

(** ** A page *)

(** The documented answer of the fetcher: exactly the requested logs of the
    page's blocks. *)
Definition truthful (ch : chain) (p : GroupPlan) (topics_ : list string) (page : LogPage) : Prop :=
  prefix_exact ch p topics_ (from_block page) (to_block page) (page_logs page).

Lemma slice_all {A} (o : nat) (l : list A) : slice o (List.length l) l = drop o l.
Proof. unfold slice. apply take_ge. by rewrite length_drop. Qed.

Lemma cut_le ls we lo offset ps : cut ls we lo offset ps -> lo <= we.
Proof. induction 1; lia. Qed.

Lemma cut_concat ls we lo offset ps : cut ls we lo offset ps -> List.concat (map (fun '(o, e, _) => slice o e ls) ps) = drop offset ls.
Proof.
  induction 1 as [lo offset _ _|lo offset e pe ps _ _ _ He _ IH]; cbn; [by rewrite app_nil_r, slice_all|].
  by rewrite IH, slice_drop.
Qed.

(** Cutting off a prefix leaves exact slices. *)
Lemma cut_exact ch p topics_ ls we lo o e pe offset ps :
  cut ls we lo offset ((o, e, pe) :: ps) -> prefix_exact ch p topics_ lo we (drop offset ls) ->
  prefix_exact ch p topics_ lo pe (slice o e ls) /\
  (ps = [] /\ pe = we \/ cut ls we (pe + 1) e ps /\ prefix_exact ch p topics_ (pe + 1) we (drop e ls)).
Proof.
  intros Hcut [Hall Hex]. inversion Hcut as [lo0 off0 Hle Hin|lo0 off0 e0 pe0 ps0 Hle Hslice Hdrop Hoe Hcut']; subst.
  - rewrite slice_all. split; [by split|by left].
  - assert (pe + 1 <= we) as Hpw by by eapply cut_le.
    assert (forall l, l ∈ slice o e ls \/ l ∈ drop e ls <-> l ∈ drop o ls) as Hsplit
      by (intros l; by rewrite <- (slice_drop o e ls Hoe), elem_of_app).
    split; [split|right; split; [done|split]].
    + intros lc t G1 G2 G3 G4 Hb. destruct (Hall lc t G1 G2 G3 G4) as (l & Hl & Hcopy); [lia|].
      exists l. split; [|done]. apply Hsplit in Hl as [|Hl]; [done|]. apply Hdrop in Hl. rewrite (copy_block _ _ _ Hcopy) in Hl. lia.
    + intros l Hl. split; [by apply Hslice|]. apply Hex, Hsplit. by left.
    + intros lc t G1 G2 G3 G4 Hb. destruct (Hall lc t G1 G2 G3 G4) as (l & Hl & Hcopy); [lia|].
      exists l. split; [|done]. apply Hsplit in Hl as [Hl|]; [|done]. apply Hslice in Hl. rewrite (copy_block _ _ _ Hcopy) in Hl. lia.
    + intros l Hl. destruct (Hex l) as [Hb Hlc]; [apply Hsplit; by right|]. split; [|done]. apply Hdrop in Hl. lia.
Qed.

(** An invariant of the index, before or after the pending rewinds, that a write
    of a page's logs keeps. *)
Definition writes_keep (inv : bool -> index -> Prop) (ch : chain) (p : GroupPlan) : Prop :=
  forall w exp pending ls lo e i exp' i', memo_true ch (w_memo w) -> prefix_exact ch p (w_topics w) lo e ls ->
    (forall r, r ∈ exp -> lo - 1 <= adjusted p pending r) -> inv pending i ->
    write_prefix p w exp pending ls e i = inr (exp', i') -> inv false i'.

Lemma based_writes scope ch p : plan_scope p scope -> well_formed ch -> plan_ok ch p -> writes_keep (based scope ch p) ch p.
Proof.
  intros Hsc Hwf Hp w exp pending ls lo e i exp' i' Hm Hex Ha Hi Hw.
  exact (write_prefix_faithful scope ch p w exp pending ls lo e i exp' i' Hsc Hwf Hm Hp Hi Hex Ha Hw).
Qed.

(** What a visit must know to write from block [lo]. *)
Record visit_ok (inv : bool -> index -> Prop) (ch : chain) (p : GroupPlan) (lo : Z) (v : visit) : Prop := {
  visit_ahead : forall r, r ∈ expected v -> lo - 1 <= adjusted p (rewind_pending v) r;
  visit_memo : memo_true ch (memo v);
  visit_others : forall f, f ∈ others v -> forall pending i, inv pending i -> inv pending (f i);
}.

(** Its positions are the expected ones, rewinds applied. *)
Definition tracks (p : GroupPlan) (v : visit) : Prop :=
  Forall2 (fun r r' => position_block r' = adjusted p (rewind_pending v) r) (expected v) (position v).

Lemma disturbed_keeps inv ch p lo v i :
  visit_ok inv ch p lo v -> inv (rewind_pending v) i -> inv (rewind_pending v) (disturb v i).
Proof. intros [_ _ Ho] Hf. unfold disturb. destruct (others v) as [|f fs] eqn:E; [done|]. apply Ho; [by left|done]. Qed.

Lemma write_page_keeps inv ch p target now topics_ page ls we : forall prefixes lo offset v i err v' i',
  writes_keep inv ch p -> plan_ok ch p -> cut ls we lo offset prefixes -> prefix_exact ch p topics_ lo we (drop offset ls) ->
  visit_ok inv ch p lo v -> inv (rewind_pending v) i ->
  write_page p target now topics_ page ls prefixes v i = (err, v', i') ->
  inv (rewind_pending v') i' /\ (err = None -> visit_ok inv ch p (we + 1) v').
Proof.
  induction prefixes as [|[[o e] pe] ps IH]; intros lo offset v i err v' i' Hk Hp Hcut Hex Hv Hf Hw; [by inversion Hcut|].
  cbn [write_page] in Hw.
  pose proof (disturbed_keeps _ _ _ _ _ _ Hv Hf) as Hfd.
  destruct (cut_exact ch p topics_ ls we lo o e pe offset ps Hcut Hex) as [Hsl Hrest].
  destruct (write_prefix _ _ _ _ _ _ _) as [er|[exp' i1]] eqn:Ew.
  { injection Hw as <- <- <-. by split. }
  pose proof (write_prefix_positions ch p _ _ _ _ _ _ _ _ Hp Ew) as Hpos.
  assert (inv false i1) as Hf1.
  { eapply (Hk (mkWrite topics_ target (memo v) page now) _ _ _ lo);
      [apply (visit_memo _ _ _ _ _ Hv)|exact Hsl|apply (visit_ahead _ _ _ _ _ Hv)|exact Hfd|exact Ew]. }
  set (v1 := mkVisit exp' exp' false (span v) (span_limit v) (pages v) (memo v) (tail (others v))) in *.
  assert (visit_ok inv ch p (pe + 1) v1) as Hv1.
  { split; [intros r Hr; cbn; specialize (Hpos r Hr); lia|apply (visit_memo _ _ _ _ _ Hv)|].
    intros f Hin. apply (visit_others _ _ _ _ _ Hv). cbn in Hin. destruct (others v); [done|by right]. }
  destruct Hrest as [[-> ->]|[Hcut' Hex']].
  - cbn in Hw. injection Hw as <- <- <-. split; [done|]. by intros _.
  - by eapply (IH (pe + 1) e v1 i1).
Qed.

(** Where a page leaves the positions, whatever it holds. *)
Lemma write_page_end ch p target now topics_ page ls : forall prefixes v i v' i' o e we,
  plan_ok ch p -> last prefixes = Some (o, e, we) ->
  write_page p target now topics_ page ls prefixes v i = (None, v', i') ->
  rewind_pending v' = false /\ position v' = expected v' /\ span v' = span v /\ span_limit v' = span_limit v /\
  written p target (expected v') i' /\ forall r, r ∈ expected v' -> we <= position_block r.
Proof.
  induction prefixes as [|[[o0 e0] pe] ps IH]; intros v i v' i' o e we Hp Hlast Hw; [done|]. cbn [write_page] in Hw.
  destruct (write_prefix _ _ _ _ _ _ _) as [er|[exp' i1]] eqn:Ew; [done|].
  pose proof (write_prefix_positions ch p _ _ _ _ _ _ _ _ Hp Ew) as Hpos.
  destruct ps as [|q ps].
  - pose proof (write_prefix_written _ _ _ _ _ _ _ _ _ Ew) as Hwr. cbn [w_target] in Hwr.
    cbn in Hw, Hlast. injection Hlast as <- <- <-. injection Hw as <- <-. split_and!; done.
  - rewrite last_cons_cons in Hlast. by eapply (IH (mkVisit exp' exp' false (span v) (span_limit v) (pages v) (memo v) (tail (others v)))) in Hw.
Qed.

Lemma prefixes_last ls we mr mb fuel : forall offset bs payload, exists o e,
  last (prefixes_loop fuel ls offset bs payload we mr mb) = Some (o, e, we).
Proof.
  induction fuel as [|fuel IH]; intros offset bs payload; cbn [prefixes_loop]; [eauto|].
  destruct (drop bs ls) as [|x rest]; [eauto|]. destruct (block_run _ _) as [run bytes]. destruct (_ && _); [|apply IH].
  destruct (IH bs (bs + run)%nat bytes) as (o & e & Hl). exists o, e.
  by destruct (prefixes_loop fuel ls bs (bs + run) bytes we mr mb) as [|q qs].
Qed.

(** ** A visit *)

Lemma foldr_min_elem (z : Z) (l : list Z) : foldr Z.min z l = z \/ foldr Z.min z l ∈ l.
Proof.
  induction l as [|y l IH]; cbn; [by left|]. destruct (Z.min_spec y (foldr Z.min z l)) as [[_ ->]|[_ ->]].
  - right. by left.
  - destruct IH; [by left|right; by right].
Qed.

Lemma z_min_list_elem l z : z_min_list l = Some z -> z ∈ l.
Proof. destruct l as [|x l]; [done|]. intros [= <-]. destruct (foldr_min_elem x l) as [->|]; [by left|by right]. Qed.

Section Visit.
Variable iter_pages : list string -> Z -> Z -> list LogPage.
Variable block_hash_at : Z -> option string.
Variable stop_set deadline_passed : Z -> bool.
Variable p : GroupPlan.
Variable limits : PageLimits.
Variable target write_max_rows write_max_bytes now : Z.
Variable ch : chain.
Variable inv : bool -> index -> Prop.
Hypothesis inv_writes : writes_keep inv ch p.

(** The documented behaviour of the node, and a plan it answered. *)
Definition node_truthful : Prop :=
  (forall topics_ lo hi, Forall (truthful ch p topics_) (iter_pages topics_ lo hi)) /\
  (forall b, block_hash_at b = chain_hash ch b).

Notation page_loop := (page_loop stop_set deadline_passed p limits target write_max_rows write_max_bytes now).
Notation chunk_loop := (chunk_loop iter_pages block_hash_at stop_set deadline_passed p limits target write_max_rows write_max_bytes now).
Notation run_plan := (run_plan iter_pages block_hash_at stop_set deadline_passed p limits target write_max_rows write_max_bytes now).

Lemma visit_ok_ext lo v v' :
  visit_ok inv ch p lo v -> expected v' = expected v -> rewind_pending v' = rewind_pending v -> others v' = others v ->
  memo_true ch (memo v') -> visit_ok inv ch p lo v'.
Proof. intros [H1 H2 H3] E1 E2 E3 Hm. split; [by rewrite E1, E2|done|by rewrite E3]. Qed.

Lemma page_loop_keeps topics_ chunk_end ps : forall ef v i o ef' v' i',
  plan_ok ch p -> Forall (truthful ch p topics_) ps ->
  visit_ok inv ch p ef v -> inv (rewind_pending v) i ->
  page_loop topics_ chunk_end ps ef v i = (o, ef', v', i') ->
  inv (rewind_pending v') i' /\ (o = None -> visit_ok inv ch p ef' v').
Proof.
  induction ps as [|page ps IH]; intros ef v i o ef' v' i' Hp Hps Hv Hf Hl; cbn [EventIndex.page_loop] in Hl.
  { by injection Hl as <- <- <- <-. }
  apply Forall_cons in Hps as [Hpage Hps].
  destruct (negb (from_block page =? ef) || _ || _) eqn:Eok; [by injection Hl as <- <- <- <-|].
  apply orb_false_iff in Eok as [[Hfrom%negb_false_iff%Z.eqb_eq _]%orb_false_iff Hto%Z.ltb_ge].
  destruct (write_page _ _ _ _ _ _ _ v i) as [[err v1] i1] eqn:Ew.
  assert (inv (rewind_pending v1) i1 /\ (err = None -> visit_ok inv ch p (to_block page + 1) v1)) as [Hf1 Hv1].
  { eapply (write_page_keeps inv ch p _ _ _ _ _ (to_block page) _ (from_block page) 0); [done|done| | |by rewrite Hfrom|exact Hf|exact Ew].
    - apply write_prefixes_cut; [done|]. intros x Hx. by apply Hpage.
    - rewrite drop_0. destruct Hpage as [Ha He]. split.
      + intros lc t G1 G2 G3 G4 Hb. destruct (Ha lc t G1 G2 G3 G4 Hb) as (l & ? & ?). exists l.
        by rewrite (merge_sort_Permutation block_le (page_logs page)).
      + intros l Hin. apply He. by rewrite <- (merge_sort_Permutation block_le (page_logs page)). }
  destruct err as [e|]; [injection Hl as <- <- <- <-; by split|]. specialize (Hv1 eq_refl).
  destruct (stop_set _ || _); [injection Hl as <- <- <- <-; by split|].
  eapply IH in Hl; [exact Hl|done|done| |exact Hf1].
  eapply visit_ok_ext; [exact Hv1|done|done|done|apply (visit_memo _ _ _ _ _ Hv1)].
Qed.

Definition settled (v : visit) : Prop := rewind_pending v = false /\ position v = expected v.

Definition span_ok (v : visit) : Prop := 1 <= span v /\ forall z, span_limit v = Some z -> 1 <= z.

Lemma next_span_pos page : 1 <= next_span page limits.
Proof. unfold next_span. destruct (returned_log_count page); [destruct (_ <? _)|]; lia. Qed.

Lemma min_opt_pos o z : (forall x, o = Some x -> 1 <= x) -> 1 <= z -> 1 <= min_opt o z.
Proof. intros Ho Hz. destruct o as [x|]; [specialize (Ho x eq_refl); cbn; lia|done]. Qed.

(** A request whose pages were all written moved every position to its end. *)
Lemma page_loop_progress topics_ chunk_end ps : forall ef v i ef' v' i',
  plan_ok ch p -> span_ok v -> page_loop topics_ chunk_end ps ef v i = (None, ef', v', i') ->
  span_ok v' /\ (ef' = ef /\ v' = v /\ i' = i \/
    ef < ef' /\ settled v' /\ written p target (expected v') i' /\ forall r, r ∈ expected v' -> ef' - 1 <= position_block r).
Proof.
  induction ps as [|page ps IH]; intros ef v i ef' v' i' Hp Hs Hl; cbn [EventIndex.page_loop] in Hl.
  { injection Hl as <- <- <-. auto 10. }
  destruct (negb (from_block page =? ef) || _ || _) eqn:Eok; [done|].
  apply orb_false_iff in Eok as [[Hfrom%negb_false_iff%Z.eqb_eq _]%orb_false_iff Hto%Z.ltb_ge].
  destruct (write_page _ _ _ _ _ _ _ v i) as [[err v1] i1] eqn:Ew. destruct err as [e|]; [done|].
  destruct (prefixes_last (merge_sort block_le (page_logs page)) (to_block page) write_max_rows write_max_bytes
              (List.length (merge_sort block_le (page_logs page))) 0 0 0) as (o & e & Hlast).
  destruct (write_page_end ch p _ _ _ _ _ _ _ _ _ _ _ _ _ Hp Hlast Ew) as (E1 & E2 & E3 & E4 & Hwr & Hpos).
  destruct (stop_set _ || _); [done|]. apply IH in Hl as [Hs' Hcase]; [|done|].
  - split; [done|]. right. destruct Hcase as [(-> & -> & Hi)|(Hlt & Hset & Hwr' & Hpos')].
    + subst. split_and!; [lia|split; [exact E1|exact E2]|exact Hwr|]. cbn. intros r Hr. specialize (Hpos r Hr). lia.
    + split_and!; [lia|done|done|done].
  - assert (forall z, match refused_span_limit page with Some z => Some (min_opt (span_limit v) z) | None => span_limit v end = Some z -> 1 <= z) as Hlim.
    { intros z. unfold refused_span_limit. destruct (rejected_span page) as [sp|]; cbn; [|apply Hs].
      intros [= <-]. apply min_opt_pos; [apply Hs|]. unfold MIN_REQUEST_SPAN_LIMIT. lia. }
    split; cbn; [|exact Hlim]. apply min_opt_pos; [exact Hlim|apply next_span_pos].
Qed.

Lemma page_loop_never_finishes topics_ chunk_end ps : forall ef v i ef' v' i',
  page_loop topics_ chunk_end ps ef v i = (Some Finished, ef', v', i') -> False.
Proof.
  induction ps as [|page ps IH]; intros ef v i ef' v' i'; cbn [EventIndex.page_loop]; [done|].
  destruct (_ || _ || _); [done|]. destruct (write_page _ _ _ _ _ _ _ v i) as [[[e|] v1] i1]; [done|].
  destruct (_ || _); [done|]. apply IH.
Qed.

Lemma frontier_least v r :
  r ∈ position v -> default target (z_min_list (map position_block (behind v target))) <= position_block r.
Proof.
  intros Hr. set (l := map position_block (behind v target)).
  assert (forall z, z ∈ l -> z < target) as Hlt.
  { intros z Hz. unfold l in Hz. apply list_elem_of_fmap in Hz as (r' & -> & [? _]%list_elem_of_filter). done. }
  destruct (decide (position_block r < target)) as [Hb|Hb].
  - assert (position_block r ∈ l) as Hin by (apply list_elem_of_fmap; exists r; split; [done|]; by apply list_elem_of_filter).
    destruct l as [|z l']; [by apply not_elem_of_nil in Hin|]. cbn. apply foldr_min_le. by apply elem_of_cons in Hin.
  - destruct l as [|z l'] eqn:El; cbn; [lia|]. pose proof (foldr_min_le z l' z (or_introl eq_refl)). specialize (Hlt z ltac:(by left)). lia.
Qed.

Lemma frontier_covers v : tracks p v ->
  forall r, r ∈ expected v -> default target (z_min_list (map position_block (behind v target))) <= adjusted p (rewind_pending v) r.
Proof.
  intros Ht r Hr. apply list_elem_of_lookup in Hr as [n Hn]. destruct (Forall2_lookup_l _ _ _ _ _ Ht Hn) as (r' & Hr' & <-).
  apply frontier_least. by eapply list_elem_of_lookup_2.
Qed.

Lemma tracks_settled v : settled v -> tracks p v.
Proof. intros [Hp Hq]. unfold tracks. rewrite Hq. apply Forall_Forall2_diag, Forall_forall. intros r _. unfold adjusted. by rewrite Hp. Qed.

Lemma hash_at_true b m : (forall b, block_hash_at b = chain_hash ch b) -> memo_true ch m -> memo_true ch (hash_at block_hash_at b m).
Proof.
  intros Hb Hm. unfold hash_at. destruct (m !! b); [done|]. intros b' h. rewrite lookup_insert_Some.
  intros [[<- <-]|[_ ?]]; [apply Hb|by apply Hm].
Qed.

Lemma chunk_loop_keeps fuel : forall frontier v i o v' i',
  node_truthful -> plan_ok ch p -> tracks p v -> span_ok v ->
  visit_ok inv ch p (frontier + 1) v -> inv (rewind_pending v) i ->
  chunk_loop fuel frontier v i = Some (o, v', i') -> inv (rewind_pending v') i'.
Proof.
  induction fuel as [|fuel IH]; intros frontier v i o v' i' [Hpages Hhash] Hp Ht Hs Hv Hf Hl; cbn [EventIndex.chunk_loop] in Hl.
  all: destruct (target <=? frontier); [by injection Hl as <- <- <-|]; try done.
  destruct (stop_set (pages v) || _); [by injection Hl as <- <- <-|].
  set (ce := Z.min target (frontier + span v)) in *.
  set (tp := sorted_set _) in *. set (v1 := mkVisit (expected v) (position v) (rewind_pending v) _ _ _ _ _) in *.
  assert (visit_ok inv ch p (frontier + 1) v1) as Hv1.
  { eapply visit_ok_ext; [exact Hv|done|done|done|]. cbn. destruct (target <=? ce); [|apply (visit_memo _ _ _ _ _ Hv)].
    apply hash_at_true; [done|apply (visit_memo _ _ _ _ _ Hv)]. }
  destruct (page_loop tp ce _ _ v1 i) as [[[o1 ef] v2] i2] eqn:Epl.
  pose proof (page_loop_keeps _ _ _ _ _ _ _ _ _ _ Hp (Hpages tp _ _) Hv1 Hf Epl) as [Hf2 Hv2].
  destruct o1 as [o1|]; [by injection Hl as <- <- <-|]. specialize (Hv2 eq_refl).
  destruct (ef =? ce + 1); [|by injection Hl as <- <- <-].
  destruct (page_loop_progress _ _ _ _ _ _ _ _ _ Hp (Hs : span_ok v1) Epl) as [Hs2 Hcase].
  assert (tracks p v2) as Ht2 by (destruct Hcase as [(_ & -> & _)|(_ & Hset & _)]; [exact Ht|by apply tracks_settled]).
  eapply IH; [done|done|exact Ht2|exact Hs2| |exact Hf2|exact Hl].
  split; [|apply (visit_memo _ _ _ _ _ Hv2)|apply (visit_others _ _ _ _ _ Hv2)].
  intros r Hr. pose proof (frontier_covers v2 Ht2 r Hr). lia.
Qed.

(** A visit ends: each request that is written advances the frontier. *)
Lemma chunk_loop_ends fuel : forall frontier v i,
  plan_ok ch p -> span_ok v -> target - frontier <= Z.of_nat fuel -> is_Some (chunk_loop fuel frontier v i).
Proof.
  induction fuel as [|fuel IH]; intros frontier v i Hp Hs Hf; cbn [EventIndex.chunk_loop];
    destruct (Z.leb_spec target frontier) as [Hle|Hlt]; try by eexists.
  { lia. }
  destruct (stop_set (pages v) || _); [by eexists|].
  set (ce := Z.min target (frontier + span v)). set (tp := sorted_set _).
  set (v1 := mkVisit (expected v) (position v) (rewind_pending v) _ _ _ _ _).
  destruct (page_loop tp ce _ _ v1 i) as [[[o1 ef] v2] i2] eqn:Epl. destruct o1 as [o1|]; [by eexists|].
  destruct (Z.eqb_spec ef (ce + 1)) as [->|]; [|by eexists].
  destruct (page_loop_progress _ _ _ _ _ _ _ _ _ Hp (Hs : span_ok v1) Epl) as [Hs2 [[Hef _]|(_ & [_ Hpos] & _ & Hge)]].
  { destruct Hs. lia. }
  apply IH; [done|done|]. destruct Hs as [Hs _].
  assert (ce <= default target (z_min_list (map position_block (behind v2 target)))) as Hce.
  { destruct (z_min_list _) as [z|] eqn:Ez; cbn; [|lia].
    assert (z ∈ map position_block (behind v2 target)) as Hz by by apply z_min_list_elem.
    apply list_elem_of_fmap in Hz as (r & -> & [_ Hr]%list_elem_of_filter). rewrite Hpos in Hr. specialize (Hge r Hr). lia. }
  lia.
Qed.

(** The whole group at the target, complete. *)
Definition caught_up (i : index) : Prop :=
  forall (k : cursor_key) c, (k, c) ∈ cursor_rows (plan_chain p) (addresses p) i ->
    target <= last_indexed_block c /\ backfill_complete c = true.

Lemma chunk_loop_finished fuel : forall frontier v i v' i',
  plan_ok ch p -> span_ok v -> frontier < target ->
  chunk_loop fuel frontier v i = Some (Finished, v', i') -> rewind_pending v' = false /\ caught_up i'.
Proof.
  induction fuel as [|fuel IH]; intros frontier v i v' i' Hp Hs Hlt Hl; cbn [EventIndex.chunk_loop] in Hl;
    destruct (Z.leb_spec target frontier) as [Hle|_]; try done; try lia.
  destruct (stop_set (pages v) || _); [done|].
  set (ce := Z.min target (frontier + span v)) in *. set (tp := sorted_set _) in *.
  set (v1 := mkVisit (expected v) (position v) (rewind_pending v) _ _ _ _ _) in *.
  destruct (page_loop tp ce _ _ v1 i) as [[[o1 ef] v2] i2] eqn:Epl. destruct o1 as [o1|].
  { injection Hl as -> _ _. apply page_loop_never_finishes in Epl as []. }
  destruct (Z.eqb_spec ef (ce + 1)) as [->|]; [|done].
  destruct (page_loop_progress _ _ _ _ _ _ _ _ _ Hp (Hs : span_ok v1) Epl) as [Hs2 [[Hef _]|(_ & [Hq Hpos] & [Hexp Hcm] & Hge)]].
  { destruct Hs. lia. }
  destruct (decide (default target (z_min_list (map position_block (behind v2 target))) < target)) as [Hf|Hf].
  { by eapply IH in Hl. }
  assert (v' = v2 /\ i' = i2) as [-> ->].
  { destruct fuel; cbn [EventIndex.chunk_loop] in Hl; destruct (Z.leb_spec target (default target (z_min_list (map position_block (behind v2 target)))));
      try lia; by injection Hl as <- <-. }
  split; [done|]. intros k c Hin. assert (target <= last_indexed_block c) as Ht; [|by split; [|apply (Hcm k)]].
  pose proof (frontier_least v2 (member_position (k, c))) as Hfl. unfold position_block in Hfl at 2. cbn in Hfl.
  enough (default target (z_min_list (map position_block (behind v2 target))) <= last_indexed_block c) by lia.
  apply Hfl. rewrite Hpos, Hexp. apply list_elem_of_fmap. by exists (k, c).
Qed.
End Visit.

(** ** Plans *)

Lemma sorted_set_elem l x : x ∈ sorted_set l <-> x ∈ l.
Proof. unfold sorted_set. rewrite (merge_sort_Permutation _ _), elem_of_elements. apply elem_of_list_to_set. Qed.

(** A rewind comes from a member of its address whose stamp no longer holds. *)
Definition rewind_from (hash : Z -> option string) (target depth : Z) (ms : list Member) (a : string) (r : Rewind) : Prop :=
  exists m, m ∈ ms /\ m_address m = a /\ m_last m < target /\ rewind_to r = Z.max 0 (m_last m - depth) /\
    rewind_hash r = (if rewind_to r =? 0 then None else hash (rewind_to r)).

(** The members whose stamp the check can and does refute. *)
Definition refuted (hash : Z -> option string) (target : Z) (m : Member) : Prop :=
  exists stamp observed, m_block_hash m = Some stamp /\ 0 < m_last m < target /\ hash (m_last m) = Some observed /\ observed <> stamp.

Lemma plan_member_inv hash target depth rw m a r :
  plan_member hash target depth rw m !! a = Some r ->
  rw !! a = Some r \/ rewind_from hash target depth [m] a r.
Proof.
  unfold plan_member. destruct (rw !! m_address m); [by left|]. destruct (m_block_hash m) as [st|]; [|by left].
  destruct (Z.leb_spec (m_last m) 0); [by left|]. destruct (Z.leb_spec target (m_last m)); [by left|]. cbn [orb].
  destruct (hash (m_last m)) as [ob|]; [|by left]. destruct (String.eqb ob st); [by left|].
  rewrite lookup_insert_Some. intros [[<- <-]|[_ ?]]; [|by left]. right. exists m. split; [by left|]. split_and!; try done; lia.
Qed.

Lemma plan_member_keeps hash target depth rw m a : is_Some (rw !! a) -> is_Some (plan_member hash target depth rw m !! a).
Proof.
  intros Ha. unfold plan_member. destruct (rw !! m_address m) eqn:E; [done|]. destruct (m_block_hash m); [|done].
  destruct (_ || _); [done|]. destruct (hash (m_last m)); [|done]. destruct (String.eqb _ _); [done|].
  rewrite lookup_insert_ne; [done|]. intros <-. by destruct Ha; congruence.
Qed.

Lemma plan_member_catches hash target depth rw m :
  refuted hash target m -> is_Some (plan_member hash target depth rw m !! m_address m).
Proof.
  intros (st & ob & Hst & Hl & Hob & Hne). unfold plan_member. destruct (rw !! m_address m) eqn:E; [by rewrite E|].
  rewrite Hst, Hob. destruct (Z.leb_spec (m_last m) 0); [lia|]. destruct (Z.leb_spec target (m_last m)); [lia|].
  cbn [orb]. rewrite (proj2 (String.eqb_neq ob st) Hne). rewrite lookup_insert_eq. eauto.
Qed.

Lemma plan_rewinds_inv hash target depth ms : forall rw a r,
  foldl (plan_member hash target depth) rw ms !! a = Some r -> rw !! a = Some r \/ rewind_from hash target depth ms a r.
Proof.
  induction ms as [|m ms IH]; intros rw a r; cbn; [by left|]. intros [Hr|(m' & Hin & Hm')]%IH.
  - apply plan_member_inv in Hr as [?|(m' & Hin & Hm')]; [by left|]. right. exists m'. apply list_elem_of_singleton in Hin as ->.
    split; [by left|done].
  - right. exists m'. split; [by right|done].
Qed.

Lemma plan_rewinds_catch hash target depth ms : forall rw m,
  m ∈ ms -> refuted hash target m -> is_Some (foldl (plan_member hash target depth) rw ms !! m_address m).
Proof.
  assert (forall ms rw a, is_Some (rw !! a) -> is_Some (foldl (plan_member hash target depth) rw ms !! a)) as Hkeep.
  { clear. induction ms as [|m ms IH]; intros rw a Ha; [done|]. cbn. by apply IH, plan_member_keeps. }
  induction ms as [|m0 ms IH]; intros rw m Hin Hr; [by apply not_elem_of_nil in Hin|]. cbn.
  apply elem_of_cons in Hin as [->|Hin]; [|by apply IH]. by apply Hkeep, plan_member_catches.
Qed.

Lemma plan_members n wanted target hash depth i m :
  m ∈ members (plan_group n wanted target hash depth i) <->
  exists (k : cursor_key) c, cursors i !! k = Some c /\ in_group (plan_group n wanted target hash depth i) k /\ m = member_of (k, c).
Proof.
  cbn. rewrite list_elem_of_fmap. split.
  - intros ([k c] & -> & (Hc & Hk & Ha)%cursor_rows_elem). by exists k, c.
  - intros (k & c & Hc & [Hk Ha] & ->). exists (k, c). split; [done|]. by apply cursor_rows_elem.
Qed.

Lemma plan_group_ok ch n wanted target depth i : plan_ok ch (plan_group n wanted target (chain_hash ch) depth i).
Proof.
  split.
  - intros a r Hr. cbn in Hr. apply plan_rewinds_inv in Hr as [Hr|(m & Hm & <- & _)]; [by rewrite lookup_empty in Hr|].
    apply (plan_members n wanted target (chain_hash ch) depth) in Hm as (k & c & _ & [_ Ha] & ->). done.
  - intros a r h Hr Hh. cbn in Hr. apply plan_rewinds_inv in Hr as [Hr|(m & _ & _ & _ & _ & Hrh)]; [by rewrite lookup_empty in Hr|].
    rewrite Hrh in Hh. destruct (_ =? 0); [done|]. done.
Qed.

Lemma agree_le ch ch' b b' : agree ch ch' b -> b' <= b -> agree ch ch' b'.
Proof. intros [H1 H2] Hle. split; intros; [apply H1|apply H2]; lia. Qed.

(** A block hash determines the chain through its block. *)
Definition hashes_pin (ch ch' : chain) : Prop :=
  forall b h, chain_hash ch b = Some h -> chain_hash ch' b = Some h -> agree ch ch' b.

(** A stamp the plan compares with the node: of a cursor below the target, at a
    block the node can read. *)
Definition checkable (ch' : chain) (target : Z) (c : IndexedEventCursor) : Prop :=
  is_Some (last_indexed_block_hash c) /\ 0 < last_indexed_block c < target /\ is_Some (chain_hash ch' (last_indexed_block c)).

(** The chain moved from [ch] to [ch'] no deeper than [depth] below any cursor of
    the group, and every cursor either did not reach the fork or has a checkable
    cursor of its own emitter at or above it: itself, or another topic's.  A
    cursor still backfilling carries no stamp and is covered by the second. *)
Definition shallow_reorg (ch ch' : chain) (p : GroupPlan) (target depth : Z) (i : index) : Prop :=
  forall (k : cursor_key) c, in_group p k -> cursors i !! k = Some c ->
    agree ch ch' (Z.max 0 (last_indexed_block c - depth)) /\
    (agree ch ch' (last_indexed_block c) \/
     exists (k' : cursor_key) c', in_group p k' /\ cursors i !! k' = Some c' /\ str_lower k'.1.2 = str_lower k.1.2 /\
       last_indexed_block c <= last_indexed_block c' /\ checkable ch' target c').

Lemma reorg_based ch ch' n wanted target depth i :
  let p := plan_group n wanted target (chain_hash ch') depth i in
  hashes_pin ch ch' -> faithful (in_group p) ch i -> shallow_reorg ch ch' p target depth i ->
  faithful (in_group p) ch' (apply_rewinds p i).
Proof.
  intros p Hpin Hf Hre. apply (rewinds_faithful (in_group p) ch); [by split; [|intros k [? _]]|apply plan_group_ok|done|].
  intros k c Hk Hc. destruct (Hre k c Hk Hc) as [Hdeep Hcase].
  destruct (rewinds p !! str_lower k.1.2) as [r|] eqn:Er.
  - rewrite (rewound_below p k c r) by (done || apply Hk). cbn in Er.
    apply plan_rewinds_inv in Er as [Er|(m & Hm & Ha & _ & Hto & _)]; [by rewrite lookup_empty in Er|].
    apply (plan_members n wanted target (chain_hash ch') depth) in Hm as (k' & c' & Hc' & Hk' & ->).
    destruct (Hre k' c' Hk' Hc') as [Hdeep' _]. eapply agree_le; [exact Hdeep'|]. rewrite Hto. cbn. lia.
  - destruct (rewind_fields p k c) as [_ [->|(r & Hr & _)]]; [|congruence].
    destruct Hcase as [|(k' & c' & Hk' & Hc' & Hsame & Hle & [st Hst] & Hl & [ob Hob])]; [done|].
    destruct (decide (ob = st)) as [->|Hne].
    { eapply agree_le; [|exact Hle]. eapply Hpin; [by apply (faithful_stamps _ _ _ Hf k' c' Hk' Hc')|done]. }
    exfalso. assert (member_of (k', c') ∈ members p) as Hm by (apply plan_members; by exists k', c').
    destruct (plan_rewinds_catch (chain_hash ch') target depth (members p) ∅ (member_of (k', c')) Hm) as [r Hr].
    { by exists st, ob. }
    cbn in Hr, Er. congruence.
Qed.

(** On an index whose stamps are the chain's a plan finds nothing to rewind. *)
Lemma plan_true_stamps ch n wanted target depth i :
  faithful (on_chain n) ch i -> rewinds (plan_group n wanted target (chain_hash ch) depth i) = ∅.
Proof.
  intros Hf. set (p := plan_group n wanted target (chain_hash ch) depth i).
  assert (forall ms rw, (forall m, m ∈ ms -> m ∈ members p) -> foldl (plan_member (chain_hash ch) target depth) rw ms = rw) as Hfold;
    [|by apply Hfold].
  induction ms as [|m ms IH]; intros rw Hms; [done|]. cbn.
  replace (plan_member (chain_hash ch) target depth rw m) with rw; [apply IH; intros m' Hm'; apply Hms; by right|].
  assert (m ∈ members p) as (k & c & Hc & [Hk _] & ->)%plan_members by (apply Hms; by left).
  unfold plan_member. destruct (rw !! _); [done|]. cbn [m_block_hash m_last member_of snd].
  destruct (last_indexed_block_hash c) as [h|] eqn:Eh; [|done].
  rewrite (faithful_stamps _ _ _ Hf k c Hk Hc h Eh), String.eqb_refl. by destruct (_ || _).
Qed.

(** ** Runs *)

(** Rewriting the columns the invariant does not read keeps it. *)
Lemma faithful_touch scope ch i i' :
  logs i' = logs i ->
  (forall k : cursor_key, option_Forall2 (fun c c' => last_indexed_block c' = last_indexed_block c /\
     last_indexed_block_hash c' = last_indexed_block_hash c /\ enrolled_seed_block c' = enrolled_seed_block c) (cursors i !! k) (cursors i' !! k)) ->
  faithful scope ch i -> faithful scope ch i'.
Proof.
  intros Hl Hc Hf.
  assert (forall (k : cursor_key) c', cursors i' !! k = Some c' -> exists c, cursors i !! k = Some c /\
    last_indexed_block c' = last_indexed_block c /\ last_indexed_block_hash c' = last_indexed_block_hash c /\ enrolled_seed_block c' = enrolled_seed_block c) as Hback.
  { intros k c' H'. specialize (Hc k). rewrite H' in Hc. inversion Hc as [c ? Hq|]; subst. eauto. }
  split.
  - intros k c' Hk (c & Hcc & _)%Hback. by apply (faithful_keys _ _ _ Hf k c).
  - intros k c' Hk (c & Hcc & H1 & _ & H3)%Hback l seed Hs Hin Hem Hb. unfold stored. rewrite Hl.
    apply (faithful_covers _ _ _ Hf k c Hk Hcc l seed); [congruence|done|done|lia].
  - intros k h m r Hk Hr. rewrite Hl in Hr. destruct (faithful_rows _ _ _ Hf k h m r Hk Hr) as (c & Hcc & l & ? & ? & ? & ? & ? & ?).
    specialize (Hc k). rewrite Hcc in Hc. inversion Hc as [? c' (Hlast & _)|]; subst. exists c'. split; [done|]. exists l. split_and!; try done. lia.
  - intros k c' Hk (c & Hcc & H1 & H2 & _)%Hback h Hh. rewrite H1. apply (faithful_stamps _ _ _ Hf k c Hk Hcc). congruence.
Qed.

Lemma complete_group_lookup now rows : forall i (k : cursor_key),
  NoDup rows.*1 ->
  logs (complete_group now rows i) = logs i /\
  (forall c, (k, c) ∈ rows -> cursors (complete_group now rows i) !! k =
     Some (set_run now (set_position (last_indexed_block c) (last_indexed_block_hash c) true c))) /\
  (k ∉ rows.*1 -> cursors (complete_group now rows i) !! k = cursors i !! k).
Proof.
  induction rows as [|[k0 c0] rows IH]; intros i k Hnd.
  { split_and!; [done|intros c []%not_elem_of_nil|done]. }
  cbn in Hnd. apply NoDup_cons in Hnd as [Hk0 Hnd]. unfold complete_group. cbn [foldl]. fold (complete_group now rows).
  set (i1 := mkIndex _ _). destruct (IH i1 k Hnd) as (H1 & H2 & H3).
  change (foldl _ i1 rows) with (complete_group now rows i1). rewrite H1. split_and!; [done| |].
  - intros c [[= -> ->]|Hin]%elem_of_cons; [|by apply H2]. rewrite H3 by done. cbn. by rewrite lookup_insert_eq.
  - intros [Hne Hk]%not_elem_of_cons. rewrite H3 by done. cbn. by rewrite lookup_insert_ne.
Qed.

Lemma complete_group_faithful scope ch now n addrs i :
  faithful scope ch i -> faithful scope ch (complete_group now (cursor_rows n addrs i) i).
Proof.
  intros Hf. pose proof (fun k => complete_group_lookup now (cursor_rows n addrs i) i k (cursor_rows_nodup n addrs i)) as Hl.
  eapply faithful_touch; [apply (Hl (0, "", ""))| |exact Hf]. intros k. destruct (Hl k) as (_ & Hin & Hout).
  destruct (decide (k ∈ (cursor_rows n addrs i).*1)) as [Hk|Hk].
  - apply list_elem_of_fmap in Hk as ([k0 c] & -> & Hkc). cbn in *. rewrite (Hin c Hkc).
    apply cursor_rows_elem in Hkc as (-> & _). by constructor.
  - rewrite Hout by done. destruct (cursors i !! k); by constructor.
Qed.

Lemma initial_span_pos densities limits never : 1 <= initial_span densities limits never.
Proof. unfold initial_span. destruct (omap _ _); [destruct never|]; lia. Qed.

Section Run.
Variable iter_pages : list string -> Z -> Z -> list LogPage.
Variable stop_set deadline_passed : Z -> bool.
Variable limits : PageLimits.
Variable n : Z.
Variable wanted : list string.
Variable target depth write_max_rows write_max_bytes now : Z.
Variable ch : chain.
Variable planned_on : index.

(** The plan of a visit, made on an earlier state of the index. *)
Definition visit_plan : GroupPlan := plan_group n wanted target (chain_hash ch) depth planned_on.

Definition visit_run (memo0 : gmap Z (option string)) (disturbances : list (index -> index)) (i : index) :=
  run_plan iter_pages (chain_hash ch) stop_set deadline_passed visit_plan limits target write_max_rows write_max_bytes now
    (Z.to_nat target) memo0 disturbances i.

Notation p := visit_plan.

(** Columns only the indexer writes: heights are not negative, limits not zero. *)
Definition sane (i : index) : Prop :=
  forall (k : cursor_key) c, cursors i !! k = Some c -> 0 <= last_indexed_block c /\ forall z, request_span_limit c = Some z -> 0 <= z.

Hypothesis pages_truthful : forall topics_ lo hi, Forall (truthful ch p topics_) (iter_pages topics_ lo hi).
Hypothesis plan_sane : sane planned_on.

Lemma plan_positions m : m ∈ members p -> 0 <= position_block (planned_position p m).
Proof.
  intros (k & c & Hc & _ & ->)%plan_members. destruct (plan_sane k c Hc) as [Hl _]. unfold planned_position, position_block. cbn [fst snd].
  destruct (rewinds p !! _) as [r|] eqn:Er; cbn; [|done]. cbn in Er.
  apply plan_rewinds_inv in Er as [Er|(m & _ & _ & _ & Hto & _)]; [by rewrite lookup_empty in Er|]. lia.
Qed.

(** With every position at the target there is nothing to rewind. *)
Lemma no_rewind_at_target :
  forallb (fun r => target <=? position_block r) (map (planned_position p) (members p)) = true -> rewinds p = ∅.
Proof.
  intros Hall. apply map_eq. intros a. rewrite lookup_empty. destruct (rewinds p !! a) as [r|] eqn:Er; [|done]. exfalso.
  pose proof Er as Er0. cbn in Er. apply plan_rewinds_inv in Er as [Er|(m & Hm & Ha & Hlt & _)]; [by rewrite lookup_empty in Er|].
  rewrite forallb_forall in Hall. specialize (Hall (planned_position p m)).
  assert (In (planned_position p m) (map (planned_position p) (members p))) as Hin by (apply in_map, list_elem_of_In; exact Hm).
  apply Hall, Z.leb_le in Hin. unfold planned_position, position_block in Hin. cbn [fst snd] in Hin. rewrite Ha, Er0 in Hin. lia.
Qed.

Lemma at_target m :
  forallb (fun r => target <=? position_block r) (map (planned_position p) (members p)) = true -> m ∈ members p -> target <= m_last m.
Proof.
  intros Hall Hm. pose proof (no_rewind_at_target Hall) as Hrw. rewrite forallb_forall in Hall. specialize (Hall (planned_position p m)).
  assert (In (planned_position p m) (map (planned_position p) (members p))) as Hpin by (apply in_map, list_elem_of_In; exact Hm).
  apply Hall, Z.leb_le in Hpin. unfold planned_position, position_block in Hpin. cbn [fst snd] in Hpin.
  by rewrite Hrw, lookup_empty in Hpin.
Qed.

Definition start (memo0 : gmap Z (option string)) (disturbances : list (index -> index)) (sp : Z) (limit : option Z) : visit :=
  mkVisit (map (fun m => (m_address m, m_topic0 m, m_last m, m_block_hash m)) (members p)) (map (planned_position p) (members p))
    (bool_decide (rewinds p <> ∅)) sp limit 0 memo0 disturbances.

Lemma start_tracks memo0 ds sp limit : tracks p (start memo0 ds sp limit).
Proof.
  unfold tracks, start. cbn [expected position rewind_pending]. apply Forall2_fmap, Forall_Forall2_diag, Forall_forall. intros m _. unfold adjusted, planned_position, position_block.
  cbn [fst snd]. destruct (bool_decide (rewinds p <> ∅)) eqn:Hrw; [done|].
  apply bool_decide_eq_false, dec_stable in Hrw. by rewrite Hrw, lookup_empty.
Qed.

(** An invariant the completion of a group at the target keeps. *)
Definition completion_keeps (inv : bool -> index -> Prop) : Prop :=
  forall exp rows i, (forall r, r ∈ exp -> target <= position_block r) -> lock_members p exp i = inr rows ->
    inv false i -> inv false (complete_group now rows i).

(** A visit ends, keeps such an invariant, and when it finishes has caught the
    group up. *)
Lemma visit_run_ok inv memo0 ds i :
  writes_keep inv ch p -> completion_keeps inv ->
  memo_true ch memo0 -> (forall f, f ∈ ds -> forall pending i, inv pending i -> inv pending (f i)) ->
  inv (bool_decide (rewinds p <> ∅)) i ->
  exists o v i', visit_run memo0 ds i = Some (o, v, i') /\ inv (rewind_pending v) i' /\
    (o = Finished -> rewind_pending v = false /\ (members p <> [] -> caught_up p target i')).
Proof.
  intros Hwk Hck Hm Hds Hi. unfold visit_run, run_plan.
  assert (inv (bool_decide (rewinds p <> ∅)) (disturb (start memo0 ds 0 None) i)) as Hdi
    by (unfold disturb; cbn; destruct ds as [|f ds']; [done|apply Hds; [by left|done]]).
  fold (start memo0 ds 0 None). destruct (members p) as [|m0 ms] eqn:Ems.
  { eexists _, _, _. split; [reflexivity|]. split; [exact Hi|]. intros _. split; [|done]. cbn.
    apply bool_decide_eq_false. intros Hne. apply Hne. apply no_rewind_at_target. by rewrite Ems. }
  rewrite <- Ems.
  destruct (forallb _ _) eqn:Hall.
  { destruct (lock_members _ _ _) as [er|rows] eqn:Elock; [eexists _, _, _; split; [reflexivity|]; split; [exact Hdi|done]|].
    pose proof Elock as Elock0. unfold lock_members in Elock. destruct (decide _) as [Hexp|]; [|done]. injection Elock as Hrows.
    change (cursor_rows (plan_chain p) (addresses p) (disturb (start memo0 ds 0 None) i) = rows) in Hrows. subst rows.
    eexists _, _, _. split; [reflexivity|]. pose proof (no_rewind_at_target Hall) as Hrw.
    assert (bool_decide (rewinds p <> ∅) = false) as Hb by (apply bool_decide_eq_false; by intros Hne).
    cbn [rewind_pending start]. rewrite Hb in Hdi |- *. split.
    { eapply Hck; [|exact Elock0|exact Hdi]. intros r (m & -> & Hm1)%list_elem_of_fmap. by apply at_target. } intros _. split; [done|]. intros _ k c Hkc.
    set (i0 := disturb (start memo0 ds 0 None) i) in *.
    apply cursor_rows_elem in Hkc as (Hc & Hk & Ha).
    destruct (complete_group_lookup now (cursor_rows (plan_chain p) (addresses p) i0) i0 k (cursor_rows_nodup _ _ _)) as (_ & Hin & Hout).
    destruct (decide (k ∈ (cursor_rows (plan_chain p) (addresses p) i0).*1)) as [Hkin|Hkout].
    + apply list_elem_of_fmap in Hkin as ([k1 c1] & -> & Hkc). cbn [fst] in *. rewrite (Hin c1 Hkc) in Hc. injection Hc as <-.
      cbn. split; [|done]. assert (member_position (k1, c1) ∈ member_positions (cursor_rows (plan_chain p) (addresses p) i0)) as Hmp
        by (apply list_elem_of_fmap; by exists (k1, c1)).
      rewrite Hexp in Hmp. cbn in Hmp. apply list_elem_of_fmap in Hmp as (m & Heq & Hm1). injection Heq as _ _ Hlast _. rewrite Hlast.
      by apply at_target.
    + exfalso. rewrite (Hout Hkout) in Hc. apply Hkout, list_elem_of_fmap. exists (k, c). split; [done|]. by apply cursor_rows_elem. }
  set (memo1 := foldl _ memo0 (members p)).
  set (lim := z_min_list (omap m_span_limit (filter (fun mem => position_block (planned_position p mem) < target) (members p)))).
  match goal with |- context [mkVisit _ _ _ (min_opt lim ?x) lim] => set (sp := min_opt lim x) end.
  fold (start memo1 ds sp lim). set (v0 := start memo1 ds sp lim).
  assert (memo_true ch memo1) as Hm1.
  { unfold memo1. generalize (members p) as l. intros l. clear -Hm. revert memo0 Hm.
    induction l as [|m l IH]; intros memo0 Hm; [done|]. cbn. apply IH. destruct (_ && _); [by apply hash_at_true|done]. }
  assert (span_ok v0) as Hs.
  { assert (forall z, lim = Some z -> 1 <= z) as Hlim.
    { intros z Hz%z_min_list_elem. apply list_elem_of_omap in Hz as (m & [_ Hm0]%list_elem_of_filter & Hz).
      apply plan_members in Hm0 as (k & c & Hc & _ & ->). destruct (plan_sane k c Hc) as [_ Hl]. cbn in Hz.
      destruct (request_span_limit c) as [x|]; [|done]. destruct (Z.eqb_spec x 0); [done|]. injection Hz as <-. specialize (Hl x eq_refl). lia. }
    split; [|exact Hlim]. apply min_opt_pos; [exact Hlim|apply initial_span_pos]. }
  pose proof (start_tracks memo1 ds sp lim) as Htr. fold v0 in Htr.
  set (fr := default target (z_min_list (map position_block (behind v0 target)))).
  assert (visit_ok inv ch p (fr + 1) v0) as Hv.
  { split; [|done|done]. intros r Hr. pose proof (frontier_covers p target v0 Htr r Hr). unfold fr. lia. }
  assert (plan_ok ch p) as Hpok by apply plan_group_ok.
  assert (0 <= fr /\ fr < target) as [Hfr0 Hfr].
  { assert (exists r, r ∈ behind v0 target) as [r0 Hr0].
    { apply not_true_iff_false in Hall. destruct (behind v0 target) as [|r l] eqn:E; [|exists r; by left]. exfalso. apply Hall.
      apply forallb_forall. intros r Hr%list_elem_of_In. apply Z.leb_le. destruct (decide (position_block r < target)); [|lia]. exfalso.
      assert (r ∈ behind v0 target) as Hin by by apply list_elem_of_filter. rewrite E in Hin. by apply not_elem_of_nil in Hin. }
    unfold fr. destruct (z_min_list (map position_block (behind v0 target))) as [z|] eqn:Ez.
    - apply z_min_list_elem, list_elem_of_fmap in Ez as (r & -> & [Hlt Hr]%list_elem_of_filter). cbn. split; [|done].
      cbn in Hr. apply list_elem_of_fmap in Hr as (m & -> & Hm0). by apply plan_positions.
    - exfalso. destruct (behind v0 target); [by apply not_elem_of_nil in Hr0|done]. }
  pose proof (chunk_loop_ends iter_pages (chain_hash ch) stop_set deadline_passed p limits target write_max_rows write_max_bytes now ch
                (Z.to_nat target) fr v0 i Hpok Hs ltac:(lia)) as [[[o v] i'] Hrun].
  exists o, v, i'. split; [exact Hrun|]. split.
  - eapply (chunk_loop_keeps iter_pages (chain_hash ch) stop_set deadline_passed p limits target write_max_rows write_max_bytes now ch
              inv Hwk); [by split|done|exact Htr|exact Hs|exact Hv|exact Hi|exact Hrun].
  - intros ->. eapply (chunk_loop_finished iter_pages (chain_hash ch) stop_set deadline_passed p limits target write_max_rows write_max_bytes now ch) in Hrun as [Hp' Hcu]; [|done|exact Hs|exact Hfr].
    split; [done|]. by intros _.
Qed.

(** The visit keeps the group faithful to the chain, pending rewinds applied. *)
Lemma visit_run_based memo0 ds i :
  well_formed ch -> memo_true ch memo0 ->
  (forall f, f ∈ ds -> forall pending i, based (in_group p) ch p pending i -> based (in_group p) ch p pending (f i)) ->
  based (in_group p) ch p (bool_decide (rewinds p <> ∅)) i ->
  exists o v i', visit_run memo0 ds i = Some (o, v, i') /\ based (in_group p) ch p (rewind_pending v) i' /\
    (o = Finished -> rewind_pending v = false /\ (members p <> [] -> caught_up p target i')).
Proof.
  intros Hwf. apply visit_run_ok.
  - apply based_writes; [split; [done|by intros k [? _]]|done|apply plan_group_ok].
  - intros exp rows j _ Hlock. unfold lock_members in Hlock. destruct (decide _); [|done]. injection Hlock as <-. apply complete_group_faithful.
Qed.
End Run.

(** ** Enrolment *)

Lemma empty_faithful scope ch : faithful scope ch (mkIndex ∅ ∅).
Proof. split; cbn; intros *; rewrite lookup_empty; done. Qed.

(** A fresh cursor covers nothing and nothing is stored for it. *)
Lemma enroll_faithful scope ch n a t start fb fbb basis now i :
  faithful scope ch i -> faithful scope ch (enroll_event_cursor n a t start fb fbb basis now i).2.
Proof.
  intros Hf. unfold enroll_event_cursor. destruct (cursors i !! _) as [c|] eqn:E; [done|]. cbn [snd].
  set (k0 := (n, str_lower a, str_lower t) : cursor_key) in *.
  set (c0 := mkCursor _ _ _ _ _ _ _ _ _ _ _ _ _ _).
  split; cbn [cursors logs].
  - intros k c Hk [[<- <-]|[_ Hc]]%lookup_insert_Some; [unfold k0; cbn [fst snd]; by rewrite !str_lower_idemp|by apply (faithful_keys _ _ _ Hf k c)].
  - intros k c Hk [[<- <-]|[_ Hc]]%lookup_insert_Some l seed Hs Hl He Hb; [cbn in *; simplify_eq; lia|].
    by apply (faithful_covers _ _ _ Hf k c Hk Hc l seed).
  - intros k h m r Hk Hr. destruct (faithful_rows _ _ _ Hf k h m r Hk Hr) as (c & Hc & Hb).
    exists c. split; [|done]. rewrite lookup_insert_ne; [done|]. intros <-. by rewrite E in Hc.
  - intros k c Hk [[<- <-]|[_ Hc]]%lookup_insert_Some; [done|by apply (faithful_stamps _ _ _ Hf k c)].
Qed.

Lemma enroll_sane n a t start fb fbb basis now i :
  0 <= start -> sane i -> sane (enroll_event_cursor n a t start fb fbb basis now i).2.
Proof.
  intros Hs Hi. unfold enroll_event_cursor. destruct (cursors i !! _) as [c|] eqn:E; [done|]. cbn [snd].
  intros k c. cbn [cursors]. intros [[_ <-]|[_ Hc]]%lookup_insert_Some; [done|by apply (Hi k c)].
Qed.

(** ** What the indexer promises *)

(** A visit always ends.  Whatever other sessions commit between its writes
    (each keeping the group's index faithful), it leaves every cursor of the
    group with exactly the chain's logs of its emitter and topic in its range
    and a true stamp; and when it reports that it finished, the rewinds are
    applied and every cursor of the group is complete at the target. *)
Theorem visit_keeps_index_faithful iter_pages stop_set deadline_passed limits n wanted target depth max_rows max_bytes now
    (ch : chain) (planned_on : index) memo0 disturbances (i : index) :
  let p := plan_group n wanted target (chain_hash ch) depth planned_on in
  well_formed ch -> (forall topics_ lo hi, Forall (truthful ch p topics_) (iter_pages topics_ lo hi)) ->
  sane planned_on -> memo_true ch memo0 ->
  (forall f, f ∈ disturbances -> forall pending i, based (in_group p) ch p pending i -> based (in_group p) ch p pending (f i)) ->
  based (in_group p) ch p (bool_decide (rewinds p <> ∅)) i ->
  exists o v i', run_plan iter_pages (chain_hash ch) stop_set deadline_passed p limits target max_rows max_bytes now
                   (Z.to_nat target) memo0 disturbances i = Some (o, v, i') /\
    based (in_group p) ch p (rewind_pending v) i' /\
    (o = Finished -> faithful (in_group p) ch i' /\ (members p <> [] -> caught_up p target i')).
Proof.
  intros p Hwf Hpages Hsane Hmemo Hds Hi.
  destruct (visit_run_based iter_pages stop_set deadline_passed limits n wanted target depth max_rows max_bytes now ch planned_on
              Hpages Hsane memo0 disturbances i Hwf Hmemo Hds Hi) as (o & v & i' & Hrun & Hb & Hfin).
  exists o, v, i'. split; [exact Hrun|]. split; [exact Hb|]. intros Ho. destruct (Hfin Ho) as [Hp Hc].
  unfold based in Hb. rewrite Hp in Hb. by split.
Qed.

(** C34: A reorganisation the stamps can see is undone.  The chain moves from [ch]
    to [ch'], whose common block hashes pin common prefixes; the group's index
    was faithful to [ch]; the fork lies no deeper than the confirmation depth
    below any of its cursors; and every cursor past the fork has, of the same
    emitter and at or above it, a cursor (itself or another topic's) that is
    stamped, below the target, at a block the node can read.  Then the rewinds
    the plan derives leave an index faithful to [ch'].  A cursor that is still
    backfilling has no stamp of its own, so the condition is real: with no
    stamped sibling the plan has nothing to compare. *)
Theorem rewind_undoes_reorg (ch ch' : chain) n wanted target depth i :
  let p := plan_group n wanted target (chain_hash ch') depth i in
  hashes_pin ch ch' -> faithful (in_group p) ch i -> shallow_reorg ch ch' p target depth i ->
  faithful (in_group p) ch' (apply_rewinds p i).
Proof. apply reorg_based. Qed.

(** A page is committed in prefixes that never split a block: they partition
    the page's logs in order, each prefix's logs lie at or below the block its
    cursors are moved to, everything after it lies above, and the last one ends
    at the page's end. *)
Theorem prefixes_respect_blocks page_logs window_end max_rows max_bytes lo :
  lo <= window_end -> (forall l, l ∈ page_logs -> lo <= block_number l <= window_end) ->
  let ls := merge_sort block_le page_logs in
  cut ls window_end lo 0 (write_prefixes ls window_end max_rows max_bytes) /\
  List.concat (map (fun '(o, e, _) => slice o e ls) (write_prefixes ls window_end max_rows max_bytes)) = ls.
Proof.
  intros Hlo Hall ls. assert (cut ls window_end lo 0 (write_prefixes ls window_end max_rows max_bytes)) as Hcut
    by by apply write_prefixes_cut.
  split; [done|]. rewrite (cut_concat _ _ _ _ _ Hcut). apply drop_0.
Qed.

(** *** A small chain *)

Definition demo_log : FetchedEventLog := mkLog "0x1" 0 3 "0xb3" 0 ["0xt"] [] "0xa" None.
Definition demo_chain : chain := mkChain [demo_log] (fun _ => Some "0xh").
Definition demo_pages (_ : list string) (lo hi : Z) : list LogPage :=
  [mkPage lo hi (filter (fun l => lo <= block_number l <= hi) [demo_log]) [] 0 None].
Definition demo_index : index := (enroll_event_cursor 1 "0xA" "0xT" 0 None None None 7 (mkIndex ∅ ∅)).2.

Lemma demo_wf : well_formed demo_chain.
Proof. intros l l' Hl Hl' _ _. apply list_elem_of_singleton in Hl as ->. by apply list_elem_of_singleton in Hl' as ->. Qed.

Lemma demo_truthful topics_ lo hi p : addresses p = ["0xa"] -> Forall (truthful demo_chain p topics_) (demo_pages topics_ lo hi).
Proof.
  intros Ha. apply Forall_singleton. assert (forall l, l = demo_log -> copy_of (single_address p) l demo_log) as Hcopy
    by (intros l ->; unfold copy_of, emitter, single_address; by rewrite Ha).
  split; cbn [demo_pages from_block to_block page_logs chain_logs demo_chain].
  - intros lc t Hlc%list_elem_of_singleton _ _ _ Hb. subst. exists demo_log. split; [|by apply Hcopy].
    apply list_elem_of_filter. split; [done|by left].
  - intros l [Hb Hl%list_elem_of_singleton]%list_elem_of_filter. split; [done|]. exists demo_log. split; [by left|by apply Hcopy].
Qed.

Lemma demo_sane : sane demo_index.
Proof. apply enroll_sane; [lia|]. intros k c Hc. cbn in Hc. by rewrite lookup_empty in Hc. Qed.

Definition demo_limits : PageLimits := mkLimits 2 2 10 None.

Lemma visit_keeps_index_faithful_witness :
  let p := plan_group 1 ["0xA"] 5 (chain_hash demo_chain) 2 demo_index in
  exists o v i', run_plan demo_pages (chain_hash demo_chain) (fun _ => false) (fun _ => false) p demo_limits 5 10 1000 9
                   (Z.to_nat 5) ∅ [] demo_index = Some (o, v, i') /\
    based (in_group p) demo_chain p (rewind_pending v) i' /\
    (o = Finished -> faithful (in_group p) demo_chain i' /\ (members p <> [] -> caught_up p 5 i')).
Proof.
  apply (visit_keeps_index_faithful demo_pages (fun _ => false) (fun _ => false) demo_limits 1 ["0xA"] 5 2 10 1000 9 demo_chain demo_index ∅ [] demo_index).
  - exact demo_wf.
  - intros topics_ lo hi. by apply demo_truthful.
  - exact demo_sane.
  - intros b h Hh. by rewrite lookup_empty in Hh.
  - intros f []%not_elem_of_nil.
  - assert (bool_decide (rewinds (plan_group 1 ["0xA"] 5 (chain_hash demo_chain) 2 demo_index) <> ∅) = false) as -> by by vm_compute.
    apply enroll_faithful, empty_faithful.
Defined.

(** The visit of the witness finishes and stores the log. *)
Example demo_visit :
  match run_plan demo_pages (chain_hash demo_chain) (fun _ => false) (fun _ => false)
          (plan_group 1 ["0xA"] 5 (chain_hash demo_chain) 2 demo_index) demo_limits 5 10 1000 9 5 ∅ [] demo_index with
  | Some (o, _, i) => o = Finished /\ logs i !! key_of (1, "0xa", "0xt") demo_log = Some (row_of demo_log) /\
                      last_indexed_block <$> cursors i !! ((1, "0xa", "0xt") : cursor_key) = Some 5
  | None => False
  end.
Proof. by vm_compute. Qed.

(** The log of block 3 is reorganised into block 4. *)
Definition moved_log : FetchedEventLog := mkLog "0x1" 0 4 "0xc4" 0 ["0xt"] [] "0xa" None.
Definition demo_fork : chain := mkChain [moved_log] (fun b => if b <? 3 then Some "0xh" else Some "0xg").
(** Two cursors of the emitter at the same height: one stamped, one still
    backfilling. *)
Definition stamped_cursor : IndexedEventCursor := mkCursor 3 (Some "0xh") 7 false None None None None None None None None (Some 0) None.
Definition backfill_cursor : IndexedEventCursor := mkCursor 3 None 7 false None None None None None None None None (Some 0) None.
Definition demo_indexed : index :=
  mkIndex {[ key_of (1, "0xa", "0xt") demo_log := row_of demo_log ]}
    (<[ ((1, "0xa", "0xt") : cursor_key) := stamped_cursor ]> {[ ((1, "0xa", "0xu") : cursor_key) := backfill_cursor ]}).

Lemma demo_cursors (k : cursor_key) c :
  cursors demo_indexed !! k = Some c -> k = (1, "0xa", "0xt") /\ c = stamped_cursor \/ k = (1, "0xa", "0xu") /\ c = backfill_cursor.
Proof. cbn. intros [[<- <-]|[_ [<- <-]%lookup_singleton_Some]]%lookup_insert_Some; auto. Qed.

Lemma demo_indexed_faithful scope : faithful scope demo_chain demo_indexed.
Proof.
  split.
  - by intros k c _ [[-> _]|[-> _]]%demo_cursors.
  - intros k c _ [[-> ->]|[-> ->]]%demo_cursors l seed _ ->%list_elem_of_singleton [_ Ht] _; [by vm_compute|by vm_compute in Ht].
  - cbn. intros k h m r _ [[= <- <- <-] <-]%lookup_singleton_Some. eexists. split; [apply lookup_insert_eq|].
    exists demo_log. split_and!; try done. by left.
  - intros k c _ [[_ ->]|[_ ->]]%demo_cursors h; [by intros [= <-]|done].
Qed.

Lemma demo_fork_agree b : b < 3 -> agree demo_chain demo_fork b.
Proof.
  intros Hb. split; cbn; [|intros b' Hb'; destruct (Z.ltb_spec b' 3); [done|lia]].
  intros l Hl. split; intros ->%list_elem_of_singleton; cbn in Hl; lia.
Qed.

Lemma rewind_undoes_reorg_witness :
  let p := plan_group 1 ["0xA"] 5 (chain_hash demo_fork) 2 demo_indexed in
  faithful (in_group p) demo_fork (apply_rewinds p demo_indexed) /\ logs (apply_rewinds p demo_indexed) = ∅.
Proof.
  intros p. split; [|by vm_compute]. apply (rewind_undoes_reorg demo_chain demo_fork 1 ["0xA"] 5 2 demo_indexed).
  - intros b h Hh Hh'. cbn in Hh, Hh'. destruct (Z.ltb_spec b 3); [by apply demo_fork_agree|simplify_eq].
  - apply demo_indexed_faithful.
  - assert (checkable demo_fork 5 stamped_cursor) as Hck by (split; [done|split; [cbn; lia|done]]).
    intros k c Hk Hc. split; [apply demo_fork_agree; by destruct (demo_cursors k c Hc) as [[_ ->]|[_ ->]]|]. right.
    exists (1, "0xa", "0xt"), stamped_cursor. destruct (demo_cursors k c Hc) as [[-> ->]|[-> ->]]; split_and!; try done.
Defined.

Lemma prefixes_respect_blocks_witness :
  let ls := merge_sort block_le [moved_log; demo_log] in
  cut ls 5 1 0 (write_prefixes ls 5 1 1000) /\ List.concat (map (fun '(o, e, _) => slice o e ls) (write_prefixes ls 5 1 1000)) = ls.
Proof.
  apply (prefixes_respect_blocks [moved_log; demo_log] 5 1 1000 1); [lia|].
  intros l [-> | ->%list_elem_of_singleton]%elem_of_cons; cbn; lia.
Defined.
