(* ===== verification/IndexSessions.v ===== *)
(** * Every session that writes the event index

    The tables of the index have four writers, all in
    [workers/event_log_indexer.py]: enrolment ([enroll_event_cursor]), the two
    column upgrades of the enrolment pass ([_upgrade_to_predicate_hint],
    [apply_proven_floors]), and the transactions of a group visit (a write
    prefix, or the completion of a group that is already at the target).
    [commit] is one such transaction by any session on any chain, [reachable] an
    index left by any sequence of them from empty tables; both speak of a period
    in which no chain is reorganised.  Every reachable index is faithful. *)

From stdpp Require Import base gmap sets list strings sorting pretty.
From Stdlib Require Import String ZArith QArith Lia.
From S2P Require Import Prelude EventIndex EventIndexTheory.

Local Open Scope string_scope.
Local Open Scope Z_scope.

(** ** The upgrades of the enrolment pass *)

Definition set_enrollment_basis (basis : option string) (c : IndexedEventCursor) : IndexedEventCursor :=
  mkCursor (last_indexed_block c) (last_indexed_block_hash c) (last_run_at c) (backfill_complete c)
    (first_indexed_block c) (first_indexed_block_basis c) basis (max_window_log_count c) (window_stats_cap c)
    (window_stats_basis c) (last_advanced_at c) (recent_logs_per_block c) (enrolled_seed_block c) (request_span_limit c).

Definition set_first_indexed (block : option Z) (basis : option string) (c : IndexedEventCursor) : IndexedEventCursor :=
  mkCursor (last_indexed_block c) (last_indexed_block_hash c) (last_run_at c) (backfill_complete c)
    block basis (enrollment_basis c) (max_window_log_count c) (window_stats_cap c)
    (window_stats_basis c) (last_advanced_at c) (recent_logs_per_block c) (enrolled_seed_block c) (request_span_limit c).

(** An [UPDATE] of the cursor table: the rows and the new values. *)
Definition update_cursors (hit : cursor_key -> IndexedEventCursor -> bool) (f : IndexedEventCursor -> IndexedEventCursor) (i : index) : index :=
  mkIndex (logs i) (map_imap (fun k c => Some (if hit k c then f c else c)) (cursors i)).

(** A basis that is neither null nor already eligible. *)
Definition upgradable (basis : option string) : bool :=
  match basis with Some b => negb (String.eqb b ENROLLMENT_BASIS_PREDICATE_HINT) | None => false end.

Definition _upgrade_to_predicate_hint (chain_id : Z) (address topic0 : string) : index -> index :=
  update_cursors
    (fun k c => (k.1.1 =? chain_id) && String.eqb (str_lower k.1.2) (str_lower address) && String.eqb (str_lower k.2) (str_lower topic0) &&
       bool_decide (first_indexed_block_basis c = Some FIRST_INDEXED_BASIS_CREATION) && upgradable (enrollment_basis c))
    (set_enrollment_basis (Some ENROLLMENT_BASIS_PREDICATE_HINT)).

(** The columns of [AddressFloorWitness] the upgrade reads. *)
Record AddressFloorWitness := mkFloor {
  floor_chain_id : Z;
  floor_address : string;
  floor_first_indexed_block : option Z;
  floor_outcome : string;
  floor_seed_block : option Z;
}.

Definition FLOOR_WITNESS_PROVEN : string := "proven".

(** [proven] of the query: equality with a null column never holds. *)
Definition proves (k : cursor_key) (seed : Z) (w : AddressFloorWitness) : bool :=
  (floor_chain_id w =? k.1.1) && String.eqb (floor_address w) (str_lower k.1.2) && String.eqb (floor_outcome w) FLOOR_WITNESS_PROVEN &&
  bool_decide (floor_seed_block w = Some seed) && bool_decide (floor_first_indexed_block w = Some seed).

Definition apply_proven_floors (witnesses : list AddressFloorWitness) (i : index) : index :=
  mkIndex (logs i) (map_imap (fun k c => Some
    match enrolled_seed_block c with
    | Some seed =>
        if bool_decide (first_indexed_block_basis c = Some CURSOR_BASIS_NOT_DETERMINED) && existsb (proves k seed) witnesses
        then set_first_indexed (Some seed) (Some FIRST_INDEXED_BASIS_CREATION) c else c
    | None => c
    end) (cursors i)).

(** ** Transactions and reachable indexes *)

(** What a transaction leaves: an exception rolls it back. *)
Definition committed {A} (r : index_error + (A * index)) (i : index) : index := match r with inr (_, i') => i' | inl _ => i end.

(** One transaction of a session.  A visit's plan is made on an earlier
    reachable index; the logs it writes are the ones the chain holds in the
    blocks of the prefix, and it starts no higher than the positions it
    expects. *)
Inductive commit (world : Z -> chain) : (index -> index) -> Prop :=
| commit_enroll n a t start fb fbb basis now :
    0 <= start -> commit world (fun i => (enroll_event_cursor n a t start fb fbb basis now i).2)
| commit_upgrade n a t : commit world (_upgrade_to_predicate_hint n a t)
| commit_floors witnesses : commit world (apply_proven_floors witnesses)
| commit_prefix n wanted target depth planned_on w exp pending ls lo e :
    let p := plan_group n wanted target (chain_hash (world n)) depth planned_on in
    reachable world planned_on -> memo_true (world n) (w_memo w) -> prefix_exact (world n) p (w_topics w) lo e ls ->
    (forall r, r ∈ exp -> lo - 1 <= adjusted p pending r) ->
    commit world (fun i => committed (write_prefix p w exp pending ls e i) i)
| commit_complete n wanted target depth planned_on exp now :
    let p := plan_group n wanted target (chain_hash (world n)) depth planned_on in
    reachable world planned_on -> (forall r, r ∈ exp -> target <= position_block r) ->
    commit world (fun i => match lock_members p exp i with inr rows => complete_group now rows i | inl _ => i end)
| commit_then f g : commit world f -> commit world g -> commit world (fun i => g (f i))
with reachable (world : Z -> chain) : index -> Prop :=
| reach_empty : reachable world (mkIndex ∅ ∅)
| reach_commit i f : reachable world i -> commit world f -> reachable world (f i).

Scheme commit_mut := Minimality for commit Sort Prop
with reachable_mut := Minimality for reachable Sort Prop.

(** ** Each transaction keeps the index faithful on every chain *)

Definition true_index (world : Z -> chain) (i : index) : Prop := (forall n, faithful (on_chain n) (world n) i) /\ sane i.

(** The invariant reads only the tables' rows in scope. *)
Lemma faithful_frame scope ch i i' :
  (forall k : cursor_key, scope k -> cursors i' !! k = cursors i !! k) ->
  (forall (k : cursor_key) (x : string * Z), scope k -> logs i' !! ((k, x) : log_key) = logs i !! ((k, x) : log_key)) ->
  faithful scope ch i -> faithful scope ch i'.
Proof.
  intros Hc Hl Hf. split.
  - intros k c Hk. rewrite Hc by done. by apply Hf.
  - intros k c Hk Hkc l seed Hs Hin He Hb. rewrite Hc in Hkc by done. unfold stored, key_of. rewrite Hl by done.
    by apply (faithful_covers _ _ _ Hf k c Hk Hkc l seed).
  - intros k h m r Hk. rewrite Hl by done. intros Hr. rewrite Hc by done. by apply (faithful_rows _ _ _ Hf k h m r Hk).
  - intros k c Hk. rewrite Hc by done. by apply Hf.
Qed.

(** A visit's cursor write touches one key of its chain, and its limit stays
    a limit. *)
Lemma write_cursor_frame w e buckets (k : cursor_key) c i n m i' :
  write_cursor w e buckets k c i = inr (n, m, i') ->
  (forall (k' : cursor_key) (x : string * Z), k'.1.1 <> k.1.1 -> logs i' !! ((k', x) : log_key) = logs i !! ((k', x) : log_key)).
Proof.
  intros (c' & _ & _ & _ & Hl)%write_cursor_inv k' x Hne. rewrite Hl. destruct (_ <? _); [|done].
  set (k0 := (_, _, _)). set (ls := filter _ _).
  destruct (logs i !! ((k', x) : log_key)) as [r|] eqn:E; [by apply insert_keeps|].
  destruct ((bulk_insert_logs k0 ls (logs i)).2 !! ((k', x) : log_key)) as [r|] eqn:E'; [|done]. exfalso.
  apply insert_from in E' as [?|(l & _ & Hk & _)]; [congruence|]. apply Hne. unfold key_of in Hk. by simplify_eq.
Qed.

Lemma window_limit c ss : request_span_limit (fold_window_stats c ss) = request_span_limit c.
Proof.
  unfold fold_window_stats. destruct ss as [|s ss]; [done|].
  destruct (bool_decide (List.length _ = _)); destruct (z_max_list _); try done; by destruct (_ || _).
Qed.

(** The columns a plan reads stay in range. *)
Definition sane_cursor (c : IndexedEventCursor) : Prop := 0 <= last_indexed_block c /\ forall z, request_span_limit c = Some z -> 0 <= z.

Lemma advance_limit w e c z :
  (forall z, request_span_limit c = Some z -> 0 <= z) -> request_span_limit (advance_cursor w e c) = Some z -> 0 <= z.
Proof.
  intros Hc. unfold advance_cursor. cbn [request_span_limit set_progress]. rewrite window_limit. cbn [request_span_limit set_position].
  unfold refused_span_limit. destruct (rejected_span _) as [sp|]; cbn; [|apply Hc].
  unfold MIN_REQUEST_SPAN_LIMIT. intros [= <-]. destruct (request_span_limit c) as [s|]; [specialize (Hc s eq_refl)|]; lia.
Qed.

Lemma complete_limit w c c' : complete_cursor w c = inr c' -> request_span_limit c' = None.
Proof.
  unfold complete_cursor. cbn [last_indexed_block_hash set_progress last_indexed_block]. destruct (last_indexed_block_hash c); [by intros [= <-]|].
  destruct (w_memo w !! _); [by intros [= <-]|done].
Qed.

Lemma write_cursor_limit w e buckets (k : cursor_key) c i n m i' :
  write_cursor w e buckets k c i = inr (n, m, i') -> (forall z, request_span_limit c = Some z -> 0 <= z) ->
  exists c', cursors i' !! k = Some c' /\ forall z, request_span_limit c' = Some z -> 0 <= z.
Proof.
  destruct k as [[ch a] t]. unfold write_cursor. intros Hw Hc.
  assert (exists rows c1, (forall z, request_span_limit c1 = Some z -> 0 <= z) /\
    (exists c2, i' = mkIndex rows (<[(ch, a, t) := set_run (w_now w) c2]> (cursors i)) /\ (c2 = c1 \/ request_span_limit c2 = None)))
    as (rows & c1 & H1 & c2 & -> & H2).
  { destruct (last_indexed_block c <? e).
    - destruct (negb _); [done|]. destruct (bulk_insert_logs _ _ _) as [ins rows]. exists rows, (advance_cursor w e c).
      split; [intros z; by apply advance_limit|]. destruct (w_target w <=? _); [|simplify_eq; eauto].
      destruct (complete_cursor _ _) as [|c2] eqn:E; [done|]. apply complete_limit in E. simplify_eq. eauto.
    - exists (logs i), c. split; [done|]. destruct (w_target w <=? _); [|simplify_eq; eauto].
      destruct (complete_cursor _ _) as [|c2] eqn:E; [done|]. apply complete_limit in E. simplify_eq. eauto. }
  exists (set_run (w_now w) c2). split; [apply lookup_insert_eq|]. cbn. destruct H2 as [-> | ->]; [exact H1|done].
Qed.

(** The cursor loop: other chains' rows are untouched and every cursor is sane. *)
Lemma write_cursors_frame w e buckets rows n0 : forall i n m i',
  write_cursors w e buckets rows i = inr (n, m, i') -> (forall (k : cursor_key) c, (k, c) ∈ rows -> k.1.1 = n0 /\ sane_cursor c) -> sane i ->
  sane i' /\ (forall k : cursor_key, k.1.1 <> n0 -> cursors i' !! k = cursors i !! k) /\
  (forall (k : cursor_key) (x : string * Z), k.1.1 <> n0 -> logs i' !! ((k, x) : log_key) = logs i !! ((k, x) : log_key)).
Proof.
  induction rows as [|[k c] rows IH]; intros i n m i' Hw Hrows Hi; cbn [write_cursors] in Hw; [by simplify_eq|].
  destruct (write_cursor w e buckets k c i) as [|[[n1 m1] i1]] eqn:E1; [done|].
  destruct (write_cursors w e buckets rows i1) as [|[[n2 m2] i2]] eqn:E2; [done|]. injection Hw as <- <- <-.
  destruct (Hrows k c) as [Hk [Hc1 Hc2]]; [by left|].
  pose proof (write_cursor_frame _ _ _ _ _ _ _ _ _ E1) as Hlogs. destruct (write_cursor_limit _ _ _ _ _ _ _ _ _ E1 Hc2) as (c' & Hc' & Hlim).
  apply write_cursor_inv in E1 as (c'' & (Hl & _) & Hcs & _). rewrite Hcs, lookup_insert_eq in Hc'. injection Hc' as ->.
  destruct (IH i1 n2 m2 i2 E2) as (H1 & H2 & H3).
  - intros k0 c0 Hin. apply Hrows. by right.
  - intros k0 c0. rewrite Hcs. intros [[<- <-]|[_ H0]]%lookup_insert_Some; [split; [lia|done]|by apply (Hi k0)].
  - split_and!; [done| |].
    + intros k0 Hk0. rewrite H2 by done. rewrite Hcs. apply lookup_insert_ne. congruence.
    + intros k0 x Hk0. rewrite H3 by done. apply Hlogs. congruence.
Qed.

(** A plan made on a true index has no rewinds, so its base is the index. *)
Lemma no_rewinds_base p pending i : rewinds p = ∅ -> prefix_base p pending i = i.
Proof.
  intros Hp. destruct pending; [|done]. unfold prefix_base, apply_rewinds. destruct i as [ls cs]. cbn [logs cursors]. f_equal.
  - apply map_filter_id. intros k r _ [_ Ha]. by rewrite Hp, lookup_empty in Ha.
  - apply map_eq. intros k. rewrite map_lookup_imap. destruct (cs !! k) as [c|]; [|done]. cbn.
    unfold rewind_cursor. destruct k as [[m a] t]. by rewrite Hp, lookup_empty.
Qed.

Lemma write_prefix_true world n wanted target depth planned_on w exp pending ls lo e i :
  let p := plan_group n wanted target (chain_hash (world n)) depth planned_on in
  (forall m, well_formed (world m)) -> true_index world planned_on -> memo_true (world n) (w_memo w) ->
  prefix_exact (world n) p (w_topics w) lo e ls -> (forall r, r ∈ exp -> lo - 1 <= adjusted p pending r) ->
  true_index world i -> true_index world (committed (write_prefix p w exp pending ls e i) i).
Proof.
  intros p Hwf [Hplan _] Hm Hex Hexp [Hi Hs]. destruct (write_prefix p w exp pending ls e i) as [|[exp' i']] eqn:Ew; [done|]. cbn.
  pose proof (plan_true_stamps (world n) n wanted target depth planned_on (Hplan n)) as Hrw. fold p in Hrw.
  assert (plan_ok (world n) p) as Hpok by apply plan_group_ok.
  pose proof (write_prefix_inv _ _ _ _ _ _ _ _ _ Ew) as (a & b & buckets & _ & _ & Hw & _). rewrite no_rewinds_base in Hw by done.
  destruct (write_cursors_frame _ _ _ _ n _ _ _ _ Hw) as (H1 & H2 & H3); [|done|].
  { intros k c (Hc & Hk & _)%cursor_rows_elem. split; [exact Hk|by apply (Hs k)]. }
  split; [|done]. intros m. destruct (decide (m = n)) as [->|Hne].
  - eapply (write_prefix_faithful (on_chain n) (world n) p w exp pending ls lo); [|done|done|done| |done|done|exact Ew].
    + split; [by intros k [Hk _]|by intros k Hk].
    + unfold based. rewrite no_rewinds_base by done. apply Hi.
  - eapply faithful_frame; [| |apply (Hi m)]; intros k; [|intros x]; intros Hk; [apply H2|apply H3]; unfold on_chain in Hk; congruence.
Qed.

(** An update that leaves positions, stamps, seeds and limits alone. *)
Lemma touch_true world i i' :
  logs i' = logs i ->
  (forall k : cursor_key, option_Forall2 (fun c c' => last_indexed_block c' = last_indexed_block c /\
     last_indexed_block_hash c' = last_indexed_block_hash c /\ enrolled_seed_block c' = enrolled_seed_block c /\
     request_span_limit c' = request_span_limit c) (cursors i !! k) (cursors i' !! k)) ->
  true_index world i -> true_index world i'.
Proof.
  intros Hl Hc [Hf Hs]. split.
  - intros n. eapply faithful_touch; [done| |apply Hf]. intros k.
    destruct (Hc k) as [c c' (? & ? & ? & _)|]; by constructor.
  - intros k c' Hk. specialize (Hc k). rewrite Hk in Hc. inversion Hc as [c ? (H1 & _ & _ & H4) E|]; subst. rewrite H1, H4. by apply (Hs k).
Qed.

Lemma complete_group_true world now n addrs i :
  true_index world i -> true_index world (complete_group now (cursor_rows n addrs i) i).
Proof.
  pose proof (fun k => complete_group_lookup now (cursor_rows n addrs i) i k (cursor_rows_nodup n addrs i)) as Hl.
  apply touch_true; [apply (Hl (0, "", ""))|]. intros k. destruct (Hl k) as (_ & Hin & Hout).
  destruct (decide (k ∈ (cursor_rows n addrs i).*1)) as [Hk|Hk].
  - apply list_elem_of_fmap in Hk as ([k0 c] & -> & Hkc). cbn in *. rewrite (Hin c Hkc).
    apply cursor_rows_elem in Hkc as (-> & _). by constructor.
  - rewrite Hout by done. destruct (cursors i !! k); by constructor.
Qed.

Lemma imap_true world i (f : cursor_key -> IndexedEventCursor -> IndexedEventCursor) :
  (forall k c, last_indexed_block (f k c) = last_indexed_block c /\ last_indexed_block_hash (f k c) = last_indexed_block_hash c /\
     enrolled_seed_block (f k c) = enrolled_seed_block c /\ request_span_limit (f k c) = request_span_limit c) ->
  true_index world i -> true_index world (mkIndex (logs i) (map_imap (fun k c => Some (f k c)) (cursors i))).
Proof.
  intros Hf. apply touch_true; [done|]. intros k. cbn. rewrite map_lookup_imap. destruct (cursors i !! k); constructor. apply Hf.
Qed.

(** ** Every reachable index is true *)

Section Reachable.
Context (world : Z -> chain) (world_ok : forall m, well_formed (world m)).

Lemma commit_true f : commit world f -> forall i, true_index world i -> true_index world (f i).
Proof.
  apply (commit_mut world (fun f => forall i, true_index world i -> true_index world (f i)) (true_index world)); clear f.
  - intros n a t start fb fbb basis now Hs i [Hi Hsane]. split; [intros m; by apply enroll_faithful|by apply enroll_sane].
  - intros n a t i. apply imap_true. intros k c. by destruct (_ && _).
  - intros ws i. apply imap_true. intros k c. destruct (enrolled_seed_block c) eqn:E; [|done]. destruct (_ && _); cbn; by rewrite ?E.
  - intros n wanted target depth planned_on w exp pending ls lo e p _ Hp Hm Hex Hexp i.
    by apply (write_prefix_true world n wanted target depth planned_on w exp pending ls lo e i).
  - intros n wanted target depth planned_on exp now p _ _ _ i Hi. unfold lock_members. destruct (decide _); [|done]. by apply complete_group_true.
  - intros f g _ Hf _ Hg i Hi. by apply Hg, Hf.
  - split; [intros n; apply empty_faithful|]. intros k c Hc. cbn in Hc. by rewrite lookup_empty in Hc.
  - intros i f _ Hi _ Hf. by apply Hf.
Qed.

Lemma reachable_true i : reachable world i -> true_index world i.
Proof.
  induction 1 as [|i f _ IH Hf]; [|by apply (commit_true f)].
  split; [intros n; apply empty_faithful|]. intros k c Hc. cbn in Hc. by rewrite lookup_empty in Hc.
Qed.

(** The transactions of a visit are commits, so a visit among other sessions
    goes from reachable to reachable. *)
Lemma reachable_writes n wanted target depth planned_on :
  reachable world planned_on ->
  writes_keep (fun _ => reachable world) (world n) (plan_group n wanted target (chain_hash (world n)) depth planned_on).
Proof.
  intros Hp w exp pending ls lo e i exp' i' Hm Hex Hexp Hi Hw.
  pose proof (reach_commit world i _ Hi (commit_prefix world n wanted target depth planned_on w exp pending ls lo e Hp Hm Hex Hexp)) as Hr.
  cbv beta in Hr. by rewrite Hw in Hr.
Qed.

Lemma reachable_completion n wanted target depth now planned_on :
  reachable world planned_on -> completion_keeps n wanted target depth now (world n) planned_on (fun _ => reachable world).
Proof.
  intros Hp exp rows i Hexp Hlock Hi.
  pose proof (reach_commit world i _ Hi (commit_complete world n wanted target depth planned_on exp now Hp Hexp)) as Hr.
  cbv beta in Hr. unfold visit_plan in Hlock. by rewrite Hlock in Hr.
Qed.
End Reachable.
