(* ===== verification/LogFetch.v ===== *)
(** * The RPC log fetcher

    [services/resolution/repos/event_logs_rpc.py]: decoding of [eth_getLogs]
    entries, the strict validation of a page, the bisecting page iterator of
    [RpcEventLogFetcher] and its streaming [visit_logs].

    The node is an argument, [node n lo hi]: its answer to the [n]-th request,
    for the range [lo..hi]; nothing is assumed of it here.  JSON values are
    [pyval]; a [bytes] value is a [string] of its bytes; the [raw] field, which
    equality ignores, is left out. *)

From stdpp Require Import base gmap sets list strings.
From Stdlib Require Import String Ascii ZArith Lia.
From S2P Require Import Prelude PyText Capabilities EventIndex.

Local Open Scope string_scope.
Local Open Scope Z_scope.

#[local] Arguments String.append !_ _ : simpl nomatch.

#[export] Instance FetchedEventLog_eq_dec : EqDecision FetchedEventLog.
Proof. solve_decision. Defined.

Definition MAX_BLOCK_RANGE : Z := 1000000.
Definition MIN_BISECT_SPAN : Z := 10000.

(** ** Decoding *)

Definition hex_to_bytes (raw : pyval) (size : nat) : option string :=
  match raw with
  | PyStr s =>
      match str_after "0x" s with
      | Some body => if bool_decide (String.length body = 2 * size)%nat then bytes_fromhex body else None
      | None => None
      end
  | _ => None
  end.

Definition hex_int (raw : pyval) : option Z :=
  match raw with
  | PyStr s => if str_after "0x" s then int_text 16 s else None
  | _ => None
  end.

(** [re.fullmatch(r"0x(?:[0-9a-fA-F]{width})*", s)] *)
Definition hex_body (width : nat) (s : string) : bool :=
  match str_after "0x" s with
  | Some body => str_forall is_hex body && bool_decide (String.length body mod width = 0)%nat
  | None => false
  end.

Definition unaligned_data (raw : pyval) : option string :=
  match raw with
  | PyStr s => if hex_body 2 s && negb (bool_decide ((String.length s - 2) mod 64 = 0)%nat) then Some (str_lower s) else None
  | _ => None
  end.

Fixpoint split_words (fuel : nat) (body : string) : list string :=
  match fuel, body with
  | S fuel, String _ _ => ("0x" ++ str_lower (str_take 64 body)) :: split_words fuel (str_drop 64 body)
  | _, _ => []
  end.

Definition split_data_words (raw : pyval) : list string :=
  match raw with
  | PyStr s =>
      match str_after "0x" s with
      | Some body => if bool_decide (String.length body mod 64 = 0)%nat then split_words (String.length body) body else []
      | None => []
      end
  | _ => []
  end.

Definition decode_log (raw : pyval) : option FetchedEventLog :=
  match raw with
  | PyDict d =>
      match py_get "topics" d with
      | PyList (t :: ts) =>
          tx ← hex_to_bytes (py_get "transactionHash" d) 32;
          bh ← hex_to_bytes (py_get "blockHash" d) 32;
          li ← hex_int (py_get "logIndex" d);
          bn ← hex_int (py_get "blockNumber" d);
          ti ← hex_int (py_get "transactionIndex" d);
          let data := py_get "data" d in
          Some (mkLog tx li bn bh ti (map (fun t => str_lower (py_str t)) (t :: ts)) (split_data_words data)
                  (match py_get "address" d with PyStr a => str_lower a | _ => "" end) (unaligned_data data))
      | _ => None
      end
  | _ => None
  end.

(** ** Filters *)

(** One slot per topic position; [None] is unconstrained. *)
Definition topic_filter : Type := list (option (list string)).

Definition lower_text (v : pyval) : string := str_lower (py_str v).

(** [None] for the [ValueError] of an empty slot. *)
Definition filter_slot (entry : pyval) : option (option (list string)) :=
  match entry with
  | PyNone => Some None
  | PyStr s => Some (Some [str_lower s])
  | PyList [] => None
  | PyList l => Some (Some (map lower_text l))
  | _ => None
  end.

Definition is_text (v : pyval) : bool := match v with PyStr _ => true | _ => false end.

Definition normalize_topic_filter (entries : list pyval) : option topic_filter :=
  if forallb is_text entries then Some [Some (map lower_text entries)] else mapM filter_slot entries.

(** [address is None and not any(filters)] *)
Definition unconstrained (addresses_ : option (list string)) (f : topic_filter) : bool :=
  match addresses_ with
  | Some _ => false
  | None => forallb (fun slot => match slot with Some (_ :: _) => false | _ => true end) f
  end.

Fixpoint in_filter (f : topic_filter) (ts : list string) : bool :=
  match f, ts with
  | [], _ => true
  | None :: f, ts => in_filter f (tail ts)
  | Some slot :: f, t :: ts => bool_decide (t ∈ slot) && in_filter f ts
  | Some _ :: _, [] => false
  end.

(** ** Validation of a page *)

Inductive fetch_error :=
  | FilterRefused
  | CapAtFloor
  | RangeTooLarge
  | Refused_ (message : string)
  | Cancelled_
  | Escaped
  | NotAList
  | Undecodable
  | Invalid
  | DuplicateIdentity
  | DuplicatePosition
  | TwoHashes.

(** The guards of one decoded log; [width] is the digits per unit of its data. *)
Definition log_valid (width : nat) (lo hi : Z) (addresses_ : option (list string)) (f : topic_filter) (raw : pyval)
    (l : FetchedEventLog) : bool :=
  match raw with
  | PyDict d =>
      (lo <=? block_number l) && (block_number l <=? hi) && (0 <=? log_index l) && (0 <=? transaction_index l) &&
      bool_decide (is_Some (hex_to_bytes (PyStr (log_address l)) 20)) &&
      match addresses_ with None => true | Some s => bool_decide (log_address l ∈ s) end &&
      match assoc_get "removed" d with None | Some (PyBool false) => true | _ => false end &&
      bool_decide (List.length (topics l) <= 4)%nat &&
      forallb (fun t => bool_decide (is_Some (hex_to_bytes (PyStr t) 32))) (topics l) &&
      match py_get "data" d with PyStr s => hex_body width s | _ => false end &&
      in_filter f (topics l)
  | _ => false
  end.

(** The dictionaries that detect contradicting logs. *)
Record seen := mkSeen {
  identities : gmap (string * Z) FetchedEventLog;
  positions : gmap (Z * Z) (string * Z);
  block_hashes : gmap Z string;
}.

Definition nothing_seen : seen := mkSeen ∅ ∅ ∅.

Definition identity (l : FetchedEventLog) : string * Z := (tx_hash l, log_index l).

Definition see_log (s : seen) (l : FetchedEventLog) : fetch_error + seen :=
  let position := (block_number l, log_index l) in
  if match identities s !! identity l with Some l' => negb (bool_decide (l' = l)) | None => false end then inl DuplicateIdentity
  else if match positions s !! position with Some i => negb (bool_decide (i = identity l)) | None => false end
  then inl DuplicatePosition
  else if match block_hashes s !! block_number l with Some h => negb (bool_decide (h = block_hash l)) | None => false end
  then inl TwoHashes
  else inr (mkSeen (<[identity l := l]> (identities s)) (<[position := identity l]> (positions s))
              (<[block_number l := block_hash l]> (block_hashes s))).

(** The loop over the raw entries; the decoded logs in order. *)
Fixpoint check_logs (width : nat) (lo hi : Z) (addresses_ : option (list string)) (f : topic_filter) (raws : list pyval) (s : seen) :
    fetch_error + list FetchedEventLog :=
  match raws with
  | [] => inr []
  | raw :: raws =>
      match decode_log raw with
      | None => inl Undecodable
      | Some l =>
          if negb (log_valid width lo hi addresses_ f raw l) then inl Invalid
          else match see_log s l with
               | inl e => inl e
               | inr s => match check_logs width lo hi addresses_ f raws s with inl e => inl e | inr ls => inr (l :: ls) end
               end
      end
  end.

Definition lower_set (addresses_ : option (list string)) : option (list string) := map str_lower <$> addresses_.

(** [_strict_page]: identical duplicates stay in the page. *)
Definition strict_page (raw : pyval) (lo hi : Z) (addresses_ : option (list string)) (f : topic_filter) :
    fetch_error + list FetchedEventLog :=
  match raw with
  | PyList raws => check_logs 2 lo hi (lower_set addresses_) f raws nothing_seen
  | _ => inl NotAList
  end.

(** [_decode_page]: what does not decode is dropped. *)
Definition decode_page (raw : pyval) : list FetchedEventLog :=
  match raw with PyList raws => omap decode_log raws | _ => [] end.

(** The keys of [identities] in insertion order. *)
Fixpoint first_of_each (done : gset (string * Z)) (ls : list FetchedEventLog) : list FetchedEventLog :=
  match ls with
  | [] => []
  | l :: ls => if decide (identity l ∈ done) then first_of_each done ls else l :: first_of_each ({[identity l]} ∪ done) ls
  end.

(** [_visit_page]: whole words only, each log once. *)
Definition visit_page (raws : list pyval) (lo hi : Z) (addresses_ : option (list string)) (f : topic_filter) :
    fetch_error + list FetchedEventLog :=
  match check_logs 64 lo hi (lower_set addresses_) f raws nothing_seen with
  | inl e => inl e
  | inr ls => inr (first_of_each ∅ ls)
  end.

(** ** Requests *)

(** What [rpc_request] does: a result, or the exception it raises. *)
Inductive rpc_answer := Answer (v : pyval) | ClientTimeout | ScanCancelled | UpstreamError (message : string) | OtherException.

Definition SIZE_REFUSAL_MARKERS : list string :=
  ["timed out"; "timeout"; "too large"; "toolarge"; "more than"; "response size"; "-32012"].

Definition is_size_refusal (a : rpc_answer) : bool :=
  match a with
  | ClientTimeout => true
  | UpstreamError message => existsb (fun m => str_contains m (str_lower message)) SIZE_REFUSAL_MARKERS
  | _ => false
  end.

Inductive response := Got (v : pyval) | RejectedRange | RefusedForSize | Failed (e : fetch_error).

Definition halves (lo hi : Z) : list (Z * Z) :=
  let mid := lo + (hi - lo + 1) / 2 - 1 in [(lo, mid); (mid + 1, hi)].

(** [while start <= to_block] *)
Fixpoint windows (fuel : nat) (range start to_block_ : Z) : list (Z * Z) :=
  match fuel with
  | O => []
  | S fuel =>
      if start <=? to_block_
      then let e := Z.min to_block_ (start + range - 1) in (start, e) :: windows fuel range (e + 1) to_block_
      else []
  end.

Definition all_windows (range from to_ : Z) : list (Z * Z) := windows (Z.to_nat (to_ - from + 1)) range from to_.

Record fetcher := mkFetcher {
  max_block_range : Z;
  min_bisect_span : Z;
  result_cap : option Z;
  strict : bool;
}.

(** The constructor's clamps. *)
Definition new_fetcher (range floor : Z) (cap : option Z) (is_strict : bool) : fetcher :=
  mkFetcher (Z.max 1 range) (Z.max 1 floor) cap is_strict.

Section Fetch.
Variable node : nat -> Z -> Z -> rpc_answer.
Variable self : fetcher.
Variable addresses_ : option (list string).
Variable f : topic_filter.

(** A request with its one retry after a client timeout; the requests sent so
    far are threaded. *)
Definition request_logs (n : nat) (lo hi : Z) : rpc_answer * nat :=
  match node n lo hi with
  | ClientTimeout => (node (S n) lo hi, S (S n))
  | a => (a, S n)
  end.

(** [_request_range] *)
Definition request_range (n : nat) (lo hi : Z) (below_floor : bool) : response * nat :=
  let (a, n) := request_logs n lo hi in
  let refusal (message : string) :=
    let floor := if below_floor && is_size_refusal a then 1 else min_bisect_span self in
    if hi - lo + 1 <=? floor then Failed (Refused_ message)
    else if is_size_refusal a then RefusedForSize else RejectedRange in
  (match a with
   | Answer v => Got v
   | ScanCancelled => Failed Cancelled_
   | OtherException => Failed Escaped
   | ClientTimeout => refusal ""
   | UpstreamError message => refusal message
   end, n).

Definition list_count (v : pyval) : option Z := match v with PyList l => Some (Z.of_nat (List.length l)) | _ => None end.

Definition over (limit count : option Z) (strictly : bool) : bool :=
  match limit, count with
  | Some m, Some c => if strictly then m <? c else m <=? c
  | _, _ => false
  end.

Definition push_halves (lo hi : Z) (by_ceiling : bool) (pending : list (Z * Z * bool)) : list (Z * Z * bool) :=
  (map (fun ab => (ab.1, ab.2, by_ceiling)) (halves lo hi) ++ pending)%list.

(** The generator of [iter_pages] run to its end: the pages it yields and the
    exception that ends it, if one does.  The head of [pending] is the next
    range popped.  [None]: out of fuel. *)
Fixpoint pages_loop (fuel : nat) (max_page_logs : option Z) (pending : list (Z * Z * bool)) (n : nat) (rejected_ : Z)
    (rejected_span_ : option Z) : option (list LogPage * option fetch_error) :=
  match pending with
  | [] => Some ([], None)
  | (lo, hi, by_ceiling) :: pending =>
      match fuel with
      | O => None
      | S fuel =>
          let span := hi - lo + 1 in
          let (r, n) := request_range n lo hi by_ceiling in
          match r with
          | Failed e => Some ([], Some e)
          | RejectedRange => pages_loop fuel max_page_logs (push_halves lo hi by_ceiling pending) n (rejected_ + 1) rejected_span_
          | RefusedForSize =>
              pages_loop fuel max_page_logs (push_halves lo hi by_ceiling pending) n (rejected_ + 1) (Some (min_opt rejected_span_ span))
          | Got raw =>
              let count := list_count raw in
              if over (result_cap self) count false
              then if span <=? min_bisect_span self then Some ([], Some CapAtFloor)
                   else pages_loop fuel max_page_logs (push_halves lo hi by_ceiling pending) n (rejected_ + 1) rejected_span_
              else if over max_page_logs count true && (1 <? span)
              then pages_loop fuel max_page_logs (push_halves lo hi true pending) n (rejected_ + 1) rejected_span_
              else
                match (if strict self then strict_page raw lo hi addresses_ f else inr (decode_page raw)) with
                | inl e => Some ([], Some e)
                | inr ls =>
                    let page := mkPage lo hi ls [mkStat lo hi count (result_cap self)] rejected_ rejected_span_ in
                    match pages_loop fuel max_page_logs pending n 0 None with
                    | Some (ps, e) => Some (page :: ps, e)
                    | None => None
                    end
                end
          end
      end
  end.

(** Every range is popped once and has fewer than twice its blocks descendants. *)
Definition pages_fuel (from to_ : Z) : nat := Z.to_nat (2 * (to_ - from + 1)).

Definition iter_pages (max_page_logs : option Z) (n : nat) (from to_ : Z) : option (list LogPage * option fetch_error) :=
  if unconstrained addresses_ f then Some ([], Some FilterRefused)
  else pages_loop (pages_fuel from to_) max_page_logs (map (fun w => (w.1, w.2, false)) (all_windows (max_block_range self) from to_)) n 0 None.

(** The streaming scan: every log of the range, or an exception. *)
Fixpoint visit_loop (fuel : nat) (cap : Z) (pending : list (Z * Z)) (n : nat) : option (fetch_error + list FetchedEventLog) :=
  match pending with
  | [] => Some (inr [])
  | (lo, hi) :: pending =>
      match fuel with
      | O => None
      | S fuel =>
          let at_floor := hi - lo + 1 <=? min_bisect_span self in
          let (a, n) := request_logs n lo hi in
          let bisect := visit_loop fuel cap (halves lo hi ++ pending)%list n in
          match a with
          | ScanCancelled => Some (inl Cancelled_)
          | OtherException => Some (inl Escaped)
          | ClientTimeout => if at_floor then Some (inl (Refused_ "")) else bisect
          | UpstreamError message => if at_floor then Some (inl (Refused_ message)) else bisect
          | Answer (PyList raws) =>
              if cap <=? Z.of_nat (List.length raws)
              then if at_floor then Some (inl CapAtFloor) else bisect
              else match visit_page raws lo hi addresses_ f with
                   | inl e => Some (inl e)
                   | inr ls =>
                       match visit_loop fuel cap pending n with
                       | Some (inr ls') => Some (inr (ls ++ ls')%list)
                       | r => r
                       end
                   end
          | Answer _ => Some (inl NotAList)
          end
      end
  end.

Definition visit_logs (n : nat) (from to_ : Z) : option (fetch_error + list FetchedEventLog) :=
  match result_cap self with
  | Some cap =>
      if cap <=? 0 then Some (inl FilterRefused)
      else if unconstrained addresses_ f then Some (inl FilterRefused)
      else visit_loop (pages_fuel from to_) cap (all_windows (max_block_range self) from to_) n
  | None => Some (inl FilterRefused)
  end.
End Fetch.
