(* ===== verification/LogFetchTheory.v ===== *)
(** * The log fetcher returns the node's logs, whole

    Decoding inverts the encoding of a well-formed log; whatever the node answers,
    the page iterator ends, its pages tile a prefix of the range without gaps and
    the strict ones hold only valid, consistent logs of the filter; when the node
    answers as documented every page is exact, which is what the indexer needs. *)

From stdpp Require Import base gmap sets list strings sorting pretty.
From Stdlib Require Import String Ascii ZArith Lia.
From S2P Require Import Prelude PyText Capabilities EventIndex EventIndexTheory IndexSessions LogFetch.

Local Open Scope string_scope.
Local Open Scope Z_scope.

#[local] Arguments String.append !_ _ : simpl nomatch.

(** ** The wire format *)

Definition word_body (w : string) : string := match str_after "0x" w with Some body => body | None => "" end.

Lemma word_body_app body : word_body ("0x" ++ body) = body.
Proof. unfold word_body. by rewrite str_after_app. Qed.

Fixpoint words_text (ws : list string) : string :=
  match ws with [] => "" | w :: ws => word_body w ++ words_text ws end.

Definition data_text (l : FetchedEventLog) : string :=
  match data_hex l with Some s => s | None => "0x" ++ words_text (data_words l) end.

(** The JSON object [eth_getLogs] returns for a log. *)
Definition encode_log (l : FetchedEventLog) : pyval :=
  PyDict [("address", PyStr (log_address l)); ("topics", PyList (map PyStr (topics l))); ("data", PyStr (data_text l));
          ("blockNumber", PyStr (hex_text (block_number l))); ("transactionHash", PyStr ("0x" ++ bytes_hex (tx_hash l)));
          ("transactionIndex", PyStr (hex_text (transaction_index l))); ("blockHash", PyStr ("0x" ++ bytes_hex (block_hash l)));
          ("logIndex", PyStr (hex_text (log_index l))); ("removed", PyBool false)].

(** A 32-byte word in lower-case hexadecimal. *)
Definition is_word (w : string) : Prop :=
  exists body, w = "0x" ++ body /\ String.length body = 64%nat /\ str_lower body = body /\ str_forall is_hex body = true.

(** What the protocol guarantees of a log. *)
Record wire_log (l : FetchedEventLog) : Prop := {
  wire_hashes : String.length (tx_hash l) = 32%nat /\ String.length (block_hash l) = 32%nat;
  wire_numbers : 0 <= log_index l /\ 0 <= block_number l /\ 0 <= transaction_index l;
  wire_topics : topics l <> [] /\ Forall (fun t => str_lower t = t /\ is_Some (hex_to_bytes (PyStr t) 32)) (topics l) /\
                (List.length (topics l) <= 4)%nat;
  wire_address : str_lower (log_address l) = log_address l /\ is_Some (hex_to_bytes (PyStr (log_address l)) 20);
  wire_data : match data_hex l with
              | None => Forall is_word (data_words l)
              | Some s => data_words l = [] /\ hex_body 2 s = true /\ ((String.length s - 2) mod 64 <> 0)%nat /\ str_lower s = s
              end;
}.

Lemma hex_to_bytes_text size b : String.length b = size -> hex_to_bytes (PyStr ("0x" ++ bytes_hex b)) size = Some b.
Proof.
  intros <-. unfold hex_to_bytes. rewrite str_after_app, bytes_hex_length, bool_decide_true by done. apply fromhex_hex.
Qed.

Lemma hex_int_text z : 0 <= z -> hex_int (PyStr (hex_text z)) = Some z.
Proof. intros Hz. unfold hex_int, hex_text. rewrite str_after_app. by apply int_hex_text. Qed.

Lemma words_text_length ws : Forall is_word ws -> String.length (words_text ws) = (64 * List.length ws)%nat.
Proof.
  induction 1 as [|w ws (b & -> & Hb & _) _ IH]; [done|]. cbn [words_text List.length].
  rewrite word_body_app, str_length_app, IH, Hb. lia.
Qed.

Lemma split_words_text ws : forall fuel, Forall is_word ws -> (List.length ws <= fuel)%nat -> split_words fuel (words_text ws) = ws.
Proof.
  induction ws as [|w ws IH]; intros fuel Hw Hf; [by destruct fuel|].
  apply Forall_cons in Hw as [(b & -> & Hb & Hlow & _) Hw]. cbn [words_text]. rewrite word_body_app.
  destruct fuel as [|fuel]; [cbn in Hf; lia|]. cbn [split_words].
  destruct (b ++ words_text ws) as [|c r] eqn:E.
  { exfalso. assert (String.length (b ++ words_text ws) = 0%nat) as H0 by by rewrite E. rewrite str_length_app, Hb in H0. lia. }
  rewrite <- E. rewrite <- Hb, str_take_app, str_drop_app, Hlow. f_equal. apply IH; [done|]. cbn in Hf. lia.
Qed.

Lemma words_text_hex ws : Forall is_word ws -> str_forall is_hex (words_text ws) = true.
Proof.
  assert (forall s t, str_forall is_hex s = true -> str_forall is_hex t = true -> str_forall is_hex (s ++ t) = true) as Happ.
  { induction s as [|c s IHs]; intros t Hs Ht; [done|]. cbn in Hs |- *. apply andb_true_iff in Hs as [-> Hs]. by apply IHs. }
  induction 1 as [|w ws (b & -> & _ & _ & Hh) _ IH]; [done|]. cbn [words_text]. rewrite word_body_app. by apply Happ.
Qed.

Lemma words_data ws : Forall is_word ws ->
  split_data_words (PyStr ("0x" ++ words_text ws)) = ws /\ unaligned_data (PyStr ("0x" ++ words_text ws)) = None /\
  hex_body 2 ("0x" ++ words_text ws) = true.
Proof.
  intros Hw. pose proof (words_text_length ws Hw) as Hlen. unfold split_data_words, unaligned_data, hex_body.
  assert (String.length ("0x" ++ words_text ws) - 2 = 64 * List.length ws)%nat as Hs
    by (rewrite str_length_app, Hlen; cbn [String.length]; lia).
  rewrite !str_after_app, Hs, Hlen, words_text_hex by done.
  assert (64 * List.length ws mod 64 = 0)%nat as H64 by (rewrite Nat.mul_comm; apply Nat.Div0.mod_mul).
  assert (64 * List.length ws mod 2 = 0)%nat as H2.
  { replace (64 * List.length ws)%nat with (32 * List.length ws * 2)%nat by lia. apply Nat.Div0.mod_mul. }
  rewrite !bool_decide_true by done.
  split_and!; [|done|done]. apply split_words_text; [done|lia].
Qed.

(** Decoding inverts the encoding. *)
Lemma decode_encode l : wire_log l -> decode_log (encode_log l) = Some l.
Proof.
  intros [[Htx Hbh] (Hli & Hbn & Hti) (Hne & Htop & _) [Hal _] Hdata]. unfold decode_log, encode_log.
  set (d := [_; _; _; _; _; _; _; _; _]).
  change (py_get "topics" d) with (PyList (map PyStr (topics l))). change (py_get "address" d) with (PyStr (log_address l)).
  change (py_get "data" d) with (PyStr (data_text l)). change (py_get "blockNumber" d) with (PyStr (hex_text (block_number l))).
  change (py_get "transactionHash" d) with (PyStr ("0x" ++ bytes_hex (tx_hash l))).
  change (py_get "transactionIndex" d) with (PyStr (hex_text (transaction_index l))).
  change (py_get "blockHash" d) with (PyStr ("0x" ++ bytes_hex (block_hash l))).
  change (py_get "logIndex" d) with (PyStr (hex_text (log_index l))).
  destruct (topics l) as [|t ts] eqn:Et; [done|]. cbn [map].
  rewrite (hex_to_bytes_text 32 _ Htx), (hex_to_bytes_text 32 _ Hbh), !hex_int_text by done. cbn [mbind option_bind py_str].
  assert (map (fun t0 => str_lower (py_str t0)) (map PyStr ts) = ts) as Hts.
  { rewrite map_map. apply Forall_cons in Htop as [_ Htop]. clear -Htop.
    induction Htop as [|u us [Hu _] _ IH]; [done|]. cbn [map]. rewrite IH. cbn. by rewrite Hu. }
  rewrite Hts, Hal. apply Forall_cons in Htop as [[-> _] _].
  assert (split_data_words (PyStr (data_text l)) = data_words l /\ unaligned_data (PyStr (data_text l)) = data_hex l) as [-> ->].
  { unfold data_text. destruct (data_hex l) as [s|] eqn:Eh.
    - destruct Hdata as (-> & Hbody & Hmod & Hlow). unfold split_data_words, unaligned_data. rewrite Hbody, Hlow.
      rewrite bool_decide_false by done. split; [|done]. unfold hex_body in Hbody.
      destruct (str_after "0x" s) as [body|] eqn:Ea; [|done]. apply str_after_eq in Ea as ->. rewrite str_length_app in Hmod. cbn in Hmod.
      rewrite Nat.sub_0_r in Hmod. by rewrite bool_decide_false.
    - destruct (words_data (data_words l) Hdata) as (H1 & H2 & _). done. }
  destruct l; cbn in *. by subst.
Qed.

(** ** Tiling *)

(** Consecutive ranges from [lo] to [hi]. *)
Fixpoint tiles (lo : Z) (rs : list (Z * Z)) (hi : Z) : Prop :=
  match rs with
  | [] => lo = hi + 1
  | (a, b) :: rs => a = lo /\ a <= b /\ tiles (b + 1) rs hi
  end.

Definition page_range (p : LogPage) : Z * Z := (from_block p, to_block p).

Lemma tiles_le lo rs hi : tiles lo rs hi -> lo <= hi + 1.
Proof. revert lo. induction rs as [|[a b] rs IH]; intros lo; cbn; [lia|]. intros (-> & Hab & Ht). specialize (IH _ Ht). lia. Qed.

Lemma windows_tile fuel : forall range start to_, 1 <= range -> start <= to_ + 1 -> (Z.to_nat (to_ - start + 1) <= fuel)%nat ->
  tiles start (windows fuel range start to_) to_.
Proof.
  induction fuel as [|fuel IH]; intros range start to_ Hr Hs Hf; cbn [windows]; [cbn; lia|].
  destruct (Z.leb_spec start to_); [|cbn; lia]. cbn. split_and!; [done|lia|]. apply IH; lia.
Qed.

Definition weight (r : Z * Z) : Z := 2 * (r.2 - r.1 + 1) - 1.
Definition weights (rs : list (Z * Z)) : Z := foldr (fun r acc => weight r + acc) 0 rs.

Lemma weights_cons a b rs : weights ((a, b) :: rs) = 2 * (b - a + 1) - 1 + weights rs.
Proof. done. Qed.

Lemma tiles_weights lo rs hi : tiles lo rs hi -> 0 <= weights rs <= 2 * (hi - lo + 1).
Proof.
  revert lo. induction rs as [|[a b] rs IH]; intros lo; [cbn; lia|]. intros (-> & Hab & Ht). specialize (IH _ Ht).
  rewrite weights_cons. lia.
Qed.

Lemma halves_tile lo hi rest end_ :
  lo < hi -> tiles (hi + 1) rest end_ ->
  tiles lo (halves lo hi ++ rest)%list end_ /\ weights (halves lo hi ++ rest)%list < 2 * (hi - lo + 1) - 1 + weights rest.
Proof.
  intros Hlt Ht. unfold halves. set (h := (hi - lo + 1) / 2).
  assert (1 <= h /\ h < hi - lo + 1) as [H1 H2].
  { split; [apply Z.div_le_lower_bound; lia|apply Z.div_lt_upper_bound; lia]. }
  split; [cbn; split_and!; try lia; done|]. change ((_ :: _ :: []) ++ rest)%list with ((lo, lo + h - 1) :: (lo + h - 1 + 1, hi) :: rest).
  rewrite !weights_cons. lia.
Qed.

(** ** The iterator *)

Section Iter.
Variable node : nat -> Z -> Z -> rpc_answer.
Variable self : fetcher.
Variable addresses_ : option (list string).
Variable f : topic_filter.
Hypothesis floor_pos : 1 <= min_bisect_span self.

(** A page is one answer of the node, read and below the cap. *)
Definition page_of (p : LogPage) : Prop :=
  exists n raw, node n (from_block p) (to_block p) = Answer raw /\ over (result_cap self) (list_count raw) false = false /\
    stats p = [mkStat (from_block p) (to_block p) (list_count raw) (result_cap self)] /\
    (if strict self then strict_page raw (from_block p) (to_block p) addresses_ f = inr (page_logs p) else page_logs p = decode_page raw).

Lemma request_range_inv n lo hi below r n' :
  request_range node self n lo hi below = (r, n') ->
  match r with
  | Got v => exists m, node m lo hi = Answer v
  | RejectedRange | RefusedForSize => lo < hi
  | Failed _ => True
  end.
Proof.
  unfold request_range, request_logs.
  assert (forall a, (if hi - lo + 1 <=? (if below && is_size_refusal a then 1 else min_bisect_span self) then True else lo < hi)) as Hfl.
  { intros a. destruct (Z.leb_spec (hi - lo + 1) (if below && is_size_refusal a then 1 else min_bisect_span self)); [done|].
    destruct (below && is_size_refusal a); lia. }
  assert (forall a m message, a = ClientTimeout \/ a = UpstreamError message ->
    (if hi - lo + 1 <=? (if below && is_size_refusal a then 1 else min_bisect_span self) then Failed (Refused_ m)
     else if is_size_refusal a then RefusedForSize else RejectedRange) = r ->
    match r with Got v => exists m, node m lo hi = Answer v | RejectedRange | RefusedForSize => lo < hi | Failed _ => True end) as Href.
  { intros a m message _ <-. specialize (Hfl a). destruct (_ <=? _); [done|]. by destruct (is_size_refusal a). }
  destruct (node n lo hi) as [v| | |message|] eqn:E1; [| |by intros [= <- _]| |by intros [= <- _]].
  - intros [= <- _]. by exists n.
  - destruct (node (S n) lo hi) as [v| | |message|] eqn:E2; try by intros [= <- _].
    + intros [= <- _]. by exists (S n).
    + intros [= Hr _]. by eapply (Href ClientTimeout "" ""); [left|].
    + intros [= Hr _]. by eapply (Href (UpstreamError message) message message); [right|].
  - intros [= Hr _]. by eapply (Href (UpstreamError message) message message); [right|].
Qed.

Definition ranges (pending : list (Z * Z * bool)) : list (Z * Z) := map fst pending.

Lemma ranges_cons a b c pending : ranges ((a, b, c) :: pending) = (a, b) :: ranges pending.
Proof. done. Qed.

Lemma ranges_push lo hi c pending : ranges (push_halves lo hi c pending) = (halves lo hi ++ ranges pending)%list.
Proof. unfold ranges, push_halves. rewrite map_app, map_map. done. Qed.

Lemma pages_loop_ok mpl fuel : forall pending lo hi n rj rs,
  tiles lo (ranges pending) hi -> (Z.to_nat (weights (ranges pending)) <= fuel)%nat ->
  exists ps e mid, pages_loop node self addresses_ f fuel mpl pending n rj rs = Some (ps, e) /\
    tiles lo (map page_range ps) mid /\ mid <= hi /\ (e = None -> mid = hi) /\ Forall page_of ps.
Proof.
  induction fuel as [|fuel IH]; intros pending lo hi n rj rs Ht Hf.
  - destruct pending as [|[[a b] c] pending]; [exists [], None, hi; cbn in *; split_and!; try done; lia|].
    exfalso. rewrite ranges_cons in Ht, Hf. destruct Ht as (-> & Hab & Ht). apply tiles_weights in Ht. rewrite weights_cons in Hf. lia.
  - destruct pending as [|[[a b] c] pending]; [exists [], None, hi; cbn in *; split_and!; try done; lia|].
    cbn [pages_loop]. rewrite ranges_cons in Ht. pose proof Ht as (-> & Hab & Hrest).
    assert (weights (ranges ((lo, b, c) :: pending)) = 2 * (b - lo + 1) - 1 + weights (ranges pending)) as Hrng by done.
    assert (forall c' n' rj' rs', lo < b -> exists ps e mid,
      pages_loop node self addresses_ f fuel mpl (push_halves lo b c' pending) n' rj' rs' = Some (ps, e) /\
      tiles lo (map page_range ps) mid /\ mid <= hi /\ (e = None -> mid = hi) /\ Forall page_of ps) as Hhalf.
    { intros c' n' rj' rs' Hlt. destruct (halves_tile lo b (ranges pending) hi Hlt Hrest) as [Ht' Hw'].
      apply IH; rewrite ranges_push; [done|]. rewrite Hrng in Hf. apply tiles_weights in Ht'. lia. }
    assert (forall e : fetch_error, exists ps e' mid, Some ([] : list LogPage, Some e) = Some (ps, e') /\
      tiles lo (map page_range ps) mid /\ mid <= hi /\ (e' = None -> mid = hi) /\ Forall page_of ps) as Hfail.
    { intros e. apply tiles_le in Hrest. exists [], (Some e), (lo - 1). cbn. split_and!; try done; lia. }
    destruct (request_range node self n lo b c) as [r n1] eqn:Er. apply request_range_inv in Er.
    destruct r as [raw| | |e]; [|by apply Hhalf|by apply Hhalf|by apply Hfail].
    destruct (over (result_cap self) (list_count raw) false) eqn:Hcap.
    { destruct (Z.leb_spec (b - lo + 1) (min_bisect_span self)); [by apply Hfail|]. apply Hhalf. lia. }
    destruct (over mpl (list_count raw) true && (1 <? b - lo + 1)) eqn:Hceil.
    { apply andb_true_iff in Hceil as [_ Hlt%Z.ltb_lt]. apply Hhalf. lia. }
    destruct (if strict self then strict_page raw lo b addresses_ f else inr (decode_page raw)) as [e|ls] eqn:Els; [by apply Hfail|].
    destruct (IH pending (b + 1) hi n1 0 None Hrest) as (ps & e & mid & Hp & Htp & Hm & He & Hps).
    { rewrite Hrng in Hf. apply tiles_weights in Hrest. lia. }
    rewrite Hp. eexists _, e, mid. split; [reflexivity|]. cbn. split_and!; try done. apply Forall_cons. split; [|done].
    destruct Er as [m Hm']. exists m, raw. cbn. split_and!; try done. destruct (strict self); [done|by injection Els].
Qed.

Hypothesis range_pos : 1 <= max_block_range self.

(** The iterator ends; its pages tile a prefix of the range, the whole of it
    when no exception ends it; each is one answer of the node. *)
Lemma iter_pages_ok mpl n from to_ :
  exists ps e mid, iter_pages node self addresses_ f mpl n from to_ = Some (ps, e) /\
    (from <= to_ + 1 -> tiles from (map page_range ps) mid /\ mid <= to_ /\ (e = None -> mid = to_)) /\ Forall page_of ps.
Proof.
  unfold iter_pages. destruct (unconstrained addresses_ f).
  { exists [], (Some FilterRefused), (from - 1). split_and!; [done| |done]. cbn. intros Hft. split_and!; try done; lia. }
  set (pending := map _ _). assert (ranges pending = all_windows (max_block_range self) from to_) as Hr.
  { unfold ranges, pending. rewrite map_map. rewrite <- (map_id (all_windows _ _ _)) at 2. apply map_ext. by intros []. }
  destruct (decide (from <= to_ + 1)) as [Hle|Hgt].
  - assert (tiles from (ranges pending) to_) as Ht by (rewrite Hr; apply windows_tile; lia).
    destruct (pages_loop_ok mpl (pages_fuel from to_) pending from to_ n 0 None Ht) as (ps & e & mid & Hp & H1 & H2 & H3 & H4).
    { apply tiles_weights in Ht. unfold pages_fuel. lia. }
    exists ps, e, mid. split_and!; try done.
  - assert (pending = []) as ->.
    { unfold pending, all_windows. replace (Z.to_nat (to_ - from + 1)) with 0%nat by lia. done. }
    assert (pages_fuel from to_ = 0%nat) as -> by (unfold pages_fuel; lia).
    exists [], None, to_. split_and!; [done|lia|done].
Qed.
End Iter.

(** ** Pages that pass the strict checks *)

(** Two logs that do not contradict each other. *)
Definition compat (l l' : FetchedEventLog) : Prop :=
  (identity l = identity l' -> l = l') /\
  (block_number l = block_number l' -> log_index l = log_index l' -> identity l = identity l') /\
  (block_number l = block_number l' -> block_hash l = block_hash l').

Definition consistent (ls : list FetchedEventLog) : Prop := forall l l', l ∈ ls -> l' ∈ ls -> compat l l'.

Lemma compat_refl l : compat l l.
Proof. done. Qed.

Lemma compat_sym l l' : compat l l' -> compat l' l.
Proof. intros (H1 & H2 & H3). split_and!; intros; symmetry; auto. Qed.

(** The dictionaries hold every log of [old]. *)
Definition records (s : seen) (old : list FetchedEventLog) : Prop :=
  forall l, l ∈ old -> identities s !! identity l = Some l /\ positions s !! (block_number l, log_index l) = Some (identity l) /\
    block_hashes s !! block_number l = Some (block_hash l).

(** They hold nothing else. *)
Definition only (s : seen) (old : list FetchedEventLog) : Prop :=
  (forall i l, identities s !! i = Some l -> l ∈ old /\ identity l = i) /\
  (forall q i, positions s !! q = Some i -> exists l, l ∈ old /\ (block_number l, log_index l) = q /\ identity l = i) /\
  (forall b h, block_hashes s !! b = Some h -> exists l, l ∈ old /\ block_number l = b /\ block_hash l = h).

Lemma refused_false {A} `{EqDecision A} (o : option A) (x : A) :
  match o with Some y => negb (bool_decide (y = x)) | None => false end = false <-> (o = None \/ o = Some x).
Proof. destruct o as [y|]; [|by intuition]. rewrite negb_false_iff, bool_decide_eq_true. intuition congruence. Qed.

Lemma see_log_sound s s' old l :
  records s old -> see_log s l = inr s' -> records s' (l :: old) /\ forall l0, l0 ∈ old -> compat l0 l.
Proof.
  intros Hrec. unfold see_log.
  destruct (match identities s !! _ with Some _ => _ | None => _ end) eqn:E1; [done|].
  destruct (match positions s !! _ with Some _ => _ | None => _ end) eqn:E2; [done|].
  destruct (match block_hashes s !! _ with Some _ => _ | None => _ end) eqn:E3; [done|]. intros [= <-].
  apply refused_false in E1, E2, E3.
  assert (forall l0, l0 ∈ old -> compat l0 l) as Hcompat.
  { intros l0 (H1 & H2 & H3)%Hrec. split_and!.
    - intros Heq. rewrite <- Heq in E1. destruct E1; congruence.
    - intros Hb Hi. rewrite <- Hb, <- Hi in E2. destruct E2; congruence.
    - intros Hb. rewrite <- Hb in E3. destruct E3; congruence. }
  split; [|done]. intros l0 [->|Hl0]%elem_of_cons; cbn; [by rewrite !lookup_insert_eq|].
  destruct (Hcompat l0 Hl0) as (C1 & C2 & C3). destruct (Hrec l0 Hl0) as (H1 & H2 & H3). split_and!.
  - destruct (decide (identity l = identity l0)) as [He|]; [|by rewrite lookup_insert_ne].
    rewrite He, lookup_insert_eq. by rewrite C1.
  - destruct (decide ((block_number l, log_index l) = (block_number l0, log_index l0))) as [He|]; [|by rewrite lookup_insert_ne].
    rewrite He, lookup_insert_eq. injection He as Hb Hi. by rewrite C2.
  - destruct (decide (block_number l = block_number l0)) as [He|]; [|by rewrite lookup_insert_ne].
    rewrite He, lookup_insert_eq. by rewrite C3.
Qed.

Lemma see_log_complete s old l :
  only s old -> (forall l0, l0 ∈ old -> compat l0 l) -> exists s', see_log s l = inr s' /\ only s' (l :: old).
Proof.
  intros (H1 & H2 & H3) Hc. unfold see_log.
  destruct (match identities s !! _ with Some _ => _ | None => _ end) eqn:E1.
  { exfalso. apply not_false_iff_true in E1. apply E1, refused_false. destruct (identities s !! identity l) as [l0|] eqn:E; [|by left].
    right. f_equal. apply H1 in E as [Hl0 Hi]. by apply (Hc l0). }
  destruct (match positions s !! _ with Some _ => _ | None => _ end) eqn:E2.
  { exfalso. apply not_false_iff_true in E2. apply E2, refused_false. destruct (positions s !! _) as [i0|] eqn:E; [|by left].
    right. f_equal. apply H2 in E as (l0 & Hl0 & [= Hb Hi] & <-). by apply (Hc l0). }
  destruct (match block_hashes s !! _ with Some _ => _ | None => _ end) eqn:E3.
  { exfalso. apply not_false_iff_true in E3. apply E3, refused_false. destruct (block_hashes s !! _) as [h0|] eqn:E; [|by left].
    right. f_equal. apply H3 in E as (l0 & Hl0 & Hb & <-). by apply (Hc l0). }
  eexists. split; [reflexivity|]. split_and!; cbn.
  - intros i l0 [[<- <-]|[_ E]]%lookup_insert_Some; [by split; [left|]|]. apply H1 in E as [? ?]. by split; [right|].
  - intros q i [[<- <-]|[_ E]]%lookup_insert_Some; [exists l; by split; [left|]|]. apply H2 in E as (l0 & ? & ?). exists l0. by split; [right|].
  - intros b h [[<- <-]|[_ E]]%lookup_insert_Some; [exists l; by split; [left|]|]. apply H3 in E as (l0 & ? & ?). exists l0. by split; [right|].
Qed.

Lemma check_logs_sound width lo hi addrs f raws : forall s old ls,
  records s old -> consistent old -> check_logs width lo hi addrs f raws s = inr ls ->
  Forall2 (fun raw l => decode_log raw = Some l /\ log_valid width lo hi addrs f raw l = true) raws ls /\ consistent (ls ++ old)%list.
Proof.
  induction raws as [|raw raws IH]; intros s old ls Hrec Hcons; cbn [check_logs]; [by intros [= <-]|].
  destruct (decode_log raw) as [l|] eqn:Ed; [|done]. destruct (log_valid width lo hi addrs f raw l) eqn:Ev; [|done]. cbn [negb].
  destruct (see_log s l) as [|s1] eqn:Es; [done|]. destruct (check_logs width lo hi addrs f raws s1) as [|ls1] eqn:Ec; [done|]. intros [= <-].
  destruct (see_log_sound s s1 old l Hrec Es) as [Hrec1 Hl].
  assert (consistent (l :: old)) as Hc1.
  { intros x y [->|Hx]%elem_of_cons [->|Hy]%elem_of_cons; [done|apply compat_sym; by apply Hl|by apply Hl|by apply Hcons]. }
  destruct (IH s1 (l :: old) ls1 Hrec1 Hc1 Ec) as [HF Hcc]. split; [by constructor|].
  intros x y Hx Hy. apply Hcc; [clear Hy|clear Hx]; set_solver.
Qed.

Lemma check_logs_complete width lo hi addrs f raws : forall s old ls,
  only s old -> consistent (ls ++ old)%list ->
  Forall2 (fun raw l => decode_log raw = Some l /\ log_valid width lo hi addrs f raw l = true) raws ls ->
  check_logs width lo hi addrs f raws s = inr ls.
Proof.
  induction raws as [|raw raws IH]; intros s old ls Ho Hc HF; inversion HF as [|? l ? ls' [Hd Hv] HF']; subst; cbn [check_logs]; [done|].
  rewrite Hd, Hv. cbn [negb].
  destruct (see_log_complete s old l Ho) as (s' & -> & Ho').
  { intros l0 Hl0. apply Hc; set_solver. }
  rewrite (IH s' (l :: old) ls' Ho'); [done| |done]. intros x y Hx Hy. apply Hc; [clear Hy|clear Hx]; set_solver.
Qed.

Lemma nothing_records : records nothing_seen [].
Proof. intros l []%not_elem_of_nil. Qed.

Lemma nothing_only : only nothing_seen [].
Proof. split_and!; cbn; intros *; by rewrite lookup_empty. Qed.

(** ** A truthful node *)

(** The logs a filter of emitters and topics asks for in a range. *)
Definition asked (ch : chain) (addrs ts : list string) (lo hi : Z) (l : FetchedEventLog) : Prop :=
  l ∈ chain_logs ch /\ lo <= block_number l <= hi /\ log_address l ∈ addrs /\ exists t, log_topic0 l = Some t /\ t ∈ ts.

(** [eth_getLogs] as documented: a list answer below the result cap holds
    exactly the logs asked for.  Refusals and timeouts are always possible. *)
Definition truthful_node (node : nat -> Z -> Z -> rpc_answer) (cap : option Z) (ch : chain) (addrs ts : list string) : Prop :=
  forall n lo hi raws, node n lo hi = Answer (PyList raws) -> over cap (Some (Z.of_nat (List.length raws))) false = false ->
    exists ls, raws = map encode_log ls /\ forall l, l ∈ ls <-> asked ch addrs ts lo hi l.

(** A chain's logs as the protocol has them. *)
Record wire_chain (ch : chain) : Prop := {
  wire_logs : forall l, l ∈ chain_logs ch -> wire_log l;
  wire_consistent : consistent (chain_logs ch);
}.

Lemma wire_chain_well_formed ch : wire_chain ch -> well_formed ch.
Proof. intros [_ Hc] l l' Hl Hl' Ht Hi. apply (Hc l l' Hl Hl'). unfold identity. by rewrite Ht, Hi. Qed.

Lemma decode_all ls : (forall l, l ∈ ls -> wire_log l) -> Forall2 (fun raw l => decode_log raw = Some l) (map encode_log ls) ls.
Proof.
  induction ls as [|l ls IH]; intros Hw; cbn; constructor; [by apply decode_encode, Hw; left|]. apply IH. intros x Hx. apply Hw. by right.
Qed.

Lemma decode_functional raws ls ls' :
  Forall2 (fun raw l => decode_log raw = Some l) raws ls -> Forall2 (fun raw l => decode_log raw = Some l) raws ls' -> ls = ls'.
Proof.
  intros H1. revert ls'. induction H1 as [|raw l raws ls Hl _ IH]; intros ls' H2; inversion H2; subst; [done|]. f_equal; [congruence|auto].
Qed.

(** The checked logs of a list answer are the ones asked for. *)
Lemma checked_exact width ch addrs ts f lo hi raws ls' a :
  wire_chain ch -> (exists ls, raws = map encode_log ls /\ forall l, l ∈ ls <-> asked ch addrs ts lo hi l) ->
  check_logs width lo hi a f raws nothing_seen = inr ls' ->
  (forall l, l ∈ ls' <-> asked ch addrs ts lo hi l).
Proof.
  intros Hw (ls & -> & Hls) Hc.
  apply (check_logs_sound _ _ _ _ _ _ nothing_seen [] ls') in Hc as [HF _]; [|apply nothing_records|intros ? ? []%not_elem_of_nil].
  assert (ls' = ls) as ->; [|done]. symmetry. eapply decode_functional; [apply decode_all|].
  - intros l [Hl _]%Hls. by apply (wire_logs _ Hw).
  - eapply Forall2_impl; [exact HF|]. by intros raw l [? _].
Qed.

(** The pages of a strict fetcher over a truthful node are what a plan's visit
    may write. *)
Lemma pages_truthful_for node self ch p ts f page :
  wire_chain ch -> strict self = true -> truthful_node node (result_cap self) ch (addresses p) ts ->
  page_of node self (Some (addresses p)) f page -> truthful ch p ts page.
Proof.
  intros Hw Hs Hn (n & raw & Hnode & Hcap & _ & Hpage). rewrite Hs in Hpage. unfold strict_page in Hpage.
  destruct raw as [| | | |raws|]; try done.
  pose proof (checked_exact _ _ _ _ _ _ _ _ _ _ Hw (Hn n _ _ raws Hnode Hcap) Hpage) as Hex.
  assert (forall l, l ∈ page_logs page -> copy_of (single_address p) l l) as Hcopy.
  { intros l (Hl & _ & Ha & _)%Hex. unfold copy_of, emitter, single_address. split; [|done].
    destruct (addresses p) as [|a [|a' r]] eqn:Ep; cbn; [by apply (wire_logs _ Hw l Hl)| |by apply (wire_logs _ Hw l Hl)].
    by apply list_elem_of_singleton in Ha. }
  split.
  - intros l t Hl Ha Ht Hts Hb. assert (l ∈ page_logs page) as Hin by (apply Hex; do 3 (split; [done|]); by exists t).
    exists l. by split; [|apply Hcopy].
  - intros l Hl. pose proof (proj1 (Hex l) Hl) as (Hc & Hb & _). split; [done|]. exists l. by split; [|apply Hcopy].
Qed.

(** ** The streaming scan *)

Lemma first_of_each_elem ls : forall seen_, consistent ls -> (forall l, l ∈ ls -> identity l ∉ seen_) ->
  (forall l, l ∈ first_of_each seen_ ls <-> l ∈ ls) /\ NoDup (first_of_each seen_ ls).
Proof.
  assert (forall ls seen_ l, consistent ls -> l ∈ first_of_each seen_ ls <-> l ∈ ls /\ identity l ∉ seen_) as Helem.
  { clear. induction ls as [|x ls IH]; intros seen_ l Hc; cbn [first_of_each].
    { split; [intros []%not_elem_of_nil|by intros [[]%not_elem_of_nil _]]. }
    assert (consistent ls) as Hc' by (intros a b Ha Hb; apply Hc; by right).
    destruct (decide (identity x ∈ seen_)) as [Hx|Hx].
    - rewrite IH by done. rewrite elem_of_cons. naive_solver.
    - rewrite elem_of_cons, IH, elem_of_cons by done. destruct (decide (l = x)) as [->|Hne]; [naive_solver|].
      split; [intros [?|[Hl Hn]]; [done|]; split; [by right|set_solver]|].
      intros [[?|Hl] Hn]; [done|]. right. split; [done|]. intros [Hi%elem_of_singleton|]%elem_of_union; [|done].
      apply Hne. apply (Hc l x); [by right|by left|done]. }
  intros seen_ Hc Hs. split; [intros l; rewrite Helem by done; naive_solver|]. clear Hs.
  revert seen_ Hc. induction ls as [|x ls IH]; intros seen_ Hc; cbn [first_of_each]; [constructor|].
  assert (consistent ls) as Hc' by (intros a b Ha Hb; apply Hc; by right).
  destruct (decide (identity x ∈ seen_)); [by apply IH|]. constructor; [|by apply IH].
  rewrite Helem by done. intros [_ Hn]. apply Hn. set_solver.
Qed.

Section Visit.
Variable node : nat -> Z -> Z -> rpc_answer.
Variable self : fetcher.
Variable addrs ts : list string.
Variable f : topic_filter.
Variable ch : chain.
Hypothesis floor_pos : 1 <= min_bisect_span self.
Hypothesis wire : wire_chain ch.

Lemma visit_page_exact lo hi raws ls :
  (exists ls, raws = map encode_log ls /\ forall l, l ∈ ls <-> asked ch addrs ts lo hi l) ->
  visit_page raws lo hi (Some addrs) f = inr ls -> (forall l, l ∈ ls <-> asked ch addrs ts lo hi l) /\ NoDup ls.
Proof.
  intros Hex. unfold visit_page. destruct (check_logs _ _ _ _ _ _ _) as [|ls0] eqn:Ec; [done|]. intros [= <-].
  pose proof (checked_exact _ _ _ _ _ _ _ _ _ _ wire Hex Ec) as H0.
  apply (check_logs_sound _ _ _ _ _ _ nothing_seen [] ls0) in Ec as [_ Hc]; [|apply nothing_records|intros ? ? []%not_elem_of_nil].
  rewrite app_nil_r in Hc. destruct (first_of_each_elem ls0 ∅ Hc) as [H1 H2]; [set_solver|].
  split; [|done]. intros l. by rewrite H1.
Qed.

Lemma request_logs_answer n lo hi a n' : request_logs node n lo hi = (a, n') -> exists m, node m lo hi = a.
Proof. unfold request_logs. destruct (node n lo hi) eqn:E; intros [= <- <-]; eauto. Qed.

Lemma visit_loop_exact cap fuel : forall pending lo hi n,
  truthful_node node (Some cap) ch addrs ts -> tiles lo pending hi -> (Z.to_nat (weights pending) <= fuel)%nat ->
  exists r, visit_loop node self (Some addrs) f fuel cap pending n = Some r /\
    forall ls, r = inr ls -> (forall l, l ∈ ls <-> asked ch addrs ts lo hi l) /\ NoDup ls.
Proof.
  intros pending lo hi n Hn. revert pending lo hi n. induction fuel as [|fuel IH]; intros pending lo hi n Ht Hf.
  - destruct pending as [|[a b] pending].
    + exists (inr []). split; [done|]. intros ls [= <-]. cbn in Ht. split; [|constructor]. intros l. split; [intros []%not_elem_of_nil|].
      intros (_ & Hb & _). lia.
    + exfalso. destruct Ht as (-> & Hab & Ht). apply tiles_weights in Ht. rewrite weights_cons in Hf. lia.
  - destruct pending as [|[a b] pending].
    { exists (inr []). split; [done|]. intros ls [= <-]. cbn in Ht. split; [|constructor]. intros l. split; [intros []%not_elem_of_nil|].
      intros (_ & Hb & _). lia. }
    cbn [visit_loop]. pose proof Ht as (-> & Hab & Hrest). rewrite weights_cons in Hf.
    destruct (request_logs node n lo b) as [ans n1] eqn:Er. apply request_logs_answer in Er as [m Hm].
    assert (forall e : fetch_error, exists r, Some (inl e) = Some r /\ forall ls, r = inr ls ->
      (forall l, l ∈ ls <-> asked ch addrs ts lo hi l) /\ NoDup ls) as Hfail by (intros e; exists (inl e); by split).
    assert (forall e : fetch_error, exists r,
      (if b - lo + 1 <=? min_bisect_span self then Some (inl e) else visit_loop node self (Some addrs) f fuel cap (halves lo b ++ pending) n1)
        = Some r /\ forall ls, r = inr ls -> (forall l, l ∈ ls <-> asked ch addrs ts lo hi l) /\ NoDup ls) as Hbis.
    { intros e. destruct (Z.leb_spec (b - lo + 1) (min_bisect_span self)); [apply Hfail|].
      destruct (halves_tile lo b pending hi) as [Ht' Hw']; [lia|done|]. apply IH; [done|]. apply tiles_weights in Ht'. lia. }
    destruct ans as [v| | |message|]; [|apply Hbis|apply Hfail|apply Hbis|apply Hfail].
    destruct v as [| | | |raws|]; try apply Hfail. destruct (Z.leb_spec cap (Z.of_nat (List.length raws))) as [|Hcap]; [apply Hbis|].
    destruct (visit_page raws lo b (Some addrs) f) as [e|ls0] eqn:Ev; [apply Hfail|].
    destruct (visit_page_exact lo b raws ls0) as [H0 Hnd0]; [apply (Hn m lo b raws Hm); cbn; lia|done|].
    destruct (IH pending (b + 1) hi n1 Hrest) as (r & -> & Hr); [apply tiles_weights in Hrest; lia|].
    destruct r as [e|ls1]; [apply Hfail|]. destruct (Hr ls1 eq_refl) as [H1 Hnd1].
    eexists. split; [reflexivity|]. intros ls [= <-]. apply tiles_le in Hrest. split.
    + intros l. rewrite elem_of_app, H0, H1. unfold asked.
      destruct (decide (block_number l <= b)); [|split; [intros [?|?]|]; naive_solver lia]. split; [intros [?|?]|]; naive_solver lia.
    + apply NoDup_app. split_and!; [done| |done]. intros l (_ & Hb & _)%H0 (_ & Hb' & _)%H1. lia.
Qed.

Hypothesis range_pos : 1 <= max_block_range self.

(** A streamed scan ends, and the logs of a scan that does not raise are exactly
    the ones asked for, each once. *)
Lemma visit_logs_exact n from to_ :
  truthful_node node (result_cap self) ch addrs ts ->
  exists r, visit_logs node self (Some addrs) f n from to_ = Some r /\
    forall ls, r = inr ls -> (forall l, l ∈ ls <-> asked ch addrs ts from to_ l) /\ NoDup ls.
Proof.
  intros Hn. unfold visit_logs. destruct (result_cap self) as [cap|] eqn:Ecap; [|by eexists; split; [reflexivity|]].
  destruct (cap <=? 0); [by eexists; split; [reflexivity|]|]. cbn [unconstrained].
  destruct (decide (from <= to_ + 1)) as [Hle|Hgt].
  - assert (tiles from (all_windows (max_block_range self) from to_) to_) as Ht by (apply windows_tile; lia).
    apply visit_loop_exact; [done|done|]. apply tiles_weights in Ht. unfold pages_fuel. lia.
  - unfold all_windows. replace (Z.to_nat (to_ - from + 1)) with 0%nat by lia. cbn [windows].
    exists (inr []). split; [by destruct (pages_fuel from to_)|]. intros ls [= <-]. split; [|constructor].
    intros l. split; [intros []%not_elem_of_nil|]. intros (_ & Hb & _). lia.
Qed.
End Visit.

(** ** A node that always answers *)

Lemma encode_valid ch addrs ts lo hi l :
  wire_chain ch -> asked ch addrs ts lo hi l -> log_valid 2 lo hi (lower_set (Some addrs)) [Some ts] (encode_log l) l = true.
Proof.
  intros Hw (Hl & Hb & Ha & t & Ht & Hts). destruct (wire_logs _ Hw l Hl) as [_ (Hli & _ & Hti) (Hne & Htop & H4) [Hal H20] Hdata].
  unfold log_valid, encode_log. set (d := [_; _; _; _; _; _; _; _; _]).
  change (assoc_get "removed" d) with (Some (PyBool false)). change (py_get "data" d) with (PyStr (data_text l)).
  change (lower_set (Some addrs)) with (Some (map str_lower addrs)). cbv match.
  assert (hex_body 2 (data_text l) = true) as ->.
  { unfold data_text. destruct (data_hex l); [by destruct Hdata as (_ & ? & _)|]. by apply words_data. }
  rewrite !(proj2 (Z.leb_le _ _)) by lia. rewrite (bool_decide_true (is_Some _)) by done.
  rewrite (bool_decide_true (log_address l ∈ _)) by (rewrite <- Hal; by apply (list_elem_of_fmap_2 str_lower)).
  rewrite (bool_decide_true (_ <= 4)%nat) by done.
  assert (forallb (fun t => bool_decide (is_Some (hex_to_bytes (PyStr t) 32))) (topics l) = true) as ->.
  { apply forallb_forall. intros x Hx%list_elem_of_In. apply bool_decide_eq_true. by apply (proj1 (Forall_forall _ _) Htop x Hx). }
  unfold log_topic0 in Ht. destruct (topics l) as [|t0 r] eqn:Et; [done|]. cbn in Ht. injection Ht as <-.
  apply Forall_cons in Htop as [[Hlow _] _]. rewrite Hlow in Hts. cbn. by rewrite bool_decide_true.
Qed.

(** Every request answered with the logs asked for. *)
Definition honest_node (node : nat -> Z -> Z -> rpc_answer) (ch : chain) (addrs ts : list string) : Prop :=
  forall n lo hi, exists ls, node n lo hi = Answer (PyList (map encode_log ls)) /\ forall l, l ∈ ls <-> asked ch addrs ts lo hi l.

Lemma honest_page ch addrs ts lo hi ls :
  wire_chain ch -> (forall l, l ∈ ls <-> asked ch addrs ts lo hi l) ->
  strict_page (PyList (map encode_log ls)) lo hi (Some addrs) [Some ts] = inr ls.
Proof.
  intros Hw Hls. unfold strict_page. apply (check_logs_complete _ _ _ _ _ _ _ []); [apply nothing_only| |].
  - rewrite app_nil_r. intros l l' Hl Hl'. apply (wire_consistent _ Hw); [by apply Hls in Hl as [? _]|by apply Hls in Hl' as [? _]].
  - assert (forall ls', (forall l, l ∈ ls' -> l ∈ ls) -> Forall2 (fun raw l => decode_log raw = Some l /\
      log_valid 2 lo hi (lower_set (Some addrs)) [Some ts] raw l = true) (map encode_log ls') ls') as H; [|by apply H].
    induction ls' as [|l ls' IH]; intros Hin; cbn; constructor; [|apply IH; intros x Hx; apply Hin; by right].
    assert (l ∈ ls) as Hl by (apply Hin; by left). apply Hls in Hl.
    split; [by apply decode_encode, (wire_logs _ Hw), Hl|by eapply encode_valid].
Qed.

Lemma honest_loop node self ch addrs ts mpl fuel : forall pending n rj rs ps e,
  wire_chain ch -> strict self = true -> result_cap self = None -> honest_node node ch addrs ts ->
  pages_loop node self (Some addrs) [Some ts] fuel mpl pending n rj rs = Some (ps, e) -> e = None.
Proof.
  induction fuel as [|fuel IH]; intros [|[[lo hi] c] pending] n rj rs ps e Hw Hs Hc Hh; cbn [pages_loop]; try (by intros [= _ <-]).
  unfold request_range, request_logs. destruct (Hh n lo hi) as (ls & -> & Hls). rewrite Hc, Hs. cbn [over].
  destruct (_ && _); [by apply IH|]. rewrite (honest_page ch) by done.
  destruct (pages_loop _ _ _ _ _ _ _ _ _ _) as [[ps' e']|] eqn:E; [|done]. intros [= _ <-]. by eapply IH.
Qed.

(** ** What the fetcher promises *)

Lemma strict_page_valid raw lo hi addrs f ls :
  strict_page raw lo hi (Some addrs) f = inr ls ->
  consistent ls /\ forall l, l ∈ ls -> lo <= block_number l <= hi /\ log_address l ∈ map str_lower addrs /\ in_filter f (topics l) = true.
Proof.
  unfold strict_page. destruct raw as [| | | |raws|]; try done. intros Hc.
  apply (check_logs_sound _ _ _ _ _ _ nothing_seen [] ls) in Hc as [HF Hcons]; [|apply nothing_records|intros ? ? []%not_elem_of_nil].
  rewrite app_nil_r in Hcons. split; [done|]. intros l Hl. apply list_elem_of_lookup_1 in Hl as [i Hi].
  destruct (Forall2_lookup_r _ _ _ _ _ HF Hi) as (raw & _ & _ & Hv). unfold log_valid in Hv. destruct raw; try done.
  rewrite !andb_true_iff in Hv. destruct Hv as [[[[[[[[[[H1 H2] _] _] _] H3] _] _] _] _] H4].
  apply Z.leb_le in H1, H2. cbn in H3. apply bool_decide_eq_true in H3. done.
Qed.

(** C35: Decoding an [eth_getLogs] entry inverts the protocol's encoding of a log:
    hashes, quantities, topics, data words and data that is not word-aligned all
    come back unchanged. *)
Theorem decode_inverts_encode l : wire_log l -> decode_log (encode_log l) = Some l.
Proof. apply decode_encode. Qed.

(** Whatever the node answers (refusals, timeouts, malformed or truncated
    lists), the page iterator ends; its pages are consecutive from the first
    block and, when no exception ended it, reach the last one; and every page of
    a strict fetcher holds only logs of its range, emitters and topics, no two
    of which contradict each other. *)
Theorem pages_tile_range node range floor cap is_strict addrs f mpl n from to_ :
  exists ps e mid, iter_pages node (new_fetcher range floor cap is_strict) (Some addrs) f mpl n from to_ = Some (ps, e) /\
    (from <= to_ + 1 -> tiles from (map page_range ps) mid /\ mid <= to_ /\ (e = None -> mid = to_)) /\
    Forall (fun p => is_strict = true -> consistent (page_logs p) /\ forall l, l ∈ page_logs p ->
      from_block p <= block_number l <= to_block p /\ log_address l ∈ map str_lower addrs /\ in_filter f (topics l) = true) ps.
Proof.
  destruct (iter_pages_ok node (new_fetcher range floor cap is_strict) (Some addrs) f ltac:(cbn; lia) ltac:(cbn; lia) mpl n from to_)
    as (ps & e & mid & Hp & Ht & Hps).
  exists ps, e, mid. split_and!; [done|done|]. eapply Forall_impl; [exact Hps|].
  intros p (m & raw & _ & _ & _ & Hpage) ->. cbn in Hpage. by apply strict_page_valid in Hpage.
Qed.

(** The indexer's use of the fetcher: the plan's emitters, the topics as a flat
    filter; an exception ends the pages. *)
Definition rpc_pages (node : list string -> nat -> Z -> Z -> rpc_answer) (self : fetcher) (mpl : option Z) (p : GroupPlan)
    (ts : list string) (lo hi : Z) : list LogPage :=
  match normalize_topic_filter (map PyStr ts) with
  | Some f => match iter_pages (node ts) self (Some (addresses p)) f mpl 0 lo hi with Some (ps, _) => ps | None => [] end
  | None => []
  end.

(** C8: The indexer over its RPC fetcher, among all its sessions: start from empty
    tables and let any sessions commit any transactions the indexer has
    (enrolments, basis and floor upgrades, write prefixes and completions of
    other visits, on any chain) in any order, before the plan, between the plan
    and the run, and between any two writes of the visit.  When the node's list
    answers below the result cap are what [eth_getLogs] documents (whatever it
    refuses or truncates), the hashes already read are the chain's and no chain
    is reorganised meanwhile, the visit ends, leaves an index those sessions
    could have produced, hence one that is exactly faithful on every chain, and
    when it reports that it finished every cursor of the group is complete at
    the target. *)
Theorem rpc_visit_faithful node range floor cap mpl stop_set deadline_passed limits n wanted target depth max_rows max_bytes now
    (world : Z -> chain) (planned_on : index) memo0 disturbances (i : index) :
  let ch := world n in
  let p := plan_group n wanted target (chain_hash ch) depth planned_on in
  let self := new_fetcher range floor cap true in
  (forall m, well_formed (world m)) -> wire_chain ch -> (forall ts, truthful_node (node ts) cap ch (addresses p) ts) -> memo_true ch memo0 ->
  reachable world planned_on -> reachable world i -> (forall f, f ∈ disturbances -> commit world f) ->
  exists o v i', run_plan (rpc_pages node self mpl p) (chain_hash ch) stop_set deadline_passed p limits target max_rows max_bytes now
                   (Z.to_nat target) memo0 disturbances i = Some (o, v, i') /\
    reachable world i' /\ (forall m, faithful (on_chain m) (world m) i') /\
    (o = Finished -> members p <> [] -> caught_up p target i').
Proof.
  intros ch p self Hwf Hw Hn Hmemo Hplan Hi Hds.
  destruct (visit_run_ok (rpc_pages node self mpl p) stop_set deadline_passed limits n wanted target depth max_rows max_bytes now ch planned_on)
    with (inv := fun _ : bool => reachable world) (memo0 := memo0) (ds := disturbances) (i := i) as (o & v & i' & Hrun & Hr & Hfin); try done.
  - intros ts lo hi. unfold rpc_pages. destruct (normalize_topic_filter _) as [f|]; [|constructor].
    destruct (iter_pages_ok (node ts) self (Some (addresses p)) f ltac:(cbn; lia) ltac:(cbn; lia) mpl 0 lo hi) as (ps & e & mid & -> & _ & Hps).
    eapply Forall_impl; [exact Hps|]. intros page Hpage. by apply (pages_truthful_for (node ts) self ch p ts f).
  - by apply (reachable_true world Hwf).
  - by apply reachable_writes.
  - by apply reachable_completion.
  - intros f Hf _ j Hj. apply reach_commit; [done|by apply Hds].
  - exists o, v, i'. split; [exact Hrun|]. split; [exact Hr|]. split; [by apply (reachable_true world Hwf)|]. intros Ho. by apply Hfin.
Qed.

(** A node that answers every request is never rejected: the strict iterator
    raises nothing and its pages cover the whole range, each exactly the chain's
    logs of the filter, whatever the page ceiling splits. *)
Theorem honest_node_covered node range floor mpl ch p ts n from to_ :
  wire_chain ch -> honest_node node ch (addresses p) ts -> from <= to_ + 1 ->
  exists ps, iter_pages node (new_fetcher range floor None true) (Some (addresses p)) [Some ts] mpl n from to_ = Some (ps, None) /\
    tiles from (map page_range ps) to_ /\ Forall (truthful ch p ts) ps.
Proof.
  intros Hw Hh Hft. set (self := new_fetcher range floor None true).
  destruct (iter_pages_ok node self (Some (addresses p)) [Some ts] ltac:(cbn; lia) ltac:(cbn; lia) mpl n from to_) as (ps & e & mid & Hp & Ht & Hps).
  assert (e = None) as -> by (unfold iter_pages in Hp; cbn [unconstrained] in Hp; by eapply (honest_loop node self ch (addresses p) ts); [..|exact Hp]).
  exists ps. split; [done|]. destruct (Ht Hft) as (Htl & _ & Hmid). rewrite (Hmid eq_refl) in Htl. split; [done|].
  eapply Forall_impl; [exact Hps|]. intros page. apply pages_truthful_for; [done|done|].
  intros m lo hi raws Hans _. destruct (Hh m lo hi) as (ls & Hn & Hls). rewrite Hn in Hans. injection Hans as <-. by exists ls.
Qed.

(** C31: A streamed scan over a truthful node ends; when it does not raise, it has
    visited exactly the chain's logs of the filter in the range, each once. *)
Theorem streamed_scan_exact node range floor cap addrs ts f ch n from to_ :
  wire_chain ch -> truthful_node node cap ch addrs ts ->
  exists r, visit_logs node (new_fetcher range floor cap true) (Some addrs) f n from to_ = Some r /\
    forall ls, r = inr ls -> (forall l, l ∈ ls <-> asked ch addrs ts from to_ l) /\ NoDup ls.
Proof. intros Hw Hn. by apply visit_logs_exact; [cbn; lia| |cbn; lia|]. Qed.

(** *** A small chain on the wire *)

Definition hash32 (c : ascii) : string := str_repeat c 32.
Definition hex32 (c : ascii) : string := "0x" ++ str_repeat c 64.
Definition wire_emitter : string := "0x" ++ str_repeat "a" 40.

Definition wire_demo : FetchedEventLog :=
  mkLog (hash32 "t") 0 3 (hash32 "b") 0 [hex32 "1"] [hex32 "0"; hex32 "f"] wire_emitter None.

Definition wire_demo_chain : chain := mkChain [wire_demo] (fun _ => Some (hash32 "b")).

Lemma wire_demo_log : wire_log wire_demo.
Proof.
  split; cbn [wire_demo tx_hash block_hash log_index block_number transaction_index topics data_words log_address data_hex].
  - done.
  - lia.
  - split; [done|]. split; [|cbn; lia]. apply Forall_singleton. split; [by vm_compute|vm_compute; by eexists].
  - split; [by vm_compute|vm_compute; by eexists].
  - apply Forall_forall. intros w [-> | ->%list_elem_of_singleton]%elem_of_cons; eexists; (split; [reflexivity|]); by vm_compute.
Qed.

Lemma wire_demo_ok : wire_chain wire_demo_chain.
Proof.
  split.
  - intros l ->%list_elem_of_singleton. exact wire_demo_log.
  - intros l l' ->%list_elem_of_singleton ->%list_elem_of_singleton. apply compat_refl.
Qed.

Lemma decode_inverts_encode_witness : decode_log (encode_log wire_demo) = Some wire_demo.
Proof. apply (decode_inverts_encode wire_demo). exact wire_demo_log. Defined.

(** A node with that chain: it answers the filter it is asked. *)
Definition demo_asked (addrs ts : list string) (lo hi : Z) : list FetchedEventLog :=
  filter (fun l => (lo <= block_number l /\ block_number l <= hi) /\ log_address l ∈ addrs /\ default "" (log_topic0 l) ∈ ts) [wire_demo].

Definition demo_node (addrs ts : list string) (_ : nat) (lo hi : Z) : rpc_answer :=
  Answer (PyList (map encode_log (demo_asked addrs ts lo hi))).

Lemma demo_asked_ok addrs ts lo hi l : l ∈ demo_asked addrs ts lo hi <-> asked wire_demo_chain addrs ts lo hi l.
Proof.
  unfold demo_asked, asked. rewrite list_elem_of_filter. cbn [wire_demo_chain chain_logs]. split.
  - intros ((Hb & Ha & Ht) & Hl). pose proof Hl as ->%list_elem_of_singleton. do 3 (split; [done|]). by eexists.
  - intros (Hl & Hb & Ha & t & Ht & Hts). pose proof Hl as ->%list_elem_of_singleton. split; [|done]. do 2 (split; [done|]).
    by rewrite Ht.
Qed.

Lemma demo_honest addrs ts : honest_node (demo_node addrs ts) wire_demo_chain addrs ts.
Proof. intros n lo hi. eexists. split; [reflexivity|]. apply demo_asked_ok. Qed.

Lemma honest_node_truthful node cap ch addrs ts : honest_node node ch addrs ts -> truthful_node node cap ch addrs ts.
Proof. intros Hh n lo hi raws Hans _. destruct (Hh n lo hi) as (ls & Hn & Hls). rewrite Hn in Hans. injection Hans as <-. by exists ls. Qed.

Definition wire_demo_index : index := (enroll_event_cursor 1 wire_emitter (hex32 "1") 0 None None None 7 (mkIndex ∅ ∅)).2.

(** While the visit runs other sessions upgrade its cursor and enrol one of a
    second emitter. *)
Definition demo_world (_ : Z) : chain := wire_demo_chain.
Definition demo_enrol (a t : string) (i : index) : index := (enroll_event_cursor 1 a t 0 None None None 7 i).2.

Lemma demo_index_reachable : reachable demo_world wire_demo_index.
Proof. apply (reach_commit demo_world (mkIndex ∅ ∅) (demo_enrol wire_emitter (hex32 "1"))); [apply reach_empty|by apply commit_enroll]. Qed.

Lemma rpc_visit_faithful_witness :
  let p := plan_group 1 [wire_emitter] 5 (chain_hash wire_demo_chain) 2 wire_demo_index in
  exists o v i', run_plan (rpc_pages (demo_node [wire_emitter]) (new_fetcher 2 1 (Some 10) true) None p) (chain_hash wire_demo_chain)
                   (fun _ => false) (fun _ => false) p demo_limits 5 10 1000 9 (Z.to_nat 5) ∅
                   [_upgrade_to_predicate_hint 1 wire_emitter (hex32 "1"); demo_enrol (hex32 "2") (hex32 "1")] wire_demo_index = Some (o, v, i') /\
    reachable demo_world i' /\ (forall m, faithful (on_chain m) wire_demo_chain i') /\
    (o = Finished -> members p <> [] -> caught_up p 5 i').
Proof.
  apply (rpc_visit_faithful (demo_node [wire_emitter]) 2 1 (Some 10) None (fun _ => false) (fun _ => false) demo_limits 1 [wire_emitter] 5 2 10 1000 9
           demo_world wire_demo_index ∅ [_; _] wire_demo_index).
  - intros m. apply wire_chain_well_formed, wire_demo_ok.
  - exact wire_demo_ok.
  - intros ts. apply honest_node_truthful, demo_honest.
  - intros b h Hh. by rewrite lookup_empty in Hh.
  - exact demo_index_reachable.
  - exact demo_index_reachable.
  - intros f Hf. rewrite !elem_of_cons, elem_of_nil in Hf. destruct Hf as [-> | [-> | []]]; [apply commit_upgrade|by apply commit_enroll].
Defined.

(** The visit of the witness finishes and stores the log it fetched. *)
Example wire_demo_visit :
  let p := plan_group 1 [wire_emitter] 5 (chain_hash wire_demo_chain) 2 wire_demo_index in
  match run_plan (rpc_pages (demo_node [wire_emitter]) (new_fetcher 2 1 (Some 10) true) None p) (chain_hash wire_demo_chain)
          (fun _ => false) (fun _ => false) p demo_limits 5 10 1000 9 5 ∅
          [_upgrade_to_predicate_hint 1 wire_emitter (hex32 "1"); demo_enrol (hex32 "2") (hex32 "1")] wire_demo_index with
  | Some (o, _, i) => o = Finished /\ logs i !! key_of (1, wire_emitter, hex32 "1") wire_demo = Some (row_of wire_demo)
  | None => False
  end.
Proof. by vm_compute. Qed.

Lemma honest_node_covered_witness :
  let p := plan_group 1 [wire_emitter] 5 (chain_hash wire_demo_chain) 2 wire_demo_index in
  exists ps, iter_pages (demo_node [wire_emitter] [hex32 "1"]) (new_fetcher 2 1 None true) (Some (addresses p)) [Some [hex32 "1"]] (Some 0) 0 1 5 =
      Some (ps, None) /\ tiles 1 (map page_range ps) 5 /\ Forall (truthful wire_demo_chain p [hex32 "1"]) ps.
Proof.
  intros p. assert (addresses p = [wire_emitter]) as Hp by by vm_compute.
  apply (honest_node_covered (demo_node [wire_emitter] [hex32 "1"]) 2 1 (Some 0) wire_demo_chain p [hex32 "1"] 0 1 5);
    [exact wire_demo_ok|rewrite Hp; apply demo_honest|lia].
Defined.

Lemma streamed_scan_exact_witness :
  exists r, visit_logs (demo_node [wire_emitter] [hex32 "1"]) (new_fetcher 2 1 (Some 10) true) (Some [wire_emitter]) [Some [hex32 "1"]] 0 1 5 = Some r /\
    forall ls, r = inr ls -> (forall l, l ∈ ls <-> asked wire_demo_chain [wire_emitter] [hex32 "1"] 1 5 l) /\ NoDup ls.
Proof.
  apply (streamed_scan_exact (demo_node [wire_emitter] [hex32 "1"]) 2 1 (Some 10) [wire_emitter] [hex32 "1"] [Some [hex32 "1"]] wire_demo_chain 0 1 5);
    [exact wire_demo_ok|apply honest_node_truthful, demo_honest].
Defined.
