(* ===== verification/EventFold.v ===== *)
(** * Folds over the durable event index

    [services/resolution/repos/event_logs_pg.py] ([PostgresEventLogRepo]) and the
    live tail of [services/resolution/event_tail.py]: which rows a fold reads,
    when its result is complete, and how events become members and values.

    Hints and key sources are dicts ([pyval] association lists, as JSON has them;
    the [bytes] arm of [_normalize_word] does not occur there).  Metrics and log
    lines are left out. *)

From stdpp Require Import base gmap sets list strings sorting.
From Stdlib Require Import String Ascii ZArith Lia.
From S2P Require Import Prelude PyText EventIndex LogFetch.

Local Open Scope string_scope.
Local Open Scope Z_scope.

Definition hint : Type := list (string * pyval).

(** ** Rows *)

(** What a fold reads of a stored row or of a tail log. *)
Record event_row := mkEventRow {
  er_topic0 : string;
  er_topics : list string;
  er_data_words : list string;
  er_data_hex : option string;
  er_block : Z;
  er_transaction : Z;
  er_log : Z;
}.

(** [_row_topic0] of a stored row is its column, of a log its first topic. *)
Definition stored_row (kr : log_key * IndexedEventLog) : event_row :=
  let '(k, r) := kr in
  mkEventRow (str_lower k.1.2) (row_topics r) (row_data_words r) (row_data_hex r) (row_block_number r)
    (row_transaction_index r) k.2.2.

Definition log_row (l : FetchedEventLog) : event_row :=
  mkEventRow (match topics l with t :: _ => str_lower t | [] => "" end) (topics l) (data_words l) (data_hex l) (block_number l)
    (transaction_index l) (log_index l).

Definition row_is_undecodable (r : event_row) : bool := bool_decide (is_Some (er_data_hex r)).

(** [ORDER BY block_number, transaction_index, log_index] *)
Definition row_position (r : event_row) : Z * Z * Z := (er_block r, er_transaction r, er_log r).

Definition pos_lt (p q : Z * Z * Z) : Prop :=
  let '(a, b, c) := p in let '(a', b', c') := q in a < a' \/ a = a' /\ (b < b' \/ b = b' /\ c < c').

#[export] Instance pos_lt_dec : RelDecision pos_lt.
Proof. intros [[a b] c] [[a' b'] c']. cbn. apply _. Defined.

Definition row_le (r r' : event_row) : Prop := ~ pos_lt (row_position r') (row_position r).

#[export] Instance row_le_dec : RelDecision row_le.
Proof. intros r r'. unfold row_le. apply _. Defined.

(** [block_number <= ceiling], when there is one. *)
Definition under (ceiling : option Z) (b : Z) : Prop := match ceiling with Some c => b <= c | None => True end.

#[export] Instance under_dec c b : Decision (under c b).
Proof. unfold under. destruct c; apply _. Defined.

(** The rows of an emitter's topics through a ceiling, in log order. *)
Definition select_rows (i : index) (chain_id : Z) (event_address : string) (topic0s : list string) (ceiling : option Z) : list event_row :=
  merge_sort row_le (map stored_row (filter (fun kr =>
    kr.1.1.1.1 = chain_id /\ kr.1.1.1.2 = str_lower event_address /\ kr.1.1.2 ∈ topic0s /\
    under ceiling (row_block_number kr.2)) (map_to_list (logs i)))).

(** ** Cursors *)

Definition EXACTNESS_ELIGIBLE_ENROLLMENT_BASES : list (option string) := [None; Some ENROLLMENT_BASIS_PREDICATE_HINT].

Definition enrollment_basis_permits_exactness (basis : option string) : bool :=
  bool_decide (basis ∈ EXACTNESS_ELIGIBLE_ENROLLMENT_BASES).

Definition cursor_permits_exactness (basis first_basis : option string) : bool :=
  enrollment_basis_permits_exactness basis && bool_decide (first_basis = Some FIRST_INDEXED_BASIS_CREATION).

Definition cursor_state (i : index) (chain_id : Z) (event_address topic0 : string) : option Z * bool :=
  match cursors i !! ((chain_id, str_lower event_address, str_lower topic0) : cursor_key) with
  | None => (None, false)
  | Some c =>
      if cursor_permits_exactness (enrollment_basis c) (first_indexed_block_basis c)
      then (Some (last_indexed_block c), backfill_complete c)
      else (Some (last_indexed_block c), false)
  end.

Definition min_indexed_block (i : index) (chain_id : Z) (event_address : string) (topic0s : list string) : option Z :=
  let states := map (cursor_state i chain_id event_address) topic0s in
  if forallb (fun s => match s with (Some _, true) => true | _ => false end) states then z_min_list (omap fst states) else None.

Definition cursor_covers_block (cursor_block block : option Z) : bool :=
  match cursor_block, block with Some c, Some b => b <=? c | _, _ => false end.

Definition row_ceiling (frontier block : option Z) : option Z := match frontier with Some f => Some f | None => block end.

(** ** The tail *)

Record TailScan := mkTail {
  tail_complete : bool;
  tail_from : Z;
  tail_to : Z;
  tail_logs : list FetchedEventLog;
  tail_reason : option string;
}.

Definition TAIL_SCAN_FAILED : string := "tail_scan_failed".
Definition TAIL_SPAN_EXCEEDED : string := "tail_span_exceeded".
Definition TAIL_RESULT_CAP : Z := 10000.

Definition TailScanner : Type := string -> list string -> Z -> Z -> TailScan.

(** [logs.sort(key=...)] *)
Definition log_le (a b : FetchedEventLog) : Prop := row_le (log_row a) (log_row b).

#[export] Instance log_le_dec : RelDecision log_le.
Proof. intros a b. unfold log_le. apply _. Defined.

(** [scan] is the streaming fetch of the range: the logs, or an exception. *)
Definition scan_event_tail (scan : string -> list string -> Z -> Z -> fetch_error + list FetchedEventLog) (max_span : Z) : TailScanner :=
  fun event_address topic0s frontier block =>
    let from := frontier + 1 in
    let failed reason := mkTail false from block [] (Some reason) in
    if block <? from then mkTail true from block [] None
    else
      let ts := sorted_set (map str_lower topic0s) in
      match ts with
      | [] => failed TAIL_SCAN_FAILED
      | _ =>
          if max_span <? block - frontier then failed TAIL_SPAN_EXCEEDED
          else match scan (str_lower event_address) ts from block with
               | inl _ => failed TAIL_SCAN_FAILED
               | inr ls => mkTail true from block (merge_sort log_le ls) None
               end
      end.

Definition complete_with_tail (tail_ : option TailScanner) (event_address : string) (topic0s : list string) (frontier : Z) (block : option Z) :
    option TailScan :=
  match tail_, block with Some t, Some b => Some (t event_address topic0s frontier b) | _, _ => None end.

(** ** Words *)

Definition normalize_word_text (s : string) : option string :=
  let value := str_lower s in
  match str_after "0x" value with
  | None => None
  | Some body =>
      let n := String.length body in
      if bool_decide (n = 8)%nat then Some ("0x" ++ ljust 64 "0" body)
      else if bool_decide (n = 40)%nat then Some ("0x" ++ rjust 64 "0" body)
      else if bool_decide (n = 64)%nat then Some value else None
  end.

Definition normalize_word (raw : pyval) : option string := match raw with PyStr s => normalize_word_text s | _ => None end.

Definition normalize_topic (raw : pyval) : option string :=
  match raw with PyStr s => if str_after "0x" (str_lower s) then Some (str_lower s) else None | _ => None end.

Definition word_to_address (word : option string) : option string :=
  w ← word; n ← normalize_word_text w; Some ("0x" ++ str_last 40 n).

(** [_int_items]: pairs that do not convert are skipped. *)
Definition int_items (mapping : pyval) : list (Z * Z) :=
  match mapping with
  | PyDict d => omap (fun kv => k ← int_text 10 kv.1; v ← py_int kv.2; Some (k, v)) d
  | _ => []
  end.

Definition nth_word (words : list string) (p : Z) : option string :=
  if (0 <=? p) && (p <? Z.of_nat (List.length words)) then words !! Z.to_nat p else None.

Definition put_keys (words : list string) (items : list (Z * Z)) (out : gmap Z string) : gmap Z string :=
  foldl (fun out kv => match nth_word words kv.1 with
                       | Some w => match normalize_word_text w with Some w => <[kv.2 := w]> out | None => out end
                       | None => out
                       end) out items.

Definition event_keys (ts data_words_ : list string) (topics_to_keys data_to_keys : pyval) : gmap Z string :=
  put_keys data_words_ (int_items data_to_keys) (put_keys ts (int_items topics_to_keys) ∅).

Definition py_list (v : pyval) : list pyval := match v with PyList l => l | _ => [] end.

(** [sorted({int(p) for p in ...})] *)
Definition z_sorted_set (l : list Z) : list Z := merge_sort Z.le (elements (list_to_set (C := gset Z) l)).

Fixpoint list_index (x : Z) (l : list Z) : option nat :=
  match l with [] => None | y :: l => if decide (x = y) then Some O else S <$> list_index x l end.

Definition word_at_event_arg (ts data_words_ : list string) (position : Z) (h : hint) : option string :=
  let indexed := z_sorted_set (omap py_int (py_list (py_get "indexed_positions" h))) in
  match list_index position indexed with
  | Some rank => w ← nth_word ts (1 + Z.of_nat rank); normalize_word_text w
  | None =>
      let data_rank := List.length (filter (fun p => p ∉ indexed) (seqZ 0 position)) in
      w ← nth_word data_words_ (Z.of_nat data_rank); normalize_word_text w
  end.

(** ** Keys *)

Definition CALLER_SOURCES : list string := ["msg_sender"; "tx_origin"; "signature_recovery"; "root_caller"].

Definition is_caller_source (source : hint) : bool :=
  match py_get "source" source with PyStr s => bool_decide (s ∈ CALLER_SOURCES) | _ => false end.

Fixpoint caller_key_from (idx : Z) (key_sources : list hint) : option Z :=
  match key_sources with
  | [] => None
  | s :: rest => if is_caller_source s then Some idx else caller_key_from (idx + 1) rest
  end.

Definition caller_key_index (key_sources : list hint) : option Z := caller_key_from 0 key_sources.

Definition constant_word (source : hint) : option string :=
  match normalize_word (py_get "constant_value" source) with
  | Some w => Some w
  | None =>
      let direct := if py_eq_str (py_get "source" source) "constant" then normalize_word (py_get "value" source) else None in
      match direct with
      | Some w => Some w
      | None =>
          match py_get "role_domain" source with
          | PyDict d =>
              if py_eq_str (py_get "kind" d) "constant_set"
              then match py_list (py_get "values" d) with [v] => normalize_word v | _ => None end else None
          | _ => None
          end
      end
  end.

Fixpoint constant_filters_from (idx member_key : Z) (key_sources : list hint) : option (list (Z * string)) :=
  match key_sources with
  | [] => Some []
  | s :: rest =>
      if idx =? member_key then constant_filters_from (idx + 1) member_key rest
      else match constant_word s with
           | None => None
           | Some w => fs ← constant_filters_from (idx + 1) member_key rest; Some ((idx, w) :: fs)
           end
  end.

Definition constant_key_filters (key_sources : list hint) (member_key : Z) : option (list (Z * string)) :=
  constant_filters_from 0 member_key key_sources.

Definition filters_pass (keys : gmap Z string) (filters : list (Z * string)) : bool :=
  forallb (fun kf => bool_decide (keys !! kf.1 = Some kf.2)) filters.

(** ** Results *)

Inductive confidence_ := Enumerable | Partial.

Record EnumerationResult := mkEnumeration {
  members_ : list string;
  confidence : confidence_;
  partial_reason : option string;
  result_block : option Z;
  scan_window : option (Z * Z);
}.

Definition partial (ms : list string) (reason : string) (b : option Z) : EnumerationResult := mkEnumeration ms Partial (Some reason) b None.

Definition UNRESOLVED_EVENT_KEY : string := "unresolved_event_key".
Definition UNDECODABLE_EVENT_DATA : string := "undecodable_event_data".
Definition AMBIGUOUS_EVENT_DIRECTION : string := "ambiguous_event_direction".
Definition UNFOLDABLE_WRITER_EVENT : string := "unfoldable_writer_event".
Definition NO_INDEX_CURSOR : string := "no_index_cursor".
Definition UNPINNED_BLOCK : string := "unpinned_block".
Definition CURSOR_BEHIND_BLOCK : string := "cursor_behind_block".

(** [sorted(addr for addr, present in state.items() if present)] *)
Definition present_members (state : gmap string bool) : list string :=
  merge_sort str_le (map fst (filter (fun ab => ab.2 = true) (map_to_list state))).

(** ** One topic *)

Fixpoint apply_writes (member_key : Z) (filters : list (Z * string)) (t2k d2k : pyval) (rows : list event_row) (state : gmap string bool) :
    option (gmap string bool) :=
  match rows with
  | [] => Some state
  | r :: rows =>
      if row_is_undecodable r then None
      else
        let keys := event_keys (er_topics r) (er_data_words r) t2k d2k in
        apply_writes member_key filters t2k d2k rows
          (if filters_pass keys filters
           then match word_to_address (keys !! member_key) with Some m => <[m := true]> state | None => state end
           else state)
  end.

Definition fold_event_writes (i : index) (chain_id : Z) (event_address topic0 : string) (t2k d2k : pyval) (key_sources : list hint)
    (block : option Z) (tail_ : option TailScanner) : EnumerationResult :=
  match caller_key_index key_sources with
  | None => partial [] UNRESOLVED_EVENT_KEY None
  | Some member_key =>
      match constant_key_filters key_sources member_key with
      | None => partial [] UNRESOLVED_EVENT_KEY None
      | Some filters =>
          let (cursor_block, complete) := cursor_state i chain_id event_address topic0 in
          let rows := select_rows i chain_id event_address [str_lower topic0] (row_ceiling cursor_block block) in
          match apply_writes member_key filters t2k d2k rows ∅ with
          | None => partial [] UNDECODABLE_EVENT_DATA None
          | Some state =>
              match cursor_block with
              | Some c =>
                  if negb complete then partial (present_members state) NO_INDEX_CURSOR None
                  else if cursor_covers_block cursor_block block
                  then mkEnumeration (present_members state) Enumerable None (Some c) None
                  else
                    match complete_with_tail tail_ event_address [str_lower topic0] c block with
                    | Some scan =>
                        if tail_complete scan
                        then match apply_writes member_key filters t2k d2k (map log_row (tail_logs scan)) state with
                             | None => partial [] UNDECODABLE_EVENT_DATA None
                             | Some state =>
                                 mkEnumeration (present_members state) Enumerable None block (Some (tail_from scan, tail_to scan))
                             end
                        else partial (present_members state) TAIL_SCAN_FAILED (Some c)
                    | None => partial (present_members state) CURSOR_BEHIND_BLOCK (Some c)
                    end
              | None => partial (present_members state) NO_INDEX_CURSOR None
              end
          end
      end
  end.

(** ** Add and remove *)

Definition direction_of (h : hint) : pyval := py_get "direction" h.

Definition is_add (h : hint) : bool := py_eq_str (direction_of h) "add".

Definition add_or_remove (h : hint) : bool := is_add h || py_eq_str (direction_of h) "remove".

(** [out.setdefault(topic0, []).append(hint)] *)
Definition group_hint (topic : hint -> option string) (out : gmap string (list hint)) (h : hint) : gmap string (list hint) :=
  match topic h with
  | Some t => <[t := (default [] (out !! t) ++ [h])%list]> out
  | None => out
  end.

Definition event_hints_by_topic (event_hints : list hint) : gmap string (list hint) :=
  foldl (group_hint (fun h => if add_or_remove h then normalize_topic (py_get "topic0" h) else None)) ∅ event_hints.

Inductive fold_mode := ByHint | ByPayload (value_hint : hint).

(** The mode of one topic; [None] when its direction is ambiguous. *)
Definition topic_fold_mode (hs : list hint) : option fold_mode :=
  if forallb is_add hs || forallb (fun h => negb (is_add h)) hs then Some ByHint
  else match List.filter (fun h => match py_get "value_position" h with PyNone => false | _ => true end) hs with
       | h :: _ => Some (ByPayload h)
       | [] => None
       end.

Definition topic_fold_modes (by_topic : gmap string (list hint)) : gmap string fold_mode * bool :=
  (omap topic_fold_mode by_topic, existsb (fun th => negb (bool_decide (is_Some (topic_fold_mode th.2)))) (map_to_list by_topic)).

Definition payload_membership (ts data_words_ : list string) (h : hint) : option bool :=
  position ← py_int (py_get "value_position" h);
  w ← word_at_event_arg ts data_words_ position h;
  z ← int_text 16 w;
  Some (negb (z =? 0)).

Inductive fold_stop := StopUndecodable | StopUndecidable.

(** What one hint writes for one row: nothing, a membership, or a stop. *)
Definition hint_write (member_key : Z) (filters : list (Z * string)) (payload : bool) (r : event_row) (h : hint) :
    fold_stop + option (string * bool) :=
  let keys := event_keys (er_topics r) (er_data_words r) (py_get "topics_to_keys" h) (py_get "data_to_keys" h) in
  if filters_pass keys filters
  then match word_to_address (keys !! member_key) with
       | None => inr None
       | Some m =>
           if payload
           then match payload_membership (er_topics r) (er_data_words r) h with
                | None => inl StopUndecidable
                | Some present => inr (Some (m, present))
                end
           else inr (Some (m, is_add h))
       end
  else inr None.

Fixpoint hint_writes (member_key : Z) (filters : list (Z * string)) (payload : bool) (r : event_row) (hs : list hint) :
    fold_stop + list (string * bool) :=
  match hs with
  | [] => inr []
  | h :: hs =>
      match hint_write member_key filters payload r h with
      | inl e => inl e
      | inr w =>
          match hint_writes member_key filters payload r hs with
          | inl e => inl e
          | inr ws => inr (match w with Some x => x :: ws | None => ws end)
          end
      end
  end.

(** The memberships a row writes, in order. *)
Definition row_writes (member_key : Z) (filters : list (Z * string)) (by_topic : gmap string (list hint)) (r : event_row) :
    fold_stop + list (string * bool) :=
  match by_topic !! er_topic0 r with
  | None => inr []
  | Some hs =>
      match topic_fold_mode hs with
      | None => inr []
      | Some mode =>
          if row_is_undecodable r then inl StopUndecodable
          else match mode with
               | ByHint => hint_writes member_key filters false r hs
               | ByPayload h => hint_writes member_key filters true r [h]
               end
      end
  end.

Definition write_all (ws : list (string * bool)) (state : gmap string bool) : gmap string bool :=
  foldl (fun st mb => <[mb.1 := mb.2]> st) state ws.

Fixpoint apply_history (member_key : Z) (filters : list (Z * string)) (by_topic : gmap string (list hint)) (rows : list event_row)
    (state : gmap string bool) : fold_stop + gmap string bool :=
  match rows with
  | [] => inr state
  | r :: rows =>
      match row_writes member_key filters by_topic r with
      | inl e => inl e
      | inr ws => apply_history member_key filters by_topic rows (write_all ws state)
      end
  end.

Definition stop_result (e : fold_stop) : EnumerationResult :=
  partial [] (match e with StopUndecodable => UNDECODABLE_EVENT_DATA | StopUndecidable => AMBIGUOUS_EVENT_DIRECTION end) None.

(** [sorted(hints_by_topic)] *)
Definition topic_list (by_topic : gmap string (list hint)) : list string := merge_sort str_le (map fst (map_to_list by_topic)).

(** The least and the most advanced cursors: [(complete_blocks, warm_block, frontier)]. *)
Definition complete_blocks (states : list (option Z * bool)) : list Z :=
  omap (fun s => match s with (Some b, true) => Some b | _ => None end) states.

Definition warm_block (states : list (option Z * bool)) : option Z :=
  if bool_decide (List.length (complete_blocks states) = List.length states) then z_min_list (complete_blocks states) else None.

Definition max_frontier (states : list (option Z * bool)) : option Z := z_max_list (omap fst states).

Definition fold_event_history (i : index) (chain_id : Z) (event_address : string) (event_hints key_sources : list hint)
    (block : option Z) (tail_ : option TailScanner) : EnumerationResult :=
  match caller_key_index key_sources with
  | None => partial [] UNRESOLVED_EVENT_KEY None
  | Some member_key =>
      match constant_key_filters key_sources member_key with
      | None => partial [] UNRESOLVED_EVENT_KEY None
      | Some filters =>
          let by_topic := event_hints_by_topic event_hints in
          if bool_decide (by_topic = ∅) then partial [] UNRESOLVED_EVENT_KEY None
          else if (topic_fold_modes by_topic).2 then partial [] AMBIGUOUS_EVENT_DIRECTION None
          else
            let topic0s := topic_list by_topic in
            let states := map (cursor_state i chain_id event_address) topic0s in
            let warm := warm_block states in
            let behind := bool_decide (is_Some warm) && negb (cursor_covers_block warm block) in
            let ceiling := if behind then warm else row_ceiling (max_frontier states) block in
            match apply_history member_key filters by_topic (select_rows i chain_id event_address topic0s ceiling) ∅ with
            | inl e => stop_result e
            | inr state =>
                match warm with
                | None => partial (present_members state) NO_INDEX_CURSOR (z_min_list (complete_blocks states))
                | Some w =>
                    if behind
                    then match complete_with_tail tail_ event_address topic0s w block with
                         | None => partial (present_members state) CURSOR_BEHIND_BLOCK (Some w)
                         | Some scan =>
                             if tail_complete scan
                             then match apply_history member_key filters by_topic (map log_row (tail_logs scan)) state with
                                  | inl e => stop_result e
                                  | inr state =>
                                      mkEnumeration (present_members state) Enumerable None block (Some (tail_from scan, tail_to scan))
                                  end
                             else partial (present_members state) TAIL_SCAN_FAILED (Some w)
                         end
                    else mkEnumeration (present_members state) Enumerable None (Some w) None
                end
            end
      end
  end.

(** ** Raw rows and logs *)

(** [None]: [UndecodableEventRow]. *)
Definition iter_event_rows (i : index) (chain_id : Z) (event_address : string) (topic0s : list string) (block : option Z) :
    option (list event_row) :=
  let lowered := map str_lower topic0s in
  match lowered with
  | [] => Some []
  | _ =>
      let rows := select_rows i chain_id event_address lowered block in
      if existsb row_is_undecodable rows then None else Some rows
  end.

Record IndexedLogs := mkIndexedLogs {
  read_logs : list event_row;
  read_complete : bool;
  read_reason : option string;
  read_block : option Z;
}.

Definition logs_through_block (i : index) (chain_id : Z) (event_address : string) (topic0s : list string) (block : option Z)
    (tail_ : option TailScanner) : option IndexedLogs :=
  let ts := sorted_set (map str_lower topic0s) in
  let states := map (cursor_state i chain_id event_address) ts in
  if bool_decide (ts = []) || negb (forallb (fun s => match s with (Some _, true) => true | _ => false end) states)
  then Some (mkIndexedLogs [] false (Some NO_INDEX_CURSOR) None)
  else
    match block with
    | None => Some (mkIndexedLogs [] false (Some UNPINNED_BLOCK) None)
    | Some b =>
        match z_min_list (omap fst states) with
        | None => Some (mkIndexedLogs [] false (Some NO_INDEX_CURSOR) None)
        | Some w =>
            if b <=? w
            then (fun rows => mkIndexedLogs rows true None (Some w)) <$>
                   iter_event_rows i chain_id event_address ts (max_frontier states)
            else
              rows ← iter_event_rows i chain_id event_address ts (Some w);
              match tail_ with
              | None => Some (mkIndexedLogs [] false (Some CURSOR_BEHIND_BLOCK) (Some w))
              | Some t =>
                  let scan := t (str_lower event_address) ts w b in
                  if tail_complete scan
                  then let ls := map log_row (tail_logs scan) in
                       if existsb row_is_undecodable ls then None
                       else Some (mkIndexedLogs (rows ++ ls)%list true None (Some b))
                  else Some (mkIndexedLogs [] false (Some (or_text (tail_reason scan) CURSOR_BEHIND_BLOCK)) (Some w))
              end
        end
    end.

(** ** Values *)

(** [services/resolution/mapping_enumerator.py] *)
Definition value_writer_spec_foldable (h : hint) : bool :=
  match py_get "value_position" h with PyNone => py_eq_str (direction_of h) "remove" | _ => true end.

Definition value_hints_by_topic (value_hints : list hint) : gmap string (list hint) :=
  foldl (group_hint (fun h => normalize_topic (py_get "topic0" h))) ∅ value_hints.

(** [True == 1] *)
Definition py_num (v : pyval) : pyval := match v with PyBool b => PyInt (if b then 1 else 0) | v => v end.

Definition value_reading (h : hint) : string * string * string :=
  (json_text (py_num (py_get "value_position" h)), json_text (py_or (py_get "topics_to_keys" h) (PyDict [])),
   json_text (py_or (py_get "data_to_keys" h) (PyDict []))).

Definition readings_agree (hs : list hint) : bool :=
  match hs with h :: hs => forallb (fun h' => bool_decide (value_reading h' = value_reading h)) hs | [] => true end.

Definition ZERO_WORD : string := "0x" ++ str_repeat "0" 64.

(** [member -> (value_hex, block, tx_index, log_index)], in insertion order. *)
Definition value_state : Type := list (string * (string * (Z * Z * Z))).

(** [state[member] = v]: an existing key keeps its place. *)
Fixpoint dict_put {A} (k : string) (v : A) (d : list (string * A)) : list (string * A) :=
  match d with
  | [] => [(k, v)]
  | (k', v') :: d => if decide (k = k') then (k, v) :: d else (k', v') :: dict_put k v d
  end.

Inductive value_stop := ValueUndecodable | ValueUncaught.

(** Where a fold finds the caller: an argument position, or the key map with
    the constant filters. *)
Inductive key_mode := ByPosition (position : Z) | ByKeys (member_key : Z) (filters : list (Z * string)).

(** A reading of one row by one hint; [None] when the filters skip it. *)
Definition hint_reading (mode : key_mode) (r : event_row) (h : hint) : value_stop + option (string * string) :=
  let value : value_stop + option string :=
    match py_get "value_position" h with
    | PyNone => inr (Some ZERO_WORD)
    | v => match py_int v with
           | Some p => inr (word_at_event_arg (er_topics r) (er_data_words r) p h)
           | None => inl ValueUncaught
           end
    end in
  let reading (member : option string) : value_stop + option (string * string) :=
    match value with
    | inl e => inl e
    | inr v => match member, v with Some m, Some w => inr (Some (m, w)) | _, _ => inl ValueUndecodable end
    end in
  match mode with
  | ByPosition p => reading (word_to_address (word_at_event_arg (er_topics r) (er_data_words r) p h))
  | ByKeys member_key filters =>
      let keys := event_keys (er_topics r) (er_data_words r) (py_get "topics_to_keys" h) (py_get "data_to_keys" h) in
      if filters_pass keys filters then reading (word_to_address (keys !! member_key)) else inr None
  end.

(** Later positions replace earlier ones. *)
Definition put_reading (r : event_row) (mw : string * string) (state : value_state) : value_state :=
  match assoc_get mw.1 state with
  | Some (_, prior) => if decide (pos_lt prior (row_position r)) then dict_put mw.1 (mw.2, row_position r) state else state
  | None => dict_put mw.1 (mw.2, row_position r) state
  end.

Fixpoint apply_row_values (mode : key_mode) (r : event_row) (hs : list hint) (state : value_state) : value_stop + value_state :=
  match hs with
  | [] => inr state
  | h :: hs =>
      match hint_reading mode r h with
      | inl e => inl e
      | inr None => apply_row_values mode r hs state
      | inr (Some mw) => apply_row_values mode r hs (put_reading r mw state)
      end
  end.

Fixpoint apply_values (mode : key_mode) (by_topic : gmap string (list hint)) (rows : list event_row) (state : value_state) :
    value_stop + value_state :=
  match rows with
  | [] => inr state
  | r :: rows =>
      match by_topic !! er_topic0 r with
      | None => apply_values mode by_topic rows state
      | Some hs =>
          if row_is_undecodable r then inl ValueUndecodable
          else match apply_row_values mode r hs state with
               | inl e => inl e
               | inr state => apply_values mode by_topic rows state
               end
      end
  end.

Record value_entry := mkEntry { entry_key : string; entry_value : string; entry_block : Z }.

Record ValueFoldResult := mkValues {
  entries : list value_entry;
  values_complete : bool;
  values_reason : option string;
  values_block : option Z;
  values_window : option (Z * Z);
}.

Definition incomplete (reason : string) : ValueFoldResult := mkValues [] false (Some reason) None None.

Definition entries_of (state : value_state) : list value_entry := map (fun mv => mkEntry mv.1 mv.2.1 mv.2.2.1.1) state.

(** [None]: an exception the fold does not catch (a position that is no number). *)
Definition value_stop_result (e : value_stop) : option ValueFoldResult :=
  match e with ValueUndecodable => Some (incomplete UNDECODABLE_EVENT_DATA) | ValueUncaught => None end.

Definition value_key_mode (key_sources : list hint) (fold_key_position : option Z) : option key_mode :=
  match fold_key_position with
  | Some p => Some (ByPosition p)
  | None => m ← caller_key_index key_sources; fs ← constant_key_filters key_sources m; Some (ByKeys m fs)
  end.

Definition fold_event_values (i : index) (chain_id : Z) (event_address : string) (value_hints key_sources : list hint)
    (fold_key_position : option Z) (block : option Z) (tail_ : option TailScanner) : option ValueFoldResult :=
  match value_key_mode key_sources fold_key_position with
  | None => Some (incomplete UNRESOLVED_EVENT_KEY)
  | Some mode =>
      if negb (forallb value_writer_spec_foldable value_hints) then Some (incomplete UNFOLDABLE_WRITER_EVENT)
      else
        let by_topic := value_hints_by_topic value_hints in
        if bool_decide (by_topic = ∅) then Some (incomplete UNRESOLVED_EVENT_KEY)
        else if existsb (fun th => negb (readings_agree th.2)) (map_to_list by_topic) then Some (incomplete AMBIGUOUS_EVENT_DIRECTION)
        else
          let topic0s := topic_list by_topic in
          let states := map (cursor_state i chain_id event_address) topic0s in
          match warm_block states with
          | None => Some (incomplete NO_INDEX_CURSOR)
          | Some w =>
              let behind := negb (cursor_covers_block (Some w) block) in
              let ceiling := if behind then Some w else max_frontier states in
              match iter_event_rows i chain_id event_address topic0s ceiling with
              | None => Some (incomplete UNDECODABLE_EVENT_DATA)
              | Some rows =>
                  match apply_values mode by_topic rows [] with
                  | inl e => value_stop_result e
                  | inr state =>
                      if behind
                      then match complete_with_tail tail_ event_address topic0s w block with
                           | None => Some (mkValues (entries_of state) false (Some CURSOR_BEHIND_BLOCK) (Some w) None)
                           | Some scan =>
                               if tail_complete scan
                               then match apply_values mode by_topic (map log_row (tail_logs scan)) state with
                                    | inl e => value_stop_result e
                                    | inr state =>
                                        Some (mkValues (entries_of state) true None block (Some (tail_from scan, tail_to scan)))
                                    end
                               else Some (mkValues (entries_of state) false (Some TAIL_SCAN_FAILED) (Some w) None)
                           end
                      else Some (mkValues (entries_of state) true None (Some w) None)
                  end
              end
          end
  end.
