(* ===== verification/EventFoldTheory.v ===== *)
(** * A fold over the index is a fold over the chain

    The rows a fold reads are exactly the chain's logs of its emitter and topics
    through each topic's cursor, and a complete tail continues them in log order;
    so a result published as complete is the one the chain's own history gives. *)

From stdpp Require Import base gmap sets list strings sorting.
From Stdlib Require Import String Ascii ZArith Lia.
From S2P Require Import Prelude PyText EventIndex EventIndexTheory LogFetch LogFetchTheory EventFold.

Local Open Scope string_scope.
Local Open Scope Z_scope.

(** ** Log order *)

Lemma row_le_spec r r' : row_le r r' <-> pos_lt (row_position r) (row_position r') \/ row_position r = row_position r'.
Proof.
  unfold row_le, pos_lt, row_position. split; [|intros [H|[= -> -> ->]]; lia].
  intros H. destruct (decide (er_block r = er_block r')) as [E1|]; [|lia].
  destruct (decide (er_transaction r = er_transaction r')) as [E2|]; [|lia].
  destruct (decide (er_log r = er_log r')) as [E3|]; [|lia]. right. congruence.
Qed.

#[export] Instance row_le_trans : Transitive row_le.
Proof. intros x y z. unfold row_le, pos_lt, row_position. lia. Qed.

#[export] Instance row_le_total : Total row_le.
Proof. intros x y. unfold row_le, pos_lt, row_position. lia. Qed.

#[export] Instance log_le_trans : Transitive log_le.
Proof. intros x y z. apply row_le_trans. Qed.

#[export] Instance log_le_total : Total log_le.
Proof. intros x y. apply row_le_total. Qed.

(** Rows whose position identifies them. *)
Definition positioned (rows : list event_row) : Prop :=
  forall r r', r ∈ rows -> r' ∈ rows -> row_position r = row_position r' -> r = r'.

Lemma row_le_antisym r r' : row_le r r' -> row_le r' r -> row_position r = row_position r'.
Proof. rewrite !row_le_spec. unfold pos_lt, row_position. intros [H|H] [H'|H']; try congruence. lia. Qed.

Lemma sorted_unique l1 l2 : positioned l1 -> StronglySorted row_le l1 -> StronglySorted row_le l2 -> l1 ≡ₚ l2 -> l1 = l2.
Proof.
  intros Hp H1 H2 Heq. apply (StronglySorted_unique_strong row_le); [|done..].
  intros r r' Hr Hr' Hle Hle'. apply Hp; [done|by rewrite Heq|by apply row_le_antisym].
Qed.

(** ** The chain's history of an emitter *)

(** The logs of an emitter's topics, each topic through its own height. *)
Definition in_history (a : string) (ts : list string) (upto : string -> Z) (l : FetchedEventLog) : Prop :=
  log_address l = a /\ match log_topic0 l with Some t => t ∈ ts /\ block_number l <= upto t | None => False end.

#[export] Instance in_history_dec a ts upto l : Decision (in_history a ts upto l).
Proof. unfold in_history. destruct (log_topic0 l); apply _. Defined.

(** In log order. *)
Definition history (ch : chain) (a : string) (ts : list string) (upto : string -> Z) : list event_row :=
  merge_sort row_le (map log_row (filter (in_history a ts upto) (chain_logs ch))).

(** The part of it between two heights. *)
Definition in_range (a : string) (ts : list string) (lo hi : Z) (l : FetchedEventLog) : Prop :=
  log_address l = a /\ lo < block_number l <= hi /\ match log_topic0 l with Some t => t ∈ ts | None => False end.

#[export] Instance in_range_dec a ts lo hi l : Decision (in_range a ts lo hi l).
Proof. unfold in_range. destruct (log_topic0 l); apply _. Defined.

Definition recent (ch : chain) (a : string) (ts : list string) (lo hi : Z) : list event_row :=
  merge_sort row_le (map log_row (filter (in_range a ts lo hi) (chain_logs ch))).

(** A chain's logs: each once, none contradicting another. *)
Record ledger (ch : chain) : Prop := {
  ledger_once : NoDup (chain_logs ch);
  ledger_consistent : consistent (chain_logs ch);
}.

Lemma ledger_positioned ch (P : FetchedEventLog -> Prop) `{!forall l, Decision (P l)} :
  ledger ch -> positioned (map log_row (filter P (chain_logs ch))).
Proof.
  intros [_ Hc] r r' (l & -> & [_ Hl]%list_elem_of_filter)%list_elem_of_fmap (l' & -> & [_ Hl']%list_elem_of_filter)%list_elem_of_fmap.
  unfold row_position. cbn. intros [= Hb _ Hi]. destruct (Hc l l' Hl Hl') as (H1 & H2 & _). by rewrite H1 by by apply H2.
Qed.

Lemma positioned_perm l1 l2 : l1 ≡ₚ l2 -> positioned l1 -> positioned l2.
Proof. intros Heq Hp r r' Hr Hr'. apply Hp; by rewrite Heq. Qed.

(** Sorting does not depend on the order the rows come in. *)
Lemma sort_perm l1 l2 : positioned l1 -> l1 ≡ₚ l2 -> merge_sort row_le l1 = merge_sort row_le l2.
Proof.
  intros Hp Heq. apply sorted_unique; [|apply StronglySorted_merge_sort; apply _..|].
  - eapply positioned_perm; [|exact Hp]. symmetry. apply merge_sort_Permutation.
  - by rewrite !merge_sort_Permutation.
Qed.

(** A history continues where another ends. *)
Lemma history_continues ch a ts lo hi :
  ledger ch -> lo <= hi -> (history ch a ts (fun _ => lo) ++ recent ch a ts lo hi)%list = history ch a ts (fun _ => hi).
Proof.
  intros Hl Hlo. unfold history, recent. set (A := filter _ _). set (B := filter _ _). set (C := filter (in_history a ts (fun _ => hi)) _).
  assert ((A ++ B)%list ≡ₚ C) as Hperm.
  { apply NoDup_Permutation.
    - apply NoDup_app. split_and!; [by apply NoDup_filter, ledger_once| |by apply NoDup_filter, ledger_once].
      intros l [[_ H1] _]%list_elem_of_filter [(_ & Hb & _) _]%list_elem_of_filter. destruct (log_topic0 l); [lia|done].
    - by apply NoDup_filter, ledger_once.
    - intros l. rewrite elem_of_app. unfold A, B, C. rewrite !list_elem_of_filter. unfold in_history, in_range.
      destruct (log_topic0 l); [|naive_solver]. destruct (decide (block_number l <= lo)); naive_solver lia. }
  apply sorted_unique.
  - eapply positioned_perm; [|apply (ledger_positioned ch (in_history a ts (fun _ => hi)) Hl)].
    rewrite !merge_sort_Permutation. fold C. by rewrite <- map_app, Hperm.
  - apply StronglySorted_app_2; [|apply StronglySorted_merge_sort; apply _..].
    intros r r'. rewrite !merge_sort_Permutation.
    intros (l & -> & [[_ H1] _]%list_elem_of_filter)%list_elem_of_fmap (l' & -> & [(_ & Hb & _) _]%list_elem_of_filter)%list_elem_of_fmap.
    destruct (log_topic0 l); [|done]. unfold row_le, pos_lt, row_position. cbn. lia.
  - apply StronglySorted_merge_sort; apply _.
  - by rewrite !merge_sort_Permutation, <- map_app, Hperm.
Qed.

Lemma omap_cons {A B} (f : A -> option B) x (l : list A) :
  omap f (x :: l) = match f x with Some y => y :: omap f l | None => omap f l end.
Proof. done. Qed.

Lemma omap_length_le {A B} (f : A -> option B) (l : list A) : (List.length (omap f l) <= List.length l)%nat.
Proof. induction l as [|x l IH]; [done|]. rewrite omap_cons. destruct (f x); cbn [List.length]; lia. Qed.

(** Nothing was dropped. *)
Lemma omap_full {A B} (f : A -> option B) (l : list A) x : List.length (omap f l) = List.length l -> x ∈ l -> is_Some (f x).
Proof.
  induction l as [|y l IH]; intros Hl Hx; [by apply not_elem_of_nil in Hx|]. pose proof (omap_length_le f l) as Hle.
  rewrite omap_cons in Hl. destruct (f y) as [z|] eqn:Ey; cbn [List.length] in Hl; [|lia].
  apply elem_of_cons in Hx as [->|Hx]; [by rewrite Ey|]. apply IH; [by injection Hl|done].
Qed.

(** ** Rows of a faithful index *)

(** The creation witness: a cursor that cites it was seeded below every log of
    its emitter. *)
Definition floor_witnessed (ch : chain) (i : index) (n : Z) (a : string) : Prop :=
  forall t c, cursors i !! ((n, a, t) : cursor_key) = Some c -> first_indexed_block_basis c = Some FIRST_INDEXED_BASIS_CREATION ->
    exists seed, enrolled_seed_block c = Some seed /\ forall l, l ∈ chain_logs ch -> log_address l = a -> seed < block_number l.

(** What the folds assume of the index for one emitter. *)
Record indexed (ch : chain) (i : index) (n : Z) (a : string) : Prop := {
  indexed_ledger : ledger ch;
  indexed_faithful : faithful (fun k => k.1 = (n, a)) ch i;
  indexed_floor : floor_witnessed ch i n a;
}.

Section Index.
Variable ch : chain.
Variable i : index.
Variable n : Z.
Variable event_address : string.
Notation a := (str_lower event_address).
Hypothesis idx : indexed ch i n a.

Definition log_entry (l : FetchedEventLog) : log_key * IndexedEventLog := (key_of (n, a, default "" (log_topic0 l)) l, row_of l).

Lemma stored_entry l t : log_topic0 l = Some t -> stored_row (log_entry l) = log_row l.
Proof.
  unfold log_entry. intros Ht. rewrite Ht. cbn. unfold log_row, log_topic0 in *. destruct (topics l) as [|t0 r] eqn:E; [done|].
  cbn in Ht. injection Ht as <-. by rewrite str_lower_idemp.
Qed.

(** A cursor that may support an exact result. *)
Definition warm (t : string) (c : IndexedEventCursor) : Prop :=
  cursors i !! ((n, a, t) : cursor_key) = Some c /\ first_indexed_block_basis c = Some FIRST_INDEXED_BASIS_CREATION.

Lemma select_history ts ceiling upto :
  (forall t, t ∈ ts -> exists c, warm t c /\ upto t = Z.min ceiling (last_indexed_block c)) ->
  select_rows i n event_address ts (Some ceiling) = history ch a ts upto.
Proof.
  intros Hts. destruct idx as [Hl Hf Hfl]. unfold select_rows, history.
  set (A := filter _ (map_to_list (logs i))). set (B := filter _ (chain_logs ch)).
  assert (A ≡ₚ map log_entry B) as Hperm.
  { apply NoDup_Permutation.
    - apply NoDup_filter, NoDup_map_to_list.
    - apply NoDup_fmap_2_strong; [|by apply NoDup_filter, ledger_once].
      intros l l' [_ Hin]%list_elem_of_filter [_ Hin']%list_elem_of_filter [= _ Ht Hi _].
      apply (ledger_consistent _ Hl l l' Hin Hin'). unfold identity. congruence.
    - intros [[k [h m]] r]. unfold A. rewrite list_elem_of_filter, elem_of_map_to_list, list_elem_of_fmap. cbn [fst snd]. split.
      + intros ((Hn & Ha & Ht & Hu) & Hr). destruct k as [[n0 a0] t0]. cbn in Hn, Ha, Ht. subst n0 a0.
        destruct (faithful_rows _ _ _ Hf (n, a, t0) h m r eq_refl Hr) as (c & Hc & l & Hlc & [Hla Hlt] & <- & <- & <- & Hb).
        exists l. cbn in Hla, Hlt. split; [unfold log_entry; by rewrite Hlt|]. apply list_elem_of_filter. split; [|done]. split; [done|].
        rewrite Hlt. split; [done|]. destruct (Hts t0 Ht) as (c' & [Hc' _] & ->). cbn in Hu. rewrite Hc in Hc'. injection Hc' as <-. lia.
      + intros (l & [= -> -> -> ->] & [[Hla Hlt] Hlc]%list_elem_of_filter). destruct (log_topic0 l) as [t|] eqn:Et; [|done]. cbn.
        destruct Hlt as [Ht Hb]. destruct (Hts t Ht) as (c & [Hc Hbasis] & Hup).
        split; [split_and!; [done|done|done|cbn; lia]|].
        destruct (Hfl t c Hc Hbasis) as (seed & Hseed & Habove). specialize (Habove l Hlc Hla).
        apply (faithful_covers _ _ _ Hf (n, a, t) c eq_refl Hc l seed Hseed Hlc); [by split|]. lia. }
  assert (map stored_row (map log_entry B) = map log_row B) as Hmap.
  { rewrite map_map. apply map_ext_in. intros l [[_ Hlt] _]%list_elem_of_In%list_elem_of_filter.
    destruct (log_topic0 l) as [t|] eqn:Et; [|done]. by apply (stored_entry l t). }
  symmetry. apply sort_perm; [by apply ledger_positioned|]. rewrite <- Hmap. by rewrite Hperm.
Qed.

(** *** Cursor states *)

Lemma cursor_state_warm t c :
  str_lower t = t -> cursor_state i n event_address t = (Some c, true) ->
  exists cur, warm t cur /\ last_indexed_block cur = c /\ backfill_complete cur = true.
Proof.
  intros Hlow. unfold cursor_state. rewrite Hlow. destruct (cursors i !! _) as [cur|] eqn:E; [|done].
  destruct (cursor_permits_exactness _ _) eqn:Ep; [|done]. intros [= <- Hb]. exists cur. split_and!; [|done|done]. split; [done|].
  apply andb_true_iff in Ep as [_ Ep]. by apply bool_decide_eq_true in Ep.
Qed.

Definition height (t : string) : Z :=
  match cursors i !! ((n, a, t) : cursor_key) with Some c => last_indexed_block c | None => 0 end.

(** Every cursor is warm and [w] is the lowest. *)
Definition all_warm (ts : list string) (w : Z) : Prop :=
  (forall t, t ∈ ts -> exists c, warm t c /\ last_indexed_block c = height t /\ backfill_complete c = true /\ w <= height t) /\
  exists t, t ∈ ts /\ w = height t.

Lemma complete_blocks_elem ts b :
  (forall t, t ∈ ts -> str_lower t = t) -> b ∈ complete_blocks (map (cursor_state i n event_address) ts) ->
  exists t, t ∈ ts /\ b = height t.
Proof.
  intros Hlow (s & (t & -> & Ht)%list_elem_of_fmap & Hs)%list_elem_of_omap. exists t. split; [done|].
  destruct (cursor_state i n event_address t) as [[c|] []] eqn:E; try done. injection Hs as <-.
  destruct (cursor_state_warm t c (Hlow t Ht) E) as (cur & [Hc _] & <- & _). unfold height. by rewrite Hc.
Qed.

Lemma complete_blocks_all ts t :
  (forall t, t ∈ ts -> str_lower t = t) -> List.length (complete_blocks (map (cursor_state i n event_address) ts)) = List.length ts ->
  t ∈ ts -> exists c, warm t c /\ last_indexed_block c = height t /\ backfill_complete c = true /\
    height t ∈ complete_blocks (map (cursor_state i n event_address) ts).
Proof.
  intros Hlow Hlen Ht.
  assert (forall s, s ∈ map (cursor_state i n event_address) ts -> exists c, s = (Some c, true)) as Hall.
  { intros s Hs. eapply omap_full in Hs as [c Hc]; [|rewrite length_map; exact Hlen]. cbn in Hc. destruct s as [[z|] []]; try done. by exists z. }
  destruct (Hall (cursor_state i n event_address t)) as [c Hc]; [by apply list_elem_of_fmap_2|].
  destruct (cursor_state_warm t c (Hlow t Ht) Hc) as (cur & Hcur & Hlast & Hb).
  assert (height t = c) as Hh by (unfold height; by rewrite (proj1 Hcur)).
  exists cur. rewrite Hh. split_and!; [done|done|done|]. apply list_elem_of_omap. exists (Some c, true). split; [|done].
  rewrite <- Hc. by apply list_elem_of_fmap_2.
Qed.

Lemma warm_block_all ts w :
  (forall t, t ∈ ts -> str_lower t = t) -> warm_block (map (cursor_state i n event_address) ts) = Some w -> all_warm ts w.
Proof.
  intros Hlow. unfold warm_block. rewrite length_map. case_bool_decide as Hlen; [|done]. intros Hw. split.
  - intros t Ht. destruct (complete_blocks_all ts t Hlow Hlen Ht) as (c & H1 & H2 & H3 & H4). exists c. split_and!; [done..|].
    destruct (complete_blocks _) as [|z l] eqn:E; [done|]. injection Hw as <-. apply foldr_min_le. by apply elem_of_cons in H4.
  - apply z_min_list_elem in Hw. by apply complete_blocks_elem.
Qed.

Lemma z_max_list_ge l z x : z_max_list l = Some z -> x ∈ l -> x <= z.
Proof.
  destruct l as [|y l]; [done|]. intros [= <-] Hx. apply elem_of_cons in Hx. clear -Hx.
  induction l as [|u l IH]; cbn; [destruct Hx as [->|[]%not_elem_of_nil]; lia|].
  destruct Hx as [->|[->|Hx]%elem_of_cons]; [specialize (IH (or_introl eq_refl))| |specialize (IH (or_intror Hx))]; lia.
Qed.

Lemma max_frontier_ge ts w :
  (forall t, t ∈ ts -> str_lower t = t) -> all_warm ts w ->
  exists m, max_frontier (map (cursor_state i n event_address) ts) = Some m /\ forall t, t ∈ ts -> height t <= m.
Proof.
  intros Hlow [Hall (t & Ht & _)]. unfold max_frontier.
  assert (forall t, t ∈ ts -> height t ∈ omap fst (map (cursor_state i n event_address) ts)) as Hin.
  { intros u Hu. apply list_elem_of_omap. exists (cursor_state i n event_address u). split; [by apply list_elem_of_fmap_2|].
    destruct (Hall u Hu) as (c & [Hc _] & Hh & _). unfold cursor_state. rewrite (Hlow u Hu), Hc, <- Hh. by destruct (cursor_permits_exactness _ _). }
  destruct (z_max_list _) as [m|] eqn:Em.
  - exists m. split; [done|]. intros u Hu. eapply z_max_list_ge; [exact Em|by apply Hin].
  - specialize (Hin t Ht). destruct (omap _ _); [by apply not_elem_of_nil in Hin|done].
Qed.

(** The two reads of a fold: cut at the lowest cursor, or every indexed row. *)
Lemma rows_cut ts w :
  all_warm ts w -> select_rows i n event_address ts (Some w) = history ch a ts (fun _ => w).
Proof. intros [Hall _]. apply select_history. intros t Ht. destruct (Hall t Ht) as (c & Hc & Hh & _ & Hle). exists c. split; [done|]. lia. Qed.

Lemma rows_covered ts w :
  (forall t, t ∈ ts -> str_lower t = t) -> all_warm ts w ->
  select_rows i n event_address ts (max_frontier (map (cursor_state i n event_address) ts)) = history ch a ts height.
Proof.
  intros Hlow Hw. pose proof Hw as [Hall _]. destruct (max_frontier_ge ts w Hlow Hw) as (m & -> & Hm).
  apply select_history. intros u Hu. destruct (Hall u Hu) as (c & Hc & Hh & _). exists c. split; [done|]. specialize (Hm u Hu). lia.
Qed.

Lemma covered_ceiling ts w block :
  (forall t, t ∈ ts -> str_lower t = t) -> all_warm ts w ->
  row_ceiling (max_frontier (map (cursor_state i n event_address) ts)) block = max_frontier (map (cursor_state i n event_address) ts).
Proof. intros Hlow Hw. by destruct (max_frontier_ge ts w Hlow Hw) as (m & -> & _). Qed.
End Index.

(** ** Tails *)

(** A complete tail holds the chain's logs of its range, in log order. *)
Definition exact_tail (ch : chain) (a : string) (tail_ : TailScanner) : Prop :=
  forall event_address ts frontier b, str_lower event_address = a -> (forall t, t ∈ ts -> str_lower t = t) ->
    tail_complete (tail_ event_address ts frontier b) = true ->
    map log_row (tail_logs (tail_ event_address ts frontier b)) = recent ch a ts frontier b.

(** The tail of the pass: the streaming scan of the fetcher with a result cap,
    one address, the topics as a flat filter; any exception is a failed scan. *)
Definition stream_scan (node : string -> list string -> nat -> Z -> Z -> rpc_answer) (self : fetcher) :
    string -> list string -> Z -> Z -> fetch_error + list FetchedEventLog :=
  fun event_address ts from to_ =>
    match normalize_topic_filter (map PyStr ts) with
    | Some f => match visit_logs (node event_address ts) self (Some [event_address]) f 0 from to_ with Some r => r | None => inl Escaped end
    | None => inl FilterRefused
    end.

Lemma stream_tail_exact ch a node self max_span :
  ledger ch -> wire_chain ch -> 1 <= min_bisect_span self -> 1 <= max_block_range self ->
  (forall ts, truthful_node (node a ts) (result_cap self) ch [a] ts) ->
  exact_tail ch a (scan_event_tail (stream_scan node self) max_span).
Proof.
  intros Hl Hw Hfl Hrg Hn event_address ts frontier b Ha Hlow. unfold scan_event_tail. rewrite Ha.
  destruct (Z.ltb_spec b (frontier + 1)) as [Hlt|Hge].
  { intros _. cbn [tail_logs map]. unfold recent. assert (filter (in_range a ts frontier b) (chain_logs ch) = []) as ->; [|done].
    destruct (filter _ _) as [|l r] eqn:E; [done|]. assert (l ∈ l :: r) as Hin by by left. rewrite <- E in Hin.
    apply list_elem_of_filter in Hin as [(_ & Hb & _) _]. lia. }
  destruct (sorted_set (map str_lower ts)) as [|t0 r0] eqn:Ets; [done|]. rewrite <- Ets.
  destruct (max_span <? b - frontier); [done|].
  destruct (stream_scan node self a (sorted_set (map str_lower ts)) (frontier + 1) b) as [e|ls] eqn:Es; [done|]. intros _. cbn [tail_logs].
  unfold stream_scan in Es. destruct (normalize_topic_filter _) as [f|]; [|done].
  destruct (visit_logs_exact (node a (sorted_set (map str_lower ts))) self [a] (sorted_set (map str_lower ts)) f ch Hfl Hw Hrg 0
              (frontier + 1) b (Hn _)) as (r & Hr & Hex).
  rewrite Hr in Es. destruct (Hex ls Es) as [Hels Hnd].
  assert (ls ≡ₚ filter (in_range a ts frontier b) (chain_logs ch)) as Hperm.
  { apply NoDup_Permutation; [done|by apply NoDup_filter, ledger_once|]. intros l. rewrite Hels, list_elem_of_filter. unfold asked, in_range.
    assert (forall t, t ∈ sorted_set (map str_lower ts) <-> t ∈ ts) as Hset.
    { intros t. rewrite sorted_set_elem, list_elem_of_fmap. split; [intros (u & -> & Hu); by rewrite Hlow|]. intros Ht. exists t. by rewrite Hlow. }
    rewrite list_elem_of_singleton. split.
    - intros (Hc & Hb & Hla & t & Ht & Hts). rewrite Ht. apply Hset in Hts. split; [|done]. split_and!; [done|lia|lia|done].
    - intros ((Hla & Hb & Ht) & Hc). destruct (log_topic0 l) as [t|]; [|done]. split; [done|]. split; [lia|]. split; [done|].
      exists t. split; [done|]. by apply Hset. }
  unfold recent. apply sorted_unique.
  - eapply positioned_perm; [|apply (ledger_positioned ch (in_range a ts frontier b) Hl)]. by rewrite merge_sort_Permutation, Hperm.
  - assert (StronglySorted log_le (merge_sort log_le ls)) as Hs by (apply StronglySorted_merge_sort; apply _).
    induction Hs as [|x l Hs IH Hx]; cbn; constructor; [done|]. apply Forall_forall. intros y (z & -> & Hz)%list_elem_of_fmap.
    exact (proj1 (Forall_forall _ _) Hx z Hz).
  - apply StronglySorted_merge_sort; apply _.
  - by rewrite !merge_sort_Permutation, Hperm.
Qed.

(** ** Membership after a history *)

Fixpoint all_writes (member_key : Z) (filters : list (Z * string)) (by_topic : gmap string (list hint)) (rows : list event_row) :
    fold_stop + list (string * bool) :=
  match rows with
  | [] => inr []
  | r :: rows =>
      match row_writes member_key filters by_topic r with
      | inl e => inl e
      | inr ws => match all_writes member_key filters by_topic rows with inl e => inl e | inr ws' => inr (ws ++ ws')%list end
      end
  end.

(** The last write to [m] says [b]. *)
Definition last_write (ws : list (string * bool)) (m : string) (b : bool) : Prop :=
  exists pre post, ws = (pre ++ (m, b) :: post)%list /\ forall b', (m, b') ∉ post.

(** *** The reference: rows that set a membership *)

(** Under a hint, the row's keys match the constants and name [m]. *)
Definition row_names (member_key : Z) (filters : list (Z * string)) (r : event_row) (h : hint) (m : string) : Prop :=
  let keys := event_keys (er_topics r) (er_data_words r) (py_get "topics_to_keys" h) (py_get "data_to_keys" h) in
  (forall k w, (k, w) ∈ filters -> keys !! k = Some w) /\ word_to_address (keys !! member_key) = Some m.

(** A row sets the membership of [m]: by a hint, when the topic's hints agree on
    a direction, or by the word of the first hint with a value position. *)
Inductive row_sets (member_key : Z) (filters : list (Z * string)) (by_topic : gmap string (list hint)) (r : event_row) (m : string) : bool -> Prop :=
  | SetByDirection hs h :
      by_topic !! er_topic0 r = Some hs -> h ∈ hs -> (forall h', h' ∈ hs -> is_add h' = is_add h) ->
      row_names member_key filters r h m -> row_sets member_key filters by_topic r m (is_add h)
  | SetByWord (pre : list hint) (h : hint) (post : list hint) (h1 h2 : hint) position w z :
      by_topic !! er_topic0 r = Some (pre ++ h :: post : list hint)%list -> h1 ∈ (pre ++ h :: post)%list -> h2 ∈ (pre ++ h :: post)%list -> is_add h1 <> is_add h2 ->
      (forall h', h' ∈ pre -> py_get "value_position" h' = PyNone) -> py_get "value_position" h <> PyNone ->
      row_names member_key filters r h m ->
      py_int (py_get "value_position" h) = Some position -> word_at_event_arg (er_topics r) (er_data_words r) position h = Some w ->
      int_text 16 w = Some z -> row_sets member_key filters by_topic r m (negb (z =? 0)).

(** After the rows [m] is a member: the last row that sets it adds it. *)
Definition member_after (member_key : Z) (filters : list (Z * string)) (by_topic : gmap string (list hint)) (rows : list event_row)
    (m : string) : Prop :=
  exists pre r post, rows = (pre ++ r :: post)%list /\ row_sets member_key filters by_topic r m true /\
    forall r' b, r' ∈ post -> ~ row_sets member_key filters by_topic r' m b.

Section Sets.
Variable mk : Z.
Variable fs : list (Z * string).

Lemma row_names_iff r h m : row_names mk fs r h m <->
  (let keys := event_keys (er_topics r) (er_data_words r) (py_get "topics_to_keys" h) (py_get "data_to_keys" h) in
   filters_pass keys fs = true /\ word_to_address (keys !! mk) = Some m).
Proof.
  unfold row_names, filters_pass. cbv zeta. rewrite forallb_forall. split; intros [H1 H2]; (split; [|done]).
  - intros [k w] Hin%list_elem_of_In. by apply bool_decide_eq_true, H1.
  - intros k w Hin. apply list_elem_of_In in Hin. exact (proj1 (bool_decide_eq_true _) (H1 _ Hin)).
Qed.

Lemma hint_write_some payload r h m b : hint_write mk fs payload r h = inr (Some (m, b)) <->
  row_names mk fs r h m /\ (if payload then payload_membership (er_topics r) (er_data_words r) h = Some b else b = is_add h).
Proof.
  rewrite row_names_iff. unfold hint_write. cbv zeta. destruct (filters_pass _ fs); [|naive_solver].
  destruct (word_to_address _) as [m'|]; [|naive_solver].
  destruct payload; [destruct (payload_membership _ _ h) as [b'|]; [|naive_solver]|]; naive_solver.
Qed.

Lemma hint_writes_elem payload r hs ws : hint_writes mk fs payload r hs = inr ws ->
  forall m b, (m, b) ∈ ws <-> exists h, h ∈ hs /\ hint_write mk fs payload r h = inr (Some (m, b)).
Proof.
  revert ws. induction hs as [|h hs IH]; cbn; intros ws.
  { intros [= <-] m b. split; [by intros []%not_elem_of_nil|]. by intros (h & []%not_elem_of_nil & _). }
  destruct (hint_write mk fs payload r h) as [e|w] eqn:Eh; [done|]. destruct (hint_writes mk fs payload r hs) as [e|ws'] eqn:Es; [done|].
  intros [= <-] m b. specialize (IH ws' eq_refl m b). destruct w as [x|].
  - rewrite elem_of_cons, IH. split.
    + intros [-> | (h' & Hh & Hw)]; [exists h; split; [by left|done]|exists h'; split; [by right|done]].
    + intros (h' & [-> | Hh]%elem_of_cons & Hw); [left; congruence|right; by exists h'].
  - rewrite IH. split; intros (h' & Hh & Hw); exists h'; (split; [|done]); [by right|]. apply elem_of_cons in Hh as [-> | Hh]; [congruence|done].
Qed.

Lemma filter_first {A} (f : A -> bool) l x rest : List.filter f l = x :: rest ->
  exists pre post, l = (pre ++ x :: post)%list /\ Forall (fun y => f y = false) pre /\ f x = true.
Proof.
  induction l as [|y l IH]; cbn; [done|]. destruct (f y) eqn:Ey.
  - intros [= <- <-]. by exists [], l.
  - intros H. destruct (IH H) as (pre & post & -> & Hp & Hx). exists (y :: pre), post. split; [done|]. split; [by constructor|done].
Qed.

Lemma filter_none {A} (f : A -> bool) l : List.filter f l = [] -> Forall (fun y => f y = false) l.
Proof. induction l as [|y l IH]; cbn; [constructor|]. destruct (f y) eqn:Ey; [done|]. intros H. constructor; auto. Qed.

Definition directions_agree (hs : list hint) : bool := forallb is_add hs || forallb (fun h => negb (is_add h)) hs.

Lemma directions_agree_iff hs : directions_agree hs = true <-> forall h h', h ∈ hs -> h' ∈ hs -> is_add h = is_add h'.
Proof.
  unfold directions_agree. rewrite orb_true_iff, !forallb_forall. split.
  - intros [H|H] h h' Hh%list_elem_of_In Hh'%list_elem_of_In.
    + by rewrite (H h Hh), (H h' Hh').
    + apply H in Hh, Hh'. by destruct (is_add h), (is_add h').
  - intros H. destruct hs as [|h hs]; [by left|]. destruct (is_add h) eqn:Eh; [left|right]; intros x Hx%list_elem_of_In.
    + rewrite <- Eh. by apply H; [|left].
    + assert (is_add x = false) as ->; [|done]. rewrite <- Eh. by apply H; [|left].
Qed.

Lemma forallb_refuted {A} (f : A -> bool) l : forallb f l = false -> exists x, x ∈ l /\ f x = false.
Proof.
  induction l as [|y l IH]; cbn; [done|]. destruct (f y) eqn:Ey; cbn.
  - intros H. destruct (IH H) as (x & Hx & Ex). exists x. split; [by right|done].
  - intros _. exists y. split; [by left|done].
Qed.

Lemma directions_disagree hs : directions_agree hs = false -> exists h1 h2, h1 ∈ hs /\ h2 ∈ hs /\ is_add h1 <> is_add h2.
Proof.
  unfold directions_agree. intros [H1 H2]%orb_false_iff.
  destruct (forallb_refuted is_add hs H1) as (x & Hx & Ex). destruct (forallb_refuted (fun h => negb (is_add h)) hs H2) as (y & Hy & Ey).
  exists x, y. split_and!; try done. cbn in Ey. by destruct (is_add x), (is_add y).
Qed.
End Sets.

Lemma write_all_app ws ws' st : write_all (ws ++ ws')%list st = write_all ws' (write_all ws st).
Proof. unfold write_all. by rewrite foldl_app. Qed.

Lemma apply_history_writes mk fs by_ rows : forall st,
  apply_history mk fs by_ rows st =
  match all_writes mk fs by_ rows with inl e => inl e | inr ws => inr (write_all ws st) end.
Proof.
  induction rows as [|r rows IH]; intros st; [done|]. cbn. destruct (row_writes mk fs by_ r) as [e|ws]; [done|].
  rewrite IH. destruct (all_writes mk fs by_ rows); [done|]. by rewrite write_all_app.
Qed.

Lemma all_writes_app mk fs by_ rows rows' :
  all_writes mk fs by_ (rows ++ rows')%list =
  match all_writes mk fs by_ rows with
  | inl e => inl e
  | inr ws => match all_writes mk fs by_ rows' with inl e => inl e | inr ws' => inr (ws ++ ws')%list end
  end.
Proof.
  induction rows as [|r rows IH]; cbn; [by destruct (all_writes mk fs by_ rows')|].
  destruct (row_writes mk fs by_ r) as [|ws]; [done|]. rewrite IH. destruct (all_writes mk fs by_ rows) as [|ws1]; [done|].
  destruct (all_writes mk fs by_ rows'); [done|]. by rewrite app_assoc.
Qed.

Lemma write_all_lookup ws m b : write_all ws ∅ !! m = Some b <-> last_write ws m b.
Proof.
  induction ws as [|[m' b'] ws IH] using rev_ind.
  { cbn. rewrite lookup_empty. split; [done|]. by intros ([] & post & Heq & _). }
  rewrite write_all_app. cbn. rewrite lookup_insert_Some. split.
  - intros [[-> ->]|[Hne Hl]].
    + exists ws, []. split; [done|]. intros ? []%not_elem_of_nil.
    + apply IH in Hl as (pre & post & -> & Hp). exists pre, (post ++ [(m', b')])%list. split; [by rewrite <- app_assoc|].
      intros c. rewrite elem_of_app, list_elem_of_singleton. intros [Hc|[= -> ->]]; [by eapply Hp|done].
  - intros (pre & post & Heq & Hp). destruct post as [|x post _] using rev_ind.
    + apply app_inj_tail in Heq as [_ [= -> ->]]. by left.
    + rewrite app_comm_cons, app_assoc in Heq. apply app_inj_tail in Heq as [-> <-]. right. split.
      * intros ->. apply (Hp b'). rewrite elem_of_app, list_elem_of_singleton. by right.
      * apply IH. exists pre, post. split; [done|]. intros c Hc. apply (Hp c). rewrite elem_of_app. by left.
Qed.

Lemma present_members_elem st m : m ∈ present_members st <-> st !! m = Some true.
Proof.
  unfold present_members. rewrite merge_sort_Permutation, list_elem_of_fmap. split.
  - intros ([k b] & -> & [Hb Hin]%list_elem_of_filter). cbn in *. subst. by apply elem_of_map_to_list in Hin.
  - intros Hm. exists (m, true). split; [done|]. apply list_elem_of_filter. split; [done|]. by apply elem_of_map_to_list.
Qed.

Definition has_position (h : hint) : bool := match py_get "value_position" h with PyNone => false | _ => true end.

Lemma has_position_false h : has_position h = false <-> py_get "value_position" h = PyNone.
Proof. unfold has_position. by destruct (py_get "value_position" h). Qed.

Lemma first_positioned (pre : list hint) (h : hint) (post : list hint) : (forall h', h' ∈ pre -> py_get "value_position" h' = PyNone) -> py_get "value_position" h <> PyNone ->
  exists rest, List.filter has_position (pre ++ h :: post)%list = h :: rest.
Proof.
  intros Hpre Hh. exists (List.filter has_position post). induction pre as [|x pre IH]; cbn [app List.filter].
  - destruct (has_position h) eqn:E; [done|]. by apply has_position_false in E.
  - assert (has_position x = false) as -> by (apply has_position_false, Hpre; by left). apply IH. intros h' Hh'. apply Hpre. by right.
Qed.

Lemma topic_fold_mode_eq hs : topic_fold_mode hs =
  if directions_agree hs then Some ByHint else match List.filter has_position hs with h :: _ => Some (ByPayload h) | [] => None end.
Proof. done. Qed.

Section RowSets.
Variable mk : Z.
Variable fs : list (Z * string).
Variable by_topic : gmap string (list hint).
Notation sets := (row_sets mk fs by_topic).

(** A row sets a member one way at most. *)
Lemma row_sets_functional r m b b' : sets r m b -> sets r m b' -> b = b'.
Proof.
  intros [hs h Hhs Hin Hag _|pre h post h1 h2 pos w z Hhs Hh1 Hh2 Hne Hpre Hh Hn Hp Hw Hz]
         [hs' h' Hhs' Hin' Hag' _|pre' h' post' h1' h2' pos' w' z' Hhs' Hh1' Hh2' Hne' Hpre' Hh' Hn' Hp' Hw' Hz'].
  - assert (hs' = hs) as -> by congruence. by apply Hag'.
  - rewrite Hhs in Hhs'. apply (inj Some) in Hhs' as ->. destruct Hne'. by rewrite (Hag h1'), (Hag h2').
  - rewrite Hhs in Hhs'. apply (inj Some) in Hhs' as <-. destruct Hne. by rewrite (Hag' h1), (Hag' h2).
  - rewrite Hhs in Hhs'. apply (inj Some) in Hhs' as Heq.
    destruct (first_positioned pre h post Hpre Hh) as [rest Hf]. destruct (first_positioned pre' h' post' Hpre' Hh') as [rest' Hf'].
    rewrite Heq, Hf' in Hf. injection Hf as -> _. congruence.
Qed.

(** A hinted topic's row, once it can be read, writes what it sets. *)
Lemma row_writes_sets r hs ws : by_topic !! er_topic0 r = Some hs -> is_Some (topic_fold_mode hs) -> row_writes mk fs by_topic r = inr ws ->
  row_is_undecodable r = false /\ forall m b, (m, b) ∈ ws <-> sets r m b.
Proof.
  intros Hhs Hmode. unfold row_writes. rewrite Hhs. rewrite topic_fold_mode_eq in *.
  destruct (directions_agree hs) eqn:Ea.
  - destruct (row_is_undecodable r); [done|]. intros Hw. split; [done|]. intros m b. rewrite (hint_writes_elem _ _ _ _ _ _ Hw). setoid_rewrite hint_write_some.
    pose proof (proj1 (directions_agree_iff hs) Ea) as Hag. split.
    + intros (h & Hin & Hn & ->). apply (SetByDirection _ _ _ _ _ hs h); [done|done| |done]. intros h' Hh'. by apply Hag.
    + intros [hs' h Hhs' Hin _ Hn|pre h post h1 h2 pos w z Hhs' Hh1 Hh2 Hne _ _ _ _ _ _].
      * assert (hs' = hs) as -> by congruence. by exists h.
      * rewrite Hhs in Hhs'. apply (inj Some) in Hhs' as ->. exfalso. apply Hne. by apply Hag.
  - destruct (List.filter has_position hs) as [|h rest] eqn:Ef; [by destruct Hmode as [? ?]|]. destruct (row_is_undecodable r); [done|].
    intros Hw. split; [done|]. intros m b. rewrite (hint_writes_elem _ _ _ _ _ _ Hw). setoid_rewrite hint_write_some. split.
    + intros (h0 & ->%list_elem_of_singleton & Hn & Hp). destruct (filter_first _ _ _ _ Ef) as (pre & post & -> & Hpre & Hh).
      destruct (directions_disagree _ Ea) as (h1 & h2 & Hh1 & Hh2 & Hne). unfold payload_membership in Hp.
      destruct (py_int _) as [pos|] eqn:Epos; [|done]. cbn in Hp. destruct (word_at_event_arg _ _ _ _) as [w|] eqn:Ew; [|done]. cbn in Hp.
      destruct (int_text 16 w) as [z|] eqn:Ez; [|done]. injection Hp as <-.
      eapply (SetByWord _ _ _ _ _ pre h post h1 h2 pos w z); try done.
      * intros h' Hh'. apply has_position_false. exact (proj1 (Forall_forall _ _) Hpre h' Hh').
      * intros Hnone%has_position_false. congruence.
    + intros [hs' h' Hhs' _ Hag _|pre h' post h1 h2 pos w z Hhs' Hh1 Hh2 Hne Hpre Hh Hn Hp Hw' Hz].
      * exfalso. assert (hs' = hs) as -> by congruence. destruct (directions_disagree _ Ea) as (h1 & h2 & Hh1 & Hh2 & Hne). destruct Hne.
        by rewrite (Hag h1), (Hag h2).
      * rewrite Hhs in Hhs'. apply (inj Some) in Hhs' as Heq. destruct (first_positioned pre h' post Hpre Hh) as [rest' Hf].
        rewrite <- Heq, Ef in Hf. injection Hf as -> _. exists h'. split; [by left|]. split; [done|]. unfold payload_membership. rewrite Hp. cbn. rewrite Hw'. cbn.
        by rewrite Hz.
Qed.

(** Every row of a hinted topic; no topic is ambiguous. *)
Definition all_hinted (rows : list event_row) : Prop :=
  forall r, r ∈ rows -> exists hs, by_topic !! er_topic0 r = Some hs /\ is_Some (topic_fold_mode hs).

Lemma all_writes_sets rows ws : all_hinted rows -> all_writes mk fs by_topic rows = inr ws ->
  Forall (fun r => row_is_undecodable r = false) rows /\ forall m b, (m, b) ∈ ws <-> exists r, r ∈ rows /\ sets r m b.
Proof.
  revert ws. induction rows as [|r rows IH]; intros ws Hh; cbn.
  { intros [= <-]. split; [constructor|]. intros m b. split; [by intros []%not_elem_of_nil|]. by intros (r & []%not_elem_of_nil & _). }
  destruct (row_writes mk fs by_topic r) as [e|w] eqn:Er; [done|]. destruct (all_writes mk fs by_topic rows) as [e|ws'] eqn:Es; [done|].
  intros [= <-]. destruct (Hh r) as (hs & Hhs & Hm); [by left|]. destruct (row_writes_sets r hs w Hhs Hm Er) as [Hd Hw].
  destruct (IH ws') as [Hds Hws]; [intros r' Hr'; apply Hh; by right|done|]. split; [by constructor|]. intros m b.
  rewrite elem_of_app, Hw, Hws. split.
  - intros [Hs|(r' & Hr' & Hs)]; [exists r; split; [by left|done]|exists r'; split; [by right|done]].
  - intros (r' & [-> | Hr']%elem_of_cons & Hs); [by left|right; by exists r'].
Qed.

Lemma write_all_fresh ws st m : (forall b, (m, b) ∉ ws) -> write_all ws st !! m = st !! m.
Proof.
  revert st. induction ws as [|[m' b'] ws IH]; intros st Hf; [done|]. change (write_all ((m', b') :: ws) st) with (write_all ws (<[m' := b']> st)). rewrite IH by (intros b Hb; apply (Hf b); by right).
  apply lookup_insert_ne. intros ->. apply (Hf b'). by left.
Qed.

Lemma write_all_one ws st m b : (m, b) ∈ ws -> (forall b', (m, b') ∈ ws -> b' = b) -> write_all ws st !! m = Some b.
Proof.
  revert st. induction ws as [|[m' b'] ws IH]; intros st Hin Hall; [by apply not_elem_of_nil in Hin|].
  change (write_all ((m', b') :: ws) st) with (write_all ws (<[m' := b']> st)). destruct (decide ((m, b) ∈ ws)) as [Hws|Hws]; [apply IH; [done|]; intros b0 Hb0; apply Hall; by right|].
  apply elem_of_cons in Hin as [[= -> ->]|Hin]; [|done]. rewrite write_all_fresh; [apply lookup_insert_eq|].
  intros b0 Hb0. assert (b0 = b') as -> by (apply Hall; by right). done.
Qed.

Lemma member_after_snoc rows r m :
  member_after mk fs by_topic (rows ++ [r])%list m <->
  sets r m true \/ (forall b, ~ sets r m b) /\ member_after mk fs by_topic rows m.
Proof.
  split.
  - intros (pre & x & post & Heq & Hx & Hp). destruct post as [|y post _] using rev_ind.
    + apply app_inj_tail in Heq as [_ ->]. by left.
    + rewrite app_comm_cons, app_assoc in Heq. apply app_inj_tail in Heq as [-> <-]. right. split.
      * intros b. apply Hp. rewrite elem_of_app, list_elem_of_singleton. by right.
      * exists pre, x, post. split; [done|]. split; [done|]. intros r' b Hr'. apply Hp. rewrite elem_of_app. by left.
  - intros [Hs|[Hno (pre & x & post & -> & Hx & Hp)]].
    + exists rows, r, []. split; [done|]. split; [done|]. intros r' b []%not_elem_of_nil.
    + exists pre, x, (post ++ [r])%list. split; [by rewrite <- app_assoc|]. split; [done|].
      intros r' b. rewrite elem_of_app, list_elem_of_singleton. intros [Hr'| ->]; [by apply Hp|done].
Qed.

(** The fold's last write is the last row that sets. *)
Lemma added_is_member rows ws m : all_hinted rows -> all_writes mk fs by_topic rows = inr ws ->
  write_all ws ∅ !! m = Some true <-> member_after mk fs by_topic rows m.
Proof.
  revert ws. induction rows as [|r rows IH] using rev_ind; intros ws Hh.
  { cbn. intros [= <-]. cbn. rewrite lookup_empty. split; [done|]. by intros ([] & ? & ? & ? & _). }
  rewrite all_writes_app. destruct (all_writes mk fs by_topic rows) as [e|ws1] eqn:E1; [done|]. cbn [all_writes].
  destruct (row_writes mk fs by_topic r) as [e|w] eqn:Er; [done|]. intros [= <-]. rewrite app_nil_r, write_all_app, member_after_snoc.
  destruct (Hh r) as (hs & Hhs & Hm); [rewrite elem_of_app, list_elem_of_singleton; by right|].
  destruct (row_writes_sets r hs w Hhs Hm Er) as [_ Hw].
  assert (all_hinted rows) as Hrows by (intros r' Hr'; apply Hh; rewrite elem_of_app; by left).
  destruct (decide (exists b, (m, b) ∈ w)) as [(b & Hb)|Hno].
  - assert (write_all w (write_all ws1 ∅) !! m = Some b) as ->.
    { apply write_all_one; [done|]. intros b' Hb'. apply (row_sets_functional r m); by apply Hw. }
    apply Hw in Hb. split.
    + intros [= ->]. by left.
    + intros [Ht|[Hnone _]]; [|by destruct (Hnone b)]. f_equal. by apply (row_sets_functional r m).
  - rewrite write_all_fresh by (intros b Hb; apply Hno; by exists b). rewrite (IH ws1 Hrows eq_refl). split.
    + intros Hma. right. split; [|done]. intros b Hs. apply Hno. exists b. by apply Hw.
    + intros [Ht|[_ Hma]]; [|done]. destruct Hno. exists true. by apply Hw.
Qed.
End RowSets.

Lemma topic_list_elem by_ t : t ∈ topic_list by_ <-> is_Some (by_ !! t).
Proof.
  unfold topic_list. rewrite merge_sort_Permutation, list_elem_of_fmap. split.
  - intros ([k hs] & -> & Hin%elem_of_map_to_list). by exists hs.
  - intros [hs Hh]. exists (t, hs). split; [done|]. by apply elem_of_map_to_list.
Qed.

Lemma group_hints_low (topic : hint -> option string) hs : (forall h t, topic h = Some t -> str_lower t = t) ->
  forall out, (forall t, is_Some (out !! t) -> str_lower t = t) -> forall t, is_Some (foldl (group_hint topic) out hs !! t) -> str_lower t = t.
Proof.
  intros Htopic. induction hs as [|h hs IH]; intros out Hout t; [by apply Hout|]. cbn. apply IH. clear t.
  intros t. unfold group_hint. destruct (topic h) as [t0|] eqn:E; [|by apply Hout].
  destruct (decide (t = t0)) as [->|Hne]; [intros _; by eapply Htopic|]. rewrite lookup_insert_ne by done. by apply Hout.
Qed.

Lemma normalize_topic_low v t : normalize_topic v = Some t -> str_lower t = t.
Proof.
  unfold normalize_topic. destruct v as [| | |s| |]; try done. destruct (str_after "0x" (str_lower s)); [|done].
  intros [= <-]. apply str_lower_idemp.
Qed.

Lemma history_topics_low hs t : t ∈ topic_list (event_hints_by_topic hs) -> str_lower t = t.
Proof.
  rewrite topic_list_elem. apply group_hints_low.
  - intros h u. destruct (add_or_remove h); [|done]. apply normalize_topic_low.
  - intros u [? Hu]. by rewrite lookup_empty in Hu.
Qed.

Lemma value_topics_low hs t : t ∈ topic_list (value_hints_by_topic hs) -> str_lower t = t.
Proof.
  rewrite topic_list_elem. apply group_hints_low.
  - intros h u. apply normalize_topic_low.
  - intros u [? Hu]. by rewrite lookup_empty in Hu.
Qed.

(** ** The history fold *)

(** What the chain's own history gives. *)
Definition history_result (member_key : Z) (filters : list (Z * string)) (by_topic : gmap string (list hint)) (rows : list event_row)
    (b : option Z) (window : option (Z * Z)) : EnumerationResult :=
  match all_writes member_key filters by_topic rows with
  | inl e => stop_result e
  | inr ws => mkEnumeration (present_members (write_all ws ∅)) Enumerable None b window
  end.

Section History.
Variable ch : chain.
Variable i : index.
Variable n : Z.
Variable event_address : string.
Notation a := (str_lower event_address).
Hypothesis idx : indexed ch i n a.
Variable event_hints key_sources : list hint.
Notation by_topic := (event_hints_by_topic event_hints).
Notation ts := (topic_list by_topic).
Notation states := (map (cursor_state i n event_address) ts).

Lemma history_covered mk fs w B tail_ :
  caller_key_index key_sources = Some mk -> constant_key_filters key_sources mk = Some fs ->
  by_topic <> ∅ -> (topic_fold_modes by_topic).2 = false -> warm_block states = Some w -> B <= w ->
  fold_event_history i n event_address event_hints key_sources (Some B) tail_ =
  history_result mk fs by_topic (history ch a ts (height i n event_address)) (Some w) None.
Proof.
  intros Hmk Hfs Hne Hamb Hw HB. unfold fold_event_history, history_result. rewrite Hmk, Hfs, bool_decide_false by done. rewrite Hamb, Hw.
  assert (cursor_covers_block (Some w) (Some B) = true) as Hcov by (cbn; lia). rewrite Hcov. cbn [negb]. rewrite andb_false_r.
  pose proof (warm_block_all i n event_address ts w (history_topics_low event_hints) Hw) as Hall.
  rewrite (covered_ceiling i n event_address ts w (Some B) (history_topics_low event_hints) Hall).
  rewrite (rows_covered ch i n event_address idx ts w (history_topics_low event_hints) Hall), apply_history_writes.
  by destruct (all_writes _ _ _ _).
Qed.

Lemma history_behind mk fs w B tail_ :
  caller_key_index key_sources = Some mk -> constant_key_filters key_sources mk = Some fs ->
  by_topic <> ∅ -> (topic_fold_modes by_topic).2 = false -> warm_block states = Some w -> w < B ->
  exact_tail ch a tail_ -> tail_complete (tail_ event_address ts w B) = true ->
  let scan := tail_ event_address ts w B in
  fold_event_history i n event_address event_hints key_sources (Some B) (Some tail_) =
  history_result mk fs by_topic (history ch a ts (fun _ => B)) (Some B) (Some (tail_from scan, tail_to scan)).
Proof.
  intros Hmk Hfs Hne Hamb Hw HB Htail Hc scan. unfold fold_event_history, history_result. rewrite Hmk, Hfs, bool_decide_false by done.
  rewrite Hamb, Hw. assert (cursor_covers_block (Some w) (Some B) = false) as -> by (cbn; lia). cbn [negb andb].
  rewrite (bool_decide_true (is_Some (Some w))) by done. cbn [andb].
  pose proof (warm_block_all i n event_address ts w (history_topics_low event_hints) Hw) as Hall.
  rewrite (rows_cut ch i n event_address idx ts w Hall), apply_history_writes.
  rewrite <- (history_continues ch a ts w B (indexed_ledger _ _ _ _ idx)) by lia. rewrite all_writes_app.
  destruct (all_writes mk fs by_topic (history ch a ts (fun _ => w))) as [e|ws]; [done|]. cbn [complete_with_tail].
  fold scan. unfold scan. rewrite Hc, apply_history_writes, (Htail event_address ts w B eq_refl (history_topics_low event_hints) Hc).
  destruct (all_writes mk fs by_topic (recent ch a ts w B)) as [e|ws']; [done|]. by rewrite write_all_app.
Qed.

(** How far a published result has read each topic: through the block exactly,
    or each topic through its own cursor, at or past the block. *)
Definition read_through (ts : list string) (B : Z) (upto : string -> Z) : Prop :=
  (forall t, t ∈ ts -> B <= upto t) /\ ((forall t, upto t = B) \/ upto = height i n event_address).

Lemma history_hinted upto : (topic_fold_modes by_topic).2 = false -> all_hinted by_topic (history ch a ts upto).
Proof.
  intros Hamb r Hr. unfold history in Hr. rewrite merge_sort_Permutation in Hr. apply list_elem_of_fmap in Hr as (l & -> & Hl).
  apply list_elem_of_filter in Hl as [Hin _]. unfold in_history in Hin. destruct (log_topic0 l) as [t|] eqn:Et; [|naive_solver].
  assert (t ∈ ts) as Ht by naive_solver. apply topic_list_elem in Ht as [hs Hhs]. exists hs.
  assert (er_topic0 (log_row l) = t) as -> by (unfold log_topic0 in Et; cbn; destruct (topics l); simplify_eq/=; done). split; [done|].
  cbn in Hamb. destruct (topic_fold_mode hs) eqn:Em; [by eexists|]. exfalso.
  assert (existsb (fun th : string * list hint => negb (bool_decide (is_Some (topic_fold_mode th.2)))) (map_to_list by_topic) = true) as Ht; [|congruence].
  apply existsb_exists. exists (t, hs). split; [by apply list_elem_of_In, elem_of_map_to_list|]. cbn. rewrite Em. rewrite bool_decide_false; [done|]. by intros [? ?].
Qed.

Lemma history_result_members mk fs rows b window : all_hinted by_topic rows ->
  confidence (history_result mk fs by_topic rows b window) = Enumerable ->
  Forall (fun r => row_is_undecodable r = false) rows /\
  forall m, m ∈ members_ (history_result mk fs by_topic rows b window) <-> member_after mk fs by_topic rows m.
Proof.
  intros Hh. unfold history_result. destruct (all_writes mk fs by_topic rows) as [e|ws] eqn:E; [done|]. intros _.
  split; [by eapply all_writes_sets|]. intros m. cbn. rewrite present_members_elem. by apply added_is_member.
Qed.

Lemma history_enumerable block tail_ :
  (forall t, tail_ = Some t -> exact_tail ch a t) ->
  let r := fold_event_history i n event_address event_hints key_sources block tail_ in
  confidence r = Enumerable ->
  exists mk fs B upto, caller_key_index key_sources = Some mk /\ constant_key_filters key_sources mk = Some fs /\ block = Some B /\
    read_through ts B upto /\ Forall (fun row => row_is_undecodable row = false) (history ch a ts upto) /\
    forall m, m ∈ members_ r <-> member_after mk fs by_topic (history ch a ts upto) m.
Proof.
  intros Htail r Hr. unfold r in *.
  assert (exists mk fs w B, caller_key_index key_sources = Some mk /\ constant_key_filters key_sources mk = Some fs /\ block = Some B /\
    by_topic <> ∅ /\ (topic_fold_modes by_topic).2 = false /\ warm_block states = Some w /\
    (w < B -> exists t, tail_ = Some t /\ tail_complete (t event_address ts w B) = true)) as (mk & fs & w & B & Hmk & Hfs & -> & Hne & Hamb & Hw & Hb).
  { unfold fold_event_history in Hr. destruct (caller_key_index key_sources) as [mk|]; [|done].
    destruct (constant_key_filters key_sources mk) as [fs|] eqn:Hfs; [|done]. case_bool_decide as Hne; [done|].
    destruct (topic_fold_modes by_topic).2 eqn:Hamb; [done|]. destruct (apply_history _ _ _ _ _) as [e|st]; [by destruct e|].
    destruct (warm_block states) as [w|] eqn:Hw; [|done]. rewrite (bool_decide_true (is_Some (Some w))) in Hr by done. cbn [andb] in Hr.
    destruct block as [B|]; [|by destruct tail_].
    exists mk, fs, w, B. split_and!; try done. intros HwB. assert (cursor_covers_block (Some w) (Some B) = false) as Hcov by (cbn; lia).
    rewrite Hcov in Hr. cbn [negb] in Hr. destruct tail_ as [t|]; [|done]. exists t. split; [done|]. cbn [complete_with_tail] in Hr.
    by destruct (tail_complete _). }
  exists mk, fs, B. pose proof (warm_block_all i n event_address ts w (history_topics_low event_hints) Hw) as [Hall _].
  destruct (decide (B <= w)) as [HB|HB].
  - exists (height i n event_address). rewrite (history_covered mk fs w B) in Hr |- * by done. do 3 (split; [done|]). split.
    + split; [|by right]. intros t Ht. destruct (Hall t Ht) as (c & _ & _ & _ & Hle). lia.
    + apply history_result_members; [by apply history_hinted|done].
  - destruct Hb as (t & -> & Hc); [lia|]. exists (fun _ => B). rewrite (history_behind mk fs w B) in Hr |- * by (done || lia || by apply Htail).
    do 3 (split; [done|]). split; [split; [done|by left]|]. apply history_result_members; [by apply history_hinted|done].
Qed.
End History.

(** ** Logs through a block *)

Lemma all_complete_blocks states :
  forallb (fun s => match s with (Some _, true) => true | _ => false end) states = true ->
  complete_blocks states = omap fst states /\ List.length (complete_blocks states) = List.length states.
Proof.
  induction states as [|[[c|] []] states IH]; cbn [forallb]; try done. intros H. destruct (IH H) as [H1 H2].
  unfold complete_blocks in *. rewrite !omap_cons. cbn [fst List.length]. by rewrite H1, <- H1, H2.
Qed.

Lemma low_map ts : (forall t, t ∈ ts -> str_lower t = t) -> map str_lower ts = ts.
Proof.
  induction ts as [|t ts IH]; intros H; [done|]. cbn. rewrite IH by (intros u Hu; apply H; by right). by rewrite (H t ltac:(by left)).
Qed.

Section Logs.
Variable ch : chain.
Variable i : index.
Variable n : Z.
Variable event_address : string.
Notation a := (str_lower event_address).
Hypothesis idx : indexed ch i n a.

Lemma iter_rows_inv ts ceiling rows :
  (forall t, t ∈ ts -> str_lower t = t) -> ts <> [] -> iter_event_rows i n event_address ts ceiling = Some rows ->
  rows = select_rows i n event_address ts ceiling /\ existsb row_is_undecodable rows = false.
Proof.
  intros Hlow Hne. unfold iter_event_rows. rewrite (low_map ts Hlow). destruct ts as [|t ts0]; [done|].
  destruct (existsb _ _) eqn:E; [done|]. by intros [= <-].
Qed.

Lemma logs_through_exact topic0s block tail_ r :
  (forall t, tail_ = Some t -> exact_tail ch a t) ->
  logs_through_block i n event_address topic0s block tail_ = Some r -> read_complete r = true ->
  exists B upto, block = Some B /\ read_through i n event_address (sorted_set (map str_lower topic0s)) B upto /\
    read_logs r = history ch a (sorted_set (map str_lower topic0s)) upto /\ existsb row_is_undecodable (read_logs r) = false.
Proof.
  intros Htail. unfold logs_through_block. set (ts := sorted_set (map str_lower topic0s)).
  assert (forall t, t ∈ ts -> str_lower t = t) as Hlow.
  { intros t. unfold ts. rewrite sorted_set_elem. intros (u & -> & _)%list_elem_of_fmap. apply str_lower_idemp. }
  destruct (bool_decide (ts = []) || _) eqn:Ec; [intros [= <-]; done|]. apply orb_false_iff in Ec as [Hne%bool_decide_eq_false Hst%negb_false_iff].
  destruct block as [B|]; [|by intros [= <-]]. destruct (all_complete_blocks _ Hst) as [Hcb Hlen].
  destruct (z_min_list (omap fst (map (cursor_state i n event_address) ts))) as [w|] eqn:Hw; [|by intros [= <-]].
  assert (all_warm i n event_address ts w) as Hall.
  { apply warm_block_all; [done|]. unfold warm_block. by rewrite bool_decide_true, Hcb. }
  destruct (Z.leb_spec B w) as [HB|HB].
  - destruct (iter_event_rows _ _ _ _ _) as [rows|] eqn:Er; [|done]. intros [= <-] _. apply iter_rows_inv in Er as [-> Hd]; [|done|done].
    exists B, (height i n event_address). split; [done|]. cbn [read_logs].
    rewrite (rows_covered ch i n event_address idx ts w Hlow Hall) in Hd |- *. split_and!; [|done|done]. split; [|by right].
    intros t Ht. destruct (proj1 Hall t Ht) as (c & _ & _ & _ & Hle). lia.
  - destruct (iter_event_rows _ _ _ _ _) as [rows|] eqn:Er; [|done]. cbn [mbind option_bind]. apply iter_rows_inv in Er as [-> Hd]; [|done|done].
    destruct tail_ as [t|]; [|by intros [= <-]]. destruct (tail_complete (t a ts w B)) eqn:Hc; [|by intros [= <-]].
    destruct (existsb row_is_undecodable (map log_row _)) eqn:Hd'; [done|]. intros [= <-] _. cbn [read_logs].
    exists B, (fun _ => B). split; [done|]. split; [split; [done|by left]|].
    rewrite existsb_app, Hd, Hd'. rewrite (rows_cut ch i n event_address idx ts w Hall).
    rewrite (Htail t eq_refl a ts w B (str_lower_idemp _) Hlow Hc). split; [|done].
    apply history_continues; [apply idx|lia].
Qed.
End Logs.

(** ** One topic *)

Definition row_member (member_key : Z) (filters : list (Z * string)) (t2k d2k : pyval) (r : event_row) : option string :=
  let keys := event_keys (er_topics r) (er_data_words r) t2k d2k in
  if filters_pass keys filters then word_to_address (keys !! member_key) else None.

(** The members written are those of the rows, when all are readable. *)
Lemma apply_writes_members mk fs t2k d2k rows : forall st st',
  apply_writes mk fs t2k d2k rows st = Some st' ->
  existsb row_is_undecodable rows = false /\
  forall m, m ∈ present_members st' <-> m ∈ present_members st \/ exists r, r ∈ rows /\ row_member mk fs t2k d2k r = Some m.
Proof.
  induction rows as [|r rows IH]; intros st st'; cbn [apply_writes].
  { intros [= <-]. split; [done|]. intros m. split; [by left|]. intros [?|(r & []%not_elem_of_nil & _)]. done. }
  destruct (row_is_undecodable r) eqn:Eu; [done|]. intros [Hd Hm]%IH. cbn [existsb]. rewrite Eu. split; [done|].
  intros m. rewrite Hm. setoid_rewrite elem_of_cons.
  assert (m ∈ present_members (if filters_pass (event_keys (er_topics r) (er_data_words r) t2k d2k) fs
            then match word_to_address (event_keys (er_topics r) (er_data_words r) t2k d2k !! mk) with Some m => <[m := true]> st | None => st end
            else st) <-> m ∈ present_members st \/ row_member mk fs t2k d2k r = Some m) as ->.
  { unfold row_member. destruct (filters_pass _ _); [|naive_solver]. destruct (word_to_address _) as [m'|]; [|naive_solver].
    rewrite !present_members_elem, lookup_insert_Some. destruct (decide (m' = m)) as [->|Hne]; naive_solver. }
  naive_solver.
Qed.

Lemma writes_exact ch i n event_address topic0 t2k d2k ks block tail_ :
  indexed ch i n (str_lower event_address) -> (forall t, tail_ = Some t -> exact_tail ch (str_lower event_address) t) ->
  let r := fold_event_writes i n event_address topic0 t2k d2k ks block tail_ in
  confidence r = Enumerable ->
  exists mk fs B upto, caller_key_index ks = Some mk /\ constant_key_filters ks mk = Some fs /\ block = Some B /\
    read_through i n event_address [str_lower topic0] B upto /\
    forall m, m ∈ members_ r <->
      exists row, row ∈ history ch (str_lower event_address) [str_lower topic0] upto /\ row_member mk fs t2k d2k row = Some m.
Proof.
  intros Hidx Htail r Hr. unfold r, fold_event_writes in *. clear r.
  destruct (caller_key_index ks) as [mk|]; [|done]. destruct (constant_key_filters ks mk) as [fs|] eqn:Hfs; [|done].
  destruct (cursor_state i n event_address topic0) as [[c|] complete] eqn:Ec;
    [|destruct (apply_writes _ _ _ _ _ _); done]. cbn [row_ceiling] in *.
  destruct (apply_writes _ _ _ _ (select_rows _ _ _ _ _) ∅) as [st|] eqn:Est; [|done].
  destruct complete; [|done]. cbn [negb] in *.
  assert (forall t, t ∈ [str_lower topic0] -> str_lower t = t) as Hlow by (intros t ->%list_elem_of_singleton; apply str_lower_idemp).
  assert (cursor_state i n event_address (str_lower topic0) = (Some c, true)) as Ec'.
  { unfold cursor_state in *. by rewrite str_lower_idemp. }
  assert (all_warm i n event_address [str_lower topic0] c) as Hall.
  { apply warm_block_all; [done|]. cbn [map]. rewrite Ec'. done. }
  rewrite (rows_cut ch i n event_address Hidx _ c Hall) in Est. apply apply_writes_members in Est as [_ Hm].
  assert (forall m, m ∉ present_members ∅) as Hnone by (intros m; by rewrite present_members_elem, lookup_empty).
  destruct (cursor_covers_block (Some c) block) eqn:Hcov.
  - destruct block as [B|]; [|done]. cbn in Hcov. apply Z.leb_le in Hcov. pose proof Hall as [_ (t & ->%list_elem_of_singleton & Hc)].
    exists mk, fs, B, (height i n event_address). do 3 (split; [done|]). split.
    + split; [|by right]. intros t ->%list_elem_of_singleton. lia.
    + intros m. cbn [members_]. rewrite Hm. unfold history.
      assert (forall l, in_history (str_lower event_address) [str_lower topic0] (fun _ => c) l <->
                        in_history (str_lower event_address) [str_lower topic0] (height i n event_address) l) as Heq.
      { intros l. unfold in_history. destruct (log_topic0 l) as [t|]; [|done]. rewrite list_elem_of_singleton. naive_solver. }
      rewrite (list_filter_iff _ _ _ Heq). specialize (Hnone m). naive_solver.
  - destruct block as [B|]; [|by destruct tail_]. destruct tail_ as [t|]; [|done]. cbn [complete_with_tail] in *.
    destruct (tail_complete _) eqn:Hc; [|done]. rewrite (Htail t eq_refl _ _ _ _ eq_refl Hlow Hc) in *.
    destruct (apply_writes _ _ _ _ (recent _ _ _ _ _) st) as [st'|] eqn:Est'; [|done]. apply apply_writes_members in Est' as [_ Hm'].
    exists mk, fs, B, (fun _ => B). do 3 (split; [done|]). split; [split; [done|by left]|].
    intros m. cbn [members_]. rewrite Hm', Hm. cbn in Hcov. apply Z.leb_gt in Hcov.
    rewrite <- (history_continues ch _ _ c B (indexed_ledger _ _ _ _ Hidx)) by lia. setoid_rewrite elem_of_app.
    specialize (Hnone m). naive_solver.
Qed.

(** ** Latest values *)

Fixpoint row_readings (mode : key_mode) (r : event_row) (hs : list hint) : value_stop + list (event_row * (string * string)) :=
  match hs with
  | [] => inr []
  | h :: hs =>
      match hint_reading mode r h, row_readings mode r hs with
      | inl e, _ => inl e
      | inr _, inl e => inl e
      | inr None, inr rs => inr rs
      | inr (Some mw), inr rs => inr ((r, mw) :: rs)
      end
  end.

(** Every reading of a value in the rows. *)
Fixpoint readings (mode : key_mode) (by_topic : gmap string (list hint)) (rows : list event_row) :
    value_stop + list (event_row * (string * string)) :=
  match rows with
  | [] => inr []
  | r :: rows =>
      match by_topic !! er_topic0 r with
      | None => readings mode by_topic rows
      | Some hs =>
          if row_is_undecodable r then inl ValueUndecodable
          else match row_readings mode r hs, readings mode by_topic rows with
               | inl e, _ => inl e
               | inr _, inl e => inl e
               | inr rs, inr rs' => inr (rs ++ rs')%list
               end
      end
  end.

Definition put_all (rs : list (event_row * (string * string))) (st : value_state) : value_state :=
  foldl (fun st x => put_reading x.1 x.2 st) st rs.

(** The state holds, for each member read, a value whose position no reading of
    that member exceeds. *)
Definition latest (rs : list (event_row * (string * string))) (st : value_state) : Prop :=
  NoDup st.*1 /\
  forall m, match assoc_get m st with
            | Some (v, q) => (exists r, (r, (m, v)) ∈ rs /\ row_position r = q) /\
                             forall r' v', (r', (m, v')) ∈ rs -> ~ pos_lt q (row_position r')
            | None => forall r v, (r, (m, v)) ∉ rs
            end.

Lemma dict_put_get {A} k (v : A) d k' : assoc_get k' (dict_put k v d) = if decide (k' = k) then Some v else assoc_get k' d.
Proof.
  induction d as [|[k0 v0] d IH]; cbn; [by destruct (decide (k' = k))|].
  destruct (decide (k = k0)) as [<-|Hne]; cbn; [by destruct (decide (k' = k))|]. rewrite IH.
  destruct (decide (k' = k0)) as [->|]; [|done]. by destruct (decide (k0 = k)).
Qed.

Lemma dict_put_keys {A} k (v : A) d x : x ∈ (dict_put k v d).*1 <-> x = k \/ x ∈ d.*1.
Proof.
  induction d as [|[k0 v0] d IH]; cbn; [by rewrite list_elem_of_singleton; set_solver|].
  destruct (decide (k = k0)) as [<-|Hne]; cbn; rewrite !elem_of_cons; [naive_solver|]. rewrite IH. naive_solver.
Qed.

Lemma dict_put_nodup {A} k (v : A) d : NoDup d.*1 -> NoDup (dict_put k v d).*1.
Proof.
  induction d as [|[k0 v0] d IH]; cbn; [by constructor; [apply not_elem_of_nil|constructor]|]. intros [Hn Hd]%NoDup_cons.
  destruct (decide (k = k0)) as [<-|Hne]; cbn; [by constructor|]. constructor; [|by apply IH]. rewrite dict_put_keys. naive_solver.
Qed.

Lemma put_reading_latest rs st r mw : latest rs st -> latest (rs ++ [(r, mw)])%list (put_reading r mw st).
Proof.
  destruct mw as [m v]. intros [Hnd Hl]. unfold put_reading. cbn [fst snd]. pose proof (Hl m) as Hm.
  assert (forall m', m' <> m -> forall r' v', (r', (m', v')) ∈ (rs ++ [(r, (m, v))])%list <-> (r', (m', v')) ∈ rs) as Hother.
  { intros m' Hne r' v'. rewrite elem_of_app, list_elem_of_singleton. naive_solver. }
  assert (latest rs st -> (forall r0 v0, (r0, (m, v0)) ∈ rs -> ~ pos_lt (row_position r) (row_position r0)) ->
          latest (rs ++ [(r, (m, v))])%list (dict_put m (v, row_position r) st)) as Hput.
  { intros _ Hold. split; [by apply dict_put_nodup|]. intros m'. rewrite dict_put_get. destruct (decide (m' = m)) as [->|Hne].
    - split; [exists r; split; [rewrite elem_of_app, list_elem_of_singleton; by right|done]|].
      intros r' v'. rewrite elem_of_app, list_elem_of_singleton. intros [Hin|[= -> _]]; [by eapply Hold|].
      destruct (row_position r) as [[x y] z]. cbn. lia.
    - specialize (Hl m'). destruct (assoc_get m' st) as [[v0 q0]|].
      + destruct Hl as [(r0 & Hr0 & Hq) Hmax]. split; [exists r0; by rewrite Hother|]. intros r' v'. rewrite Hother by done. by apply Hmax.
      + intros r0 v0. rewrite Hother by done. by apply Hl. }
  destruct (assoc_get m st) as [[v0 q0]|] eqn:Em.
  - destruct Hm as [(r0 & Hr0 & Hq) Hmax]. destruct (decide (pos_lt q0 (row_position r))) as [Hlt|Hge].
    + apply Hput; [done|]. intros r' v' Hin. specialize (Hmax r' v' Hin). revert Hlt Hmax.
      destruct q0 as [[x y] z], (row_position r) as [[x1 y1] z1], (row_position r') as [[x2 y2] z2]. cbn. lia.
    + split; [done|]. intros m'. specialize (Hl m'). destruct (decide (m' = m)) as [->|Hne].
      * rewrite Em. split; [exists r0; split; [rewrite elem_of_app; by left|done]|].
        intros r' v'. rewrite elem_of_app, list_elem_of_singleton. intros [Hin|[= -> _]]; [by eapply Hmax|done].
      * destruct (assoc_get m' st) as [[v1 q1]|].
        -- destruct Hl as [(r1 & Hr1 & Hq1) Hmax1]. split; [exists r1; by rewrite Hother|]. intros r' v'. rewrite Hother by done. by apply Hmax1.
        -- intros r1 v1. rewrite Hother by done. by apply Hl.
  - apply Hput; [done|]. intros r' v' Hin. by apply Hm in Hin.
Qed.

Lemma put_all_latest rs : latest rs (put_all rs []).
Proof.
  induction rs as [|[r mw] rs IH] using rev_ind; [split; [constructor|]; intros m; cbn; intros r v []%not_elem_of_nil|].
  unfold put_all. rewrite foldl_app. by apply put_reading_latest.
Qed.

Lemma apply_row_values_readings mode r hs : forall st,
  apply_row_values mode r hs st = match row_readings mode r hs with inl e => inl e | inr rs => inr (put_all rs st) end.
Proof.
  induction hs as [|h hs IH]; intros st; [done|]. cbn. destruct (hint_reading mode r h) as [e|[mw|]]; [done| |]; rewrite IH; by destruct (row_readings mode r hs).
Qed.

Lemma apply_values_readings mode by_ rows : forall st,
  apply_values mode by_ rows st = match readings mode by_ rows with inl e => inl e | inr rs => inr (put_all rs st) end.
Proof.
  induction rows as [|r rows IH]; intros st; [done|]. cbn. destruct (by_ !! er_topic0 r) as [hs|]; [|by rewrite IH].
  destruct (row_is_undecodable r); [done|]. rewrite apply_row_values_readings. destruct (row_readings mode r hs) as [e|rs]; [done|].
  rewrite IH. destruct (readings mode by_ rows) as [e|rs']; [done|]. unfold put_all. by rewrite foldl_app.
Qed.

Lemma readings_app mode by_ rows rows' :
  readings mode by_ (rows ++ rows')%list =
  match readings mode by_ rows with
  | inl e => inl e
  | inr rs => match readings mode by_ rows' with inl e => inl e | inr rs' => inr (rs ++ rs')%list end
  end.
Proof.
  induction rows as [|r rows IH]; cbn; [by destruct (readings mode by_ rows')|]. destruct (by_ !! er_topic0 r) as [hs|]; [|done].
  destruct (row_is_undecodable r); [done|]. destruct (row_readings mode r hs) as [e|rs]; [done|]. rewrite IH.
  destruct (readings mode by_ rows) as [e|rs1]; [done|]. destruct (readings mode by_ rows'); [done|]. by rewrite app_assoc.
Qed.

Lemma values_exact ch i n event_address hs ks fkp block tail_ r :
  indexed ch i n (str_lower event_address) -> (forall t, tail_ = Some t -> exact_tail ch (str_lower event_address) t) ->
  fold_event_values i n event_address hs ks fkp block tail_ = Some r -> values_complete r = true ->
  let by_topic := value_hints_by_topic hs in
  exists mode B upto rs st, value_key_mode ks fkp = Some mode /\ block = Some B /\ read_through i n event_address (topic_list by_topic) B upto /\
    readings mode by_topic (history ch (str_lower event_address) (topic_list by_topic) upto) = inr rs /\ latest rs st /\ entries r = entries_of st.
Proof.
  intros Hidx Htail. unfold fold_event_values. set (by_topic := value_hints_by_topic hs). set (ts := topic_list by_topic).
  destruct (value_key_mode ks fkp) as [mode|]; [|by intros [= <-]]. destruct (forallb _ hs); [|by intros [= <-]]. cbn [negb].
  case_bool_decide as Hne; [by intros [= <-]|]. destruct (existsb _ (map_to_list by_topic)); [by intros [= <-]|].
  destruct (warm_block (map (cursor_state i n event_address) ts)) as [w|] eqn:Hw; [|by intros [= <-]].
  assert (forall t, t ∈ ts -> str_lower t = t) as Hlow by (intros t; apply value_topics_low).
  pose proof (warm_block_all i n event_address ts w Hlow Hw) as Hall.
  assert (ts <> []) as Hts by (destruct Hall as [_ (t & Ht & _)]; intros E; rewrite E in Ht; by apply not_elem_of_nil in Ht).
  destruct (cursor_covers_block (Some w) block) eqn:Hcov; cbn [negb].
  - destruct block as [B|]; [|done]. cbn in Hcov. apply Z.leb_le in Hcov.
    destruct (iter_event_rows _ _ _ _ _) as [rows|] eqn:Er; [|by intros [= <-]]. apply iter_rows_inv in Er as [-> _]; [|done|done].
    rewrite (rows_covered ch i n event_address Hidx ts w Hlow Hall), apply_values_readings.
    destruct (readings mode by_topic _) as [[]|rs] eqn:Ers; [by intros [= <-]|done|]. intros [= <-] _.
    exists mode, B, (height i n event_address), rs, (put_all rs []). do 2 (split; [done|]). split.
    + split; [|by right]. intros t Ht. destruct (proj1 Hall t Ht) as (c & _ & _ & _ & Hle). lia.
    + split; [done|]. split; [apply put_all_latest|done].
  - destruct (iter_event_rows _ _ _ _ _) as [rows|] eqn:Er; [|by intros [= <-]]. apply iter_rows_inv in Er as [-> _]; [|done|done].
    rewrite (rows_cut ch i n event_address Hidx ts w Hall), apply_values_readings.
    destruct (readings mode by_topic _) as [[]|rs] eqn:Ers; [by intros [= <-]|done|].
    destruct tail_ as [t|], block as [B|]; cbn [complete_with_tail]; try by intros [= <-].
    destruct (tail_complete _) eqn:Hc; [|by intros [= <-]]. rewrite (Htail t eq_refl _ _ _ _ eq_refl Hlow Hc), apply_values_readings.
    destruct (readings mode by_topic (recent _ _ _ _ _)) as [[]|rs'] eqn:Ers'; [by intros [= <-]|done|]. intros [= <-] _.
    cbn in Hcov. apply Z.leb_gt in Hcov. exists mode, B, (fun _ => B), (rs ++ rs')%list, (put_all (rs ++ rs')%list []).
    do 2 (split; [done|]). split; [split; [done|by left]|]. split.
    + rewrite <- (history_continues ch _ ts w B (indexed_ledger _ _ _ _ Hidx)) by lia. by rewrite readings_app, Ers, Ers'.
    + split; [apply put_all_latest|]. unfold put_all. cbn [entries]. by rewrite foldl_app.
Qed.

(** ** What the folds promise *)

(** C19: Over an index faithful to the chain for the emitter and a live tail that,
    when it reports itself complete, holds exactly the chain's logs of its range: a
    membership fold published as enumerable is the chain's.  Its members are
    exactly the addresses whose last write, among all logs of the emitter and the
    hinted topics in the chain's own log order, adds them, every one of those logs
    being readable.  The logs are read through the pinned block when a tail
    completed the rows, and each topic through its own cursor, at or past that
    block, when the index covered it. *)
Theorem history_fold_refines_chain ch i n event_address event_hints key_sources block tail_ :
  indexed ch i n (str_lower event_address) -> (forall t, tail_ = Some t -> exact_tail ch (str_lower event_address) t) ->
  let r := fold_event_history i n event_address event_hints key_sources block tail_ in
  let by_topic := event_hints_by_topic event_hints in
  confidence r = Enumerable ->
  exists mk fs B upto, caller_key_index key_sources = Some mk /\ constant_key_filters key_sources mk = Some fs /\ block = Some B /\
    read_through i n event_address (topic_list by_topic) B upto /\
    Forall (fun row => row_is_undecodable row = false) (history ch (str_lower event_address) (topic_list by_topic) upto) /\
    forall m, m ∈ members_ r <-> member_after mk fs by_topic (history ch (str_lower event_address) (topic_list by_topic) upto) m.
Proof. intros Hidx Htail r by_topic Hr. by apply history_enumerable. Qed.

(** The fold answers whenever the index does: with the keys resolved and every
    topic's cursor warm, a pinned block the cursors cover gives the fold of the
    chain's history through the cursors, and one they do not reach gives, after
    a complete tail, the fold through that block; a row that cannot be read
    makes the result partial, never a smaller set. *)
Theorem history_fold_answers ch i n event_address event_hints key_sources mk fs w B :
  let a := str_lower event_address in
  let by_topic := event_hints_by_topic event_hints in
  let ts := topic_list by_topic in
  indexed ch i n a -> caller_key_index key_sources = Some mk -> constant_key_filters key_sources mk = Some fs ->
  by_topic <> ∅ -> (topic_fold_modes by_topic).2 = false -> warm_block (map (cursor_state i n event_address) ts) = Some w ->
  (B <= w -> forall tail_, fold_event_history i n event_address event_hints key_sources (Some B) tail_ =
     history_result mk fs by_topic (history ch a ts (height i n event_address)) (Some w) None) /\
  (w < B -> forall tail_, exact_tail ch a tail_ -> tail_complete (tail_ event_address ts w B) = true ->
     fold_event_history i n event_address event_hints key_sources (Some B) (Some tail_) =
     history_result mk fs by_topic (history ch a ts (fun _ => B)) (Some B)
       (Some (tail_from (tail_ event_address ts w B), tail_to (tail_ event_address ts w B)))).
Proof.
  intros a by_topic ts Hidx Hmk Hfs Hne Hamb Hw. split.
  - intros HB tail_. by apply (history_covered ch i n event_address Hidx event_hints key_sources mk fs w B).
  - intros HB tail_ Htail Hc. by apply (history_behind ch i n event_address Hidx event_hints key_sources mk fs w B).
Qed.

(** A value fold published as complete holds the latest value of every caller:
    each entry's value comes from a log of the chain's history whose position no
    log writing that caller exceeds, and every caller written has one entry. *)
Theorem value_fold_is_latest ch i n event_address value_hints key_sources fold_key_position block tail_ r :
  indexed ch i n (str_lower event_address) -> (forall t, tail_ = Some t -> exact_tail ch (str_lower event_address) t) ->
  fold_event_values i n event_address value_hints key_sources fold_key_position block tail_ = Some r -> values_complete r = true ->
  let by_topic := value_hints_by_topic value_hints in
  exists mode B upto rs st, value_key_mode key_sources fold_key_position = Some mode /\ block = Some B /\
    read_through i n event_address (topic_list by_topic) B upto /\
    readings mode by_topic (history ch (str_lower event_address) (topic_list by_topic) upto) = inr rs /\ latest rs st /\ entries r = entries_of st.
Proof. apply values_exact. Qed.

(** A single-topic fold published as enumerable lists exactly the members the
    chain's logs of that topic name. *)
Theorem writes_fold_refines_chain ch i n event_address topic0 t2k d2k ks block tail_ :
  indexed ch i n (str_lower event_address) -> (forall t, tail_ = Some t -> exact_tail ch (str_lower event_address) t) ->
  let r := fold_event_writes i n event_address topic0 t2k d2k ks block tail_ in
  confidence r = Enumerable ->
  exists mk fs B upto, caller_key_index ks = Some mk /\ constant_key_filters ks mk = Some fs /\ block = Some B /\
    read_through i n event_address [str_lower topic0] B upto /\
    forall m, m ∈ members_ r <->
      exists row, row ∈ history ch (str_lower event_address) [str_lower topic0] upto /\ row_member mk fs t2k d2k row = Some m.
Proof. apply writes_exact. Qed.

(** The live tail is exact: over a node that answers as documented, a complete
    tail of the streaming fetcher holds the chain's logs of the topics in the
    missing range, in log order; every failure leaves it incomplete. *)
Theorem tail_is_exact ch a node range floor cap max_span :
  ledger ch -> wire_chain ch -> (forall ts, truthful_node (node a ts) cap ch [a] ts) ->
  exact_tail ch a (scan_event_tail (stream_scan node (new_fetcher range floor cap true)) max_span).
Proof. intros Hl Hw Hn. by apply stream_tail_exact; [|done|cbn; lia|cbn; lia|]. Qed.

(** *** A small index *)

Definition fold_topic : string := hex32 "1".
Definition fold_cursor : IndexedEventCursor :=
  mkCursor 5 None 7 true (Some 0) (Some FIRST_INDEXED_BASIS_CREATION) (Some ENROLLMENT_BASIS_PREDICATE_HINT) None None None None None (Some 0) None.
Definition fold_index : index :=
  mkIndex {[ key_of (1, wire_emitter, fold_topic) wire_demo := row_of wire_demo ]} {[ ((1, wire_emitter, fold_topic) : cursor_key) := fold_cursor ]}.

Definition fold_hint : hint :=
  [("topic0", PyStr fold_topic); ("direction", PyStr "add"); ("data_to_keys", PyDict [("1", PyInt 0)]); ("value_position", PyInt 0)].
Definition fold_sources : list hint := [[("source", PyStr "msg_sender")]].

Lemma demo_ledger : ledger wire_demo_chain.
Proof. split; [apply NoDup_singleton|apply wire_demo_ok]. Qed.

Lemma fold_indexed : indexed wire_demo_chain fold_index 1 (str_lower wire_emitter).
Proof.
  split; [apply demo_ledger| |].
  - assert (str_lower wire_emitter = wire_emitter /\ str_lower fold_topic = fold_topic) as [Ha Ht] by by vm_compute. split; cbn [cursors logs fold_index].
    + intros k c _ [<- _]%lookup_singleton_Some. done.
    + intros k c _ [<- <-]%lookup_singleton_Some l seed _ ->%list_elem_of_singleton _ _. by apply lookup_singleton_eq.
    + intros k h m r _ [[= <- <- <-] <-]%lookup_singleton_Some. eexists. split; [apply lookup_singleton_eq|].
      exists wire_demo. split; [by left|]. split; [split; by vm_compute|]. do 3 (split; [done|]). by vm_compute.
    + intros k c _ [_ <-]%lookup_singleton_Some h. done.
  - intros t c Hc _. cbn in Hc. apply lookup_singleton_Some in Hc as [_ <-]. exists 0. split; [done|].
    intros l ->%list_elem_of_singleton _. cbn. lia.
Qed.

Definition no_tail : TailScanner := fun _ _ frontier b => mkTail false (frontier + 1) b [] None.

Lemma no_tail_exact ch a : exact_tail ch a no_tail.
Proof. done. Qed.

Lemma history_fold_refines_chain_witness :
  let r := fold_event_history fold_index 1 wire_emitter [fold_hint] fold_sources (Some 4) (Some no_tail) in
  let by_topic := event_hints_by_topic [fold_hint] in
  confidence r = Enumerable /\
  exists mk fs B upto, caller_key_index fold_sources = Some mk /\ constant_key_filters fold_sources mk = Some fs /\ Some 4 = Some B /\
    read_through fold_index 1 wire_emitter (topic_list by_topic) B upto /\
    Forall (fun row => row_is_undecodable row = false) (history wire_demo_chain (str_lower wire_emitter) (topic_list by_topic) upto) /\
    forall m, m ∈ members_ r <-> member_after mk fs by_topic (history wire_demo_chain (str_lower wire_emitter) (topic_list by_topic) upto) m.
Proof.
  assert (confidence (fold_event_history fold_index 1 wire_emitter [fold_hint] fold_sources (Some 4) (Some no_tail)) = Enumerable) as Hc by by vm_compute.
  split; [exact Hc|].
  apply (history_fold_refines_chain wire_demo_chain fold_index 1 wire_emitter [fold_hint] fold_sources (Some 4) (Some no_tail));
    [exact fold_indexed|intros t [= <-]; apply no_tail_exact|exact Hc].
Defined.

(** The member of the witness is the address of the second data word. *)
Example fold_members : members_ (fold_event_history fold_index 1 wire_emitter [fold_hint] fold_sources (Some 4) None) = ["0x" ++ str_repeat "f" 40].
Proof. by vm_compute. Qed.

(** The live tail of the demo node from block 2. *)
Definition demo_tail : TailScanner := scan_event_tail (stream_scan (fun a ts => demo_node [a] ts) (new_fetcher 2 1 (Some 10) true)) 100.

Lemma tail_is_exact_witness : exact_tail wire_demo_chain wire_emitter demo_tail /\ tail_logs (demo_tail wire_emitter [fold_topic] 2 5) = [wire_demo].
Proof.
  split; [|by vm_compute].
  apply (tail_is_exact wire_demo_chain wire_emitter (fun a ts => demo_node [a] ts) 2 1 (Some 10) 100);
    [exact demo_ledger|exact wire_demo_ok|]. intros ts. apply honest_node_truthful, demo_honest.
Defined.

Lemma history_fold_answers_witness :
  fold_event_history fold_index 1 wire_emitter [fold_hint] fold_sources (Some 4) None =
    history_result 0 [] (event_hints_by_topic [fold_hint])
      (history wire_demo_chain (str_lower wire_emitter) (topic_list (event_hints_by_topic [fold_hint])) (height fold_index 1 wire_emitter)) (Some 5) None.
Proof.
  apply (history_fold_answers wire_demo_chain fold_index 1 wire_emitter [fold_hint] fold_sources 0 [] 5 4);
    [exact fold_indexed|by vm_compute|by vm_compute| |by vm_compute|by vm_compute|lia].
  intros He. assert (topic_list (event_hints_by_topic [fold_hint]) = []) as Hn by by rewrite He. by vm_compute in Hn.
Defined.

Lemma value_fold_is_latest_witness :
  let by_topic := value_hints_by_topic [fold_hint] in
  exists r mode B upto rs st, fold_event_values fold_index 1 wire_emitter [fold_hint] fold_sources None (Some 4) None = Some r /\
    value_key_mode fold_sources None = Some mode /\ Some 4 = Some B /\ read_through fold_index 1 wire_emitter (topic_list by_topic) B upto /\
    readings mode by_topic (history wire_demo_chain (str_lower wire_emitter) (topic_list by_topic) upto) = inr rs /\ latest rs st /\ entries r = entries_of st.
Proof.
  intros by_topic. destruct (fold_event_values fold_index 1 wire_emitter [fold_hint] fold_sources None (Some 4) None) as [r|] eqn:E.
  - exists r.
    destruct (value_fold_is_latest wire_demo_chain fold_index 1 wire_emitter [fold_hint] fold_sources None (Some 4) None r fold_indexed) as (mode & B & upto & rs & st & H);
      [done|exact E| |exists mode, B, upto, rs, st; split; [reflexivity|exact H]].
    assert (values_complete <$> fold_event_values fold_index 1 wire_emitter [fold_hint] fold_sources None (Some 4) None = Some true) as Hc by by vm_compute.
    rewrite E in Hc. by injection Hc.
  - exfalso. assert (is_Some (fold_event_values fold_index 1 wire_emitter [fold_hint] fold_sources None (Some 4) None)) as [r Hr] by (vm_compute; by eexists).
    congruence.
Defined.

Lemma writes_fold_refines_chain_witness :
  let r := fold_event_writes fold_index 1 wire_emitter fold_topic (PyDict []) (PyDict [("1", PyInt 0)]) fold_sources (Some 4) None in
  confidence r = Enumerable /\
  exists mk fs B upto, caller_key_index fold_sources = Some mk /\ constant_key_filters fold_sources mk = Some fs /\ Some 4 = Some B /\
    read_through fold_index 1 wire_emitter [str_lower fold_topic] B upto /\
    forall m, m ∈ members_ r <->
      exists row, row ∈ history wire_demo_chain (str_lower wire_emitter) [str_lower fold_topic] upto /\
        row_member mk fs (PyDict []) (PyDict [("1", PyInt 0)]) row = Some m.
Proof.
  assert (confidence (fold_event_writes fold_index 1 wire_emitter fold_topic (PyDict []) (PyDict [("1", PyInt 0)]) fold_sources (Some 4) None) = Enumerable) as Hc
    by by vm_compute.
  split; [exact Hc|].
  apply (writes_fold_refines_chain wire_demo_chain fold_index 1 wire_emitter fold_topic (PyDict []) (PyDict [("1", PyInt 0)]) fold_sources (Some 4) None);
    [exact fold_indexed|done|exact Hc].
Defined.
