(* ===== verification/Allowlist.v ===== *)
(** * Allowlists replayed from writer events

    [services/resolution/mapping_enumerator.py]: the fold of mapping-writer logs
    into current members, the read of it from the durable index, and the value
    predicates that filter latest values.  Keccak is a parameter ([topic0_of],
    the topic of an event signature); [AllowlistState] is a dict in insertion
    order; the cached HyperSync scan around the same fold is not modelled. *)

From stdpp Require Import base gmap sets list strings sorting.
From Stdlib Require Import String Ascii ZArith Lia.
From S2P Require Import Prelude PyText Planes EventIndex LogFetch EventFold.

Local Open Scope string_scope.
Local Open Scope Z_scope.

(** [services/clients/rpc.py] *)
Definition normalize_hex (s : string) : string := if str_after "0x" s then str_lower s else "0x".

Record WriterEventSpec := mkSpec {
  mapping_name : string;
  event_signature : string;
  key_position : Z;
  indexed_positions : list Z;
  direction : string;
  value_position : option Z;
  key_filter : option Z;
}.

(** ** Reading a log *)

Record ReplayLog := mkReplay {
  replay_topics : list string;
  replay_data : string;
  replay_block : Z;
}.

Definition topics_from_log (l : ReplayLog) : list string :=
  map normalize_hex (List.filter (fun t => if str_after "0x" t then true else false) (replay_topics l)).

Definition decode_address_topic (t : string) : string :=
  let t := normalize_hex t in
  if bool_decide (String.length t = 66)%nat then normalize_hex ("0x" ++ str_last 40 t) else "".

Definition data_body (data : string) : string := match str_after "0x" data with Some body => body | None => data end.

(** [body[start:end]] of one word, [None] past the end. *)
Definition data_slot (data : string) (position : nat) : option string :=
  let body := data_body data in
  if bool_decide (64 * position + 64 <= String.length body)%nat then Some (str_take 64 (str_drop (64 * position) body)) else None.

Definition decode_address_arg_from_data (data : string) (position : nat) : string :=
  match data_slot data position with Some slot => normalize_hex ("0x" ++ str_last 40 slot) | None => "" end.

(** The non-indexed positions through one, whose count gives the data word. *)
Definition data_rank (indexed : list Z) (position : Z) : option nat :=
  match List.length (filter (fun p => p ∉ indexed) (seqZ 0 (position + 1))) with O => None | S r => Some r end.

Definition or_0x (s : string) : string := if String.eqb s "" then "0x" else s.

Definition extract_value_word (l : ReplayLog) (position : Z) (indexed : list Z) : string :=
  let indexed := z_sorted_set indexed in
  match list_index position indexed with
  | Some rank => match topics_from_log l !! S rank with Some t => normalize_hex t | None => "" end
  | None =>
      match data_rank indexed position with
      | None => ""
      | Some r => match data_slot (or_0x (replay_data l)) r with Some slot => normalize_hex ("0x" ++ slot) | None => "" end
      end
  end.

Definition extract_key_address (l : ReplayLog) (position : Z) (indexed : list Z) : string :=
  let indexed := z_sorted_set indexed in
  match list_index position indexed with
  | Some rank => match topics_from_log l !! S rank with Some t => decode_address_topic t | None => "" end
  | None =>
      match data_rank indexed position with
      | None => ""
      | Some r => decode_address_arg_from_data (or_0x (replay_data l)) r
      end
  end.

(** ** The fold *)

Section Topics.
Variable topic0_of : string -> string.

(** [setdefault(...).append(spec)] over the specs, then the topics whose specs
    disagree on direction are dropped. *)
Definition group_specs (specs : list WriterEventSpec) : gmap string (list WriterEventSpec) :=
  foldl (fun out s => let t := topic0_of (event_signature s) in <[t := (default [] (out !! t) ++ [s])%list]> out) ∅ specs.

Definition agreed (specs : list WriterEventSpec) : bool :=
  match specs with s :: rest => forallb (fun s' => String.eqb (direction s') (direction s)) rest | [] => true end.

Definition writer_topic_specs (specs : list WriterEventSpec) : gmap string (list WriterEventSpec) * bool :=
  let grouped := group_specs specs in
  (omap (fun ss => if agreed ss then Some ss else None) grouped, existsb (fun ts => negb (agreed ts.2)) (map_to_list grouped)).
End Topics.

Record allow_entry := mkAllow {
  present : bool;
  history_ : list string;
  last_block : Z;
  held_keys : option (gmap string bool);
}.

Definition allow_state : Type := list ((string * string) * allow_entry).

Fixpoint allow_get (k : string * string) (st : allow_state) : option allow_entry :=
  match st with [] => None | (k', e) :: st => if decide (k = k') then Some e else allow_get k st end.

Fixpoint allow_put (k : string * string) (e : allow_entry) (st : allow_state) : allow_state :=
  match st with
  | [] => [(k, e)]
  | (k', e') :: st => if decide (k = k') then (k, e) :: st else (k', e') :: allow_put k e st
  end.

Definition is_adding (s : WriterEventSpec) : bool := String.eqb (direction s) "add".

(** [any(keys.values())] *)
Definition any_held (keys : gmap string bool) : bool := existsb snd (map_to_list keys).

(** The member a spec reads from a log, if it is an address. *)
Definition spec_member (l : ReplayLog) (s : WriterEventSpec) : option string :=
  let a := extract_key_address l (key_position s) (indexed_positions s) in
  if (if str_after "0x" a then true else false) && bool_decide (String.length a = 42)%nat then Some a else None.

Definition new_entry : allow_entry := mkAllow false [] 0 None.

Definition update_entry (l : ReplayLog) (s : WriterEventSpec) (e : allow_entry) : allow_entry :=
  let hist := (history_ e ++ [direction s])%list in
  let last := Z.max (last_block e) (replay_block l) in
  match key_filter s with
  | Some position =>
      let word := extract_value_word l position (indexed_positions s) in
      let keys := <[word := is_adding s]> (default ∅ (held_keys e)) in
      mkAllow (any_held keys) hist last (Some keys)
  | None => mkAllow (is_adding s) hist last (held_keys e)
  end.

Definition fold_spec (l : ReplayLog) (st : allow_state) (s : WriterEventSpec) : allow_state :=
  match spec_member l s with
  | None => st
  | Some a => let k := (mapping_name s, a) in allow_put k (update_entry l s (default new_entry (allow_get k st))) st
  end.

Definition specs_of (by_topic : gmap string (list WriterEventSpec)) (l : ReplayLog) : list WriterEventSpec :=
  match topics_from_log l with t :: _ => default [] (by_topic !! t) | [] => [] end.

Definition fold_allowlist_logs (ls : list ReplayLog) (by_topic : gmap string (list WriterEventSpec)) (st : allow_state) : allow_state :=
  foldl (fun st l => foldl (fold_spec l) st (specs_of by_topic l)) st ls.

Record EnumeratedPrincipal := mkPrincipal {
  principal_address : string;
  principal_mapping : string;
  direction_history : list string;
  last_seen_block : Z;
  principal_keys : option (list string);
}.

Definition held_words (keys : gmap string bool) : list string :=
  merge_sort str_le (map fst (filter (fun kb => kb.2 = true) (map_to_list keys))).

Definition allowlist_principals (st : allow_state) : list EnumeratedPrincipal :=
  omap (fun ke => if present ke.2
                  then Some (mkPrincipal ke.1.2 ke.1.1 (history_ ke.2) (last_block ke.2) (held_words <$> held_keys ke.2))
                  else None) st.

(** ** From the index *)

(** [indexed_replay_log] of a readable row. *)
Definition row_body (w : string) : string := match str_after "0x" w with Some body => body | None => w end.

Definition replay_of (r : event_row) : ReplayLog :=
  mkReplay (er_topics r) ("0x" ++ str_join "" (map row_body (er_data_words r))) (er_block r).

(** [None]: [UndecodableEventRow]. *)
Definition indexed_replay_log (r : event_row) : option ReplayLog := if row_is_undecodable r then None else Some (replay_of r).

Definition INDEX_UNDECODABLE : string := "undecodable_event_data".
Definition INDEX_AMBIGUOUS : string := "ambiguous_writer_event".
Definition INDEX_NO_WRITER_SPECS : string := "no_writer_specs".

Record IndexedAllowlist := mkIndexedAllowlist {
  allow_principals : list EnumeratedPrincipal;
  allow_complete : bool;
  allow_topics : list string;
  allow_reason : option string;
  allow_block : option Z;
}.

Definition enumerate_mapping_allowlist_from_index (topic0_of : string -> string) (i : index) (chain_id : Z) (contract_address : string)
    (specs : list WriterEventSpec) (block : option Z) (tail_ : option TailScanner) : IndexedAllowlist :=
  let (by_topic, ambiguous) := writer_topic_specs topic0_of specs in
  let ts := merge_sort str_le (map fst (map_to_list by_topic)) in
  let unproven reason b := mkIndexedAllowlist [] false ts reason b in
  match specs with
  | [] => unproven (Some INDEX_NO_WRITER_SPECS) None
  | _ =>
      if ambiguous || bool_decide (ts = []) then unproven (Some INDEX_AMBIGUOUS) None
      else match logs_through_block i chain_id (str_lower contract_address) ts block tail_ with
           | None => unproven (Some INDEX_UNDECODABLE) None
           | Some read =>
               if negb (read_complete read) then unproven (read_reason read) (read_block read)
               else match mapM indexed_replay_log (read_logs read) with
                    | None => unproven (Some INDEX_UNDECODABLE) None
                    | Some ls => mkIndexedAllowlist (allowlist_principals (fold_allowlist_logs ls by_topic [])) true ts None (read_block read)
                    end
           end
  end.

(** ** Value predicates *)

Definition ADDRESS_MASK : Z := Z.shiftl 1 160 - 1.

(** [re.fullmatch(r"int\d*", t)] *)
Definition is_signed_type (t : string) : bool := match str_after "int" t with Some d => str_forall is_digit d | None => false end.

(** [re.fullmatch(r"bytes([1-9]|[12]\d|3[01])", t)] *)
Definition is_short_bytes (t : string) : bool :=
  match str_after "bytes" t with
  | Some (String c "") => is_digit c && negb (Ascii.eqb c "0")
  | Some (String c (String d "")) =>
      (Ascii.eqb c "1" || Ascii.eqb c "2") && is_digit d || Ascii.eqb c "3" && (Ascii.eqb d "0" || Ascii.eqb d "1")
  | _ => false
  end.

Definition to_int (v : pyval) : option Z :=
  match v with
  | PyBool b => Some (if b then 1 else 0)
  | PyInt z => Some z
  | PyStr s =>
      let text := str_lower (str_strip s) in
      if String.eqb text "true" then Some 1
      else if String.eqb text "false" then Some 0
      else if str_after "0x" text then int_text 16 text else int_text 10 text
  | _ => None
  end.

Definition predicate_type (p : hint) : string := str_strip (py_str (py_or (py_get "value_type" p) (PyStr "uint256"))).

(** The value as the type reads it; [None] when it cannot. *)
Definition typed_value (p : hint) (word : Z) : option Z :=
  let t := predicate_type p in
  if String.eqb t "string" || String.eqb t "bytes" || str_ends_with "]" t || is_short_bytes t then None
  else
    masked ← match py_get "mask" p with
             | PyNone => Some word
             | m => mask ← to_int m; Some (Z.land word mask)
             end;
    Some (if str_after "address" t then Z.land masked ADDRESS_MASK
          else if is_signed_type t && negb (Z.shiftr masked 255 =? 0) then masked - Z.shiftl 1 256 else masked).

Definition compare_op (op : string) (x : Z) (rhs : list Z) : option bool :=
  match rhs with
  | [] => None
  | _ =>
      if String.eqb op "in" then Some (bool_decide (x ∈ rhs))
      else match rhs with
           | [r] =>
               if String.eqb op "eq" then Some (x =? r)
               else if String.eqb op "ne" then Some (negb (x =? r))
               else if String.eqb op "lt" then Some (x <? r)
               else if String.eqb op "lte" then Some (x <=? r)
               else if String.eqb op "gt" then Some (r <? x)
               else if String.eqb op "gte" then Some (r <=? x) else None
           | _ => None
           end
  end.

Definition predicate_op (p : hint) : string := py_str (py_or (py_get "op" p) (PyStr "")).

Definition value_predicate_passes (value_hex : string) (p : hint) : option bool :=
  if negb ((if str_after "0x" value_hex then true else false) && bool_decide (String.length value_hex = 66)%nat) then None
  else
    actual ← int_text 16 value_hex;
    if String.eqb (predicate_op p) "any_nonzero" then Some (negb (actual =? 0))
    else
      x ← typed_value p actual;
      rhs ← mapM to_int (py_list (py_get "rhs_values" p));
      compare_op (predicate_op p) x rhs.

Fixpoint passing_keys (p : hint) (es : list value_entry) : option (list string) :=
  match es with
  | [] => Some []
  | e :: es =>
      b ← value_predicate_passes (entry_value e) p;
      ks ← passing_keys p es;
      Some (if (b : bool) then entry_key e :: ks else ks)
  end.

Definition filter_value_entries (es : list value_entry) (p : hint) : option (list string) :=
  match value_predicate_passes ZERO_WORD p with Some false => passing_keys p es | _ => None end.
