(* ===== verification/AllowlistTheory.v ===== *)
(** * Replayed allowlists are the chain's

    The fold treats every (mapping, member) pair on its own: an entry is the
    replay of the logs that touch it.  A complete read from the index replays
    the chain's history; a value filter answers for every caller, written or
    not. *)

From stdpp Require Import base gmap sets list strings sorting.
From Stdlib Require Import String Ascii ZArith Lia.
From S2P Require Import Prelude PyText EventIndex EventIndexTheory LogFetch LogFetchTheory EventFold EventFoldTheory Allowlist.

Local Open Scope string_scope.
Local Open Scope Z_scope.

(** ** Entries *)

Lemma allow_put_get k e st k' : allow_get k' (allow_put k e st) = if decide (k' = k) then Some e else allow_get k' st.
Proof.
  induction st as [|[k0 e0] st IH]; cbn; [by destruct (decide (k' = k))|].
  destruct (decide (k = k0)) as [<-|Hne]; cbn; [by destruct (decide (k' = k))|]. rewrite IH.
  destruct (decide (k' = k0)) as [->|]; [|done]. by destruct (decide (k0 = k)).
Qed.

Lemma allow_put_keys k e st x : x ∈ (allow_put k e st).*1 <-> x = k \/ x ∈ st.*1.
Proof.
  induction st as [|[k0 e0] st IH]; cbn; [by rewrite list_elem_of_singleton; set_solver|].
  destruct (decide (k = k0)) as [<-|Hne]; cbn; rewrite !elem_of_cons; [naive_solver|]. rewrite IH. naive_solver.
Qed.

Lemma allow_put_nodup k e st : NoDup st.*1 -> NoDup (allow_put k e st).*1.
Proof.
  induction st as [|[k0 e0] st IH]; cbn; [by constructor; [apply not_elem_of_nil|constructor]|]. intros [Hn Hd]%NoDup_cons.
  destruct (decide (k = k0)) as [<-|Hne]; cbn; [by constructor|]. constructor; [|by apply IH]. rewrite allow_put_keys. naive_solver.
Qed.

Lemma allow_get_elem k e st : NoDup st.*1 -> (k, e) ∈ st <-> allow_get k st = Some e.
Proof.
  induction st as [|[k0 e0] st IH]; cbn; [intros _; split; [intros []%not_elem_of_nil|done]|]. intros [Hn Hd]%NoDup_cons.
  rewrite elem_of_cons. destruct (decide (k = k0)) as [->|Hne].
  - split; [intros [[= ->]|Hin]; [done|]|intros [= ->]; by left]. exfalso. apply Hn. apply list_elem_of_fmap. by exists (k0, e).
  - rewrite <- IH by done. naive_solver.
Qed.

(** ** Touches *)

(** A log as one spec reads it. *)
Notation touch := (ReplayLog * WriterEventSpec)%type.

(** The readings of a log that concern a key. *)
Definition touches_key (k : string * string) (x : touch) : Prop :=
  mapping_name x.2 = k.1 /\ spec_member x.1 x.2 = Some k.2.

#[export] Instance touches_key_dec k x : Decision (touches_key k x).
Proof. unfold touches_key. apply _. Defined.

Definition readings_of (by_topic : gmap string (list WriterEventSpec)) (ls : list ReplayLog) : list touch :=
  mjoin (map (fun l => map (fun s => (l, s)) (specs_of by_topic l)) ls).

Definition touches (k : string * string) (xs : list touch) : list touch := filter (touches_key k) xs.

Definition replay (xs : list touch) : allow_entry := foldl (fun e x => update_entry x.1 x.2 e) new_entry xs.

Lemma fold_as_readings ls by_topic : forall st,
  fold_allowlist_logs ls by_topic st = foldl (fun st x => fold_spec x.1 st x.2) st (readings_of by_topic ls).
Proof.
  induction ls as [|l ls IH]; intros st; [done|]. unfold fold_allowlist_logs, readings_of. cbn. rewrite foldl_app.
  unfold fold_allowlist_logs, readings_of in IH. rewrite IH. f_equal.
  generalize (specs_of by_topic l) as ss. intros ss. revert st. induction ss as [|s ss IHs]; intros st; [done|]. cbn. by rewrite IHs.
Qed.

Definition fold_readings (xs : list touch) : allow_state := foldl (fun st x => fold_spec x.1 st x.2) [] xs.

Lemma fold_readings_snoc xs l s : fold_readings (xs ++ [(l, s)])%list = fold_spec l (fold_readings xs) s.
Proof. unfold fold_readings. by rewrite foldl_app. Qed.

(** Each entry is the replay of the readings that touch it. *)
Lemma fold_entry xs k :
  allow_get k (fold_readings xs) = match touches k xs with [] => None | ts => Some (replay ts) end /\ NoDup (fold_readings xs).*1.
Proof.
  induction xs as [|[l s] xs IH] using rev_ind; [split; [done|constructor]|]. rewrite fold_readings_snoc.
  set (st := fold_readings xs) in *. destruct IH as [IH Hnd]. unfold touches in *. rewrite filter_app. unfold fold_spec.
  destruct (spec_member l s) as [a|] eqn:Em.
  - split; [|by apply allow_put_nodup]. rewrite allow_put_get. destruct (decide (k = (mapping_name s, a))) as [->|Hne].
    + rewrite (filter_cons_True _ (l, s)) by done. rewrite IH. cbn. unfold replay.
      destruct (filter _ xs) as [|y ys] eqn:E; [done|]. cbn [app default]. change (y :: ys ++ [(l, s)])%list with ((y :: ys) ++ [(l, s)])%list.
      by rewrite foldl_app.
    + rewrite filter_cons_False; [by rewrite app_nil_r|]. intros [H1 H2]. cbn in *. apply Hne. destruct k. cbn in *. congruence.
  - split; [|done]. rewrite filter_cons_False; [by rewrite app_nil_r|]. intros [_ H]. cbn in H. congruence.
Qed.

(** ** Membership *)

(** What the readings with another key write: that key's word and direction. *)
Definition key_writes (xs : list touch) : list (string * bool) :=
  omap (fun x => position ← key_filter x.2; Some (extract_value_word x.1 position (indexed_positions x.2), is_adding x.2)) xs.

(** A member after its readings: the last one adds it, or, when the mapping has
    another key, some word of that key was last added. *)
Definition member_of_readings (xs : list touch) : Prop :=
  match last xs with
  | None => False
  | Some x => match key_filter x.2 with
              | None => is_adding x.2 = true
              | Some _ => exists w, last_write (key_writes xs) w true
              end
  end.

Lemma replay_keys xs : held_keys (replay xs) = match key_writes xs with [] => None | ws => Some (write_all ws ∅) end.
Proof.
  induction xs as [|[l s] xs IH] using rev_ind; [done|]. unfold replay, key_writes. rewrite foldl_app, omap_app. fold (replay xs). fold (key_writes xs).
  cbn. unfold update_entry. destruct (key_filter s) as [position|]; cbn [held_keys]; [|by rewrite app_nil_r].
  rewrite IH. set (w := extract_value_word l position (indexed_positions s)). destruct (key_writes xs) as [|y ys] eqn:E; [done|].
  change ((y :: ys) ++ [(w, is_adding s)])%list with (y :: (ys ++ [(w, is_adding s)]))%list. f_equal.
  symmetry. apply (write_all_app (y :: ys) [(w, is_adding s)] ∅).
Qed.

Lemma any_held_spec keys : any_held keys = true <-> exists w, keys !! w = Some true.
Proof.
  unfold any_held. rewrite existsb_exists. split.
  - intros ([w b] & Hin%list_elem_of_In%elem_of_map_to_list & Hb). cbn in Hb. subst. by exists w.
  - intros [w Hw]. exists (w, true). split; [|done]. by apply list_elem_of_In, elem_of_map_to_list.
Qed.

Lemma replay_present xs : present (replay xs) = true <-> member_of_readings xs.
Proof.
  induction xs as [|[l s] xs _] using rev_ind; [done|]. unfold member_of_readings. rewrite last_snoc. cbn [snd].
  pose proof (replay_keys (xs ++ [(l, s)])%list) as Hk. unfold replay in *. rewrite foldl_app in *. cbn [foldl fst snd] in *.
  unfold update_entry in *. destruct (key_filter s) as [position|] eqn:Ef; cbn [present held_keys] in *; [|done].
  rewrite any_held_spec. destruct (key_writes (xs ++ [(l, s)])%list) as [|y ys] eqn:E; [done|].
  apply (inj Some) in Hk. rewrite Hk. split; intros [w Hw]; exists w; by apply write_all_lookup.
Qed.

#[local] Arguments replay : simpl never.

Lemma principals_elem xs m a : let st := fold_readings xs in
  (exists p, p ∈ allowlist_principals st /\ principal_mapping p = m /\ principal_address p = a) <->
  member_of_readings (touches (m, a) xs).
Proof.
  intros st. destruct (fold_entry xs (m, a)) as [Hget Hnd]. fold st in Hget, Hnd. rewrite <- replay_present.
  unfold allowlist_principals. setoid_rewrite list_elem_of_omap. split.
  - intros (p & ([[m' a'] e] & Hin & Hp) & <- & <-). cbn in Hp. destruct (present e) eqn:Ep; [|done]. injection Hp as <-. cbn in *.
    apply allow_get_elem in Hin; [|done]. rewrite Hin in Hget. destruct (touches (m', a') xs); [done|]. apply (inj Some) in Hget. by rewrite <- Hget.
  - intros Hp. assert (allow_get (m, a) st = Some (replay (touches (m, a) xs))) as Hg.
    { rewrite Hget. destruct (touches (m, a) xs); [done|done]. }
    apply allow_get_elem in Hg; [|done]. eexists. split; [exists ((m, a), replay (touches (m, a) xs)); split; [exact Hg|]|].
    + cbn. by rewrite Hp.
    + done.
Qed.

(** ** From the index *)

Lemma replay_decodable rows ls : mapM indexed_replay_log rows = Some ls -> ls = map replay_of rows.
Proof.
  intros H%mapM_Some. induction H as [|r l rows ls Hr _ IH]; [done|]. cbn. rewrite IH.
  unfold indexed_replay_log in Hr. destruct (row_is_undecodable r); [done|]. by injection Hr as <-.
Qed.

(** C37: A complete allowlist read from the index is the chain's: its principals are
    the replay of the emitter's history for the writer topics, read through the
    pinned block or each topic's cursor; and an address is listed for a mapping
    exactly when the readings that touch it leave it a member (last written with
    add, or holding some other key that was last added). *)
Theorem allowlist_refines_chain topic0_of ch i n contract_address specs block tail_ :
  let a := str_lower contract_address in
  let r := enumerate_mapping_allowlist_from_index topic0_of i n contract_address specs block tail_ in
  let by_topic := (writer_topic_specs topic0_of specs).1 in
  indexed ch i n a -> (forall t, tail_ = Some t -> exact_tail ch a t) -> allow_complete r = true ->
  exists B upto, block = Some B /\ read_through i n a (sorted_set (map str_lower (allow_topics r))) B upto /\
    let ls := map replay_of (history ch a (sorted_set (map str_lower (allow_topics r))) upto) in
    allow_principals r = allowlist_principals (fold_allowlist_logs ls by_topic []) /\
    forall m x, (exists p, p ∈ allow_principals r /\ principal_mapping p = m /\ principal_address p = x) <->
      member_of_readings (touches (m, x) (readings_of by_topic ls)).
Proof.
  intros a r by_topic Hidx Htail. unfold r, enumerate_mapping_allowlist_from_index, by_topic. clear r by_topic.
  destruct (writer_topic_specs topic0_of specs) as [by_topic amb]. cbn [fst]. set (ts := merge_sort str_le _).
  destruct specs as [|s specs]; [done|]. destruct (amb || _); [done|].
  destruct (logs_through_block i n (str_lower contract_address) ts block tail_) as [read|] eqn:Er; [|done].
  destruct (read_complete read) eqn:Ec; [|done]. cbn [negb]. destruct (mapM indexed_replay_log (read_logs read)) as [ls|] eqn:El; [|done].
  intros _. cbn [allow_topics allow_principals]. apply replay_decodable in El as ->.
  assert (indexed ch i n (str_lower a)) as Hidx' by by (unfold a; rewrite str_lower_idemp).
  destruct (logs_through_exact ch i n a Hidx' ts block tail_ read) as (B & upto & HB & Hread & Hlogs & _); [|done|done|].
  { intros t Ht. unfold a. rewrite str_lower_idemp. by apply Htail. }
  exists B, upto. split; [done|]. split; [done|]. rewrite Hlogs. unfold a at 1 3. rewrite !str_lower_idemp. split; [done|].
  intros m x. rewrite fold_as_readings. apply principals_elem.
Qed.

(** ** Value filters *)

(** The word a caller holds: its entry's, or zero when it was never written. *)
Fixpoint held_value (es : list value_entry) (k : string) : string :=
  match es with [] => ZERO_WORD | e :: es => if decide (entry_key e = k) then entry_value e else held_value es k end.

Lemma held_value_fresh es k : k ∉ map entry_key es -> held_value es k = ZERO_WORD.
Proof.
  induction es as [|e es IH]; [done|]. cbn [map held_value]. intros [Hne Hn]%not_elem_of_cons.
  rewrite decide_False by congruence. by apply IH.
Qed.

Lemma passing_keys_spec p es : forall out,
  NoDup (map entry_key es) -> passing_keys p es = Some out ->
  (forall k, k ∈ map entry_key es -> exists b, value_predicate_passes (held_value es k) p = Some b) /\
  forall k, k ∈ out <-> k ∈ map entry_key es /\ value_predicate_passes (held_value es k) p = Some true.
Proof.
  induction es as [|e es IH]; intros out Hnd; cbn [passing_keys].
  { intros [= <-]. split; [intros k []%not_elem_of_nil|]. intros k. split; [intros []%not_elem_of_nil|by intros [[]%not_elem_of_nil _]]. }
  cbn [map] in Hnd |- *. apply NoDup_cons in Hnd as [Hn Hnd].
  destruct (value_predicate_passes (entry_value e) p) as [b|] eqn:Eb; [|done]. cbn [mbind option_bind].
  destruct (passing_keys p es) as [ks|] eqn:Ek; [|done]. cbn [mbind option_bind]. intros [= <-].
  destruct (IH ks Hnd eq_refl) as [Hdet Hks]. cbn [held_value]. split.
  - intros k [->|Hk]%elem_of_cons; [rewrite decide_True by done; by exists b|].
    rewrite decide_False by (intros Heq; subst; contradiction). by apply Hdet.
  - intros k. rewrite elem_of_cons. destruct (decide (entry_key e = k)) as [<-|Hne].
    + rewrite Eb. destruct b; [rewrite elem_of_cons; naive_solver|]. rewrite Hks. naive_solver.
    + assert (k ∈ (if b then entry_key e :: ks else ks) <-> k ∈ ks) as -> by (destruct b; [rewrite elem_of_cons|]; naive_solver).
      rewrite Hks. naive_solver.
Qed.

(** A determined value filter answers for every caller: an address is in the
    result exactly when the word it holds satisfies the predicate, where a
    caller no event wrote holds zero; and the predicate could be evaluated on
    every word held. *)
Theorem value_filter_exact es p out :
  NoDup (map entry_key es) -> filter_value_entries es p = Some out ->
  forall k, (exists b, value_predicate_passes (held_value es k) p = Some b) /\
            (k ∈ out <-> value_predicate_passes (held_value es k) p = Some true).
Proof.
  intros Hnd. unfold filter_value_entries. destruct (value_predicate_passes ZERO_WORD p) as [[]|] eqn:Ez; try done.
  intros Hp k. destruct (passing_keys_spec p es out Hnd Hp) as [Hdet Hout].
  destruct (decide (k ∈ map entry_key es)) as [Hk|Hk].
  - split; [by apply Hdet|]. rewrite Hout. naive_solver.
  - rewrite Hout. rewrite (held_value_fresh es k Hk), Ez. split; [by exists false|]. naive_solver.
Qed.

(** *** Typed words *)

Lemma int_digits_bound base s : forall acc u z, 1 < base -> 0 <= acc -> int_digits base acc u s = Some z ->
  0 <= z < (acc + 1) * base ^ Z.of_nat (String.length s).
Proof.
  induction s as [|c s IH]; intros acc u z Hb Ha; cbn [int_digits String.length].
  { destruct u; [done|]. intros [= <-]. cbn. lia. }
  rewrite Nat2Z.inj_succ, Z.pow_succ_r by lia. set (P := base ^ Z.of_nat (String.length s)).
  assert (0 < P) as HP by (apply Z.pow_pos_nonneg; lia).
  destruct (Ascii.eqb c "_").
  { destruct u; [done|]. intros H%IH; [|lia|lia]. fold P in H. nia. }
  destruct (digit_of base c) as [d|] eqn:Ed; [|done]. assert (0 <= d < base) as Hd.
  { unfold digit_of in Ed. destruct (_ <? base) eqn:Hlt; [|done]. injection Ed as <-. split; [|by apply Z.ltb_lt].
    set (n := Z.of_N _). destruct (Z.leb_spec 48 n), (Z.leb_spec n 57), (Z.leb_spec 97 n), (Z.leb_spec n 102), (Z.leb_spec 65 n), (Z.leb_spec n 70);
      cbn; lia. }
  intros H%IH; [|lia|nia]. fold P in H. nia.
Qed.

(** A word the event carries. *)
Definition word_range (z : Z) : Prop := 0 <= z < 2 ^ 256.

Lemma word_value s z : String.length s = 66%nat -> str_after "0x" s <> None -> int_text 16 s = Some z -> word_range z.
Proof.
  intros Hlen Hpre. destruct (str_after "0x" s) as [body|] eqn:E; [|done]. apply str_after_eq in E as ->.
  rewrite str_length_app in Hlen. cbn in Hlen. assert (String.length body = 64%nat) as Hb by lia. clear Hlen Hpre.
  change ("0x" ++ body) with (String "0" (String "x" body)). unfold int_text.
  assert (forall s, (String.length (rstrip_with is_c_space s) <= String.length s)%nat) as Hr.
  { clear. induction s as [|c s IH]; [done|]. cbn. destruct (rstrip_with is_c_space s) eqn:E; [|cbn in *; lia]. destruct (is_c_space c); cbn; lia. }
  change (lstrip_with is_c_space (String "0" (String "x" body))) with (String "0" (String "x" body)).
  assert (rstrip_with is_c_space (String "0" (String "x" body)) = String "0" (String "x" (rstrip_with is_c_space body))) as ->.
  { cbn. by destruct (rstrip_with is_c_space body). }
  unfold int_unsigned. cbn [Z.eqb Pos.eqb skip_hex_prefix]. intros Hz. specialize (Hr body).
  assert (exists body', (String.length body' <= 64)%nat /\ int_digits 16 0 true body' = Some z) as (body' & Hl & Hd).
  { destruct (rstrip_with is_c_space body) as [|c r] eqn:E; [by exists ""|].
    destruct (Ascii.eqb_spec c "_") as [->|Hne]; [exists r; cbn in Hr; split; [lia|done]|].
    exists (String c r). split; [lia|]. rewrite <- Hz. f_equal. by destruct c as [[] [] [] [] [] [] [] []]. }
  apply int_digits_bound in Hd; [|lia|lia]. unfold word_range.
  assert (16 ^ Z.of_nat (String.length body') <= 16 ^ 64) as Hpow by (apply Z.pow_le_mono_r; lia).
  change (2 ^ 256) with (16 ^ 64). lia.
Qed.

Lemma land_range x m : 0 <= x -> 0 <= Z.land x m <= x.
Proof.
  intros Hx. split; [apply Z.land_nonneg; by left|].
  assert (Z.ldiff (Z.land x m) x = 0) as Hz.
  { apply Z.bits_inj'. intros k Hk. rewrite Z.ldiff_spec, Z.land_spec, Z.bits_0. destruct (Z.testbit x k), (Z.testbit m k); done. }
  pose proof (Z.sub_nocarry_ldiff x (Z.land x m) Hz) as Hs.
  assert (0 <= Z.ldiff x (Z.land x m)) by (apply Z.ldiff_nonneg; by left). lia.
Qed.

Lemma address_mask_range x : 0 <= x -> 0 <= Z.land x ADDRESS_MASK < 2 ^ 160.
Proof.
  intros Hx. change ADDRESS_MASK with (Z.ones 160). rewrite Z.land_ones by lia. apply Z.mod_pos_bound. lia.
Qed.

Lemma sign_bit x : word_range x -> (Z.shiftr x 255 =? 0) = (x <? 2 ^ 255).
Proof.
  intros [H0 H1]. rewrite Z.shiftr_div_pow2 by lia. destruct (Z.ltb_spec x (2 ^ 255)) as [Hlt|Hge].
  - rewrite Z.div_small by lia. done.
  - apply Z.eqb_neq. assert (1 <= x / 2 ^ 255) by (apply Z.div_le_lower_bound; lia). lia.
Qed.

(** The integer a predicate compares is the one its type denotes: on a 32-byte
    word an address is its low 160 bits, a signed integer the two's complement
    reading, anything else the word itself, after the mask; so comparisons never
    see a value outside the type's range. *)
Theorem typed_value_denotes p word z :
  word_range word -> typed_value p word = Some z ->
  exists masked, 0 <= masked <= word /\
    match str_after "address" (predicate_type p) with
    | Some _ => z = masked mod 2 ^ 160
    | None => if is_signed_type (predicate_type p)
              then - 2 ^ 255 <= z < 2 ^ 255 /\ z mod 2 ^ 256 = masked
              else z = masked
    end.
Proof.
  intros Hw. unfold typed_value. destruct (_ || _); [done|].
  assert (forall masked, 0 <= masked <= word -> Some (if str_after "address" (predicate_type p) then Z.land masked ADDRESS_MASK
      else if is_signed_type (predicate_type p) && negb (Z.shiftr masked 255 =? 0) then masked - Z.shiftl 1 256 else masked) = Some z ->
    exists masked, 0 <= masked <= word /\
    match str_after "address" (predicate_type p) with
    | Some _ => z = masked mod 2 ^ 160
    | None => if is_signed_type (predicate_type p) then - 2 ^ 255 <= z < 2 ^ 255 /\ z mod 2 ^ 256 = masked else z = masked
    end) as Hfin.
  { intros masked Hm Hz. apply (inj Some) in Hz. subst z. exists masked. split; [done|]. unfold word_range in Hw.
    destruct (str_after "address" _); [change ADDRESS_MASK with (Z.ones 160); by rewrite Z.land_ones by lia|].
    destruct (is_signed_type _); [|done]. cbn [andb]. rewrite sign_bit by (unfold word_range; lia).
    change (Z.shiftl 1 256) with (2 ^ 256). destruct (Z.ltb_spec masked (2 ^ 255)); cbn [negb].
    - split; [lia|]. apply Z.mod_small. lia.
    - split; [lia|]. replace (masked - 2 ^ 256) with (masked + (-1) * 2 ^ 256) by lia. rewrite Z.mod_add by lia. apply Z.mod_small. lia. }
  unfold word_range in Hw. destruct (py_get "mask" p) eqn:Em; cbn [mbind option_bind];
    try (destruct (to_int _) as [mask|]; cbn [mbind option_bind]; [|done]; apply Hfin; apply land_range; lia).
  apply Hfin. lia.
Qed.

(** *** Witnesses *)

Definition demo_topic0_of (s : string) : string := hex32 "1".
Definition demo_spec : WriterEventSpec := mkSpec "wards" "Rely(address)" 1 [] "add" None None.

Lemma allowlist_refines_chain_witness :
  let r := enumerate_mapping_allowlist_from_index demo_topic0_of fold_index 1 wire_emitter [demo_spec] (Some 4) None in
  let by_topic := (writer_topic_specs demo_topic0_of [demo_spec]).1 in
  allow_complete r = true /\
  exists B upto, Some 4 = Some B /\ read_through fold_index 1 (str_lower wire_emitter) (sorted_set (map str_lower (allow_topics r))) B upto /\
    let ls := map replay_of (history wire_demo_chain (str_lower wire_emitter) (sorted_set (map str_lower (allow_topics r))) upto) in
    allow_principals r = allowlist_principals (fold_allowlist_logs ls by_topic []) /\
    forall m x, (exists p, p ∈ allow_principals r /\ principal_mapping p = m /\ principal_address p = x) <->
      member_of_readings (touches (m, x) (readings_of by_topic ls)).
Proof.
  assert (allow_complete (enumerate_mapping_allowlist_from_index demo_topic0_of fold_index 1 wire_emitter [demo_spec] (Some 4) None) = true) as Hc
    by by vm_compute.
  split; [exact Hc|].
  apply (allowlist_refines_chain demo_topic0_of wire_demo_chain fold_index 1 wire_emitter [demo_spec] (Some 4) None); [exact fold_indexed|done|exact Hc].
Defined.

Example demo_allowlist :
  map principal_address (allow_principals (enumerate_mapping_allowlist_from_index demo_topic0_of fold_index 1 wire_emitter [demo_spec] (Some 4) None)) =
  ["0x" ++ str_repeat "f" 40].
Proof. by vm_compute. Qed.

Definition nonzero_predicate : hint := [("op", PyStr "any_nonzero")].
Definition demo_entries : list value_entry := [mkEntry "0xa" (hex32 "1") 3; mkEntry "0xb" ZERO_WORD 4].

Lemma value_filter_exact_witness :
  filter_value_entries demo_entries nonzero_predicate = Some ["0xa"] /\
  (forall k, (exists b, value_predicate_passes (held_value demo_entries k) nonzero_predicate = Some b) /\
    (k ∈ ["0xa"] <-> value_predicate_passes (held_value demo_entries k) nonzero_predicate = Some true)).
Proof.
  split; [by vm_compute|]. apply (value_filter_exact demo_entries nonzero_predicate ["0xa"]); [|by vm_compute].
  repeat constructor; set_solver.
Defined.

Definition int_predicate : hint := [("op", PyStr "lt"); ("value_type", PyStr "int256"); ("rhs_values", PyList [PyStr "0"])].

Lemma typed_value_denotes_witness :
  exists masked, 0 <= masked <= 2 ^ 256 - 1 /\ - 2 ^ 255 <= -1 < 2 ^ 255 /\ -1 mod 2 ^ 256 = masked.
Proof.
  destruct (typed_value_denotes int_predicate (2 ^ 256 - 1) (-1)) as (masked & Hm & H); [by vm_compute|by vm_compute|].
  exists masked. split; [exact Hm|]. exact H.
Defined.
