(* ===== verification/Evidence.v ===== *)
(** * Membership evidence and witness rows

    [services/discovery/membership_gate/rules.py]: the evidence constructors of
    the witness rules, the validation that evidence is what its constructor
    produces, and the witness-row operations over the table
    [contract_membership_witnesses] ([db/models/contracts.py]).

    JSON values are [jval], with Python's equality ([True == 1 == 1.0], dicts
    without order).  An operation that raises [ValueError] or [TypeError] is
    [None].  The two partial unique indexes of the table make a row's key
    (contract, protocol, rule, via) unique, so the table is a finite map on it. *)

From stdpp Require Import base gmap sets list strings.
From Stdlib Require Import String Ascii ZArith QArith Lia.
From S2P Require Import Prelude PyText.

Local Open Scope string_scope.
Local Open Scope Z_scope.

(** ** JSON values *)

Inductive jval :=
  | JNone
  | JBool (b : bool)
  | JInt (z : Z)
  | JFloat (q : Q)
  | JStr (s : string)
  | JList (l : list jval)
  | JDict (d : list (string * jval)).

Definition jdict : Type := list (string * jval).

Definition jget (k : string) (d : jdict) : jval := match assoc_get k d with Some v => v | None => JNone end.

Definition jhas (k : string) (d : jdict) : bool := bool_decide (is_Some (assoc_get k d)).

(** The number a value equals, if it equals one. *)
Definition jnum (v : jval) : option Q :=
  match v with
  | JBool b => Some (inject_Z (if b then 1 else 0))
  | JInt z => Some (inject_Z z)
  | JFloat q => Some q
  | _ => None
  end.

(** [v == w] *)
Fixpoint jeq (v w : jval) : bool :=
  match v, w with
  | JNone, JNone => true
  | JStr s, JStr t => String.eqb s t
  | JList l, JList l' =>
      (fix go l l' := match l, l' with [], [] => true | x :: l, y :: l' => jeq x y && go l l' | _, _ => false end) l l'
  | JDict d, JDict d' =>
      bool_decide (List.length d = List.length d') &&
      forallb (fun kv => match assoc_get kv.1 d' with Some w => jeq kv.2 w | None => false end) d
  | JBool _, _ | JInt _, _ | JFloat _, _ =>
      match jnum v, jnum w with Some x, Some y => Qeq_bool x y | _, _ => false end
  | _, _ => false
  end.

Definition jtruthy (v : jval) : bool :=
  match v with
  | JNone => false
  | JBool b => b
  | JInt z => negb (z =? 0)
  | JFloat q => negb (Qeq_bool q 0)
  | JStr s => negb (String.eqb s "")
  | JList l => match l with [] => false | _ => true end
  | JDict d => match d with [] => false | _ => true end
  end.

(** [v in frozenset]: the text, when it is one of the set's; a value that is not
    hashable raises. *)
Definition one_of (set : list string) (v : jval) : option string :=
  match v with JStr s => if bool_decide (s ∈ set) then Some s else None | _ => None end.

(** [set(raw) == set(rebuilt)] *)
Definition same_keys (d d' : jdict) : bool :=
  forallb (fun k => bool_decide (k ∈ d'.*1)) d.*1 && forallb (fun k => bool_decide (k ∈ d.*1)) d'.*1.

(** ** Vocabulary *)

Definition W1_CODE : string := "w1_code".
Definition W2_STRUCTURAL : string := "w2_structural".
Definition W3_CONTROL : string := "w3_control".
Definition W4_DEPLOYER : string := "w4_deployer".
Definition W4_FACTORY : string := "w4_factory".
Definition W5_HUMAN : string := "w5_human".
Definition W6_LLAMA_SEED : string := "w6_llama_seed".
Definition W4H_DEPLOYER_AFFINITY : string := "w4h_deployer_affinity".

Definition WITNESS_RULES : list string :=
  [W1_CODE; W2_STRUCTURAL; W3_CONTROL; W4_DEPLOYER; W4_FACTORY; W4H_DEPLOYER_AFFINITY; W5_HUMAN; W6_LLAMA_SEED].

Definition ADMITTING_WITNESS_RULES : list string :=
  [W2_STRUCTURAL; W3_CONTROL; W4_DEPLOYER; W4_FACTORY; W4H_DEPLOYER_AFFINITY; W5_HUMAN; W6_LLAMA_SEED].

Definition HEURISTIC_WITNESS_RULES : list string := [W4H_DEPLOYER_AFFINITY].

Definition W2_EDGE_KINDS : list string :=
  ["implementation"; "proxy"; "beacon"; "proxy_admin"; "secondary_implementation"; "historical_implementation"].
Definition W2_SAME_CONTRACT_EDGE_KINDS : list string := ["implementation"; "secondary_implementation"].
Definition W2_HEURISTIC_VIA_KEY : string := "heuristic_via".
Definition W3_SOURCES : list string := ["controller_values"; "proxy_admin_slot"; "probe"; "function_principal"].
Definition W3_D2_SOURCES : list string := ["proxy_admin_slot"; "probe"; "function_principal"].
Definition W3_PRINCIPAL_CONTROLLER_TYPES : list string := ["timelock"; "safe"; "contract"].
Definition W3_PRINCIPAL_FACT_KINDS : list string := ["function_principal"; "safe_owner"].
Definition W3_ANCHOR_LINK_KINDS : list string := ["owner_or_authority"; "proxy_admin"; "probe_read"; "role_holder"; "safe_signer"].
Definition W3_ANCHOR_KINDS : list string := ["member"; "perimeter_principal"].

Definition LINK_DETAIL_BY_KIND (kind : string) : option string :=
  if String.eqb kind "owner_or_authority" then Some "controller_values"
  else if String.eqb kind "proxy_admin" then Some "proxy_admin_slot"
  else if String.eqb kind "probe_read" then Some "probe" else None.

(** ** Field checks *)

Definition newline : ascii := ascii_of_N 10.

(** [re.match(r"^0x[0-9a-fA-F]{n}$", s)]: the [$] also matches before a final
    newline. *)
Definition hex_re (n : nat) (s : string) : bool :=
  match str_after "0x" s with
  | Some body => str_forall is_hex (str_take n body) && bool_decide (n <= String.length body)%nat &&
                 (String.eqb (str_drop n body) "" || String.eqb (str_drop n body) (String newline ""))
  | None => false
  end.

Definition require_hex (n : nat) (v : jval) : option string :=
  match v with JStr s => if hex_re n s then Some (str_lower s) else None | _ => None end.

Definition require_address (v : jval) : option string := require_hex 40 v.

(** A 32-byte hash, lower-cased. *)
Definition require_hash (v : jval) : option string := require_hex 64 v.

Definition require_positive_int (v : jval) : option Z := match v with JInt z => if 0 <? z then Some z else None | _ => None end.
Definition require_block (v : jval) : option Z := match v with JInt z => if 0 <=? z then Some z else None | _ => None end.

(** [None if v is None else check(v)] *)
Definition optional {A} (check : jval -> option A) (v : jval) : option (option A) :=
  match v with JNone => Some None | _ => Some <$> check v end.

Definition jopt {A} (f : A -> jval) (o : option A) : jval := match o with Some x => f x | None => JNone end.

(** [isinstance(v, str) and v.strip()] *)
Definition require_text (v : jval) : option string :=
  match v with JStr s => if String.eqb (str_strip s) "" then None else Some (str_strip s) | _ => None end.

(** ** Constructors *)

Definition w1_evidence (chain_id code_probe_block : jval) : option jdict :=
  c ← require_positive_int chain_id; b ← require_block code_probe_block;
  Some [("chain_id", JInt c); ("code_probe_block", JInt b); ("code_present", JBool true)].

Definition w2_evidence (edge_kind member_contract_id member_address resolved_pointer upgrade_tx_hash heuristic_via : jval) : option jdict :=
  k ← one_of W2_EDGE_KINDS edge_kind;
  if jtruthy heuristic_via && negb (bool_decide (k ∈ W2_SAME_CONTRACT_EDGE_KINDS)) then None
  else
    m ← require_positive_int member_contract_id; a ← require_address member_address; p ← require_address resolved_pointer;
    let base := [("edge_kind", JStr k); ("member_contract_id", JInt m); ("member_address", JStr a); ("resolved_pointer", JStr p)] in
    let base := (base ++ if jtruthy heuristic_via then [(W2_HEURISTIC_VIA_KEY, JBool true)] else [])%list in
    if String.eqb k "historical_implementation"
    then h ← optional require_hash upgrade_tx_hash; Some (base ++ [("upgrade_tx_hash", jopt JStr h)])%list
    else match upgrade_tx_hash with JNone => Some base | _ => None end.

Definition link_detail (kind : string) (detail : jval) : option string :=
  match LINK_DETAIL_BY_KIND kind with
  | Some d => match detail with JStr s => if String.eqb s d then Some s else None | _ => None end
  | None =>
      if String.eqb kind "role_holder"
      then match detail with JStr s => if hex_re 64 s && String.eqb s (str_lower s) then Some s else None | _ => None end
      else require_address detail
  end.

Definition anchor_link (raw : jval) : option jval :=
  match raw with
  | JDict d =>
      k ← one_of W3_ANCHOR_LINK_KINDS (jget "kind" d);
      detail ← link_detail k (jget "detail" d);
      f ← require_address (jget "from" d); a ← require_address (jget "address" d);
      let link := [("from", JStr f); ("address", JStr a); ("kind", JStr k); ("detail", JStr detail)] in
      if same_keys d link then Some (JDict link) else None
  | _ => None
  end.

Definition anchor_chain_evidence (anchor_chain : jval) : option jval :=
  match anchor_chain with
  | JDict d =>
      match jget "links" d with
      | JList ((_ :: _) as raws) =>
          links ← mapM anchor_link raws;
          kind ← one_of W3_ANCHOR_KINDS (jget "anchor_kind" d);
          rule ← one_of ADMITTING_WITNESS_RULES (jget "anchor_rule" d);
          a ← require_address (jget "anchor_address" d);
          let rebuilt := [("links", JList links); ("anchor_address", JStr a); ("anchor_kind", JStr kind); ("anchor_rule", JStr rule)] in
          if same_keys d rebuilt then Some (JDict rebuilt) else None
      | _ => None
      end
  | _ => None
  end.

(** [resolved_type]: a string that is not blank, kept as it is, or [None]. *)
Definition resolved_type_of (v : jval) : option (option string) :=
  optional (fun v => match v with JStr s => if String.eqb (str_strip s) "" then None else Some s | _ => None end) v.

Definition principal_fact_evidence (fact : jval) : option jdict :=
  match fact with
  | JDict d =>
      k ← one_of W3_PRINCIPAL_FACT_KINDS (jget "kind" d);
      rt ← resolved_type_of (jget "resolved_type" d);
      safe ← (if String.eqb k "safe_owner" then Some <$> require_address (jget "safe_address" d)
              else match jget "safe_address" d with JNone => Some None | _ => None end);
      fp ← require_positive_int (jget "function_principal_id" d);
      fn ← require_positive_int (jget "function_id" d);
      m ← require_positive_int (jget "member_contract_id" d);
      a ← require_address (jget "member_address" d);
      let rebuilt := [("kind", JStr k); ("function_principal_id", JInt fp); ("function_id", JInt fn); ("member_contract_id", JInt m);
                      ("member_address", JStr a); ("resolved_type", jopt JStr rt); ("safe_address", jopt JStr safe)] in
      if same_keys d rebuilt then Some rebuilt else None
  | _ => None
  end.

Definition is_jnone (v : jval) : bool := match v with JNone => true | _ => false end.

Definition w3_d1 (source : string) (via : string) (via_transitive anchor_chain principal_fact : jval) : option jdict :=
  if String.eqb source "function_principal" then None
  else match via_transitive with
       | JBool true =>
           anchor ← optional anchor_chain_evidence anchor_chain;
           fact ← optional (fun v => JDict <$> principal_fact_evidence v) principal_fact;
           Some ([("direction", JStr "d1"); ("source", JStr source); ("via", JStr via); ("via_transitive", JBool true)] ++
                 match anchor with Some c => [("anchor_chain", c)] | None => [] end ++
                 match fact with Some f => [("principal_fact", f)] | None => [] end)%list
       | _ => None
       end.

Definition w3_d2 (source : string) (via : string) (via_transitive anchor_chain principal_fact : jval) : option jdict :=
  if negb (is_jnone via_transitive) || negb (is_jnone anchor_chain) || negb (bool_decide (source ∈ W3_D2_SOURCES)) then None
  else if negb (Bool.eqb (String.eqb source "function_principal") (negb (is_jnone principal_fact))) then None
  else
    let base := [("direction", JStr "d2"); ("source", JStr source); ("via", JStr via); ("perimeter_entry_transitive", JBool false)] in
    match principal_fact with
    | JNone => Some base
    | _ =>
        fact ← principal_fact_evidence principal_fact;
        k ← one_of ["function_principal"] (jget "kind" fact);
        t ← one_of W3_PRINCIPAL_CONTROLLER_TYPES (jget "resolved_type" fact);
        Some (base ++ [("principal_fact", JDict fact)])%list
    end.

Definition w3_evidence (direction source via_address via_transitive anchor_chain principal_fact : jval) : option jdict :=
  d ← one_of ["d1"; "d2"] direction;
  s ← one_of W3_SOURCES source;
  if negb (is_jnone anchor_chain) && negb (is_jnone principal_fact) then None
  else
    via ← require_address via_address;
    if String.eqb d "d1" then w3_d1 s via via_transitive anchor_chain principal_fact
    else w3_d2 s via via_transitive anchor_chain principal_fact.

Definition w4_evidence (deployer_address deployer_registry_id creation_tx_hash creation_block : jval) : option jdict :=
  h ← require_hash creation_tx_hash; a ← require_address deployer_address; r ← require_positive_int deployer_registry_id;
  b ← optional require_block creation_block;
  Some [("deployer_address", JStr a); ("deployer_registry_id", JInt r); ("creation_tx_hash", JStr h); ("creation_block", jopt JInt b)].

Definition w4_factory_evidence (factory_address factory_member_contract_id chain_id creation_tx_hash : jval) : option jdict :=
  h ← optional require_hash creation_tx_hash; a ← require_address factory_address;
  m ← require_positive_int factory_member_contract_id; c ← require_positive_int chain_id;
  Some [("factory_address", JStr a); ("factory_member_contract_id", JInt m); ("chain_id", JInt c); ("creation_tx_hash", jopt JStr h)].

Definition require_unit_float (v : jval) : option Q :=
  match v with JFloat q => if Qle_bool 0 q && Qle_bool q 1 then Some q else None | _ => None end.

Definition w4h_evidence (deployer_address deployer_registry_id creation_tx_hash creation_block affinity_at_grant anchors_at_grant : jval) :
    option jdict :=
  h ← require_hash creation_tx_hash; q ← require_unit_float affinity_at_grant;
  a ← require_address deployer_address; r ← require_positive_int deployer_registry_id;
  b ← optional require_block creation_block; n ← require_positive_int anchors_at_grant;
  Some [("deployer_address", JStr a); ("deployer_registry_id", JInt r); ("creation_tx_hash", JStr h); ("creation_block", jopt JInt b);
        ("affinity_at_grant", JFloat q); ("anchors_at_grant", JInt n)].

(** The time arrives as the text of its [isoformat]. *)
Definition w5_evidence (actor : jval) (asserted_at : string) : option jdict :=
  a ← require_text actor; Some [("actor", JStr a); ("asserted_at", JStr asserted_at)].

Definition w6_evidence (adapter_slug chain_id code_probe_block listing_url : jval) : option jdict :=
  s ← require_text adapter_slug; c ← require_positive_int chain_id; b ← require_block code_probe_block;
  Some ([("adapter_slug", JStr s); ("chain_id", JInt c); ("code_probe_block", JInt b)] ++
        match listing_url with JNone => [] | v => [("listing_url", v)] end)%list.

(** ** Times *)

(** [n] decimal digits and what follows. *)
Fixpoint take_digits (n : nat) (acc : Z) (s : string) : option (Z * string) :=
  match n, s with
  | O, _ => Some (acc, s)
  | S n, String c s => match digit_of 10 c with Some d => take_digits n (acc * 10 + d) s | None => None end
  | S _, EmptyString => None
  end.

(** A field of [n] digits in a range. *)
Definition take_field (n : nat) (lo hi : Z) (s : string) : option (Z * string) :=
  x ← take_digits n 0 s; if (lo <=? x.1) && (x.1 <=? hi) then Some x else None.

Definition expect (c : ascii) (s : string) : option string :=
  match s with String d s => if Ascii.eqb c d then Some s else None | EmptyString => None end.

Definition leap (y : Z) : bool := (y mod 4 =? 0) && (negb (y mod 100 =? 0) || (y mod 400 =? 0)).

Definition days_in_month (y m : Z) : Z :=
  if m =? 2 then if leap y then 29 else 28 else if (m =? 4) || (m =? 6) || (m =? 9) || (m =? 11) then 30 else 31.

(** [.ffffff], written when the microseconds are not zero. *)
Definition take_fraction (s : string) : option (Z * string) :=
  match expect "." s with Some s => take_field 6 1 999999 s | None => Some (0, s) end.

(** The offset: absent, or a sign, hours and minutes, and the seconds when they
    are not zero; zero is written with [+]. *)
Definition canonical_offset (s : string) : bool :=
  match s with
  | EmptyString => true
  | String sign s =>
      match take_field 2 0 23 s with
      | Some (h, s) =>
          match expect ":" s with
          | Some s =>
              match take_field 2 0 59 s with
              | Some (m, s) =>
                  match s with
                  | EmptyString => Ascii.eqb sign "+" || Ascii.eqb sign "-" && negb ((h =? 0) && (m =? 0))
                  | _ =>
                      match (s ← expect ":" s; x ← take_field 2 0 59 s; y ← take_fraction x.2; Some (x.1, y.1, y.2)) with
                      | Some (sec, us, rest) => String.eqb rest "" && negb ((sec =? 0) && (us =? 0)) && (Ascii.eqb sign "+" || Ascii.eqb sign "-")
                      | None => false
                      end
                  end
              | None => false
              end
          | None => false
          end
      | None => false
      end
  end.

(** Text that [datetime.isoformat] writes. *)
Definition canonical_iso (s : string) : bool :=
  match
    y ← take_field 4 1 9999 s; s ← expect "-" y.2; mo ← take_field 2 1 12 s; s ← expect "-" mo.2;
    d ← take_field 2 1 (days_in_month y.1 mo.1) s; s ← expect "T" d.2;
    h ← take_field 2 0 23 s; s ← expect ":" h.2; mi ← take_field 2 0 59 s; s ← expect ":" mi.2; sec ← take_field 2 0 59 s;
    us ← take_fraction sec.2; Some us.2
  with
  | Some rest => canonical_offset rest
  | None => false
  end.

(** [datetime.fromisoformat(s).isoformat()].  Other texts it parses come back
    changed, which the comparison of the validation refuses as well. *)
Definition reformat_iso (s : string) : option string := if canonical_iso s then Some s else None.

(** ** Validation *)

Definition rebuild_evidence (rule : string) (e : jdict) : option jdict :=
  let g k := jget k e in
  if String.eqb rule W1_CODE then w1_evidence (g "chain_id") (g "code_probe_block")
  else if String.eqb rule W2_STRUCTURAL
  then w2_evidence (g "edge_kind") (g "member_contract_id") (g "member_address") (g "resolved_pointer")
         (if jeq (g "edge_kind") (JStr "historical_implementation") then g "upgrade_tx_hash" else JNone)
         (if jhas W2_HEURISTIC_VIA_KEY e then g W2_HEURISTIC_VIA_KEY else JBool false)
  else if String.eqb rule W3_CONTROL
  then w3_evidence (g "direction") (g "source") (g "via")
         (if jeq (g "direction") (JStr "d1") then g "via_transitive" else JNone)
         (if jeq (g "direction") (JStr "d1") then g "anchor_chain" else JNone)
         (g "principal_fact")
  else if String.eqb rule W4_DEPLOYER
  then w4_evidence (g "deployer_address") (g "deployer_registry_id") (g "creation_tx_hash") (g "creation_block")
  else if String.eqb rule W4_FACTORY
  then w4_factory_evidence (g "factory_address") (g "factory_member_contract_id") (g "chain_id") (g "creation_tx_hash")
  else if String.eqb rule W4H_DEPLOYER_AFFINITY
  then w4h_evidence (g "deployer_address") (g "deployer_registry_id") (g "creation_tx_hash") (g "creation_block")
         (g "affinity_at_grant") (g "anchors_at_grant")
  else if String.eqb rule W5_HUMAN
  then match g "asserted_at" with JStr s => t ← reformat_iso s; w5_evidence (g "actor") t | _ => None end
  else if String.eqb rule W6_LLAMA_SEED
  then w6_evidence (g "adapter_slug") (g "chain_id") (g "code_probe_block") (g "listing_url")
  else None.

Definition validate_evidence (rule : string) (evidence : jval) : bool :=
  match evidence with
  | JDict ((_ :: _) as e) => match rebuild_evidence rule e with Some r => jeq (JDict r) evidence | None => false end
  | _ => false
  end.

(** ** Witness rows *)

Definition witness_key : Type := Z * Z * string * option string.

Record witness := mkWitness {
  witness_id : Z;
  evidence_ : jval;
  observed_at : Z;
  revoked_at : option Z;
}.

Record witness_table := mkTable {
  witnesses : gmap witness_key witness;
  next_id : Z;
}.

(** [INSERT ... ON CONFLICT DO UPDATE]: a new row, or the same row re-armed; an
    active one keeps its evidence and its time.  A refused insert also takes an
    id from the sequence. *)
Definition upsert (k : witness_key) (evidence : jval) (now : Z) (t : witness_table) : witness * witness_table :=
  let w :=
    match witnesses t !! k with
    | None => mkWitness (next_id t) evidence now None
    | Some w =>
        match revoked_at w with
        | Some _ => mkWitness (witness_id w) evidence now None
        | None => mkWitness (witness_id w) (evidence_ w) (observed_at w) None
        end
    end in
  (w, mkTable (<[k := w]> (witnesses t)) (next_id t + 1)).

Definition write_witness (contract_id protocol_id : Z) (rule : string) (evidence via_address : jval) (now : Z) (t : witness_table) :
    option (witness_key * witness * witness_table) :=
  if negb (bool_decide (rule ∈ WITNESS_RULES)) || negb (validate_evidence rule evidence) then None
  else
    via ← optional require_address via_address;
    let k : witness_key := (contract_id, protocol_id, rule, via) in
    let (w, t) := upsert k evidence now t in
    Some (k, w, t).
Definition revoke_witness (k : witness_key) (now : Z) (t : witness_table) : bool * witness_table :=
  match witnesses t !! k with
  | Some w =>
      match revoked_at w with
      | Some _ => (false, t)
      | None => (true, mkTable (<[k := mkWitness (witness_id w) (evidence_ w) (observed_at w) (Some now)]> (witnesses t)) (next_id t))
      end
  | None => (false, t)
  end.

Definition active_witnesses (contract_id protocol_id : Z) (t : witness_table) : list (witness_key * witness) :=
  filter (fun kw => kw.1.1.1.1 = contract_id /\ kw.1.1.1.2 = protocol_id /\ revoked_at kw.2 = None) (map_to_list (witnesses t)).

(** [evidence.get("heuristic_via") is True] *)
Definition witness_is_heuristic (rule : string) (evidence : jval) : bool :=
  bool_decide (rule ∈ HEURISTIC_WITNESS_RULES) ||
  String.eqb rule W2_STRUCTURAL &&
  match evidence with JDict d => match jget W2_HEURISTIC_VIA_KEY d with JBool true => true | _ => false end | _ => false end.
