(* ===== verification/EvidenceTheory.v ===== *)
(** * Validated evidence is typed evidence

    An algebraic type of the evidence each rule may carry, with its encoding;
    validation accepts exactly the encodings, up to Python's equality of values.
    The witness table keeps one row per fact, never loses one, and every row's
    evidence is validated. *)

From stdpp Require Import base gmap sets list strings.
From Stdlib Require Import String Ascii ZArith QArith Lia.
From S2P Require Import Prelude PyText Evidence.

Local Open Scope string_scope.
Local Open Scope Z_scope.

(** ** Typed evidence *)

Inductive LinkKind := OwnerOrAuthority | ProxyAdminLink | ProbeRead | RoleHolder (role : string) | SafeSigner (safe : string).

Record Link := mkLink { link_from : string; link_address : string; link_kind : LinkKind }.

Record Anchor := mkAnchor { anchor_links : list Link; anchor_address : string; anchor_kind : string; anchor_rule : string }.

Record Fact := mkFact {
  fact_safe : option string;
  fact_principal : Z;
  fact_function : Z;
  fact_member : Z;
  fact_address : string;
  fact_type : option string;
}.

(** What proved a controller transitive. *)
Inductive Transitivity := OnItsOwn | Anchored (a : Anchor) | ByPrincipal (f : Fact).

Inductive Evidence :=
  | Code (chain block : Z)
  | Structural (edge : string) (member : Z) (address pointer : string) (upgrade : option string) (heuristic : bool)
  | Controlled (source via : string) (proof : Transitivity)
  | Controls (source via : string) (fact : option Fact)
  | Deployed (deployer : string) (registry : Z) (tx : string) (block : option Z)
  | FactoryMade (factory : string) (member chain : Z) (tx : option string)
  | Affinity (deployer : string) (registry : Z) (tx : string) (block : option Z) (affinity : Q) (anchors : Z)
  | Asserted (actor at_ : string)
  | Seeded (slug : string) (chain block : Z) (listing : jval).

Definition rule_of (e : Evidence) : string :=
  match e with
  | Code _ _ => W1_CODE
  | Structural _ _ _ _ _ _ => W2_STRUCTURAL
  | Controlled _ _ _ | Controls _ _ _ => W3_CONTROL
  | Deployed _ _ _ _ => W4_DEPLOYER
  | FactoryMade _ _ _ _ => W4_FACTORY
  | Affinity _ _ _ _ _ _ => W4H_DEPLOYER_AFFINITY
  | Asserted _ _ => W5_HUMAN
  | Seeded _ _ _ _ => W6_LLAMA_SEED
  end.

(** ** Encoding *)

Definition kind_text (k : LinkKind) : string * string :=
  match k with
  | OwnerOrAuthority => ("owner_or_authority", "controller_values")
  | ProxyAdminLink => ("proxy_admin", "proxy_admin_slot")
  | ProbeRead => ("probe_read", "probe")
  | RoleHolder role => ("role_holder", role)
  | SafeSigner safe => ("safe_signer", safe)
  end.

Definition encode_link (l : Link) : jval :=
  JDict [("from", JStr (link_from l)); ("address", JStr (link_address l)); ("kind", JStr (kind_text (link_kind l)).1);
         ("detail", JStr (kind_text (link_kind l)).2)].

Definition encode_anchor (a : Anchor) : jval :=
  JDict [("links", JList (map encode_link (anchor_links a))); ("anchor_address", JStr (anchor_address a));
         ("anchor_kind", JStr (anchor_kind a)); ("anchor_rule", JStr (anchor_rule a))].

Definition fact_kind (f : Fact) : string := match fact_safe f with Some _ => "safe_owner" | None => "function_principal" end.

Definition encode_fact (f : Fact) : jdict :=
  [("kind", JStr (fact_kind f)); ("function_principal_id", JInt (fact_principal f)); ("function_id", JInt (fact_function f));
   ("member_contract_id", JInt (fact_member f)); ("member_address", JStr (fact_address f));
   ("resolved_type", jopt JStr (fact_type f)); ("safe_address", jopt JStr (fact_safe f))].

Definition encode (e : Evidence) : jdict :=
  match e with
  | Code c b => [("chain_id", JInt c); ("code_probe_block", JInt b); ("code_present", JBool true)]
  | Structural k m a p h heur =>
      ([("edge_kind", JStr k); ("member_contract_id", JInt m); ("member_address", JStr a); ("resolved_pointer", JStr p)] ++
       (if heur then [(W2_HEURISTIC_VIA_KEY, JBool true)] else []) ++
       (if String.eqb k "historical_implementation" then [("upgrade_tx_hash", jopt JStr h)] else []))%list
  | Controlled s v pr =>
      ([("direction", JStr "d1"); ("source", JStr s); ("via", JStr v); ("via_transitive", JBool true)] ++
       match pr with
       | OnItsOwn => []
       | Anchored a => [("anchor_chain", encode_anchor a)]
       | ByPrincipal f => [("principal_fact", JDict (encode_fact f))]
       end)%list
  | Controls s v f =>
      ([("direction", JStr "d2"); ("source", JStr s); ("via", JStr v); ("perimeter_entry_transitive", JBool false)] ++
       match f with Some f => [("principal_fact", JDict (encode_fact f))] | None => [] end)%list
  | Deployed a r h b =>
      [("deployer_address", JStr a); ("deployer_registry_id", JInt r); ("creation_tx_hash", JStr h); ("creation_block", jopt JInt b)]
  | FactoryMade a m c h =>
      [("factory_address", JStr a); ("factory_member_contract_id", JInt m); ("chain_id", JInt c); ("creation_tx_hash", jopt JStr h)]
  | Affinity a r h b q n =>
      [("deployer_address", JStr a); ("deployer_registry_id", JInt r); ("creation_tx_hash", JStr h); ("creation_block", jopt JInt b);
       ("affinity_at_grant", JFloat q); ("anchors_at_grant", JInt n)]
  | Asserted a t => [("actor", JStr a); ("asserted_at", JStr t)]
  | Seeded s c b l =>
      ([("adapter_slug", JStr s); ("chain_id", JInt c); ("code_probe_block", JInt b)] ++
       match l with JNone => [] | v => [("listing_url", v)] end)%list
  end.

(** ** Well-typed values *)

(** "0x" and [n] hexadecimal digits; one newline may follow. *)
Definition hex_text (n : nat) (s : string) : Prop :=
  exists digits tail, s = "0x" ++ digits ++ tail /\ String.length digits = n /\ str_forall is_hex digits = true /\
    (tail = "" \/ tail = String newline "").

Lemma hex_re_spec n s : hex_re n s = true <-> hex_text n s.
Proof.
  unfold hex_re, hex_text. split.
  - destruct (str_after "0x" s) as [body|] eqn:E; [|done]. apply str_after_eq in E as ->.
    intros [[Hh Hn%bool_decide_eq_true]%andb_true_iff Ht]%andb_true_iff. exists (str_take n body), (str_drop n body). split_and!.
    + f_equal. clear. revert body. induction n as [|n IH]; intros [|c s]; try done. cbn [str_take str_drop append].
      change (String c s = String c (str_take n s ++ str_drop n s)). by rewrite <- IH.
    + clear Hh Ht. revert body Hn. induction n as [|n IH]; intros [|c s] Hn; cbn in *; try done; try lia. rewrite IH; lia.
    + done.
    + apply orb_true_iff in Ht as [?%String.eqb_eq|?%String.eqb_eq]; auto.
  - intros (d & t & -> & <- & Hh & Ht). rewrite str_after_app, str_take_app, str_drop_app, Hh, str_length_app.
    rewrite bool_decide_eq_true_2 by lia. destruct Ht as [-> | ->]; done.
Qed.

Definition is_address (s : string) : Prop := hex_text 40 s /\ str_lower s = s.
Definition is_hash (s : string) : Prop := hex_text 64 s /\ str_lower s = s.
Definition is_stripped (s : string) : Prop := str_strip s = s /\ s <> "".
Definition option_all {A} (P : A -> Prop) (o : option A) : Prop := match o with Some x => P x | None => True end.

Definition link_ok (l : Link) : Prop :=
  is_address (link_from l) /\ is_address (link_address l) /\
  match link_kind l with RoleHolder r => is_hash r | SafeSigner s => is_address s | _ => True end.

Definition anchor_ok (a : Anchor) : Prop :=
  anchor_links a <> [] /\ Forall link_ok (anchor_links a) /\ is_address (anchor_address a) /\
  anchor_kind a ∈ W3_ANCHOR_KINDS /\ anchor_rule a ∈ ADMITTING_WITNESS_RULES.

Definition fact_ok (f : Fact) : Prop :=
  option_all is_address (fact_safe f) /\ 0 < fact_principal f /\ 0 < fact_function f /\ 0 < fact_member f /\
  is_address (fact_address f) /\ option_all (fun t => str_strip t <> "") (fact_type f).

Definition evidence_ok (e : Evidence) : Prop :=
  match e with
  | Code c b => 0 < c /\ 0 <= b
  | Structural k m a p h heur =>
      k ∈ W2_EDGE_KINDS /\ 0 < m /\ is_address a /\ is_address p /\ (heur = true -> k ∈ W2_SAME_CONTRACT_EDGE_KINDS) /\
      option_all is_hash h /\ (k <> "historical_implementation" -> h = None)
  | Controlled s v pr =>
      s ∈ W3_SOURCES /\ s <> "function_principal" /\ is_address v /\
      match pr with OnItsOwn => True | Anchored a => anchor_ok a | ByPrincipal f => fact_ok f end
  | Controls s v f =>
      s ∈ W3_D2_SOURCES /\ is_address v /\ (s = "function_principal" <-> f <> None) /\
      option_all (fun f => fact_ok f /\ fact_safe f = None /\ exists t, fact_type f = Some t /\ t ∈ W3_PRINCIPAL_CONTROLLER_TYPES) f
  | Deployed a r h b => is_address a /\ 0 < r /\ is_hash h /\ option_all (fun b => 0 <= b) b
  | FactoryMade a m c h => is_address a /\ 0 < m /\ 0 < c /\ option_all is_hash h
  | Affinity a r h b q n =>
      is_address a /\ 0 < r /\ is_hash h /\ option_all (fun b => 0 <= b) b /\ (0 <= q <= 1)%Q /\ 0 < n
  | Asserted a t => is_stripped a /\ canonical_iso t = true
  | Seeded s c b _ => is_stripped s /\ 0 < c /\ 0 <= b
  end.

(** ** Field checks *)

Lemma is_hex_lower c : is_hex c = true -> is_hex (ascii_lower c) = true.
Proof. destruct c as [[] [] [] [] [] [] [] []]; done. Qed.

Lemma str_forall_lower s : str_forall is_hex s = true -> str_forall is_hex (str_lower s) = true.
Proof. induction s as [|c s IH]; [done|]. cbn. intros [Hc Hs]%andb_true_iff. by rewrite (is_hex_lower c Hc), IH. Qed.

Lemma str_take_lower n s : str_take n (str_lower s) = str_lower (str_take n s).
Proof. revert s. induction n as [|n IH]; intros [|c s]; cbn; try done. by rewrite IH. Qed.

Lemma str_drop_lower n s : str_drop n (str_lower s) = str_lower (str_drop n s).
Proof. revert s. induction n as [|n IH]; intros [|c s]; cbn; try done. Qed.

Lemma hex_re_lower n s : hex_re n s = true -> hex_re n (str_lower s) = true.
Proof.
  unfold hex_re. destruct (str_after "0x" s) as [body|] eqn:E; [|done]. apply str_after_eq in E as ->. rewrite str_lower_app.
  change (str_lower "0x") with "0x". rewrite str_after_app, str_take_lower, str_drop_lower, str_lower_length.
  intros [[H1 H2]%andb_true_iff H3]%andb_true_iff. rewrite (str_forall_lower _ H1), H2. cbn.
  apply orb_true_iff in H3 as [H3%String.eqb_eq|H3%String.eqb_eq]; rewrite H3; done.
Qed.

Lemma require_hex_inv n v s : require_hex n v = Some s -> hex_text n s /\ str_lower s = s.
Proof.
  unfold require_hex. destruct v as [| | | |raw| |]; try done. destruct (hex_re n raw) eqn:E; [|done]. intros [= <-].
  split; [by apply hex_re_spec, hex_re_lower|apply str_lower_idemp].
Qed.

Lemma require_hex_ok n s : hex_text n s -> str_lower s = s -> require_hex n (JStr s) = Some s.
Proof. unfold require_hex. intros ->%hex_re_spec ->. done. Qed.

Lemma require_address_inv v s : require_address v = Some s -> is_address s.
Proof. apply require_hex_inv. Qed.

Lemma require_hash_inv v s : require_hash v = Some s -> is_hash s.
Proof. apply require_hex_inv. Qed.

Lemma require_address_ok s : is_address s -> require_address (JStr s) = Some s.
Proof. intros [H1 H2]. by apply require_hex_ok. Qed.

Lemma require_hash_ok s : is_hash s -> require_hash (JStr s) = Some s.
Proof. intros [H1 H2]. by apply require_hex_ok. Qed.

Lemma positive_inv v z : require_positive_int v = Some z -> 0 < z.
Proof. destruct v; try done. cbn. destruct (Z.ltb_spec 0 z0); [|done]. by intros [= <-]. Qed.

Lemma positive_ok z : 0 < z -> require_positive_int (JInt z) = Some z.
Proof. cbn. intros. destruct (Z.ltb_spec 0 z); [done|lia]. Qed.

Lemma block_inv v z : require_block v = Some z -> 0 <= z.
Proof. destruct v; try done. cbn. destruct (Z.leb_spec 0 z0); [|done]. by intros [= <-]. Qed.

Lemma block_ok z : 0 <= z -> require_block (JInt z) = Some z.
Proof. cbn. intros. destruct (Z.leb_spec 0 z); [done|lia]. Qed.

Lemma one_of_inv set v s : one_of set v = Some s -> s ∈ set.
Proof. destruct v; try done. cbn. case_bool_decide; [|done]. by intros [= <-]. Qed.

Lemma one_of_ok set s : s ∈ set -> one_of set (JStr s) = Some s.
Proof. cbn. intros. by rewrite bool_decide_true. Qed.

Lemma optional_inv {A} (check : jval -> option A) (P : A -> Prop) v o :
  (forall x, check v = Some x -> P x) -> optional check v = Some o -> option_all P o.
Proof. intros Hc. unfold optional. destruct v; try (by intros [= <-]); destruct (check _) as [x|]; try done; intros [= <-]; by apply Hc. Qed.

Lemma optional_ok {A} (check : jval -> option A) (f : A -> jval) (P : A -> Prop) o :
  (forall x, P x -> check (f x) = Some x /\ f x <> JNone) -> option_all P o -> optional check (jopt f o) = Some o.
Proof.
  intros Hc. destruct o as [x|]; cbn; [|done]. intros Hx. destruct (Hc x Hx) as [Hf Hne]. unfold optional.
  destruct (f x); try done; by rewrite Hf.
Qed.

Lemma optional_some {A} (check : jval -> option A) v x : optional check v = Some (Some x) -> is_jnone v = false.
Proof. by destruct v. Qed.

Lemma require_text_inv v s : require_text v = Some s -> is_stripped s.
Proof.
  destruct v as [| | | |raw| |]; try done. cbn. destruct (String.eqb_spec (str_strip raw) ""); [done|]. intros [= <-].
  split; [apply strip_idemp|done].
Qed.

Lemma require_text_ok s : is_stripped s -> require_text (JStr s) = Some s.
Proof. intros [H1 H2]. cbn. rewrite H1. by destruct (String.eqb_spec s ""). Qed.

(** ** Validated evidence is typed *)

Ltac bind_inv H :=
  repeat match type of H with
  | mbind _ ?x = Some _ => let E := fresh "E" in destruct x eqn:E; [cbn [mbind option_bind] in H|discriminate H]
  end.

Lemma anchor_link_typed raw v : anchor_link raw = Some v -> exists l, encode_link l = v /\ link_ok l.
Proof.
  unfold anchor_link. destruct raw as [| | | | | |d]; try done. intros H. bind_inv H. destruct (same_keys _ _); [|done]. injection H as <-.
  apply require_address_inv in E1, E2. apply one_of_inv in E. unfold link_detail in E0.
  assert (exists k, kind_text k = (s, s0) /\ match k with RoleHolder r => is_hash r | SafeSigner s => is_address s | _ => True end) as (k & Hk & Hok).
  { destruct (LINK_DETAIL_BY_KIND s) as [det|] eqn:Ed.
    - destruct (jget "detail" d) as [| | | |raw| |]; try done. destruct (String.eqb_spec raw det) as [Hraw|]; [|done]. subst raw. injection E0 as <-.
      unfold LINK_DETAIL_BY_KIND in Ed. destruct (String.eqb_spec s "owner_or_authority") as [->|]; [injection Ed as <-; by exists OwnerOrAuthority|].
      destruct (String.eqb_spec s "proxy_admin") as [->|]; [injection Ed as <-; by exists ProxyAdminLink|].
      destruct (String.eqb_spec s "probe_read") as [->|]; [injection Ed as <-; by exists ProbeRead|done].
    - destruct (String.eqb_spec s "role_holder") as [->|Hne].
      + destruct (jget "detail" d) as [| | | |raw| |]; try done. destruct (hex_re 64 raw && _) eqn:Er; [|done]. injection E0 as <-.
        apply andb_true_iff in Er as [Hr%hex_re_spec Hl%String.eqb_eq]. by exists (RoleHolder raw).
      + exists (SafeSigner s0). split; [|by apply require_address_inv in E0]. cbn. f_equal.
        unfold W3_ANCHOR_LINK_KINDS in E. rewrite !elem_of_cons in E.
        destruct E as [-> | [-> | [-> | [-> | [-> | E]]]]]; try done. by apply not_elem_of_nil in E. }
  exists (mkLink s1 s2 k). split; [unfold encode_link; cbn [link_from link_address link_kind]; by rewrite Hk|]. done.
Qed.

Lemma anchor_typed v w : anchor_chain_evidence v = Some w -> exists a, encode_anchor a = w /\ anchor_ok a.
Proof.
  unfold anchor_chain_evidence. destruct v as [| | | | | |d]; try done. destruct (jget "links" d) as [| | | | |raws|]; try done.
  destruct raws as [|raw0 raws]; [done|]. intros H. bind_inv H. destruct (same_keys _ _); [|done]. injection H as <-.
  apply one_of_inv in E0, E1. apply require_address_inv in E2.
  assert (exists ls, map encode_link ls = l /\ Forall link_ok ls) as (ls & Hls & Hok).
  { apply mapM_Some in E. clear -E. induction E as [|raw v rs0 vs Hv _ (ls & <- & Hok)]; [by exists []|].
    apply anchor_link_typed in Hv as (l & <- & Hl). exists (l :: ls). split; [done|by constructor]. }
  exists (mkAnchor ls s1 s s0). split; [unfold encode_anchor; cbn; by rewrite Hls|]. split_and!; try done. cbn. intros ->.
  subst l. apply mapM_Some in E. by inversion E.
Qed.

Lemma fact_typed v d : principal_fact_evidence v = Some d -> exists f, encode_fact f = d /\ fact_ok f.
Proof.
  unfold principal_fact_evidence. destruct v as [| | | | | |raw]; try done. intros H. bind_inv H. destruct (same_keys _ _); [|done]. injection H as <-.
  apply positive_inv in E2, E3, E4. apply require_address_inv in E5. apply one_of_inv in E.
  assert (option_all (fun t => str_strip t <> "") o) as Hrt.
  { eapply optional_inv; [|exact E0]. intros x. destruct (jget "resolved_type" raw) as [| | | |t| |]; try done.
    destruct (String.eqb_spec (str_strip t) ""); [done|]. by intros [= <-]. }
  assert (option_all is_address o0 /\ s = match o0 with Some _ => "safe_owner" | None => "function_principal" end) as [Hsafe Hkind].
  { unfold W3_PRINCIPAL_FACT_KINDS in E. rewrite !elem_of_cons in E. destruct (String.eqb_spec s "safe_owner") as [->|Hne].
    - destruct (require_address (jget "safe_address" raw)) as [a|] eqn:Ea; [|done]. injection E1 as <-. by apply require_address_inv in Ea.
    - destruct (jget "safe_address" raw); try done. injection E1 as <-. split; [done|]. destruct E as [-> | [-> | E]]; try done. by apply not_elem_of_nil in E. }
  exists (mkFact o0 z z0 z1 s0 o). split; [unfold encode_fact, fact_kind; cbn; by rewrite Hkind|]. done.
Qed.

(** What the constructors build is the encoding of typed evidence. *)
Lemma w2_typed k m a p h heur r : w2_evidence k m a p h heur = Some r -> exists e, encode e = r /\ evidence_ok e /\ rule_of e = W2_STRUCTURAL.
Proof.
  unfold w2_evidence. intros H. destruct (one_of W2_EDGE_KINDS k) as [kind|] eqn:Ek; [cbn [mbind option_bind] in H|done].
  destruct (jtruthy heur && _) eqn:Eh; [done|]. bind_inv H. apply one_of_inv in Ek. apply positive_inv in E. apply require_address_inv in E0, E1.
  assert (jtruthy heur = true -> kind ∈ W2_SAME_CONTRACT_EDGE_KINDS) as Hheur.
  { intros Ht. rewrite Ht in Eh. cbn in Eh. apply negb_false_iff in Eh. by apply bool_decide_eq_true in Eh. }
  destruct (String.eqb_spec kind "historical_implementation") as [->|Hne].
  - bind_inv H. injection H as <-. exists (Structural "historical_implementation" z s s0 o (jtruthy heur)). split; [done|]. split; [|done].
    cbn. split_and!; try done. eapply optional_inv; [|exact E2]. intros x. apply require_hash_inv.
  - destruct h; try done. injection H as <-. exists (Structural kind z s s0 None (jtruthy heur)). split; [|split; [|done]].
    + cbn. destruct (String.eqb_spec kind "historical_implementation"); [done|]. by rewrite app_nil_r.
    + cbn. done.
Qed.

Lemma w3_typed dir src via vt anchor fact r :
  w3_evidence dir src via vt anchor fact = Some r -> exists e, encode e = r /\ evidence_ok e /\ rule_of e = W3_CONTROL.
Proof.
  unfold w3_evidence. intros H. destruct (one_of ["d1"; "d2"] dir) as [d|]; [cbn [mbind option_bind] in H|done].
  destruct (one_of W3_SOURCES src) as [s|] eqn:Es; [cbn [mbind option_bind] in H|done]. apply one_of_inv in Es.
  destruct (negb (is_jnone anchor) && negb (is_jnone fact)) eqn:Ex; [done|]. bind_inv H. apply require_address_inv in E.
  destruct (String.eqb d "d1").
  - unfold w3_d1 in H. destruct (String.eqb_spec s "function_principal") as [|Hne]; [done|]. destruct vt as [|[]| | | | |]; try done.
    bind_inv H. injection H as <-.
    assert (option_all (fun v => exists a, encode_anchor a = v /\ anchor_ok a) o) as Ho by (eapply optional_inv; [|exact E0]; intros x; apply anchor_typed).
    assert (option_all (fun v => exists f, JDict (encode_fact f) = v /\ fact_ok f) o0) as Ho0.
    { eapply optional_inv; [|exact E1]. intros x Hx. cbv beta in Hx. destruct (principal_fact_evidence fact) as [df|] eqn:Ef; [|done]. injection Hx as <-.
      apply fact_typed in Ef as (f & <- & Hf). by exists f. }
    destruct o as [v|]; cbn in Ho.
    + destruct o0 as [w|].
      { exfalso. rewrite (optional_some _ _ _ E0), (optional_some _ _ _ E1) in Ex. done. }
      destruct Ho as (a & <- & Ha). exists (Controlled s s0 (Anchored a)). by cbn.
    + destruct o0 as [w|]; cbn in Ho0; [destruct Ho0 as (f & <- & Hf); exists (Controlled s s0 (ByPrincipal f))|exists (Controlled s s0 OnItsOwn)]; by cbn.
  - unfold w3_d2 in H. destruct (negb (is_jnone vt) || _ || _) eqn:Eg; [done|]. apply orb_false_iff in Eg as [_ Eg%negb_false_iff%bool_decide_eq_true].
    destruct (Bool.eqb _ _) eqn:Eb; [cbn [negb] in H|done]. apply eqb_prop in Eb.
    assert (fact = JNone \/ is_jnone fact = false) as [->|Hf0] by (destruct fact; auto).
    + injection H as <-. exists (Controls s s0 None). cbn in Eb. destruct (String.eqb_spec s "function_principal"); [done|].
      cbn. split_and!; try done.
    + rewrite Hf0 in Eb. apply String.eqb_eq in Eb as ->.
      assert (H' : (fact' ← principal_fact_evidence fact; k ← one_of ["function_principal"] (jget "kind" fact');
        t ← one_of W3_PRINCIPAL_CONTROLLER_TYPES (jget "resolved_type" fact');
        Some ([("direction", JStr "d2"); ("source", JStr "function_principal"); ("via", JStr s0); ("perimeter_entry_transitive", JBool false)] ++
              [("principal_fact", JDict fact')])%list) = Some r) by (destruct fact; done).
      clear H. bind_inv H'. injection H' as <-. apply fact_typed in E0 as (f & <- & Hf).
      change (jget "kind" (encode_fact f)) with (JStr (fact_kind f)) in E1.
      change (jget "resolved_type" (encode_fact f)) with (jopt JStr (fact_type f)) in E2.
      exists (Controls "function_principal" s0 (Some f)). split; [done|]. split; [|done]. cbn. split; [done|]. split; [done|]. split; [done|].
      split; [done|]. unfold fact_kind in E1. destruct (fact_safe f); [done|]. split; [done|].
      destruct (fact_type f) as [t|]; [|done]. exists t. split; [done|]. cbn in E2. case_bool_decide; done.
Qed.

(** Every rule's rebuilt evidence is typed. *)
Lemma rebuild_typed rule e r : rebuild_evidence rule e = Some r -> exists E, encode E = r /\ evidence_ok E /\ rule_of E = rule.
Proof.
  unfold rebuild_evidence.
  destruct (String.eqb_spec rule W1_CODE) as [->|_].
  { unfold w1_evidence. intros H. bind_inv H. injection H as <-. exists (Code z z0). split; [done|]. split; [|done].
    split; [by apply positive_inv in E|by apply block_inv in E0]. }
  destruct (String.eqb_spec rule W2_STRUCTURAL) as [->|_]; [apply w2_typed|].
  destruct (String.eqb_spec rule W3_CONTROL) as [->|_]; [apply w3_typed|].
  destruct (String.eqb_spec rule W4_DEPLOYER) as [->|_].
  { unfold w4_evidence. intros H. bind_inv H. injection H as <-. exists (Deployed s0 z s o). split; [done|]. split; [|done].
    cbn. split_and!; [by apply require_address_inv in E0|by apply positive_inv in E1|by apply require_hash_inv in E|].
    eapply optional_inv; [|exact E2]. intros x. apply block_inv. }
  destruct (String.eqb_spec rule W4_FACTORY) as [->|_].
  { unfold w4_factory_evidence. intros H. bind_inv H. injection H as <-. exists (FactoryMade s z z0 o). split; [done|]. split; [|done].
    cbn. split_and!; [by apply require_address_inv in E0|by apply positive_inv in E1|by apply positive_inv in E2|].
    eapply optional_inv; [|exact E]. intros x. apply require_hash_inv. }
  destruct (String.eqb_spec rule W4H_DEPLOYER_AFFINITY) as [->|_].
  { unfold w4h_evidence. intros H. bind_inv H. injection H as <-. exists (Affinity s0 z s o q z0). split; [done|]. split; [|done].
    cbn. split; [by apply require_address_inv in E1|]. split; [by apply positive_inv in E2|]. split; [by apply require_hash_inv in E|].
    split; [eapply optional_inv; [|exact E3]; intros x; apply block_inv|]. split; [|by apply positive_inv in E4].
    unfold require_unit_float in E0. destruct (jget "affinity_at_grant" e); try done. destruct (_ && _) eqn:Eq; [|done]. injection E0 as <-.
    apply andb_true_iff in Eq as [H1 H2]. split; by apply Qle_bool_iff. }
  destruct (String.eqb_spec rule W5_HUMAN) as [->|_].
  { destruct (jget "asserted_at" e) as [| | | |raw| |]; try done. unfold reformat_iso. destruct (canonical_iso raw) eqn:Ec; [|done].
    cbn [mbind option_bind]. unfold w5_evidence. intros H. bind_inv H. injection H as <-. exists (Asserted s raw). split; [done|]. split; [|done].
    split; [by apply require_text_inv in E|done]. }
  destruct (String.eqb_spec rule W6_LLAMA_SEED) as [->|_]; [|done].
  unfold w6_evidence. intros H. bind_inv H. injection H as <-. exists (Seeded s z z0 (jget "listing_url" e)). split; [done|]. split; [|done].
  cbn. split_and!; [by apply require_text_inv in E|by apply positive_inv in E0|by apply block_inv in E1].
Qed.

(** ** Typed evidence validates *)

Lemma assoc_get_nodup {A} (d : list (string * A)) k v : NoDup d.*1 -> (k, v) ∈ d -> assoc_get k d = Some v.
Proof.
  induction d as [|[k0 v0] d IH]; [intros _ []%not_elem_of_nil|]. cbn. intros [Hn Hd]%NoDup_cons [[= -> ->]|Hin]%elem_of_cons.
  - by rewrite decide_True.
  - rewrite decide_False; [by apply IH|]. intros ->. apply Hn, list_elem_of_fmap. by exists (k0, v).
Qed.

Lemma jeq_dict d : NoDup d.*1 -> Forall (fun kv => jeq kv.2 kv.2 = true) d -> jeq (JDict d) (JDict d) = true.
Proof.
  intros Hnd Hall. cbn [jeq]. rewrite bool_decide_true, andb_true_l by done. apply forallb_forall. intros [k v] Hin%list_elem_of_In. cbn [fst snd].
  rewrite (assoc_get_nodup d k v Hnd Hin). exact (proj1 (Forall_forall _ _) Hall (k, v) Hin).
Qed.

Lemma jeq_str s : jeq (JStr s) (JStr s) = true.
Proof. cbn. apply String.eqb_refl. Qed.

Lemma jeq_int z : jeq (JInt z) (JInt z) = true.
Proof. cbn. apply Qeq_bool_iff. reflexivity. Qed.

Lemma jeq_float q : jeq (JFloat q) (JFloat q) = true.
Proof. cbn. apply Qeq_bool_iff. reflexivity. Qed.

Lemma jeq_opt {A} (f : A -> jval) o : (forall x, jeq (f x) (f x) = true) -> jeq (jopt f o) (jopt f o) = true.
Proof. intros Hf. destruct o; [apply Hf|done]. Qed.

Create HintDb jeq.
#[local] Hint Resolve jeq_str jeq_int jeq_float jeq_opt : jeq.

Ltac nodup_keys := refine (@bool_decide_unpack _ (NoDup_dec _) _); vm_compute; exact I.
Ltac jeq_tac := apply jeq_dict; [nodup_keys|repeat (apply Forall_cons; split; [cbn [fst snd]; auto with jeq|]); try apply Forall_nil_2].

Lemma jeq_list l : Forall (fun v => jeq v v = true) l -> jeq (JList l) (JList l) = true.
Proof. induction 1 as [|v l Hv _ IH]; [done|]. cbn in *. by rewrite Hv. Qed.

Lemma jeq_link l : jeq (encode_link l) (encode_link l) = true.
Proof. unfold encode_link. jeq_tac. Qed.

Lemma jeq_anchor a : jeq (encode_anchor a) (encode_anchor a) = true.
Proof.
  unfold encode_anchor. jeq_tac. apply jeq_list, Forall_forall. intros v (l & -> & _)%list_elem_of_fmap. apply jeq_link.
Qed.

Lemma jeq_fact f : jeq (JDict (encode_fact f)) (JDict (encode_fact f)) = true.
Proof. unfold encode_fact. jeq_tac. Qed.

#[local] Hint Resolve jeq_anchor jeq_fact : jeq.

(** The declared type of a listing. *)
Definition listing_typed (e : Evidence) : Prop :=
  match e with Seeded _ _ _ l => l = JNone \/ exists s, l = JStr s | _ => True end.

Lemma encode_self e : listing_typed e -> jeq (JDict (encode e)) (JDict (encode e)) = true.
Proof.
  destruct e as [c b|k m a p h heur|s v pr|s v f|a r h b|a m c h|a r h b q n|a t|s c b l]; intros Hl; cbn [encode].
  - jeq_tac.
  - destruct heur, (String.eqb k "historical_implementation"); cbn [app]; jeq_tac.
  - destruct pr; cbn [app]; jeq_tac.
  - destruct f; cbn [app]; jeq_tac.
  - jeq_tac.
  - jeq_tac.
  - jeq_tac.
  - jeq_tac.
  - destruct Hl as [-> | [u ->]]; cbn [app]; jeq_tac.
Qed.

(** *** Rebuilding *)

Lemma link_rebuilds l : link_ok l -> anchor_link (encode_link l) = Some (encode_link l).
Proof.
  destruct l as [f a k]. intros (Hf & Ha & Hk). cbn in Hf, Ha, Hk. unfold anchor_link, encode_link. cbn [link_from link_address link_kind].
  set (d := [_; _; _; _]). change (jget "kind" d) with (JStr (kind_text k).1). change (jget "detail" d) with (JStr (kind_text k).2).
  change (jget "from" d) with (JStr f). change (jget "address" d) with (JStr a).
  rewrite (require_address_ok f Hf), (require_address_ok a Ha).
  assert (one_of W3_ANCHOR_LINK_KINDS (JStr (kind_text k).1) = Some (kind_text k).1) as -> by by destruct k.
  cbn [mbind option_bind].
  assert (link_detail (kind_text k).1 (JStr (kind_text k).2) = Some (kind_text k).2) as ->.
  { destruct k as [| | |role|safe]; try done.
    - destruct Hk as [H1%hex_re_spec H2]. cbn [kind_text fst snd]. unfold link_detail. change (LINK_DETAIL_BY_KIND "role_holder") with (@None string).
      change (String.eqb "role_holder" "role_holder") with true. cbv match. rewrite H1, H2, String.eqb_refl. done.
    - by apply require_address_ok. }
  cbn [mbind option_bind]. assert (same_keys d d = true) as Hs by done. unfold d in *. by rewrite Hs.
Qed.

Lemma anchor_rebuilds a : anchor_ok a -> anchor_chain_evidence (encode_anchor a) = Some (encode_anchor a).
Proof.
  destruct a as [ls addr k r]. intros (Hne & Hls & Ha & Hk & Hr). cbn in Hne, Hls, Ha, Hk, Hr. unfold anchor_chain_evidence, encode_anchor.
  cbn [anchor_links anchor_address anchor_kind anchor_rule]. set (d := [_; _; _; _]).
  change (jget "links" d) with (JList (map encode_link ls)). change (jget "anchor_kind" d) with (JStr k).
  change (jget "anchor_rule" d) with (JStr r). change (jget "anchor_address" d) with (JStr addr).
  assert (mapM anchor_link (map encode_link ls) = Some (map encode_link ls)) as Hm.
  { apply mapM_Some. clear -Hls. induction Hls as [|l ls Hl _ IH]; cbn; constructor; [by apply link_rebuilds|done]. }
  destruct ls as [|l ls]; [done|]. cbn [map] in *. rewrite Hm. cbn [mbind option_bind].
  rewrite (one_of_ok _ k Hk), (one_of_ok _ r Hr), (require_address_ok addr Ha). cbn [mbind option_bind].
  assert (same_keys d d = true) as Hs by done. unfold d in *. cbn [map] in *. by rewrite Hs.
Qed.

Lemma fact_rebuilds f : fact_ok f -> principal_fact_evidence (JDict (encode_fact f)) = Some (encode_fact f).
Proof.
  destruct f as [safe fp fn m a t]. intros (Hsafe & Hfp & Hfn & Hm & Ha & Ht). cbn in Hsafe, Hfp, Hfn, Hm, Ha, Ht.
  unfold principal_fact_evidence, encode_fact, fact_kind. cbn [fact_safe fact_principal fact_function fact_member fact_address fact_type].
  set (kind := match safe with Some _ => _ | None => _ end). set (d := [_; _; _; _; _; _; _]).
  change (jget "kind" d) with (JStr kind). change (jget "resolved_type" d) with (jopt JStr t). change (jget "safe_address" d) with (jopt JStr safe).
  change (jget "function_principal_id" d) with (JInt fp). change (jget "function_id" d) with (JInt fn).
  change (jget "member_contract_id" d) with (JInt m). change (jget "member_address" d) with (JStr a).
  rewrite (positive_ok fp Hfp), (positive_ok fn Hfn), (positive_ok m Hm), (require_address_ok a Ha).
  assert (resolved_type_of (jopt JStr t) = Some t) as ->.
  { apply (optional_ok _ JStr (fun t => str_strip t <> "")); [|done]. intros x Hx. split; [|done]. by destruct (String.eqb_spec (str_strip x) ""). }
  assert (one_of W3_PRINCIPAL_FACT_KINDS (JStr kind) = Some kind) as -> by (unfold kind; by destruct safe).
  assert ((if String.eqb kind "safe_owner" then Some <$> require_address (jopt JStr safe)
           else match jopt JStr safe with JNone => Some None | _ => None end) = Some safe) as Hs.
  { unfold kind. destruct safe as [x|]; [|done]. cbn in Hsafe. change (String.eqb "safe_owner" "safe_owner") with true. cbv match.
    cbn [jopt]. by rewrite (require_address_ok x Hsafe). }
  cbn [mbind option_bind]. rewrite Hs. cbn [mbind option_bind]. assert (same_keys d d = true) as Hk by done. unfold d in *. by rewrite Hk.
Qed.

(** The branch of each rule. *)
Lemma rebuild_w1 e : rebuild_evidence W1_CODE e = w1_evidence (jget "chain_id" e) (jget "code_probe_block" e).
Proof. done. Qed.

Lemma rebuild_w2 e : rebuild_evidence W2_STRUCTURAL e =
  w2_evidence (jget "edge_kind" e) (jget "member_contract_id" e) (jget "member_address" e) (jget "resolved_pointer" e)
    (if jeq (jget "edge_kind" e) (JStr "historical_implementation") then jget "upgrade_tx_hash" e else JNone)
    (if jhas W2_HEURISTIC_VIA_KEY e then jget W2_HEURISTIC_VIA_KEY e else JBool false).
Proof. done. Qed.

Lemma rebuild_w3 e : rebuild_evidence W3_CONTROL e =
  w3_evidence (jget "direction" e) (jget "source" e) (jget "via" e)
    (if jeq (jget "direction" e) (JStr "d1") then jget "via_transitive" e else JNone)
    (if jeq (jget "direction" e) (JStr "d1") then jget "anchor_chain" e else JNone) (jget "principal_fact" e).
Proof. done. Qed.

Lemma structural_rebuilds k m a p h heur : evidence_ok (Structural k m a p h heur) ->
  rebuild_evidence W2_STRUCTURAL (encode (Structural k m a p h heur)) = Some (encode (Structural k m a p h heur)).
Proof.
  cbn [evidence_ok]. intros (Hk & Hm & Ha & Hp & Hheur & Hh & Hnone). rewrite rebuild_w2. set (d := encode _).
  change (jget "edge_kind" d) with (JStr k). change (jget "member_contract_id" d) with (JInt m).
  change (jget "member_address" d) with (JStr a). change (jget "resolved_pointer" d) with (JStr p).
  assert ((if jhas W2_HEURISTIC_VIA_KEY d then jget W2_HEURISTIC_VIA_KEY d else JBool false) = JBool heur) as ->
    by (unfold d; cbn [encode]; destruct heur, (String.eqb k "historical_implementation"); done).
  assert ((if jeq (JStr k) (JStr "historical_implementation") then jget "upgrade_tx_hash" d else JNone) = jopt JStr h) as ->.
  { change (jeq (JStr k) (JStr "historical_implementation")) with (String.eqb k "historical_implementation").
    destruct (String.eqb_spec k "historical_implementation") as [->|Hne]; [|by rewrite (Hnone Hne)]. unfold d. cbn [encode]. by destruct heur. }
  unfold w2_evidence. rewrite (one_of_ok _ k Hk). cbn [mbind option_bind].
  change (jtruthy (JBool heur)) with heur. assert (heur && negb (bool_decide (k ∈ W2_SAME_CONTRACT_EDGE_KINDS)) = false) as ->.
  { destruct heur; [|done]. by rewrite bool_decide_true by by apply Hheur. }
  rewrite (positive_ok m Hm), (require_address_ok a Ha), (require_address_ok p Hp). cbn [mbind option_bind].
  unfold d. cbn [encode]. destruct (String.eqb_spec k "historical_implementation") as [->|Hne].
  - rewrite (optional_ok require_hash JStr is_hash h); [|intros x Hx; split; [by apply require_hash_ok|done]|done]. cbn [mbind option_bind].
    by rewrite <- app_assoc.
  - rewrite (Hnone Hne). cbn [jopt]. by rewrite app_nil_r.
Qed.

(** A controlled proof's two optional fields. *)
Definition anchor_field (pr : Transitivity) : option jval := match pr with Anchored a => Some (encode_anchor a) | _ => None end.
Definition fact_field (pr : Transitivity) : option jval := match pr with ByPrincipal f => Some (JDict (encode_fact f)) | _ => None end.

Lemma anchor_field_rebuilds pr : match pr with Anchored a => anchor_ok a | _ => True end ->
  optional anchor_chain_evidence (jopt id (anchor_field pr)) = Some (anchor_field pr).
Proof.
  intros Hpr. destruct pr as [|a|f]; try done. cbn [anchor_field jopt id]. unfold optional.
  change (Some <$> anchor_chain_evidence (encode_anchor a) = Some (Some (encode_anchor a))). by rewrite (anchor_rebuilds a Hpr).
Qed.

Lemma fact_field_rebuilds pr : match pr with ByPrincipal f => fact_ok f | _ => True end ->
  optional (fun v => JDict <$> principal_fact_evidence v) (jopt id (fact_field pr)) = Some (fact_field pr).
Proof.
  intros Hpr. destruct pr as [|a|f]; try done. cbn [fact_field jopt id]. unfold optional. by rewrite (fact_rebuilds f Hpr).
Qed.

Lemma controlled_rebuilds s v pr : evidence_ok (Controlled s v pr) ->
  rebuild_evidence W3_CONTROL (encode (Controlled s v pr)) = Some (encode (Controlled s v pr)).
Proof.
  cbn [evidence_ok]. intros (Hs & Hne & Hv & Hpr). rewrite rebuild_w3. set (d := encode _).
  change (jget "direction" d) with (JStr "d1"). change (jget "source" d) with (JStr s). change (jget "via" d) with (JStr v).
  change (jget "via_transitive" d) with (JBool true). change (jeq (JStr "d1") (JStr "d1")) with true. cbv match.
  assert (jget "anchor_chain" d = jopt id (anchor_field pr)) as -> by by destruct pr.
  assert (jget "principal_fact" d = jopt id (fact_field pr)) as -> by by destruct pr.
  unfold w3_evidence. change (one_of ["d1"; "d2"] (JStr "d1")) with (Some "d1"). rewrite (one_of_ok _ s Hs). cbn [mbind option_bind].
  assert (negb (is_jnone (jopt id (anchor_field pr))) && negb (is_jnone (jopt id (fact_field pr))) = false) as -> by by destruct pr.
  rewrite (require_address_ok v Hv). change (String.eqb "d1" "d1") with true. cbv match. cbn [mbind option_bind]. unfold w3_d1.
  destruct (String.eqb_spec s "function_principal"); [done|].
  rewrite anchor_field_rebuilds, fact_field_rebuilds by by destruct pr. by destruct pr.
Qed.

Lemma controls_rebuilds s v f : evidence_ok (Controls s v f) ->
  rebuild_evidence W3_CONTROL (encode (Controls s v f)) = Some (encode (Controls s v f)).
Proof.
  cbn [evidence_ok]. intros (Hs & Hv & Hiff & Hf). rewrite rebuild_w3. set (d := encode _).
  change (jget "direction" d) with (JStr "d2"). change (jget "source" d) with (JStr s). change (jget "via" d) with (JStr v).
  change (jeq (JStr "d2") (JStr "d1")) with false. cbv match.
  assert (jget "principal_fact" d = jopt (fun f => JDict (encode_fact f)) f) as -> by by destruct f.
  unfold w3_evidence. change (one_of ["d1"; "d2"] (JStr "d2")) with (Some "d2").
  assert (s ∈ W3_SOURCES) as Hs' by (unfold W3_SOURCES; by apply elem_of_cons; right). rewrite (one_of_ok _ s Hs'). cbn [mbind option_bind is_jnone negb andb].
  rewrite (require_address_ok v Hv). change (String.eqb "d2" "d1") with false. cbv match. cbn [mbind option_bind]. unfold w3_d2.
  cbn [is_jnone negb orb]. rewrite bool_decide_true by done. cbn [negb orb].
  destruct f as [f|]; cbn [jopt is_jnone negb].
  - assert (s = "function_principal") as -> by by apply Hiff. destruct Hf as (Hf & Hnone & t & Ht & Hin).
    change (negb (Bool.eqb (String.eqb "function_principal" "function_principal") true)) with false. cbv match. rewrite (fact_rebuilds f Hf). cbn [mbind option_bind].
    change (jget "kind" (encode_fact f)) with (JStr (fact_kind f)). change (jget "resolved_type" (encode_fact f)) with (jopt JStr (fact_type f)).
    rewrite Ht. cbn [jopt]. rewrite (one_of_ok _ t Hin). unfold fact_kind. by rewrite Hnone.
  - destruct (String.eqb_spec s "function_principal") as [->|]; [by destruct (proj1 Hiff eq_refl)|]. done.
Qed.

Lemma hash_option_ok h : option_all is_hash h -> optional require_hash (jopt JStr h) = Some h.
Proof. apply optional_ok. intros x Hx. split; [by apply require_hash_ok|done]. Qed.

Lemma block_option_ok b : option_all (fun b => 0 <= b) b -> optional require_block (jopt JInt b) = Some b.
Proof. apply optional_ok. intros x Hx. split; [by apply block_ok|done]. Qed.

Lemma unit_float_ok q : (0 <= q <= 1)%Q -> require_unit_float (JFloat q) = Some q.
Proof. intros [H1 H2]. cbn. apply Qle_bool_iff in H1, H2. by rewrite H1, H2. Qed.

Lemma asserted_rebuilds a t : evidence_ok (Asserted a t) -> rebuild_evidence W5_HUMAN (encode (Asserted a t)) = Some (encode (Asserted a t)).
Proof.
  intros [Ha Ht]. transitivity (t ← reformat_iso t; w5_evidence (JStr a) t); [done|]. unfold reformat_iso. rewrite Ht. cbn [mbind option_bind].
  unfold w5_evidence. by rewrite (require_text_ok a Ha).
Qed.

Lemma seeded_rebuilds s c b l : evidence_ok (Seeded s c b l) ->
  rebuild_evidence W6_LLAMA_SEED (encode (Seeded s c b l)) = Some (encode (Seeded s c b l)).
Proof.
  intros (Hs & Hc & Hb). transitivity (w6_evidence (JStr s) (JInt c) (JInt b) l); [by destruct l|].
  unfold w6_evidence. by rewrite (require_text_ok s Hs), (positive_ok c Hc), (block_ok b Hb).
Qed.

(** Every typed evidence is what its constructor rebuilds from it. *)
Lemma encode_rebuilds e : evidence_ok e -> rebuild_evidence (rule_of e) (encode e) = Some (encode e).
Proof.
  destruct e as [c b|k m a p h heur|s v pr|s v f|a r h b|a m c h|a r h b q n|a t|s c b l]; cbn [rule_of].
  - intros [Hc Hb]. transitivity (w1_evidence (JInt c) (JInt b)); [done|]. unfold w1_evidence. by rewrite (positive_ok c Hc), (block_ok b Hb).
  - apply structural_rebuilds.
  - apply controlled_rebuilds.
  - apply controls_rebuilds.
  - intros (Ha & Hr & Hh & Hb). transitivity (w4_evidence (JStr a) (JInt r) (JStr h) (jopt JInt b)); [done|]. unfold w4_evidence.
    by rewrite (require_hash_ok h Hh), (require_address_ok a Ha), (positive_ok r Hr), (block_option_ok b Hb).
  - intros (Ha & Hm & Hc & Hh). transitivity (w4_factory_evidence (JStr a) (JInt m) (JInt c) (jopt JStr h)); [done|]. unfold w4_factory_evidence.
    by rewrite (hash_option_ok h Hh), (require_address_ok a Ha), (positive_ok m Hm), (positive_ok c Hc).
  - intros (Ha & Hr & Hh & Hb & Hq & Hn). transitivity (w4h_evidence (JStr a) (JInt r) (JStr h) (jopt JInt b) (JFloat q) (JInt n)); [done|].
    unfold w4h_evidence. by rewrite (require_hash_ok h Hh), (unit_float_ok q Hq), (require_address_ok a Ha), (positive_ok r Hr), (block_option_ok b Hb), (positive_ok n Hn).
  - apply asserted_rebuilds.
  - apply seeded_rebuilds.
Qed.

Lemma validate_iff rule v : validate_evidence rule v = true <->
  exists d r, v = JDict d /\ d <> [] /\ rebuild_evidence rule d = Some r /\ jeq (JDict r) v = true.
Proof.
  split.
  - destruct v as [| | | | | |[|kv d]]; try done. unfold validate_evidence. destruct (rebuild_evidence rule (kv :: d)) as [r|] eqn:E; [|done].
    intros H. by exists (kv :: d), r.
  - intros (d & r & -> & Hne & Hr & Hj). destruct d as [|kv d]; [done|]. unfold validate_evidence. by rewrite Hr.
Qed.

Lemma validated_typed rule v : validate_evidence rule v = true ->
  exists E, rule_of E = rule /\ evidence_ok E /\ jeq (JDict (encode E)) v = true.
Proof. intros (d & r & -> & _ & Hr & Hj)%validate_iff. apply rebuild_typed in Hr as (E & <- & Hok & Hrule). by exists E. Qed.

(** ** The witness table *)

(** The calls of the gate, in the order of their transactions. *)
Inductive operation :=
  | Write (contract_id protocol_id : Z) (rule : string) (evidence via_address : jval) (now : Z)
  | Revoke (k : witness_key) (now : Z).

(** A refused write raises and leaves the table. *)
Definition apply_operation (t : witness_table) (o : operation) : witness_table :=
  match o with
  | Write c p rule e via now => match write_witness c p rule e via now t with Some (_, _, t) => t | None => t end
  | Revoke k now => (revoke_witness k now t).2
  end.

Definition run (ops : list operation) (t : witness_table) : witness_table := fold_left apply_operation ops t.

Definition empty_table : witness_table := mkTable ∅ 1.

(** What a row was armed with, while it is active. *)
Definition active_fact (k : witness_key) (t : witness_table) : option (jval * Z) :=
  w ← witnesses t !! k; match revoked_at w with None => Some (evidence_ w, observed_at w) | Some _ => None end.

(** The key an accepted write is about. *)
Definition written_key (o : operation) : option (witness_key * jval * Z) :=
  match o with
  | Write c p rule e via now =>
      if bool_decide (rule ∈ WITNESS_RULES) && validate_evidence rule e
      then v ← optional require_address via; Some ((c, p, rule, v), e, now) else None
  | Revoke _ _ => None
  end.

(** The reference: the first write since the last revocation. *)
Definition armed_step (k : witness_key) (cur : option (jval * Z)) (o : operation) : option (jval * Z) :=
  match o with
  | Revoke k' _ => if decide (k' = k) then None else cur
  | Write _ _ _ _ _ _ =>
      match written_key o with
      | Some (k', e, now) => if decide (k' = k) then match cur with Some x => Some x | None => Some (e, now) end else cur
      | None => cur
      end
  end.

Definition armed (k : witness_key) (ops : list operation) : option (jval * Z) := fold_left (armed_step k) ops None.

Definition row_ok (n : Z) (k : witness_key) (w : witness) : Prop :=
  k.1.2 ∈ WITNESS_RULES /\ validate_evidence k.1.2 (evidence_ w) = true /\ option_all is_address k.2 /\ 0 < witness_id w < n.

Definition table_ok (t : witness_table) : Prop :=
  map_Forall (row_ok (next_id t)) (witnesses t) /\ 1 <= next_id t /\
  (forall k k' w w', witnesses t !! k = Some w -> witnesses t !! k' = Some w' -> witness_id w = witness_id w' -> k = k').

Lemma apply_write c p rule e via now t :
  apply_operation t (Write c p rule e via now) =
  match written_key (Write c p rule e via now) with Some (k, e, now) => (upsert k e now t).2 | None => t end.
Proof.
  cbn [apply_operation written_key]. unfold write_witness. destruct (bool_decide (rule ∈ WITNESS_RULES)), (validate_evidence rule e); try done.
  cbn [negb orb andb]. by destruct (optional require_address via).
Qed.

Lemma written_ok o k e now : written_key o = Some (k, e, now) ->
  k.1.2 ∈ WITNESS_RULES /\ validate_evidence k.1.2 e = true /\ option_all is_address k.2.
Proof.
  destruct o as [c p rule ev via at_|]; [|done]. cbn. destruct (bool_decide _) eqn:Eb; [|done]. destruct (validate_evidence rule ev) eqn:Ev; [|done].
  cbn [andb]. destruct (optional require_address via) as [v|] eqn:Eo; [|done]. intros [= <- <- <-]. cbn.
  apply bool_decide_eq_true in Eb. split_and!; [done|done|]. eapply optional_inv; [|exact Eo]. intros x. apply require_address_inv.
Qed.

Lemma insert_row_ok t k w n :
  table_ok t -> next_id t <= n -> row_ok n k w ->
  match witnesses t !! k with Some w0 => witness_id w = witness_id w0 | None => next_id t <= witness_id w end ->
  table_ok (mkTable (<[k := w]> (witnesses t)) n).
Proof.
  intros (Hrows & Hn & Hinj) Hle Hrow Hid. cbn.
  assert (forall k' w', witnesses t !! k' = Some w' -> witness_id w = witness_id w' -> k' = k) as Hnew.
  { intros k' w' Hk' Heq. destruct (witnesses t !! k) as [w0|] eqn:E.
    - apply (Hinj k' k w' w0 Hk' E). congruence.
    - destruct (Hrows k' w' Hk') as (_ & _ & _ & ?). lia. }
  split_and!; cbn [witnesses next_id].
  - apply map_Forall_insert_2; [done|]. intros k' w' Hk'. destruct (Hrows k' w' Hk') as (? & ? & ? & ?). split_and!; try done; lia.
  - lia.
  - intros k1 k2 w1 w2. rewrite !lookup_insert_Some. intros [[<- <-]|[Hne1 H1]] [[<- <-]|[Hne2 H2]] Heq; [done| | |].
    + symmetry. by apply (Hnew k2 w2).
    + by apply (Hnew k1 w1).
    + by apply (Hinj k1 k2 w1 w2).
Qed.

Lemma upsert_ok (k : witness_key) e now t : table_ok t -> k.1.2 ∈ WITNESS_RULES -> validate_evidence k.1.2 e = true -> option_all is_address k.2 ->
  table_ok (upsert k e now t).2.
Proof.
  intros Ht Hk He Hv. pose proof Ht as (Hrows & Hn & _). unfold upsert. cbn [snd].
  destruct (witnesses t !! k) as [w|] eqn:E.
  - destruct (Hrows k w E) as (_ & Hw & _ & Hid).
    apply insert_row_ok; [done|lia| |rewrite E; by destruct (revoked_at w)].
    destruct (revoked_at w); split_and!; cbn; try done; lia.
  - apply insert_row_ok; [done|lia| |rewrite E; cbn; lia]. split_and!; cbn; try done; lia.
Qed.

Lemma revoke_ok k now t : table_ok t -> table_ok (revoke_witness k now t).2.
Proof.
  intros Ht. unfold revoke_witness. destruct (witnesses t !! k) as [w|] eqn:E; [|done]. destruct (revoked_at w); [done|]. cbn [snd].
  apply insert_row_ok; [done|done| |by rewrite E]. by destruct Ht as (Hrows & _); destruct (Hrows k w E) as (? & ? & ? & ?).
Qed.

Lemma apply_ok o t : table_ok t -> table_ok (apply_operation t o).
Proof.
  intros Ht. destruct o as [c p rule e via now|k now]; [|by apply revoke_ok]. rewrite apply_write.
  destruct (written_key _) as [[[k e'] now']|] eqn:E; [|done]. apply written_ok in E as (? & ? & ?). by apply upsert_ok.
Qed.

Lemma run_ok ops t : table_ok t -> table_ok (run ops t).
Proof. revert t. induction ops as [|o ops IH]; intros t Ht; [done|]. by apply IH, apply_ok. Qed.

Lemma empty_ok : table_ok empty_table.
Proof. split_and!; [done|done|]. intros k k' w w' H. cbn in H. by rewrite lookup_empty in H. Qed.

Lemma active_upsert k k' e now t : active_fact k' (upsert k e now t).2 =
  if decide (k = k') then match active_fact k t with Some x => Some x | None => Some (e, now) end else active_fact k' t.
Proof.
  unfold active_fact, upsert. cbn [snd witnesses]. destruct (decide (k = k')) as [<-|Hne]; [|by rewrite lookup_insert_ne].
  rewrite lookup_insert_eq. destruct (witnesses t !! k) as [w|]; [|done]. cbn. by destruct (revoked_at w).
Qed.

Lemma active_revoke k k' now t : active_fact k' (revoke_witness k now t).2 = if decide (k = k') then None else active_fact k' t.
Proof.
  unfold active_fact, revoke_witness. destruct (decide (k = k')) as [<-|Hne].
  - destruct (witnesses t !! k) as [w|] eqn:E; [|cbn; by rewrite E]. destruct (revoked_at w) eqn:Er; cbn; [by rewrite E; cbn; rewrite Er|].
    by rewrite lookup_insert_eq.
  - destruct (witnesses t !! k) as [w|] eqn:E; [|done]. destruct (revoked_at w); [done|]. cbn. by rewrite lookup_insert_ne.
Qed.

Lemma active_apply k o t : active_fact k (apply_operation t o) = armed_step k (active_fact k t) o.
Proof.
  destruct o as [c p rule e via now|k' now]; [|apply active_revoke]. rewrite apply_write. unfold armed_step.
  destruct (written_key _) as [[[k' e'] now']|]; [|done]. rewrite active_upsert. by destruct (decide (k' = k)) as [->|].
Qed.

Lemma active_run k ops t : active_fact k (run ops t) = fold_left (armed_step k) ops (active_fact k t).
Proof. revert t. induction ops as [|o ops IH]; intros t; [done|]. cbn [run fold_left]. by rewrite IH, active_apply. Qed.

(** A row is never lost, and keeps its id. *)
Lemma apply_keeps_row k w o t : witnesses t !! k = Some w -> exists w', witnesses (apply_operation t o) !! k = Some w' /\ witness_id w' = witness_id w.
Proof.
  intros Hk. destruct o as [c p rule e via now|k' now].
  - rewrite apply_write. destruct (written_key _) as [[[k' e'] now']|]; [|by exists w]. unfold upsert. cbn [snd witnesses].
    destruct (decide (k' = k)) as [->|Hne]; [|exists w; by rewrite lookup_insert_ne]. rewrite lookup_insert_eq, Hk. eexists. split; [done|].
    by destruct (revoked_at w).
  - cbn. unfold revoke_witness. destruct (witnesses t !! k') as [w'|] eqn:E; [|by exists w]. destruct (revoked_at w'); [by exists w|]. cbn.
    destruct (decide (k' = k)) as [->|Hne]; [|exists w; by rewrite lookup_insert_ne]. rewrite lookup_insert_eq. eexists. split; [done|]. cbn. congruence.
Qed.

Lemma run_keeps_row k w ops t : witnesses t !! k = Some w -> exists w', witnesses (run ops t) !! k = Some w' /\ witness_id w' = witness_id w.
Proof.
  revert w t. induction ops as [|o ops IH]; intros w t Hk; [by exists w|]. destruct (apply_keeps_row k w o t Hk) as (w1 & H1 & E1).
  destruct (IH w1 _ H1) as (w2 & H2 & E2). exists w2. split; [done|congruence].
Qed.

(** ** Properties *)

(** C20: type soundness of the validation: a JSON value accepted as evidence of
    a rule equals the encoding of a well-typed evidence of that rule: positive
    ids; addresses and hashes of 40 and 64 digits in lower case (one final newline
    is admitted); the kinds each rule admits; a heuristic only over an edge of the
    same contract; for a contract controlled by another (d1) a source that is not a
    function principal, with or without a principal fact; for a controller (d2) a
    principal fact exactly when the source is a function principal. *)
Theorem validated_evidence_is_typed rule v : validate_evidence rule v = true ->
  exists E, rule_of E = rule /\ evidence_ok E /\ jeq (JDict (encode E)) v = true.
Proof. apply validated_typed. Qed.

Definition sample_address : string := "0x00000000000000000000000000000000000000aa".

Definition sample_role : string := "0x00000000000000000000000000000000000000000000000000000000000000bb".

(** Evidence of control through a role holder, keys in another order. *)
Definition sample_control : jval :=
  JDict [("source", JStr "probe"); ("direction", JStr "d1"); ("via_transitive", JBool true); ("via", JStr sample_address);
         ("anchor_chain", JDict [("anchor_kind", JStr "member"); ("anchor_rule", JStr W4_DEPLOYER); ("anchor_address", JStr sample_address);
            ("links", JList [JDict [("kind", JStr "role_holder"); ("detail", JStr sample_role); ("from", JStr sample_address);
                                    ("address", JStr sample_address)]])])].

Theorem validated_evidence_is_typed_witness :
  validate_evidence W3_CONTROL sample_control = true /\
  exists E, rule_of E = W3_CONTROL /\ evidence_ok E /\ jeq (JDict (encode E)) sample_control = true.
Proof. split; [vm_compute; reflexivity|]. apply (validated_evidence_is_typed W3_CONTROL sample_control). vm_compute. reflexivity. Defined.

(** The evidence round trip: every well-typed evidence, written out, is
    rebuilt by its rule's constructor as it is, and passes the validation. *)
Theorem typed_evidence_round_trips E : evidence_ok E -> listing_typed E ->
  rebuild_evidence (rule_of E) (encode E) = Some (encode E) /\ validate_evidence (rule_of E) (JDict (encode E)) = true.
Proof.
  intros Hok Hl. split; [by apply encode_rebuilds|]. apply validate_iff. exists (encode E), (encode E).
  split_and!; [done|by destruct E|by apply encode_rebuilds|by apply encode_self].
Qed.

Theorem typed_evidence_round_trips_witness :
  let E := Controlled "probe" sample_address (Anchored (mkAnchor [mkLink sample_address sample_address (RoleHolder sample_role)]
             sample_address "member" W4_DEPLOYER)) in
  rebuild_evidence (rule_of E) (encode E) = Some (encode E) /\ validate_evidence (rule_of E) (JDict (encode E)) = true.
Proof.
  apply typed_evidence_round_trips; [|exact I].
  assert (is_address sample_address) as Ha by (split; [apply hex_re_spec|]; vm_compute; reflexivity).
  split; [apply (bool_decide_unpack _); vm_compute; exact I|]. split; [discriminate|]. split; [exact Ha|].
  split; [discriminate|]. split; [constructor; [|constructor]; split; [exact Ha|split; [exact Ha|split; [apply hex_re_spec|]; vm_compute; reflexivity]]|].
  split; [exact Ha|]. split; apply (bool_decide_unpack _); vm_compute; exact I.
Defined.

(** Every reachable witness table is well formed: whatever the writes and
    revocations, accepted or refused, each row's rule is known, its evidence is
    validated, its via is a normalised address, and ids are positive, distinct
    and below the sequence. *)
Theorem witness_table_well_formed ops : table_ok (run ops empty_table).
Proof. apply run_ok, empty_ok. Qed.

(** C38: the table implements its log: whatever was written and revoked, in any
    order, the active row of a key carries the evidence and the time of the
    first accepted write since the key's last revocation, there is none when
    no write followed that revocation, and a row once written is never lost
    and keeps its id. *)
Theorem witness_table_refines_log k ops more :
  active_fact k (run ops empty_table) = armed k ops /\
  (forall w, witnesses (run ops empty_table) !! k = Some w ->
     exists w', witnesses (run (ops ++ more) empty_table) !! k = Some w' /\ witness_id w' = witness_id w).
Proof.
  split; [by rewrite active_run|]. intros w Hw. unfold run. rewrite fold_left_app. by apply run_keeps_row.
Qed.

(** An equal value of another type passes the validation, and is not read as
    the mark it equals. *)
Example heuristic_one_unmarked :
  let e := JDict [("edge_kind", JStr "implementation"); ("member_contract_id", JInt 1); ("member_address", JStr sample_address);
                  ("resolved_pointer", JStr sample_address); (W2_HEURISTIC_VIA_KEY, JInt 1)] in
  validate_evidence W2_STRUCTURAL e = true /\ witness_is_heuristic W2_STRUCTURAL e = false.
Proof. vm_compute. done. Qed.
