(* ===== verification/Gate.v ===== *)
(** * The membership gate: stored facts, transitivity, admission, revocation

    [services/discovery/membership_gate]: the readers of stored facts
    ([readers.py]), the anchor chains and the re-verification of a witness
    ([transitivity.py]), nomination, promotion and the derivation of witnesses
    ([admission.py]), the demotion cascade ([revocation.py]) and the registry
    rows of [deployers.py] they read.

    The session is the record [gate]: the contract rows by id, the witness
    table of [Evidence], the deployer registry, the stored facts of the other
    tables, and the protocols marked for the enrollment and score queues.  A
    [None] result of an operation is a [ValueError] of an evidence constructor.
    A query without [ORDER BY] is read in the order of the map; only
    order-independent results are built from it. *)

From stdpp Require Import base gmap sets list strings sorting.
From Stdlib Require Import String Ascii ZArith QArith Lia.
From S2P Require Import Prelude PyText Chains Evidence.

Local Open Scope string_scope.
Local Open Scope Z_scope.

(** ** Rows *)

Record contract := mkContract {
  c_id : Z;
  address : string;
  c_chain : option string;
  deployer : option string;
  implementation : option string;
  beacon : option string;
  admin_ : option string;
  secondary_implementations : option (list string);
  protocol_id : option Z;
  nominated_protocol_id : option Z;
  discovery_sources : list string;
}.

Record controller_value := mkControllerValue {
  cv_contract : Z;
  controller_id : string;
  cv_value : option string;
  authority_provenance : option string;
}.

Record creation_witness := mkCreation {
  creation_tx_hash : option string;
  creation_block : option Z;
  creation_factory : option string;
  code_probe_block : option Z;
  code_absent_at_probe : option bool;
}.

Record upgrade_event := mkUpgrade {
  ue_id : Z;
  ue_contract : Z;
  new_impl : option string;
  ue_tx_hash : option string;
  ue_block : option Z;
}.

Record effective_function := mkFunction { ef_id : Z; ef_contract : Z; claims : jval }.

Record function_principal := mkPrincipal {
  fp_id : Z;
  fp_function : Z;
  fp_address : string;
  resolved_type : option string;
  details : jval;
}.

Record role_plane := mkPlane {
  rp_chain : Z;
  registry_address : string;
  role_hash : string;
  holders : jval;
  role_name : option string;
  role_name_basis : string;
}.

Record deployer_row := mkDeployer {
  d_id : Z;
  trust_class : string;
  d_evidence : jval;
  d_observed_at : Z;
  d_revoked_at : option Z;
  revocation_reason : option string;
}.

(** The tables the gate only reads, each in id order. *)
Record facts := mkFacts {
  controller_values : list controller_value;
  probe_attempts : gmap (Z * Z) jval;
  creations : gmap (Z * string) creation_witness;
  upgrade_events : list upgrade_event;
  functions : list effective_function;
  principals_ : list function_principal;
  role_planes : list role_plane;
  (** The canonical slug and the name of each protocol. *)
  protocols : gmap Z (option string * string);
}.

Record gate := mkGate {
  contracts : gmap Z contract;
  stored : facts;
  table : witness_table;
  registry : gmap (Z * string) deployer_row;
  dirty : gset Z;
}.

Definition DEPLOYER_TRUST_CLASS_A : string := "A".
Definition DEPLOYER_TRUST_CLASS_B : string := "B".
Definition DEPLOYER_TRUST_CLASS_H : string := "H".
Definition PROOF_DEPLOYER_TRUST_CLASSES : list string := ["A"; "B"].

Definition NONLINEAGE_WITNESS_RULES : list string := [W2_STRUCTURAL; W3_CONTROL; W5_HUMAN; W6_LLAMA_SEED].
Definition LINEAGE_REGISTRY_WITNESS_RULES : list string := [W4_DEPLOYER; W4H_DEPLOYER_AFFINITY].
Definition W3_CONTROLLER_PROVENANCE : string := "caller_gate".
Definition W3_PERIMETER_PRINCIPAL_TYPE : string := "eoa".
Definition W3_SET_VALUED_LINK_KINDS : list string := ["role_holder"; "safe_signer"].
Definition DEFAULT_ADMIN_ROLE_HASH : string := "0x" ++ str_repeat "0" 64.
Definition ANCHOR_ROLE_NAMES : list string := ["DEFAULT_ADMIN_ROLE"; "PROPOSER_ROLE"; "TIMELOCK_ADMIN_ROLE"].
Definition PROVEN_ROLE_NAME_BASES : list string := ["keccak_preimage"; "accesscontrol_default_admin_literal"].
Definition ANCHOR_CHAIN_MAX_DEPTH : nat := 8.
Definition W3_PRINCIPAL_AUTHORITY_RESOLVERS : list string :=
  ["enumerable_role_store"; "solmate_roles_authority"; "live_getter_resolution"; "authority_getter_basis"; "live_slot_resolution";
   "external_check_materialized"].
Definition CONTROL_GRANT_CLASSES : list string := ["control.gate"; "control.code"; "control.pause"; "control.config"; "control.funds"].
Definition SINGLE_CONTRACT_STATIC_TIERS : list string := ["standard_exact"; "idiom_structural"].
Definition DEFILLAMA_SOURCE_TAG : string := "defillama".

(** ** Texts and queries *)

(** [(column or "").lower()] *)
Definition low (o : option string) : string := match o with Some s => str_lower s | None => "" end.

(** [func.lower(column) == text], false for NULL. *)
Definition lower_is (o : option string) (text : string) : bool := match o with Some s => String.eqb (str_lower s) text | None => false end.

Definition is_address_text (s : string) : bool := hex_re 40 s.

(** [chain_id_for_chain_name] of [services/clients/rpc.py]. *)
Definition chain_id_for_chain_name (chain : option string) : option Z :=
  match chain with
  | Some s => if String.eqb (str_strip s) "" then None else chain_name_to_id_map !! str_strip (str_lower s)
  | None => None
  end.

(** [((canonical_chain(chain) or chain) or "ethereum").lower()] *)
Definition chain_key (chain : option string) : string :=
  match chain with
  | Some s => let name := default "" (canonical_chain (PyStr s)) in
              if negb (String.eqb name "") then str_lower name else if String.eqb s "" then "ethereum" else str_lower s
  | None => "ethereum"
  end.

(** [func.lower(func.coalesce(Contract.chain, "ethereum")) == key] *)
Definition on_chain (key : string) (c : contract) : bool := String.eqb (str_lower (default "ethereum" (c_chain c))) key.

Definition id_le (a b : contract) : Prop := c_id a <= c_id b.

#[export] Instance id_le_dec : RelDecision id_le.
Proof. intros a b. unfold id_le. apply _. Defined.

(** [select(Contract).where(...).order_by(Contract.id)] *)
Definition contracts_where (p : contract -> bool) (g : gate) : list contract :=
  List.filter p (merge_sort id_le (map snd (map_to_list (contracts g)))).

Definition is_member (pid : Z) (c : contract) : bool := bool_decide (protocol_id c = Some pid).

(** [for x in xs: y = f(x); if y is not None: return y] where [f] may raise. *)
Fixpoint first_some {A B} (f : A -> option (option B)) (l : list A) : option (option B) :=
  match l with
  | [] => Some None
  | x :: l => y ← f x; match y with Some z => Some (Some z) | None => first_some f l end
  end.

(** The smallest text of a set. *)
Definition min_text (l : list string) : option string := head (merge_sort str_le l).

Definition row_rule (kw : witness_key * witness) : string := kw.1.1.2.
Definition row_via (kw : witness_key * witness) : option string := kw.1.2.
Definition row_contract (kw : witness_key * witness) : Z := kw.1.1.1.1.
Definition row_protocol (kw : witness_key * witness) : Z := kw.1.1.1.2.
Definition is_admitting (rule : string) : bool := bool_decide (rule ∈ ADMITTING_WITNESS_RULES).
Definition row_heuristic (kw : witness_key * witness) : bool := witness_is_heuristic (row_rule kw) (evidence_ kw.2).

(** [evidence.get(k) if isinstance(evidence, dict) else None] *)
Definition evidence_get (k : string) (v : jval) : jval := match v with JDict d => jget k d | _ => JNone end.

Definition is_direction (d : string) (v : jval) : bool := jeq (evidence_get "direction" v) (JStr d).

Section Gate.
(** The grant class of a registered claim id: the registry the claim matchers
    fill.  No id is the text of another kind of value. *)
Variable grant_class_of : string -> option string.

(** ** Readers *)

Definition rows_of (g : gate) (cid pid : Z) : list (witness_key * witness) := active_witnesses cid pid (table g).

Definition code_row (g : gate) (c : contract) : option creation_witness :=
  n ← chain_id_for_chain_name (c_chain c); if String.eqb (address c) "" then None else creations (stored g) !! (n, str_lower (address c)).

Inductive membership := Member_ | Candidate | Pruned | Unclaimed.

Definition membership_state (c : contract) (code_absent : option bool) : membership :=
  match protocol_id c, nominated_protocol_id c with
  | Some _, _ => Member_
  | None, None => Unclaimed
  | None, Some _ => match code_absent with Some true => Pruned | _ => Candidate end
  end.

Definition resolve_membership_state (g : gate) (c : contract) : membership :=
  membership_state c (w ← code_row g c; code_absent_at_probe w).

Definition has_nonlineage_witness (g : gate) (cid pid : Z) : bool :=
  existsb (fun kw => bool_decide (row_rule kw ∈ NONLINEAGE_WITNESS_RULES)) (rows_of g cid pid).

Definition member_for_evidence (g : gate) (cid pid : Z) : bool :=
  let admitting := List.filter (fun kw => is_admitting (row_rule kw)) (rows_of g cid pid) in
  match admitting with [] => true | _ => existsb (fun kw => negb (row_heuristic kw)) admitting end.

(** A witness that anchors: admitting, proven, and not a controller's own. *)
Definition anchors_ladder (kw : witness_key * witness) : bool :=
  is_admitting (row_rule kw) && negb (row_heuristic kw) &&
  (negb (String.eqb (row_rule kw) W3_CONTROL) || is_direction "d1" (evidence_ kw.2)).

Definition member_anchors_ladder (g : gate) (cid pid : Z) : bool := existsb anchors_ladder (rows_of g cid pid).

Definition anchoring_member_factory_id (g : gate) (pid : Z) (factory : string) : option Z :=
  c_id <$> head (List.filter (fun m => member_anchors_ladder g (c_id m) pid)
                   (contracts_where (fun c => is_member pid c && String.eqb (str_lower (address c)) factory) g)).

Record factory_lineage := mkLineage { lineage_factory : string; lineage_member : Z; lineage_chain : Z; lineage_tx : option string }.

Definition member_factory_lineage (g : gate) (pid : Z) (c : contract) (factory : option string) : option factory_lineage :=
  n ← chain_id_for_chain_name (c_chain c);
  if String.eqb (address c) "" then None
  else
    w ← creations (stored g) !! (n, str_lower (address c));
    let named := low (creation_factory w) in
    if String.eqb named "" || match factory with Some f => negb (String.eqb named f) | None => false end then None
    else
      m ← anchoring_member_factory_id g pid named;
      Some (mkLineage named m n match creation_tx_hash w with Some tx => if hex_re 64 tx then Some (str_lower tx) else None | None => None end).

Definition member_factory_created (g : gate) (pid : Z) (c : contract) : bool := bool_decide (is_Some (member_factory_lineage g pid c None)).

Definition member_rows_at (g : gate) (pid : Z) (addr key : string) : list contract :=
  List.filter (fun m => member_for_evidence g (c_id m) pid)
    (contracts_where (fun c => is_member pid c && String.eqb (str_lower (address c)) addr && on_chain key c) g).

Definition PROBE_CONTROLLER_READS : list string := ["owner"; "authority"; "admin"].

(** A set of texts, as a list. *)
Definition probe_controller_values (g : gate) (c : contract) : list string :=
  match probe_attempts (stored g) !! (c_id c, default 0 (chain_id_for_chain_name (c_chain c))) with
  | Some (JDict results) =>
      if jeq (jget "status" results) (JStr "probed")
      then match jget "reads" results with
           | JDict reads => omap (fun name => match evidence_get "value" (jget name reads) with
                                              | JStr s => if is_address_text s then Some (str_lower s) else None
                                              | _ => None
                                              end) PROBE_CONTROLLER_READS
           | _ => []
           end
      else []
  | _ => []
  end.

Definition caller_gate (cv : controller_value) : bool := bool_decide (authority_provenance cv = Some W3_CONTROLLER_PROVENANCE).

Definition has_controller_value (g : gate) (cid : Z) (value : string) : bool :=
  existsb (fun cv => (cv_contract cv =? cid) && lower_is (cv_value cv) value && caller_gate cv) (controller_values (stored g)).

Definition w2_edge_holds (g : gate) (c member : contract) (edge_kind : jval) (evidence : jval) : bool :=
  let addr := str_lower (address c) in
  if String.eqb addr "" || (c_id member =? c_id c) then false
  else match edge_kind with
       | JStr kind =>
           if String.eqb kind "implementation" then String.eqb (low (implementation member)) addr
           else if String.eqb kind "beacon" then String.eqb (low (beacon member)) addr
           else if String.eqb kind "proxy_admin" then String.eqb (low (admin_ member)) addr
           else if String.eqb kind "secondary_implementation"
           then bool_decide (addr ∈ map str_lower (default [] (secondary_implementations member)))
           else if String.eqb kind "proxy"
           then let m := str_lower (address member) in
                negb (String.eqb m "") && (String.eqb m (low (implementation c)) || String.eqb m (low (beacon c)))
           else if String.eqb kind "historical_implementation"
           then existsb (fun e => (ue_contract e =? c_id member) && lower_is (new_impl e) addr &&
                                  match evidence_get "upgrade_tx_hash" evidence with JStr tx => lower_is (ue_tx_hash e) tx | _ => true end)
                  (upgrade_events (stored g))
           else false
       | _ => false
       end.

(** The path is a non-empty array, contained in the resolvers. *)
Definition authority_derived_principal (fp : function_principal) : bool :=
  match evidence_get "resolver_path" (details fp) with
  | JList ((_ :: _) as path) => forallb (fun v => match v with JStr s => bool_decide (s ∈ W3_PRINCIPAL_AUTHORITY_RESOLVERS) | _ => false end) path
  | _ => false
  end.

Definition single_contract_static_tier (claim : jdict) : option string :=
  match one_of SINGLE_CONTRACT_STATIC_TIERS (jget "tier" claim) with
  | Some tier => Some tier
  | None => if jeq (jget "tier" claim) (JStr "behavioral_observed")
            then one_of SINGLE_CONTRACT_STATIC_TIERS (evidence_get "static_tier" (jget "witness" claim)) else None
  end.

Definition function_grants_control (claims_ : jval) : bool :=
  match claims_ with
  | JList l => existsb (fun claim => match claim with
                                     | JDict d => match jget "claim_id" d with
                                                  | JStr s => match grant_class_of s with
                                                              | Some k => bool_decide (k ∈ CONTROL_GRANT_CLASSES)
                                                              | None => false
                                                              end
                                                  | _ => false
                                                  end && bool_decide (is_Some (single_contract_static_tier d))
                                     | _ => false
                                     end) l
  | _ => false
  end.

(** The function and the contract a principal row joins to. *)
Definition joined (g : gate) (fp : function_principal) : option (effective_function * contract) :=
  ef ← List.find (fun ef => ef_id ef =? fp_function fp) (functions (stored g)); c ← contracts g !! ef_contract ef; Some (ef, c).

Definition member_principal_rows (g : gate) (pid : Z) (addr key : string) (exclude : option Z) : list (function_principal * contract) :=
  omap (fun fp => x ← joined g fp;
                  if is_member pid x.2 && on_chain key x.2 && authority_derived_principal fp &&
                     negb (bool_decide (exclude = Some (c_id x.2))) && String.eqb (str_lower (fp_address fp)) addr &&
                     function_grants_control (claims x.1)
                  then Some (fp, x.2) else None) (principals_ (stored g)).

Definition function_principal_fact (fp : function_principal) (member : contract) : option jdict :=
  principal_fact_evidence (JDict [("kind", JStr "function_principal"); ("function_principal_id", JInt (fp_id fp));
    ("function_id", JInt (fp_function fp)); ("member_contract_id", JInt (c_id member)); ("member_address", JStr (str_lower (address member)));
    ("resolved_type", jopt JStr (resolved_type fp)); ("safe_address", JNone)]).

Definition principal_perimeter_fact (g : gate) (pid : Z) (addr key : string) (exclude : option Z) : option (option jdict) :=
  match List.filter (fun x => bool_decide (resolved_type x.1 = Some W3_PERIMETER_PRINCIPAL_TYPE) && member_anchors_ladder g (c_id x.2) pid)
          (member_principal_rows g pid addr key exclude) with
  | x :: _ => Some <$> function_principal_fact x.1 x.2
  | [] => Some None
  end.

(** The first row of each member. *)
Fixpoint first_per_member (seen : list Z) (l : list (function_principal * contract)) : list (function_principal * contract) :=
  match l with
  | [] => []
  | x :: l => if bool_decide (c_id x.2 ∈ seen) then first_per_member seen l else x :: first_per_member (c_id x.2 :: seen) l
  end.

Definition pair_le (x y : function_principal * contract) : Prop := c_id x.2 <= c_id y.2.

#[export] Instance pair_le_dec : RelDecision pair_le.
Proof. intros x y. unfold pair_le. apply _. Defined.

(** Controller-typed principals on anchoring members, one per member, by member. *)
Definition d2_principal_facts (g : gate) (pid : Z) (addr key : string) (exclude : option Z) : option (list (contract * jdict)) :=
  mapM (fun x => fact ← function_principal_fact x.1 x.2; Some (x.2, fact))
    (merge_sort pair_le (first_per_member []
      (List.filter (fun x => match resolved_type x.1 with Some t => bool_decide (t ∈ W3_PRINCIPAL_CONTROLLER_TYPES) | None => false end &&
                             member_anchors_ladder g (c_id x.2) pid) (member_principal_rows g pid addr key exclude)))).

Definition is_foreign (pid : Z) (o : option Z) : bool := match o with Some p => negb (p =? pid) | None => false end.

Definition any_contract (p : contract -> bool) (g : gate) : bool := match contracts_where p g with [] => false | _ => true end.

Definition address_proven_foreign (g : gate) (pid : Z) (addr : string) : bool :=
  any_contract (fun c => String.eqb (str_lower (address c)) addr && is_foreign pid (protocol_id c)) g ||
  existsb (fun kd => String.eqb kd.1.2 addr && negb (kd.1.1 =? pid) && bool_decide (d_revoked_at kd.2 = None)) (map_to_list (registry g)).

(** The probe attempts of a contract whose resolved addresses name [addr]. *)
Definition probe_resolved (g : gate) (cid : Z) (addr : string) : bool :=
  existsb (fun kr => (kr.1.1 =? cid) &&
                     match evidence_get "resolved_addresses" kr.2 with
                     | JList l => existsb (fun v => jeq v (JStr addr)) l
                     | _ => false
                     end) (map_to_list (probe_attempts (stored g))).

Definition foreign_row (pid : Z) (c : contract) : bool :=
  match protocol_id c with Some p => negb (p =? pid) | None => is_foreign pid (nominated_protocol_id c) end.

Definition controls_a_foreign_row (g : gate) (pid : Z) (controller : string) : bool :=
  any_contract (fun c => foreign_row pid c && has_controller_value g (c_id c) controller) g ||
  any_contract (fun c => foreign_row pid c && lower_is (admin_ c) controller) g ||
  any_contract (fun c => foreign_row pid c && probe_resolved g (c_id c) controller &&
                         bool_decide (controller ∈ probe_controller_values g c)) g.

Definition member_ids (g : gate) (pid cid : Z) : bool := match contracts g !! cid with Some c => is_member pid c | None => false end.

Inductive perimeter_kind := PControllerValue | PFunctionPrincipal | PSafeOwner.

Definition cv_le (x y : controller_value) : Prop := cv_contract x <= cv_contract y.

#[export] Instance cv_le_dec : RelDecision cv_le.
Proof. intros x y. unfold cv_le. apply _. Defined.

(** The observations, each with the member it is on. *)
Definition perimeter_fact_candidates (g : gate) (pid : Z) (addr : string) : list (perimeter_kind * jval * Z) :=
  (map (fun cv => (PControllerValue, JDict [("kind", JStr "controller_value"); ("contract_id", JInt (cv_contract cv));
                                            ("controller_id", JStr (controller_id cv))], cv_contract cv))
     (merge_sort cv_le (List.filter (fun cv => member_ids g pid (cv_contract cv) && lower_is (cv_value cv) addr && caller_gate cv)
                          (controller_values (stored g)))) ++
   omap (fun fp => x ← joined g fp;
                   if is_member pid x.2 && String.eqb (str_lower (fp_address fp)) addr && authority_derived_principal fp &&
                      function_grants_control (claims x.1)
                   then Some (PFunctionPrincipal, JDict [("kind", JStr "function_principal"); ("function_principal_id", JInt (fp_id fp));
                                                         ("function_id", JInt (fp_function fp))], c_id x.2) else None)
     (principals_ (stored g)) ++
   omap (fun fp => x ← joined g fp;
                   match evidence_get "owners" (details fp) with
                   | JList owners =>
                       if is_member pid x.2 && bool_decide (resolved_type fp = Some "safe") && function_grants_control (claims x.1) &&
                          existsb (fun o => match o with JStr s => String.eqb (str_lower s) addr | _ => false end) owners
                       then Some (PSafeOwner, JDict [("kind", JStr "safe_owner"); ("function_principal_id", JInt (fp_id fp));
                                                     ("safe_address", JStr (str_lower (fp_address fp)))], c_id x.2) else None
                   | _ => None
                   end) (principals_ (stored g)))%list.

Definition perimeter_fact (g : gate) (pid : Z) (addr : string) : option jval :=
  match List.filter (fun x => member_anchors_ladder g x.2 pid) (perimeter_fact_candidates g pid addr) with
  | x :: _ => Some x.1.2
  | [] => None
  end.

(** ** Registry rows *)

Definition registry_row (g : gate) (pid : Z) (addr : string) (classes : list string) : option deployer_row :=
  d ← registry g !! (pid, addr);
  if bool_decide (trust_class d ∈ classes) && bool_decide (d_revoked_at d = None) then Some d else None.

Definition proof_registry_row (g : gate) (pid : Z) (addr : string) : option deployer_row := registry_row g pid addr PROOF_DEPLOYER_TRUST_CLASSES.

Definition heuristic_registry_row (g : gate) (pid : Z) (addr : string) : option deployer_row := registry_row g pid addr [DEPLOYER_TRUST_CLASS_H].

(** ** Controller links *)

Record controller_link := mkCLink { l_kind : string; l_address : string; l_detail : string }.

#[export] Instance controller_link_eq_dec : EqDecision controller_link.
Proof. solve_decision. Defined.

Definition link_le (x y : controller_link) : Prop :=
  if String.eqb (l_kind x) (l_kind y)
  then if String.eqb (l_address x) (l_address y) then str_le (l_detail x) (l_detail y) else str_le (l_address x) (l_address y)
  else str_le (l_kind x) (l_kind y).

#[export] Instance link_le_dec : RelDecision link_le.
Proof. intros x y. unfold link_le. repeat destruct (String.eqb _ _); apply _. Defined.

Definition role_hash_anchors (r : role_plane) : bool :=
  match holders r with
  | JList (_ :: _) =>
      String.eqb (str_lower (role_hash r)) DEFAULT_ADMIN_ROLE_HASH ||
      match role_name r with Some n => bool_decide (n ∈ ANCHOR_ROLE_NAMES) | None => false end && bool_decide (role_name_basis r ∈ PROVEN_ROLE_NAME_BASES)
  | _ => false
  end.

(** [int(addr, 16) == 0] *)
Definition is_zero_text (addr : string) : bool := bool_decide (int_text 16 addr = Some 0).

(** [add]: an address that is neither the controller nor zero. *)
Definition add_link (own : string) (kind : string) (v : jval) (detail : string) : list controller_link :=
  match v with
  | JStr s => if is_address_text s && negb (String.eqb (str_lower s) own) && negb (is_zero_text (str_lower s))
              then [mkCLink kind (str_lower s) detail] else []
  | _ => []
  end.

Definition jlist (v : jval) : list jval := match v with JList l => l | _ => [] end.

(** The owners of the newest Safe row on an evidence member. *)
Definition safe_owners (g : gate) (pid : Z) (own : string) : list jval :=
  match List.filter (fun x => member_for_evidence g (c_id x.2) pid)
          (omap (fun fp => x ← joined g fp;
                           if String.eqb (str_lower (fp_address fp)) own && bool_decide (resolved_type fp = Some "safe") &&
                              negb (is_jnone (details fp)) && is_member pid x.2 then Some (fp, x.2) else None)
             (rev (principals_ (stored g)))) with
  | x :: _ => jlist (evidence_get "owners" (details x.1))
  | [] => []
  end.

Definition own_controller_links (g : gate) (pid : Z) (controller : contract) : list controller_link :=
  let own := str_lower (address controller) in
  let add := add_link own in
  let owners := flat_map (fun cv => add "owner_or_authority" (jopt JStr (cv_value cv)) "controller_values")
                  (List.filter (fun cv => (cv_contract cv =? c_id controller) && caller_gate cv) (controller_values (stored g))) in
  let admins := add "proxy_admin" (jopt JStr (admin_ controller)) "proxy_admin_slot" in
  let probes := flat_map (fun v => add "probe_read" (JStr v) "probe") (probe_controller_values g controller) in
  let roles := match chain_id_for_chain_name (c_chain controller) with
               | Some n => if String.eqb own "" then [] else
                           flat_map (fun r => flat_map (fun h => add "role_holder" h (str_lower (role_hash r))) (jlist (holders r)))
                             (List.filter (fun r => (rp_chain r =? n) && String.eqb (str_lower (registry_address r)) own && role_hash_anchors r)
                                (role_planes (stored g)))
               | None => []
               end in
  let signers := if String.eqb own "" then [] else flat_map (fun o => add "safe_signer" o own) (safe_owners g pid own) in
  merge_sort link_le (remove_dups (owners ++ admins ++ probes ++ roles ++ signers)%list).

(** ** Anchor chains *)

(** The rule a member is anchored by, independently of the blocked vias; [budget]
    is what the depth limit leaves. *)
Fixpoint independent_anchor_rule (budget : nat) (g : gate) (cid pid : Z) (blocked : gset string) : option string :=
  c ← contracts g !! cid;
  let anchors (kw : witness_key * witness) : bool :=
    is_admitting (row_rule kw) && negb (row_heuristic kw) &&
    (negb (String.eqb (row_rule kw) W3_CONTROL) || is_direction "d1" (evidence_ kw.2)) &&
    let via := low (row_via kw) in
    if String.eqb via "" then true
    else if bool_decide (via ∈ blocked) then false
    else if String.eqb (row_rule kw) W4_DEPLOYER then true
    else match budget with
         | O => false
         | S budget => existsb (fun m => negb (c_id m =? cid) &&
                                       bool_decide (is_Some (independent_anchor_rule budget g (c_id m) pid (blocked ∪ {[via]}))))
                       (member_rows_at g pid via (chain_key (c_chain c)))
         end in
  min_text (map row_rule (List.filter anchors (rows_of g cid pid))).

Definition perimeter_anchor (g : gate) (pid : Z) (addr : string) (blocked : gset string) : option string :=
  head (omap (fun x => match x.1.1 with PSafeOwner => None | _ => independent_anchor_rule ANCHOR_CHAIN_MAX_DEPTH g x.2 pid blocked end)
          (perimeter_fact_candidates g pid addr)).

Record anchor_chain := mkChain {
  chain_links : list (string * controller_link);
  chain_anchor : string;
  chain_anchor_kind : string;
  chain_anchor_rule : string;
}.

(** [_link_root]; [nested] is the recursive case, absent at the depth limit. *)
Definition link_root (g : gate) (pid : Z) (addr key : string) (in_progress : gset string) (require_member_terminal : bool)
    (nested : option (contract -> option anchor_chain)) : option anchor_chain :=
  let members := member_rows_at g pid addr key in
  match head (omap (fun m => independent_anchor_rule ANCHOR_CHAIN_MAX_DEPTH g (c_id m) pid in_progress) members) with
  | Some rule => Some (mkChain [] addr "member" rule)
  | None =>
      match (if require_member_terminal then None else perimeter_anchor g pid addr in_progress) with
      | Some rule => Some (mkChain [] addr "perimeter_principal" rule)
      | None => if require_member_terminal then None
                else match nested with Some f => head (omap f members) | None => None end
      end
  end.

Fixpoint anchor_chain_for (budget : nat) (g : gate) (pid : Z) (controller : contract) (key : string) (in_progress : gset string) :
    option anchor_chain :=
  match budget with
  | O => None
  | S budget =>
      let own := str_lower (address controller) in
      let links := own_controller_links g pid controller in
      if existsb (fun l => address_proven_foreign g pid (l_address l)) links then None
      else
        let root l :=
          if bool_decide (l_address l ∈ in_progress) then None
          else
            r ← link_root g pid (l_address l) key in_progress (bool_decide (l_kind l ∈ W3_SET_VALUED_LINK_KINDS))
                  match budget with
                  | O => None
                  | S _ => Some (fun m => anchor_chain_for budget g pid m key (in_progress ∪ {[l_address l]}))
                  end;
            Some (mkChain ((own, l) :: chain_links r) (chain_anchor r) (chain_anchor_kind r) (chain_anchor_rule r)) in
        match head (omap root links) with
        | Some chain => if controls_a_foreign_row g pid own then None else Some chain
        | None => None
        end
  end.

(** ** Transitivity *)

(** The rows a controller is observed controlling on a chain. *)
Definition controlled_rows (g : gate) (controller key : string) : list contract :=
  contracts_where (fun c => on_chain key c && (has_controller_value g (c_id c) controller || lower_is (admin_ c) controller)) g.

(** A controlled row that is no counterevidence. *)
Definition belongs (g : gate) (pid : Z) (c : contract) : bool :=
  is_member pid c ||
  bool_decide (protocol_id c = None) && bool_decide (nominated_protocol_id c = Some pid) && has_nonlineage_witness g (c_id c) pid ||
  member_factory_created g pid c.

Definition controller_is_exclusive (g : gate) (pid : Z) (controller key : string) (exclude : list Z) : bool :=
  let rows := List.filter (fun c => negb (bool_decide (c_id c ∈ exclude)) && negb (String.eqb (str_lower (address c)) controller))
                (controlled_rows g controller key) in
  forallb (belongs g pid) rows && existsb (fun c => is_member pid c && member_for_evidence g (c_id c) pid) rows.

Inductive transitivity_proof := IndependentWitness | D2Exclusive | ByAnchorChain (chain : anchor_chain) | ByPerimeterPrincipal (fact : jdict).

(** The witnesses of a member that make it a via: an independent one, or a
    controller's own. *)
Definition independent_row (kw : witness_key * witness) : bool := anchors_ladder kw.
Definition d2_row (kw : witness_key * witness) : bool :=
  is_admitting (row_rule kw) && negb (row_heuristic kw) && String.eqb (row_rule kw) W3_CONTROL && negb (is_direction "d1" (evidence_ kw.2)).

Definition member_transitivity (g : gate) (pid : Z) (via key : string) (exclude : option Z) (m : contract) : option transitivity_proof :=
  let rows := rows_of g (c_id m) pid in
  if existsb independent_row rows then Some IndependentWitness
  else if negb (existsb d2_row rows) then None
  else if controller_is_exclusive g pid via key (c_id m :: match exclude with Some z => [z] | None => [] end) then Some D2Exclusive
  else ByAnchorChain <$> anchor_chain_for ANCHOR_CHAIN_MAX_DEPTH g pid m key {[via]}.

Definition via_transitivity (g : gate) (pid : Z) (via key : string) (exclude : option Z) : option (option transitivity_proof) :=
  match head (omap (member_transitivity g pid via key exclude) (member_rows_at g pid via key)) with
  | Some proof => Some (Some proof)
  | None =>
      fact ← principal_perimeter_fact g pid via key exclude;
      match fact with
      | None => Some None
      | Some fact => Some (if address_proven_foreign g pid via || controls_a_foreign_row g pid via then None else Some (ByPerimeterPrincipal fact))
      end
  end.

(** A recorded proof is still citable as it stands. *)
Definition still_cited (proof : transitivity_proof) (evidence : jval) : bool :=
  let recorded := evidence_get "anchor_chain" evidence in
  let recorded_principal := evidence_get "principal_fact" evidence in
  match proof with
  | ByAnchorChain chain =>
      is_jnone recorded_principal &&
      match recorded with JDict d => jeq (JStr (chain_anchor chain)) (jget "anchor_address" d) | _ => true end
  | ByPerimeterPrincipal fact =>
      is_jnone recorded &&
      match recorded_principal with JDict d => jeq (jget "member_contract_id" fact) (jget "member_contract_id" d) | _ => true end
  | _ => is_jnone recorded && is_jnone recorded_principal
  end.

Definition w2_fact_holds (g : gate) (c : contract) (pid : Z) (evidence : jval) : bool :=
  match evidence_get "member_contract_id" evidence with
  | JInt mid =>
      match contracts g !! mid with
      | Some m =>
          is_member pid m && String.eqb (chain_key (c_chain m)) (chain_key (c_chain c)) &&
          match evidence_get W2_HEURISTIC_VIA_KEY evidence with
          | JBool true => bool_decide (is_Some (one_of W2_SAME_CONTRACT_EDGE_KINDS (evidence_get "edge_kind" evidence)))
          | _ => member_for_evidence g mid pid
          end && w2_edge_holds g c m (evidence_get "edge_kind" evidence) evidence
      | None => false
      end
  | _ => false
  end.

Definition w3_d2_holds (g : gate) (c : contract) (pid : Z) (source via : string) : option bool :=
  let addr := str_lower (address c) in
  let key := chain_key (c_chain c) in
  if String.eqb source "function_principal"
  then facts ← d2_principal_facts g pid addr key (Some (c_id c));
       Some (existsb (fun mf => negb (String.eqb (address mf.1) "") && String.eqb (str_lower (address mf.1)) via) facts)
  else if negb (bool_decide (source ∈ W3_D2_SOURCES)) then Some false
  else Some (existsb (fun m => negb (c_id m =? c_id c) &&
                               (String.eqb source "proxy_admin_slot" && String.eqb (low (admin_ m)) addr ||
                                String.eqb source "probe" && bool_decide (addr ∈ probe_controller_values g m)))
               (member_rows_at g pid via key)).

Definition w3_d1_holds (g : gate) (c : contract) (pid : Z) (source via : string) (evidence : jval) : option bool :=
  proof ← via_transitivity g pid via (chain_key (c_chain c)) (Some (c_id c));
  match proof with
  | None => Some false
  | Some proof =>
      Some (still_cited proof evidence &&
            (if String.eqb source "controller_values" then has_controller_value g (c_id c) via
             else if String.eqb source "proxy_admin_slot" then String.eqb (low (admin_ c)) via
             else String.eqb source "probe" && bool_decide (via ∈ probe_controller_values g c)))
  end.

(** [_witness_fact_holds] *)
Definition witness_fact_holds (g : gate) (c : contract) (pid : Z) (rule : string) (evidence : jval) (via_address : option string) : option bool :=
  let via := low via_address in
  if bool_decide (rule ∈ [W1_CODE; W5_HUMAN; W6_LLAMA_SEED]) then Some true
  else if String.eqb rule W4_DEPLOYER
  then Some (negb (String.eqb via "") && String.eqb (low (deployer c)) via && bool_decide (is_Some (proof_registry_row g pid via)))
  else if String.eqb rule W4H_DEPLOYER_AFFINITY
  then Some (negb (String.eqb via "") && String.eqb (low (deployer c)) via && bool_decide (is_Some (heuristic_registry_row g pid via)))
  else if String.eqb rule W4_FACTORY
  then Some (negb (String.eqb via "") && bool_decide (is_Some (member_factory_lineage g pid c (Some via))))
  else if String.eqb rule W2_STRUCTURAL then Some (w2_fact_holds g c pid evidence)
  else if String.eqb rule W3_CONTROL
  then if String.eqb via "" then Some false
       else match evidence_get "source" evidence with
            | JStr source =>
                if is_direction "d2" evidence then w3_d2_holds g c pid source via
                else if is_direction "d1" evidence then w3_d1_holds g c pid source via evidence
                else Some false
            | _ => Some false
            end
  else Some false.

Definition row_holds (g : gate) (c : contract) (kw : witness_key * witness) : option bool :=
  witness_fact_holds g c (row_protocol kw) (row_rule kw) (evidence_ kw.2) (row_via kw).
End Gate.
