(* ===== verification/Admission.v ===== *)
(** * The gate's writes: nomination, promotion, derivation, revocation

    The operations of [admission.py] and [revocation.py] that change the
    session: each takes the gate and returns the new one, or [None] when an
    evidence constructor raises. *)

From stdpp Require Import base gmap sets list strings sorting.
From Stdlib Require Import String Ascii ZArith QArith Lia.
From S2P Require Import Prelude PyText Chains Evidence Gate.

Local Open Scope string_scope.
Local Open Scope Z_scope.

(** ** Columns *)

Definition set_membership (member nominated : option Z) (c : contract) : contract :=
  mkContract (c_id c) (address c) (c_chain c) (deployer c) (implementation c) (beacon c) (admin_ c) (secondary_implementations c)
    member nominated (discovery_sources c).

Definition set_sources (l : list string) (c : contract) : contract :=
  mkContract (c_id c) (address c) (c_chain c) (deployer c) (implementation c) (beacon c) (admin_ c) (secondary_implementations c)
    (protocol_id c) (nominated_protocol_id c) l.

Definition put_contract (c : contract) (g : gate) : gate :=
  mkGate (<[c_id c := c]> (contracts g)) (stored g) (table g) (registry g) (dirty g).

Definition put_table (t : witness_table) (g : gate) : gate := mkGate (contracts g) (stored g) t (registry g) (dirty g).

(** [_mark_membership_dirty]: both queues, once per transaction. *)
Definition mark_membership_dirty (pid : Z) (g : gate) : gate :=
  mkGate (contracts g) (stored g) (table g) (registry g) ({[pid]} ∪ dirty g).

Section Writes.
Variable grant_class_of : string -> option string.
Notation holds := (row_holds grant_class_of).

(** The rows a test that may raise accepts. *)
Fixpoint filter_rows (f : witness_key * witness -> option bool) (l : list (witness_key * witness)) : option (list (witness_key * witness)) :=
  match l with
  | [] => Some []
  | x :: l => b ← f x; rest ← filter_rows f l; Some (if (b : bool) then x :: rest else rest)
  end.

(** ** Promotion *)

Definition w1_on_chain (n : Z) (kw : witness_key * witness) : bool :=
  String.eqb (row_rule kw) W1_CODE && jeq (evidence_get "chain_id" (evidence_ kw.2)) (JInt n).

Definition promote (c : contract) (pid : Z) (g : gate) : option (bool * gate) :=
  if negb (0 <? pid) then None
  else if bool_decide (protocol_id c = Some pid) then Some (true, g)
  else if bool_decide (is_Some (protocol_id c)) then Some (false, g)
  else
    let rows := rows_of g (c_id c) pid in
    if bool_decide ((w ← code_row g c; code_absent_at_probe w) = Some true) then Some (false, g)
    else
      let has_w1 := match chain_id_for_chain_name (c_chain c) with Some n => existsb (w1_on_chain n) rows | None => false end in
      admitting ← filter_rows (holds g c) (List.filter (fun kw => is_admitting (row_rule kw)) rows);
      match admitting with
      | _ :: _ => if has_w1 then Some (true, mark_membership_dirty pid (put_contract (set_membership (Some pid) (Some pid) c) g)) else Some (false, g)
      | [] => Some (false, g)
      end.

Definition demote_member (c : contract) (g : gate) : gate :=
  match protocol_id c with
  | None => g
  | Some pid =>
      let nominated := match nominated_protocol_id c with Some n => Some n | None => Some pid end in
      mark_membership_dirty pid (put_contract (set_membership None nominated c) g)
  end.

(** ** Nomination and seeds *)

(** The slot a nomination leaves. *)
Definition nominated_slot (c : contract) (pid : Z) : option Z :=
  match nominated_protocol_id c with
  | Some n => Some n
  | None => match protocol_id c with Some p => Some p | None => Some pid end
  end.

Definition merge_source (tag : string) (l : list string) : list string :=
  if String.eqb tag "" || bool_decide (tag ∈ l) then l else (l ++ [tag])%list.

(** A human assertion is its actor and the text of its time. *)
Definition nominate (c : contract) (pid : Z) (source_tag : string) (human_assertion : option (string * string)) (now : Z) (g : gate) : option gate :=
  if negb (0 <? pid) then None
  else
    let c := set_sources (merge_source source_tag (discovery_sources c)) (set_membership (protocol_id c) (nominated_slot c pid) c) in
    let g := put_contract c g in
    match human_assertion with
    | None => Some g
    | Some (actor, asserted_at) =>
        match protocol_id c with
        | Some p => if p =? pid
                    then e ← w5_evidence (JStr actor) asserted_at;
                         w ← write_witness (c_id c) pid W5_HUMAN (JDict e) JNone now (table g);
                         r ← promote c pid (put_table w.2 g); Some r.2
                    else Some g
        | None =>
            e ← w5_evidence (JStr actor) asserted_at;
            w ← write_witness (c_id c) pid W5_HUMAN (JDict e) JNone now (table g);
            r ← promote c pid (put_table w.2 g); Some r.2
        end
    end.

(** Any row of a rule, revoked ones included. *)
Definition has_row (t : witness_table) (cid pid : Z) (rule : string) : bool :=
  existsb (fun kw => (row_contract kw =? cid) && (row_protocol kw =? pid) && String.eqb (row_rule kw) rule) (map_to_list (witnesses t)).

Definition seed_llama_witness (c : contract) (now : Z) (g : gate) : option (bool * gate) :=
  match (match protocol_id c with Some p => Some p | None => nominated_protocol_id c end), chain_id_for_chain_name (c_chain c), code_row g c with
  | Some pid, Some n, Some w =>
      match code_probe_block w, protocols (stored g) !! pid with
      | Some block, Some (slug, name) =>
          if negb (bool_decide (DEFILLAMA_SOURCE_TAG ∈ discovery_sources c)) || bool_decide (code_absent_at_probe w = Some true) ||
             has_row (table g) (c_id c) pid W6_LLAMA_SEED then Some (false, g)
          else
            let adapter_slug := match slug with Some s => if String.eqb s "" then name else s | None => name end in
            e ← w6_evidence (JStr adapter_slug) (JInt n) (JInt block) JNone;
            r ← write_witness (c_id c) pid W6_LLAMA_SEED (JDict e) JNone now (table g);
            Some (true, put_table r.2 g)
      | _, _ => Some (false, g)
      end
  | _, _, _ => Some (false, g)
  end.

(** ** Derivation *)

Definition fact_ : Type := string * jdict * string.

Definition seen (rule via : string) (l : list fact_) : bool := existsb (fun f => String.eqb f.1.1 rule && String.eqb f.2 via) l.

(** [add]: the first of each rule and via. *)
Definition add_fact (l : list fact_) (f : fact_) : list fact_ := if seen f.1.1 f.2 l then l else (l ++ [f])%list.

Definition member_scope (pid : Z) (c m : contract) : bool := is_member pid m && negb (c_id m =? c_id c) && on_chain (chain_key (c_chain c)) m.

(** [pat] occurs in [s]. *)
Fixpoint str_contains (pat s : string) : bool :=
  bool_decide (is_Some (str_after pat s)) || match s with EmptyString => false | String _ s => str_contains pat s end.

(** [lower(array_to_string(secondary_implementations, ',')) LIKE '%addr%'] *)
Definition secondary_pointer_named (addr : string) (m : contract) : bool :=
  match secondary_implementations m with Some l => str_contains addr (str_lower (String.concat "," l)) | None => false end.

Definition POINTER_EDGE_KINDS : list string := ["implementation"; "beacon"; "proxy_admin"; "secondary_implementation"].

(** The first edge of a member that reaches the candidate. *)
Definition pointer_edge (g : gate) (c m : contract) (proven heuristic_inheritance : bool) : option string :=
  List.find (fun kind => (proven || heuristic_inheritance && bool_decide (kind ∈ W2_SAME_CONTRACT_EDGE_KINDS)) &&
                         w2_edge_holds g c m (JStr kind) (JDict [])) POINTER_EDGE_KINDS.

Definition pointer_facts (g : gate) (c : contract) (pid : Z) (heuristic_inheritance : bool) : option (list fact_) :=
  let addr := str_lower (address c) in
  mapM (fun mk => e ← w2_evidence (JStr mk.2) (JInt (c_id mk.1)) (JStr (address mk.1)) (JStr addr) JNone
                        (JBool (negb (member_for_evidence g (c_id mk.1) pid)));
                  Some (W2_STRUCTURAL, e, str_lower (address mk.1)))
    (omap (fun m => kind ← pointer_edge g c m (member_for_evidence g (c_id m) pid) heuristic_inheritance; Some (m, kind))
       (contracts_where (fun m => member_scope pid c m &&
          (lower_is (implementation m) addr || lower_is (beacon m) addr || lower_is (admin_ m) addr || secondary_pointer_named addr m)) g)).

Definition proxy_facts (g : gate) (c : contract) (pid : Z) : option (list fact_) :=
  mapM (fun m => e ← w2_evidence (JStr "proxy") (JInt (c_id m)) (JStr (address m)) (JStr (str_lower (address m))) JNone (JBool false);
                 Some (W2_STRUCTURAL, e, str_lower (address m)))
    (flat_map (fun pointer => if is_address_text pointer
                              then List.filter (fun m => negb (c_id m =? c_id c)) (member_rows_at g pid pointer (chain_key (c_chain c))) else [])
       [low (implementation c); low (beacon c)]).

(** Ascending blocks, unknown ones last, then ids. *)
Definition event_le (x y : upgrade_event) : Prop :=
  match ue_block x, ue_block y with
  | Some a, Some b => a < b \/ a = b /\ ue_id x <= ue_id y
  | Some _, None => True
  | None, Some _ => False
  | None, None => ue_id x <= ue_id y
  end.

#[export] Instance event_le_dec : RelDecision event_le.
Proof. intros x y. unfold event_le. destruct (ue_block x), (ue_block y); apply _. Defined.

Definition historical_facts (g : gate) (c : contract) (pid : Z) : option (list fact_) :=
  let addr := str_lower (address c) in
  mapM (fun me => e ← w2_evidence (JStr "historical_implementation") (JInt (c_id me.1)) (JStr (address me.1)) (JStr addr)
                        (match ue_tx_hash me.2 with Some tx => if hex_re 64 tx then JStr (str_lower tx) else JNone | None => JNone end) (JBool false);
                  Some (W2_STRUCTURAL, e, str_lower (address me.1)))
    (omap (fun m => match merge_sort event_le (List.filter (fun e => (ue_contract e =? c_id m) && lower_is (new_impl e) addr) (upgrade_events (stored g))) with
                    | e :: _ => if member_for_evidence g (c_id m) pid then Some (m, e) else None
                    | [] => None
                    end)
       (contracts_where (member_scope pid c) g)).

Definition probe_facts (g : gate) (c : contract) (pid : Z) : option (list fact_) :=
  let addr := str_lower (address c) in
  mapM (fun m => e ← w3_evidence (JStr "d2") (JStr "probe") (JStr (address m)) JNone JNone JNone; Some (W3_CONTROL, e, str_lower (address m)))
    (List.filter (fun m => member_for_evidence g (c_id m) pid && bool_decide (addr ∈ probe_controller_values g m))
       (contracts_where (fun m => member_scope pid c m && probe_resolved g (c_id m) addr) g)).

Definition principal_facts (g : gate) (c : contract) (pid : Z) : option (list fact_) :=
  facts ← d2_principal_facts grant_class_of g pid (str_lower (address c)) (chain_key (c_chain c)) (Some (c_id c));
  mapM (fun mf : contract * jdict =>
          e ← w3_evidence (JStr "d2") (JStr "function_principal") (JStr (address mf.1)) JNone JNone (JDict mf.2);
          Some (W3_CONTROL, e, str_lower (address mf.1))) facts.

Definition source_le (x y : string * string) : Prop := if String.eqb x.1 y.1 then str_le x.2 y.2 else str_le x.1 y.1.

#[export] Instance source_le_dec : RelDecision source_le.
Proof. intros x y. unfold source_le. destruct (String.eqb _ _); apply _. Defined.

(** The candidate's controllers by source. *)
Definition own_controllers (g : gate) (c : contract) : list (string * string) :=
  merge_sort source_le
    (omap (fun cv => match cv_value cv with Some v => if String.eqb v "" then None else Some ("controller_values", str_lower v) | None => None end)
       (List.filter (fun cv => (cv_contract cv =? c_id c) && caller_gate cv) (controller_values (stored g))) ++
     (if String.eqb (low (admin_ c)) "" then [] else [("proxy_admin_slot", low (admin_ c))]) ++
     map (fun v => ("probe", v)) (probe_controller_values g c))%list.

Definition link_json (fl : string * controller_link) : jval :=
  JDict [("from", JStr fl.1); ("address", JStr (l_address fl.2)); ("kind", JStr (l_kind fl.2)); ("detail", JStr (l_detail fl.2))].

Definition chain_json (ch : anchor_chain) : jval :=
  JDict [("links", JList (map link_json (chain_links ch))); ("anchor_address", JStr (chain_anchor ch));
         ("anchor_kind", JStr (chain_anchor_kind ch)); ("anchor_rule", JStr (chain_anchor_rule ch))].

(** The evidence of a proven controller. *)
Definition d1_evidence (source via : string) (proof : transitivity_proof) : option jdict :=
  w3_evidence (JStr "d1") (JStr source) (JStr via) (JBool true)
    match proof with ByAnchorChain ch => chain_json ch | _ => JNone end
    match proof with ByPerimeterPrincipal f => JDict f | _ => JNone end.

Fixpoint controller_facts (g : gate) (c : contract) (pid : Z) (l : list (string * string)) (derived : list fact_) : option (list fact_) :=
  match l with
  | [] => Some derived
  | (source, via) :: l =>
      if negb (is_address_text via) || String.eqb via (str_lower (address c)) || is_zero_text via || seen W3_CONTROL via derived
      then controller_facts g c pid l derived
      else
        proof ← via_transitivity grant_class_of g pid via (chain_key (c_chain c)) (Some (c_id c));
        match proof with
        | None => controller_facts g c pid l derived
        | Some proof => e ← d1_evidence source via proof; controller_facts g c pid l (add_fact derived (W3_CONTROL, e, via))
        end
  end.

Definition factory_facts (g : gate) (c : contract) (pid : Z) : option (list fact_) :=
  match member_factory_lineage g pid c None with
  | None => Some []
  | Some l => e ← w4_factory_evidence (JStr (lineage_factory l)) (JInt (lineage_member l)) (JInt (lineage_chain l)) (jopt JStr (lineage_tx l));
              Some [(W4_FACTORY, e, lineage_factory l)]
  end.

(** Deployer lineage, and whether only the creation record is missing. *)
Definition deployer_facts (g : gate) (c : contract) (pid : Z) : option (list fact_ * bool) :=
  let dep := low (deployer c) in
  if negb (is_address_text dep) then Some ([], false)
  else match proof_registry_row g pid dep with
       | None => Some ([], false)
       | Some row =>
           match (n ← chain_id_for_chain_name (c_chain c); w ← creations (stored g) !! (n, str_lower (address c));
                  tx ← creation_tx_hash w; if String.eqb tx "" then None else Some (tx, creation_block w)) with
           | Some (tx, block) =>
               e ← w4_evidence (JStr dep) (JInt (d_id row)) (JStr tx) (jopt JInt block); Some ([(W4_DEPLOYER, e, dep)], false)
           | None => Some ([], true)
           end
       end.

Definition derive_admitting_facts (g : gate) (c : contract) (pid : Z) (heuristic_inheritance : bool) : option (list fact_ * bool) :=
  f1 ← pointer_facts g c pid heuristic_inheritance;
  f2 ← proxy_facts g c pid;
  f3 ← historical_facts g c pid;
  f4 ← probe_facts g c pid;
  f5 ← principal_facts g c pid;
  let derived := foldl add_fact [] (f1 ++ f2 ++ f3 ++ f4 ++ f5)%list in
  derived ← controller_facts g c pid (own_controllers g c) derived;
  f7 ← factory_facts g c pid;
  f8 ← deployer_facts g c pid;
  Some (foldl add_fact derived (f7 ++ f8.1)%list, f8.2).

(** ** Admission *)

Inductive admission := Promoted | NeedsProbe.

Fixpoint write_facts (cid pid now : Z) (l : list fact_) (t : witness_table) : option witness_table :=
  match l with
  | [] => Some t
  | (rule, e, via) :: l => r ← write_witness cid pid rule (JDict e) (JStr via) now t; write_facts cid pid now l r.2
  end.

(** After the derivation: the code proof and the facts are written, then the
    row is promoted. *)
Definition bind_and_promote (c : contract) (pid : Z) (code_absent : option bool) (derived : list fact_) (blocked : option admission) (now : Z) (g : gate) :
    option (option admission * gate) :=
  if match derived with [] => negb (existsb (fun kw => is_admitting (row_rule kw)) (rows_of g (c_id c) pid)) | _ => false end
  then Some (blocked, g)
  else
    match chain_id_for_chain_name (c_chain c), code_absent, (w ← code_row g c; code_probe_block w) with
    | None, _, _ => Some (None, g)
    | Some _, None, _ => Some (Some NeedsProbe, g)
    | Some n, Some _, None => None
    | Some n, Some _, Some block =>
        e ← w1_evidence (JInt n) (JInt block);
        r ← write_witness (c_id c) pid W1_CODE (JDict e) JNone now (table g);
        t ← write_facts (c_id c) pid now derived r.2;
        p ← promote c pid (put_table t g);
        Some (if (p.1 : bool) then Some Promoted else blocked, p.2)
    end.

Definition attempt_admission (c : contract) (pid : Z) (heuristic_inheritance : bool) (now : Z) (g : gate) : option (option admission * gate) :=
  if String.eqb (address c) "" then Some (None, g)
  else
    let code_absent := w ← code_row g c; code_absent_at_probe w in
    match code_absent with
    | Some true => Some (None, g)
    | _ =>
        d ← derive_admitting_facts g c pid heuristic_inheritance;
        bind_and_promote c pid code_absent d.1 (if (d.2 : bool) then Some NeedsProbe else None) now g
    end.

(** ** Revocation *)

Definition row_id_le (x y : witness_key * witness) : Prop := witness_id x.2 <= witness_id y.2.

#[export] Instance row_id_le_dec : RelDecision row_id_le.
Proof. intros x y. unfold row_id_le. apply _. Defined.

Definition row_order (x y : witness_key * witness) : Prop := row_contract x < row_contract y \/ row_contract x = row_contract y /\ row_id_le x y.

#[export] Instance row_order_dec : RelDecision row_order.
Proof. intros x y. unfold row_order. apply _. Defined.

(** The unrevoked rows of a query, by contract and id. *)
Definition active_where (p : witness_key * witness -> bool) (g : gate) : list (witness_key * witness) :=
  merge_sort row_order (List.filter (fun kw => bool_decide (revoked_at kw.2 = None) && p kw) (map_to_list (witnesses (table g)))).

(** [revoke_witness] on a row of the session. *)
Definition revoke_row (k : witness_key) (now : Z) (g : gate) : bool * gate :=
  let (b, t) := revoke_witness k now (table g) in (b, put_table t g).

(** The loop over a member's rows: whether one verifies, and the rows revoked. *)
Fixpoint recheck_rows (c : contract) (now : Z) (rows : list (witness_key * witness)) (keep : bool) (revoked : list Z) (g : gate) :
    option (bool * list Z * gate) :=
  match rows with
  | [] => Some (keep, revoked, g)
  | kw :: rows =>
      if is_admitting (row_rule kw)
      then b ← holds g c kw;
           if (b : bool) then recheck_rows c now rows true revoked g
           else let (was, g) := revoke_row kw.1 now g in
                recheck_rows c now rows keep (if was then revoked ++ [witness_id kw.2] else revoked)%list g
      else recheck_rows c now rows keep revoked g
  end.

Definition demote_if_no_verified_witness (cid pid now : Z) (g : gate) : option (list Z * bool * gate) :=
  match contracts g !! cid with
  | Some c =>
      if bool_decide (protocol_id c = Some pid)
      then r ← recheck_rows c now (merge_sort row_id_le (rows_of g cid pid)) false [] g;
           let '(keep, revoked, g) := (r : bool * list Z * gate) in
           Some (if (keep : bool) then (revoked, false, g) else (revoked, true, demote_member c g))
      else Some ([], false, g)
  | None => Some ([], false, g)
  end.

(** The affected members, in order; their addresses follow whether they were
    demoted or not. *)
Fixpoint recheck_members (l : list (Z * Z)) (now : Z) (revoked demoted : list Z) (frontier : gset string) (g : gate) :
    option (list Z * list Z * gset string * gate) :=
  match l with
  | [] => Some (revoked, demoted, frontier, g)
  | (cid, pid) :: l =>
      r ← demote_if_no_verified_witness cid pid now g;
      let '(extra, was_demoted, g) := (r : list Z * bool * gate) in
      let addr := match contracts g !! cid with Some c => str_lower (address c) | None => "" end in
      recheck_members l now (revoked ++ extra)%list (if was_demoted then demoted ++ [cid] else demoted)%list
        (if String.eqb addr "" then frontier else {[addr]} ∪ frontier) g
  end.

(** [evidence @> pattern] *)
Fixpoint jcontains (pattern v : jval) : bool :=
  match pattern, v with
  | JDict d, JDict d' => forallb (fun kp => match assoc_get kp.1 d' with Some w => jcontains kp.2 w | None => false end) d
  | JList l, JList l' => forallb (fun p => existsb (jcontains p) l') l
  | _, _ => jeq pattern v
  end.

Definition cites (addr : string) (evidence : jval) : bool :=
  jcontains (JDict [("anchor_chain", JDict [("anchor_address", JStr addr)])]) evidence ||
  jcontains (JDict [("anchor_chain", JDict [("links", JList [JDict [("address", JStr addr)]])])]) evidence ||
  jcontains (JDict [("principal_fact", JDict [("member_address", JStr addr)])]) evidence.

Definition vias_citing_evidence_address (g : gate) (addrs : gset string) : gset string :=
  list_to_set (omap (fun kw => match row_via kw with Some via => if String.eqb via "" then None else Some (str_lower via) | None => None end)
    (active_where (fun kw => String.eqb (row_rule kw) W3_CONTROL && existsb (fun a => cites a (evidence_ kw.2)) (elements addrs)) g)).

Definition VIA_RULES : list string := [W2_STRUCTURAL; W3_CONTROL; W4_DEPLOYER; W4_FACTORY].

Definition batch_rows (batch : gset string) (g : gate) : list (witness_key * witness) :=
  active_where (fun kw => match row_via kw with Some via => bool_decide (via ∈ batch) | None => false end && bool_decide (row_rule kw ∈ VIA_RULES)) g.

(** The witnesses of a batch: those whose fact no longer holds are revoked. *)
Fixpoint revoke_failing (rows : list (witness_key * witness)) (now : Z) (revoked : list Z) (affected : gset (Z * Z)) (g : gate) :
    option (list Z * gset (Z * Z) * gate) :=
  match rows with
  | [] => Some (revoked, affected, g)
  | kw :: rows =>
      b ← match contracts g !! row_contract kw with Some c => holds g c kw | None => Some false end;
      if (b : bool) then revoke_failing rows now revoked affected g
      else let (was, g) := revoke_row kw.1 now g in
           if (was : bool) then revoke_failing rows now (revoked ++ [witness_id kw.2])%list ({[(row_contract kw, row_protocol kw)]} ∪ affected) g
           else revoke_failing rows now revoked affected g
  end.

Definition zz_le (x y : Z * Z) : Prop := x.1 < y.1 \/ x.1 = y.1 /\ x.2 <= y.2.

#[export] Instance zz_le_dec : RelDecision zz_le.
Proof. intros x y. unfold zz_le. apply _. Defined.

Definition non_empty_lower (addrs : gset string) : gset string :=
  list_to_set (List.filter (fun a => negb (String.eqb a "")) (map str_lower (elements addrs))).

(** [while frontier]; [None] inside is the fuel running out, outside a raise. *)
Fixpoint quiesce (fuel : nat) (now : Z) (frontier : gset string) (revoked demoted : list Z) (g : gate) :
    option (option (list Z * list Z * gate)) :=
  if decide (frontier = ∅) then Some (Some (revoked, demoted, g))
  else match fuel with
       | O => Some None
       | S fuel =>
           let batch := frontier ∪ vias_citing_evidence_address g frontier in
           r ← revoke_failing (batch_rows batch g) now revoked ∅ g;
           let '(revoked, affected, g) := (r : list Z * gset (Z * Z) * gate) in
           m ← recheck_members (merge_sort zz_le (elements affected)) now revoked demoted ∅ g;
           let '(revoked, demoted, frontier, g) := (m : list Z * list Z * gset string * gate) in
           quiesce fuel now frontier revoked demoted g
       end.

(** The unrevoked rows: each turn of the loop that goes on revokes one. *)
Definition active_count (g : gate) : nat := size (filter (fun kw : witness_key * witness => revoked_at kw.2 = None) (witnesses (table g))).

Definition revocation_quiescence (seed_vias : gset string) (now : Z) (g : gate) : option (option (list Z * list Z * gate)) :=
  quiesce (S (active_count g)) now (non_empty_lower seed_vias) [] [] g.

(** *** Deployer rows *)

Definition revoke_registry (pid : Z) (addr reason : string) (now : Z) (g : gate) : gate :=
  match registry g !! (pid, addr) with
  | Some d =>
      match d_revoked_at d with
      | None => mkGate (contracts g) (stored g) (table g)
                  (<[(pid, addr) := mkDeployer (d_id d) (trust_class d) (d_evidence d) (d_observed_at d) (Some now) (Some reason)]> (registry g)) (dirty g)
      | Some _ => g
      end
  | None => g
  end.

Fixpoint revoke_dependents (rows : list (witness_key * witness)) (now : Z) (revoked : list Z) (affected : gset Z) (g : gate) :
    list Z * gset Z * gate :=
  match rows with
  | [] => (revoked, affected, g)
  | kw :: rows =>
      let (was, g) := revoke_row kw.1 now g in
      if (was : bool) then revoke_dependents rows now (revoked ++ [witness_id kw.2])%list ({[row_contract kw]} ∪ affected) g
      else revoke_dependents rows now revoked affected g
  end.

Fixpoint demote_unsupported (l : list Z) (pid now : Z) (revoked demoted : list Z) (g : gate) : option (list Z * list Z * gate) :=
  match l with
  | [] => Some (revoked, demoted, g)
  | cid :: l =>
      r ← demote_if_no_verified_witness cid pid now g;
      let '(extra, was_demoted, g) := (r : list Z * bool * gate) in
      demote_unsupported l pid now (revoked ++ extra)%list (if was_demoted then demoted ++ [cid] else demoted)%list g
  end.

Definition revoke_deployer_registry_row (pid : Z) (addr reason : string) (now : Z) (g : gate) : option (list Z * list Z * gate) :=
  let g := revoke_registry pid addr reason now g in
  let dependents := active_where (fun kw => (row_protocol kw =? pid) && bool_decide (row_rule kw ∈ LINEAGE_REGISTRY_WITNESS_RULES) &&
                                            bool_decide (row_via kw = Some addr)) g in
  let '(revoked, affected, g) := revoke_dependents dependents now [] ∅ g in
  demote_unsupported (merge_sort Z.le (elements affected)) pid now revoked [] g.

(** The addresses of demoted members and of rows that lost a witness. *)
Definition cascade_seed (revoked demoted : list Z) (g : gate) : gset string :=
  list_to_set (List.filter (fun a => negb (String.eqb a ""))
    (omap (fun cid => str_lower ∘ address <$> contracts g !! cid) demoted ++
     omap (fun kw : witness_key * witness => str_lower ∘ address <$> contracts g !! row_contract kw)
       (List.filter (fun kw => bool_decide (witness_id kw.2 ∈ revoked)) (map_to_list (witnesses (table g)))))%list).

(** [tuple(sorted(set(l)))] *)
Definition sorted_ids (l : list Z) : list Z := merge_sort Z.le (remove_dups l).

Definition demote (pid : Z) (addr reason : string) (now : Z) (g : gate) : option (option (list Z * list Z * gate)) :=
  r ← revoke_deployer_registry_row pid addr reason now g;
  let '(revoked, demoted, g) := (r : list Z * list Z * gate) in
  let seed := cascade_seed revoked demoted g in
  if decide (seed = ∅) then Some (Some (revoked, demoted, g))
  else
    q ← revocation_quiescence seed now g;
    match q with
    | None => Some None
    | Some (revoked', demoted', g) => Some (Some (sorted_ids (revoked ++ revoked'), sorted_ids (demoted ++ demoted'), g))
    end.

Definition controllers_of (g : gate) (ids : gset Z) : gset string :=
  list_to_set (List.filter is_address_text
    (omap (fun cv => if bool_decide (cv_contract cv ∈ ids) && caller_gate cv then str_lower <$> cv_value cv else None) (controller_values (stored g)) ++
     omap (fun c => if bool_decide (c_id c ∈ ids) then str_lower <$> admin_ c else None) (map snd (map_to_list (contracts g))))%list).

(** *** Registration *)

Definition register_deployer (pid : Z) (addr trust : string) (evidence : jval) (now next : Z) (g : gate) : option gate :=
  if negb (bool_decide (trust ∈ PROOF_DEPLOYER_TRUST_CLASSES)) then None
  else
    a ← require_address (JStr addr);
    let id := match registry g !! (pid, a) with Some d => d_id d | None => next end in
    Some (mkGate (contracts g) (stored g) (table g) (<[(pid, a) := mkDeployer id trust evidence now None None]> (registry g)) (dirty g)).
End Writes.
