(* ===== verification/ProtocolMerge.v ===== *)
(** * Merging a duplicate protocol into another

    [db/queue/discovery.py]: [_merge_witness_rows], [_merge_deployer_rows] and
    [_merge_protocol_into], which [get_or_create_protocol] runs when it finds
    rows of one protocol under two ids.  Of the foreign keys it rewrites, the
    gate holds the memberships, the nominations, the witnesses and the deployers. *)

From stdpp Require Import base gmap sets list strings sorting.
From Stdlib Require Import String Ascii ZArith QArith Lia.
From S2P Require Import Prelude PyText Chains Evidence Gate Admission.

Local Open Scope string_scope.
Local Open Scope Z_scope.

(** ** Witness rows *)

(** The key of a row under another protocol. *)
Definition rekey (dst : Z) (k : witness_key) : witness_key := (k.1.1.1, dst, k.1.2, k.2).

(** A revoked row of [dst] is re-armed only by a [src] observation newer than its
    revocation. *)
Definition rearms (dst_row src_row : witness) : bool :=
  match revoked_at dst_row, revoked_at src_row with
  | Some t, None => t <? observed_at src_row
  | _, _ => false
  end.

(** What stays under the shared key. *)
Definition surviving_witness (dst_row : option witness) (src_row : witness) : witness :=
  match dst_row with
  | None => src_row
  | Some w => if rearms w src_row then mkWitness (witness_id w) (evidence_ src_row) (observed_at src_row) None else w
  end.

Definition merge_witness_row (dst : Z) (t : gmap witness_key witness) (row : witness_key * witness) : gmap witness_key witness :=
  <[rekey dst row.1 := surviving_witness (t !! rekey dst row.1) row.2]> (delete row.1 t).

(** The rows of a protocol. *)
Definition witness_rows_of (pid : Z) (t : gmap witness_key witness) : list (witness_key * witness) :=
  filter (fun row => row_protocol row = pid) (map_to_list t).

Definition merge_witness_rows (src dst : Z) (t : witness_table) : witness_table :=
  mkTable (foldl (merge_witness_row dst) (witnesses t) (witness_rows_of src (witnesses t))) (next_id t).

(** ** Deployer rows *)

(** The surviving row of a shared address, revoked if either was, and whether its
    demotion is to be run. *)
Definition surviving_deployer (dst_row src_row : deployer_row) : deployer_row * bool :=
  match d_revoked_at src_row, d_revoked_at dst_row with
  | Some t, None => (mkDeployer (d_id dst_row) (trust_class dst_row) (d_evidence src_row) (d_observed_at dst_row) (Some t) (revocation_reason src_row), true)
  | None, Some _ => (dst_row, true)
  | _, _ => (dst_row, false)
  end.

Definition merge_deployer_row (dst : Z) (acc : gmap (Z * string) deployer_row * list string) (row : (Z * string) * deployer_row) :
    gmap (Z * string) deployer_row * list string :=
  let '(t, cascade) := acc in
  let addr := row.1.2 in
  match t !! (dst, addr) with
  | None => (<[(dst, addr) := row.2]> (delete row.1 t), cascade)
  | Some d => let '(d, demoted) := surviving_deployer d row.2 in
              (<[(dst, addr) := d]> (delete row.1 t), if demoted then (cascade ++ [addr])%list else cascade)
  end.

Definition merge_deployer_rows (src dst : Z) (t : gmap (Z * string) deployer_row) : gmap (Z * string) deployer_row * list string :=
  foldl (merge_deployer_row dst) (t, []) (filter (fun row => row.1.1 = src) (map_to_list t)).

(** ** The merge *)

Definition moved_id (src dst : Z) (o : option Z) : option Z := if decide (o = Some src) then Some dst else o.

(** The foreign keys of a contract row, rewritten. *)
Definition rewrite_contract (src dst : Z) (c : contract) : contract :=
  set_membership (moved_id src dst (protocol_id c)) (moved_id src dst (nominated_protocol_id c)) c.

(** The rows moved, before the cascade, and the deployers to demote. *)
Definition merge_rows (src dst : Z) (g : gate) : list string * gate :=
  let '(reg, cascade) := merge_deployer_rows src dst (registry g) in
  (cascade, mkGate (rewrite_contract src dst <$> contracts g) (stored g) (merge_witness_rows src dst (table g)) reg (dirty g)).

Section Merge.
Variable grant_class_of : string -> option string.

Fixpoint demote_merged (dst : Z) (addrs : list string) (now : Z) (g : gate) : option (option gate) :=
  match addrs with
  | [] => Some (Some g)
  | a :: addrs =>
      r ← demote grant_class_of dst a "protocol_merge_revoked_deployer" now g;
      match r with
      | Some (_, _, g) => demote_merged dst addrs now g
      | None => Some None
      end
  end.

(** The row of the merged protocol, deleted. *)
Definition drop_protocol (src : Z) (f : facts) : facts :=
  mkFacts (controller_values f) (probe_attempts f) (creations f) (upgrade_events f) (functions f) (principals_ f) (role_planes f)
    (delete src (protocols f)).

(** Both queues are marked when a member moved. *)
Definition merge_protocol_into (src dst now : Z) (g : gate) : option (option gate) :=
  if decide (src = dst) then Some (Some g)
  else
    let moved_members := bool_decide (List.filter (is_member src) (map snd (map_to_list (contracts g))) <> []) in
    let '(cascade, g) := merge_rows src dst g in
    match demote_merged dst cascade now g with
    | Some (Some g) =>
        let g := mkGate (contracts g) (drop_protocol src (stored g)) (table g) (registry g) (dirty g) in
        Some (Some (if moved_members then mark_membership_dirty dst g else g))
    | r => r
    end.
End Merge.
