(* ===== verification/GateTheory.v ===== *)
(** * What the membership gate keeps true

    Every member is backed: its protocol has an unrevoked admitting witness and
    a code proof for it, whatever is nominated, admitted, observed, revoked or
    demoted, in any order ([gate_step_spec]; [MergeTheory] adds the merges).  The revocation cascade always ends and only revokes
    and demotes.  A transitive controller is grounded: the recorded anchor chain
    is made of stored controller links, visits no address twice and ends at a
    member whose membership does not rest on the chain; the evidence built from
    it always passes the validation. *)

From stdpp Require Import base gmap sets list strings sorting.
From Stdlib Require Import String Ascii ZArith QArith Lia.
From S2P Require Import Prelude PyText Chains Evidence EvidenceTheory Gate Admission.

Local Open Scope string_scope.
Local Open Scope Z_scope.

(** ** Rows *)

Definition row_active (w : witness) : Prop := revoked_at w = None.
Definition revoked_copy (now : Z) (w : witness) : witness := mkWitness (witness_id w) (evidence_ w) (observed_at w) (Some now).

Definition key_contract (k : witness_key) : Z := k.1.1.1.
Definition key_protocol (k : witness_key) : Z := k.1.1.2.
Definition key_rule (k : witness_key) : string := k.1.2.

Lemma rows_of_elem g cid pid kw : kw ∈ rows_of g cid pid <->
  witnesses (table g) !! kw.1 = Some kw.2 /\ row_active kw.2 /\ key_contract kw.1 = cid /\ key_protocol kw.1 = pid.
Proof.
  unfold rows_of, active_witnesses. rewrite list_elem_of_filter. destruct kw as [k w]. rewrite elem_of_map_to_list. cbn. unfold row_active, key_contract, key_protocol. naive_solver.
Qed.

Lemma active_where_elem p g kw : kw ∈ active_where p g <-> witnesses (table g) !! kw.1 = Some kw.2 /\ row_active kw.2 /\ p kw = true.
Proof.
  unfold active_where. rewrite merge_sort_Permutation, list_elem_of_In, filter_In, <- list_elem_of_In. destruct kw as [k w].
  rewrite elem_of_map_to_list, andb_true_iff, bool_decide_eq_true. cbn. unfold row_active. naive_solver.
Qed.

(** An unrevoked row of a pair that satisfies [P]. *)
Definition has_active (P : witness_key -> witness -> Prop) (cid pid : Z) (g : gate) : Prop :=
  exists k w, witnesses (table g) !! k = Some w /\ row_active w /\ key_contract k = cid /\ key_protocol k = pid /\ P k w.

Definition admitting (k : witness_key) (_ : witness) : Prop := key_rule k ∈ ADMITTING_WITNESS_RULES.

(** A code proof on a chain. *)
Definition code_proof (n : Z) (k : witness_key) (w : witness) : Prop :=
  key_rule k = W1_CODE /\ jeq (evidence_get "chain_id" (evidence_ w)) (JInt n) = true.

(** ** Trimming: some unrevoked rows are revoked, nothing else changes *)

Record trimmed (P : witness_key -> Prop) (now : Z) (g g' : gate) : Prop := {
  trimmed_contracts : contracts g' = contracts g;
  trimmed_stored : stored g' = stored g;
  trimmed_registry : registry g' = registry g;
  trimmed_dirty : dirty g' = dirty g;
  trimmed_next : next_id (table g') = next_id (table g);
  trimmed_rows : forall k, witnesses (table g') !! k = witnesses (table g) !! k \/
    (P k /\ exists w, witnesses (table g) !! k = Some w /\ row_active w /\ witnesses (table g') !! k = Some (revoked_copy now w));
}.

Lemma trimmed_refl P now g : trimmed P now g g.
Proof. constructor; try done. intros k. by left. Qed.

Lemma trimmed_trans P now g1 g2 g3 : trimmed P now g1 g2 -> trimmed P now g2 g3 -> trimmed P now g1 g3.
Proof.
  intros [C1 S1 R1 D1 N1 W1] [C2 S2 R2 D2 N2 W2]. constructor; try congruence. intros k.
  destruct (W2 k) as [E2|(HP & w & Hw & Ha & E2)]; [rewrite E2; apply W1|]. right. split; [done|].
  destruct (W1 k) as [E1|(_ & w' & Hw' & Ha' & E1)]; [exists w; by rewrite <- E1|].
  rewrite E1 in Hw. injection Hw as <-. done.
Qed.

Lemma trimmed_mono (P Q : witness_key -> Prop) now g g' : (forall k, P k -> Q k) -> trimmed P now g g' -> trimmed Q now g g'.
Proof. intros HPQ [C1 S1 R1 D1 N1 W1]. constructor; try done. intros k. destruct (W1 k) as [?|(HP & H)]; [by left|right; split; [by apply HPQ|done]]. Qed.

(** An active row the trim does not name survives. *)
Lemma trimmed_keeps P now g g' k w : trimmed P now g g' -> ~ P k -> witnesses (table g) !! k = Some w -> witnesses (table g') !! k = Some w.
Proof. intros [C1 S1 R1 D1 N1 W1] HP Hk. destruct (W1 k) as [->|(? & _)]; done. Qed.

Lemma trimmed_active P now g g' k w : trimmed P now g g' -> witnesses (table g') !! k = Some w -> row_active w -> witnesses (table g) !! k = Some w.
Proof. intros [C1 S1 R1 D1 N1 W1] Hk Ha. destruct (W1 k) as [E|(_ & w0 & _ & _ & E)]; [by rewrite <- E|]. rewrite E in Hk. by injection Hk as <-. Qed.

Lemma revoke_row_trims k now g b g' : revoke_row k now g = (b, g') ->
  trimmed (fun k' => k' = k) now g g' /\
  (b = false /\ g' = g /\ (forall w, witnesses (table g) !! k = Some w -> ~ row_active w) \/
   b = true /\ exists w, witnesses (table g) !! k = Some w /\ row_active w /\ witnesses (table g') !! k = Some (revoked_copy now w)).
Proof.
  unfold revoke_row, revoke_witness. destruct (witnesses (table g) !! k) as [w|] eqn:E; [destruct (revoked_at w) as [t|] eqn:Er|]; intros [= <- <-].
  - destruct g as [cs st t0 rg d]. split; [apply trimmed_refl|]. left. split_and!; [done|done|]. intros w' [= <-]. unfold row_active. congruence.
  - split.
    + constructor; try done. intros k'. cbn. destruct (decide (k' = k)) as [->|Hne]; [right|left; by rewrite lookup_insert_ne].
      split; [done|]. exists w. split_and!; [done|done|]. by rewrite lookup_insert_eq.
    + right. split; [done|]. exists w. split_and!; [done|done|]. cbn. by rewrite lookup_insert_eq.
  - destruct g as [cs st t0 rg d]. split; [apply trimmed_refl|]. left. by split_and!.
Qed.

(** Trimming only lowers the number of unrevoked rows, and lowers it when one
    is revoked. *)
Definition active_rows (g : gate) : gmap witness_key witness := filter (fun kw : witness_key * witness => revoked_at kw.2 = None) (witnesses (table g)).

Lemma trimmed_subset P now g g' : trimmed P now g g' -> active_rows g' ⊆ active_rows g.
Proof.
  intros Ht. apply map_subseteq_spec. intros k w. unfold active_rows. rewrite !map_lookup_filter_Some. cbn. intros [Hk Ha]. split; [|done].
  by apply (trimmed_active P now g g').
Qed.

Lemma trimmed_count P now g g' : trimmed P now g g' -> (active_count g' <= active_count g)%nat.
Proof. intros Ht. apply map_subseteq_size. exact (trimmed_subset P now g g' Ht). Qed.

Lemma revoked_count P now g g' k w : trimmed P now g g' -> witnesses (table g) !! k = Some w -> row_active w ->
  witnesses (table g') !! k = Some (revoked_copy now w) -> (active_count g' < active_count g)%nat.
Proof.
  intros Ht Hk Ha Hk'. apply (map_subset_size (active_rows g') (active_rows g)). apply strict_spec. split; [by apply (trimmed_subset P now)|].
  intros Hsub. assert (active_rows g !! k = Some w) as Hl by (apply map_lookup_filter_Some; done).
  apply (lookup_weaken _ _ _ _ Hl) in Hsub. apply map_lookup_filter_Some in Hsub as [Hs _]. rewrite Hk' in Hs. injection Hs as Hs.
  rewrite <- Hs in Ha. done.
Qed.

(** ** The invariant *)

(** What backs a member: a nomination slot of its own, a code proof on its
    chain and an admitting witness; the pairs of [S] may lack the last. *)
Record backed_but (S : Z * Z -> Prop) (g : gate) (c : contract) (pid : Z) : Prop := {
  backed_positive : 0 < pid;
  backed_slot : nominated_protocol_id c = None \/ nominated_protocol_id c = Some pid;
  backed_code : exists n, chain_id_for_chain_name (c_chain c) = Some n /\ has_active (code_proof n) (c_id c) pid g;
  backed_admitting : S (c_id c, pid) \/ has_active admitting (c_id c) pid g;
}.

Record gate_but (S : Z * Z -> Prop) (g : gate) : Prop := {
  gate_keys : forall cid c, contracts g !! cid = Some c -> c_id c = cid;
  gate_table : table_ok (table g);
  gate_members : forall cid c pid, contracts g !! cid = Some c -> protocol_id c = Some pid -> backed_but S g c pid;
}.

Definition gate_ok : gate -> Prop := gate_but (fun _ => False).

Lemma gate_but_mono (S S' : Z * Z -> Prop) g : (forall x, S x -> S' x) -> gate_but S g -> gate_but S' g.
Proof. intros HS [K T M]. constructor; try done. intros cid c pid Hc Hp. destruct (M cid c pid Hc Hp) as [? ? ? []]; constructor; auto. Qed.

Lemma trimmed_table P now g g' : trimmed P now g g' -> table_ok (table g) -> table_ok (table g').
Proof.
  intros Ht (Hrows & Hn & Hinj). pose proof (trimmed_next _ _ _ _ Ht) as En.
  assert (forall k w', witnesses (table g') !! k = Some w' -> exists w, witnesses (table g) !! k = Some w /\ witness_id w' = witness_id w /\ evidence_ w' = evidence_ w) as Hback.
  { intros k w' Hk. destruct (trimmed_rows _ _ _ _ Ht k) as [E|(_ & w & Hw & _ & E)].
    - exists w'. by rewrite <- E.
    - exists w. rewrite E in Hk. injection Hk as <-. done. }
  split_and!; [|rewrite En; done|].
  - intros k w' Hk. destruct (Hback k w' Hk) as (w & Hw & Ei & Ee). specialize (Hrows k w Hw). unfold row_ok in *. by rewrite En, Ei, Ee.
  - intros k k' w w' Hk Hk' Heq. destruct (Hback k w Hk) as (x & Hx & Ei & _), (Hback k' w' Hk') as (x' & Hx' & Ei' & _).
    apply (Hinj k k' x x' Hx Hx'). congruence.
Qed.

Lemma has_active_trimmed P now g g' (Q : witness_key -> witness -> Prop) cid pid : trimmed P now g g' ->
  (forall k w, key_contract k = cid -> key_protocol k = pid -> Q k w -> ~ P k) -> has_active Q cid pid g -> has_active Q cid pid g'.
Proof. intros Ht HP (k & w & Hk & Ha & Ec & Ep & HQ). exists k, w. split_and!; try done. eapply trimmed_keeps; eauto. Qed.

(** Revoking admitting witnesses only exposes the members they were for. *)
Lemma trimmed_gate (P : witness_key -> Prop) (S : Z * Z -> Prop) now g g' : trimmed P now g g' ->
  (forall k, P k -> key_rule k <> W1_CODE) -> (forall k, P k -> S (key_contract k, key_protocol k)) ->
  gate_but S g -> gate_but S g'.
Proof.
  intros Ht HW HS [K T M]. constructor.
  - by rewrite (trimmed_contracts _ _ _ _ Ht).
  - by apply (trimmed_table P now g).
  - rewrite (trimmed_contracts _ _ _ _ Ht). intros cid c pid Hc Hp. destruct (M cid c pid Hc Hp) as [Hpos Hslot (n & Hn & Hcode) Hadm].
    constructor; try done.
    + exists n. split; [done|]. eapply has_active_trimmed; [done| |done]. intros k w _ _ [Hr _] Hk. by apply (HW k).
    + destruct Hadm as [|(k & w & Hk & Ha & Ec & Ep & Hadm)]; [by left|].
      destruct (trimmed_rows _ _ _ _ Ht k) as [E|(HPk & _)]; [right; exists k, w; by rewrite E|]. left. rewrite <- Ec, <- Ep. by apply HS.
Qed.

Lemma admitting_not_code r : r ∈ ADMITTING_WITNESS_RULES -> r <> W1_CODE.
Proof. intros Hr ->. apply (bool_decide_eq_true_2 _) in Hr. by vm_compute in Hr. Qed.

(** A demoted row is no member, and the others stay backed. *)
Lemma demote_member_gate S c g : contracts g !! c_id c = Some c -> gate_but S g -> gate_but S (demote_member c g).
Proof.
  intros Hc [K T M]. unfold demote_member. destruct (protocol_id c) as [pid|] eqn:Ep; [|by constructor]. constructor; cbn.
  - intros cid c'. rewrite lookup_insert_Some. intros [[<- <-]|[_ ?]]; [done|auto].
  - done.
  - intros cid c' pid'. rewrite lookup_insert_Some. intros [[<- <-]|[_ H]] Hp; [done|]. by destruct (M cid c' pid' H Hp).
Qed.

Lemma demote_member_table c g : table (demote_member c g) = table g.
Proof. unfold demote_member. by destruct (protocol_id c). Qed.

Section Cascade.
Variable grant_class_of : string -> option string.

(** *** Rechecking a member *)

Lemma recheck_rows_trims c now rows keep revoked g keep' revoked' g' :
  recheck_rows grant_class_of c now rows keep revoked g = Some (keep', revoked', g') -> NoDup rows.*1 ->
  trimmed (fun k => k ∈ rows.*1 /\ key_rule k ∈ ADMITTING_WITNESS_RULES) now g g' /\
  (keep' = true -> keep = true \/ exists kw, kw ∈ rows /\ key_rule kw.1 ∈ ADMITTING_WITNESS_RULES /\ witnesses (table g') !! kw.1 = witnesses (table g) !! kw.1).
Proof.
  revert keep revoked g. induction rows as [|kw rows IH]; intros keep revoked g; cbn [recheck_rows].
  { intros [= <- <- <-] _. split; [apply trimmed_refl|by left]. }
  rewrite fmap_cons, NoDup_cons. intros H [Hnew Hnd].
  assert (forall g g' : gate, trimmed (fun k => k ∈ rows.*1 /\ key_rule k ∈ ADMITTING_WITNESS_RULES) now g g' ->
    trimmed (fun k => k ∈ kw.1 :: rows.*1 /\ key_rule k ∈ ADMITTING_WITNESS_RULES) now g g') as Hwiden.
  { intros g1 g2. apply trimmed_mono. intros k [? ?]. split; [by right|done]. }
  destruct (is_admitting (row_rule kw)) eqn:Ea.
  - apply bool_decide_eq_true in Ea. destruct (row_holds _ _ _ _) as [b|]; cbn in H; [|done]. destruct b.
    + destruct (IH _ _ _ H Hnd) as [Ht _]. split; [by apply Hwiden|]. intros _. right. exists kw. split_and!; [by left|done|].
      destruct (trimmed_rows _ _ _ _ Ht kw.1) as [E|([Hin _] & _)]; [done|]. by destruct Hnew.
    + destruct (revoke_row kw.1 now g) as [was g1] eqn:Er. destruct (revoke_row_trims _ _ _ _ _ Er) as [Ht1 _].
      destruct (IH _ _ _ H Hnd) as [Ht Hkeep]. split.
      * eapply trimmed_trans; [|by apply Hwiden]. eapply trimmed_mono; [|exact Ht1]. intros k ->. split; [by left|done].
      * intros Hk. destruct (Hkeep Hk) as [|(kw' & Hin & Had & Heq)]; [by left|]. right. exists kw'. split_and!; [by right|done|].
        rewrite Heq. destruct (trimmed_rows _ _ _ _ Ht1 kw'.1) as [E|(E & _)]; [done|]. destruct Hnew. rewrite <- E. apply list_elem_of_fmap_2. done.
  - destruct (IH _ _ _ H Hnd) as [Ht Hkeep]. split; [by apply Hwiden|]. intros Hk.
    destruct (Hkeep Hk) as [|(kw' & Hin & ?)]; [by left|]. right. exists kw'. split; [by right|done].
Qed.

Lemma rows_of_nodup g cid pid : NoDup (rows_of g cid pid).*1.
Proof.
  unfold rows_of, active_witnesses. apply NoDup_fmap_fst; [|apply NoDup_filter, NoDup_map_to_list]. intros k w1 w2.
  rewrite !list_elem_of_filter, !elem_of_map_to_list. intros [_ H1] [_ H2]. congruence.
Qed.

(** A pair is settled once it is no member's or its member has a witness. *)
Lemma settle (S : Z * Z -> Prop) cid pid g :
  (forall c, contracts g !! cid = Some c -> protocol_id c = Some pid -> has_active admitting cid pid g) ->
  gate_but (fun x => S x \/ x = (cid, pid)) g -> gate_but (fun x => S x /\ x <> (cid, pid)) g.
Proof.
  intros Hset [K T M]. constructor; try done. intros cid' c' pid' Hc' Hp'. destruct (M cid' c' pid' Hc' Hp') as [? ? ? Hadm]. constructor; try done.
  destruct (decide ((c_id c', pid') = (cid, pid))) as [E|Hne]; [|destruct Hadm as [[?|?]|?]; [left; auto|done|by right]].
  right. injection E as E1 E2. rewrite (K _ _ Hc') in E1. subst cid' pid'. rewrite (K _ _ Hc'). by apply (Hset c').
Qed.

Lemma expose (S : Z * Z -> Prop) x g : gate_but S g -> gate_but (fun y => S y \/ y = x) g.
Proof. apply gate_but_mono. auto. Qed.

(** A recheck exposes only its own pair, and settles it. *)
Lemma demote_if_settles cid pid now g r : demote_if_no_verified_witness grant_class_of cid pid now g = Some r ->
  (active_count r.2 <= active_count g)%nat /\ forall S, gate_but S g -> gate_but (fun x => S x /\ x <> (cid, pid)) r.2.
Proof.
  unfold demote_if_no_verified_witness. destruct (contracts g !! cid) as [c|] eqn:Ec.
  2: { intros [= <-]. split; [done|]. intros S HS. apply settle; [|by apply expose]. cbn. congruence. }
  case_bool_decide as Ep.
  2: { intros [= <-]. split; [done|]. intros S HS. apply settle; [|by apply expose]. cbn. congruence. }
  destruct (recheck_rows _ _ _ _ _ _ _) as [[[keep revoked] g1]|] eqn:Er; cbn; [|done].
  pose proof (recheck_rows_trims _ _ _ _ _ _ _ _ _ Er) as Ht. rewrite merge_sort_Permutation in Ht. specialize (Ht (rows_of_nodup _ _ _)).
  destruct Ht as [Ht Hkeep].
  assert (forall S, gate_but S g -> gate_but (fun x => S x \/ x = (cid, pid)) g1) as Hg1.
  { intros S HS. eapply trimmed_gate; [exact Ht| | |by apply expose].
    - intros k [_ Hk]. by apply admitting_not_code.
    - intros k [Hk _]. apply list_elem_of_fmap in Hk as (kw & -> & Hkw). rewrite merge_sort_Permutation in Hkw.
      apply rows_of_elem in Hkw as (_ & _ & -> & ->). by right. }
  pose proof (trimmed_contracts _ _ _ _ Ht) as Econ.
  destruct keep; intros [= <-]; cbn; (split; [|intros S HS; apply settle]).
  - by eapply trimmed_count.
  - intros _ _ _. destruct (Hkeep eq_refl) as [|(kw & Hin & Had & Heq)]; [done|]. rewrite merge_sort_Permutation in Hin.
    apply rows_of_elem in Hin as (Hl & Ha & Hc & Hp). exists kw.1, kw.2. by rewrite Heq.
  - by apply Hg1.
  - unfold active_count. rewrite demote_member_table. by eapply trimmed_count.
  - pose proof (gate_keys _ _ HS _ _ Ec) as Eid. intros c'. unfold demote_member. rewrite Ep. cbn. rewrite Eid, lookup_insert_eq. by intros [= <-].
  - apply demote_member_gate; [|by apply Hg1]. by rewrite Econ, (gate_keys _ _ HS _ _ Ec).
Qed.

Lemma recheck_members_settles l now revoked demoted frontier g r : recheck_members grant_class_of l now revoked demoted frontier g = Some r ->
  (active_count r.2 <= active_count g)%nat /\ (l = [] -> r = (revoked, demoted, frontier, g)) /\
  forall S, gate_but S g -> gate_but (fun x => S x /\ x ∉ l) r.2.
Proof.
  revert revoked demoted frontier g. induction l as [|[cid pid] l IH]; intros revoked demoted frontier g; cbn [recheck_members].
  { intros [= <-]. split_and!; [done|done|]. intros S. apply gate_but_mono. intros x HS. split; [done|]. apply not_elem_of_nil. }
  destruct (demote_if_no_verified_witness _ _ _ _ _) as [[[extra was] g1]|] eqn:Ed; cbn; [|done]. intros H.
  destruct (demote_if_settles _ _ _ _ _ Ed) as [Hcount Hgate]. destruct (IH _ _ _ _ H) as (Hcount' & _ & Hgate'). cbn in *.
  split_and!; [lia|done|]. intros S HS. eapply gate_but_mono; [|apply Hgate', (Hgate S HS)]. cbn. intros x ((HS' & Hne) & Hx). split; [done|].
  by apply not_elem_of_cons.
Qed.

Lemma revoke_failing_exposes rows now revoked affected g r : revoke_failing grant_class_of rows now revoked affected g = Some r ->
  Forall (fun kw => row_rule kw <> W1_CODE) rows ->
  (active_count r.2 <= active_count g)%nat /\ (r.1.2 = affected \/ (active_count r.2 < active_count g)%nat) /\
  (gate_but (.∈ affected) g -> gate_but (.∈ r.1.2) r.2).
Proof.
  revert revoked affected g. induction rows as [|kw rows IH]; intros revoked affected g; cbn [revoke_failing].
  { intros [= <-] _. cbn. auto. }
  rewrite Forall_cons. intros H [Hw HF].
  destruct (match contracts g !! row_contract kw with Some c => row_holds grant_class_of g c kw | None => Some false end) as [b|]; cbn in H; [|done]. destruct b; [by eapply IH|].
  destruct (revoke_row kw.1 now g) as [was g1] eqn:Er. destruct (revoke_row_trims _ _ _ _ _ Er) as [Ht [(-> & -> & _)|(-> & w & Hk & Ha & Hk')]].
  { by eapply IH. }
  destruct (IH _ _ _ H HF) as (Hc & Ha' & Hgate). pose proof (revoked_count _ _ _ _ _ _ Ht Hk Ha Hk') as Hlt. split_and!; [lia|right; lia|].
  intros HS. apply Hgate. eapply trimmed_gate; [exact Ht| | |].
  - by intros k ->.
  - intros k ->. cbn. apply elem_of_union_l, elem_of_singleton. done.
  - eapply gate_but_mono; [|exact HS]. cbn. set_solver.
Qed.

Lemma batch_rules batch g : Forall (fun kw => row_rule kw <> W1_CODE) (batch_rows batch g).
Proof.
  apply Forall_forall. intros kw Hkw. apply active_where_elem in Hkw. destruct Hkw as (_ & _ & H). apply andb_true_iff in H as [_ H].
  apply bool_decide_eq_true in H. intros E. rewrite E in H. apply (bool_decide_eq_true_2 _) in H. by vm_compute in H.
Qed.

(** The loop ends before its fuel, and leaves a gate in order. *)
Lemma quiesce_ends fuel now frontier revoked demoted g : (active_count g < fuel)%nat \/ frontier = ∅ ->
  quiesce grant_class_of fuel now frontier revoked demoted g <> Some None /\
  forall r, quiesce grant_class_of fuel now frontier revoked demoted g = Some (Some r) -> (gate_ok g -> gate_ok r.2).
Proof.
  revert frontier revoked demoted g. induction fuel as [|fuel IH]; intros frontier revoked demoted g Hfuel; cbn [quiesce];
    (case_decide as Ef; [split; [done|by intros r [= <-]]|]); [destruct Hfuel; [lia|done]|].
  destruct (revoke_failing _ _ _ _ _ _) as [[[revoked1 affected] g1]|] eqn:Er; cbn; [|done].
  destruct (revoke_failing_exposes _ _ _ _ _ _ Er (batch_rules _ _)) as (Hc1 & Hprog & Hgate1). cbn in *.
  destruct (recheck_members _ _ _ _ _ _ _) as [[[[revoked2 demoted2] frontier2] g2]|] eqn:Em; cbn; [|done].
  destruct (recheck_members_settles _ _ _ _ _ _ _ Em) as (Hc2 & Hnil & Hgate2). cbn in *.
  assert ((active_count g2 < fuel)%nat \/ frontier2 = ∅) as Hnext.
  { destruct Hprog as [->|Hlt]; [right|left; destruct Hfuel; [lia|done]]. rewrite elements_empty in Hnil.
    specialize (Hnil eq_refl). by injection Hnil. }
  destruct (IH frontier2 revoked2 demoted2 g2 Hnext) as [Hend Hok]. split; [done|]. intros r Hr Hg. apply (Hok r Hr).
  assert (gate_but (.∈ (∅ : gset (Z * Z))) g) as H0 by (eapply gate_but_mono; [|exact Hg]; done).
  eapply gate_but_mono; [|exact (Hgate2 _ (Hgate1 H0))]. cbn. intros x [Hx Hn]. apply Hn. rewrite merge_sort_Permutation. by apply elem_of_elements.
Qed.

(** *** The steps of a cascade *)

Definition progress : Type := list Z * list Z * gate.

(** One revocation or one demotion, each reported. *)
Inductive cascade_step (now : Z) : progress -> progress -> Prop :=
  | step_revoke k w rv dm g g' :
      revoke_row k now g = (true, g') -> witnesses (table g) !! k = Some w -> cascade_step now (rv, dm, g) ((rv ++ [witness_id w])%list, dm, g')
  | step_demote c pid rv dm g :
      contracts g !! c_id c = Some c -> protocol_id c = Some pid -> cascade_step now (rv, dm, g) (rv, (dm ++ [c_id c])%list, demote_member c g).

Lemma cascade_prefix now rv0 dm0 rv dm g rv' dm' g' : rtc (cascade_step now) (rv, dm, g) (rv', dm', g') ->
  rtc (cascade_step now) ((rv0 ++ rv)%list, (dm0 ++ dm)%list, g) ((rv0 ++ rv')%list, (dm0 ++ dm')%list, g').
Proof.
  intros H. remember (rv, dm, g) as x eqn:Ex. remember (rv', dm', g') as y eqn:Ey. revert rv dm g Ex. induction H as [x|x y' z Hs _ IH]; intros rv dm g ->.
  - injection Ey as -> -> ->. apply rtc_refl.
  - inversion Hs; subst.
    + eapply rtc_l; [|by eapply IH]. rewrite app_assoc. by apply step_revoke with k.
    + eapply rtc_l; [|by eapply IH]. rewrite app_assoc. by eapply step_demote.
Qed.

(** The rows of a list still stand under their ids. *)
Definition current (rows : list (witness_key * witness)) (g : gate) : Prop :=
  Forall (fun kw => exists w, witnesses (table g) !! kw.1 = Some w /\ witness_id w = witness_id kw.2) rows.

Lemma current_trimmed P now rows g g' : trimmed P now g g' -> current rows g -> current rows g'.
Proof.
  intros Ht HF. eapply Forall_impl; [exact HF|]. cbn. intros kw (w & Hw & Hid).
  destruct (trimmed_rows _ _ _ _ Ht kw.1) as [->|(_ & w' & Hw' & _ & ->)]; [by exists w|]. exists (revoked_copy now w'). split; [done|]. cbn. congruence.
Qed.

Lemma current_where p g : current (active_where p g) g.
Proof. apply Forall_forall. intros kw Hkw. apply active_where_elem in Hkw. exists kw.2. naive_solver. Qed.

(** A row of the list, whether or not the revocation finds it active. *)
Lemma revoke_row_step kw rows now rv dm g was g' : current (kw :: rows) g -> revoke_row kw.1 now g = (was, g') ->
  rtc (cascade_step now) (rv, dm, g) (if was then (rv ++ [witness_id kw.2])%list else rv, dm, g') /\ current rows g'.
Proof.
  intros Hcur Er. destruct (revoke_row_trims _ _ _ _ _ Er) as [Ht Hcase]. apply Forall_cons in Hcur as [(w & Hw & Hid) Hcur].
  split; [|by eapply current_trimmed]. destruct Hcase as [(-> & -> & _)|(-> & _)]; [apply rtc_refl|].
  apply rtc_once. rewrite <- Hid. by apply step_revoke with kw.1.
Qed.

Lemma recheck_rows_steps c now rows keep rv dm g keep' rv' g' : current rows g ->
  recheck_rows grant_class_of c now rows keep rv g = Some (keep', rv', g') -> rtc (cascade_step now) (rv, dm, g) (rv', dm, g').
Proof.
  revert keep rv g. induction rows as [|kw rows IH]; intros keep rv g Hcur; cbn [recheck_rows]; [intros [= <- <- <-]; apply rtc_refl|].
  pose proof Hcur as Hrest. apply Forall_cons in Hrest as [_ Hrest].
  destruct (is_admitting _); [|by apply IH]. destruct (row_holds _ _ _ _) as [b|]; cbn; [|done]. destruct b; [by apply IH|].
  destruct (revoke_row kw.1 now g) as [was g1] eqn:Er. destruct (revoke_row_step _ _ _ rv dm _ _ _ Hcur Er) as [Hst Hcur1].
  intros H. etrans; [exact Hst|]. by eapply IH.
Qed.

Definition keys_ok (g : gate) : Prop := forall cid c, contracts g !! cid = Some c -> c_id c = cid.

Lemma keys_demote c g : keys_ok g -> keys_ok (demote_member c g).
Proof.
  intros K cid c'. unfold demote_member. destruct (protocol_id c); [|apply K]. cbn. rewrite lookup_insert_Some. intros [[<- <-]|[_ ?]]; [done|by apply K].
Qed.

Lemma keys_steps now x y : rtc (cascade_step now) x y -> keys_ok x.2 -> keys_ok y.2.
Proof.
  intros H. induction H as [|x y z Hs _ IH]; [done|]. intros K. apply IH. inversion Hs as [k w rv dm g g' Hr|]; subst; cbn in *; [|by apply keys_demote].
  destruct (revoke_row_trims _ _ _ _ _ Hr) as [Ht _]. intros cid c. rewrite (trimmed_contracts _ _ _ _ Ht). apply K.
Qed.

Lemma demote_if_steps cid pid now rv dm g extra was g' : keys_ok g ->
  demote_if_no_verified_witness grant_class_of cid pid now g = Some (extra, was, g') ->
  rtc (cascade_step now) (rv, dm, g) ((rv ++ extra)%list, if was then (dm ++ [cid])%list else dm, g').
Proof.
  intros K. unfold demote_if_no_verified_witness. destruct (contracts g !! cid) as [c|] eqn:Ec; [|intros [= <- <- <-]; rewrite app_nil_r; apply rtc_refl].
  case_bool_decide as Ep; [|intros [= <- <- <-]; rewrite app_nil_r; apply rtc_refl].
  destruct (recheck_rows _ _ _ _ _ _ _) as [[[keep revoked] g1]|] eqn:Er; cbn; [|done].
  assert (rtc (cascade_step now) (rv, dm, g) ((rv ++ revoked)%list, dm, g1)) as Hst.
  { rewrite <- (app_nil_r rv) at 1. rewrite <- (app_nil_r dm). apply cascade_prefix. eapply recheck_rows_steps; [|exact Er].
    apply Forall_forall. intros kw Hkw. rewrite merge_sort_Permutation in Hkw. apply rows_of_elem in Hkw. exists kw.2. naive_solver. }
  destruct keep; intros [= <- <- <-]; [done|]. eapply rtc_r; [exact Hst|]. rewrite <- (K _ _ Ec). eapply step_demote; [|done].
  rewrite (K _ _ Ec), <- Ec. f_equal. pose proof (recheck_rows_trims _ _ _ _ _ _ _ _ _ Er) as Ht. rewrite merge_sort_Permutation in Ht.
  destruct (Ht (rows_of_nodup _ _ _)) as [Ht' _]. by apply (trimmed_contracts _ _ _ _ Ht').
Qed.

Lemma recheck_members_steps l now rv dm fr g rv' dm' fr' g' : keys_ok g ->
  recheck_members grant_class_of l now rv dm fr g = Some (rv', dm', fr', g') -> rtc (cascade_step now) (rv, dm, g) (rv', dm', g').
Proof.
  revert rv dm fr g. induction l as [|[cid pid] l IH]; intros rv dm fr g K; cbn [recheck_members]; [intros [= <- <- <- <-]; apply rtc_refl|].
  destruct (demote_if_no_verified_witness _ _ _ _ _) as [[[extra was] g1]|] eqn:Ed; cbn; [|done]. intros H.
  pose proof (demote_if_steps _ _ _ rv dm _ _ _ _ K Ed) as Hst. etrans; [exact Hst|]. eapply IH; [|exact H]. by apply (keys_steps _ _ _ Hst).
Qed.

Lemma revoke_failing_steps rows now rv dm aff g rv' aff' g' : current rows g ->
  revoke_failing grant_class_of rows now rv aff g = Some (rv', aff', g') -> rtc (cascade_step now) (rv, dm, g) (rv', dm, g').
Proof.
  revert rv aff g. induction rows as [|kw rows IH]; intros rv aff g Hcur; cbn [revoke_failing]; [intros [= <- <- <-]; apply rtc_refl|].
  pose proof Hcur as Hrest. apply Forall_cons in Hrest as [_ Hrest].
  destruct (match contracts g !! row_contract kw with Some c => row_holds grant_class_of g c kw | None => Some false end) as [b|]; cbn; [|done].
  destruct b; [by apply IH|]. destruct (revoke_row kw.1 now g) as [was g1] eqn:Er. destruct (revoke_row_step _ _ _ rv dm _ _ _ Hcur Er) as [Hst Hcur1].
  destruct was; intros H; (etrans; [exact Hst|]); by eapply IH.
Qed.

Lemma quiesce_steps fuel now fr rv dm g rv' dm' g' : keys_ok g ->
  quiesce grant_class_of fuel now fr rv dm g = Some (Some (rv', dm', g')) -> rtc (cascade_step now) (rv, dm, g) (rv', dm', g').
Proof.
  revert fr rv dm g. induction fuel as [|fuel IH]; intros fr rv dm g K; cbn [quiesce]; (case_decide as Hf; [intros [= <- <- <-]; apply rtc_refl|]); [done|].
  destruct (revoke_failing _ _ _ _ _ _) as [[[rv1 aff] g1]|] eqn:Er; cbn; [|done].
  pose proof (revoke_failing_steps _ _ _ dm _ _ _ _ _ (current_where _ _) Er) as H1. pose proof (keys_steps _ _ _ H1 K) as K1. cbn in K1.
  destruct (recheck_members _ _ _ _ _ _ _) as [[[[rv2 dm2] fr2] g2]|] eqn:Em; cbn; [|done].
  pose proof (recheck_members_steps _ _ _ _ _ _ _ _ _ _ K1 Em) as H2. pose proof (keys_steps _ _ _ H2 K1) as K2. cbn in K2.
  intros H. etrans; [exact H1|]. etrans; [exact H2|]. by eapply IH.
Qed.

(** *** The report of a cascade *)

Definition member_of (g : gate) (cid pid : Z) : Prop := exists c, contracts g !! cid = Some c /\ protocol_id c = Some pid.

(** What a cascade does: it revokes the rows it reports and ends the
    memberships it reports; everything else stays. *)
Record cascaded (now : Z) (x y : progress) : Prop := {
  casc_trims : trimmed (fun _ => True) now (mkGate ∅ (stored x.2) (table x.2) (registry x.2) ∅) (mkGate ∅ (stored y.2) (table y.2) (registry y.2) ∅);
  casc_contracts : forall cid, contracts y.2 !! cid = contracts x.2 !! cid \/
    exists c pid, contracts x.2 !! cid = Some c /\ protocol_id c = Some pid /\
      contracts y.2 !! cid = Some (set_membership None (Some (default pid (nominated_protocol_id c))) c);
  casc_revoked : forall i, i ∈ y.1.1 <-> i ∈ x.1.1 \/ exists k w, witnesses (table x.2) !! k = Some w /\ row_active w /\ witness_id w = i /\
    witnesses (table y.2) !! k = Some (revoked_copy now w);
  casc_demoted : forall i, i ∈ y.1.2 <-> i ∈ x.1.2 \/ (exists pid, member_of x.2 i pid) /\ ~ exists pid, member_of y.2 i pid;
}.

Lemma cascaded_refl now x : cascaded now x x.
Proof.
  constructor; [apply trimmed_refl|by left| |].
  - intros i. split; [by left|]. intros [|(k & w & Hk & Ha & _ & Hk')]; [done|]. rewrite Hk in Hk'. injection Hk' as E. rewrite E in Ha. done.
  - intros i. split; [by left|]. intros [|[? []]]; done.
Qed.

Lemma cascaded_trans now x y z : cascaded now x y -> cascaded now y z -> cascaded now x z.
Proof.
  intros [T1 C1 R1 D1] [T2 C2 R2 D2]. constructor.
  - by eapply trimmed_trans.
  - intros cid. destruct (C2 cid) as [E|(c & pid & Hc & Hp & E)]; [rewrite E; apply C1|].
    destruct (C1 cid) as [E1|(c1 & pid1 & Hc1 & Hp1 & E1)]; [right; exists c, pid; by rewrite <- E1|]. rewrite E1 in Hc. by injection Hc as <-.
  - intros i. rewrite R2, R1. split.
    + intros [[?|(k & w & Hk & Ha & Hid & Hk')]|(k & w & Hk & Ha & Hid & Hk')]; [by left| |]; right; exists k, w.
      * split_and!; try done. destruct (trimmed_rows _ _ _ _ T2 k) as [E|(_ & w' & Hw' & Ha' & _)]; cbn in *; [by rewrite E|]. rewrite Hk' in Hw'. by injection Hw' as <-.
      * split_and!; try done. by apply (trimmed_active _ _ _ _ k w T1).
    + intros [?|(k & w & Hk & Ha & Hid & Hk')]; [by left; left|]. destruct (trimmed_rows _ _ _ _ T1 k) as [E|(_ & w' & Hw' & Ha' & E)]; cbn in *.
      * right. exists k, w. by rewrite E.
      * left. right. exists k, w. rewrite Hk in Hw'. injection Hw' as <-. done.
  - intros i. rewrite D2, D1.
    assert (forall pid, member_of y.2 i pid -> member_of x.2 i pid) as Hxy.
    { intros pid (c & Hc & Hp). destruct (C1 i) as [E|(c1 & p1 & _ & _ & E)]; rewrite E in Hc; [by exists c|]. by injection Hc as <-. }
    assert (forall pid, member_of z.2 i pid -> member_of y.2 i pid) as Hyz.
    { intros pid (c & Hc & Hp). destruct (C2 i) as [E|(c1 & p1 & _ & _ & E)]; rewrite E in Hc; [by exists c|]. by injection Hc as <-. }
    destruct (contracts y.2 !! i) as [c|] eqn:Ey; [destruct (protocol_id c) as [p|] eqn:Ep|].
    1: assert (member_of y.2 i p) by (by exists c).
    2: assert (forall p, ~ member_of y.2 i p) by (intros p (c' & Hc' & Hp'); congruence).
    3: assert (forall p, ~ member_of y.2 i p) by (intros p (c' & Hc' & Hp'); congruence).
    all: naive_solver.
Qed.

Lemma cascade_step_cascades now x y : cascade_step now x y -> cascaded now x y.
Proof.
  intros [k w rv dm g g' Hr Hk|c pid rv dm g Hc Hp].
  - destruct (revoke_row_trims _ _ _ _ _ Hr) as [[C S R D N W] [(? & _)|(_ & w' & Hw' & Ha & Hnew)]]; [done|].
    rewrite Hk in Hw'. injection Hw' as <-. constructor; cbn.
    + constructor; try done. intros k'. destruct (W k') as [|[_ ?]]; [by left|by right].
    + left. by rewrite C.
    + intros i. rewrite elem_of_app, list_elem_of_singleton. apply or_iff_compat_l. split; [intros ->; by exists k, w|].
      intros (k' & w' & Hk' & Ha' & <- & E). destruct (W k') as [E'|(-> & _)]; [|congruence]. rewrite E', Hk' in E. injection E as E. by rewrite E in Ha'.
    + intros i. split; [by left|]. intros [|[H1 []]]; [done|]. unfold member_of in *. by rewrite C.
  - unfold demote_member. rewrite Hp. constructor; cbn.
    + apply trimmed_refl.
    + intros cid. destruct (decide (cid = c_id c)) as [->|Hne]; [right|left; by rewrite lookup_insert_ne].
      exists c, pid. rewrite lookup_insert_eq. split_and!; [done|done|]. by destruct (nominated_protocol_id c).
    + intros i. split; [by left|]. intros [|(k & w & Hk & Ha & _ & Hk')]; [done|]. rewrite Hk in Hk'. injection Hk' as E. by rewrite E in Ha.
    + intros i. rewrite elem_of_app, list_elem_of_singleton. apply or_iff_compat_l. unfold member_of. cbn. split.
      * intros ->. split; [by exists pid, c|]. intros (p & c' & Hc' & Hp'). rewrite lookup_insert_eq in Hc'. by injection Hc' as <-.
      * intros [(p & c' & Hc' & Hp') Hn]. destruct (decide (i = c_id c)) as [|Hne]; [done|]. destruct Hn. exists p, c'. by rewrite lookup_insert_ne.
Qed.

Lemma cascade_report now x y : rtc (cascade_step now) x y -> cascaded now x y.
Proof. induction 1 as [|x y z Hs _ IH]; [apply cascaded_refl|]. eapply cascaded_trans; [by apply cascade_step_cascades|done]. Qed.

(** *** Revoking a deployer *)

Lemma revoke_registry_table pid addr reason now g : table (revoke_registry pid addr reason now g) = table g /\
  contracts (revoke_registry pid addr reason now g) = contracts g /\ stored (revoke_registry pid addr reason now g) = stored g.
Proof. unfold revoke_registry. destruct (registry g !! (pid, addr)) as [d|]; [destruct (d_revoked_at d)|]; done. Qed.

(** What only reads the contracts and the witnesses. *)
Lemma gate_but_same S g g' : contracts g' = contracts g -> table g' = table g -> gate_but S g -> gate_but S g'.
Proof.
  intros Ec Et [K T M]. constructor; rewrite ?Ec, ?Et; try done. intros cid c pid Hc Hp. destruct (M cid c pid Hc Hp) as [? ? ? ?].
  constructor; try done; unfold has_active; by rewrite Et.
Qed.

Lemma revoke_dependents_steps rows now rv dm aff g : current rows g ->
  rtc (cascade_step now) (rv, dm, g) ((revoke_dependents rows now rv aff g).1.1, dm, (revoke_dependents rows now rv aff g).2).
Proof.
  revert rv aff g. induction rows as [|kw rows IH]; intros rv aff g Hcur; cbn [revoke_dependents]; [apply rtc_refl|].
  destruct (revoke_row kw.1 now g) as [was g1] eqn:Er. destruct (revoke_row_step _ _ _ rv dm _ _ _ Hcur Er) as [Hst Hcur1].
  destruct was; (etrans; [exact Hst|]); by apply IH.
Qed.

Lemma revoke_dependents_exposes rows pid now rv aff g : Forall (fun kw => row_rule kw <> W1_CODE /\ row_protocol kw = pid) rows ->
  gate_but (fun x => x.1 ∈ aff /\ x.2 = pid) g ->
  gate_but (fun x => x.1 ∈ (revoke_dependents rows now rv aff g).1.2 /\ x.2 = pid) (revoke_dependents rows now rv aff g).2.
Proof.
  intros HF. revert rv aff g. induction HF as [|kw rows [Hw Hp] _ IH]; intros rv aff g Hg; cbn [revoke_dependents]; [done|].
  destruct (revoke_row kw.1 now g) as [was g1] eqn:Er. destruct (revoke_row_trims _ _ _ _ _ Er) as [Ht [(-> & -> & _)|(-> & _)]]; [by apply IH|].
  apply IH. eapply trimmed_gate; [exact Ht| | |].
  - by intros k ->.
  - intros k ->. split; [|done]. apply elem_of_union_l, elem_of_singleton. done.
  - eapply gate_but_mono; [|exact Hg]. cbn. set_solver.
Qed.

(** Every listed row is revoked afterwards. *)
Lemma revoke_dependents_revokes rows now rv aff g k w :
  k ∈ rows.*1 -> witnesses (table (revoke_dependents rows now rv aff g).2) !! k = Some w -> ~ row_active w.
Proof.
  revert rv aff g. induction rows as [|kw rows IH]; intros rv aff g; [by intros ?%not_elem_of_nil|]. rewrite fmap_cons, elem_of_cons. cbn [revoke_dependents].
  destruct (revoke_row kw.1 now g) as [was g1] eqn:Er. destruct (revoke_row_trims _ _ _ _ _ Er) as [Ht Hcase].
  assert (forall w, witnesses (table g1) !! kw.1 = Some w -> ~ row_active w) as Hoff.
  { destruct Hcase as [(_ & -> & Hn)|(_ & w0 & _ & _ & E)]; [done|]. intros w' Hw'. rewrite E in Hw'. injection Hw' as <-. done. }
  intros [->|Hk]; [|destruct was; by apply IH]. intros Hw Ha.
  assert (forall rv aff g, witnesses (table (revoke_dependents rows now rv aff g).2) !! kw.1 = Some w -> witnesses (table g) !! kw.1 = Some w) as Hback.
  { clear -Ha. induction rows as [|x rows IH]; intros rv aff g; [done|]. cbn. destruct (revoke_row x.1 now g) as [was g1] eqn:Er.
    destruct (revoke_row_trims _ _ _ _ _ Er) as [Ht _]. destruct was; intros H; apply IH in H; by apply (trimmed_active _ _ _ _ _ _ Ht). }
  apply (Hoff w); [|done]. destruct was; by eapply Hback.
Qed.

Lemma demote_unsupported_steps l pid now rv dm g rv' dm' g' : keys_ok g ->
  demote_unsupported grant_class_of l pid now rv dm g = Some (rv', dm', g') -> rtc (cascade_step now) (rv, dm, g) (rv', dm', g').
Proof.
  revert rv dm g. induction l as [|cid l IH]; intros rv dm g K; cbn [demote_unsupported]; [intros [= <- <- <-]; apply rtc_refl|].
  destruct (demote_if_no_verified_witness _ _ _ _ _) as [[[extra was] g1]|] eqn:Ed; cbn; [|done]. intros H.
  pose proof (demote_if_steps _ _ _ rv dm _ _ _ _ K Ed) as Hst. etrans; [exact Hst|]. eapply IH; [|exact H]. by apply (keys_steps _ _ _ Hst).
Qed.

Lemma demote_unsupported_settles l pid now rv dm g r : demote_unsupported grant_class_of l pid now rv dm g = Some r ->
  forall S, gate_but S g -> gate_but (fun x => S x /\ ~ (x.1 ∈ l /\ x.2 = pid)) r.2.
Proof.
  revert rv dm g. induction l as [|cid l IH]; intros rv dm g; cbn [demote_unsupported].
  { intros [= <-] S. apply gate_but_mono. intros x HS. split; [done|]. intros [H%not_elem_of_nil _]. done. }
  destruct (demote_if_no_verified_witness _ _ _ _ _) as [[[extra was] g1]|] eqn:Ed; cbn; [|done]. intros H S HS.
  destruct (demote_if_settles _ _ _ _ _ Ed) as [_ Hgate]. eapply gate_but_mono; [|apply (IH _ _ _ H _ (Hgate S HS))]. cbn.
  intros [a b] ((HS' & Hne) & Hx). split; [done|]. cbn in *. intros [Hin ->]. apply elem_of_cons in Hin as [->|Hin]; [done|by apply Hx].
Qed.

Lemma steps_active now x y k w : rtc (cascade_step now) x y -> witnesses (table y.2) !! k = Some w -> row_active w -> witnesses (table x.2) !! k = Some w.
Proof. intros H Hk Ha. apply (trimmed_active _ _ _ _ k w (casc_trims _ _ _ (cascade_report _ _ _ H))); done. Qed.

(** A lineage witness through a deployer. *)
Definition lineage_key (pid : Z) (addr : string) (k : witness_key) : Prop :=
  key_protocol k = pid /\ key_rule k ∈ LINEAGE_REGISTRY_WITNESS_RULES /\ k.2 = Some addr.

Lemma lineage_not_code r : r ∈ LINEAGE_REGISTRY_WITNESS_RULES -> r <> W1_CODE.
Proof. intros Hr ->. apply (bool_decide_eq_true_2 _) in Hr. by vm_compute in Hr. Qed.

Definition dependents (pid : Z) (addr : string) (g : gate) : list (witness_key * witness) :=
  active_where (fun kw => (row_protocol kw =? pid) && bool_decide (row_rule kw ∈ LINEAGE_REGISTRY_WITNESS_RULES) && bool_decide (row_via kw = Some addr)) g.

Lemma dependents_elem pid addr g kw : kw ∈ dependents pid addr g <->
  witnesses (table g) !! kw.1 = Some kw.2 /\ row_active kw.2 /\ lineage_key pid addr kw.1.
Proof.
  unfold dependents. rewrite active_where_elem. unfold lineage_key, key_protocol, key_rule, row_protocol, row_rule, row_via.
  rewrite !andb_true_iff, !bool_decide_eq_true, Z.eqb_eq. naive_solver.
Qed.

Lemma revoke_deployer_spec pid addr reason now g rv dm g' : keys_ok g ->
  revoke_deployer_registry_row grant_class_of pid addr reason now g = Some (rv, dm, g') ->
  rtc (cascade_step now) ([], [], revoke_registry pid addr reason now g) (rv, dm, g') /\ (gate_ok g -> gate_ok g') /\
  (forall k w, witnesses (table g') !! k = Some w -> lineage_key pid addr k -> ~ row_active w).
Proof.
  intros K. unfold revoke_deployer_registry_row. set (g0 := revoke_registry pid addr reason now g).
  destruct (revoke_registry_table pid addr reason now g) as (Et & Ec & _). fold g0 in Et, Ec. change (active_where _ g0) with (dependents pid addr g0).
  pose proof (revoke_dependents_steps (dependents pid addr g0) now [] [] ∅ g0 (current_where _ _)) as H1.
  pose proof (revoke_dependents_revokes (dependents pid addr g0) now [] ∅ g0) as Hoff.
  pose proof (revoke_dependents_exposes (dependents pid addr g0) pid now [] ∅ g0) as Hexp.
  destruct (revoke_dependents (dependents pid addr g0) now [] ∅ g0) as [[rv1 aff] g1]. cbn in *. intros H.
  assert (keys_ok g1) as K1 by (apply (keys_steps _ _ _ H1); cbn; intros cid c; rewrite Ec; apply K).
  pose proof (demote_unsupported_steps _ _ _ _ _ _ _ _ _ K1 H) as H2. split_and!.
  - by etrans.
  - intros Hg. assert (gate_ok g0) as Hg0 by (by apply (gate_but_same _ g)).
    eapply gate_but_mono; [|apply (demote_unsupported_settles _ _ _ _ _ _ _ H), Hexp].
    + cbn. intros x [[Hx Hp] Hn]. apply Hn. rewrite merge_sort_Permutation, elem_of_elements. done.
    + apply Forall_forall. intros kw Hkw. apply dependents_elem in Hkw as (_ & _ & Hp & Hr & _). split; [by apply lineage_not_code|done].
    + eapply gate_but_mono; [|exact Hg0]. done.
  - intros k w Hk Hl Ha. pose proof (steps_active _ _ _ _ _ H2 Hk Ha) as Hk1. cbn in Hk1. apply (Hoff k w); [|done|done].
    apply list_elem_of_fmap. exists (k, w). split; [done|]. apply dependents_elem. cbn. split_and!; try done. by apply (steps_active _ _ _ _ _ H1).
Qed.

Lemma quiescence_spec seed now g : revocation_quiescence grant_class_of seed now g <> Some None /\
  forall rv dm g', revocation_quiescence grant_class_of seed now g = Some (Some (rv, dm, g')) ->
    (keys_ok g -> rtc (cascade_step now) ([], [], g) (rv, dm, g')) /\ (gate_ok g -> gate_ok g').
Proof.
  unfold revocation_quiescence. destruct (quiesce_ends (S (active_count g)) now (non_empty_lower seed) [] [] g) as [He Hok]; [left; lia|].
  split; [done|]. intros rv dm g' H. split; [|by apply (Hok _ H)]. intros K. by eapply quiesce_steps.
Qed.

Lemma sorted_ids_elem l i : i ∈ sorted_ids l <-> i ∈ l.
Proof. unfold sorted_ids. by rewrite merge_sort_Permutation, elem_of_remove_dups. Qed.

(** The whole demotion, with the ids of its report. *)
Lemma demote_spec pid addr reason now g : keys_ok g ->
  demote grant_class_of pid addr reason now g <> Some None /\
  forall rv dm g', demote grant_class_of pid addr reason now g = Some (Some (rv, dm, g')) ->
    (exists rv' dm', rtc (cascade_step now) ([], [], revoke_registry pid addr reason now g) (rv', dm', g') /\
      (forall i, i ∈ rv <-> i ∈ rv') /\ (forall i, i ∈ dm <-> i ∈ dm')) /\
    (gate_ok g -> gate_ok g') /\
    (forall k w, witnesses (table g') !! k = Some w -> lineage_key pid addr k -> ~ row_active w).
Proof.
  intros K. unfold demote. destruct (revoke_deployer_registry_row _ _ _ _ _ _) as [[[rv1 dm1] g1]|] eqn:Er; cbn [mbind option_bind]; [|done].
  destruct (revoke_deployer_spec _ _ _ _ _ _ _ _ K Er) as (H1 & Hok1 & Hoff1).
  assert (keys_ok g1) as K1.
  { apply (keys_steps _ _ _ H1). cbn. destruct (revoke_registry_table pid addr reason now g) as (_ & Ec & _). intros cid c. rewrite Ec. apply K. }
  destruct (decide _) as [Hs|Hs]; [split; [done|]; intros rv dm g' [= <- <- <-]; split; [|done]; by exists rv1, dm1|].
  destruct (quiescence_spec (cascade_seed rv1 dm1 g1) now g1) as [Hend Hq]. destruct (revocation_quiescence _ _ _ _) as [[[[rv2 dm2] g2]|]|]; [|by destruct Hend|].
  2: { done. }
  cbn.
  split; [done|]. intros rv dm g' [= <- <- <-]. destruct (Hq _ _ _ eq_refl) as [H2 Hok2]. specialize (H2 K1). split_and!.
  - exists (rv1 ++ rv2)%list, (dm1 ++ dm2)%list. split_and!; [|apply sorted_ids_elem|apply sorted_ids_elem]. etrans; [exact H1|].
    pose proof (cascade_prefix _ rv1 dm1 _ _ _ _ _ _ H2) as H2'. by rewrite !app_nil_r in H2'.
  - auto.
  - intros k w Hk Hl Ha. apply (Hoff1 k w); [|done|done]. by apply (steps_active _ _ _ _ _ H2).
Qed.
End Cascade.

(** ** Writes *)

(** A written row is active, and the active rows stay as they are. *)
Lemma write_witness_spec cid pid rule e via now t k w t' : write_witness cid pid rule e via now t = Some (k, w, t') ->
  (table_ok t -> table_ok t') /\ key_contract k = cid /\ key_protocol k = pid /\ key_rule k = rule /\ witnesses t' !! k = Some w /\ row_active w /\
  (forall k' w', witnesses t !! k' = Some w' -> row_active w' -> witnesses t' !! k' = Some w').
Proof.
  unfold write_witness. destruct (bool_decide (rule ∈ WITNESS_RULES)) eqn:Er; [|done]. destruct (validate_evidence rule e) eqn:Ev; [|done]. cbn [negb orb].
  destruct (optional require_address via) as [v|] eqn:Eo; cbn [mbind option_bind]; [|done]. apply bool_decide_eq_true in Er. intros [= <- <- <-].
  split; [|cbn; split_and!; try done].
  - intros Ht. apply (upsert_ok (cid, pid, rule, v) e now t Ht); [done|done|]. cbn. eapply optional_inv; [|exact Eo]. intros x. apply require_address_inv.
  - apply lookup_insert_eq.
  - unfold row_active. destruct (witnesses t !! _) as [w|]; [destruct (revoked_at w)|]; done.
  - intros k' w' Hk' Ha. destruct (decide (k' = (cid, pid, rule, v))) as [->|Hne]; [|by rewrite lookup_insert_ne]. rewrite lookup_insert_eq, Hk'.
    unfold row_active in Ha. destruct w' as [i ev o r]. cbn in *. by subst r.
Qed.

(** Tables that keep every active row. *)
Record grown (t t' : witness_table) : Prop := {
  grown_ok : table_ok t -> table_ok t';
  grown_active : forall k w, witnesses t !! k = Some w -> row_active w -> witnesses t' !! k = Some w;
}.

Lemma grown_refl t : grown t t.
Proof. by constructor. Qed.

Lemma grown_trans t1 t2 t3 : grown t1 t2 -> grown t2 t3 -> grown t1 t3.
Proof. intros [O1 A1] [O2 A2]. constructor; auto. Qed.

Lemma write_grows cid pid rule e via now t r : write_witness cid pid rule e via now t = Some r -> grown t r.2.
Proof. destruct r as [[k w] t']. intros H. apply write_witness_spec in H as (? & _ & _ & _ & _ & _ & ?). by constructor. Qed.

Lemma write_facts_grows cid pid now l t t' : write_facts cid pid now l t = Some t' -> grown t t'.
Proof.
  revert t. induction l as [|[[rule e] via] l IH]; intros t; cbn [write_facts]; [intros [= <-]; apply grown_refl|].
  destruct (write_witness _ _ _ _ _ _ _) as [r|] eqn:Ew; cbn; [|done]. intros H. eapply grown_trans; [by eapply write_grows|by apply IH].
Qed.

Lemma gate_grown S t g : grown (table g) t -> gate_but S g -> gate_but S (put_table t g).
Proof.
  intros [Hok Hact] [K T M]. constructor; cbn; auto. intros cid c pid Hc Hp. destruct (M cid c pid Hc Hp) as [? ? (n & Hn & k & w & Hk & Ha & H) Hadm].
  constructor; try done; [exists n; split; [done|]; exists k, w; auto|]. destruct Hadm as [|(k' & w' & Hk' & Ha' & H')]; [by left|right; exists k', w'; auto].
Qed.

(** *** Rows put in place *)

(** A row that replaces its own: what it says of membership is still backed. *)
Lemma put_contract_gate c g : gate_ok g ->
  (forall pid, protocol_id c = Some pid -> backed_but (fun _ => False) g c pid) -> gate_ok (put_contract c g).
Proof.
  intros [K T M] Hb. constructor; cbn; [|done|].
  - intros cid c'. rewrite lookup_insert_Some. intros [[<- <-]|[_ ?]]; [done|auto].
  - intros cid c' pid. rewrite lookup_insert_Some. intros [[<- <-]|[_ H]] Hp; [specialize (Hb pid Hp)|specialize (M cid c' pid H Hp)]; by destruct Hb || destruct M.
Qed.

Section Steps.
Variable grant_class_of : string -> option string.

Lemma filter_rows_subset f l l' : filter_rows f l = Some l' -> forall kw, kw ∈ l' -> kw ∈ l.
Proof.
  revert l'. induction l as [|x l IH]; intros l'; cbn [filter_rows]; [by intros [= <-]|].
  destruct (f x) as [b|]; cbn; [|done]. destruct (filter_rows f l) as [rest|]; cbn; [|done]. intros [= <-] kw. destruct b.
  - rewrite elem_of_cons. intros [->|H]; [by left|right; by apply (IH rest)].
  - intros H. right. by apply (IH rest).
Qed.

(** Promotion is the only way in, and needs a code proof and an admitting
    witness that verifies. *)
Lemma promote_spec c pid g b g' : promote grant_class_of c pid g = Some (b, g') ->
  g' = g \/ protocol_id c = None /\ b = true /\ 0 < pid /\ g' = mark_membership_dirty pid (put_contract (set_membership (Some pid) (Some pid) c) g) /\
    backed_but (fun _ => False) g (set_membership (Some pid) (Some pid) c) pid /\ (w ← code_row g c; code_absent_at_probe w) <> Some true.
Proof.
  unfold promote. destruct (0 <? pid) eqn:Ep; [|done]. apply Z.ltb_lt in Ep. cbn [negb]. case_bool_decide as E1; [intros [= <- <-]; by left|].
  case_bool_decide as E2; [intros [= <- <-]; by left|]. case_bool_decide as E3; [intros [= <- <-]; by left|].
  destruct (filter_rows _ _) as [adm|] eqn:Ef; cbn [mbind option_bind]; [|done].
  destruct adm as [|kw adm]; [intros [= <- <-]; by left|].
  destruct (match chain_id_for_chain_name (c_chain c) with Some n => _ | None => false end) eqn:Ew; [|intros [= <- <-]; by left].
  intros [= <- <-]. right. split_and!; try done; [by destruct (protocol_id c); [destruct E2; eauto|]|]. constructor; [done|by right| |right].
  - destruct (chain_id_for_chain_name (c_chain c)) as [n|] eqn:En; [|done]. exists n. split; [done|].
    apply existsb_exists in Ew as (kw' & Hin & Hw). apply list_elem_of_In, rows_of_elem in Hin as (Hk & Ha & Hc & Hp).
    apply andb_true_iff in Hw as [Hr He]. apply String.eqb_eq in Hr. exists kw'.1, kw'.2. split_and!; done.
  - pose proof (filter_rows_subset _ _ _ Ef kw ltac:(by left)) as Hin. apply list_elem_of_In, filter_In in Hin as [Hin Had].
    apply list_elem_of_In, rows_of_elem in Hin as (Hk & Ha & Hc & Hp). exists kw.1, kw.2. split_and!; try done. by apply bool_decide_eq_true in Had.
Qed.

Lemma promote_gate c pid g b g' : promote grant_class_of c pid g = Some (b, g') -> gate_ok g -> gate_ok g'.
Proof.
  intros H Hg. destruct (promote_spec _ _ _ _ _ H) as [->|(_ & _ & _ & -> & Hb & _)]; [done|]. apply (gate_but_same _ (put_contract (set_membership (Some pid) (Some pid) c) g)); [done|done|].
  apply put_contract_gate; [done|]. cbn. by intros pid' [= <-].
Qed.

(** How a row's membership may change in one operation: it stays, it begins from
    none, or it ends in a nomination. *)
Definition moves (c c' : contract) : Prop :=
  protocol_id c' = protocol_id c \/ protocol_id c = None \/ protocol_id c' = None /\ nominated_protocol_id c' <> None.

Definition moved (g g' : gate) : Prop := forall cid c, contracts g !! cid = Some c -> exists c', contracts g' !! cid = Some c' /\ moves c c'.

Lemma moved_same g g' : contracts g' = contracts g -> moved g g'.
Proof. intros E cid c Hc. exists c. rewrite E. split; [done|]. by left. Qed.

Lemma moved_put c c' g : contracts g !! c_id c' = Some c -> moves c c' -> moved g (put_contract c' g).
Proof.
  intros Hc Hm cid c0 Hc0. cbn. destruct (decide (cid = c_id c')) as [->|Hne]; [rewrite lookup_insert_eq; exists c'; by replace c0 with c by congruence|].
  rewrite lookup_insert_ne by done. exists c0. split; [done|]. by left.
Qed.

Lemma promote_moved c c0 pid g b g' : contracts g !! c_id c = Some c0 -> protocol_id c0 = protocol_id c -> promote grant_class_of c pid g = Some (b, g') -> moved g g'.
Proof.
  intros Hc Ep H. destruct (promote_spec _ _ _ _ _ H) as [->|(E & _ & _ & -> & _)]; [by apply moved_same|].
  eapply (moved_put c0 (set_membership (Some pid) (Some pid) c)); [done|]. right. left. congruence.
Qed.

Lemma cascaded_moved now x y : cascaded now x y -> moved x.2 y.2.
Proof.
  intros [_ C _ _] cid c Hc. destruct (C cid) as [E|(c0 & pid & Hc0 & Hp & E)]; rewrite E; [exists c; split; [done|by left]|].
  eexists. split; [done|]. by right; right.
Qed.

(** The nominated row keeps its membership and its backing. *)
Definition nominated_row (c : contract) (pid : Z) (tag : string) : contract :=
  set_sources (merge_source tag (discovery_sources c)) (set_membership (protocol_id c) (nominated_slot c pid) c).

Lemma nominated_backed g c pid tag p : backed_but (fun _ => False) g c p -> protocol_id c = Some p -> backed_but (fun _ => False) g (nominated_row c pid tag) p.
Proof.
  intros [Hpos Hslot Hcode Hadm] Hp. constructor; try done. right. cbn. unfold nominated_slot. destruct Hslot as [-> | ->]; [by rewrite Hp|done].
Qed.

Lemma nominate_spec c pid tag human now g g' : contracts g !! c_id c = Some c -> gate_ok g ->
  nominate grant_class_of c pid tag human now g = Some g' -> gate_ok g' /\ moved g g'.
Proof.
  intros Hc Hg. unfold nominate. destruct (0 <? pid); [|done]. cbn [negb]. fold (nominated_row c pid tag). set (c' := nominated_row c pid tag).
  assert (gate_ok (put_contract c' g)) as Hput.
  { apply put_contract_gate; [done|]. intros p Hp. apply nominated_backed; [|done]. by apply (gate_members _ _ Hg (c_id c)). }
  assert (moved g (put_contract c' g)) as Hmv by (apply (moved_put c); [done|by left]).
  assert (forall e g', (w ← write_witness (c_id c') pid W5_HUMAN (JDict e) JNone now (table (put_contract c' g));
    r ← promote grant_class_of c' pid (put_table w.2 (put_contract c' g)); Some r.2) = Some g' -> gate_ok g' /\ moved g g') as Hwrite.
  { intros e g1. destruct (write_witness _ _ _ _ _ _ _) as [w|] eqn:Ew; cbn [mbind option_bind]; [|done].
    destruct (promote _ _ _ _) as [[b g2]|] eqn:Ep; cbn [mbind option_bind]; [|done]. intros [= <-]. split.
    - eapply promote_gate; [exact Ep|]. apply gate_grown; [by eapply write_grows|done].
    - destruct (promote_spec _ _ _ _ _ Ep) as [->|(E & _ & _ & -> & _)]; [intros cid c0 H0; by apply Hmv|].
      intros cid c0 H0. cbn. destruct (decide (cid = c_id c)) as [->|Hne]; [|rewrite !lookup_insert_ne by done; exists c0; split; [done|by left]].
      rewrite lookup_insert_eq. eexists. split; [done|]. right. left. replace c0 with c by congruence. done. }
  destruct human as [[actor asserted]|]; [|intros [= <-]; by split].
  destruct (protocol_id c') as [p|]; [destruct (p =? pid); [|intros [= <-]; by split]|];
    (destruct (w5_evidence _ _) as [e|]; cbn [mbind option_bind]; [|done]); apply Hwrite.
Qed.

Lemma seed_spec c now g b g' : gate_ok g -> seed_llama_witness c now g = Some (b, g') -> gate_ok g' /\ moved g g'.
Proof.
  intros Hg. unfold seed_llama_witness. destruct (match protocol_id c with Some _ => _ | None => _ end) as [pid|]; [|intros [= <- <-]; by split; [|apply moved_same]].
  destruct (chain_id_for_chain_name (c_chain c)) as [n|]; [|intros [= <- <-]; by split; [|apply moved_same]].
  destruct (code_row g c) as [cw|]; [|intros [= <- <-]; by split; [|apply moved_same]].
  destruct (code_probe_block cw) as [blk|]; [|intros [= <- <-]; by split; [|apply moved_same]].
  destruct (protocols (stored g) !! pid) as [[slug name]|]; [|intros [= <- <-]; by split; [|apply moved_same]].
  destruct (_ || _); [intros [= <- <-]; by split; [|apply moved_same]|].
  destruct (w6_evidence _ _ _ _) as [e|]; cbn [mbind option_bind]; [|done]. destruct (write_witness _ _ _ _ _ _ _) as [r|] eqn:Ew; cbn [mbind option_bind]; [|done].
  intros [= <- <-]. split; [apply gate_grown; [by eapply write_grows|done]|by apply moved_same].
Qed.

Lemma bind_spec c pid absent facts blocked now g o g' : contracts g !! c_id c = Some c -> gate_ok g ->
  bind_and_promote grant_class_of c pid absent facts blocked now g = Some (o, g') -> gate_ok g' /\ moved g g'.
Proof.
  intros Hc Hg. unfold bind_and_promote. assert (forall o' : option admission, Some (o', g) = Some (o, g') -> gate_ok g' /\ moved g g') as Hsame.
  { intros o' [= _ <-]. split; [done|by apply moved_same]. }
  destruct (match facts with [] => _ | _ => _ end); [apply Hsame|]. destruct (chain_id_for_chain_name (c_chain c)) as [n|]; [|apply Hsame].
  destruct absent as [ab|]; [|apply Hsame]. destruct (w ← code_row g c; code_probe_block w) as [blk|]; [|done].
  destruct (w1_evidence _ _) as [e|]; cbn [mbind option_bind]; [|done].
  destruct (write_witness _ _ _ _ _ _ _) as [w1|] eqn:Ew; cbn [mbind option_bind]; [|done].
  destruct (write_facts _ _ _ _ _) as [t|] eqn:Et; cbn [mbind option_bind]; [|done].
  destruct (promote _ _ _ _) as [[b g2]|] eqn:Ep; cbn [mbind option_bind]; [|done]. intros [= _ <-]. cbn.
  assert (grown (table g) t) as Hgr by (eapply grown_trans; [by eapply write_grows|by eapply write_facts_grows]).
  split; [eapply promote_gate; [exact Ep|by apply gate_grown]|]. by eapply (promote_moved c c pid (put_table t g)).
Qed.

Lemma attempt_spec c pid h now g o g' : contracts g !! c_id c = Some c -> gate_ok g ->
  attempt_admission grant_class_of c pid h now g = Some (o, g') -> gate_ok g' /\ moved g g'.
Proof.
  intros Hc Hg. unfold attempt_admission. destruct (String.eqb _ _); [intros [= _ <-]; split; [done|by apply moved_same]|].
  destruct (w ← code_row g c; code_absent_at_probe w) as [[|]|]; [intros [= _ <-]; split; [done|by apply moved_same]|..];
    (destruct (derive_admitting_facts _ _ _ _ _) as [d|]; cbn [mbind option_bind]; [|done]); by apply bind_spec.
Qed.

(** ** Every operation, in any order *)

(** A scan refreshes what is observed of a row, not its identity, its chain or
    its membership. *)
Definition observed_as (c c' : contract) : Prop :=
  c_id c' = c_id c /\ c_chain c' = c_chain c /\ protocol_id c' = protocol_id c /\ nominated_protocol_id c' = nominated_protocol_id c.

Inductive gate_step : gate -> gate -> Prop :=
  | by_nominate c pid tag human now g g' : contracts g !! c_id c = Some c -> nominate grant_class_of c pid tag human now g = Some g' -> gate_step g g'
  | by_seed c now b g g' : seed_llama_witness c now g = Some (b, g') -> gate_step g g'
  | by_attempt c pid h now o g g' : contracts g !! c_id c = Some c -> attempt_admission grant_class_of c pid h now g = Some (o, g') -> gate_step g g'
  | by_promote c pid b g g' : contracts g !! c_id c = Some c -> promote grant_class_of c pid g = Some (b, g') -> gate_step g g'
  | by_quiescence seed now rv dm g g' : revocation_quiescence grant_class_of seed now g = Some (Some (rv, dm, g')) -> gate_step g g'
  | by_demote pid addr reason now rv dm g g' : demote grant_class_of pid addr reason now g = Some (Some (rv, dm, g')) -> gate_step g g'
  | by_register pid addr trust evidence now next g g' : register_deployer pid addr trust evidence now next g = Some g' -> gate_step g g'
  | by_facts f g : gate_step g (mkGate (contracts g) f (table g) (registry g) (dirty g))
  | by_scan c c' g : contracts g !! c_id c = Some c -> observed_as c c' -> gate_step g (put_contract c' g)
  | by_discovery c g : contracts g !! c_id c = None -> protocol_id c = None -> gate_step g (put_contract c g)
  | by_worker d g : gate_step g (mkGate (contracts g) (stored g) (table g) (registry g) d).

Lemma gate_step_spec g g' : gate_step g g' -> gate_ok g -> gate_ok g' /\ moved g g'.
Proof.
  intros Hs Hg. destruct Hs as [c pid tag human now g g' Hc H|c now b g g' H|c pid h now o g g' Hc H|c pid b g g' Hc H|seed now rv dm g g' H
    |pid addr reason now rv dm g g' H|pid addr trust ev now next g g' H|f g|c c' g Hc (Ei & Ech & Epr & En)|c g Hc Hp|d g].
  - by eapply nominate_spec.
  - by eapply seed_spec.
  - by eapply attempt_spec.
  - split; [by eapply promote_gate|by eapply (promote_moved c c)].
  - destruct (quiescence_spec grant_class_of seed now g) as [_ Hq]. destruct (Hq _ _ _ H) as [Hst Hok]. split; [auto|].
    by apply (cascaded_moved now ([], [], g) (rv, dm, g')), cascade_report, Hst; exact (gate_keys _ _ Hg).
  - destruct (demote_spec grant_class_of pid addr reason now g (gate_keys _ _ Hg)) as [_ Hd]. destruct (Hd _ _ _ H) as ((rv' & dm' & Hst & _) & Hok & _).
    split; [auto|]. apply cascade_report, cascaded_moved in Hst. intros cid c Hc. apply Hst. cbn.
    by destruct (revoke_registry_table pid addr reason now g) as (_ & -> & _).
  - unfold register_deployer in H. destruct (negb _); [done|]. destruct (require_address _) as [a|]; [|done]. cbn in H. injection H as <-.
    split; [by apply (gate_but_same _ g)|by apply moved_same].
  - split; [by apply (gate_but_same _ g)|by apply moved_same].
  - split; [|apply (moved_put c); [by rewrite Ei|by left]]. apply put_contract_gate; [done|]. intros pid Hpid.
    destruct (gate_members _ _ Hg _ c pid Hc) as [? ? ? ?]; [congruence|]. constructor; rewrite ?Ei, ?Ech, ?En; done.
  - split; [apply put_contract_gate; [done|congruence]|]. intros cid c0 Hc0. cbn. rewrite lookup_insert_ne by congruence. exists c0. split; [done|by left].
  - split; [by apply (gate_but_same _ g)|by apply moved_same].
Qed.

Lemma gate_steps_ok g g' : rtc gate_step g g' -> gate_ok g -> gate_ok g'.
Proof. induction 1 as [|x y z Hs _ IH]; [done|]. intros Hg. apply IH. by apply (gate_step_spec x). Qed.
End Steps.

(** ** A protocol with a controller *)

Definition addr_of (c : ascii) : string := "0x" ++ str_repeat c 40.
Definition hash_of (c : ascii) : string := "0x" ++ str_repeat c 64.
Definition anchor_at : string := addr_of "1".
Definition controller_at : string := addr_of "2".
Definition deployed_at : string := addr_of "3".
Definition controlled_at : string := addr_of "4".
Definition deployer_at : string := addr_of "d".

Definition fresh_row (i : Z) (a : string) (dep : option string) : contract := mkContract i a (Some "ethereum") dep None None None None None None [].

Definition owner_probe : jval :=
  JDict [("status", JStr "probed"); ("reads", JDict [("owner", JDict [("value", JStr controller_at)])]);
         ("resolved_addresses", JList [JStr controller_at])].

Definition creation_of (tx : ascii) : creation_witness := mkCreation (Some (hash_of tx)) (Some 10) None (Some 20) (Some false).

(** The controller owns the anchor, as probed, and rows 3 and 4, as stored. *)
Definition demo_facts : facts := mkFacts
  [mkControllerValue 3 "owner" (Some controller_at) (Some "caller_gate"); mkControllerValue 4 "owner" (Some controller_at) (Some "caller_gate")]
  {[ (1, 1) := owner_probe ]}
  (list_to_map [((1, anchor_at), creation_of "a"); ((1, controller_at), creation_of "b"); ((1, deployed_at), creation_of "c");
                ((1, controlled_at), creation_of "e")])
  [] [] [] [] ∅.

Definition no_claims : string -> option string := fun _ => None.
Definition empty_gate (f : facts) : gate := mkGate ∅ f empty_table ∅ ∅.

Definition demo_rows : gate :=
  put_contract (fresh_row 1 anchor_at None) (put_contract (fresh_row 2 controller_at None)
    (put_contract (fresh_row 3 deployed_at (Some deployer_at)) (put_contract (fresh_row 4 controlled_at None) (empty_gate demo_facts)))).

Definition on_row (cid : Z) (f : contract -> gate -> option gate) (g : gate) : option gate := c ← contracts g !! cid; f c g.

Definition try_admission (cid : Z) : gate -> option gate := on_row cid (fun c g => r ← attempt_admission no_claims c 7 false 100 g; Some r.2).

(** The anchor is asserted, the controller follows from it, row 3 from its
    deployer and row 4 from the controller, then exclusive to the protocol. *)
Definition demo : option gate :=
  g ← register_deployer 7 deployer_at "A" JNone 90 1 demo_rows;
  g ← on_row 1 (fun c g => nominate no_claims c 7 "manual" (Some ("ops", "2024-01-01T00:00:00+00:00")) 95 g) g;
  g ← try_admission 1 g; g ← try_admission 2 g; g ← try_admission 3 g; try_admission 4 g.

Lemma try_admission_step cid g g' : keys_ok g -> try_admission cid g = Some g' -> gate_step no_claims g g'.
Proof.
  intros K. unfold try_admission, on_row. destruct (contracts g !! cid) as [c|] eqn:Ec; cbn [mbind option_bind]; [|done].
  destruct (attempt_admission _ _ _ _ _ _) as [[o g1]|] eqn:Ea; cbn [mbind option_bind]; [|done]. intros [= <-]. cbn.
  eapply by_attempt; [|exact Ea]. by rewrite (K _ _ Ec).
Qed.

Lemma empty_gate_ok f : gate_ok (empty_gate f).
Proof. constructor; cbn; [done|apply empty_ok|done]. Qed.

Lemma demo_rows_steps : rtc (gate_step no_claims) (empty_gate demo_facts) demo_rows.
Proof. unfold demo_rows. do 4 (eapply rtc_r; [|apply by_discovery; [vm_compute; reflexivity|done]]). apply rtc_refl. Qed.

Lemma demo_reachable g : demo = Some g -> rtc (gate_step no_claims) (empty_gate demo_facts) g.
Proof.
  unfold demo. intros H.
  destruct (register_deployer _ _ _ _ _ _ _) as [g1|] eqn:E1; cbn [mbind option_bind] in H; [|done].
  assert (rtc (gate_step no_claims) (empty_gate demo_facts) g1) as R1 by (eapply rtc_r; [apply demo_rows_steps|by eapply by_register]).
  assert (forall x, rtc (gate_step no_claims) (empty_gate demo_facts) x -> keys_ok x) as HK.
  { intros x Hx. exact (gate_keys _ _ (gate_steps_ok _ _ _ Hx (empty_gate_ok _))). }
  destruct (on_row 1 _ g1) as [g2|] eqn:E2; cbn [mbind option_bind] in H; [|done].
  assert (rtc (gate_step no_claims) (empty_gate demo_facts) g2) as R2.
  { unfold on_row in E2. destruct (contracts g1 !! 1) as [c|] eqn:Ec; cbn [mbind option_bind] in E2; [|done].
    eapply rtc_r; [exact R1|]. eapply by_nominate; [|exact E2]. by rewrite (HK g1 R1 _ _ Ec). }
  assert (forall cid x y, rtc (gate_step no_claims) (empty_gate demo_facts) x -> try_admission cid x = Some y -> rtc (gate_step no_claims) (empty_gate demo_facts) y) as Hnext.
  { intros cid x y Hx Hy. eapply rtc_r; [exact Hx|]. apply (try_admission_step cid); [by apply HK|done]. }
  destruct (try_admission 1 g2) as [g3|] eqn:E3; cbn [mbind option_bind] in H; [|done].
  destruct (try_admission 2 g3) as [g4|] eqn:E4; cbn [mbind option_bind] in H; [|done].
  destruct (try_admission 3 g4) as [g5|] eqn:E5; cbn [mbind option_bind] in H; [|done].
  eauto 10.
Qed.

Lemma demo_runs : exists g, demo = Some g.
Proof. destruct demo as [g|] eqn:E; [by exists g|]. assert (bool_decide (is_Some demo) = true) as H by (vm_compute; reflexivity). rewrite E in H. done. Qed.

(** ** Claims *)

(** C36: The revocation cascade ends: whatever rows, witnesses and facts are
    stored, and whatever it starts from, the loop empties its frontier before
    the unrevoked witnesses run out. *)
Theorem cascade_terminates gc g now :
  (forall seed, revocation_quiescence gc seed now g <> Some None) /\ (forall pid addr reason, demote gc pid addr reason now g <> Some None).
Proof.
  split; [intros seed; by apply quiescence_spec|]. intros pid addr reason. unfold demote.
  destruct (revoke_deployer_registry_row _ _ _ _ _ _) as [[[rv dm] g1]|]; cbn [mbind option_bind]; [|done]. destruct (decide _); [done|].
  destruct (quiescence_spec gc (cascade_seed rv dm g1) now g1) as [Hend _]. destruct (revocation_quiescence _ _ _ _) as [[[[? ?] ?]|]|]; done.
Qed.

(** A deployer's demotion only revokes and demotes, and its report is
    exact: the revoked ids are those of the witnesses that were unrevoked and
    now are not, the demoted ids those of the rows that were members and now are
    not; every other row, witness and stored fact is as it was, and no lineage
    witness through the deployer is left. *)
Theorem demotion_report_exact gc pid addr reason now g rv dm g' : keys_ok g ->
  demote gc pid addr reason now g = Some (Some (rv, dm, g')) ->
  cascaded now ([], [], revoke_registry pid addr reason now g) (rv, dm, g') /\
  (forall k w, witnesses (table g') !! k = Some w -> lineage_key pid addr k -> ~ row_active w).
Proof.
  intros K H. destruct (demote_spec gc pid addr reason now g K) as [_ Hd]. destruct (Hd _ _ _ H) as ((rv' & dm' & Hst & Er & Em) & _ & Hoff).
  split; [|done]. destruct (cascade_report _ _ _ Hst) as [T C R D]. cbn in *. constructor; cbn; [done|done| |]; intros i; [by rewrite Er, R|by rewrite Em, D].
Qed.

Definition demo_demotion : option (list Z * list Z * gate) := g ← demo; r ← demote no_claims 7 deployer_at "collision" 200 g; r.

Lemma demotion_report_exact_witness : exists g g', demo = Some g /\
  cascaded 200 ([], [], revoke_registry 7 deployer_at "collision" 200 g) ([6], [3], g') /\ ~ (exists p, member_of g' 3 p).
Proof.
  destruct demo_runs as [g Hg]. assert (fst <$> demo_demotion = Some ([6], [3])) as E by (vm_compute; reflexivity).
  unfold demo_demotion in E. rewrite Hg in E. cbn [mbind option_bind] in E.
  destruct (demote no_claims 7 deployer_at "collision" 200 g) as [[[[rv dm] g']|]|] eqn:Ed; [|discriminate E|discriminate E].
  injection E as -> ->. exists g, g'. split; [done|].
  destruct (demotion_report_exact no_claims 7 deployer_at "collision" 200 g [6] [3] g'
    (gate_keys _ _ (gate_steps_ok _ _ _ (demo_reachable g Hg) (empty_gate_ok _))) Ed) as [Hc _].
  split; [exact Hc|].
  pose proof (casc_demoted _ _ _ Hc 3) as [Hd _]. cbn [fst snd] in Hd. destruct Hd as [Hn|[_ Hn]]; [apply list_elem_of_singleton; reflexivity|exfalso; exact (not_elem_of_nil _ Hn)|exact Hn].
Defined.

(** What a gate leaves standing that no longer holds. *)
Definition stale_rows (gc : string -> option string) (g : gate) : list (Z * string) :=
  omap (fun kw => c ← contracts g !! row_contract kw; b ← row_holds gc g c kw; if (b : bool) then None else Some (row_contract kw, row_rule kw))
    (active_where (fun _ => true) g).

(** The cascade does not reach the witnesses that rest on a controller being
    exclusive: row 4 is a member through the controller of rows 3 and 4, which is
    exclusive while row 3 is a member.  When the deployer's demotion ends the
    membership of row 3, the witness of row 4 no longer holds, but only the
    controller's address, which [controllers_of] the demoted row gives, would
    lead to it, and the cascade follows the demoted row's own. *)
Example cascade_misses_exclusive :
  (stale_rows no_claims <$> demo, (fun r => (r.1, stale_rows no_claims r.2, protocol_id <$> contracts r.2 !! 4, elements (controllers_of r.2 {[3]}))) <$> demo_demotion) =
  (Some [], Some (([6], [3]), [(4, W3_CONTROL)], Some (Some 7), [controller_at])).
Proof. vm_compute. reflexivity. Qed.
