(* ===== verification/MergeTheory.v ===== *)
(** * What a protocol merge keeps of the gate

    A merge moves the members, witnesses and deployers of one protocol to another
    and demotes the revoked deployers that survive.  Every member stays backed
    through any sequence of gate operations and merges in which no witness that
    backs a moved member meets a revoked row of the other protocol
    ([members_always_backed]); where one does, the member can be left with no
    witness ([merge_loses_backing]). *)

From stdpp Require Import base gmap sets list strings sorting.
From Stdlib Require Import String Ascii ZArith QArith Lia.
From S2P Require Import Prelude PyText Chains Evidence EvidenceTheory Gate Admission ProtocolMerge GateTheory.

Local Open Scope string_scope.
Local Open Scope Z_scope.

(** ** The witness rows of a merge *)

Lemma rekey_protocol dst k : key_protocol (rekey dst k) = dst.
Proof. done. Qed.

Lemma rekey_inj src dst k k' : key_protocol k = src -> key_protocol k' = src -> rekey dst k = rekey dst k' -> k = k'.
Proof. destruct k as [[[c p] r] v], k' as [[[c' p'] r'] v']. unfold key_protocol, rekey. cbn. intros -> -> [= -> -> ->]. done. Qed.

Lemma witness_rows_elem pid t k w : (k, w) ∈ witness_rows_of pid t <-> t !! k = Some w /\ key_protocol k = pid.
Proof. unfold witness_rows_of. rewrite list_elem_of_filter, elem_of_map_to_list. unfold row_protocol, key_protocol. cbn. tauto. Qed.

Lemma witness_rows_nodup pid t : NoDup (witness_rows_of pid t).*1.
Proof.
  unfold witness_rows_of. apply NoDup_fmap_fst; [|apply NoDup_filter, NoDup_map_to_list]. intros k w1 w2.
  rewrite !list_elem_of_filter, !elem_of_map_to_list. intros [_ H1] [_ H2]. congruence.
Qed.

Section Rows.
Variables src dst : Z.
Hypothesis distinct : src <> dst.

Notation step := (merge_witness_row dst).

(** Rows of [src], each once. *)
Definition src_rows (l : list (witness_key * witness)) : Prop := NoDup l.*1 /\ Forall (fun row => key_protocol row.1 = src) l.

(** A row the list neither names nor moves onto stays. *)
Lemma merge_other l : forall t k, k ∉ l.*1 -> (forall row, row ∈ l -> rekey dst row.1 <> k) -> foldl step t l !! k = t !! k.
Proof.
  induction l as [|row l IH]; intros t k Hk Hr; [done|]. cbn [foldl]. apply not_elem_of_cons in Hk as [Hne Hk].
  rewrite IH; [|done|intros x Hx; apply Hr; by right]. unfold merge_witness_row.
  rewrite lookup_insert_ne by (apply Hr; by left). by rewrite lookup_delete_ne.
Qed.

(** A row of the list survives under the other protocol. *)
Lemma merge_moved l : forall t k w, src_rows l -> (k, w) ∈ l -> foldl step t l !! rekey dst k = Some (surviving_witness (t !! rekey dst k) w).
Proof.
  induction l as [|row l IH]; intros t k w [Hnd Hsrc] Hin; [by apply not_elem_of_nil in Hin|]. cbn [foldl].
  rewrite fmap_cons, NoDup_cons in Hnd. destruct Hnd as [Hnew Hnd]. apply Forall_cons in Hsrc as [Hs Hsrc].
  apply elem_of_cons in Hin as [<-|Hin].
  - rewrite merge_other.
    + unfold merge_witness_row. by rewrite lookup_insert_eq.
    + intros Hk. rewrite list_elem_of_fmap in Hk. destruct Hk as (x & Hx & Hin). rewrite Forall_forall in Hsrc. specialize (Hsrc x Hin).
      rewrite <- Hx, rekey_protocol in Hsrc. by symmetry in Hsrc.
    + intros x Hx E. rewrite Forall_forall in Hsrc. apply (rekey_inj src) in E; [|by apply Hsrc|done]. apply Hnew, list_elem_of_fmap. by exists x.
  - rewrite (IH _ _ _ (conj Hnd Hsrc) Hin). do 2 f_equal. unfold merge_witness_row. rewrite Forall_forall in Hsrc. specialize (Hsrc _ Hin) as Hk. cbn in Hk.
    rewrite lookup_insert_ne; [rewrite lookup_delete_ne; [done|]|].
    + intros E. rewrite E, rekey_protocol in Hs. by symmetry in Hs.
    + intros E. apply (rekey_inj src) in E; [|done|done]. apply Hnew. rewrite E. apply list_elem_of_fmap. by exists (k, w).
Qed.

(** Where a row after the merge comes from. *)
Lemma merge_origin l : forall t k w', src_rows l -> foldl step t l !! k = Some w' ->
  (t !! k = Some w' /\ k ∉ l.*1) \/ exists k0 w, (k0, w) ∈ l /\ k = rekey dst k0 /\ w' = surviving_witness (t !! k) w.
Proof.
  intros t k w' Hl Hk. destruct (decide (Exists (fun row => rekey dst row.1 = k) l)) as [He|He].
  - apply Exists_exists in He as ([k0 w] & Hin & <-). right. exists k0, w. cbn in *. rewrite (merge_moved l t k0 w Hl Hin) in Hk. by injection Hk as <-.
  - assert (forall row, row ∈ l -> rekey dst row.1 <> k) as Hr by (intros row Hin E; apply He, Exists_exists; by exists row).
    destruct (decide (k ∈ l.*1)) as [Hin|Hni]; [exfalso|left; by rewrite <- (merge_other l t k Hni Hr)].
    clear He. revert t Hk. destruct Hl as [Hnd Hsrc]. induction l as [|row l IH]; [by apply not_elem_of_nil in Hin|]. cbn [foldl]. intros t Hk.
    rewrite fmap_cons, NoDup_cons in Hnd. destruct Hnd as [Hnew Hnd]. apply Forall_cons in Hsrc as [Hs Hsrc].
    rewrite fmap_cons, elem_of_cons in Hin. destruct Hin as [->|Hin].
    + rewrite merge_other in Hk; [|done|intros x Hx; apply Hr; by right]. unfold merge_witness_row in Hk.
      rewrite lookup_insert_ne in Hk by (apply Hr; by left). by rewrite lookup_delete_eq in Hk.
    + eapply (IH Hnd Hsrc); [intros x Hx; apply Hr; by right|done|exact Hk].
Qed.
End Rows.

Lemma src_rows_of src t : src_rows src (witness_rows_of src t).
Proof. split; [apply witness_rows_nodup|]. apply Forall_forall. intros [k w] Hk. by apply witness_rows_elem in Hk as [_ ?]. Qed.

(** The surviving row has the id of one side and the evidence of one side. *)
Lemma surviving_cases o w : surviving_witness o w = w /\ o = None \/ exists d, o = Some d /\
  (surviving_witness o w = d /\ rearms d w = false \/
   surviving_witness o w = mkWitness (witness_id d) (evidence_ w) (observed_at w) None /\ rearms d w = true).
Proof. unfold surviving_witness. destruct o as [d|]; [|by left]. right. exists d. split; [done|]. destruct (rearms d w); [by right|by left]. Qed.

Lemma merge_table src dst t : src <> dst -> table_ok t -> table_ok (merge_witness_rows src dst t).
Proof.
  intros Hne (Hrows & Hn & Hinj). set (l := witness_rows_of src (witnesses t)).
  assert (forall k w', witnesses (merge_witness_rows src dst t) !! k = Some w' ->
    row_ok (next_id t) k w' /\ exists k1 w1, witnesses t !! k1 = Some w1 /\ witness_id w1 = witness_id w' /\ (k1 = k /\ k ∉ l.*1 \/ k = rekey dst k1 /\ k1 ∈ l.*1 /\ witnesses t !! k = None)) as H.
  { intros k w' Hk. destruct (merge_origin src dst Hne l _ _ _ (src_rows_of _ _) Hk) as [[Hk0 Hni]|(k0 & w & Hin & -> & ->)].
    { split; [by apply Hrows|]. exists k, w'. split_and!; [done|done|by left]. }
    pose proof Hin as [Hk0 Hsrc]%witness_rows_elem.
    assert (rekey dst k0 ∉ l.*1) as Hni.
    { intros ([k1 w1] & E & H1)%list_elem_of_fmap. cbn in E. apply witness_rows_elem in H1 as [_ H1]. rewrite <- E, rekey_protocol in H1. by symmetry in H1. }
    destruct (surviving_cases (witnesses t !! rekey dst k0) w) as [[-> Hnone]|(d & Hd & [[-> _]|[-> _]])].
    - split; [exact (Hrows _ _ Hk0)|]. exists k0, w. split_and!; [done|done|]. right. split_and!; [done| |done]. apply list_elem_of_fmap. by exists (k0, w).
    - split; [by apply Hrows|]. exists (rekey dst k0), d. split_and!; [done|done|by left].
    - split; [|exists (rekey dst k0), d; split_and!; [done|done|by left]].
      destruct (Hrows _ _ Hk0) as (A1 & A2 & A3 & _), (Hrows _ _ Hd) as (_ & _ & _ & A4). split_and!; try done; cbn; lia. }
  split_and!; [|done|].
  - intros k w' Hk. by apply H.
  - intros k k' w w' Hk Hk' Hid. destruct (H _ _ Hk) as (_ & k1 & w1 & H1 & I1 & C1), (H _ _ Hk') as (_ & k2 & w2 & H2 & I2 & C2).
    assert (k1 = k2) as <- by (eapply Hinj; [done|done|congruence]).
    destruct C1 as [[<- N1]|(-> & L1 & _)], C2 as [[<- N2]|(-> & L2 & _)]; done.
Qed.

(** ** Members *)

(** No witness that backs a moved member is dropped for a revoked row of the other
    protocol, and a code proof it shares names the same chain. *)
Definition merge_clean (src dst : Z) (g : gate) : Prop :=
  forall k w w' c, witnesses (table g) !! k = Some w -> row_active w -> key_protocol k = src ->
    contracts g !! key_contract k = Some c -> protocol_id c = Some src -> key_rule k = W1_CODE \/ admitting k w ->
    witnesses (table g) !! rekey dst k = Some w' ->
    (row_active w' \/ rearms w' w = true) /\ (row_active w' -> forall n, code_proof n k w -> code_proof n (rekey dst k) w').

Lemma merge_rows_contracts src dst g cid :
  contracts (merge_rows src dst g).2 !! cid = rewrite_contract src dst <$> contracts g !! cid.
Proof. unfold merge_rows. destruct (merge_deployer_rows _ _ _). cbn. apply lookup_fmap. Qed.

Lemma merge_rows_table src dst g : table (merge_rows src dst g).2 = merge_witness_rows src dst (table g).
Proof. unfold merge_rows. by destruct (merge_deployer_rows _ _ _). Qed.

(** An unrevoked row of another protocol stays as it is. *)
Lemma merge_keeps_other src dst t k w : src <> dst -> witnesses t !! k = Some w -> row_active w -> key_protocol k <> src ->
  witnesses (merge_witness_rows src dst t) !! k = Some w.
Proof.
  intros Hne Hk Ha Hp. cbn. destruct (decide (Exists (fun row => rekey dst row.1 = k) (witness_rows_of src (witnesses t)))) as [He|He].
  - apply Exists_exists in He as ([k1 w1] & Hin & E). cbn in E. subst k.
    rewrite (merge_moved src dst Hne _ _ k1 w1 (src_rows_of _ _) Hin), Hk. cbn. unfold rearms. by rewrite Ha.
  - rewrite merge_other; [done| |].
    + intros ([k1 w1] & -> & H1)%list_elem_of_fmap. by apply witness_rows_elem in H1 as [_ H1].
    + intros row Hrow E. apply He, Exists_exists. by exists row.
Qed.

(** A row that backs a member of [src] leaves one under [dst]. *)
Lemma merge_keeps_row src dst g k w c : src <> dst -> merge_clean src dst g -> witnesses (table g) !! k = Some w -> row_active w ->
  key_protocol k = src -> contracts g !! key_contract k = Some c -> protocol_id c = Some src -> key_rule k = W1_CODE \/ admitting k w ->
  exists w', witnesses (merge_witness_rows src dst (table g)) !! rekey dst k = Some w' /\ row_active w' /\
    forall n, code_proof n k w -> code_proof n (rekey dst k) w'.
Proof.
  intros Hne Hclean Hk Ha Hsrc Hc Hp Hr. exists (surviving_witness (witnesses (table g) !! rekey dst k) w). split.
  { apply (merge_moved src); [done|apply src_rows_of|]. by apply witness_rows_elem. }
  destruct (surviving_cases (witnesses (table g) !! rekey dst k) w) as [[-> _]|(d & Hd & [[-> Hf]|[-> _]])]; [done| |done].
  destruct (Hclean k w d c Hk Ha Hsrc Hc Hp Hr Hd) as [[Had|Hre] Hcode]; [|congruence]. split; [done|by apply Hcode].
Qed.

Definition merged_id (src dst pid : Z) : Z := if decide (pid = src) then dst else pid.

Lemma merge_has_active src dst g c pid (P : witness_key -> witness -> Prop) : src <> dst -> merge_clean src dst g ->
  contracts g !! c_id c = Some c -> protocol_id c = Some pid ->
  (forall k w, P k w -> key_rule k = W1_CODE \/ admitting k w) ->
  (forall k w w', P k w -> (forall n, code_proof n k w -> code_proof n (rekey dst k) w') -> P (rekey dst k) w') ->
  has_active P (c_id c) pid g -> has_active P (c_id c) (merged_id src dst pid) (merge_rows src dst g).2.
Proof.
  intros Hne Hclean Hc Hp HP Hkeep (k & w & Hk & Ha & Ec & Ep & HPk). unfold has_active, merged_id. rewrite merge_rows_table. case_decide as Hs.
  - assert (key_protocol k = src) as Hks by congruence. rewrite Hs in Hp. destruct (merge_keeps_row src dst g k w c Hne Hclean Hk Ha) as (w' & Hk' & Ha' & Hcode); [done|by rewrite Ec|done|by apply HP|].
    exists (rekey dst k), w'. split_and!; try done. by eapply Hkeep.
  - exists k, w. split_and!; try done. apply merge_keeps_other; try done. congruence.
Qed.

(** The rows of a clean merge leave a gate in order. *)
Lemma merge_rows_ok src dst g : src <> dst -> 0 < dst -> merge_clean src dst g -> gate_ok g -> gate_ok (merge_rows src dst g).2.
Proof.
  intros Hne Hpos Hclean Hg. constructor.
  - intros cid c'. rewrite merge_rows_contracts. destruct (contracts g !! cid) as [c|] eqn:Ec; [|done]. intros [= <-]. exact (gate_keys _ _ Hg _ _ Ec).
  - rewrite merge_rows_table. by apply merge_table, (gate_table _ _ Hg).
  - intros cid c' pid'. rewrite merge_rows_contracts. destruct (contracts g !! cid) as [c|] eqn:Ec; [|done]. intros [= <-]. cbn [protocol_id rewrite_contract set_membership].
    intros Hp. assert (exists pid, protocol_id c = Some pid /\ pid' = merged_id src dst pid) as (pid & Hpid & ->).
    { unfold moved_id, merged_id in *. case_decide as Hs; [exists src; rewrite decide_True by done; naive_solver|].
      exists pid'. rewrite decide_False by congruence. done. }
    pose proof (gate_keys _ _ Hg _ _ Ec) as Eid. destruct (gate_members _ _ Hg cid c pid Ec Hpid) as [Hp0 Hslot (n & Hn & Hcode) Hadm].
    rewrite <- Eid in Ec. constructor; cbn.
    + unfold merged_id. by case_decide.
    + unfold merged_id, moved_id. destruct Hslot as [-> | ->]; [left; by rewrite decide_False|right].
      case_decide as H1; [injection H1 as ->; by rewrite decide_True|]. rewrite decide_False by congruence. done.
    + exists n. split; [done|]. eapply merge_has_active; [done|done|done|done| | |exact Hcode].
      * intros k w [? _]. by left.
      * intros k w w' HPk Hk. by apply Hk.
    + right. destruct Hadm as [[]|Hadm]. eapply merge_has_active; [done|done|done|done|intros; by right|done|exact Hadm].
Qed.

(** ** The cascade of a merge *)

Section Steps.
Variable gc : string -> option string.

(** Memberships only end, each in a nomination. *)
Definition only_ends (g g' : gate) : Prop := forall cid c, contracts g !! cid = Some c -> exists c', contracts g' !! cid = Some c' /\
  (protocol_id c' = protocol_id c \/ protocol_id c' = None /\ nominated_protocol_id c' <> None).

Lemma only_ends_refl g g' : contracts g' = contracts g -> only_ends g g'.
Proof. intros E cid c Hc. exists c. rewrite E. auto. Qed.

Lemma only_ends_trans g1 g2 g3 : only_ends g1 g2 -> only_ends g2 g3 -> (forall cid c, contracts g2 !! cid = Some c -> protocol_id c = None ->
  nominated_protocol_id c <> None -> exists c', contracts g3 !! cid = Some c' /\ nominated_protocol_id c' <> None) -> only_ends g1 g3.
Proof.
  intros H1 H2 Hn cid c Hc. destruct (H1 cid c Hc) as (c2 & Hc2 & M1). destruct (H2 cid c2 Hc2) as (c3 & Hc3 & M2). exists c3. split; [done|].
  destruct M1 as [E1|[E1 N1]], M2 as [E2|[E2 N2]]; [left; congruence|by right|right|by right]. split; [congruence|].
  destruct (Hn cid c2 Hc2 E1 N1) as (c' & Hc' & N'). congruence.
Qed.

Lemma demote_ends pid addr reason now g rv dm g' : gate_ok g -> demote gc pid addr reason now g = Some (Some (rv, dm, g')) ->
  gate_ok g' /\ only_ends g g' /\ (forall cid c, contracts g !! cid = Some c -> protocol_id c = None ->
    nominated_protocol_id c <> None -> exists c', contracts g' !! cid = Some c' /\ nominated_protocol_id c' <> None).
Proof.
  intros Hg H. destruct (demote_spec gc pid addr reason now g (gate_keys _ _ Hg)) as [_ Hd].
  destruct (Hd _ _ _ H) as ((rv' & dm' & Hst & _) & Hok & _). apply cascade_report in Hst. pose proof (casc_contracts _ _ _ Hst) as Hc. cbn in Hc.
  destruct (revoke_registry_table pid addr reason now g) as (_ & E & _). rewrite E in Hc. split; [auto|]. split.
  - intros cid c Hcid. destruct (Hc cid) as [Eq|(c0 & p & H0 & _ & Eq)]; [exists c; rewrite Eq; auto|]. eexists. split; [exact Eq|]. right. by cbn.
  - intros cid c Hcid Hp Hn. destruct (Hc cid) as [Eq|(c0 & p & H0 & _ & Eq)]; [exists c; rewrite Eq; auto|]. eexists. split; [exact Eq|]. by cbn.
Qed.

Lemma demote_merged_spec dst addrs now : forall g, gate_ok g ->
  demote_merged gc dst addrs now g <> Some None /\
  forall g', demote_merged gc dst addrs now g = Some (Some g') -> gate_ok g' /\ only_ends g g' /\
    (forall cid c, contracts g !! cid = Some c -> protocol_id c = None -> nominated_protocol_id c <> None ->
       exists c', contracts g' !! cid = Some c' /\ nominated_protocol_id c' <> None).
Proof.
  induction addrs as [|a addrs IH]; intros g Hg; cbn [demote_merged].
  { split; [done|]. intros g' [= <-]. split; [done|]. split; [by apply only_ends_refl|eauto]. }
  destruct (demote gc dst a _ now g) as [[[[rv dm] g1]|]|] eqn:Ed; cbn [mbind option_bind].
  - destruct (demote_ends _ _ _ _ _ _ _ _ Hg Ed) as (Hg1 & He & Hn). destruct (IH g1 Hg1) as [Hend Hok]. split; [done|]. intros g' Hg'.
    destruct (Hok g' Hg') as (H1 & H2 & H3). split; [done|]. split; [by eapply only_ends_trans|].
    intros cid c Hc Hp HN. destruct (He cid c Hc) as (c1 & Hc1 & Hm). destruct (Hn cid c Hc Hp HN) as (c1' & Hc1' & HN1).
    rewrite Hc1 in Hc1'. injection Hc1' as <-. apply (H3 cid c1); [done| |done]. destruct Hm as [?|[? _]]; congruence.
  - destruct (demote_spec gc dst a "protocol_merge_revoked_deployer" now g (gate_keys _ _ Hg)) as [Hend _]. by destruct Hend.
  - done.
Qed.

(** A merge always ends; a clean one leaves a gate in order, in which the members
    of [src] are members of [dst] or nominated to a protocol. *)
Lemma merge_protocol_spec src dst now g : 0 < dst -> merge_clean src dst g -> gate_ok g ->
  merge_protocol_into gc src dst now g <> Some None /\
  forall g', merge_protocol_into gc src dst now g = Some (Some g') -> gate_ok g' /\ (src <> dst -> only_ends (merge_rows src dst g).2 g').
Proof.
  intros Hpos Hclean Hg. unfold merge_protocol_into. case_decide as Hne.
  { split; [done|]. intros g' [= <-]. split; [done|]. done. }
  pose proof (merge_rows_ok src dst g Hne Hpos Hclean Hg) as Hok. destruct (merge_rows src dst g) as [cascade g1]. cbn in Hok.
  destruct (demote_merged_spec dst cascade now g1 Hok) as [Hend Hres].
  destruct (demote_merged gc dst cascade now g1) as [[g2|]|]; [|done|done]. destruct (Hres g2 eq_refl) as (Hg2 & He & _).
  split; [done|]. intros g' [= <-]. set (moved_members := bool_decide _).
  split; [by destruct moved_members; apply (gate_but_same _ g2)|]. intros _. destruct moved_members; exact He.
Qed.

(** ** Every operation, merges included *)

Inductive protocol_step : gate -> gate -> Prop :=
  | by_gate g g' : gate_step gc g g' -> protocol_step g g'
  | by_merge src dst now g g' : 0 < dst -> merge_clean src dst g -> merge_protocol_into gc src dst now g = Some (Some g') -> protocol_step g g'.

Lemma protocol_steps_ok g g' : rtc protocol_step g g' -> gate_ok g -> gate_ok g'.
Proof.
  induction 1 as [|x y z [g1 g2 Hs|src dst now g1 g2 Hpos Hclean Hm] _ IH]; [done| |]; intros Hg; apply IH.
  - by apply (gate_step_spec gc g1).
  - by apply (merge_protocol_spec src dst now g1 Hpos Hclean Hg).
Qed.

(** ** A member that a merge leaves without a witness *)

Lemma merge_drops_row src dst t k w : src <> dst -> witnesses (merge_witness_rows src dst t) !! k = Some w -> row_active w -> key_protocol k = dst ->
  (witnesses t !! k = Some w) \/ exists k0 w0, witnesses t !! k0 = Some w0 /\ row_active w0 /\ key_protocol k0 = src /\ k = rekey dst k0 /\
    (witnesses t !! k = None \/ exists d, witnesses t !! k = Some d /\ rearms d w0 = true).
Proof.
  intros Hne Hk Ha Hp. destruct (merge_origin src dst Hne _ _ _ _ (src_rows_of _ _) Hk) as [[? _]|(k0 & w0 & Hin & -> & ->)]; [by left|].
  apply witness_rows_elem in Hin as [Hk0 Hsrc]. destruct (surviving_cases (witnesses t !! rekey dst k0) w0) as [[E Hnone]|(d & Hd & [[E _]|[E Hre]])]; rewrite E in *.
  - right. exists k0, w0. split_and!; try done. by left.
  - left. done.
  - right. exists k0, w0. split_and!; try done; [|right; by exists d]. unfold rearms in Hre. unfold row_active. destruct (revoked_at d), (revoked_at w0); done.
Qed.

End Steps.

(** ** Claims *)


(** C29: a merge can leave a member without a witness.  When each unrevoked admitting
    witness of a member of the merged protocol shares its key with a row of the
    other protocol revoked at or after its observation, that protocol has no
    unrevoked admitting witness for it already, and no deployer is to be demoted,
    the merged gate has the row as a member of the other protocol with no
    unrevoked admitting witness. *)
Theorem merge_loses_backing gc src dst now g g' c : src <> dst ->
  contracts g !! c_id c = Some c -> protocol_id c = Some src ->
  (forall k w, witnesses (table g) !! k = Some w -> row_active w -> key_contract k = c_id c -> key_protocol k = src -> admitting k w ->
     exists w' t, witnesses (table g) !! rekey dst k = Some w' /\ revoked_at w' = Some t /\ observed_at w <= t) ->
  ~ has_active admitting (c_id c) dst g -> (merge_rows src dst g).1 = [] -> merge_protocol_into gc src dst now g = Some (Some g') ->
  member_of g' (c_id c) dst /\ ~ has_active admitting (c_id c) dst g'.
Proof.
  intros Hne Hc Hp Hlost Hno Hnil Hm. unfold merge_protocol_into in Hm. rewrite decide_False in Hm by done.
  pose proof (merge_rows_contracts src dst g (c_id c)) as Ec. pose proof (merge_rows_table src dst g) as Et.
  destruct (merge_rows src dst g) as [cascade g1]. cbn in Hnil, Ec, Et. subst cascade. cbn in Hm. injection Hm as Hm.
  assert (contracts g' = contracts g1 /\ table g' = table g1) as [E1 E2] by (subst g'; by destruct (bool_decide _)). clear Hm.
  unfold member_of, has_active. rewrite E1, E2, Ec, Et, Hc. split.
  - exists (rewrite_contract src dst c). split; [done|]. cbn. unfold moved_id. by rewrite Hp, decide_True.
  - intros (k & w & Hk & Ha & Hkc & Hkp & Hadm).
    destruct (merge_drops_row src dst (table g) k w Hne Hk Ha Hkp) as [Hk0|(k0 & w0 & Hk0 & Ha0 & Hsrc & -> & Hcase)]; [by apply Hno; exists k, w|].
    destruct (Hlost k0 w0 Hk0 Ha0 Hkc Hsrc Hadm) as (w' & t & Hw' & Hr & Hle). destruct Hcase as [?|(d & Hd & Hre)]; [congruence|].
    assert (d = w') as -> by congruence. unfold rearms in Hre. rewrite Hr, Ha0 in Hre. apply Z.ltb_lt in Hre. lia.
Qed.

(** *** The protocol of [demo], found under another id *)

Definition demo_gate : gate := default (empty_gate demo_facts) demo.

Definition demo_merged : gate := default demo_gate (r ← merge_protocol_into no_claims 7 8 300 demo_gate; r).

Lemma demo_gate_steps : rtc (protocol_step no_claims) (empty_gate demo_facts) demo_gate.
Proof.
  unfold demo_gate. destruct demo_runs as [g Hg]. pose proof (demo_reachable g Hg) as H. rewrite Hg. cbn [default].
  clear Hg. induction H as [|x y z Hs _ IH]; [apply rtc_refl|]. eapply rtc_l; [by apply by_gate|done].
Qed.

Lemma demo_merge_clean : merge_clean 7 8 demo_gate.
Proof.
  intros k w w' c Hk Ha Hs Hc Hp Hr Hw'. exfalso.
  assert (bool_decide (map_Forall (fun k _ => key_protocol k <> 8) (witnesses (table demo_gate))) = true) as H by (vm_compute; reflexivity).
  apply bool_decide_eq_true in H. by apply (H _ _ Hw').
Qed.


(** Row 1, asserted for protocol 7 at 95, was a member of protocol 8 until 200. *)
Definition demo_assertion : jval := default JNone (evidence_ <$> witnesses (table demo_gate) !! (1, 7, W5_HUMAN, None)).
Definition demo_revoked : gate :=
  put_table (mkTable (<[(1, 8, W5_HUMAN, None) := mkWitness 9 demo_assertion 90 (Some 200)]> (witnesses (table demo_gate))) 10) demo_gate.

Definition demo_unbacked : gate := default demo_revoked (r ← merge_protocol_into no_claims 7 8 300 demo_revoked; r).

Lemma merge_loses_backing_witness : member_of demo_unbacked 1 8 /\ ~ has_active admitting 1 8 demo_unbacked.
Proof.
  assert ((c ← contracts demo_revoked !! 1; protocol_id c) = Some 7) as Ep by (vm_compute; reflexivity).
  assert (c_id <$> contracts demo_revoked !! 1 = Some 1) as Ei by (vm_compute; reflexivity).
  destruct (contracts demo_revoked !! 1) as [c|] eqn:Ec; [|discriminate Ep]. cbn in Ep, Ei. injection Ei as Ei.
  assert (bool_decide (map_Forall (fun k w => key_contract k = 1 -> key_protocol k = 7 -> key_rule k ∈ ADMITTING_WITNESS_RULES -> k = (1, 7, W5_HUMAN, None) /\ observed_at w = 95)
    (witnesses (table demo_revoked))) = true) as H7 by (vm_compute; reflexivity).
  assert (bool_decide (map_Forall (fun k w => key_contract k = 1 -> key_protocol k = 8 -> revoked_at w <> None) (witnesses (table demo_revoked))) = true) as H8
    by (vm_compute; reflexivity).
  apply bool_decide_eq_true in H7, H8. rewrite <- Ei.
  apply (merge_loses_backing no_claims 7 8 300 demo_revoked demo_unbacked c); [discriminate|rewrite Ei; exact Ec|exact Ep| | |vm_compute; reflexivity|].
  - intros k w Hk _ Hkc Hkp Hadm. rewrite Ei in Hkc. destruct (H7 k w Hk Hkc Hkp Hadm) as [-> Ho].
    exists (mkWitness 9 demo_assertion 90 (Some 200)), 200. split; [vm_compute; reflexivity|]. split; [reflexivity|]. rewrite Ho. discriminate.
  - intros (k & w & Hk & Ha & Hkc & Hkp & _). rewrite Ei in Hkc. exact (H8 k w Hk Hkc Hkp Ha).
  - assert (bool_decide (is_Some (mjoin (merge_protocol_into no_claims 7 8 300 demo_revoked) : option gate)) = true) as Hn by (vm_compute; reflexivity).
    unfold demo_unbacked. destruct (merge_protocol_into no_claims 7 8 300 demo_revoked) as [[g|]|]; [reflexivity|discriminate Hn|discriminate Hn].
Defined.
