(* ===== verification/GateChains.v ===== *)
(** * Anchor chains are grounded

    [transitivity.py] lets a controller whose own membership rests on what it
    controls admit further rows only when a chain of stored controller links
    leads to an anchor that does not rest on the chain.  Here the anchor is given
    a meaning apart from the search: [grounds] is a finite derivation from a
    witness that needs no other member, through the members the witnesses name.
    The search finds only such anchors, never returns to an address, stays within
    its depth, and what is recorded of it always passes the evidence validation. *)

From stdpp Require Import base gmap sets list strings sorting.
From Stdlib Require Import String Ascii ZArith QArith Lia.
From S2P Require Import Prelude PyText Chains Evidence EvidenceTheory Gate Admission GateTheory.

Local Open Scope string_scope.
Local Open Scope Z_scope.

(** ** Generic *)

Lemma head_omap_inv {A B} (f : A -> option B) l y : head (omap f l) = Some y -> exists x, x ∈ l /\ f x = Some y.
Proof.
  intros H. apply head_Some_elem_of in H. apply list_elem_of_omap in H. naive_solver.
Qed.

Lemma head_omap_none {A B} (f : A -> option B) l : head (omap f l) = None -> forall x, x ∈ l -> f x = None.
Proof.
  intros H x Hx. destruct (f x) as [y|] eqn:E; [exfalso|done]. apply head_None in H.
  assert (y ∈ omap f l) as Hy by (apply list_elem_of_omap; eauto). rewrite H in Hy. by apply not_elem_of_nil in Hy.
Qed.

Lemma min_text_elem l r : min_text l = Some r -> r ∈ l.
Proof. intros H. apply head_Some_elem_of in H. by rewrite merge_sort_Permutation in H. Qed.

Lemma existsb_elem {A} (p : A -> bool) l : existsb p l = true <-> exists x, x ∈ l /\ p x = true.
Proof. rewrite existsb_exists. setoid_rewrite list_elem_of_In. done. Qed.

Lemma contracts_where_elem p g c : c ∈ contracts_where p g <-> (exists cid, contracts g !! cid = Some c) /\ p c = true.
Proof.
  unfold contracts_where. rewrite list_elem_of_In, filter_In, <- list_elem_of_In, merge_sort_Permutation, list_elem_of_fmap. apply and_iff_compat_r. split.
  - intros ([cid c'] & -> & H). exists cid. by apply elem_of_map_to_list in H.
  - intros [cid H]. exists (cid, c). split; [done|]. by apply elem_of_map_to_list.
Qed.

Lemma member_rows_elem g pid addr key m : m ∈ member_rows_at g pid addr key <->
  (exists cid, contracts g !! cid = Some m) /\ is_member pid m = true /\ str_lower (address m) = addr /\ on_chain key m = true /\
  member_for_evidence g (c_id m) pid = true.
Proof.
  unfold member_rows_at. rewrite list_elem_of_In, filter_In, <- list_elem_of_In, contracts_where_elem, !andb_true_iff, String.eqb_eq. naive_solver.
Qed.

Lemma flat_map_elem {A B} (f : A -> list B) l y : y ∈ flat_map f l <-> exists x, x ∈ l /\ y ∈ f x.
Proof. rewrite list_elem_of_In, in_flat_map. setoid_rewrite list_elem_of_In. done. Qed.

Section Chains.
Variable grant_class_of : string -> option string.

(** ** Grounded members *)

(** A member's admission, traced to a witness that names no member: the vias on
    the way. *)
Inductive grounds (g : gate) (pid : Z) : Z -> list string -> Prop :=
  | ground_direct cid kw :
      kw ∈ rows_of g cid pid -> anchors_ladder kw = true -> low (row_via kw) = "" -> grounds g pid cid []
  | ground_registry cid kw :
      kw ∈ rows_of g cid pid -> anchors_ladder kw = true -> row_rule kw = W4_DEPLOYER -> low (row_via kw) <> "" ->
      grounds g pid cid [low (row_via kw)]
  | ground_member cid c kw m trail :
      contracts g !! cid = Some c -> kw ∈ rows_of g cid pid -> anchors_ladder kw = true -> low (row_via kw) <> "" ->
      m ∈ member_rows_at g pid (low (row_via kw)) (chain_key (c_chain c)) -> c_id m <> cid -> grounds g pid (c_id m) trail ->
      grounds g pid cid (low (row_via kw) :: trail).

Lemma independent_sound budget g cid pid blocked r : independent_anchor_rule budget g cid pid blocked = Some r ->
  r ∈ ADMITTING_WITNESS_RULES /\ exists trail, grounds g pid cid trail /\ NoDup trail /\ (List.length trail <= S budget)%nat /\
  forall a, a ∈ trail -> a ∉ blocked.
Proof.
  revert cid blocked r. induction budget as [|budget IH]; intros cid blocked r; cbn [independent_anchor_rule].
  all: destruct (contracts g !! cid) as [c|] eqn:Ec; cbn [mbind option_bind]; [|done].
  all: intros H; apply min_text_elem, list_elem_of_fmap in H as (kw & -> & Hkw); apply list_elem_of_In, filter_In in Hkw as [Hkw Ha].
  all: apply list_elem_of_In in Hkw; apply andb_true_iff in Ha as [Hl Ha]; fold (anchors_ladder kw) in Hl.
  all: split; [by apply andb_true_iff in Hl as [Hl _]; apply andb_true_iff in Hl as [Hl _]; apply bool_decide_eq_true in Hl|].
  all: destruct (String.eqb (low (row_via kw)) "") eqn:Ev; [apply String.eqb_eq in Ev; exists []; split_and!;
    [by eapply ground_direct|constructor|cbn; lia|by intros a ?%not_elem_of_nil]|].
  all: apply String.eqb_neq in Ev; case_bool_decide as Eb; [done|].
  all: destruct (String.eqb (row_rule kw) W4_DEPLOYER) eqn:Er; [apply String.eqb_eq in Er; exists [low (row_via kw)]; split_and!;
    [by eapply ground_registry|apply NoDup_singleton|cbn; lia|by intros a ->%list_elem_of_singleton]|].
  1: done.
  apply existsb_elem in Ha as (m & Hm & Hi). apply andb_true_iff in Hi as [Hid Hi]. apply bool_decide_eq_true in Hi as [r' Hi].
  destruct (IH _ _ _ Hi) as (_ & trail & Hg & Hnd & Hlen & Hfree). exists (low (row_via kw) :: trail). split_and!.
  - eapply ground_member; try done. apply negb_true_iff, Z.eqb_neq in Hid. done.
  - constructor; [|done]. intros Hin. apply (Hfree _ Hin). set_solver.
  - cbn. lia.
  - intros a [->|Hin]%elem_of_cons; [done|]. specialize (Hfree a Hin). set_solver.
Qed.

(** ** Chains *)

Definition link_at (fl : string * controller_link) : string := l_address fl.2.

(** One link: stored for the controller, at no address proven foreign, from an
    address that controls no foreign row. *)
Definition link_stored (g : gate) (pid : Z) (controller : contract) (fl : string * controller_link) : Prop :=
  fl.1 = str_lower (address controller) /\ fl.2 ∈ own_controller_links g pid controller /\
  address_proven_foreign g pid (link_at fl) = false /\ controls_a_foreign_row g pid fl.1 = false.

(** What a terminal address rests on, apart from the addresses of [avoid]. *)
Definition anchored_at (g : gate) (pid : Z) (key : string) (avoid : gset string) (kind : string) (l : controller_link) : Prop :=
  exists cid trail, grounds g pid cid trail /\ NoDup trail /\ (forall a, a ∈ trail -> a ∉ avoid) /\
    (kind = "member" /\ (exists m, m ∈ member_rows_at g pid (l_address l) key /\ c_id m = cid) \/
     kind = "perimeter_principal" /\ l_kind l ∉ W3_SET_VALUED_LINK_KINDS /\
       exists x, x ∈ perimeter_fact_candidates grant_class_of g pid (l_address l) /\ x.1.1 <> PSafeOwner /\ x.2 = cid).

(** The links from a controller: the last one ends at the anchor, the others go
    through a member, by a link that names one controller. *)
Fixpoint chain_stored (g : gate) (pid : Z) (key : string) (avoid : gset string) (controller : contract) (links : list (string * controller_link))
    (anchor kind : string) : Prop :=
  match links with
  | [] => False
  | fl :: rest =>
      link_stored g pid controller fl /\
      match rest with
      | [] => anchor = link_at fl /\ anchored_at g pid key avoid kind fl.2
      | _ => l_kind fl.2 ∉ W3_SET_VALUED_LINK_KINDS /\
             exists m, m ∈ member_rows_at g pid (link_at fl) key /\ chain_stored g pid key (avoid ∪ {[link_at fl]}) m rest anchor kind
      end
  end.

Lemma link_root_inv g pid l key avoid nested r :
  link_root grant_class_of g pid (l_address l) key avoid (bool_decide (l_kind l ∈ W3_SET_VALUED_LINK_KINDS)) nested = Some r ->
  (chain_links r = [] /\ chain_anchor r = l_address l /\ anchored_at g pid key avoid (chain_anchor_kind r) l /\
   chain_anchor_kind r ∈ W3_ANCHOR_KINDS /\ chain_anchor_rule r ∈ ADMITTING_WITNESS_RULES) \/
  (l_kind l ∉ W3_SET_VALUED_LINK_KINDS /\ exists f m, nested = Some f /\ m ∈ member_rows_at g pid (l_address l) key /\ f m = Some r).
Proof.
  unfold link_root. destruct (head _) as [rule|] eqn:E1.
  { intros [= <-]. left. apply head_omap_inv in E1 as (m & Hm & Hi). destruct (independent_sound _ _ _ _ _ _ Hi) as (Hr & trail & Hg & Hnd & _ & Hfree).
    split_and!; try done; [|by left]. exists (c_id m), trail. split_and!; try done. left. split; [done|]. by exists m. }
  case_bool_decide as Ek; [done|]. destruct (perimeter_anchor _ _ _ _ _) as [rule|] eqn:E2.
  { intros [= <-]. left. apply head_omap_inv in E2 as (x & Hx & Hi). destruct (x.1.1) eqn:Exk; try done;
      (destruct (independent_sound _ _ _ _ _ _ Hi) as (Hr & trail & Hg & Hnd & _ & Hfree); split_and!; try done; [|by right; left];
       exists x.2, trail; split_and!; try done; right; split_and!; [done|done|]; exists x; rewrite Exk; done). }
  destruct nested as [f|]; [|done]. intros H. right. split; [done|]. apply head_omap_inv in H as (m & Hm & Hf). by exists f, m.
Qed.

Lemma chain_for_sound budget g pid controller key avoid ch : anchor_chain_for grant_class_of budget g pid controller key avoid = Some ch ->
  chain_stored g pid key avoid controller (chain_links ch) (chain_anchor ch) (chain_anchor_kind ch) /\
  NoDup (map link_at (chain_links ch)) /\ (forall a, a ∈ map link_at (chain_links ch) -> a ∉ avoid) /\
  (List.length (chain_links ch) <= budget)%nat /\ chain_anchor_kind ch ∈ W3_ANCHOR_KINDS /\ chain_anchor_rule ch ∈ ADMITTING_WITNESS_RULES.
Proof.
  revert controller avoid ch. induction budget as [|budget IH]; intros controller avoid ch; cbn [anchor_chain_for]; [done|].
  destruct (existsb _ _) eqn:Eforeign; [done|]. destruct (head (omap _ _)) as [ch'|] eqn:Eh; [|done].
  destruct (controls_a_foreign_row _ _ _) eqn:Ectl; [done|]. intros [= ->]. apply head_omap_inv in Eh as (l & Hl & Hroot).
  case_bool_decide as Ein; [done|]. destruct (link_root _ _ _ _ _ _ _ _) as [r|] eqn:Er; cbn [mbind option_bind] in Hroot; [|done].
  injection Hroot as <-. cbn [chain_links chain_anchor chain_anchor_kind chain_anchor_rule].
  assert (link_stored g pid controller (str_lower (address controller), l)) as Hst.
  { split_and!; try done. cbn. apply not_true_iff_false. intros Hf. rewrite <- not_true_iff_false in Eforeign. apply Eforeign, existsb_elem. by exists l. }
  apply link_root_inv in Er as [(El & Ea & Hanch & Hk & Hr)|(Hk & f & m & Enest & Hm & Hf)].
  - rewrite El. cbn. split_and!; try done; [apply NoDup_singleton|by intros a ->%list_elem_of_singleton|lia].
  - destruct budget as [|budget']; [done|]. injection Enest as <-. destruct (IH _ _ _ Hf) as (Hch & Hnd & Hfree & Hlen & Hkind & Hrule).
    destruct (chain_links r) as [|fl rest] eqn:El; [by cbn in Hch|]. split_and!; try done.
    + cbn [chain_stored]. split; [done|]. split; [done|]. exists m. by split.
    + cbn [map]. constructor; [|done]. intros Hin. apply (Hfree _ Hin). cbn. set_solver.
    + cbn [map]. intros a [->|Hin]%elem_of_cons; [done|]. specialize (Hfree a Hin). set_solver.
    + cbn [List.length] in *. lia.
Qed.

(** ** Recorded chains *)

(** Stored addresses and role hashes are hex texts. *)
Definition rows_hex (g : gate) : Prop :=
  (forall cid c, contracts g !! cid = Some c -> is_address_text (address c) = true) /\
  (forall r, r ∈ role_planes (stored g) -> hex_re 64 (role_hash r) = true).

Lemma text_lower_address s : is_address_text s = true -> is_address (str_lower s).
Proof. intros H. split; [by apply hex_re_spec, hex_re_lower|apply str_lower_idemp]. Qed.

Lemma text_lower_hash s : hex_re 64 s = true -> is_hash (str_lower s).
Proof. intros H. split; [by apply hex_re_spec, hex_re_lower|apply str_lower_idemp]. Qed.

Lemma add_link_inv own kind v detail l : l ∈ add_link own kind v detail -> l_kind l = kind /\ l_detail l = detail /\ is_address (l_address l).
Proof.
  unfold add_link. destruct v; try by intros ?%not_elem_of_nil. destruct (_ && _) eqn:E; [|by intros ?%not_elem_of_nil].
  intros ->%list_elem_of_singleton. apply andb_true_iff in E as [E _]. apply andb_true_iff in E as [E _]. split_and!; [done|done|by apply text_lower_address].
Qed.

Definition link_kind_ok (k : LinkKind) : Prop := match k with RoleHolder r => is_hash r | SafeSigner s => is_address s | _ => True end.

Lemma own_link_typed g pid controller l : rows_hex g -> (exists cid, contracts g !! cid = Some controller) -> l ∈ own_controller_links g pid controller ->
  is_address (l_address l) /\ exists k, kind_text k = (l_kind l, l_detail l) /\ link_kind_ok k.
Proof.
  intros [Hadr Hrole] [cid Hc] Hl. unfold own_controller_links in Hl. rewrite merge_sort_Permutation, elem_of_remove_dups, !elem_of_app in Hl.
  destruct Hl as [Hl|[Hl|[Hl|[Hl|Hl]]]].
  - apply flat_map_elem in Hl as (cv & _ & Hl). apply add_link_inv in Hl as (-> & -> & Ha). split; [done|]. by exists OwnerOrAuthority.
  - apply add_link_inv in Hl as (-> & -> & Ha). split; [done|]. by exists ProxyAdminLink.
  - apply flat_map_elem in Hl as (v & _ & Hl). apply add_link_inv in Hl as (-> & -> & Ha). split; [done|]. by exists ProbeRead.
  - destruct (chain_id_for_chain_name _); [|by apply not_elem_of_nil in Hl]. destruct (String.eqb _ _); [by apply not_elem_of_nil in Hl|].
    apply flat_map_elem in Hl as (r & Hr & Hl). apply flat_map_elem in Hl as (h & _ & Hl). apply add_link_inv in Hl as (-> & -> & Ha). split; [done|].
    exists (RoleHolder (str_lower (role_hash r))). split; [done|]. apply text_lower_hash, Hrole. apply list_elem_of_In, filter_In in Hr as [Hr _]. by apply list_elem_of_In.
  - destruct (String.eqb _ _); [by apply not_elem_of_nil in Hl|]. apply flat_map_elem in Hl as (v & _ & Hl). apply add_link_inv in Hl as (-> & -> & Ha).
    split; [done|]. exists (SafeSigner (str_lower (address controller))). split; [done|]. by apply text_lower_address, (Hadr cid).
Qed.

Lemma link_typed g pid controller fl : rows_hex g -> (exists cid, contracts g !! cid = Some controller) -> link_stored g pid controller fl ->
  exists L, encode_link L = link_json fl /\ link_ok L /\ link_address L = link_at fl.
Proof.
  intros Hhex [cid Hc] (Ef & Hl & _). destruct (own_link_typed _ _ _ _ Hhex (ex_intro _ cid Hc) Hl) as (Ha & k & Ek & Hk).
  exists (mkLink fl.1 (l_address fl.2) k). unfold encode_link, link_json. cbn. rewrite Ek. split_and!; try done. split_and!; try done. cbn.
  rewrite Ef. by apply text_lower_address, (proj1 Hhex cid).
Qed.

Lemma chain_typed g pid key avoid controller links anchor kind : rows_hex g -> (exists cid, contracts g !! cid = Some controller) ->
  chain_stored g pid key avoid controller links anchor kind ->
  links <> [] /\ is_address anchor /\ exists Ls, map encode_link Ls = map link_json links /\ Forall link_ok Ls.
Proof.
  intros Hhex. revert avoid controller. induction links as [|fl rest IH]; intros avoid controller Hc Hch; [done|]. split; [done|].
  destruct Hch as [Hst Hch]. destruct (link_typed _ _ _ _ Hhex Hc Hst) as (L & EL & HL & Ea). destruct rest as [|fl' rest].
  - destruct Hch as [-> _]. rewrite <- Ea. split; [apply HL|]. exists [L]. cbn. rewrite EL. split; [done|by constructor].
  - destruct Hch as (_ & m & Hm & Hch). apply member_rows_elem in Hm as (Hm & _). destruct (IH _ m Hm Hch) as (_ & Hanch & Ls & E & HF).
    split; [done|]. exists (L :: Ls). cbn in *. rewrite EL, E. split; [done|by constructor].
Qed.

(** The typed value a proof is recorded as. *)
Definition recorded_as (proof : transitivity_proof) (T : Transitivity) : Prop :=
  match proof, T with
  | (IndependentWitness | D2Exclusive), OnItsOwn => True
  | ByAnchorChain ch, Anchored a => encode_anchor a = chain_json ch /\ anchor_ok a
  | ByPerimeterPrincipal f, ByPrincipal F => encode_fact F = f /\ fact_ok F
  | _, _ => False
  end.

Lemma proof_recorded g pid via key exclude proof : rows_hex g ->
  via_transitivity grant_class_of g pid via key exclude = Some (Some proof) -> exists T, recorded_as proof T.
Proof.
  intros Hhex. unfold via_transitivity. destruct (head _) as [pr|] eqn:Eh.
  - intros [= ->]. apply head_omap_inv in Eh as (m & Hm & Hpr). apply member_rows_elem in Hm as (Hin & _). unfold member_transitivity in Hpr.
    destruct (existsb _ _); [injection Hpr as <-; by exists OnItsOwn|]. destruct (negb _); [done|].
    destruct (controller_is_exclusive _ _ _ _ _); [injection Hpr as <-; by exists OnItsOwn|].
    destruct (anchor_chain_for _ _ _ _ _ _ _) as [ch|] eqn:Ech; [|done]. injection Hpr as <-.
    destruct (chain_for_sound _ _ _ _ _ _ _ Ech) as (Hch & _ & _ & _ & Hk & Hr). destruct (chain_typed _ _ _ _ _ _ _ _ Hhex Hin Hch) as (Hne & Ha & Ls & EL & HF).
    exists (Anchored (mkAnchor Ls (chain_anchor ch) (chain_anchor_kind ch) (chain_anchor_rule ch))). split.
    + unfold encode_anchor, chain_json. cbn. by rewrite EL.
    + split_and!; try done. cbn. intros ->. by destruct (chain_links ch).
  - unfold principal_perimeter_fact. destruct (List.filter _ _) as [|x l]; [done|]. cbn [fmap option_fmap option_map].
    destruct (function_principal_fact _ _) as [f|] eqn:Ef; [|done]. cbn [mbind option_bind option_map]. destruct (_ || _); [done|]. intros [= <-].
    destruct (fact_typed _ _ Ef) as (F & <- & HF). by exists (ByPrincipal F).
Qed.

End Chains.

(** Evidence of a rule's constructor is valid. *)
Lemma typed_valid E : evidence_ok E -> listing_typed E -> validate_evidence (rule_of E) (JDict (encode E)) = true.
Proof.
  intros Hok Hl. apply validate_iff. exists (encode E), (encode E). split_and!; [done| |by apply encode_rebuilds|by apply encode_self].
  by destruct E as [| | | | | | | |? ? ? []].
Qed.

Lemma d1_evidence_typed source via proof T : recorded_as proof T -> source ∈ W3_SOURCES -> source <> "function_principal" -> is_address via ->
  d1_evidence source via proof = Some (encode (Controlled source via T)) /\ evidence_ok (Controlled source via T).
Proof.
  intros HT Hs Hne Hv. assert (evidence_ok (Controlled source via T)) as Hok by (split_and!; try done; destruct proof, T; naive_solver).
  split; [|done]. rewrite <- (controlled_rebuilds source via T Hok), rebuild_w3. unfold d1_evidence.
  destruct proof as [| |ch|f], T as [|A|F]; try done; cbn in HT; destruct HT as [<- _]; done.
Qed.


(** ** A chain of two controllers *)

Definition proposer_at : string := addr_of "5".

(** The anchor's probe names both controllers; the first controller's owner is
    the second, the second's the anchor; row 3, of no protocol, is the first's too. *)
Definition ladder_facts : facts := mkFacts
  [mkControllerValue 2 "owner" (Some proposer_at) (Some "caller_gate"); mkControllerValue 3 "owner" (Some controller_at) (Some "caller_gate");
   mkControllerValue 5 "owner" (Some anchor_at) (Some "caller_gate"); mkControllerValue 4 "owner" (Some controller_at) (Some "caller_gate")]
  {[ (1, 1) := JDict [("status", JStr "probed");
       ("reads", JDict [("owner", JDict [("value", JStr controller_at)]); ("authority", JDict [("value", JStr proposer_at)])]);
       ("resolved_addresses", JList [JStr controller_at; JStr proposer_at])] ]}
  (list_to_map [((1, anchor_at), creation_of "a"); ((1, controller_at), creation_of "b"); ((1, controlled_at), creation_of "e");
                ((1, proposer_at), creation_of "f")])
  [] [] [] [] ∅.

Definition ladder_rows : gate :=
  foldr put_contract (empty_gate ladder_facts)
    [fresh_row 1 anchor_at None; fresh_row 2 controller_at None; fresh_row 3 deployed_at None; fresh_row 4 controlled_at None; fresh_row 5 proposer_at None].

Definition ladder : gate :=
  default ladder_rows
    (g ← on_row 1 (fun c g => nominate no_claims c 7 "manual" (Some ("ops", "2024-01-01T00:00:00+00:00")) 95 g) ladder_rows;
     g ← try_admission 1 g; g ← try_admission 2 g; try_admission 5 g).

Definition ladder_chain : anchor_chain :=
  mkChain [(controller_at, mkCLink "owner_or_authority" proposer_at "controller_values");
           (proposer_at, mkCLink "owner_or_authority" anchor_at "controller_values")] anchor_at "member" W5_HUMAN.

(** ** Claims *)

(** The rows that speak for or against a controller being the protocol's own. *)
Definition counted (g : gate) (via key : string) (m : contract) (exclude : option Z) (c : contract) : Prop :=
  c ∈ controlled_rows g via key /\ c_id c <> c_id m /\ (forall z, exclude = Some z -> c_id c <> z) /\ str_lower (address c) <> via.

Lemma exclusive_inv g pid via key m exclude :
  controller_is_exclusive g pid via key (c_id m :: match exclude with Some z => [z] | None => [] end) = true ->
  (forall c, counted g via key m exclude c -> belongs g pid c = true) /\
  exists c, counted g via key m exclude c /\ is_member pid c = true /\ member_for_evidence g (c_id c) pid = true.
Proof.
  unfold controller_is_exclusive. set (rows := List.filter _ _). intros [Hall Hex]%andb_true_iff.
  assert (forall c, In c rows <-> counted g via key m exclude c) as Hrows.
  { intros c. unfold rows, counted. rewrite filter_In, <- list_elem_of_In, andb_true_iff, !negb_true_iff, bool_decide_eq_false, String.eqb_neq.
    destruct exclude as [z|]; set_solver. }
  split.
  - intros c Hc. rewrite forallb_forall in Hall. apply Hall. by apply Hrows.
  - apply existsb_exists in Hex as (c & Hc & [Hm He]%andb_true_iff). exists c. by rewrite <- Hrows.
Qed.

(** C21: the grounds on which an address becomes a via of a protocol, arm by arm.
    Either a member at the address has an unrevoked, proven admitting witness that
    is not a controller's own; or a member admitted by what it controls controls
    on that chain, the candidate and itself left out, only rows that belong to the
    protocol, one of them a member on proof; or such a member has a chain of at
    most eight stored links from it, each of a member, none foreign, through
    distinct addresses other than its own, the last ending at an anchor whose
    admission is traced to a witness naming no member, by vias that are none of the
    chain's earlier addresses; or no member there gives any of these and the
    address is a perimeter principal that is not proven foreign and controls no
    foreign row. *)
Theorem via_grounded gc g pid via key exclude proof :
  via_transitivity gc g pid via key exclude = Some (Some proof) ->
  match proof with
  | IndependentWitness => exists m kw, m ∈ member_rows_at g pid via key /\ kw ∈ rows_of g (c_id m) pid /\ anchors_ladder kw = true
  | D2Exclusive => exists m kw, m ∈ member_rows_at g pid via key /\ kw ∈ rows_of g (c_id m) pid /\ d2_row kw = true /\
      (forall c, counted g via key m exclude c -> belongs g pid c = true) /\
      exists c, counted g via key m exclude c /\ is_member pid c = true /\ member_for_evidence g (c_id c) pid = true
  | ByAnchorChain ch => exists m kw, m ∈ member_rows_at g pid via key /\ kw ∈ rows_of g (c_id m) pid /\ d2_row kw = true /\
      chain_stored gc g pid key {[via]} m (chain_links ch) (chain_anchor ch) (chain_anchor_kind ch) /\
      NoDup (via :: map link_at (chain_links ch)) /\ (1 <= List.length (chain_links ch) <= ANCHOR_CHAIN_MAX_DEPTH)%nat
  | ByPerimeterPrincipal fact =>
      (forall m, m ∈ member_rows_at g pid via key -> member_transitivity gc g pid via key exclude m = None) /\
      principal_perimeter_fact gc g pid via key exclude = Some (Some fact) /\
      address_proven_foreign g pid via = false /\ controls_a_foreign_row g pid via = false
  end.
Proof.
  unfold via_transitivity. destruct (head _) as [pr|] eqn:Eh.
  - intros [= ->]. apply head_omap_inv in Eh as (m & Hm & Hpr). unfold member_transitivity in Hpr.
    destruct (existsb independent_row _) eqn:Ei; [injection Hpr as <-|].
    { apply existsb_elem in Ei as (kw & Hkw & Hi). by exists m, kw. }
    destruct (existsb d2_row _) eqn:Ed; [cbn [negb] in Hpr|done]. apply existsb_elem in Ed as (kw & Hkw & Hd).
    destruct (controller_is_exclusive _ _ _ _ _) eqn:Ex; [injection Hpr as <-; apply exclusive_inv in Ex; by exists m, kw|].
    destruct (anchor_chain_for _ _ _ _ _ _ _) as [ch|] eqn:Ech; [|done]. injection Hpr as <-. exists m, kw.
    destruct (chain_for_sound _ _ _ _ _ _ _ _ Ech) as (Hch & Hnd & Hfree & Hlen & _). split_and!; try done.
    + constructor; [|done]. intros Hin. apply (Hfree _ Hin). set_solver.
    + destruct (chain_links ch); [done|]. cbn. lia.
  - destruct (principal_perimeter_fact _ _ _ _ _ _) as [[f|]|]; cbn [mbind option_bind]; [|done|done].
    destruct (_ || _) eqn:Ef; [done|]. intros [= <-]. apply orb_false_iff in Ef. split; [|done]. by apply head_omap_none.
Qed.

Lemma via_grounded_witness :
  via_transitivity no_claims ladder 7 controller_at "ethereum" (Some 4) = Some (Some (ByAnchorChain ladder_chain)) /\
  exists m, m ∈ member_rows_at ladder 7 controller_at "ethereum" /\
    chain_stored no_claims ladder 7 "ethereum" {[controller_at]} m (chain_links ladder_chain) anchor_at "member".
Proof.
  assert (via_transitivity no_claims ladder 7 controller_at "ethereum" (Some 4) = Some (Some (ByAnchorChain ladder_chain))) as H by (vm_compute; reflexivity).
  split; [exact H|]. destruct (via_grounded no_claims ladder 7 controller_at "ethereum" (Some 4) (ByAnchorChain ladder_chain) H) as (m & kw & Hm & _ & _ & Hc & _).
  exists m. split; [exact Hm|exact Hc].
Defined.
