(* ===== verification/GateDerive.v ===== *)
(** * Derived facts hold

    [derive_admitting_facts] of [admission.py] and [_witness_fact_holds] of
    [transitivity.py] are written apart: the first searches the stored facts for
    what admits a candidate, the second re-checks a stored witness.  Here they
    agree: whatever is derived is valid evidence under a well-formed via and
    verifies at once, so the writes of an admission never raise. *)

From stdpp Require Import base gmap sets list strings sorting.
From Stdlib Require Import String Ascii ZArith QArith Lia.
From S2P Require Import Prelude PyText Chains Evidence EvidenceTheory Gate Admission GateTheory GateChains.

Local Open Scope string_scope.
Local Open Scope Z_scope.

(** ** Chain keys *)

Lemma lower_nil s : str_lower s = "" <-> s = "".
Proof. by destruct s. Qed.

Lemma lower_eqb_nil s : String.eqb (str_lower s) "" = String.eqb s "".
Proof. by destruct s. Qed.

Lemma canonical_lower_text s : canonical_chain (PyStr (str_lower s)) = canonical_chain (PyStr s).
Proof. rewrite !canonical_of_str, strip_lower, lower_eqb_nil, normalize_of_lower. done. Qed.

Lemma chain_key_lower s : chain_key (Some (str_lower s)) = chain_key (Some s).
Proof. cbn [chain_key]. rewrite canonical_lower_text, lower_eqb_nil, str_lower_idemp. done. Qed.

Lemma chain_key_cases s :
  (exists name, canonical_chain (PyStr s) = Some name /\ name <> "" /\ chain_key (Some s) = str_lower name) \/
  chain_key (Some s) = "ethereum" \/ chain_key (Some s) = str_lower s.
Proof.
  cbn [chain_key]. destruct (canonical_chain (PyStr s)) as [name|]; cbn [default from_option id].
  - unfold id. destruct (String.eqb_spec name "") as [->|Hne]; cbv beta iota delta [negb]; [right; destruct (String.eqb s ""); auto|]. left. by exists name.
  - cbn. right. destruct (String.eqb s ""); auto.
Qed.

Lemma chain_key_idemp s : chain_key (Some (chain_key (Some s))) = chain_key (Some s).
Proof.
  destruct (chain_key_cases s) as [(name & E & Hne & Ek)|[Ek|Ek]]; rewrite Ek.
  - rewrite chain_key_lower. cbn [chain_key]. rewrite (canonical_stable _ _ E Hne). cbn [default from_option]. unfold id. by apply String.eqb_neq in Hne as ->.
  - vm_compute. done.
  - by rewrite chain_key_lower.
Qed.

Lemma chain_key_some o : chain_key o = chain_key (Some (default "ethereum" o)).
Proof. by destruct o. Qed.

(** A row the query finds on a key has that key. *)
Lemma on_chain_key o m : on_chain (chain_key o) m = true -> chain_key (c_chain m) = chain_key o.
Proof.
  unfold on_chain. rewrite String.eqb_eq. intros H. rewrite (chain_key_some (c_chain m)), (chain_key_some o) in *. rewrite <- chain_key_lower, H. apply chain_key_idemp.
Qed.

(** ** Lists *)

Lemma mapM_elem {A B} (f : A -> option B) l k y : mapM f l = Some k -> y ∈ k -> exists x, x ∈ l /\ f x = Some y.
Proof. intros H Hy. apply mapM_Some in H. apply list_elem_of_lookup in Hy as [i Hi]. destruct (Forall2_lookup_r _ _ _ _ _ H Hi) as (x & Hx & Hf). exists x. split; [by eapply list_elem_of_lookup_2|done]. Qed.

Lemma fold_facts_elem l acc f : f ∈ foldl add_fact acc l -> f ∈ acc \/ f ∈ l.
Proof.
  revert acc. induction l as [|x l IH]; intros acc H; cbn in H; [by left|]. apply IH in H as [H|H]; [|by right; right]. unfold add_fact in H.
  destruct (seen _ _ _); [by left|]. apply elem_of_app in H as [H| ->%list_elem_of_singleton]; [by left|right; left].
Qed.

Lemma filter_elem {A} (p : A -> bool) l x : x ∈ List.filter p l <-> x ∈ l /\ p x = true.
Proof. by rewrite !list_elem_of_In, filter_In. Qed.

Section Derive.
Variable grant_class_of : string -> option string.
Variables (g : gate) (c : contract) (pid : Z).
Hypothesis Hkeys : keys_ok g.
Hypothesis Hhex : rows_hex g.
Hypothesis Haddr : is_address_text (address c) = true.

(** A fact that is fit to be written and verifies. *)
Definition fact_good (f : fact_) : Prop :=
  f.1.1 ∈ ADMITTING_WITNESS_RULES /\ validate_evidence f.1.1 (JDict f.1.2) = true /\ is_address f.2 /\
  witness_fact_holds grant_class_of g c pid f.1.1 (JDict f.1.2) (Some f.2) = Some true.

Lemma address_nonempty s : is_address_text s = true -> s <> "" /\ str_lower s <> "".
Proof. intros H. assert (s <> "") by (by intros ->). split; [done|]. by rewrite lower_nil. Qed.

Lemma via_nonempty s : is_address s -> low (Some s) = s /\ String.eqb s "" = false.
Proof. intros [(d & t & -> & _) Hl]. done. Qed.

Lemma scope_elem m : (exists cid, contracts g !! cid = Some m) -> member_scope pid c m = true ->
  contracts g !! c_id m = Some m /\ is_member pid m = true /\ c_id m <> c_id c /\ on_chain (chain_key (c_chain c)) m = true.
Proof.
  intros [cid Hm] Hs. unfold member_scope in Hs. rewrite !andb_true_iff, negb_true_iff, Z.eqb_neq in Hs. destruct Hs as [[? ?] ?].
  split_and!; try done. by rewrite (Hkeys _ _ Hm).
Qed.

(** *** Structural facts *)

Lemma structural_good e mid m maddr pointer kind h heur :
  w2_evidence (JStr kind) (JInt mid) (JStr maddr) (JStr pointer) h (JBool heur) = Some e -> contracts g !! mid = Some m -> maddr = address m ->
  is_member pid m = true -> on_chain (chain_key (c_chain c)) m = true ->
  (if heur then kind ∈ W2_SAME_CONTRACT_EDGE_KINDS else member_for_evidence g mid pid = true) ->
  w2_edge_holds g c m (JStr kind) (JDict e) = true ->
  fact_good (W2_STRUCTURAL, e, str_lower maddr).
Proof.
  intros He Hm -> Hmem Hch Hheur Hedge. pose proof (w2_typed _ _ _ _ _ _ _ He) as (E & <- & Hok & Hrule).
  assert (evidence_get "edge_kind" (JDict (encode E)) = JStr kind /\ evidence_get "member_contract_id" (JDict (encode E)) = JInt mid /\
    evidence_get W2_HEURISTIC_VIA_KEY (JDict (encode E)) = (if heur then JBool true else JNone)) as (Ek & Em & Eh).
  { clear -He. unfold w2_evidence in He. destruct (one_of _ _) as [k|] eqn:Eo; cbn [mbind option_bind] in He; [|done].
    assert (k = kind) as -> by (revert Eo; unfold one_of; destruct (bool_decide (kind ∈ W2_EDGE_KINDS)); intros Eo; congruence).
    destruct (_ && _); [done|].
    destruct (require_positive_int _) as [z|] eqn:Ez; cbn [mbind option_bind] in He; [|done]. cbn in Ez. destruct (0 <? mid); [injection Ez as <-|done].
    destruct (require_address (JStr (address m))); cbn [mbind option_bind] in He; [|done]. destruct (require_address (JStr pointer)); cbn [mbind option_bind] in He; [|done].
    cbn [jtruthy] in He. destruct heur, (String.eqb kind "historical_implementation").
    all: try (destruct (optional require_hash h); cbn [mbind option_bind] in He; [|done]). all: try (destruct h; try done). all: injection He as <-; done. }
  assert (is_address (str_lower (address m))) as Hvia by (apply text_lower_address, (proj1 Hhex mid); done).
  split_and!; [by left| |done|].
  - cbn [fst snd]. rewrite <- Hrule. apply typed_valid; [done|]. by destruct E.
  - destruct (via_nonempty _ Hvia) as [Ev Ene]. unfold witness_fact_holds. cbn [fst snd]. change (bool_decide (W2_STRUCTURAL ∈ [W1_CODE; W5_HUMAN; W6_LLAMA_SEED])) with false.
    cbn. f_equal. unfold w2_fact_holds. rewrite Em, Hm, Hmem, (on_chain_key _ _ Hch), String.eqb_refl, Eh, Ek. cbn [andb].
    rewrite Hedge, andb_true_r. destruct heur; [|done]. apply bool_decide_eq_true. rewrite (one_of_ok _ kind Hheur). done.
Qed.

(** A pointer edge does not read the evidence. *)
Lemma pointer_edge_evidence m kind ev : kind ∈ POINTER_EDGE_KINDS -> w2_edge_holds g c m (JStr kind) ev = w2_edge_holds g c m (JStr kind) (JDict []).
Proof. unfold POINTER_EDGE_KINDS. rewrite !elem_of_cons, elem_of_nil. intros [->|[->|[->|[->|[]]]]]; reflexivity. Qed.

Lemma pointer_facts_good h l : pointer_facts g c pid h = Some l -> Forall fact_good l.
Proof.
  intros H. apply Forall_forall. intros f Hf. destruct (mapM_elem _ _ _ _ H Hf) as ([m kind] & Hmk & He). cbn [fst snd] in He.
  apply list_elem_of_omap in Hmk as (m' & Hm & Hk). destruct (pointer_edge _ _ _ _ _) as [kind'|] eqn:Ek; cbn [mbind option_bind] in Hk; [|done].
  injection Hk as -> ->. apply contracts_where_elem in Hm as [Hin Hm]. apply andb_true_iff in Hm as [Hsc _].
  destruct (scope_elem m Hin Hsc) as (Hl & Hmem & _ & Hch). apply List.find_some in Ek as [Hkind Hedge]. apply list_elem_of_In in Hkind.
  apply andb_true_iff in Hedge as [Hhow Hedge]. destruct (w2_evidence _ _ _ _ _ _) as [e|] eqn:Ee; cbn [mbind option_bind] in He; [|done]. injection He as <-.
  eapply (structural_good e (c_id m) m); try done; [|by rewrite pointer_edge_evidence].
  destruct (member_for_evidence g (c_id m) pid); cbn [negb] in *; [done|]. cbn [orb] in Hhow. apply andb_true_iff in Hhow as [_ Hhow]. by apply bool_decide_eq_true in Hhow.
Qed.

Lemma proxy_facts_good l : proxy_facts g c pid = Some l -> Forall fact_good l.
Proof.
  intros H. apply Forall_forall. intros f Hf. destruct (mapM_elem _ _ _ _ H Hf) as (m & Hm & He).
  apply flat_map_elem in Hm as (pointer & Hp & Hm). destruct (is_address_text pointer) eqn:Epa; [|by apply not_elem_of_nil in Hm].
  apply filter_elem in Hm as [Hm Hne]. apply member_rows_elem in Hm as ([cid Hm] & Hmem & Eaddr & Hch & Hev).
  destruct (w2_evidence _ _ _ _ _ _) as [e|] eqn:Ee; cbn [mbind option_bind] in He; [|done]. injection He as <-. pose proof (Hkeys _ _ Hm) as Eid. subst cid.
  eapply (structural_good e (c_id m) m); try done. unfold w2_edge_holds. apply negb_true_iff in Hne. rewrite Hne, orb_false_r.
  destruct (address_nonempty _ Haddr) as [_ Hn]. apply String.eqb_neq in Hn. rewrite Hn, Eaddr.
  change (negb (String.eqb pointer "") && (String.eqb pointer (low (implementation c)) || String.eqb pointer (low (beacon c))) = true).
  destruct (address_nonempty _ Epa) as [Hn2 _]. apply String.eqb_neq in Hn2. rewrite Hn2. cbn [negb andb].
  rewrite !elem_of_cons, elem_of_nil in Hp. destruct Hp as [->|[->|[]]]; rewrite String.eqb_refl; [done|apply orb_true_r].
Qed.

Lemma historical_facts_good l : historical_facts g c pid = Some l -> Forall fact_good l.
Proof.
  intros H. apply Forall_forall. intros f Hf. destruct (mapM_elem _ _ _ _ H Hf) as ([m ev] & Hmk & He). cbn [fst snd] in He.
  apply list_elem_of_omap in Hmk as (m' & Hm & Hk). destruct (merge_sort _ _) as [|ev' rest] eqn:Es; [done|].
  destruct (member_for_evidence g (c_id m') pid) eqn:Ev; [|done]. injection Hk as -> ->. apply contracts_where_elem in Hm as [Hin Hsc].
  destruct (scope_elem m Hin Hsc) as (Hl & Hmem & Hne & Hch).
  assert (ev ∈ List.filter (fun e => (ue_contract e =? c_id m) && lower_is (new_impl e) (str_lower (address c))) (upgrade_events (stored g))) as Hin'.
  { rewrite <- (merge_sort_Permutation event_le), Es. by left. }
  apply filter_elem in Hin' as [Hev Hcond]. apply andb_true_iff in Hcond as [Hc1 Hc2].
  destruct (w2_evidence _ _ _ _ _ _) as [e|] eqn:Ee; cbn [mbind option_bind] in He; [|done]. injection He as <-.
  eapply (structural_good e (c_id m) m); try done. unfold w2_edge_holds. apply Z.eqb_neq in Hne. rewrite Hne, orb_false_r.
  destruct (address_nonempty _ Haddr) as [_ Hn]. apply String.eqb_neq in Hn. rewrite Hn. cbv beta iota.
  change (existsb (fun x => (ue_contract x =? c_id m) && lower_is (new_impl x) (str_lower (address c)) &&
    match evidence_get "upgrade_tx_hash" (JDict e) with JStr tx => lower_is (ue_tx_hash x) tx | _ => true end) (upgrade_events (stored g)) = true).
  apply existsb_elem. exists ev. split; [done|]. rewrite Hc1, Hc2. cbn [andb].
  assert (evidence_get "upgrade_tx_hash" (JDict e) = match ue_tx_hash ev with Some tx => if hex_re 64 tx then JStr (str_lower tx) else JNone | None => JNone end) as ->.
  { clear -Ee. unfold w2_evidence in Ee. change (one_of W2_EDGE_KINDS (JStr "historical_implementation")) with (Some "historical_implementation") in Ee.
    cbn [mbind option_bind jtruthy andb] in Ee.
    destruct (require_positive_int _); cbn [mbind option_bind] in Ee; [|done]. destruct (require_address (JStr (address m))); cbn [mbind option_bind] in Ee; [|done].
    destruct (require_address (JStr (str_lower _))); cbn [mbind option_bind] in Ee; [|done]. change (String.eqb "historical_implementation" "historical_implementation") with true in Ee.
    cbv beta iota zeta in Ee. destruct (ue_tx_hash ev) as [tx|]; [|by injection Ee as <-]. destruct (hex_re 64 tx) eqn:Eh; [|by injection Ee as <-].
    unfold optional in Ee. unfold require_hash in Ee. rewrite (require_hex_ok 64 (str_lower tx)) in Ee; [by injection Ee as <-|by apply hex_re_spec, hex_re_lower|apply str_lower_idemp]. }
  destruct (ue_tx_hash ev) as [tx|]; [|done]. destruct (hex_re 64 tx); [|done]. cbn. apply String.eqb_refl.
Qed.

(** *** Control facts *)

(** A controller's own witness, found through the member it controls. *)
Lemma controls_good e source via :
  (exists F, e = encode (Controls source via F) /\ evidence_ok (Controls source via F)) ->
  w3_d2_holds grant_class_of g c pid source via = Some true -> fact_good (W3_CONTROL, e, via).
Proof.
  intros (F & -> & Hok) Hd. assert (is_address via) as Hvia by apply Hok. split_and!; [by right; left| |done|].
  - apply (typed_valid (Controls source via F)); [done|done].
  - destruct (via_nonempty _ Hvia) as [Ev Ene]. unfold witness_fact_holds. cbn [fst snd]. rewrite Ev, Ene.
    change (evidence_get "source" (JDict (encode (Controls source via F)))) with (JStr source).
    change (is_direction "d2" (JDict (encode (Controls source via F)))) with true. exact Hd.
Qed.

Lemma d2_evidence_inv source v fact e : w3_evidence (JStr "d2") (JStr source) (JStr v) JNone JNone fact = Some e ->
  exists F, e = encode (Controls source (str_lower v) F) /\ evidence_ok (Controls source (str_lower v) F).
Proof.
  intros H. pose proof (w3_typed _ _ _ _ _ _ _ H) as (E & <- & Hok & _). unfold w3_evidence in H.
  change (one_of ["d1"; "d2"] (JStr "d2")) with (Some "d2") in H. destruct (one_of W3_SOURCES (JStr source)) as [s|] eqn:Es; cbn [mbind option_bind] in H; [|done].
  assert (s = source) as -> by (revert Es; unfold one_of; destruct (bool_decide (source ∈ W3_SOURCES)); intros Es; congruence).
  cbn [is_jnone negb andb] in H. destruct (require_address (JStr v)) as [a|] eqn:Ea; cbn [mbind option_bind] in H; [|done].
  assert (a = str_lower v) as ->. { revert Ea. unfold require_address, require_hex. destruct (hex_re 40 v); intros Ea; congruence. }
  change (String.eqb "d2" "d1") with false in H. cbv beta iota in H. unfold w3_d2 in H. destruct (_ || _); [done|]. destruct (negb (Bool.eqb _ _)); [done|].
  assert (exists t, encode E = [("direction", JStr "d2"); ("source", JStr source); ("via", JStr (str_lower v)); ("perimeter_entry_transitive", JBool false)] ++ t)%list as [t Et].
  { destruct fact; try (injection H as <-; by exists []); destruct (principal_fact_evidence _) as [f|]; try done; cbn [mbind option_bind] in H;
      (destruct (one_of ["function_principal"] _); [|done]); cbn [mbind option_bind] in H;
      (destruct (one_of W3_PRINCIPAL_CONTROLLER_TYPES _); [|done]); cbn [mbind option_bind] in H; injection H as <-; by eexists. }
  destruct E as [| | |s' v' F| | | | |]; cbn [encode app] in Et; try discriminate Et.
  injection Et as -> -> _. by exists F.
Qed.

Lemma probe_facts_good l : probe_facts g c pid = Some l -> Forall fact_good l.
Proof.
  intros H. apply Forall_forall. intros f Hf. destruct (mapM_elem _ _ _ _ H Hf) as (m & Hm & He).
  apply filter_elem in Hm as [Hm Hp]. apply andb_true_iff in Hp as [Hev Hp]. apply contracts_where_elem in Hm as [Hin Hm]. apply andb_true_iff in Hm as [Hsc _].
  destruct (scope_elem m Hin Hsc) as (Hl & Hmem & Hne & Hch). destruct (w3_evidence _ _ _ _ _ _) as [e|] eqn:Ee; cbn [mbind option_bind] in He; [|done].
  injection He as <-. apply (controls_good e "probe"); [by eapply d2_evidence_inv|]. unfold w3_d2_holds.
  change (String.eqb "probe" "function_principal") with false. cbv beta iota.
  change (bool_decide ("probe" ∈ W3_D2_SOURCES)) with true. cbn [negb]. f_equal. apply existsb_elem. exists m. split.
  - apply member_rows_elem. split_and!; try done. 
  - apply Z.eqb_neq in Hne. rewrite Hne. cbn [negb andb]. apply orb_true_iff. right. exact Hp.
Qed.

Lemma principal_facts_good l : principal_facts grant_class_of g c pid = Some l -> Forall fact_good l.
Proof.
  unfold principal_facts. destruct (d2_principal_facts _ _ _ _ _ _) as [ms|] eqn:Ed; cbn [mbind option_bind]; [|done]. intros H.
  apply Forall_forall. intros f Hf. destruct (mapM_elem _ _ _ _ H Hf) as ([m fact] & Hm & He). cbn [fst snd] in He.
  destruct (w3_evidence _ _ _ _ _ _) as [e|] eqn:Ee; cbn [mbind option_bind] in He; [|done]. injection He as <-. destruct (d2_evidence_inv _ _ _ _ Ee) as (F & -> & Hok).
  apply (controls_good _ "function_principal"); [by exists F|]. unfold w3_d2_holds. change (String.eqb "function_principal" "function_principal") with true. cbv beta iota.
  rewrite Ed. cbn [mbind option_bind]. f_equal. apply existsb_elem. exists (m, fact). split; [done|]. cbn [fst snd]. rewrite String.eqb_refl, andb_true_r.
  apply negb_true_iff, String.eqb_neq. intros E. destruct Hok as (_ & [Hx _] & _). apply hex_re_spec in Hx. by rewrite E in Hx.
Qed.

(** A stored controller of the candidate, by its source. *)
Definition source_names (source via : string) : bool :=
  if String.eqb source "controller_values" then has_controller_value g (c_id c) via
  else if String.eqb source "proxy_admin_slot" then String.eqb (low (admin_ c)) via
  else String.eqb source "probe" && bool_decide (via ∈ probe_controller_values g c).

Lemma own_controllers_elem source via : (source, via) ∈ own_controllers g c ->
  source ∈ W3_SOURCES /\ source <> "function_principal" /\ source_names source via = true.
Proof.
  unfold own_controllers. rewrite merge_sort_Permutation, !elem_of_app. intros [H|[H|H]].
  - apply list_elem_of_omap in H as (cv & Hcv & H). apply filter_elem in Hcv as [Hin Hcv]. apply andb_true_iff in Hcv as [Hc Hg].
    destruct (cv_value cv) as [v|] eqn:Ev; [|done]. destruct (String.eqb v ""); [done|]. injection H as <- <-. split_and!; [by left|done|].
    change (has_controller_value g (c_id c) (str_lower v) = true). unfold has_controller_value. apply existsb_elem. exists cv. split; [done|].
    rewrite Hc, Hg, Ev. cbn. by rewrite String.eqb_refl.
  - destruct (String.eqb _ _); [by apply not_elem_of_nil in H|]. apply list_elem_of_singleton in H. injection H as -> ->. split_and!; [by right; left|done|].
    apply String.eqb_refl.
  - apply list_elem_of_fmap in H as (v & H & Hv). injection H as -> ->. split_and!; [by right; right; left|done|]. by apply (bool_decide_eq_true_2 _) in Hv.
Qed.

Lemma own_controllers_low source via : (source, via) ∈ own_controllers g c -> str_lower via = via.
Proof.
  unfold own_controllers. rewrite merge_sort_Permutation, !elem_of_app. intros [H|[H|H]].
  - apply list_elem_of_omap in H as (cv & _ & H). destruct (cv_value cv) as [v|]; [|done]. destruct (String.eqb v ""); [done|]. injection H as _ <-. apply str_lower_idemp.
  - destruct (String.eqb _ _); [by apply not_elem_of_nil in H|]. apply list_elem_of_singleton in H. injection H as _ ->. unfold low. destruct (admin_ c); [apply str_lower_idemp|done].
  - apply list_elem_of_fmap in H as (v & H & Hv). injection H as _ ->. unfold probe_controller_values in Hv.
    destruct (probe_attempts _ !! _) as [[| | | | | |results]|]; try by apply not_elem_of_nil in Hv. destruct (jeq _ _); [|by apply not_elem_of_nil in Hv].
    destruct (jget "reads" results); try by apply not_elem_of_nil in Hv. apply list_elem_of_omap in Hv as (name & _ & Hv).
    destruct (evidence_get _ _) as [| | | |t| |]; try done. destruct (is_address_text t); [|done]. injection Hv as <-. apply str_lower_idemp.
Qed.

(** The recorded proof is still cited by itself. *)
Lemma recorded_cited proof T source via : recorded_as proof T -> still_cited proof (JDict (encode (Controlled source via T))) = true.
Proof.
  destruct proof as [| |ch|f], T as [|A|F]; try done; cbn [recorded_as]; intros [E _].
  - unfold still_cited. change (evidence_get "principal_fact" (JDict (encode (Controlled source via (Anchored A))))) with JNone.
    change (evidence_get "anchor_chain" (JDict (encode (Controlled source via (Anchored A))))) with (encode_anchor A). rewrite E.
    change (jeq (JStr (chain_anchor ch)) (JStr (chain_anchor ch)) = true). apply jeq_str.
  - subst f. unfold still_cited. change (evidence_get "anchor_chain" (JDict (encode (Controlled source via (ByPrincipal F))))) with JNone.
    change (jeq (JInt (fact_member F)) (JInt (fact_member F)) = true). apply jeq_int.
Qed.

Lemma controller_facts_good l derived r : controller_facts grant_class_of g c pid l derived = Some r ->
  (forall sv, sv ∈ l -> sv ∈ own_controllers g c) -> Forall fact_good derived -> Forall fact_good r.
Proof.
  revert derived. induction l as [|[source via] l IH]; intros derived; cbn [controller_facts]; [by intros [= <-]|]. intros H Hl Hd.
  assert (forall sv, sv ∈ l -> sv ∈ own_controllers g c) as Hl' by (intros sv ?; apply Hl; by right).
  destruct (_ || _) eqn:Eskip; [by eapply IH|]. destruct (own_controllers_elem source via) as (Hs & Hne & Hnames); [apply Hl; by left|].
  destruct (via_transitivity _ _ _ _ _ _) as [[proof|]|] eqn:Ev; cbn [mbind option_bind] in H; [|by eapply IH|done].
  rewrite !orb_false_iff, negb_false_iff in Eskip. destruct Eskip as [[[Hhexv _] _] _].
  assert (is_address via) as Hvia by (split; [by apply hex_re_spec|]; apply (own_controllers_low source), Hl; by left).
  destruct (proof_recorded _ _ _ _ _ _ _ Hhex Ev) as [T HT]. destruct (d1_evidence_typed source via proof T HT Hs Hne Hvia) as [Ee Hok].
  rewrite Ee in H. cbn [mbind option_bind] in H. eapply IH; [exact H|done|]. unfold add_fact. destruct (seen _ _ _); [done|]. apply Forall_app. split; [done|].
  constructor; [|constructor]. split_and!; [by right; left| |done|].
  - apply (typed_valid (Controlled source via T)); [done|done].
  - destruct (via_nonempty _ Hvia) as [El Ene]. unfold witness_fact_holds. cbn [fst snd]. rewrite El, Ene.
    change (evidence_get "source" (JDict (encode (Controlled source via T)))) with (JStr source).
    change (w3_d1_holds grant_class_of g c pid source via (JDict (encode (Controlled source via T))) = Some true).
    unfold w3_d1_holds. rewrite Ev. cbn [mbind option_bind]. rewrite (recorded_cited _ _ _ _ HT). by f_equal.
Qed.

(** *** Lineage facts *)

Lemma factory_facts_good l : factory_facts g c pid = Some l -> Forall fact_good l.
Proof.
  unfold factory_facts. destruct (member_factory_lineage g pid c None) as [lin|] eqn:Elin; [|intros [= <-]; constructor].
  destruct (w4_factory_evidence _ _ _ _) as [e|] eqn:Ee; cbn [mbind option_bind]; [|done]. intros [= <-]. constructor; [|constructor].
  assert (member_factory_lineage g pid c (Some (lineage_factory lin)) = Some lin /\ str_lower (lineage_factory lin) = lineage_factory lin) as [Elin' Hlow].
  { unfold member_factory_lineage in *. destruct (chain_id_for_chain_name _) as [n|]; cbn [mbind option_bind] in *; [|done]. destruct (String.eqb (address c) ""); [done|].
    destruct (creations _ !! _) as [w|]; cbn [mbind option_bind] in *; [|done]. rewrite orb_false_r in Elin. destruct (String.eqb (low (creation_factory w)) "") eqn:En; [done|].
    destruct (anchoring_member_factory_id _ _ _) as [m|]; cbn [mbind option_bind] in *; [|done]. injection Elin as <-. cbn [lineage_factory]. rewrite String.eqb_refl. cbn.
    split; [done|]. unfold low. destruct (creation_factory w); [apply str_lower_idemp|done]. }
  unfold w4_factory_evidence in Ee. destruct (optional require_hash _) as [h|] eqn:Eh; cbn [mbind option_bind] in Ee; [|done].
  destruct (require_address _) as [a|] eqn:Ea; cbn [mbind option_bind] in Ee; [|done].
  assert (a = lineage_factory lin) as ->. { revert Ea. unfold require_address, require_hex. destruct (hex_re 40 (lineage_factory lin)); intros Ea; congruence. }
  pose proof (require_address_inv _ _ Ea) as Hvia.
  destruct (require_positive_int (JInt (lineage_member lin))) as [m|] eqn:Em; cbn [mbind option_bind] in Ee; [|done].
  destruct (require_positive_int (JInt (lineage_chain lin))) as [n|] eqn:En; cbn [mbind option_bind] in Ee; [|done].
  injection Ee as <-.
  split_and!; [by right; right; right; left| |done|].
  - apply (typed_valid (FactoryMade (lineage_factory lin) m n h)); [|done]. split_and!; [done|by eapply positive_inv|by eapply positive_inv|].
    eapply optional_inv; [|exact Eh]. intros x. apply require_hash_inv.
  - destruct (via_nonempty _ Hvia) as [El Ene]. unfold witness_fact_holds. cbn [fst snd]. rewrite El, Ene.
    change (Some (negb false && bool_decide (is_Some (member_factory_lineage g pid c (Some (lineage_factory lin))))) = Some true). rewrite Elin'. done.
Qed.

Lemma deployer_facts_good l probe : deployer_facts g c pid = Some (l, probe) -> Forall fact_good l.
Proof.
  unfold deployer_facts. destruct (negb _) eqn:Ed; [intros [= <- _]; constructor|]. apply negb_false_iff in Ed.
  destruct (proof_registry_row g pid (low (deployer c))) as [row|] eqn:Er; [|intros [= <- _]; constructor].
  destruct (chain_id_for_chain_name _ ≫= _) as [[tx block]|]; [|intros [= <- _]; constructor].
  destruct (w4_evidence _ _ _ _) as [e|] eqn:Ee; cbn [mbind option_bind]; [|done]. intros [= <- _]. constructor; [|constructor].
  assert (is_address (low (deployer c))) as Hvia. { split; [by apply hex_re_spec|]. unfold low. destruct (deployer c); [apply str_lower_idemp|done]. }
  unfold w4_evidence in Ee. destruct (require_hash (JStr tx)) as [h|] eqn:Eh; cbn [mbind option_bind] in Ee; [|done]. rewrite (require_address_ok _ Hvia) in Ee. cbn [mbind option_bind] in Ee.
  destruct (require_positive_int _) as [r|] eqn:Ep; cbn [mbind option_bind] in Ee; [|done].
  destruct (optional require_block _) as [b|] eqn:Eb; cbn [mbind option_bind] in Ee; [|done]. injection Ee as <-.
  split_and!; [by right; right; left| |done|].
  - apply (typed_valid (Deployed (low (deployer c)) r h b)); [|done]. split_and!; [done|by eapply positive_inv|by eapply require_hash_inv|].
    eapply optional_inv; [|exact Eb]. intros x. apply block_inv.
  - destruct (via_nonempty _ Hvia) as [El Ene]. unfold witness_fact_holds. cbn [fst snd]. rewrite El, Ene.
    change (Some (negb false && String.eqb (low (deployer c)) (low (deployer c)) && bool_decide (is_Some (proof_registry_row g pid (low (deployer c))))) = Some true).
    rewrite Er, String.eqb_refl. done.
Qed.

Lemma derived_good h l probe : derive_admitting_facts grant_class_of g c pid h = Some (l, probe) -> Forall fact_good l.
Proof.
  unfold derive_admitting_facts. destruct (pointer_facts _ _ _ _) as [f1|] eqn:E1; cbn [mbind option_bind]; [|done].
  destruct (proxy_facts _ _ _) as [f2|] eqn:E2; cbn [mbind option_bind]; [|done]. destruct (historical_facts _ _ _) as [f3|] eqn:E3; cbn [mbind option_bind]; [|done].
  destruct (probe_facts _ _ _) as [f4|] eqn:E4; cbn [mbind option_bind]; [|done]. destruct (principal_facts _ _ _ _) as [f5|] eqn:E5; cbn [mbind option_bind]; [|done].
  destruct (controller_facts _ _ _ _ _ _) as [f6|] eqn:E6; cbn [mbind option_bind]; [|done]. destruct (factory_facts _ _ _) as [f7|] eqn:E7; cbn [mbind option_bind]; [|done].
  destruct (deployer_facts _ _ _) as [[f8 p8]|] eqn:E8; cbn [mbind option_bind fst snd]; [|done]. intros [= <- _].
  assert (Forall fact_good f6) as H6.
  { eapply controller_facts_good; [exact E6|done|]. apply Forall_forall. intros f Hf. apply fold_facts_elem in Hf as [Hf|Hf]; [by apply not_elem_of_nil in Hf|].
    revert f Hf. apply Forall_forall. repeat apply Forall_app_2;
      [by eapply pointer_facts_good|by eapply proxy_facts_good|by eapply historical_facts_good|by eapply probe_facts_good|by eapply principal_facts_good]. }
  apply Forall_forall. intros f Hf. apply fold_facts_elem in Hf as [Hf|Hf]; [by eapply Forall_forall in Hf|].
  revert f Hf. apply Forall_forall, Forall_app_2; [by eapply factory_facts_good|by eapply deployer_facts_good].
Qed.
End Derive.

(** ** Writing what is derived *)

Lemma admitting_is_rule r : r ∈ ADMITTING_WITNESS_RULES -> r ∈ WITNESS_RULES.
Proof. intros H. by right. Qed.

(** An unrevoked row for each fact. *)
Definition facts_written (cid pid : Z) (l : list fact_) (t : witness_table) : Prop :=
  Forall (fun f => exists w, witnesses t !! (cid, pid, f.1.1, Some f.2) = Some w /\ row_active w) l.

Lemma facts_written_grown cid pid l t t' : grown t t' -> facts_written cid pid l t -> facts_written cid pid l t'.
Proof. intros Hg HF. eapply Forall_impl; [exact HF|]. cbn. intros f (w & Hw & Ha). exists w. split; [by apply (grown_active _ _ Hg)|done]. Qed.

Lemma write_facts_total gc g c pid cid now l t : Forall (fact_good gc g c pid) l ->
  exists t', write_facts cid pid now l t = Some t' /\ facts_written cid pid l t'.
Proof.
  intros HF. revert t. induction HF as [|[[rule e] via] l (Hr & Hv & Ha & _) _ IH]; intros t; cbn [write_facts]; [exists t; split; [done|constructor]|].
  cbn [fst snd] in *. destruct (write_witness cid pid rule (JDict e) (JStr via) now t) as [[[k w] t1]|] eqn:Ew.
  2: { exfalso. unfold write_witness in Ew. rewrite (bool_decide_eq_true_2 _ (admitting_is_rule _ Hr)), Hv in Ew. cbn [negb orb] in Ew.
       unfold optional in Ew. rewrite (require_address_ok via Ha) in Ew. done. }
  cbn [mbind option_bind snd]. destruct (IH t1) as (t' & Ht' & HF'). exists t'. split; [done|]. constructor; [|done]. cbn [fst snd].
  assert (k = (cid, pid, rule, Some via)) as ->.
  { unfold write_witness in Ew. destruct (negb _ || negb _); [done|]. unfold optional in Ew. rewrite (require_address_ok via Ha) in Ew. by injection Ew. }
  pose proof (write_witness_spec _ _ _ _ _ _ _ _ _ _ Ew) as (_ & _ & _ & _ & Hw & Hact & _). exists w. split; [|done].
  by apply (grown_active _ _ (write_facts_grows _ _ _ _ _ _ Ht')).
Qed.

(** ** Claims *)

(** C22: What is derived holds.  For a candidate over well-formed rows, every
    fact [derive_admitting_facts] finds, of every group and with or without
    heuristic inheritance, is admitting evidence that the validation accepts and
    that the re-check of a stored witness verifies, and writing the facts never
    raises and leaves each an unrevoked row. *)
Theorem derived_facts_hold gc g c pid h l probe : keys_ok g -> rows_hex g -> is_address_text (address c) = true ->
  derive_admitting_facts gc g c pid h = Some (l, probe) ->
  Forall (fun f : fact_ => f.1.1 ∈ ADMITTING_WITNESS_RULES /\ validate_evidence f.1.1 (JDict f.1.2) = true /\ is_address f.2 /\
    witness_fact_holds gc g c pid f.1.1 (JDict f.1.2) (Some f.2) = Some true) l /\
  forall cid now t, exists t', write_facts cid pid now l t = Some t' /\ facts_written cid pid l t'.
Proof.
  intros K H Ha Hd. pose proof (derived_good gc g c pid K H Ha h l probe Hd) as HF. split; [exact HF|]. intros cid now t. by apply (write_facts_total gc g c).
Qed.

Lemma ladder_keys : keys_ok ladder.
Proof.
  intros cid c Hc. apply elem_of_map_to_list in Hc.
  assert (Forall (fun kc : Z * contract => c_id kc.2 = kc.1) (map_to_list (contracts ladder))) as HF by (apply (bool_decide_unpack _); vm_compute; exact I).
  by apply (proj1 (Forall_forall _ _) HF) in Hc.
Qed.

Lemma ladder_hex : rows_hex ladder.
Proof.
  split.
  - intros cid c Hc. apply elem_of_map_to_list in Hc.
    assert (Forall (fun kc : Z * contract => is_address_text (address kc.2) = true) (map_to_list (contracts ladder))) as HF by (apply (bool_decide_unpack _); vm_compute; exact I).
    by apply (proj1 (Forall_forall _ _) HF) in Hc.
  - assert (role_planes (stored ladder) = []) as -> by (vm_compute; reflexivity). by intros r ?%not_elem_of_nil.
Qed.

(** Row 4 of the ladder: its controller proves it by an anchor chain. *)
Lemma derived_facts_hold_witness : exists l,
  derive_admitting_facts no_claims ladder (fresh_row 4 controlled_at None) 7 false = Some (l, false) /\ List.length l = 1%nat /\
  Forall (fun f : fact_ => witness_fact_holds no_claims ladder (fresh_row 4 controlled_at None) 7 f.1.1 (JDict f.1.2) (Some f.2) = Some true) l.
Proof.
  assert ((fun r => (List.length r.1, r.2)) <$> derive_admitting_facts no_claims ladder (fresh_row 4 controlled_at None) 7 false = Some (1%nat, false)) as E
    by (vm_compute; reflexivity).
  destruct (derive_admitting_facts no_claims ladder (fresh_row 4 controlled_at None) 7 false) as [[l probe]|] eqn:Ed; [|discriminate E].
  cbn [fmap option_fmap option_map fst snd] in E. injection E as El Ep. subst probe. exists l. split; [reflexivity|]. split; [exact El|].
  destruct (derived_facts_hold no_claims ladder (fresh_row 4 controlled_at None) 7 false l false ladder_keys ladder_hex eq_refl Ed) as [HF _].
  eapply Forall_impl; [exact HF|]. intros f (_ & _ & _ & Hf). exact Hf.
Defined.
