(* ===== verification/GateLiveness.v ===== *)
(** * A derivable candidate is admitted

    [attempt_admission] writes the derived witnesses and the code proof, then
    [promote] re-checks every admitting row in the new table.  The rows written
    are the candidate's own, and a candidate is no member, so no re-check reads
    them: the facts still hold after the writes, and an unclaimed candidate with
    a derivable fact and observed code is promoted in the same call. *)

From stdpp Require Import base gmap sets list strings sorting.
From Stdlib Require Import String Ascii ZArith QArith Lia.
From S2P Require Import Prelude PyText Chains Evidence EvidenceTheory Gate Admission GateTheory GateChains GateDerive.

Local Open Scope string_scope.
Local Open Scope Z_scope.

(** ** Lists up to permutation and on their elements *)

Lemma existsb_perm {A} (p : A -> bool) l l' : l ≡ₚ l' -> existsb p l = existsb p l'.
Proof. intros H. apply eq_true_iff_eq. rewrite !existsb_elem. by setoid_rewrite H. Qed.

Lemma filter_perm {A} (p : A -> bool) l l' : l ≡ₚ l' -> List.filter p l ≡ₚ List.filter p l'.
Proof. induction 1; cbn; repeat case_match; eauto using Permutation. Qed.

Lemma min_text_perm l l' : l ≡ₚ l' -> min_text l = min_text l'.
Proof.
  intros H. unfold min_text. f_equal. apply (Sorted_unique str_le); [apply (Sorted_merge_sort str_le)|apply (Sorted_merge_sort str_le)|]. by rewrite !merge_sort_Permutation.
Qed.

Lemma existsb_on {A} (p q : A -> bool) l : (forall x, x ∈ l -> p x = q x) -> existsb p l = existsb q l.
Proof.
  intros H. induction l as [|x l IH]; [done|]. cbn. rewrite (H x) by (by left). f_equal. apply IH. intros y Hy. apply H. by right.
Qed.

Lemma forallb_on {A} (p q : A -> bool) l : (forall x, x ∈ l -> p x = q x) -> forallb p l = forallb q l.
Proof.
  intros H. induction l as [|x l IH]; [done|]. cbn. rewrite (H x) by (by left). f_equal. apply IH. intros y Hy. apply H. by right.
Qed.

Lemma filter_on {A} (p q : A -> bool) l : (forall x, x ∈ l -> p x = q x) -> List.filter p l = List.filter q l.
Proof. intros H. apply filter_ext_in. intros x Hx. apply H. by apply list_elem_of_In. Qed.

Lemma omap_on {A B} (f f' : A -> option B) (l : list A) : (forall x, x ∈ l -> f x = f' x) -> omap f l = omap f' l.
Proof.
  intros H. induction l as [|x l IH]; [done|]. cbn. rewrite (H x) by (by left). rewrite IH; [done|]. intros y Hy. apply H. by right.
Qed.

Section Frame.
Variable grant_class_of : string -> option string.
Variables (g : gate) (t : witness_table) (c : contract) (pid : Z).
Hypothesis Hkeys : keys_ok g.
Hypothesis Hc : contracts g !! c_id c = Some c.
Hypothesis Hfree : protocol_id c = None.
Hypothesis Hframe : forall k, key_contract k <> c_id c -> witnesses t !! k = witnesses (table g) !! k.

Notation g' := (put_table t g).

Lemma rows_framed cid p : cid <> c_id c -> rows_of g' cid p ≡ₚ rows_of g cid p.
Proof.
  intros Hne. apply NoDup_Permutation; [eapply NoDup_fmap_1, rows_of_nodup|eapply NoDup_fmap_1, rows_of_nodup|].
  intros [k w]. rewrite !rows_of_elem. cbn [fst snd table]. split; intros (Hk & Ha & Ek & Ep); split_and!; try done; [rewrite <- Hframe by congruence|rewrite Hframe by congruence]; done.
Qed.

(** A member is another row. *)
Lemma member_other m : (exists cid, contracts g !! cid = Some m) -> is_member pid m = true -> c_id m <> c_id c.
Proof.
  intros [cid Hm] Hmem E. rewrite <- E, (Hkeys _ _ Hm), Hm in Hc. injection Hc as ->. apply bool_decide_eq_true in Hmem. congruence.
Qed.

Lemma evidence_framed cid p : cid <> c_id c -> member_for_evidence g' cid p = member_for_evidence g cid p.
Proof.
  intros Hne. unfold member_for_evidence. pose proof (filter_perm (fun kw => is_admitting (row_rule kw)) _ _ (rows_framed cid p Hne)) as HP.
  rewrite (existsb_perm _ _ _ HP). destruct (List.filter _ (rows_of g' cid p)) as [|x l] eqn:E1, (List.filter _ (rows_of g cid p)) as [|y l'] eqn:E2; try done.
  - by apply Permutation_nil in HP.
  - symmetry in HP. by apply Permutation_nil in HP.
Qed.

Lemma ladder_framed cid p : cid <> c_id c -> member_anchors_ladder g' cid p = member_anchors_ladder g cid p.
Proof. intros Hne. by apply existsb_perm, rows_framed. Qed.

Lemma nonlineage_framed cid p : cid <> c_id c -> has_nonlineage_witness g' cid p = has_nonlineage_witness g cid p.
Proof. intros Hne. by apply existsb_perm, rows_framed. Qed.

Lemma contracts_where_framed p : contracts_where p g' = contracts_where p g.
Proof. done. Qed.

Lemma member_rows_framed addr key : member_rows_at g' pid addr key = member_rows_at g pid addr key.
Proof.
  unfold member_rows_at. apply filter_on. intros m [Hin Hm]%contracts_where_elem. apply evidence_framed.
  apply andb_true_iff in Hm as [Hm _]. apply andb_true_iff in Hm as [Hm _]. by apply member_other.
Qed.

Lemma factory_framed factory : anchoring_member_factory_id g' pid factory = anchoring_member_factory_id g pid factory.
Proof.
  unfold anchoring_member_factory_id. do 2 f_equal. apply filter_on. intros m [Hin Hm]%contracts_where_elem. apply ladder_framed.
  apply andb_true_iff in Hm as [Hm _]. by apply member_other.
Qed.

Lemma lineage_framed c0 factory : member_factory_lineage g' pid c0 factory = member_factory_lineage g pid c0 factory.
Proof.
  unfold member_factory_lineage. destruct (chain_id_for_chain_name _); [|done]. cbn [mbind option_bind stored put_table].
  destruct (String.eqb _ _); [done|]. destruct (creations _ !! _); [|done]. cbn [mbind option_bind]. by rewrite factory_framed.
Qed.

Lemma principal_rows_elem addr key exclude x : x ∈ member_principal_rows grant_class_of g pid addr key exclude -> c_id x.2 <> c_id c.
Proof.
  intros (fp & _ & H)%list_elem_of_omap. unfold joined in H. destruct (List.find _ _) as [ef|]; cbn [mbind option_bind] in H; [|done].
  destruct (contracts g !! ef_contract ef) as [m|] eqn:Em; cbn [mbind option_bind] in H; [|done]. cbn [snd fst] in H. destruct (_ && _) eqn:E; [|done]. injection H as <-.
  cbn. apply member_other; [by eexists|]. repeat (apply andb_true_iff in E as [E _]). exact E.
Qed.

Lemma d2_facts_framed addr key exclude : d2_principal_facts grant_class_of g' pid addr key exclude = d2_principal_facts grant_class_of g pid addr key exclude.
Proof.
  unfold d2_principal_facts. do 3 f_equal. change (member_principal_rows grant_class_of g' pid addr key exclude) with (member_principal_rows grant_class_of g pid addr key exclude).
  apply filter_on. intros x Hx. f_equal. by apply ladder_framed, (principal_rows_elem _ _ _ _ Hx).
Qed.

Lemma perimeter_framed addr key exclude : principal_perimeter_fact grant_class_of g' pid addr key exclude = principal_perimeter_fact grant_class_of g pid addr key exclude.
Proof.
  unfold principal_perimeter_fact. change (member_principal_rows grant_class_of g' pid addr key exclude) with (member_principal_rows grant_class_of g pid addr key exclude).
  erewrite filter_on; [reflexivity|]. intros x Hx. cbn beta. f_equal. by apply ladder_framed, (principal_rows_elem _ _ _ _ Hx).
Qed.

Lemma independent_framed budget cid blocked : cid <> c_id c ->
  independent_anchor_rule budget g' cid pid blocked = independent_anchor_rule budget g cid pid blocked.
Proof.
  revert cid blocked. induction budget as [|budget IH]; intros cid blocked Hne; cbn [independent_anchor_rule contracts put_table];
    (destruct (contracts g !! cid) as [c0|]; cbn [mbind option_bind]; [|done]); apply min_text_perm, Permutation_map.
  - apply filter_perm, rows_framed, Hne.
  - etrans; [apply filter_perm, rows_framed, Hne|]. erewrite filter_on; [reflexivity|]. intros kw _. cbn beta. f_equal. rewrite member_rows_framed.
    destruct (String.eqb (low (row_via kw)) ""); [done|]. case_bool_decide; [done|]. destruct (String.eqb (row_rule kw) W4_DEPLOYER); [done|]. apply existsb_on. intros m Hm.
    apply member_rows_elem in Hm as (Hin & Hmem & _). do 2 f_equal. rewrite IH; [done|]. by apply member_other.
Qed.

Lemma perimeter_anchor_framed addr blocked : perimeter_anchor grant_class_of g' pid addr blocked = perimeter_anchor grant_class_of g pid addr blocked.
Proof.
  unfold perimeter_anchor. f_equal. change (perimeter_fact_candidates grant_class_of g' pid addr) with (perimeter_fact_candidates grant_class_of g pid addr).
  apply omap_on. intros x Hx. assert (x.2 <> c_id c) as Hne; [|destruct (x.1.1); [by apply independent_framed..|done]].
  unfold perimeter_fact_candidates in Hx. rewrite !elem_of_app in Hx. destruct Hx as [Hx|[Hx|Hx]].
  - apply list_elem_of_fmap in Hx as (cv & -> & Hx). rewrite merge_sort_Permutation in Hx. apply filter_elem in Hx as [_ Hx]. cbn.
    apply andb_true_iff in Hx as [Hx _]. apply andb_true_iff in Hx as [Hx _]. unfold member_ids in Hx. destruct (contracts g !! cv_contract cv) as [m|] eqn:Em; [|done].
    rewrite <- (Hkeys _ _ Em). apply member_other; [by eexists|done].
  - apply list_elem_of_omap in Hx as (fp & _ & H). unfold joined in H. destruct (List.find _ _) as [ef|]; cbn [mbind option_bind] in H; [|done].
    destruct (contracts g !! ef_contract ef) as [m|] eqn:Em; cbn [mbind option_bind fst snd] in H; [|done]. destruct (_ && _) eqn:E; [|done]. injection H as <-. cbn.
    apply member_other; [by eexists|]. repeat (apply andb_true_iff in E as [E _]). exact E.
  - apply list_elem_of_omap in Hx as (fp & _ & H). unfold joined in H. destruct (List.find _ _) as [ef|]; cbn [mbind option_bind] in H; [|done].
    destruct (contracts g !! ef_contract ef) as [m|] eqn:Em; cbn [mbind option_bind fst snd] in H; [|done]. destruct (evidence_get _ _); try done.
    destruct (_ && _) eqn:E; [|done]. injection H as <-. cbn. apply member_other; [by eexists|]. repeat (apply andb_true_iff in E as [E _]). exact E.
Qed.

Lemma links_framed controller : own_controller_links g' pid controller = own_controller_links g pid controller.
Proof.
  assert (forall own, safe_owners g' pid own = safe_owners g pid own) as Hso; [|unfold own_controller_links; by rewrite Hso].
  intros own. unfold safe_owners. erewrite filter_on; [reflexivity|]. intros x (fp & _ & H)%list_elem_of_omap. cbn beta. apply evidence_framed.
  unfold joined in H. destruct (List.find _ _) as [ef|]; cbn [mbind option_bind] in H; [|done]. cbn [contracts put_table] in H.
  destruct (contracts g !! ef_contract ef) as [m|] eqn:Em; cbn [mbind option_bind fst snd] in H; [|done]. destruct (_ && _) eqn:E; [|done]. injection H as <-. cbn.
  apply member_other; [by eexists|]. by apply andb_true_iff in E as [_ E].
Qed.

Lemma link_root_framed addr key avoid req n n' :
  match n, n' with Some f, Some f' => forall m, f m = f' m | None, None => True | _, _ => False end ->
  link_root grant_class_of g' pid addr key avoid req n = link_root grant_class_of g pid addr key avoid req n'.
Proof.
  intros Hn. unfold link_root. rewrite member_rows_framed, perimeter_anchor_framed.
  erewrite (omap_on (fun m => independent_anchor_rule _ g' _ _ _)).
  2: { intros m Hm. apply independent_framed. apply member_rows_elem in Hm as (Hin & Hmem & _). by apply member_other. }
  destruct (head _); [done|]. destruct (if req then _ else _); [done|]. destruct req; [done|]. destruct n as [f|], n' as [f'|]; try done. f_equal. by apply omap_on.
Qed.

Lemma anchor_chain_framed budget controller key avoid :
  anchor_chain_for grant_class_of budget g' pid controller key avoid = anchor_chain_for grant_class_of budget g pid controller key avoid.
Proof.
  revert controller avoid. induction budget as [|budget IH]; intros controller avoid; cbn [anchor_chain_for]; [done|]. rewrite links_framed.
  change (existsb (fun l => address_proven_foreign g' pid (l_address l)) (own_controller_links g pid controller))
    with (existsb (fun l => address_proven_foreign g pid (l_address l)) (own_controller_links g pid controller)).
  destruct (existsb _ _); [done|]. erewrite omap_on; [reflexivity|]. intros l _. cbn beta. case_bool_decide; [done|].
  rewrite (link_root_framed _ _ _ _ _ match budget with O => None | S _ => Some (fun m => anchor_chain_for grant_class_of budget g pid m key (avoid ∪ {[l_address l]})) end); [done|].
  destruct budget; [done|]. intros m. apply IH.
Qed.

Lemma exclusive_framed controller key m : controller_is_exclusive g' pid controller key [m; c_id c] = controller_is_exclusive g pid controller key [m; c_id c].
Proof.
  unfold controller_is_exclusive. change (controlled_rows g' controller key) with (controlled_rows g controller key).
  assert (forall x, x ∈ List.filter (fun x => negb (bool_decide (c_id x ∈ [m; c_id c])) && negb (String.eqb (str_lower (address x)) controller)) (controlled_rows g controller key) ->
    c_id x <> c_id c) as Hout.
  { intros x [_ Hx]%filter_elem E. apply andb_true_iff in Hx as [Hx _]. apply negb_true_iff, bool_decide_eq_false in Hx. apply Hx. rewrite E. right. by left. }
  f_equal.
  - apply forallb_on. intros x Hx. unfold belongs. rewrite nonlineage_framed by (by apply Hout). unfold member_factory_created. by rewrite lineage_framed.
  - apply existsb_on. intros x Hx. f_equal. by apply evidence_framed, Hout.
Qed.

Lemma via_framed via key : via_transitivity grant_class_of g' pid via key (Some (c_id c)) = via_transitivity grant_class_of g pid via key (Some (c_id c)).
Proof.
  unfold via_transitivity. rewrite member_rows_framed, perimeter_framed. erewrite omap_on; [reflexivity|]. intros m Hm.
  apply member_rows_elem in Hm as (Hin & Hmem & _). pose proof (member_other m Hin Hmem) as Hne. unfold member_transitivity.
  rewrite !(existsb_perm _ _ _ (rows_framed (c_id m) pid Hne)), exclusive_framed, anchor_chain_framed. done.
Qed.

(** A re-check of the candidate's witnesses does not read its own rows. *)
Lemma holds_framed rule evidence via :
  witness_fact_holds grant_class_of g' c pid rule evidence via = witness_fact_holds grant_class_of g c pid rule evidence via.
Proof.
  unfold witness_fact_holds. rewrite lineage_framed.
  assert (w2_fact_holds g' c pid evidence = w2_fact_holds g c pid evidence) as ->.
  { unfold w2_fact_holds. destruct (evidence_get "member_contract_id" evidence); try done. cbn [contracts put_table].
    destruct (contracts g !! z) as [m|] eqn:Em; [|done]. destruct (is_member pid m) eqn:Hmem; [|done]. rewrite evidence_framed; [done|].
    rewrite <- (Hkeys _ _ Em). by apply member_other; [eexists|]. }
  assert (forall source v, w3_d2_holds grant_class_of g' c pid source v = w3_d2_holds grant_class_of g c pid source v) as Hd2.
  { intros source v. unfold w3_d2_holds. rewrite d2_facts_framed, member_rows_framed. done. }
  assert (forall source v, w3_d1_holds grant_class_of g' c pid source v evidence = w3_d1_holds grant_class_of g c pid source v evidence) as Hd1.
  { intros source v. unfold w3_d1_holds. rewrite via_framed. done. }
  destruct (evidence_get "source" evidence); try done. rewrite Hd2, Hd1. done.
Qed.
End Frame.

(** ** Re-checks do not raise *)

(** Ids are positive and a resolved type is not blank. *)
Definition principals_wf (g : gate) : Prop :=
  (forall cid c, contracts g !! cid = Some c -> 0 < cid) /\
  (forall fp, fp ∈ principals_ (stored g) -> 0 < fp_id fp /\ 0 < fp_function fp /\ option_all (fun s => str_strip s <> "") (resolved_type fp)).

Section Total.
Variable grant_class_of : string -> option string.
Variable g : gate.
Hypothesis Hkeys : keys_ok g.
Hypothesis Hhex : rows_hex g.
Hypothesis Hwf : principals_wf g.

Lemma principal_rows_wf pid addr key exclude x : x ∈ member_principal_rows grant_class_of g pid addr key exclude ->
  exists f, function_principal_fact x.1 x.2 = Some f.
Proof.
  intros (fp & Hfp & H)%list_elem_of_omap. unfold joined in H. destruct (List.find _ _) as [ef|]; cbn [mbind option_bind] in H; [|done].
  destruct (contracts g !! ef_contract ef) as [m|] eqn:Em; cbn [mbind option_bind fst snd] in H; [|done]. destruct (_ && _); [|done]. injection H as <-. cbn [fst snd].
  destruct (proj2 Hwf fp Hfp) as (H1 & H2 & H3). pose proof (proj1 Hwf _ _ Em) as H4. rewrite <- (Hkeys _ _ Em) in H4.
  exists (encode_fact (mkFact None (fp_id fp) (fp_function fp) (c_id m) (str_lower (address m)) (resolved_type fp))).
  apply (fact_rebuilds (mkFact None (fp_id fp) (fp_function fp) (c_id m) (str_lower (address m)) (resolved_type fp))).
  split_and!; try done. cbn. by apply text_lower_address, (proj1 Hhex (ef_contract ef)).
Qed.

Lemma first_per_member_elem sn l x : x ∈ first_per_member sn l -> x ∈ l.
Proof. revert sn. induction l as [|y l IH]; intros sn; [done|]. cbn. case_bool_decide; [intros H'; right; by eapply IH|]. intros [->|H']%elem_of_cons; [by left|right; by eapply IH]. Qed.

Lemma d2_facts_total pid addr key exclude : is_Some (d2_principal_facts grant_class_of g pid addr key exclude).
Proof.
  unfold d2_principal_facts. apply mapM_is_Some, Forall_forall. intros x Hx. rewrite merge_sort_Permutation in Hx. apply first_per_member_elem in Hx.
  apply filter_elem in Hx as [Hx _]. destruct (principal_rows_wf _ _ _ _ _ Hx) as [f Hf]. unfold compose. rewrite Hf. by eexists.
Qed.

Lemma via_total pid via key exclude : is_Some (via_transitivity grant_class_of g pid via key exclude).
Proof.
  unfold via_transitivity. destruct (head _); [by eexists|]. unfold principal_perimeter_fact. destruct (List.filter _ _) as [|x l] eqn:E; [by eexists|].
  assert (x ∈ member_principal_rows grant_class_of g pid via key exclude) as Hx by (eapply (proj1 (filter_elem _ _ x)); rewrite E; by left).
  destruct (principal_rows_wf _ _ _ _ _ Hx) as [f Ef]. cbn [fmap option_fmap option_map]. rewrite Ef. by eexists.
Qed.

Lemma holds_total c pid rule evidence via : is_Some (witness_fact_holds grant_class_of g c pid rule evidence via).
Proof.
  assert (forall source v, is_Some (w3_d2_holds grant_class_of g c pid source v)) as Hd2.
  { intros source v. unfold w3_d2_holds. destruct (d2_facts_total pid (str_lower (address c)) (chain_key (c_chain c)) (Some (c_id c))) as [fs ->].
    destruct (String.eqb source "function_principal"); [by eexists|]. destruct (negb _); by eexists. }
  assert (forall source v, is_Some (w3_d1_holds grant_class_of g c pid source v evidence)) as Hd1.
  { intros source v. unfold w3_d1_holds. destruct (via_total pid v (chain_key (c_chain c)) (Some (c_id c))) as [[p|] ->]; by eexists. }
  unfold witness_fact_holds. destruct (evidence_get "source" evidence) as [| | | |source| |]; repeat (case_match; try by eexists); auto.
Qed.
End Total.

Lemma filter_rows_total f l : (forall kw, kw ∈ l -> is_Some (f kw)) -> exists r, filter_rows f l = Some r /\ forall kw, kw ∈ r <-> kw ∈ l /\ f kw = Some true.
Proof.
  induction l as [|x l IH]; intros H; cbn [filter_rows]; [exists []; split; [done|]; intros kw; split; [by intros ?%not_elem_of_nil|by intros [?%not_elem_of_nil _]]|].
  destruct (H x ltac:(by left)) as [b Eb]. rewrite Eb. destruct IH as (r & -> & Hr); [intros kw Hkw; apply H; by right|]. cbn [mbind option_bind].
  eexists. split; [done|]. intros kw. destruct b; rewrite ?elem_of_cons, Hr, ?elem_of_cons; naive_solver.
Qed.

(** ** The rows of an admission *)

(** A written row carries what was written, unless it stood before. *)
Lemma write_witness_row cid pid rule e via now t k w t' : write_witness cid pid rule e via now t = Some (k, w, t') ->
  (forall k', k' <> k -> witnesses t' !! k' = witnesses t !! k') /\ (evidence_ w = e \/ exists w0, witnesses t !! k = Some w0 /\ row_active w0).
Proof.
  unfold write_witness. destruct (negb _ || negb _); [done|]. destruct (optional _ _) as [v|]; cbn [mbind option_bind]; [|done]. intros [= <- <- <-]. cbn. split.
  - intros k' Hne. by rewrite lookup_insert_ne.
  - destruct (witnesses t !! _) as [w0|]; [|by left]. destruct (revoked_at w0) eqn:E; [by left|right; by exists w0].
Qed.

Lemma write_facts_frame cid pid now l t t' k : write_facts cid pid now l t = Some t' -> key_contract k <> cid -> witnesses t' !! k = witnesses t !! k.
Proof.
  intros H Hk. revert t H. induction l as [|[[r e] v] l IH]; intros t; cbn [write_facts]; [by intros [= ->]|].
  destruct (write_witness _ _ _ _ _ _ t) as [[[k1 w1] t1]|] eqn:Ew; cbn [mbind option_bind snd]; [|done]. intros H. rewrite (IH _ H).
  apply (proj1 (write_witness_row _ _ _ _ _ _ _ _ _ _ Ew)). intros ->. by apply write_witness_spec in Ew as (_ & ? & _).
Qed.

Lemma write_facts_row gc g c pid cid now l t t' f : Forall (fact_good gc g c pid) l -> write_facts cid pid now l t = Some t' -> f ∈ l ->
  exists w, witnesses t' !! (cid, pid, f.1.1, Some f.2) = Some w /\ row_active w /\
    ((exists w0, witnesses t !! (cid, pid, f.1.1, Some f.2) = Some w0 /\ row_active w0) \/
     exists e, (f.1.1, e, f.2) ∈ l /\ evidence_ w = JDict e).
Proof.
  intros HF. revert t. induction HF as [|[[rule e] via] l (Hr & Hv & Ha & _) HF IH]; intros t; cbn [write_facts]; [by intros _ ?%not_elem_of_nil|]. cbn [fst snd] in *.
  destruct (write_witness cid pid rule (JDict e) (JStr via) now t) as [[[k w] t1]|] eqn:Ew; cbn [mbind option_bind snd]; [|done]. intros Hrest Hf.
  pose proof (write_witness_spec _ _ _ _ _ _ _ _ _ _ Ew) as (_ & _ & _ & _ & Hw & Hact & _). destruct (write_witness_row _ _ _ _ _ _ _ _ _ _ Ew) as [Hother Hev].
  assert (k = (cid, pid, rule, Some via)) as ->.
  { unfold write_witness in Ew. destruct (negb _ || negb _); [done|]. unfold optional in Ew. rewrite (require_address_ok via Ha) in Ew. by injection Ew. }
  pose proof (write_facts_grows _ _ _ _ _ _ Hrest) as Hgr. apply elem_of_cons in Hf as [->|Hf]; cbn [fst snd].
  - exists w. split_and!; [by apply (grown_active _ _ Hgr)|done|]. destruct Hev as [->|Hev]; [right; exists e; split; [by left|done]|by left].
  - destruct (IH t1 Hrest Hf) as (w' & Hw' & Ha' & Hcase). exists w'. split_and!; try done. destruct Hcase as [(w0 & Hw0 & Ha0)|(e' & Hin & He')].
    + destruct (decide ((cid, pid, f.1.1, Some f.2) = (cid, pid, rule, Some via))) as [E|Hne]; [|left; exists w0; by rewrite <- Hother].
      rewrite E in Hw0, Hw' |- *. destruct Hev as [Hev|Hev]; [|left; exact Hev]. right. exists e. injection E as -> ->. split; [by left|].
      pose proof (eq_trans (eq_sym (grown_active _ _ Hgr _ _ Hw Hact)) Hw') as Eq. by injection Eq as <-.
    + right. exists e'. split; [by right|done].
Qed.

(** The chain ids of the known names are positive. *)
Lemma chain_id_positive o n : chain_id_for_chain_name o = Some n -> 0 < n.
Proof.
  unfold chain_id_for_chain_name. destruct o as [s|]; [|done]. destruct (String.eqb _ _); [done|]. intros H.
  assert (map_Forall (fun _ n => 0 < n) chain_name_to_id_map) as HF by (apply (bool_decide_unpack _); vm_compute; exact I). by apply (HF _ _ H).
Qed.

(** Promotion of a free row whose new table has a code proof on its chain and a
    standing row that verifies. *)
Lemma promote_succeeds gc g t c pid n kw :
  keys_ok g -> rows_hex g -> principals_wf g -> protocol_id c = None -> 0 < pid -> chain_id_for_chain_name (c_chain c) = Some n ->
  (w ← code_row g c; code_absent_at_probe w) <> Some true -> existsb (w1_on_chain n) (rows_of (put_table t g) (c_id c) pid) = true ->
  kw ∈ rows_of (put_table t g) (c_id c) pid -> row_rule kw ∈ ADMITTING_WITNESS_RULES -> row_holds gc (put_table t g) c kw = Some true ->
  promote gc c pid (put_table t g) = Some (true, mark_membership_dirty pid (put_contract (set_membership (Some pid) (Some pid) c) (put_table t g))).
Proof.
  intros K Hhex Hwf Hfree Hpid Hn Habs Hw1 Hkw Hr Hholds. unfold promote. rewrite (proj2 (Z.ltb_lt 0 pid) Hpid). cbn [negb].
  rewrite Hfree, bool_decide_eq_false_2 by done. rewrite bool_decide_eq_false_2 by (by intros [? ?]).
  change (code_row (put_table t g) c) with (code_row g c). rewrite (bool_decide_eq_false_2 _ Habs), Hn.
  destruct (filter_rows_total (row_holds gc (put_table t g) c) (List.filter (fun kw => is_admitting (row_rule kw)) (rows_of (put_table t g) (c_id c) pid))) as (adm & Eadm & Hadm).
  { intros kw' _. by apply holds_total. }
  rewrite Eadm, Hw1. cbn [mbind option_bind]. assert (kw ∈ adm) as Hin; [|by destruct adm; [apply not_elem_of_nil in Hin|]].
  apply Hadm. split; [|done]. apply filter_elem. split; [done|]. by apply bool_decide_eq_true_2.
Qed.

(** The code proof of an admission is on the row's chain. *)
Lemma code_proof_written cid pid n b now t k x t' : write_witness cid pid W1_CODE (JDict (encode (Code n b))) JNone now t = Some (k, x, t') ->
  (forall x0, witnesses t !! ((cid, pid, W1_CODE, None) : witness_key) = Some x0 -> row_active x0 -> code_proof n (cid, pid, W1_CODE, None) x0) ->
  k = (cid, pid, W1_CODE, None) /\ witnesses t' !! k = Some x /\ row_active x /\ w1_on_chain n (k, x) = true.
Proof.
  intros E Hcode. assert (k = (cid, pid, W1_CODE, None)) as -> by (unfold write_witness in E; destruct (negb _ || negb _); [done|]; by injection E).
  pose proof (write_witness_spec _ _ _ _ _ _ _ _ _ _ E) as (_ & _ & _ & _ & Hx & Hact & Hkeep). destruct (write_witness_row _ _ _ _ _ _ _ _ _ _ E) as [_ Hev].
  split_and!; try done. unfold w1_on_chain. cbn [row_rule fst snd]. rewrite String.eqb_refl. cbn [andb]. destruct Hev as [->|(x0 & Hx0 & Ha0)]; [apply jeq_int|].
  destruct (Hcode x0 Hx0 Ha0) as [_ Hj]. rewrite (Hkeep _ _ Hx0 Ha0) in Hx. by injection Hx as <-.
Qed.

(** ** Claims *)

(** C18: A derivable candidate is admitted.  Over well-formed rows, an unclaimed
    row for which some fact is derived that no unrevoked row already stands
    for, on a known chain with its code observed present, and with no code proof
    of another chain standing, is promoted by the same call that derives it: the
    call does not raise, the row has the protocol, and the protocol is queued. *)
Theorem derivable_candidate_admitted gc g c pid h now l probe n w b :
  keys_ok g -> rows_hex g -> principals_wf g -> contracts g !! c_id c = Some c -> protocol_id c = None -> 0 < pid ->
  chain_id_for_chain_name (c_chain c) = Some n -> code_row g c = Some w -> code_absent_at_probe w = Some false -> code_probe_block w = Some b -> 0 <= b ->
  (forall x, witnesses (table g) !! ((c_id c, pid, W1_CODE, None) : witness_key) = Some x -> row_active x -> code_proof n (c_id c, pid, W1_CODE, None) x) ->
  derive_admitting_facts gc g c pid h = Some (l, probe) ->
  (exists f, f ∈ l /\ forall x, witnesses (table g) !! (c_id c, pid, f.1.1, Some f.2) = Some x -> ~ row_active x) ->
  exists g', attempt_admission gc c pid h now g = Some (Some Promoted, g') /\
    contracts g' !! c_id c = Some (set_membership (Some pid) (Some pid) c) /\ pid ∈ dirty g'.
Proof.
  intros K Hhex Hwf Hc Hfree Hpid Hn Hw Habs Hb Hb0 Hcode Hd (f & Hf & Hfresh). pose proof (proj1 Hhex _ _ Hc) as Haddr.
  pose proof (derived_good gc g c pid K Hhex Haddr h l probe Hd) as HF. unfold attempt_admission, bind_and_promote.
  destruct (address_nonempty _ Haddr) as [Hne _]. apply String.eqb_neq in Hne. rewrite Hne, Hw, Hn, Hd. cbn [mbind option_bind]. rewrite Habs, Hb. cbn [fst snd].
  destruct l as [|f0 l0]; [by apply not_elem_of_nil in Hf|]. set (facts := f0 :: l0) in *.
  assert (w1_evidence (JInt n) (JInt b) = Some (encode (Code n b))) as ->.
  { unfold w1_evidence. by rewrite (positive_ok n (chain_id_positive _ _ Hn)), (block_ok b Hb0). }
  cbn [mbind option_bind]. destruct (write_witness (c_id c) pid W1_CODE (JDict (encode (Code n b))) JNone now (table g)) as [[[k1 x1] t1]|] eqn:E1.
  2: { exfalso. unfold write_witness in E1. assert (validate_evidence W1_CODE (JDict (encode (Code n b))) = true) as Hv.
       { apply (typed_valid (Code n b)); [|done]. split; [by apply (chain_id_positive (c_chain c))|done]. }
       rewrite Hv, (bool_decide_eq_true_2 (W1_CODE ∈ WITNESS_RULES)) in E1 by (by left). done. }
  destruct (code_proof_written _ _ _ _ _ _ _ _ _ E1 Hcode) as (-> & Hx1 & Hact1 & Hon). destruct (write_witness_row _ _ _ _ _ _ _ _ _ _ E1) as [Hother1 _].
  cbn [mbind option_bind snd]. destruct (write_facts_total gc g c pid (c_id c) now facts t1 HF) as (t2 & E2 & _). rewrite E2. cbn [mbind option_bind].
  destruct (write_facts_row gc g c pid (c_id c) now facts t1 t2 f HF E2 Hf) as (xf & Hxf & Hactf & [(x0 & Hx0 & Ha0)|(e & Hein & Hev)]);
    pose proof (proj1 (Forall_forall _ _) HF f Hf) as (Hr & _).
  { exfalso. rewrite Hother1 in Hx0; [by apply (Hfresh x0)|]. intros E. injection E as E _. by apply (admitting_not_code _ Hr). }
  rewrite (promote_succeeds gc g t2 c pid n ((c_id c, pid, f.1.1, Some f.2), xf)); try done.
  - cbn [mbind option_bind fst snd]. eexists. split; [done|]. cbn. split; [apply lookup_insert_eq|set_solver].
  - rewrite Hw. cbn. by rewrite Habs.
  - apply existsb_elem. eexists. split; [|exact Hon]. apply rows_of_elem. cbn. split_and!; try done. by apply (grown_active _ _ (write_facts_grows _ _ _ _ _ _ E2)).
  - by apply rows_of_elem.
  - unfold row_holds. cbn. rewrite Hev, (holds_framed gc g t2 c pid K Hc Hfree); [by apply (proj1 (Forall_forall _ _) HF) in Hein as (_ & _ & _ & ?)|].
    intros k Hk. rewrite (write_facts_frame _ _ _ _ _ _ _ E2 Hk). apply Hother1. by intros ->.
Qed.

Lemma ladder_principals : principals_wf ladder.
Proof.
  split.
  - intros cid c Hc. apply elem_of_map_to_list in Hc.
    assert (Forall (fun kc : Z * contract => 0 < kc.1) (map_to_list (contracts ladder))) as HF by (apply (bool_decide_unpack _); vm_compute; exact I).
    by apply (proj1 (Forall_forall _ _) HF) in Hc.
  - assert (principals_ (stored ladder) = []) as -> by (vm_compute; reflexivity). by intros r ?%not_elem_of_nil.
Qed.

(** Row 4 has no witness before its admission. *)
Lemma ladder_fresh k x : witnesses (table ladder) !! k = Some x -> key_contract k <> 4.
Proof.
  intros Hk. apply elem_of_map_to_list in Hk.
  assert (Forall (fun kw : witness_key * witness => key_contract kw.1 <> 4) (map_to_list (witnesses (table ladder)))) as HF by (apply (bool_decide_unpack _); vm_compute; exact I).
  by apply (proj1 (Forall_forall _ _) HF) in Hk.
Qed.

Lemma derivable_candidate_admitted_witness : exists g',
  attempt_admission no_claims (fresh_row 4 controlled_at None) 7 false 100 ladder = Some (Some Promoted, g') /\
  contracts g' !! 4 = Some (set_membership (Some 7) (Some 7) (fresh_row 4 controlled_at None)).
Proof.
  assert ((fun r => (List.length r.1, r.2)) <$> derive_admitting_facts no_claims ladder (fresh_row 4 controlled_at None) 7 false = Some (1%nat, false)) as E
    by (vm_compute; reflexivity).
  destruct (derive_admitting_facts no_claims ladder (fresh_row 4 controlled_at None) 7 false) as [[l probe]|] eqn:Ed; [|discriminate E].
  cbn [fmap option_fmap option_map fst snd] in E. injection E as El Ep. destruct l as [|f l]; [discriminate El|].
  destruct (derivable_candidate_admitted no_claims ladder (fresh_row 4 controlled_at None) 7 false 100 (f :: l) probe 1 (creation_of "e") 20
    ladder_keys ladder_hex ladder_principals) as (g' & Hg & Hc & _).
  - vm_compute. reflexivity.
  - reflexivity.
  - reflexivity.
  - vm_compute. reflexivity.
  - vm_compute. reflexivity.
  - reflexivity.
  - reflexivity.
  - discriminate.
  - intros x Hk _. destruct (ladder_fresh _ _ Hk). reflexivity.
  - exact Ed.
  - exists f. split; [left|]. intros x Hx. destruct (ladder_fresh _ _ Hx). reflexivity.
  - exists g'. split; [exact Hg|exact Hc].
Defined.
