(* ===== verification/EvalContext.v ===== *)
(** * Frames, contexts and Python idioms of the predicate evaluator

    The records the evaluator threads ([CallFrame] and the two contexts of
    [services/resolution/adapters] and [predicate_evaluator/core]) and the Python
    idioms its definitions are written with: [==] on untyped values, iteration,
    insertion-ordered dicts, [isinstance] tests. *)

From stdpp Require Import base sets list strings sorting.
From Stdlib Require Import String Ascii ZArith Lia.
From S2P Require Import Prelude PyText.

Local Open Scope string_scope.

(** ** Python idioms *)

(** [v == w]: a bool equals the integer of its value, dicts compare without
    order. *)
Fixpoint py_eqb (v w : pyval) {struct v} : bool :=
  match v, w with
  | PyNone, PyNone => true
  | PyBool a, PyBool b => Bool.eqb a b
  | PyInt a, PyInt b => (a =? b)%Z
  | PyBool a, PyInt b => (Z.b2z a =? b)%Z
  | PyInt a, PyBool b => (a =? Z.b2z b)%Z
  | PyStr a, PyStr b => String.eqb a b
  | PyList l, PyList m =>
      (fix eq_list (l m : list pyval) : bool :=
         match l, m with
         | [], [] => true
         | v :: l, w :: m => py_eqb v w && eq_list l m
         | _, _ => false
         end) l m
  | PyDict d, PyDict e =>
      (List.length d =? List.length e)%nat &&
      forallb (fun kv => match assoc_get kv.1 e with Some w => py_eqb kv.2 w | None => false end) d
  | _, _ => false
  end.

(** [isinstance(v, str)] and the text, [isinstance(v, int)] and the integer (a
    bool is one), [isinstance(v, dict)] and the entries. *)
Definition as_str (v : pyval) : option string := match v with PyStr s => Some s | _ => None end.

Definition as_int (v : pyval) : option Z :=
  match v with PyInt z => Some z | PyBool b => Some (Z.b2z b) | _ => None end.

Definition as_dict (v : pyval) : option (list (string * pyval)) :=
  match v with PyDict d => Some d | _ => None end.

(** A dict key must be hashable; [in] on a dict or set raises otherwise. *)
Definition hashable (v : pyval) : bool := match v with PyList _ | PyDict _ => false | _ => true end.

(** [for x in v]; [None] is the [TypeError] of a value that is not iterable. *)
Definition py_iter (v : pyval) : option (list pyval) :=
  match v with
  | PyList l => Some l
  | PyStr s => Some ((fix chars s := match s with EmptyString => [] | String c s => PyStr (String c "") :: chars s end) s)
  | PyDict d => Some (List.map (fun kv => PyStr kv.1) d)
  | _ => None
  end.

(** [for x in v or []] *)
Definition iter_or_nil (v : pyval) : option (list pyval) := py_iter (py_or v (PyList [])).

(** [v.get(k)]; [None] is the [AttributeError] of a value that is no dict. *)
Definition dget (k : string) (v : pyval) : option pyval :=
  match v with PyDict d => Some (py_get k d) | _ => None end.

(** [(v or {}).get(k)] *)
Definition dget_or (k : string) (v : pyval) : option pyval := dget k (py_or v (PyDict [])).

(** [v in ("a", "b", ...)] *)
Definition py_in (v : pyval) (names : list string) : bool := existsb (py_eq_str v) names.

(** [v in frozenset(...)], which hashes [v] first. *)
Definition py_in_set (v : pyval) (names : list string) : option bool :=
  if hashable v then Some (py_in v names) else None.

(** [any(p(x) for x in l)] and [all(...)]: left to right, stopping at the first
    decisive element; an exception raised before it propagates. *)
Fixpoint any_m {A} (p : A -> option bool) (l : list A) : option bool :=
  match l with
  | [] => Some false
  | x :: l => match p x with Some true => Some true | Some false => any_m p l | None => None end
  end.

Fixpoint all_m {A} (p : A -> option bool) (l : list A) : option bool :=
  match l with
  | [] => Some true
  | x :: l => match p x with Some false => Some false | Some true => all_m p l | None => None end
  end.

(** [[x for x in l if p(x)]] *)
Fixpoint filter_m {A} (p : A -> option bool) (l : list A) : option (list A) :=
  match l with
  | [] => Some []
  | x :: l =>
      match p x with
      | Some b => match filter_m p l with Some r => Some (if b then x :: r else r) | None => None end
      | None => None
      end
  end.

(** [a and b], [a or b], [not a] on tests that may raise. *)
Definition and_m (a b : option bool) : option bool :=
  match a with Some true => b | Some false => Some false | None => None end.
Definition or_m (a b : option bool) : option bool :=
  match a with Some true => Some true | Some false => b | None => None end.

(** [d[k] = v]: in place, or appended. *)
Fixpoint odict_put {K V} `{EqDecision K} (k : K) (v : V) (d : list (K * V)) : list (K * V) :=
  match d with
  | [] => [(k, v)]
  | (k', v') :: d => if decide (k = k') then (k', v) :: d else (k', v') :: odict_put k v d
  end.

Fixpoint odict_get {K V} `{EqDecision K} (k : K) (d : list (K * V)) : option V :=
  match d with [] => None | (k', v) :: d => if decide (k = k') then Some v else odict_get k d end.

(** [list(dict.fromkeys(l))]: first occurrences. *)
Fixpoint fromkeys_from {A} `{EqDecision A} (seen l : list A) : list A :=
  match l with
  | [] => []
  | x :: l => if decide (x ∈ seen) then fromkeys_from seen l else x :: fromkeys_from (x :: seen) l
  end.

Definition fromkeys {A} `{EqDecision A} (l : list A) : list A := fromkeys_from [] l.

(** [s.startswith("0x") and len(s) == n] *)
Definition hex_shaped (n : nat) (s : string) : bool :=
  match str_after "0x" s with Some _ => (String.length s =? n)%nat | None => false end.

(** [re.fullmatch(r"0x[0-9a-fA-F]{n}", s)] and the pattern with [{n,}]. *)
Definition hex_exactly (n : nat) (s : string) : bool :=
  match str_after "0x" s with Some r => (String.length r =? n)%nat && str_forall is_hex r | None => false end.

Definition hex_at_least (n : nat) (s : string) : bool :=
  match str_after "0x" s with Some r => (n <=? String.length r)%nat && str_forall is_hex r | None => false end.

(** ** [CallFrame] *)

Record CallFrame := MkFrame {
  protected_contract_address : option string;
  executing_contract_address : option string;
  current_function_signature : option string;
  current_function_selector : option string;
  current_msg_sender : option string;
  current_address_this : option string;
  current_msg_sig : option string;
  bound_parameters : list pyval
}.

Definition frame_root (contract_address function_signature function_selector : option string) : CallFrame :=
  let normalized := str_lower <$> contract_address in
  MkFrame normalized normalized function_signature function_selector None normalized function_selector [].

(** ** Contexts

    [OuterContext] is [adapters.EvaluationContext]: the fields the evaluator
    reads.  The session is present or not; the repositories and [meta] are only
    handed on to the adapters. *)

Record OuterContext := MkOuter {
  chain_id : Z;
  rpc_url : option string;
  outer_block : option Z;
  outer_contract_address : option string;
  outer_state_var_values : option (list (string * pyval));
  session : bool;
  evaluation_stack : list (Z * string * string);
  outer_call_frame : option CallFrame
}.

(** [core.EvaluationContext]; [outer_ctx] is the [_outer_ctx] its adapter
    exposes, absent for the null adapter. *)
Record EvaluationContext := MkCtx {
  contract_address : option string;
  outer_ctx : option OuterContext;
  ctx_block : option Z;
  state_var_values : list (string * pyval);
  call_frame : option CallFrame
}.

(** The context [evaluate_tree_with_registry] builds. *)
Definition registry_context (outer : OuterContext) : EvaluationContext :=
  MkCtx (outer_contract_address outer) (Some outer) (outer_block outer)
    (or_nil (outer_state_var_values outer)) (outer_call_frame outer).

(** Truthiness of an optional text: [x or y]. *)
Definition opt_or (x y : option string) : option string :=
  match x with Some s => if String.eqb s "" then y else x | None => y end.

(** ** Facts about the idioms *)

Lemma elem_of_fromkeys_from {A} `{EqDecision A} (x : A) seen l :
  x ∈ fromkeys_from seen l <-> x ∉ seen /\ x ∈ l.
Proof.
  revert seen. induction l as [|y l IH]; intros seen; cbn [fromkeys_from]; [set_solver|].
  case_decide as Hy; [rewrite IH|rewrite elem_of_cons, IH]; split.
  - set_solver.
  - intros [Hx Hin]. split; [done|]. apply elem_of_cons in Hin as [->|Hin]; done.
  - intros [-> | [Hx Hin]]; set_solver.
  - intros [Hx Hin]. destruct (decide (x = y)) as [->|Hne]; [by left|]. right. set_solver.
Qed.

Lemma elem_of_fromkeys {A} `{EqDecision A} (x : A) l : x ∈ fromkeys l <-> x ∈ l.
Proof. unfold fromkeys. rewrite elem_of_fromkeys_from. set_solver. Qed.

Lemma NoDup_fromkeys_from {A} `{EqDecision A} (seen l : list A) : NoDup (fromkeys_from seen l).
Proof.
  revert seen. induction l as [|y l IH]; intros seen; cbn [fromkeys_from]; [constructor|].
  case_decide; [done|]. constructor; [|done]. rewrite elem_of_fromkeys_from. set_solver.
Qed.

Lemma fromkeys_from_ext {A} `{EqDecision A} (s1 s2 l : list A) :
  (forall x, x ∈ s1 <-> x ∈ s2) -> fromkeys_from s1 l = fromkeys_from s2 l.
Proof.
  revert s1 s2. induction l as [|y l IH]; intros s1 s2 E; cbn [fromkeys_from]; [done|].
  destruct (decide (y ∈ s1)) as [H1|H1], (decide (y ∈ s2)) as [H2|H2].
  - by apply IH.
  - by apply E in H1.
  - by apply E in H2.
  - f_equal. apply IH. set_solver.
Qed.

Lemma fromkeys_from_app {A} `{EqDecision A} (seen l m : list A) :
  fromkeys_from seen (l ++ m)%list = (fromkeys_from seen l ++ fromkeys_from (seen ++ l)%list m)%list.
Proof.
  revert seen. induction l as [|y l IH]; intros seen; cbn [fromkeys_from app].
  - rewrite app_nil_r. done.
  - destruct (decide (y ∈ seen)) as [Hy|Hy]; rewrite IH.
    + f_equal. apply fromkeys_from_ext. set_solver.
    + cbn [app]. do 2 f_equal. apply fromkeys_from_ext. set_solver.
Qed.

Lemma fromkeys_app {A} `{EqDecision A} (l m : list A) :
  fromkeys (l ++ m)%list = (fromkeys l ++ fromkeys_from l m)%list.
Proof. unfold fromkeys. by rewrite fromkeys_from_app. Qed.

(** What was seen already adds nothing. *)
Lemma fromkeys_from_nil {A} `{EqDecision A} (seen l : list A) :
  (forall x, x ∈ l -> x ∈ seen) -> fromkeys_from seen l = [].
Proof.
  induction l as [|y l IH]; intros Hl; cbn [fromkeys_from]; [done|].
  rewrite decide_True by set_solver. apply IH. set_solver.
Qed.

Lemma fromkeys_from_idemp {A} `{EqDecision A} (seen s2 l : list A) :
  (forall x, x ∈ seen -> x ∈ s2) -> fromkeys_from s2 (fromkeys_from seen l) = fromkeys_from s2 l.
Proof.
  revert seen s2. induction l as [|y l IH]; intros seen s2 Hs; cbn [fromkeys_from]; [done|].
  destruct (decide (y ∈ seen)) as [Hy|Hy].
  - rewrite IH by done. by rewrite decide_True by auto.
  - cbn [fromkeys_from]. destruct (decide (y ∈ s2)) as [Hy2|Hy2].
    + apply IH. set_solver.
    + f_equal. apply IH. set_solver.
Qed.

Lemma fromkeys_from_fromkeys {A} `{EqDecision A} (seen l : list A) :
  fromkeys_from seen (fromkeys l) = fromkeys_from seen l.
Proof. apply fromkeys_from_idemp. set_solver. Qed.

Lemma fromkeys_idemp {A} `{EqDecision A} (l : list A) : fromkeys (fromkeys l) = fromkeys l.
Proof. apply fromkeys_from_fromkeys. Qed.

Lemma fromkeys_NoDup_id {A} `{EqDecision A} (l : list A) : NoDup l -> fromkeys l = l.
Proof.
  unfold fromkeys. assert (forall seen, NoDup l -> (forall x, x ∈ l -> x ∉ seen) -> fromkeys_from seen l = l) as Hg.
  { induction l as [|y l IH]; intros seen Hn Hd; cbn [fromkeys_from]; [done|].
    apply NoDup_cons in Hn as [Hy Hn]. rewrite decide_False by set_solver. f_equal. apply IH; [done|]. set_solver. }
  intros Hn. apply Hg; [done|]. set_solver.
Qed.

Lemma odict_get_put_eq {K V} `{EqDecision K} (k : K) (v : V) d : odict_get k (odict_put k v d) = Some v.
Proof.
  induction d as [|[k' v'] d IH]; cbn; [by rewrite decide_True|].
  case_decide as E; cbn; [by rewrite decide_True|]. by rewrite decide_False.
Qed.

Lemma odict_get_put_ne {K V} `{EqDecision K} (k k' : K) (v : V) d :
  k <> k' -> odict_get k (odict_put k' v d) = odict_get k d.
Proof.
  intros Hne. induction d as [|[k2 v2] d IH]; cbn; [by rewrite decide_False|].
  destruct (decide (k' = k2)) as [->|Hk]; cbn.
  - by rewrite !decide_False by congruence.
  - by rewrite IH.
Qed.

Lemma assoc_put {V} k k' (v : V) (d : list (string * V)) :
  assoc_get k (odict_put k' v d) = if decide (k = k') then Some v else assoc_get k d.
Proof.
  induction d as [|[k2 v2] d IH]; cbn; [done|].
  destruct (decide (k' = k2)) as [->|Hne]; cbn; destruct (decide (k = k2)) as [->|Hk]; try done.
  by rewrite decide_False by congruence.
Qed.

Lemma py_get_put k k' v (d : list (string * pyval)) :
  py_get k (odict_put k' v d) = if decide (k = k') then v else py_get k d.
Proof. unfold py_get. rewrite assoc_put. by case_decide. Qed.

Lemma any_m_true {A} (p : A -> option bool) l : any_m p l = Some true -> exists x, x ∈ l /\ p x = Some true.
Proof.
  induction l as [|x l IH]; cbn; [done|]. destruct (p x) as [[]|] eqn:E; [|intros H|done].
  - intros _. exists x. split; [set_solver|done].
  - destruct (IH H) as (y & Hy & Hp). exists y. split; [set_solver|done].
Qed.

Lemma any_m_false {A} (p : A -> option bool) l : any_m p l = Some false -> forall x, x ∈ l -> p x = Some false.
Proof.
  induction l as [|y l IH]; cbn; intros H x Hx; [set_solver|].
  destruct (p y) as [[]|] eqn:E; try done. apply elem_of_cons in Hx as [->|Hx]; [done|]. by apply IH.
Qed.

Lemma all_m_true {A} (p : A -> option bool) l : all_m p l = Some true -> forall x, x ∈ l -> p x = Some true.
Proof.
  induction l as [|y l IH]; cbn; intros H x Hx; [set_solver|].
  destruct (p y) as [[]|] eqn:E; try done. apply elem_of_cons in Hx as [->|Hx]; [done|]. by apply IH.
Qed.

#[export] Hint Rewrite @elem_of_fromkeys @fromkeys_idemp : psat.
