(* ===== verification/ReachReads.v ===== *)
(** * Reach conditions read at a block ([services/resolution/reach_reads.py])

    A reach condition is a recipe static analysis recorded: operations over
    constants, calldata parameters, storage words and view calls of the subject.
    [read_reach] evaluates it on exact Solidity values at the pass's block and
    keeps every read as the witness; [describe_reach] renders it as it must hold.

    - Recipes are the untyped dicts of the source ([pyval]).
    - A value is a type name and an unbounded integer; the widths are in the
      conversions, decoders and encoders, written with the source's masks and
      shifts.
    - [RM] is the reader's effect: the list of reads it appends to, and the
      exception it may raise.  [Unread] is the module's own exception; [PyError]
      is any other one (a [TypeError] of a malformed recipe), which escapes.
    - [rpc_request] is the RPC client, an argument; at a pinned block it is a
      function of the request, so the pass memo in front of it is invisible. *)

From stdpp Require Import base sets list strings sorting pretty.
From Stdlib Require Import String Ascii ZArith Lia.
From S2P Require Import Prelude PyText EvalContext.

Local Open Scope string_scope.
Local Open Scope Z_scope.

Inductive exn := Unread (reason : string) | PyError.

(** ** The reader's effect *)

Definition RM (A : Type) : Type := list pyval -> (A + exn) * list pyval.

Definition rret {A} (a : A) : RM A := fun reads => (inl a, reads).
Definition rraise {A} (e : exn) : RM A := fun reads => (inr e, reads).
Definition rbind {A B} (m : RM A) (k : A -> RM B) : RM B :=
  fun reads => match m reads with (inl a, reads) => k a reads | (inr e, reads) => (inr e, reads) end.
Definition record_read (r : pyval) : RM () := fun reads => (inl (), (reads ++ [r])%list).
(** [list(self.reads)] *)
Definition current_reads : RM (list pyval) := fun reads => (inl reads, reads).
(** [try: m except _Unread as e: h(e.reason)] *)
Definition catch_unread {A} (m : RM A) (h : string -> RM A) : RM A :=
  fun reads => match m reads with (inr (Unread reason), reads) => h reason reads | r => r end.
Definition unread {A} (reason : string) : RM A := rraise (Unread reason).

Declare Scope reach_scope.
Delimit Scope reach_scope with reach.
Notation "x <- m ;; k" := (rbind m (fun x => k)) (at level 100, m at next level, right associativity) : reach_scope.
Local Open Scope reach_scope.

Definition lift_py {A} (o : option A) : RM A := match o with Some a => rret a | None => rraise PyError end.
Definition lift_unread {A} (reason : string) (o : option A) : RM A :=
  match o with Some a => rret a | None => unread reason end.

Fixpoint rmap {A B} (f : A -> RM B) (l : list A) : RM (list B) :=
  match l with
  | [] => rret []
  | x :: l => b <- f x;; r <- rmap f l;; rret (b :: r)
  end.

(** ** Types *)

Inductive fam := FBool | FAddress | FUint (w : Z) | FInt (w : Z) | FBytes (w : Z).

#[export] Instance fam_eq_dec : EqDecision fam.
Proof. solve_decision. Defined.

(** [\d+], on ASCII text, and its value. *)
Definition digits_value (s : string) : option Z :=
  match s with
  | EmptyString => None
  | _ => if str_forall (fun c => bool_decide (is_Some (digit_of 10 c))) s then int_digits 10 0 true s else None
  end.

Definition int_width (s : string) : option Z :=
  w ← digits_value s; if (8 <=? w) && (w <=? 256) && (w mod 8 =? 0) then Some w else None.

Definition bytes_width (s : string) : option Z :=
  w ← digits_value s; if (1 <=? w) && (w <=? 32) then Some w else None.

Definition family (type_ : string) : option fam :=
  if String.eqb type_ "bool" then Some FBool
  else if String.eqb type_ "address" then Some FAddress
  else match str_after "uint" type_, str_after "int" type_, str_after "bytes" type_ with
       | Some d, _, _ => FUint <$> int_width d
       | None, Some d, _ => FInt <$> int_width d
       | None, None, Some d => FBytes <$> bytes_width d
       | None, None, None => None
       end.

(** [1 << n] and the mask [(1 << n) - 1] *)
Definition pow2 (n : Z) : Z := Z.shiftl 1 n.
Definition mask (n : Z) : Z := pow2 n - 1.

Definition fits_fam (number : Z) (f : fam) : bool :=
  match f with
  | FBool => (number =? 0) || (number =? 1)
  | FAddress => (0 <=? number) && (number <? pow2 160)
  | FUint w => (0 <=? number) && (number <? pow2 w)
  | FInt w => (- pow2 (w - 1) <=? number) && (number <? pow2 (w - 1))
  | FBytes w => (0 <=? number) && (number <? pow2 (8 * w))
  end.

Definition fits (number : Z) (type_ : string) : bool :=
  match family type_ with Some f => fits_fam number f | None => false end.

Definition signed (number bits : Z) : Z :=
  let number := Z.land number (mask bits) in
  if Z.shiftr number (bits - 1) =? 0 then number else number - pow2 bits.

Definition type_bounds (type_ : string) : list Z :=
  match family type_ with
  | Some (FInt w) => [- pow2 (w - 1); -1; 0; 1; pow2 (w - 1) - 1]
  | Some (FUint w) => [0; 1; pow2 w - 1]
  | Some FAddress => [0; 1; pow2 160 - 1]
  | Some (FBytes w) => [0; 1; pow2 (8 * w) - 1]
  | Some FBool | None => [0; 1]
  end.

(** [format(n, "0{width}x")] *)
Definition hex_digits (z : Z) : string := hex_loop (S (Z.to_nat (Z.log2 z))) z "".
Definition format_hex (width : nat) (z : Z) : string :=
  if z <? 0 then String "-" (rjust (width - 1) "0" (hex_digits (- z))) else rjust width "0" (hex_digits z).

Definition render (number : Z) (type_ : string) : string :=
  match family type_ with
  | Some FAddress => "0x" ++ format_hex 40 number
  | Some (FBytes w) => "0x" ++ format_hex (Z.to_nat (2 * w)) number
  | _ => pretty number
  end.

(** [_parse_int]; [None] is the [_Unread] it raises. *)
Definition parse_int (raw : pyval) : option Z := int_text 10 (py_str raw).

(** ** Values *)

Record value := MkValue { val_type : string; number : Z; literal : bool }.

Definition CONVERSION_UNSUPPORTED : exn := Unread "reach_condition_conversion_unsupported".

(** The conversion between two families, after the literal and the identity
    cases. *)
Definition convert_fam (n : Z) (source into : fam) : option Z :=
  match source, into with
  | FUint w, FUint tw => Some (Z.land n (mask tw))
  | FInt w, FInt tw => Some (if tw <? w then signed n tw else n)
  | FUint w, FInt tw => if w =? tw then Some (signed n w) else None
  | FInt w, FUint tw => if w =? tw then Some (Z.land n (mask w)) else None
  | FBytes w, FBytes tw =>
      let shift := 8 * Z.abs (tw - w) in
      Some (if w <? tw then Z.shiftl n shift else Z.shiftr n shift)
  | FBytes w, FUint tw => if 8 * w =? tw then Some n else None
  | FUint w, FBytes tw => if w =? 8 * tw then Some n else None
  | FUint w, FAddress | FAddress, FUint w => if w =? 160 then Some n else None
  | _, _ => None
  end.

Definition convert (v : value) (target : string) : Z + exn :=
  if literal v then if fits (number v) target then inl (number v) else inr CONVERSION_UNSUPPORTED
  else match family (val_type v), family target with
       | Some source, Some into =>
           if decide (source = into) then inl (number v)
           else match convert_fam (number v) source into with Some n => inl n | None => inr CONVERSION_UNSUPPORTED end
       | _, _ => inr CONVERSION_UNSUPPORTED
       end.

Definition COMPARE : list string := ["eq"; "ne"; "lt"; "lte"; "gt"; "gte"].

Definition compare_op (op : string) (a b : Z) : bool :=
  if String.eqb op "eq" then a =? b
  else if String.eqb op "ne" then negb (a =? b)
  else if String.eqb op "lt" then a <? b
  else if String.eqb op "lte" then a <=? b
  else if String.eqb op "gt" then b <? a
  else b <=? a.

Definition fam_kind (f : fam) : Z :=
  match f with FBool => 0 | FAddress => 1 | FUint _ => 2 | FInt _ => 3 | FBytes _ => 4 end.

Definition comparable (left_literal right_literal : bool) (lf rf : fam) : bool :=
  (left_literal && right_literal)
  || ((fam_kind lf =? fam_kind rf) && negb ((fam_kind lf =? 4) && negb (bool_decide (lf = rf)))).

Definition compare_values (op : string) (lhs rhs : value) : bool + exn :=
  match (if literal lhs && negb (literal rhs)
         then match convert lhs (val_type rhs) with
              | inl n => inl (MkValue (val_type rhs) n false, rhs) | inr e => inr e end
         else if literal rhs && negb (literal lhs)
         then match convert rhs (val_type lhs) with
              | inl n => inl (lhs, MkValue (val_type lhs) n false) | inr e => inr e end
         else inl (lhs, rhs)) with
  | inr e => inr e
  | inl (lhs, rhs) =>
      match family (val_type lhs), family (val_type rhs) with
      | Some lf, Some rf =>
          if negb (comparable (literal lhs) (literal rhs) lf rf) then inr (Unread "reach_condition_type_mismatch")
          else if bool_decide (lf = FBool) && negb (String.eqb op "eq" || String.eqb op "ne")
          then inr (Unread "reach_condition_type_mismatch")
          else inl (compare_op op (number lhs) (number rhs))
      | _, _ => inr (Unread "reach_condition_type_unsupported")
      end
  end.

Definition WORD_MALFORMED : exn := Unread "reach_condition_word_malformed".

Definition decode_word (word : Z) (type_ : string) : Z + exn :=
  match family type_ with
  | Some (FBytes w) =>
      let low := 256 - 8 * w in
      if negb (Z.land word (mask low) =? 0) then inr WORD_MALFORMED else inl (Z.shiftr word low)
  | f =>
      let number := match f with Some (FInt _) => signed word 256 | _ => word end in
      if fits number type_ then inl number else inr WORD_MALFORMED
  end.

(** [word >> (8 * offset)] raises on a negative offset. *)
Definition decode_packed (word offset size : Z) (type_ : string) : Z + exn :=
  if offset <? 0 then inr PyError
  else
    let number := Z.land (Z.shiftr word (8 * offset)) (mask (8 * size)) in
    let number := match family type_ with Some (FInt _) => signed number (8 * size) | _ => number end in
    if fits number type_ then inl number else inr WORD_MALFORMED.

Definition encode (v : value) : Z + exn :=
  if negb (fits (number v) (val_type v)) then inr (Unread "reach_condition_argument_unsupported")
  else match family (val_type v) with
       | Some (FInt _) => inl (Z.land (number v) (mask 256))
       | Some (FBytes w) => inl (Z.shiftl (number v) (256 - 8 * w))
       | _ => inl (number v)
       end.

Definition lift_sum {A} (s : A + exn) : RM A := match s with inl a => rret a | inr e => rraise e end.

(** ** The recipe's nodes and parameters *)

(** [_nodes]: the dicts of a recipe, in its own order; [None] when [arguments]
    is no iterable.  The results of the sub-values are computed entry by entry
    so that the recursion is on the value. *)
Fixpoint nodes (node : pyval) : option (list (list (string * pyval))) :=
  match node with
  | PyDict d =>
      let sub := List.map (fun kv => (kv.1, (nodes kv.2, match kv.2 with PyList l => List.map nodes l | _ => [] end))) d in
      let field key := match assoc_get key sub with Some (r, _) => r | None => Some [] end in
      value ← field "value"; left ← field "left"; right ← field "right";
      args ← (match iter_or_nil (py_get "arguments" d) with
              | None => None
              | Some _ =>
                  (* only the members of a list are dicts *)
                  mapM (M := option) id (match assoc_get "arguments" sub with Some (_, l) => l | None => [] end)
              end);
      Some (d :: value ++ left ++ right ++ List.concat args)%list
  | _ => Some []
  end.

(** [_parameters]: index to type and name, a later node overwriting an earlier
    one. *)
Definition parameters (node : pyval) : option (list (Z * (string * string))) :=
  ns ← nodes node;
  Some (fold_left (fun acc (n : list (string * pyval)) =>
          if py_eq_str (py_get "op" n) "param" then
            match as_int (py_get "index" n) with
            | Some i => odict_put i (py_str (py_get "type" n), py_str (py_get "name" n)) acc
            | None => acc
            end
          else acc) ns []).

(** ** The reader *)

Record Reader := MkReader {
  reader_rpc_url : option string;
  reader_contract : option string;
  reader_block : option Z;
  reader_chain_id : option Z;
  calldata_free : bool
}.

(** [_entry_frame] *)
Definition entry_frame (frame : option CallFrame) : bool :=
  match frame with
  | None => true
  | Some f =>
      if negb (bool_decide (bound_parameters f = [])) ||
         match current_msg_sender f with Some s => negb (String.eqb s "") | None => false end
      then false
      else bool_decide (executing_contract_address f = protected_contract_address f)
  end.

(** [_Reader.for_context] *)
Definition for_context (ctx : EvaluationContext) : Reader :=
  let url := u ← outer_ctx ctx; u ← rpc_url u; if String.eqb u "" then None else Some u in
  let contract := opt_or (o ← outer_ctx ctx; outer_contract_address o) (contract_address ctx) in
  let block := o ← outer_ctx ctx; b ← outer_block o; if b <=? 0 then None else Some b in
  let frame := match call_frame ctx with Some f => Some f | None => o ← outer_ctx ctx; outer_call_frame o end in
  MkReader url (c ← contract; if hex_exactly 40 c then Some (str_lower c) else None) block
    (chain_id <$> outer_ctx ctx) (entry_frame frame).

Record ReachTruth := MkTruth {
  holds : option bool;
  truth_reads : list pyval;
  reason : option string;
  calldata : option (list (string * string))
}.

Section Reader.
(** The RPC client: [rpc_request(url, method, params, chain_id)], [None] when it
    raises. *)
Context (rpc_request : string -> string -> list pyval -> option Z -> option pyval).
Context (self : Reader).

(** [_rpc_word] *)
Definition rpc_word (url method : string) (params : list pyval) (chain : option Z) : option string :=
  match rpc_request url method params chain with
  | Some (PyStr raw) => if hex_at_least 64 raw then Some (str_lower raw) else None
  | _ => None
  end.

Definition read_record (method : string) (params : list pyval) (block : Z) (result : option string) : pyval :=
  PyDict ([("method", PyStr method); ("params", PyList params); ("block", PyInt block)]
    ++ match result with Some raw => [("result", PyStr raw)] | None => [("error", PyBool true)] end)%list.

(** [_Reader._rpc] *)
Definition rpc (method : string) (params : list pyval) : RM (option Z) :=
  match reader_rpc_url self, reader_contract self, reader_block self with
  | Some url, Some _, Some block =>
      let params := (params ++ [PyStr (hex_text block)])%list in
      match rpc_word url method params (reader_chain_id self) with
      | None => _ <- record_read (read_record method params block None);; rret None
      | Some raw =>
          _ <- record_read (read_record method params block (Some raw));;
          n <- lift_py (int_text 16 (str_take 66 raw));; rret (Some n)
      end
  | _, _, _ => unread "reach_condition_no_rpc"
  end.

Definition call_params (data : string) : list pyval :=
  [PyDict [("to", py_of_opt (reader_contract self)); ("data", PyStr data)]].

(** [_Reader._storage] *)
Definition storage_slot (node : list (string * pyval)) (type_ : string) : RM value :=
  match as_str (py_get "slot" node), as_int (py_get "offset" node), as_int (py_get "size" node) with
  | Some slot, Some offset, Some size =>
      if negb ((0 <? size) && (size <=? 32)) then unread "reach_condition_storage_unread"
      else if 32 <? offset + size then unread "reach_condition_storage_unread"
      else
        word <- rpc "eth_getStorageAt" [py_of_opt (reader_contract self); PyStr slot];;
        word <- lift_unread "reach_condition_storage_unread" word;;
        n <- lift_sum (decode_packed word offset size type_);; rret (MkValue type_ n false)
  | _, _, _ => unread "reach_condition_storage_unread"
  end.

Definition storage (node : list (string * pyval)) (type_ : string) : RM value :=
  match py_get "getter" node with
  | PyStr getter =>
      if hex_exactly 8 getter then
        word <- rpc "eth_call" (call_params (str_lower getter));;
        match word with
        | Some word => n <- lift_sum (decode_word word type_);; rret (MkValue type_ n false)
        | None => storage_slot node type_
        end
      else storage_slot node type_
  | _ => storage_slot node type_
  end.

(** The reader's assignment of calldata parameters. *)
Context (assigned : list (Z * Z)).

(** [_evaluate]; [fuel] is [33 - depth], the source's own bound on nesting. *)
Fixpoint evaluate (fuel : nat) (node : pyval) : RM value :=
  match fuel, node with
  | S fuel, PyDict d =>
      let op := py_get "op" d in
      let required key := evaluate fuel (py_get key d) in
      match py_get "type" d with
      | PyStr type_ =>
          match family type_ with
          | None => unread "reach_condition_type_unsupported"
          | Some _ =>
              if py_eq_str op "const" then
                n <- lift_unread "reach_condition_malformed" (parse_int (py_get "value" d));;
                rret (MkValue type_ n (py_truthy (py_get "literal" d)))
              else if py_eq_str op "self" then
                c <- lift_unread "reach_condition_subject_unknown" (reader_contract self);;
                n <- lift_py (int_text 16 c);; rret (MkValue "address" n false)
              else if py_eq_str op "chainid" then
                c <- lift_unread "reach_condition_chain_unknown" (reader_chain_id self);;
                rret (MkValue "uint256" c false)
              else if py_eq_str op "param" then
                if negb (hashable (py_get "index" d)) then rraise PyError
                else
                  n <- lift_unread "reach_condition_calldata_unassigned"
                         (i ← as_int (py_get "index" d); odict_get i assigned);;
                  rret (MkValue type_ n false)
              else if py_eq_str op "storage" then storage d type_
              else if py_eq_str op "call" then
                match py_get "selector" d with
                | PyStr selector =>
                    if negb (hex_exactly 8 selector) then unread "reach_condition_malformed"
                    else
                      args <- lift_py (iter_or_nil (py_get "arguments" d));;
                      words <- rmap (fun a => v <- evaluate fuel a;; lift_sum (encode v)) args;;
                      word <- rpc "eth_call" (call_params (str_lower selector
                                ++ str_join "" (List.map (format_hex 64) words)));;
                      word <- lift_unread "reach_condition_call_unread" word;;
                      n <- lift_sum (decode_word word type_);; rret (MkValue type_ n false)
                | _ => unread "reach_condition_malformed"
                end
              else if py_eq_str op "convert" then
                inner <- required "value";; n <- lift_sum (convert inner type_);; rret (MkValue type_ n false)
              else if py_eq_str op "not" then
                inner <- required "value";;
                if String.eqb (val_type inner) "bool" then rret (MkValue "bool" (1 - number inner) false)
                else unread "reach_condition_type_mismatch"
              else if py_eq_str op "and" || py_eq_str op "or" then
                let decisive := if py_eq_str op "and" then 0 else 1 in
                left <- required "left";;
                if negb (String.eqb (val_type left) "bool") then unread "reach_condition_type_mismatch"
                else if number left =? decisive then rret (MkValue "bool" decisive false)
                else
                  right <- required "right";;
                  if negb (String.eqb (val_type right) "bool") then unread "reach_condition_type_mismatch"
                  else if number right =? decisive then rret (MkValue "bool" decisive false)
                  else rret (MkValue "bool" (1 - decisive) false)
              else
                is_compare <- lift_py (py_in_set op COMPARE);;
                if is_compare then
                  left <- required "left";; right <- required "right";;
                  b <- lift_sum (compare_values (py_str op) left right);;
                  rret (MkValue "bool" (Z.b2z b) false)
                else unread "reach_condition_operation_unsupported"
          end
      | _ => unread "reach_condition_type_unsupported"
      end
  | _, _ => unread "reach_condition_malformed"
  end.

Definition DEPTH_FUEL : nat := 33.

(** [_decide] *)
Definition decide_truth (expression : pyval) (wanted : bool) : RM ReachTruth :=
  catch_unread
    (v <- evaluate DEPTH_FUEL expression;;
     reads <- current_reads;;
     rret (if String.eqb (val_type v) "bool"
           then MkTruth (Some (Bool.eqb (negb (number v =? 0)) wanted)) reads None None
           else MkTruth None reads (Some "reach_condition_not_bool") None))
    (fun reason => reads <- current_reads;; rret (MkTruth None reads (Some reason) None)).

End Reader.

(** ** Calldata candidates *)

Definition MAX_CALLDATA_TRIES : nat := 256.

(** [itertools.product]: the last component varies fastest. *)
Fixpoint product {A} (ls : list (list A)) : list (list A) :=
  match ls with
  | [] => [[]]
  | l :: ls => let rest := product ls in List.concat (List.map (fun x => List.map (cons x) rest) l)
  end.

Fixpoint rfold {A B} (f : A -> B -> RM A) (l : list B) (acc : A) : RM A :=
  match l with [] => rret acc | x :: l => acc <- f acc x;; rfold f l acc end.

(** [sorted(set)] *)
Definition sorted_set (l : list Z) : list Z := merge_sort Z.le (remove_dups l).

Section Truth.
Context (rpc_request : string -> string -> list pyval -> option Z -> option pyval).
Context (self : Reader).

(** One side of a comparison: the parameters it touches are tried at the value
    of the other side and one either side of it. *)
Definition candidate_side (found : list (Z * list Z)) (sides : pyval * pyval) : RM (list (Z * list Z)) :=
  touched <- lift_py (parameters sides.1);;
  if bool_decide (touched = []) then rret found
  else
    others <- lift_py (parameters sides.2);;
    if negb (bool_decide (others = [])) then rret found
    else
      v <- catch_unread (v <- evaluate rpc_request self [] DEPTH_FUEL sides.2;; rret (Some (number v)))
             (fun _ => rret None);;
      rret (match v with
            | None => found
            | Some n =>
                fold_left (fun acc i => odict_put i (default [] (odict_get i acc) ++ [n - 1; n; n + 1])%list acc)
                  touched.*1 found
            end).

Definition candidate_node (found : list (Z * list Z)) (node : list (string * pyval)) : RM (list (Z * list Z)) :=
  is_compare <- lift_py (py_in_set (py_get "op" node) COMPARE);;
  if negb is_compare then rret found
  else
    let l := py_get "left" node in
    let r := py_get "right" node in
    rfold candidate_side [(l, r); (r, l)] found.

(** [_candidates] *)
Definition candidates (expression : pyval) (params : list (Z * (string * string))) : RM (list (Z * list Z)) :=
  ns <- lift_py (nodes expression);;
  found <- rfold candidate_node ns [];;
  rret (List.map (fun p : Z * (string * string) =>
          (p.1, sorted_set (List.filter (fun z => fits z p.2.1)
                              (default [] (odict_get p.1 found) ++ type_bounds p.2.1)%list))) params).

(** The calldata of a witness, by parameter name. *)
Definition witness_calldata (params : list (Z * (string * string))) (assigned : list (Z * Z)) : list (string * string) :=
  fold_left (fun acc (iv : Z * Z) =>
    match odict_get iv.1 params with
    | Some (type_, name) => odict_put name (render iv.2 type_) acc
    | None => acc
    end) assigned [].

Definition next_reason (t : ReachTruth) (current : string) : string :=
  if bool_decide (holds t = None) && negb (bool_decide (reason t = Some "reach_condition_calldata_unassigned"))
  then default current (opt_or (reason t) None)
  else current.

Fixpoint try_assignments (expression : pyval) (wanted : bool) (params : list (Z * (string * string)))
    (tries : list (list (Z * Z))) (current : string) : RM ReachTruth :=
  match tries with
  | [] => reads <- current_reads;; rret (MkTruth None reads (Some current) None)
  | assigned :: tries =>
      t <- decide_truth rpc_request self assigned expression wanted;;
      if bool_decide (holds t = Some true)
      then rret (MkTruth (holds t) (truth_reads t) (reason t) (Some (witness_calldata params assigned)))
      else try_assignments expression wanted params tries (next_reason t current)
  end.

(** [_Reader.truth] *)
Definition truth (expression : pyval) (wanted : bool) : RM ReachTruth :=
  params <- lift_py (parameters expression);;
  if bool_decide (params = []) then decide_truth rpc_request self [] expression wanted
  else if negb (calldata_free self) then rret (MkTruth None [] (Some "reach_condition_calldata_bound") None)
  else
    cands <- candidates expression params;;
    try_assignments expression wanted params
      (List.map (zip cands.*1) (take MAX_CALLDATA_TRIES (product cands.*2)))
      "reach_condition_calldata_not_witnessed".

End Truth.

(** [read_reach]; [None] when an exception escapes. *)
Definition read_reach (rpc_request : string -> string -> list pyval -> option Z -> option pyval)
    (stamp : pyval) (ctx : EvaluationContext) : option ReachTruth :=
  match stamp with
  | PyDict d =>
      match py_get "expression" d with
      | PyDict e =>
          match truth rpc_request (for_context ctx) (PyDict e) (py_truthy (py_get "holds" d)) [] with
          | (inl t, _) => Some t
          | (inr _, _) => None
          end
      | _ => Some (MkTruth None [] (Some "reach_condition_unstated") None)
      end
  | _ => Some (MkTruth None [] (Some "reach_condition_unstated") None)
  end.

(** ** The condition as text *)

Definition OR_RANK : Z := 0.
Definition AND_RANK : Z := 1.
Definition COMPARE_RANK : Z := 2.
Definition NOT_RANK : Z := 3.
Definition ATOM_RANK : Z := 4.

Definition symbol (op : string) : string :=
  if String.eqb op "eq" then "==" else if String.eqb op "ne" then "!=" else if String.eqb op "lt" then "<"
  else if String.eqb op "lte" then "<=" else if String.eqb op "gt" then ">" else ">=".

Definition flipped (op : string) : string :=
  if String.eqb op "eq" then "ne" else if String.eqb op "ne" then "eq" else if String.eqb op "lt" then "gte"
  else if String.eqb op "lte" then "gt" else if String.eqb op "gt" then "lte" else "lt".

Definition MALFORMED : exn := Unread "reach_condition_malformed".

Definition ebind {A B} (m : A + exn) (k : A -> B + exn) : B + exn :=
  match m with inl a => k a | inr e => inr e end.
Notation "x <-- m ;; k" := (ebind m (fun x => k)) (at level 100, m at next level, right associativity) : reach_scope.

Fixpoint emap {A B} (f : A -> B + exn) (l : list A) : list B + exn :=
  match l with [] => inl [] | x :: l => b <-- f x;; r <-- emap f l;; inl (b :: r) end.

Definition elift {A} (e : exn) (o : option A) : A + exn := match o with Some a => inl a | None => inr e end.

Definition parens (s : string) : string := "(" ++ s ++ ")".

(** [{**node, "op": flipped}] *)
Definition flip_node (d : list (string * pyval)) (op : string) : pyval := PyDict (odict_put "op" (PyStr (flipped op)) d).

(** [_negated]: a comparison flips, a negation cancels, anything else is negated
    whole.  [rec] is [_text]. *)
Definition negated_with (rec : nat -> pyval -> (string * Z) + exn) (fuel : nat) (node : pyval) : (string * Z) + exn :=
  let whole := p <-- rec (Nat.pred fuel) node;; inl ("!" ++ (if p.2 <=? NOT_RANK then parens p.1 else p.1), NOT_RANK) in
  match node with
  | PyDict n =>
      match py_get "op" n with
      | PyStr nop =>
          if bool_decide (nop ∈ COMPARE) then rec fuel (flip_node n nop)
          else if String.eqb nop "not" then rec (Nat.pred fuel) (py_get "value" n)
          else whole
      | PyList _ | PyDict _ => inr PyError
      | _ => whole
      end
  | _ => whole
  end.

(** [_text]; [fuel] is [33 - depth]. *)
Fixpoint text (fuel : nat) (node : pyval) {struct fuel} : (string * Z) + exn :=
  match fuel, node with
  | S fuel, PyDict d =>
      let op := py_get "op" d in
      let wrapped v rank := p <-- text fuel v;; inl (if p.2 <=? rank then parens p.1 else p.1) in
      is_compare <-- elift PyError (py_in_set op COMPARE);;
      if is_compare then
        l <-- wrapped (py_get "left" d) COMPARE_RANK;; r <-- wrapped (py_get "right" d) COMPARE_RANK;;
        inl (l ++ " " ++ symbol (py_str op) ++ " " ++ r, COMPARE_RANK)
      else if py_eq_str op "and" || py_eq_str op "or" then
        let rank := if py_eq_str op "and" then AND_RANK else OR_RANK in
        let side v := p <-- text fuel v;;
          inl (if (p.2 <=? AND_RANK) && negb (p.2 =? rank) then parens p.1 else p.1) in
        l <-- side (py_get "left" d);; r <-- side (py_get "right" d);;
        inl (l ++ (if py_eq_str op "and" then " && " else " || ") ++ r, rank)
      else if py_eq_str op "not" then negated_with text fuel (py_get "value" d)
      else if py_eq_str op "convert" then
        match py_get "value" d with
        | PyDict inner =>
            if py_eqb (py_get "type" inner) (py_get "type" d) && negb (py_truthy (py_get "literal" inner))
            then text fuel (PyDict inner)
            else p <-- text fuel (PyDict inner);; inl (py_str (py_get "type" d) ++ parens p.1, ATOM_RANK)
        | inner => p <-- text fuel inner;; inl (py_str (py_get "type" d) ++ parens p.1, ATOM_RANK)
        end
      else if py_eq_str op "call" then
        match py_get "signature" d with
        | PyStr signature =>
            args <-- elift PyError (iter_or_nil (py_get "arguments" d));;
            texts <-- emap (fun a => p <-- text fuel a;; inl p.1) args;;
            inl (hd "" (str_split "(" signature) ++ parens (str_join ", " texts), ATOM_RANK)
        | _ => inr MALFORMED
        end
      else
        name <-- (if py_eq_str op "self" then inl (PyStr "address(this)")
                  else if py_eq_str op "chainid" then inl (PyStr "block.chainid")
                  else if py_eq_str op "param" then inl (py_get "name" d)
                  else if py_eq_str op "storage" then inl (py_get "variable" d)
                  else if py_eq_str op "const" then
                    n <-- elift MALFORMED (parse_int (py_get "value" d));;
                    let shown := render n (py_str (py_get "type" d)) in
                    inl (PyStr (if py_eq_str (py_get "type" d) "bool"
                                then if String.eqb shown "0" then "false" else "true" else shown))
                  else inl PyNone);;
        match name with
        | PyStr name =>
            if String.eqb name "" then inr (Unread "reach_condition_operation_unsupported") else inl (name, ATOM_RANK)
        | _ => inr (Unread "reach_condition_operation_unsupported")
        end
  | _, _ => inr MALFORMED
  end.

Definition negated : nat -> pyval -> (string * Z) + exn := negated_with text.

(** [describe_reach]: the outer option is an escaping exception, the inner one
    the source's [None]. *)
Definition describe_reach (stamp : pyval) : option (option (string * bool)) :=
  match stamp with
  | PyDict d =>
      match py_get "holds" d with
      | PyBool h =>
          match (if h then text DEPTH_FUEL (py_get "expression" d) else negated DEPTH_FUEL (py_get "expression" d)) with
          | inl (t, rank) => Some (Some (t, rank <=? AND_RANK))
          | inr (Unread _) => Some None
          | inr PyError => None
          end
      | _ => Some None
      end
  | _ => Some None
  end.
