(* ===== verification/ReachReadsTheory.v ===== *)
(** * Correctness of the reach-condition reader

    - integers at their width: conversions follow Solidity's rules and stay in
      range, the ABI word codec is a bijection, a packed field decodes to the
      value the layout stores;
    - evaluation: every value fits its type, the verdict is a function of the
      recorded reads alone, a condition on calldata is proven only with calldata
      that makes it hold and is never refuted. *)

From stdpp Require Import base sets list strings sorting pretty.
From Stdlib Require Import String Ascii ZArith Lia.
From S2P Require Import Prelude PyText EvalContext ReachReads.

Local Open Scope string_scope.
Local Open Scope Z_scope.
Local Open Scope reach_scope.

Create HintDb reach.

(** ** Widths *)

Definition fam_ok (f : fam) : Prop :=
  match f with
  | FBool | FAddress => True
  | FUint w | FInt w => 8 <= w <= 256
  | FBytes w => 1 <= w <= 32
  end.

Lemma int_width_range s w : int_width s = Some w -> 8 <= w <= 256.
Proof.
  unfold int_width. destruct (digits_value s) as [n|]; cbn [mbind option_bind]; [|done].
  destruct ((8 <=? n) && (n <=? 256) && (n mod 8 =? 0)) eqn:E; [|done]. intros [= <-].
  apply andb_true_iff in E as [[H1 H2]%andb_true_iff _]. lia.
Qed.

Lemma bytes_width_range s w : bytes_width s = Some w -> 1 <= w <= 32.
Proof.
  unfold bytes_width. destruct (digits_value s) as [n|]; cbn [mbind option_bind]; [|done].
  destruct ((1 <=? n) && (n <=? 32)) eqn:E; [|done]. intros [= <-]. apply andb_true_iff in E as [H1 H2]. lia.
Qed.

Lemma family_ok t f : family t = Some f -> fam_ok f.
Proof.
  unfold family. destruct (String.eqb t "bool"); [by intros [= <-]|].
  destruct (String.eqb t "address"); [by intros [= <-]|].
  destruct (str_after "uint" t) as [d|]; [|destruct (str_after "int" t) as [d|]; [|destruct (str_after "bytes" t) as [d|]; [|done]]].
  - destruct (int_width d) as [w|] eqn:E; [|done]. intros [= <-]. by eapply int_width_range.
  - destruct (int_width d) as [w|] eqn:E; [|done]. intros [= <-]. by eapply int_width_range.
  - destruct (bytes_width d) as [w|] eqn:E; [|done]. intros [= <-]. by eapply bytes_width_range.
Qed.

Lemma pow2_eq n : 0 <= n -> pow2 n = 2 ^ n.
Proof. intros H. unfold pow2. rewrite Z.shiftl_mul_pow2 by lia. lia. Qed.

Lemma land_mask n w : 0 <= w -> Z.land n (mask w) = n mod 2 ^ w.
Proof.
  intros H. unfold mask. rewrite pow2_eq by lia. rewrite <- Z.land_ones by lia. by rewrite Z.ones_equiv, Z.sub_1_r.
Qed.

Lemma shiftr_zero n w : 0 <= n -> 0 <= w -> Z.shiftr n w = 0 <-> n < 2 ^ w.
Proof.
  intros Hn Hw. rewrite Z.shiftr_div_pow2 by lia. assert (0 < 2 ^ w) by (apply Z.pow_pos_nonneg; lia). split.
  - intros E. pose proof (Z.div_mod n (2 ^ w)). pose proof (Z.mod_pos_bound n (2 ^ w)). lia.
  - intros Hlt. by apply Z.div_small.
Qed.

Lemma pow2_half w : 1 <= w -> 2 ^ w = 2 * 2 ^ (w - 1).
Proof. intros H. replace w with (Z.succ (w - 1)) at 1 by lia. apply Z.pow_succ_r. lia. Qed.

(** Two's complement: [signed n bits] is the number of [bits] bits congruent to
    [n]. *)
Lemma signed_spec n bits : 1 <= bits ->
  - 2 ^ (bits - 1) <= signed n bits < 2 ^ (bits - 1) /\ signed n bits mod 2 ^ bits = n mod 2 ^ bits.
Proof.
  intros H. unfold signed. rewrite land_mask, pow2_eq by lia.
  assert (0 < 2 ^ (bits - 1)) as Hp by (apply Z.pow_pos_nonneg; lia). pose proof (pow2_half bits H) as Hh.
  pose proof (Z.mod_pos_bound n (2 ^ bits) ltac:(lia)) as Hm.
  destruct (Z.eqb_spec (Z.shiftr (n mod 2 ^ bits) (bits - 1)) 0) as [E|E].
  - apply shiftr_zero in E; [|lia..]. split; [lia|]. apply Z.mod_mod. lia.
  - rewrite shiftr_zero in E by lia. split; [lia|].
    rewrite <- (Z.mod_mod n (2 ^ bits)) at 2 by lia.
    replace (n mod 2 ^ bits) with (n mod 2 ^ bits - 2 ^ bits + 1 * 2 ^ bits) at 2 by lia.
    by rewrite Z.mod_add by lia.
Qed.

Lemma signed_unique n m bits : 1 <= bits ->
  - 2 ^ (bits - 1) <= m < 2 ^ (bits - 1) -> m mod 2 ^ bits = n mod 2 ^ bits -> signed n bits = m.
Proof.
  intros H Hm E. destruct (signed_spec n bits H) as [Hs Es]. rewrite <- E in Es.
  pose proof (pow2_half bits H). assert (0 < 2 ^ (bits - 1)) by (apply Z.pow_pos_nonneg; lia).
  set (a := signed n bits) in *. set (P := 2 ^ bits) in *.
  assert (P <> 0) as HP by lia. pose proof (Z.div_mod a P HP) as Ha. pose proof (Z.div_mod m P HP) as Hb.
  assert (a - m = P * (a / P - m / P)) as Hd by lia. set (k := a / P - m / P) in *.
  assert (k = 0) as Hk by nia. rewrite Hk in Hd. lia.
Qed.

Lemma fits_fam_spec n f : fam_ok f ->
  fits_fam n f = true <->
  match f with
  | FBool => n = 0 \/ n = 1
  | FAddress => 0 <= n < 2 ^ 160
  | FUint w => 0 <= n < 2 ^ w
  | FInt w => - 2 ^ (w - 1) <= n < 2 ^ (w - 1)
  | FBytes w => 0 <= n < 2 ^ (8 * w)
  end.
Proof.
  destruct f as [| |w|w|w]; cbn [fits_fam fam_ok]; intros Hw; rewrite ?pow2_eq by lia;
    rewrite ?orb_true_iff, ?andb_true_iff, ?Z.eqb_eq, ?Z.leb_le, ?Z.ltb_lt; lia.
Qed.

(** ** Conversions *)

(** Solidity's explicit conversions between two families: the integers keep
    their low bits, fixed bytes keep their leading bytes, the rest keep the
    number. *)
Definition solidity_converts (source into : fam) (n m : Z) : Prop :=
  match source, into with
  | FUint _, FUint tw | FInt _, FInt tw | FUint _, FInt tw | FInt _, FUint tw => m mod 2 ^ tw = n mod 2 ^ tw
  | FBytes w, FBytes tw =>
      if w <? tw then m = n * 2 ^ (8 * (tw - w)) else m = n / 2 ^ (8 * (w - tw))
  | _, _ => m = n
  end.

Lemma pow_mono a b : 0 <= a <= b -> 2 ^ a <= 2 ^ b.
Proof. intros H. apply Z.pow_le_mono_r; lia. Qed.

Lemma convert_fam_spec n m source into :
  fam_ok source -> fam_ok into -> fits_fam n source = true ->
  convert_fam n source into = Some m -> fits_fam m into = true /\ solidity_converts source into n m.
Proof.
  intros Hs Hi Hn. rewrite fits_fam_spec in Hn by done. rewrite fits_fam_spec by done.
  destruct source as [| |w|w|w], into as [| |tw|tw|tw]; cbn [convert_fam solidity_converts fam_ok] in *; try done.
  - destruct (Z.eqb_spec tw 160) as [->|]; [|done]. by intros [= <-].
  - destruct (Z.eqb_spec w 160) as [->|]; [|done]. by intros [= <-].
  - intros [= <-]. rewrite land_mask by lia. split; [apply Z.mod_pos_bound, Z.pow_pos_nonneg; lia|].
    apply Z.mod_mod. pose proof (Z.pow_pos_nonneg 2 tw). lia.
  - destruct (Z.eqb_spec w tw) as [->|]; [|done]. intros [= <-]. apply signed_spec. lia.
  - destruct (Z.eqb_spec w (8 * tw)) as [->|]; [|done]. by intros [= <-].
  - destruct (Z.eqb_spec w tw) as [->|]; [|done]. intros [= <-]. rewrite land_mask by lia.
    split; [apply Z.mod_pos_bound, Z.pow_pos_nonneg; lia|]. apply Z.mod_mod. pose proof (Z.pow_pos_nonneg 2 tw). lia.
  - intros [= <-]. destruct (Z.ltb_spec tw w); [apply signed_spec; lia|]. split; [|done].
    pose proof (pow_mono (w - 1) (tw - 1) ltac:(lia)). lia.
  - destruct (Z.eqb_spec (8 * w) tw) as [<-|]; [|done]. by intros [= <-].
  - intros [= <-]. destruct (Z.ltb_spec w tw).
    + rewrite Z.abs_eq by lia. rewrite Z.shiftl_mul_pow2 by lia. split; [|done].
      replace (8 * tw) with (8 * w + 8 * (tw - w)) by lia. rewrite Z.pow_add_r by lia.
      pose proof (Z.pow_pos_nonneg 2 (8 * (tw - w)) ltac:(lia) ltac:(lia)). nia.
    + rewrite Z.abs_neq by lia. replace (- (tw - w)) with (w - tw) by lia. rewrite Z.shiftr_div_pow2 by lia. split; [|done].
      pose proof (Z.pow_pos_nonneg 2 (8 * (w - tw)) ltac:(lia) ltac:(lia)).
      split; [apply Z.div_pos; lia|]. apply Z.div_lt_upper_bound; [lia|].
      rewrite <- Z.pow_add_r by lia. replace (8 * (w - tw) + 8 * tw) with (8 * w) by lia. lia.
Qed.

Lemma solidity_converts_refl f n : solidity_converts f f n n.
Proof. destruct f as [| |w|w|w]; cbn; try done. rewrite Z.ltb_irrefl, Z.sub_diag, Z.mul_0_r. by rewrite Z.div_1_r. Qed.

(** ** Words *)

Lemma fits_inv n t : fits n t = true -> exists f, family t = Some f /\ fam_ok f /\ fits_fam n f = true.
Proof. unfold fits. destruct (family t) as [f|] eqn:E; [|done]. intros H. exists f. eauto using family_ok. Qed.

Lemma decode_encoded n t : fits n t = true ->
  exists w, encode (MkValue t n false) = inl w /\ 0 <= w < 2 ^ 256 /\ decode_word w t = inl n.
Proof.
  intros Hf. destruct (fits_inv _ _ Hf) as (f & Ef & Hok & Hn). rewrite fits_fam_spec in Hn by done.
  unfold encode, decode_word. cbn [number val_type]. rewrite Hf, Ef. cbn [negb].
  assert (0 < 2 ^ 256) as Hbig by (apply Z.pow_pos_nonneg; lia).
  destruct f as [| |w|w|w]; cbn [fam_ok] in *.
  - exists n. rewrite Hf. split; [done|]. split; [|done]. destruct Hn; subst; lia.
  - exists n. rewrite Hf. split; [done|]. pose proof (pow_mono 160 256). split; [lia|done].
  - exists n. rewrite Hf. split; [done|]. pose proof (pow_mono w 256). split; [lia|done].
  - rewrite land_mask by lia. exists (n mod 2 ^ 256). split; [done|].
    split; [apply Z.mod_pos_bound; lia|].
    rewrite (signed_unique _ n 256); [by rewrite Hf|lia| |by rewrite Z.mod_mod by lia].
    pose proof (pow_mono (w - 1) 255 ltac:(lia)). change (256 - 1) with 255. lia.
  - exists (Z.shiftl n (256 - 8 * w)). rewrite Z.shiftl_mul_pow2 by lia.
    assert (0 < 2 ^ (256 - 8 * w)) by (apply Z.pow_pos_nonneg; lia).
    assert (2 ^ 256 = 2 ^ (8 * w) * 2 ^ (256 - 8 * w)) as Hsplit by (rewrite <- Z.pow_add_r by lia; f_equal; lia).
    split; [done|]. split; [nia|].
    rewrite land_mask, Z.mod_mul by lia. cbn [Z.eqb negb].
    rewrite Z.shiftr_div_pow2 by lia. by rewrite Z.div_mul by lia.
Qed.

Lemma encode_decode w t n : 0 <= w < 2 ^ 256 -> is_Some (family t) -> decode_word w t = inl n ->
  encode (MkValue t n false) = inl w.
Proof.
  intros Hw [f Ef]. pose proof (family_ok _ _ Ef) as Hok. unfold decode_word, encode. cbn [number val_type]. rewrite Ef.
  assert (Hplain : forall m, (if fits m t then inl m else inr WORD_MALFORMED) = inl n -> fits n t = true /\ m = n).
  { intros m. destruct (fits m t) eqn:E; [|done]. by intros [= <-]. }
  destruct f as [| |b|b|b]; cbn [fam_ok] in *.
  1-3: intros [-> ->]%Hplain; done.
  - intros [Hf E]%Hplain. rewrite Hf. cbn [negb]. f_equal. rewrite land_mask by lia. subst n.
    destruct (signed_spec w 256 ltac:(lia)) as [_ ->]. apply Z.mod_small. lia.
  - rewrite land_mask by lia. destruct (Z.eqb_spec (w mod 2 ^ (256 - 8 * b)) 0) as [E|]; cbn [negb]; [|done]. intros [= <-].
    rewrite Z.shiftr_div_pow2 by lia. assert (0 < 2 ^ (256 - 8 * b)) by (apply Z.pow_pos_nonneg; lia).
    assert (fits (w / 2 ^ (256 - 8 * b)) t = true) as ->.
    { unfold fits. rewrite Ef. apply fits_fam_spec; [done|]. split; [apply Z.div_pos; lia|].
      apply Z.div_lt_upper_bound; [lia|]. rewrite <- Z.pow_add_r by lia. replace (256 - 8 * b + 8 * b) with 256 by lia. lia. }
    cbn [negb]. rewrite Z.shiftl_mul_pow2 by lia. f_equal.
    pose proof (Z.div_mod w (2 ^ (256 - 8 * b))). lia.
Qed.

(** The bits a storage field of a type takes. *)
Definition field_bits (f : fam) : Z :=
  match f with FBool => 8 | FAddress => 160 | FUint w | FInt w => w | FBytes w => 8 * w end.

Lemma decode_packed_spec word offset size t f n :
  family t = Some f -> fits n t = true -> 0 <= offset -> field_bits f = 8 * size ->
  (word / 2 ^ (8 * offset)) mod 2 ^ (8 * size) = n mod 2 ^ (8 * size) ->
  decode_packed word offset size t = inl n.
Proof.
  intros Ef Hf Ho Hsz E. pose proof (family_ok _ _ Ef) as Hok.
  assert (0 < 8 * size) as Hs by (destruct f; cbn [field_bits fam_ok] in *; lia).
  pose proof Hf as Hn. unfold fits in Hn. rewrite Ef in Hn. rewrite fits_fam_spec in Hn by done.
  unfold decode_packed. destruct (Z.ltb_spec offset 0); [lia|].
  rewrite Z.shiftr_div_pow2, land_mask, E by lia. rewrite Ef.
  assert (0 < 2 ^ (8 * size)) as Hp by (apply Z.pow_pos_nonneg; lia).
  assert (match f with FInt _ => True | _ => n mod 2 ^ (8 * size) = n end) as Hu.
  { destruct f as [| |w|w|w]; try done; cbn [field_bits] in Hsz; rewrite <- Hsz; apply Z.mod_small.
    - change (2 ^ 8) with 256. lia.
    - lia.
    - lia.
    - lia. }
  destruct f as [| |w|w|w]; rewrite ?Hu, ?Hf; try done.
  cbn [field_bits] in Hsz. rewrite (signed_unique _ n (8 * size)); [by rewrite Hf|lia| |by rewrite Z.mod_mod by lia].
  rewrite <- Hsz. lia.
Qed.

(** ** The recorded reads decide *)

Definition oracle : Type := string -> string -> list pyval -> option Z -> option pyval.

Lemma read_record_inj m p b r m' p' b' r' : read_record m p b r = read_record m' p' b' r' -> m = m' /\ p = p' /\ r = r'.
Proof. unfold read_record. destruct r, r'; cbn; intros H; by simplify_eq. Qed.

Section Replay.
Context (self : Reader).

(** The record says what the chain answers. *)
Definition answered (rpc_request : oracle) (r : pyval) : Prop :=
  exists url method params block result,
    reader_rpc_url self = Some url /\ r = read_record method params block result /\
    rpc_word rpc_request url method params (reader_chain_id self) = result.

(** The outcome is determined by what the run recorded: any chain that answers
    the recorded reads alike gives the same run. *)
Definition replays {A} (m : oracle -> RM A) : Prop :=
  forall o reads r reads', m o reads = (r, reads') ->
    exists new, reads' = (reads ++ new)%list /\ Forall (answered o) new /\
      forall o', Forall (answered o') new -> m o' reads = (r, reads').


Lemma replays_pure {A} (r : A + exn) : replays (fun _ reads => (r, reads)).
Proof.
  intros o reads r' reads' [= <- <-]. exists []. rewrite app_nil_r. split_and!; [done|constructor|done].
Qed.

Lemma replays_reads : replays (fun _ => current_reads).
Proof. intros o reads r reads' [= <- <-]. exists []. rewrite app_nil_r. split_and!; [done|constructor|done]. Qed.

Lemma replays_bind {A B} (m : oracle -> RM A) (k : A -> oracle -> RM B) :
  replays m -> (forall a, replays (k a)) -> replays (fun o => rbind (m o) (fun a => k a o)).
Proof.
  intros Hm Hk o reads r reads'. unfold rbind. destruct (m o reads) as [[a|e] reads1] eqn:E.
  - destruct (Hm _ _ _ _ E) as (n1 & -> & Ha1 & Hr1). intros E2.
    destruct (Hk a _ _ _ _ E2) as (n2 & -> & Ha2 & Hr2). exists (n1 ++ n2)%list. split_and!.
    + by rewrite app_assoc.
    + by apply Forall_app.
    + intros o' [H1 H2]%Forall_app. rewrite (Hr1 _ H1). by apply Hr2.
  - intros [= <- <-]. destruct (Hm _ _ _ _ E) as (n1 & -> & Ha1 & Hr1). exists n1. split_and!; [done..|].
    intros o' H1. by rewrite (Hr1 _ H1).
Qed.

Lemma replays_catch {A} (m : oracle -> RM A) (h : string -> oracle -> RM A) :
  replays m -> (forall s, replays (h s)) -> replays (fun o => catch_unread (m o) (fun s => h s o)).
Proof.
  intros Hm Hh o reads r reads'. unfold catch_unread. destruct (m o reads) as [[a|e] reads1] eqn:E;
    destruct (Hm _ _ _ _ E) as (n1 & -> & Ha1 & Hr1).
  - intros [= <- <-]. exists n1. split_and!; [done..|]. intros o' H1. by rewrite (Hr1 _ H1).
  - destruct e as [s|].
    + intros E2. destruct (Hh s _ _ _ _ E2) as (n2 & -> & Ha2 & Hr2). exists (n1 ++ n2)%list. split_and!.
      * by rewrite app_assoc.
      * by apply Forall_app.
      * intros o' [H1 H2]%Forall_app. rewrite (Hr1 _ H1). by apply Hr2.
    + intros [= <- <-]. exists n1. split_and!; [done..|]. intros o' H1. by rewrite (Hr1 _ H1).
Qed.

Lemma replays_rpc method params : replays (fun o => rpc o self method params).
Proof.
  intros o reads r reads'. unfold rpc.
  destruct (reader_rpc_url self) as [url|] eqn:Hu; [|intros E; by apply (replays_pure (inr _) o)].
  destruct (reader_contract self) as [c|]; [|intros E; by apply (replays_pure (inr _) o)].
  destruct (reader_block self) as [b|]; [|intros E; by apply (replays_pure (inr _) o)].
  set (ps := (params ++ _)%list). set (w := rpc_word o url method ps (reader_chain_id self)).
  intros E. exists [read_record method ps b w].
  assert (Hw : forall o', Forall (answered o') [read_record method ps b w] ->
            rpc_word o' url method ps (reader_chain_id self) = w).
  { intros o' H. inversion H as [|? ? H1 _]. subst. destruct H1 as (url' & m' & p' & b' & r' & Hu' & Er & Ha).
    rewrite Hu in Hu'. injection Hu' as <-. by apply read_record_inj in Er as (<- & <- & <-). }
  split_and!.
  - destruct w as [raw|]; unfold rbind, record_read in E; [destruct (int_text 16 (str_take 66 raw))|]; by injection E.
  - constructor; [|constructor]. by exists url, method, ps, b, w.
  - intros o' H. by rewrite (Hw _ H).
Qed.

Lemma replays_if {A} (b : bool) (m1 m2 : oracle -> RM A) :
  replays m1 -> replays m2 -> replays (fun o => if b then m1 o else m2 o).
Proof. by destruct b. Qed.

Lemma replays_map {A B} (f : A -> oracle -> RM B) l :
  (forall a, replays (f a)) -> replays (fun o => rmap (fun a => f a o) l).
Proof.
  intros Hf. induction l as [|a l IH]; cbn [rmap]; [apply replays_pure|].
  apply (replays_bind (f a)); [apply Hf|]. intros b.
  apply (replays_bind (fun o => rmap (fun a => f a o) l)); [apply IH|]. intros bs. apply replays_pure.
Qed.

Lemma replays_fold {A B} (f : A -> B -> oracle -> RM A) l :
  (forall a b, replays (f a b)) -> forall acc, replays (fun o => rfold (fun a b => f a b o) l acc).
Proof.
  intros Hf. induction l as [|b l IH]; intros acc; cbn [rfold]; [apply replays_pure|].
  apply (replays_bind (f acc b)); [apply Hf|]. intros a. apply IH.
Qed.

Lemma replays_lift_py {A} (x : option A) : replays (fun _ => lift_py x).
Proof. destruct x; apply replays_pure. Qed.
Lemma replays_lift_unread {A} s (x : option A) : replays (fun _ => lift_unread s x).
Proof. destruct x; apply replays_pure. Qed.
Lemma replays_lift_sum {A} (x : A + exn) : replays (fun _ => lift_sum x).
Proof. destruct x; apply replays_pure. Qed.

End Replay.

#[export] Hint Resolve replays_pure replays_reads replays_rpc replays_lift_py replays_lift_unread replays_lift_sum : reach.

(** Walks through a computation's binds and tests. *)
Ltac replay :=
  repeat first
    [ solve [auto with reach]
    | match goal with
      | |- replays _ (fun o => rbind (@?m o) (fun a => @?k o a)) =>
          refine (replays_bind _ m (fun a o => k o a) _ _); [|intros ?; cbv beta]
      | |- replays _ (fun o => if ?b then @?m1 o else @?m2 o) => apply (replays_if _ b m1 m2)
      | |- replays _ (fun o => match ?x with _ => _ end) => destruct x
      end ].

Lemma replays_storage_slot self node t : replays self (fun o => storage_slot o self node t).
Proof. unfold storage_slot, unread, rraise, rret. replay. Qed.
#[export] Hint Resolve replays_storage_slot : reach.

Lemma replays_storage self node t : replays self (fun o => storage o self node t).
Proof. unfold storage, rret. replay. Qed.
#[export] Hint Resolve replays_storage : reach.

Lemma replays_evaluate self assigned fuel : forall node, replays self (fun o => evaluate o self assigned fuel node).
Proof.
  induction fuel as [|fuel IH]; intros node; [apply replays_pure|].
  destruct node as [| | | | |d]; try apply replays_pure. cbn [evaluate]. cbv zeta. unfold unread, rraise, rret. replay.
  apply (replays_map _ (fun a o => v <- evaluate o self assigned fuel a;; lift_sum (encode v))). intros arg. replay.
Qed.
#[export] Hint Resolve replays_evaluate : reach.

Lemma replays_decide self assigned e wanted : replays self (fun o => decide_truth o self assigned e wanted).
Proof.
  unfold decide_truth.
  apply (replays_catch _ (fun o => v <- evaluate o self assigned DEPTH_FUEL e;; reads <- current_reads;;
     rret (if String.eqb (val_type v) "bool"
           then MkTruth (Some (Bool.eqb (negb (number v =? 0)) wanted)) reads None None
           else MkTruth None reads (Some "reach_condition_not_bool") None))
    (fun s _ => reads <- current_reads;; rret (MkTruth None reads (Some s) None))).
  - unfold rret. replay.
  - intros s. unfold rret. replay.
Qed.
#[export] Hint Resolve replays_decide : reach.

Lemma replays_candidate_side self found sides : replays self (fun o => candidate_side o self found sides).
Proof.
  unfold candidate_side, rret. replay.
  apply (replays_catch _ (fun o => v <- evaluate o self [] DEPTH_FUEL sides.2;; rret (Some (number v)))
           (fun _ _ => rret None)); [unfold rret; replay|intros _; apply replays_pure].
Qed.

Lemma replays_candidate_node self found node : replays self (fun o => candidate_node o self found node).
Proof.
  unfold candidate_node. cbv zeta. unfold rret at 1. replay.
  apply (replays_fold _ (fun found sides o => candidate_side o self found sides)). intros. apply replays_candidate_side.
Qed.

Lemma replays_candidates self e params : replays self (fun o => candidates o self e params).
Proof.
  unfold candidates. unfold rret at 1. replay.
  apply (replays_fold _ (fun found node o => candidate_node o self found node)). intros. apply replays_candidate_node.
Qed.
#[export] Hint Resolve replays_candidates : reach.

Lemma replays_tries self e wanted params tries : forall current,
  replays self (fun o => try_assignments o self e wanted params tries current).
Proof.
  induction tries as [|a tries IH]; intros current; cbn [try_assignments]; unfold rret; replay.
Qed.
#[export] Hint Resolve replays_tries : reach.

Lemma replays_truth self e wanted : replays self (fun o => truth o self e wanted).
Proof. unfold truth, rret. replay. Qed.

(** [self.reads] when the verdict is returned is what the verdict carries. *)
Lemma decide_reads o self assigned e wanted reads t reads' :
  decide_truth o self assigned e wanted reads = (inl t, reads') -> truth_reads t = reads'.
Proof.
  unfold decide_truth, catch_unread, rbind, current_reads, rret.
  destruct (evaluate o self assigned DEPTH_FUEL e reads) as [[v|[s|]] r].
  - by destruct (String.eqb (val_type v) "bool"); intros [= <- <-].
  - by intros [= <- <-].
  - done.
Qed.

Lemma tries_reads o self e wanted params tries : forall current reads t reads',
  try_assignments o self e wanted params tries current reads = (inl t, reads') -> truth_reads t = reads'.
Proof.
  induction tries as [|a tries IH]; intros current reads t reads'; cbn [try_assignments]; [by intros [= <- <-]|].
  unfold rbind. destruct (decide_truth o self a e wanted reads) as [[t1|e1] r1] eqn:E; [|done].
  destruct (bool_decide (holds t1 = Some true)); [|apply IH].
  intros [= <- <-]. exact (decide_reads _ _ _ _ _ _ _ _ E).
Qed.

Lemma truth_reads_final o self e wanted t reads' :
  truth o self e wanted [] = (inl t, reads') -> truth_reads t = reads'.
Proof.
  unfold truth, rbind, lift_py. destruct (parameters e) as [ps|]; cbn; [|done].
  destruct (bool_decide (ps = [])); [apply decide_reads|].
  destruct (calldata_free self); cbn [negb]; [|by intros [= <- <-]].
  destruct (candidates o self e ps []) as [[c|ex] r1]; [|done]. apply tries_reads.
Qed.

(** ** Values fit their types *)

Lemma int_digits_range base s : forall acc u n,
  1 <= base -> 0 <= acc -> int_digits base acc u s = Some n ->
  0 <= n < (acc + 1) * base ^ Z.of_nat (String.length s).
Proof.
  induction s as [|c s IH]; intros acc u n Hb Ha; cbn [int_digits String.length].
  - destruct u; [done|]. intros [= <-]. change (Z.of_nat 0) with 0. rewrite Z.pow_0_r. lia.
  - rewrite Nat2Z.inj_succ, Z.pow_succ_r by lia.
    assert (0 < base ^ Z.of_nat (String.length s)) as Hp by (apply Z.pow_pos_nonneg; lia).
    destruct (Ascii.eqb c "_").
    + destruct u; [done|]. intros [H1 H2]%IH; [|done..]. split; [lia|].
      assert (base ^ Z.of_nat (String.length s) <= base * base ^ Z.of_nat (String.length s)) by nia. nia.
    + destruct (digit_of base c) as [d|] eqn:Ed; [|done].
      assert (0 <= d < base) as Hd.
      { revert Ed. unfold digit_of. set (k := Z.of_N (N_of_ascii c)). cbv zeta.
        match goal with |- (if ?v <? _ then _ else _) = _ -> _ => destruct (Z.ltb_spec v base); [|done] end.
        intros [= <-]. split; [|done].
        destruct ((48 <=? k) && (k <=? 57)) eqn:E1; [lia|]. destruct ((97 <=? k) && (k <=? 102)) eqn:E2; [lia|].
        destruct ((65 <=? k) && (k <=? 70)) eqn:E3; lia. }
      intros [H1 H2]%IH; [|lia|nia]. split; [lia|].
      assert ((acc * base + d + 1) <= (acc + 1) * base) by nia. nia.
Qed.

(** A text of hexadecimal digits after [0x] is a number of that many digits. *)
Lemma hex_int_range s r n : str_after "0x" s = Some r -> str_forall is_hex r = true -> int_text 16 s = Some n ->
  0 <= n < 2 ^ (4 * Z.of_nat (String.length r)).
Proof.
  intros Es Hr. apply str_after_eq in Es. subst s. unfold int_text.
  assert (Hclean : str_forall (fun c => negb (is_c_space c)) r = true).
  { clear - Hr. induction r as [|c r IH]; cbn in *; [done|]. apply andb_true_iff in Hr as [Hc Hr].
    rewrite (IH Hr), andb_true_r. unfold is_hex in Hc. apply bool_decide_eq_true in Hc as [z Hz].
    by rewrite (hex_not_space _ _ Hz). }
  rewrite lstrip_none, rstrip_none by (cbn; done). cbn [append]. unfold int_unsigned. cbn [Z.eqb Pos.eqb skip_hex_prefix].
  assert (Hd : int_digits 16 0 true r = Some n -> 0 <= n < 2 ^ (4 * Z.of_nat (String.length r))).
  { intros E. apply int_digits_range in E; [|lia..]. rewrite Z.pow_mul_r by lia. change (2 ^ 4) with 16. lia. }
  destruct r as [|c r']; [done|]. cbn in Hr. apply andb_true_iff in Hr as [Hc _].
  intros E. apply Hd. rewrite <- E. destruct (Ascii.eqb_spec c "_") as [->|Hne]; [done|].
  destruct c as [[] [] [] [] [] [] [] []]; done.
Qed.

Lemma hex_lowered c : is_hex c = true -> is_hex (ascii_lower c) = true.
Proof. destruct c as [[] [] [] [] [] [] [] []]; done. Qed.

Lemma hex_lower s : str_forall is_hex s = true -> str_forall is_hex (str_lower s) = true.
Proof.
  induction s as [|c s IH]; cbn; [done|]. intros [Hc Hs]%andb_true_iff. by rewrite hex_lowered, IH.
Qed.

Lemma str_after_lower r s : str_after "0x" s = Some r -> str_after "0x" (str_lower s) = Some (str_lower r).
Proof. intros ->%str_after_eq. reflexivity. Qed.

(** What a reader built from a context reads with. *)
Definition reader_ok (self : Reader) : Prop :=
  (forall c, reader_contract self = Some c -> hex_exactly 40 c = true) /\
  (forall z, reader_chain_id self = Some z -> 0 <= z < 2 ^ 256).

Lemma for_context_contract ctx c : reader_contract (for_context ctx) = Some c -> hex_exactly 40 c = true.
Proof.
  cbn. destruct (opt_or _ _) as [c'|]; cbn [mbind option_bind]; [|done].
  destruct (hex_exactly 40 c') eqn:E; [|done]. intros [= <-]. unfold hex_exactly in *.
  destruct (str_after "0x" c') as [r|] eqn:Er; [|done]. rewrite (str_after_lower _ _ Er), str_lower_length.
  apply andb_true_iff in E as [-> H]. by rewrite hex_lower.
Qed.

Lemma str_take_forall p n s : str_forall p s = true -> str_forall p (str_take n s) = true.
Proof.
  revert s. induction n as [|n IH]; intros [|c s]; cbn; try done. intros [-> Hs]%andb_true_iff. by rewrite IH.
Qed.

Lemma str_take_length n s : String.length (str_take n s) = Nat.min n (String.length s).
Proof. revert s. induction n as [|n IH]; intros [|c s]; cbn; try done. by rewrite IH. Qed.

Lemma rpc_range o self method params reads w reads' :
  rpc o self method params reads = (inl (Some w), reads') -> 0 <= w < 2 ^ 256.
Proof.
  unfold rpc. destruct (reader_rpc_url self), (reader_contract self), (reader_block self); try done.
  destruct (rpc_word _ _ _ _ _) as [raw|] eqn:E; [|done].
  unfold rbind, record_read, lift_py. destruct (int_text 16 (str_take 66 raw)) as [n|] eqn:Ei; [|done]. intros [= <- _].
  revert E. unfold rpc_word. destruct (o _ _ _ _) as [[| | |s2| |]|]; try done.
  destruct (hex_at_least 64 s2) eqn:Eh; [|done]. intros [= <-]. unfold hex_at_least in Eh.
  destruct (str_after "0x" s2) as [r|] eqn:Er; [|done]. apply andb_true_iff in Eh as [Hl Hh]. apply Nat.leb_le in Hl.
  pose proof (str_after_eq _ _ _ (str_after_lower _ _ Er)) as El. rewrite El in Ei.
  assert (str_after "0x" (str_take 66 ("0x" ++ str_lower r)) = Some (str_take 64 (str_lower r))) as Ha by reflexivity.
  pose proof (hex_int_range _ _ _ Ha (str_take_forall _ _ _ (hex_lower _ Hh)) Ei) as Hr.
  rewrite str_take_length, str_lower_length, Nat.min_l in Hr by done. exact Hr.
Qed.

Definition value_ok (v : value) : Prop :=
  literal v = false \/ val_type v = "bool" -> fits (number v) (val_type v) = true.

(** A recipe static analysis may record: its constants (untyped literals apart)
    and the calldata assigned to its parameters fit their declared types. *)
Definition const_ok (d : list (string * pyval)) : Prop :=
  forall t n, py_get "op" d = PyStr "const" -> py_get "type" d = PyStr t -> parse_int (py_get "value" d) = Some n ->
    py_truthy (py_get "literal" d) = false \/ t = "bool" -> fits n t = true.

Definition param_ok (assigned : list (Z * Z)) (d : list (string * pyval)) : Prop :=
  forall t i n, py_get "op" d = PyStr "param" -> py_get "type" d = PyStr t -> as_int (py_get "index" d) = Some i ->
    odict_get i assigned = Some n -> fits n t = true.

Definition recipe_ok (assigned : list (Z * Z)) (e : pyval) : Prop :=
  exists ns, nodes e = Some ns /\ Forall (fun d => const_ok d /\ param_ok assigned d) ns.

Lemma assoc_get_map {A B} (f : A -> B) k (d : list (string * A)) :
  assoc_get k (List.map (fun kv => (kv.1, f kv.2)) d) = f <$> assoc_get k d.
Proof. induction d as [|[k' v] d IH]; cbn; [done|]. by case_decide. Qed.

(** Only a list yields anything but texts. *)
Lemma iter_elem v l a : iter_or_nil v = Some l -> a ∈ l -> v = PyList l \/ exists s, a = PyStr s.
Proof.
  unfold iter_or_nil, py_or. destruct (py_truthy v); [|intros [= <-]; set_solver].
  destruct v as [|b|z|s|la|da]; cbn; try done; intros [= <-] Ha; [|by left|].
  - right. induction s as [|c s IH]; [set_solver|]. apply elem_of_cons in Ha as [->|Ha]; [by eexists|by apply IH].
  - right. apply list_elem_of_In, in_map_iff in Ha as (kv & <- & _). by eexists.
Qed.

Lemma nodes_dict d ns : nodes (PyDict d) = Some ns ->
  d ∈ ns /\
  (forall key, key ∈ ["value"; "left"; "right"] -> exists m, nodes (py_get key d) = Some m /\ m ⊆ ns) /\
  (forall args a, iter_or_nil (py_get "arguments" d) = Some args -> a ∈ args -> exists m, nodes a = Some m /\ m ⊆ ns).
Proof.
  cbn [nodes]. cbv zeta. set (subs := fun v => (nodes v, match v with PyList l => List.map nodes l | _ => [] end)).
  rewrite !(assoc_get_map subs).
  assert (Hf : forall key, (match subs <$> assoc_get key d with Some (r, _) => r | None => Some [] end) = nodes (py_get key d)).
  { intros key. unfold py_get. by destruct (assoc_get key d). }
  assert (Ha : (match subs <$> assoc_get "arguments" d with Some (_, l) => l | None => [] end)
            = match py_get "arguments" d with PyList l => List.map nodes l | _ => [] end).
  { unfold py_get. by destruct (assoc_get "arguments" d). }
  rewrite !Hf, Ha. clear Ha Hf subs.
  destruct (nodes (py_get "value" d)) as [v|] eqn:Ev; cbn [mbind option_bind]; [|done].
  destruct (nodes (py_get "left" d)) as [l|] eqn:El; cbn [mbind option_bind]; [|done].
  destruct (nodes (py_get "right" d)) as [r|] eqn:Er; cbn [mbind option_bind]; [|done].
  destruct (iter_or_nil (py_get "arguments" d)) as [args|] eqn:Ei; cbn [mbind option_bind]; [|done].
  destruct (mapM id _) as [ms|] eqn:Em; cbn [mbind option_bind]; [|done]. intros [= <-]. split_and!.
  - set_solver.
  - intros key Hk. repeat (apply elem_of_cons in Hk as [->|Hk]; [eexists; split; [eassumption|set_solver]|]). set_solver.
  - intros args' a [= <-] Hin. destruct (iter_elem _ _ _ Ei Hin) as [E|[s ->]]; [|exists []; split; [done|set_solver]].
    rewrite E in Em. apply mapM_Some_1 in Em. apply list_elem_of_lookup in Hin as [i Hi].
    destruct (Forall2_lookup_l _ _ _ i (nodes a) Em) as (m & Hm & Hn); [by rewrite list_lookup_fmap, Hi|].
    exists m. split; [done|]. intros x Hx. rewrite elem_of_cons, !elem_of_app. do 4 right.
    apply list_elem_of_In, in_concat. exists m. split; apply list_elem_of_In; [by eapply list_elem_of_lookup_2|done].
Qed.

Lemma recipe_ok_node a d : recipe_ok a (PyDict d) -> const_ok d /\ param_ok a d.
Proof. intros (ns & E & H). destruct (nodes_dict _ _ E) as (Hd & _). by apply (proj1 (Forall_forall _ _) H) in Hd. Qed.

Lemma recipe_ok_field a d key : key ∈ ["value"; "left"; "right"] -> recipe_ok a (PyDict d) -> recipe_ok a (py_get key d).
Proof.
  intros Hk (ns & E & H). destruct (nodes_dict _ _ E) as (_ & Hf & _). destruct (Hf key Hk) as (m & Em & Hm).
  exists m. split; [done|]. rewrite Forall_forall in H |- *. intros x Hx. by apply H, Hm.
Qed.

Lemma recipe_ok_arg a d args x :
  iter_or_nil (py_get "arguments" d) = Some args -> x ∈ args -> recipe_ok a (PyDict d) -> recipe_ok a x.
Proof.
  intros Ei Hx (ns & E & H). destruct (nodes_dict _ _ E) as (_ & _ & Hf). destruct (Hf _ _ Ei Hx) as (m & Em & Hm).
  exists m. split; [done|]. rewrite Forall_forall in H |- *. intros y Hy. by apply H, Hm.
Qed.

Lemma fits_family n t f : family t = Some f -> fits n t = fits_fam n f.
Proof. unfold fits. by intros ->. Qed.

Lemma decode_word_fits w t n : 0 <= w < 2 ^ 256 -> is_Some (family t) -> decode_word w t = inl n -> fits n t = true.
Proof.
  intros Hw Hf E. pose proof (encode_decode _ _ _ Hw Hf E) as Ee. unfold encode in Ee. cbn [number val_type] in Ee.
  by destruct (fits n t).
Qed.

Lemma decode_packed_fits w o s t n : decode_packed w o s t = inl n -> fits n t = true.
Proof.
  unfold decode_packed. destruct (o <? 0); [done|]. cbv zeta.
  match goal with |- (if fits ?x _ then _ else _) = _ -> _ => destruct (fits x t) eqn:E; [|done] end. by intros [= <-].
Qed.

Lemma convert_fits v t n : value_ok v -> convert v t = inl n -> fits n t = true.
Proof.
  intros Hv. unfold convert. destruct (literal v) eqn:El; [destruct (fits (number v) t) eqn:E; [|done]; by intros [= <-]|].
  specialize (Hv (or_introl El)). unfold fits in Hv.
  destruct (family (val_type v)) as [src|] eqn:Es; [|done]. destruct (family t) as [dst|] eqn:Ed; [|done].
  rewrite (fits_family _ _ _ Ed). case_decide as Heq; [subst; by intros [= <-]|].
  destruct (convert_fam (number v) src dst) as [m|] eqn:Ec; [|done]. intros [= <-].
  exact (proj1 (convert_fam_spec _ _ _ _ (family_ok _ _ Es) (family_ok _ _ Ed) Hv Ec)).
Qed.

(** A computation whose result, if it returns one, satisfies a predicate. *)
Definition yields {A} (P : A -> Prop) (m : RM A) : Prop := forall reads a reads', m reads = (inl a, reads') -> P a.

Lemma yields_ret {A} (P : A -> Prop) a : P a -> yields P (rret a).
Proof. intros H reads b reads' [= <- <-]. done. Qed.
Lemma yields_raise {A} (P : A -> Prop) e : yields P (rraise e).
Proof. done. Qed.
Lemma yields_bind {A B} (Q : A -> Prop) (P : B -> Prop) m k :
  yields Q m -> (forall a, Q a -> yields P (k a)) -> yields P (rbind m k).
Proof.
  intros Hm Hk reads b reads'. unfold rbind. destruct (m reads) as [[a|e] r] eqn:E; [|done]. apply Hk. by eapply Hm.
Qed.
Lemma yields_lift_sum {A} (P : A -> Prop) s : (forall a, s = inl a -> P a) -> yields P (lift_sum s).
Proof. destruct s; intros H; [by apply yields_ret, H|done]. Qed.
Lemma yields_lift_unread {A} (P : A -> Prop) r s : (forall a, s = Some a -> P a) -> yields P (lift_unread r s).
Proof. destruct s; intros H; [by apply yields_ret, H|done]. Qed.
Lemma yields_lift_py {A} (P : A -> Prop) s : (forall a, s = Some a -> P a) -> yields P (lift_py s).
Proof. destruct s; intros H; [by apply yields_ret, H|done]. Qed.
Lemma yields_any {A} (m : RM A) : yields (fun _ => True) m.
Proof. done. Qed.
Lemma yields_rpc o self method params :
  yields (fun w => match w with Some w => 0 <= w < 2 ^ 256 | None => True end) (rpc o self method params).
Proof. intros reads [w|] reads' E; [by eapply rpc_range|done]. Qed.

Lemma bool_value_ok b l : value_ok (MkValue "bool" (Z.b2z b) l).
Proof. intros _. by destruct b. Qed.

Section TypeSound.
Context (o : oracle) (self : Reader) (assigned : list (Z * Z)).
Hypothesis Hself : reader_ok self.

Lemma yields_word_value word t :
  (match word with Some w => 0 <= w < 2 ^ 256 | None => True end) -> is_Some (family t) -> forall reason,
  yields value_ok (w <- lift_unread reason word;; n <- lift_sum (decode_word w t);; rret (MkValue t n false)).
Proof.
  intros Hw Hf reason. destruct word as [w|]; [|done]. apply (yields_bind (fun w => 0 <= w < 2 ^ 256)); [by apply yields_ret|].
  intros w' Hw'. apply (yields_bind (fun n => fits n t = true)).
  - apply yields_lift_sum. intros n. by apply decode_word_fits.
  - intros n Hn. apply yields_ret. by intros _.
Qed.

Lemma yields_storage_slot d t : yields value_ok (storage_slot o self d t).
Proof.
  unfold storage_slot. destruct (as_str _) as [slot|]; [|done]. destruct (as_int _) as [offset|]; [|done].
  destruct (as_int (py_get "size" d)) as [size|]; [|done].
  destruct (negb _); [done|]. destruct (32 <? _); [done|].
  apply (yields_bind (fun _ => True)); [done|]. intros word _. apply (yields_bind (fun _ => True)); [done|]. intros w _.
  apply (yields_bind (fun n => fits n t = true)).
  - apply yields_lift_sum. intros n. apply decode_packed_fits.
  - intros n Hn. apply yields_ret. by intros _.
Qed.

Lemma yields_storage d t : is_Some (family t) -> yields value_ok (storage o self d t).
Proof.
  intros Hf. unfold storage. destruct (py_get "getter" d); try apply yields_storage_slot.
  destruct (hex_exactly 8 s); [|apply yields_storage_slot].
  eapply yields_bind; [apply yields_rpc|]. intros [w|] Hw; [|apply yields_storage_slot].
  exact (yields_word_value (Some w) t Hw Hf "").
Qed.

Lemma yields_bool (m : RM value) (k : value -> RM value) :
  yields value_ok m -> (forall v, value_ok v -> val_type v = "bool" -> yields value_ok (k v)) ->
  yields value_ok (v <- m;; if negb (String.eqb (val_type v) "bool") then unread "reach_condition_type_mismatch" else k v).
Proof.
  intros Hm Hk. eapply yields_bind; [exact Hm|]. intros v Hv.
  destruct (String.eqb_spec (val_type v) "bool") as [E|]; [|done]. by apply Hk.
Qed.

Lemma self_fits c n : reader_contract self = Some c -> int_text 16 c = Some n -> fits n "address" = true.
Proof.
  intros Hc Hn. pose proof (proj1 Hself _ Hc) as Hx. unfold hex_exactly in Hx.
  destruct (str_after "0x" c) as [r|] eqn:Er; [|done]. apply andb_true_iff in Hx as [Hl Hh]. apply Nat.eqb_eq in Hl.
  pose proof (hex_int_range _ _ _ Er Hh Hn) as Hr. rewrite Hl in Hr. change (4 * Z.of_nat 40) with 160 in Hr.
  rewrite (fits_family _ _ FAddress) by done. by apply fits_fam_spec.
Qed.

(** Every value the reader computes fits the type it carries. *)
Lemma evaluate_ok fuel : forall node, recipe_ok assigned node -> yields value_ok (evaluate o self assigned fuel node).
Proof.
  induction fuel as [|fuel IH]; intros node Hr; [done|]. destruct node as [| | | | |d]; try done.
  pose proof (recipe_ok_node _ _ Hr) as [Hconst Hparam].
  assert (IHf : forall key, key ∈ ["value"; "left"; "right"] -> yields value_ok (evaluate o self assigned fuel (py_get key d))).
  { intros key Hk. apply IH. by apply recipe_ok_field. }
  cbn [evaluate]. cbv zeta. destruct (py_get "type" d) as [| | |t| |] eqn:Et; try done.
  destruct (family t) as [f|] eqn:Ef; [|done]. assert (is_Some (family t)) as Hfam by (rewrite Ef; by eexists).
  destruct (py_eq_str (py_get "op" d) "const") eqn:E1.
  { apply py_eq_str_true in E1. eapply (yields_bind (fun n => parse_int (py_get "value" d) = Some n)).
    - by apply yields_lift_unread.
    - intros n Hn. apply yields_ret. intros Hl. by eapply Hconst. }
  destruct (py_eq_str _ "self").
  { apply (yields_bind (fun c => reader_contract self = Some c)); [by apply yields_lift_unread|]. intros c Hc.
    apply (yields_bind (fun n => int_text 16 c = Some n)); [by apply yields_lift_py|]. intros n Hn.
    apply yields_ret. intros _. by eapply self_fits. }
  destruct (py_eq_str _ "chainid").
  { apply (yields_bind (fun c => reader_chain_id self = Some c)); [by apply yields_lift_unread|]. intros c Hc.
    apply yields_ret. intros _. cbn [number val_type]. rewrite (fits_family _ _ (FUint 256)) by done.
    apply fits_fam_spec; [cbn; lia|]. by apply (proj2 Hself). }
  destruct (py_eq_str _ "param") eqn:E2.
  { destruct (negb (hashable _)); [done|]. apply py_eq_str_true in E2.
    apply (yields_bind (fun n => (i ← as_int (py_get "index" d); odict_get i assigned) = Some n)); [by apply yields_lift_unread|].
    intros n Hn. apply bind_Some in Hn as (i & Hi & Hn). apply yields_ret. intros _. by eapply Hparam. }
  destruct (py_eq_str _ "storage"); [by apply yields_storage|].
  destruct (py_eq_str _ "call").
  { destruct (py_get "selector" d); try done. destruct (negb _); [done|].
    apply (yields_bind (fun _ => True)); [done|]. intros args _. apply (yields_bind (fun _ => True)); [done|]. intros words _.
    eapply yields_bind; [apply yields_rpc|]. intros word Hw. by apply yields_word_value. }
  destruct (py_eq_str _ "convert").
  { eapply yields_bind; [apply IHf; set_solver|]. intros v Hv. apply (yields_bind (fun n => fits n t = true)).
    - apply yields_lift_sum. intros n. by apply convert_fits.
    - intros n Hn. apply yields_ret. by intros _. }
  destruct (py_eq_str _ "not").
  { eapply yields_bind; [apply IHf; set_solver|]. intros v Hv.
    destruct (String.eqb_spec (val_type v) "bool") as [E|]; [|done]. apply yields_ret. intros _.
    specialize (Hv (or_intror E)). rewrite E in Hv. cbn [number val_type] in *. unfold fits in *. cbn in *.
    destruct (Z.eqb_spec (number v) 0) as [->|]; [done|]. destruct (Z.eqb_spec (number v) 1) as [->|]; done. }
  destruct (py_eq_str _ "and" || py_eq_str _ "or").
  { assert (Hbit : forall b : bool, value_ok (MkValue "bool" (if b then 0 else 1) false)) by (intros []; by intros _).
    assert (Hneg : forall b : bool, value_ok (MkValue "bool" (1 - (if b then 0 else 1)) false)) by (intros []; by intros _).
    apply yields_bool; [apply IHf; set_solver|]. intros v Hv Ev. destruct (_ =? _); [apply yields_ret, Hbit|].
    apply yields_bool; [apply IHf; set_solver|]. intros v2 Hv2 Ev2.
    destruct (_ =? _); apply yields_ret; [apply Hbit|apply Hneg]. }
  apply (yields_bind (fun _ => True)); [done|]. intros [] _; [|done].
  apply (yields_bind value_ok); [apply IHf; set_solver|]. intros l _.
  apply (yields_bind value_ok); [apply IHf; set_solver|]. intros r _.
  apply (yields_bind (fun _ => True)); [done|]. intros b _. apply yields_ret, bool_value_ok.
Qed.

End TypeSound.

(** ** Verdicts *)

#[local] Opaque DEPTH_FUEL.

Lemma decide_inv o self assigned e wanted reads t reads' b :
  decide_truth o self assigned e wanted reads = (inl t, reads') -> holds t = Some b ->
  exists v, evaluate o self assigned DEPTH_FUEL e reads = (inl v, reads') /\ val_type v = "bool" /\
    b = Bool.eqb (negb (number v =? 0)) wanted /\ calldata t = None.
Proof.
  unfold decide_truth, catch_unread, rbind, current_reads, rret.
  destruct (evaluate o self assigned DEPTH_FUEL e reads) as [[v|[s|]] r].
  - destruct (String.eqb_spec (val_type v) "bool") as [E|]; intros [= <- <-]; cbn [holds calldata]; [|done]. intros [= <-]. by exists v.
  - by intros [= <- <-].
  - done.
Qed.

Lemma tries_inv o self e wanted params tries : forall current reads t reads' b,
  try_assignments o self e wanted params tries current reads = (inl t, reads') -> holds t = Some b ->
  b = true /\ exists assigned r1 v, assigned ∈ tries /\ calldata t = Some (witness_calldata params assigned) /\
    evaluate o self assigned DEPTH_FUEL e r1 = (inl v, reads') /\ val_type v = "bool" /\
    Bool.eqb (negb (number v =? 0)) wanted = true.
Proof.
  induction tries as [|a tries IH]; intros current reads t reads' b; cbn [try_assignments]; [by intros [= <- <-]|].
  unfold rbind. destruct (decide_truth o self a e wanted reads) as [[t1|e1] r1] eqn:E; [|done].
  case_bool_decide as Ht.
  - intros [= <- <-]. cbn [holds calldata]. rewrite Ht. intros [= <-]. split; [done|].
    destruct (decide_inv _ _ _ _ _ _ _ _ _ E Ht) as (v & Ev & Hb & Hw & _). exists a, reads, v.
    split_and!; [set_solver|reflexivity|exact Ev|exact Hb|exact (eq_sym Hw)].
  - intros E2 Hb. destruct (IH _ _ _ _ _ E2 Hb) as (-> & a' & r2 & v & Ha & Hrest). split; [done|].
    exists a', r2, v. split; [set_solver|exact Hrest].
Qed.

Lemma elem_of_product {A} (ls : list (list A)) x : x ∈ product ls -> Forall2 (fun v l => v ∈ l) x ls.
Proof.
  revert x. induction ls as [|l ls IH]; intros x; cbn [product].
  - intros ->%list_elem_of_singleton. constructor.
  - rewrite list_elem_of_In, in_concat. intros (m & Hm & Hx). apply in_map_iff in Hm as (v & <- & Hv).
    apply in_map_iff in Hx as (y & <- & Hy). constructor; [by apply list_elem_of_In|]. apply IH. by apply list_elem_of_In.
Qed.

(** Candidates are values of their parameter's type. *)
Lemma candidates_fit o self e params : yields (fun cands =>
  Forall2 (fun (p : Z * (string * string)) c => c.1 = p.1 /\ Forall (fun z => fits z p.2.1 = true) c.2) params cands)
  (candidates o self e params).
Proof.
  unfold candidates. apply (yields_bind (fun _ => True)); [done|]. intros ns _. apply (yields_bind (fun _ => True)); [done|].
  intros found _. apply yields_ret. induction params as [|p params IH]; cbn; constructor; [|done]. cbn. split; [done|].
  apply Forall_forall. intros z. unfold sorted_set. rewrite merge_sort_Permutation, elem_of_remove_dups.
  rewrite list_elem_of_In, filter_In. tauto.
Qed.

(** An assignment gives every parameter a value of its type. *)
Definition assigns (params : list (Z * (string * string))) (assigned : list (Z * Z)) : Prop :=
  Forall2 (fun p (a : Z * Z) => a.1 = p.1 /\ fits a.2 p.2.1 = true) params assigned.

Lemma tries_assign params cands n a :
  Forall2 (fun (p : Z * (string * string)) c => c.1 = p.1 /\ Forall (fun z => fits z p.2.1 = true) c.2) params cands ->
  a ∈ List.map (zip cands.*1) (take n (product cands.*2)) -> assigns params a.
Proof.
  intros Hc Ha. apply list_elem_of_In, in_map_iff in Ha as (vs & <- & Hvs).
  apply list_elem_of_In, elem_of_take in Hvs as (i & Hi & _). apply list_elem_of_lookup_2, elem_of_product in Hi.
  revert vs Hi. induction Hc as [|p c params cands [E Hf] Hc IH]; intros vs Hi; inversion Hi; subst; cbn; [constructor|].
  constructor; [|by apply IH]. cbn. split; [done|]. rewrite Forall_forall in Hf. by apply Hf.
Qed.

Lemma truth_inv o self e wanted t reads' b params :
  truth o self e wanted [] = (inl t, reads') -> holds t = Some b -> parameters e = Some params ->
  exists assigned r v, assigns params assigned /\ evaluate o self assigned DEPTH_FUEL e r = (inl v, reads') /\
    val_type v = "bool" /\ b = Bool.eqb (negb (number v =? 0)) wanted /\
    (params <> [] -> b = true /\ calldata t = Some (witness_calldata params assigned)).
Proof.
  unfold truth, rbind, lift_py. intros E Hb Hp. rewrite Hp in E. cbn in E. case_bool_decide as Hn.
  - destruct (decide_inv _ _ _ _ _ _ _ _ _ E Hb) as (v & Ev & Hv & Hw & _). subst params.
    exists [], [], v. split_and!; [constructor|exact Ev|exact Hv|exact Hw|by intros []].
  - destruct (calldata_free self); cbn [negb] in E; [|by injection E as <- <-].
    destruct (candidates o self e params []) as [[c|ex] r1] eqn:Ec; [|done].
    destruct (tries_inv _ _ _ _ _ _ _ _ _ _ _ E Hb) as (-> & a & r & v & Ha & Hcd & Ev & Hv & Hw).
    exists a, r, v. split_and!; [|exact Ev|exact Hv|exact (eq_sym Hw)|by intros _].
    eapply tries_assign; [|exact Ha]. exact (candidates_fit _ _ _ _ _ _ _ Ec).
Qed.

(** Flipping a comparison negates it. *)
Lemma flipped_negates op a b : op ∈ COMPARE -> compare_op (flipped op) a b = negb (compare_op op a b).
Proof.
  intros H. repeat (apply elem_of_cons in H as [->|H]; [cbn; lia|]). set_solver.
Qed.

Lemma compare_flipped op l r : op ∈ COMPARE ->
  compare_values (flipped op) l r = match compare_values op l r with inl b => inl (negb b) | inr e => inr e end.
Proof.
  intros Hop. unfold compare_values.
  match goal with |- match ?x with _ => _ end = _ => destruct x as [[lhs rhs]|e]; [|done] end.
  destruct (family (val_type lhs)) as [lf|]; [|done]. destruct (family (val_type rhs)) as [rf|]; [|done].
  destruct (negb (comparable _ _ _ _)); [done|].
  assert (String.eqb (flipped op) "eq" || String.eqb (flipped op) "ne" = String.eqb op "eq" || String.eqb op "ne") as ->.
  { repeat (apply elem_of_cons in Hop as [->|Hop]; [done|]). set_solver. }
  destruct (bool_decide (lf = FBool) && _); [done|]. by rewrite flipped_negates.
Qed.

(** A comparison node and its flip read the same things; the flip is true where
    the node is false. *)
Lemma evaluate_compare o self a fuel d op : py_get "op" d = PyStr op -> op ∈ COMPARE ->
  evaluate o self a (S fuel) (PyDict d) =
  match py_get "type" d with
  | PyStr t =>
      match family t with
      | None => unread "reach_condition_type_unsupported"
      | Some _ =>
          l <- evaluate o self a fuel (py_get "left" d);; r <- evaluate o self a fuel (py_get "right" d);;
          b <- lift_sum (compare_values op l r);; rret (MkValue "bool" (Z.b2z b) false)
      end
  | _ => unread "reach_condition_type_unsupported"
  end.
Proof.
  intros Hop Hin. cbn [evaluate]. cbv zeta. rewrite Hop. destruct (py_get "type" d); try done. destruct (family s); [|done].
  repeat (apply elem_of_cons in Hin as [->|Hin]; [done|]). set_solver.
Qed.

Lemma flipped_compare op : op ∈ COMPARE -> flipped op ∈ COMPARE.
Proof. intros H. repeat (apply elem_of_cons in H as [->|H]; [cbn; set_solver|]). set_solver. Qed.

Lemma decide_flip o self a d op reads : py_get "op" d = PyStr op -> op ∈ COMPARE ->
  decide_truth o self a (PyDict d) false reads = decide_truth o self a (flip_node d op) true reads.
Proof.
  intros Hop Hin. assert (DEPTH_FUEL = S 32) as E by reflexivity. unfold decide_truth. rewrite E. unfold flip_node.
  rewrite (evaluate_compare _ _ _ _ _ _ Hop Hin).
  rewrite (evaluate_compare _ _ _ _ (odict_put "op" (PyStr (flipped op)) d) (flipped op));
    [|by rewrite py_get_put, decide_True|by apply flipped_compare].
  rewrite !py_get_put, !decide_False by done.
  destruct (py_get "type" d) as [| | |t| |]; try done. destruct (family t); [|done].
  unfold catch_unread, rbind. destruct (evaluate o self a 32 (py_get "left" d) reads) as [[l|e] r1]; [|done].
  destruct (evaluate o self a 32 (py_get "right" d) r1) as [[r|e] r2]; [|done].
  rewrite (compare_flipped _ _ _ Hin). by destruct (compare_values op l r) as [[]|e].
Qed.

(** ** Properties *)

(** C16: the reads a reach verdict carries are a complete witness.  Every record
    states what the chain answered, and any node that answers those requests
    alike makes the reader return the same verdict, whatever else it answers. *)
Theorem reach_verdict_witnessed (o : oracle) (stamp : pyval) (ctx : EvaluationContext) (t : ReachTruth) :
  read_reach o stamp ctx = Some t ->
  Forall (answered (for_context ctx) o) (truth_reads t) /\
  forall o', Forall (answered (for_context ctx) o') (truth_reads t) -> read_reach o' stamp ctx = Some t.
Proof.
  unfold read_reach. destruct stamp as [| | | | |d]; [by intros [= <-]..|].
  destruct (py_get "expression" d) as [| | | | |e]; [by intros [= <-]..|].
  destruct (truth o _ _ _ []) as [[t'|ex] reads] eqn:E; [|discriminate]. intros [= ->].
  destruct (replays_truth _ _ _ _ _ _ _ E) as (new & -> & Ha & Hr).
  rewrite (truth_reads_final _ _ _ _ _ _ E). split; [exact Ha|]. intros o' Ho. by rewrite (Hr _ Ho).
Qed.

Definition uint256_param : pyval :=
  PyDict [("op", PyStr "param"); ("type", PyStr "uint256"); ("index", PyInt 0); ("name", PyStr "amount")].
Definition cap_slot : pyval :=
  PyDict [("op", PyStr "storage"); ("type", PyStr "uint256"); ("variable", PyStr "cap");
          ("slot", PyStr "0x01"); ("offset", PyInt 0); ("size", PyInt 32)].
(** [amount > cap] *)
Definition over_cap : list (string * pyval) :=
  [("op", PyStr "gt"); ("type", PyStr "bool"); ("left", uint256_param); ("right", cap_slot)].
Definition over_cap_stamp : pyval := PyDict [("expression", PyDict over_cap); ("holds", PyBool true)].

Definition reach_ctx : EvaluationContext :=
  registry_context (MkOuter 1 (Some "http://node") (Some 100) (Some ("0x" ++ str_repeat "a" 40)) None true [] None).

(** A node whose storage holds 41. *)
Definition node_41 : oracle := fun _ _ _ _ => Some (PyStr ("0x" ++ rjust 64 "0" "29")).

Definition over_cap_truth : ReachTruth :=
  match read_reach node_41 over_cap_stamp reach_ctx with Some t => t | None => MkTruth None [] None None end.

Lemma over_cap_holds : holds over_cap_truth = Some true /\ calldata over_cap_truth = Some [("amount", "42")].
Proof. split; vm_compute; reflexivity. Qed.

Lemma reach_verdict_witnessed_witness :
  Forall (answered (for_context reach_ctx) node_41) (truth_reads over_cap_truth) /\
  List.length (truth_reads over_cap_truth) = 6%nat.
Proof.
  split; [|vm_compute; reflexivity]. apply (reach_verdict_witnessed node_41 over_cap_stamp reach_ctx over_cap_truth).
  vm_compute. reflexivity.
Defined.

(** C15: what a decided reach condition means.  The verdict is the value the
    recipe evaluates to under one assignment of its parameters, each a value of
    the parameter's type; a condition on calldata is never refuted, and is
    published as holding only with the calldata that makes it hold. *)
Theorem reach_verdict_sound (o : oracle) (ctx : EvaluationContext) (d e : list (string * pyval))
    (params : list (Z * (string * string))) (t : ReachTruth) (b : bool) :
  py_get "expression" d = PyDict e -> parameters (PyDict e) = Some params ->
  read_reach o (PyDict d) ctx = Some t -> holds t = Some b ->
  exists assigned r v,
    assigns params assigned /\
    evaluate o (for_context ctx) assigned DEPTH_FUEL (PyDict e) r = (inl v, truth_reads t) /\ val_type v = "bool" /\
    b = Bool.eqb (negb (number v =? 0)) (py_truthy (py_get "holds" d)) /\
    (params <> [] -> b = true /\ calldata t = Some (witness_calldata params assigned)).
Proof.
  intros He Hp. unfold read_reach. rewrite He. destruct (truth o _ _ _ []) as [[t'|ex] reads] eqn:E; [|discriminate].
  intros [= ->] Hb. rewrite (truth_reads_final _ _ _ _ _ _ E). exact (truth_inv _ _ _ _ _ _ _ _ E Hb Hp).
Qed.

Lemma reach_verdict_sound_witness :
  exists assigned r v,
    assigns [(0, ("uint256", "amount"))] assigned /\
    evaluate node_41 (for_context reach_ctx) assigned DEPTH_FUEL (PyDict over_cap) r = (inl v, truth_reads over_cap_truth) /\
    val_type v = "bool" /\ true = Bool.eqb (negb (number v =? 0)) true /\
    ([(0, ("uint256", "amount"))] <> [] -> true = true /\
      calldata over_cap_truth = Some (witness_calldata [(0, ("uint256", "amount"))] assigned)).
Proof.
  apply (reach_verdict_sound node_41 reach_ctx [("expression", PyDict over_cap); ("holds", PyBool true)]
           over_cap [(0, ("uint256", "amount"))] over_cap_truth true); vm_compute; reflexivity.
Defined.

(** The ABI word codec is a bijection between the values of a static type and
    the words that encode one: encoding then decoding is the identity, and a word
    that decodes is the encoding of what it decodes to. *)
Theorem abi_word_codec (t : string) (f : fam) :
  family t = Some f ->
  (forall n, fits n t = true ->
     exists w, encode (MkValue t n false) = inl w /\ 0 <= w < 2 ^ 256 /\ decode_word w t = inl n) /\
  (forall w n, 0 <= w < 2 ^ 256 -> decode_word w t = inl n -> encode (MkValue t n false) = inl w /\ fits n t = true).
Proof.
  intros Ef. assert (is_Some (family t)) as Hs by (rewrite Ef; by eexists). split; [intros n; apply decode_encoded|].
  intros w n Hw E. split; [by apply encode_decode|by eapply decode_word_fits].
Qed.

Lemma abi_word_codec_witness :
  (forall n, fits n "int128" = true ->
     exists w, encode (MkValue "int128" n false) = inl w /\ 0 <= w < 2 ^ 256 /\ decode_word w "int128" = inl n) /\
  (forall w n, 0 <= w < 2 ^ 256 -> decode_word w "int128" = inl n ->
     encode (MkValue "int128" n false) = inl w /\ fits n "int128" = true).
Proof. apply (abi_word_codec "int128" (FInt 128)). reflexivity. Defined.

(** Conversions are Solidity's.  Converting a value of a type to another gives
    a value of the target type: integers keep their low bits (two's complement),
    fixed bytes keep their leading bytes, the rest keep the number. *)
Theorem conversion_is_solidity (v : value) (target : string) (m : Z) :
  literal v = false -> fits (number v) (val_type v) = true -> convert v target = inl m ->
  exists source into, family (val_type v) = Some source /\ family target = Some into /\
    fits m target = true /\ solidity_converts source into (number v) m.
Proof.
  intros Hl Hf. unfold convert. rewrite Hl. destruct (fits_inv _ _ Hf) as (src & Es & Hs & Hn). rewrite Es.
  destruct (family target) as [dst|] eqn:Ed; [|done]. intros E. exists src, dst. rewrite (fits_family _ _ _ Ed).
  case_decide as Heq; [subst dst; injection E as <-; auto using solidity_converts_refl|].
  destruct (convert_fam (number v) src dst) as [k|] eqn:Ec; [|done]. injection E as <-.
  destruct (convert_fam_spec _ _ _ _ Hs (family_ok _ _ Ed) Hn Ec). auto.
Qed.

Lemma conversion_is_solidity_witness :
  exists source into, family "uint256" = Some source /\ family "uint8" = Some into /\
    fits 44 "uint8" = true /\ solidity_converts source into 300 44.
Proof.
  apply (conversion_is_solidity (MkValue "uint256" 300 false) "uint8" 44); vm_compute; reflexivity.
Defined.

(** Every value the reader computes fits the type it carries, for a recipe
    whose constants and calldata fit theirs. *)
Theorem reach_values_fit (o : oracle) (self : Reader) (assigned : list (Z * Z)) (fuel : nat) (node : pyval)
    (reads reads' : list pyval) (v : value) :
  reader_ok self -> recipe_ok assigned node ->
  evaluate o self assigned fuel node reads = (inl v, reads') ->
  literal v = false -> fits (number v) (val_type v) = true.
Proof. intros Hs Hr E Hl. eapply (evaluate_ok o self assigned Hs); [exact Hr|exact E|by left]. Qed.

(** [uint8(uint256(amount))] with [amount] at 300. *)
Definition narrowed : pyval := PyDict [("op", PyStr "convert"); ("type", PyStr "uint8"); ("value", uint256_param)].

Lemma narrowed_ok : recipe_ok [(0, 300)] narrowed.
Proof.
  eexists. split; [reflexivity|]. repeat apply Forall_cons_2; try apply Forall_nil_2; split.
  - by intros t n Hop.
  - by intros t i n Hop.
  - by intros t n Hop.
  - intros t i n _ Ht Hi Hn. cbn in Ht, Hi. injection Ht as <-. injection Hi as <-. cbn in Hn. injection Hn as <-.
    by vm_compute.
Qed.

Lemma reach_values_fit_witness : fits 44 "uint8" = true.
Proof.
  apply (reach_values_fit node_41 (for_context reach_ctx) [(0, 300)] DEPTH_FUEL narrowed [] [] (MkValue "uint8" 44 false)).
  - split; [apply for_context_contract|]. intros z [= <-]. lia.
  - exact narrowed_ok.
  - vm_compute. reflexivity.
  - reflexivity.
Defined.

(** A comparison required false is shown, and read, as the flipped comparison
    required true. *)
Theorem required_false_is_flipped (o : oracle) (self : Reader) (assigned : list (Z * Z)) (d : list (string * pyval))
    (op : string) (reads : list pyval) :
  py_get "op" d = PyStr op -> op ∈ COMPARE ->
  describe_reach (PyDict [("expression", PyDict d); ("holds", PyBool false)])
    = describe_reach (PyDict [("expression", flip_node d op); ("holds", PyBool true)]) /\
  decide_truth o self assigned (PyDict d) false reads = decide_truth o self assigned (flip_node d op) true reads.
Proof.
  intros Hop Hin. split; [|by apply decide_flip].
  assert (negated DEPTH_FUEL (PyDict d) = text DEPTH_FUEL (flip_node d op)) as E.
  { unfold negated, negated_with. cbv zeta. rewrite Hop. by rewrite bool_decide_true. }
  unfold describe_reach, py_get. cbn [assoc_get]. rewrite !(decide_False (P := _ = _)), !(decide_True (P := _ = _)) by done.
  by rewrite E.
Qed.

Lemma required_false_is_flipped_witness :
  describe_reach (PyDict [("expression", PyDict over_cap); ("holds", PyBool false)]) = Some (Some ("amount <= cap", false)) /\
  decide_truth node_41 (for_context reach_ctx) [(0, 7)] (PyDict over_cap) false []
    = decide_truth node_41 (for_context reach_ctx) [(0, 7)] (flip_node over_cap "gt") true [].
Proof.
  destruct (required_false_is_flipped node_41 (for_context reach_ctx) [(0, 7)] over_cap "gt" []) as [H1 H2].
  - reflexivity.
  - unfold COMPARE. set_solver.
  - split; [|exact H2]. rewrite H1. vm_compute. reflexivity.
Defined.
