(* ===== verification/Surface.v ===== *)
(** * The capability surface ([services/policy/capability_surface.py])

    A serialized capability (the dict [capability_to_dict] writes) is projected to
    its caller rows, its public paths and its residual checks, in one bottom-up
    pass that never materializes the product of an AND's paths.

    - [_Projector] is the state monad [PM]: the table of interned conditions and
      the work spent, with the two ways out of a projection, the work budget
      ([PBudget]) and a Python exception on a malformed dict ([PRaise]).
    - [_Summary] and [_RowAcc] are records; a dict keyed by row key is an
      association list in insertion order.  [_EMPTY] is a shared object the code
      compares by identity: [sm_shared] marks it.
    - The per-node memo of blockers and the per-pass memo of projections only
      cache pure results and are not represented. *)

From stdpp Require Import base sets list strings sorting pretty.
From Stdlib Require Import String Ascii ZArith Lia.
From S2P Require Import Prelude PyText EvalContext Capabilities.

Local Open Scope string_scope.
Local Open Scope Z_scope.

Definition dict : Type := list (string * pyval).

(** [d.get(k, default)] *)
Definition get_default (k : string) (dflt : pyval) (d : dict) : pyval :=
  match assoc_get k d with Some v => v | None => dflt end.

(** ** Equality of Python values

    [==], which holds of an object and itself. *)


#[export] Instance pyval_eq_dec : EqDecision pyval.
Proof.
  unfold EqDecision. fix IH 1. intros v w. unfold Decision.
  destruct v as [|a|a|a|l|d], w as [|b|b|b|m|e]; try (right; discriminate); [by left|..].
  - destruct (decide (a = b)) as [->|N]; [by left|right; congruence].
  - destruct (decide (a = b)) as [->|N]; [by left|right; congruence].
  - destruct (decide (a = b)) as [->|N]; [by left|right; congruence].
  - revert m. induction l as [|x l IHl]; intros [|y m]; [by left|right; discriminate..|].
    destruct (IH x y) as [->|N]; [|right; congruence].
    destruct (IHl m) as [E|N]; [left; congruence|right; congruence].
  - revert e. induction d as [|[k x] d IHd]; intros [|[k' y] e]; [by left|right; discriminate..|].
    destruct (decide (k = k')) as [->|N]; [|right; congruence].
    destruct (IH x y) as [->|N]; [|right; congruence].
    destruct (IHd e) as [E|N]; [left; congruence|right; congruence].
Defined.

Definition py_same (v w : pyval) : bool := bool_decide (v = w) || py_eqb v w.

(** ** Conditions *)

Definition is_none (v : pyval) : bool := match v with PyNone => true | _ => false end.

(** [_condition_dicts] *)
Definition condition_dicts (raw : pyval) : list dict :=
  match raw with
  | PyList l =>
      omap (fun item => match item with
                        | PyDict d => Some (List.filter (fun kv => negb (is_none kv.2)) d)
                        | _ => None
                        end) l
  | _ => []
  end.

(** [repr(sorted(condition.items()))], the key conditions are told apart by. *)
Definition cond_key (c : dict) : string :=
  "[" ++ str_join ", " (List.map (fun kv => "(" ++ repr_str kv.1 ++ ", " ++ py_repr kv.2 ++ ")") (merge_sort by_key c)) ++ "]".

Fixpoint unique_loop (seen : list string) (conds : list dict) : list dict :=
  match conds with
  | [] => []
  | c :: conds => if decide (cond_key c ∈ seen) then unique_loop seen conds else c :: unique_loop (cond_key c :: seen) conds
  end.

(** [_unique_conditions] *)
Definition unique_conditions (conds : list dict) : list dict := unique_loop [] conds.

(** [_details_with_conditions] *)
Definition details_with_conditions (details : dict) (conds : list dict) : dict :=
  match conds with
  | [] => details
  | _ =>
      let existing := condition_dicts (py_get "conditions" details) in
      odict_put "conditions" (PyList (List.map PyDict (unique_conditions (existing ++ conds)%list))) details
  end.

(** [merged_membership_quality]; a set of two unhashable values raises. *)
Definition merged_membership_quality (a b : pyval) : option pyval :=
  if py_same a b then Some a
  else if hashable a && hashable b then
    Some (if py_in a ["exact"; "lower_bound"] && py_in b ["exact"; "lower_bound"] then PyStr "lower_bound" else PyNone)
  else None.

(** [_child_dicts] *)
Definition child_dicts (d : dict) : list pyval :=
  match py_get "children" d with
  | PyList l => List.filter (fun v => match v with PyDict _ => true | _ => false end) l
  | _ => []
  end.

(** A function of the children, computed entry by entry so that recursion is on
    the value: [child_results f d] is [[(c, f c) for c in _child_dicts(d)]]. *)
Definition child_results {B} (f : pyval -> B) (d : dict) : list (pyval * B) :=
  match assoc_get "children" (List.map (fun kv => (kv.1, match kv.2 with
      | PyList l => List.concat (List.map (fun v => match v with PyDict _ => [(v, f v)] | _ => [] end) l)
      | _ => []
      end)) d) with
  | Some l => l
  | None => []
  end.

(** ** Trace readers *)

(** The dict steps of a trace with their [step] name. *)
Definition step_name (step : pyval) : pyval := match step with PyDict s => py_get "step" s | _ => PyNone end.
Definition is_dict (v : pyval) : bool := match v with PyDict _ => true | _ => false end.

(** [resolver_path]: [None] is the source's, the outer option an exception
    ([str(step["step"])] cannot raise, so there is none). *)
Definition resolver_path (d : dict) : pyval :=
  match py_get "trace" d with
  | PyList l =>
      let steps := omap (fun step => match step with
                        | PyDict s =>
                            if py_truthy (py_get "step" s) && negb (py_truthy (py_get DEFERRED_MARKER s))
                            then Some (PyStr (py_str (py_get "step" s))) else None
                        | _ => None
                        end) l in
      match steps with [] => PyNone | _ => PyList steps end
  | _ => PyNone
  end.

Definition SHIPPED_AUTHORITY_BASES : list string :=
  ["abi_auto_getter"; "standard_namespaced_accessor"; "deunderscore_convention"; "slot_name_keyword"; "callee_selector"].
Definition NAME_MATCHED_AUTHORITY_BASES : list string :=
  ["standard_namespaced_accessor"; "deunderscore_convention"; "slot_name_keyword"].

(** [len(v)] *)
Definition py_len (v : pyval) : option Z :=
  match v with
  | PyStr s => Some (Z.of_nat (String.length s))
  | PyList l => Some (Z.of_nat (List.length l))
  | PyDict d => Some (Z.of_nat (List.length d))
  | _ => None
  end.

(** The basis steps of a trace; [None] when a step names a second producer.  A
    non-string step name compares unequal to every known one, an unhashable one
    raises in the set test, which is reported as the outer [None]. *)
Fixpoint basis_steps (trace : list pyval) (bases : list string) : option (option (list string)) :=
  match trace with
  | [] => Some (Some bases)
  | PyDict s :: trace =>
      if py_truthy (py_get DEFERRED_MARKER s) then basis_steps trace bases
      else if py_eq_str (py_get "step" s) "authority_getter_basis" then
        match py_get "basis" s with
        | PyStr b => basis_steps trace (bases ++ [b])%list
        | _ => Some None
        end
      else match py_in_set (py_get "step" s) ["authority_getter_basis"; "live_getter_resolution"] with
           | Some true => basis_steps trace bases
           | Some false => Some None
           | None => None
           end
  | _ :: _ => Some None
  end.

(** [_authority_basis] *)
Definition authority_basis (d : dict) : option (option string) :=
  match py_get "trace" d with
  | PyList trace =>
      n ← py_len (py_or (py_get "members" d) (PyList []));
      if negb (n =? 1) then Some None
      else
        bases ← basis_steps trace [];
        Some (match bases with
              | Some [b] => if bool_decide (b ∈ SHIPPED_AUTHORITY_BASES) then Some b else None
              | _ => None
              end)
  | _ => Some None
  end.

(** ** Rows *)

Definition row_dict (address : string) (resolved_type : pyval) (origin principal_type : string) (details : dict) : dict :=
  [("address", PyStr address); ("resolved_type", resolved_type); ("origin", PyStr origin);
   ("principal_type", PyStr principal_type); ("details", PyDict details)].

(** [isinstance(m, str) and m.startswith("0x") and len(m) == 42], lowered. *)
Definition address_of (v : pyval) : option string :=
  match v with PyStr s => if hex_shaped 42 s then Some (str_lower s) else None | _ => None end.

Definition finite_set_details (d : dict) (basis : option string) : dict :=
  ([("source", PyStr "semantic_predicate_capability_resolver"); ("resolver_path", resolver_path d);
    ("membership_quality", py_get "membership_quality" d); ("confidence", py_get "confidence" d);
    ("trace", py_or (py_get "trace" d) (PyList []))]
   ++ match basis with
      | Some b =>
          ("authority_basis", PyStr b)
            :: (if bool_decide (b ∈ NAME_MATCHED_AUTHORITY_BASES)
                then [("accessor_slot_agreement", PyStr "not_determined")] else [])
      | None => []
      end)%list.

(** [_rows_for_finite_set] *)
Definition rows_for_finite_set (d : dict) (conds : list dict) : option (list dict) :=
  members ← iter_or_nil (py_get "members" d);
  basis ← authority_basis d;
  Some (omap (M := list) (fun member =>
          (fun address => row_dict address PyNone "semantic_capability:finite_set" "controller"
                            (details_with_conditions (finite_set_details d basis) conds)) <$> address_of member) members).

(** The subject of a [source_signature_threshold] step. *)
Fixpoint threshold_contract (trace : list pyval) : pyval :=
  match trace with
  | [] => PyNone
  | PyDict s :: trace =>
      if py_eq_str (py_get "step" s) "source_signature_threshold" then py_get "contract" s else threshold_contract trace
  | _ :: trace => threshold_contract trace
  end.

Definition looked_up_safe (lookup : option (list (string * string))) (signature : option string) : option string :=
  match lookup with
  | None | Some [] => None
  | Some m =>
      match (s ← signature; if String.eqb s "" then None else assoc_get s m) with
      | Some a => Some a
      | None => assoc_get "default" m
      end
  end.

Definition ZERO_ADDRESS : string := "0x" ++ str_repeat "0" 40.

(** [_rows_for_threshold_group]; a truthy subject that is no text raises at
    [.lower()]. *)
Definition rows_for_threshold_group (d : dict) (conds : list dict)
    (lookup : option (list (string * string))) (signature : option string) : option (list dict) :=
  match py_or (py_get "threshold" d) (PyDict []) with
  | PyDict threshold =>
      let signers := match py_or (py_get "signers" threshold) (PyList []) with PyList l => l | _ => [] end in
      let owners := omap address_of signers in
      trace ← iter_or_nil (py_get "trace" d);
      let found := threshold_contract trace in
      let safe := if py_truthy found then found else py_of_opt (opt_or (looked_up_safe lookup signature) None) in
      safe_address ← (match safe with PyStr s => Some s | PyNone => Some ZERO_ADDRESS | _ => None end);
      Some [row_dict (str_lower safe_address) (PyStr "safe") "semantic_capability:threshold_group" "controller"
              (details_with_conditions
                 [("threshold", match as_int (py_get "m" threshold) with Some z => PyInt z | None => PyNone end);
                  ("owners", PyList (List.map PyStr owners)); ("total_signers", PyInt (Z.of_nat (List.length owners)));
                  ("source", PyStr "semantic_predicate_capability_resolver"); ("resolver_path", resolver_path d)] conds)]
  | _ => Some []
  end.

(** [_rows_for_signature_witness] *)
Definition rows_for_signature_witness (d : dict) (conds : list dict) : option (list dict) :=
  match py_get "signer" d with
  | PyDict signer =>
      if negb (py_eq_str (py_get "kind" signer) "finite_set") then Some []
      else
        members ← iter_or_nil (py_get "members" signer);
        Some (omap (M := list) (fun member =>
                (fun address => row_dict address PyNone "semantic_capability:signature_witness" "signature_witness"
                        (details_with_conditions
                           [("signer_kind", PyStr "finite_set"); ("source", PyStr "semantic_predicate_capability_resolver");
                            ("resolver_path", resolver_path signer);
                            ("membership_quality", py_get "membership_quality" signer)]
                           (conds ++ condition_dicts (py_get "conditions" signer))%list)) <$> address_of member) members)
  | _ => Some []
  end.

(** [_row_key] *)
Definition row_key : Type := string * string * string.

Definition key_of_row (row : dict) : row_key :=
  let text k := py_str (py_or (py_get k row) (PyStr "")) in
  (str_lower (text "address"), text "origin", text "principal_type").

(** ** Emptiness and authority blockers *)

Definition CALLER_GATE_BASIS_TAGS : list string :=
  ["caller_tainted_authority_unresolved"; "caller_keyed_time_allowlist"; "caller_keyed_membership_allowlist"].

Definition PROVABLY_EMPTY_TRACE_STEPS : list string := ["solmate_roles_authority"; "enumerable_role_store"].

Definition CONFIRMED_EMPTY : list string := List.map reason_name READ_CONFIRMED_EMPTY_REASONS.

(** [_is_proven_empty] *)
Definition is_proven_empty (d : dict) : option bool :=
  if py_eq_str (py_get "kind" d) "finite_set" && py_same (py_get "members" d) (PyList [])
     && py_eq_str (py_get "membership_quality" d) "exact" && py_eq_str (py_get "confidence" d) "enumerable"
     && py_eq_str (get_default "subject" (PyStr "root") d) "root"
  then if is_none (py_get "empty_reason" d) then Some true else py_in_set (py_get "empty_reason" d) CONFIRMED_EMPTY
  else Some false.

(** [_is_role_store_provably_empty] *)
Definition is_role_store_provably_empty (d : dict) : option bool :=
  if negb (py_eq_str (py_get "kind" d) "finite_set") || py_truthy (py_get "members" d)
     || negb (py_eq_str (py_get "membership_quality" d) "exact")
  then Some false
  else match py_get "trace" d with
       | PyList trace =>
           any_m (fun step => if is_dict step then py_in_set (step_name step) PROVABLY_EMPTY_TRACE_STEPS else Some false) trace
       | _ => Some false
       end.

(** [_is_resolved_empty_capability] *)
Fixpoint is_resolved_empty_capability (v : pyval) : option bool :=
  match v with
  | PyDict d =>
      let children := child_results is_resolved_empty_capability d in
      if py_eq_str (py_get "kind" d) "finite_set" then is_proven_empty d
      else if py_eq_str (py_get "kind" d) "AND" then any_m snd children
      else if py_eq_str (py_get "kind" d) "OR"
      then match children with [] => Some false | _ => all_m snd children end
      else Some false
  | _ => None
  end.

(** [_is_root_authority_blocker] *)
Fixpoint is_root_authority_blocker (v : pyval) : option bool :=
  match v with
  | PyDict d =>
      let kind := py_get "kind" d in
      let children := child_results is_root_authority_blocker d in
      if negb (py_eq_str (get_default "subject" (PyStr "root") d) "root") then Some false
      else
        unread ← is_reach_not_determined (PyDict d);
        if (unread : bool) then Some true
        else if py_eq_str kind "finite_set" then
          if py_truthy (py_get "members" d) then Some false
          else or_m (is_role_store_provably_empty d) (negb <$> is_proven_empty d)
        else if py_eq_str kind "unsupported" then Some true
        else if py_eq_str kind "external_check_only" then
          extra ← dget_or "extra" (py_get "check" d);
          basis ← dget_or "basis" extra;
          tags ← iter_or_nil basis;
          any_m (fun tag => py_in_set tag CALLER_GATE_BASIS_TAGS) tags
        else if py_eq_str kind "AND" then any_m snd children
        else if py_eq_str kind "OR" then match children with [] => Some false | _ => all_m snd children end
        else Some false
  | _ => None
  end.

(** [_residual_as_conditions] *)
Definition business (description : string) : dict := [("kind", PyStr "business"); ("description", PyStr description)].

Definition CONDITION_NOT_READ : dict := business "condition not read".

Definition residual_as_conditions (residual : dict) : option (list dict) :=
  let out := condition_dicts (py_get "conditions" residual) in
  unread ← is_reach_not_determined (PyDict residual);
  if (unread : bool) then
    extra ← dget_or "extra" (py_get "check" residual);
    expression ← dget_or "expression" extra;
    Some (out ++ [business ("condition not read: " ++ py_str (py_or expression (PyStr "reach condition")))])%list
  else
    Some (out ++ [match py_get "check" residual with
                  | PyDict chk =>
                      if py_truthy (py_get "target_address" chk) then
                        let selector := py_get "target_call_selector" chk in
                        business ("external authorization check: " ++ py_str (py_get "target_address" chk)
                                  ++ (if py_truthy selector then "." ++ py_str selector else ""))
                      else if py_truthy (py_get "unsupported_reason" residual)
                      then business ("unresolved check: " ++ py_str (py_get "unsupported_reason" residual))
                      else business "external authorization check"
                  | _ =>
                      if py_truthy (py_get "unsupported_reason" residual)
                      then business ("unresolved check: " ++ py_str (py_get "unsupported_reason" residual))
                      else business "external authorization check"
                  end])%list.

(** ** The projector's effect *)

Definition PROJECTION_WORK_BUDGET : Z := 20000000.
Definition PROJECTION_BUDGET_EXCEEDED : string := "projection_budget_exceeded".
Definition PUBLIC_PATH_LIST_BUDGET : nat := 256.
Definition PUBLIC_PATH_LIST_BUDGET_EXCEEDED : string := "public_path_list_budget_exceeded".

Record pstate := MkP { p_index : list (string * nat); p_table : list dict; p_work : Z }.

Inductive pres (A : Type) := POk (a : A) (s : pstate) | PBudget | PRaise.
Arguments POk {A} _ _.
Arguments PBudget {A}.
Arguments PRaise {A}.

Definition PM (A : Type) : Type := pstate -> pres A.

Definition pret {A} (a : A) : PM A := fun s => POk a s.
Definition pbind {A B} (m : PM A) (k : A -> PM B) : PM B :=
  fun s => match m s with POk a s => k a s | PBudget => PBudget | PRaise => PRaise end.
Definition plift {A} (o : option A) : PM A := fun s => match o with Some a => POk a s | None => PRaise end.

Declare Scope surface_scope.
Delimit Scope surface_scope with surface.
Notation "x <- m ;; k" := (pbind m (fun x => k)) (at level 100, m at next level, right associativity) : surface_scope.
Local Open Scope surface_scope.

Fixpoint pmap {A B} (f : A -> PM B) (l : list A) : PM (list B) :=
  match l with [] => pret [] | x :: l => b <- f x;; r <- pmap f l;; pret (b :: r) end.

Fixpoint pfold {A B} (f : A -> B -> PM A) (l : list B) (acc : A) : PM A :=
  match l with [] => pret acc | x :: l => acc <- f acc x;; pfold f l acc end.

Definition spend (units : Z) : PM () := fun s =>
  let work := p_work s + units in
  if PROJECTION_WORK_BUDGET <? work then PBudget else POk () (MkP (p_index s) (p_table s) work).

Definition Ids : Type := list nat.

(** One condition's id, added to the table when its key is new. *)
Definition intern_one (c : dict) : PM nat := fun s =>
  match assoc_get (cond_key c) (p_index s) with
  | Some ident => POk ident s
  | None =>
      let ident := List.length (p_table s) in
      POk ident (MkP (p_index s ++ [(cond_key c, ident)])%list (p_table s ++ [c])%list (p_work s))
  end.

Definition intern (conds : list dict) : PM Ids :=
  _ <- spend (Z.of_nat (List.length conds));; ids <- pmap intern_one conds;; pret (fromkeys ids).

Definition unique (parts : list Ids) : PM Ids :=
  _ <- spend (Z.of_nat (List.length (List.concat parts)));; pret (fromkeys (List.concat parts)).

(** ** Summaries *)

Record RowAcc := MkAcc {
  acc_row : dict;
  acc_first : Ids;
  acc_union : Ids;
  acc_multi : bool;
  acc_touched : bool;
  acc_trace : list pyval;
  acc_has_quality : bool;
  acc_quality : pyval
}.

(** How to enumerate the paths; [PNone] is the field's [None]. *)
Inductive pexpr := PNone | PLeaf (ids : Ids) | POr (a b : pexpr) | PAnd (a b : pexpr) | PApp (a : pexpr) (ids : Ids).

Record Summary := MkSummary {
  sm_rows : list (row_key * RowAcc);
  sm_residual : list dict;
  sm_ond : bool;
  sm_count : Z;
  sm_pfirst : Ids;
  sm_punion : Ids;
  sm_pexpr : pexpr;
  sm_nobody : bool;
  sm_shared : bool
}.

(** [_Summary(rows=..., residual=..., ond=..., nobody=...)]: no public path. *)
Definition closed_summary (rows : list (row_key * RowAcc)) (residual : list dict) (ond nobody : bool) : Summary :=
  MkSummary rows residual ond 0 [] [] PNone nobody false.

Definition EMPTY_SUMMARY : Summary := MkSummary [] [] false 0 [] [] PNone false true.

Definition sm_valid (s : Summary) : bool := negb (bool_decide (sm_rows s = [] :> list (row_key * RowAcc))) || (0 <? sm_count s).

Definition may_admit_anyone (s : Summary) : bool :=
  negb (sm_nobody s) && ((0 <? sm_count s) || sm_ond s || negb (sm_valid s)).

(** ** [_Projector] *)

Section Projector.
Context (earned_public : bool) (lookup : option (list (string * string))) (signature : option string).

(** [trace.extend(item for item in later if item not in trace)]: the generator
    sees what was appended before it. *)
Fixpoint merge_trace (trace later : list pyval) : list pyval :=
  match later with
  | [] => trace
  | item :: later => merge_trace (if existsb (py_same item) trace then trace else (trace ++ [item])%list) later
  end.

Definition merge (earlier later : RowAcc) : PM RowAcc :=
  _ <- spend (Z.of_nat (List.length (acc_trace earlier) + List.length (acc_trace later)));;
  un <- unique [acc_union earlier; acc_union later];;
  q <- plift (merged_membership_quality (acc_quality earlier) (acc_quality later));;
  pret (MkAcc (acc_row earlier) (acc_first earlier) un true (acc_touched earlier)
          (merge_trace (acc_trace earlier) (acc_trace later))
          (acc_has_quality earlier || acc_has_quality later) q).

(** [out[key] = merge(out[key], acc) if key in out else acc] *)
Definition put_acc (out : list (row_key * RowAcc)) (ka : row_key * RowAcc) : PM (list (row_key * RowAcc)) :=
  match odict_get ka.1 out with
  | Some earlier => acc <- merge earlier ka.2;; pret (odict_put ka.1 acc out)
  | None => pret (odict_put ka.1 ka.2 out)
  end.

Definition concat_rows (parts : list (list (row_key * RowAcc))) : PM (list (row_key * RowAcc)) :=
  pfold put_acc (List.concat parts) [].

Definition row_details (row : dict) : dict := match py_get "details" row with PyDict d => d | _ => [] end.

Definition leaf_acc (row : dict) : PM RowAcc :=
  _ <- spend 1;;
  let details := row_details row in
  first <- intern (condition_dicts (py_get "conditions" details));;
  trace <- plift (iter_or_nil (py_get "trace" details));;
  pret (MkAcc row first first false false trace
          (match assoc_get "membership_quality" details with Some _ => true | None => false end)
          (py_get "membership_quality" details)).

Definition leaf_rows (rows : list dict) : PM Summary :=
  accs <- pfold (fun accs row => acc <- leaf_acc row;; put_acc accs (key_of_row row, acc)) rows [];;
  pret (closed_summary accs [] false false).

Definition leaf_path (conds : list dict) : PM Summary :=
  ids <- intern conds;; pret (MkSummary [] [] false 1 ids ids (PLeaf ids) false false).

Definition with_conditions (ids : Ids) (acc : RowAcc) : PM RowAcc :=
  first <- unique [acc_first acc; ids];;
  un <- unique [acc_first acc; ids; acc_union acc];;
  pret (MkAcc (acc_row acc) first un (acc_multi acc) true (acc_trace acc) (acc_has_quality acc) (acc_quality acc)).

Definition crossed (paths : Summary) (acc : RowAcc) : PM RowAcc :=
  first <- (if bool_decide (sm_pfirst paths = []) then pret (acc_first acc) else unique [acc_first acc; sm_pfirst paths]);;
  un <- unique [acc_first acc; sm_punion paths; acc_union acc];;
  pret (MkAcc (acc_row acc) first un (acc_multi acc || (1 <? sm_count paths))
          (acc_touched acc || negb (bool_decide (sm_pfirst paths = [])))
          (acc_trace acc) (acc_has_quality acc) (acc_quality acc)).

(** [{key: f(acc) for key, acc in rows.items()}] *)
Definition map_rows (f : RowAcc -> PM RowAcc) (rows : list (row_key * RowAcc)) : PM (list (row_key * RowAcc)) :=
  pmap (fun ka : row_key * RowAcc => acc <- f ka.2;; pret (ka.1, acc)) rows.

(** [append] *)
Definition append_conditions (surface : Summary) (raw : list dict) : PM Summary :=
  match raw with
  | [] => pret surface
  | _ =>
      ids <- intern raw;;
      rows <- map_rows (with_conditions ids) (sm_rows surface);;
      if sm_count surface =? 0 then pret (closed_summary rows (sm_residual surface) (sm_ond surface) (sm_nobody surface))
      else
        pfirst <- unique [sm_pfirst surface; ids];;
        punion <- unique [sm_pfirst surface; ids; sm_punion surface];;
        pret (MkSummary rows (sm_residual surface) (sm_ond surface) (sm_count surface) pfirst punion
                (PApp (sm_pexpr surface) ids) (sm_nobody surface) false)
  end.

Definition spend_residuals (l r : Summary) : PM () :=
  spend (Z.of_nat (List.length (sm_residual l) + List.length (sm_residual r))).

(** [or_] *)
Definition or_summary (l r : Summary) : PM Summary :=
  if sm_shared l then pret r
  else
    _ <- spend_residuals l r;;
    p <- (if sm_count r =? 0 then pret (sm_pfirst l, sm_punion l, sm_pexpr l)
          else if sm_count l =? 0 then pret (sm_pfirst r, sm_punion r, sm_pexpr r)
          else punion <- unique [sm_punion l; sm_punion r];; pret (sm_pfirst l, punion, POr (sm_pexpr l) (sm_pexpr r)));;
    rows <- concat_rows [sm_rows l; sm_rows r];;
    pret (MkSummary rows (sm_residual l ++ sm_residual r)%list (sm_ond l || sm_ond r) (sm_count l + sm_count r)
            p.1.1 p.1.2 p.2 (sm_nobody l && sm_nobody r) false).

(** [with_side_checks] *)
Definition with_side_checks (valid : Summary) (side : list dict) : PM Summary :=
  conds <- plift (mapM residual_as_conditions side);;
  appended <- append_conditions valid (List.concat conds);;
  pret (MkSummary (sm_rows appended) (sm_residual valid ++ side)%list false (sm_count appended)
          (sm_pfirst appended) (sm_punion appended) (sm_pexpr appended) false false).

Definition MULTIPLE_SHAPES : dict :=
  [("kind", PyStr "unsupported"); ("unsupported_reason", PyStr "and_multiple_principal_shapes")].

(** [product] *)
Definition product_summary (not_read : Ids) (l r : Summary) : PM Summary :=
  rows1 <- (if sm_count r =? 0 then pret [] else map_rows (crossed r) (sm_rows l));;
  rows2 <- (if sm_count l =? 0 then pret [] else map_rows (crossed l) (sm_rows r));;
  rows3 <- (if sm_ond r then map_rows (with_conditions not_read) (sm_rows l) else pret []);;
  rows4 <- (if sm_ond l then map_rows (with_conditions not_read) (sm_rows r) else pret []);;
  rows <- concat_rows [rows1; rows2; rows3; rows4];;
  let residual := (sm_residual l ++ sm_residual r
                   ++ match sm_rows l, sm_rows r with _ :: _, _ :: _ => [MULTIPLE_SHAPES] | _, _ => [] end)%list in
  if (sm_count l =? 0) || (sm_count r =? 0) then pret (closed_summary rows residual false false)
  else
    pfirst <- unique [sm_pfirst l; sm_pfirst r];;
    punion <- unique [sm_pfirst l; sm_punion r; sm_punion l];;
    pret (MkSummary rows residual false (sm_count l * sm_count r) pfirst punion (PAnd (sm_pexpr l) (sm_pexpr r)) false false).

Definition set_ond (ond : bool) (s : Summary) : Summary :=
  MkSummary (sm_rows s) (sm_residual s) ond (sm_count s) (sm_pfirst s) (sm_punion s) (sm_pexpr s) (sm_nobody s) (sm_shared s).

(** [and_] *)
Definition and_summary (not_read : Ids) (l r : Summary) : PM Summary :=
  _ <- spend_residuals l r;;
  surface <- (if negb (sm_valid l) && negb (sm_valid r)
              then pret (closed_summary [] (sm_residual l ++ sm_residual r)%list false false)
              else if negb (sm_valid r) then with_side_checks l (sm_residual r)
              else if negb (sm_valid l) then with_side_checks r (sm_residual l)
              else product_summary not_read l r);;
  if sm_nobody l || sm_nobody r then pret (closed_summary (sm_rows surface) (sm_residual surface) false true)
  else pret (set_ond ((sm_ond l && may_admit_anyone r) || (sm_ond r && may_admit_anyone l)) surface).

(** The denylist condition a cofinite set shows. *)
Definition denylist_condition (d : dict) : option dict :=
  excluded ← py_len (py_or (py_get "blacklist" d) (PyList []));
  let quality := py_get "blacklist_quality" d in
  let description :=
    if py_eq_str quality "exact" then "denylist exclusion (" ++ pretty excluded ++ " excluded, exhaustive)"
    else if is_none quality then "denylist exclusion (" ++ pretty excluded ++ " known excluded; completeness not recorded)"
    else "denylist exclusion (at least " ++ pretty excluded ++ " excluded; not exhaustive)" in
  Some [("kind", PyStr "denylist"); ("description", PyStr description)].

Definition set_nobody (nobody : bool) (s : Summary) : Summary :=
  MkSummary (sm_rows s) (sm_residual s) (sm_ond s) (sm_count s) (sm_pfirst s) (sm_punion s) (sm_pexpr s) nobody (sm_shared s).

(** One conjunct: whether it blocks, then the conjunction. *)
Definition and_step (not_read : Ids) (acc : Summary * bool) (child : pyval * PM Summary) : PM (Summary * bool) :=
  child_surface <- child.2;;
  blocks <- (if earned_public && negb (sm_valid child_surface)
             then plift (is_root_authority_blocker child.1) else pret false);;
  surface <- and_summary not_read acc.1 child_surface;;
  pret (surface, acc.2 || blocks).

(** [node] *)
Fixpoint node (not_read : Ids) (cap : pyval) : PM Summary :=
  match cap with
  | PyDict d =>
      let children := child_results (node not_read) d in
      _ <- spend 1;;
      let kind := py_get "kind" d in
      let node_conditions := condition_dicts (py_get "conditions" d) in
      reach <- plift (is_reach_not_determined (PyDict d));;
      if (reach : bool) then pret (closed_summary [] [d] true false)
      else if py_eq_str kind "finite_set" then
        rows <- plift (rows_for_finite_set d node_conditions);;
        surface <- leaf_rows rows;;
        nobody <- plift (is_proven_empty d);;
        pret (set_nobody nobody surface)
      else if py_eq_str kind "threshold_group" then
        rows <- plift (rows_for_threshold_group d node_conditions lookup signature);; leaf_rows rows
      else if py_eq_str kind "signature_witness" then
        rows <- plift (rows_for_signature_witness d node_conditions);; leaf_rows rows
      else if py_eq_str kind "conditional_universal" then leaf_path node_conditions
      else if py_eq_str kind "OR" then
        surface <- pfold (fun acc (child : pyval * PM Summary) => s <- child.2;; or_summary acc s) children EMPTY_SUMMARY;;
        append_conditions surface node_conditions
      else if py_eq_str kind "AND" then
        sb <- pfold (and_step not_read) children (EMPTY_SUMMARY, false);;
        surface <- append_conditions sb.1 node_conditions;;
        pret (if sb.2 && negb (sm_count surface =? 0)
              then closed_summary (sm_rows surface) (sm_residual surface) (sm_ond surface) (sm_nobody surface)
              else surface)
      else if py_eq_str kind "cofinite_blacklist" then
        denial <- plift (denylist_condition d);; leaf_path (node_conditions ++ [denial])%list
      else pret (closed_summary [] [d] false false)
  | _ => fun _ => PRaise
  end.

(** [_Projector.__init__] and the root call. *)
Definition project_node (cap : pyval) : PM Summary :=
  not_read <- intern [CONDITION_NOT_READ];; node not_read cap.

End Projector.

Definition initial_state : pstate := MkP [] [] 0.

(** ** The surface *)

(** [_enumerate_paths] *)
Fixpoint enumerate_paths (e : pexpr) : list Ids :=
  match e with
  | PNone => []
  | PLeaf ids => [ids]
  | POr a b => (enumerate_paths a ++ enumerate_paths b)%list
  | PAnd a b =>
      List.concat (List.map (fun l => List.map (fun r => fromkeys (l ++ r)%list) (enumerate_paths b)) (enumerate_paths a))
  | PApp a ids => List.map (fun p => fromkeys (p ++ ids)%list) (enumerate_paths a)
  end.

(** Conditions by id. *)
Definition deref (table : list dict) (ids : Ids) : list dict := omap (fun i => table !! i) ids.

Definition cond_list (conds : list dict) : pyval := PyList (List.map PyDict conds).

(** [_RowAcc.materialize] *)
Definition materialize (table : list dict) (acc : RowAcc) : dict :=
  let details := row_details (acc_row acc) in
  let details :=
    if acc_multi acc then
      let details := odict_put "conditions" (cond_list (deref table (acc_union acc))) details in
      let details := match acc_trace acc with [] => details | trace => odict_put "trace" (PyList trace) details end in
      if acc_has_quality acc then odict_put "membership_quality" (acc_quality acc) details else details
    else if acc_touched acc then odict_put "conditions" (cond_list (deref table (acc_first acc))) details
    else details in
  odict_put "details" (PyDict details) (acc_row acc).

Record CapabilitySurface := MkSurface {
  principal_rows : list dict;
  residual : list dict;
  open_not_determined : bool;
  public_path_count : Z;
  not_determined_reason : option string;
  path_condition_ids : Ids;
  surface_table : list dict;
  surface_paths : pexpr
}.

Definition authority_public (s : CapabilitySurface) : bool := 0 <? public_path_count s.

Definition not_determined_capability (reason : string) : dict :=
  [("kind", PyStr "unsupported"); ("unsupported_reason", PyStr reason); ("confidence", PyStr "check_only")].

(** [project_capability_surface]; [None] when a malformed dict raises. *)
Definition project_capability_surface (earned_public : bool) (lookup : option (list (string * string)))
    (signature : option string) (cap : pyval) : option CapabilitySurface :=
  match project_node earned_public lookup signature cap initial_state with
  | POk summary s =>
      Some (MkSurface (List.map (fun ka => materialize (p_table s) ka.2) (sm_rows summary)) (sm_residual summary)
              (sm_ond summary) (sm_count summary) None (sm_punion summary) (p_table s) (sm_pexpr summary))
  | PBudget =>
      Some (MkSurface [] [not_determined_capability PROJECTION_BUDGET_EXCEEDED] false 0 (Some PROJECTION_BUDGET_EXCEEDED)
              [] [] PNone)
  | PRaise => None
  end.

(** [CapabilitySurface.public_path_list] *)
Definition public_path_list (s : CapabilitySurface) (budget : nat) : list (list dict) * option string :=
  if public_path_count s =? 0 then ([], None)
  else (List.map (deref (surface_table s)) (take budget (enumerate_paths (surface_paths s))),
        if Z.of_nat budget <? public_path_count s then Some PUBLIC_PATH_LIST_BUDGET_EXCEEDED else None).

(** [CapabilitySurface.conditions] *)
Definition surface_conditions (s : CapabilitySurface) : list dict :=
  unique_conditions (List.concat (List.map (fun row => condition_dicts (py_get "conditions" (row_details row)))
                                    (principal_rows s))
                     ++ deref (surface_table s) (path_condition_ids s))%list.

(** [capability_surface_openness] *)
Definition capability_surface_openness (cap : pyval) (s : CapabilitySurface) : option string :=
  match not_determined_reason s with
  | Some _ => Some "not_determined"
  | None =>
      if authority_public s then Some "open"
      else if open_not_determined s then Some "not_determined"
      else match principal_rows s with
           | _ :: _ => Some "restricted"
           | [] =>
               empty ← is_resolved_empty_capability cap;
               Some (if (empty : bool) then "restricted" else "not_determined")
           end
  end.

(** [capability_surface_status] *)
Definition capability_surface_status (cap : pyval) (s : CapabilitySurface) : option (option string) :=
  match not_determined_reason s with
  | Some _ => Some (Some "unsupported")
  | None =>
      if authority_public s then Some (Some "public")
      else
        let no_rows := match principal_rows s with [] => true | _ => false end in
        empty ← (if no_rows then is_resolved_empty_capability cap else Some false);
        if (empty : bool) then Some (Some "resolved_empty")
        else
          kind ← dget "kind" cap;
          Some (if py_eq_str kind "unsupported" && no_rows then Some "unsupported" else None)
  end.

(** [bounded_capability] *)
Definition bounded_capability (earned_public : bool) (cap : pyval) : option pyval :=
  s ← project_capability_surface earned_public None None cap;
  Some (match not_determined_reason s with None => cap | Some reason => PyDict (not_determined_capability reason) end).

(** ** Serialization ([capability_to_dict] of [capability_resolver.py]) *)

Definition quality_name (q : MembershipQuality) : string :=
  match q with exact => "exact" | lower_bound => "lower_bound" | upper_bound => "upper_bound" end.
Definition confidence_name (c : CapabilityConfidence) : string :=
  match c with enumerable => "enumerable" | partial => "partial" | check_only => "check_only" end.
Definition condition_kind_name (k : ConditionKind) : string :=
  match k with
  | C_time => "time" | C_pause => "pause" | C_reentrancy => "reentrancy" | C_business => "business"
  | C_self_service => "self_service" | C_one_shot => "one_shot" | C_permit_sig => "permit_sig" | C_denylist => "denylist"
  end.

Definition py_of_opt_int (o : option Z) : pyval := match o with Some z => PyInt z | None => PyNone end.

(** [asdict] of a condition and of an external check. *)
Definition condition_asdict (c : Condition) : dict :=
  [("kind", PyStr (condition_kind_name (cond_kind c))); ("description", PyStr (cond_description c));
   ("parameter_index", py_of_opt_int (cond_parameter_index c)); ("parameter_name", py_of_opt (cond_parameter_name c))].

Definition check_asdict (c : ExternalCheck) : dict :=
  [("target_address", py_of_opt (target_address c)); ("target_call_selector", py_of_opt (target_call_selector c));
   ("extra", PyDict (extra c))].

(** A key written only when the value is there. *)
Definition when {A} (k : string) (f : A -> pyval) (o : option A) : dict := match o with Some a => [(k, f a)] | None => [] end.
Definition when_any {A} (k : string) (f : A -> pyval) (l : list A) : dict :=
  match l with [] => [] | _ => [(k, PyList (List.map f l))] end.

Definition str_list (l : list string) : pyval := PyList (List.map PyStr l).

Definition as_of_value (a : AsOf) : pyval := match a with AsOfBlock h => PyInt h | AsOfNotDetermined => PyStr "not_determined" end.

Fixpoint capability_to_dict (cap : CapabilityExpr) : dict :=
  ([("kind", PyStr (kind_name (kind cap)))]
   ++ when "members" str_list (members cap)
   ++ when "threshold" (fun t => PyDict [("m", PyInt t.1); ("signers", str_list t.2)]) (threshold cap)
   ++ when "blacklist" str_list (blacklist cap)
   ++ match signer cap with Some sg => [("signer", PyDict (capability_to_dict sg))] | None => [] end
   ++ when "check" (fun c => PyDict (check_asdict c)) (check cap)
   ++ when_any "conditions" (fun c => PyDict (condition_asdict c)) (conditions cap)
   ++ when "unsupported_reason" PyStr (unsupported_reason cap)
   ++ match children cap with [] => [] | cs => [("children", PyList (List.map (fun c => PyDict (capability_to_dict c)) cs))] end
   ++ [("membership_quality", PyStr (quality_name (membership_quality cap))); ("confidence", PyStr (confidence_name (confidence cap)))]
   ++ when "last_indexed_block" PyInt (last_indexed_block cap)
   ++ when "exact_as_of" as_of_value (exact_as_of cap)
   ++ when_any "trace" PyDict (trace cap)
   ++ match subject cap with root => [] | bound => [("subject", PyStr "bound")] end
   ++ (if decide (kind cap = K_cofinite_blacklist) then [("blacklist_quality", PyStr (quality_name (blacklist_quality cap)))]
       else match blacklist_quality cap with exact => [] | q => [("blacklist_quality", PyStr (quality_name q))] end)
   ++ when "empty_reason" (fun r => PyStr (reason_name r)) (empty_reason cap))%list.
