(* ===== verification/SurfaceReference.v ===== *)
(** * The expansion the projection replaced

    The reference of [tests/policy/test_capability_projection_equivalence.py],
    kept beside the projection by its test suite: every AND multiplies its
    children's paths and caller rows, every OR concatenates them, and the rows are
    merged by [(address, origin, principal_type)] at the end.  [SurfaceTheory]
    proves that the projection computes it on every tree. *)

From stdpp Require Import base sets list strings sorting.
From Stdlib Require Import String Ascii ZArith Lia.
From S2P Require Import Prelude PyText EvalContext Capabilities Surface.

Local Open Scope string_scope.

Record RefSurface := MkRef {
  rf_rows : list dict;
  rf_paths : list (list dict);
  rf_residual : list dict;
  rf_ond : bool;
  rf_nobody : bool
}.

(** [_with] *)
Definition with_row (conds : list dict) (row : dict) : dict :=
  odict_put "details" (PyDict (details_with_conditions (row_details row) conds)) row.

Definition rf_valid (r : RefSurface) : bool := negb (is_nil (rf_rows r)) || negb (is_nil (rf_paths r)).

(** [admits] of [_ref_and_paths] *)
Definition rf_admits (r : RefSurface) : bool := negb (is_nil (rf_paths r)) || rf_ond r || negb (rf_valid r).

(** One valid side, the other folded in as side conditions. *)
Definition ref_side (valid : RefSurface) (side : list dict) : option RefSurface :=
  conds ← mapM residual_as_conditions side;
  let conditions := List.concat conds in
  Some (match conditions with
        | [] => MkRef (rf_rows valid) (rf_paths valid) (rf_residual valid ++ side)%list false false
        | _ =>
            MkRef (List.map (with_row conditions) (rf_rows valid))
              (List.map (fun p => unique_conditions (p ++ conditions)%list) (rf_paths valid))
              (rf_residual valid ++ side)%list false false
        end).

(** Each row once per path. *)
Definition cross_rows (rows : list dict) (paths : list (list dict)) : list dict :=
  List.concat (List.map (fun row => List.map (fun p => with_row p row) paths) rows).

Definition cross_paths (ls rs : list (list dict)) : list (list dict) :=
  List.concat (List.map (fun l => List.map (fun r => unique_conditions (l ++ r)%list) rs) ls).

Definition ref_product (l r : RefSurface) : RefSurface :=
  MkRef (cross_rows (rf_rows l) (rf_paths r) ++ cross_rows (rf_rows r) (rf_paths l)
         ++ (if rf_ond r then List.map (with_row [CONDITION_NOT_READ]) (rf_rows l) else [])
         ++ (if rf_ond l then List.map (with_row [CONDITION_NOT_READ]) (rf_rows r) else []))%list
    (cross_paths (rf_paths l) (rf_paths r))
    (rf_residual l ++ rf_residual r
     ++ match rf_rows l, rf_rows r with _ :: _, _ :: _ => [MULTIPLE_SHAPES] | _, _ => [] end)%list
    false false.

(** [_ref_and] *)
Definition ref_and (l r : RefSurface) : option RefSurface :=
  both ← (if negb (rf_valid l) && negb (rf_valid r)
          then Some (MkRef [] [] (rf_residual l ++ rf_residual r)%list false false)
          else if negb (rf_valid r) then ref_side l (rf_residual r)
          else if negb (rf_valid l) then ref_side r (rf_residual l)
          else Some (ref_product l r));
  Some (if rf_nobody l || rf_nobody r then MkRef (rf_rows both) [] (rf_residual both) false true
        else MkRef (rf_rows both) (rf_paths both) (rf_residual both)
               ((rf_ond l && rf_admits r) || (rf_ond r && rf_admits l)) false).

Definition ref_or (l r : RefSurface) : RefSurface :=
  MkRef (rf_rows l ++ rf_rows r)%list (rf_paths l ++ rf_paths r)%list (rf_residual l ++ rf_residual r)%list
    (rf_ond l || rf_ond r) (rf_nobody l && rf_nobody r).

(** The node's own conditions narrow every row and every path. *)
Definition ref_narrow (conds : list dict) (r : RefSurface) : RefSurface :=
  match conds with
  | [] => r
  | _ =>
      MkRef (List.map (with_row conds) (rf_rows r)) (List.map (fun p => unique_conditions (p ++ conds)%list) (rf_paths r))
        (rf_residual r) (rf_ond r) (rf_nobody r)
  end.

Definition ref_leaf (rows : list dict) (paths : list (list dict)) : RefSurface := MkRef rows paths [] false false.
Definition ref_empty : RefSurface := ref_leaf [] [].

Section Reference.
Context (earned_public : bool) (lookup : option (list (string * string))) (signature : option string).

Fixpoint foldM {A B} (f : A -> B -> option A) (l : list B) (acc : A) : option A :=
  match l with [] => Some acc | x :: l => acc ← f acc x; foldM f l acc end.

Definition ref_and_step (acc : RefSurface * bool) (child : pyval * option RefSurface) : option (RefSurface * bool) :=
  c ← child.2;
  blocks ← (if earned_public && negb (rf_valid c) then is_root_authority_blocker child.1 else Some false);
  surface ← ref_and acc.1 c;
  Some (surface, acc.2 || blocks).

(** The disjunction of the children: nobody passes only when nobody passes any. *)
Definition ref_or_step (acc : RefSurface * bool) (child : pyval * option RefSurface) : option (RefSurface * bool) :=
  c ← child.2; Some (if acc.2 then c else ref_or acc.1 c, false).

(** [_ref_node] *)
Fixpoint ref_node (cap : pyval) : option RefSurface :=
  match cap with
  | PyDict d =>
      let children := child_results ref_node d in
      let kind := py_get "kind" d in
      let nc := condition_dicts (py_get "conditions" d) in
      reach ← is_reach_not_determined (PyDict d);
      if (reach : bool) then Some (MkRef [] [] [d] true false)
      else if py_eq_str kind "finite_set" then
        rows ← rows_for_finite_set d nc; nobody ← is_proven_empty d; Some (MkRef rows [] [] false nobody)
      else if py_eq_str kind "threshold_group" then
        rows ← rows_for_threshold_group d nc lookup signature; Some (ref_leaf rows [])
      else if py_eq_str kind "signature_witness" then
        rows ← rows_for_signature_witness d nc; Some (ref_leaf rows [])
      else if py_eq_str kind "conditional_universal" then Some (ref_leaf [] [nc])
      else if py_eq_str kind "OR" then
        '(s, _) ← foldM ref_or_step children (ref_empty, true); Some (ref_narrow nc s)
      else if py_eq_str kind "AND" then
        '(s, blocked) ← foldM ref_and_step children (ref_empty, false);
        let s := ref_narrow nc s in
        Some (if (blocked : bool) then MkRef (rf_rows s) [] (rf_residual s) (rf_ond s) (rf_nobody s) else s)
      else if py_eq_str kind "cofinite_blacklist" then
        denial ← denylist_condition d; Some (ref_leaf [] [(nc ++ [denial])%list])
      else Some (MkRef [] [] [d] false false)
  | _ => None
  end.

End Reference.

(** [_ref_dedupe]: a later row of a known key is merged into the first. *)
Definition merge_row (existing row : dict) : option dict :=
  let details := row_details existing in
  let other := row_details row in
  let conds := unique_conditions (condition_dicts (py_get "conditions" details) ++ condition_dicts (py_get "conditions" other))%list in
  trace ← iter_or_nil (py_get "trace" details);
  later ← iter_or_nil (py_get "trace" other);
  let merged := merge_trace trace later in
  let details1 := odict_put "conditions" (cond_list conds) details in
  let details2 := match merged with [] => details1 | _ => odict_put "trace" (PyList merged) details1 end in
  details3 ← (match assoc_get "membership_quality" details, assoc_get "membership_quality" other with
              | None, None => Some details2
              | _, _ =>
                  q ← merged_membership_quality (py_get "membership_quality" details) (py_get "membership_quality" other);
                  Some (odict_put "membership_quality" q details2)
              end);
  Some (odict_put "details" (PyDict details3) existing).

Definition dedupe_step (out : list (row_key * dict)) (row : dict) : option (list (row_key * dict)) :=
  match odict_get (key_of_row row) out with
  | Some existing => merged ← merge_row existing row; Some (odict_put (key_of_row row) merged out)
  | None => Some (odict_put (key_of_row row) row out)
  end.

Definition ref_dedupe (rows : list dict) : option (list dict) :=
  out ← foldM dedupe_step rows []; Some out.*2.

(** [_reference]: the deduplicated rows and the paths. *)
Definition reference (earned_public : bool) (lookup : option (list (string * string))) (signature : option string)
    (cap : pyval) : option RefSurface :=
  r ← ref_node earned_public lookup signature cap;
  rows ← ref_dedupe (rf_rows r);
  Some (MkRef rows (List.map unique_conditions (rf_paths r)) (rf_residual r) (rf_ond r) (rf_nobody r)).
