(* ===== verification/SurfaceTheory.v ===== *)
(** * The projection computes the expansion

    [project_capability_surface] never expands an AND into the product of its
    paths; these are the theorems that it nevertheless returns what the expansion
    ([SurfaceReference]) returns, field for field and in the same order, and what
    an open verdict does and does not rest on. *)

From stdpp Require Import base sets list strings sorting.
From Stdlib Require Import String Ascii ZArith Lia.
From S2P Require Import Prelude PyText EvalContext Capabilities Surface SurfaceReference.

Local Open Scope string_scope.
Local Open Scope surface_scope.

(** ** Python equality *)

Section PyvalInd.
Context (P : pyval -> Prop).
Hypothesis (HN : P PyNone) (HB : forall b, P (PyBool b)) (HI : forall z, P (PyInt z)) (HS : forall s, P (PyStr s)).
Hypothesis (HL : forall l, Forall P l -> P (PyList l)) (HD : forall d, Forall (fun kv => P kv.2) d -> P (PyDict d)).

Fixpoint pyval_deep_ind (v : pyval) : P v :=
  match v with
  | PyNone => HN
  | PyBool b => HB b
  | PyInt z => HI z
  | PyStr s => HS s
  | PyList l =>
      HL l ((fix go (l : list pyval) : Forall P l :=
               match l with
               | [] => Forall_nil_2 P
               | v :: l => Forall_cons_2 P v l (pyval_deep_ind v) (go l)
               end) l)
  | PyDict d =>
      HD d ((fix go (d : dict) : Forall (fun kv => P kv.2) d :=
               match d with
               | [] => Forall_nil_2 _
               | kv :: d => Forall_cons_2 (fun kv => P kv.2) kv d (pyval_deep_ind kv.2) (go d)
               end) d)
  end.
End PyvalInd.

Lemma assoc_get_member {A} k (d : list (string * A)) v : assoc_get k d = Some v -> (k, v) ∈ d.
Proof.
  induction d as [|[k' v'] d IH]; cbn; [done|]. case_decide as E; [intros [= ->]; subst; set_solver|].
  intros H. apply IH in H. set_solver.
Qed.

Lemma py_eqb_list_spec l m :
  py_eqb (PyList l) (PyList m) = true <-> Forall2 (fun v w => py_eqb v w = true) l m.
Proof.
  cbn. revert m. induction l as [|v l IH]; intros [|w m].
  - split; [constructor|done].
  - split; [done|inversion 1].
  - split; [done|inversion 1].
  - rewrite andb_true_iff, IH. split; [intros [? ?]; by constructor|inversion 1; by subst].
Qed.

Lemma py_eqb_dict_spec d e :
  py_eqb (PyDict d) (PyDict e) = true <->
  List.length d = List.length e /\
  Forall (fun kv => exists w, assoc_get kv.1 e = Some w /\ py_eqb kv.2 w = true) d.
Proof.
  cbn. rewrite andb_true_iff, Nat.eqb_eq, forallb_forall, Forall_forall. apply and_iff_compat_l.
  split; intros H kv Hin.
  - apply list_elem_of_In in Hin. specialize (H _ Hin). destruct (assoc_get kv.1 e); [by eexists|done].
  - apply list_elem_of_In in Hin. destruct (H _ Hin) as (w & -> & Hw). done.
Qed.

Lemma py_eqb_num v w z : as_int v = Some z -> py_eqb v w = true <-> as_int w = Some z.
Proof.
  destruct v as [|b|z'|s|l|d]; try done; intros [= <-]; destruct w as [|b'|z''|s'|l'|d']; cbn; try done.
  - destruct b, b'; cbn; split; intros; by simplify_eq.
  - rewrite Z.eqb_eq. split; [by intros ->|by intros [= ->]].
  - rewrite Z.eqb_eq. split; [by intros ->|by intros [= ->]].
  - rewrite Z.eqb_eq. split; [by intros ->|by intros [= ->]].
Qed.

Lemma py_eqb_trans v : forall w u, py_eqb v w = true -> py_eqb w u = true -> py_eqb v u = true.
Proof.
  induction v as [|b|z|s|l IH|d IH] using pyval_deep_ind; intros w u.
  - by destruct w, u.
  - rewrite !(py_eqb_num (PyBool b) _ (Z.b2z b)) by done. intros H1 H2. by apply (py_eqb_num w u (Z.b2z b) H1).
  - rewrite !(py_eqb_num (PyInt z) _ z) by done. intros H1 H2. by apply (py_eqb_num w u z H1).
  - destruct w, u; cbn; try done. rewrite !String.eqb_eq. congruence.
  - destruct w as [| | | |m|], u as [| | | |n|]; try done. rewrite !py_eqb_list_spec. intros H1 H2. revert n H2.
    induction H1 as [|x y l m Hxy H1 IH1]; intros n H2; inversion H2; subst; constructor.
    + inversion IH; subst. eauto.
    + inversion IH; subst. by apply IH1.
  - destruct w as [| | | | |e], u as [| | | | |f]; try done. rewrite !py_eqb_dict_spec. intros [L1 H1] [L2 H2]. split; [congruence|].
    rewrite Forall_forall in IH, H1, H2 |- *. intros kv Hin. destruct (H1 _ Hin) as (w & Hw & Ew).
    destruct (H2 _ (assoc_get_member _ _ _ Hw)) as (u & Hu & Eu). exists u. split; [exact Hu|]. by eapply IH.
Qed.

Lemma py_same_refl v : py_same v v = true.
Proof. unfold py_same. by rewrite bool_decide_true. Qed.

Lemma py_same_trans v w u : py_same v w = true -> py_same w u = true -> py_same v u = true.
Proof.
  unfold py_same. rewrite !orb_true_iff, !bool_decide_eq_true. intros [->|H1] [->|H2]; auto. right. by eapply py_eqb_trans.
Qed.

(** ** Merged traces *)

Definition in_trace (item : pyval) (trace : list pyval) : bool := existsb (py_same item) trace.

Lemma in_trace_true x t : in_trace x t = true <-> exists y, y ∈ t /\ py_same x y = true.
Proof.
  unfold in_trace. rewrite existsb_exists. split; intros (y & Hy & E); exists y; split; auto; by apply list_elem_of_In.
Qed.

Lemma in_trace_app x t t' : in_trace x (t ++ t')%list = in_trace x t || in_trace x t'.
Proof. apply existsb_app. Qed.

Lemma in_trace_self x t : x ∈ t -> in_trace x t = true.
Proof. intros H. apply in_trace_true. exists x. by rewrite py_same_refl. Qed.

Lemma merge_trace_step t x l : merge_trace t (x :: l) = merge_trace (if in_trace x t then t else (t ++ [x])%list) l.
Proof. done. Qed.

Lemma merge_trace_app t l m : merge_trace t (l ++ m)%list = merge_trace (merge_trace t l) m.
Proof. revert t. induction l as [|x l IH]; intros t; cbn; [done|]. apply IH. Qed.

Lemma merge_trace_mono x t l : in_trace x t = true -> in_trace x (merge_trace t l) = true.
Proof.
  revert t. induction l as [|y l IH]; intros t H; [done|]. rewrite merge_trace_step. apply IH.
  destruct (in_trace y t); [done|]. by rewrite in_trace_app, H.
Qed.

Lemma merge_trace_covers x t l : x ∈ l -> in_trace x (merge_trace t l) = true.
Proof.
  revert t. induction l as [|y l IH]; intros t H; [set_solver|]. rewrite merge_trace_step.
  apply elem_of_cons in H as [->|H]; [|by apply IH]. apply merge_trace_mono.
  destruct (in_trace y t) eqn:E; [done|]. apply in_trace_self. set_solver.
Qed.

(** Items already present add nothing. *)
Lemma merge_trace_absorb t l : (forall x, x ∈ l -> in_trace x t = true) -> merge_trace t l = t.
Proof.
  induction l as [|y l IH]; intros H; [done|]. rewrite merge_trace_step, H by set_solver. apply IH. set_solver.
Qed.

Lemma merge_trace_self t : merge_trace t t = t.
Proof. apply merge_trace_absorb. intros x. apply in_trace_self. Qed.

Lemma merge_trace_idem t l : merge_trace (merge_trace t l) l = merge_trace t l.
Proof. apply merge_trace_absorb. intros x. apply merge_trace_covers. Qed.

(** Whatever is in [l] is in what merging [l] adds to. *)
Lemma merge_trace_in t l x y : in_trace y (merge_trace t l) = true -> py_same x y = true -> in_trace x (merge_trace t l) = true.
Proof.
  rewrite !in_trace_true. intros (z & Hz & E) Exy. exists z. split; [done|]. by eapply py_same_trans.
Qed.

Lemma merge_trace_assoc a b c : merge_trace (merge_trace a b) c = merge_trace a (merge_trace b c).
Proof.
  revert b. induction c as [|x c IH]; intros b; [done|]. rewrite !merge_trace_step.
  destruct (in_trace x b) eqn:Eb.
  - apply in_trace_true in Eb as (y & Hy & E).
    rewrite (merge_trace_in a b x y (merge_trace_covers _ _ _ Hy) E). apply IH.
  - rewrite <- IH. f_equal. rewrite merge_trace_app, merge_trace_step. done.
Qed.

(** ** Merged qualities: a semilattice *)

Definition qual_ok (q : pyval) : Prop := q = PyNone \/ exists s, q = PyStr s.

Definition known_quality (q : pyval) : bool := py_in q ["exact"; "lower_bound"].

Definition qm (a b : pyval) : pyval :=
  if decide (a = b) then a else if known_quality a && known_quality b then PyStr "lower_bound" else PyNone.

Lemma py_same_qual a b : qual_ok a -> qual_ok b -> py_same a b = bool_decide (a = b).
Proof.
  unfold py_same. intros [-> | [s ->]] [-> | [t ->]]; cbn; try done.
  destruct (String.eqb_spec s t) as [->|N]; [by rewrite bool_decide_true|]. rewrite orb_false_r. done.
Qed.

Lemma merged_qm a b : qual_ok a -> qual_ok b -> merged_membership_quality a b = Some (qm a b).
Proof.
  intros Ha Hb. unfold merged_membership_quality, qm, known_quality. rewrite py_same_qual by done.
  case_bool_decide as E; [by rewrite decide_True|]. rewrite decide_False by done.
  by destruct Ha as [-> | [s ->]], Hb as [-> | [t ->]].
Qed.

Lemma qm_ok a b : qual_ok a -> qual_ok b -> qual_ok (qm a b).
Proof. intros Ha Hb. unfold qm. case_decide; [done|]. destruct (_ && _); [right; by eexists|by left]. Qed.

Lemma qm_self a : qm a a = a.
Proof. unfold qm. by rewrite decide_True. Qed.

Lemma known_quality_inv a : known_quality a = true -> a = PyStr "exact" \/ a = PyStr "lower_bound".
Proof.
  unfold known_quality, py_in. cbn. rewrite orb_false_r, orb_true_iff, !py_eq_str_true. done.
Qed.

Lemma qm_known a b : known_quality a = true -> known_quality b = true -> known_quality (qm a b) = true.
Proof. intros [-> | ->]%known_quality_inv [-> | ->]%known_quality_inv; done. Qed.

Lemma qm_unknown a b : known_quality a && known_quality b = false -> qm a b = if decide (a = b) then a else PyNone.
Proof. intros H. unfold qm. rewrite H. done. Qed.

Lemma qm_none_l b : qm PyNone b = PyNone.
Proof. rewrite qm_unknown by done. by case_decide. Qed.

Lemma qm_none_r a : qm a PyNone = PyNone.
Proof. rewrite qm_unknown by apply andb_false_r. by case_decide. Qed.

Lemma qm_assoc a b c : qm (qm a b) c = qm a (qm b c).
Proof.
  assert (Hmix : forall x y, known_quality x = true -> known_quality y = false -> qm x y = PyNone /\ qm y x = PyNone).
  { intros x y Hx Hy. rewrite !qm_unknown by (by rewrite ?Hx, Hy). rewrite !decide_False by (intros ->; congruence). done. }
  destruct (known_quality a) eqn:Ea, (known_quality b) eqn:Eb, (known_quality c) eqn:Ec.
  - apply known_quality_inv in Ea as [-> | ->], Eb as [-> | ->], Ec as [-> | ->]; reflexivity.
  - rewrite (proj1 (Hmix (qm a b) c (qm_known _ _ Ea Eb) Ec)), (proj1 (Hmix b c Eb Ec)). by rewrite qm_none_r.
  - rewrite (proj1 (Hmix a b Ea Eb)), (proj2 (Hmix c b Ec Eb)). by rewrite qm_none_l, qm_none_r.
  - rewrite (proj1 (Hmix a b Ea Eb)), qm_none_l. rewrite (qm_unknown b c) by (by rewrite Eb).
    case_decide; [by rewrite (proj1 (Hmix a b Ea Eb))|by rewrite qm_none_r].
  - rewrite (proj2 (Hmix b a Eb Ea)), qm_none_l. by rewrite (proj2 (Hmix (qm b c) a (qm_known _ _ Eb Ec) Ea)).
  - rewrite (proj2 (Hmix b a Eb Ea)), (proj1 (Hmix b c Eb Ec)). by rewrite qm_none_l, qm_none_r.
  - rewrite (proj2 (Hmix c b Ec Eb)), qm_none_r. rewrite (qm_unknown a b) by (by rewrite Ea).
    case_decide; [subst; by rewrite (proj2 (Hmix c b Ec Eb))|by rewrite qm_none_l].
  - rewrite (qm_unknown a b), (qm_unknown b c) by (by rewrite ?Ea, ?Eb).
    destruct (decide (a = b)) as [->|Nab], (decide (b = c)) as [->|Nbc].
    + done.
    + rewrite qm_none_r, (qm_unknown b c) by (by rewrite Eb). by rewrite decide_False.
    + rewrite qm_none_l, (qm_unknown a c) by (by rewrite Ea). by rewrite decide_False.
    + by rewrite qm_none_l, qm_none_r.
Qed.

Lemma qm_idem a b : qm (qm a b) b = qm a b.
Proof. by rewrite qm_assoc, qm_self. Qed.

(** A fold over blocks of equal elements. *)
Lemma fold_absorb {A} (f : A -> A -> A) (x y : A) n :
  f (f x y) y = f x y -> fold_left f (replicate n y) (f x y) = f x y.
Proof. intros H. induction n as [|n IH]; cbn; [done|]. by rewrite H. Qed.

Lemma fold_assoc {A} (f : A -> A -> A) (H : forall a b c, f (f a b) c = f a (f b c)) x y l :
  fold_left f l (f x y) = f x (fold_left f l y).
Proof. revert y. induction l as [|z l IH]; intros y; cbn; [done|]. by rewrite H, IH. Qed.

(** ** First occurrences of concatenations *)

Section Fromkeys.
Context {A : Type} `{EqDecision A}.
Implicit Types (l m K seen : list A) (cs ps : list (list A)).

Lemma fromkeys_from_app_eq seen seen' l l' m m' :
  fromkeys_from seen l = fromkeys_from seen' l' ->
  fromkeys_from (seen ++ l)%list m = fromkeys_from (seen' ++ l')%list m' ->
  fromkeys_from seen (l ++ m)%list = fromkeys_from seen' (l' ++ m')%list.
Proof. intros H1 H2. by rewrite !fromkeys_from_app, H1, H2. Qed.

Lemma fromkeys_app_r l m : fromkeys (l ++ fromkeys m)%list = fromkeys (l ++ m)%list.
Proof. rewrite !fromkeys_app. f_equal. apply fromkeys_from_fromkeys. Qed.

Lemma fromkeys_app_l l m : fromkeys (fromkeys l ++ m)%list = fromkeys (l ++ m)%list.
Proof.
  rewrite !fromkeys_app, fromkeys_idemp. f_equal. apply fromkeys_from_ext. intros x. apply elem_of_fromkeys.
Qed.

Lemma fromkeys_from_concat seen cs :
  fromkeys_from seen (List.concat (List.map fromkeys cs)) = fromkeys_from seen (List.concat cs).
Proof.
  revert seen. induction cs as [|c cs IH]; intros seen; cbn; [done|]. apply fromkeys_from_app_eq.
  - apply fromkeys_from_fromkeys.
  - rewrite IH. apply fromkeys_from_ext. intros x. rewrite !elem_of_app, elem_of_fromkeys. done.
Qed.

Lemma fromkeys_concat cs : fromkeys (List.concat (List.map fromkeys cs)) = fromkeys (List.concat cs).
Proof. apply fromkeys_from_concat. Qed.

Lemma fromkeys_from_skip seen K cs :
  (forall x, x ∈ K -> x ∈ seen) ->
  fromkeys_from seen (List.concat (List.map (fun c => c ++ K)%list cs)) = fromkeys_from seen (List.concat cs).
Proof.
  revert seen. induction cs as [|c cs IH]; intros seen HK; cbn; [done|]. rewrite <- app_assoc.
  apply fromkeys_from_app_eq; [done|]. rewrite fromkeys_from_app, fromkeys_from_nil by set_solver. cbn.
  rewrite IH by set_solver. apply fromkeys_from_ext. set_solver.
Qed.

Lemma fromkeys_appended K c cs :
  fromkeys (List.concat (List.map (fun c => c ++ K)%list (c :: cs))) = fromkeys (c ++ K ++ List.concat (c :: cs))%list.
Proof.
  cbn. rewrite <- app_assoc. apply fromkeys_from_app_eq; [done|]. apply fromkeys_from_app_eq; [done|].
  rewrite fromkeys_from_skip by set_solver. rewrite fromkeys_from_app, (fromkeys_from_nil _ c) by set_solver.
  apply fromkeys_from_ext. set_solver.
Qed.

Lemma fromkeys_from_crossed1 seen c ps : ps <> [] ->
  fromkeys_from seen (List.concat (List.map (fun p => c ++ p)%list ps)) = fromkeys_from seen (c ++ List.concat ps)%list.
Proof.
  destruct ps as [|p ps]; [done|]. intros _. cbn. rewrite <- app_assoc. apply fromkeys_from_app_eq; [done|].
  apply fromkeys_from_app_eq; [done|].
  assert (Hc : forall s, (forall x, x ∈ c -> x ∈ s) ->
            fromkeys_from s (List.concat (List.map (fun p => c ++ p)%list ps)) = fromkeys_from s (List.concat ps)).
  { induction ps as [|q ps IH]; intros s Hs; cbn; [done|]. rewrite <- app_assoc.
    rewrite fromkeys_from_app, (fromkeys_from_nil _ c) by done. cbn.
    rewrite (fromkeys_from_ext (s ++ c)%list s) by set_solver. apply fromkeys_from_app_eq; [done|]. apply IH. set_solver. }
  apply Hc. set_solver.
Qed.

Lemma fromkeys_from_blocks seen (f g : list A -> list A) cs :
  (forall s c, fromkeys_from s (f c) = fromkeys_from s (g c)) ->
  fromkeys_from seen (List.concat (List.map f cs)) = fromkeys_from seen (List.concat (List.map g cs)).
Proof.
  intros H. revert seen. induction cs as [|c cs IH]; intros seen; cbn; [done|]. apply fromkeys_from_app_eq; [apply H|].
  rewrite IH. apply fromkeys_from_ext. intros x. rewrite !elem_of_app.
  assert (x ∈ f c <-> x ∈ g c) as ->; [|done]. rewrite <- (elem_of_fromkeys x (f c)), <- (elem_of_fromkeys x (g c)).
  unfold fromkeys. by rewrite H.
Qed.

Lemma fromkeys_crossed c cs ps : ps <> [] ->
  fromkeys (List.concat (List.map (fun c => List.concat (List.map (fun p => c ++ p)%list ps)) (c :: cs)))
  = fromkeys (c ++ List.concat ps ++ List.concat (c :: cs))%list.
Proof.
  intros Hps. rewrite <- fromkeys_appended. unfold fromkeys.
  apply (fromkeys_from_blocks _ (fun c => List.concat (List.map (fun p => c ++ p)%list ps)) (fun c => c ++ List.concat ps)%list).
  intros s c'. by apply fromkeys_from_crossed1.
Qed.

Lemma fromkeys_parts l m n : fromkeys (l ++ fromkeys m ++ fromkeys n)%list = fromkeys (l ++ m ++ n)%list.
Proof. by rewrite app_assoc, fromkeys_app_r, <- fromkeys_app_l, fromkeys_app_r, fromkeys_app_l, <- app_assoc. Qed.

Lemma fromkeys_nil_inv l : fromkeys l = [] <-> l = [].
Proof.
  split; [|by intros ->]. destruct l as [|x l]; [done|]. unfold fromkeys. cbn. by rewrite decide_False by set_solver.
Qed.

End Fromkeys.

(** [fromkeys] commutes with an injection. *)
Lemma fromkeys_from_mapM {A B} `{EqDecision A} `{EqDecision B} (f : A -> option B)
    (Hinj : forall x y b, f x = Some b -> f y = Some b -> x = y) seen l sk lk :
  mapM f seen = Some sk -> mapM f l = Some lk -> mapM f (fromkeys_from seen l) = Some (fromkeys_from sk lk).
Proof.
  revert seen lk sk. induction l as [|x l IH]; intros seen lk sk Hs Hl.
  - cbn in Hl. injection Hl as <-. done.
  - apply mapM_Some_1 in Hl. inversion Hl as [|? k ? ks Hx Hks]; subst. apply mapM_Some_2 in Hks. cbn [fromkeys_from].
    assert (x ∈ seen <-> k ∈ sk) as Hiff.
    { apply mapM_Some_1 in Hs. split; intros H.
      - apply list_elem_of_lookup in H as [i Hi]. destruct (Forall2_lookup_l _ _ _ _ _ Hs Hi) as (k' & Hk' & E).
        rewrite Hx in E. injection E as <-. by eapply list_elem_of_lookup_2.
      - apply list_elem_of_lookup in H as [i Hi]. destruct (Forall2_lookup_r _ _ _ _ _ Hs Hi) as (x' & Hx' & E).
        rewrite (Hinj _ _ _ Hx E). by eapply list_elem_of_lookup_2. }
    destruct (decide (x ∈ seen)) as [H1|H1], (decide (k ∈ sk)) as [H2|H2]; [by apply IH|tauto..|].
    cbn. rewrite Hx. cbn. rewrite (IH (x :: seen) ks (k :: sk)); [done| |done]. cbn. by rewrite Hx; cbn; rewrite Hs.
Qed.

(** ** The condition table *)

Definition clean (c : dict) : Prop := Forall (fun kv => is_none kv.2 = false) c.

(** The index finds each key at its row of the table. *)
Definition state_ok (s : pstate) : Prop :=
  p_index s = imap (fun i c => (cond_key c, i)) (p_table s) /\
  NoDup (List.map cond_key (p_table s)) /\ Forall clean (p_table s).

Definition extends (s s' : pstate) : Prop := exists more, p_table s' = (p_table s ++ more)%list.

#[export] Instance extends_preorder : PreOrder extends.
Proof.
  split; [intros s; exists []; by rewrite app_nil_r|].
  intros s1 s2 s3 [m1 E1] [m2 E2]. exists (m1 ++ m2)%list. by rewrite E2, E1, app_assoc.
Qed.

Definition id_key (s : pstate) (i : nat) : option string := cond_key <$> p_table s !! i.
Definition keys_of (s : pstate) (ids : Ids) : option (list string) := mapM (id_key s) ids.

Lemma id_key_extends s s' i k : extends s s' -> id_key s i = Some k -> id_key s' i = Some k.
Proof.
  intros [more E] H. unfold id_key in *. apply fmap_Some in H as (c & Hc & ->). rewrite E, lookup_app_l by by eapply lookup_lt_Some.
  by rewrite Hc.
Qed.

Lemma keys_extends s s' ids ks : extends s s' -> keys_of s ids = Some ks -> keys_of s' ids = Some ks.
Proof.
  intros He H. apply mapM_Some_2. apply mapM_Some_1 in H. eapply Forall2_impl; [exact H|]. intros i k. by apply id_key_extends.
Qed.

Lemma id_key_inj s i j k : state_ok s -> id_key s i = Some k -> id_key s j = Some k -> i = j.
Proof.
  intros (_ & Hn & _) Hi Hj. unfold id_key in *. apply (NoDup_lookup _ _ _ k Hn); by rewrite list_lookup_fmap.
Qed.

Lemma keys_fromkeys s ids ks : state_ok s -> keys_of s ids = Some ks -> keys_of s (fromkeys ids) = Some (fromkeys ks).
Proof. intros Hs H. apply (fromkeys_from_mapM _ (fun i j k => id_key_inj s i j k Hs) [] ids [] ks); done. Qed.

Lemma mapM_app_Some {A B} (f : A -> option B) l m ls ms :
  mapM f l = Some ls -> mapM f m = Some ms -> mapM f (l ++ m)%list = Some (ls ++ ms)%list.
Proof. rewrite !mapM_Some. apply Forall2_app. Qed.

Lemma keys_app s l m ls ms : keys_of s l = Some ls -> keys_of s m = Some ms -> keys_of s (l ++ m)%list = Some (ls ++ ms)%list.
Proof. apply mapM_app_Some. Qed.

Lemma index_lookup (t : list dict) n k :
  NoDup (List.map cond_key t) ->
  assoc_get k (imap (fun i c => (cond_key c, (n + i)%nat)) t)
  = (fun i => (n + i)%nat) <$> (fst <$> list_find (fun c => cond_key c = k) t).
Proof.
  revert n. induction t as [|c t IH]; intros n Hn; [done|]. cbn. apply NoDup_cons in Hn as [_ Hn].
  destruct (decide (k = cond_key c)) as [->|N].
  - by rewrite decide_True by done.
  - rewrite decide_False by congruence.
    rewrite (imap_ext _ (fun i c => (cond_key c, (S n + i)%nat)) t) by (intros; cbn; f_equal; lia).
    rewrite (IH (S n) Hn). destruct (list_find _ t) as [[i c']|]; cbn; [f_equal; lia|done].
Qed.

(** ** Runs that succeed *)

Definition runs {A} (s : pstate) (m : PM A) (Q : A -> pstate -> Prop) : Prop :=
  forall a s', m s = POk a s' -> state_ok s' /\ extends s s' /\ Q a s'.

Lemma runs_ret {A} s (a : A) (Q : A -> pstate -> Prop) : state_ok s -> Q a s -> runs s (pret a) Q.
Proof. intros Hs HQ a' s' [= <- <-]. split_and!; [done|reflexivity|done]. Qed.

Lemma runs_bind {A B} s (m : PM A) (k : A -> PM B) Q R :
  runs s m Q -> (forall a s', state_ok s' -> extends s s' -> Q a s' -> runs s' (k a) R) -> runs s (pbind m k) R.
Proof.
  intros Hm Hk b s2. unfold pbind. destruct (m s) as [a s1| |] eqn:E; try done. intros E2.
  destruct (Hm _ _ E) as (Hs & He & HQ). destruct (Hk a s1 Hs He HQ _ _ E2) as (Hs2 & He2 & HR).
  split_and!; [done|by etrans|done].
Qed.

Lemma runs_weaken {A} s (m : PM A) (Q R : A -> pstate -> Prop) :
  runs s m Q -> (forall a s', extends s s' -> Q a s' -> R a s') -> runs s m R.
Proof. intros H HQ a s' E. destruct (H _ _ E) as (? & ? & ?). eauto. Qed.

Lemma runs_lift {A} s (o : option A) : state_ok s -> runs s (plift o) (fun a _ => o = Some a).
Proof. intros Hs a s'. unfold plift. destruct o; [|done]. intros [= <- <-]. split_and!; [done|reflexivity|done]. Qed.

Lemma runs_spend s n : state_ok s -> runs s (spend n) (fun _ _ => True).
Proof.
  intros Hs a s'. unfold spend. destruct (_ <? _)%Z; [done|]. intros [= _ <-].
  split_and!; [done|exists []; by rewrite app_nil_r|done].
Qed.

Lemma runs_intern_one s c : state_ok s -> clean c -> runs s (intern_one c) (fun i s' => id_key s' i = Some (cond_key c)).
Proof.
  intros (Hi & Hn & Hc) Hcl i s'. unfold intern_one. rewrite Hi.
  rewrite (imap_ext _ (fun i c => (cond_key c, (0 + i)%nat))) by done. rewrite index_lookup by done.
  destruct (list_find (fun c' => cond_key c' = cond_key c) (p_table s)) as [[j c']|] eqn:E; cbn.
  - intros [= <- <-]. split_and!; [done|reflexivity|]. apply list_find_Some in E as (Hj & Ek & _).
    unfold id_key. by rewrite Hj; cbn; rewrite Ek.
  - intros [= <- <-]. unfold state_ok. cbn. split_and!.
    + etrans; [|symmetry; apply imap_app]. cbn. by rewrite Nat.add_0_r.
    + rewrite List.map_app. apply NoDup_app. split_and!; [done| |apply NoDup_singleton].
      intros k Hk ->%list_elem_of_singleton. apply list_elem_of_In, in_map_iff in Hk as (c' & Ek & Hin).
      apply list_elem_of_In in Hin. apply list_find_None in E. rewrite Forall_forall in E. by apply (E _ Hin).
    + apply Forall_app. split; [done|]. by constructor.
    + by exists [c].
    + unfold id_key. cbn. by rewrite lookup_app_r, Nat.sub_diag by lia.
Qed.

Lemma runs_map_keys s conds : state_ok s -> Forall clean conds ->
  runs s (pmap intern_one conds) (fun ids s' => keys_of s' ids = Some (List.map cond_key conds)).
Proof.
  intros Hs Hc. revert s Hs. induction Hc as [|c conds Hc _ IH]; intros s Hs; cbn [pmap]; [by apply runs_ret|].
  eapply runs_bind; [by apply runs_intern_one|]. intros i s1 Hs1 He1 Hi. cbv beta in Hi.
  eapply runs_bind; [by apply IH|]. intros ids s2 Hs2 He2 Hids. apply runs_ret; [done|]. cbn.
  rewrite (id_key_extends _ _ _ _ He2 Hi). cbn. unfold keys_of in Hids. by rewrite Hids.
Qed.

Lemma runs_intern s conds : state_ok s -> Forall clean conds ->
  runs s (intern conds) (fun ids s' => keys_of s' ids = Some (fromkeys (List.map cond_key conds))).
Proof.
  intros Hs Hc. unfold intern. eapply runs_bind; [by apply runs_spend|]. intros [] s1 Hs1 He1 _.
  eapply runs_bind; [by apply runs_map_keys|]. intros ids s2 Hs2 He2 Hk. apply runs_ret; [done|]. by apply keys_fromkeys.
Qed.

Lemma runs_unique s parts kss : state_ok s -> Forall2 (fun ids ks => keys_of s ids = Some ks) parts kss ->
  runs s (unique parts) (fun ids s' => keys_of s' ids = Some (fromkeys (List.concat kss))).
Proof.
  intros Hs HF. unfold unique. eapply runs_bind; [by apply runs_spend|]. intros [] s1 Hs1 He1 _. apply runs_ret; [done|].
  apply keys_fromkeys; [done|]. clear Hs Hs1. induction HF as [|ids ks parts kss H HF IH]; [done|]. cbn.
  apply keys_app; [by eapply keys_extends|done].
Qed.

(** ** Rows and their copies *)

Definition row_conds (r : dict) : list dict := condition_dicts (py_get "conditions" (row_details r)).
Definition ckeys (r : dict) : list string := List.map cond_key (row_conds r).
Definition rtrace (r : dict) : list pyval := default [] (iter_or_nil (py_get "trace" (row_details r))).
Definition rqual (r : dict) : pyval := py_get "membership_quality" (row_details r).
Definition rhas (r : dict) : bool := bool_decide (is_Some (assoc_get "membership_quality" (row_details r))).

Record row_ok (r : dict) : Prop := {
  row_ok_details : is_Some (as_dict (py_get "details" r));
  row_ok_keys : NoDup (ckeys r);
  row_ok_qual : qual_ok (rqual r);
  row_ok_trace : is_Some (iter_or_nil (py_get "trace" (row_details r)))
}.

(** Equal but for the conditions. *)
Definition same_base (r r' : dict) : Prop :=
  (forall k, k <> "details" -> assoc_get k r = assoc_get k r') /\
  (forall k, k <> "conditions" -> assoc_get k (row_details r) = assoc_get k (row_details r')).

Lemma same_base_refl r : same_base r r.
Proof. done. Qed.

Lemma same_base_trans r1 r2 r3 : same_base r1 r2 -> same_base r2 r3 -> same_base r1 r3.
Proof. intros [H1 H2] [H3 H4]. split; intros k Hk; [by rewrite H1, H3|by rewrite H2, H4]. Qed.

Lemma same_base_sym r1 r2 : same_base r1 r2 -> same_base r2 r1.
Proof. intros [H1 H2]. split; intros k Hk; [by rewrite H1|by rewrite H2]. Qed.

Lemma same_base_get r r' k : same_base r r' -> k <> "conditions" -> py_get k (row_details r) = py_get k (row_details r').
Proof. intros [_ H] Hk. unfold py_get. by rewrite H. Qed.

Lemma same_base_trace r r' : same_base r r' -> rtrace r = rtrace r'.
Proof. intros H. unfold rtrace. by rewrite (same_base_get _ _ _ H). Qed.
Lemma same_base_qual r r' : same_base r r' -> rqual r = rqual r'.
Proof. intros H. by apply same_base_get. Qed.
Lemma same_base_has r r' : same_base r r' -> rhas r = rhas r'.
Proof. intros [_ H]. unfold rhas. by rewrite H. Qed.
Lemma same_base_key r r' : same_base r r' -> key_of_row r = key_of_row r'.
Proof. intros [H _]. unfold key_of_row, py_get. by rewrite !H. Qed.

Lemma details_put d r : row_details (odict_put "details" (PyDict d) r) = d.
Proof. unfold row_details. by rewrite py_get_put, decide_True. Qed.

Lemma condition_dicts_clean v : Forall clean (condition_dicts v).
Proof.
  destruct v as [| | | |l|]; try constructor. induction l as [|x l IH]; [constructor|]. cbn. destruct x; try done.
  constructor; [|done]. apply Forall_forall. intros kv Hkv. apply list_elem_of_In, filter_In in Hkv as [_ H]. by destruct (is_none kv.2).
Qed.

Lemma filter_clean c : clean c -> List.filter (fun kv => negb (is_none kv.2)) c = c.
Proof. induction 1 as [|kv c H _ IH]; [done|]. cbn. by rewrite H, IH. Qed.

Lemma condition_dicts_list l : Forall clean l -> condition_dicts (cond_list l) = l.
Proof. cbn. induction 1 as [|c l H _ IH]; [done|]. cbn. rewrite filter_clean by done. by rewrite IH. Qed.

Lemma unique_loop_keys seen l : List.map cond_key (unique_loop seen l) = fromkeys_from seen (List.map cond_key l).
Proof. revert seen. induction l as [|c l IH]; intros seen; cbn; [done|]. case_decide; cbn; [done|]. by rewrite IH. Qed.

Lemma unique_keys l : List.map cond_key (unique_conditions l) = fromkeys (List.map cond_key l).
Proof. apply unique_loop_keys. Qed.

Lemma unique_clean l : Forall clean l -> Forall clean (unique_conditions l).
Proof.
  unfold unique_conditions. generalize (@nil string). induction l as [|c l IH]; intros seen H; cbn; [constructor|].
  inversion H; subst. case_decide; [by apply IH|]. constructor; [done|]. by apply IH.
Qed.

Lemma row_conds_clean r : Forall clean (row_conds r).
Proof. apply condition_dicts_clean. Qed.

Lemma row_details_with conds r : row_details (with_row conds r) = details_with_conditions (row_details r) conds.
Proof. apply details_put. Qed.

Lemma with_row_base conds r : same_base r (with_row conds r).
Proof.
  split; intros k Hk; [unfold with_row; by rewrite assoc_put, decide_False|].
  rewrite row_details_with. unfold details_with_conditions. destruct conds; [done|]. by rewrite assoc_put, decide_False.
Qed.

Lemma ckeys_with conds r : Forall clean conds -> NoDup (ckeys r) ->
  ckeys (with_row conds r) = fromkeys (ckeys r ++ List.map cond_key conds)%list.
Proof.
  intros Hc Hn. unfold ckeys, row_conds at 1. rewrite row_details_with. unfold details_with_conditions.
  destruct conds as [|c conds]; [cbn [List.map]; rewrite app_nil_r; symmetry; by apply fromkeys_NoDup_id|].
  rewrite py_get_put, decide_True by done.
  etrans; [apply (f_equal (List.map cond_key)), (condition_dicts_list (unique_conditions (row_conds r ++ c :: conds)%list))|].
  - apply unique_clean, Forall_app. split; [apply row_conds_clean|done].
  - by rewrite unique_keys, List.map_app.
Qed.

Lemma with_row_ok conds r : Forall clean conds -> row_ok r -> row_ok (with_row conds r).
Proof.
  intros Hc [H1 H2 H3 H4]. pose proof (with_row_base conds r) as Hb. split.
  - unfold with_row. rewrite py_get_put, decide_True by done. by eexists.
  - rewrite ckeys_with by done. apply NoDup_fromkeys_from.
  - by rewrite <- (same_base_qual _ _ Hb).
  - by rewrite <- (same_base_get _ _ "trace" Hb).
Qed.

(** What an accumulator stands for: the copies of one row, in expansion order. *)
Definition acc_rel (s : pstate) (acc : RowAcc) (rs : list dict) : Prop :=
  match rs with
  | [] => False
  | r :: rest =>
      same_base (acc_row acc) r /\ row_ok (acc_row acc) /\
      keys_of s (acc_first acc) = Some (ckeys r) /\
      (acc_touched acc = false -> ckeys (acc_row acc) = ckeys r) /\
      keys_of s (acc_union acc) = Some (fromkeys (List.concat (List.map ckeys rs))) /\
      acc_multi acc = negb (is_nil rest) /\
      acc_trace acc = fold_left merge_trace (List.map rtrace rest) (rtrace r) /\
      acc_has_quality acc = existsb rhas rs /\
      acc_quality acc = fold_left qm (List.map rqual rest) (rqual r) /\ qual_ok (acc_quality acc)
  end.

Lemma acc_rel_extends s s' acc rs : extends s s' -> acc_rel s acc rs -> acc_rel s' acc rs.
Proof.
  intros He. destruct rs as [|r rest]; [done|]. intros (H1 & H2 & H3 & H4 & H5 & H6). unfold acc_rel.
  split_and!; first [done|by eapply keys_extends|apply H6].
Qed.

Lemma runs_merge s a b rs1 rs2 : state_ok s -> acc_rel s a rs1 -> acc_rel s b rs2 ->
  runs s (merge a b) (fun acc s' => acc_rel s' acc (rs1 ++ rs2)%list).
Proof.
  intros Hs Ha Hb. destruct rs1 as [|r1 rest1]; [done|]. destruct rs2 as [|r2 rest2]; [done|].
  destruct Ha as (A1 & A2 & A3 & A4 & A5 & A6 & A7 & A8 & A9 & A10), Hb as (B1 & B2 & B3 & B4 & B5 & B6 & B7 & B8 & B9 & B10).
  unfold merge. eapply runs_bind; [by apply runs_spend|]. intros [] s1 Hs1 He1 _.
  eapply runs_bind; [eapply (runs_unique _ _ [_; _]); [done|]; repeat constructor; by eapply keys_extends|].
  intros un s2 Hs2 He2 Hun. cbv beta in Hun. eapply runs_bind; [by apply runs_lift|]. intros q s3 Hs3 He3 Hq. cbv beta in Hq.
  rewrite merged_qm in Hq by done. injection Hq as <-. apply runs_ret; [done|]. cbn [app]. unfold acc_rel. cbn [acc_row acc_first
    acc_union acc_multi acc_touched acc_trace acc_has_quality acc_quality]. split_and!; try done.
  - eapply keys_extends; [|exact A3]. by etrans; [|etrans].
  - apply (keys_extends _ _ _ _ He3) in Hun. rewrite Hun. f_equal.
    change (r1 :: rest1 ++ r2 :: rest2)%list with ((r1 :: rest1) ++ (r2 :: rest2))%list.
    rewrite (List.map_app ckeys (r1 :: rest1) (r2 :: rest2)), List.concat_app. cbn [List.concat]. rewrite app_nil_r.
    by rewrite fromkeys_app_l, fromkeys_app_r.
  - by destruct rest1.
  - rewrite A7, B7, List.map_app, fold_left_app. cbn. by rewrite (fold_assoc _ merge_trace_assoc).
  - rewrite A8, B8. symmetry. apply (existsb_app rhas (r1 :: rest1) (r2 :: rest2)).
  - rewrite A9, B9, List.map_app, fold_left_app. cbn. by rewrite (fold_assoc _ qm_assoc).
  - by apply qm_ok.
Qed.

Lemma fold_map_eq {A B} (f : A -> A -> A) (g h : B -> A) l x :
  (forall b, g b = h b) -> fold_left f (List.map g l) x = fold_left f (List.map h l) x.
Proof. intros H. f_equal. by apply List.map_ext. Qed.

Lemma map_ckeys_with conds rs : Forall clean conds -> Forall row_ok rs ->
  List.map ckeys (List.map (with_row conds) rs)
  = List.map fromkeys (List.map (fun c => c ++ List.map cond_key conds)%list (List.map ckeys rs)).
Proof.
  intros Hc Hr. induction Hr as [|r rs H _ IH]; [done|]. cbn. rewrite IH, ckeys_with by (done || apply H). done.
Qed.

Lemma runs_with_conditions s ids conds acc rs : state_ok s -> Forall clean conds -> Forall row_ok rs ->
  keys_of s ids = Some (fromkeys (List.map cond_key conds)) -> acc_rel s acc rs ->
  runs s (with_conditions ids acc) (fun acc' s' => acc_rel s' acc' (List.map (with_row conds) rs)).
Proof.
  intros Hs Hc Hr Hids Ha. destruct rs as [|r rest]; [done|].
  destruct Ha as (A1 & A2 & A3 & A4 & A5 & A6 & A7 & A8 & A9 & A10). unfold with_conditions.
  eapply runs_bind; [eapply (runs_unique _ _ [_; _]); [done|]; repeat constructor; eassumption|]. intros first s1 Hs1 He1 Hf.
  eapply runs_bind; [eapply (runs_unique _ _ [_; _; _]); [done|]; repeat constructor; eapply keys_extends; eassumption|].
  intros un s2 Hs2 He2 Hun. cbv beta in Hf, Hun. apply runs_ret; [done|]. cbn [List.map]. unfold acc_rel.
  cbn [acc_row acc_first acc_union acc_multi acc_touched acc_trace acc_has_quality acc_quality].
  inversion Hr as [|? ? Hr1 Hrest]; subst. split_and!.
  - eapply same_base_trans; [exact A1|apply with_row_base].
  - done.
  - apply (keys_extends _ _ _ _ He2) in Hf. rewrite Hf. f_equal. cbn [List.concat]. rewrite app_nil_r, fromkeys_app_r.
    by rewrite ckeys_with by (done || apply Hr1).
  - done.
  - rewrite Hun. f_equal. change (with_row conds r :: List.map (with_row conds) rest) with (List.map (with_row conds) (r :: rest)).
    rewrite map_ckeys_with, fromkeys_concat by done.
    change (List.map ckeys (r :: rest)) with (ckeys r :: List.map ckeys rest). rewrite fromkeys_appended.
    change (List.concat [?a; ?b; ?c]) with (a ++ b ++ c ++ [])%list. rewrite app_nil_r. apply fromkeys_parts.
  - by destruct rest.
  - rewrite A7, List.map_map. rewrite (same_base_trace _ _ (with_row_base conds r)). apply fold_map_eq.
    intros b. by apply same_base_trace, with_row_base.
  - rewrite A8. cbn. rewrite (same_base_has _ _ (with_row_base conds r)). f_equal. clear. induction rest as [|b rest IH]; [done|].
    cbn. by rewrite IH, (same_base_has _ _ (with_row_base conds b)).
  - rewrite A9, List.map_map. rewrite (same_base_qual _ _ (with_row_base conds r)). apply fold_map_eq.
    intros b. by apply same_base_qual, with_row_base.
  - done.
Qed.

Definition pkeys (path : list dict) : list string := List.map cond_key path.

Lemma concat_concat {A} (l : list (list (list A))) : List.concat (List.concat l) = List.concat (List.map (@List.concat A) l).
Proof. induction l as [|x l IH]; [done|]. cbn. by rewrite List.concat_app, IH. Qed.

Lemma map_ckeys_cross rs paths : Forall (Forall clean) paths -> Forall row_ok rs ->
  List.map ckeys (cross_rows rs paths)
  = List.map fromkeys (List.concat (List.map (fun c => List.map (fun p => c ++ p)%list (List.map pkeys paths)) (List.map ckeys rs))).
Proof.
  intros Hp Hr. unfold cross_rows. induction Hr as [|r rs H _ IH]; [done|].
  cbn [List.map List.concat]. rewrite !List.map_app, IH. f_equal. clear IH.
  induction Hp as [|p paths Hp _ IH]; [done|]. cbn [List.map]. rewrite ckeys_with by (done || apply H). by rewrite IH.
Qed.

Lemma cross_same {A} (h : dict -> A) (Hh : forall p r, h (with_row p r) = h r) rs paths :
  List.map h (cross_rows rs paths) = List.concat (List.map (fun r => replicate (List.length paths) (h r)) rs).
Proof.
  unfold cross_rows. induction rs as [|r rs IH]; [done|]. cbn. rewrite List.map_app, IH. f_equal.
  clear IH. induction paths as [|p paths IH]; [done|]. cbn. by rewrite Hh, IH.
Qed.

Lemma fold_repeated {A B} (f : A -> A -> A) (h : B -> A) n (l : list B) x :
  (forall a, f a a = a) -> (forall a b, f (f a b) b = f a b) ->
  fold_left f (replicate n x ++ List.concat (List.map (fun b => replicate (S n) (h b)) l))%list x = fold_left f (List.map h l) x.
Proof.
  intros Hs Hi. rewrite fold_left_app. assert (fold_left f (replicate n x) x = x) as ->.
  { induction n as [|m IH]; [done|]. cbn. by rewrite Hs. }
  revert x. induction l as [|b l IH]; intros x; [done|]. cbn [List.map List.concat]. rewrite fold_left_app. cbn [replicate fold_left].
  rewrite fold_absorb by apply Hi. apply IH.
Qed.

Lemma existsb_none n : existsb id (replicate n false) = false.
Proof. by induction n. Qed.

Lemma existsb_repeated {B} (h : B -> bool) n (l : list B) :
  existsb id (List.concat (List.map (fun b => replicate (S n) (h b)) l)) = existsb h l.
Proof.
  induction l as [|b l IH]; [done|]. cbn [List.map List.concat existsb]. rewrite existsb_app, IH. f_equal.
  destruct (h b); [done|]. apply existsb_none.
Qed.

(** What a summary's path fields say of the expansion's paths. *)
Definition paths_rel (s : pstate) (sm : Summary) (paths : list (list dict)) : Prop :=
  sm_count sm = Z.of_nat (List.length paths) /\ Forall (Forall clean) paths /\
  keys_of s (sm_pfirst sm) = Some (fromkeys (pkeys (hd [] paths))) /\
  keys_of s (sm_punion sm) = Some (fromkeys (List.concat (List.map pkeys paths))) /\
  mapM (keys_of s) (enumerate_paths (sm_pexpr sm)) = Some (List.map (fun p => fromkeys (pkeys p)) paths).

Lemma keys_nil s ids : keys_of s ids = Some [] <-> ids = [].
Proof.
  split; [|by intros ->]. intros H. apply mapM_Some_1 in H. by inversion H.
Qed.

Lemma runs_crossed s sm paths acc rs : state_ok s -> paths_rel s sm paths -> paths <> [] -> Forall row_ok rs ->
  acc_rel s acc rs -> runs s (crossed sm acc) (fun acc' s' => acc_rel s' acc' (cross_rows rs paths)).
Proof.
  intros Hs (P1 & P2 & P3 & P4 & P5) Hne Hr Ha. destruct rs as [|r rest]; [done|]. destruct paths as [|p ps]; [done|].
  destruct Ha as (A1 & A2 & A3 & A4 & A5 & A6 & A7 & A8 & A9 & A10). unfold crossed.
  inversion Hr as [|? ? Hr1 Hrest]; subst. inversion P2 as [|? ? Hp1 Hps]; subst. cbn [hd] in P3.
  assert (Hempty : sm_pfirst sm = [] <-> p = []).
  { rewrite <- (keys_nil s), P3. split; [|by intros ->]. intros [= E]. apply fromkeys_nil_inv in E. by destruct p. }
  assert (Hfirst : runs s (if bool_decide (sm_pfirst sm = []) then pret (acc_first acc) else unique [acc_first acc; sm_pfirst sm])
            (fun ids s' => keys_of s' ids = Some (ckeys (with_row p r)))).
  { rewrite ckeys_with by (done || apply Hr1). case_bool_decide as E.
    - apply runs_ret; [done|]. apply Hempty in E. subst p. cbn [List.map]. rewrite app_nil_r, fromkeys_NoDup_id by apply Hr1. done.
    - eapply runs_weaken; [eapply (runs_unique _ _ [_; _]); [done|]; repeat constructor; eassumption|].
      intros ids s' He Hk. cbv beta in Hk. rewrite Hk. cbn [List.concat]. by rewrite app_nil_r, fromkeys_app_r. }
  eapply runs_bind; [exact Hfirst|]. intros first s1 Hs1 He1 Hf.
  eapply runs_bind; [eapply (runs_unique _ _ [_; _; _]); [done|]; repeat constructor; eapply keys_extends; eassumption|].
  intros un s2 Hs2 He2 Hun. cbv beta in Hf, Hun. apply runs_ret; [done|].
  assert (Hb : forall q b, same_base b (with_row q b)) by (intros; apply with_row_base).
  assert (Hsplit : cross_rows (r :: rest) (p :: ps) = with_row p r :: (List.map (fun q => with_row q r) ps ++ cross_rows rest (p :: ps))%list)
    by done.
  assert (Hrep : forall {A} (h : dict -> A), (forall q b, h (with_row q b) = h b) ->
    List.map h (List.map (fun q => with_row q r) ps ++ cross_rows rest (p :: ps))%list
    = (replicate (List.length ps) (h r) ++ List.concat (List.map (fun b => replicate (S (List.length ps)) (h b)) rest))%list).
  { intros A h Hh. rewrite List.map_app, (cross_same h Hh). f_equal. clear -Hh. induction ps as [|q ps IH]; [done|]. cbn. by rewrite Hh, IH. }
  rewrite Hsplit. unfold acc_rel. cbn [acc_row acc_first acc_union acc_multi acc_touched acc_trace acc_has_quality acc_quality].
  split_and!.
  - eapply same_base_trans; [exact A1|apply Hb].
  - done.
  - by eapply keys_extends.
  - intros [Ht E]%orb_false_iff. apply negb_false_iff, bool_decide_eq_true in E. apply Hempty in E. subst p.
    rewrite A4 by done. rewrite ckeys_with by (done || apply Hr1). cbn [List.map]. by rewrite app_nil_r, fromkeys_NoDup_id by apply Hr1.
  - rewrite Hun. f_equal. rewrite <- Hsplit, map_ckeys_cross, fromkeys_concat, concat_concat, List.map_map by done.
    change (List.map ckeys (r :: rest)) with (ckeys r :: List.map ckeys rest).
    rewrite (fromkeys_crossed (ckeys r) (List.map ckeys rest) (List.map pkeys (p :: ps))) by done.
    change (List.concat [?a; ?b; ?c]) with (a ++ b ++ c ++ [])%list. rewrite app_nil_r. apply fromkeys_parts.
  - rewrite A6, P1. cbn [List.length]. destruct rest as [|b rest]; cbn [is_nil negb orb].
    + destruct ps as [|q ps]; [done|]. cbn. destruct (Z.ltb_spec 1 (Z.of_nat (S (S (List.length ps))))); [done|lia].
    + by destruct ps.
  - rewrite (Hrep _ rtrace) by (intros; symmetry; by apply same_base_trace). rewrite <- (same_base_trace _ _ (Hb p r)).
    by rewrite fold_repeated by (apply merge_trace_self || apply merge_trace_idem).
  - rewrite A8. change (existsb rhas (with_row p r :: ?l)) with (rhas (with_row p r) || existsb rhas l).
    rewrite <- (same_base_has _ _ (Hb p r)). cbn [existsb].
    assert (forall l, existsb rhas l = existsb id (List.map rhas l)) as Hm by (induction l as [|? ? IHl]; cbn; [done|by rewrite IHl]).
    rewrite (Hm (_ ++ _)%list), (Hrep _ rhas) by (intros; symmetry; by apply same_base_has). rewrite existsb_app, existsb_repeated.
    destruct (rhas r); [done|]. by rewrite existsb_none.
  - rewrite (Hrep _ rqual) by (intros; symmetry; by apply same_base_qual). rewrite <- (same_base_qual _ _ (Hb p r)).
    by rewrite fold_repeated by (apply qm_self || apply qm_idem).
  - done.
Qed.

(** ** Row tables *)

Definition copies (k : row_key) (rs : list dict) : list dict := List.filter (fun r => bool_decide (key_of_row r = k)) rs.

Definition rows_rel (s : pstate) (rows : list (row_key * RowAcc)) (rs : list dict) : Prop :=
  rows.*1 = fromkeys (List.map key_of_row rs) /\
  Forall (fun ka => acc_rel s ka.2 (copies ka.1 rs)) rows /\ Forall row_ok rs.

Lemma copies_cons k r rs : copies k (r :: rs) = if bool_decide (key_of_row r = k) then r :: copies k rs else copies k rs.
Proof. done. Qed.

Lemma copies_app k rs rs' : copies k (rs ++ rs')%list = (copies k rs ++ copies k rs')%list.
Proof. apply List.filter_app. Qed.

Lemma copies_all k rs : Forall (fun r => key_of_row r = k) rs -> copies k rs = rs.
Proof. induction 1 as [|r rs H _ IH]; [done|]. by rewrite copies_cons, bool_decide_true, IH. Qed.

Lemma copies_none k rs : Forall (fun r => key_of_row r <> k) rs -> copies k rs = [].
Proof. induction 1 as [|r rs H _ IH]; [done|]. by rewrite copies_cons, bool_decide_false, IH. Qed.

Lemma copies_key k rs : Forall (fun r => key_of_row r = k) (copies k rs).
Proof.
  apply Forall_forall. intros r Hr. apply list_elem_of_In, filter_In in Hr as [_ H]. by apply bool_decide_eq_true in H.
Qed.

Lemma copies_ok k rs : Forall row_ok rs -> Forall row_ok (copies k rs).
Proof. intros H. rewrite Forall_forall in H |- *. intros r Hr. apply H. apply list_elem_of_In in Hr. apply list_elem_of_In. apply filter_In in Hr. tauto. Qed.

Lemma elem_of_copies k rs : copies k rs <> [] <-> k ∈ List.map key_of_row rs.
Proof.
  induction rs as [|r rs IH]; [cbn; set_solver|]. rewrite copies_cons. cbn [List.map]. rewrite elem_of_cons. case_bool_decide as E; subst.
  - split; [by left|done].
  - rewrite IH. split; [by right|]. intros [->|H]; done.
Qed.

Lemma rows_rel_ext s rows rs rs' :
  fromkeys (List.map key_of_row rs) = fromkeys (List.map key_of_row rs') -> (forall k, copies k rs = copies k rs') ->
  Forall row_ok rs' -> rows_rel s rows rs -> rows_rel s rows rs'.
Proof.
  intros Ek Ec Hok (H1 & H2 & _). split_and!; [congruence| |done]. eapply Forall_impl; [exact H2|]. intros ka. cbv beta. by rewrite Ec.
Qed.

Lemma rows_rel_extends s s' rows rs : extends s s' -> rows_rel s rows rs -> rows_rel s' rows rs.
Proof.
  intros He (H1 & H2 & H3). split_and!; try done. eapply Forall_impl; [exact H2|]. intros ka. by apply acc_rel_extends.
Qed.

Lemma odict_get_none {K V} `{EqDecision K} k (d : list (K * V)) : odict_get k d = None <-> k ∉ d.*1.
Proof. induction d as [|[k' v] d IH]; cbn; [set_solver|]. case_decide; [set_solver|]. rewrite IH. set_solver. Qed.

Lemma odict_get_elem {K V} `{EqDecision K} k v (d : list (K * V)) : odict_get k d = Some v -> (k, v) ∈ d.
Proof.
  induction d as [|[k' v'] d IH]; cbn; [done|]. case_decide as E; [intros [= ->]; subst; set_solver|]. intros H. apply IH in H. set_solver.
Qed.

Lemma odict_put_keys {K V} `{EqDecision K} k v (d : list (K * V)) :
  (odict_put k v d).*1 = if decide (k ∈ d.*1) then d.*1 else (d.*1 ++ [k])%list.
Proof.
  induction d as [|[k' v'] d IH]; cbn; [done|]. destruct (decide (k = k')) as [->|N]; cbn.
  - by rewrite decide_True by set_solver.
  - rewrite IH. destruct (decide (k ∈ d.*1)); [rewrite decide_True by set_solver|rewrite decide_False by set_solver]; done.
Qed.

Lemma odict_put_elem {K V} `{EqDecision K} k v (d : list (K * V)) kv :
  NoDup d.*1 -> kv ∈ odict_put k v d -> kv = (k, v) \/ (kv.1 <> k /\ kv ∈ d).
Proof.
  induction d as [|[k' v'] d IH]; cbn; intros Hn H; [left; set_solver|]. apply NoDup_cons in Hn as [Hk Hn].
  destruct (decide (k = k')) as [->|N].
  - apply elem_of_cons in H as [->|H]; [by left|]. right. split; [|set_solver]. intros <-. apply Hk.
    apply list_elem_of_fmap. by exists kv.
  - apply elem_of_cons in H as [->|H]; [right; cbn; set_solver|]. destruct (IH Hn H) as [->|[? ?]]; [by left|right; set_solver].
Qed.

Lemma fromkeys_repeat {A} `{EqDecision A} (l m : list A) k :
  m <> [] -> Forall (fun x => x = k) m ->
  fromkeys (l ++ m)%list = if decide (k ∈ l) then fromkeys l else (fromkeys l ++ [k])%list.
Proof.
  intros Hm Hk. rewrite fromkeys_app. destruct m as [|x m]; [done|]. inversion Hk as [|? ? Hx Hks]; subst. cbn [fromkeys_from].
  destruct (decide (k ∈ l)) as [H|H]; rewrite fromkeys_from_nil; rewrite ?app_nil_r; try done;
    rewrite Forall_forall in Hks; intros y Hy; rewrite (Hks _ Hy); set_solver.
Qed.

Lemma runs_put_acc s out rs k acc rs2 : state_ok s -> rows_rel s out rs -> acc_rel s acc rs2 -> Forall row_ok rs2 ->
  Forall (fun r => key_of_row r = k) rs2 ->
  runs s (put_acc out (k, acc)) (fun out' s' => rows_rel s' out' (rs ++ rs2)%list).
Proof.
  intros Hs (H1 & H2 & H3) Ha Hok Hk. unfold put_acc. cbn [fst snd].
  assert (rs2 <> []) as Hne by (by destruct rs2).
  assert (NoDup out.*1) as Hnd by (rewrite H1; apply NoDup_fromkeys_from).
  assert (k ∈ out.*1 <-> k ∈ List.map key_of_row rs) as Hin by (rewrite H1; apply elem_of_fromkeys).
  assert (Hkeys : fromkeys (List.map key_of_row (rs ++ rs2)%list) = if decide (k ∈ out.*1) then out.*1 else (out.*1 ++ [k])%list).
  { rewrite List.map_app, (fromkeys_repeat _ _ k), H1.
    - destruct (decide (k ∈ List.map key_of_row rs)), (decide (k ∈ fromkeys (List.map key_of_row rs))); try done; by rewrite elem_of_fromkeys in *.
    - by destruct rs2.
    - apply Forall_forall. intros x (r & -> & Hr)%list_elem_of_fmap. exact (proj1 (Forall_forall _ _) Hk _ Hr). }
  assert (Hput : forall acc' s', extends s s' -> acc_rel s' acc' (copies k rs ++ rs2)%list ->
            rows_rel s' (odict_put k acc' out) (rs ++ rs2)%list).
  { intros acc' s' He Hr. split_and!; [by rewrite odict_put_keys, Hkeys| |by apply Forall_app].
    apply Forall_forall. intros ka Hka. destruct (odict_put_elem _ _ _ _ Hnd Hka) as [->|[Hne' Hka']]; rewrite copies_app.
    - cbn. by rewrite (copies_all k rs2).
    - rewrite (copies_none ka.1 rs2), app_nil_r by (eapply Forall_impl; [exact Hk|]; cbn; congruence).
      apply (acc_rel_extends _ _ _ _ He). rewrite Forall_forall in H2. by apply H2. }
  destruct (odict_get k out) as [earlier|] eqn:E.
  - rewrite Forall_forall in H2. pose proof (H2 _ (odict_get_elem _ _ _ E)) as He.
    eapply runs_bind; [by apply (runs_merge _ _ _ (copies k rs) rs2)|]. intros acc' s' Hs' Hext Hr. apply runs_ret; [done|]. by apply Hput.
  - apply runs_ret; [done|]. apply Hput; [reflexivity|]. apply odict_get_none in E. rewrite Hin in E.
    destruct (copies k rs) eqn:Ec; [done|]. exfalso. apply E. apply elem_of_copies. by rewrite Ec.
Qed.

Definition group_ok (s : pstate) (ka : row_key * RowAcc) (g : list dict) : Prop :=
  acc_rel s ka.2 g /\ Forall row_ok g /\ Forall (fun r => key_of_row r = ka.1) g.

Lemma runs_put_items s items gs : forall out rs, state_ok s -> Forall2 (group_ok s) items gs -> rows_rel s out rs ->
  runs s (pfold put_acc items out) (fun out' s' => rows_rel s' out' (rs ++ List.concat gs)%list).
Proof.
  intros out rs Hs HF. revert s gs out rs Hs HF. induction items as [|[k acc] items IH]; intros s gs out rs Hs HF Hr; inversion HF; subst.
  - apply runs_ret; [done|]. by rewrite app_nil_r.
  - destruct H1 as (Ha & Hok & Hk). cbn [pfold List.concat]. eapply runs_bind; [by apply runs_put_acc|]. intros out1 s1 Hs1 He1 Hr1.
    rewrite app_assoc. apply IH; [done| |done]. eapply Forall2_impl; [exact H3|]. intros ka g (? & ? & ?). split_and!; [|done..].
    by eapply acc_rel_extends.
Qed.

(** Regrouping rows by key keeps the key order and every key's copies. *)
Definition regroup (rs : list dict) : list dict :=
  List.concat (List.map (fun k => copies k rs) (fromkeys (List.map key_of_row rs))).

Lemma copies_copies k k' rs : copies k (copies k' rs) = if decide (k = k') then copies k rs else [].
Proof.
  case_decide as E; subst; [apply copies_all, copies_key|]. apply copies_none. eapply Forall_impl; [apply copies_key|]. cbv beta. congruence.
Qed.

Lemma copies_blocks k rs ks : NoDup ks ->
  copies k (List.concat (List.map (fun k => copies k rs) ks)) = if decide (k ∈ ks) then copies k rs else [].
Proof.
  induction ks as [|k' ks IH]; intros Hn; [done|]. cbn [List.map List.concat]. apply NoDup_cons in Hn as [Hk Hn]. rewrite copies_app, IH, copies_copies by done.
  destruct (decide (k = k')) as [->|N].
  - rewrite (decide_False (P := k' ∈ ks)), (decide_True (P := k' ∈ _)) by set_solver. apply app_nil_r.
  - destruct (decide (k ∈ ks)); [rewrite decide_True by set_solver|rewrite decide_False by set_solver]; done.
Qed.

Lemma copies_regroup k rs : copies k (regroup rs) = copies k rs.
Proof.
  unfold regroup. rewrite copies_blocks by apply NoDup_fromkeys_from. case_decide as E; [done|].
  rewrite elem_of_fromkeys, <- elem_of_copies in E. destruct (copies k rs); [done|]. exfalso. by apply E.
Qed.

Lemma keys_regroup rs : fromkeys (List.map key_of_row (regroup rs)) = fromkeys (List.map key_of_row rs).
Proof.
  unfold regroup. assert (Hb : forall ks, NoDup ks -> (forall k, k ∈ ks -> k ∈ List.map key_of_row rs) ->
    fromkeys (List.map key_of_row (List.concat (List.map (fun k => copies k rs) ks))) = ks).
  { intros ks. induction ks as [|k ks IH] using rev_ind; intros Hn Hk; [done|]. apply NoDup_app in Hn as (Hn & Hd & _).
    rewrite List.map_app, List.concat_app, List.map_app. cbn [List.map List.concat]. rewrite app_nil_r.
    rewrite (fromkeys_repeat _ _ k), decide_False, IH; [done|done|set_solver| | |].
    - intros Hin. apply (Hd k); [|set_solver]. apply elem_of_fromkeys in Hin. rewrite IH in Hin; [done|done|set_solver].
    - assert (copies k rs <> []) as Hne by (apply elem_of_copies, Hk; set_solver). by destruct (copies k rs).
    - apply Forall_forall. intros x (r & -> & Hr)%list_elem_of_fmap. exact (proj1 (Forall_forall _ _) (copies_key k rs) _ Hr). }
  apply Hb; [apply NoDup_fromkeys_from|]. intros k. by rewrite elem_of_fromkeys.
Qed.

Lemma rows_groups s rows rs : rows_rel s rows rs ->
  Forall2 (group_ok s) rows (List.map (fun k => copies k rs) (fromkeys (List.map key_of_row rs))).
Proof.
  intros (H1 & H2 & H3). rewrite <- H1. clear H1. induction H2 as [|ka rows Ha _ IH]; [constructor|].
  cbn. constructor; [|done]. split_and!; [done|by apply copies_ok|apply copies_key].
Qed.

Lemma runs_concat_rows s parts rss : state_ok s -> Forall2 (rows_rel s) parts rss ->
  runs s (concat_rows parts) (fun rows s' => rows_rel s' rows (List.concat rss)).
Proof.
  intros Hs HF. unfold concat_rows.
  assert (Hg : Forall2 (group_ok s) (List.concat parts)
            (List.concat (List.map (fun rs => List.map (fun k => copies k rs) (fromkeys (List.map key_of_row rs))) rss))).
  { induction HF as [|rows rs parts rss H _ IH]; [constructor|]. cbn. apply Forall2_app; [by apply rows_groups|done]. }
  eapply runs_weaken; [eapply (runs_put_items _ _ _ [] []); [done|exact Hg|done]|].
  intros rows s' He. cbn [app]. rewrite concat_concat, List.map_map. apply rows_rel_ext.
  - rewrite !concat_map, <- !(fromkeys_concat (List.map (List.map key_of_row) _)), !List.map_map. f_equal. f_equal.
    apply List.map_ext. intros rs. apply keys_regroup.
  - intros k. clear. induction rss as [|rs rss IH]; [done|]. cbn [List.map List.concat]. rewrite !copies_app, IH. f_equal. apply copies_regroup.
  - clear -HF. induction HF as [|rows rs parts rss (_ & _ & H) _ IH]; [constructor|]. cbn. by apply Forall_app.
Qed.

(** A transformation of every accumulator, matched by one of the copies. *)
Lemma runs_map_rows s (f : RowAcc -> PM RowAcc) (h : list dict -> list dict) rows rs :
  state_ok s ->
  (forall s' acc g, state_ok s' -> extends s s' -> Forall row_ok g -> acc_rel s' acc g ->
     runs s' (f acc) (fun acc' s'' => acc_rel s'' acc' (h g))) ->
  (forall k, copies k (h rs) = h (copies k rs)) ->
  fromkeys (List.map key_of_row (h rs)) = fromkeys (List.map key_of_row rs) -> Forall row_ok (h rs) ->
  rows_rel s rows rs -> runs s (map_rows f rows) (fun rows' s' => rows_rel s' rows' (h rs)).
Proof.
  intros Hs Hf Hc Hk Hok (H1 & H2 & H3). unfold map_rows.
  assert (Hm : forall s0, state_ok s0 -> extends s s0 -> Forall (fun ka => acc_rel s0 ka.2 (copies ka.1 rs)) rows ->
    runs s0 (pmap (fun ka : row_key * RowAcc => acc <- f ka.2;; pret (ka.1, acc)) rows)
      (fun rows' s' => rows'.*1 = rows.*1 /\ Forall (fun ka => acc_rel s' ka.2 (h (copies ka.1 rs))) rows')).
  { clear H1 H2. induction rows as [|ka rows IH]; intros s0 Hs0 He0 HF; cbn [pmap]; [by apply runs_ret|]. inversion HF; subst.
    eapply (runs_bind _ _ _ (fun ka' s' => ka'.1 = ka.1 /\ acc_rel s' ka'.2 (h (copies ka.1 rs)))).
    { eapply runs_bind; [apply (Hf _ _ (copies ka.1 rs)); [done|done|by apply copies_ok|done]|].
      intros acc' s1 Hs1 He1 Ha. by apply runs_ret. }
    intros ka' s1 Hs1 He1 [Ek Ha]. eapply runs_bind; [apply IH; [done|by etrans|]|].
    { eapply Forall_impl; [eassumption|]. intros x. by apply acc_rel_extends. }
    intros rows' s2 Hs2 He2 [Ek' Ha']. apply runs_ret; [done|]. cbn. split; [by rewrite Ek, Ek'|]. constructor; [|done].
    rewrite Ek. by eapply acc_rel_extends. }
  eapply runs_weaken; [apply (Hm s); [done|reflexivity|done]|]. intros rows' s' He [Ek Ha]. split_and!; [by rewrite Ek, H1| |done].
  eapply Forall_impl; [exact Ha|]. intros ka. cbv beta. by rewrite Hc.
Qed.

Lemma key_with conds r : key_of_row (with_row conds r) = key_of_row r.
Proof. symmetry. apply same_base_key, with_row_base. Qed.

Lemma copies_map_with k conds rs : copies k (List.map (with_row conds) rs) = List.map (with_row conds) (copies k rs).
Proof.
  induction rs as [|r rs IH]; [done|]. cbn [List.map]. rewrite !copies_cons, key_with, IH. by case_bool_decide.
Qed.

Lemma keys_map_with conds rs : List.map key_of_row (List.map (with_row conds) rs) = List.map key_of_row rs.
Proof. rewrite List.map_map. apply List.map_ext. intros r. apply key_with. Qed.

Lemma rows_ok_with conds rs : Forall clean conds -> Forall row_ok rs -> Forall row_ok (List.map (with_row conds) rs).
Proof. intros Hc H. induction H; cbn; constructor; auto using with_row_ok. Qed.

Lemma cross_cons r rs paths : cross_rows (r :: rs) paths = (List.map (fun p => with_row p r) paths ++ cross_rows rs paths)%list.
Proof. done. Qed.

Lemma copies_cross k rs paths : copies k (cross_rows rs paths) = cross_rows (copies k rs) paths.
Proof.
  induction rs as [|r rs IH]; [done|]. rewrite cross_cons, copies_app, copies_cons, IH. case_bool_decide as E.
  - rewrite cross_cons. f_equal. apply copies_all, Forall_forall. intros x (p & -> & _)%list_elem_of_fmap. by rewrite key_with.
  - rewrite copies_none; [done|]. apply Forall_forall. intros x (p & -> & _)%list_elem_of_fmap. by rewrite key_with.
Qed.

Lemma keys_cross rs paths : paths <> [] -> fromkeys (List.map key_of_row (cross_rows rs paths)) = fromkeys (List.map key_of_row rs).
Proof.
  intros Hp. induction rs as [|r rs IH] using rev_ind; [done|]. unfold cross_rows in *. rewrite !List.map_app, List.concat_app, List.map_app.
  cbn [List.map List.concat]. rewrite app_nil_r.
  rewrite (fromkeys_repeat _ (List.map key_of_row (List.map _ paths)) (key_of_row r)).
  - rewrite (fromkeys_repeat _ [key_of_row r] (key_of_row r)) by (by repeat constructor). rewrite IH.
    assert (key_of_row r ∈ List.map key_of_row (List.concat (List.map (fun row => List.map (fun p => with_row p row) paths) rs))
            <-> key_of_row r ∈ List.map key_of_row rs) as Hiff by (by rewrite <- elem_of_fromkeys, IH, elem_of_fromkeys).
    destruct (decide (key_of_row r ∈ List.map key_of_row rs)), (decide (key_of_row r ∈ List.map key_of_row (List.concat _))); tauto.
  - by destruct paths.
  - apply Forall_forall. intros x (y & -> & (p & -> & _)%list_elem_of_fmap)%list_elem_of_fmap. apply key_with.
Qed.

Lemma rows_ok_cross rs paths : Forall (Forall clean) paths -> Forall row_ok rs -> Forall row_ok (cross_rows rs paths).
Proof.
  intros Hp Hr. induction Hr as [|r rs H _ IH]; [constructor|]. rewrite cross_cons. apply Forall_app. split; [|done].
  clear IH. induction Hp; cbn; constructor; auto using with_row_ok.
Qed.

Lemma runs_rows_with s ids conds rows rs : state_ok s -> Forall clean conds ->
  keys_of s ids = Some (fromkeys (List.map cond_key conds)) -> rows_rel s rows rs ->
  runs s (map_rows (with_conditions ids) rows) (fun rows' s' => rows_rel s' rows' (List.map (with_row conds) rs)).
Proof.
  intros Hs Hc Hk Hr. apply (runs_map_rows _ _ (List.map (with_row conds)) rows rs); try done.
  - intros s' acc g Hs' He Hg Ha. apply runs_with_conditions; try done. by eapply keys_extends.
  - intros k. apply copies_map_with.
  - by rewrite keys_map_with.
  - apply rows_ok_with; [done|apply Hr].
Qed.

Lemma paths_rel_extends s s' sm paths : extends s s' -> paths_rel s sm paths -> paths_rel s' sm paths.
Proof.
  intros He (H1 & H2 & H3 & H4 & H5). split_and!; try done; try by eapply keys_extends.
  rewrite mapM_Some in H5 |- *. eapply Forall2_impl; [exact H5|]. intros ids ks. by apply keys_extends.
Qed.

Lemma runs_rows_cross s sm paths rows rs : state_ok s -> paths_rel s sm paths -> paths <> [] -> rows_rel s rows rs ->
  runs s (map_rows (crossed sm) rows) (fun rows' s' => rows_rel s' rows' (cross_rows rs paths)).
Proof.
  intros Hs Hp Hne Hr. apply (runs_map_rows _ _ (fun rs => cross_rows rs paths) rows rs); try done.
  - intros s' acc g Hs' He Hg Ha. apply runs_crossed; try done. by eapply paths_rel_extends.
  - intros k. apply copies_cross.
  - by apply keys_cross.
  - apply rows_ok_cross; [apply Hp|apply Hr].
Qed.

(** ** Summaries *)

Record sum_rel (s : pstate) (sm : Summary) (r : RefSurface) : Prop := {
  sum_rows : rows_rel s (sm_rows sm) (rf_rows r);
  sum_residual : sm_residual sm = rf_residual r;
  sum_ond : sm_ond sm = rf_ond r;
  sum_nobody : sm_nobody sm = rf_nobody r;
  sum_paths : paths_rel s sm (rf_paths r)
}.

Lemma sum_rel_extends s s' sm r : extends s s' -> sum_rel s sm r -> sum_rel s' sm r.
Proof. intros He [H1 H2 H3 H4 H5]. split; eauto using rows_rel_extends, paths_rel_extends. Qed.

Lemma paths_rel_none s sm : sm_count sm = 0%Z -> sm_pfirst sm = [] -> sm_punion sm = [] -> sm_pexpr sm = PNone -> paths_rel s sm [].
Proof. intros H1 H2 H3 H4. unfold paths_rel. rewrite H1, H2, H3, H4. split_and!; done. Qed.

Lemma closed_rel s rows rs res ond nobody : rows_rel s rows rs ->
  sum_rel s (closed_summary rows res ond nobody) (MkRef rs [] res ond nobody).
Proof. intros H. split; [done..|]. by apply paths_rel_none. Qed.

Lemma empty_rows_rel s : rows_rel s [] [].
Proof. split_and!; constructor. Qed.

Lemma rows_nil s rows rs : rows_rel s rows rs -> is_nil rows = is_nil rs.
Proof.
  intros (H & _). destruct rs as [|r rs]; [by destruct rows|]. destruct rows; [|done].
  exfalso. symmetry in H. change (fromkeys (List.map key_of_row (r :: rs)) = []) in H. by apply fromkeys_nil_inv in H.
Qed.

Lemma count_zero s sm paths : paths_rel s sm paths -> (sm_count sm =? 0)%Z = is_nil paths.
Proof. intros (-> & _). by destruct paths. Qed.

Lemma count_pos s sm paths : paths_rel s sm paths -> (0 <? sm_count sm)%Z = negb (is_nil paths).
Proof. intros (-> & _). by destruct paths. Qed.

Lemma valid_rel s sm r : sum_rel s sm r -> sm_valid sm = rf_valid r.
Proof.
  intros [H1 _ _ _ H5]. unfold sm_valid, rf_valid. rewrite (count_pos _ _ _ H5), <- (rows_nil _ _ _ H1). f_equal.
  destruct (sm_rows sm); [by rewrite bool_decide_true|by rewrite bool_decide_false].
Qed.

Lemma admits_rel s sm r : sum_rel s sm r -> may_admit_anyone sm = negb (rf_nobody r) && rf_admits r.
Proof.
  intros H. unfold may_admit_anyone, rf_admits. rewrite (valid_rel _ _ _ H). destruct H as [_ _ -> -> H5]. by rewrite (count_pos _ _ _ H5).
Qed.

Lemma mapM_map_Some {A B C D} (f : A -> option B) (g : C -> A) (h : D -> B) l m :
  Forall2 (fun c d => f (g c) = Some (h d)) l m -> mapM f (List.map g l) = Some (List.map h m).
Proof. intros H. rewrite mapM_Some. induction H; cbn; by constructor. Qed.

Lemma enumerated_forall2 s idss (paths : list (list dict)) :
  mapM (keys_of s) idss = Some (List.map (fun p => fromkeys (pkeys p)) paths) ->
  Forall2 (fun ids p => keys_of s ids = Some (fromkeys (pkeys p))) idss paths.
Proof.
  rewrite mapM_Some. revert paths. induction idss as [|ids idss IH]; intros [|p paths] H; cbn in H; inversion H; subst; constructor; auto.
Qed.

Lemma keys_pair s a b ka kb : state_ok s -> keys_of s a = Some (fromkeys ka) -> keys_of s b = Some (fromkeys kb) ->
  keys_of s (fromkeys (a ++ b)%list) = Some (fromkeys (ka ++ kb)%list).
Proof.
  intros Hs Ha Hb. rewrite (keys_fromkeys _ _ _ Hs (keys_app _ _ _ _ _ Ha Hb)). by rewrite fromkeys_app_l, fromkeys_app_r.
Qed.

Lemma pkeys_unique p q : pkeys (unique_conditions (p ++ q)%list) = fromkeys (pkeys p ++ pkeys q)%list.
Proof. unfold pkeys. by rewrite unique_keys, List.map_app. Qed.

Lemma Forall_clean_unique p q : Forall clean p -> Forall clean q -> Forall clean (unique_conditions (p ++ q)%list).
Proof. intros. apply unique_clean, Forall_app. done. Qed.

Lemma pkeys_appended conds paths :
  fromkeys (List.concat (List.map pkeys (List.map (fun p => unique_conditions (p ++ conds)%list) paths)))
  = fromkeys (List.concat (List.map (fun c => c ++ pkeys conds)%list (List.map pkeys paths))).
Proof.
  rewrite <- (fromkeys_concat (List.map _ (List.map pkeys paths))). f_equal. f_equal. rewrite !List.map_map. apply List.map_ext.
  intros p. apply pkeys_unique.
Qed.

(** The fields of an appended path list. *)
Lemma paths_append s sm paths conds ids pfirst punion rows res ond nobody :
  state_ok s -> paths_rel s sm paths -> paths <> [] -> Forall clean conds ->
  keys_of s ids = Some (fromkeys (pkeys conds)) ->
  keys_of s pfirst = Some (fromkeys (pkeys (hd [] paths) ++ pkeys conds)%list) ->
  keys_of s punion = Some (fromkeys (pkeys (hd [] paths) ++ pkeys conds ++ List.concat (List.map pkeys paths))%list) ->
  paths_rel s (MkSummary rows res ond (sm_count sm) pfirst punion (PApp (sm_pexpr sm) ids) nobody false)
    (List.map (fun p => unique_conditions (p ++ conds)%list) paths).
Proof.
  intros Hs (P1 & P2 & P3 & P4 & P5) Hne Hc Hi Hf Hu. unfold paths_rel. cbn [sm_count sm_pfirst sm_punion sm_pexpr enumerate_paths].
  split_and!.
  - by rewrite length_map.
  - clear -P2 Hc. induction P2; cbn; constructor; auto using Forall_clean_unique.
  - rewrite Hf. destruct paths as [|p paths]; [done|]. cbn [hd List.map]. by rewrite pkeys_unique, fromkeys_idemp.
  - rewrite Hu. f_equal. destruct paths as [|p paths]; [done|]. cbn [hd].
    rewrite pkeys_appended. symmetry. apply (fromkeys_appended (pkeys conds) (pkeys p) (List.map pkeys paths)).
  - rewrite List.map_map. apply mapM_map_Some. eapply Forall2_impl; [by apply enumerated_forall2|].
    intros x p Hx. cbv beta in *. rewrite (keys_pair _ _ _ _ _ Hs Hx Hi). by rewrite pkeys_unique, fromkeys_idemp.
Qed.

Lemma runs_append s sm r conds : state_ok s -> Forall clean conds -> sum_rel s sm r ->
  runs s (append_conditions sm conds) (fun sm' s' => sum_rel s' sm' (ref_narrow conds r)).
Proof.
  intros Hs Hc Hr. unfold append_conditions, ref_narrow. destruct conds as [|c conds]; [by apply runs_ret|].
  set (cs := c :: conds) in *. pose proof Hr as [R1 R2 R3 R4 R5].
  eapply runs_bind; [by apply runs_intern|]. intros ids s1 Hs1 He1 Hids. cbv beta in Hids.
  eapply runs_bind; [apply (runs_rows_with _ _ cs); [done|done|done|by eapply rows_rel_extends]|]. intros rows s2 Hs2 He2 Hrows. cbv beta in Hrows.
  rewrite (count_zero _ _ _ R5). destruct (rf_paths r) as [|p paths] eqn:Ep; cbn [is_nil].
  - apply runs_ret; [done|]. rewrite R2, R3, R4. cbn [List.map]. by apply closed_rel.
  - assert (extends s s2) as He02 by (by etrans). apply (paths_rel_extends _ _ _ _ He02) in R5. pose proof R5 as (P1 & P2 & P3 & P4 & P5).
    apply (keys_extends _ _ _ _ He2) in Hids.
    eapply runs_bind; [eapply (runs_unique _ _ [_; _]); [done|]; repeat constructor; eassumption|]. intros pf s3 Hs3 He3 Hpf. cbv beta in Hpf.
    eapply runs_bind; [eapply (runs_unique _ _ [_; _; _]); [done|]; repeat constructor; eapply keys_extends; eassumption|].
    intros pu s4 Hs4 He4 Hpu. cbv beta in Hpu. apply runs_ret; [done|].
    assert (extends s2 s4) as He24 by (by etrans).
    split; cbn [sm_rows sm_residual sm_ond sm_nobody rf_rows rf_residual rf_ond rf_nobody rf_paths]; try done.
    + by eapply rows_rel_extends.
    + apply paths_append; try done.
      * by eapply paths_rel_extends.
      * by eapply keys_extends.
      * apply (keys_extends _ _ _ _ He4) in Hpf. rewrite Hpf. cbn [List.concat]. rewrite app_nil_r. by rewrite fromkeys_app_l, fromkeys_app_r.
      * rewrite Hpu. change (List.concat [?a; ?b; ?c]) with (a ++ b ++ c ++ [])%list. rewrite app_nil_r.
        by rewrite fromkeys_app_l, fromkeys_parts.
Qed.

Lemma runs_or s l r rl rr : state_ok s -> sm_shared l = false -> sum_rel s l rl -> sum_rel s r rr ->
  runs s (or_summary l r) (fun sm s' => sum_rel s' sm (ref_or rl rr) /\ sm_shared sm = false).
Proof.
  intros Hs Hsh Hl Hr. unfold or_summary. rewrite Hsh.
  eapply runs_bind; [by apply runs_spend|]. intros [] s1 Hs1 He1 _.
  apply (sum_rel_extends _ _ _ _ He1) in Hl, Hr. pose proof Hl as [L1 L2 L3 L4 L5]. pose proof Hr as [R1 R2 R3 R4 R5].
  pose proof L5 as (A1 & A2 & A3 & A4 & A5). pose proof R5 as (B1 & B2 & B3 & B4 & B5).
  set (ps := (rf_paths rl ++ rf_paths rr)%list).
  eapply (runs_bind _ _ _ (fun p s' => keys_of s' p.1.1 = Some (fromkeys (pkeys (hd [] ps))) /\
    keys_of s' p.1.2 = Some (fromkeys (List.concat (List.map pkeys ps))) /\
    mapM (keys_of s') (enumerate_paths p.2) = Some (List.map (fun p => fromkeys (pkeys p)) ps))).
  { rewrite (count_zero _ _ _ R5), (count_zero _ _ _ L5). unfold ps. destruct (rf_paths rr) as [|pr prs] eqn:Er; cbn [is_nil].
    - apply runs_ret; [done|]. rewrite app_nil_r. done.
    - destruct (rf_paths rl) as [|pl pls] eqn:El; cbn [is_nil]; [by apply runs_ret|].
      eapply runs_bind; [eapply (runs_unique _ _ [_; _]); [done|]; repeat constructor; eassumption|]. intros pu s2 Hs2 He2 Hpu. cbv beta in Hpu.
      apply runs_ret; [done|]. cbn [fst snd enumerate_paths]. split_and!.
      + by eapply keys_extends.
      + rewrite Hpu. cbn [List.concat]. by rewrite app_nil_r, List.map_app, List.concat_app, fromkeys_app_l, fromkeys_app_r.
      + rewrite List.map_app. apply mapM_app_Some; rewrite mapM_Some in A5, B5 |- *; (eapply Forall2_impl; [eassumption|]);
          intros ids ks; by apply keys_extends. }
  intros p s2 Hs2 He2 (Hp1 & Hp2 & Hp3).
  eapply runs_bind; [apply (runs_concat_rows _ _ [rf_rows rl; rf_rows rr]); [done|]; repeat constructor; by eapply rows_rel_extends|].
  intros rows s3 Hs3 He3 Hrows. cbv beta in Hrows. cbn [List.concat] in Hrows. rewrite app_nil_r in Hrows.
  apply runs_ret; [done|]. split; [|done]. split; cbn [sm_rows sm_residual sm_ond sm_nobody ref_or rf_rows rf_residual rf_ond rf_nobody rf_paths].
  - done.
  - by rewrite L2, R2.
  - by rewrite L3, R3.
  - by rewrite L4, R4.
  - unfold paths_rel. cbn [sm_count sm_pfirst sm_punion sm_pexpr]. split_and!.
    + rewrite A1, B1, length_app. lia.
    + by apply Forall_app.
    + by eapply keys_extends.
    + by eapply keys_extends.
    + rewrite mapM_Some in Hp3 |- *. eapply Forall2_impl; [exact Hp3|]. intros ids ks. by apply keys_extends.
Qed.

(** The paths of a product. *)
Lemma pkeys_crossed ls rs :
  fromkeys (List.concat (List.map pkeys (cross_paths ls rs)))
  = fromkeys (List.concat (List.map (fun c => List.concat (List.map (fun p => c ++ p)%list (List.map pkeys rs))) (List.map pkeys ls))).
Proof.
  unfold cross_paths. rewrite List.concat_map, List.map_map, concat_concat, List.map_map.
  rewrite !List.map_map. unfold fromkeys. revert ls.
  assert (Hin : forall l s, fromkeys_from s (List.concat (List.map pkeys (List.map (fun r => unique_conditions (l ++ r)%list) rs)))
           = fromkeys_from s (List.concat (List.map (fun x => pkeys l ++ pkeys x)%list rs))).
  { intros l s. rewrite <- (fromkeys_from_concat s (List.map (fun x => pkeys l ++ pkeys x)%list rs)). f_equal. f_equal.
    rewrite !List.map_map. apply List.map_ext. intros x. apply pkeys_unique. }
  intros ls. generalize (@nil string). induction ls as [|l ls IH]; intros s; [done|]. cbn [List.map List.concat].
  apply fromkeys_from_app_eq; [rewrite Hin; f_equal; f_equal; by rewrite List.map_map|].
  rewrite IH. apply fromkeys_from_ext. intros x. rewrite !elem_of_app. apply or_iff_compat_l.
  rewrite <- (elem_of_fromkeys x (List.concat (List.map pkeys _))), <- (elem_of_fromkeys x (List.concat (List.map _ (List.map pkeys rs)))).
  unfold fromkeys. by rewrite Hin, List.map_map.
Qed.

Lemma clean_crossed ls rs : Forall (Forall clean) ls -> Forall (Forall clean) rs -> Forall (Forall clean) (cross_paths ls rs).
Proof.
  intros Hl Hr. unfold cross_paths. induction Hl as [|l ls H _ IH]; [constructor|]. cbn. apply Forall_app. split; [|done].
  clear IH. induction Hr; cbn; constructor; auto using Forall_clean_unique.
Qed.

Lemma enumerate_crossed s a b ls rs : state_ok s ->
  mapM (keys_of s) (enumerate_paths a) = Some (List.map (fun p => fromkeys (pkeys p)) ls) ->
  mapM (keys_of s) (enumerate_paths b) = Some (List.map (fun p => fromkeys (pkeys p)) rs) ->
  mapM (keys_of s) (enumerate_paths (PAnd a b)) = Some (List.map (fun p => fromkeys (pkeys p)) (cross_paths ls rs)).
Proof.
  intros Hs Ha%enumerated_forall2 Hb%enumerated_forall2. cbn [enumerate_paths]. unfold cross_paths.
  induction Ha as [|x l xs ls Hx _ IH]; [done|]. cbn [List.map List.concat]. rewrite List.map_app. apply mapM_app_Some; [|done].
  rewrite List.map_map. apply mapM_map_Some. eapply Forall2_impl; [exact Hb|]. intros y r Hy. cbv beta in *.
  rewrite (keys_pair _ _ _ _ _ Hs Hx Hy). by rewrite pkeys_unique, fromkeys_idemp.
Qed.

Lemma runs_rows_if s (b : bool) (m : PM (list (row_key * RowAcc))) rs : state_ok s ->
  (b = true -> runs s m (fun rows s' => rows_rel s' rows rs)) ->
  runs s (if b then m else pret []) (fun rows s' => rows_rel s' rows (if b then rs else [])).
Proof. intros Hs H. destruct b; [by apply H|]. apply runs_ret; [done|apply empty_rows_rel]. Qed.

Lemma cross_rows_nil rs : cross_rows rs [] = [].
Proof. unfold cross_rows. by induction rs. Qed.

Lemma runs_cross_if s sm paths rows rs : state_ok s -> paths_rel s sm paths -> rows_rel s rows rs ->
  runs s (if (sm_count sm =? 0)%Z then pret [] else map_rows (crossed sm) rows)
    (fun rows' s' => rows_rel s' rows' (cross_rows rs paths)).
Proof.
  intros Hs Hp Hr. rewrite (count_zero _ _ _ Hp). destruct paths as [|p paths]; cbn [is_nil].
  - rewrite cross_rows_nil. apply runs_ret; [done|apply empty_rows_rel].
  - by apply runs_rows_cross.
Qed.
