(* ===== verification/SurfaceEquivalence.v ===== *)
(** * The projection computes the reference expansion

    The Hoare rules of the projector's operations at an AND and at a node, by
    induction on the serialized capability, and what they say of the whole
    projection: it returns the reference expansion of the tree, merged by row
    key, within its work budget. *)

From stdpp Require Import base sets list strings sorting.
From Stdlib Require Import String Ascii ZArith Lia.
From S2P Require Import Prelude PyText EvalContext Capabilities Surface SurfaceReference SurfaceTheory.

Local Open Scope string_scope.
Local Open Scope surface_scope.

Definition not_read_ok (s : pstate) (nr : Ids) : Prop := keys_of s nr = Some (fromkeys (pkeys [CONDITION_NOT_READ])).

Lemma clean_not_read : Forall clean [CONDITION_NOT_READ].
Proof. repeat constructor. Qed.

(** The four groups of rows a product keeps. *)
Lemma runs_product_rows s nr l r rl rr : state_ok s -> not_read_ok s nr -> sum_rel s l rl -> sum_rel s r rr ->
  runs s (rows1 <- (if (sm_count r =? 0)%Z then pret [] else map_rows (crossed r) (sm_rows l));;
          rows2 <- (if (sm_count l =? 0)%Z then pret [] else map_rows (crossed l) (sm_rows r));;
          rows3 <- (if sm_ond r then map_rows (with_conditions nr) (sm_rows l) else pret []);;
          rows4 <- (if sm_ond l then map_rows (with_conditions nr) (sm_rows r) else pret []);;
          concat_rows [rows1; rows2; rows3; rows4])
    (fun rows s' => rows_rel s' rows (rf_rows (ref_product rl rr))).
Proof.
  intros Hs Hn Hl Hr.
  eapply runs_bind; [apply (runs_cross_if _ _ (rf_paths rr)); [done|apply Hr|apply Hl]|]. intros rows1 s1 Hs1 He1 H1. cbv beta in H1.
  apply (sum_rel_extends _ _ _ _ He1) in Hl, Hr. apply (keys_extends _ _ _ _ He1) in Hn.
  eapply runs_bind; [apply (runs_cross_if _ _ (rf_paths rl)); [done|apply Hl|apply Hr]|]. intros rows2 s2 Hs2 He2 H2. cbv beta in H2.
  apply (sum_rel_extends _ _ _ _ He2) in Hl, Hr. apply (keys_extends _ _ _ _ He2) in Hn. apply (rows_rel_extends _ _ _ _ He2) in H1.
  eapply runs_bind; [apply (runs_rows_if _ _ _ (List.map (with_row [CONDITION_NOT_READ]) (rf_rows rl))); [done|]; intros _;
    apply runs_rows_with; [done|apply clean_not_read|done|apply Hl]|]. intros rows3 s3 Hs3 He3 H3. cbv beta in H3.
  apply (sum_rel_extends _ _ _ _ He3) in Hl, Hr. apply (keys_extends _ _ _ _ He3) in Hn. apply (rows_rel_extends _ _ _ _ He3) in H1, H2.
  eapply runs_bind; [apply (runs_rows_if _ _ _ (List.map (with_row [CONDITION_NOT_READ]) (rf_rows rr))); [done|]; intros _;
    apply runs_rows_with; [done|apply clean_not_read|done|apply Hr]|]. intros rows4 s4 Hs4 He4 H4. cbv beta in H4.
  apply (rows_rel_extends _ _ _ _ He4) in H1, H2, H3.
  eapply runs_weaken; [eapply (runs_concat_rows _ _ [_; _; _; _]); [done|]; do 4 (apply Forall2_cons_2; [eassumption|]); apply Forall2_nil_2|].
  intros rows s5 He5 H. cbv beta in H. cbn [List.concat] in H. rewrite app_nil_r in H.
  destruct Hl as [_ _ E1 _ _], Hr as [_ _ E2 _ _]. rewrite E1, E2 in H. exact H.
Qed.

Lemma pbind_assoc5 {A B C D E F} (m1 : PM A) (m2 : PM B) (m3 : PM C) (m4 : PM D) (m5 : A -> B -> C -> D -> PM E) (k : E -> PM F) s :
  (a <- m1;; b <- m2;; c <- m3;; d <- m4;; e <- m5 a b c d;; k e) s
  = (e <- (a <- m1;; b <- m2;; c <- m3;; d <- m4;; m5 a b c d);; k e) s.
Proof.
  unfold pbind. destruct (m1 s) as [a s1| |]; [|done..]. destruct (m2 s1) as [b s2| |]; [|done..].
  destruct (m3 s2) as [c s3| |]; [|done..]. by destruct (m4 s3).
Qed.

Lemma runs_eq {A} s (m m' : PM A) Q : m s = m' s -> runs s m' Q -> runs s m Q.
Proof. intros E H a s'. rewrite E. apply H. Qed.

Lemma runs_product s nr l r rl rr : state_ok s -> not_read_ok s nr -> sum_rel s l rl -> sum_rel s r rr ->
  runs s (product_summary nr l r) (fun sm s' => sum_rel s' sm (ref_product rl rr) /\ sm_shared sm = false).
Proof.
  intros Hs Hn Hl Hr. eapply runs_eq; [apply pbind_assoc5|].
  eapply runs_bind; [by apply runs_product_rows|]. intros rows s1 Hs1 He1 Hrows. cbv beta in Hrows.
  apply (sum_rel_extends _ _ _ _ He1) in Hl, Hr. pose proof Hl as [L1 L2 L3 L4 L5]. pose proof Hr as [R1 R2 R3 R4 R5].
  rewrite L2, R2, (count_zero _ _ _ L5), (count_zero _ _ _ R5).
  assert (match sm_rows l, sm_rows r with _ :: _, _ :: _ => [MULTIPLE_SHAPES] | _, _ => [] end
          = match rf_rows rl, rf_rows rr with _ :: _, _ :: _ => [MULTIPLE_SHAPES] | _, _ => [] end) as ->.
  { pose proof (rows_nil _ _ _ L1) as E1. pose proof (rows_nil _ _ _ R1) as E2.
    by destruct (sm_rows l), (rf_rows rl), (sm_rows r), (rf_rows rr). }
  cbv zeta. destruct (is_nil (rf_paths rl) || is_nil (rf_paths rr)) eqn:E.
  - apply runs_ret; [done|]. split; [|done].
    assert (cross_paths (rf_paths rl) (rf_paths rr) = []) as Ec.
    { unfold cross_paths. destruct (rf_paths rl) as [|p ps]; [done|]. destruct (rf_paths rr); [|done]. clear. cbn. by induction ps. }
    unfold ref_product. rewrite Ec. by apply closed_rel.
  - apply orb_false_iff in E as [El Er]. pose proof L5 as (A1 & A2 & A3 & A4 & A5). pose proof R5 as (B1 & B2 & B3 & B4 & B5).
    eapply runs_bind; [eapply (runs_unique _ _ [_; _]); [done|]; repeat constructor; eassumption|]. intros pf s2 Hs2 He2 Hpf. cbv beta in Hpf.
    eapply runs_bind; [eapply (runs_unique _ _ [_; _; _]); [done|]; repeat constructor; eapply keys_extends; eassumption|].
    intros pu s3 Hs3 He3 Hpu. cbv beta in Hpu. apply runs_ret; [done|]. split; [|done]. assert (extends s1 s3) as He13 by (by etrans).
    split; cbn [sm_rows sm_residual sm_ond sm_nobody ref_product rf_rows rf_residual rf_ond rf_nobody rf_paths]; try done.
    + by eapply rows_rel_extends.
    + unfold paths_rel. cbn [sm_count sm_pfirst sm_punion sm_pexpr].
      assert (Hnl : rf_paths rl <> []) by (by destruct (rf_paths rl)). assert (Hnr : rf_paths rr <> []) by (by destruct (rf_paths rr)).
      split_and!.
      * rewrite A1, B1. unfold cross_paths. clear. induction (rf_paths rl) as [|p ps IH]; cbn; [done|].
        rewrite length_app, length_map, Nat2Z.inj_add, <- IH. lia.
      * by apply clean_crossed.
      * apply (keys_extends _ _ _ _ He3) in Hpf. rewrite Hpf. cbn [List.concat]. rewrite app_nil_r, fromkeys_app_l, fromkeys_app_r. f_equal.
        destruct (rf_paths rl) as [|p ps]; [done|]. destruct (rf_paths rr) as [|q qs]; [done|]. cbn [hd].
        change (hd [] (cross_paths (p :: ps) (q :: qs))) with (unique_conditions (p ++ q)%list). by rewrite pkeys_unique, fromkeys_idemp.
      * rewrite Hpu. f_equal. change (List.concat [?a; ?b; ?c]) with (a ++ b ++ c ++ [])%list. rewrite app_nil_r, fromkeys_app_l, fromkeys_parts.
        rewrite pkeys_crossed. destruct (rf_paths rl) as [|p ps]; [done|]. cbn [hd]. symmetry.
        apply (fromkeys_crossed (pkeys p) (List.map pkeys ps)). by destruct (rf_paths rr).
      * apply enumerate_crossed; [done|..].
        -- eapply (paths_rel_extends _ _ _ _ He13), L5.
        -- eapply (paths_rel_extends _ _ _ _ He13), R5.
Qed.

Lemma residual_clean res conds : residual_as_conditions res = Some conds -> Forall clean conds.
Proof.
  unfold residual_as_conditions. destruct (is_reach_not_determined (PyDict res)) as [b|]; cbn [mbind option_bind]; [|done].
  pose proof (condition_dicts_clean (py_get "conditions" res)) as Hc. assert (Hb : forall t, clean (business t)) by (repeat constructor).
  destruct b.
  - destruct (dget_or "extra" _) as [x|]; cbn [mbind option_bind]; [|done]. destruct (dget_or "expression" x); cbn [mbind option_bind]; [|done].
    intros [= <-]. apply Forall_app. split; [done|]. by constructor.
  - intros [= <-]. apply Forall_app. split; [done|]. constructor; [|done].
    destruct (py_get "check" res); try (by destruct (py_truthy _)). cbv zeta. destruct (py_truthy (py_get "target_address" d)); [apply Hb|].
    by destruct (py_truthy _).
Qed.

Lemma runs_side s sm r side : state_ok s -> sum_rel s sm r ->
  runs s (with_side_checks sm side) (fun sm' s' => exists r', ref_side r side = Some r' /\ sum_rel s' sm' r' /\ sm_shared sm' = false).
Proof.
  intros Hs Hr. unfold with_side_checks, ref_side. eapply runs_bind; [by apply runs_lift|]. intros conds s1 Hs1 He1 Hc. cbv beta in Hc. rewrite Hc.
  cbn [mbind option_bind].
  assert (Forall clean (List.concat conds)) as Hcl.
  { apply mapM_Some_1 in Hc. clear -Hc. induction Hc as [|x y l k H _ IH]; [constructor|]. cbn. apply Forall_app. split; [|done].
    by eapply residual_clean. }
  eapply runs_bind; [apply (runs_append _ _ r); [done|done|by eapply sum_rel_extends]|]. intros ap s2 Hs2 He2 [A1 A2 A3 A4 A5].
  apply runs_ret; [done|]. eexists. split; [reflexivity|]. split; [|done]. destruct Hr as [R1 R2 R3 R4 R5].
  destruct (List.concat conds) as [|c cs]; (split; cbn [sm_rows sm_residual sm_ond sm_nobody rf_rows rf_residual rf_ond rf_nobody rf_paths];
    [exact A1|by rewrite R2|done|done|exact A5]).
Qed.

Lemma both_not_nobody rl rr both :
  (if negb (rf_valid rl) && negb (rf_valid rr) then Some (MkRef [] [] (rf_residual rl ++ rf_residual rr)%list false false)
   else if negb (rf_valid rr) then ref_side rl (rf_residual rr)
   else if negb (rf_valid rl) then ref_side rr (rf_residual rl)
   else Some (ref_product rl rr)) = Some both -> rf_nobody both = false.
Proof.
  assert (Hside : forall r side b, ref_side r side = Some b -> rf_nobody b = false).
  { intros r side b. unfold ref_side. destruct (mapM _ side) as [conds|]; cbn [mbind option_bind]; [|done].
    intros [= <-]. by destruct (List.concat conds). }
  destruct (rf_valid rl), (rf_valid rr); cbn [negb andb]; try (by apply Hside); by intros [= <-].
Qed.

Lemma runs_and s nr l r rl rr : state_ok s -> not_read_ok s nr -> sum_rel s l rl -> sum_rel s r rr ->
  runs s (and_summary nr l r) (fun sm s' => exists r', ref_and rl rr = Some r' /\ sum_rel s' sm r' /\ sm_shared sm = false).
Proof.
  intros Hs Hn Hl Hr. unfold and_summary, ref_and. eapply runs_bind; [by apply runs_spend|]. intros [] s1 Hs1 He1 _.
  apply (sum_rel_extends _ _ _ _ He1) in Hl, Hr. apply (keys_extends _ _ _ _ He1) in Hn.
  rewrite (valid_rel _ _ _ Hl), (valid_rel _ _ _ Hr), (admits_rel _ _ _ Hl), (admits_rel _ _ _ Hr).
  pose proof Hl as [L1 L2 L3 L4 L5]. pose proof Hr as [R1 R2 R3 R4 R5]. rewrite L2, R2, L3, R3, L4, R4.
  eapply (runs_bind _ _ _ (fun sm s' => exists r',
    (if negb (rf_valid rl) && negb (rf_valid rr) then Some (MkRef [] [] (rf_residual rl ++ rf_residual rr)%list false false)
     else if negb (rf_valid rr) then ref_side rl (rf_residual rr)
     else if negb (rf_valid rl) then ref_side rr (rf_residual rl)
     else Some (ref_product rl rr)) = Some r' /\ sum_rel s' sm r' /\ sm_shared sm = false)).
  { destruct (rf_valid rl), (rf_valid rr); cbn [negb andb].
    - eapply runs_weaken; [by apply (runs_product _ _ _ _ rl rr)|]. intros sm s' _ [H Hsh]. by eexists.
    - by apply runs_side.
    - by apply runs_side.
    - apply runs_ret; [done|]. eexists. split; [reflexivity|]. split; [|done]. apply closed_rel, empty_rows_rel. }
  intros sm s2 Hs2 He2 (both & Eb & [S1 S2 S3 S4 S5] & Hsh). rewrite (both_not_nobody _ _ _ Eb) in S4. rewrite Eb. cbn [mbind option_bind].
  destruct (rf_nobody rl || rf_nobody rr) eqn:En.
  - apply runs_ret; [done|]. eexists. split; [reflexivity|]. split; [|done]. rewrite S2. by apply closed_rel.
  - apply orb_false_iff in En as [-> ->]. apply runs_ret; [done|]. eexists. split; [reflexivity|]. split; [|done].
    split; cbn [set_ond sm_rows sm_residual sm_ond sm_nobody rf_rows rf_residual rf_ond rf_nobody rf_paths negb andb]; done.
Qed.

(** ** Leaves *)

Lemma runs_leaf_acc s row : state_ok s -> row_ok row -> runs s (leaf_acc row) (fun acc s' => acc_rel s' acc [row]).
Proof.
  intros Hs Hok. unfold leaf_acc. eapply runs_bind; [by apply runs_spend|]. intros [] s1 Hs1 He1 _.
  eapply runs_bind; [apply runs_intern; [done|apply row_conds_clean]|]. intros ids s2 Hs2 He2 Hids. cbv beta in Hids.
  eapply runs_bind; [by apply runs_lift|]. intros trace s3 Hs3 He3 Ht. cbv beta in Ht. apply runs_ret; [done|].
  apply (keys_extends _ _ _ _ He3) in Hids. fold (ckeys row) in Hids. pose proof (row_ok_keys _ Hok) as Hnd.
  unfold acc_rel. cbn [acc_row acc_first acc_touched acc_union acc_multi acc_trace acc_has_quality acc_quality].
  split_and!; try done.
  - rewrite Hids. f_equal. by apply fromkeys_NoDup_id.
  - rewrite Hids. f_equal. cbn [List.map List.concat]. by rewrite app_nil_r.
  - cbn [List.map fold_left]. unfold rtrace. by rewrite Ht.
  - cbn [existsb]. unfold rhas. by destruct (assoc_get "membership_quality" (row_details row)).
  - apply Hok.
Qed.

Lemma runs_leaf_fold s rows : forall out rs, state_ok s -> Forall row_ok rows -> rows_rel s out rs ->
  runs s (pfold (fun accs row => acc <- leaf_acc row;; put_acc accs (key_of_row row, acc)) rows out)
    (fun out' s' => rows_rel s' out' (rs ++ rows)%list).
Proof.
  revert s. induction rows as [|row rows IH]; intros s out rs Hs Hok Hr; cbn [pfold].
  - apply runs_ret; [done|]. by rewrite app_nil_r.
  - apply Forall_cons in Hok as [H1 H2].
    eapply runs_bind; [eapply runs_bind; [by apply runs_leaf_acc|]|].
    + intros acc s1 Hs1 He1 Ha. apply (runs_put_acc _ _ rs _ _ [row]); [done|by eapply rows_rel_extends|done|by constructor|by constructor].
    + intros out1 s1 Hs1 He1 Hr1. cbv beta in Hr1. rewrite cons_middle, app_assoc. by apply IH.
Qed.

Lemma runs_leaf_rows s rows : state_ok s -> Forall row_ok rows ->
  runs s (leaf_rows rows) (fun sm s' => sum_rel s' sm (ref_leaf rows []) /\ sm_shared sm = false).
Proof.
  intros Hs Hok. unfold leaf_rows. eapply runs_bind; [apply (runs_leaf_fold _ _ _ []); [done|done|apply empty_rows_rel]|].
  intros accs s1 Hs1 He1 Hr. apply runs_ret; [done|]. split; [|done]. by apply closed_rel.
Qed.

Lemma runs_leaf_path s conds : state_ok s -> Forall clean conds ->
  runs s (leaf_path conds) (fun sm s' => sum_rel s' sm (ref_leaf [] [conds]) /\ sm_shared sm = false).
Proof.
  intros Hs Hc. unfold leaf_path. eapply runs_bind; [by apply runs_intern|]. intros ids s1 Hs1 He1 Hids. cbv beta in Hids.
  apply runs_ret; [done|]. split; [|done]. split; cbn [sm_rows sm_residual sm_ond sm_nobody ref_leaf rf_rows rf_residual rf_ond rf_nobody rf_paths]; try done.
  unfold paths_rel. cbn [sm_count sm_pfirst sm_punion sm_pexpr enumerate_paths List.map List.concat hd List.length]. rewrite app_nil_r.
  split_and!; [done|by constructor|done|done|]. cbn [mapM]. by rewrite Hids.
Qed.

(** The rows a leaf writes are well formed. *)
Lemma row_dict_ok a t o p details conds : assoc_get "conditions" details = None -> Forall clean conds ->
  qual_ok (py_get "membership_quality" details) -> is_Some (iter_or_nil (py_get "trace" details)) ->
  row_ok (row_dict a t o p (details_with_conditions details conds)).
Proof.
  intros Hn Hc Hq Ht.
  assert (forall k, k <> "conditions" -> py_get k (details_with_conditions details conds) = py_get k details) as Hg.
  { intros k Hk. destruct conds; [done|]. unfold details_with_conditions. by rewrite py_get_put, decide_False. }
  split.
  - by eexists.
  - unfold ckeys, row_conds. change (row_details _) with (details_with_conditions details conds).
    assert (py_get "conditions" details = PyNone) as He by (unfold py_get; by rewrite Hn).
    destruct conds as [|c conds]; cbn [details_with_conditions]; [rewrite He; constructor|].
    rewrite py_get_put, decide_True by done. fold (cond_list (unique_conditions (condition_dicts (py_get "conditions" details) ++ c :: conds)%list)).
    rewrite He. change (condition_dicts PyNone ++ c :: conds)%list with (c :: conds).
    rewrite condition_dicts_list by (by apply unique_clean). rewrite unique_keys. apply NoDup_fromkeys_from.
  - unfold rqual. change (row_details _) with (details_with_conditions details conds). by rewrite Hg.
  - change (row_details _) with (details_with_conditions details conds). by rewrite Hg.
Qed.

Definition quality_ok (q : pyval) : bool := match q with PyNone | PyStr _ => true | _ => false end.

Lemma quality_ok_spec q : quality_ok q = true -> qual_ok q.
Proof. destruct q; try done; intros _; [by left|right; by eexists]. Qed.

Lemma Forall_omap_some {A B} (f : A -> option B) (P : B -> Prop) l : (forall x y, f x = Some y -> P y) -> Forall P (omap (M := list) f l).
Proof. intros H. apply Forall_forall. intros y Hy. apply list_elem_of_omap in Hy as (x & _ & E). by eapply H. Qed.

Lemma iterable_or t : is_Some (iter_or_nil t) -> is_Some (iter_or_nil (py_or t (PyList []))).
Proof. unfold iter_or_nil, py_or. destruct (py_truthy t) eqn:E; [by rewrite E|done]. Qed.

Lemma finite_rows_ok d conds rows : rows_for_finite_set d conds = Some rows -> Forall clean conds ->
  qual_ok (py_get "membership_quality" d) -> is_Some (iter_or_nil (py_get "trace" d)) -> Forall row_ok rows.
Proof.
  unfold rows_for_finite_set. destruct (iter_or_nil (py_get "members" d)) as [ms|]; cbn [mbind option_bind]; [|done].
  destruct (authority_basis d) as [basis|]; cbn [mbind option_bind]; [|done]. intros [= <-] Hc Hq Ht.
  apply Forall_omap_some. intros m row. destruct (address_of m); [|done]. intros [= <-]. apply row_dict_ok; [|done|..].
  - unfold finite_set_details. destruct basis as [b|]; [|done]. by case_bool_decide.
  - exact Hq.
  - by apply iterable_or.
Qed.

Lemma threshold_rows_ok d conds lk sg rows : rows_for_threshold_group d conds lk sg = Some rows -> Forall clean conds -> Forall row_ok rows.
Proof.
  unfold rows_for_threshold_group. destruct (py_or (py_get "threshold" d) (PyDict [])) as [| | | | |th]; try (by intros [= <-]).
  destruct (iter_or_nil (py_get "trace" d)) as [tr|]; cbn [mbind option_bind]; [|done]. cbv zeta.
  match goal with |- mbind _ ?o = _ -> _ => destruct o as [a|] end; cbn [mbind option_bind]; [|done]. intros [= <-] Hc.
  constructor; [|done]. apply row_dict_ok; [done|done|by left|by eexists].
Qed.

Lemma witness_rows_ok d conds rows : rows_for_signature_witness d conds = Some rows -> Forall clean conds ->
  (forall signer, py_get "signer" d = PyDict signer -> qual_ok (py_get "membership_quality" signer)) -> Forall row_ok rows.
Proof.
  unfold rows_for_signature_witness. destruct (py_get "signer" d) as [| | | | |signer]; try (by intros [= <-]).
  destruct (negb _); [by intros [= <-]|].
  destruct (iter_or_nil (py_get "members" signer)) as [ms|]; cbn [mbind option_bind]; [|done]. intros [= <-] Hc Hq.
  apply Forall_omap_some. intros m row. destruct (address_of m); [|done]. intros [= <-].
  apply row_dict_ok; [done| |exact (Hq _ eq_refl)|by eexists]. apply Forall_app. split; [done|apply condition_dicts_clean].
Qed.

Lemma denial_clean d c : denylist_condition d = Some c -> clean c.
Proof. unfold denylist_condition. destruct (py_len _); cbn [mbind option_bind]; [|done]. intros [= <-]. repeat constructor. Qed.

(** ** Trees *)

Lemma child_results_map {B} (f : pyval -> B) d : child_results f d = List.map (fun c => (c, f c)) (child_dicts d).
Proof.
  unfold child_results, child_dicts, py_get. induction d as [|[k v] d IH]; [done|].
  cbn [List.map assoc_get fst snd]. destruct (decide ("children" = k)); [|exact IH].
  destruct v as [| | | |l|]; try done. induction l as [|x l IHl]; [done|]. cbn [List.map List.concat List.filter].
  destruct x; cbn [app]; try exact IHl. cbn [List.map]. by f_equal.
Qed.

Lemma cap_ind (P : pyval -> Prop) :
  (forall d, (forall c, c ∈ child_dicts d -> P c) -> P (PyDict d)) -> (forall v, is_dict v = false -> P v) -> forall v, P v.
Proof.
  intros Hd Hn v. enough (P v /\ match v with PyList l => Forall P l | _ => True end) by tauto.
  induction v as [| | | |l IH|d IH] using pyval_deep_ind; (split; [|done || idtac]); try (by apply Hn).
  - eapply Forall_impl; [exact IH|]. by intros ? [].
  - apply Hd. intros c. unfold child_dicts, py_get. destruct (assoc_get "children" d) as [v|] eqn:E; [|by intros ?%not_elem_of_nil].
    apply assoc_get_member in E. apply (proj1 (Forall_forall _ _) IH) in E as [_ E]. cbn [snd] in E. destruct v as [| | | |l|]; try (by intros ?%not_elem_of_nil).
    rewrite list_elem_of_In, List.filter_In, <- list_elem_of_In. intros [Hc _]. by apply (proj1 (Forall_forall _ _) E).
Qed.

Lemma append_unshared s sm raw sm' s' : append_conditions sm raw s = POk sm' s' -> sm_shared sm = false -> sm_shared sm' = false.
Proof.
  unfold append_conditions. destruct raw as [|c raw]; [by intros [= <- <-]|]. intros H _. revert H. unfold pbind at 1.
  destruct (intern _ s) as [ids s1| |]; try done. unfold pbind at 1. destruct (map_rows _ _ s1) as [rows s2| |]; try done.
  destruct (sm_count sm =? 0)%Z; [by intros [= <- <-]|]. unfold pbind at 1. destruct (unique _ s2) as [pf s3| |]; try done.
  unfold pbind. destruct (unique _ s3) as [pu s4| |]; try done. by intros [= <- <-].
Qed.

Lemma runs_append_unshared s sm r conds : state_ok s -> Forall clean conds -> sum_rel s sm r -> sm_shared sm = false ->
  runs s (append_conditions sm conds) (fun sm' s' => sum_rel s' sm' (ref_narrow conds r) /\ sm_shared sm' = false).
Proof.
  intros Hs Hc Hr Hsh a s' E. destruct (runs_append _ _ _ _ Hs Hc Hr a s' E) as (? & ? & ?). split_and!; try done.
  by eapply append_unshared.
Qed.

(** The shapes the resolver serializes: a membership quality is a text or null, a
    trace is iterable, and a connective has a child. *)
Definition leaf_fields_ok (d : dict) : bool :=
  quality_ok (py_get "membership_quality" d) && bool_decide (is_Some (iter_or_nil (py_get "trace" d)))
  && match py_get "signer" d with PyDict s => quality_ok (py_get "membership_quality" s) | _ => true end.

Fixpoint cap_ok (v : pyval) : bool :=
  match v with
  | PyDict d =>
      let children := child_results cap_ok d in
      leaf_fields_ok d && (negb (py_eq_str (py_get "kind" d) "AND" || py_eq_str (py_get "kind" d) "OR") || negb (is_nil children))
      && forallb snd children
  | _ => false
  end.

Section Nodes.
Context (ep : bool) (lk : option (list (string * string))) (sg : option string).

Definition node_spec (nr : Ids) (c : pyval) : Prop := forall s, state_ok s -> not_read_ok s nr ->
  runs s (node ep lk sg nr c) (fun sm s' => exists r, ref_node ep lk sg c = Some r /\ sum_rel s' sm r /\ sm_shared sm = false).

Notation or_fold nr := (pfold (fun acc (child : pyval * PM Summary) => s <- child.2;; or_summary acc s)).
Notation spec_children nr cs := (List.map (fun c => (c, node ep lk sg nr c)) cs).
Notation ref_children cs := (List.map (fun c => (c, ref_node ep lk sg c)) cs).

Lemma runs_or_fold nr cs : Forall (node_spec nr) cs -> forall s acc racc,
  state_ok s -> not_read_ok s nr -> sum_rel s acc racc -> sm_shared acc = false ->
  runs s (or_fold nr (spec_children nr cs) acc)
    (fun sm s' => exists r b, foldM ref_or_step (ref_children cs) (racc, false) = Some (r, b) /\ sum_rel s' sm r /\ sm_shared sm = false).
Proof.
  induction 1 as [|c cs Hc _ IH]; intros s acc racc Hs Hn Ha Hsh; cbn [List.map pfold foldM].
  - apply runs_ret; [done|]. by exists racc, false.
  - eapply runs_bind; [eapply runs_bind; [by apply Hc|]|].
    + intros sm s1 Hs1 He1 (r & Er & Hr & Hshr). eapply runs_weaken; [apply (runs_or _ _ _ racc r); [done|done|by eapply sum_rel_extends|done]|].
      intros sm' s' _ H. exact (ex_intro (fun r => ref_node ep lk sg c = Some r /\ sum_rel s' sm' (ref_or racc r) /\ sm_shared sm' = false) r (conj Er H)).
    + intros sm s1 Hs1 He1 (r & Er & Hr & Hshr). unfold ref_or_step at 1. cbn [snd]. rewrite Er. cbn [mbind option_bind snd fst].
      apply IH; [done|by eapply keys_extends|done|done].
Qed.

Lemma runs_or_all nr c cs : node_spec nr c -> Forall (node_spec nr) cs -> forall s, state_ok s -> not_read_ok s nr ->
  runs s (or_fold nr (spec_children nr (c :: cs)) EMPTY_SUMMARY)
    (fun sm s' => exists r b, foldM ref_or_step (ref_children (c :: cs)) (ref_empty, true) = Some (r, b) /\ sum_rel s' sm r /\ sm_shared sm = false).
Proof.
  intros Hc Hcs s Hs Hn. cbn [List.map pfold foldM]. eapply runs_bind; [eapply runs_bind; [by apply Hc|]|].
  - intros sm s1 Hs1 He1 H. apply (runs_ret _ sm (fun sm s1 => exists r, ref_node ep lk sg c = Some r /\ sum_rel s1 sm r /\ sm_shared sm = false)); [done|exact H].
  - intros sm s1 Hs1 He1 (r & Er & Hr & Hsh). unfold ref_or_step at 1. cbn [snd]. rewrite Er. cbn [mbind option_bind snd fst].
    apply runs_or_fold; [done|done|by eapply keys_extends|done|done].
Qed.

Lemma runs_and_step nr c s acc racc b : node_spec nr c -> state_ok s -> not_read_ok s nr -> sum_rel s acc racc ->
  runs s (and_step ep nr (acc, b) (c, node ep lk sg nr c))
    (fun sb s' => exists r, ref_and_step ep (racc, b) (c, ref_node ep lk sg c) = Some (r, sb.2) /\ sum_rel s' sb.1 r /\ sm_shared sb.1 = false).
Proof.
  intros Hc Hs Hn Ha. unfold and_step, ref_and_step. cbn [fst snd].
  eapply runs_bind; [by apply Hc|]. intros sm s1 Hs1 He1 (r & Er & Hr & Hsh). rewrite Er. cbn [mbind option_bind]. rewrite (valid_rel _ _ _ Hr).
  eapply (runs_bind _ _ _ (fun bl _ => (if ep && negb (rf_valid r) then is_root_authority_blocker c else Some false) = Some bl)).
  { destruct (ep && negb (rf_valid r)); [by apply runs_lift|by apply runs_ret]. }
  intros bl s2 Hs2 He2 Eb. cbv beta in Eb. rewrite Eb. cbn [mbind option_bind].
  assert (extends s s2) as He by (by etrans).
  eapply runs_bind; [apply (runs_and _ _ _ _ racc r); [done|exact (keys_extends _ _ _ _ He Hn)|exact (sum_rel_extends _ _ _ _ He Ha)|exact (sum_rel_extends _ _ _ _ He2 Hr)]|].
  intros sm3 s3 Hs3 He3 (r3 & E3 & H3 & Hsh3). rewrite E3. cbn [mbind option_bind]. apply runs_ret; [done|]. by exists r3.
Qed.

Lemma runs_and_fold nr cs : Forall (node_spec nr) cs -> forall s acc racc b,
  state_ok s -> not_read_ok s nr -> sum_rel s acc racc ->
  runs s (pfold (and_step ep nr) (spec_children nr cs) (acc, b))
    (fun sb s' => exists r, foldM (ref_and_step ep) (ref_children cs) (racc, b) = Some (r, sb.2) /\ sum_rel s' sb.1 r
                  /\ (cs <> [] \/ sm_shared acc = false -> sm_shared sb.1 = false)).
Proof.
  induction 1 as [|c cs Hc _ IH]; intros s acc racc b Hs Hn Ha; cbn [List.map pfold foldM].
  - apply runs_ret; [done|]. exists racc. split_and!; [done|done|]. by intros [|].
  - eapply runs_bind; [by apply runs_and_step|]. intros [sm b1] s1 Hs1 He1 (r & Er & Hr & Hsh). cbn [fst snd] in *.
    rewrite Er. cbn [mbind option_bind]. eapply runs_weaken; [apply (IH s1 sm r b1); [done|by eapply keys_extends|done]|].
    intros sb s' _ (r' & E' & Hr' & Hsh'). exists r'. split_and!; [done|done|]. intros _. apply Hsh'. by right.
Qed.

Lemma empty_rel s : sum_rel s EMPTY_SUMMARY ref_empty.
Proof. by split. Qed.

Lemma set_nobody_rel s sm rows b : sum_rel s sm (ref_leaf rows []) -> sum_rel s (set_nobody b sm) (MkRef rows [] [] false b).
Proof. intros [H1 H2 H3 H4 H5]. by split. Qed.

Lemma close_rel s sm r (b : bool) : sum_rel s sm r ->
  sum_rel s (if b && negb (sm_count sm =? 0)%Z then closed_summary (sm_rows sm) (sm_residual sm) (sm_ond sm) (sm_nobody sm) else sm)
    (if b then MkRef (rf_rows r) [] (rf_residual r) (rf_ond r) (rf_nobody r) else r).
Proof.
  intros Hr. destruct b; [|done]. pose proof Hr as [H1 H2 H3 H4 H5]. rewrite (count_zero _ _ _ H5). cbn [andb].
  destruct (rf_paths r) eqn:E; cbn [is_nil negb]; [by split|]. rewrite H2, H3, H4. by apply closed_rel.
Qed.

Lemma cap_ok_dict d : cap_ok (PyDict d) = true ->
  leaf_fields_ok d = true /\ (py_eq_str (py_get "kind" d) "AND" = true \/ py_eq_str (py_get "kind" d) "OR" = true -> child_dicts d <> [])
  /\ forall c, c ∈ child_dicts d -> cap_ok c = true.
Proof.
  cbn [cap_ok]. rewrite child_results_map. intros [[H1 H2]%andb_true_iff H3]%andb_true_iff. split_and!; [done|..].
  - intros Hk E. rewrite E in H2. cbn [List.map is_nil negb] in H2. rewrite orb_false_r in H2. apply negb_true_iff, orb_false_iff in H2 as [A B].
    destruct Hk; congruence.
  - rewrite forallb_forall in H3. intros c Hc. apply (H3 (c, cap_ok c)), in_map_iff. exists c. by rewrite list_elem_of_In in Hc.
Qed.

Lemma runs_leaf s d : leaf_fields_ok d = true -> state_ok s ->
  py_eq_str (py_get "kind" d) "finite_set" || py_eq_str (py_get "kind" d) "threshold_group" || py_eq_str (py_get "kind" d) "signature_witness" = true ->
  forall rows, (if py_eq_str (py_get "kind" d) "finite_set" then rows_for_finite_set d (condition_dicts (py_get "conditions" d))
     else if py_eq_str (py_get "kind" d) "threshold_group" then rows_for_threshold_group d (condition_dicts (py_get "conditions" d)) lk sg
     else rows_for_signature_witness d (condition_dicts (py_get "conditions" d))) = Some rows ->
  runs s (leaf_rows rows) (fun sm s' => sum_rel s' sm (ref_leaf rows []) /\ sm_shared sm = false).
Proof.
  intros [[Hq Ht]%andb_true_iff Hsg]%andb_true_iff Hs Hk rows E. apply quality_ok_spec in Hq. apply bool_decide_eq_true in Ht.
  pose proof (condition_dicts_clean (py_get "conditions" d)) as Hc. apply runs_leaf_rows; [done|].
  destruct (py_eq_str (py_get "kind" d) "finite_set"); [by eapply finite_rows_ok|].
  destruct (py_eq_str (py_get "kind" d) "threshold_group"); [by eapply threshold_rows_ok|].
  eapply witness_rows_ok; [done|done|]. intros signer Es. rewrite Es in Hsg. by apply quality_ok_spec.
Qed.

Lemma runs_node nr v : cap_ok v = true -> node_spec nr v.
Proof.
  induction v as [d IH|v Hv] using cap_ind; [|by destruct v]. intros Hok. apply cap_ok_dict in Hok as (Hl & Hne & Hch).
  assert (Forall (node_spec nr) (child_dicts d)) as Hcs by (apply Forall_forall; auto). clear IH Hch.
  intros s Hs Hn. cbn [node ref_node]. rewrite !child_results_map.
  eapply runs_bind; [by apply runs_spend|]. intros [] s1 Hs1 He1 _. apply (keys_extends _ _ _ _ He1) in Hn. cbv zeta.
  eapply runs_bind; [by apply runs_lift|]. intros reach s2 Hs2 He2 Hre. cbv beta in Hre. rewrite Hre. cbn [mbind option_bind].
  apply (keys_extends _ _ _ _ He2) in Hn. pose proof (condition_dicts_clean (py_get "conditions" d)) as Hc.
  destruct reach; [apply runs_ret; [done|]; eexists; split_and!; [done|by apply closed_rel|done]|].
  destruct (py_eq_str (py_get "kind" d) "finite_set") eqn:K1.
  { eapply runs_bind; [by apply runs_lift|]. intros rows s3 Hs3 He3 Er. cbv beta in Er.
    eapply runs_bind; [eapply (runs_leaf s3 d Hl Hs3); rewrite K1; [done|exact Er]|]. intros sm s4 Hs4 He4 [Hr Hsh].
    eapply runs_bind; [by apply runs_lift|]. intros nb s5 Hs5 He5 En. cbv beta in En. apply runs_ret; [done|].
    rewrite Er, En. cbn [mbind option_bind]. eexists. split_and!; [done| |done]. eapply set_nobody_rel, sum_rel_extends, Hr. done. }
  destruct (py_eq_str (py_get "kind" d) "threshold_group") eqn:K2.
  { eapply runs_bind; [by apply runs_lift|]. intros rows s3 Hs3 He3 Er. cbv beta in Er. rewrite Er. cbn [mbind option_bind].
    eapply runs_weaken; [eapply (runs_leaf s3 d Hl Hs3); rewrite K1, K2; [done|exact Er]|]. intros sm s4 _ [Hr Hsh]. by eexists. }
  destruct (py_eq_str (py_get "kind" d) "signature_witness") eqn:K3.
  { eapply runs_bind; [by apply runs_lift|]. intros rows s3 Hs3 He3 Er. cbv beta in Er. rewrite Er. cbn [mbind option_bind].
    eapply runs_weaken; [eapply (runs_leaf s3 d Hl Hs3); rewrite K1, K2, ?K3; [done|exact Er]|]. intros sm s4 _ [Hr Hsh]. by eexists. }
  clear K1 K2 K3. destruct (py_eq_str (py_get "kind" d) "conditional_universal").
  { eapply runs_weaken; [by apply runs_leaf_path|]. intros sm s4 _ [Hr Hsh]. by eexists. }
  destruct (py_eq_str (py_get "kind" d) "OR").
  { destruct (child_dicts d) as [|c cs] eqn:Ec; [by destruct (Hne (or_intror eq_refl))|]. apply Forall_cons in Hcs as [H1 H2].
    eapply runs_bind; [by apply runs_or_all|]. intros sm s3 Hs3 He3 (r & b & Er & Hr & Hsh). rewrite Er. cbn [mbind option_bind].
    eapply runs_weaken; [by apply runs_append_unshared|]. intros sm' s4 _ [Hr' Hsh']. by eexists. }
  destruct (py_eq_str (py_get "kind" d) "AND").
  { eapply runs_bind; [apply runs_and_fold; [done|done|done|apply empty_rel]|]. intros [sm b] s3 Hs3 He3 (r & Er & Hr & Hsh). cbn [fst snd] in *.
    rewrite Er. cbn [mbind option_bind]. specialize (Hsh (or_introl (Hne (or_introl eq_refl)))).
    eapply runs_bind; [by apply runs_append_unshared|]. intros sm' s4 Hs4 He4 [Hr' Hsh']. apply runs_ret; [done|].
    eexists. split_and!; [done|by apply close_rel|]. by destruct (b && _). }
  destruct (py_eq_str (py_get "kind" d) "cofinite_blacklist").
  { eapply runs_bind; [by apply runs_lift|]. intros den s3 Hs3 He3 Er. cbv beta in Er. rewrite Er. cbn [mbind option_bind].
    eapply runs_weaken; [apply runs_leaf_path; [done|apply Forall_app; split; [done|]; constructor; [by eapply denial_clean|done]]|].
    intros sm s4 _ [Hr Hsh]. by eexists. }
  apply runs_ret; [done|]. eexists. split_and!; [done|by apply closed_rel|done].
Qed.

End Nodes.

(** ** The merged rows *)

Definition merged_trace (r : dict) (rest : list dict) : list pyval := fold_left merge_trace (List.map rtrace rest) (rtrace r).

Definition trace_field (r : dict) (rest : list dict) : option pyval :=
  if is_nil rest || is_nil (merged_trace r rest) then assoc_get "trace" (row_details r) else Some (PyList (merged_trace r rest)).

Definition qual_field (r : dict) (rest : list dict) : option pyval :=
  if existsb rhas (r :: rest) then Some (fold_left qm (List.map rqual rest) (rqual r)) else None.

(** The row [d] is [r] with the copies [rest] merged into it. *)
Record merged_row (d r : dict) (rest : list dict) : Prop := {
  mr_base : forall k, k <> "details" -> assoc_get k d = assoc_get k r;
  mr_details : forall k, k <> "conditions" -> k <> "trace" -> k <> "membership_quality" ->
    assoc_get k (row_details d) = assoc_get k (row_details r);
  mr_keys : ckeys d = fromkeys (List.concat (List.map ckeys (r :: rest)));
  mr_trace : assoc_get "trace" (row_details d) = trace_field r rest;
  mr_qual : assoc_get "membership_quality" (row_details d) = qual_field r rest
}.

Lemma merged_row_same d d' r rest : merged_row d r rest -> merged_row d' r rest -> same_base d d' /\ ckeys d = ckeys d'.
Proof.
  intros [A1 A2 A3 A4 A5] [B1 B2 B3 B4 B5]. split; [split|congruence].
  - intros k Hk. by rewrite A1, B1.
  - intros k Hk. destruct (decide (k = "trace")) as [->|]; [congruence|]. destruct (decide (k = "membership_quality")) as [->|]; [congruence|].
    by rewrite A2, B2.
Qed.

Lemma qual_field_single r : qual_field r [] = assoc_get "membership_quality" (row_details r).
Proof.
  unfold qual_field, rhas, rqual, py_get. cbn [existsb List.map fold_left].
  destruct (assoc_get "membership_quality" (row_details r)); [by rewrite bool_decide_eq_true_2 by (by eexists)|].
  by rewrite bool_decide_eq_false_2 by (by intros []).
Qed.

Lemma merged_row_single r : row_ok r -> merged_row r r [].
Proof.
  intros H. split; try done.
  - cbn [List.map List.concat]. rewrite app_nil_r. symmetry. apply fromkeys_NoDup_id, H.
  - by rewrite qual_field_single.
Qed.

Lemma deref_keys s ids ks : keys_of s ids = Some ks -> List.map cond_key (deref (p_table s) ids) = ks.
Proof.
  unfold keys_of, deref. intros H%mapM_Some. induction H as [|i k ids ks H _ IH]; [done|].
  unfold id_key in H. destruct (p_table s !! i) as [c|] eqn:E; [|done]. injection H as <-.
  change (omap _ (i :: ids)) with (match p_table s !! i with Some c => c :: omap (M := list) (fun i => p_table s !! i) ids | None => omap (M := list) (fun i => p_table s !! i) ids end).
  rewrite E. cbn [List.map]. by f_equal.
Qed.

Lemma deref_clean s ids : state_ok s -> Forall clean (deref (p_table s) ids).
Proof.
  intros Hs. apply Forall_omap_some. intros i c Hc. destruct Hs as (? & ? & H). by eapply Forall_lookup_1.
Qed.

Lemma ckeys_of_details d conds : py_get "conditions" (row_details d) = cond_list conds -> Forall clean conds -> ckeys d = List.map cond_key conds.
Proof. intros E Hc. unfold ckeys, row_conds. by rewrite E, condition_dicts_list. Qed.

Lemma materialize_base table acc k : k <> "details" -> assoc_get k (materialize table acc) = assoc_get k (acc_row acc).
Proof. intros Hk. unfold materialize. cbv zeta. by rewrite assoc_put, decide_False. Qed.

Lemma materialize_merged s acc r rest : state_ok s -> row_ok r -> acc_rel s acc (r :: rest) -> merged_row (materialize (p_table s) acc) r rest.
Proof.
  intros Hs Hok ((Hb1 & Hb2) & Hr & H1 & Ht & H2 & H3 & H4 & H5 & H6 & _).
  assert (fromkeys (List.concat (List.map ckeys [r])) = ckeys r) as Hone.
  { cbn [List.map List.concat]. rewrite app_nil_r. apply fromkeys_NoDup_id, Hok. }
  split.
  - intros k Hk. by rewrite materialize_base, Hb1.
  - intros k K1 K2 K3. unfold materialize. rewrite details_put. cbv zeta. rewrite <- Hb2 by done.
    destruct (acc_multi acc); [|destruct (acc_touched acc); [by rewrite assoc_put, decide_False|done]].
    destruct (acc_has_quality acc), (acc_trace acc); by rewrite !assoc_put, !decide_False.
  - assert (forall ids ks, keys_of s ids = Some ks -> py_get "conditions" (row_details (materialize (p_table s) acc)) = cond_list (deref (p_table s) ids) ->
      ckeys (materialize (p_table s) acc) = ks) as Hput.
    { intros ids ks Hk E. rewrite (ckeys_of_details _ _ E) by (by apply deref_clean). by apply deref_keys. }
    destruct rest as [|r2 rest]; cbn [is_nil negb] in H3.
    + rewrite Hone. destruct (acc_touched acc) eqn:Et.
      * apply (Hput (acc_first acc)); [done|]. unfold materialize. rewrite details_put, H3, Et. by rewrite py_get_put.
      * rewrite <- (Ht eq_refl). unfold ckeys, row_conds, materialize. by rewrite details_put, H3, Et.
    + apply (Hput (acc_union acc)); [done|]. unfold materialize. rewrite details_put, H3. unfold py_get.
      destruct (acc_has_quality acc), (acc_trace acc); by rewrite !assoc_put.
  - unfold materialize, trace_field. rewrite details_put, H3, <- (Hb2 "trace") by done. cbv zeta. destruct rest as [|r2 rest]; cbn [is_nil negb].
    + destruct (acc_touched acc); [by rewrite assoc_put|done].
    + unfold merged_trace. rewrite <- H4. destruct (acc_has_quality acc), (acc_trace acc); by rewrite !assoc_put.
  - unfold materialize, qual_field. rewrite details_put, H3, <- H5, <- H6. cbv zeta. destruct rest; cbn [is_nil negb].
    + assert (assoc_get "membership_quality" (row_details (acc_row acc)) = if acc_has_quality acc then Some (acc_quality acc) else None) as E.
      { rewrite H5, H6, Hb2 by done. symmetry. apply qual_field_single. }
      destruct (acc_touched acc); [by rewrite assoc_put|done].
    + assert (acc_has_quality acc = false -> assoc_get "membership_quality" (row_details (acc_row acc)) = None) as E.
      { rewrite H5, Hb2 by done. unfold rhas. cbn [existsb]. intros [E _]%orb_false_iff. apply bool_decide_eq_false in E. by apply eq_None_not_Some. }
      destruct (acc_has_quality acc), (acc_trace acc); rewrite !assoc_put; cbn; auto.
Qed.

Lemma fold_trace_nil ts t : fold_left merge_trace ts t = [] -> t = [].
Proof.
  revert t. induction ts as [|u ts IH]; intros t; [done|]. cbn [fold_left]. intros H%IH.
  destruct t as [|x t]; [done|]. assert (in_trace x (merge_trace (x :: t) u) = true) as Hx; [|by rewrite H in Hx].
  apply merge_trace_mono, in_trace_self. by left.
Qed.

Lemma iter_list l : iter_or_nil (PyList l) = Some l.
Proof. by destruct l. Qed.

(** What a merged row is read back as. *)
Lemma merged_row_trace d r rest : row_ok r -> merged_row d r rest ->
  iter_or_nil (py_get "trace" (row_details d)) = Some (merged_trace r rest).
Proof.
  intros Hok [_ _ _ Ht _]. unfold py_get at 1. rewrite Ht. unfold trace_field.
  assert (iter_or_nil (py_get "trace" (row_details r)) = Some (rtrace r)) as Hr.
  { unfold rtrace. by destruct (row_ok_trace _ Hok) as [t ->]. }
  destruct rest as [|r2 rest]; [exact Hr|]. cbn [is_nil orb]. destruct (merged_trace _ _) eqn:E; [|exact (iter_list _)].
  rewrite (fold_trace_nil _ _ E) in Hr. exact Hr.
Qed.

Lemma fold_none rest : existsb rhas rest = false -> fold_left qm (List.map rqual rest) PyNone = PyNone.
Proof. intros _. induction rest as [|r rest IH]; [done|]. cbn [List.map fold_left]. by rewrite qm_none_l. Qed.

Lemma merged_row_qual d r rest : merged_row d r rest ->
  rqual d = fold_left qm (List.map rqual rest) (rqual r) /\ rhas d = existsb rhas (r :: rest).
Proof.
  intros [_ _ _ _ Hq]. unfold rqual at 1, rhas at 1, py_get. rewrite Hq. unfold qual_field. destruct (existsb rhas (r :: rest)) eqn:E.
  - split; [done|]. by rewrite bool_decide_eq_true_2 by (by eexists).
  - cbn [existsb] in E. apply orb_false_iff in E as [E1 E2]. unfold rhas in E1. apply bool_decide_eq_false, eq_None_not_Some in E1. split.
    + unfold rqual at 2, py_get. by rewrite E1, fold_none.
    + by rewrite bool_decide_eq_false_2 by (by intros []).
Qed.

Lemma fold_qm_ok rest : forall q, qual_ok q -> Forall row_ok rest -> qual_ok (fold_left qm (List.map rqual rest) q).
Proof.
  induction rest as [|r rest IH]; intros q Hq H; [done|]. apply Forall_cons in H as [H1 H2]. cbn [List.map fold_left].
  apply IH; [|done]. apply qm_ok; [done|apply H1].
Qed.

Lemma has_field d : rhas d = match assoc_get "membership_quality" (row_details d) with Some _ => true | None => false end.
Proof.
  unfold rhas. destruct (assoc_get _ _); [by rewrite bool_decide_eq_true_2 by (by eexists)|]. by rewrite bool_decide_eq_false_2 by (by intros []).
Qed.

Lemma merge_row_unfold d x t u : qual_ok (rqual d) -> qual_ok (rqual x) ->
  iter_or_nil (py_get "trace" (row_details d)) = Some t -> iter_or_nil (py_get "trace" (row_details x)) = Some u ->
  merge_row d x = Some (
    let d1 := odict_put "conditions" (cond_list (unique_conditions (row_conds d ++ row_conds x)%list)) (row_details d) in
    let d2 := match merge_trace t u with [] => d1 | m => odict_put "trace" (PyList m) d1 end in
    let d3 := if rhas d || rhas x then odict_put "membership_quality" (qm (rqual d) (rqual x)) d2 else d2 in
    odict_put "details" (PyDict d3) d).
Proof.
  intros Hd Hx Et Eu. unfold merge_row. rewrite Et, Eu. cbn [mbind option_bind]. cbv zeta. fold (rqual d) (rqual x).
  rewrite (merged_qm _ _ Hd Hx), !has_field.
  destruct (assoc_get "membership_quality" (row_details d)), (assoc_get "membership_quality" (row_details x)), (merge_trace t u); reflexivity.
Qed.

Lemma fold_left_snoc {A B} (f : A -> B -> A) l x a : fold_left f (l ++ [x])%list a = f (fold_left f l a) x.
Proof. by rewrite fold_left_app. Qed.

Lemma merge_row_merged d r rest x : row_ok r -> Forall row_ok rest -> row_ok x -> merged_row d r rest ->
  exists d', merge_row d x = Some d' /\ merged_row d' r (rest ++ [x])%list.
Proof.
  intros Hr Hrest Hx Hm. pose proof (merged_row_trace _ _ _ Hr Hm) as Ht. pose proof (merged_row_qual _ _ _ Hm) as [Hq Hh].
  pose proof Hm as [M1 M2 M3 M4 M5]. set (t := merged_trace r rest) in *.
  assert (qual_ok (rqual d)) as Hqd by (rewrite Hq; apply fold_qm_ok; [apply Hr|done]).
  assert (iter_or_nil (py_get "trace" (row_details x)) = Some (rtrace x)) as Hu by (unfold rtrace; by destruct (row_ok_trace _ Hx) as [u ->]).
  eexists. split; [by apply (merge_row_unfold _ _ _ _ Hqd (row_ok_qual _ Hx) Ht Hu)|]. cbv zeta.
  set (cs := unique_conditions _). assert (Forall clean cs) as Hcs by (apply Forall_clean_unique; apply row_conds_clean).
  split.
  - intros k Hk. by rewrite assoc_put, decide_False, M1.
  - intros k K1 K2 K3. rewrite details_put, <- M2 by done.
    destruct (rhas d || rhas x), (merge_trace t (rtrace x)); by rewrite !assoc_put, !decide_False.
  - rewrite (ckeys_of_details _ cs); [|rewrite details_put; unfold py_get; by destruct (rhas d || rhas x), (merge_trace t (rtrace x)); rewrite !assoc_put|done].
    unfold cs. rewrite unique_keys, List.map_app. fold (ckeys d) (ckeys x). rewrite M3, fromkeys_app_l. f_equal.
    rewrite app_comm_cons, List.map_app, List.concat_app. cbn [List.map List.concat]. by rewrite app_nil_r.
  - rewrite details_put. unfold trace_field.
    assert (merged_trace r (rest ++ [x])%list = merge_trace t (rtrace x)) as ->.
    { unfold merged_trace. rewrite List.map_app. cbn [List.map]. by rewrite fold_left_snoc. }
    assert (is_nil (rest ++ [x])%list = false) as -> by (by destruct rest). cbn [orb].
    destruct (merge_trace t (rtrace x)) eqn:Em.
    + assert (t = []) as E by (apply (fold_trace_nil [rtrace x]); exact Em).
      transitivity (assoc_get "trace" (row_details d)); [by destruct (rhas d || rhas x); rewrite !assoc_put|]. rewrite M4. unfold trace_field.
      fold t. rewrite E. cbn [is_nil]. by rewrite orb_true_r.
    + by destruct (rhas d || rhas x); rewrite !assoc_put.
  - rewrite details_put. unfold qual_field. rewrite app_comm_cons, existsb_app. cbn [existsb]. rewrite orb_false_r.
    change (rhas r || existsb rhas rest) with (existsb rhas (r :: rest)). rewrite <- Hh, List.map_app. cbn [List.map]. rewrite fold_left_snoc, <- Hq.
    destruct (rhas d || rhas x) eqn:E; [by rewrite assoc_put|]. apply orb_false_iff in E as [E _]. rewrite has_field in E.
    transitivity (assoc_get "membership_quality" (row_details d)); [by destruct (merge_trace t (rtrace x)); rewrite !assoc_put|].
    by destruct (assoc_get "membership_quality" (row_details d)).
Qed.

(** ** Deduplication *)

Definition dedupe_rel (out : list (row_key * dict)) (rs : list dict) : Prop :=
  out.*1 = fromkeys (List.map key_of_row rs) /\
  Forall (fun kd => exists r rest, copies kd.1 rs = r :: rest /\ merged_row kd.2 r rest) out.

Lemma copies_snoc k rs x : copies k (rs ++ [x])%list = (copies k rs ++ (if bool_decide (key_of_row x = k) then [x] else []))%list.
Proof. rewrite copies_app, (copies_cons k x []). by case_bool_decide. Qed.

Lemma keys_snoc rs x : fromkeys (List.map key_of_row (rs ++ [x])%list)
  = let ks := fromkeys (List.map key_of_row rs) in if decide (key_of_row x ∈ ks) then ks else (ks ++ [key_of_row x])%list.
Proof.
  cbv zeta. rewrite List.map_app. cbn [List.map]. rewrite (fromkeys_repeat _ _ (key_of_row x)) by (by repeat constructor).
  destruct (decide (key_of_row x ∈ List.map key_of_row rs)), (decide (key_of_row x ∈ fromkeys (List.map key_of_row rs))); try done;
    by rewrite elem_of_fromkeys in *.
Qed.

Lemma dedupe_put out rs x d r rest : dedupe_rel out rs -> copies (key_of_row x) (rs ++ [x])%list = r :: rest -> merged_row d r rest ->
  dedupe_rel (odict_put (key_of_row x) d out) (rs ++ [x])%list.
Proof.
  intros (Hk & Hf) Hc Hm. assert (NoDup out.*1) as Hnd by (rewrite Hk; apply NoDup_fromkeys_from). split.
  - by rewrite odict_put_keys, keys_snoc, Hk.
  - apply Forall_forall. intros kd Hkd. destruct (odict_put_elem _ _ _ _ Hnd Hkd) as [->|[Hne Hkd']]; [by exists r, rest|].
    pose proof (proj1 (Forall_forall _ _) Hf _ Hkd') as (r1 & rest1 & E1 & Hm1). exists r1, rest1. split; [|done].
    rewrite copies_snoc, bool_decide_eq_false_2 by congruence. by rewrite app_nil_r.
Qed.

Lemma dedupe_step_rel out rs x : Forall row_ok rs -> row_ok x -> dedupe_rel out rs ->
  exists out', dedupe_step out x = Some out' /\ dedupe_rel out' (rs ++ [x])%list.
Proof.
  intros Hrs Hx Hd. pose proof Hd as (Hk & Hf). unfold dedupe_step.
  assert (copies (key_of_row x) (rs ++ [x])%list = (copies (key_of_row x) rs ++ [x])%list) as Hc.
  { by rewrite copies_snoc, bool_decide_eq_true_2 by done. }
  destruct (odict_get (key_of_row x) out) as [d|] eqn:E.
  - apply odict_get_elem in E. pose proof (proj1 (Forall_forall _ _) Hf _ E) as (r & rest & Ec & Hm). cbn [fst snd] in Ec, Hm.
    pose proof (copies_ok (key_of_row x) rs Hrs) as Hok. rewrite Ec in Hok. apply Forall_cons in Hok as [Hr Hrest].
    destruct (merge_row_merged d r rest x) as (d' & -> & Hm'); [done..|]. cbn [mbind option_bind]. eexists. split; [done|].
    eapply dedupe_put; [done|by rewrite Hc, Ec|done].
  - apply odict_get_none in E. eexists. split; [done|]. apply (dedupe_put _ _ _ _ x []); [done| |by apply merged_row_single].
    rewrite Hc. destruct (copies (key_of_row x) rs) as [|r rest] eqn:Ec; [done|]. exfalso. apply E. rewrite Hk. apply elem_of_fromkeys, elem_of_copies.
    by rewrite Ec.
Qed.

Lemma dedupe_fold rows : forall out rs, Forall row_ok rs -> Forall row_ok rows -> dedupe_rel out rs ->
  exists out', foldM dedupe_step rows out = Some out' /\ dedupe_rel out' (rs ++ rows)%list.
Proof.
  induction rows as [|x rows IH]; intros out rs Hrs Hr Hd; cbn [foldM].
  - exists out. by rewrite app_nil_r.
  - apply Forall_cons in Hr as [H1 H2]. destruct (dedupe_step_rel out rs x) as (out1 & -> & Hd1); [done..|]. cbn [mbind option_bind].
    rewrite cons_middle, app_assoc. apply IH; [|done|done]. apply Forall_app. split; [done|by constructor].
Qed.

(** Rows and paths are told apart by everything but the order of a condition's keys. *)
Definition same_row (r r' : dict) : Prop := same_base r r' /\ ckeys r = ckeys r'.
Definition same_conditions (p q : list dict) : Prop := List.map cond_key p = List.map cond_key q.

Lemma materialize_dedupe s rows rs : state_ok s -> rows_rel s rows rs ->
  exists out, ref_dedupe rs = Some out /\ Forall2 same_row (List.map (fun ka => materialize (p_table s) ka.2) rows) out.
Proof.
  intros Hs (Hk & Hf & Hok). destruct (dedupe_fold rs [] [] (Forall_nil_2 _) Hok) as (out & E & Ho & Hm); [by split|]. cbn [app] in Ho, Hm.
  unfold ref_dedupe. rewrite E. cbn [mbind option_bind]. eexists. split; [done|]. rewrite <- Hk in Ho. clear E Hk. revert out Ho Hm.
  induction rows as [|[k acc] rows IH]; intros [|[k' d] out] Ho Hm; try done. cbn in Ho. injection Ho as -> Ho.
  apply Forall_cons in Hf as [Ha Hf], Hm as [(r & rest & Ec & Hmd) Hm]. cbn [fst snd] in *. cbn [List.map fmap list_fmap].
  constructor; [|by apply IH]. rewrite Ec in Ha. pose proof (copies_ok k rs Hok) as Hc. rewrite Ec in Hc. apply Forall_cons in Hc as [Hr _].
  eapply merged_row_same; [by apply materialize_merged|done].
Qed.

Lemma initial_ok : state_ok initial_state.
Proof. split_and!; [done|constructor|constructor]. Qed.

Lemma runs_project ep lk sg cap : cap_ok cap = true ->
  runs initial_state (project_node ep lk sg cap) (fun sm s => exists r, ref_node ep lk sg cap = Some r /\ sum_rel s sm r).
Proof.
  intros Hc. unfold project_node. eapply runs_bind; [apply runs_intern; [apply initial_ok|apply clean_not_read]|]. intros nr s Hs _ Hn.
  eapply runs_weaken; [by apply runs_node|]. intros sm s' _ (r & Er & Hr & _). by exists r.
Qed.

Lemma path_list_keys s e paths : mapM (keys_of s) (enumerate_paths e) = Some (List.map (fun p => fromkeys (pkeys p)) paths) -> forall n,
  Forall2 same_conditions (List.map (deref (p_table s)) (take n (enumerate_paths e))) (take n (List.map unique_conditions paths)).
Proof.
  intros H%enumerated_forall2. induction H as [|ids p idss paths Hp _ IH]; intros [|n]; [constructor..|]. cbn [take List.map].
  constructor; [|apply IH]. unfold same_conditions. by rewrite (deref_keys _ _ _ Hp), unique_keys.
Qed.

Lemma same_rows_conditions rows rows' : Forall2 same_row rows rows' ->
  List.map cond_key (List.concat (List.map row_conds rows)) = List.map cond_key (List.concat (List.map row_conds rows')).
Proof. induction 1 as [|r r' rows rows' [_ H] _ IH]; [done|]. cbn [List.map List.concat]. rewrite !List.map_app. by f_equal. Qed.

(** The conditions the expansion shows: its rows' and its paths', once each. *)
Definition reference_conditions (r : RefSurface) : list dict :=
  unique_conditions (List.concat (List.map row_conds (rf_rows r)) ++ List.concat (rf_paths r))%list.

(** C9: the projection is the expansion.  On every well-shaped capability, a
    projection that ends within its work budget has the rows of the reference
    expansion of the tree (every AND multiplied out, every OR concatenated, copies
    of a row merged at the end), in the same order, field for field, with the same
    conditions in the same order; its path count is the number of expanded paths
    and its path list their prefix; its residual checks, its openness and the
    conditions it shows are the expansion's. *)
Theorem projection_is_expansion ep lk sg cap surface :
  cap_ok cap = true -> project_capability_surface ep lk sg cap = Some surface -> not_determined_reason surface = None ->
  exists r, reference ep lk sg cap = Some r /\
    Forall2 same_row (principal_rows surface) (rf_rows r) /\
    public_path_count surface = Z.of_nat (List.length (rf_paths r)) /\
    (forall n, Forall2 same_conditions (public_path_list surface n).1 (take n (rf_paths r))) /\
    residual surface = rf_residual r /\ open_not_determined surface = rf_ond r /\
    same_conditions (surface_conditions surface) (reference_conditions r).
Proof.
  intros Hc. unfold project_capability_surface. pose proof (runs_project ep lk sg cap Hc) as Hrun.
  destruct (project_node ep lk sg cap initial_state) as [sm s| |] eqn:E; [|by intros [= <-]|done]. intros [= <-] _.
  destruct (Hrun _ _ E) as (Hs & _ & r & Er & [H1 H2 H3 H4 (P1 & P2 & P3 & P4 & P5)]).
  destruct (materialize_dedupe _ _ _ Hs H1) as (out & Ed & Hrows). unfold reference. rewrite Er. cbn [mbind option_bind]. rewrite Ed. cbn [mbind option_bind].
  eexists. split; [done|]. cbn [rf_rows rf_paths rf_residual rf_ond principal_rows public_path_count residual open_not_determined]. split_and!; try done.
  - by rewrite P1, length_map.
  - intros n. unfold public_path_list. cbn [public_path_count surface_table surface_paths]. rewrite P1.
    destruct (rf_paths r) as [|p ps]; [cbn; by rewrite take_nil|]. cbn [List.length]. rewrite (proj2 (Z.eqb_neq _ _)) by lia. by apply path_list_keys.
  - unfold same_conditions, surface_conditions, reference_conditions. cbn [principal_rows surface_table path_condition_ids rf_rows rf_paths].
    assert (fromkeys (List.concat (List.map pkeys (rf_paths r))) = fromkeys (List.map cond_key (List.concat (List.map unique_conditions (rf_paths r))))) as HK.
    { rewrite List.concat_map, List.map_map, <- fromkeys_concat, List.map_map. f_equal. f_equal. apply List.map_ext. intros p. by rewrite unique_keys. }
    rewrite !unique_keys, !List.map_app, (deref_keys _ _ _ P4), HK, fromkeys_app_r. f_equal. f_equal. by apply same_rows_conditions.
Qed.

(** A caller or a launch condition, behind either of two more conditions. *)
Definition expansion_example : pyval :=
  let cond t := Cap.conditional_universal (MkCondition C_time t None None) in
  let caller := Cap.finite_set ["0x" ++ str_repeat "a" 40] exact enumerable [] None [] root None in
  PyDict (capability_to_dict (Cap.structural_and
    [Cap.structural_or [caller; cond "launched"]; Cap.structural_or [cond "day"; cond "night"; caller]])).

Lemma projection_is_expansion_witness : exists surface r,
  project_capability_surface true None None expansion_example = Some surface /\
  reference true None None expansion_example = Some r /\
  public_path_count surface = 2%Z /\ List.length (principal_rows surface) = 1 /\
  Forall2 same_row (principal_rows surface) (rf_rows r) /\ public_path_count surface = Z.of_nat (List.length (rf_paths r)).
Proof.
  destruct (project_capability_surface true None None expansion_example) as [s|] eqn:E; [|by vm_compute in E].
  assert (not_determined_reason s = None /\ public_path_count s = 2%Z /\ List.length (principal_rows s) = 1) as (Hn & H2 & H3).
  { vm_compute in E. by injection E as <-. }
  destruct (projection_is_expansion true None None expansion_example s) as (r & Er & Hrows & Hc & _); [by vm_compute|exact E|exact Hn|].
  exists s, r. split_and!; done.
Defined.
