(* ===== verification/SurfaceDict.v ===== *)
(** * Reading a serialized capability back

    The lookups of [capability_to_dict] the projection makes, and that every tree
    of the algebra serializes to a well-shaped dict ([cap_ok]). *)

From stdpp Require Import base sets list strings sorting.
From Stdlib Require Import String Ascii ZArith Lia.
From S2P Require Import Prelude PyText EvalContext Capabilities CapabilitiesTheory Surface SurfaceReference SurfaceTheory SurfaceEquivalence.

Local Open Scope string_scope.

(** ** Reading the serialized dict back *)

Lemma assoc_get_app {A} k (l m : list (string * A)) :
  assoc_get k (l ++ m)%list = match assoc_get k l with Some v => Some v | None => assoc_get k m end.
Proof. induction l as [|[k' v] l IH]; [done|]. cbn [app assoc_get]. by case_decide. Qed.

Lemma assoc_get_when {A} k k' (f : A -> pyval) o : assoc_get k (when k' f o) = if decide (k = k') then f <$> o else None.
Proof. destruct o; cbn; by case_decide. Qed.

Lemma assoc_get_when_any {A} k k' (f : A -> pyval) l :
  assoc_get k (when_any k' f l) = if decide (k = k') then match l with [] => None | _ => Some (PyList (List.map f l)) end else None.
Proof. destruct l; cbn; by case_decide. Qed.

(** One conditional of the dict at a time, the key known. *)
Ltac dict_keys :=
  repeat match goal with
  | |- context [decide (?a = ?b :> string)] =>
      let H := fresh in destruct (decide (a = b)) as [H|H]; [try discriminate H; try clear H|try (exfalso; by apply H)]
  end.

Ltac dict_lookup c :=
  destruct c as [k0 m0 t0 b0 sg0 ck0 cd0 ur0 cs0 mq0 bq0 cf0 er0 lb0 ea0 tr0 su0];
  unfold py_get, get_default; cbn [capability_to_dict kind members threshold blacklist signer check conditions unsupported_reason children membership_quality
    blacklist_quality confidence empty_reason last_indexed_block exact_as_of trace subject];
  rewrite !assoc_get_app, ?assoc_get_when, ?assoc_get_when_any; cbn [assoc_get]; dict_keys;
  destruct sg0, cs0, su0; cbn [assoc_get]; dict_keys; try done;
  destruct (decide (k0 = K_cofinite_blacklist)), bq0; cbn [assoc_get]; dict_keys; try done.

Lemma to_dict_kind c : py_get "kind" (capability_to_dict c) = PyStr (kind_name (kind c)).
Proof. dict_lookup c. Qed.

Lemma to_dict_members c : py_get "members" (capability_to_dict c) = match members c with Some l => str_list l | None => PyNone end.
Proof. dict_lookup c; by destruct m0. Qed.

Lemma to_dict_children c :
  py_get "children" (capability_to_dict c)
  = match children c with [] => PyNone | cs => PyList (List.map (fun c => PyDict (capability_to_dict c)) cs) end.
Proof. dict_lookup c. Qed.

Lemma to_dict_signer c : py_get "signer" (capability_to_dict c) = match signer c with Some s => PyDict (capability_to_dict s) | None => PyNone end.
Proof. dict_lookup c. Qed.

Lemma to_dict_quality c : py_get "membership_quality" (capability_to_dict c) = PyStr (quality_name (membership_quality c)).
Proof. dict_lookup c. Qed.

Lemma to_dict_trace c : py_get "trace" (capability_to_dict c) = match trace c with [] => PyNone | t => PyList (List.map PyDict t) end.
Proof. dict_lookup c; by destruct tr0. Qed.

Lemma child_dicts_to_dict c : child_dicts (capability_to_dict c) = List.map (fun c => PyDict (capability_to_dict c)) (children c).
Proof.
  unfold child_dicts. rewrite to_dict_children. destruct (children c) as [|x cs]; [done|].
  generalize (x :: cs) as l. induction l as [|y l IH]; [done|]. cbn [List.map List.filter]. by f_equal.
Qed.

(** Every connective of the algebra's trees has operands. *)
Inductive connected : CapabilityExpr -> Prop :=
  | connected_intro c : (kind c = K_AND \/ kind c = K_OR -> children c <> []) -> Forall connected (children c) -> connected c.

Lemma kind_name_is k s : py_eq_str (PyStr (kind_name k)) s = bool_decide (kind_name k = s).
Proof. cbn [py_eq_str]. destruct (String.eqb_spec (kind_name k) s); by case_bool_decide. Qed.

Lemma kind_eqb c k : py_eq_str (py_get "kind" (capability_to_dict c)) (kind_name k) = bool_decide (kind c = k).
Proof. rewrite to_dict_kind. destruct (kind c), k; done. Qed.

(** What the resolver serializes is well shaped. *)
Lemma to_dict_ok c : connected c -> cap_ok (PyDict (capability_to_dict c)) = true.
Proof.
  induction c as [c IH] using cap_children_ind. intros Hc. inversion Hc as [? Hk Hch]; subst.
  assert (forall c', quality_ok (py_get "membership_quality" (capability_to_dict c')) = true) as Hq by (intros c'; by rewrite to_dict_quality).
  cbn [cap_ok]. rewrite child_results_map, child_dicts_to_dict. apply andb_true_iff. split; [apply andb_true_iff; split|].
  - unfold leaf_fields_ok. rewrite Hq, to_dict_signer, to_dict_trace. cbn [andb]. apply andb_true_iff. split.
    + apply bool_decide_eq_true. destruct (trace c); [by eexists|]. rewrite iter_list. by eexists.
    + destruct (signer c); [apply Hq|done].
  - change "AND" with (kind_name K_AND). change "OR" with (kind_name K_OR). rewrite !kind_eqb.
    destruct (children c) eqn:E; [|by rewrite orb_true_r]. rewrite !bool_decide_eq_false_2; [done|..]; intros K; by destruct Hk; auto.
  - rewrite List.map_map. clear Hc Hk. induction IH as [|x l H _ IHl]; [done|]. apply Forall_cons in Hch as [H1 H2].
    cbn [List.map forallb snd]. by rewrite H, IHl.
Qed.
