(* ===== verification/SurfaceSound.v ===== *)
(** * What a surface says of the callers

    The projection of a serialized capability against the set of callers the
    capability denotes ([CapabilitiesTheory.denotes]): a closed surface without a
    residual check names every caller, and an open verdict that no caller earns. *)

From stdpp Require Import base sets list strings sorting.
From Stdlib Require Import String Ascii ZArith Lia.
From S2P Require Import Prelude PyText EvalContext Capabilities CapabilitiesTheory Surface SurfaceReference SurfaceTheory SurfaceEquivalence SurfaceDict.

Local Open Scope string_scope.

(** ** Coverage *)

Definition row_address (row : dict) : string := (key_of_row row).1.1.

(** Every caller of [S] gets past [r]: it is somewhere in it. *)
Definition shows (r : RefSurface) (S : callers) : Prop := forall a, S a = true ->
  rf_nobody r = false /\ (rf_residual r <> [] \/ rf_paths r <> [] \/ a ∈ List.map row_address (rf_rows r)).

(** Trees of enumerated leaves: a finite set lists all its members, each an address. *)
Inductive listed_tree : CapabilityExpr -> Prop :=
  | listed_intro c :
      (kind c = K_finite_set -> membership_quality c = exact /\
         Forall (fun m => hex_shaped 42 m = true /\ str_lower m = m) (or_nil (members c))) ->
      kind c <> K_threshold_group -> kind c <> K_signature_witness ->
      (kind c = K_AND \/ kind c = K_OR -> children c <> []) ->
      Forall listed_tree (children c) -> listed_tree c.

Lemma listed_connected c : listed_tree c -> connected c.
Proof.
  induction c as [c IH] using cap_children_ind. inversion 1 as [? _ _ _ Hk Hch]; subst. constructor; [done|].
  apply Forall_forall. intros x Hx. apply (proj1 (Forall_forall _ _) IH _ Hx). by apply (proj1 (Forall_forall _ _) Hch).
Qed.

Lemma row_address_with conds rows : List.map row_address (List.map (with_row conds) rows) = List.map row_address rows.
Proof. rewrite List.map_map. apply List.map_ext. intros r. unfold row_address. by rewrite key_with. Qed.

Lemma map_ne_nil {A B} (f : A -> B) l : l <> [] -> List.map f l <> [].
Proof. by destruct l. Qed.

Lemma shows_narrow conds r S : shows r S -> shows (ref_narrow conds r) S.
Proof.
  intros H a Ha. destruct (H a Ha) as [Hn Hc]. destruct conds as [|c cs]; [done|]. split; [done|].
  cbn [ref_narrow rf_residual rf_paths rf_rows]. rewrite row_address_with. destruct Hc as [?|[?|?]]; [by left|right; left; by apply map_ne_nil|by right; right].
Qed.

Lemma shows_or l r Sl Sr : shows l Sl -> shows r Sr -> shows (ref_or l r) (fun a => Sl a || Sr a).
Proof.
  intros Hl Hr a. cbv beta. rewrite orb_true_iff. unfold ref_or. cbn [rf_nobody rf_residual rf_paths rf_rows]. rewrite List.map_app, elem_of_app.
  intros [H|H]; [destruct (Hl a H) as [Hn Hc]|destruct (Hr a H) as [Hn Hc]]; rewrite Hn, ?andb_false_r; (split; [done|]);
    destruct Hc as [Hc|[Hc|Hc]]; auto.
  - left. intros [? _]%app_nil. done.
  - right; left. intros [? _]%app_nil. done.
  - left. intros [_ ?]%app_nil. done.
  - right; left. intros [_ ?]%app_nil. done.
Qed.

Lemma elem_of_cross a rows paths : paths <> [] -> a ∈ List.map row_address rows -> a ∈ List.map row_address (cross_rows rows paths).
Proof.
  intros Hp. induction rows as [|r rows IH]; [done|]. rewrite cross_cons, List.map_app. cbn [List.map]. rewrite elem_of_cons, elem_of_app.
  intros [->|H]; [left|right; by apply IH]. destruct paths as [|p ps]; [done|]. cbn [List.map]. apply elem_of_cons. left. unfold row_address. by rewrite key_with.
Qed.

Lemma cross_ne ls rs : ls <> [] -> rs <> [] -> cross_paths ls rs <> [].
Proof. destruct ls, rs; done. Qed.

Lemma app_ne_l {A} (l m : list A) : l <> [] -> (l ++ m)%list <> [].
Proof. by intros ? [? _]%app_nil. Qed.
Lemma app_ne_r {A} (l m : list A) : m <> [] -> (l ++ m)%list <> [].
Proof. by intros ? [_ ?]%app_nil. Qed.

Lemma shows_product l r Sl Sr : shows l Sl -> shows r Sr -> shows (ref_product l r) (fun a => Sl a && Sr a).
Proof.
  intros Hl Hr a. cbv beta. rewrite andb_true_iff. intros [Al Ar]. destruct (Hl a Al) as [_ Cl], (Hr a Ar) as [_ Cr]. split; [done|].
  unfold ref_product. cbn [rf_residual rf_paths rf_rows]. rewrite !List.map_app, !elem_of_app.
  destruct Cl as [Cl|Cl]; [left; by apply app_ne_l|]. destruct Cr as [Cr|Cr]; [left; by apply app_ne_r, app_ne_l|].
  destruct Cl as [Cl|Cl], Cr as [Cr|Cr].
  - right; left. by apply cross_ne.
  - right; right. right; left. by apply elem_of_cross.
  - right; right. left. by apply elem_of_cross.
  - left. apply app_ne_r, app_ne_r. destruct (rf_rows l), (rf_rows r); cbn [List.map] in Cl, Cr; try (by apply not_elem_of_nil in Cl);
      try (by apply not_elem_of_nil in Cr). done.
Qed.

Lemma invalid_empty r : rf_valid r = false -> rf_rows r = [] /\ rf_paths r = [].
Proof. unfold rf_valid. by destruct (rf_rows r), (rf_paths r). Qed.

Lemma ref_side_fields r side r' : ref_side r side = Some r' ->
  rf_residual r' = (rf_residual r ++ side)%list /\ (rf_paths r <> [] -> rf_paths r' <> []) /\
  List.map row_address (rf_rows r') = List.map row_address (rf_rows r).
Proof.
  unfold ref_side. destruct (mapM _ side) as [conds|]; cbn [mbind option_bind]; [|done]. intros [= <-].
  destruct (List.concat conds); cbn [rf_residual rf_paths rf_rows]; [done|]. rewrite row_address_with. split_and!; [done|apply map_ne_nil|done].
Qed.

Lemma shows_and l r Sl Sr s : shows l Sl -> shows r Sr -> ref_and l r = Some s -> shows s (fun a => Sl a && Sr a).
Proof.
  intros Hl Hr E a Ha. pose proof Ha as [Al Ar]%andb_true_iff. destruct (Hl a Al) as [Nl Cl], (Hr a Ar) as [Nr Cr]. revert E.
  unfold ref_and. rewrite Nl, Nr. cbn [orb]. set (m := if negb (rf_valid l) && negb (rf_valid r) then _ else _).
  assert (forall both, m = Some both -> rf_residual both <> [] \/ rf_paths both <> [] \/ a ∈ List.map row_address (rf_rows both)) as Hm.
  { assert (forall x, rf_valid x = false -> rf_residual x <> [] \/ rf_paths x <> [] \/ a ∈ List.map row_address (rf_rows x) -> rf_residual x <> []) as Hinv.
    { intros x [-> ->]%invalid_empty [?|[?|H%not_elem_of_nil]]; done. }
    intros both. unfold m. destruct (rf_valid l) eqn:Vl, (rf_valid r) eqn:Vr; cbn [negb andb].
    - intros [= <-]. by apply (shows_product l r Sl Sr Hl Hr a).
    - intros (-> & _ & _)%ref_side_fields. left. by apply app_ne_r, Hinv.
    - intros (-> & _ & _)%ref_side_fields. left. by apply app_ne_r, Hinv.
    - intros [= <-]. left. by apply app_ne_l, Hinv. }
  clearbody m. destruct m as [both|]; cbn [mbind option_bind]; [|done]. intros [= <-]. split; [done|]. exact (Hm both eq_refl).
Qed.

(** The conjunction with the empty accumulator is the conjunct. *)
Lemma shows_and_first r S s : shows r S -> ref_and ref_empty r = Some s -> shows s S.
Proof.
  intros Hr E a Ha. destruct (Hr a Ha) as [Nr Cr]. revert E. unfold ref_and. rewrite Nr. cbn [rf_valid ref_empty ref_leaf rf_rows rf_paths is_nil negb orb andb rf_nobody rf_residual app].
  destruct (rf_valid r) eqn:V; cbn [negb]; rewrite ?andb_false_r, ?andb_true_r.
  - destruct (ref_side r []) as [b|] eqn:Eb; cbn [mbind option_bind]; [|done]. apply ref_side_fields in Eb as (E1 & E2 & E3). intros [= <-].
    split; [done|]. cbn [rf_residual rf_paths rf_rows]. rewrite E1, E3, app_nil_r. destruct Cr as [?|[?|?]]; auto.
  - intros [= <-]. split; [done|]. apply invalid_empty in V as [V1 V2]. rewrite V1, V2 in Cr. destruct Cr as [?|[?|H%not_elem_of_nil]]; auto.
Qed.

Section Coverage.
Context (ep : bool) (lk : option (list (string * string))) (sg : option string).

Notation dict_of c := (PyDict (capability_to_dict c)).
Notation shown c := (forall S r, denotes c S -> ref_node ep lk sg (dict_of c) = Some r -> shows r S).
Notation ref_dicts cs := (List.map (fun c => (dict_of c, ref_node ep lk sg (dict_of c))) cs).

Lemma shows_ext r S S' : (forall x, S x = S' x) -> shows r S -> shows r S'.
Proof. intros E H a Ha. apply H. by rewrite E. Qed.

Lemma shows_or_fold cs Ss : Forall2 denotes cs Ss -> Forall (fun c => shown c) cs -> forall acc Sa r b,
  shows acc Sa -> foldM ref_or_step (ref_dicts cs) (acc, false) = Some (r, b) ->
  shows r (fun x => Sa x || existsb (fun T => T x) Ss).
Proof.
  induction 1 as [|c S cs Ss Hd _ IH]; intros Hf acc Sa r b Ha; cbn [List.map foldM existsb].
  - intros [= <- <-]. eapply shows_ext; [|done]. intros x. by rewrite orb_false_r.
  - apply Forall_cons in Hf as [Hc Hf]. unfold ref_or_step at 1. cbn [snd]. destruct (ref_node ep lk sg (dict_of c)) as [rc|] eqn:E; cbn [mbind option_bind fst snd]; [|done].
    intros Hr. eapply shows_ext; [|eapply (IH Hf (ref_or acc rc) (fun x => Sa x || S x) r b); [|exact Hr]].
    + intros x. cbv beta. by rewrite orb_assoc.
    + apply shows_or; [done|]. by apply Hc.
Qed.

Lemma shows_or_all c cs S Ss r b : denotes c S -> Forall2 denotes cs Ss -> shown c -> Forall (fun c => shown c) cs ->
  foldM ref_or_step (ref_dicts (c :: cs)) (ref_empty, true) = Some (r, b) -> shows r (fun x => S x || existsb (fun T => T x) Ss).
Proof.
  intros Hd Hds Hc Hcs. cbn [List.map foldM]. unfold ref_or_step at 1. cbn [snd].
  destruct (ref_node ep lk sg (dict_of c)) as [rc|] eqn:E; cbn [mbind option_bind fst snd]; [|done]. apply shows_or_fold; [done|done|]. by apply Hc.
Qed.

(** A blocked conjunction shows its callers through its residual checks alone. *)
Definition shows_step (rb : RefSurface * bool) (S : callers) : Prop :=
  shows rb.1 S /\ (rb.2 = true -> forall a, S a = true -> rf_residual rb.1 <> []).

Lemma and_residual l r s : ref_and l r = Some s -> rf_residual l <> [] \/ rf_residual r <> [] -> rf_residual s <> [].
Proof.
  unfold ref_and. set (m := if negb (rf_valid l) && negb (rf_valid r) then _ else _).
  assert (forall b, m = Some b -> rf_residual l <> [] \/ rf_residual r <> [] -> rf_residual b <> []) as Hm.
  { intros b. unfold m. destruct (rf_valid l), (rf_valid r); cbn [negb andb].
    - intros [= <-] [?|?]; [by apply app_ne_l|by apply app_ne_r, app_ne_l].
    - intros (-> & _ & _)%ref_side_fields [?|?]; [by apply app_ne_l|by apply app_ne_r].
    - intros (-> & _ & _)%ref_side_fields [?|?]; [by apply app_ne_r|by apply app_ne_l].
    - intros [= <-] [?|?]; [by apply app_ne_l|by apply app_ne_r]. }
  clearbody m. destruct m as [b|]; cbn [mbind option_bind]; [|done]. intros [= <-] H. specialize (Hm b eq_refl H).
  by destruct (rf_nobody l || rf_nobody r).
Qed.

Lemma shows_and_step acc b rc c rb Sa S : ref_node ep lk sg (dict_of c) = Some rc -> shows rc S ->
  (forall a, S a = true -> Sa a = true -> b = true -> rf_residual acc <> []) ->
  (forall s, ref_and acc rc = Some s -> shows s (fun x => Sa x && S x)) ->
  ref_and_step ep (acc, b) (dict_of c, ref_node ep lk sg (dict_of c)) = Some rb -> shows_step rb (fun x => Sa x && S x).
Proof.
  intros E Hc Hb Hs. unfold ref_and_step. cbn [fst snd]. rewrite E. cbn [mbind option_bind].
  destruct (ep && negb (rf_valid rc)) eqn:V.
  - destruct (is_root_authority_blocker _) as [bl|]; cbn [mbind option_bind]; [|done]. destruct (ref_and acc rc) as [s|] eqn:Es; cbn [mbind option_bind]; [|done].
    intros [= <-]. split; [by apply Hs|]. cbn [fst snd]. intros _ a [Ha1 Ha2]%andb_true_iff. eapply and_residual; [done|]. right.
    apply andb_true_iff in V as [_ V%negb_true_iff]. apply invalid_empty in V as [V1 V2]. destruct (Hc a Ha2) as [_ Hcov]. rewrite V1, V2 in Hcov.
    by destruct Hcov as [?|[?|H%not_elem_of_nil]].
  - cbn [mbind option_bind]. destruct (ref_and acc rc) as [s|] eqn:Es; cbn [mbind option_bind]; [|done]. intros [= <-]. split; [by apply Hs|].
    cbn [fst snd]. rewrite orb_false_r. intros -> a [Ha1 Ha2]%andb_true_iff. eapply and_residual; [done|]. left. by eapply Hb.
Qed.

Lemma shows_and_fold cs Ss : Forall2 denotes cs Ss -> Forall (fun c => shown c) cs -> forall acc b Sa rb,
  shows_step (acc, b) Sa -> foldM (ref_and_step ep) (ref_dicts cs) (acc, b) = Some rb -> shows_step rb (fun x => Sa x && forallb (fun T => T x) Ss).
Proof.
  assert (forall rb S S', (forall x, S x = S' x) -> shows_step rb S -> shows_step rb S') as Hext.
  { intros rb S S' He [H1 H2]. split; [by eapply shows_ext|]. intros Hb a Ha. eapply H2; [done|]. by rewrite He. }
  induction 1 as [|c S cs Ss Hd _ IH]; intros Hf acc b Sa rb Ha; cbn [List.map foldM forallb].
  - intros [= <-]. eapply Hext; [|done]. intros x. by rewrite andb_true_r.
  - apply Forall_cons in Hf as [Hc Hf]. destruct (ref_and_step ep (acc, b) _) as [[acc1 b1]|] eqn:E1; cbn [mbind option_bind]; [|done]. intros Hr.
    destruct (ref_node ep lk sg (dict_of c)) as [rc|] eqn:E; [|by unfold ref_and_step in E1]. rewrite <- E in E1.
    eapply Hext; [|eapply (IH Hf acc1 b1 (fun x => Sa x && S x)); [|exact Hr]]; [intros x; cbv beta; by rewrite andb_assoc|].
    destruct Ha as [Ha1 Ha2]. eapply shows_and_step; [done|by apply Hc| |by intros s; apply shows_and, Hc|exact E1].
    intros a H1 H2 H3. by eapply Ha2.
Qed.

Lemma shows_and_all c cs S Ss rb : denotes c S -> Forall2 denotes cs Ss -> shown c -> Forall (fun c => shown c) cs ->
  foldM (ref_and_step ep) (ref_dicts (c :: cs)) (ref_empty, false) = Some rb -> shows_step rb (fun x => S x && forallb (fun T => T x) Ss).
Proof.
  intros Hd Hds Hc Hcs. cbn [List.map foldM]. destruct (ref_and_step ep (ref_empty, false) _) as [[acc1 b1]|] eqn:E1; cbn [mbind option_bind]; [|done].
  intros Hr. destruct (ref_node ep lk sg (dict_of c)) as [rc|] eqn:E; [|by unfold ref_and_step in E1]. rewrite <- E in E1.
  eapply (shows_and_fold cs Ss Hds Hcs acc1 b1 S); [|done].
  destruct (shows_and_step ref_empty false rc c (acc1, b1) (fun _ => true) S E) as [H1 H2]; [by apply Hc|done| |exact E1|by split].
  intros s Hs. cbn [andb]. eapply shows_and_first; [by apply Hc|done].
Qed.

(** A finite set's rows are its members. *)
Lemma finite_rows_address c rows nc a : rows_for_finite_set (capability_to_dict c) nc = Some rows ->
  a ∈ or_nil (members c) -> hex_shaped 42 a = true -> str_lower a = a -> a ∈ List.map row_address rows.
Proof.
  unfold rows_for_finite_set. rewrite to_dict_members. intros E Ha Hx Hl. destruct (members c) as [l|]; [|by apply not_elem_of_nil in Ha].
  unfold str_list in E. rewrite iter_list in E. cbn [mbind option_bind] in E. destruct (authority_basis _) as [basis|]; cbn [mbind option_bind] in E; [|done].
  injection E as <-. cbn [or_nil] in Ha.
  apply list_elem_of_fmap. eexists. split; [|apply list_elem_of_omap; exists (PyStr a); split; [apply list_elem_of_fmap; by exists a|]].
  2: { unfold address_of. rewrite Hx. cbn [fmap option_fmap option_map]. reflexivity. }
  unfold row_address, key_of_row. cbn [fst]. change (py_get "address" _) with (PyStr (str_lower a)). rewrite Hl.
  assert (py_str (py_or (PyStr a) (PyStr "")) = a) as -> by (by destruct a). done.
Qed.

Lemma not_proven_empty c a : a ∈ or_nil (members c) -> is_proven_empty (capability_to_dict c) = Some false.
Proof.
  intros Ha. unfold is_proven_empty. rewrite to_dict_members. destruct (members c) as [[|x l]|]; cbn [or_nil] in Ha; try by apply not_elem_of_nil in Ha.
  by rewrite andb_false_r.
Qed.

Lemma node_shows c : listed_tree c -> shown c.
Proof.
  induction c as [c IH] using cap_children_ind. intros Hl. inversion Hl as [? Hfin Ht Hw Hne Hch]; subst.
  assert (Forall (fun c => shown c) (children c)) as Hcs.
  { apply Forall_forall. intros x Hx. apply (proj1 (Forall_forall _ _) IH _ Hx). by apply (proj1 (Forall_forall _ _) Hch). }
  clear IH Hch. intros S r Hd. cbn [ref_node]. rewrite child_results_map, child_dicts_to_dict, List.map_map.
  destruct (is_reach_not_determined _) as [[|]|]; cbn [mbind option_bind]; [|..|done]; [by intros [= <-] a _; split; auto|].
  change "finite_set" with (kind_name K_finite_set). change "threshold_group" with (kind_name K_threshold_group).
  change "signature_witness" with (kind_name K_signature_witness). change "conditional_universal" with (kind_name K_conditional_universal).
  change "OR" with (kind_name K_OR). change "AND" with (kind_name K_AND). change "cofinite_blacklist" with (kind_name K_cofinite_blacklist).
  rewrite !kind_eqb. destruct (kind c) eqn:K; try done; repeat (rewrite bool_decide_eq_false_2 by done); repeat (rewrite bool_decide_eq_true_2 by done).
  - apply (denotes_finite_inv _ _ K) in Hd. destruct (Hfin eq_refl) as [Hq Hm]. rewrite Hq in Hd. cbn [claims] in Hd.
    destruct (rows_for_finite_set _ _) as [rows|] eqn:Er; cbn [mbind option_bind]; [|done].
    destruct (is_proven_empty _) as [nb|] eqn:En; cbn [mbind option_bind]; [|done]. intros [= <-] a Ha%Hd. rewrite (not_proven_empty _ _ Ha) in En. injection En as <-.
    split; [done|]. right; right. pose proof (proj1 (Forall_forall _ _) Hm _ Ha) as [? ?]. by eapply finite_rows_address.
  - destruct (denylist_condition _); cbn [mbind option_bind]; [|done]. intros [= <-] a _. split; [done|]. by right; left.
  - intros [= <-] a _. split; [done|]. by left.
  - intros [= <-] a _. split; [done|]. by right; left.
  - intros [= <-] a _. split; [done|]. by left.
  - inversion Hd as [| | | | |? Ss ? _ HF HS|]; subst; try congruence; [match goal with H : kind c ∈ _ |- _ => rewrite K in H; set_solver end|].
    inversion HF as [E1 E2|c1 S1 cs Ss' H1 H2 E1 E2]; [by destruct (Hne (or_introl eq_refl))|]. rewrite <- E1 in Hcs. apply Forall_cons in Hcs as [Hc1 Hcs].
    destruct (foldM _ _ _) as [[s b]|] eqn:Ef; cbn [mbind option_bind]; [|done].
    destruct (shows_and_all _ _ _ _ _ H1 H2 Hc1 Hcs Ef) as [Hsh Hb]. cbn [fst snd] in Hsh, Hb.
    intros [= <-]. eapply (shows_ext _ (fun x => S1 x && forallb (fun T => T x) Ss')); [intros x; by rewrite HS, <- E2|].
    pose proof (shows_narrow (condition_dicts (py_get "conditions" (capability_to_dict c))) _ _ Hsh) as Hn. destruct b; [|done].
    intros a Ha. destruct (Hn a Ha) as [Hnb _]. split; [done|]. left. specialize (Hb eq_refl a Ha). cbn [rf_residual].
    by destruct (condition_dicts _).
  - inversion Hd as [| | | | | |? Ss ? _ HF HS]; subst; try congruence; [match goal with H : kind c ∈ _ |- _ => rewrite K in H; set_solver end|].
    inversion HF as [E1 E2|c1 S1 cs Ss' H1 H2 E1 E2]; [by destruct (Hne (or_intror eq_refl))|]. rewrite <- E1 in Hcs. apply Forall_cons in Hcs as [Hc1 Hcs].
    destruct (foldM _ _ _) as [[s b]|] eqn:Ef; cbn [mbind option_bind]; [|done]. intros [= <-].
    eapply (shows_ext _ (fun x => S1 x || existsb (fun T => T x) Ss')); [intros x; by rewrite HS, <- E2|].
    apply shows_narrow. by apply (shows_or_all _ _ _ _ _ _ H1 H2 Hc1 Hcs Ef).
Qed.

End Coverage.

Lemma key_fields r r' : (forall k, k <> "details" -> assoc_get k r = assoc_get k r') -> key_of_row r = key_of_row r'.
Proof. intros H. unfold key_of_row, py_get. by rewrite !H. Qed.

(** The materialized rows have the keys of the expanded ones. *)
Lemma rows_addresses s rows rs a : rows_rel s rows rs -> a ∈ List.map row_address rs ->
  a ∈ List.map row_address (List.map (fun ka => materialize (p_table s) ka.2) rows).
Proof.
  intros (Hk & Hf & _) (r & -> & Hr)%list_elem_of_fmap.
  assert (key_of_row r ∈ rows.*1) as Hin by (rewrite Hk; apply elem_of_fromkeys, list_elem_of_fmap; by exists r).
  apply list_elem_of_fmap in Hin as ([k acc] & Ek & Hka). cbn [fst] in Ek. subst k. rewrite List.map_map. apply list_elem_of_fmap.
  exists (key_of_row r, acc). split; [|done]. pose proof (proj1 (Forall_forall _ _) Hf _ Hka) as Ha. cbn [fst snd] in Ha |- *.
  unfold row_address. f_equal. f_equal. pose proof (copies_key (key_of_row r) rs) as Hc. destruct (copies (key_of_row r) rs) as [|r1 rest]; [done|].
  apply Forall_cons in Hc as [<- _]. destruct Ha as (Hb & _). rewrite <- (same_base_key _ _ Hb). symmetry. apply key_fields. intros k. apply materialize_base.
Qed.

(** C10: a closed surface names everyone.  For a tree of exactly enumerated sets,
    denylists, checks and connectives, and any set of callers it denotes: when the
    projection of its serialization has no public path and no residual check, every
    caller the capability admits is the address of one of its principal rows. *)
Theorem closed_surface_names_callers ep lk sg c S surface a :
  listed_tree c -> denotes c S -> S a = true ->
  project_capability_surface ep lk sg (PyDict (capability_to_dict c)) = Some surface ->
  not_determined_reason surface = None -> public_path_count surface = 0%Z -> residual surface = [] ->
  a ∈ List.map row_address (principal_rows surface).
Proof.
  intros Hl Hd Ha. unfold project_capability_surface. pose proof (runs_project ep lk sg _ (to_dict_ok c (listed_connected c Hl))) as Hrun.
  destruct (project_node _ _ _ _ _) as [sm s| |] eqn:E; [|by intros [= <-]|done]. intros [= <-] _.
  cbn [public_path_count residual principal_rows]. intros H0 Hres. destruct (Hrun _ _ E) as (Hs & _ & r & Er & [H1 H2 H3 H4 (P1 & _)]).
  destruct (node_shows ep lk sg c Hl S r Hd Er a Ha) as [_ [Hc|[Hc|Hc]]].
  - congruence.
  - destruct (rf_paths r); [done|]. rewrite P1 in H0. cbn in H0. lia.
  - by eapply rows_addresses.
Qed.

Definition address_like (c : ascii) : string := "0x" ++ str_repeat c 40.
Definition single_caller (c : ascii) : CapabilityExpr := Cap.finite_set [address_like c] exact enumerable [] None [] root None.
Definition open_denylist : CapabilityExpr := Cap.cofinite_blacklist [] enumerable [] root exact.

(** Two callers, one of them behind an unenumerated condition of the call. *)
Definition covered_example : CapabilityExpr :=
  Cap.structural_or [single_caller "a"; Cap.structural_and [single_caller "b"; Cap.conditional_universal (MkCondition C_time "after launch" None None)]].

Definition covered_callers : callers := fun x => bool_decide (x ∈ [address_like "a"; address_like "b"]).

Lemma single_caller_listed c : hex_shaped 42 (address_like c) = true -> str_lower (address_like c) = address_like c ->
  listed_tree (single_caller c) /\ denotes (single_caller c) (fun x => bool_decide (x = address_like c)).
Proof.
  intros Hx Hl. assert (or_nil (members (single_caller c)) = [address_like c]) as Hm.
  { change (or_nil (members (single_caller c))) with (canon_addresses [address_like c]). unfold canon_addresses. cbn [canon_loop].
    change (merge_sort canon_le [address_like c]) with [address_like c]. cbn [canon_loop]. rewrite decide_False by set_solver. by rewrite Hl. }
  split.
  - constructor; try done; [|by intros [|]]. intros _. split; [done|]. rewrite Hm. by repeat constructor.
  - apply den_finite; [done|]. rewrite Hm. intros x. rewrite bool_decide_eq_true. set_solver.
Qed.

Lemma covered_example_ok : listed_tree covered_example /\ denotes covered_example covered_callers.
Proof.
  destruct (single_caller_listed "a") as [La Da]; [done..|]. destruct (single_caller_listed "b") as [Lb Db]; [done..|]. split.
  - constructor; try done. repeat constructor; try done; by intros [|].
  - apply (den_or _ [fun x => bool_decide (x = address_like "a"); fun x => bool_decide (x = address_like "b")]); [done|..].
    + apply Forall2_cons_2; [exact Da|]. apply Forall2_cons_2; [|constructor].
      apply (den_and _ [fun x => bool_decide (x = address_like "b"); fun _ => true]); [done|..].
      * apply Forall2_cons_2; [exact Db|]. apply Forall2_cons_2; [by apply den_universal|constructor].
      * intros x. cbn. by rewrite !andb_true_r.
    + intros x. cbn. rewrite orb_false_r. unfold covered_callers. repeat case_bool_decide; set_solver.
Qed.

Lemma closed_surface_names_callers_witness : exists surface,
  project_capability_surface true None None (PyDict (capability_to_dict covered_example)) = Some surface /\
  public_path_count surface = 0%Z /\ address_like "b" ∈ List.map row_address (principal_rows surface).
Proof.
  destruct covered_example_ok as [Hl Hd].
  destruct (project_capability_surface true None None (PyDict (capability_to_dict covered_example))) as [s|] eqn:E; [|by vm_compute in E].
  exists s. assert (not_determined_reason s = None /\ public_path_count s = 0%Z /\ residual s = []) as (H1 & H2 & H3).
  { vm_compute in E. by injection E as <-. }
  split_and!; [done|done|]. by apply (closed_surface_names_callers true None None covered_example covered_callers s (address_like "b")).
Defined.

(** An open verdict nobody earns.  Two conjoined gates with disjoint callers
    ANDed with a denylist admit nobody: no caller passes any set the capability
    denotes.  Its projection nevertheless has a public path and the verdict is
    "open", with [earned_public] on: the inner AND has neither rows nor paths and
    is folded in as a side condition, and it is no authority blocker. *)
Theorem disjoint_gates_project_open :
  let gate := intersect (intersect (single_caller "a") (single_caller "b")) open_denylist in
  let cap := PyDict (capability_to_dict gate) in
  (forall S a, denotes gate S -> S a = false) /\
  exists surface, project_capability_surface true None None cap = Some surface /\ authority_public surface = true /\
    capability_surface_openness cap surface = Some "open".
Proof.
  cbv zeta. set (gate := intersect _ _). split.
  - assert (gate = Cap.structural K_AND [Cap.structural K_AND [single_caller "a"; single_caller "b"]; open_denylist]) as -> by by vm_compute.
    intros S a. inversion 1 as [| | | |? ? Hk|? Ss ? _ HF HS|]; subst; try done; [set_solver|]. cbn [children Cap.structural] in HF.
    inversion HF as [|? S1 ? Ss1 H1 _]; subst. rewrite HS. cbn [forallb].
    inversion H1 as [| | | |? ? Hk|? Ts ? _ HF1 HS1|]; subst; try done; [set_solver|]. cbn [children Cap.structural] in HF1.
    inversion HF1 as [|? Sa ? Ts1 Ha HF2]; subst. inversion HF2 as [|? Sb ? Ts2 Hb _]; subst. rewrite HS1. cbn [forallb].
    apply denotes_finite_inv in Ha, Hb; [|done..]. cbn [claims membership_quality single_caller Cap.finite_set] in Ha, Hb.
    destruct (Sa a) eqn:Ea; [|done]. destruct (Sb a) eqn:Eb; [|done]. apply Ha in Ea. apply Hb in Eb. vm_compute in Ea, Eb. set_solver.
  - destruct (project_capability_surface true None None (PyDict (capability_to_dict gate))) as [s|] eqn:E; [|by vm_compute in E].
    exists s. vm_compute in E. injection E as <-. by vm_compute.
Qed.
