(* ===== verification/SurfaceClaims.v ===== *)
(** * What a serialized capability claims of its index and its roles

    [capability_currency], [exact_empty_credit] and [capability_role_grants] of
    [services/policy/capability_surface.py]: how far behind the index a capability
    is, whether it earned "nobody can call this", and which roles it witnesses.
    Each walks the dict, its children and its signer; the theorems say what the
    walk answers over the list of nodes it visits. *)

From stdpp Require Import base sets list strings sorting.
From Stdlib Require Import String Ascii ZArith Lia.
From S2P Require Import Prelude PyText EvalContext Capabilities Surface SurfaceReference SurfaceTheory SurfaceEquivalence.

Local Open Scope string_scope.

(** ** Definitions *)

(** [isinstance(v, int) and not isinstance(v, bool)] *)
Definition plain_int (v : pyval) : option Z := match v with PyInt z => Some z | _ => None end.

(** A function of the signer when it is a dict, computed on the entries. *)
Definition signer_results {B} (f : pyval -> B) (d : dict) : list B :=
  match assoc_get "signer" (List.map (fun kv => (kv.1, match kv.2 with PyDict _ => [f kv.2] | _ => [] end)) d) with
  | Some l => l
  | None => []
  end.

(** [_last_indexed_blocks] *)
Fixpoint last_indexed_blocks (v : pyval) : list Z :=
  match v with
  | PyDict d =>
      (match plain_int (py_get "last_indexed_block" d) with Some z => [z] | None => [] end
       ++ List.concat (child_results last_indexed_blocks d).*2 ++ List.concat (signer_results last_indexed_blocks d))%list
  | _ => []
  end.

Definition CAPABILITY_INDEX_STALE_BLOCKS : Z := 1000.

Inductive CurrencyVerdict := currency_current | currency_stale | currency_not_determined.

Record Currency := MkCurrency {
  cur_verdict : CurrencyVerdict;
  cur_last_indexed : option Z;
  cur_head : option Z;
  cur_lag : option Z
}.

(** [min(heights) if heights else None] *)
Definition lowest (hs : list Z) : option Z := match hs with [] => None | h :: hs => Some (fold_left Z.min hs h) end.

(** [capability_currency] *)
Definition capability_currency (cap : pyval) (index_head : option Z) : Currency :=
  match lowest (last_indexed_blocks cap), index_head with
  | Some l, Some head =>
      let lag := Z.max 0 (head - l) in
      MkCurrency (if (CAPABILITY_INDEX_STALE_BLOCKS <=? lag)%Z then currency_stale else currency_current) (Some l) (Some head) (Some lag)
  | l, _ => MkCurrency currency_not_determined l index_head None
  end.

Definition COVERAGE_PROVING_TRACE_STEPS : list string :=
  ["solmate_roles_authority"; "enumerable_role_store"; "live_getter_resolution"; "live_slot_resolution"].

Fixpoint observed_step (trace : list pyval) : option Z :=
  match trace with
  | [] => None
  | PyDict s :: trace => match plain_int (py_get "observed_at_block" s) with Some z => Some z | None => observed_step trace end
  | _ :: trace => observed_step trace
  end.

(** [_observation_block] *)
Definition observation_block (d : dict) : option (Z * string) :=
  match (match py_get "trace" d with PyList l => observed_step l | _ => None end) with
  | Some z => Some (z, "trace.observed_at_block")
  | None => match plain_int (py_get "exact_as_of" d) with Some z => Some (z, "exact_as_of") | None => None end
  end.

Inductive EmptyCredit :=
  | credit_not_determined (missing : list string)
  | credit_not_applicable
  | credit_earned (block : Z) (block_source : string) (reason : pyval).

(** [exact_empty_credit]; [None] when an unhashable step or reason raises. *)
Definition exact_empty_credit (cap : pyval) : option EmptyCredit :=
  match cap with
  | PyDict d =>
      if negb (py_eq_str (py_get "kind" d) "finite_set") || negb (py_same (py_get "members" d) (PyList []))
      then Some credit_not_applicable
      else
        let m1 := if negb (py_eq_str (py_get "membership_quality" d) "exact") || negb (py_eq_str (py_get "confidence" d) "enumerable")
                  then ["exact_enumerable"] else [] in
        let steps := match py_get "trace" d with PyList l => List.map step_name (List.filter is_dict l) | _ => [] end in
        proving ← any_m (fun step => py_in_set step COVERAGE_PROVING_TRACE_STEPS) steps;
        let m2 := if (proving : bool) then [] else ["coverage_proving_step"] in
        let observed := observation_block d in
        let m3 := match observed with None => ["observation_block"] | Some _ => [] end in
        let reason := py_get "empty_reason" d in
        confirmed ← py_in_set reason CONFIRMED_EMPTY;
        let m4 := if (confirmed : bool) then [] else ["read_confirmed_empty_reason"] in
        Some (match (m1 ++ m2 ++ m3 ++ m4)%list, observed with
              | [], Some (block, source) => credit_earned block source reason
              | missing, _ => credit_not_determined missing
              end)
  | _ => Some (credit_not_determined ["capability"])
  end.

(** ** Role grants *)

(** The grants by role, in insertion order (with the role as first written), and
    whether something was not determined. *)
Definition grants : Type := list (Z * (pyval * list string)).
Record gstate := MkG { g_grants : grants; g_not_determined : bool }.

Definition set_nd (s : gstate) : gstate := MkG (g_grants s) true.

Definition add_member (acc : list string) (member : pyval) : list string :=
  match address_of member with Some a => if decide (a ∈ acc) then acc else (acc ++ [a])%list | None => acc end.

(** [grants.setdefault(role, [])] and the members appended to it. *)
Definition grant_members (role : Z * pyval) (ms : list pyval) (g : grants) : grants :=
  let entry := match odict_get role.1 g with Some e => e | None => (role.2, []) end in
  odict_put role.1 (entry.1, fold_left add_member ms entry.2) g.

Definition int_roles (v : pyval) : option (list (Z * pyval)) :=
  l ← iter_or_nil v; Some (omap (M := list) (fun r => (fun z => (z, r)) <$> as_int r) l).

(** One trace step of a node. *)
Definition visit_step (d : dict) (s : gstate) (step : pyval) : option gstate :=
  match step with
  | PyDict st =>
      let name := py_get "step" st in
      dissolving ← py_in_set name ["enumerable_role_store"];
      if (dissolving : bool) then Some (set_nd s)
      else if negb (py_eq_str name "solmate_roles_authority") then Some s
      else
        roles ← int_roles (py_get "roles" st);
        Some (match roles with
              | [] => s
              | role :: more =>
                  match py_eq_str (py_get "kind" d) "finite_set", py_get "members" d, more with
                  | true, PyList ((_ :: _) as ms), [] => MkG (grant_members role ms (g_grants s)) (g_not_determined s)
                  | _, _, _ => set_nd s
                  end
              end)
  | _ => Some s
  end.

(** A node, without its children. *)
Definition visit_node (d : dict) (s : gstate) : option gstate :=
  let s := if py_eq_str (py_get "kind" d) "unsupported" then set_nd s else s in
  trace ← iter_or_nil (py_get "trace" d);
  foldM (visit_step d) trace s.

(** [visit] *)
Fixpoint visit (v : pyval) (s : gstate) : option gstate :=
  match v with
  | PyDict d =>
      s ← visit_node d s;
      s ← foldM (fun s f => f s) (child_results visit d).*2 s;
      foldM (fun s f => f s) (signer_results visit d) s
  | _ => Some s
  end.

Definition by_role (x y : Z * (pyval * list string)) : Prop := (x.1 <= y.1)%Z.
#[export] Instance by_role_dec : RelDecision by_role.
Proof. intros x y. unfold by_role. apply _. Defined.

Record RoleGrant := MkGrant { grant_role : pyval; grant_principals : list string }.

(** [capability_role_grants]: [Some None] is the source's [None]. *)
Definition capability_role_grants (earned_public : bool) (cap : pyval) : option (option (list RoleGrant)) :=
  s ← visit cap (MkG [] false);
  if g_not_determined s then Some None
  else
    let witnessed := List.map (fun e => MkGrant e.2.1 e.2.2)
                       (List.filter (fun e => negb (is_nil e.2.2)) (merge_sort by_role (g_grants s))) in
    match witnessed, g_grants s with
    | _ :: _, _ => Some (Some witnessed)
    | [], _ :: _ => Some None
    | [], [] =>
        surface ← project_capability_surface earned_public None None cap;
        openness ← capability_surface_openness cap surface;
        Some (if String.eqb openness "not_determined" then None else Some [])
    end.

(** ** The nodes a walk visits *)

Fixpoint cap_nodes (v : pyval) : list dict :=
  match v with
  | PyDict d => d :: (List.concat (child_results cap_nodes d).*2 ++ List.concat (signer_results cap_nodes d))%list
  | _ => []
  end.

Lemma signer_results_map {B} (f : pyval -> B) d :
  signer_results f d = match py_get "signer" d with PyDict s => [f (PyDict s)] | _ => [] end.
Proof.
  unfold signer_results, py_get. induction d as [|[k v] d IH]; [done|].
  cbn [List.map assoc_get fst snd]. destruct (decide ("signer" = k)); [by destruct v|exact IH].
Qed.

Lemma cap_signer_ind (P : pyval -> Prop) :
  (forall d, (forall c, c ∈ child_dicts d -> P c) -> (forall s, py_get "signer" d = PyDict s -> P (PyDict s)) -> P (PyDict d)) ->
  (forall v, is_dict v = false -> P v) -> forall v, P v.
Proof.
  intros Hd Hn v. enough (P v /\ match v with PyList l => Forall P l | _ => True end) by tauto.
  induction v as [| | | |l IH|d IH] using pyval_deep_ind; (split; [|done || idtac]); try (by apply Hn).
  - eapply Forall_impl; [exact IH|]. by intros ? [].
  - apply Hd.
    + intros c. unfold child_dicts, py_get. destruct (assoc_get "children" d) as [v|] eqn:E; [|by intros ?%not_elem_of_nil].
      apply assoc_get_member in E. apply (proj1 (Forall_forall _ _) IH) in E as [_ E]. cbn [snd] in E. destruct v as [| | | |l|]; try (by intros ?%not_elem_of_nil).
      rewrite list_elem_of_In, List.filter_In, <- list_elem_of_In. intros [Hc _]. by apply (proj1 (Forall_forall _ _) E).
    + intros s. unfold py_get. destruct (assoc_get "signer" d) as [v|] eqn:E; [|done]. apply assoc_get_member in E.
      apply (proj1 (Forall_forall _ _) IH) in E as [E _]. by intros ->.
Qed.

Lemma foldM_app {A B} (f : A -> B -> option A) l m a : foldM f (l ++ m)%list a = (a ← foldM f l a; foldM f m a).
Proof. revert a. induction l as [|x l IH]; intros a; [done|]. cbn [app foldM]. destruct (f a x); cbn [mbind option_bind]; [apply IH|done]. Qed.

Lemma snd_results {B} (f : pyval -> B) d : (child_results f d).*2 = List.map f (child_dicts d).
Proof. rewrite child_results_map. generalize (child_dicts d) as l. induction l; cbn; congruence. Qed.

(** Each walk is a fold over the nodes. *)
Lemma visit_nodes v : forall s, visit v s = foldM (fun s d => visit_node d s) (cap_nodes v) s.
Proof.
  induction v as [d IH Hsg|v Hv] using cap_signer_ind; [|by destruct v]. intros s. cbn [visit cap_nodes foldM].
  rewrite !snd_results, !signer_results_map. destruct (visit_node d s) as [s1|]; cbn [mbind option_bind]; [|done]. rewrite foldM_app.
  assert (forall cs s, (forall c, c ∈ cs -> forall s, visit c s = foldM (fun s d => visit_node d s) (cap_nodes c) s) ->
    foldM (fun s (f : gstate -> option gstate) => f s) (List.map visit cs) s
    = foldM (fun s d => visit_node d s) (List.concat (List.map cap_nodes cs)) s) as Hcs.
  { clear. induction cs as [|c cs IHc]; intros s H; [done|]. cbn [List.map List.concat foldM]. rewrite foldM_app, H by set_solver.
    destruct (foldM _ (cap_nodes c) s); cbn [mbind option_bind]; [apply IHc; set_solver|done]. }
  rewrite (Hcs _ _ IH). destruct (foldM _ _ s1) as [s2|]; cbn [mbind option_bind]; [|done].
  destruct (py_get "signer" d) as [| | | | |sg]; try done. specialize (Hsg sg eq_refl). cbn [List.concat foldM]. rewrite app_nil_r, Hsg.
  by destruct (foldM _ _ s2).
Qed.

Definition node_height (d : dict) : option Z := plain_int (py_get "last_indexed_block" d).

Lemma omap_concat {A B} (f : A -> option B) ls : omap (M := list) f (List.concat ls) = List.concat (List.map (omap (M := list) f) ls).
Proof. induction ls as [|l ls IH]; [done|]. cbn [List.concat List.map]. by rewrite omap_app, IH. Qed.

Lemma blocks_nodes v : last_indexed_blocks v = omap (M := list) node_height (cap_nodes v).
Proof.
  induction v as [d IH Hsg|v Hv] using cap_signer_ind; [|by destruct v]. cbn [last_indexed_blocks cap_nodes].
  rewrite !snd_results, !signer_results_map. change (omap node_height (d :: ?l)) with (match node_height d with Some z => z :: omap (M := list) node_height l | None => omap (M := list) node_height l end).
  rewrite omap_app, !omap_concat, List.map_map.
  assert (List.map last_indexed_blocks (child_dicts d) = List.map (fun x => omap (M := list) node_height (cap_nodes x)) (child_dicts d)) as ->.
  { apply List.map_ext_in. intros c Hc. apply IH. by apply list_elem_of_In. }
  assert (List.concat match py_get "signer" d with PyDict s => [last_indexed_blocks (PyDict s)] | _ => [] end
    = List.concat (List.map (omap (M := list) node_height) match py_get "signer" d with PyDict s => [cap_nodes (PyDict s)] | _ => [] end)) as ->.
  { destruct (py_get "signer" d); try done. cbn [List.map List.concat]. by rewrite Hsg. }
  fold (node_height d). by destruct (node_height d).
Qed.

Lemma lowest_spec hs l : lowest hs = Some l -> l ∈ hs /\ forall h, h ∈ hs -> (l <= h)%Z.
Proof.
  destruct hs as [|h hs]; [done|]. cbn [lowest]. intros [= <-]. revert h. induction hs as [|x hs IH]; intros h; cbn [fold_left]; [set_solver by lia|].
  destruct (IH (Z.min h x)) as [H1 H2]. split.
  - destruct (Z.min_spec h x) as [[_ E]|[_ E]]; rewrite E in H1 |- *; set_solver.
  - intros y. rewrite !elem_of_cons. intros [->|[->|Hy]]; [pose proof (H2 (Z.min h x)); set_solver by lia..|apply H2; set_solver].
Qed.

(** ** Grants *)

(** A step of [d]'s trace names [role] alone, and [a] is a member of [d]. *)
Definition step_names (d : dict) (step : pyval) (role : Z) (a : string) : Prop :=
  exists st r ms m, step = PyDict st /\ py_eq_str (py_get "step" st) "solmate_roles_authority" = true /\
    int_roles (py_get "roles" st) = Some [(role, r)] /\
    py_eq_str (py_get "kind" d) "finite_set" = true /\ py_get "members" d = PyList ms /\ m ∈ ms /\ address_of m = Some a.

Definition node_names (d : dict) (role : Z) (a : string) : Prop :=
  exists trace step, iter_or_nil (py_get "trace" d) = Some trace /\ step ∈ trace /\ step_names d step role a.

Definition granted (g : grants) (role : Z) (a : string) : Prop := exists r ms, odict_get role g = Some (r, ms) /\ a ∈ ms.

Record grants_ok (g : grants) : Prop := {
  gk_keys : NoDup g.*1;
  gk_roles : forall z r ms, (z, (r, ms)) ∈ g -> as_int r = Some z /\ NoDup ms
}.

Lemma odict_get_put {K V} `{EqDecision K} k k' (v : V) (d : list (K * V)) :
  odict_get k (odict_put k' v d) = if decide (k = k') then Some v else odict_get k d.
Proof.
  induction d as [|[k1 v1] d IH]; cbn; [by destruct (decide (k = k'))|].
  destruct (decide (k' = k1)) as [->|]; cbn; [by destruct (decide (k = k1))|]. rewrite IH.
  destruct (decide (k = k1)) as [->|]; [by rewrite decide_False|done].
Qed.

Lemma add_members_spec ms : forall acc a, a ∈ fold_left add_member ms acc <-> a ∈ acc \/ exists m, m ∈ ms /\ address_of m = Some a.
Proof.
  induction ms as [|m ms IH]; intros acc a; cbn [fold_left]; [split; [by left|intros [?|(? & ?%not_elem_of_nil & _)]; done]|].
  rewrite IH. unfold add_member. setoid_rewrite elem_of_cons. destruct (address_of m) as [b|] eqn:E.
  - destruct (decide (b ∈ acc)); split.
    + intros [?|(x & ? & ?)]; [by left|right; eauto].
    + intros [?|(x & [->|?] & ?)]; [by left|left; congruence|right; eauto].
    + intros [[?| ->%list_elem_of_singleton]%elem_of_app|(x & ? & ?)]; [by left|right; eauto|right; eauto].
    + rewrite elem_of_app, list_elem_of_singleton. intros [?|(x & [->|?] & ?)]; [by left; left|left; right; congruence|right; eauto].
  - split; intros [?|(x & Hx & ?)]; [by left|right; eauto|by left|]. destruct Hx as [->|?]; [congruence|right; eauto].
Qed.

Lemma add_members_NoDup ms : forall acc, NoDup acc -> NoDup (fold_left add_member ms acc).
Proof.
  induction ms as [|m ms IH]; intros acc H; [done|]. cbn [fold_left]. apply IH. unfold add_member. destruct (address_of m) as [b|]; [|done].
  case_decide; [done|]. apply NoDup_app. split_and!; [done|set_solver|apply NoDup_singleton].
Qed.

Lemma grant_members_spec z r ms g role a :
  granted (grant_members (z, r) ms g) role a <-> granted g role a \/ (role = z /\ exists m, m ∈ ms /\ address_of m = Some a).
Proof.
  unfold granted, grant_members. cbn [fst snd]. setoid_rewrite odict_get_put. destruct (decide (role = z)) as [->|N]; [|naive_solver].
  destruct (odict_get z g) as [[r0 ms0]|] eqn:E; cbn [fst snd]; split.
  - intros (r1 & m1 & [= <- <-] & [H|H]%add_members_spec); [left; eauto|right; eauto].
  - intros [(r1 & m1 & [= <- <-] & H)|[_ H]]; do 2 eexists; (split; [done|]); apply add_members_spec; auto.
  - intros (r1 & m1 & [= <- <-] & [H%not_elem_of_nil|H]%add_members_spec); [done|right; eauto].
  - intros [(r1 & m1 & ? & H)|[_ H]]; [done|]. do 2 eexists. split; [done|]. apply add_members_spec; auto.
Qed.

Lemma grant_members_ok z r ms g : as_int r = Some z -> grants_ok g -> grants_ok (grant_members (z, r) ms g).
Proof.
  intros Hr [Hk Hf]. unfold grant_members. cbn [fst snd]. split.
  - rewrite odict_put_keys. case_decide; [done|]. apply NoDup_app. split_and!; [done|set_solver|apply NoDup_singleton].
  - intros z' r' ms' H. destruct (odict_put_elem _ _ _ _ Hk H) as [[= -> -> ->]|[_ Hin]]; [|by eapply Hf].
    destruct (odict_get z g) as [[r0 ms0]|] eqn:E; cbn [fst snd].
    + apply odict_get_elem, Hf in E as [? ?]. split; [done|by apply add_members_NoDup].
    + split; [done|]. apply add_members_NoDup. constructor.
Qed.

(** What a step of the walk adds, when everything stays determined. *)
Definition stepped (s s' : gstate) (P : Z -> string -> Prop) : Prop :=
  (grants_ok (g_grants s) -> grants_ok (g_grants s')) /\
  (g_not_determined s' = false -> g_not_determined s = false /\
     forall role a, granted (g_grants s') role a <-> granted (g_grants s) role a \/ P role a).

Lemma stepped_fold {B} (f : gstate -> B -> option gstate) (P : B -> Z -> string -> Prop) :
  (forall s x s', f s x = Some s' -> stepped s s' (P x)) ->
  forall l s s', foldM f l s = Some s' -> stepped s s' (fun role a => exists x, x ∈ l /\ P x role a).
Proof.
  intros Hf l. induction l as [|x l IH]; intros s s'; cbn [foldM].
  - intros [= <-]. split; [done|]. intros Hn. split; [done|]. intros role a. split; [by left|]. intros [?|(? & ?%not_elem_of_nil & _)]; done.
  - destruct (f s x) as [s1|] eqn:E; cbn [mbind option_bind]; [|done]. intros H. destruct (Hf _ _ _ E) as [A1 A2], (IH _ _ H) as [B1 B2].
    split; [auto|]. intros Hn. destruct (B2 Hn) as [Hn1 Hb], (A2 Hn1) as [Hn0 Ha]. split; [done|]. intros role a. rewrite Hb, Ha.
    setoid_rewrite elem_of_cons. naive_solver.
Qed.

Lemma stepped_none s (P : Z -> string -> Prop) : (forall role a, ~ P role a) -> stepped s s P.
Proof. intros H. split; [done|]. intros Hn. split; [done|]. intros role a. split; [by left|]. intros [?|?]; [done|by destruct (H role a)]. Qed.

Lemma stepped_nd s P : stepped s (set_nd s) P.
Proof. split; [done|]. intros [=]. Qed.

Lemma int_roles_as_int v l z r : int_roles v = Some l -> (z, r) ∈ l -> as_int r = Some z.
Proof.
  unfold int_roles. destruct (iter_or_nil v) as [vs|]; cbn [mbind option_bind]; [|done]. intros [= <-].
  intros (x & _ & E)%list_elem_of_omap. destruct (as_int x) eqn:Ex; [|done]. by injection E as -> ->.
Qed.

Lemma visit_step_stepped d s step s' : visit_step d s step = Some s' -> stepped s s' (step_names d step).
Proof.
  unfold visit_step. destruct step as [| | | | |st]; try (intros [= <-]; apply stepped_none; by intros role a (? & ? & ? & ? & ? & _)).
  destruct (py_in_set _ _) as [[]|]; cbn [mbind option_bind]; [intros [= <-]; apply stepped_nd| |done].
  destruct (py_eq_str (py_get "step" st) "solmate_roles_authority") eqn:Es; cbn [negb].
  2: { intros [= <-]. apply stepped_none. intros role a (st' & ? & ? & ? & [= <-] & ? & _). congruence. }
  destruct (int_roles (py_get "roles" st)) as [roles|] eqn:Er; cbn [mbind option_bind]; [|done]. intros [= <-].
  assert (forall role a, step_names d (PyDict st) role a <-> exists r ms m, roles = [(role, r)] /\ py_eq_str (py_get "kind" d) "finite_set" = true /\
    py_get "members" d = PyList ms /\ m ∈ ms /\ address_of m = Some a) as Hn.
  { intros role a. unfold step_names. split; [intros (st' & r & ms & m & [= <-] & _ & E & ?); exists r, ms, m; naive_solver|].
    intros (r & ms & m & -> & ?). by exists st, r, ms, m. }
  destruct roles as [|[z r] more]; [apply stepped_none; intros role a (? & ? & ? & ? & _)%Hn; done|].
  destruct (py_eq_str (py_get "kind" d) "finite_set") eqn:Ek; [|apply stepped_nd].
  destruct (py_get "members" d) as [| | | |[|m0 ms]|] eqn:Em; try apply stepped_nd. destruct more; [|apply stepped_nd].
  split; cbn [g_grants g_not_determined].
  - apply grant_members_ok. eapply int_roles_as_int; [done|set_solver].
  - intros Hd. split; [done|]. intros role a. rewrite grant_members_spec, Hn. naive_solver.
Qed.

Lemma visit_node_stepped s d s' : visit_node d s = Some s' -> stepped s s' (node_names d).
Proof.
  unfold visit_node. destruct (iter_or_nil (py_get "trace" d)) as [trace|] eqn:Et; cbn [mbind option_bind]; [|done]. intros H.
  apply (stepped_fold _ (step_names d) (fun s x s' => visit_step_stepped d s x s')) in H as [H1 H2]. split.
  - intros Hg. apply H1. by destruct (py_eq_str _ _).
  - intros Hn. destruct (H2 Hn) as [Hn0 H3]. destruct (py_eq_str (py_get "kind" d) "unsupported"); [done|]. split; [done|]. intros role a.
    rewrite H3. unfold node_names. rewrite Et. naive_solver.
Qed.

Lemma visit_stepped cap s s' : visit cap s = Some s' -> stepped s s' (fun role a => exists d, d ∈ cap_nodes cap /\ node_names d role a).
Proof. rewrite visit_nodes. apply (stepped_fold _ node_names). intros s0 d s1. apply visit_node_stepped. Qed.

Lemma granted_elem g role a : grants_ok g -> granted g role a <-> exists r ms, (role, (r, ms)) ∈ g /\ a ∈ ms.
Proof.
  intros [Hk _]. unfold granted. split; [intros (r & ms & H%odict_get_elem & ?); eauto|]. intros (r & ms & H & Ha). exists r, ms. split; [|done].
  clear Ha. induction g as [|[k v] g IH]; [by apply not_elem_of_nil in H|]. cbn. apply NoDup_cons in Hk as [Hk1 Hk2]. apply elem_of_cons in H as [[= <- <-]|H].
  - by rewrite decide_True.
  - rewrite decide_False; [by apply IH|]. intros ->. apply Hk1. apply list_elem_of_fmap. by exists (k, (r, ms)).
Qed.

(** The role grants are exactly the witnessed ones.  When the walk of a
    capability is determined and finds a grant, an address is listed under a role
    if and only if some node of the tree (children and signers included) is a
    finite set with that address as a well-formed member and with a trace step that
    names that role alone; each role's list has no duplicates.  When it finds none
    and answers the empty list, no node witnesses a grant. *)
Theorem role_grants_witnessed ep cap l :
  capability_role_grants ep cap = Some (Some l) ->
  (forall role a, (exists g, g ∈ l /\ as_int (grant_role g) = Some role /\ a ∈ grant_principals g)
                  <-> exists d, d ∈ cap_nodes cap /\ node_names d role a) /\
  Forall (fun g => NoDup (grant_principals g) /\ grant_principals g <> []) l.
Proof.
  unfold capability_role_grants. destruct (visit cap _) as [s|] eqn:E; cbn [mbind option_bind]; [|done].
  destruct (visit_stepped _ _ _ E) as [Hok Hg]. destruct (g_not_determined s); [done|]. destruct (Hg eq_refl) as [_ Hgr]. clear Hg.
  assert (grants_ok (g_grants s)) as Hs by (apply Hok; split; [constructor|set_solver]).
  set (w := List.map _ _). intros H.
  assert (l = w) as ->.
  { destruct w as [|x w'] eqn:Ew; [|by injection H as <-]. destruct (g_grants s); [|done].
    destruct (project_capability_surface _ _ _ _); cbn [mbind option_bind] in H; [|done].
    destruct (capability_surface_openness _ _) as [o|]; cbn [mbind option_bind] in H; [|done]. destruct (String.eqb o _); [done|]. by injection H as <-. }
  clear H. assert (forall g, g ∈ w <-> exists z, (z, (grant_role g, grant_principals g)) ∈ g_grants s /\ grant_principals g <> []) as Hw.
  { intros g. unfold w. rewrite list_elem_of_fmap. setoid_rewrite list_elem_of_In. setoid_rewrite List.filter_In. setoid_rewrite <- list_elem_of_In.
    setoid_rewrite merge_sort_Permutation. split.
    - intros ([z [r ms]] & -> & Hin & Hne). exists z. cbn [grant_role grant_principals fst snd] in *. split; [done|by destruct ms].
    - intros (z & Hin & Hne). eexists. split; [|split; [exact Hin|]]; [by destruct g|]. cbn [snd]. by destruct (grant_principals g). }
  split.
  - intros role a. etrans; [|etrans; [apply (Hgr role a)|]].
    + rewrite granted_elem by done. split.
      * intros (g & (z & Hin & _)%Hw & Hr & Ha). destruct (gk_roles _ Hs _ _ _ Hin) as [Hz _]. assert (z = role) as -> by congruence. eauto.
      * intros (r & ms & Hin & Ha). exists (MkGrant r ms). rewrite Hw. cbn [grant_role grant_principals]. split_and!; [|by eapply gk_roles|done].
        exists role. split; [done|]. intros ->. by apply not_elem_of_nil in Ha.
    + split; [|by right]. intros [(r & ms & ? & _)|H]; [done|exact H].
  - apply Forall_forall. intros g (z & Hin & Hne)%Hw. split; [by eapply gk_roles|done].
Qed.

(** A capability is current only as a whole.  The verdict is [current] exactly
    when the index head is known, at least one node records a height, and every
    recorded height of the tree, signers included, is less than the staleness bound
    behind the head; the lag is that of the lowest height and is absent, never
    zero, when nothing was determined. *)
Theorem currency_is_the_lowest cap head :
  (cur_verdict (capability_currency cap head) = currency_current <->
     (exists d, d ∈ cap_nodes cap /\ is_Some (node_height d)) /\
     exists h, head = Some h /\ forall d b, d ∈ cap_nodes cap -> node_height d = Some b -> (h - b < CAPABILITY_INDEX_STALE_BLOCKS)%Z) /\
  (cur_lag (capability_currency cap head) = None <-> cur_verdict (capability_currency cap head) = currency_not_determined) /\
  (forall lag, cur_lag (capability_currency cap head) = Some lag ->
     exists h d b, head = Some h /\ d ∈ cap_nodes cap /\ node_height d = Some b /\ lag = Z.max 0 (h - b)).
Proof.
  unfold capability_currency. rewrite blocks_nodes.
  assert (forall b, b ∈ omap (M := list) node_height (cap_nodes cap) <-> exists d, d ∈ cap_nodes cap /\ node_height d = Some b) as Hin.
  { intros b. by rewrite list_elem_of_omap. }
  destruct (lowest _) as [l|] eqn:El.
  - apply lowest_spec in El as [Hl Hle]. apply Hin in Hl as (d0 & Hd0 & Hb0). destruct head as [h|]; cbn [cur_verdict cur_lag].
    + split_and!; [|split; [done|by case_match]|intros lag [= <-]; eauto 7].
      destruct (Z.leb_spec CAPABILITY_INDEX_STALE_BLOCKS (Z.max 0 (h - l))) as [Hc|Hc]; unfold CAPABILITY_INDEX_STALE_BLOCKS in *; (split; [|]).
      * done.
      * intros (_ & h' & [= <-] & H). specialize (H d0 l Hd0 Hb0). lia.
      * intros _. split; [eauto|]. exists h. split; [done|]. intros d b Hd Hb. assert (l <= b)%Z by (apply Hle, Hin; eauto). lia.
      * done.
    + split_and!; [split; [done|by intros (_ & ? & ? & _)]|done|done].
  - cbn [cur_verdict cur_lag]. split_and!; [|done|done]. split; [done|]. intros ((d & Hd & b & Hb) & _).
    assert (b ∈ omap (M := list) node_height (cap_nodes cap)) as H by (apply Hin; eauto).
    destruct (omap _ _); [by apply not_elem_of_nil in H|done].
Qed.

Definition role_step (role : Z) : pyval := PyDict [("step", PyStr "solmate_roles_authority"); ("roles", PyList [PyInt role])].

(** A role-gated set in an OR beside another role's set. *)
Definition roles_example : pyval :=
  let set role c := PyDict [("kind", PyStr "finite_set"); ("members", PyList [PyStr ("0x" ++ str_repeat c 40); PyStr "short"]);
                            ("last_indexed_block", PyInt (100 + role)); ("trace", PyList [role_step role])] in
  PyDict [("kind", PyStr "OR"); ("children", PyList [set 3%Z "A"%char; set 1%Z "b"%char; PyDict [("kind", PyStr "conditional_universal")]])].

Lemma role_grants_witnessed_witness : exists l,
  capability_role_grants true roles_example = Some (Some l) /\ List.map grant_role l = [PyInt 1; PyInt 3] /\
  exists g, g ∈ l /\ as_int (grant_role g) = Some 3%Z /\ ("0x" ++ str_repeat "a" 40) ∈ grant_principals g.
Proof.
  destruct (capability_role_grants true roles_example) as [[l|]|] eqn:E; [|by vm_compute in E..].
  exists l. split; [done|]. split; [vm_compute in E; by injection E as <-|].
  apply (proj2 (proj1 (role_grants_witnessed true roles_example l E) 3%Z ("0x" ++ str_repeat "a" 40))).
  eexists. split; [right; left|]. exists [role_step 3], (role_step 3). split; [reflexivity|]. split; [left|].
  do 4 eexists. split; [reflexivity|]. split; [reflexivity|]. split; [reflexivity|]. split; [reflexivity|]. split; [reflexivity|].
  split; [left|vm_compute; reflexivity].
Defined.
