(* ===== verification/Shapes.v ===== *)
(** * Shapes of predicate leaves

    The tests the predicate evaluator makes of a leaf before it resolves it:
    [services/resolution/permissionless_shapes.py] whole, the reach-condition tests
    of [predicate_types.py], [permit.py], the leaf tests of
    [predicate_evaluator/core.py] and the pure helpers of [telemetry.py].

    A leaf is the dict the static analysis wrote.  A test is an option: [None] is
    the exception the code raises on a value of the wrong shape. *)

From stdpp Require Import base sets list strings.
From Stdlib Require Import String Ascii ZArith Lia.
From S2P Require Import Prelude PyText EventFold EvalContext Capabilities Surface.

Local Open Scope string_scope.

(** ** Operand tests *)

(** [op.get("source") in CALLER_SOURCES] and with [(op or {})]. *)
Definition caller_sourced (op : pyval) : option bool := s ← dget "source" op; py_in_set s CALLER_SOURCES.
Definition caller_sourced_or (op : pyval) : option bool := s ← dget_or "source" op; py_in_set s CALLER_SOURCES.

Definition operands (leaf : dict) : option (list pyval) := iter_or_nil (py_get "operands" leaf).

(** [(leaf.get("set_descriptor") or {}).get("key_sources") or []] *)
Definition descriptor_keys (leaf : dict) : option (list pyval) :=
  keys ← dget_or "key_sources" (py_get "set_descriptor" leaf); iter_or_nil keys.

(** The index of the first element a test accepts ([next(..., None)]). *)
Fixpoint find_index_from (i : nat) (p : pyval -> option bool) (l : list pyval) : option (option nat) :=
  match l with
  | [] => Some None
  | x :: l => b ← p x; if (b : bool) then Some (Some i) else find_index_from (S i) p l
  end.

Definition find_index (p : pyval -> option bool) (l : list pyval) : option (option nat) := find_index_from 0 p l.

(** ** Caller taint *)

(** [_leaf_has_direct_caller_source] *)
Definition leaf_has_direct_caller_source (leaf : dict) : option bool :=
  ops ← operands leaf;
  or_m (any_m caller_sourced_or ops) (keys ← descriptor_keys leaf; any_m caller_sourced_or keys).

(** [leaf_caller_taint_is_collapsed] *)
Definition leaf_caller_taint_is_collapsed (leaf : dict) : option bool :=
  direct ← leaf_has_direct_caller_source leaf;
  if (direct : bool) then Some false
  else if negb (py_eq_str (py_get "kind" leaf) "equality") || negb (py_in (py_get "operator" leaf) ["truthy"; "falsy"])
  then Some false
  else
    ops ← py_iter (py_or (py_get "operands" leaf) (PyList []));
    match ops with
    | [raw] =>
        source ← dget_or "source" raw;
        if negb (py_in source ["view_call"; "computed"]) then Some false
        else origins ← dget_or "derived_from" raw; l ← iter_or_nil origins; any_m caller_sourced_or l
    | _ => Some false
    end.

(** [leaf_is_caller_tainted] *)
Definition leaf_is_caller_tainted (leaf : dict) : option bool :=
  or_m (leaf_has_direct_caller_source leaf) (leaf_caller_taint_is_collapsed leaf).

(** ** Caller-keyed lists *)

Definition is_timestamp (op : pyval) : option bool :=
  source ← dget "source" op;
  if py_eq_str source "block_context" then kind ← dget "block_context_kind" op; Some (py_eq_str kind "timestamp")
  else Some false.

(** Where the caller and the timestamp stand in a two-operand comparison. *)
Definition caller_time_positions (leaf : dict) : option (option (nat * nat)) :=
  if negb (py_eq_str (py_get "kind" leaf) "comparison") then Some None
  else
    ops ← operands leaf;
    match ops with
    | [_; _] =>
        caller ← find_index caller_sourced ops;
        time ← find_index is_timestamp ops;
        Some (match caller, time with Some c, Some t => Some (c, t) | _, _ => None end)
    | _ => Some None
    end.

(** [is_caller_keyed_time_allowlist] *)
Definition is_caller_keyed_time_allowlist (leaf : dict) : option bool :=
  positions ← caller_time_positions leaf;
  Some (match positions with
        | None => false
        | Some (c, t) =>
            if (c <? t)%nat then py_in (py_get "operator" leaf) ["gt"; "gte"] else py_in (py_get "operator" leaf) ["lt"; "lte"]
        end).

(** [is_caller_keyed_time_denylist] *)
Definition is_caller_keyed_time_denylist (leaf : dict) : option bool :=
  positions ← caller_time_positions leaf;
  Some (match positions with
        | None => false
        | Some (c, t) =>
            if (c <? t)%nat then py_in (py_get "operator" leaf) ["lt"; "lte"] else py_in (py_get "operator" leaf) ["gt"; "gte"]
        end).

(** [is_caller_keyed_membership_allowlist] *)
Definition is_caller_keyed_membership_allowlist (leaf : dict) : option bool :=
  if negb (py_eq_str (py_get "kind" leaf) "membership") || negb (py_eq_str (py_get "operator" leaf) "truthy") then Some false
  else keys ← descriptor_keys leaf; any_m caller_sourced keys.

(** [caller_gate_basis] *)
Definition caller_gate_basis (leaf : dict) : option string :=
  time ← is_caller_keyed_time_allowlist leaf;
  if (time : bool) then Some "caller_keyed_time_allowlist"
  else
    member ← is_caller_keyed_membership_allowlist leaf;
    Some (if (member : bool) then "caller_keyed_membership_allowlist" else "caller_tainted_authority_unresolved").

(** ** Permissionless shapes *)

(** [_operand_address_plausible] *)
Definition operand_address_plausible (op : pyval) : option bool :=
  source ← dget_or "source" op;
  if py_in source ["state_variable"; "view_call"; "external_call"; "self_address"] then Some true
  else if py_eq_str source "constant" then
    value_type ← dget "value_type" op;
    if py_eq_str value_type "address" then Some true
    else value ← dget "constant_value" op; Some (match value with PyStr s => hex_shaped 42 s | _ => false end)
  else value_type ← dget_or "value_type" op; Some (py_eq_str value_type "address").

(** [v in (None, "a", ...)] *)
Definition none_or_in (v : pyval) (names : list string) : bool := is_none v || py_in v names.

(** [needle in v] for a needle in text; a non-text, non-list value raises. *)
Definition signature_or (a b : pyval) : pyval := py_or a (py_or b (PyStr "")).

(** [is_permissionless_caller_shape] *)
Definition is_permissionless_caller_shape (leaf : dict) : option bool :=
  collapsed ← leaf_caller_taint_is_collapsed leaf;
  let operator := py_get "operator" leaf in
  let kind := py_get "kind" leaf in
  let mutability := py_get "callee_state_mutability" leaf in
  if (collapsed : bool) then Some false
  else if py_in operator ["falsy"; "ne"] then Some true
  else if py_eq_str kind "comparison" then negb <$> is_caller_keyed_time_allowlist leaf
  else if py_eq_str kind "equality" then
    ops ← operands leaf;
    others ← filter_m (fun op => negb <$> caller_sourced_or op) ops;
    match others with
    | [] =>
        Some (if py_eq_str operator "eq" && (2 <=? List.length ops)%nat then true else negb (none_or_in mutability ["view"; "pure"]))
    | _ =>
        own ← all_m (fun op => s ← dget_or "source" op; Some (py_eq_str s "parameter")) others;
        if (own : bool) then Some true else negb <$> any_m operand_address_plausible others
    end
  else if py_eq_str kind "external_bool" then
    if negb (none_or_in mutability ["nonview"]) then Some false
    else if py_in (py_get "gate_kind" leaf) ["external_call_revert"; "try_catch_revert"] then
      stored ← (if py_truthy (py_get "callee_signature" leaf) then Some PyNone
                else dget_or "callee_signature" (py_get "set_descriptor" leaf));
      negb <$> py_contains "bytes32[]" (signature_or (py_get "callee_signature" leaf) stored)
    else Some true
  else Some false.

(** ** Reach conditions ([predicate_types.py]) *)

Definition REACH_CONDITION_BASIS : string := "revert_path_condition".
Definition REACH_READ : string := "reach_read".

(** [is_reach_condition] *)
Definition is_reach_condition (leaf : pyval) : option bool :=
  match leaf with PyDict d => py_contains REACH_CONDITION_BASIS (py_or (py_get "basis" d) (PyList [])) | _ => Some false end.

(** [_leaf_operands] *)
Definition leaf_operands (d : dict) : option (list pyval) :=
  ops ← operands d;
  absorbed ← iter_or_nil (py_get "absorbed_operands" d);
  keys ← descriptor_keys d;
  Some (ops ++ absorbed ++ keys)%list.

(** [is_read_reach_condition] *)
Definition is_read_reach_condition (leaf : pyval) : option bool :=
  reach ← is_reach_condition leaf;
  match reach, leaf with
  | true, PyDict d =>
      if py_truthy (py_get "references_msg_sender" d) then Some false
      else
        ops ← leaf_operands d;
        negb <$> any_m (fun op => match op with PyDict _ => caller_sourced op | _ => Some false end) ops
  | _, _ => Some false
  end.

(** [is_read_reach_tree]: what the test says of each child; an element that is no
    dict is none. *)
Definition reach_results (test : pyval -> option bool) (v : pyval) : option (list (option bool)) :=
  match v with
  | PyList l => Some (List.map test l)
  | v => if py_truthy v then (match py_iter v with Some l => Some (List.map (fun _ => Some false) l) | None => None end) else Some []
  end.

Fixpoint is_read_reach_tree (tree : pyval) : option bool :=
  match tree with
  | PyDict d =>
      let children := match assoc_get "children" (List.map (fun kv => (kv.1, reach_results is_read_reach_tree kv.2)) d) with
                      | Some r => r
                      | None => Some []
                      end in
      if py_eq_str (py_get "op" d) "LEAF" then is_read_reach_condition (py_get "leaf" d)
      else match children with
           | None => None
           | Some [] => Some false
           | Some l => all_m (fun x => x) l
           end
  | _ => Some false
  end.

(** ** Permits ([permit.py]) *)

Definition SIGNATURE_VERIFIER_CALLEES : list string :=
  ["ecrecover"; "recover"; "tryRecover"; "isValidSignature"; "isValidSignatureNow"].

Definition PERMIT_FAMILY_SIGNATURES : list string :=
  ["permit(address,address,uint256,uint256,uint8,bytes32,bytes32)";
   "permit(address,address,uint256,uint256,bool,uint8,bytes32,bytes32)";
   "transferWithAuthorization(address,address,uint256,uint256,uint256,bytes32,uint8,bytes32,bytes32)";
   "receiveWithAuthorization(address,address,uint256,uint256,uint256,bytes32,uint8,bytes32,bytes32)";
   "cancelAuthorization(address,bytes32,uint8,bytes32,bytes32)"].

(** [s.replace(" ", "")] *)
Fixpoint drop_spaces (s : string) : string :=
  match s with EmptyString => "" | String c s => if Ascii.eqb c " " then drop_spaces s else String c (drop_spaces s) end.

(** [_is_permit_family_signature] *)
Definition is_permit_family_signature (signature : pyval) : bool :=
  match signature with
  | PyStr s => str_has "(" s && bool_decide (drop_spaces s ∈ PERMIT_FAMILY_SIGNATURES)
  | _ => false
  end.

(** [_leaf_is_permit_shape] *)
Definition leaf_is_permit_shape (leaf : dict) : option bool :=
  ops ← operands leaf;
  found ← any_m (fun op =>
    source ← dget "source" op;
    if py_eq_str source "signature_recovery" then Some true
    else callee ← dget "callee" op; Some (match callee with PyStr s => bool_decide (s ∈ SIGNATURE_VERIFIER_CALLEES) | _ => false end)) ops;
  Some (found || is_permit_family_signature (py_get "callee_signature" leaf)).

(** ** Leaf tests of [core.py] *)

(** [_has_caller_keyed_value_predicate] *)
Definition has_caller_keyed_value_predicate (leaf : dict) : option bool :=
  predicate ← dget_or "value_predicate" (py_get "set_descriptor" leaf);
  if negb (py_truthy predicate) then Some false
  else keys ← descriptor_keys leaf; any_m caller_sourced keys.

(** [_is_opaque_bool_return_predicate] *)
Definition is_opaque_bool_return_predicate (leaf : dict) : option bool :=
  named ← py_contains "bool-return predicate" (py_or (py_get "basis" leaf) (PyList []));
  if negb named || py_truthy (py_get "set_descriptor" leaf) || negb (py_eq_str (py_get "kind" leaf) "equality") then Some false
  else ops ← operands leaf; any_m (fun op => s ← dget_or "source" op; py_in_set s ["computed"; "external_call"; "top"]) ops.

(** [_is_recovered_signer_membership] *)
Definition is_recovered_signer_membership (leaf : dict) : option bool :=
  if negb (py_eq_str (py_get "kind" leaf) "membership") then Some false
  else keys ← descriptor_keys leaf; any_m (fun key => s ← dget "source" key; Some (py_eq_str s "signature_recovery")) keys.

(** [(leaf.get("authority_proof") or {}).get("state") == "not_determined"] *)
Definition proof_not_determined (leaf : dict) : option bool :=
  state ← dget_or "state" (py_get "authority_proof" leaf); Some (py_eq_str state "not_determined").

(** The leaf resolution refuses: a recovered signer, or an undetermined proof. *)
Definition signer_unresolved (leaf : dict) : option bool := or_m (is_recovered_signer_membership leaf) (proof_not_determined leaf).

Definition SIDE_ROLES : list string := ["reentrancy"; "pause"; "business"; "time"; "one_shot"].

(** [external_bool_leaf_is_gate_shape] of [shared.py]; raises when the signature is
    neither text nor a container. *)
Definition external_bool_leaf_is_gate_shape (mutability gate_kind signature : pyval) : option bool :=
  if py_in mutability ["view"; "pure"; "nonview_library"] then Some true
  else if none_or_in mutability ["nonview"] && py_in gate_kind ["external_call_revert"; "try_catch_revert"]
  then py_contains "bytes32[]" (py_or signature (PyStr ""))
  else Some false.

(** ** Telemetry helpers *)

(** [_frame_is_inlined] *)
Definition frame_is_inlined (ctx : EvaluationContext) : bool :=
  match call_frame ctx with Some f => match current_msg_sender f with Some _ => true | None => false end | None => false end.

Definition set_subject (s : Subject) (c : CapabilityExpr) : CapabilityExpr :=
  MkCap (kind c) (members c) (threshold c) (blacklist c) (signer c) (check c) (conditions c)
    (unsupported_reason c) (children c) (membership_quality c) (blacklist_quality c) (confidence c)
    (empty_reason c) (last_indexed_block c) (exact_as_of c) (trace c) s.

(** [_tag_caller_subject] *)
Definition tag_caller_subject (c : CapabilityExpr) (ctx : EvaluationContext) : CapabilityExpr :=
  set_subject (if frame_is_inlined ctx then bound else root) c.

(** [_adapter_declined_external_set] *)
Definition adapter_declined_external_set (c : CapabilityExpr) : bool :=
  match kind c with
  | K_unsupported | K_external_check_only => true
  | K_finite_set => is_nil (or_nil (members c)) && negb (bool_decide (membership_quality c = exact))
  | _ => false
  end.

(** [_adapter_deferred_pending_index] *)
Definition adapter_deferred_pending_index (c : CapabilityExpr) : bool :=
  match kind c, check c with
  | K_external_check_only, Some chk => py_truthy (py_get "deferred_pending_index" (extra chk))
  | _, _ => false
  end.

(** [_state_var_lookup_key] *)
Definition state_var_lookup_key (operand : dict) : option string :=
  match py_get "state_variable_name" operand with
  | PyStr name =>
      if String.eqb name "" then None
      else match py_get "member_path" operand with
           | PyList path =>
               match omap (M := list) (fun p => match p with PyStr s => if String.eqb s "" then None else Some s | _ => None end) path with
               | [] => Some name
               | parts => Some (str_join "." (name :: parts))
               end
           | _ => Some name
           end
  | _ => None
  end.

(** [_is_zero_address] *)
Definition is_zero_address (value : string) : bool := String.eqb (str_lower value) ("0x" ++ str_repeat "0" 40).
