(* ===== verification/Binding.v ===== *)
(** * Callee parameters and frames ([predicate_evaluator/binding.py])

    When a gate calls another contract, the callee's predicate tree is evaluated
    in the caller's terms: its parameters are replaced by the call's operands
    ([bind_value]) and its frame-relative values by the frame's
    ([normalize_value_for_frame]).

    - [keccak4] is the first four bytes of [keccak(text=...)] in hex, and
      [rpc_request] the node ([None]: it raised); both are arguments.
    - The per-pass memo of successful reads returns what the node returned and is
      not represented.
    - [normalize_value_for_frame] recurses into a bound operand with the parameter
      marked as seen: the number of bound parameters bounds the nesting.
      [normalize_operand_for_call_arg] has no such mark; its fuel is the
      interpreter's recursion limit and running out of it the [RecursionError]. *)

From stdpp Require Import base sets list strings.
From Stdlib Require Import String Ascii ZArith Lia.
From S2P Require Import Prelude PyText EventFold EvalContext Capabilities Surface Shapes.

Local Open Scope string_scope.

Definition starts_0x (s : string) : bool := match str_after "0x" s with Some _ => true | None => false end.

(** ** Canonical signatures ([predicate_artifacts.py]) *)

Definition ELEMENTARY_PREFIXES : list string := ["uint"; "int"; "bytes"; "address"; "bool"; "string"; "fixed"; "ufixed"].

Definition SELECTORLESS_SIGNATURES : list string := ["fallback()"; "receive()"].

(** [_split_top_level]: the piece being read and the ones after it. *)
Fixpoint split_loop (depth : Z) (s : string) : string * list string :=
  match s with
  | EmptyString => ("", [])
  | String c s =>
      if Ascii.eqb c "," && (depth =? 0)%Z then let r := split_loop depth s in ("", r.1 :: r.2)
      else
        let depth := if Ascii.eqb c "(" then (depth + 1)%Z else if Ascii.eqb c ")" then (depth - 1)%Z else depth in
        let r := split_loop depth s in (String c r.1, r.2)
  end.

Definition split_top_level (s : string) : list string := let r := split_loop 0 s in r.1 :: r.2.

(** [s[: s.rindex(c)]]; [None] is the [ValueError]. *)
Fixpoint before_last (c : ascii) (s : string) : option string :=
  match s with
  | EmptyString => None
  | String a s =>
      match before_last c s with
      | Some p => Some (String a p)
      | None => if Ascii.eqb a c then Some "" else None
      end
  end.

(** [while token.endswith("]"): token = token[: token.rindex("[")]] *)
Fixpoint strip_arrays (fuel : nat) (token : string) : option string :=
  match fuel with
  | O => Some token
  | S fuel => if str_ends_with "]" token then p ← before_last "[" token; strip_arrays fuel p else Some token
  end.

(** [s[1:-1]] *)
Definition inner_text (s : string) : string := match s with EmptyString => "" | String _ s => str_take (String.length s - 1) s end.

Definition nonempty (s : string) : bool := negb (String.eqb s "").

(** [_is_elementary_token] *)
Fixpoint is_elementary_token (fuel : nat) (token : string) : option bool :=
  match fuel with
  | O => None
  | S fuel =>
      token ← strip_arrays (String.length token) (str_strip token);
      if bool_decide (is_Some (str_after "(" token)) && str_ends_with ")" token
      then all_m (is_elementary_token fuel) (List.filter nonempty (split_top_level (inner_text token)))
      else Some (existsb (fun p => bool_decide (is_Some (str_after p token))) ELEMENTARY_PREFIXES)
  end.

(** [s[s.index("(") + 1 :]] *)
Fixpoint after_paren (s : string) : option string :=
  match s with EmptyString => None | String c s => if Ascii.eqb c "(" then Some s else after_paren s end.

(** [is_canonical_abi_signature] *)
Definition is_canonical_abi_signature (signature : string) : option bool :=
  if bool_decide (signature ∈ SELECTORLESS_SIGNATURES) then Some false
  else match after_paren signature with
       | Some rest =>
           if negb (str_ends_with ")" signature) then Some false
           else all_m (fun t => is_elementary_token (S (String.length t)) t)
                  (List.filter (fun t => nonempty (str_strip t)) (split_top_level (str_take (String.length rest - 1) rest)))
       | None => Some false
       end.

Section Binding.
Context (keccak4 : string -> string).
Context (rpc_request : string -> string -> list pyval -> option Z -> option pyval).

(** ** Selectors *)

(** [_selector_for_signature] *)
Definition selector_for_signature (signature : string) : option string :=
  if negb (str_has "(" signature) || negb (str_ends_with ")" signature) then None else Some ("0x" ++ keccak4 signature).

(** [_selector_for_canonical_signature]; the outer option is the exception. *)
Definition selector_for_canonical_signature (signature : pyval) : option (option string) :=
  match signature with
  | PyStr s => canonical ← is_canonical_abi_signature s; Some (if (canonical : bool) then selector_for_signature s else None)
  | _ => Some None
  end.

(** [_stored_dispatch_selector] *)
Definition stored_dispatch_selector (selector signature : pyval) : option (option string) :=
  match selector with
  | PyStr sel =>
      if String.eqb sel "" then Some None
      else match signature with
           | PyStr s =>
               canonical ← selector_for_canonical_signature signature;
               Some (if bool_decide (canonical = None) && bool_decide (Some (str_lower sel) = selector_for_signature s)
                     then None else Some sel)
           | _ => Some (Some sel)
           end
  | _ => Some None
  end.

(** [_key_dispatch_selector] *)
Definition key_dispatch_selector (key : string) (canonical_signatures : pyval) : option (option string) :=
  selector_for_canonical_signature
    (match canonical_signatures with
     | PyDict d => match assoc_get key d with Some v => v | None => PyStr key end
     | _ => PyStr key
     end).

(** [_callee_tree_entry]: the tree by its spelling, else the first whose selector matches. *)
Fixpoint entry_by_selector (trees : dict) (callee_selector : string) (canonical_signatures : pyval) : option (option (string * pyval)) :=
  match trees with
  | [] => Some None
  | (signature, tree) :: trees =>
      if negb (is_dict tree) then entry_by_selector trees callee_selector canonical_signatures
      else
        key ← key_dispatch_selector signature canonical_signatures;
        if bool_decide (Some callee_selector ∈ [selector_for_signature signature; key]) then Some (Some (signature, tree))
        else entry_by_selector trees callee_selector canonical_signatures
  end.

Definition truthy_text (o : option string) : option string := match o with Some s => if String.eqb s "" then None else o | None => None end.

Definition callee_tree_entry (trees : dict) (callee_signature callee_selector : option string) (canonical_signatures : pyval)
    : option (option (string * pyval)) :=
  match (s ← truthy_text callee_signature; (fun t => (s, t)) <$> assoc_get s trees) with
  | Some (s, tree) => Some (if is_dict tree then Some (s, tree) else None)
  | None =>
      match truthy_text callee_selector with
      | Some sel => entry_by_selector trees sel canonical_signatures
      | None => Some None
      end
  end.

(** ** Operands of the call *)

(** [_is_target_call_operand] *)
Definition is_target_call_operand (callee_signature callee_selector : option string) (operand : dict) : bool :=
  py_eq_str (py_get "source" operand) "external_call" &&
  (match truthy_text callee_signature with Some s => py_eq_str (py_get "callee_signature" operand) s | None => false end
   || match truthy_text callee_selector with Some s => py_eq_str (py_get "callee_selector" operand) s | None => false end).

(** [_callee_argument_operands] *)
Definition callee_argument_operands (leaf : dict) (callee_signature callee_selector : option string) : option (list dict) :=
  ops ← operands leaf;
  Some (omap (M := list) (fun op => match op with
                | PyDict d => if is_target_call_operand callee_signature callee_selector d then None else Some d
                | _ => None
                end) ops).

(** [_bound_parameter_operand] *)
Definition bound_parameter_operand (operand : dict) (params : list pyval) : option dict :=
  match as_int (py_get "parameter_index" operand) with
  | Some idx => if (0 <=? idx)%Z && (idx <? Z.of_nat (List.length params))%Z then params !! Z.to_nat idx ≫= as_dict else None
  | None => None
  end.

Definition constant_operand (v : string) : dict := [("source", PyStr "constant"); ("constant_value", PyStr v)].

(** [hex(block) if isinstance(block, int) else "latest"] *)
Definition block_tag (block : option Z) : string := match block with Some b => hex_text b | None => "latest" end.

(** [_resolve_static_external_call_operand] *)
Definition resolve_static_external_call_operand (operand : dict) (callee_contract_address rpc_url : option string)
    (block : option Z) (chain_id : option Z) : option dict :=
  match py_get "callee_signature" operand with
  | PyStr signature =>
      if negb (str_ends_with "()" signature) then None
      else
        let selector :=
          match py_get "callee_selector" operand with
          | PyStr s => if hex_shaped 10 s then Some s else selector_for_signature signature
          | _ => selector_for_signature signature
          end in
        sel ← truthy_text selector;
        contract ← callee_contract_address;
        url ← truthy_text rpc_url;
        if negb (starts_0x contract) then None
        else
          raw ← rpc_request url "eth_call"
                  [PyDict [("to", PyStr (str_lower contract)); ("data", PyStr sel)]; PyStr (block_tag block)] chain_id;
          match raw with
          | PyStr word =>
              if starts_0x word && (66 <=? String.length word)%nat
              then Some (constant_operand ("0x" ++ str_lower (str_last 64 word))) else None
          | _ => None
          end
  | _ => None
  end.

(** [getattr(frame, a) or getattr(frame, b)] *)
Definition frame_this (f : CallFrame) : option string := opt_or (current_address_this f) (executing_contract_address f).
Definition frame_sig (f : CallFrame) : option string := opt_or (current_msg_sig f) (current_function_selector f).

(** The constant of a frame text that is an address or selector. *)
Definition frame_constant (o : option string) : option dict :=
  match o with Some s => if starts_0x s then Some (constant_operand (str_lower s)) else None | None => None end.

Section CallArg.
Context (frame : CallFrame) (ctx : EvaluationContext) (callee_contract_address rpc_url : option string) (block : option Z).

Definition or_else {A} (o : option A) (b : A) : A := match o with Some a => a | None => b end.

(** [_normalize_operand_for_call_arg] *)
Fixpoint normalize_operand_for_call_arg (fuel : nat) (operand : dict) : option dict :=
  match fuel with
  | O => None
  | S fuel =>
      let source := py_get "source" operand in
      caller ← py_in_set source CALLER_SOURCES;
      if (caller : bool) then Some [("source", PyStr "root_caller")]
      else if py_eq_str source "external_call" then
        Some (or_else (resolve_static_external_call_operand operand callee_contract_address rpc_url block (chain_id <$> outer_ctx ctx)) operand)
      else if py_eq_str source "self_address" then Some (or_else (frame_constant (frame_this frame)) operand)
      else if py_eq_str source "computed" && py_eq_str (py_get "computed_kind" operand) "msg.sig"
      then Some (or_else (frame_constant (frame_sig frame)) operand)
      else if py_eq_str source "parameter" then
        match bound_parameter_operand operand (bound_parameters frame) with
        | Some b => normalize_operand_for_call_arg fuel b
        | None => Some operand
        end
      else if py_eq_str source "state_variable" then
        Some (match (name ← state_var_lookup_key operand; assoc_get name (state_var_values ctx)) with
              | Some (PyStr v) => if hex_shaped 42 v || hex_shaped 66 v then constant_operand (str_lower v) else operand
              | _ => operand
              end)
      else Some operand
  end.

End CallArg.

(** ** Frame normalization *)

(** [_normalize_value_for_frame]: [n] bounds the bound operands entered. *)
Section Frame.
Context (frame : CallFrame).

(** The value of a frame-relative operand. *)
Definition frame_value (d : dict) : option dict :=
  let source := py_get "source" d in
  if py_eq_str source "msg_sender" then frame_constant (current_msg_sender frame)
  else if py_eq_str source "self_address" then frame_constant (frame_this frame)
  else if py_eq_str source "computed" && py_eq_str (py_get "computed_kind" d) "msg.sig" then frame_constant (frame_sig frame)
  else None.

Fixpoint normalize_value_for_frame (n : nat) (seen : list Z) (value : pyval) {struct n} : pyval :=
  (fix norm (seen : list Z) (v : pyval) {struct v} : pyval :=
     match v with
     | PyList l => PyList (List.map (norm seen) l)
     | PyDict d =>
         let fields seen := PyDict (List.map (fun kv => (kv.1, norm seen kv.2)) d) in
         match frame_value d with
         | Some c => PyDict c
         | None =>
             if py_eq_str (py_get "source" d) "parameter" then
               match as_int (py_get "parameter_index" d) with
               | Some idx =>
                   if decide (idx ∈ seen) then v
                   else match bound_parameter_operand d (bound_parameters frame) with
                        | Some b => match n with S n => normalize_value_for_frame n (idx :: seen) (PyDict b) | O => v end
                        | None => fields (idx :: seen)
                        end
               | None => fields seen
               end
             else fields seen
         end
     | _ => v
     end) seen value.

(** [_normalize_tree_for_frame] *)
Definition normalize_tree_for_frame (tree : pyval) : pyval :=
  match normalize_value_for_frame (List.length (bound_parameters frame)) [] tree with PyDict d => PyDict d | _ => tree end.
End Frame.

(** ** Parameter binding *)

(** [_promote_bound_caller_leaf], on the leaf dict it mutates. *)
Definition promote_bound_caller_leaf (leaf : dict) : option dict :=
  if negb (py_eq_str (py_get "authority_role" leaf) "business") then Some leaf
  else
    known ← py_in_set (py_get "kind" leaf) ["equality"; "membership"; "external_bool"];
    if negb known then Some leaf
    else
      gate ← (if py_eq_str (py_get "kind" leaf) "external_bool"
              then external_bool_leaf_is_gate_shape (py_get "callee_state_mutability" leaf) (py_get "gate_kind" leaf)
                     (py_get "callee_signature" leaf)
              else Some true);
      if negb gate then Some leaf
      else
        ops ← operands leaf;
        keys ← descriptor_keys leaf;
        has_caller ← any_m caller_sourced (List.filter is_dict (ops ++ keys)%list);
        Some (if (has_caller : bool)
              then odict_put "references_msg_sender" (PyBool true) (odict_put "authority_role" (PyStr "delegated_authority") leaf)
              else leaf).

(** [_bind_value] *)
Fixpoint bind_value (call_args : list dict) (value : pyval) : option pyval :=
  match value with
  | PyList l =>
      l ← (fix go (l : list pyval) : option (list pyval) :=
             match l with [] => Some [] | x :: l => x ← bind_value call_args x; l ← go l; Some (x :: l) end) l;
      Some (PyList l)
  | PyDict d =>
      let bound :=
        if py_eq_str (py_get "source" d) "parameter" then
          match as_int (py_get "parameter_index" d) with
          | Some idx => if (0 <=? idx)%Z && (idx <? Z.of_nat (List.length call_args))%Z then call_args !! Z.to_nat idx else None
          | None => None
          end
        else None in
      match bound with
      | Some arg => Some (PyDict arg)
      | None =>
          out ← (fix go (d : dict) : option dict :=
                   match d with [] => Some [] | (k, v) :: d => v ← bind_value call_args v; d ← go d; Some ((k, v) :: d) end) d;
          match py_get "leaf" out with
          | PyDict leaf => leaf ← promote_bound_caller_leaf leaf; Some (PyDict (odict_put "leaf" (PyDict leaf) out))
          | _ => Some (PyDict out)
          end
      end
  | _ => Some value
  end.

(** [_bind_callee_parameters] *)
Definition bind_callee_parameters (tree : pyval) (call_args : list dict) : option pyval :=
  b ← bind_value call_args tree; Some (match b with PyDict _ => b | _ => tree end).

End Binding.
