(* ===== verification/Authority.v ===== *)
(** * Authority reads ([predicate_evaluator/authority.py])

    The getters an authority variable may be read through, the live reads of a
    getter or a storage slot, and the enumeration of a parameter-keyed mapping.
    [keccak4], [rpc_request] and the HyperSync scan of a mapping's values are
    arguments; the memo of pinned reads and the counters are not represented. *)

From stdpp Require Import base sets list strings sorting.
From Stdlib Require Import String Ascii ZArith Lia.
From S2P Require Import Prelude PyText EventFold EvalContext Capabilities Surface Shapes Binding.

Local Open Scope string_scope.

(** ** Tables *)

Definition OWNER_SELECTOR : string := "0x8da5cb5b".
Definition GOVERNOR_SELECTOR : string := "0x0c340a24".
Definition AUTHORITY_SELECTOR : string := "0xbf7e214f".

Definition BURN_ADDRESS : string := "0x" ++ str_repeat "0" 36 ++ "dead".

Definition SLOT_KEYWORD_TO_GETTER : list (string * string) :=
  [("governor", GOVERNOR_SELECTOR); ("authority", AUTHORITY_SELECTOR); ("ownable", OWNER_SELECTOR); ("owner", OWNER_SELECTOR)].

Definition AUTHORITY_GETTER_BASENAMES : list string := ["owner"; "governor"; "authority"].
Definition PENDING_AUTHORITY_BASENAMES : list string := ["owner"; "governor"; "authority"; "admin"; "defaultadmin"].
Definition OZ_V5_OWNERSHIP_ACCESSORS : list string := ["_getOwnableStorage"; "_getAccessControlDefaultAdminRulesStorage"].

(** [s.lstrip("_")] *)
Definition lstrip_underscore (s : string) : string := lstrip_with (fun c => Ascii.eqb c "_") s.

(** [s[:-2]] of a text that ends with [()]. *)
Definition drop_call (s : string) : string := str_take (String.length s - 2) s.

(** [_is_storage_layout_constant] of [tracking.py] *)
Definition is_storage_layout_constant (name : string) : bool :=
  if String.eqb name "" then false
  else String.eqb name "__self"
       || (let l := str_lower name in
           str_ends_with "storagelocation" l || str_ends_with "storageposition" l || str_ends_with "_slot" l
           || str_ends_with "_storage" l || str_contains "initializable_storage" l).

(** ** Capabilities of a read *)

Definition empty_partial (reason : EmptyReason) (tr : list trace_step) : CapabilityExpr :=
  Cap.finite_set [] lower_bound partial [] None tr root (Some reason).

Definition empty_exact (reason : option EmptyReason) (tr : list trace_step) : CapabilityExpr :=
  Cap.finite_set [] exact enumerable [] None tr root reason.

Definition single_exact (a : string) (tr : list trace_step) : CapabilityExpr :=
  Cap.finite_set [a] exact enumerable [] None tr root None.

Definition unreadable_revert_cap : CapabilityExpr := empty_partial unreadable_revert [].

Definition observed_at (block : option Z) : trace_step := match block with Some b => [("observed_at_block", PyInt b)] | None => [] end.

(** What a read address yields, after [step] and the reason of a zero. *)
Definition read_address_result (read_addr : string) (step : trace_step) (zero_reason : EmptyReason) : CapabilityExpr :=
  if is_zero_address read_addr then empty_exact (Some zero_reason) [step]
  else if String.eqb (str_lower read_addr) BURN_ADDRESS
  then empty_partial owner_read_burn_address [(step ++ [("read_address", PyStr (str_lower read_addr))])%list]
  else single_exact read_addr [step].

(** [_live_authority_result] *)
Definition live_authority_result (read_addr selector contract : string) (block : option Z) : CapabilityExpr :=
  let step := ([("step", PyStr "live_getter_resolution"); ("selector", PyStr selector); ("contract", PyStr (str_lower contract))]
               ++ observed_at block)%list in
  if negb (hex_shaped 42 read_addr) then empty_partial bad_input [step]
  else read_address_result read_addr step owner_read_zero.

Section Authority.
Context (keccak4 : string -> string).
Context (rpc_request : string -> string -> list pyval -> option Z -> option pyval).

(** [_nullary_getter_selector] *)
Definition nullary_getter_selector (name : pyval) : option string :=
  match name with PyStr s => if String.eqb s "" then None else selector_for_signature keccak4 (s ++ "()") | _ => None end.

(** Where a live read goes: the URL, the contract and the block. *)
Definition read_target (ctx : EvaluationContext) : option (string * string * option Z) :=
  url ← truthy_text (o ← outer_ctx ctx; rpc_url o);
  contract ← opt_or (o ← outer_ctx ctx; outer_contract_address o) (contract_address ctx);
  if hex_shaped 42 contract
  then Some (url, contract, match outer_ctx ctx with Some o => outer_block o | None => ctx_block ctx end)
  else None.

(** The address in the low bytes of a word: [None] when there is none to read. *)
Definition word_address (raw : option pyval) : option string :=
  match raw with
  | Some (PyStr w) => if starts_0x w && (66 <=? String.length w)%nat then Some ("0x" ++ str_lower (str_last 40 w)) else None
  | _ => None
  end.

(** [_live_resolve_authority]; [None] when nothing was attempted. *)
Definition live_resolve_authority (ctx : EvaluationContext) (selector : option string) : option CapabilityExpr :=
  sel ← selector;
  if negb (hex_shaped 10 sel) then None
  else
    '(url, contract, block) ← read_target ctx;
    Some (match rpc_request url "eth_call"
                  [PyDict [("to", PyStr (str_lower contract)); ("data", PyStr sel)]; PyStr (block_tag block)]
                  (chain_id <$> outer_ctx ctx) with
          | None => unreadable_revert_cap
          | Some raw =>
              match word_address (Some raw) with
              | Some addr => live_authority_result addr sel contract block
              | None => empty_partial unreadable_empty []
              end
          end).

(** [_live_resolve_authority_slot] *)
Definition live_resolve_authority_slot (ctx : EvaluationContext) (slot : string) : option CapabilityExpr :=
  if negb (hex_shaped 66 slot) then None
  else
    '(url, contract, block) ← read_target ctx;
    Some (match rpc_request url "eth_getStorageAt" [PyStr (str_lower contract); PyStr slot; PyStr (block_tag block)]
                  (chain_id <$> outer_ctx ctx) with
          | None => unreadable_revert_cap
          | Some raw =>
              match word_address (Some raw) with
              | Some addr =>
                  read_address_result addr
                    ([("step", PyStr "live_slot_resolution"); ("slot", PyStr slot); ("contract", PyStr (str_lower contract))]
                     ++ observed_at block)%list slot_read_zero
              | None => empty_partial unreadable_empty []
              end
          end).

Definition append_step (s : trace_step) (c : CapabilityExpr) : CapabilityExpr := set_trace (trace c ++ [s])%list c.

Definition basis_step (basis selector : string) : trace_step :=
  [("step", PyStr "authority_getter_basis"); ("basis", PyStr basis); ("selector", PyStr selector)].

(** [_resolve_authority_via_getters]: each selector with the basis it was tried on. *)
Fixpoint resolve_authority_via_getters (ctx : EvaluationContext) (selectors : list (option string * option string))
    (attempted : option CapabilityExpr) : option CapabilityExpr :=
  match selectors with
  | [] => attempted
  | (selector, basis) :: rest =>
      match selector with
      | None => resolve_authority_via_getters ctx rest attempted
      | Some sel =>
          match live_resolve_authority ctx (Some sel) with
          | None => resolve_authority_via_getters ctx rest attempted
          | Some live =>
              if decide (membership_quality live = exact)
              then Some (match basis with Some b => append_step (basis_step b sel) live | None => live end)
              else resolve_authority_via_getters ctx rest (Some live)
          end
      end
  end.

(** ** Getters by name *)

(** [_public_getter_selector_for_internal_accessor] *)
Definition public_getter_selector_for_internal_accessor (signature : pyval) : option string :=
  match signature with
  | PyStr s =>
      if negb (str_ends_with "()" s) then None
      else
        let name := drop_call s in
        if negb (bool_decide (is_Some (str_after "_" name))) || str_has "(" name then None
        else
          let public_name := lstrip_underscore name in
          if String.eqb public_name "" then None
          else
            let base := match str_after "pending" (str_lower public_name) with
                        | Some _ => str_drop 7 public_name
                        | None => public_name
                        end in
            if bool_decide (str_lower base ∈ AUTHORITY_GETTER_BASENAMES) then selector_for_signature keccak4 (public_name ++ "()") else None
  | _ => None
  end.

(** [_oz_v5_namespaced_authority_selector] *)
Definition oz_v5_namespaced_authority_selector (signature : pyval) : option string :=
  match signature with
  | PyStr s =>
      if str_ends_with "()" s && bool_decide (drop_call s ∈ OZ_V5_OWNERSHIP_ACCESSORS)
      then selector_for_signature keccak4 "owner()" else None
  | _ => None
  end.

(** [_leaf_is_keyed_set_membership] *)
Definition leaf_is_keyed_set_membership (leaf : dict) : bool :=
  py_in (py_get "kind" leaf) ["membership"; "external_bool"]
  && match py_get "set_descriptor" leaf with
     | PyDict d => py_in (py_get "kind" d) ["mapping_membership"; "external_set"]
     | _ => false
     end.

(** [_canonical_authority_selector_for_slot]: a locator that names one role. *)
Definition canonical_authority_selector_for_slot (name : pyval) (leaf : dict) : option string :=
  match name with
  | PyStr s =>
      if String.eqb s "" || leaf_is_keyed_set_membership leaf || negb (is_storage_layout_constant s) then None
      else
        let matched := remove_dups (omap (M := list) (fun kw => if str_contains kw.1 (str_lower s) then Some kw.2 else None) SLOT_KEYWORD_TO_GETTER) in
        match matched with [sel] => Some sel | _ => None end
  | _ => None
  end.

(** ** Pending halves of two-step transfers *)

(** [_pending_authority_base] *)
Definition pending_authority_base (name : pyval) : option string :=
  match name with
  | PyStr s =>
      base ← str_after "pending" (str_lower (lstrip_underscore s));
      if bool_decide (base ∈ PENDING_AUTHORITY_BASENAMES) then Some base else None
  | _ => None
  end.

Definition without_call (v : pyval) : pyval :=
  match v with PyStr s => if str_ends_with "()" s then PyStr (drop_call s) else v | _ => v end.

(** [_is_pending_authority_accessor_operand] *)
Definition is_pending_authority_accessor_operand (op : dict) : bool :=
  let source := py_get "source" op in
  if py_eq_str source "view_call" then bool_decide (is_Some (pending_authority_base (without_call (py_get "callee_signature" op))))
  else if py_eq_str source "state_variable" then bool_decide (is_Some (pending_authority_base (py_get "state_variable_name" op)))
  else false.

(** [_pending_ceiling_capability] *)
Definition pending_ceiling_capability (op : dict) (read_outcome : option CapabilityExpr) : CapabilityExpr :=
  let accessor := match (if py_eq_str (py_get "source" op) "view_call" then py_get "callee_signature" op
                         else py_get "state_variable_name" op) with PyStr s => PyStr s | _ => PyNone end in
  Cap.finite_set [] exact enumerable [] None
    [[("step", PyStr "pending_transfer_ceiling"); ("basis", PyStr "accessor_name"); ("accessor", accessor);
      ("role", py_of_opt (pending_authority_base (without_call accessor)));
      ("read_outcome", match read_outcome with
                       | Some c => py_of_opt (reason_name <$> empty_reason c)
                       | None => PyStr "not_attempted"
                       end)]] root (Some empty_by_design).

(** ** Parameter-keyed mappings *)

(** The value entries of a completed scan, and the window they were read in;
    [None] when no scan was made, it failed, or its status is unreadable. *)
Context (scan_values : string -> list pyval -> OuterContext -> option (list dict * trace_step)).

(** The addresses of the entries: last 20 bytes, no zero or burn address, once each. *)
Definition entry_address (entry : dict) : option string :=
  match py_or (py_get "value_hex" entry) (PyStr "") with
  | PyStr v => if (String.length v =? 66)%nat then Some ("0x" ++ str_lower (str_last 40 v)) else None
  | _ => None
  end.

Fixpoint mapping_values (seen : list string) (entries : list dict) : list string :=
  match entries with
  | [] => []
  | e :: entries =>
      match entry_address e with
      | Some a =>
          if is_zero_address a || String.eqb a BURN_ADDRESS || bool_decide (a ∈ seen) then mapping_values seen entries
          else a :: mapping_values (a :: seen) entries
      | None => mapping_values seen entries
      end
  end.

(** [_enumerate_param_keyed_mapping_values] on the scan's answer. *)
Definition enumerate_param_keyed_mapping_values (contract : string) (writer_specs : list pyval) (outer : option OuterContext)
    : list string * trace_step :=
  match (o ← outer; scan_values contract writer_specs o) with
  | Some (entries, window) => (merge_sort str_le (mapping_values [] entries), window)
  | None => ([], [])
  end.

(** [_resolve_param_keyed_authority_mapping]; raises when the writer specs are truthy and no list. *)
Definition resolve_param_keyed_authority_mapping (op : dict) (ctx : EvaluationContext) : option CapabilityExpr :=
  let mapping_name := py_or (py_get "mapping_name" op) (PyStr "") in
  let contract := opt_or (o ← outer_ctx ctx; outer_contract_address o) (contract_address ctx) in
  let unresolved (basis : string) :=
    Cap.external_check_only
      (MkExternalCheck (c ← contract; if starts_0x c then Some (str_lower c) else None) None
         [("basis", PyList [PyStr basis]); ("mapping_name", mapping_name)]) [] in
  if negb (py_truthy (py_get "mapping_writer_specs" op)) then Some (unresolved "param_keyed_mapping_no_writer_spec")
  else
    match contract with
    | Some c =>
        if negb (hex_shaped 42 c) then Some (unresolved "param_keyed_mapping_no_address")
        else
          specs ← py_iter (py_get "mapping_writer_specs" op);
          let r := enumerate_param_keyed_mapping_values c specs (outer_ctx ctx) in
          Some (match r.1 with
                | [] => unresolved "param_keyed_mapping_unresolved"
                | values =>
                    Cap.finite_set values lower_bound partial [] None
                      [([("step", PyStr "param_keyed_mapping_enumeration"); ("mapping", mapping_name); ("contract", PyStr (str_lower c))] ++ r.2)%list]
                      root None
                end)
    | None => Some (unresolved "param_keyed_mapping_no_address")
    end.

(** [_view_call_caller_selects_key] *)
Definition view_call_caller_selects_key (op : dict) : option bool :=
  if negb (py_truthy (py_get "callee_args" op)) then Some true
  else
    args ← py_iter (py_get "callee_args" op);
    any_m (fun arg => s ← dget_or "source" arg; Some (py_in s ["parameter"; "msg_sender"; "tx_origin"; "root_caller"])) args.

End Authority.
