(* ===== verification/Equality.v ===== *)
(** * Equality principals and leaf descriptors

    [predicate_evaluator/equality.py] ([msg.sender == X]) and [descriptors.py]
    (external checks, caller-gate stamps, signers and conditions of a leaf).

    A field the leaf schema types as text is read as one: where the code stores it
    in a capability, a leaf that breaks the schema there has no result ([None],
    like an exception).  The counters the functions also bump are not represented. *)

From stdpp Require Import base sets list strings.
From Stdlib Require Import String Ascii ZArith Lia.
From S2P Require Import Prelude PyText EventFold EvalContext Capabilities Surface Shapes Binding Authority.

Local Open Scope string_scope.

(** [op["k"]]; [None] is the [KeyError]. *)
Definition item (k : string) (v : pyval) : option pyval := d ← as_dict v; assoc_get k d.

(** [v or "default"], for a text. *)
Definition text_or (v : pyval) (dflt : string) : option string := as_str (py_or v (PyStr dflt)).

(** A text or absent. *)
Definition opt_text (v : pyval) : option (option string) :=
  match v with PyStr s => Some (Some s) | PyNone => Some None | _ => None end.

Definition opt_index (v : pyval) : option (option Z) :=
  match v with PyInt z => Some (Some z) | PyNone => Some None | _ => None end.

(** [list(v)] of a container. *)
Definition as_list (v : pyval) : option (list pyval) := py_iter v.

Section Equality.
Context (keccak4 : string -> string).
Context (rpc_request : string -> string -> list pyval -> option Z -> option pyval).
Context (scan_values : string -> list pyval -> OuterContext -> option (list dict * trace_step)).
Context (earned_public : bool).

Notation live := (resolve_authority_via_getters rpc_request).

(** ** Conditions *)

(** [_condition_from_leaf] *)
Definition condition_from_leaf (leaf : dict) : option Condition :=
  let role := py_get "authority_role" leaf in
  let k := if py_eq_str role "time" then C_time else if py_eq_str role "pause" then C_pause
           else if py_eq_str role "reentrancy" then C_reentrancy else if py_eq_str role "one_shot" then C_one_shot else C_business in
  permit ← (if decide (k = C_business) then leaf_is_permit_shape leaf else Some false);
  description ← text_or (py_get "expression" leaf) "";
  Some (MkCondition (if (permit : bool) then C_permit_sig else k) description None None).

(** ** External checks *)

(** [_target_address_from_descriptor] *)
Definition source_address (descriptor : dict) (ctx : EvaluationContext) : option (option string) :=
  source ← dget_or "address_source" (py_get "authority_contract" descriptor);
  source ← as_dict (py_or source (PyDict []));
  Some (if py_eq_str (py_get "source" source) "state_variable"
        then match (n ← state_var_lookup_key source; assoc_get n (state_var_values ctx)) with
             | Some (PyStr v) => if hex_shaped 42 v then Some (str_lower v) else None
             | _ => None
             end
        else None).

Definition fallback_address (descriptor : dict) (ctx : EvaluationContext) : option (option string) :=
  found ← source_address descriptor ctx;
  Some (match found with Some a => Some a | None => str_lower <$> truthy_text (contract_address ctx) end).

Definition target_address_from_descriptor (descriptor : dict) (ctx : EvaluationContext) : option (option string) :=
  raw ← dget_or "address" (py_get "authority_contract" descriptor);
  match raw with
  | PyStr a => if hex_shaped 42 a then Some (Some (str_lower a)) else fallback_address descriptor ctx
  | _ => fallback_address descriptor ctx
  end.

(** [_first_hint_value] *)
Fixpoint first_hint (hints : list pyval) (key : string) : option pyval :=
  match hints with
  | [] => Some PyNone
  | h :: hints => v ← dget key h; if is_none v then first_hint hints key else Some v
  end.

Definition first_hint_value (descriptor : dict) (key : string) : option pyval :=
  hints ← iter_or_nil (py_get "enumeration_hint" descriptor); first_hint hints key.

(** [list(leaf.get("basis", []))]: a default only for a missing key. *)
Definition leaf_basis (leaf : dict) : option pyval := l ← as_list (get_default "basis" (PyList []) leaf); Some (PyList l).

(** [_external_check_from_descriptor] *)
Definition external_check_from_descriptor (leaf descriptor : dict) (ctx : EvaluationContext) : option CapabilityExpr :=
  target ← target_address_from_descriptor descriptor ctx;
  selector ← stored_dispatch_selector keccak4 (py_get "callee_selector" descriptor) (py_get "callee_signature" descriptor);
  basis ← leaf_basis leaf;
  topic0 ← first_hint_value descriptor "topic0";
  direction ← first_hint_value descriptor "direction";
  Some (Cap.external_check_only
          (MkExternalCheck target selector
             [("basis", basis); ("callee_function", py_get "callee_function" descriptor);
              ("callee_signature", py_get "callee_signature" descriptor); ("topic0", topic0); ("direction", direction)]) []).

Definition set_check (chk : ExternalCheck) (c : CapabilityExpr) : CapabilityExpr :=
  MkCap (kind c) (members c) (threshold c) (blacklist c) (signer c) (Some chk) (conditions c)
    (unsupported_reason c) (children c) (membership_quality c) (blacklist_quality c) (confidence c)
    (empty_reason c) (last_indexed_block c) (exact_as_of c) (trace c) (subject c).

(** [extra["basis"]] with a tag added once. *)
Definition with_basis_tag (tag : string) (chk : ExternalCheck) : option ExternalCheck :=
  basis ← iter_or_nil (py_get "basis" (extra chk));
  let basis := if existsb (fun v => py_eq_str v tag) basis then basis else (basis ++ [PyStr tag])%list in
  Some (MkExternalCheck (target_address chk) (target_call_selector chk) (odict_put "basis" (PyList basis) (extra chk))).

(** [_stamp_caller_gate_check] *)
Definition stamp_caller_gate_check (c : CapabilityExpr) (leaf : dict) : option CapabilityExpr :=
  match kind c, check c with
  | K_external_check_only, Some chk =>
      if negb earned_public then Some c
      else
        gated ← and_m (leaf_is_caller_tainted leaf) (negb <$> is_permissionless_caller_shape leaf);
        if negb gated then Some c
        else tag ← caller_gate_basis leaf; chk ← with_basis_tag tag chk; Some (set_check chk c)
  | _, _ => Some c
  end.

(** [_resolve_external_bool]: the last dispatchable selector of the operands. *)
Fixpoint external_bool_selector (ops : list pyval) (selector : option string) : option (option string) :=
  match ops with
  | [] => Some selector
  | op :: ops =>
      d ← as_dict op;
      if py_eq_str (py_get "source" d) "external_call" then
        raw ← stored_dispatch_selector keccak4 (py_get "callee_selector" d) (py_get "callee_signature" d);
        external_bool_selector ops (match raw with Some s => Some s | None => selector end)
      else external_bool_selector ops selector
  end.

Definition resolve_external_bool (leaf : dict) : option CapabilityExpr :=
  ops ← operands leaf;
  selector ← external_bool_selector ops None;
  basis ← leaf_basis leaf;
  c ← stamp_caller_gate_check (Cap.external_check_only (MkExternalCheck None selector [("basis", basis)]) []) leaf;
  Some (if py_eq_str (py_get "operator" leaf) "falsy" then negate c else c).

(** [_normalize_membership_decline_for_negation] *)
Definition normalize_membership_decline_for_negation (c : CapabilityExpr) (leaf descriptor : dict) (ctx : EvaluationContext)
    : option CapabilityExpr :=
  let no_adapter := bool_decide (kind c = K_unsupported) && bool_decide (unsupported_reason c = Some "no_adapter") in
  let placeholder := bool_decide (kind c = K_finite_set) && is_nil (or_nil (members c)) && bool_decide (membership_quality c = lower_bound) in
  if negb (no_adapter || placeholder) then Some c
  else chk ← external_check_from_descriptor leaf descriptor ctx; Some (set_subject (subject c) chk).

(** ** Signers *)

(** An address text as an exact principal; the zero address is nobody. *)
Definition exact_principal (value : string) : CapabilityExpr :=
  if is_zero_address value then empty_exact None [] else single_exact value [].

(** The persisted value of a state variable when it is an address. *)
Definition persisted_address (op : dict) (ctx : EvaluationContext) : option string :=
  match (n ← state_var_lookup_key op; assoc_get n (state_var_values ctx)) with
  | Some (PyStr v) => if hex_shaped 42 v then Some v else None
  | _ => None
  end.

(** [_resolve_signer_from_leaf] *)
Definition resolve_signer_from_leaf (leaf : dict) (ctx : EvaluationContext) : option CapabilityExpr :=
  ops ← operands leaf;
  signers ← filter_m (fun op => s ← item "source" op; Some (negb (py_eq_str s "signature_recovery"))) ops;
  match signers with
  | [PyDict op] =>
      let source := py_get "source" op in
      if py_eq_str source "state_variable" then
        Some (match persisted_address op ctx with
              | Some v => exact_principal v
              | None => Cap.finite_set [] lower_bound partial [] None [] root None
              end)
      else
        let unknown := Cap.unsupported ("signature_signer_source_" ++ py_str source) in
        Some (if py_eq_str source "constant"
              then match py_get "constant_value" op with PyStr v => if hex_shaped 42 v then single_exact v [] else unknown | _ => unknown end
              else unknown)
  | _ => Some (Cap.unsupported "signature_signer_ambiguous")
  end.

(** ** [msg.sender == X] *)

Definition not_read_empty : CapabilityExpr := empty_partial not_read [].

(** The tail of both live-read arms: the slot, the accept-side ceiling, the last
    labelled failure. *)
Definition slot_or_ceiling (op : dict) (ctx : EvaluationContext) (use_slot : bool) (result : option CapabilityExpr) : CapabilityExpr :=
  match use_slot, py_get "storage_slot" op with
  | true, PyStr slot => match live_resolve_authority_slot rpc_request ctx slot with Some c => c | None => not_read_empty end
  | _, _ =>
      if is_pending_authority_accessor_operand op then pending_ceiling_capability op result
      else match result with Some c => c | None => not_read_empty end
  end.

Definition exact_result (result : option CapabilityExpr) : option CapabilityExpr :=
  match result with Some c => if decide (membership_quality c = exact) then Some c else None | None => None end.

(** The state-variable arm. *)
Definition equality_state_variable (leaf op : dict) (ctx : EvaluationContext) : CapabilityExpr :=
  match persisted_address op ctx with
  | Some v => exact_principal v
  | None =>
      let name := py_get "state_variable_name" op in
      let member := py_truthy (py_get "member_path" op) in
      let result :=
        if negb member then
          live ctx [(nullary_getter_selector keccak4 name, Some "abi_auto_getter");
                    (if py_truthy name then public_getter_selector_for_internal_accessor keccak4 (PyStr (py_str name ++ "()")) else None,
                     Some "deunderscore_convention");
                    (canonical_authority_selector_for_slot name leaf, Some "slot_name_keyword")] None
        else if py_eqb (py_get "member_path" op) (PyList [PyStr "_owner"]) then live ctx [(Some OWNER_SELECTOR, None)] None
        else None in
      match exact_result result with
      | Some c => c
      | None => slot_or_ceiling op ctx (negb member) result
      end
  end.

(** [dict.fromkeys((canonical, selector))] with the basis of each candidate: the
    canonical one's entry is written last. *)
Definition view_candidates (canonical selector : option string) (canonical_basis : string) : list (option string * option string) :=
  let basis c := if decide (c = canonical) then Some canonical_basis else Some "callee_selector" in
  List.map (fun c => (c, basis c)) (fromkeys [canonical; selector]).

(** The view-call arm. *)
Definition equality_view_call (op : dict) (ctx : EvaluationContext) : option CapabilityExpr :=
  let signature := py_get "callee_signature" op in
  own_key ← (match earned_public, signature with
             | true, PyStr s => if str_has "(" s && negb (str_ends_with "()" s) then view_call_caller_selects_key op else Some false
             | _, _ => Some false
             end);
  if (own_key : bool) then
    Some (Cap.conditional_universal (MkCondition C_self_service ("caller matches " ++ py_str signature ++ " for their own key") None None))
  else
    let nullary := negb (py_truthy (py_get "callee_args" op)) in
    let selector :=
      if nullary then
        match py_get "callee_selector" op with
        | PyStr s => if hex_shaped 10 s then Some s
                     else match signature with PyStr g => if str_ends_with "()" g then selector_for_signature keccak4 g else None | _ => None end
        | _ => match signature with PyStr g => if str_ends_with "()" g then selector_for_signature keccak4 g else None | _ => None end
        end
      else None in
    let public := if nullary then public_getter_selector_for_internal_accessor keccak4 signature else None in
    let '(canonical, basis) :=
      match public with
      | Some p => (Some p, "deunderscore_convention")
      | None => if nullary then (oz_v5_namespaced_authority_selector keccak4 signature, "standard_namespaced_accessor")
                else (None, "deunderscore_convention")
      end in
    let result := live ctx (view_candidates canonical selector basis) None in
    Some (match exact_result result with
          | Some c => c
          | None => slot_or_ceiling op ctx true result
          end).

(** [_resolve_equality_principal] *)
Definition resolve_equality_principal (leaf : dict) (ctx : EvaluationContext) : option CapabilityExpr :=
  ops ← operands leaf;
  other ← filter_m (fun op => s ← item "source" op; negb <$> py_in_set s CALLER_SOURCES) ops;
  match other with
  | [PyDict op] =>
      if negb (is_none (py_get "mapping_name" op)) then resolve_param_keyed_authority_mapping scan_values op ctx
      else
        let source := py_get "source" op in
        if py_eq_str source "constant" then
          Some (match py_get "constant_value" op with
                | PyStr v => if hex_shaped 42 v then exact_principal v
                             else Cap.unsupported ("equality_constant_non_address_" ++ v)
                | v => Cap.unsupported ("equality_constant_non_address_" ++ py_str v)
                end)
        else if py_eq_str source "state_variable" then Some (equality_state_variable leaf op ctx)
        else if py_eq_str source "self_address" then
          Some (match contract_address ctx with
                | Some v => if hex_shaped 42 v then single_exact (str_lower v) [] else Cap.unsupported "self_address_without_contract"
                | None => Cap.unsupported "self_address_without_contract"
                end)
        else if py_eq_str source "view_call" then equality_view_call op ctx
        else if py_eq_str source "parameter" then
          name ← text_or (py_get "parameter_name" op) "arg";
          index ← opt_index (py_get "parameter_index" op);
          stored ← opt_text (py_get "parameter_name" op);
          Some (Cap.conditional_universal (MkCondition C_self_service ("caller acting on their own " ++ name) index stored))
        else if py_eq_str source "signature_recovery" then Some (Cap.signature_witness (Cap.unsupported "signer_unresolved") [])
        else if py_eq_str source "external_call" then
          selector ← stored_dispatch_selector keccak4 (py_get "callee_selector" op) (py_get "callee_signature" op);
          Some (Cap.external_check_only
                  (MkExternalCheck None selector
                     [("basis", PyList [PyStr "caller_equals_external_getter"]); ("callee", py_get "callee" op);
                      ("callee_signature", py_get "callee_signature" op)]) [])
        else if py_eq_str source "computed" then Some (Cap.unsupported ("equality_operand_computed_" ++ py_str (py_get "computed_kind" op)))
        else Some (Cap.unsupported ("equality_operand_source_" ++ py_str source))
  | _ => Some (Cap.unsupported "equality_operand_ambiguous")
  end.

(** [_leaf_has_caller_operand] *)
Definition leaf_has_caller_operand (leaf : dict) : option bool := ops ← operands leaf; any_m caller_sourced ops.

(** [_resolve_operand_static_value] *)
Definition resolve_operand_static_value (operand : pyval) (ctx : EvaluationContext) : option (option string) :=
  op ← as_dict operand;
  let source := py_get "source" op in
  let lowered v := match v with PyStr s => Some (str_lower s) | _ => None end in
  Some (if py_eq_str source "constant" then lowered (py_get "constant_value" op)
        else if py_eq_str source "state_variable" then n ← state_var_lookup_key op; v ← assoc_get n (state_var_values ctx); lowered v
        else if py_eq_str source "self_address" then str_lower <$> contract_address ctx
        else None).

(** [_resolve_contextual_equality] *)
Definition resolve_contextual_equality (leaf : dict) (ctx : EvaluationContext) (eq : bool) : option CapabilityExpr :=
  ops ← operands leaf;
  let dynamic := c ← condition_from_leaf leaf; Some (Cap.conditional_universal c) in
  match ops with
  | [a; b] =>
      l ← resolve_operand_static_value a ctx;
      r ← resolve_operand_static_value b ctx;
      match l, r with
      | Some l, Some r =>
          Some (if Bool.eqb (String.eqb l r) eq
                then Cap.conditional_universal (MkCondition C_business "resolved call-frame equality" None None)
                else empty_exact None [])
      | _, _ => dynamic
      end
  | _ => dynamic
  end.

End Equality.
