(* ===== verification/Membership.v ===== *)
(** * View-keyed memberships ([predicate_evaluator/membership.py])

    [require(hasRole(getRoleAdmin(role), msg.sender))]: the keys written are read
    from the event index, the view is called on each, and the memberships under
    the words it returns are united.

    The index read is [EventFold.logs_through_block]; the HyperSync replay of the
    addresses the index does not prove, the batch RPC client and the registry's
    enumeration are arguments.  The per-pass memo returns copies of the same
    answers and is not represented. *)

From stdpp Require Import base sets gmap list strings sorting.
From Stdlib Require Import String Ascii ZArith Lia.
From S2P Require Import Prelude PyText EventIndex LogFetch EventFold EvalContext Capabilities Surface Shapes Binding Authority Equality.

Local Open Scope string_scope.

(** [ObservedKeyWords] and [ViewWords] *)
Record KeyWords := MkWords { kw_words : list string; kw_complete : bool }.

Definition UNPROVEN_EVENT_KEYS : string := "event_keys_unproven".

(** ** Hints *)

(** [_resolve_event_address] of [adapters/event_indexed.py] *)
Definition state_address (values : list (string * pyval)) (source : dict) : option string :=
  if py_eq_str (py_get "source" source) "state_variable" then
    match py_get "state_variable_name" source with
    | PyStr name => match assoc_get name values with Some (PyStr v) => if hex_shaped 42 v then Some (str_lower v) else None | _ => None end
    | _ => None
    end
  else None.

Definition address_text (v : pyval) : option string := match v with PyStr s => if hex_shaped 42 s then Some (str_lower s) else None | _ => None end.

Definition resolve_event_address (descriptor : dict) (hint : dict) (outer : OuterContext) : option (option string) :=
  match address_text (py_get "event_address" hint) with
  | Some a => Some (Some a)
  | None =>
      authority ← as_dict (py_or (py_get "authority_contract" descriptor) (PyDict []));
      match address_text (py_get "address" authority) with
      | Some a => Some (Some a)
      | None =>
          source ← as_dict (py_or (py_get "address_source" authority) (PyDict []));
          Some (match state_address (or_nil (outer_state_var_values outer)) source with
                | Some a => Some a
                | None => c ← outer_contract_address outer; if hex_shaped 42 c then Some (str_lower c) else None
                end)
      end
  end.

(** [_hints_by_event_address]: the topics of each address, the hints of each
    address and topic, and whether a hint names no readable event. *)
Record HintTable := MkHints {
  ht_topics : list (string * list string);
  ht_hints : list (string * string * list dict);
  ht_unaddressed : bool
}.

Fixpoint hints_put (address topic : string) (hint : dict) (l : list (string * string * list dict)) : list (string * string * list dict) :=
  match l with
  | [] => [(address, topic, [hint])]
  | (a, t, hs) :: l =>
      if decide ((a, t) = (address, topic)) then (a, t, (hs ++ [hint])%list) :: l else (a, t, hs) :: hints_put address topic hint l
  end.

Definition topics_put (address topic : string) (l : list (string * list string)) : list (string * list string) :=
  let ts := match odict_get address l with Some ts => ts | None => [] end in
  odict_put address (if decide (topic ∈ ts) then ts else (ts ++ [topic])%list) l.

Fixpoint hints_by_event_address (descriptor : dict) (hints : list dict) (outer : OuterContext) (t : HintTable) : option HintTable :=
  match hints with
  | [] => Some t
  | hint :: hints =>
      address ← resolve_event_address descriptor hint outer;
      match py_get "topic0" hint, address with
      | PyStr topic, Some a =>
          hints_by_event_address descriptor hints outer
            (MkHints (topics_put (str_lower a) (str_lower topic) (ht_topics t))
               (hints_put (str_lower a) (str_lower topic) hint (ht_hints t)) (ht_unaddressed t))
      | _, _ => hints_by_event_address descriptor hints outer (MkHints (ht_topics t) (ht_hints t) true)
      end
  end.

Fixpoint hints_for (address topic : string) (l : list (string * string * list dict)) : list dict :=
  match l with
  | [] => []
  | (a, t, hs) :: l => if decide ((a, t) = (address, topic)) then hs else hints_for address topic l
  end.

(** ** Key words *)

(** [_log_key_words]: [None] when a hint cannot read its key from the log. *)
Fixpoint log_key_words (log : event_row) (hints : list dict) (key_index : Z) : option (list string) :=
  match hints with
  | [] => Some []
  | h :: hints =>
      let keys := event_keys (er_topics log) (er_data_words log) (py_or (py_get "topics_to_keys" h) (PyDict []))
                    (py_or (py_get "data_to_keys" h) (PyDict [])) in
      w ← keys !! key_index; w ← normalize_word_text w; rest ← log_key_words log hints key_index; Some (w :: rest)
  end.

(** The words of one address' logs. *)
Fixpoint logs_key_words (address : string) (logs : list event_row) (table : HintTable) (key_index : Z) : option (list string) :=
  match logs with
  | [] => Some []
  | log :: logs =>
      ws ← log_key_words log (hints_for address (er_topic0 log) (ht_hints table)) key_index;
      rest ← logs_key_words address logs table key_index; Some (ws ++ rest)%list
  end.

Section Membership.
Context (keccak4 : string -> string).
Context (rpc_batch : string -> list (string * list pyval) -> list (pyval * bool)).
Context (enumerate : dict -> EvaluationContext -> CapabilityExpr).
Context (i : index) (tail_ : option TailScanner).
(** The replay of [event_hints] at the given addresses through the pinned block. *)
Context (hypersync_scan : dict -> list dict -> Z -> list string -> OuterContext -> KeyWords).

(** The addresses the index proves give their words; the others are left to the
    replay.  The inner [None] is an undecodable or unreadable log. *)
Fixpoint scan_addresses (addresses : list (string * list string)) (table : HintTable) (key_index : Z) (outer : OuterContext)
    (out : list string) (unproven : list string) : option (list string * list string) :=
  match addresses with
  | [] => Some (out, unproven)
  | (a, ts) :: addresses =>
      read ← logs_through_block i (chain_id outer) a ts (outer_block outer) tail_;
      if negb (read_complete read) then scan_addresses addresses table key_index outer out (unproven ++ [a])%list
      else ws ← logs_key_words a (read_logs read) table key_index; scan_addresses addresses table key_index outer (out ++ ws)%list unproven
  end.

(** [sorted(set)] *)
Definition sorted_words (l : list string) : list string := merge_sort str_le (remove_dups l).

(** [_scan_observed_event_key_words]: the outer [None] is an exception. *)
Definition scan_observed_event_key_words (descriptor : dict) (hints : list dict) (key_index : Z) (outer : OuterContext)
    : option (option KeyWords) :=
  table ← hints_by_event_address descriptor hints outer (MkHints [] [] false);
  Some (match scan_addresses (ht_topics table) table key_index outer [] [] with
        | None => None
        | Some (out, []) => Some (MkWords (sorted_words out) (negb (ht_unaddressed table)))
        | Some (out, unproven) =>
            let scanned := hypersync_scan descriptor hints key_index unproven outer in
            Some (MkWords (sorted_words (out ++ kw_words scanned)%list) (negb (ht_unaddressed table) && kw_complete scanned))
        end).

(** ** The view *)

(** [_call_unary_bytes32_view] *)
Definition view_call (contract selector : string) (block : option Z) (word : string) : string * list pyval :=
  ("eth_call", [PyDict [("to", PyStr (str_lower contract)); ("data", PyStr (selector ++ str_drop 2 word))]; PyStr (block_tag block)]).

Definition call_unary_bytes32_view (rpc_url contract selector : string) (args : list string) (block : option Z) : KeyWords :=
  let words := omap (M := list) normalize_word_text args in
  match words with
  | [] => MkWords [] false
  | _ =>
      let answers := rpc_batch rpc_url (List.map (view_call contract selector block) words) in
      let read := List.map (fun r : pyval * bool => if r.2 then None else normalize_word r.1) answers in
      MkWords (sorted_words (omap (M := list) (fun x => x) read))
        ((List.length words =? List.length args)%nat && forallb (fun o => bool_decide (is_Some o)) read)
  end.

(** ** The membership *)

(** The positions of the key sources a test accepts. *)
Definition key_positions (p : pyval -> option bool) (keys : list pyval) : option (list nat) :=
  bs ← mapM p keys; Some (List.map fst (List.filter snd (imap (fun n b => (n, b)) bs))).

Definition view_unresolved (target : option string) (selector : string) (reasons : list string) : CapabilityExpr :=
  Cap.external_check_only
    (MkExternalCheck target (Some selector) [("basis", PyList (List.map PyStr ("view_key_membership_unresolved" :: reasons)))]) [].

(** The descriptor with the view's word in place of the view. *)
Definition patched_descriptor (descriptor : dict) (keys : list pyval) (view_index : nat) (word : string) : dict :=
  odict_put "key_sources" (PyList (<[view_index := PyDict (constant_operand word)]> keys)) descriptor.

Definition union_onto (acc : option CapabilityExpr) (c : CapabilityExpr) : option CapabilityExpr :=
  Some (match acc with None => c | Some a => union a c end).

(** [_resolve_view_key_membership]: the inner [None] leaves the descriptor to the
    adapters. *)
Definition resolve_view_key_membership (descriptor : dict) (ctx : EvaluationContext) : option (option CapabilityExpr) :=
  if negb (py_eq_str (py_get "kind" descriptor) "mapping_membership") then Some None
  else
    keys ← iter_or_nil (py_get "key_sources" descriptor);
    callers ← key_positions caller_sourced keys;
    views ← key_positions (fun k => s ← dget "source" k; Some (py_eq_str s "view_call")) keys;
    match callers, views, outer_ctx ctx with
    | [_], [view_index], Some outer =>
        match (if session outer then truthy_text (rpc_url outer) else None) with
        | None => Some None
        | Some url =>
            view ← keys !! view_index ≫= as_dict;
            let signature := py_get "callee_signature" view in
            stored ← stored_dispatch_selector keccak4 (py_get "callee_selector" view) signature;
            selector ← (match stored with
                        | Some s => if starts_0x s then Some (Some s) else selector_for_canonical_signature keccak4 signature
                        | None => selector_for_canonical_signature keccak4 signature
                        end);
            hints ← iter_or_nil (py_get "enumeration_hint" descriptor);
            match truthy_text selector, omap (M := list) as_dict hints with
            | Some sel, (_ :: _) as event_hints =>
                observed ← scan_observed_event_key_words descriptor event_hints (Z.of_nat view_index) outer;
                let contract := opt_or (outer_contract_address outer) (contract_address ctx) in
                match observed with
                | None => Some (Some (view_unresolved (str_lower <$> contract) sel [UNDECODABLE_EVENT_DATA]))
                | Some words =>
                    if negb (kw_complete words) then Some (Some (view_unresolved (str_lower <$> contract) sel [UNPROVEN_EVENT_KEYS]))
                    else match kw_words words, contract with
                         | [], _ | _, None => Some None
                         | role_words, Some c =>
                             if negb (starts_0x c) then Some None
                             else
                               let block := match outer_block outer with Some 0%Z | None => ctx_block ctx | Some b => Some b end in
                               let admins := call_unary_bytes32_view url c sel role_words block in
                               match kw_words admins with
                               | [] => Some (Some (view_unresolved (Some (str_lower c)) sel []))
                               | admin_words =>
                                   let start := if kw_complete admins then None
                                                else Some (Cap.finite_set [] lower_bound partial [] None
                                                             [[("step", PyStr "view_key_read_failed"); ("selector", PyStr (str_lower sel))]]
                                                             root (Some not_read)) in
                                   Some (fold_left (fun acc w => union_onto acc (enumerate (patched_descriptor descriptor keys view_index w) ctx))
                                           admin_words start)
                               end
                         end
                end
            | _, _ => Some None
            end
        end
    | _, _, _ => Some None
    end.

End Membership.
