(* ===== verification/Evaluator.v ===== *)
(** * The predicate evaluator ([predicate_evaluator/core.py])

    [evaluate_tree] lowers the predicate tree of a function to the capability of
    its callers: AND intersects, OR unites, reach alternatives are read from the
    chain, a leaf is resolved by its kind, and a delegated check is resolved by
    evaluating the callee's own tree in the caller's terms
    ([maybe_inline_cross_contract_call], with [materialization.py]).

    - The adapters ([services/resolution/adapters/]) are arguments: a list of
      [SetAdapter] with their score and enumeration; [pick] and [enumerate] are
      [AdapterRegistry]'s.  The pass memo returns what the adapter returned and is
      not represented, nor are the counters.
    - Database reads, the event materializer and [resolve_state_authority] are
      arguments too.
    - Inlining nests evaluations; [fuel] bounds the nesting as the interpreter's
      recursion limit does, [frames] is the same limit for operands.  [None] is an
      exception, the [RecursionError] included. *)

From stdpp Require Import base sets list strings.
From Stdlib Require Import String Ascii ZArith Lia.
From S2P Require Import Prelude PyText Chains EventIndex LogFetch EventFold EvalContext ReachReads Capabilities Surface.
From S2P Require Import Shapes Binding Authority Equality Membership.

Local Open Scope string_scope.

Notation chain_id := EvalContext.chain_id.

(** ** The adapter registry ([adapters/__init__.py]) *)

Record SetAdapter := MkAdapter {
  adapter_name : string;
  matches : dict -> OuterContext -> Z;
  adapter_enumerate : dict -> OuterContext -> CapabilityExpr
}.

(** [AdapterRegistry.pick]: the highest positive score, the first of equals. *)
Fixpoint pick_from (best : option (Z * SetAdapter)) (adapters : list SetAdapter) (descriptor : dict) (outer : OuterContext)
    : option (Z * SetAdapter) :=
  match adapters with
  | [] => best
  | cls :: adapters =>
      let score := matches cls descriptor outer in
      let better := match best with None => true | Some (s, _) => (s <? score)%Z end in
      pick_from (if (0 <? score)%Z && better then Some (score, cls) else best) adapters descriptor outer
  end.

Definition pick (adapters : list SetAdapter) (descriptor : dict) (outer : OuterContext) : option SetAdapter :=
  snd <$> pick_from None adapters descriptor outer.

(** [AdapterRegistry._enumerate], without the name it tallies. *)
Definition registry_enumerate (adapters : list SetAdapter) (descriptor : dict) (outer : OuterContext) : CapabilityExpr :=
  match pick adapters descriptor outer with
  | None => Cap.unsupported "no_adapter"
  | Some cls => adapter_enumerate cls descriptor outer
  end.

(** [_NullAdapter.enumerate] *)
Definition null_enumerate : CapabilityExpr := Cap.finite_set [] lower_bound partial [] None [] root None.

(** [ctx.adapter.enumerate] *)
Definition context_enumerate (adapters : list SetAdapter) (descriptor : dict) (ctx : EvaluationContext) : CapabilityExpr :=
  match outer_ctx ctx with Some outer => registry_enumerate adapters descriptor outer | None => null_enumerate end.

(** ** Trees *)

(** [tree.get("children") or []] with the result of a recursive call for each
    child; a truthy value that is no list raises when it is iterated or when its
    elements are read. *)
Definition child_values (d : dict) : option (list pyval) :=
  match py_get "children" d with PyList l => Some l | v => if py_truthy v then None else Some [] end.

Definition child_walk {A} (f : pyval -> A) (d : dict) : list A :=
  match assoc_get "children" (List.map (fun kv => (kv.1, match kv.2 with PyList l => List.map f l | _ => [] end)) d) with
  | Some r => r
  | None => []
  end.

Lemma child_walk_map {A} (f : pyval -> A) d l : child_values d = Some l -> child_walk f d = List.map f l.
Proof.
  unfold child_values, child_walk, py_get. induction d as [|[k v] d IH]; cbn; [by intros [= <-]|].
  case_decide; [|done]. destruct v; cbn; repeat case_match; intros [= <-]; done.
Qed.

(** ** Side conditions *)

(** [_condition_group_description] *)
Definition condition_group_description (conds : list Condition) : string :=
  match List.filter nonempty (List.map cond_description conds) with
  | [] => ""
  | [d] => d
  | ds => str_join " AND " (List.map parens ds)
  end.

(** The conditions of every branch; the inner [None] stops at the first branch
    that is no side condition. *)
Fixpoint all_branches (l : list (option (option (list Condition)))) : option (option (list (list Condition))) :=
  match l with
  | [] => Some (Some [])
  | r :: l =>
      r ← r;
      match r with
      | None => Some None
      | Some g => gs ← all_branches l; Some (match gs with None => None | Some gs => Some (g :: gs) end)
      end
  end.

(** The leaf arm of [_side_conditions_from_tree]. *)
Definition side_condition_leaf (leaf : pyval) : option (option (list Condition)) :=
  match leaf with
  | PyDict leaf =>
      refused ← signer_unresolved leaf;
      if (refused : bool) then Some None
      else if py_in (py_get "authority_role" leaf) SIDE_ROLES && negb (py_truthy (py_get "references_msg_sender" leaf))
      then c ← condition_from_leaf leaf; Some (Some [c])
      else Some None
  | _ => Some None
  end.

(** [_side_conditions_from_tree] *)
Fixpoint side_conditions_from_tree (tree : pyval) : option (option (list Condition)) :=
  match tree with
  | PyDict d =>
      let op := py_get "op" d in
      if py_eq_str op "LEAF" then side_condition_leaf (py_get "leaf" d)
      else
        children ← child_values d;
        if is_nil children then Some None
        else
          groups ← all_branches (child_walk side_conditions_from_tree d);
          Some (match groups with
                | None => None
                | Some groups =>
                    if py_eq_str op "AND" then Some (List.concat groups)
                    else if py_eq_str op "OR" then
                      let text := str_join " OR " (List.filter nonempty (List.map condition_group_description groups)) in
                      Some [MkCondition C_business (if nonempty text then text else "non-caller side condition") None None]
                    else None
                end)
  | _ => None
  end.

(** [_side_condition_capability] *)
Definition conditional (conds : list Condition) : CapabilityExpr :=
  MkCap K_conditional_universal None None None None None conds None [] exact exact enumerable None None None [] root.

Definition side_condition_capability (tree : pyval) : option (option CapabilityExpr) :=
  c ← side_conditions_from_tree tree; Some (match c with Some c => Some (conditional c) | None => None end).

(** ** Reach conditions *)

(** [_leaves] *)
Fixpoint leaves (node : pyval) : option (list dict) :=
  match node with
  | PyDict d =>
      match py_get "leaf" d with
      | PyDict leaf => Some [leaf]
      | _ => children ← child_values d; ls ← mapM (fun x => x) (child_walk leaves d); Some (List.concat ls)
      end
  | _ => None
  end.

(** [_source_texts] *)
Definition source_texts (ls : list dict) : list string :=
  omap (M := list) (fun leaf => match py_get "expression" leaf with
                                | PyStr e => if nonempty e && negb (py_eq_str (py_get "unsupported_reason" leaf) e) then Some e else None
                                | _ => None
                                end) ls.

Fixpoint dedup_parts (seen : list (string * bool)) (l : list (string * bool)) : list (string * bool) :=
  match l with
  | [] => seen
  | p :: l => dedup_parts (if nonempty p.1 && negb (bool_decide (p ∈ seen)) then (seen ++ [p])%list else seen) l
  end.

(** The outcome every leaf shares, rendered. *)
Definition shared_outcome (ls : list dict) : option (option (string * bool)) :=
  match List.map (py_get REACH_READ) ls with
  | stamp :: stamps =>
      if forallb (fun s => py_eqb s stamp) (stamp :: stamps) then
        described ← describe_reach stamp;
        Some (match described with
              | Some (t, compound) =>
                  let written := fromkeys (source_texts ls) in
                  if is_nil written || bool_decide (written = [t]) then Some (t, compound)
                  else Some (t ++ " [written: " ++ str_join " ; " written ++ "]", true)
              | None => None
              end)
      else Some None
  | [] => Some None
  end.

(** The text of a leaf whose outcome is not rendered. *)
Definition leaf_text (ls : list dict) : option (string * bool) :=
  let leaf := match ls with leaf :: _ => leaf | [] => [] end in
  match source_texts [leaf] with
  | [] => t ← text_or (py_get "expression" leaf) ""; Some (t, false)
  | e :: _ =>
      Some (e ++ (if is_dict (py_get REACH_READ leaf) then " [required outcome recorded, not renderable]"
                  else " [required outcome not recorded]"), true)
  end.

(** [_reach_text] *)
Fixpoint reach_text (node : pyval) : option (string * bool) :=
  match node with
  | PyDict d =>
      ls ← leaves node;
      outcome ← shared_outcome ls;
      match outcome with
      | Some t => Some t
      | None =>
          if py_eq_str (py_get "op" d) "LEAF" then leaf_text ls
          else
            children ← child_values d;
            parts ← mapM (fun x => x) (child_walk reach_text d);
            Some (match dedup_parts [] parts with
                  | [p] => p
                  | parts =>
                      (str_join (if py_eq_str (py_get "op" d) "AND" then " && " else " || ")
                         (List.map (fun p : string * bool => if p.2 then parens p.1 else p.1) parts),
                       (1 <? List.length parts)%nat)
                  end)
      end
  | _ => None
  end.

(** [_reach_expression] *)
Definition reach_expression (tree : pyval) : option string := fst <$> reach_text tree.

Definition opt_calldata (t : ReachTruth) : list (string * string) := or_nil (calldata t).

(** [_reach_step] *)
Definition reach_step (t : ReachTruth) (expression : string) : trace_step :=
  ([("step", PyStr "reach_condition_read"); ("expression", PyStr expression);
    ("holds", match holds t with Some b => PyBool b | None => PyNone end); ("reads", PyList (truth_reads t))]
   ++ match reason t with Some r => [("reason", PyStr r)] | None => [] end
   ++ match opt_calldata t with [] => [] | cs => [("calldata", PyDict (List.map (fun c : string * string => (c.1, PyStr c.2)) cs))] end)%list.

(** An external check with only a basis and the leaf's text. *)
Definition gate_check (basis : list string) (expression : pyval) : CapabilityExpr :=
  Cap.external_check_only
    (MkExternalCheck None None [("basis", PyList (List.map PyStr basis)); ("expression", expression)]) [].

(** [_reach_capability] *)
Definition reach_capability (t : ReachTruth) (tree : pyval) : option CapabilityExpr :=
  expression ← reach_expression tree;
  let cap :=
    match holds t with
    | Some true =>
        let sent := str_join ", " (List.map (fun c : string * string => c.1 ++ "=" ++ c.2) (opt_calldata t)) in
        let at_ := if nonempty sent then "with calldata " ++ sent else "at the analysis block" in
        Cap.conditional_universal (MkCondition C_business ("holds " ++ at_ ++ ": " ++ expression) None None)
    | Some false => Cap.finite_set [] exact enumerable [] None [] root None
    | None =>
        gate_check [REACH_NOT_DETERMINED; match reason t with Some r => if nonempty r then r else "reach_condition_unread" | None => "reach_condition_unread" end]
          (PyStr expression)
    end in
  Some (set_trace [reach_step t expression] cap).

(** One assignment under which every conjunct's calldata agrees. *)
Fixpoint joint_names (acc : list (string * string)) (l : list (string * string)) : option (list (string * string)) :=
  match l with
  | [] => Some acc
  | (n, v) :: l =>
      match assoc_get n acc with
      | Some w => if String.eqb w v then joint_names acc l else None
      | None => joint_names (acc ++ [(n, v)])%list l
      end
  end.

Fixpoint joint_calldata (acc : list (string * string)) (ts : list ReachTruth) : option (list (string * string)) :=
  match ts with
  | [] => Some acc
  | t :: ts => match joint_names acc (opt_calldata t) with Some acc => joint_calldata acc ts | None => None end
  end.

(** The connective arm of [_reach_truth]. *)
Definition combine_truths (decisive : bool) (truths : list ReachTruth) : ReachTruth :=
  match List.find (fun t => bool_decide (holds t = Some decisive)) truths with
  | Some t => t
  | None =>
      let reads := List.concat (List.map truth_reads truths) in
      match List.find (fun t => bool_decide (holds t = None)) truths with
      | Some unread => MkTruth None reads (reason unread) None
      | None =>
          if decisive then MkTruth (Some false) reads None None
          else match joint_calldata [] truths with
               | None => MkTruth None reads (Some "reach_condition_calldata_not_jointly_witnessed") None
               | Some cs => MkTruth (Some true) reads None (match cs with [] => None | _ => Some cs end)
               end
      end
  end.

(** The leaf arm of [_reach_truth]. *)
Definition leaf_truth (rpc_request : string -> string -> list pyval -> option Z -> option pyval)
    (ctx : EvaluationContext) (leaf : pyval) : option ReachTruth :=
  leaf ← as_dict (py_or leaf (PyDict []));
  match assoc_get REACH_READ leaf with
  | None => r ← text_or (py_get "unsupported_reason" leaf) "reach_condition_unstated"; Some (MkTruth None [] (Some r) None)
  | Some stamp => read_reach rpc_request stamp ctx
  end.

(** [_reach_truth] *)
Fixpoint reach_truth (rpc_request : string -> string -> list pyval -> option Z -> option pyval)
    (ctx : EvaluationContext) (tree : pyval) : option ReachTruth :=
  match tree with
  | PyDict d =>
      if py_eq_str (py_get "op" d) "LEAF" then leaf_truth rpc_request ctx (py_get "leaf" d)
      else
        children ← child_values d;
        truths ← mapM (fun x => x) (child_walk (reach_truth rpc_request ctx) d);
        Some (combine_truths (negb (py_eq_str (py_get "op" d) "AND")) truths)
  | _ => None
  end.

(** ** Materialization tests ([materialization.py]) *)

(** [_conditional_result_needs_materialization] *)
Definition conditional_result_needs_materialization (c : CapabilityExpr) : bool :=
  existsb (fun x => bool_decide (is_Some (str_after "return " (cond_description x)))) (conditions c).

(** A finite set without members that is not exact. *)
Definition unread_set (c : CapabilityExpr) : bool := is_nil (or_nil (members c)) && negb (bool_decide (membership_quality c = exact)).

(** [_or_result_needs_materialization] *)
Fixpoint or_needs_materialization (saw : bool) (cs : list CapabilityExpr) : bool :=
  match cs with
  | [] => saw
  | c :: cs =>
      match kind c with
      | K_finite_set => if is_nil (or_nil (members c)) then or_needs_materialization (saw || unread_set c) cs else false
      | K_external_check_only | K_unsupported => or_needs_materialization true cs
      | K_conditional_universal => if conditional_result_needs_materialization c then or_needs_materialization true cs else false
      | _ => false
      end
  end.

(** [_inline_result_needs_materialization] *)
Definition inline_result_needs_materialization (c : CapabilityExpr) : bool :=
  match kind c with
  | K_finite_set => unread_set c
  | K_external_check_only | K_unsupported => true
  | K_conditional_universal => conditional_result_needs_materialization c
  | K_OR => or_needs_materialization false (children c)
  | _ => false
  end.

Definition COUNTERFACTUAL : dict := not_determined_capability "cofinite_counterfactual".

(** [strip] of [_public_without_root_cofinites]: the capability with every
    root-subject cofinite removed. *)
Fixpoint strip (v : pyval) : pyval :=
  match v with
  | PyDict d =>
      if py_eq_str (py_get "kind" d) "cofinite_blacklist" && py_eq_str (get_default "subject" (PyStr "root") d) "root"
      then PyDict COUNTERFACTUAL
      else PyDict (List.map (fun kv => (kv.1, if String.eqb kv.1 "children"
                                              then match kv.2 with PyList l => PyList (List.map strip l) | w => w end else kv.2)) d)
  | _ => v
  end.

(** [_public_without_root_cofinites] *)
Definition public_without_root_cofinites (earned_public : bool) (c : CapabilityExpr) : option bool :=
  surface ← project_capability_surface earned_public None None (strip (PyDict (capability_to_dict c)));
  Some (authority_public surface || bool_decide (is_Some (not_determined_reason surface))).

(** ** Leaves and inlining *)

(** What [find_analysis_job_for_address] and the artifact store give of a registry. *)
Record RegistryAnalysis := MkAnalysis {
  analysis_job_address : option string;
  analysis_job_id : string;
  runtime_job_id : string;
  predicate_trees : option dict
}.

(** What the evaluator reads of the outside: the hash, the node, the index and the
    scanners behind it, the adapters, the database and the flags. *)
Record Services := MkServices {
  keccak4 : string -> string;
  rpc_request : string -> string -> list pyval -> option Z -> option pyval;
  scan_values : string -> list pyval -> OuterContext -> option (list dict * trace_step);
  earned_public : bool;
  rpc_batch : string -> list (string * list pyval) -> list (pyval * bool);
  event_index : index;
  tail_scanner : option TailScanner;
  hypersync_scan : dict -> list dict -> Z -> list string -> OuterContext -> KeyWords;
  adapters : list SetAdapter;
  find_analysis : string -> string -> option RegistryAnalysis;
  (** Address, job and chain. *)
  load_state_var_values : string -> string -> string -> list (string * pyval);
  (** The checker, its selector and the arguments, in the caller's context. *)
  materialize_events : OuterContext -> string -> option string -> list dict -> option CapabilityExpr;
  resolve_state_authority : dict -> EvaluationContext -> option CapabilityExpr;
  frames : nat
}.

Section Evaluator.
Context (w : Services).

Notation keccak4 := (keccak4 w).
Notation rpc_request := (rpc_request w).
Notation scan_values := (scan_values w).
Notation earned_public := (earned_public w).
Notation rpc_batch := (rpc_batch w).
Notation hypersync_scan := (hypersync_scan w).
Notation adapters := (adapters w).
Notation find_analysis := (find_analysis w).
Notation load_state_var_values := (load_state_var_values w).
Notation materialize_events := (materialize_events w).
Notation resolve_state_authority := (resolve_state_authority w).
Notation frames := (frames w).
Notation enumerate := (context_enumerate adapters).

Definition gate_of (leaf : dict) : option CapabilityExpr :=
  basis ← caller_gate_basis leaf; Some (gate_check [basis] (py_get "expression" leaf)).

(** A leaf that discriminates on the caller by no permissionless shape. *)
Definition caller_gate (leaf : dict) : option bool :=
  and_m (leaf_is_caller_tainted leaf) (negb <$> is_permissionless_caller_shape leaf).

Definition condition_cap (leaf : dict) : option CapabilityExpr := c ← condition_from_leaf leaf; Some (Cap.conditional_universal c).

(** The populated set a caller-keyed threshold enumerates. *)
Definition threshold_members (leaf : dict) (ctx : EvaluationContext) : option (option CapabilityExpr) :=
  keyed ← has_caller_keyed_value_predicate leaf;
  match keyed, py_get "set_descriptor" leaf with
  | false, _ | _, PyNone => Some None
  | true, v => descriptor ← as_dict v; Some (Some (enumerate descriptor ctx))
  end.

(** The side-role arm of [_evaluate_leaf]. *)
Definition evaluate_side_leaf (leaf : dict) (ctx : EvaluationContext) : option CapabilityExpr :=
  opaque ← is_opaque_bool_return_predicate leaf;
  if (opaque : bool) then Some (gate_check ["opaque_bool_return_predicate"] (py_get "expression" leaf))
  else
    found ← threshold_members leaf ctx;
    match (match found with Some c => if bool_decide (kind c = K_finite_set) && negb (is_nil (or_nil (members c))) then found else None
           | None => None end) with
    | Some c => Some c
    | None =>
        gate ← (if earned_public then
                  gated ← caller_gate leaf;
                  if (gated : bool) then Some <$> caller_gate_basis leaf else Some None
                else
                  time ← is_caller_keyed_time_allowlist leaf;
                  if (time : bool) then Some (Some "caller_keyed_time_allowlist")
                  else
                    member ← is_caller_keyed_membership_allowlist leaf;
                    Some (if (member : bool) then Some "caller_keyed_membership_allowlist" else None));
        match gate with
        | Some basis => Some (gate_check [basis] (py_get "expression" leaf))
        | None =>
            deny ← and_m (leaf_is_caller_tainted leaf) (is_caller_keyed_time_denylist leaf);
            if (deny : bool) then
              c ← condition_from_leaf leaf; Some (Cap.cofinite_blacklist [] enumerable [c] root lower_bound)
            else condition_cap leaf
        end
    end.

(** The membership arm. *)
Definition evaluate_membership (leaf : dict) (ctx : EvaluationContext) : option CapabilityExpr :=
  match py_get "set_descriptor" leaf with
  | PyNone => Some (Cap.unsupported "membership_without_descriptor")
  | v =>
      descriptor ← as_dict v;
      found ← resolve_view_key_membership keccak4 rpc_batch enumerate (event_index w) (tail_scanner w) hypersync_scan descriptor ctx;
      let cap := tag_caller_subject (match found with Some c => c | None => enumerate descriptor ctx end) ctx in
      if py_eq_str (py_get "operator" leaf) "falsy"
      then c ← normalize_membership_decline_for_negation keccak4 cap leaf descriptor ctx; Some (negate c)
      else Some cap
  end.

(** The equality arm. *)
Definition evaluate_equality (leaf : dict) (ctx : EvaluationContext) : option CapabilityExpr :=
  let operator := py_get "operator" leaf in
  if py_in operator ["eq"; "ne"] then
    let eq := py_eq_str operator "eq" in
    direct ← leaf_has_caller_operand leaf;
    if negb direct then c ← resolve_contextual_equality leaf ctx eq; Some (tag_caller_subject c ctx)
    else
      c ← resolve_equality_principal keccak4 rpc_request scan_values earned_public leaf ctx;
      let base := tag_caller_subject c ctx in
      Some (if eq then base else negate base)
  else Some (Cap.unsupported ("equality_op_" ++ py_str operator ++ "_unsupported")).

(** The value-movement arm of an external call. *)
Definition moves_own_value (leaf : dict) : option bool :=
  if earned_public && py_eq_str (py_get "operator" leaf) "truthy" && py_eq_str (py_get "callee_state_mutability" leaf) "nonview"
  then and_m (leaf_is_caller_tainted leaf) (is_permissionless_caller_shape leaf) else Some false.

Definition value_movement (leaf : dict) : CapabilityExpr :=
  let call := py_str (py_or (py_get "expression" leaf) (PyStr "call")) in
  Cap.conditional_universal
    (if is_permit_family_signature (py_get "callee_signature" leaf)
     then MkCondition C_permit_sig ("signature authorization (permit family): " ++ call) None None
     else MkCondition C_self_service ("effectful external call must succeed: " ++ call) None None).

Definition no_adapter (c : CapabilityExpr) : bool :=
  bool_decide (kind c = K_unsupported) && bool_decide (unsupported_reason c = Some "no_adapter").

(** The delegated-check arm, over the inlining attempt. *)
Definition evaluate_external_bool (inline : dict -> option (option CapabilityExpr)) (leaf : dict) (ctx : EvaluationContext)
    : option CapabilityExpr :=
  own ← moves_own_value leaf;
  if (own : bool) then Some (value_movement leaf)
  else match py_get "set_descriptor" leaf with
  | PyNone => resolve_external_bool keccak4 earned_public leaf
  | v =>
      descriptor ← as_dict v;
      let check := external_check_from_descriptor keccak4 leaf descriptor ctx in
      cap ← (if py_eq_str (py_get "kind" descriptor) "external_set" then
               let cap := enumerate descriptor ctx in
               if negb (adapter_declined_external_set cap) || adapter_deferred_pending_index cap
               then Some (tag_caller_subject cap ctx)
               else
                 inlined ← inline descriptor;
                 match inlined with
                 | Some c => Some c
                 | None => c ← check; Some (tag_caller_subject c ctx)
                 end
             else
               inlined ← inline descriptor;
               match inlined with
               | Some c => Some c
               | None =>
                   let cap := enumerate descriptor ctx in
                   c ← (if no_adapter cap then check else Some cap); Some (tag_caller_subject c ctx)
               end);
      c ← stamp_caller_gate_check earned_public cap leaf;
      Some (if py_eq_str (py_get "operator" leaf) "falsy" then negate c else c)
  end.

(** The signature and authorization arm. *)
Definition evaluate_authorization (leaf : dict) (ctx : EvaluationContext) : option CapabilityExpr :=
  match py_get "set_descriptor" leaf with
  | PyNone => s ← resolve_signer_from_leaf leaf ctx; Some (Cap.signature_witness s [])
  | v =>
      descriptor ← as_dict v;
      if py_eq_str (py_get "kind" descriptor) "state_authority" then resolve_state_authority descriptor ctx
      else Some (enumerate descriptor ctx)
  end.

(** An enumeration that stands: populated, exact, or empty by design. *)
Definition authoritative (c : CapabilityExpr) : bool :=
  bool_decide (kind c = K_finite_set) &&
  (negb (is_nil (or_nil (members c))) || bool_decide (membership_quality c = exact)
   || bool_decide (empty_reason c = Some empty_by_design)).

(** The comparison arm. *)
Definition evaluate_comparison (leaf : dict) (ctx : EvaluationContext) : option CapabilityExpr :=
  tainted ← (if earned_public then leaf_is_caller_tainted leaf else Some false);
  if (tainted : bool) then
    found ← (if is_none (py_get "set_descriptor" leaf) then Some None else threshold_members leaf ctx);
    match found with
    | Some c => if authoritative c then Some (tag_caller_subject c ctx) else gate_of leaf
    | None => gate_of leaf
    end
  else condition_cap leaf.

(** [_evaluate_leaf] *)
Definition evaluate_leaf (inline : dict -> dict -> EvaluationContext -> option (option CapabilityExpr)) (ctx : EvaluationContext)
    (v : pyval) : option CapabilityExpr :=
  reach ← is_read_reach_condition v;
  if (reach : bool) then
    let node := PyDict [("op", PyStr "LEAF"); ("leaf", v)] in
    t ← reach_truth rpc_request ctx node; reach_capability t node
  else
    leaf ← as_dict v;
    refused ← signer_unresolved leaf;
    let kind := py_get "kind" leaf in
    if (refused : bool) then
      Some (Cap.external_check_only
              (MkExternalCheck (contract_address ctx) None
                 [("basis", PyList [PyStr "caller_tainted_authority_unresolved"; PyStr "signer_authorization_unresolved"])]) [])
    else if py_eq_str kind "unsupported" then
      r ← text_or (py_get "unsupported_reason" leaf) "unsupported"; Some (Cap.unsupported r)
    else if py_in (py_get "authority_role" leaf) SIDE_ROLES then evaluate_side_leaf leaf ctx
    else if py_eq_str kind "membership" then evaluate_membership leaf ctx
    else if py_eq_str kind "equality" then evaluate_equality leaf ctx
    else if py_eq_str kind "external_bool" then evaluate_external_bool (fun descriptor => inline leaf descriptor ctx) leaf ctx
    else if py_in kind ["signature_auth"; "authorization"] then evaluate_authorization leaf ctx
    else if py_eq_str kind "comparison" then evaluate_comparison leaf ctx
    else Some (Cap.unsupported ("unknown_leaf_kind_" ++ py_str kind)).

(** ** Cross-contract inlining *)

(** The callee of a delegated check: the registry's address and how the call names
    the function, or the reason there is nothing to inline (the inner [None]). *)
Record InlineTarget := MkTarget {
  it_outer : OuterContext;
  it_registry : string;
  it_signature : option string;
  it_stored : option string;
  it_selector : option string
}.

(** The key of the evaluation stack. *)
Definition it_key (t : InlineTarget) : Z * string * string :=
  (chain_id (it_outer t), it_registry t, or_else (opt_or (it_signature t) (it_selector t)) "").

(** The address the descriptor's state variable holds. *)
Definition registry_address (descriptor : dict) (outer : OuterContext) : option (option string) :=
  source ← dget_or "address_source" (py_get "authority_contract" descriptor);
  source ← as_dict (py_or source (PyDict []));
  Some (if negb (py_eq_str (py_get "source" source) "state_variable") then None
        else match (n ← state_var_lookup_key source; assoc_get n (or_nil (outer_state_var_values outer))) with
             | Some (PyStr v) => if hex_shaped 42 v then Some (str_lower v) else None
             | _ => None
             end).

Definition inline_target (descriptor : dict) (ctx : EvaluationContext) : option (option InlineTarget) :=
  let signature := as_str (py_get "callee_signature" descriptor) in
  let stored := as_str (py_get "callee_selector" descriptor) in
  match truthy_text signature, truthy_text stored with
  | None, None => Some None
  | _, _ =>
      dispatched ← stored_dispatch_selector keccak4 (py_of_opt stored) (py_of_opt signature);
      selector ← (match dispatched, signature with
                  | None, Some s => selector_for_canonical_signature keccak4 (PyStr s)
                  | _, _ => Some dispatched
                  end);
      match outer_ctx ctx with
      | None => Some None
      | Some outer =>
          if negb (session outer) then Some None
          else
            address ← registry_address descriptor outer;
            Some (match address with
                  | Some a => Some (MkTarget outer a signature stored selector)
                  | None => None
                  end)
      end
  end.

(** The frame the call leaves from. *)
Definition parent_frame (outer : OuterContext) : CallFrame :=
  match outer_call_frame outer with Some f => f | None => frame_root (outer_contract_address outer) None None end.

(** The call's operands in the caller's terms. *)
Definition inline_args (leaf : dict) (ctx : EvaluationContext) (t : InlineTarget) : option (list dict) :=
  ops ← callee_argument_operands leaf (it_signature t) (it_selector t);
  mapM (normalize_operand_for_call_arg keccak4 rpc_request (parent_frame (it_outer t)) ctx (Some (it_registry t))
          (rpc_url (it_outer t)) (outer_block (it_outer t)) frames) ops.

(** The non-empty tree maps of an artifact, in the order they are searched. *)
Definition tree_maps (artifact : dict) : list dict :=
  omap (M := list) (fun v => match v with PyDict ((_ :: _) as m) => Some m | _ => None end)
    [py_get "trees" artifact; py_get "check_trees" artifact].

Fixpoint callee_entry (maps : list dict) (signature selector : option string) (canonical : pyval) : option (option (string * pyval)) :=
  match maps with
  | [] => Some None
  | m :: maps =>
      e ← callee_tree_entry keccak4 m signature selector canonical;
      match e with Some _ => Some e | None => callee_entry maps signature selector canonical end
  end.

(** The registry's persisted state, from its own job or the runtime one. *)
Definition registry_state (a : RegistryAnalysis) (t : InlineTarget) (chain : string) : list (string * pyval) :=
  match load_state_var_values (or_else (truthy_text (analysis_job_address a)) (it_registry t)) (analysis_job_id a) chain with
  | [] => if decide (runtime_job_id a = analysis_job_id a) then [] else load_state_var_values (it_registry t) (runtime_job_id a) chain
  | values => values
  end.

(** The callee's frame: [msg.sender] is the calling contract. *)
Definition child_frame (t : InlineTarget) (selector : option string) (call_args : list dict) : CallFrame :=
  let parent := parent_frame (it_outer t) in
  MkFrame (protected_contract_address parent) (Some (it_registry t)) (it_signature t) selector
    (str_lower <$> frame_this parent) (Some (it_registry t)) selector (List.map PyDict call_args).

Definition child_outer (t : InlineTarget) (state : list (string * pyval)) (frame : CallFrame) : OuterContext :=
  MkOuter (chain_id (it_outer t)) (rpc_url (it_outer t)) (outer_block (it_outer t)) (Some (it_registry t)) (Some state) true
    (it_key t :: evaluation_stack (it_outer t)) (Some frame).

Definition cycle_check (t : InlineTarget) : CapabilityExpr :=
  Cap.external_check_only
    (MkExternalCheck (Some (it_registry t)) (it_selector t)
       [("basis", PyList [PyStr "cycle_detected_in_cross_contract_inlining"])]) [].

(** What the caller keeps of the callee's capability: nothing when it needs the
    events, the outer check when it would open a caller gate. *)
Definition refine_only (leaf descriptor : dict) (ctx : EvaluationContext) (resolved : CapabilityExpr) : option CapabilityExpr :=
  opens ← (if py_eq_str (py_get "operator" leaf) "truthy"
           then and_m (caller_gate leaf) (public_without_root_cofinites earned_public resolved) else Some false);
  if (opens : bool) then
    cap ← external_check_from_descriptor keccak4 leaf descriptor ctx;
    match check cap with
    | Some chk => chk ← with_basis_tag "inline_refine_only_guard" chk; Some (set_check chk cap)
    | None => Some cap
    end
  else Some resolved.

(** The callee's tree bound to the call and rewritten for its frame. *)
Definition inline_tree (tree : pyval) (call_args : list dict) (frame : CallFrame) : option pyval :=
  bound ← bind_callee_parameters tree call_args; Some (normalize_tree_for_frame frame bound).

(** [_maybe_inline_cross_contract_call]; [evaluate] is the nested evaluation. *)
Definition maybe_inline_cross_contract_call (evaluate : pyval -> OuterContext -> option CapabilityExpr)
    (leaf descriptor : dict) (ctx : EvaluationContext) : option (option CapabilityExpr) :=
  target ← inline_target descriptor ctx;
  match target with
  | None => Some None
  | Some t =>
      if decide (it_key t ∈ evaluation_stack (it_outer t)) then Some (Some (cycle_check t))
      else match chain_by_id (chain_id (it_outer t)) with
      | Raise _ => Some None
      | Ok info =>
          let chain := ci_name info in
          match find_analysis (it_registry t) chain with
          | None => Some None
          | Some a =>
              match predicate_trees a with
              | None => Some None
              | Some artifact =>
                  call_args ← inline_args leaf ctx t;
                  let canonical := py_get "canonical_signatures" artifact in
                  let materialized selector := materialize_events (it_outer t) (it_registry t) selector call_args in
                  entry ← callee_entry (tree_maps artifact) (it_signature t) (opt_or (it_selector t) (it_stored t)) canonical;
                  match entry with
                  | None => Some (materialized (it_selector t))
                  | Some (key, tree) =>
                      dispatched ← key_dispatch_selector keccak4 key canonical;
                      let selector := opt_or dispatched (it_selector t) in
                      let frame := child_frame t selector call_args in
                      tree ← inline_tree tree call_args frame;
                      resolved ← evaluate tree (child_outer t (registry_state a t chain) frame);
                      if inline_result_needs_materialization resolved then Some (materialized selector)
                      else c ← refine_only leaf descriptor ctx resolved; Some (Some c)
                  end
              end
          end
      end
  end.

(** ** Trees *)

(** One child of a conjunction: a side condition when it is one, else its
    capability. *)
Definition conjunct (single : bool) (child : pyval) (evaluated : option CapabilityExpr) : option CapabilityExpr :=
  if single then evaluated
  else
    side ← side_condition_capability child;
    match side with Some c => Some c | None => evaluated end.

(** The alternatives of a disjunction that stay, and the steps of the refuted
    ones. *)
Fixpoint alternatives (ctx : EvaluationContext) (l : list (pyval * option CapabilityExpr))
    : option (list CapabilityExpr * list trace_step) :=
  match l with
  | [] => Some ([], [])
  | (child, evaluated) :: l =>
      reach ← is_read_reach_tree child;
      if negb reach then
        c ← evaluated; '(cs, steps) ← alternatives ctx l; Some (c :: cs, steps)
      else
        t ← reach_truth rpc_request ctx child;
        if bool_decide (holds t = Some false) then
          e ← reach_expression child;
          '(cs, steps) ← alternatives ctx l; Some (cs, reach_step t e :: steps)
        else
          c ← reach_capability t child; '(cs, steps) ← alternatives ctx l; Some (c :: cs, steps)
  end.

(** [_evaluate_or] *)
Definition evaluate_or (ctx : EvaluationContext) (l : list (pyval * option CapabilityExpr)) : option CapabilityExpr :=
  '(cs, refuted) ← alternatives ctx l;
  match cs with
  | [] =>
      child ← head l;
      reach_capability (MkTruth None [] (Some "every_reach_alternative_refuted") None) child.1
  | c :: cs =>
      let result := fold_left union cs c in
      Some (match refuted with [] => result | _ => set_trace (trace result ++ refuted)%list result end)
  end.

Definition evaluate_and (single : bool) (l : list (pyval * option CapabilityExpr)) : option CapabilityExpr :=
  cs ← mapM (fun ce => conjunct single ce.1 ce.2) l;
  match cs with c :: cs => Some (fold_left intersect cs c) | [] => None end.

(** [evaluate_tree], over the evaluation of a leaf. *)
Fixpoint walk_tree (leaf_cap : pyval -> option CapabilityExpr) (ctx : EvaluationContext) (tree : pyval) : option CapabilityExpr :=
  match tree with
  | PyNone => Some (Cap.conditional_universal (MkCondition C_business "no gating" None None))
  | PyDict d =>
      let op := py_get "op" d in
      if py_eq_str op "LEAF" then
        match py_get "leaf" d with PyNone => Some (Cap.unsupported "empty_leaf") | leaf => leaf_cap leaf end
      else
        children ← child_values d;
        if is_nil children then Some (Cap.unsupported "empty_branch")
        else
          let evaluated := zip children (child_walk (walk_tree leaf_cap ctx) d) in
          if py_eq_str op "OR" then evaluate_or ctx evaluated
          else if py_eq_str op "AND" then evaluate_and (List.length children =? 1)%nat evaluated
          else _ ← mapM snd evaluated; Some (Cap.unsupported ("unknown_op_" ++ py_str op))
  | _ => None
  end.

Fixpoint evaluate_tree (fuel : nat) (ctx : EvaluationContext) (tree : pyval) {struct fuel} : option CapabilityExpr :=
  let nested tree outer := match fuel with O => None | S fuel => evaluate_tree fuel (registry_context outer) tree end in
  walk_tree (evaluate_leaf (maybe_inline_cross_contract_call nested) ctx) ctx tree.

(** [evaluate_tree_with_registry] *)
Definition evaluate_tree_with_registry (fuel : nat) (tree : pyval) (outer : OuterContext) : option CapabilityExpr :=
  evaluate_tree fuel (registry_context outer) tree.

End Evaluator.
