(* ===== verification/FailClosed.v ===== *)
(** * Unresolved gates stay closed

    A capability is [gated] when something the evaluator could not resolve stands
    between every caller and the function: an unsupported predicate, an external
    check stamped with a caller-gate basis, or a conjunction with either.
    [intersect] keeps a gate whatever it is intersected with, and the projection
    of a gated capability has no public path. *)

From stdpp Require Import base sets list strings.
From Stdlib Require Import String Ascii ZArith Lia.
From S2P Require Import Prelude PyText EvalContext Capabilities CapabilitiesTheory Surface SurfaceReference SurfaceTheory SurfaceEquivalence SurfaceDict.

Local Open Scope string_scope.

(** ** Gated capabilities *)

(** A caller-gate tag among the basis of the check. *)
Definition gate_stamped (chk : ExternalCheck) : Prop :=
  exists basis tag, assoc_get "basis" (extra chk) = Some (PyList basis) /\ PyStr tag ∈ basis /\ tag ∈ CALLER_GATE_BASIS_TAGS.

Inductive gated : CapabilityExpr -> Prop :=
  | gated_unsupported c : kind c = K_unsupported -> subject c = root -> gated c
  | gated_check c chk : kind c = K_external_check_only -> subject c = root -> check c = Some chk -> gate_stamped chk -> gated c
  | gated_and_l c l r : kind c = K_AND -> subject c = root -> children c = [l; r] -> gated l -> gated c
  | gated_and_r c l r : kind c = K_AND -> subject c = root -> children c = [l; r] -> gated r -> gated c.

#[local] Hint Constructors gated : core.

Lemma gated_root c : gated c -> subject c = root.
Proof. by destruct 1. Qed.

Lemma gated_same c d : kind d = kind c -> subject d = subject c -> check d = check c -> children d = children c -> gated c -> gated d.
Proof.
  intros K S C Ch H. inversion H as [? Kc Sc|? chk Kc Sc Cc G|? l r Kc Sc Cc G|? l r Kc Sc Cc G]; subst.
  - apply gated_unsupported; congruence.
  - apply (gated_check _ chk); congruence.
  - apply (gated_and_l _ l r); congruence.
  - apply (gated_and_r _ l r); congruence.
Qed.

Lemma gated_attach c conds : gated c -> gated (attach_conditions c conds).
Proof. apply gated_same; by destruct conds. Qed.

Lemma gated_cross c b : gated c -> subject b = bound -> gated (intersect_cross_subject c b) /\ gated (intersect_cross_subject b c).
Proof.
  intros G B. pose proof (gated_root _ G) as R. unfold intersect_cross_subject. rewrite (decide_True _ _ B).
  rewrite (decide_False (P := subject c = bound)) by (rewrite R; done). split; (eapply gated_same; [..|by apply (gated_attach c (bound_as_conditions b))]); done.
Qed.

Lemma gated_kind c : gated c -> kind c = K_unsupported \/ kind c = K_external_check_only \/ kind c = K_AND.
Proof. destruct 1; auto. Qed.

Lemma intersect_gated a b : gated a \/ gated b -> gated (intersect a b).
Proof.
  intros G. unfold intersect.
  case_decide as Ua; [by apply gated_unsupported|]. case_decide as Ub; [by apply gated_unsupported|].
  case_decide as Ca. { destruct G as [G|G]; [|by apply gated_attach]. destruct (gated_kind _ G) as [K|[K|K]]; congruence. }
  case_decide as Cb. { destruct G as [G|G]; [by apply gated_attach|]. destruct (gated_kind _ G) as [K|[K|K]]; congruence. }
  case_decide as Es.
  - destruct G as [G|G]; pose proof (gated_root _ G) as R.
    + apply (gated_cross a b G). destruct (subject b); congruence.
    + apply (gated_cross b a G). destruct (subject a); congruence.
  - assert (gated (Cap.structural_and [a; b])) as H by (destruct G; [by eapply gated_and_l|by eapply gated_and_r]).
    destruct G as [G|G]; destruct (gated_kind _ G) as [K|[K|K]]; rewrite K; try done; by destruct (kind a).
Qed.

Lemma fold_intersect_gated cs c : gated c \/ Exists gated cs -> gated (fold_left intersect cs c).
Proof.
  revert c. induction cs as [|b cs IH]; intros c H; cbn [fold_left].
  - destruct H as [H|H]; [done|by inversion H].
  - apply IH. destruct H as [H|H]; [left; apply intersect_gated; auto|].
    inversion H; subst; [left; apply intersect_gated; auto|by right].
Qed.

(** ** Their projection *)

Section Projection.
Context (lookup : option (list (string * string))) (signature : option string).

Lemma get_default_subject c : get_default "subject" (PyStr "root") (capability_to_dict c) = PyStr (match subject c with root => "root" | bound => "bound" end).
Proof. dict_lookup c. Qed.

Lemma to_dict_check c : py_get "check" (capability_to_dict c) = match check c with Some k => PyDict (check_asdict k) | None => PyNone end.
Proof. dict_lookup c; by destruct ck0. Qed.

Lemma any_m_not_false {A} (p : A -> option bool) l x : x ∈ l -> p x = Some true -> any_m p l <> Some false.
Proof. intros Hx Hp H. rewrite (any_m_false p l H x Hx) in Hp. done. Qed.

Lemma stamped_blocks c chk : kind c = K_external_check_only -> subject c = root -> check c = Some chk -> gate_stamped chk ->
  is_root_authority_blocker (PyDict (capability_to_dict c)) <> Some false.
Proof.
  intros K R C (basis & tag & Eb & Hin & Htag). cbn [is_root_authority_blocker]. rewrite get_default_subject, R, to_dict_check, C.
  change "finite_set" with (kind_name K_finite_set). change "unsupported" with (kind_name K_unsupported).
  change "external_check_only" with (kind_name K_external_check_only). rewrite !kind_eqb, K. cbn [negb py_eq_str].
  change (String.eqb "root" "root") with true. cbn [negb].
  destruct (is_reach_not_determined _) as [[|]|]; cbn [mbind option_bind]; [done| |done].
  repeat (rewrite bool_decide_eq_false_2 by done). rewrite bool_decide_eq_true_2 by done.
  change (dget_or "extra" (PyDict (check_asdict chk))) with (Some (PyDict (extra chk))). cbn [mbind option_bind].
  destruct (dget_or "basis" (PyDict (extra chk))) as [b|] eqn:Ed; cbn [mbind option_bind]; [|done].
  assert (b = PyList basis) as ->.
  { unfold dget_or, py_or in Ed. destruct (py_truthy (PyDict (extra chk))) eqn:Et; cbn [dget] in Ed.
    - unfold py_get in Ed. rewrite Eb in Ed. by injection Ed as <-.
    - destruct (extra chk); done. }
  unfold iter_or_nil, py_or. destruct basis as [|v basis]; [by apply elem_of_nil in Hin|]. cbn [py_truthy py_iter mbind option_bind].
  eapply any_m_not_false; [done|]. unfold py_in_set. cbn [hashable]. unfold py_in. f_equal. apply existsb_exists. exists tag.
  split; [by apply list_elem_of_In|]. cbn. apply String.eqb_refl.
Qed.

Lemma gated_blocks c : gated c -> is_root_authority_blocker (PyDict (capability_to_dict c)) <> Some false.
Proof.
  induction 1 as [c K R|c chk K R C G|c l r K R C G IH|c l r K R C G IH]; [|by eapply stamped_blocks|..];
    cbn [is_root_authority_blocker]; rewrite get_default_subject, R, child_results_map, child_dicts_to_dict, ?C;
    change "finite_set" with (kind_name K_finite_set); change "unsupported" with (kind_name K_unsupported);
    change "external_check_only" with (kind_name K_external_check_only); change "AND" with (kind_name K_AND); rewrite !kind_eqb, K;
    cbn [py_eq_str]; change (String.eqb "root" "root") with true; cbn [negb];
    destruct (is_reach_not_determined _) as [[|]|]; cbn [mbind option_bind]; try done;
    repeat (rewrite bool_decide_eq_false_2 by done); rewrite bool_decide_eq_true_2 by done;
    cbn [List.map any_m snd]; destruct (is_root_authority_blocker (PyDict (capability_to_dict l))) as [[|]|];
    destruct (is_root_authority_blocker (PyDict (capability_to_dict r))) as [[|]|]; done.
Qed.

Lemma pbind_ok {A B} (m : PM A) (k : A -> PM B) s b s' : pbind m k s = POk b s' -> exists a s1, m s = POk a s1 /\ k a s1 = POk b s'.
Proof. unfold pbind. destruct (m s) as [a s1| |]; [|done..]. eauto. Qed.

Lemma plift_ok {A} (o : option A) s a s' : plift o s = POk a s' -> o = Some a /\ s' = s.
Proof. unfold plift. destruct o; [|done]. by intros [= -> ->]. Qed.

Ltac pok H :=
  repeat match type of H with
  | pbind _ _ _ = POk _ _ => let a := fresh "a" in let s := fresh "s" in let E := fresh "E" in apply pbind_ok in H as (a & s & E & H)
  | pret _ _ = POk (_, _) _ => unfold pret in H; injection H as <- <- <-
  | pret _ _ = POk _ _ => unfold pret in H; injection H as <- <-
  end.

(** Conditions and side checks leave the number of paths. *)
Lemma append_count sm raw s sm' s' : append_conditions sm raw s = POk sm' s' -> sm_count sm' = sm_count sm.
Proof.
  unfold append_conditions. destruct raw; intros H; [by pok H|]. pok H. destruct (sm_count sm =? 0)%Z eqn:Ez.
  - pok H. cbn. lia.
  - by pok H.
Qed.

Lemma side_checks_count v side s sm s' : with_side_checks v side s = POk sm s' -> sm_count sm = sm_count v.
Proof. unfold with_side_checks. intros H. pok H. cbn [sm_count]. by eapply append_count. Qed.

Lemma product_count nr l r s sm s' : product_summary nr l r s = POk sm s' -> sm_count l = 0%Z \/ sm_count r = 0%Z -> sm_count sm = 0%Z.
Proof.
  unfold product_summary. intros H H0. pok H. rewrite (proj2 (orb_true_iff _ _)) in H; [by pok H|].
  destruct H0 as [-> | ->]; [left|right]; done.
Qed.

(** A conjunct with rows and no path closes the conjunction. *)
Lemma and_count nr l r s sm s' : and_summary nr l r s = POk sm s' ->
  sm_count r = 0%Z /\ sm_valid r = true \/ sm_count l = 0%Z /\ sm_valid l = true -> sm_count sm = 0%Z.
Proof.
  unfold and_summary. intros H V. pok H. assert (sm_count a0 = 0%Z) as H0.
  { destruct (negb (sm_valid l) && negb (sm_valid r)) eqn:E1; [by pok E0|].
    destruct (negb (sm_valid r)) eqn:E2; [|destruct (negb (sm_valid l)) eqn:E3].
    - apply side_checks_count in E0. destruct V as [[V1 V2]|[V1 V2]]; [by rewrite V2 in E2|]. by rewrite E0.
    - apply side_checks_count in E0. destruct V as [[V1 V2]|[V1 V2]]; [by rewrite E0|by rewrite V2 in E3].
    - eapply product_count; [done|]. destruct V as [[V1 _]|[V1 _]]; auto. }
  destruct (sm_nobody l || sm_nobody r); pok H; done.
Qed.

Lemma and_first nr r s sm s' : and_summary nr EMPTY_SUMMARY r s = POk sm s' -> sm_valid r = true -> sm_count r = 0%Z ->
  sm_count sm = 0%Z /\ sm_valid sm = true.
Proof.
  unfold and_summary. intros H V C. pok H. change (sm_valid EMPTY_SUMMARY) with false in E0. rewrite V in E0. cbn [negb andb] in E0.
  unfold with_side_checks in E0. pok E0. apply plift_ok in E1 as [[= <-] ->]. cbn [List.concat append_conditions] in E2. injection E2 as <- <-.
  assert (sm_rows r <> []) as Hr. { unfold sm_valid in V. rewrite C in V. intros Er. by rewrite Er in V. }
  change (sm_nobody EMPTY_SUMMARY) with false in H. cbn [orb] in H.
  destruct (sm_nobody r); pok H; cbn; (split; [done|]); unfold sm_valid; cbn; by rewrite bool_decide_eq_false_2.
Qed.

(** What one conjunct leaves. *)
Lemma and_step_ok nr acc v m s sm b s' : and_step true nr acc (v, m) s = POk (sm, b) s' ->
  exists cs s1 s2, m s = POk cs s1 /\ and_summary nr acc.1 cs s2 = POk sm s' /\ (acc.2 = true -> b = true) /\
    (sm_valid cs = false -> is_root_authority_blocker v <> Some false -> b = true).
Proof.
  unfold and_step. intros H. cbn [fst snd andb] in H. pok H. exists a, s0, s1. split_and!; [done|done|by intros ->|].
  intros V B. rewrite V in E0. cbn [negb] in E0. apply plift_ok in E0 as [E0 _]. destruct a0; [by rewrite orb_true_r|done].
Qed.

(** A blocked or pathless conjunction is published closed. *)
Lemma and_result_closed (sb : Summary * bool) raw s sm s' : append_conditions sb.1 raw s = POk sm s' -> sb.2 = true \/ sm_count sb.1 = 0%Z ->
  sm_count (if sb.2 && negb (sm_count sm =? 0)%Z then closed_summary (sm_rows sm) (sm_residual sm) (sm_ond sm) (sm_nobody sm) else sm) = 0%Z.
Proof.
  intros H%append_count [-> | H0]; cbn [andb].
  - destruct (sm_count sm =? 0)%Z eqn:E; [by apply Z.eqb_eq|done].
  - rewrite H, H0. cbn. by rewrite andb_false_r, H, H0.
Qed.

Lemma node_closed nr c : gated c -> forall s sm s', node true lookup signature nr (PyDict (capability_to_dict c)) s = POk sm s' -> sm_count sm = 0%Z.
Proof.
  induction 1 as [c K R|c chk K R C G|c l r K R C G IH|c l r K R C G IH]; intros s sm s'; cbn [node]; intros H; pok H;
    rewrite child_results_map, child_dicts_to_dict, ?C in H;
    change "finite_set" with (kind_name K_finite_set) in H; change "threshold_group" with (kind_name K_threshold_group) in H;
    change "signature_witness" with (kind_name K_signature_witness) in H; change "conditional_universal" with (kind_name K_conditional_universal) in H;
    change "OR" with (kind_name K_OR) in H; change "AND" with (kind_name K_AND) in H; change "cofinite_blacklist" with (kind_name K_cofinite_blacklist) in H;
    rewrite !kind_eqb, K in H; repeat (rewrite bool_decide_eq_false_2 in H by done); (destruct a0; [by pok H|]); try (by pok H);
    rewrite bool_decide_eq_true_2 in H by done; cbn [List.map pfold] in H; pok H.
  - apply pbind_ok in E1 as ([s1' b1] & t1 & E1 & E3). pok E3. destruct a2 as [s2' b2]. eapply and_result_closed; [done|].
    apply and_step_ok in E1 as (c1 & u1 & u2 & N1 & A1 & _ & B1), E4 as (c2 & u3 & u4 & N2 & A2 & B2 & _). cbn [fst snd] in *.
    apply IH in N1 as Z1. destruct (sm_valid c1) eqn:V; [|left; by apply B2, B1, gated_blocks].
    right. destruct (and_first _ _ _ _ _ A1 V Z1) as [Z2 V2]. by apply (and_count _ _ _ _ _ _ A2); right.
  - apply pbind_ok in E1 as ([s1' b1] & t1 & E1 & E3). pok E3. destruct a2 as [s2' b2]. eapply and_result_closed; [done|].
    apply and_step_ok in E4 as (c2 & u3 & u4 & N2 & A2 & _ & B2). cbn [fst snd] in *.
    apply IH in N2 as Z1. destruct (sm_valid c2) eqn:V; [|left; by apply B2, gated_blocks].
    right. by apply (and_count _ _ _ _ _ _ A2); left.
Qed.
(** A gated capability is never published as public. *)
Lemma gated_not_public c surface : gated c ->
  project_capability_surface true lookup signature (PyDict (capability_to_dict c)) = Some surface -> authority_public surface = false.
Proof.
  intros G. unfold project_capability_surface. destruct (project_node _ _ _ _ _) as [sm s| |] eqn:E; [|by intros [= <-]|done].
  intros [= <-]. unfold project_node in E. pok E. apply (node_closed _ _ G) in E. unfold authority_public. cbn. by rewrite E.
Qed.

End Projection.
