(* ===== verification/EvaluatorTheory.v ===== *)
(** * What the evaluator's answer means

    - An unresolved caller gate on every path of a tree keeps the function closed
      ([caller_gate_fails_closed]), and the gate a sibling makes it drop
      ([collapsed_gate_dropped]).
    - The two lists of caller times are told apart by what they do to a caller who
      was never listed ([time_list_polarity]). *)

From stdpp Require Import base sets list strings.
From Stdlib Require Import String Ascii ZArith Lia.
From S2P Require Import Prelude PyText Chains EventIndex LogFetch EventFold EvalContext ReachReads Capabilities CapabilitiesTheory.
From S2P Require Import Surface SurfaceReference SurfaceTheory SurfaceEquivalence SurfaceDict Shapes Binding Authority Equality Membership Evaluator FailClosed.

Local Open Scope string_scope.

(** ** Gates of a tree *)

(** [leaf] is a conjunct of the tree: nothing passes the tree without it. *)
Inductive guards (leaf : pyval) : pyval -> Prop :=
  | guards_leaf d : py_get "op" d = PyStr "LEAF" -> py_get "leaf" d = leaf -> guards leaf (PyDict d)
  | guards_and d cs t : py_get "op" d = PyStr "AND" -> child_values d = Some cs -> t ∈ cs -> guards leaf t -> guards leaf (PyDict d).

(** A gate resolution leaves unresolved: a refused signer, an unsupported leaf, or
    a caller gate no adapter enumerates. *)
Definition unresolved_gate (leaf : dict) : bool :=
  match is_read_reach_condition (PyDict leaf), signer_unresolved leaf with
  | Some false, Some true => true
  | Some false, Some false =>
      py_eq_str (py_get "kind" leaf) "unsupported" ||
      (bool_decide (caller_gate leaf = Some true) && bool_decide (has_caller_keyed_value_predicate leaf = Some false)
       && bool_decide (is_opaque_bool_return_predicate leaf = Some false)
       && (py_in (py_get "authority_role" leaf) SIDE_ROLES || py_eq_str (py_get "kind" leaf) "comparison"
           || py_eq_str (py_get "kind" leaf) "external_bool" && is_none (py_get "set_descriptor" leaf)))
  | _, _ => false
  end.

Lemma zip_map {A B} (f : A -> B) l : zip l (List.map f l) = List.map (fun x => (x, f x)) l.
Proof. induction l as [|x l IH]; [done|]. cbn. by rewrite IH. Qed.

Lemma eq_str_is v s : py_eq_str v s = true -> v = PyStr s.
Proof. destruct v; try done. cbn. by intros ->%String.eqb_eq. Qed.

Lemma eq_str_refl s : py_eq_str (PyStr s) s = true.
Proof. apply String.eqb_refl. Qed.

Lemma gate_basis_tag leaf tag : caller_gate_basis leaf = Some tag -> tag ∈ CALLER_GATE_BASIS_TAGS.
Proof.
  unfold caller_gate_basis. destruct (is_caller_keyed_time_allowlist leaf) as [[|]|]; cbn [mbind option_bind]; [intros [= <-]; set_solver| |done].
  destruct (is_caller_keyed_membership_allowlist leaf) as [[|]|]; cbn [mbind option_bind]; [intros [= <-]; set_solver..|done].
Qed.

Lemma Forall2_in_l {A B} (P : A -> B -> Prop) l k x : Forall2 P l k -> x ∈ l -> exists y, y ∈ k /\ P x y.
Proof.
  induction 1 as [|a b l k Hp _ IH]; intros Hx; [by apply elem_of_nil in Hx|].
  apply elem_of_cons in Hx as [-> | Hx]; [exists b; split; [by left|done]|]. destruct (IH Hx) as (y & Hy & ?). exists y. split; [by right|done].
Qed.

(** ** Gate capabilities *)

Lemma check_stamped (target sel : option string) rest l tag : PyStr tag ∈ l -> tag ∈ CALLER_GATE_BASIS_TAGS ->
  gated (Cap.external_check_only (MkExternalCheck target sel (("basis", PyList l) :: rest)) []).
Proof. intros H1 H2. eapply gated_check; [done..|]. exists l, tag. done. Qed.

Lemma gate_check_gated leaf tag e : caller_gate_basis leaf = Some tag -> gated (gate_check [tag] e).
Proof. intros H%gate_basis_tag. apply (check_stamped _ _ _ _ tag); [set_solver|done]. Qed.

Lemma gate_of_gated leaf c : gate_of leaf = Some c -> gated c.
Proof.
  unfold gate_of. destruct (caller_gate_basis leaf) as [tag|] eqn:E; cbn [mbind option_bind]; [|done].
  intros [= <-]. by eapply gate_check_gated.
Qed.

Lemma caller_gate_true leaf : caller_gate leaf = Some true ->
  leaf_is_caller_tainted leaf = Some true /\ is_permissionless_caller_shape leaf = Some false.
Proof.
  unfold caller_gate. destruct (leaf_is_caller_tainted leaf) as [[|]|]; cbn [and_m]; [|done..].
  destruct (is_permissionless_caller_shape leaf) as [[|]|]; done.
Qed.

(** A caller gate that is no equality does not test a negation. *)
Lemma gate_not_falsy leaf : caller_gate leaf = Some true -> py_eq_str (py_get "kind" leaf) "equality" = false ->
  py_eq_str (py_get "operator" leaf) "falsy" = false.
Proof.
  intros [_ H]%caller_gate_true K. unfold is_permissionless_caller_shape in H.
  destruct (leaf_caller_taint_is_collapsed leaf) as [co|] eqn:E; cbn [mbind option_bind] in H; [|done].
  assert (co = false) as ->.
  { unfold leaf_caller_taint_is_collapsed in E. destruct (leaf_has_direct_caller_source leaf) as [[|]|]; cbn [mbind option_bind] in E; [by injection E| |done].
    rewrite K in E. cbn [negb orb] in E. by injection E. }
  destruct (py_eq_str (py_get "operator" leaf) "falsy") eqn:F; [|done]. unfold py_in in H. cbn [existsb] in H. rewrite F in H. done.
Qed.

Lemma with_basis_tag_stamped tag chk chk' : with_basis_tag tag chk = Some chk' -> tag ∈ CALLER_GATE_BASIS_TAGS -> gate_stamped chk'.
Proof.
  unfold with_basis_tag. destruct (iter_or_nil _) as [l|]; cbn [mbind option_bind]; [|done]. intros [= <-] Ht.
  eexists _, tag. split; [cbn [extra]; rewrite assoc_put; by rewrite decide_True|]. split; [|done].
  destruct (existsb _ _) eqn:E; [|set_solver]. apply existsb_exists in E as (v & Hv & ->%eq_str_is). by apply list_elem_of_In.
Qed.

Lemma stamp_gated leaf chk c : caller_gate leaf = Some true ->
  stamp_caller_gate_check true (Cap.external_check_only chk []) leaf = Some c -> gated c.
Proof.
  intros G. unfold stamp_caller_gate_check. cbn [kind check Cap.external_check_only negb].
  change (and_m (leaf_is_caller_tainted leaf) (negb <$> is_permissionless_caller_shape leaf)) with (caller_gate leaf). rewrite G.
  cbn [mbind option_bind negb]. destruct (caller_gate_basis leaf) as [tag|] eqn:E; cbn [mbind option_bind]; [|done].
  destruct (with_basis_tag tag chk) as [chk'|] eqn:E'; cbn [mbind option_bind]; [|done]. intros [= <-].
  eapply gated_check; [done..|]. eapply with_basis_tag_stamped; [done|]. by eapply gate_basis_tag.
Qed.

Section Evaluated.
Context (w : Services).

(** Reads of the gate tests a leaf passed. *)
Lemma threshold_none leaf ctx : has_caller_keyed_value_predicate leaf = Some false -> threshold_members w leaf ctx = Some None.
Proof. unfold threshold_members. intros ->. cbn [mbind option_bind]. by destruct (py_get "set_descriptor" leaf). Qed.

Lemma side_leaf_gated leaf ctx c : earned_public w = true -> caller_gate leaf = Some true ->
  has_caller_keyed_value_predicate leaf = Some false -> is_opaque_bool_return_predicate leaf = Some false ->
  evaluate_side_leaf w leaf ctx = Some c -> gated c.
Proof.
  intros Ep G Hv Ho. unfold evaluate_side_leaf. rewrite Ho, (threshold_none _ _ Hv), Ep, G. cbn [mbind option_bind].
  destruct (caller_gate_basis leaf) as [tag|] eqn:E; cbn [fmap option_fmap option_map mbind option_bind]; [|done].
  intros [= <-]. by eapply gate_check_gated.
Qed.

Lemma comparison_gated leaf ctx c : earned_public w = true -> caller_gate leaf = Some true ->
  has_caller_keyed_value_predicate leaf = Some false -> evaluate_comparison w leaf ctx = Some c -> gated c.
Proof.
  intros Ep G Hv. unfold evaluate_comparison. destruct (caller_gate_true _ G) as [-> _]. rewrite Ep. cbn [mbind option_bind].
  rewrite (threshold_none _ _ Hv). destruct (is_none _); cbn [mbind option_bind]; apply gate_of_gated.
Qed.

Lemma bare_check_gated inline leaf ctx c : earned_public w = true -> caller_gate leaf = Some true ->
  py_get "kind" leaf = PyStr "external_bool" -> py_get "set_descriptor" leaf = PyNone ->
  evaluate_external_bool w inline leaf ctx = Some c -> gated c.
Proof.
  intros Ep G K D. unfold evaluate_external_bool, moves_own_value. destruct (caller_gate_true _ G) as [-> ->]. rewrite D, Ep.
  assert (forall b : bool, (if b then and_m (Some true) (Some false) else Some false) = Some false) as -> by (by intros []).
  cbn [mbind option_bind]. unfold resolve_external_bool.
  destruct (operands leaf) as [ops|]; cbn [mbind option_bind]; [|done].
  destruct (external_bool_selector _ _ _) as [sel|]; cbn [mbind option_bind]; [|done].
  destruct (leaf_basis leaf) as [basis|]; cbn [mbind option_bind]; [|done].
  rewrite gate_not_falsy by (try done; by rewrite K).
  destruct (stamp_caller_gate_check _ _ _) as [c'|] eqn:E; cbn [mbind option_bind]; [|done]. intros [= <-]. by eapply stamp_gated.
Qed.

Lemma leaf_gated inline leaf ctx c : earned_public w = true -> unresolved_gate leaf = true ->
  evaluate_leaf w inline ctx (PyDict leaf) = Some c -> gated c.
Proof.
  intros Ep. unfold unresolved_gate, evaluate_leaf. destruct (is_read_reach_condition _) as [[|]|]; [done| |done].
  cbn [mbind option_bind as_dict]. destruct (signer_unresolved leaf) as [[|]|]; cbn [mbind option_bind]; [|..|done].
  - intros _ [= <-]. eapply (check_stamped _ _ _ _ "caller_tainted_authority_unresolved"); set_solver.
  - destruct (py_eq_str (py_get "kind" leaf) "unsupported") eqn:U; cbn [orb].
    { intros _. destruct (text_or _ _) as [r|]; cbn [mbind option_bind]; [|done]. intros [= <-]. by apply gated_unsupported. }
    rewrite !andb_true_iff, !bool_decide_eq_true. intros [[[G Hv] Ho] Hk].
    destruct (py_in (py_get "authority_role" leaf) SIDE_ROLES); cbn [orb] in Hk; [by apply side_leaf_gated|].
    apply orb_true_iff in Hk as [K%eq_str_is|[K%eq_str_is D]%andb_true_iff]; rewrite K; cbn [py_eq_str py_in existsb String.eqb].
    + change (evaluate_comparison w leaf ctx = Some c -> gated c). by apply comparison_gated.
    + change (evaluate_external_bool w (fun descriptor => inline leaf descriptor ctx) leaf ctx = Some c -> gated c). apply bare_check_gated; [done..|].
      by destruct (py_get "set_descriptor" leaf).
Qed.

(** ** Trees *)

(** A tree with the gate in it is no side condition. *)
Lemma guards_not_side leaf tree : guards leaf tree -> side_condition_leaf leaf = Some None -> forall g, side_conditions_from_tree tree <> Some (Some g).
Proof.
  intros G Hs. induction G as [d Ho Hl|d cs t Ho Hc Hin G IH]; intros g; cbn [side_conditions_from_tree]; rewrite Ho.
  - change (py_eq_str (PyStr "LEAF") "LEAF") with true. cbv iota. by rewrite Hl, Hs.
  - change (py_eq_str (PyStr "AND") "LEAF") with false. change (py_eq_str (PyStr "AND") "AND") with true. cbv iota.
    rewrite Hc. cbn [mbind option_bind]. destruct cs as [|x cs]; [by apply elem_of_nil in Hin|]. cbn [is_nil].
    rewrite (child_walk_map _ _ _ Hc). destruct (all_branches _) as [[gs|]|] eqn:E; cbn [mbind option_bind]; [|done|done]. exfalso.
    assert (forall l gs, t ∈ l -> all_branches (List.map side_conditions_from_tree l) <> Some (Some gs)) as Hg; [|by eapply Hg].
    clear -IH. induction l as [|y l IHl]; intros gs Hin; [by apply elem_of_nil in Hin|]. cbn [List.map all_branches].
    destruct (side_conditions_from_tree y) as [[g|]|] eqn:E; cbn [mbind option_bind]; [|done|done].
    apply elem_of_cons in Hin as [-> | Hin]; [by destruct (IH g)|].
    destruct (all_branches _) as [[gs'|]|] eqn:E'; cbn [mbind option_bind]; [by destruct (IHl gs' Hin)|done|done].
Qed.

Lemma walk_gated leaf_cap ctx leaf tree c : guards leaf tree -> leaf <> PyNone -> side_condition_leaf leaf = Some None ->
  (forall c, leaf_cap leaf = Some c -> gated c) -> walk_tree w leaf_cap ctx tree = Some c -> gated c.
Proof.
  intros G Hn Hs Hl. revert c. induction G as [d Ho Hlf|d cs t Ho Hc Hin G IH]; intros c; cbn [walk_tree]; rewrite Ho.
  - change (py_eq_str (PyStr "LEAF") "LEAF") with true. cbv iota. rewrite Hlf. destruct leaf; try done; apply Hl.
  - change (py_eq_str (PyStr "AND") "LEAF") with false. change (py_eq_str (PyStr "AND") "OR") with false.
    change (py_eq_str (PyStr "AND") "AND") with true. cbv iota. rewrite Hc. cbn [mbind option_bind].
    destruct (is_nil cs); [intros [= <-]; by apply gated_unsupported|].
    rewrite (child_walk_map _ _ _ Hc), zip_map. unfold evaluate_and. generalize (List.length cs =? 1)%nat as single. intros single.
    destruct (mapM _ _) as [caps|] eqn:E; cbn [mbind option_bind]; [|done]. apply mapM_Some in E.
    destruct caps as [|c1 caps]; [done|]. intros [= <-]. apply fold_intersect_gated, Exists_cons.
    destruct (Forall2_in_l _ _ _ (t, walk_tree w leaf_cap ctx t) E) as (y & Hy & Hp); [by apply list_elem_of_In, List.in_map_iff; exists t; split; [|apply list_elem_of_In]|].
    assert (gated y) as Gy. { apply IH. unfold conjunct in Hp. cbn [fst snd] in Hp. destruct single; [done|]. unfold side_condition_capability in Hp.
      pose proof (guards_not_side _ _ G Hs) as Hno. destruct (side_conditions_from_tree t) as [[g|]|]; cbn [mbind option_bind] in Hp; [by destruct (Hno g)|done|done]. }
    apply elem_of_cons in Hy as [-> | Hy]; [by left|]. right. apply Exists_exists. eauto.
Qed.

End Evaluated.

(** ** Published verdicts *)

(** Services that answer nothing. *)
Definition offline : Services :=
  MkServices (fun _ => "00000000") (fun _ _ _ _ => None) (fun _ _ _ => None) true (fun _ _ => []) (mkIndex ∅ ∅) None
    (fun _ _ _ _ _ => MkWords [] false) [] (fun _ _ => None) (fun _ _ _ => []) (fun _ _ _ _ => None) (fun _ _ => None) 1000.

Definition bare_context : EvaluationContext := MkCtx None None None [] None.

Definition published (c : CapabilityExpr) : option string :=
  surface ← project_capability_surface true None None (PyDict (capability_to_dict c));
  capability_surface_openness (PyDict (capability_to_dict c)) surface.

Definition leaf_node (leaf : dict) : pyval := PyDict [("op", PyStr "LEAF"); ("leaf", PyDict leaf)].
Definition and_node (cs : list pyval) : pyval := PyDict [("op", PyStr "AND"); ("children", PyList cs)].
Definition or_node (cs : list pyval) : pyval := PyDict [("op", PyStr "OR"); ("children", PyList cs)].

(** [require(isKeeper(msg.sender))] through an internal view, with what the static
    analysis recorded of the caller. *)
Definition keeper_gate (references : bool) : dict :=
  [("kind", PyStr "equality"); ("operator", PyStr "truthy"); ("authority_role", PyStr "business");
   ("operands", PyList [PyDict [("source", PyStr "view_call"); ("derived_from", PyList [PyDict [("source", PyStr "msg_sender")]])]]);
   ("references_msg_sender", PyBool references); ("expression", PyStr "isKeeper(msg.sender)")].

Definition pause_leaf : dict :=
  [("kind", PyStr "equality"); ("operator", PyStr "falsy"); ("authority_role", PyStr "pause"); ("references_msg_sender", PyBool false);
   ("operands", PyList [PyDict [("source", PyStr "state_variable"); ("state_variable_name", PyStr "paused")]]); ("expression", PyStr "!paused")].

(** [require(!denied[msg.sender])], not enumerated. *)
Definition denied_leaf : dict :=
  [("kind", PyStr "membership"); ("operator", PyStr "falsy"); ("references_msg_sender", PyBool true);
   ("set_descriptor", PyDict [("kind", PyStr "mapping_membership"); ("key_sources", PyList [PyDict [("source", PyStr "msg_sender")]])]);
   ("expression", PyStr "!denied[msg.sender]")].

Definition keeper_tree : pyval := and_node [leaf_node denied_leaf; and_node [leaf_node pause_leaf; leaf_node (keeper_gate true)]].



(** The gate a sibling drops.  The same unresolved caller gate, recorded by
    the static analysis without a direct reference to the caller: alone it is
    published "not_determined", and conjoined with a pause check the evaluator
    takes it for a side condition and publishes the function "open". *)
Theorem collapsed_gate_dropped :
  unresolved_gate (keeper_gate false) = true /\
  (evaluate_tree offline 0 bare_context (leaf_node (keeper_gate false)) ≫= published) = Some "not_determined" /\
  (evaluate_tree offline 0 bare_context (and_node [leaf_node (keeper_gate false); leaf_node pause_leaf]) ≫= published) = Some "open".
Proof. by vm_compute. Qed.

(** ** Caller-keyed time lists *)

(** Whether a caller with no recorded time passes the comparison at [now]: the
    comparison the leaf requires, with the caller's stored value zero. *)
Definition unlisted_passes (op : string) (caller_first : bool) (now : Z) : bool :=
  if caller_first then compare_op op 0 now else compare_op op now 0.

(** The time lists are told apart by their default.  For an ordering of the
    caller's stored time against the block's, the leaf is an allowlist exactly
    when a caller who was never listed is refused at every time, and a denylist
    exactly when that caller passes at every time; it is never both and always
    one. *)
Theorem time_list_polarity leaf caller time op :
  caller_time_positions leaf = Some (Some (caller, time)) -> py_get "operator" leaf = PyStr op -> op ∈ ["lt"; "lte"; "gt"; "gte"] ->
  (is_caller_keyed_time_allowlist leaf = Some true <-> forall now, (0 < now)%Z -> unlisted_passes op (caller <? time)%nat now = false) /\
  (is_caller_keyed_time_denylist leaf = Some true <-> forall now, (0 < now)%Z -> unlisted_passes op (caller <? time)%nat now = true) /\
  is_caller_keyed_time_denylist leaf = (negb <$> is_caller_keyed_time_allowlist leaf).
Proof.
  intros Hp Ho Hin. unfold is_caller_keyed_time_allowlist, is_caller_keyed_time_denylist. rewrite Hp, Ho. cbn [mbind option_bind].
  assert (forall a b : bool, (forall now, (0 < now)%Z -> unlisted_passes op a now = b) <-> unlisted_passes op a 1 = b) as Hone.
  { intros a b. split; [intros H; by apply H|]. intros <- now Hn. unfold unlisted_passes. rewrite !elem_of_cons, elem_of_nil in Hin.
    destruct Hin as [-> | [-> | [-> | [-> | []]]]], a; unfold compare_op; cbn; lia. }
  rewrite !Hone. rewrite !elem_of_cons, elem_of_nil in Hin.
  destruct Hin as [-> | [-> | [-> | [-> | []]]]], (caller <? time)%nat; cbn; split_and!; (split; congruence) || done.
Qed.

(** [require(allowedUntil[msg.sender] >= block.timestamp)] *)
Definition allowed_until : dict :=
  [("kind", PyStr "comparison"); ("operator", PyStr "gte");
   ("operands", PyList [PyDict [("source", PyStr "msg_sender")]; PyDict [("source", PyStr "block_context"); ("block_context_kind", PyStr "timestamp")]])].

Lemma time_list_polarity_witness : is_caller_keyed_time_allowlist allowed_until = Some true /\ unlisted_passes "gte" true 1700000000 = false.
Proof.
  destruct (time_list_polarity allowed_until 0 1 "gte") as (H1 & _ & _); [by vm_compute|done|set_solver|].
  split; [by vm_compute|]. by apply H1.
Defined.
