(* ===== verification/TreeSemantics.v ===== *)
(** * The evaluator refines the boolean tree

    A predicate tree read as a predicate of the caller ([tree_callers]): AND is
    conjunction, OR disjunction, a leaf what it says of the caller.  When the
    leaves are resolved exactly, the side conditions hold and the reach conditions
    are what the chain answered, the evaluated capability denotes exactly the
    callers of the tree ([evaluate_tree_refines]). *)

From stdpp Require Import base sets list strings.
From Stdlib Require Import String Ascii ZArith Lia.
From S2P Require Import Prelude PyText Chains EventIndex LogFetch EventFold EvalContext ReachReads Capabilities CapabilitiesTheory.
From S2P Require Import Surface SurfaceReference SurfaceTheory SurfaceEquivalence SurfaceDict Shapes Binding Authority Equality Membership Evaluator FailClosed EvaluatorTheory.

Local Open Scope string_scope.

(** ** Sharp capabilities

    Of the root caller, with everything that is enumerated enumerated in full; a
    check that is not enumerated may stand anywhere. *)

Inductive sharp : CapabilityExpr -> Prop :=
  | sharp_intro c :
      subject c = root ->
      (kind c = K_finite_set -> membership_quality c = exact) ->
      (kind c = K_cofinite_blacklist -> blacklist_quality c = exact) ->
      Forall sharp (children c) -> sharp c.

Lemma sharp_core c d : same_core c d -> subject d = subject c -> sharp c -> sharp d.
Proof.
  intros (Ek & Em & Et & Eb & Ec & Emq & Ebq) Es H. destruct H as [c H2 H3 H4 H5].
  rewrite Ek in *. rewrite Emq in H3. rewrite Ebq in H4. rewrite Ec in H5. rewrite <- Es in H2. by constructor.
Qed.

Lemma sharp_members c : sharp c -> kind c = K_finite_set -> membership_quality c = exact.
Proof. by intros []. Qed.
Lemma sharp_blacklist c : sharp c -> kind c = K_cofinite_blacklist -> blacklist_quality c = exact.
Proof. by intros []. Qed.
Lemma sharp_root c : sharp c -> subject c = root.
Proof. by intros []. Qed.

Lemma sharp_finite_set ms cf cd l t e : sharp (Cap.finite_set ms exact cf cd l t root e).
Proof. by constructor; cbn. Qed.
Lemma sharp_cofinite bl cf cd : sharp (Cap.cofinite_blacklist bl cf cd root exact).
Proof. by constructor; cbn. Qed.
Lemma sharp_unsupported r : sharp (Cap.unsupported r).
Proof. by constructor; cbn. Qed.
Lemma sharp_binary k a b : k <> K_finite_set -> k <> K_cofinite_blacklist -> sharp a -> sharp b -> sharp (Cap.structural k [a; b]).
Proof. intros. constructor; cbn; try done. auto using Forall_cons_2, Forall_nil_2. Qed.

#[local] Hint Resolve sharp_finite_set sharp_cofinite sharp_unsupported : core.

Ltac sharp_through :=
  eapply sharp_core;
    [first [apply same_core_carry | apply same_core_attach]
    |first [apply subject_carry | apply subject_attach]|];
  try (eapply sharp_core; [apply same_core_trace|done|]).

Lemma sharp_intersect a b : sharp a -> sharp b -> sharp (intersect a b).
Proof.
  intros Xa Xb. unfold intersect. pose proof (sharp_root a Xa) as Ra. pose proof (sharp_root b Xb) as Rb.
  do 2 (case_decide; [auto|]). do 2 (case_decide; [by sharp_through|]). rewrite Ra, Rb. rewrite decide_False by (by intros []).
  destruct (kind a) eqn:Ka, (kind b) eqn:Kb; try (by apply sharp_binary).
  - unfold intersect_finite. rewrite (sharp_members a), (sharp_members b), Ra by done.
    change (intersect_quality exact exact) with (Some exact); cbv iota.
    destruct (is_nil _ && _ && _); [by apply sharp_binary|]. sharp_through. auto.
  - unfold intersect_finite_blacklist. rewrite (sharp_members a) by done. sharp_through. auto.
  - unfold intersect_finite_blacklist. rewrite (sharp_members b) by done. sharp_through. auto.
  - unfold intersect_cofinite. rewrite (sharp_blacklist a), (sharp_blacklist b) by done. sharp_through. auto.
Qed.

Lemma sharp_union a b : sharp a -> sharp b -> sharp (union a b).
Proof.
  intros Xa Xb. unfold union. pose proof (sharp_root a Xa) as Ra. pose proof (sharp_root b Xb) as Rb.
  do 3 (case_decide; [by apply sharp_binary|]). destruct (kind a) eqn:Ka, (kind b) eqn:Kb; try (by apply sharp_binary).
  - unfold union_finite. rewrite (sharp_members a), (sharp_members b), Ra by done. sharp_through. auto.
  - unfold union_finite_blacklist. rewrite (sharp_blacklist b) by done. sharp_through. auto.
  - unfold union_finite_blacklist. rewrite (sharp_blacklist a) by done. sharp_through. auto.
  - unfold union_cofinite. rewrite (sharp_blacklist a), (sharp_blacklist b) by done. sharp_through. auto.
  - case_decide; [done|by apply sharp_binary].
Qed.

Lemma sharp_qualified c : sharp c -> qualified c.
Proof.
  induction c as [c IH] using cap_children_ind. intros X. destruct X as [c H2 H3 H4 H5].
  constructor; [intros K; by rewrite H3|intros K; by rewrite H4|].
  clear H2 H3 H4. induction H5; inversion IH; subst; constructor; auto.
Qed.

(** A sharp capability for the callers [S]. *)
Definition resolves (c : CapabilityExpr) (S : callers) : Prop := wf_cap c /\ sharp c /\ denotes c S.

Lemma resolves_intersect a b Sa Sb : resolves a Sa -> resolves b Sb -> resolves (intersect a b) (fun x => Sa x && Sb x).
Proof.
  intros (Wa & Xa & Da) (Wb & Xb & Db). split_and!; auto using wf_intersect, sharp_intersect.
  apply intersect_denotes; auto using sharp_qualified; [by rewrite !sharp_root|]. split; intros; by apply sharp_blacklist.
Qed.

Lemma resolves_union a b Sa Sb : resolves a Sa -> resolves b Sb -> resolves (union a b) (fun x => Sa x || Sb x).
Proof.
  intros (Wa & Xa & Da) (Wb & Xb & Db). split_and!; auto using wf_union, sharp_union.
  apply union_denotes; auto using sharp_qualified. split; intros; by apply sharp_members.
Qed.

Lemma resolves_ext c S S' : (forall x, S x = S' x) -> resolves c S -> resolves c S'.
Proof. intros E (W & X & D). split_and!; [done..|]. by eapply denotes_ext. Qed.

Lemma resolves_intersect_all cs Ss : Forall2 resolves cs Ss -> forall c S, resolves c S ->
  resolves (fold_left intersect cs c) (fun x => S x && forallb (fun T => T x) Ss).
Proof.
  induction 1 as [|b T cs Ss Hb _ IH]; intros c S Hc; cbn [fold_left forallb].
  - eapply resolves_ext; [|exact Hc]. intros x. by rewrite andb_true_r.
  - eapply resolves_ext; [|by apply (IH _ _ (resolves_intersect _ _ _ _ Hc Hb))]. intros x. by rewrite andb_assoc.
Qed.

Lemma resolves_union_all cs Ss : Forall2 resolves cs Ss -> forall c S, resolves c S ->
  resolves (fold_left union cs c) (fun x => S x || existsb (fun T => T x) Ss).
Proof.
  induction 1 as [|b T cs Ss Hb _ IH]; intros c S Hc; cbn [fold_left existsb].
  - eapply resolves_ext; [|exact Hc]. intros x. by rewrite orb_false_r.
  - eapply resolves_ext; [|by apply (IH _ _ (resolves_union _ _ _ _ Hc Hb))]. intros x. by rewrite orb_assoc.
Qed.

Lemma resolves_universal conds : resolves (conditional conds) (fun _ => true).
Proof. split_and!; [by constructor; cbn; auto with psat|by constructor|by apply den_universal]. Qed.

Lemma resolves_opaque c S : kind c = K_unsupported \/ kind c = K_external_check_only -> subject c = root -> members c = None ->
  blacklist c = None -> threshold c = None -> children c = [] -> resolves c S.
Proof.
  intros K R M B T C. split_and!.
  - constructor; rewrite ?M, ?B, ?T, ?C; auto with psat.
  - constructor; rewrite ?C; [done|..]; [intros K'; rewrite K' in K; naive_solver..|constructor].
  - apply den_opaque. destruct K as [-> | ->]; set_solver.
Qed.

(** ** The tree as a predicate of the caller *)

Lemma tree_ind (P : pyval -> Prop) :
  (forall d, (forall l t, child_values d = Some l -> t ∈ l -> P t) -> P (PyDict d)) -> (forall v, is_dict v = false -> P v) -> forall v, P v.
Proof.
  intros Hd Hn v. enough (P v /\ match v with PyList l => Forall P l | _ => True end) by tauto.
  induction v as [| | | |l IH|d IH] using pyval_deep_ind; (split; [|done || idtac]); try (by apply Hn).
  - eapply Forall_impl; [exact IH|]. by intros ? [].
  - apply Hd. intros l t. unfold child_values, py_get. destruct (assoc_get "children" d) as [v|] eqn:E; [|by intros [= <-] ?%not_elem_of_nil].
    apply assoc_get_member in E. apply (proj1 (Forall_forall _ _) IH) in E as [_ E]. cbn [snd] in E.
    destruct v; try (case_match; intros [= <-] ?%not_elem_of_nil; done). intros [= <-] Ht. by apply (proj1 (Forall_forall _ _) E).
Qed.

Fixpoint tree_callers (V : pyval -> callers) (tree : pyval) : callers :=
  match tree with
  | PyDict d =>
      if py_eq_str (py_get "op" d) "LEAF" then V (py_get "leaf" d)
      else
        let children := child_walk (tree_callers V) d in
        if py_eq_str (py_get "op" d) "AND" then fun x => forallb (fun T => T x) children else fun x => existsb (fun T => T x) children
  | _ => fun _ => true
  end.

(** The leaves the walk can reach. *)
Fixpoint tree_leaves (tree : pyval) : list pyval :=
  match tree with
  | PyDict d => if py_eq_str (py_get "op" d) "LEAF" then [py_get "leaf" d] else List.concat (child_walk tree_leaves d)
  | _ => []
  end.

Lemma child_leaves d l t leaf : py_eq_str (py_get "op" d) "LEAF" = false -> child_values d = Some l -> t ∈ l ->
  leaf ∈ tree_leaves t -> leaf ∈ tree_leaves (PyDict d).
Proof.
  intros Ho Hc Ht Hl. cbn [tree_leaves]. rewrite Ho, (child_walk_map _ _ _ Hc). apply list_elem_of_In, List.in_concat.
  exists (tree_leaves t). split; [|by apply list_elem_of_In]. apply List.in_map_iff. exists t. split; [done|by apply list_elem_of_In].
Qed.

Lemma forallb_map {A B} (p : B -> bool) (f : A -> B) l : forallb p (List.map f l) = forallb (fun x => p (f x)) l.
Proof. induction l as [|x l IH]; [done|]. cbn. by rewrite IH. Qed.

Lemma existsb_map {A B} (p : B -> bool) (f : A -> B) l : existsb p (List.map f l) = existsb (fun x => p (f x)) l.
Proof. induction l as [|x l IH]; [done|]. cbn. by rewrite IH. Qed.

Lemma callers_children V d l x : py_eq_str (py_get "op" d) "LEAF" = false -> child_values d = Some l ->
  tree_callers V (PyDict d) x = (if py_eq_str (py_get "op" d) "AND" then forallb (fun t => tree_callers V t x) l
                                 else existsb (fun t => tree_callers V t x) l).
Proof.
  intros Ho Hc. cbn [tree_callers]. rewrite Ho, (child_walk_map _ _ _ Hc).
  destruct (py_eq_str (py_get "op" d) "AND"); [apply forallb_map|apply existsb_map].
Qed.

Lemma Forall2_in_r {A B} (P : A -> B -> Prop) l k y : Forall2 P l k -> y ∈ k -> exists x, x ∈ l /\ P x y.
Proof. intros H Hy. apply Forall2_flip in H. by apply (Forall2_in_l _ _ _ y) in H. Qed.

(** ** Side conditions and reach conditions *)

Lemma assoc_get_fields {A B} (f : A -> B) k (d : list (string * A)) : assoc_get k (List.map (fun kv => (kv.1, f kv.2)) d) = f <$> assoc_get k d.
Proof. induction d as [|[k' v] d IH]; [done|]. cbn [List.map assoc_get fst snd]. by case_decide. Qed.

Section Semantics.
Context (rpc : string -> string -> list pyval -> option Z -> option pyval) (ctx : EvaluationContext) (V : pyval -> callers).

(** What is taken for a side condition holds. *)
Definition sides_hold (tree : pyval) : Prop :=
  forall leaf g x, leaf ∈ tree_leaves tree -> side_condition_leaf leaf = Some (Some g) -> V leaf x = true.

(** What the chain answered of a reach condition is what it is. *)
Definition reads_hold (tree : pyval) : Prop :=
  forall leaf t b x, leaf ∈ tree_leaves tree -> is_read_reach_condition leaf = Some true ->
    leaf_truth rpc ctx leaf = Some t -> holds t = Some b -> V leaf x = b.

Lemma all_branches_Some l gs : all_branches l = Some (Some gs) -> Forall (fun r => exists g, r = Some (Some g)) l.
Proof.
  revert gs. induction l as [|[[g|]|] l IH]; intros gs; cbn [all_branches mbind option_bind]; try done.
  destruct (all_branches l) as [[gs'|]|]; cbn [mbind option_bind]; try done. intros _. constructor; [by eexists|by eapply IH].
Qed.

Lemma side_tree_holds tree g x : sides_hold tree -> side_conditions_from_tree tree = Some (Some g) -> tree_callers V tree x = true.
Proof.
  revert g. induction tree as [d IH|v Hv] using tree_ind; intros g Hs; [|by destruct v].
  cbn [side_conditions_from_tree]. destruct (py_eq_str (py_get "op" d) "LEAF") eqn:Ho.
  { intros H. cbn [tree_callers]. rewrite Ho. eapply Hs; [|exact H]. cbn [tree_leaves]. rewrite Ho. by left. }
  destruct (child_values d) as [l|] eqn:Hc; cbn [mbind option_bind]; [|done]. destruct (is_nil l) eqn:En; [done|].
  rewrite (child_walk_map _ _ _ Hc). destruct (all_branches _) as [[gs|]|] eqn:E; cbn [mbind option_bind]; [|done|done]. intros _.
  apply all_branches_Some in E. rewrite (callers_children V d l x Ho Hc).
  assert (forall t, t ∈ l -> tree_callers V t x = true) as Hall.
  { intros t Ht. destruct (proj1 (Forall_forall _ _) E (side_conditions_from_tree t)) as [g' Eg].
    { by apply list_elem_of_In, List.in_map, list_elem_of_In. }
    eapply IH; [done|done| |exact Eg]. intros leaf g0 y Hl. eapply Hs. by eapply child_leaves. }
  destruct (py_eq_str (py_get "op" d) "AND"); [apply forallb_forall; intros t Ht; by apply Hall, list_elem_of_In|].
  destruct l as [|t l]; [done|]. cbn [existsb]. rewrite (Hall t); [done|by left].
Qed.

Lemma reach_children d l : py_eq_str (py_get "op" d) "LEAF" = false -> child_values d = Some l -> is_read_reach_tree (PyDict d) = Some true ->
  forall t, t ∈ l -> is_read_reach_tree t = Some true.
Proof.
  intros Ho Hc. cbn [is_read_reach_tree]. rewrite Ho. revert Hc. unfold child_values, py_get.
  rewrite (assoc_get_fields (reach_results is_read_reach_tree)). destruct (assoc_get "children" d) as [v|]; cbn [fmap option_fmap option_map]; [|by intros [= <-] _ t ?%not_elem_of_nil].
  destruct v as [| | | |cs|]; try (case_match; intros [= <-] _ t ?%not_elem_of_nil; done). intros [= <-] H t Ht.
  destruct cs as [|c cs]; [by apply not_elem_of_nil in Ht|]. apply (all_m_true (fun x => x) _ H).
  by apply list_elem_of_In, (List.in_map is_read_reach_tree (c :: cs)), list_elem_of_In.
Qed.

Lemma mapM_map {A B} (f : A -> option B) l : mapM (fun x => x) (List.map f l) = mapM f l.
Proof. induction l as [|x l IH]; [done|]. cbn. destruct (f x); [|done]. cbn. by rewrite IH. Qed.

Lemma find_none_all {A} (p : A -> bool) l : List.find p l = None -> forall x, x ∈ l -> p x = false.
Proof. intros H x Hx. by eapply List.find_none; [exact H|apply list_elem_of_In]. Qed.

(** The truth of a connective from the truths of its children. *)
Lemma combine_holds dec ts b : holds (combine_truths dec ts) = Some b ->
  (b = dec /\ exists t, t ∈ ts /\ holds t = Some dec) \/ (b = negb dec /\ forall t, t ∈ ts -> holds t = Some (negb dec)).
Proof.
  unfold combine_truths. destruct (List.find _ ts) as [t|] eqn:E1.
  { apply List.find_some in E1 as [Hin Hh%bool_decide_eq_true]. intros Hb. left. split; [congruence|]. exists t. split; [by apply list_elem_of_In|done]. }
  destruct (List.find (fun t => bool_decide (holds t = None)) ts) as [t|] eqn:E2; [done|]. intros Hb. right.
  assert (forall t, t ∈ ts -> holds t = Some (negb dec)) as Hall.
  { intros t Ht. pose proof (find_none_all _ _ E1 t Ht) as H1%bool_decide_eq_false. pose proof (find_none_all _ _ E2 t Ht) as H2%bool_decide_eq_false.
    destruct (holds t) as [[|]|], dec; done. }
  split; [|done]. destruct dec; [by injection Hb|]. destruct (joint_calldata [] ts); [by injection Hb|done].
Qed.

Lemma reach_truth_holds tree t b x : reads_hold tree -> is_read_reach_tree tree = Some true -> reach_truth rpc ctx tree = Some t ->
  holds t = Some b -> tree_callers V tree x = b.
Proof.
  revert t b. induction tree as [d IH|v Hv] using tree_ind; intros t b Hr; [|by destruct v].
  destruct (py_eq_str (py_get "op" d) "LEAF") eqn:Ho.
  { cbn [is_read_reach_tree reach_truth tree_callers]. rewrite Ho. intros H1 H2 H3. eapply Hr; [|done..]. cbn [tree_leaves]. rewrite Ho. by left. }
  intros Hx. cbn [reach_truth]. rewrite Ho. destruct (child_values d) as [l|] eqn:Hc; cbn [mbind option_bind]; [|done].
  rewrite (child_walk_map _ _ _ Hc), mapM_map. destruct (mapM _ l) as [ts|] eqn:E; cbn [mbind option_bind]; [|done]. intros [= <-] Hh.
  apply mapM_Some in E. pose proof (reach_children d l Ho Hc Hx) as Hxs. rewrite (callers_children V d l x Ho Hc).
  assert (forall c t b, c ∈ l -> reach_truth rpc ctx c = Some t -> holds t = Some b -> tree_callers V c x = b) as Hch.
  { intros c t0 b0 Hin Ht Hb. eapply IH; [done|done| |by apply Hxs|done|done]. intros leaf t' b' y Hl. eapply Hr. by eapply child_leaves. }
  apply combine_holds in Hh as [(-> & t & Ht & Hb)|(-> & Hall)].
  - destruct (Forall2_in_r _ _ _ t E Ht) as (c & Hin & Hp). pose proof (Hch c t _ Hin Hp Hb) as Hv.
    destruct (py_eq_str (py_get "op" d) "AND"); cbn [negb] in *.
    + apply not_true_iff_false. intros Hf. rewrite forallb_forall in Hf. rewrite Hf in Hv; [done|by apply list_elem_of_In].
    + apply existsb_exists. exists c. split; [by apply list_elem_of_In|done].
  - assert (forall c, c ∈ l -> tree_callers V c x = negb (negb (py_eq_str (py_get "op" d) "AND"))) as Hv.
    { intros c Hin. destruct (Forall2_in_l _ _ _ c E Hin) as (t & Ht & Hp). eapply Hch; [done|exact Hp|by apply Hall]. }
    destruct (py_eq_str (py_get "op" d) "AND"); cbn [negb] in *.
    + apply forallb_forall. intros c Hin. by apply Hv, list_elem_of_In.
    + apply not_true_iff_false. intros (c & Hin & Hf)%existsb_exists. rewrite Hv in Hf; [done|by apply list_elem_of_In].
Qed.

End Semantics.

(** ** The walk *)

Lemma resolves_trace t c S : resolves c S -> resolves (set_trace t c) S.
Proof.
  intros (W & X & D). split_and!; [by eapply wf_cap_core; [apply same_core_trace|]|by eapply sharp_core; [apply same_core_trace|..]|].
  by eapply denotes_core; [apply same_core_trace|].
Qed.

(** A reach condition not read false is everyone, or a check that says nothing. *)
Lemma reach_capability_resolves t tree c S : reach_capability t tree = Some c -> holds t <> Some false ->
  (holds t = Some true -> forall x, S x = true) -> resolves c S.
Proof.
  unfold reach_capability. destruct (reach_expression tree) as [e|]; cbn [mbind option_bind]; [|done]. intros [= <-] Hf Ht.
  apply resolves_trace. destruct (holds t) as [[|]|]; [|done|by apply resolves_opaque; [right|..]].
  eapply resolves_ext; [|apply (resolves_universal [_])]. intros x. by rewrite Ht.
Qed.

Section Walk.
Context (w : Services) (leaf_cap : pyval -> option CapabilityExpr) (ctx : EvaluationContext) (V : pyval -> callers).

Definition walked (t : pyval) : Prop := forall c, walk_tree w leaf_cap ctx t = Some c -> resolves c (tree_callers V t).

Lemma alternatives_resolve l cs steps : Forall walked l -> Forall (reads_hold (rpc_request w) ctx V) l ->
  alternatives w ctx (List.map (fun t => (t, walk_tree w leaf_cap ctx t)) l) = Some (cs, steps) ->
  exists Ss, Forall2 resolves cs Ss /\ forall x, existsb (fun T => T x) Ss = existsb (fun t => tree_callers V t x) l.
Proof.
  intros Hw Hr. revert cs steps. induction Hw as [|t l Ht _ IH]; intros cs steps; [intros [= <- <-]; by exists []|].
  apply Forall_cons in Hr as [Hrt Hr]. specialize (IH Hr). cbn [List.map alternatives].
  destruct (is_read_reach_tree t) as [[|]|] eqn:Er; cbn [mbind option_bind negb]; [| |done].
  - destruct (reach_truth _ ctx t) as [tr|] eqn:Et; cbn [mbind option_bind]; [|done].
    pose proof (fun b x => reach_truth_holds _ _ V t tr b x Hrt Er Et) as Hv. case_bool_decide as Hh.
    + destruct (reach_expression t); cbn [mbind option_bind]; [|done].
      destruct (alternatives _ _ _) as [[cs' steps']|]; cbn [mbind option_bind]; [|done]. intros [= -> <-].
      destruct (IH _ _ eq_refl) as (Ss & H1 & H2). exists Ss. split; [done|]. intros x. cbn [existsb]. by rewrite (Hv _ x Hh), H2.
    + destruct (reach_capability tr t) as [c|] eqn:Ec; cbn [mbind option_bind]; [|done].
      destruct (alternatives _ _ _) as [[cs' steps']|]; cbn [mbind option_bind]; [|done]. intros [= <- <-].
      destruct (IH _ _ eq_refl) as (Ss & H1 & H2). exists (tree_callers V t :: Ss). split; [|intros x; cbn [existsb]; by rewrite H2].
      constructor; [|done]. eapply reach_capability_resolves; [exact Ec|done|]. intros Hh' x. by apply Hv.
  - destruct (walk_tree _ _ _ t) as [c|] eqn:Ew; cbn [mbind option_bind]; [|done].
    destruct (alternatives _ _ _) as [[cs' steps']|]; cbn [mbind option_bind]; [|done]. intros [= <- <-].
    destruct (IH _ _ eq_refl) as (Ss & H1 & H2). exists (tree_callers V t :: Ss). split; [|intros x; cbn [existsb]; by rewrite H2].
    constructor; [by apply Ht|done].
Qed.

Lemma evaluate_or_resolves l c : Forall walked l -> Forall (reads_hold (rpc_request w) ctx V) l ->
  evaluate_or w ctx (List.map (fun t => (t, walk_tree w leaf_cap ctx t)) l) = Some c ->
  resolves c (fun x => existsb (fun t => tree_callers V t x) l).
Proof.
  intros Hw Hr. unfold evaluate_or. destruct (alternatives _ _ _) as [[cs steps]|] eqn:E; cbn [mbind option_bind]; [|done].
  destruct (alternatives_resolve _ _ _ Hw Hr E) as (Ss & HF & HS). destruct HF as [|c0 S0 cs Ss H0 HF].
  - destruct (head _) as [child|]; cbn [mbind option_bind]; [|done]. intros H. by eapply reach_capability_resolves.
  - intros [= <-]. eapply (resolves_ext _ (fun x => S0 x || existsb (fun T => T x) Ss)); [intros x; by rewrite <- HS|].
    pose proof (resolves_union_all _ _ HF _ _ H0). destruct steps; [done|by apply resolves_trace].
Qed.

Lemma evaluate_and_resolves single l c : Forall walked l -> Forall (sides_hold V) l ->
  evaluate_and single (List.map (fun t => (t, walk_tree w leaf_cap ctx t)) l) = Some c ->
  resolves c (fun x => forallb (fun t => tree_callers V t x) l).
Proof.
  intros Hw Hs. unfold evaluate_and. destruct (mapM _ _) as [cs|] eqn:E; cbn [mbind option_bind]; [|done].
  assert (Forall2 resolves cs (List.map (tree_callers V) l)) as HF.
  { apply mapM_Some in E. revert cs E. induction Hw as [|t l Ht _ IH]; intros cs E; inversion E as [|? c1 ? cs1 Hc HE]; subst; [constructor|].
    apply Forall_cons in Hs as [Hst Hs]. cbn [List.map]. constructor; [|by apply IH]. unfold conjunct in Hc. cbn [fst snd] in Hc.
    destruct single; [by apply Ht|]. unfold side_condition_capability in Hc.
    destruct (side_conditions_from_tree t) as [[g|]|] eqn:Eg; cbn [mbind option_bind] in Hc; [|by apply Ht|done]. injection Hc as <-.
    eapply resolves_ext; [|apply resolves_universal]. intros x. symmetry. by eapply side_tree_holds. }
  intros H. destruct l as [|t l]; [by inversion HF; subst|]. inversion HF as [|c1 S1 cs1 Ss1 H1 H2]; subst. injection H as <-.
  eapply resolves_ext; [|by apply (resolves_intersect_all _ _ H2 _ _ H1)]. intros x. cbn [forallb]. by rewrite forallb_map.
Qed.

Lemma walk_resolves tree :
  (forall leaf c, leaf ∈ tree_leaves tree -> leaf <> PyNone -> leaf_cap leaf = Some c -> resolves c (V leaf)) ->
  sides_hold V tree -> reads_hold (rpc_request w) ctx V tree -> walked tree.
Proof.
  induction tree as [d IH|v Hv] using tree_ind; intros Hl Hs Hr c.
  2: { destruct v; try done. cbn [walk_tree tree_callers]. intros [= <-]. apply (resolves_universal [_]). }
  destruct (py_eq_str (py_get "op" d) "LEAF") eqn:Ho.
  { cbn [walk_tree tree_callers]. rewrite Ho. intros H. destruct (decide (py_get "leaf" d = PyNone)) as [E|E].
    - rewrite E in H. injection H as <-. by apply resolves_opaque; [left|..].
    - apply Hl; [cbn [tree_leaves]; rewrite Ho; by left|done|]. by destruct (py_get "leaf" d). }
  destruct (child_values d) as [l|] eqn:Hc; [|cbn [walk_tree]; by rewrite Ho, Hc].
  assert (forall t, t ∈ l -> walked t /\ sides_hold V t /\ reads_hold (rpc_request w) ctx V t) as Hch.
  { intros t Ht. assert (forall leaf, leaf ∈ tree_leaves t -> leaf ∈ tree_leaves (PyDict d)) as Hsub by (intros leaf; by eapply child_leaves).
    split_and!; [|intros leaf g x ?%Hsub; by eapply Hs|intros leaf tr b x ?%Hsub; by eapply Hr].
    eapply IH; [done|done|..]; [intros leaf c' ?%Hsub; by apply Hl|intros leaf g x ?%Hsub; by eapply Hs|intros leaf tr b x ?%Hsub; by eapply Hr]. }
  assert (Forall walked l /\ Forall (sides_hold V) l /\ Forall (reads_hold (rpc_request w) ctx V) l) as (F1 & F2 & F3).
  { split_and!; apply Forall_forall; intros t Ht; by apply Hch. }
  cbn [walk_tree]. rewrite Ho, Hc. cbn [mbind option_bind]. rewrite (child_walk_map _ _ _ Hc), zip_map.
  destruct (is_nil l); [intros [= <-]; by apply resolves_opaque; [left|..]|].
  destruct (py_eq_str (py_get "op" d) "OR") eqn:Oo; [|destruct (py_eq_str (py_get "op" d) "AND") eqn:Oa].
  - intros H. apply evaluate_or_resolves in H; [|done..]. eapply resolves_ext; [|exact H]. intros x.
    rewrite (callers_children V d l x Ho Hc). apply eq_str_is in Oo. by rewrite Oo.
  - intros H. apply evaluate_and_resolves in H; [|done..]. eapply resolves_ext; [|exact H]. intros x. by rewrite (callers_children V d l x Ho Hc), Oa.
  - destruct (mapM _ _); cbn [mbind option_bind]; [|done]. intros [= <-]. by apply resolves_opaque; [left|..].
Qed.
End Walk.

(** C3: the evaluator implements the boolean tree.  Let [V leaf] be the callers a
    leaf lets through.  If every leaf of the tree that is resolved on its own
    resolves exactly to its callers, every leaf taken for a side condition holds
    for everyone, and every reach condition is what the chain answered, then the
    capability [evaluate_tree] returns denotes the callers for which the tree,
    read as a boolean formula, is true; and it is again exact, so it can be a leaf
    of an outer tree. *)
Theorem evaluate_tree_refines w fuel ctx tree V c :
  (forall leaf c, leaf ∈ tree_leaves tree -> leaf <> PyNone ->
     evaluate_tree w fuel ctx (PyDict [("op", PyStr "LEAF"); ("leaf", leaf)]) = Some c -> resolves c (V leaf)) ->
  sides_hold V tree -> reads_hold (rpc_request w) ctx V tree ->
  evaluate_tree w fuel ctx tree = Some c -> denotes c (tree_callers V tree) /\ resolves c (tree_callers V tree).
Proof.
  intros Hl Hs Hr E. assert (resolves c (tree_callers V tree)) as H; [|split; [apply H|done]].
  destruct fuel; (eapply walk_resolves; [|exact Hs|exact Hr|exact E]); intros leaf c' Hin Hn Hc; apply Hl; [done|done| |done|done|];
    by destruct leaf.
Qed.

(** An owner behind a pause, or a guardian, or a mode the chain has off. *)
Definition owner_leaf (address : string) : dict :=
  [("kind", PyStr "equality"); ("operator", PyStr "eq"); ("authority_role", PyStr "authority"); ("references_msg_sender", PyBool true);
   ("operands", PyList [PyDict [("source", PyStr "msg_sender")]; PyDict [("source", PyStr "constant"); ("constant_value", PyStr address)]]);
   ("expression", PyStr address)].

(** [minted > cap], both in storage. *)
Definition cap_word (variable slot : string) : pyval :=
  PyDict [("op", PyStr "storage"); ("type", PyStr "uint256"); ("variable", PyStr variable); ("slot", PyStr slot); ("offset", PyInt 0); ("size", PyInt 32)].

Definition mode_leaf : dict :=
  [("kind", PyStr "comparison"); ("basis", PyList [PyStr REACH_CONDITION_BASIS]);
   ("reach_read", PyDict [("expression", PyDict [("op", PyStr "gt"); ("type", PyStr "bool"); ("left", cap_word "minted" "0x01"); ("right", cap_word "cap" "0x02")]);
                          ("holds", PyBool true)]);
   ("expression", PyStr "minted > cap")].

Definition owner_address : string := "0x" ++ str_repeat "a" 40.
Definition guardian_address : string := "0x" ++ str_repeat "b" 40.

Definition owner_tree : pyval :=
  or_node [and_node [leaf_node (owner_leaf owner_address); leaf_node pause_leaf]; leaf_node (owner_leaf guardian_address); leaf_node mode_leaf].

Definition owner_callers (leaf : pyval) : callers := fun x =>
  match leaf with
  | PyDict d =>
      if py_eq_str (py_get "expression" d) "!paused" then true
      else if py_eq_str (py_get "expression" d) "minted > cap" then false else py_eq_str (py_get "expression" d) x
  | _ => true
  end.

(** A node that answers 41 to every read. *)
Definition node_services : Services :=
  MkServices (fun _ => "00000000") (fun _ _ _ _ => Some (PyStr ("0x" ++ str_repeat "0" 62 ++ "29"))) (fun _ _ _ => None) true (fun _ _ => [])
    (mkIndex ∅ ∅) None (fun _ _ _ _ _ => MkWords [] false) [] (fun _ _ => None) (fun _ _ _ => []) (fun _ _ _ _ => None) (fun _ _ => None) 1000.

Definition node_context : EvaluationContext :=
  registry_context (MkOuter 1 (Some "http://node") (Some 100%Z) (Some ("0x" ++ str_repeat "c" 40)) None true [] None).

Lemma owner_leaf_resolves a c : str_lower a = a -> evaluate_tree node_services 0 node_context (leaf_node (owner_leaf a)) = Some c ->
  a = owner_address \/ a = guardian_address -> resolves c (fun x => String.eqb a x).
Proof.
  intros Hl E Ha. assert (exists cf cd l t e, c = Cap.finite_set [a] exact cf cd l t root e) as (cf & cd & l & t & e & ->).
  { destruct Ha as [-> | ->]; vm_compute in E; injection E as <-; eexists _, _, _, _, _; vm_compute; reflexivity. }
  split_and!; [apply wf_finite_set|apply sharp_finite_set|]. apply den_finite; [done|]. change (claims exact (canon_addresses [a]) (fun x => String.eqb a x)).
  intros x. rewrite elem_of_canon. rewrite String.eqb_eq. split.
  - intros <-. exists a. split; [by left|done].
  - intros (v & Hv & ->). apply list_elem_of_singleton in Hv as ->. done.
Qed.

Lemma evaluate_tree_refines_witness : exists c, evaluate_tree node_services 0 node_context owner_tree = Some c /\
  denotes c (tree_callers owner_callers owner_tree) /\ tree_callers owner_callers owner_tree guardian_address = true /\
  tree_callers owner_callers owner_tree "0x1" = false.
Proof.
  destruct (evaluate_tree node_services 0 node_context owner_tree) as [c|] eqn:E; [|by vm_compute in E].
  exists c. split; [done|]. split; [|by split; vm_compute].
  assert (forall leaf, leaf ∈ tree_leaves owner_tree -> leaf ∈ [PyDict (owner_leaf owner_address); PyDict pause_leaf; PyDict (owner_leaf guardian_address); PyDict mode_leaf]) as Hin
    by (intros leaf; apply id).
  apply (evaluate_tree_refines node_services 0 node_context owner_tree owner_callers c); [| | |done].
  - intros leaf c' Hl%Hin _ Hc. rewrite !elem_of_cons, elem_of_nil in Hl. destruct Hl as [-> | [-> | [-> | [-> | []]]]].
    + eapply resolves_ext; [|eapply (owner_leaf_resolves owner_address); [done|exact Hc|by left]]. by intros x.
    + vm_compute in Hc. injection Hc as <-. apply (resolves_universal [_]).
    + eapply resolves_ext; [|eapply (owner_leaf_resolves guardian_address); [done|exact Hc|by right]]. by intros x.
    + vm_compute in Hc. injection Hc as <-. split_and!; [by constructor; cbn; auto with psat|by constructor|].
      apply den_finite; [done|]. intros x. cbn. set_solver.
  - intros leaf g x Hl%Hin Hg. rewrite !elem_of_cons, elem_of_nil in Hl. destruct Hl as [-> | [-> | [-> | [-> | []]]]]; try done; by vm_compute in Hg.
  - intros leaf t b x Hl%Hin Hg Ht Hb. rewrite !elem_of_cons, elem_of_nil in Hl. destruct Hl as [-> | [-> | [-> | [-> | []]]]]; try (by vm_compute in Hg).
    vm_compute in Ht. injection Ht as <-. by injection Hb as <-.
Defined.
