(* ===== verification/InliningTheory.v ===== *)
(** * Inlining and its adapters

    - The registry picks the first of the best adapters ([pick_first_best]).
    - Rewriting a tree for a frame terminates: the number of bound parameters is
      enough nesting ([frame_nesting_bound]).
    - Inlining refines a caller gate and never opens it ([inlining_refines_only]).
    - A conjunction of reach conditions is read true on one calldata only
      ([reach_conjunction_one_calldata]).
    - Two arguments inlining gets wrong: a parameter bound to itself
      ([self_bound_parameter_loops]) and a caller's parameter taken for the
      callee's ([caller_parameter_captured]). *)

From stdpp Require Import base sets list strings.
From Stdlib Require Import String Ascii ZArith Lia.
From S2P Require Import Prelude PyText Chains EventIndex LogFetch EventFold EvalContext ReachReads ReachReadsTheory Capabilities CapabilitiesTheory.
From S2P Require Import Surface SurfaceReference SurfaceTheory SurfaceEquivalence SurfaceDict Shapes Binding Authority Equality Membership Evaluator FailClosed EvaluatorTheory TreeSemantics.

Local Open Scope string_scope.

(** ** The adapter registry *)

Section Pick.
Context (descriptor : dict) (outer : OuterContext).
Notation score a := (matches a descriptor outer).

Definition first_best (l : list SetAdapter) (a : SetAdapter) : Prop :=
  exists before after, l = (before ++ a :: after)%list /\ (0 < score a)%Z /\
    Forall (fun b => (score b < score a)%Z) before /\ Forall (fun b => (score b <= score a)%Z) after.

(** The best so far, of the adapters already seen. *)
Definition best_of (seen : list SetAdapter) (best : option (Z * SetAdapter)) : Prop :=
  match best with
  | None => Forall (fun b => (score b <= 0)%Z) seen
  | Some (s, a) => s = score a /\ first_best seen a
  end.

Lemma best_step seen best a : best_of seen best ->
  best_of (seen ++ [a])%list
    (if (0 <? score a)%Z && match best with None => true | Some (s, _) => (s <? score a)%Z end then Some (score a, a) else best).
Proof.
  destruct best as [[s b]|]; cbn [best_of].
  - intros [-> (l1 & l2 & -> & Hp & H1 & H2)]. destruct (0 <? score a)%Z eqn:E0, (score b <? score a)%Z eqn:E1; cbn [andb best_of];
      (split; [done|]); try (exists l1, (l2 ++ [a])%list; rewrite <- app_assoc; split_and!; [done..|]; apply Forall_app; split; [done|]; repeat constructor; lia).
    exists (l1 ++ b :: l2)%list, []. split_and!; [done|lia| |constructor]. apply Forall_app. split; [|constructor; [lia|]].
    + eapply Forall_impl; [exact H1|]. cbn. lia.
    + eapply Forall_impl; [exact H2|]. cbn. lia.
  - intros H. destruct (0 <? score a)%Z eqn:E0; cbn [andb best_of].
    + split; [done|]. exists seen, []. split_and!; [done|lia| |constructor]. eapply Forall_impl; [exact H|]. cbn. lia.
    + apply Forall_app. split; [done|]. repeat constructor. lia.
Qed.

Lemma pick_from_best l : forall seen best, best_of seen best -> best_of (seen ++ l)%list (pick_from best l descriptor outer).
Proof.
  induction l as [|a l IH]; intros seen best H; cbn [pick_from]; [by rewrite app_nil_r|].
  replace (seen ++ a :: l)%list with ((seen ++ [a]) ++ l)%list by (by rewrite <- app_assoc). by apply IH, best_step.
Qed.
End Pick.

Lemma first_best_unique d o l a b : first_best d o l a -> first_best d o l b -> a = b.
Proof.
  intros (l1 & l2 & E1 & Ha & B1 & A1) (k1 & k2 & E2 & Hb & B2 & A2). rewrite E1 in E2.
  apply app_eq_app in E2 as (m & [[E3 E4]|[E3 E4]]); subst; destruct m as [|x m]; cbn in E4; injection E4 as ->; subst; try done.
  - apply Forall_app in B1 as [_ B1]. apply Forall_cons in B1 as [B1 _]. apply Forall_app in A2 as [_ A2]. apply Forall_cons in A2 as [A2 _]. lia.
  - apply Forall_app in B2 as [_ B2]. apply Forall_cons in B2 as [B2 _]. apply Forall_app in A1 as [_ A1]. apply Forall_cons in A1 as [A1 _]. lia.
Qed.

(** The registry picks the first of the best.  [pick] returns an adapter
    exactly when it scores above zero, above every adapter registered before it
    and at least as high as every later one; it returns none exactly when no
    adapter scores above zero. *)
Theorem pick_first_best adapters descriptor outer :
  (forall a, pick adapters descriptor outer = Some a <-> first_best descriptor outer adapters a) /\
  (pick adapters descriptor outer = None <-> Forall (fun b => (matches b descriptor outer <= 0)%Z) adapters).
Proof.
  pose proof (pick_from_best descriptor outer adapters [] None ltac:(constructor)) as H. unfold pick. cbn [app] in H.
  destruct (pick_from None adapters descriptor outer) as [[s a]|]; cbn [best_of fmap option_fmap option_map snd] in *.
  - destruct H as [_ H]. split.
    + intros b. split; [by intros [= <-]|]. intros Hb. f_equal. by eapply first_best_unique.
    + split; [done|]. intros Hall. destruct H as (l1 & l2 & -> & Hp & _). apply Forall_app in Hall as [_ Hall].
      apply Forall_cons in Hall as [Hall _]. lia.
  - split; [|done]. intros b. split; [done|]. intros (l1 & l2 & -> & Hp & _). apply Forall_app in H as [_ H]. apply Forall_cons in H as [H _]. lia.
Qed.

(** ** Frame normalization terminates *)

Section Nesting.
Context (frame : CallFrame).
Notation norm := (normalize_value_for_frame frame).

Lemma norm_eq n seen v : norm n seen v =
  match v with
  | PyList l => PyList (List.map (norm n seen) l)
  | PyDict d =>
      match frame_value frame d with
      | Some c => PyDict c
      | None =>
          if py_eq_str (py_get "source" d) "parameter" then
            match as_int (py_get "parameter_index" d) with
            | Some idx =>
                if decide (idx ∈ seen) then v
                else match bound_parameter_operand d (bound_parameters frame) with
                     | Some b => match n with S n => norm n (idx :: seen) (PyDict b) | O => v end
                     | None => PyDict (List.map (fun kv => (kv.1, norm n (idx :: seen) kv.2)) d)
                     end
            | None => PyDict (List.map (fun kv => (kv.1, norm n seen kv.2)) d)
            end
          else PyDict (List.map (fun kv => (kv.1, norm n seen kv.2)) d)
      end
  | _ => v
  end.
Proof. destruct n, v; reflexivity. Qed.

(** The parameters not entered yet. *)
Definition fresh_of (seen l : list Z) : list Z := List.filter (fun i => negb (bool_decide (i ∈ seen))) l.

Definition parameter_range : list Z := List.map Z.of_nat (List.seq 0 (List.length (bound_parameters frame))).

Lemma fresh_cons i seen l : (List.length (fresh_of (i :: seen) l) <= List.length (fresh_of seen l))%nat.
Proof.
  induction l as [|j l IH]; [done|]. cbn [fresh_of List.filter]. destruct (bool_decide (j ∈ seen)) eqn:E; cbn [negb].
  - rewrite (bool_decide_eq_true_2 (j ∈ i :: seen)); [done|]. apply bool_decide_eq_true in E. by right.
  - destruct (negb _); cbn [List.length]; unfold fresh_of in IH; lia.
Qed.

Lemma fresh_enter i seen l : i ∉ seen -> i ∈ l -> (List.length (fresh_of (i :: seen) l) < List.length (fresh_of seen l))%nat.
Proof.
  intros Hi Hin. induction l as [|j l IH]; [by apply elem_of_nil in Hin|]. cbn [fresh_of List.filter]. destruct (decide (j = i)) as [-> | Hne].
  - rewrite (bool_decide_eq_false_2 (i ∈ seen)), (bool_decide_eq_true_2 (i ∈ i :: seen)) by (done || by left). cbn [negb List.length].
    apply Nat.lt_succ_r, fresh_cons.
  - apply elem_of_cons in Hin as [Hin|Hin]; [done|]. specialize (IH Hin).
    assert (bool_decide (j ∈ i :: seen) = bool_decide (j ∈ seen)) as -> by (apply bool_decide_ext; set_solver).
    destruct (negb _); cbn [List.length]; unfold fresh_of in IH; lia.
Qed.

Lemma bound_in_range d idx b : as_int (py_get "parameter_index" d) = Some idx -> bound_parameter_operand d (bound_parameters frame) = Some b ->
  idx ∈ parameter_range.
Proof.
  unfold bound_parameter_operand. intros ->. destruct (_ && _) eqn:E; [|done]. intros _. apply andb_true_iff in E as [E1 E2].
  apply list_elem_of_In, List.in_map_iff. exists (Z.to_nat idx). split; [lia|]. apply List.in_seq. lia.
Qed.

Definition enough (n m : nat) (seen : list Z) : Prop := (List.length (fresh_of seen parameter_range) <= n <= m)%nat.

Lemma norm_fields n m d : Forall (fun kv => forall seen, enough n m seen -> norm m seen kv.2 = norm n seen kv.2) d ->
  forall seen, enough n m seen -> PyDict (List.map (fun kv => (kv.1, norm m seen kv.2)) d) = PyDict (List.map (fun kv => (kv.1, norm n seen kv.2)) d).
Proof. intros IH seen Hf. f_equal. apply List.map_ext_in. intros kv Hx%list_elem_of_In. f_equal. by apply (proj1 (Forall_forall _ _) IH). Qed.

Lemma norm_stable n : forall m seen v, enough n m seen -> norm m seen v = norm n seen v.
Proof.
  induction n as [n IHn] using lt_wf_ind. intros m seen v. revert seen.
  induction v as [| | | |l IH|d IH] using pyval_deep_ind; intros seen Hf; rewrite (norm_eq m), (norm_eq n); try done.
  { f_equal. apply List.map_ext_in. intros x Hx%list_elem_of_In. by apply (proj1 (Forall_forall _ _) IH). }
  pose proof (norm_fields n m d IH) as Hfields.
  destruct (frame_value frame d); [done|]. destruct (py_eq_str _ _); [|by apply Hfields].
  destruct (as_int _) as [idx|] eqn:Ei; [|by apply Hfields]. case_decide as Hs; [done|].
  pose proof (fresh_cons idx seen parameter_range). unfold enough in *.
  destruct (bound_parameter_operand _ _) as [b|] eqn:Eb; [|apply Hfields; lia].
  pose proof (fresh_enter idx seen parameter_range Hs (bound_in_range _ _ _ Ei Eb)).
  destruct n as [|n]; [lia|]. destruct m as [|m]; [lia|]. apply IHn; lia.
Qed.

End Nesting.

(** C30: rewriting for a frame terminates.  A bound parameter is entered at most
    once on a path, so a nesting of as many levels as there are bound parameters
    is enough: any larger bound gives the same tree, also when parameters are
    bound to each other or to themselves. *)
Theorem frame_nesting_bound frame n tree : (List.length (bound_parameters frame) <= n)%nat ->
  normalize_tree_for_frame frame tree
  = match normalize_value_for_frame frame n [] tree with PyDict d => PyDict d | _ => tree end.
Proof.
  intros Hn. unfold normalize_tree_for_frame. rewrite (norm_stable frame (List.length (bound_parameters frame)) n []); [done|].
  split; [|done]. unfold fresh_of. etransitivity; [apply List.filter_length_le|]. unfold parameter_range. rewrite List.length_map, List.length_seq. done.
Qed.

Definition parameter_operand (i : Z) : dict := [("source", PyStr "parameter"); ("parameter_index", PyInt i)].

(** A frame whose two parameters are bound to each other. *)
Definition crossed_frame : CallFrame :=
  MkFrame None None None None None None None [PyDict (parameter_operand 1); PyDict (parameter_operand 0)].

Lemma frame_nesting_bound_witness :
  normalize_tree_for_frame crossed_frame (PyDict [("operands", PyList [PyDict (parameter_operand 0)])])
  = PyDict [("operands", PyList [PyDict (parameter_operand 0)])] /\
  normalize_tree_for_frame crossed_frame (PyDict [("operands", PyList [PyDict (parameter_operand 0)])])
  = match normalize_value_for_frame crossed_frame 9 [] (PyDict [("operands", PyList [PyDict (parameter_operand 0)])]) with
    | PyDict d => PyDict d | _ => PyDict [("operands", PyList [PyDict (parameter_operand 0)])] end.
Proof. split; [by vm_compute|]. apply (frame_nesting_bound crossed_frame 9). cbn. lia. Defined.

(** ** Arguments *)

(** A parameter bound to itself never normalizes.  When the caller forwards
    its own parameter [i] as argument [i], the frame binds parameter [i] to
    itself, and normalizing an operand that is parameter [i] in that frame (the
    next inlining does) recurses until the interpreter's limit, whatever it is:
    unlike the rewriting of trees, this function has no set of entered
    parameters. *)
Theorem self_bound_parameter_loops w frame ctx address url block i fuel :
  (0 <= i)%Z -> bound_parameters frame !! Z.to_nat i = Some (PyDict (parameter_operand i)) ->
  normalize_operand_for_call_arg (keccak4 w) (rpc_request w) frame ctx address url block fuel (parameter_operand i) = None.
Proof.
  intros Hi Hb. assert (bound_parameter_operand (parameter_operand i) (bound_parameters frame) = Some (parameter_operand i)) as E.
  { unfold bound_parameter_operand. change (as_int (py_get "parameter_index" (parameter_operand i))) with (Some i). cbv iota.
    apply lookup_lt_Some in Hb as Hl. rewrite (proj2 (Z.leb_le 0 i)), (proj2 (Z.ltb_lt i _)) by lia. cbn [andb]. by rewrite Hb. }
  induction fuel as [|fuel IH]; [done|]. cbn [normalize_operand_for_call_arg].
  change (py_get "source" (parameter_operand i)) with (PyStr "parameter").
  change (py_in_set (PyStr "parameter") CALLER_SOURCES) with (Some false). cbn [mbind option_bind].
  change (py_eq_str (PyStr "parameter") "external_call") with false. change (py_eq_str (PyStr "parameter") "self_address") with false.
  change (py_eq_str (PyStr "parameter") "computed") with false. change (py_eq_str (PyStr "parameter") "parameter") with true.
  cbn [andb]. by rewrite E.
Qed.

Definition forwarding_frame : CallFrame := MkFrame None None None None None None None [PyDict (parameter_operand 0)].

Lemma self_bound_parameter_loops_witness :
  normalize_operand_for_call_arg (keccak4 offline) (rpc_request offline) forwarding_frame bare_context None None None 1000 (parameter_operand 0) = None.
Proof. by apply (self_bound_parameter_loops offline forwarding_frame bare_context None None None 0). Defined.

(** The operands of [registry.hasRole(role, msg.sender)] in [f(address to, bytes32
    role)], and the registry's [hasRole(bytes32 role, address account)]. *)
Definition role_call : dict :=
  [("kind", PyStr "external_bool"); ("operator", PyStr "truthy");
   ("operands", PyList [PyDict (parameter_operand 1); PyDict [("source", PyStr "msg_sender")]])].

Definition role_key_tree : pyval :=
  leaf_node [("kind", PyStr "membership"); ("operator", PyStr "truthy");
             ("set_descriptor", PyDict [("kind", PyStr "mapping_membership"); ("key_sources", PyList [PyDict (parameter_operand 0); PyDict (parameter_operand 1)])])].

(** The key sources the callee's leaf is left with. *)
Definition leaf_keys (tree : pyval) : option (list pyval) :=
  d ← as_dict tree; leaf ← as_dict (py_get "leaf" d); descriptor_keys leaf.

(** Inlining takes the caller's parameter for the callee's.  Binding the
    arguments of [hasRole(role, msg.sender)] gives the callee's keys as the caller
    wrote them: its parameter 1 and the caller.  Rewriting the bound tree for the
    callee's frame then replaces that parameter by the callee's own argument 1,
    and the role is looked up under the caller's address. *)
Theorem caller_parameter_captured :
  let target := MkTarget (MkOuter 1 None None (Some owner_address) None true [] None) guardian_address (Some "hasRole(bytes32,address)") None None in
  exists args, inline_args offline role_call (registry_context (it_outer target)) target = Some args /\
    (bind_callee_parameters role_key_tree args ≫= leaf_keys) = Some [PyDict (parameter_operand 1); PyDict [("source", PyStr "root_caller")]] /\
    (inline_tree role_key_tree args (child_frame target None args) ≫= leaf_keys)
      = Some [PyDict [("source", PyStr "root_caller")]; PyDict [("source", PyStr "root_caller")]].
Proof. cbv zeta. eexists. split; [by vm_compute|]. by split; vm_compute. Qed.

(** ** One calldata for a conjunction *)

Lemma joint_names_ok acc l out : joint_names acc l = Some out ->
  (forall n v, assoc_get n acc = Some v -> assoc_get n out = Some v) /\ (forall n v, (n, v) ∈ l -> assoc_get n out = Some v) /\
  (forall n v, assoc_get n out = Some v -> assoc_get n acc = Some v \/ (n, v) ∈ l).
Proof.
  revert acc. induction l as [|[n v] l IH]; intros acc; cbn [joint_names].
  { intros [= <-]. split_and!; [done|by intros n v ?%elem_of_nil|auto]. }
  destruct (assoc_get n acc) as [u|] eqn:E.
  - destruct (String.eqb_spec u v) as [-> |]; [|done]. intros (H1 & H2 & H3)%IH. split_and!; [done| |].
    + intros m u [[= -> ->]|Hin]%elem_of_cons; [by apply H1|by apply H2].
    + intros m u Hm. destruct (H3 _ _ Hm); [by left|right; by right].
  - intros (H1 & H2 & H3)%IH. assert (forall m u, assoc_get m acc = Some u -> assoc_get m (acc ++ [(n, v)])%list = Some u) as Ha.
    { intros m u Hm. by rewrite assoc_get_app, Hm. }
    split_and!; [auto| |].
    + intros m u [[= -> ->]|Hin]%elem_of_cons; [|by apply H2]. apply H1. rewrite assoc_get_app, E. cbn. by rewrite decide_True.
    + intros m u Hm. destruct (H3 _ _ Hm) as [Hx|Hx]; [|right; by right]. rewrite assoc_get_app in Hx. destruct (assoc_get m acc); [by left|].
      cbn in Hx. case_decide; [|done]. injection Hx as <-. subst. right. by left.
Qed.

Lemma joint_calldata_ok acc ts out : joint_calldata acc ts = Some out ->
  (forall n v, assoc_get n acc = Some v -> assoc_get n out = Some v) /\
  (forall t n v, t ∈ ts -> (n, v) ∈ opt_calldata t -> assoc_get n out = Some v) /\
  (forall n v, assoc_get n out = Some v -> assoc_get n acc = Some v \/ exists t, t ∈ ts /\ (n, v) ∈ opt_calldata t).
Proof.
  revert acc. induction ts as [|t ts IH]; intros acc; cbn [joint_calldata].
  { intros [= <-]. split_and!; [done|by intros t n v ?%elem_of_nil|auto]. }
  destruct (joint_names acc (opt_calldata t)) as [acc'|] eqn:E; [|done]. apply joint_names_ok in E as (J1 & J2 & J3). intros (H1 & H2 & H3)%IH.
  split_and!; [auto| |].
  - intros t' n v [-> | Ht]%elem_of_cons Hin; [by apply H1, J2|by eapply H2].
  - intros n v Hn. destruct (H3 _ _ Hn) as [Hx|(t' & Ht & Hx)]; [|right; exists t'; split; [by right|done]].
    destruct (J3 _ _ Hx); [by left|right; exists t; split; [by left|done]].
Qed.

(** A conjunction of reach conditions is read true on one calldata.  When the
    conjunction holds, every conjunct holds, the calldata of the answer gives each
    conjunct the very values it was witnessed with, and it has no other value. *)
Theorem reach_conjunction_one_calldata rpc ctx d l t :
  py_get "op" d = PyStr "AND" -> child_values d = Some l -> reach_truth rpc ctx (PyDict d) = Some t -> holds t = Some true ->
  exists ts, mapM (reach_truth rpc ctx) l = Some ts /\ Forall (fun u => holds u = Some true) ts /\
    (forall u n v, u ∈ ts -> (n, v) ∈ opt_calldata u -> assoc_get n (opt_calldata t) = Some v) /\
    (forall n v, assoc_get n (opt_calldata t) = Some v -> exists u, u ∈ ts /\ (n, v) ∈ opt_calldata u).
Proof.
  intros Ho Hc. cbn [reach_truth]. rewrite Ho, Hc. change (py_eq_str (PyStr "AND") "LEAF") with false. cbn [mbind option_bind].
  rewrite (child_walk_map _ _ _ Hc), mapM_map. destruct (mapM _ l) as [ts|] eqn:E; cbn [mbind option_bind]; [|done]. intros [= <-] Hh.
  exists ts. split; [done|]. change (negb (py_eq_str (PyStr "AND") "AND")) with false in *.
  pose proof (combine_holds _ _ _ Hh) as [[Hb _]|[_ Hall]]; [done|]. split; [by apply Forall_forall|].
  revert Hh. unfold combine_truths. destruct (List.find _ ts) as [u|] eqn:E1; [apply List.find_some in E1 as [Hin Hu%bool_decide_eq_true]; intros; congruence|].
  destruct (List.find (fun t => bool_decide (holds t = None)) ts); [done|]. destruct (joint_calldata [] ts) as [cs|] eqn:Ej; [|done]. intros _.
  apply joint_calldata_ok in Ej as (_ & J2 & J3). unfold opt_calldata. cbn [calldata].
  assert (or_nil (match cs with [] => None | _ => Some cs end) = cs) as -> by (by destruct cs).
  split; [done|]. intros n v Hn. destruct (J3 _ _ Hn); [done|done].
Qed.

(** [amount > cap], twice. *)
Definition capped_pair : dict :=
  [("op", PyStr "AND"); ("children", PyList [leaf_node [(REACH_READ, over_cap_stamp)]; leaf_node [(REACH_READ, over_cap_stamp)]])].

Lemma reach_conjunction_one_calldata_witness : exists t, reach_truth node_41 reach_ctx (PyDict capped_pair) = Some t /\
  assoc_get "amount" (opt_calldata t) = Some "42" /\
  exists ts, mapM (reach_truth node_41 reach_ctx) [leaf_node [(REACH_READ, over_cap_stamp)]; leaf_node [(REACH_READ, over_cap_stamp)]] = Some ts /\
    Forall (fun u => holds u = Some true) ts.
Proof.
  destruct (reach_truth node_41 reach_ctx (PyDict capped_pair)) as [t|] eqn:E; [|by vm_compute in E]. exists t. split; [done|].
  assert (holds t = Some true /\ assoc_get "amount" (opt_calldata t) = Some "42") as [Hh Ha] by (vm_compute in E; injection E as <-; by vm_compute).
  split; [done|]. destruct (reach_conjunction_one_calldata node_41 reach_ctx capped_pair _ t eq_refl eq_refl E Hh) as (ts & H1 & H2 & _).
  exists ts. split; [exact H1|exact H2].
Defined.

(** ** Inlining never opens a gate *)

Definition strip_field (kv : string * pyval) : string * pyval :=
  (kv.1, if String.eqb kv.1 "children" then match kv.2 with PyList l => PyList (List.map strip l) | w => w end else kv.2).

Lemma strip_get k d : k <> "children" -> py_get k (List.map strip_field d) = py_get k d.
Proof.
  intros Hk. unfold py_get. induction d as [|[k' v] d IH]; [done|]. cbn [List.map strip_field assoc_get fst snd]. case_decide as E; [|done].
  subst. by destruct (String.eqb_spec k' "children").
Qed.

Lemma strip_check c : kind c = K_external_check_only -> strip (PyDict (capability_to_dict c)) = PyDict (List.map strip_field (capability_to_dict c)).
Proof.
  intros K. cbn [strip]. change "cofinite_blacklist" with (kind_name K_cofinite_blacklist). rewrite kind_eqb, K.
  by rewrite bool_decide_eq_false_2.
Qed.

(** An external check is a residual, not a path. *)
Lemma check_not_public ep c chk basis : kind c = K_external_check_only -> check c = Some chk ->
  assoc_get "basis" (extra chk) = Some (PyList basis) -> public_without_root_cofinites ep c = Some false.
Proof.
  intros K C B. unfold public_without_root_cofinites. rewrite (strip_check c K). set (d := List.map strip_field _).
  assert (py_get "kind" d = PyStr "external_check_only") as Hk by (unfold d; rewrite strip_get, to_dict_kind, K; done).
  assert (py_get "check" d = PyDict (check_asdict chk)) as Hc by (unfold d; rewrite strip_get, to_dict_check, C; done).
  assert (exists b, is_reach_not_determined (PyDict d) = Some b) as [b Hb].
  { cbn [is_reach_not_determined]. rewrite Hk, Hc. cbn [py_eq_str]. change (String.eqb "external_check_only" "external_check_only") with true. cbn [negb].
    change (get_or_empty "extra" (PyDict (check_asdict chk))) with (Some (PyDict (extra chk))). cbn [mbind option_bind].
    assert (get_or_empty "basis" (PyDict (extra chk)) = Some (PyList basis)) as ->.
    { unfold get_or_empty, py_or. destruct (py_truthy (PyDict (extra chk))) eqn:E; [unfold py_get; by rewrite B|]. destruct (extra chk); done. }
    cbn [mbind option_bind]. unfold py_or. destruct (py_truthy (PyList basis)); cbn [py_contains]; by eexists. }
  unfold project_capability_surface, project_node. clearbody d.
  assert (exists ids s, intern [CONDITION_NOT_READ] initial_state = POk ids s /\ p_work s = 1%Z) as (ids & s & Ei & Ew)
    by (eexists _, _; split; [vm_compute; reflexivity|reflexivity]).
  unfold pbind at 1. rewrite Ei. cbn [node]. unfold pbind at 1. unfold spend. rewrite Ew. change (PROJECTION_WORK_BUDGET <? 1 + 1)%Z with false. cbv iota.
  unfold pbind at 1, plift at 1. rewrite Hb, Hk. destruct b; [done|]. reflexivity.
Qed.

Lemma external_check_basis kc leaf descriptor ctx c : external_check_from_descriptor kc leaf descriptor ctx = Some c ->
  exists chk basis, kind c = K_external_check_only /\ check c = Some chk /\ assoc_get "basis" (extra chk) = Some (PyList basis).
Proof.
  unfold external_check_from_descriptor. destruct (target_address_from_descriptor _ _); cbn [mbind option_bind]; [|done].
  destruct (stored_dispatch_selector _ _ _); cbn [mbind option_bind]; [|done]. unfold leaf_basis.
  destruct (as_list _) as [basis|]; cbn [mbind option_bind]; [|done].
  destruct (first_hint_value descriptor "topic0"); cbn [mbind option_bind]; [|done].
  destruct (first_hint_value descriptor "direction"); cbn [mbind option_bind]; [|done]. intros [= <-]. by eexists _, basis.
Qed.

Lemma refined_not_public w leaf descriptor ctx resolved c : caller_gate leaf = Some true -> py_get "operator" leaf = PyStr "truthy" ->
  refine_only w leaf descriptor ctx resolved = Some c -> public_without_root_cofinites (earned_public w) c = Some false.
Proof.
  intros G O. unfold refine_only. rewrite G, O. cbn [and_m]. change (py_eq_str (PyStr "truthy") "truthy") with true. cbv iota.
  destruct (public_without_root_cofinites _ resolved) as [[|]|] eqn:E; cbn [mbind option_bind]; [|by intros [= <-]|done].
  destruct (external_check_from_descriptor _ _ _ _) as [cap|] eqn:Ec; cbn [mbind option_bind]; [|done].
  destruct (external_check_basis _ _ _ _ _ Ec) as (chk & basis & K & C & B). rewrite C.
  destruct (with_basis_tag _ chk) as [chk'|] eqn:Et; cbn [mbind option_bind]; [|done]. intros [= <-].
  unfold with_basis_tag in Et. destruct (iter_or_nil _); cbn [mbind option_bind] in Et; [|done]. injection Et as <-.
  eapply check_not_public; [done|done|]. cbn [extra]. rewrite assoc_put. by rewrite decide_True.
Qed.

(** C23: inlining refines a caller gate and never opens it.  When a required
    external check discriminates on the caller by no permissionless shape, what
    inlining puts in its place (the callee's own capability, the check with the
    guard, or a cycle's check) is not public once the callee's root denylists are
    set aside; with an event materializer that never answers "everyone", for any
    callee, any nesting and any database. *)
Theorem inlining_refines_only w evaluate leaf descriptor ctx c :
  caller_gate leaf = Some true -> py_get "operator" leaf = PyStr "truthy" ->
  (forall outer checker selector args m, materialize_events w outer checker selector args = Some m ->
     public_without_root_cofinites (earned_public w) m = Some false) ->
  maybe_inline_cross_contract_call w evaluate leaf descriptor ctx = Some (Some c) ->
  public_without_root_cofinites (earned_public w) c = Some false.
Proof.
  intros G O Hm. unfold maybe_inline_cross_contract_call.
  destruct (inline_target w descriptor ctx) as [[t|]|]; cbn [mbind option_bind]; [|done|done].
  case_decide; [intros [= <-]; by eapply check_not_public|].
  destruct (chain_by_id _) as [info|]; [|done]. destruct (find_analysis w _ _) as [a|]; [|done]. destruct (predicate_trees a) as [artifact|]; [|done].
  destruct (inline_args w leaf ctx t) as [args|]; cbn [mbind option_bind]; [|done].
  destruct (callee_entry _ _ _ _ _) as [[[key tree]|]|]; cbn [mbind option_bind]; [|intros [= Hc]; by eapply Hm|done].
  destruct (key_dispatch_selector _ _ _); cbn [mbind option_bind]; [|done].
  destruct (inline_tree _ _ _); cbn [mbind option_bind]; [|done].
  destruct (evaluate _ _) as [resolved|]; cbn [mbind option_bind]; [|done].
  destruct (inline_result_needs_materialization resolved); [intros [= Hc]; by eapply Hm|].
  destruct (refine_only _ _ _ _ _) as [c'|] eqn:Er; cbn [mbind option_bind]; [|done]. intros [= <-]. by eapply refined_not_public.
Qed.

(** A registry whose [isKeeper(address)] only checks that it is not paused. *)
Definition keeper_artifact : dict := [("trees", PyDict [("isKeeper(address)", leaf_node pause_leaf)])].

Definition registry_services : Services :=
  MkServices (fun _ => "00000000") (fun _ _ _ _ => None) (fun _ _ _ => None) true (fun _ _ => []) (mkIndex ∅ ∅) None
    (fun _ _ _ _ _ => MkWords [] false) [] (fun _ _ => Some (MkAnalysis None "job" "job" (Some keeper_artifact))) (fun _ _ _ => [])
    (fun _ _ _ _ => None) (fun _ _ => None) 1000.

Definition keeper_descriptor : dict :=
  [("kind", PyStr "external_call"); ("callee_signature", PyStr "isKeeper(address)");
   ("authority_contract", PyDict [("address_source", PyDict [("source", PyStr "state_variable"); ("state_variable_name", PyStr "registry")])])].

Definition keeper_call : dict :=
  [("kind", PyStr "external_bool"); ("operator", PyStr "truthy"); ("callee_state_mutability", PyStr "view");
   ("operands", PyList [PyDict [("source", PyStr "msg_sender")]]); ("set_descriptor", PyDict keeper_descriptor)].

Definition keeper_context : EvaluationContext :=
  registry_context (MkOuter 1 None None (Some owner_address) (Some [("registry", PyStr guardian_address)]) true [] None).

Lemma inlining_refines_only_witness : exists c,
  maybe_inline_cross_contract_call registry_services (evaluate_tree_with_registry registry_services 3) keeper_call keeper_descriptor keeper_context = Some (Some c) /\
  public_without_root_cofinites true (conditional []) = Some true /\ public_without_root_cofinites true c = Some false.
Proof.
  destruct (maybe_inline_cross_contract_call registry_services (evaluate_tree_with_registry registry_services 3) keeper_call keeper_descriptor keeper_context)
    as [[c|]|] eqn:E; [|by vm_compute in E..].
  exists c. split; [done|]. split; [by vm_compute|].
  apply (inlining_refines_only registry_services (evaluate_tree_with_registry registry_services 3) keeper_call keeper_descriptor keeper_context); [by vm_compute|done|done|exact E].
Defined.
