(* ===== verification/ScoreModel.v ===== *)
(** * The scorer's numbers ([services/scoring/constants.py])

    Weights, weakness rungs and bands are rationals, and so is every figure the
    fold computes with them; [round(x, n)] is [py_round], to the nearest decimal
    with ties to even.  Binary rounding of floats is not modelled.  [log10] is
    [math.log10], an argument. *)

From stdpp Require Import base list strings pretty.
From Stdlib Require Import String Ascii ZArith QArith Qround Qminmax Lia Lqa.
From S2P Require Import Prelude.

Local Open Scope Q_scope.

(** ** Python's [round(x, n)] *)

Definition round_even (x : Q) : Z :=
  let lo := Qfloor x in
  match Qcompare (x - inject_Z lo) (1 # 2) with
  | Lt => lo
  | Gt => (lo + 1)%Z
  | Eq => if Z.even lo then lo else (lo + 1)%Z
  end.

Definition decimals (n : nat) : positive := Pos.pow 10 (Pos.of_nat n).

Definition py_round (n : nat) (x : Q) : Q := round_even (x * inject_Z (Zpos (decimals n))) # decimals n.

Definition Qlt_bool (x y : Q) : bool := negb (Qle_bool y x).

(** The text of a figure of at most four decimals. *)
Fixpoint drop_zeros (s : string) : string :=
  match s with
  | EmptyString => EmptyString
  | String c s => match drop_zeros s with
                  | EmptyString => if Ascii.eqb c "0"%char then EmptyString else String c EmptyString
                  | r => String c r
                  end
  end.

Definition pad4 (n : Z) : string :=
  if (n <? 10)%Z then ("000" ++ pretty n)%string else if (n <? 100)%Z then ("00" ++ pretty n)%string
  else if (n <? 1000)%Z then ("0" ++ pretty n)%string else pretty n.

Definition fmt_figure (x : Q) : string :=
  let z := round_even (x * 10000) in
  let frac := match drop_zeros (pad4 (Z.abs z mod 10000)) with EmptyString => "0" | s => s end in
  ((if (z <? 0)%Z then "-" else "") ++ pretty (Z.abs z / 10000)%Z ++ "." ++ frac)%string.

(** ** Constants *)

Definition SEV_SCALE : Q := 60.
Definition LAMBDA : Q := 6 # 10.

Definition VALUE_BANDS : list (Q * Q) :=
  [(inject_Z 100000, 15 # 100); (inject_Z 1000000, 3 # 10); (inject_Z 10000000, 5 # 10); (inject_Z 100000000, 7 # 10);
   (inject_Z 1000000000, 9 # 10)].
Definition VALUE_BAND_TOP : Q := 1.
Definition UNPRICED_BAND : Q := 15 # 100.

Definition FREEZE_KEYSET_RECOVERABLE : Q := 5 # 100.
Definition FREEZE_SUSTAINABLE : Q := 20 # 100.

Definition WEAKNESS_EOA : Q := 9 # 10.
Definition WEAKNESS_ANYONE : Q := 1.
Definition WEAKNESS_SAFE_UNCREDITED : Q := 55 # 100.
Definition WEAKNESS_SAFE_SINGLE_SIGNER : Q := 85 # 100.
Definition WEAKNESS_SAFE_MINORITY : Q := 55 # 100.
Definition WEAKNESS_SAFE_MAJORITY : Q := 35 # 100.
Definition WEAKNESS_SAFE_SUPERMAJORITY : Q := 2 # 10.
Definition WEAKNESS_TIMELOCK_UNDETERMINED : Q := 55 # 100.
Definition SAFE_MAJORITY_RATIO : Q := 1 # 2.
Definition SAFE_SUPERMAJORITY_RATIO : Q := 2 # 3.
Definition ROLE_BREADTH_MULTI_HOLDER_WEAKNESS : Q := 55 # 100.
Definition DELAY_DISCOUNT_FLOOR : Q := 25 # 100.
Definition DELAY_DISCOUNT_SATURATION_DAYS : Q := 30.

Definition RESOLVER_BASIS_TIERS : list (string * string) :=
  [("abi_auto_getter", "abi_forced"); ("auto_getter", "abi_forced"); ("callee_selector", "operand_recorded");
   ("standard_namespaced_accessor", "accessor_name_matched"); ("deunderscore_convention", "accessor_name_matched");
   ("slot_name_keyword", "accessor_name_matched"); ("internal_accessor_convention", "accessor_name_matched")]%string.
Definition WEAKEST_RESOLVER_BASIS_TIER : string := "accessor_name_matched".

(** ** Functions *)

Fixpoint band_of (usd : Q) (bands : list (Q * Q)) : Q :=
  match bands with
  | [] => VALUE_BAND_TOP
  | (bound, weight) :: bands => if Qlt_bool usd bound then weight else band_of usd bands
  end.

Definition band (usd : option Q) : Q := match usd with None => UNPRICED_BAND | Some usd => band_of usd VALUE_BANDS end.

Definition quorum_weakness (k n : option Z) (credit_withheld waive_single_signer_cliff : bool) : Q :=
  match k, n with
  | Some k, Some n =>
      if (n =? 0)%Z then WEAKNESS_SAFE_UNCREDITED
      else
        let ratio := inject_Z k / inject_Z n in
        let earned :=
          if (k =? 1)%Z && negb waive_single_signer_cliff then WEAKNESS_SAFE_SINGLE_SIGNER
          else if Qlt_bool ratio SAFE_MAJORITY_RATIO then WEAKNESS_SAFE_MINORITY
          else if Qlt_bool ratio SAFE_SUPERMAJORITY_RATIO then WEAKNESS_SAFE_MAJORITY
          else WEAKNESS_SAFE_SUPERMAJORITY in
        if credit_withheld then Qmax earned WEAKNESS_SAFE_UNCREDITED else earned
  | _, _ => WEAKNESS_SAFE_UNCREDITED
  end.

Definition resolver_basis_tier (basis : string) : string :=
  default WEAKEST_RESOLVER_BASIS_TIER (assoc_get basis RESOLVER_BASIS_TIERS).

Section Delay.
Context (log10 : Q -> Q).

Definition delay_discount (seconds : option Q) : option Q :=
  match seconds with
  | None => None
  | Some value =>
      if Qlt_bool value 0 then None
      else if Qeq_bool value 0 then Some 1
      else
        let days := value / 86400 in
        let frac := log10 (1 + days) / log10 (1 + DELAY_DISCOUNT_SATURATION_DAYS) in
        Some (py_round 4 (Qmax DELAY_DISCOUNT_FLOOR (Qmin 1 (1 - frac))))
  end.

End Delay.

(** ** Lemmas *)

Lemma Qlt_bool_iff x y : Qlt_bool x y = true <-> x < y.
Proof.
  unfold Qlt_bool. rewrite negb_true_iff. destruct (Qle_bool y x) eqn:E.
  - apply Qle_bool_iff in E. split; [done|]. intros ?%Qlt_not_le. done.
  - split; [|done]. intros _. apply Qnot_le_lt. intros ?%Qle_bool_iff. congruence.
Qed.

Lemma Qlt_bool_false x y : Qlt_bool x y = false <-> y <= x.
Proof. unfold Qlt_bool. rewrite negb_false_iff. apply Qle_bool_iff. Qed.

Lemma round_even_spec x : x - (1 # 2) <= inject_Z (round_even x) <= x + (1 # 2).
Proof.
  unfold round_even. pose proof (Qfloor_le x) as Hlo. pose proof (Qlt_floor x) as Hhi. rewrite inject_Z_plus in Hhi.
  change (inject_Z 1) with 1 in Hhi. assert (inject_Z (Qfloor x + 1) == inject_Z (Qfloor x) + 1) as E by (rewrite inject_Z_plus; reflexivity).
  destruct (Qcompare_spec (x - inject_Z (Qfloor x)) (1 # 2)) as [H|H|H].
  - destruct (Z.even (Qfloor x)); rewrite ?E; lra.
  - lra.
  - rewrite E. lra.
Qed.

Lemma round_even_frac x : round_even x = Qfloor x /\ x - inject_Z (Qfloor x) <= 1 # 2 \/
  round_even x = (Qfloor x + 1)%Z /\ (1 # 2) <= x - inject_Z (Qfloor x).
Proof.
  unfold round_even. destruct (Qcompare_spec (x - inject_Z (Qfloor x)) (1 # 2)) as [H|H|H].
  - destruct (Z.even (Qfloor x)); [left|right]; (split; [done|lra]).
  - left. split; [done|lra].
  - right. split; [done|lra].
Qed.

#[export] Instance round_even_proper : Proper (Qeq ==> eq) round_even.
Proof.
  intros x y E. unfold round_even. rewrite (Qfloor_comp x y E).
  assert (x - inject_Z (Qfloor y) ?= 1 # 2 = (y - inject_Z (Qfloor y) ?= 1 # 2)) as -> by (by rewrite E). done.
Qed.

Lemma round_even_mono x y : x <= y -> (round_even x <= round_even y)%Z.
Proof.
  intros L. pose proof (Qfloor_resp_le _ _ L) as Lf. destruct (Z.eq_dec (Qfloor x) (Qfloor y)) as [E|N].
  - destruct (Qeq_dec x y) as [Exy|Nxy]; [by rewrite Exy|]. assert (x < y) as Lt by (apply Qle_lteq in L; tauto).
    destruct (round_even_frac x) as [[-> Hx]|[-> Hx]], (round_even_frac y) as [[-> Hy]|[-> Hy]]; try lia.
    exfalso. rewrite E in Hx. lra.
  - destruct (round_even_frac x) as [[-> _]|[-> _]], (round_even_frac y) as [[-> _]|[-> _]]; lia.
Qed.

Lemma inject_pos p : 0 < inject_Z (Zpos p).
Proof. reflexivity. Qed.

Lemma py_round_eq n x : py_round n x == inject_Z (round_even (x * inject_Z (Zpos (decimals n)))) / inject_Z (Zpos (decimals n)).
Proof. unfold py_round. by rewrite (Qmake_Qdiv (round_even _) (decimals n)). Qed.

#[export] Instance py_round_proper n : Proper (Qeq ==> Qeq) (py_round n).
Proof. intros x y E. unfold py_round. by rewrite E. Qed.

Lemma py_round_mono n x y : x <= y -> py_round n x <= py_round n y.
Proof.
  intros L. rewrite !py_round_eq. pose proof (inject_pos (decimals n)) as P. apply Qmult_le_compat_r; [|by apply Qlt_le_weak, Qinv_lt_0_compat].
  rewrite <- Zle_Qle. apply round_even_mono. apply Qmult_le_compat_r; [done|by apply Qlt_le_weak].
Qed.

Lemma py_round_close n x : x - (1 # 2 * decimals n) <= py_round n x <= x + (1 # 2 * decimals n).
Proof.
  rewrite py_round_eq. pose proof (round_even_spec (x * inject_Z (Zpos (decimals n)))) as [A B]. pose proof (inject_pos (decimals n)) as P.
  set (d := inject_Z (Zpos (decimals n))) in *. set (r := inject_Z (round_even (x * d))) in *.
  assert ((1 # 2 * decimals n) == (1 # 2) / d) as -> by reflexivity.
  assert (r == r / d * d) as Er by (field; lra). split.
  - apply (Qmult_le_r _ _ d P). assert (((x - (1 # 2) / d) * d) == (x * d - (1 # 2))) as -> by (field; lra).
    by rewrite <- Er.
  - apply (Qmult_le_r _ _ d P). assert (((x + (1 # 2) / d) * d) == (x * d + (1 # 2))) as -> by (field; lra).
    by rewrite <- Er.
Qed.

Lemma round_even_int z : round_even (inject_Z z) = z.
Proof.
  unfold round_even. rewrite Qfloor_Z. destruct (Qcompare_spec (inject_Z z - inject_Z z) (1 # 2)) as [H|H|H]; [exfalso; lra|done|exfalso; lra].
Qed.

(** A figure of [n] decimals is its own rounding. *)
Lemma py_round_fixed n z : py_round n (z # decimals n) == z # decimals n.
Proof.
  unfold py_round. assert ((z # decimals n) * inject_Z (Zpos (decimals n)) == inject_Z z) as E.
  { unfold Qeq. cbn [Qnum Qden Qmult inject_Z]. lia. }
  by rewrite (round_even_proper _ _ E), round_even_int.
Qed.

Lemma py_round_bounds n lo hi x : py_round n lo == lo -> py_round n hi == hi -> lo <= x <= hi -> lo <= py_round n x <= hi.
Proof.
  intros Hl Hh [A B]. apply (py_round_mono n) in A, B. rewrite Hl in A. rewrite Hh in B. done.
Qed.

Lemma band_positive usd : UNPRICED_BAND <= band usd <= 1.
Proof.
  destruct usd as [usd|]; cbn [band]; [|by vm_compute]. unfold VALUE_BANDS. cbn [band_of].
  repeat (case_match; [by vm_compute|]). by vm_compute.
Qed.

Lemma band_mono x y : x <= y -> band (Some x) <= band (Some y).
Proof.
  intros L. cbn [band]. unfold VALUE_BANDS. cbn [band_of].
  repeat match goal with |- context [if Qlt_bool y ?b then _ else _] => destruct (Qlt_bool y b) eqn:?E end;
  repeat match goal with |- context [if Qlt_bool x ?b then _ else _] => destruct (Qlt_bool x b) eqn:?F end;
  try (by vm_compute); exfalso;
  repeat match goal with
    | H : Qlt_bool _ _ = true |- _ => apply Qlt_bool_iff in H
    | H : Qlt_bool _ _ = false |- _ => apply Qlt_bool_false in H
    end; lra.
Qed.

Lemma quorum_weakness_range k n w v : WEAKNESS_SAFE_SUPERMAJORITY <= quorum_weakness k n w v <= WEAKNESS_SAFE_SINGLE_SIGNER.
Proof.
  unfold quorum_weakness. destruct k as [k|]; [|by vm_compute]. destruct n as [n|]; [|by vm_compute]. repeat case_match; by vm_compute.
Qed.

Lemma delay_discount_range log10 s d : delay_discount log10 s = Some d -> DELAY_DISCOUNT_FLOOR <= d <= 1.
Proof.
  unfold delay_discount. destruct s as [v|]; [|done]. destruct (Qlt_bool v 0); [done|]. destruct (Qeq_bool v 0); [intros [= <-]; by vm_compute|].
  intros [= <-]. apply py_round_bounds; [by vm_compute|by vm_compute|]. split; [apply Q.le_max_l|].
  apply Q.max_lub; [by vm_compute|apply Q.le_min_l].
Qed.

(** A longer delay never earns less, for a monotone [log10]. *)
Lemma delay_discount_antitone log10 s t d e :
  (forall x y, 1 <= x -> x <= y -> log10 x <= log10 y) -> 0 < log10 (1 + DELAY_DISCOUNT_SATURATION_DAYS) ->
  s <= t -> delay_discount log10 (Some s) = Some d -> delay_discount log10 (Some t) = Some e -> e <= d.
Proof.
  intros M P L D E. pose proof (delay_discount_range _ _ _ E) as Re. unfold delay_discount in D, E.
  destruct (Qlt_bool s 0) eqn:Ls; [done|]. destruct (Qlt_bool t 0); [done|].
  destruct (Qeq_bool s 0) eqn:Es; [injection D as <-; apply Re|].
  destruct (Qeq_bool t 0) eqn:Et.
  { exfalso. apply Qeq_bool_iff in Et. apply Qlt_bool_false in Ls. assert (s == 0) as Z by lra. apply Qeq_bool_iff in Z. congruence. }
  injection D as <-. injection E as <-. apply Qlt_bool_false in Ls. apply py_round_mono.
  apply Q.max_le_compat_l, Q.min_le_compat_l. assert (log10 (1 + s / 86400) <= log10 (1 + t / 86400)) as Lg.
  { apply M; [change (s / 86400) with (s * (1 # 86400)); lra|].
    change (s / 86400) with (s * (1 # 86400)). change (t / 86400) with (t * (1 # 86400)). lra. }
  apply (Qmult_le_compat_r _ _ (/ log10 (1 + DELAY_DISCOUNT_SATURATION_DAYS))) in Lg; [|by apply Qlt_le_weak, Qinv_lt_0_compat].
  apply Qplus_le_compat; [apply Qle_refl|]. by apply Qopp_le_compat.
Qed.
