(* ===== verification/Signals.v ===== *)
(** * Signals, gates and the principal plane

    What the scoring fold reads: a signal row ([services/scoring/schema.py]) with
    its gate envelopes ([services/scoring/fold/gates.py]) and the principals it
    refers to ([services/scoring/planes/principals.py]).

    - A gate envelope is JSON ([pyval], so its numbers are integers); [Tri] is the
      three-state fact it decodes to.
    - Of a signal, the columns no modelled definition reads are left out.
    - [to_float] is Python's [float] on text, an argument. *)

From stdpp Require Import base gmap sets list strings sorting pretty.
From Stdlib Require Import String Ascii ZArith QArith Lia.
From S2P Require Import Prelude PyText EvalContext Chains Planes ScoreModel.

Local Open Scope string_scope.

Notation dict := (list (string * pyval)).

(** ** Three-state facts ([schema.py]) *)

Record Tri (A : Type) := MkTri { tri_state : string; tri_value : option A }.
Arguments MkTri {A}.
Arguments tri_state {A}.
Arguments tri_value {A}.

(** [__post_init__]: [None] is its [ValueError]. *)
Definition tri {A} (state : string) (value : option A) : option (Tri A) :=
  match String.eqb state NOT_DETERMINED, value with
  | true, None => Some (MkTri state None)
  | false, Some v => Some (MkTri state (Some v))
  | _, _ => None
  end.

Definition tri_not_determined {A} : Tri A := MkTri NOT_DETERMINED None.
Definition tri_is_determined {A} (t : Tri A) : bool := negb (String.eqb (tri_state t) NOT_DETERMINED).

(** [value is None] for a decoded JSON value. *)
Definition json_value (v : pyval) : option pyval := match v with PyNone => None | v => Some v end.

Definition tri_from_json (raw : pyval) : option (Tri pyval) :=
  match raw with
  | PyDict d =>
      match assoc_get "state" d, assoc_get "value" d with
      | Some s, Some v => tri (py_str s) (json_value v)
      | _, _ => None
      end
  | _ => None
  end.

Definition tri_to_json (t : Tri pyval) : pyval :=
  PyDict [("state", PyStr (tri_state t)); ("value", default PyNone (tri_value t))].

(** [require]: [None] is its [ValueError]. *)
Definition tri_require {A} (t : Tri A) (expected : string) : option A :=
  if String.eqb (tri_state t) expected then tri_value t else None.

(** ** Signals *)

Record PrincipalRef := MkRef { ref_id : Z; ref_chain : string; ref_address : string }.

Record FunctionSignal := MkSignal {
  sig_contract_id : Z;
  sig_chain : string;
  sig_deployment_address : string;
  sig_function_name : string;
  sig_claim_id : string;
  sig_severity : Tri Q;
  sig_severity_basis : list string;
  sig_authority_openness : string;
  sig_principal_state : string;
  sig_principal_refs : list PrincipalRef;
  sig_gate_inputs : dict;
  sig_witness_notes : list string;
  sig_selector : string;
}.

Definition SEVERITY_STATE_PROVEN : string := "proven".
Definition OPENNESS_OPEN : string := "open".
Definition PAUSE_SET : string := "pause.set".
Definition FLOW_OUT : string := "flow.out".
Definition TIMELOCK_EXECUTE : string := "timelock.execute".
Definition TIMELOCK_SCHEDULE : string := "timelock.schedule".
Definition RECOVERY_SET_NOT_EXACT_NOTE : string := "freeze_recovery_set_not_exact:".

Definition enters_grade (s : FunctionSignal) : bool := String.eqb (tri_state (sig_severity s)) SEVERITY_STATE_PROVEN.

Definition signal_entity (s : FunctionSignal) : string := entity_key (Some (sig_chain s)) (Some (sig_deployment_address s)).

(** ** Gates ([gates.py]) *)

Definition GATE_PROVEN_TOKENS : list (string * list string) :=
  [("exact_empty_credit", ["earned"]); ("latch_witness", ["witnessed"]);
   ("reach_magnitude_usd", ["proven_exact"; "proven_floor"; "proven_upper_bound"]);
   ("proving_execution", ["recorded"; "not_recorded"]); ("token_identity", ["proven"]); ("asset_class", ["proven"]);
   ("input_seeded", ["proven"]); ("contract_balance_seeded", ["proven"]); ("amount_capped_by_balance", ["proven"]);
   ("asset_identity", ["resolved"]); ("pause_effective", ["proven"]); ("freeze_recovery_principals", ["enumerated"]);
   ("freeze_coverage_fraction", ["observed_blast_radius"]); ("destination_basis", ["basis"])].

Definition NUMERIC_GATES : list string := ["reach_magnitude_usd"].

Inductive payload_shape := ShObject | ShNumber | ShBool | ShString | ShStringList | ShPrincipalRefList.

Definition GATE_PAYLOAD_SHAPES : list (string * payload_shape) :=
  [("exact_empty_credit", ShObject); ("latch_witness", ShObject); ("asset_identity", ShObject); ("reach_magnitude_usd", ShNumber);
   ("proving_execution", ShObject); ("token_identity", ShBool); ("input_seeded", ShBool); ("contract_balance_seeded", ShBool);
   ("amount_capped_by_balance", ShBool); ("asset_class", ShString); ("destination_basis", ShString); ("pause_effective", ShBool);
   ("freeze_coverage_fraction", ShStringList); ("freeze_recovery_principals", ShPrincipalRefList)].

Definition REQUIRED_GATES : list string := ["exact_empty_credit"; "latch_witness"; "reach_magnitude_usd"].
Definition REQUIRED_GATES_BY_CLAIM : list (string * list string) :=
  [(FLOW_OUT, ["token_identity"; "asset_class"; "asset_identity"]); (PAUSE_SET, ["freeze_recovery_principals"])].

Definition is_text_field (entry : dict) (key : string) : bool :=
  match assoc_get key entry with None | Some PyNone | Some (PyStr _) => true | Some _ => false end.

(** [_is_principal_ref] *)
Definition is_principal_ref (entry : pyval) : bool :=
  match entry with
  | PyDict d => match py_get "function_principal_id" d with
                | PyInt _ => is_text_field d "chain" && is_text_field d "address"
                | _ => false
                end
  | _ => false
  end.

(** [_is_number] on JSON whose numbers are integers. *)
Definition is_number (v : pyval) : bool := match v with PyInt _ => true | _ => false end.

Definition is_str (v : pyval) : bool := match v with PyStr _ => true | _ => false end.

(** [_payload_has_shape] *)
Definition payload_has_shape (name : string) (value : pyval) : bool :=
  match assoc_get name GATE_PAYLOAD_SHAPES with
  | None => true
  | Some ShNumber => is_number value
  | Some ShBool => match value with PyBool _ => true | _ => false end
  | Some ShString => is_str value
  | Some ShObject => match value with PyDict _ => true | _ => false end
  | Some ShStringList => match value with PyList l => forallb is_str l | _ => false end
  | Some ShPrincipalRefList => match value with PyList l => forallb is_principal_ref l | _ => false end
  end.

(** One envelope of [_malformed_gates]. *)
Definition gate_is_malformed (name : string) (raw : pyval) : bool :=
  match assoc_get name GATE_PROVEN_TOKENS with
  | None => false
  | Some expected =>
      match tri_from_json raw with
      | None => true
      | Some t =>
          if String.eqb (tri_state t) NOT_DETERMINED then false
          else if negb (existsb (String.eqb (tri_state t)) expected) then true
          else negb (payload_has_shape name (default PyNone (tri_value t)))
      end
  end.

Definition has_key {A} (k : string) (d : list (string * A)) : bool := match assoc_get k d with Some _ => true | None => false end.

(** [_malformed_gates] *)
Definition malformed_gates (s : FunctionSignal) : list string :=
  let required := (REQUIRED_GATES ++ default [] (assoc_get (sig_claim_id s) REQUIRED_GATES_BY_CLAIM))%list in
  (List.map (fun name => String.append name "(absent)") (List.filter (fun name => negb (has_key name (sig_gate_inputs s))) required)
   ++ List.map fst (List.filter (fun g => gate_is_malformed g.1 g.2) (merge_sort by_key (sig_gate_inputs s))))%list.

(** [_gate] after [gate_input]: an envelope [Tri.from_json] refuses raises. *)
Definition gate (s : FunctionSignal) (name : string) : option (Tri pyval) :=
  match assoc_get name (sig_gate_inputs s) with
  | None => Some tri_not_determined
  | Some raw =>
      t ← tri_from_json raw;
      let expected := default [] (assoc_get name GATE_PROVEN_TOKENS) in
      if String.eqb (tri_state t) NOT_DETERMINED || existsb (String.eqb (tri_state t)) expected then
        if existsb (String.eqb name) NUMERIC_GATES && tri_is_determined t && negb (is_number (default PyNone (tri_value t)))
        then Some tri_not_determined else Some t
      else Some tri_not_determined
  end.

(** ** The principal plane ([principals.py]) *)

Record PrincipalFacts := MkFacts {
  function_principal_id : Z;
  pf_chain : string;
  pf_address : string;
  resolved_type : option string;
  owners : gset string;
  threshold : option Z;
  delay_seconds : option Q;
  protection_credit_withheld : bool;
  protection_basis : string;
  resolver_bases : list string;
  role_bindings : list (string * string);
}.

Definition pf_key (f : PrincipalFacts) : string := entity_key (Some (pf_chain f)) (Some (pf_address f)).

Record PrincipalRow := MkPrincipalRow { row_id : Z; row_address : option string; row_resolved_type : option string; row_details : pyval }.

(** [_lower] of a JSON value. *)
Definition py_lower (v : pyval) : string := str_lower (py_str (py_or v (PyStr ""))).

Section Plane.
Context (to_float : string -> option Q).

(** [_float] *)
Definition float_or_none (v : pyval) : option Q :=
  match v with
  | PyInt z => Some (inject_Z z)
  | PyBool b => Some (if b then 1%Q else 0%Q)
  | PyStr s => to_float s
  | _ => None
  end.

(** [_safe_protection_verdict] *)
Definition safe_protection_verdict (details : dict) : bool * string :=
  match py_get "safe_protection" details with
  | PyDict protection =>
      match py_get "protection_is_upper_bound" protection with
      | PyBool true => (true, "protection_is_upper_bound(proven module)")
      | _ =>
          match py_get "module_set" protection with
          | PyList (_ :: _) => (true, "module_set_enumerated_non_empty(proven module)")
          | module_set =>
              if py_eq_str (py_get "guard" protection) "proven_address" then (true, "guard_proven_present")
              else
                let basis := py_get "module_set_basis" protection in
                match module_set, py_eq_str basis "storage_linked_list_terminated" with
                | PyList [], true => (false, "module_set_proven_empty@" ++ py_str (py_get "probe_block" protection))
                | _, _ => (false, "module_set_not_determined(" ++ py_str (py_or basis (PyStr "not_determined")) ++ ");credit_stands")
                end
          end
      end
  | _ => (false, "safe_protection_absent(not_determined);credit_stands")
  end.

(** [_resolver_bases]; [None] is the [TypeError] of a [trace] that is not iterable. *)
Definition bases_of_step (step : pyval) : list string :=
  match step with
  | PyDict d => match py_get "basis" d with PyStr b => [b] | PyList l => List.map py_str l | _ => [] end
  | _ => []
  end.

Definition bases_of (details : dict) : option (list string) :=
  steps ← iter_or_nil (py_get "trace" details);
  Some (sorted_strings (remove_dups (List.concat (List.map bases_of_step steps)))).

Definition pair_le (x y : string * string) : Prop := str_lt x.1 y.1 \/ x.1 = y.1 /\ str_le x.2 y.2.
#[export] Instance pair_le_dec : RelDecision pair_le.
Proof. intros x y. unfold pair_le, str_lt. apply _. Defined.

(** [_role_bindings] *)
Definition binding_of_step (step : pyval) : list (string * string) :=
  match step with
  | PyDict d =>
      let registry := py_lower (py_or (py_get "authority" d) (py_get "registry" d)) in
      match py_get "role_labels" d with
      | PyDict [(label, _)] => if String.eqb registry "" then [] else [(registry, str_lower label)]
      | _ => []
      end
  | _ => []
  end.

Definition bindings_of (details : dict) : option (list (string * string)) :=
  steps ← iter_or_nil (py_get "trace" details);
  Some (merge_sort pair_le (remove_dups (List.concat (List.map binding_of_step steps)))).

(** One row of [load_principal_plane]. *)
Definition principal_facts (refs : list PrincipalRef) (row : PrincipalRow) : option PrincipalFacts :=
  let details := match row_details row with PyDict d => d | _ => [] end in
  let '(withheld, basis) := safe_protection_verdict details in
  let chain := ref_chain <$> List.find (fun r => (ref_id r =? row_id row)%Z) refs in
  listed ← iter_or_nil (py_get "owners" details);
  bases ← bases_of details;
  bindings ← bindings_of details;
  Some (MkFacts (row_id row) (coalesce_chain chain) (str_lower (default "" (row_address row))) (row_resolved_type row)
          (list_to_set (List.map py_lower (List.filter py_truthy listed))) (py_int (py_get "threshold" details))
          (float_or_none (py_get "delay" details)) withheld basis bases bindings).

(** [load_principal_plane] over the table, which the query returns by id. *)
Definition load_principal_plane (table : list PrincipalRow) (refs : list PrincipalRef) : option (list (Z * PrincipalFacts)) :=
  mapM (fun row => f ← principal_facts refs row; Some (row_id row, f))
       (List.filter (fun row => existsb (fun r => (ref_id r =? row_id row)%Z) refs) table).

End Plane.

Fixpoint facts_get (id : Z) (facts : list (Z * PrincipalFacts)) : option PrincipalFacts :=
  match facts with
  | [] => None
  | (i, f) :: facts => if (i =? id)%Z then Some f else facts_get id facts
  end.

(** A published warning ([_warning]). *)
Record Warning := MkWarning { w_kind : string; w_entity : string; w_function : string; w_capability : string; w_note : string; w_extra : dict }.

Definition warning (kind : string) (s : FunctionSignal) (note : string) (extra : dict) : Warning :=
  MkWarning kind (signal_entity s) (sig_function_name s) (sig_claim_id s) note
    (List.filter (fun kv => match kv.2 with PyNone => false | _ => true end) (merge_sort by_key extra)).

(** ** Lemmas *)

(** Decoding inverts encoding, on every fact the constructor accepts. *)
Lemma tri_json_roundtrip state value t : tri state value = Some t -> tri_value t <> Some PyNone -> tri_from_json (tri_to_json t) = Some t.
Proof.
  intros T N. assert (tri (tri_state t) (tri_value t) = Some t) as E.
  { unfold tri in *. destruct (String.eqb state NOT_DETERMINED) eqn:E, value as [v|]; try done; injection T as <-; cbn [tri_state tri_value]; by rewrite E. }
  rewrite <- E. unfold tri_from_json, tri_to_json. cbn [assoc_get decide]. change (py_str (PyStr (tri_state t))) with (tri_state t).
  destruct (tri_value t) as [[]|]; done.
Qed.

(** A gate reads as determined only in a registered state, with a value. *)
Lemma gate_determined s name t : gate s name = Some t -> tri_is_determined t = true ->
  (exists expected, assoc_get name GATE_PROVEN_TOKENS = Some expected /\ tri_state t ∈ expected) /\ is_Some (tri_value t).
Proof.
  unfold gate. destruct (assoc_get name (sig_gate_inputs s)) as [raw|]; [|intros [= <-]; done].
  destruct (tri_from_json raw) as [u|] eqn:E; cbn [mbind option_bind]; [|done].
  assert (forall u' : Tri pyval, Some (tri_not_determined : Tri pyval) = Some u' -> tri_is_determined u' = true -> False) as ND by (intros u' [= <-]; done).
  destruct (String.eqb (tri_state u) NOT_DETERMINED) eqn:N; cbn [orb].
  { destruct (_ && _ && _); intros H D; [by destruct (ND _ H)|]. injection H as <-. unfold tri_is_determined in D. by rewrite N in D. }
  destruct (existsb _ _) eqn:X; [|intros H D; by destruct (ND _ H)].
  destruct (_ && _ && _); intros H D; [by destruct (ND _ H)|]. injection H as <-. split.
  - apply existsb_exists in X as (e & He & ->%String.eqb_eq). destruct (assoc_get name GATE_PROVEN_TOKENS) as [l|] eqn:G; [|by destruct He].
    exists l. split; [done|]. by apply list_elem_of_In.
  - unfold tri_from_json in E. destruct raw as [| | | | |d]; try done. destruct (assoc_get "state" d); [|done]. destruct (assoc_get "value" d); [|done].
    unfold tri in E. destruct (String.eqb _ _) eqn:S, (json_value _); try done; injection E as <-; [|done]. cbn [tri_state] in N. congruence.
Qed.
