(* ===== verification/Units.v ===== *)
(** * Principal units ([_UnitResolver] of [services/scoring/fold/core.py])

    Which principals are one party: Safes whose shared owners can act as both are
    joined by a union-find over their entity keys, and a timelock folds into the
    weakest principal that can both propose and execute on it.  With it, the price
    of a principal's gate ([weakness_for]) and the key-set comparison of a freeze
    with its recovery ([_keyset_independence], [_fold_severity]).

    - [_parent] is a finite map; [find] halves paths as it climbs, so it returns the
      map too.  [None] is a [KeyError].  Its fuel is one more than the number of
      keys ([UnitsTheory.find_total]).
    - The resolver is the record [Units]; [unit_for] is the only method that
      changes it after construction.
    - A dict of published fields is a record; [Proposer] is an entry of
      [_proposers]. *)

From stdpp Require Import base gmap sets list strings sorting pretty.
From Stdlib Require Import String Ascii ZArith QArith Qround Qminmax Lia.
From S2P Require Import Prelude PyText EvalContext Chains Planes ScoreModel Signals.

Local Open Scope string_scope.

(** ** Safes *)

Definition is_safe (f : PrincipalFacts) : bool := bool_decide (resolved_type f = Some "safe").
Definition credited_safe (f : PrincipalFacts) : bool := is_safe f && negb (bool_decide (owners f = ∅)).

(** [_safe_by_key]: the last row of a key wins. *)
Definition safes_by_key (facts : list (Z * PrincipalFacts)) : gmap string PrincipalFacts :=
  foldl (fun m f => if credited_safe f.2 then <[pf_key f.2 := f.2]> m else m) ∅ facts.

Definition safe_rows (facts : list (Z * PrincipalFacts)) (key : string) : list PrincipalFacts :=
  List.filter (fun f => credited_safe f && String.eqb (pf_key f) key) facts.*2.

Definition sorted_keys {A} (m : gmap string A) : list string := sorted_strings (elements (dom m)).
Definition sorted_set (s : gset string) : list string := sorted_strings (elements s).

Definition fmt_z (z : Z) : string := pretty z.
Definition k_of_n (k : option Z) (n : nat) : string :=
  match k with Some k => fmt_z k ++ "/" ++ pretty n | None => "k not_determined/" ++ pretty n end.

Record Contradiction := MkContradiction {
  con_safe : string;
  adopted_owner_set : list string;
  adopted_k_of_n : string;
  con_witnesses : list (Z * list string * option Z);
}.

Definition by_row_id (x y : PrincipalFacts) : Prop := (function_principal_id x <= function_principal_id y)%Z.
#[export] Instance by_row_id_dec : RelDecision by_row_id.
Proof. intros x y. unfold by_row_id. apply _. Defined.

(** [owner_set_contradictions] *)
Definition contradiction_of (facts : list (Z * PrincipalFacts)) (key : string) : option Contradiction :=
  let rows := safe_rows facts key in
  adopted ← last rows;
  if bool_decide (2 <= List.length (remove_dups (List.map owners rows)))%nat then
    Some (MkContradiction key (sorted_set (owners adopted)) (k_of_n (threshold adopted) (size (owners adopted)))
            (List.map (fun r => (function_principal_id r, sorted_set (owners r), threshold r)) (merge_sort by_row_id rows)))
  else None.

Definition owner_set_contradictions (facts : list (Z * PrincipalFacts)) : list Contradiction :=
  omap (contradiction_of facts) (sorted_keys (safes_by_key facts)).

(** ** Union-find *)

Notation parents := (gmap string string).

(** [_find] *)
Fixpoint find (fuel : nat) (p : parents) (key : string) : option (parents * string) :=
  match fuel with
  | O => None
  | S fuel =>
      up ← p !! key;
      if String.eqb up key then Some (p, key)
      else up2 ← p !! up; find fuel (<[key := up2]> p) up2
  end.

Definition find_fuel (p : parents) : nat := S (size p).

Record Overlap := MkOverlap {
  ov_a : string;
  ov_b : string;
  ov_shared : nat;
  ov_merged : bool;
  ov_basis : string;
  ov_quorums : option (string * string * bool * bool * option Z);
}.

Definition SHARED_KEYS : string := "owner_key_set_intersection".
Definition THRESHOLD_UNREAD : string := "threshold_not_determined_on_at_least_one_side".

(** One pair of [_union_overlapping_safes]: the record published, and whether the
    pair merges. *)
Definition overlap_of (a b : string) (left right : PrincipalFacts) : option (Overlap * bool) :=
  if negb (String.eqb (pf_chain left) (pf_chain right)) then None
  else
    let shared := size (owners left ∩ owners right) in
    if (shared =? 0)%nat then None
    else match threshold left, threshold right with
         | Some kl, Some kr =>
             let can_act := (Z.max kl kr <=? Z.of_nat shared)%Z in
             let block_left := (Z.of_nat (size (owners left)) - kl + 1)%Z in
             let block_right := (Z.of_nat (size (owners right)) - kr + 1)%Z in
             Some (MkOverlap a b shared can_act SHARED_KEYS
                     (Some (k_of_n (Some kl) (size (owners left)), k_of_n (Some kr) (size (owners right)), can_act,
                            (Z.max block_left block_right <=? Z.of_nat shared)%Z, if can_act then Some (Z.max kl kr) else None)),
                   can_act)
         | _, _ => Some (MkOverlap a b shared false THRESHOLD_UNREAD None, false)
         end.

(** [root_a, root_b = find(a), find(b); if root_a != root_b: parent[root_b] = root_a] *)
Definition union_keys (p : parents) (a b : string) : option parents :=
  '(p, root_a) ← find (find_fuel p) p a;
  '(p, root_b) ← find (find_fuel p) p b;
  Some (if String.eqb root_a root_b then p else <[root_b := root_a]> p).

Notation union_state := (parents * list Overlap)%type.

Definition union_pair (safes : gmap string PrincipalFacts) (st : union_state) (ab : string * string) : option union_state :=
  left ← safes !! ab.1;
  right ← safes !! ab.2;
  match overlap_of ab.1 ab.2 left right with
  | None => Some st
  | Some (o, merge) => p ← (if (merge : bool) then union_keys st.1 ab.1 ab.2 else Some st.1); Some (p, (st.2 ++ [o])%list)
  end.

(** [for i, a in enumerate(keys): for b in keys[i + 1:]] *)
Fixpoint pairs_of (keys : list string) : list (string * string) :=
  match keys with [] => [] | a :: keys => (List.map (pair a) keys ++ pairs_of keys)%list end.

Fixpoint fold_opt {A B} (f : B -> A -> option B) (l : list A) (b : B) : option B :=
  match l with [] => Some b | a :: l => b ← f b a; fold_opt f l b end.

(** [_union_overlapping_safes]; the records arrive in the order they are sorted to. *)
Definition union_overlapping_safes (safes : gmap string PrincipalFacts) : option union_state :=
  fold_opt (union_pair safes) (pairs_of (sorted_keys safes)) (map_imap (fun k _ => Some k) safes, []).

(** ** Timelock proposers *)

Record Proposer := MkProposer {
  pr_key : string;
  pr_kind : string;
  pr_k : option Z;
  pr_n : option Z;
  pr_weakness : Q;
  pr_credit_withheld : bool;
  pr_basis : string;
  pr_execute_open : bool;
}.

(** [_proposer_entry] *)
Definition proposer_entry (facts : option PrincipalFacts) (execute_open : bool) : option Proposer :=
  f ← facts;
  if bool_decide (resolved_type f = Some "eoa") then Some (MkProposer (pf_key f) "eoa" None None WEAKNESS_EOA false "" execute_open)
  else if credited_safe f then
    let n := Z.of_nat (size (owners f)) in
    Some (MkProposer (pf_key f) "safe" (threshold f) (Some n)
            (quorum_weakness (threshold f) (Some n) (protection_credit_withheld f) false) (protection_credit_withheld f) (protection_basis f) execute_open)
  else None.

(** [_proposer_rank], as the order of its tuples. *)
Definition rank_ratio (e : Proposer) : Q :=
  match pr_k e, pr_n e with
  | Some k, Some n => if (n =? 0)%Z then 0%Q else (inject_Z k / inject_Z n)%Q
  | _, _ => 0%Q
  end.

Definition rank_read (e : Proposer) : nat := match pr_k e with None => 0 | Some _ => 1 end.

Definition rank_lt (x y : Proposer) : bool :=
  if Qlt_bool (pr_weakness y) (pr_weakness x) then true
  else if Qlt_bool (pr_weakness x) (pr_weakness y) then false
  else if (rank_read x <? rank_read y)%nat then true
  else if (rank_read y <? rank_read x)%nat then false
  else if Qlt_bool (rank_ratio x) (rank_ratio y) then true
  else if Qlt_bool (rank_ratio y) (rank_ratio x) then false
  else String.ltb (pr_key x) (pr_key y).

(** [min(entries, key=_proposer_rank)] of a non-empty list. *)
Definition min_entry (e : Proposer) (l : list Proposer) : Proposer := foldl (fun best x => if rank_lt x best then x else best) e l.

Definition lex_le (x y : list string) : bool :=
  (fix go x y := match x, y with
                 | [], _ => true
                 | _, [] => false
                 | a :: x, b :: y => if String.eqb a b then go x y else String.ltb a b
                 end) x y.

Definition signal_order (s : FunctionSignal) : list string := [sig_chain s; sig_deployment_address s; sig_selector s; sig_claim_id s].
Definition signal_le (s t : FunctionSignal) : Prop := lex_le (signal_order s) (signal_order t) = true.
#[export] Instance signal_le_dec : RelDecision signal_le.
Proof. intros s t. unfold signal_le. apply _. Defined.

Inductive role := schedule | execute.
#[export] Instance role_eq_dec : EqDecision role.
Proof. solve_decision. Defined.

Definition role_of (s : FunctionSignal) : option role :=
  if String.eqb (sig_claim_id s) TIMELOCK_SCHEDULE then Some schedule
  else if String.eqb (sig_claim_id s) TIMELOCK_EXECUTE then Some execute else None.

(** The tables [_timelock_proposer_executors] collects from the signals. *)
Record RoleTables := MkRoles {
  by_role : gmap string (gset string * gset string);
  open_execute : gset string;
  facts_by_key : gmap string (option PrincipalFacts);
}.

Definition add_role (r : role) (key : string) (sets : gset string * gset string) : gset string * gset string :=
  match r with schedule => ({[key]} ∪ sets.1, sets.2) | execute => (sets.1, {[key]} ∪ sets.2) end.

Definition collect_ref (facts : list (Z * PrincipalFacts)) (timelock : string) (r : role) (t : RoleTables) (ref : PrincipalRef) : RoleTables :=
  let f := facts_get (ref_id ref) facts in
  let key := match f with Some f => pf_key f | None => entity_key (Some (ref_chain ref)) (Some (ref_address ref)) end in
  MkRoles (<[timelock := add_role r key (default (∅, ∅) (by_role t !! timelock))]> (by_role t)) (open_execute t)
    (match f, facts_by_key t !! key with None, Some _ => facts_by_key t | _, _ => <[key := f]> (facts_by_key t) end).

Definition collect_signal (facts : list (Z * PrincipalFacts)) (t : RoleTables) (s : FunctionSignal) : RoleTables :=
  match role_of s with
  | None => t
  | Some r =>
      let timelock := signal_entity s in
      let opened := if bool_decide (r = execute) && String.eqb (sig_authority_openness s) OPENNESS_OPEN
                    then {[timelock]} ∪ open_execute t else open_execute t in
      foldl (collect_ref facts timelock r) (MkRoles (by_role t) opened (facts_by_key t)) (sig_principal_refs s)
  end.

Definition collect_roles (facts : list (Z * PrincipalFacts)) (signals : list FunctionSignal) : RoleTables :=
  foldl (collect_signal facts) (MkRoles ∅ ∅ ∅) (merge_sort signal_le signals).

(** The principals that both propose and execute on a timelock. *)
Definition proposer_executors (t : RoleTables) (timelock : string) : list string :=
  let '(proposers, executors) := default (∅, ∅) (by_role t !! timelock) in
  sorted_set (if bool_decide (timelock ∈ open_execute t) then proposers else proposers ∩ executors).

Definition priced_proposers (t : RoleTables) (timelock : string) : list Proposer :=
  let opened := bool_decide (timelock ∈ open_execute t) in
  omap (fun key => proposer_entry (facts_by_key t !! key ≫= id) opened) (proposer_executors t timelock).

Definition unpriced_proposers (t : RoleTables) (timelock : string) : list string :=
  List.filter (fun key => match proposer_entry (facts_by_key t !! key ≫= id) false with None => true | Some _ => false end)
    (proposer_executors t timelock).

Definition min_of (l : list Proposer) : option Proposer := match l with [] => None | e :: l => Some (min_entry e l) end.

(** The timelock's entry of [_proposers], [_proposer_floors] and
    [proposers_not_determined]. *)
Definition proposer_of (t : RoleTables) (timelock : string) : option Proposer :=
  match unpriced_proposers t timelock with [] => min_of (priced_proposers t timelock) | _ => None end.
Definition floor_of (t : RoleTables) (timelock : string) : option Proposer :=
  match unpriced_proposers t timelock with [] => None | _ => min_of (priced_proposers t timelock) end.
Definition unpriced_of (t : RoleTables) (timelock : string) : option (list string) :=
  match unpriced_proposers t timelock with [] => None | l => Some l end.

Definition per_timelock {A} (f : RoleTables -> string -> option A) (t : RoleTables) : gmap string A :=
  map_imap (fun timelock _ => f t timelock) (by_role t).

(** ** The resolver *)

Record Units := MkUnits {
  u_safes : gmap string PrincipalFacts;
  u_parent : parents;
  u_overlaps : list Overlap;
  u_contradictions : list Contradiction;
  u_proposers : gmap string Proposer;
  u_floors : gmap string Proposer;
  u_not_determined : gmap string (list string);
  u_members : gmap string (gset string);
}.

(** [__init__] *)
Definition new_units (signals : list FunctionSignal) (facts : list (Z * PrincipalFacts)) : option Units :=
  let safes := safes_by_key facts in
  '(p, overlaps) ← union_overlapping_safes safes;
  let t := collect_roles facts signals in
  Some (MkUnits safes p overlaps (owner_set_contradictions facts) (per_timelock proposer_of t) (per_timelock floor_of t)
          (per_timelock unpriced_of t) ∅).

Definition set_unit (p : parents) (unit : string) (members : gset string) (u : Units) : Units :=
  MkUnits (u_safes u) p (u_overlaps u) (u_contradictions u) (u_proposers u) (u_floors u) (u_not_determined u)
    (<[unit := default ∅ (u_members u !! unit) ∪ members]> (u_members u)).

(** [{member for member in parent if find(member) == root}] *)
Definition class_step (root : string) (st : parents * gset string) (member : string) : option (parents * gset string) :=
  '(p, r) ← find (find_fuel st.1) st.1 member;
  Some (p, if String.eqb r root then {[member]} ∪ st.2 else st.2).

Definition class_of (p : parents) (root : string) : option (parents * gset string) :=
  fold_opt (class_step root) (elements (dom p)) (p, ∅).

(** [min] of a set of keys. *)
Definition min_key (s : gset string) : option string := head (sorted_set s).

Definition is_timelock (f : PrincipalFacts) : bool := bool_decide (resolved_type f = Some "timelock").

(** The key [unit_for] resolves: a timelock's proposer stands for it. *)
Definition acting_key (u : Units) (f : PrincipalFacts) : string :=
  if is_timelock f then match u_proposers u !! pf_key f with Some e => pr_key e | None => pf_key f end else pf_key f.

(** [unit_for] *)
Definition unit_for (u : Units) (f : PrincipalFacts) : option (Units * string) :=
  let key := acting_key u f in
  match u_parent u !! key with
  | None => Some (set_unit (u_parent u) key {[key]} u, key)
  | Some _ =>
      '(p, root) ← find (find_fuel (u_parent u)) (u_parent u) key;
      '(p, members) ← class_of p root;
      unit ← min_key members;
      Some (set_unit p unit members u, unit)
  end.

Definition path_for (u : Units) (f : PrincipalFacts) : string :=
  if is_timelock f && bool_decide (is_Some (u_proposers u !! pf_key f)) then "via_timelock:" ++ pf_key f else "direct".

(** ** Weakness *)

(** [_kn] *)
Definition kn (e : Proposer) : string :=
  if String.eqb (pr_kind e) "eoa" then "EOA"
  else match pr_k e with
       | Some k => fmt_z k ++ "/" ++ match pr_n e with Some n => fmt_z n | None => "None" end
       | None => "k not_determined"
       end.

Definition priced := (Q * string * list string)%type.

(** [_floored] *)
Definition floored (weakness : Q) (floor : option Proposer) (discount : Q) (notes : list string) : Q * list string :=
  match floor with
  | None => (weakness, notes)
  | Some e =>
      let proven := py_round 4 (pr_weakness e * discount) in
      if Qle_bool proven weakness then (weakness, notes)
      else (proven, (notes ++ ["proven_proposer_floor=" ++ kn e ++ ":" ++ fmt_figure proven]%string)%list)
  end.

(** [_safe_weakness] *)
Definition safe_weakness (f : PrincipalFacts) (notes : list string) (recovery_proven_independent : bool) : priced :=
  if bool_decide (owners f = ∅) then
    (WEAKNESS_SAFE_UNCREDITED,
     match threshold f with None => "Safe (owners not_determined)" | Some k => "Safe k=" ++ fmt_z k ++ "/n?" end,
     (notes ++ ["safe_owner_set_not_determined:kn_uncomputable"])%list)
  else
    let n := size (owners f) in
    (quorum_weakness (threshold f) (Some (Z.of_nat n)) (protection_credit_withheld f) recovery_proven_independent,
     match threshold f with Some k => "Safe " ++ fmt_z k ++ "/" ++ pretty n | None => "Safe k?/" ++ pretty n end,
     (notes ++ if protection_credit_withheld f then [String.append "safe_kn_credit_withheld:" (protection_basis f)] else [])%list).

Section Weakness.
Context (log10 : Q -> Q) (role_floors : gmap (string * string * string) Z).

(** [_timelock_weakness] *)
Definition timelock_weakness (u : Units) (f : PrincipalFacts) (notes : list string) : priced :=
  let proposer := u_proposers u !! pf_key f in
  let notes := (notes ++ match u_not_determined u !! pf_key f with
                         | Some l => [String.append "timelock_proposer_weakness_not_determined:" (str_join "," l)]
                         | None => []
                         end)%list in
  let notes := (notes ++ match proposer with
                         | Some e => if pr_credit_withheld e then [String.append "safe_kn_credit_withheld:" (pr_basis e)] else []
                         | None => []
                         end)%list in
  let floor := match proposer with Some e => Some e | None => u_floors u !! pf_key f end in
  match delay_discount log10 (delay_seconds f) with
  | None =>
      let '(w, notes) := floored WEAKNESS_TIMELOCK_UNDETERMINED floor 1 (notes ++ ["timelock_delay_not_determined"])%list in
      (w, "timelock(delay not_determined)", notes)
  | Some discount =>
      let delay := default 0%Q (delay_seconds f) in
      let days := fmt_z (Qfloor (delay / 86400)) in
      if Qeq_bool delay 0 then
        let notes := (notes ++ ["timelock_delay_proven_zero:no_protection"])%list in
        match proposer with
        | None =>
            let '(w, notes) := floored WEAKNESS_SAFE_UNCREDITED floor 1 notes in
            (w, "timelock(0d, proposer not_determined)", notes)
        | Some e => (pr_weakness e, "timelock 0d via " ++ kn e, (notes ++ [String.append "proposer=" (kn e)])%list)
        end
      else
        match proposer with
        | None =>
            let '(w, notes) := floored WEAKNESS_TIMELOCK_UNDETERMINED floor discount
                                 (notes ++ ["timelock_proposer_not_determined:no_delay_credit"])%list in
            (w, "timelock " ++ days ++ "d(proposer not_determined)", notes)
        | Some e =>
            (py_round 4 (pr_weakness e * discount), "timelock " ++ days ++ "d via " ++ kn e,
             (notes ++ ["delay_discount=" ++ fmt_figure discount ++ ";proposer=" ++ kn e]%string)%list)
        end
  end.

(** [_role_breadth] *)
Definition role_breadth (f : PrincipalFacts) : option Q :=
  if existsb (fun b => match role_floors !! (pf_chain f, b.1, b.2) with Some n => (1 <? n)%Z | None => false end) (role_bindings f)
  then Some ROLE_BREADTH_MULTI_HOLDER_WEAKNESS else None.

Definition convention_notes (f : PrincipalFacts) : list string :=
  match List.filter (fun b => String.eqb (resolver_basis_tier b) WEAKEST_RESOLVER_BASIS_TIER) (resolver_bases f) with
  | [] => []
  | weak => [String.append "resolver_basis_convention:" (str_join "," (sorted_strings weak))]
  end.

(** [weakness_for]: weakness, label, kind and notes. *)
Definition weakness_for (u : Units) (f : PrincipalFacts) (recovery_proven_independent : bool) : option Q * string * string * list string :=
  let notes := convention_notes f in
  let raise (kind : string) (p : priced) :=
    let '(w, label, notes) := p in
    match role_breadth f with
    | Some r => if Qlt_bool w r then (Some r, label, kind, (notes ++ [String.append "role_holder_floor_raises_breadth:" (fmt_figure r)])%list)
                else (Some w, label, kind, notes)
    | None => (Some w, label, kind, notes)
    end in
  if bool_decide (resolved_type f = Some "eoa") then raise "eoa" (WEAKNESS_EOA, "EOA", notes)
  else if is_safe f then raise "safe" (safe_weakness f notes recovery_proven_independent)
  else if is_timelock f then raise "timelock" (timelock_weakness u f notes)
  else if bool_decide (resolved_type f = Some "contract") then (None, "contract", "contract", notes)
  else (None, match resolved_type f with Some t => if String.eqb t "" then "unresolved" else t | None => "unresolved" end, "unknown", notes).

End Weakness.

(** ** Freeze and recovery *)

Inductive Independence := Independent (note : string) | Dependent (coalition : option Z) | Undetermined (note : string).

(** The keys that freeze: a Safe's owners, an EOA's address. *)
Definition freezing_keys (f : PrincipalFacts) : option (gset string) :=
  if negb (bool_decide (owners f = ∅)) then Some (owners f)
  else if bool_decide (resolved_type f = Some "eoa") then Some {[pf_address f]} else None.

Definition address_le (x y : pyval) : Prop :=
  str_le (match x with PyDict d => py_str (py_get "address" d) | _ => "" end) (match y with PyDict d => py_str (py_get "address" d) | _ => "" end).
#[export] Instance address_le_dec : RelDecision address_le.
Proof. intros x y. unfold address_le. apply _. Defined.

Definition entry_facts (facts : list (Z * PrincipalFacts)) (entry : pyval) : option PrincipalFacts :=
  match entry with
  | PyDict d => id ← py_int (py_get "function_principal_id" d); facts_get id facts
  | _ => None
  end.

(** A recovery principal the comparison reads: a Safe with owners and threshold. *)
Definition readable_safe (f : PrincipalFacts) : option Z := if credited_safe f then threshold f else None.

(** The loop of [_keyset_independence] over the recovery principals. *)
Fixpoint compare_recovery (keys : gset string) (saw_safe : bool) (best : option Z) (l : list (option PrincipalFacts)) : Independence :=
  match l with
  | [] => if saw_safe then Dependent best else Undetermined "recovery_principal_unresolved"
  | f :: l =>
      match f with
      | Some f =>
          match readable_safe f with
          | Some k =>
              let residual := Z.of_nat (size (owners f ∖ keys)) in
              if (k <=? residual)%Z then Independent ("keyset_independent:" ++ fmt_z residual ++ ">=" ++ fmt_z k)
              else
                let block := Z.max 1 (Z.of_nat (size (owners f)) - k + 1) in
                compare_recovery keys true (Some (match best with None => block | Some b => Z.min b block end)) l
          | None => compare_recovery keys saw_safe best l
          end
      | None => compare_recovery keys saw_safe best l
      end
  end.

Definition recovery_entries (s : FunctionSignal) : option (option (list pyval)) :=
  g ← gate s "freeze_recovery_principals";
  Some (match tri_is_determined g, tri_value g with
        | true, Some (PyList l) => Some (merge_sort address_le (List.filter is_principal_ref l))
        | _, _ => None
        end).

Definition starts_with (pre s : string) : bool := match str_after pre s with Some _ => true | None => false end.

(** [_keyset_independence]; [None] is the exception of an unreadable gate. *)
Definition keyset_independence (facts : list (Z * PrincipalFacts)) (s : FunctionSignal) (f : PrincipalFacts) : option Independence :=
  match freezing_keys f with
  | None => Some (Undetermined "pauser_key_set_not_determined")
  | Some keys =>
      entries ← recovery_entries s;
      Some (match entries with
            | None => Undetermined (default "recovery_path_not_determined_no_unset_claim"
                                      (List.find (starts_with RECOVERY_SET_NOT_EXACT_NOTE) (sig_witness_notes s)))
            | Some l => compare_recovery keys false None (List.map (entry_facts facts) l)
            end)
  end.

(** [_fold_severity]: severity, basis, notes and the warnings it appends. *)
Definition fold_severity (facts : list (Z * PrincipalFacts)) (s : FunctionSignal) (principal : option PrincipalFacts)
    : option (Q * list string * list string * list Warning) :=
  severity ← tri_require (sig_severity s) SEVERITY_STATE_PROVEN;
  let basis := sig_severity_basis s in
  match principal, String.eqb (sig_claim_id s) PAUSE_SET with
  | Some f, true =>
      verdict ← keyset_independence facts s f;
      Some (match verdict with
            | Dependent coalition =>
                (Qmax severity FREEZE_SUSTAINABLE, (basis ++ ["freeze_keyset_not_independent"])%list, [],
                 [warning "freeze_keyset_not_independent" s "this key set can freeze AND deny the recovery quorum"
                    [("min_coalition_to_sustain", match coalition with Some z => PyInt z | None => PyNone end)]])
            | Undetermined note =>
                (severity, (basis ++ ["freeze_recovery_independence_not_determined"])%list, [note],
                 [warning "freeze_recovery_independence_not_determined" s note []])
            | Independent note =>
                (Qmin severity FREEZE_KEYSET_RECOVERABLE, (basis ++ ["freeze_keyset_independent"])%list, [note], [])
            end)
  | _, _ => Some (severity, basis, [], [])
  end.
