(* ===== verification/UnitsTheory.v ===== *)
(** * Who acts as one

    - The union-find of the unit resolver: [find] ends, halving a path moves no
      root, and a union joins exactly two classes.
    - Two Safes share a unit exactly when a chain of shared coalitions links them
      ([units_are_coalitions]), whatever was asked of the resolver before.
    - A timelock is never priced safer than a principal proven to propose and
      execute on it ([timelock_never_safer]).
    - What the freeze verdict says of recovery quorums
      ([freeze_verdict_quorums]), and what it does not. *)

From stdpp Require Import base gmap sets list strings sorting pretty relations.
From Stdlib Require Import String Ascii ZArith QArith Qround Qminmax Lia Lqa.
From S2P Require Import Prelude PyText EvalContext Chains Planes ScoreModel Signals Units.

Local Open Scope string_scope.

(** ** Paths to the root *)

Inductive climbs (p : parents) : string -> list string -> Prop :=
  | climb_root x : p !! x = Some x -> climbs p x [x]
  | climb_up x y l : p !! x = Some y -> y <> x -> climbs p y l -> climbs p x (x :: l).

Inductive root_of (p : parents) : string -> string -> Prop :=
  | root_self x : p !! x = Some x -> root_of p x x
  | root_up x y r : p !! x = Some y -> y <> x -> root_of p y r -> root_of p x r.

Definition rooted (p : parents) : Prop := forall x, is_Some (p !! x) -> exists r, root_of p x r.

Lemma root_climbs p x r : root_of p x r -> exists l, climbs p x l.
Proof. induction 1 as [x H|x y r H N _ [l IH]]; [exists [x]; by constructor|exists (x :: l); by econstructor]. Qed.

Lemma climbs_det p x l1 l2 : climbs p x l1 -> climbs p x l2 -> l1 = l2.
Proof.
  intros H. revert l2. induction H as [x H|x y l H N _ IH]; intros l2 H2; inversion H2 as [? H'|? y' ? H' N' H'']; subst; simplify_eq; [done|].
  f_equal. by apply IH.
Qed.

Lemma climbs_elem p x l y : climbs p x l -> y ∈ l -> exists l', climbs p y l' /\ (List.length l' <= List.length l)%nat.
Proof.
  induction 1 as [x H|x z l H N C IH]; intros E.
  - apply list_elem_of_singleton in E as ->. exists [x]. split; [by constructor|done].
  - apply elem_of_cons in E as [-> |E]; [exists (x :: l); split; [by econstructor|done]|].
    destruct (IH E) as (l' & C' & L). exists l'. cbn. split; [done|lia].
Qed.

Lemma climbs_NoDup p x l : climbs p x l -> NoDup l.
Proof.
  induction 1 as [x H|x y l H N C IH]; [apply NoDup_singleton|]. constructor; [|done]. intros E.
  destruct (climbs_elem _ _ _ _ C E) as (l' & C' & L). assert (climbs p x (x :: l)) as C'' by by econstructor.
  rewrite (climbs_det _ _ _ _ C' C'') in L. cbn in L. lia.
Qed.

Lemma climbs_dom p x l : climbs p x l -> forall y, y ∈ l -> y ∈ dom p.
Proof.
  induction 1 as [x H|x y l H N C IH]; intros z E.
  - apply list_elem_of_singleton in E as ->. by apply elem_of_dom_2 in H.
  - apply elem_of_cons in E as [-> |E]; [by apply elem_of_dom_2 in H|by apply IH].
Qed.

Lemma climbs_length p x l : climbs p x l -> (List.length l <= size p)%nat.
Proof.
  intros C. rewrite <- (size_dom (D := gset string) p). rewrite <- (size_list_to_set (C := gset string) l); [|by eapply climbs_NoDup].
  apply subseteq_size. intros y. rewrite elem_of_list_to_set. by eapply climbs_dom.
Qed.

Lemma climbs_insert p x l key v : climbs p x l -> key ∉ l -> climbs (<[key := v]> p) x l.
Proof.
  induction 1 as [x H|x y l H N C IH]; intros NE.
  - constructor. rewrite lookup_insert_ne; [done|]. intros ->. apply NE. left.
  - apply (climb_up _ _ y); [|done|apply IH; intros E; apply NE; by right]. rewrite lookup_insert_ne; [done|]. intros ->. apply NE. left.
Qed.

Lemma root_of_det p x r s : root_of p x r -> root_of p x s -> r = s.
Proof.
  induction 1 as [x H|x y r H N R IH]; inversion 1; subst; simplify_eq; [done|]. by apply IH.
Qed.

Lemma root_of_root p x r : root_of p x r -> p !! r = Some r.
Proof. by induction 1. Qed.

Lemma root_of_dom p x r : root_of p x r -> x ∈ dom p /\ r ∈ dom p.
Proof.
  intros R. split; [|apply elem_of_dom; by rewrite (root_of_root _ _ _ R)].
  apply elem_of_dom. by inversion R as [? H|? ? ? H]; rewrite H.
Qed.

(** ** Path halving *)

Definition same_roots (p q : parents) : Prop := dom p = dom q /\ forall x r, root_of p x r <-> root_of q x r.

Lemma same_roots_refl p : same_roots p p.
Proof. by split. Qed.

Lemma same_roots_trans p q s : same_roots p q -> same_roots q s -> same_roots p s.
Proof. intros [D1 R1] [D2 R2]. split; [congruence|]. intros x r. by rewrite R1. Qed.

Lemma halve_roots p x y z : p !! x = Some y -> y <> x -> p !! y = Some z -> z <> x -> same_roots p (<[x := z]> p).
Proof.
  intros Hx Nx Hy Nz. split; [symmetry; apply dom_insert_lookup_L; eauto|]. intros w r. split.
  - induction 1 as [w H|w v r H N R IH].
    + constructor. rewrite lookup_insert_ne; [done|]. intros ->. congruence.
    + destruct (decide (w = x)) as [-> |Nw]; [|by apply (root_up _ _ v); [rewrite lookup_insert_ne|..]].
      simplify_eq. apply (root_up _ _ z); [by rewrite lookup_insert_eq|done|]. inversion IH as [? H1|? v' ? H1 N1 R1]; subst.
      * rewrite lookup_insert_ne in H1; [|done]. simplify_eq. done.
      * rewrite lookup_insert_ne in H1; [|done]. by simplify_eq.
  - induction 1 as [w H|w v r H N R IH].
    + constructor. destruct (decide (w = x)) as [-> |Nw]; [by rewrite lookup_insert_eq in H; simplify_eq|by rewrite lookup_insert_ne in H].
    + destruct (decide (w = x)) as [-> |Nw]; [|rewrite lookup_insert_ne in H; [|done]; by apply (root_up _ _ v)].
      rewrite lookup_insert_eq in H. injection H as <-. apply (root_up _ _ y); [done|done|].
      destruct (decide (z = y)) as [<- |Nzy]; [done|]. by apply (root_up _ _ z).
Qed.

(** [find] answers with the root within the length of the path, and keeps roots. *)
Lemma find_spec fuel p x l : climbs p x l -> (List.length l <= fuel)%nat ->
  exists q r, find fuel p x = Some (q, r) /\ root_of p x r /\ same_roots p q.
Proof.
  revert p x l. induction fuel as [|fuel IH]; intros p x l C L; [inversion C; subst; cbn in L; lia|].
  pose proof (climbs_NoDup _ _ _ C) as ND. inversion C as [? H|? y l' H N C']; subst; cbn [find].
  - rewrite H. cbn [mbind option_bind]. rewrite String.eqb_refl. exists p, x. split; [done|]. split; [by constructor|apply same_roots_refl].
  - rewrite H. cbn [mbind option_bind]. destruct (String.eqb_spec y x) as [|_]; [done|].
    apply NoDup_cons in ND as [NE ND]. assert (exists z l2, p !! y = Some z /\ climbs p z l2 /\ (List.length l2 <= List.length l')%nat /\ x ∉ l2) as (z & l2 & Hy & C2 & L2 & N2).
    { inversion C' as [? Hy|? z l2 Hy Nz C2]; subst; [exists y, [y]; by split_and!; [|constructor| |]|].
      exists z, l2. split_and!; [done|done|cbn; lia|]. intros E. apply NE. by right. }
    rewrite Hy. cbn [mbind option_bind]. assert (z <> x) as Nz by (intros ->; apply N2; by inversion C2; left).
    destruct (IH (<[x := z]> p) z l2) as (q & r & F & R & S); [by apply climbs_insert|cbn in L; lia|].
    pose proof (halve_roots _ _ _ _ H N Hy Nz) as HS. exists q, r. split; [done|]. split; [|by eapply same_roots_trans].
    apply (root_up _ _ y); [done|done|]. apply (proj2 HS) in R. destruct (decide (z = y)) as [<- |Nzy]; [done|]. by apply (root_up _ _ z).
Qed.

Lemma find_total p x : rooted p -> x ∈ dom p -> exists q r, find (find_fuel p) p x = Some (q, r) /\ root_of p x r /\ same_roots p q.
Proof.
  intros W D. apply elem_of_dom in D. destruct (W _ D) as [r R]. destruct (root_climbs _ _ _ R) as [l C].
  eapply find_spec; [done|]. unfold find_fuel. apply climbs_length in C. lia.
Qed.

Lemma same_roots_rooted p q : same_roots p q -> rooted p -> rooted q.
Proof. intros [D R] W x Hx. apply elem_of_dom in Hx. rewrite <- D in Hx. apply elem_of_dom in Hx. destruct (W x Hx) as [r Hr]. exists r. by apply R. Qed.

(** ** Joining two classes *)

Definition joined (p : parents) (x y : string) : Prop := exists r, root_of p x r /\ root_of p y r.

Lemma joined_same p q x y : same_roots p q -> joined p x y <-> joined q x y.
Proof. intros [_ R]. unfold joined. split; intros (r & A & B); exists r; split; by apply R. Qed.

Lemma link_roots p a b x r : p !! a = Some a -> p !! b = Some b -> a <> b ->
  root_of (<[b := a]> p) x r <-> (root_of p x b /\ r = a) \/ (root_of p x r /\ r <> b).
Proof.
  intros Ha Hb N. split.
  - induction 1 as [x H|x y r H Nx R IH].
    + destruct (decide (x = b)) as [-> |Nb]; [rewrite lookup_insert_eq in H; congruence|]. rewrite lookup_insert_ne in H; [|done].
      right. split; [by constructor|done].
    + destruct (decide (x = b)) as [-> |Nb].
      * rewrite lookup_insert_eq in H. injection H as <-. left. split; [by constructor|].
        inversion R as [|? v ? H1 N1]; [done|]; subst. rewrite lookup_insert_ne in H1; [|done]. congruence.
      * rewrite lookup_insert_ne in H; [|done]. destruct IH as [[IH ->]|[IH N1]]; [left|right]; (split; [by eapply root_up|done]).
  - assert (root_of (<[b := a]> p) a a) as Ra by (constructor; by rewrite lookup_insert_ne).
    intros [[R ->]|[R Nr]].
    + remember b as b' eqn:Eb in R. revert Eb. induction R as [x H|x y r H Nx R IH]; intros ->.
      * apply (root_up _ _ a); [by rewrite lookup_insert_eq|done|done].
      * apply (root_up _ _ y); [|done|by apply IH]. rewrite lookup_insert_ne; [done|]. intros ->. congruence.
    + induction R as [x H|x y r H Nx R IH]; [constructor; by rewrite lookup_insert_ne|].
      apply (root_up _ _ y); [|done|by apply IH]. rewrite lookup_insert_ne; [done|]. intros ->. congruence.
Qed.

Lemma union_keys_spec p a b : rooted p -> a ∈ dom p -> b ∈ dom p ->
  exists q, union_keys p a b = Some q /\ rooted q /\ dom q = dom p /\
    forall x y, joined q x y <-> joined p x y \/ (joined p x a /\ joined p b y) \/ (joined p x b /\ joined p a y).
Proof.
  intros W Da Db. unfold union_keys. destruct (find_total p a W Da) as (p1 & ra & F1 & R1 & S1). rewrite F1. cbn [mbind option_bind].
  pose proof (same_roots_rooted _ _ S1 W) as W1. destruct (find_total p1 b W1) as (p2 & rb & F2 & R2 & S2); [by rewrite <- (proj1 S1)|].
  rewrite F2. cbn [mbind option_bind]. pose proof (same_roots_trans _ _ _ S1 S2) as S. apply (proj2 S1) in R2.
  assert (rooted p2) as W2 by by eapply same_roots_rooted. destruct (String.eqb_spec ra rb) as [<- |N].
  - exists p2. split; [done|]. split; [done|]. split; [symmetry; apply S|]. intros x y. rewrite <- (joined_same _ _ x y S). split; [by left|].
    intros [J|[[(r & A & B) (s & A' & B')]|[(r & A & B) (s & A' & B')]]]; [done|..]; exists ra.
    + rewrite (root_of_det _ _ _ _ B R1) in A. by rewrite (root_of_det _ _ _ _ A' R2) in B'.
    + rewrite (root_of_det _ _ _ _ B R2) in A. by rewrite (root_of_det _ _ _ _ A' R1) in B'.
  - assert (p2 !! ra = Some ra /\ p2 !! rb = Some rb) as [Ha Hb].
    { split; eapply root_of_root; by apply (proj2 S). }
    exists (<[rb := ra]> p2). split; [done|].
    assert (forall x r, root_of (<[rb := ra]> p2) x r <-> (root_of p x rb /\ r = ra) \/ (root_of p x r /\ r <> rb)) as L.
    { intros x r. rewrite (link_roots _ _ _ _ _ Ha Hb N). by rewrite <- !(proj2 S). }
    split; [|split].
    + intros x Hx. apply lookup_insert_is_Some' in Hx. assert (is_Some (p2 !! x)) as Hx' by (destruct Hx as [<- |]; [by rewrite Hb|done]).
      destruct (W2 x Hx') as [r R]. apply (proj2 S) in R. destruct (decide (r = rb)) as [-> |Nr]; [exists ra; apply L; by left|exists r; apply L; by right].
    + rewrite dom_insert_lookup_L; [symmetry; apply S|]. by rewrite Hb.
    + intros x y. unfold joined. split.
      * intros (r & A%L & B%L). destruct A as [[A ->]|[A Na]], B as [[B E]|[B Nb]]; subst; [left; by exists rb|..|left; by exists r].
        -- right. right. split; [by exists rb|by exists ra].
        -- right. left. split; [by exists ra|by exists rb].
      * intros [(r & A & B)|[[(r & A & B) (s & A' & B')]|[(r & A & B) (s & A' & B')]]].
        -- destruct (decide (r = rb)) as [-> |Nr]; [exists ra|exists r]; split; apply L; auto.
        -- rewrite (root_of_det _ _ _ _ B R1) in A. rewrite (root_of_det _ _ _ _ A' R2) in B'. exists ra. split; apply L; auto.
        -- rewrite (root_of_det _ _ _ _ B R2) in A. rewrite (root_of_det _ _ _ _ A' R1) in B'. exists ra. split; apply L; auto.
Qed.

(** ** Coalitions *)

(** Owners of both Safes, enough of them for either quorum: whoever can act as one
    can act as the other. *)
Definition act_as_one (safes : gmap string PrincipalFacts) (a b : string) : Prop :=
  exists f g kf kg coalition, safes !! a = Some f /\ safes !! b = Some g /\ pf_chain f = pf_chain g /\
    threshold f = Some kf /\ threshold g = Some kg /\ coalition ≠ ∅ /\ coalition ⊆ owners f /\ coalition ⊆ owners g /\
    (kf <= Z.of_nat (size coalition))%Z /\ (kg <= Z.of_nat (size coalition))%Z.

(** One party: a chain of Safes, each acting as the next. *)
Definition same_party (safes : gmap string PrincipalFacts) : string -> string -> Prop := rtsc (act_as_one safes).

Definition merges (safes : gmap string PrincipalFacts) (a b : string) : Prop :=
  exists f g o, safes !! a = Some f /\ safes !! b = Some g /\ overlap_of a b f g = Some (o, true).

Lemma merges_iff safes a b : merges safes a b <-> act_as_one safes a b.
Proof.
  unfold merges, act_as_one, overlap_of. split.
  - intros (f & g & o & Ha & Hb & O). destruct (String.eqb_spec (pf_chain f) (pf_chain g)) as [E|]; [|done]. cbn [negb] in O.
    destruct (Nat.eqb_spec (size (owners f ∩ owners g)) 0) as [|N]; [done|].
    destruct (threshold f) as [kf|] eqn:Kf; [|done]. destruct (threshold g) as [kg|] eqn:Kg; [|done]. injection O as <- M%Z.leb_le.
    exists f, g, kf, kg, (owners f ∩ owners g). split_and!; try done; [|set_solver..|lia|lia].
    intros Z. apply N. by rewrite Z, size_empty.
  - intros (f & g & kf & kg & C & Ha & Hb & E & Kf & Kg & N & Cf & Cg & L1 & L2). exists f, g.
    assert (size C <= size (owners f ∩ owners g))%nat as L by (apply subseteq_size; set_solver).
    rewrite E, String.eqb_refl. cbn [negb]. destruct (Nat.eqb_spec (size (owners f ∩ owners g)) 0) as [Z|_].
    { exfalso. apply N. apply leibniz_equiv, size_empty_inv. lia. }
    rewrite Kf, Kg. eexists. split; [done|]. split; [done|]. f_equal. f_equal. apply Z.leb_le. lia.
Qed.

Lemma act_as_one_sym safes a b : act_as_one safes a b -> act_as_one safes b a.
Proof. intros (f & g & kf & kg & C & ?). exists g, f, kg, kf, C. naive_solver. Qed.

Lemma act_as_one_dom safes a b : act_as_one safes a b -> a ∈ dom safes /\ b ∈ dom safes.
Proof. intros (f & g & kf & kg & C & Ha & Hb & _). split; by apply elem_of_dom_2 in Ha, Hb. Qed.

(** The members of a unit are on one chain. *)
Lemma same_party_chain safes a b f g : same_party safes a b -> safes !! a = Some f -> safes !! b = Some g -> pf_chain f = pf_chain g.
Proof.
  intros P. revert f. induction P as [a|a c b S P IH]; intros f Ha Hb; [congruence|].
  assert (exists h, safes !! c = Some h /\ pf_chain f = pf_chain h) as (h & Hc & ->).
  { destruct S as [S|S]; destruct S as (f' & h & kf & kg & C & H1 & H2 & E & _); simplify_eq; eauto. }
  by apply IH.
Qed.

(** ** The closure, one pair at a time *)

Lemma rtsc_link {A} (R : A -> A -> Prop) a b x y :
  rtsc (fun u v => R u v \/ (u = a /\ v = b)) x y <-> rtsc R x y \/ (rtsc R x a /\ rtsc R b y) \/ (rtsc R x b /\ rtsc R a y).
Proof.
  assert (forall u v, rtsc R u v -> rtsc (fun u v => R u v \/ (u = a /\ v = b)) u v) as M.
  { intros u v. apply rtc_subrel. intros ? ? [H|H]; [left|right]; by left. }
  split.
  - unfold rtsc at 1. induction 1 as [x|x z y S _ IH]; [left; apply rtc_refl|].
    assert (forall w, rtsc R z w -> sc R x z -> rtsc R x w) as T by (intros w H1 H2; by eapply rtc_l).
    destruct S as [[S|[-> ->]]|[S|[-> ->]]].
    + destruct IH as [IH|[[I1 I2]|[I1 I2]]]; [left|right; left|right; right]; try split; auto using (or_introl S : sc R x z); apply T; auto; by left.
    + destruct IH as [IH|[[I1 I2]|[I1 I2]]].
      * right. left. split; [apply rtc_refl|done].
      * right. left. split; [apply rtc_refl|done].
      * left. done.
    + destruct IH as [IH|[[I1 I2]|[I1 I2]]]; [left|right; left|right; right]; try split; auto; apply T; auto; by right.
    + destruct IH as [IH|[[I1 I2]|[I1 I2]]].
      * right. right. split; [apply rtc_refl|done].
      * left. done.
      * right. right. split; [apply rtc_refl|done].
  - intros [H|[[H1 H2]|[H1 H2]]]; [by apply M|..].
    + etrans; [by apply M|]. eapply rtc_l; [|by apply M]. left. by right.
    + etrans; [by apply M|]. eapply rtc_l; [|by apply M]. right. by right.
Qed.

Lemma rtsc_ext {A} (R S : A -> A -> Prop) x y : (forall u v, R u v <-> S u v) -> rtsc R x y <-> rtsc S x y.
Proof. intros E. split; apply rtc_subrel; intros u v [H|H]; [left|right|left|right]; by apply E. Qed.

Definition listed (safes : gmap string PrincipalFacts) (ps : list (string * string)) (a b : string) : Prop := (a, b) ∈ ps /\ merges safes a b.

Definition closes (safes : gmap string PrincipalFacts) (ps : list (string * string)) (p : parents) : Prop :=
  rooted p /\ dom p = dom safes /\ forall x y, x ∈ dom safes -> y ∈ dom safes -> joined p x y <-> rtsc (listed safes ps) x y.

Lemma union_pair_closes safes ps p ovs ab : closes safes ps p -> ab.1 ∈ dom safes -> ab.2 ∈ dom safes ->
  exists st, union_pair safes (p, ovs) ab = Some st /\ closes safes (ps ++ [ab])%list st.1.
Proof.
  intros (W & D & J) Da Db. destruct ab as [a b]. cbn [fst snd] in *. apply elem_of_dom in Da as [f Ha], Db as [g Hb].
  unfold union_pair. cbn [fst snd]. rewrite Ha, Hb. cbn [mbind option_bind].
  assert (~ merges safes a b -> closes safes (ps ++ [(a, b)])%list p) as Same.
  { intros N. split; [done|]. split; [done|]. intros x y Dx Dy. rewrite (J x y Dx Dy). apply rtsc_ext. intros u v. unfold listed.
    rewrite elem_of_app, list_elem_of_singleton. naive_solver. }
  destruct (overlap_of a b f g) as [[o m]|] eqn:O.
  - destruct m.
    + assert (a ∈ dom p) as Dpa by (rewrite D; by apply elem_of_dom_2 in Ha). assert (b ∈ dom p) as Dpb by (rewrite D; by apply elem_of_dom_2 in Hb).
      destruct (union_keys_spec p a b W Dpa Dpb) as (q & U & Wq & Dq & Jq).
      rewrite U. cbn [mbind option_bind]. eexists. split; [done|]. split; [done|]. split; [cbn [fst]; congruence|]. intros x y Dx Dy. cbn [fst]. rewrite Jq.
      rewrite D in Dpa, Dpb. rewrite !J by done. rewrite <- rtsc_link. apply rtsc_ext. intros u v. unfold listed. rewrite elem_of_app, list_elem_of_singleton.
      split; [intros [[? ?]|[-> ->]]; (split; [auto|]); [done|by exists f, g, o]|]. intros [[?|[= -> ->]] ?]; auto.
    + eexists. split; [done|]. apply Same. intros (f' & g' & o' & ? & ? & ?). simplify_eq.
  - eexists. split; [done|]. apply Same. intros (f' & g' & o' & ? & ? & ?). simplify_eq.
Qed.

Lemma union_fold_closes safes qs : forall ps st, closes safes ps st.1 -> (forall ab, ab ∈ qs -> ab.1 ∈ dom safes /\ ab.2 ∈ dom safes) ->
  exists st', fold_opt (union_pair safes) qs st = Some st' /\ closes safes (ps ++ qs)%list st'.1.
Proof.
  induction qs as [|ab qs IH]; intros ps [p ovs] C Q; cbn [fold_opt].
  - exists (p, ovs). rewrite app_nil_r. done.
  - destruct (Q ab ltac:(left)) as [Da Db]. destruct (union_pair_closes safes ps p ovs ab C Da Db) as (st & U & C'). rewrite U. cbn [mbind option_bind].
    destruct (IH (ps ++ [ab])%list st C') as (st' & F & C''); [intros x Hx; apply Q; by right|]. exists st'. split; [done|]. by rewrite <- app_assoc in C''.
Qed.

Lemma pairs_of_elem keys a b : (a, b) ∈ pairs_of keys -> a ∈ keys /\ b ∈ keys.
Proof.
  induction keys as [|k keys IH]; cbn [pairs_of]; [by intros ?%not_elem_of_nil|]. rewrite elem_of_app. intros [E|E].
  - apply list_elem_of_fmap in E as (x & [= -> ->] & E). split; [left|by right].
  - destruct (IH E). split; by right.
Qed.

Lemma pairs_of_complete keys a b : a ∈ keys -> b ∈ keys -> a <> b -> (a, b) ∈ pairs_of keys \/ (b, a) ∈ pairs_of keys.
Proof.
  induction keys as [|k keys IH]; [by intros ?%not_elem_of_nil|]. cbn [pairs_of]. rewrite !elem_of_cons, !elem_of_app, !list_elem_of_fmap.
  intros [-> |Ha] [-> |Hb] N; [done|left|right|]; [left; by exists b|left; by exists a|]. destruct (IH Ha Hb N); auto.
Qed.

Lemma sorted_keys_elem {A} (m : gmap string A) k : k ∈ sorted_keys m <-> k ∈ dom m.
Proof. unfold sorted_keys, sorted_strings. rewrite merge_sort_Permutation. apply elem_of_elements. Qed.

Lemma initial_closes safes : closes safes [] (map_imap (fun k _ => Some k) safes).
Proof.
  assert (forall x y, map_imap (fun k (_ : PrincipalFacts) => Some k) safes !! x = Some y <-> y = x /\ x ∈ dom safes) as L.
  { intros x y. rewrite map_lookup_imap, elem_of_dom. destruct (safes !! x) as [f|]; cbn; [|split; [done|by intros [_ [? ?]]]].
    split; [intros [= ->]; eauto|by intros [-> _]]. }
  assert (forall x r, root_of (map_imap (fun k (_ : PrincipalFacts) => Some k) safes) x r <-> r = x /\ x ∈ dom safes) as R.
  { intros x r. split; [|intros [-> D]; constructor; by apply L]. destruct 1 as [x H|x y r H N _]; apply L in H as [E H]; done. }
  split; [|split].
  - intros x [y H]. apply L in H as [-> H]. exists x. by apply R.
  - apply set_eq. intros x. rewrite elem_of_dom. split; [intros [y H]; by apply L in H as [_ H]|]. intros D. exists x. by apply L.
  - intros x y Dx Dy. split.
    + intros (r & [-> _]%R & [-> _]%R). apply rtc_refl.
    + intros H. assert (x = y) as ->. { induction H as [|x z y S _ IH]; [done|]. exfalso. destruct S as [[S _]|[S _]]; by apply not_elem_of_nil in S. }
      exists y. split; by apply R.
Qed.

(** The forest the resolver builds: its classes are the parties. *)
Definition classes (safes : gmap string PrincipalFacts) (p : parents) : Prop :=
  rooted p /\ dom p = dom safes /\ forall x y, x ∈ dom safes -> y ∈ dom safes -> joined p x y <-> same_party safes x y.

Lemma union_classes safes : exists st, union_overlapping_safes safes = Some st /\ classes safes st.1.
Proof.
  unfold union_overlapping_safes. destruct (union_fold_closes safes (pairs_of (sorted_keys safes)) [] (map_imap (fun k _ => Some k) safes, [])) as (st & F & W & D & J).
  - apply initial_closes.
  - intros [a b] E. destruct (pairs_of_elem _ _ _ E) as [Ha Hb]. split; by apply sorted_keys_elem.
  - exists st. split; [done|]. split; [done|]. split; [done|]. intros x y Dx Dy. rewrite (J x y Dx Dy). clear Dx Dy. unfold same_party. cbn [app].
    split; induction 1 as [|u v w S _ IH]; try apply rtc_refl.
    + eapply rtc_l; [|done]. destruct S as [[_ S]|[_ S]]; apply merges_iff in S; [by left|by right].
    + destruct (decide (u = v)) as [-> |N]; [done|]. eapply rtc_l; [|done].
      assert (act_as_one safes u v) as S' by (destruct S as [S|S]; [done|by apply act_as_one_sym]). destruct (act_as_one_dom _ _ _ S') as [Du Dv].
      destruct (pairs_of_complete (sorted_keys safes) u v) as [P|P]; [by apply sorted_keys_elem..|done| |]; [left|right]; (split; [done|]).
      * by apply merges_iff.
      * by apply merges_iff, act_as_one_sym.
Qed.

(** ** Naming a unit *)

Lemma class_fold root l : forall p s, rooted p -> (forall x, x ∈ l -> x ∈ dom p) ->
  exists q s', fold_opt (class_step root) l (p, s) = Some (q, s') /\ same_roots p q /\ forall x, x ∈ s' <-> x ∈ s \/ (x ∈ l /\ root_of p x root).
Proof.
  induction l as [|x l IH]; intros p s W D; cbn [fold_opt].
  - exists p, s. split; [done|]. split; [apply same_roots_refl|]. intros x. split; [by left|]. intros [?|[?%not_elem_of_nil _]]; done.
  - destruct (find_total p x W ltac:(apply D; left)) as (q & r & F & R & S). unfold class_step at 2. cbn [fst snd]. rewrite F. cbn [mbind option_bind].
    destruct (IH q (if String.eqb r root then {[x]} ∪ s else s)) as (q' & s' & E & S' & M).
    { by eapply same_roots_rooted. } { intros y Hy. rewrite <- (proj1 S). apply D. by right. }
    exists q', s'. split; [done|]. split; [by eapply same_roots_trans|]. intros y. rewrite M, elem_of_cons, <- (proj2 S).
    destruct (String.eqb_spec r root) as [<- |N].
    + rewrite elem_of_union, elem_of_singleton. split; [intros [[-> |?]|[? ?]]; auto|]. intros [?|[[-> |?] ?]]; auto.
    + split; [intros [?|[? ?]]; auto|]. intros [?|[[-> |?] ?]]; auto. exfalso. apply N. by eapply root_of_det.
Qed.

Lemma class_of_spec p root : rooted p ->
  exists q s, class_of p root = Some (q, s) /\ same_roots p q /\ forall x, x ∈ s <-> root_of p x root.
Proof.
  intros W. destruct (class_fold root (elements (dom p)) p ∅ W) as (q & s & F & S & M); [intros x; by rewrite elem_of_elements|].
  exists q, s. split; [done|]. split; [done|]. intros x. rewrite M, elem_of_elements. split; [by intros [?%not_elem_of_empty|[? ?]]|].
  intros R. right. split; [exact (proj1 (root_of_dom _ _ _ R))|done].
Qed.

Lemma min_key_spec s x : x ∈ s -> exists m, min_key s = Some m /\ m ∈ s /\ forall y, y ∈ s -> str_le m y.
Proof.
  intros E. unfold min_key, sorted_set, sorted_strings. assert (forall y, y ∈ merge_sort str_le (elements s) <-> y ∈ s) as P.
  { intros y. rewrite merge_sort_Permutation. apply elem_of_elements. }
  pose proof (StronglySorted_merge_sort str_le (elements s)) as SS. destruct (merge_sort str_le (elements s)) as [|m l].
  { apply P in E. by apply not_elem_of_nil in E. }
  exists m. split; [done|]. split; [apply P; left|]. intros y Hy. apply P in Hy. apply elem_of_cons in Hy as [-> |Hy]; [done|].
  apply StronglySorted_inv in SS as [_ SS]. by apply (proj1 (Forall_forall _ _) SS).
Qed.

(** [a] names the unit of the key [k]. *)
Definition names_unit (safes : gmap string PrincipalFacts) (k a : string) : Prop :=
  (k ∉ dom safes /\ a = k) \/
  (k ∈ dom safes /\ a ∈ dom safes /\ same_party safes k a /\ forall k', k' ∈ dom safes -> same_party safes k k' -> str_le a k').

(** A resolver, whatever units it was asked for. *)
Inductive resolver (signals : list FunctionSignal) (facts : list (Z * PrincipalFacts)) : Units -> Prop :=
  | resolver_new u : new_units signals facts = Some u -> resolver signals facts u
  | resolver_asked u f u' a : resolver signals facts u -> unit_for u f = Some (u', a) -> resolver signals facts u'.

Lemma unit_for_spec safes u f : u_safes u = safes -> classes safes (u_parent u) ->
  exists u' a, unit_for u f = Some (u', a) /\ names_unit safes (acting_key u f) a /\
    u_safes u' = safes /\ classes safes (u_parent u') /\ u_proposers u' = u_proposers u /\
    (exists members, u_members u' !! a = Some (default ∅ (u_members u !! a) ∪ members) /\
       forall k, k ∈ members <-> k = acting_key u f \/ (acting_key u f ∈ dom safes /\ k ∈ dom safes /\ same_party safes (acting_key u f) k)).
Proof.
  intros Es (W & D & J). unfold unit_for. set (k := acting_key u f). destruct (u_parent u !! k) as [up|] eqn:Hk.
  - assert (k ∈ dom (u_parent u)) as Dk by by apply elem_of_dom_2 in Hk.
    destruct (find_total _ k W Dk) as (p & root & F & R & S). rewrite F. cbn [mbind option_bind].
    pose proof (same_roots_rooted _ _ S W) as Wp. destruct (class_of_spec p root Wp) as (q & s & C & Sq & M). rewrite C. cbn [mbind option_bind].
    pose proof (same_roots_trans _ _ _ S Sq) as St. assert (forall x, x ∈ s <-> x ∈ dom safes /\ same_party safes k x) as Ms.
    { intros x. rewrite M, <- (proj2 S). split.
      - intros Rx. pose proof (root_of_dom _ _ _ Rx) as [Dx _]. rewrite D in Dx, Dk. split; [done|]. apply J; [done..|]. by exists root.
      - intros [Dx P]. rewrite D in Dk. apply J in P as (r & A & B); [|done..]. by rewrite (root_of_det _ _ _ _ R A). }
    rewrite D in Dk. assert (k ∈ s) as Ks by (apply Ms; split; [done|apply rtc_refl]). destruct (min_key_spec s k Ks) as (a & Ha & As & Least).
    rewrite Ha. cbn [mbind option_bind]. eexists _, a. split; [done|]. apply Ms in As as [Da Pa]. split; [|split; [done|split; [|split; [done|]]]].
    + right. split_and!; [done..|]. intros k' Dk' Pk'. apply Least, Ms. done.
    + split; [by eapply same_roots_rooted|]. split; [cbn [u_parent set_unit]; rewrite <- (proj1 St); done|].
      intros x y Dx Dy. cbn [u_parent set_unit]. rewrite <- (joined_same _ _ _ _ St). by apply J.
    + exists s. split; [cbn [u_members set_unit]; by rewrite lookup_insert_eq|]. intros x. rewrite Ms. fold k. split; [tauto|].
      intros [-> |(_ & ? & ?)]; [|done]. split; [done|apply rtc_refl].
  - assert (k ∉ dom safes) as Nk by (rewrite <- D; by apply not_elem_of_dom). eexists _, k. split; [done|]. split; [by left|].
    split; [done|]. split; [done|]. split; [done|]. exists {[k]}. split; [cbn [u_members set_unit]; by rewrite lookup_insert_eq|].
    intros x. rewrite elem_of_singleton. fold k. split; [by left|]. by intros [?|[? _]].
Qed.

Lemma new_units_total signals facts : exists u, new_units signals facts = Some u /\ u_safes u = safes_by_key facts /\ classes (safes_by_key facts) (u_parent u).
Proof.
  unfold new_units. destruct (union_classes (safes_by_key facts)) as ([p ovs] & U & C). rewrite U. cbn [mbind option_bind]. eexists. by split.
Qed.

Lemma resolver_classes signals facts u : resolver signals facts u -> u_safes u = safes_by_key facts /\ classes (safes_by_key facts) (u_parent u).
Proof.
  induction 1 as [u N|u f u' a _ [E C] A].
  - destruct (new_units_total signals facts) as (v & N' & ?). by simplify_eq.
  - destruct (unit_for_spec _ u f E C) as (v & b & A' & _ & ? & ? & _). by simplify_eq.
Qed.

Lemma same_party_sym safes a b : same_party safes a b -> same_party safes b a.
Proof. unfold same_party. by symmetry. Qed.

Lemma names_unit_eq safes j k a b : names_unit safes j a -> names_unit safes k b ->
  a = b <-> j = k \/ (j ∈ dom safes /\ k ∈ dom safes /\ same_party safes j k).
Proof.
  intros [[Nj ->]|(Dj & Da & Pj & Lj)] [[Nk ->]|(Dk & Db & Pk & Lk)].
  - split; [by left|]. by intros [?|[? _]].
  - split; [intros ->; done|]. intros [-> |[? _]]; done.
  - split; [intros ->; done|]. intros [-> |(_ & ? & _)]; done.
  - split.
    + intros ->. right. split_and!; [done..|]. etrans; [exact Pj|by apply same_party_sym].
    + intros H. assert (same_party safes j k) as P by (destruct H as [-> |(_ & _ & ?)]; [apply rtc_refl|done]).
      apply (anti_symm str_le); [apply Lj|apply Lk]; try done; [etrans; [exact P|done]|etrans; [by apply same_party_sym|done]].
Qed.

(** ** Who proposes and executes *)

Lemma foldl_grows {A B} (f : B -> A -> B) (P : B -> Prop) (Q : A -> Prop) : (forall b a, P (f b a) <-> P b \/ Q a) ->
  forall l b, P (foldl f b l) <-> P b \/ exists a, a ∈ l /\ Q a.
Proof.
  intros H. induction l as [|a l IH]; intros b; cbn [foldl].
  - split; [by left|]. intros [?|(a & ?%not_elem_of_nil & _)]; done.
  - rewrite IH, H. setoid_rewrite elem_of_cons. naive_solver.
Qed.

Lemma foldl_inv {A B} (f : B -> A -> B) (I : B -> Prop) : (forall b a, I b -> I (f b a)) -> forall l b, I b -> I (foldl f b l).
Proof. intros H. induction l as [|a l IH]; intros b Hb; [done|]. cbn [foldl]. apply IH. by apply H. Qed.

(** The entity a reference names. *)
Definition ref_key (facts : list (Z * PrincipalFacts)) (ref : PrincipalRef) : string :=
  match facts_get (ref_id ref) facts with Some f => pf_key f | None => entity_key (Some (ref_chain ref)) (Some (ref_address ref)) end.

(** Some signal grants the role on the timelock to the principal. *)
Definition holds_role (facts : list (Z * PrincipalFacts)) (signals : list FunctionSignal) (r : role) (timelock key : string) : Prop :=
  exists s, s ∈ signals /\ role_of s = Some r /\ signal_entity s = timelock /\ exists ref, ref ∈ sig_principal_refs s /\ ref_key facts ref = key.

Definition executes_openly (signals : list FunctionSignal) (timelock : string) : Prop :=
  exists s, s ∈ signals /\ role_of s = Some execute /\ sig_authority_openness s = OPENNESS_OPEN /\ signal_entity s = timelock.

Definition role_set (r : role) (t : RoleTables) (timelock : string) : gset string :=
  let sets := default (∅, ∅) (by_role t !! timelock) in match r with schedule => sets.1 | execute => sets.2 end.

Lemma collect_ref_role facts tl r t ref r' tl' key :
  key ∈ role_set r' (collect_ref facts tl r t ref) tl' <-> key ∈ role_set r' t tl' \/ (r = r' /\ tl = tl' /\ ref_key facts ref = key).
Proof.
  unfold role_set, collect_ref. cbn [by_role]. fold (ref_key facts ref). destruct (decide (tl = tl')) as [<- |N].
  - rewrite lookup_insert_eq. cbn [default from_option]. destruct r, r'; cbn [add_role fst snd id]; rewrite ?elem_of_union, ?elem_of_singleton; intuition congruence.
  - rewrite lookup_insert_ne by done. naive_solver.
Qed.

Lemma collect_signal_role facts t s r tl key :
  key ∈ role_set r (collect_signal facts t s) tl <->
  key ∈ role_set r t tl \/ (role_of s = Some r /\ signal_entity s = tl /\ exists ref, ref ∈ sig_principal_refs s /\ ref_key facts ref = key).
Proof.
  unfold collect_signal. destruct (role_of s) as [r'|]; [|naive_solver].
  rewrite (foldl_grows _ (fun t => key ∈ role_set r t tl) _ (fun b a => collect_ref_role facts (signal_entity s) r' b a r tl key)).
  assert (forall o, role_set r (MkRoles (by_role t) o (facts_by_key t)) tl = role_set r t tl) as -> by done. naive_solver.
Qed.

Lemma collect_roles_role facts signals r tl key : key ∈ role_set r (collect_roles facts signals) tl <-> holds_role facts signals r tl key.
Proof.
  unfold collect_roles. rewrite (foldl_grows _ (fun t => key ∈ role_set r t tl) _ (fun b a => collect_signal_role facts b a r tl key)).
  unfold holds_role. setoid_rewrite merge_sort_Permutation. assert (key ∉ role_set r (MkRoles ∅ ∅ ∅) tl) as N.
  { unfold role_set. cbn [by_role]. rewrite lookup_empty. destruct r; cbn; set_solver. }
  naive_solver.
Qed.

Lemma collect_ref_open facts tl r t ref : open_execute (collect_ref facts tl r t ref) = open_execute t.
Proof. done. Qed.

Lemma collect_refs_open facts tl r l t : open_execute (foldl (collect_ref facts tl r) t l) = open_execute t.
Proof. revert t. induction l as [|x l IH]; intros t; [done|]. cbn [foldl]. by rewrite IH. Qed.

Lemma collect_roles_open facts signals tl : tl ∈ open_execute (collect_roles facts signals) <-> executes_openly signals tl.
Proof.
  unfold collect_roles. rewrite (foldl_grows _ (fun t => tl ∈ open_execute t) (fun s => role_of s = Some execute /\ sig_authority_openness s = OPENNESS_OPEN /\ signal_entity s = tl)).
  - unfold executes_openly. setoid_rewrite merge_sort_Permutation. cbn [open_execute]. set_solver.
  - intros t s. unfold collect_signal. destruct (role_of s) as [r|]; [|naive_solver]. rewrite collect_refs_open. cbn [open_execute].
    destruct (bool_decide_reflect (r = execute)) as [-> |N]; cbn [andb]; [|naive_solver].
    destruct (String.eqb_spec (sig_authority_openness s) OPENNESS_OPEN) as [E|N]; [rewrite elem_of_union, elem_of_singleton|]; naive_solver.
Qed.

(** A principal that can take an operation through the timelock alone. *)
Definition proposes_and_executes (facts : list (Z * PrincipalFacts)) (signals : list FunctionSignal) (tl key : string) : Prop :=
  holds_role facts signals schedule tl key /\ (holds_role facts signals execute tl key \/ executes_openly signals tl).

Lemma proposer_executors_iff facts signals tl key :
  key ∈ proposer_executors (collect_roles facts signals) tl <-> proposes_and_executes facts signals tl key.
Proof.
  unfold proposes_and_executes. rewrite <- !collect_roles_role, <- collect_roles_open. set (t := collect_roles facts signals).
  unfold proposer_executors, role_set. destruct (default (∅, ∅) (by_role t !! tl)) as [ps es]. cbn [fst snd].
  unfold sorted_set, sorted_strings. rewrite merge_sort_Permutation, elem_of_elements.
  destruct (bool_decide_reflect (tl ∈ open_execute t)) as [O|O]; [|rewrite elem_of_intersection]; naive_solver.
Qed.

(** ** The facts the entry is priced from *)

Definition row_of (facts : list (Z * PrincipalFacts)) (key : string) (f : PrincipalFacts) : Prop :=
  pf_key f = key /\ exists id, facts_get id facts = Some f.

Definition fact_of (t : RoleTables) (key : string) : option PrincipalFacts := facts_by_key t !! key ≫= id.

Lemma collect_ref_facts facts tl r t ref key :
  is_Some (fact_of (collect_ref facts tl r t ref) key) <-> is_Some (fact_of t key) \/ (ref_key facts ref = key /\ is_Some (facts_get (ref_id ref) facts)).
Proof.
  unfold fact_of, collect_ref, ref_key. cbn [facts_by_key]. destruct (facts_get (ref_id ref) facts) as [f|] eqn:E.
  - destruct (decide (pf_key f = key)) as [<- |N].
    + rewrite lookup_insert_eq. cbn. split; [intros _; right; split; [done|by eexists]|by eexists].
    + rewrite lookup_insert_ne by done. naive_solver.
  - set (k := entity_key _ _). destruct (facts_by_key t !! k) as [o|] eqn:L.
    + split; [by left|]. intros [?|[_ [? ?]]]; done.
    + destruct (decide (k = key)) as [<- |N].
      * rewrite lookup_insert_eq, L. cbn. split; [by intros [? ?]|]. intros [[? ?]|[_ [? ?]]]; done.
      * rewrite lookup_insert_ne by done. split; [by left|]. intros [?|[_ [? ?]]]; done.
Qed.

Lemma collect_fact facts signals key : (exists r tl, exists s ref, s ∈ signals /\ role_of s = Some r /\ signal_entity s = tl /\ ref ∈ sig_principal_refs s /\
    ref_key facts ref = key /\ is_Some (facts_get (ref_id ref) facts)) -> is_Some (fact_of (collect_roles facts signals) key).
Proof.
  intros (r & tl & s & ref & Hs & Hr & Ht & Hre & Hk & Hf). unfold collect_roles.
  rewrite (foldl_grows _ (fun t => is_Some (fact_of t key))
             (fun s => exists r ref, role_of s = Some r /\ ref ∈ sig_principal_refs s /\ ref_key facts ref = key /\ is_Some (facts_get (ref_id ref) facts))).
  - right. exists s. split; [by rewrite merge_sort_Permutation|]. by exists r, ref.
  - intros t x. unfold collect_signal. destruct (role_of x) as [r'|]; [|naive_solver].
    rewrite (foldl_grows _ (fun t => is_Some (fact_of t key)) _ (fun b a => collect_ref_facts facts (signal_entity x) r' b a key)).
    assert (forall o, fact_of (MkRoles (by_role t) o (facts_by_key t)) key = fact_of t key) as -> by done. naive_solver.
Qed.

Lemma collect_fact_row facts signals key f : fact_of (collect_roles facts signals) key = Some f -> row_of facts key f.
Proof.
  revert key f. set (I := fun t => forall key f, fact_of t key = Some f -> row_of facts key f). change (I (collect_roles facts signals)).
  unfold collect_roles. apply foldl_inv; [|intros key f; unfold fact_of; cbn [facts_by_key]; by rewrite lookup_empty].
  intros t s It. unfold collect_signal. destruct (role_of s) as [r|]; [|done]. apply foldl_inv; [|done].
  intros b ref Ib key f. unfold fact_of, collect_ref. cbn [facts_by_key]. destruct (facts_get (ref_id ref) facts) as [g|] eqn:E.
  - destruct (decide (pf_key g = key)) as [<- |N]; [rewrite lookup_insert_eq; intros [= <-]; split; [done|by eexists]|].
    rewrite lookup_insert_ne by done. apply Ib.
  - set (k := entity_key _ _). destruct (facts_by_key b !! k) as [o|] eqn:L; [apply Ib|].
    destruct (decide (k = key)) as [<- |N]; [by rewrite lookup_insert_eq|]. rewrite lookup_insert_ne by done. apply Ib.
Qed.

(** ** The price of a timelock *)

Lemma rank_lt_weakness x y : rank_lt x y = true -> (pr_weakness y <= pr_weakness x)%Q.
Proof.
  unfold rank_lt. destruct (Qlt_bool (pr_weakness y) (pr_weakness x)) eqn:E; [intros _; apply Qlt_bool_iff in E; lra|].
  destruct (Qlt_bool (pr_weakness x) (pr_weakness y)) eqn:F; [done|]. intros _. by apply Qlt_bool_false in F.
Qed.

(** The entry chosen is the weakest. *)
Lemma min_entry_weakest l : forall e, (min_entry e l = e \/ min_entry e l ∈ l) /\ forall x, x = e \/ x ∈ l -> (pr_weakness x <= pr_weakness (min_entry e l))%Q.
Proof.
  induction l as [|y l IH]; intros e; cbn [min_entry foldl].
  - split; [by left|]. intros x [-> |?%not_elem_of_nil]; [apply Qle_refl|done].
  - fold (min_entry (if rank_lt y e then y else e) l). destruct (IH (if rank_lt y e then y else e)) as [M W]. split.
    + destruct M as [M|M]; [|right; by right]. rewrite M. destruct (rank_lt y e); [right; left|by left].
    + assert (forall x, x = e \/ x = y -> (pr_weakness x <= pr_weakness (if rank_lt y e then y else e))%Q) as Hd.
      { intros x. destruct (rank_lt y e) eqn:R; intros [-> | ->]; try apply Qle_refl; [by apply rank_lt_weakness|].
        unfold rank_lt in R. destruct (Qlt_bool (pr_weakness e) (pr_weakness y)) eqn:E; [done|]. by apply Qlt_bool_false in E. }
      intros x. rewrite elem_of_cons. intros Hx. assert (x ∈ l \/ x = e \/ x = y) as [Hl|Hh] by tauto; [apply W; by right|].
      eapply Qle_trans; [by apply Hd|]. apply W. by left.
Qed.

Lemma min_of_weakest l e : e ∈ l -> exists m, min_of l = Some m /\ m ∈ l /\ (pr_weakness e <= pr_weakness m)%Q.
Proof.
  destruct l as [|x l]; [by intros ?%not_elem_of_nil|]. intros E. cbn [min_of]. destruct (min_entry_weakest l x) as [M W].
  exists (min_entry x l). split; [done|]. split; [destruct M as [-> |?]; [left|by right]|]. apply W. by apply elem_of_cons in E.
Qed.

Lemma entry_rounds f o e : proposer_entry f o = Some e -> (py_round 4 (pr_weakness e * 1) == pr_weakness e)%Q.
Proof.
  unfold proposer_entry. destruct f as [f|]; cbn [mbind option_bind]; [|done]. destruct (bool_decide _); [intros [= <-]; by vm_compute|].
  destruct (credited_safe f); [|done]. intros [= <-]. cbn [pr_weakness]. unfold quorum_weakness. destruct (threshold f) as [k|]; [|by vm_compute].
  repeat case_match; by vm_compute.
Qed.

Lemma entry_open f o e : proposer_entry f false = Some e -> exists e', proposer_entry f o = Some e' /\ pr_weakness e' = pr_weakness e /\ pr_key e' = pr_key e.
Proof.
  unfold proposer_entry. destruct f as [f|]; cbn [mbind option_bind]; [|done]. destruct (bool_decide _); [intros [= <-]; by eexists|].
  destruct (credited_safe f); [|done]. intros [= <-]. by eexists.
Qed.

Lemma entry_none f o : proposer_entry f o = None <-> proposer_entry f false = None.
Proof. unfold proposer_entry. destruct f as [f|]; cbn [mbind option_bind]; [|done]. by repeat case_match. Qed.

Lemma priced_elem t tl key e : key ∈ proposer_executors t tl -> proposer_entry (fact_of t key) false = Some e ->
  exists e', e' ∈ priced_proposers t tl /\ pr_weakness e' = pr_weakness e.
Proof.
  intros K E. destruct (entry_open _ (bool_decide (tl ∈ open_execute t)) _ E) as (e' & E' & W & _). exists e'. split; [|done].
  unfold priced_proposers. apply list_elem_of_omap. by exists key.
Qed.

Lemma priced_rounds t tl e : e ∈ priced_proposers t tl -> (py_round 4 (pr_weakness e * 1) == pr_weakness e)%Q.
Proof. unfold priced_proposers. intros (key & _ & E)%list_elem_of_omap. by eapply entry_rounds. Qed.

Lemma priced_proposers_by_role t tl e : e ∈ priced_proposers t tl -> is_Some (by_role t !! tl).
Proof.
  unfold priced_proposers. intros (key & K & _)%list_elem_of_omap. unfold proposer_executors in K. destruct (by_role t !! tl) as [sets|]; [done|].
  cbn in K. unfold sorted_set, sorted_strings in K. rewrite merge_sort_Permutation, elem_of_elements in K. case_bool_decide; set_solver.
Qed.

(** The tables of a resolver, which asking for units never changes. *)
Definition tables_of (t : RoleTables) (u : Units) : Prop :=
  u_proposers u = per_timelock proposer_of t /\ u_floors u = per_timelock floor_of t /\ u_not_determined u = per_timelock unpriced_of t.

Lemma unit_for_tables u f u' a t : unit_for u f = Some (u', a) -> tables_of t u -> tables_of t u'.
Proof.
  unfold unit_for. intros E T. destruct (u_parent u !! acting_key u f); [|by injection E as <- _].
  destruct (find _ _ _) as [[p r]|]; cbn [mbind option_bind] in E; [|done]. destruct (class_of p r) as [[q ms]|]; cbn [mbind option_bind] in E; [|done].
  destruct (min_key ms); cbn [mbind option_bind] in E; [|done]. by injection E as <- _.
Qed.

Lemma resolver_tables signals facts u : resolver signals facts u -> tables_of (collect_roles facts signals) u.
Proof.
  induction 1 as [u N|u f u' a _ IH A]; [|by eapply unit_for_tables].
  unfold new_units in N. destruct (union_overlapping_safes (safes_by_key facts)) as [[p o]|]; cbn [mbind option_bind] in N; [|done]. by injection N as <-.
Qed.

(** The proposer the weakness is computed from, and that it is at least as weak
    as any priced one. *)
Definition floor_for (u : Units) (f : PrincipalFacts) : option Proposer :=
  match u_proposers u !! pf_key f with Some e => Some e | None => u_floors u !! pf_key f end.

Lemma floor_for_weakest t u f e : tables_of t u -> e ∈ priced_proposers t (pf_key f) ->
  exists m, floor_for u f = Some m /\ (py_round 4 (pr_weakness m * 1) == pr_weakness m)%Q /\ (pr_weakness e <= pr_weakness m)%Q.
Proof.
  intros (Tp & Tf & _) E. destruct (min_of_weakest _ _ E) as (m & M & Em & W). exists m. split; [|split; [by eapply priced_rounds|done]].
  destruct (priced_proposers_by_role _ _ _ E) as [sets B]. unfold floor_for. rewrite Tp, Tf. unfold per_timelock. rewrite !map_lookup_imap, B. cbn [mbind option_bind].
  unfold proposer_of, floor_of. by destruct (unpriced_proposers t (pf_key f)); rewrite M.
Qed.

Lemma floored_ge w m d notes : (py_round 4 (pr_weakness m * d) <= (floored w (Some m) d notes).1)%Q.
Proof.
  cbn [floored]. destruct (Qle_bool _ w) eqn:L; [by apply Qle_bool_iff in L|]. apply Qle_refl.
Qed.

Lemma timelock_weakness_ge log10 u f notes m : floor_for u f = Some m -> (py_round 4 (pr_weakness m * 1) == pr_weakness m)%Q ->
  (py_round 4 (pr_weakness m * default 1 (delay_discount log10 (delay_seconds f))) <= (timelock_weakness log10 u f notes).1.1)%Q.
Proof.
  intros F R. unfold timelock_weakness. change (match u_proposers u !! pf_key f with Some e => Some e | None => u_floors u !! pf_key f end) with (floor_for u f).
  set (n0 := (notes ++ _)%list). rewrite F. unfold floor_for in F. destruct (delay_discount log10 (delay_seconds f)) as [d|] eqn:D.
  - cbn [default from_option id]. destruct (Qeq_bool (default 0%Q (delay_seconds f)) 0) eqn:Z.
    + assert (d = 1%Q) as ->.
      { unfold delay_discount in D. destruct (delay_seconds f) as [v|]; [|done]. cbn in Z. destruct (Qlt_bool v 0); [done|]. rewrite Z in D. congruence. }
      destruct (u_proposers u !! pf_key f) as [e|].
      * injection F as ->. cbn [fst]. rewrite R. apply Qle_refl.
      * destruct (floored _ _ _ _) as [w n] eqn:E. cbn [fst]. pose proof (floored_ge WEAKNESS_SAFE_UNCREDITED m 1 ((n0 ++ []) ++ ["timelock_delay_proven_zero:no_protection"])%list) as G.
        by rewrite E in G.
    + destruct (u_proposers u !! pf_key f) as [e|].
      * injection F as ->. apply Qle_refl.
      * destruct (floored _ _ _ _) as [w n] eqn:E. cbn [fst]. pose proof (floored_ge WEAKNESS_TIMELOCK_UNDETERMINED m d ((n0 ++ []) ++ ["timelock_proposer_not_determined:no_delay_credit"])%list) as G.
        by rewrite E in G.
  - cbn [default from_option]. destruct (floored _ _ _ _) as [w n] eqn:E. cbn [fst].
    match type of E with floored _ _ _ ?l = _ => pose proof (floored_ge WEAKNESS_TIMELOCK_UNDETERMINED m 1 l) as G end. by rewrite E in G.
Qed.

Lemma weakness_for_ge log10 floors u f b w label kind notes : is_timelock f = true -> weakness_for log10 floors u f b = (Some w, label, kind, notes) ->
  ((timelock_weakness log10 u f (convention_notes f)).1.1 <= w)%Q.
Proof.
  intros T. unfold weakness_for. unfold is_timelock in T. apply bool_decide_eq_true in T. unfold is_safe, is_timelock. rewrite T. cbn [bool_decide decide].
  rewrite !bool_decide_eq_false_2 by done. rewrite bool_decide_eq_true_2 by done. destruct (timelock_weakness _ _ _ _) as [[v l] n]. cbn [fst].
  destruct (role_breadth floors f) as [r|]; [|intros [= <- _ _ _]; apply Qle_refl]. destruct (Qlt_bool v r) eqn:L.
  - intros [= <- _ _ _]. apply Qlt_bool_iff in L. lra.
  - intros [= <- _ _ _]. apply Qle_refl.
Qed.

(** ** Freeze verdicts *)

Definition quorum (f : PrincipalFacts) (k : Z) (signers : gset string) : Prop := signers ⊆ owners f /\ (k <= Z.of_nat (size signers))%Z.

(** The recovery principals the comparison reads. *)
Definition recovery_facts (facts : list (Z * PrincipalFacts)) (s : FunctionSignal) (l : list (option PrincipalFacts)) : Prop :=
  exists entries, recovery_entries s = Some (Some entries) /\ l = List.map (entry_facts facts) entries.

Lemma disjoint_quorum f k keys : (k <= Z.of_nat (size (owners f ∖ keys)))%Z <-> exists C, quorum f k C /\ C ## keys.
Proof.
  split.
  - intros L. exists (owners f ∖ keys). split; [|set_solver]. split; [set_solver|done].
  - intros (C & [S L] & Dj). assert (size C <= size (owners f ∖ keys))%nat by (apply subseteq_size; set_solver). lia.
Qed.

(** [n] elements of a set. *)
Lemma subset_of_size (X : gset string) n : (n <= size X)%nat -> exists Y, Y ⊆ X /\ size Y = n.
Proof.
  induction n as [|n IH]; intros L; [exists ∅; split; [set_solver|apply size_empty]|].
  destruct (IH ltac:(lia)) as (Y & S & E). assert (exists x, x ∈ X ∖ Y) as [x Hx].
  { apply size_pos_elem_of. rewrite size_difference by done. lia. }
  exists ({[x]} ∪ Y). split; [set_solver|]. rewrite size_union by set_solver. rewrite size_singleton. lia.
Qed.

(** Some owners of [f] among [keys] that no quorum of [f] avoids. *)
Definition denies (f : PrincipalFacts) (k : Z) (D : gset string) : Prop := forall C, quorum f k C -> ~ C ## D.

Lemma denies_block f k keys : (1 <= k <= Z.of_nat (size (owners f)))%Z -> (Z.of_nat (size (owners f ∖ keys)) < k)%Z ->
  exists D, D ⊆ owners f ∩ keys /\ Z.of_nat (size D) = (Z.of_nat (size (owners f)) - k + 1)%Z /\ denies f k D.
Proof.
  intros K L. assert (size (owners f) = size (owners f ∩ keys) + size (owners f ∖ keys))%nat as E.
  { rewrite <- size_union by set_solver. f_equal. apply set_eq. intros x. destruct (decide (x ∈ keys)); set_solver. }
  destruct (subset_of_size (owners f ∩ keys) (Z.to_nat (Z.of_nat (size (owners f)) - k + 1))) as (D & S & Sz); [lia|].
  exists D. split; [done|]. split; [lia|]. intros C [SC LC] Dj. assert (size (C ∪ D) <= size (owners f))%nat by (apply subseteq_size; set_solver).
  rewrite size_union in * by done. lia.
Qed.

Definition sound_safe (f : PrincipalFacts) : Prop := forall k, threshold f = Some k -> (1 <= k <= Z.of_nat (size (owners f)))%Z.

Lemma readable_threshold f k : readable_safe f = Some k -> threshold f = Some k.
Proof. unfold readable_safe. by destruct (credited_safe f). Qed.

(** Some listed Safe whose quorums are denied by [b] of the freezing keys. *)
Definition block_of (keys : gset string) (l : list (option PrincipalFacts)) (b : Z) : Prop :=
  exists f k D, Some f ∈ l /\ readable_safe f = Some k /\ D ⊆ keys /\ Z.of_nat (size D) = b /\ denies f k D.

Lemma block_of_mono keys l l' b : block_of keys l b -> (forall x, x ∈ l -> x ∈ l') -> block_of keys l' b.
Proof. intros (f & k & D & E & ?) S. exists f, k, D. split; [by apply S|done]. Qed.

(** What the comparison answers, over the Safes it reads. *)
Definition compared (keys : gset string) (saw : bool) (best : option Z) (l : list (option PrincipalFacts)) (v : Independence) : Prop :=
  match v with
  | Independent _ => exists f k C, Some f ∈ l /\ readable_safe f = Some k /\ quorum f k C /\ C ## keys
  | Dependent c => (forall f k, Some f ∈ l -> readable_safe f = Some k -> denies f k keys) /\
                   (c = best \/ exists b, c = Some b /\ block_of keys l b)
  | Undetermined _ => saw = false
  end.

Lemma compared_skip keys saw best o l v : (forall f, o = Some f -> readable_safe f = None) -> compared keys saw best l v -> compared keys saw best (o :: l) v.
Proof.
  intros N. assert (forall f k, Some f ∈ o :: l -> readable_safe f = Some k -> Some f ∈ l) as In.
  { intros f k [E|]%elem_of_cons; [|done]. rewrite (N f) by done. done. }
  destruct v as [n|c|n]; cbn [compared].
  - intros (f & k & C & ? & ?). exists f, k, C. split; [by right|done].
  - intros [D B]. split; [intros f k Hf Hk; apply D; [by eapply In|done]|]. destruct B as [?|(b & ? & ?)]; [by left|right].
    exists b. split; [done|]. eapply block_of_mono; [done|]. intros x ?. by right.
  - done.
Qed.

Lemma compare_recovery_spec keys l : (forall f, Some f ∈ l -> sound_safe f) -> forall saw best, compared keys saw best l (compare_recovery keys saw best l).
Proof.
  induction l as [|o l IH]; intros W saw best; cbn [compare_recovery].
  { destruct saw; cbn [compared]; [|done]. split; [by intros f k ?%not_elem_of_nil|by left]. }
  assert (forall f, Some f ∈ l -> sound_safe f) as W' by (intros f Hf; apply W; by right). specialize (IH W').
  destruct o as [f|]; [|by apply compared_skip]. destruct (readable_safe f) as [k|] eqn:Rk; [|apply compared_skip; [by intros ? [= <-]|done]].
  destruct (Z.leb_spec k (Z.of_nat (size (owners f ∖ keys)))) as [L|L].
  { cbn [compared]. apply disjoint_quorum in L as (C & Q & Dj). exists f, k, C. split; [left|done]. }
  pose proof (W f ltac:(left) k (readable_threshold _ _ Rk)) as K. destruct (denies_block f k keys K L) as (D & SD & Sz & De).
  assert (block_of keys (Some f :: l) (Z.of_nat (size (owners f)) - k + 1)) as B.
  { exists f, k, D. split; [left|]. split; [done|]. split; [set_solver|done]. }
  assert (denies f k keys) as Df. { intros C Q Dj. assert (exists C, quorum f k C /\ C ## keys) as X%disjoint_quorum by by exists C. lia. }
  rewrite Z.max_r by lia. set (block := (Z.of_nat (size (owners f)) - k + 1)%Z) in *.
  assert (exists b, Some (match best with None => block | Some b => Z.min b block end) = Some b /\ (Some b = best \/ b = block)) as (b & Eb & Hb).
  { destruct best as [b|]; eexists; (split; [done|]); [|by right]. destruct (Z.min_spec b block) as [[_ ->]|[_ ->]]; auto. }
  rewrite Eb. specialize (IH true (Some b)). destruct (compare_recovery keys true (Some b) l) as [n|c|n]; cbn [compared] in *; [|split|done].
  - destruct IH as (g & k' & C & ? & ?). exists g, k', C. split; [by right|done].
  - intros g k' [[= ->]|Hg]%elem_of_cons Hk; [simplify_eq; done|]. by apply IH.
  - destruct (proj2 IH) as [-> |(b' & -> & Bb)].
    + destruct Hb as [<- | ->]; [by left|]. right. by exists block.
    + right. exists b'. split; [done|]. eapply block_of_mono; [done|]. intros x ?. by right.
Qed.

(** ** Claims *)

(** C5: One party, one unit.  In every state of the resolver, asking for the units of
    two principals answers, and the unit of a Safe is the least key of its party.
    The two units are the same exactly when the keys that act for the principals
    are, or are Safes linked by a chain of coalitions, each of which is enough
    owners for the quorums of two neighbours on one chain. *)
Theorem units_are_coalitions signals facts u f g :
  resolver signals facts u ->
  exists u1 a u2 b, unit_for u f = Some (u1, a) /\ unit_for u1 g = Some (u2, b) /\ names_unit (safes_by_key facts) (acting_key u f) a /\
    (a = b <-> acting_key u f = acting_key u g \/
               (acting_key u f ∈ dom (safes_by_key facts) /\ acting_key u g ∈ dom (safes_by_key facts) /\
                same_party (safes_by_key facts) (acting_key u f) (acting_key u g))).
Proof.
  intros R. destruct (resolver_classes _ _ _ R) as [E C]. destruct (unit_for_spec _ u f E C) as (u1 & a & A & Na & E1 & C1 & P & _).
  destruct (unit_for_spec _ u1 g E1 C1) as (u2 & b & B & Nb & _). exists u1, a, u2, b. split_and!; try done.
  assert (acting_key u1 g = acting_key u g) as K by (unfold acting_key; by rewrite P). rewrite K in Nb. by apply names_unit_eq.
Qed.

Definition plain_facts (id : Z) (address type : string) (owned : list string) (k : option Z) (delay : option Q) : PrincipalFacts :=
  MkFacts id "ethereum" address (Some type) (list_to_set owned) k delay false "" [] [].

Definition council : list (Z * PrincipalFacts) :=
  [(1%Z, plain_facts 1 "0xa" "safe" ["o1"; "o2"; "o3"] (Some 2%Z) None); (2%Z, plain_facts 2 "0xb" "safe" ["o2"; "o3"; "o4"] (Some 2%Z) None);
   (3%Z, plain_facts 3 "0xc" "safe" ["o4"; "o5"] (Some 2%Z) None); (4%Z, plain_facts 4 "0xd" "eoa" [] None None);
   (5%Z, plain_facts 5 "0xe" "timelock" [] None (Some (172800 # 1)))].

Definition timelock_signal (claim : string) (refs : list Z) : FunctionSignal :=
  MkSignal 1 "ethereum" "0xe" "f" claim tri_not_determined [] "restricted" "enumerated" (List.map (fun i => MkRef i "ethereum" "") refs) [] [] "0x".

Definition council_signals : list FunctionSignal := [timelock_signal TIMELOCK_SCHEDULE [2; 4]%Z; timelock_signal TIMELOCK_EXECUTE [2; 4]%Z].

Lemma units_are_coalitions_witness : exists u u1 u2,
  unit_for u (plain_facts 2 "0xb" "safe" ["o2"; "o3"; "o4"] (Some 2%Z) None) = Some (u1, "ethereum::0xa") /\
  unit_for u1 (plain_facts 3 "0xc" "safe" ["o4"; "o5"] (Some 2%Z) None) = Some (u2, "ethereum::0xc") /\
  ~ same_party (safes_by_key council) "ethereum::0xb" "ethereum::0xc".
Proof.
  destruct (new_units council_signals council) as [u|] eqn:N; [|by vm_compute in N].
  set (f := plain_facts 2 "0xb" "safe" ["o2"; "o3"; "o4"] (Some 2%Z) None). set (g := plain_facts 3 "0xc" "safe" ["o4"; "o5"] (Some 2%Z) None).
  destruct (units_are_coalitions council_signals council u f g (resolver_new _ _ _ N)) as (u1 & a & u2 & b & A & B & _ & Iff).
  assert ((u ← new_units council_signals council; '(u1, a) ← unit_for u f; '(_, b) ← unit_for u1 g; Some (acting_key u f, acting_key u g, a, b))
          = Some ("ethereum::0xb", "ethereum::0xc", "ethereum::0xa", "ethereum::0xc")) as X by by vm_compute.
  rewrite N in X. cbn [mbind option_bind] in X. rewrite A in X. cbn [mbind option_bind] in X. rewrite B in X. cbn [mbind option_bind] in X.
  injection X as Ea Eb. assert (acting_key u f = "ethereum::0xb" /\ acting_key u g = "ethereum::0xc") as [Kf Kg] by (split; vm_compute; reflexivity).
  subst a b. exists u, u1, u2. split; [done|]. split; [done|]. intros P. assert ("ethereum::0xa" = "ethereum::0xc") as X; [|done].
  apply Iff. right. rewrite Kf, Kg.
  split_and!; [apply elem_of_dom_2 with f|apply elem_of_dom_2 with g|exact P]; by vm_compute.
Defined.

(** C24: A timelock is never read safer than who can go through it.  For every
    principal that some signal lets schedule on the timelock, and that may execute
    there (or anyone may), if its rows agree on a price, the weakness of the
    timelock is at least that price discounted by the delay; with an unread delay,
    at least the price itself. *)
Theorem timelock_never_safer log10 floors signals facts u f key g e b w label kind notes :
  resolver signals facts u -> is_timelock f = true ->
  proposes_and_executes facts signals (pf_key f) key ->
  row_of facts key g -> (exists s ref, s ∈ signals /\ role_of s = Some schedule /\ ref ∈ sig_principal_refs s /\ facts_get (ref_id ref) facts = Some g) ->
  (forall h, row_of facts key h -> proposer_entry (Some h) false = proposer_entry (Some g) false) ->
  proposer_entry (Some g) false = Some e ->
  weakness_for log10 floors u f b = (Some w, label, kind, notes) ->
  (py_round 4 (pr_weakness e * default 1 (delay_discount log10 (delay_seconds f))) <= w)%Q.
Proof.
  intros R T P [Kg _] (s & ref & Hs & Hr & Href & Hg) Agree E Wf. pose proof (resolver_tables _ _ _ R) as Tb.
  assert (is_Some (fact_of (collect_roles facts signals) key)) as [h Hh].
  { apply collect_fact. exists schedule, (signal_entity s), s, ref. unfold ref_key. rewrite Hg. split_and!; try done. }
  assert (proposer_entry (fact_of (collect_roles facts signals) key) false = Some e) as Eh.
  { rewrite Hh, <- E. apply Agree. by eapply collect_fact_row. }
  apply proposer_executors_iff in P. destruct (priced_elem _ _ _ _ P Eh) as (e' & Pe & We).
  destruct (floor_for_weakest _ u f _ Tb Pe) as (m & Fm & Rm & Wm). rewrite We in Wm.
  eapply Qle_trans; [|by eapply weakness_for_ge]. eapply Qle_trans; [|by eapply timelock_weakness_ge].
  apply py_round_mono, Qmult_le_compat_r; [done|]. destruct (delay_discount log10 (delay_seconds f)) as [d|] eqn:D; cbn [default from_option id]; [|lra].
  apply delay_discount_range in D. unfold DELAY_DISCOUNT_FLOOR in D. lra.
Qed.

(** A monotone stand-in for [log10]. *)
Definition ramp (x : Q) : Q := (x - 1)%Q.

Lemma timelock_never_safer_witness : exists u w label kind notes,
  weakness_for ramp ∅ u (plain_facts 5 "0xe" "timelock" [] None (Some (172800 # 1))) false = (Some w, label, kind, notes) /\ ((84 # 100) <= w)%Q.
Proof.
  destruct (new_units council_signals council) as [u|] eqn:N; [|by vm_compute in N].
  set (f := plain_facts 5 "0xe" "timelock" [] None (Some (172800 # 1))).
  destruct (weakness_for ramp ∅ u f false) as [[[[w|] label] kind] notes] eqn:Wf.
  2: { assert ((u ← new_units council_signals council; (weakness_for ramp ∅ u f false).1.1.1) <> None) as X by by vm_compute.
       rewrite N in X. cbn [mbind option_bind] in X. rewrite Wf in X. destruct (X eq_refl). }
  exists u, w, label, kind, notes. split; [exact Wf|].
  pose proof (timelock_never_safer ramp ∅ council_signals council u f "ethereum::0xd" (plain_facts 4 "0xd" "eoa" [] None None)
    (MkProposer "ethereum::0xd" "eoa" None None WEAKNESS_EOA false "" false) false w label kind notes) as H.
  eapply Qle_trans; [|apply H]; [vm_compute; discriminate|exact (resolver_new _ _ _ N)|vm_compute; reflexivity| | | | |vm_compute; reflexivity|exact Wf].
  - clear. split; [|left].
    + exists (timelock_signal TIMELOCK_SCHEDULE [2; 4]%Z). split; [left|]. split; [reflexivity|]. split; [vm_compute; reflexivity|].
      exists (MkRef 4 "ethereum" ""). split; [right; left|vm_compute; reflexivity].
    + exists (timelock_signal TIMELOCK_EXECUTE [2; 4]%Z). split; [right; left|]. split; [reflexivity|]. split; [vm_compute; reflexivity|].
      exists (MkRef 4 "ethereum" ""). split; [right; left|vm_compute; reflexivity].
  - clear. split; [vm_compute; reflexivity|]. exists 4%Z. reflexivity.
  - clear. exists (timelock_signal TIMELOCK_SCHEDULE [2; 4]%Z), (MkRef 4 "ethereum" ""). split; [left|]. split; [reflexivity|]. split; [right; left|reflexivity].
  - clear. intros h [Kh [id Hid]]. cbn [council facts_get] in Hid.
    repeat match type of Hid with (if ?b then _ else _) = _ => destruct b end; simplify_eq; try done; exfalso; vm_compute in Kh; discriminate Kh.
Defined.

(** The comparison over a determined recovery set. *)
Lemma freeze_compared facts s f keys l v :
  freezing_keys f = Some keys -> recovery_facts facts s l -> (forall g, Some g ∈ l -> sound_safe g) ->
  keyset_independence facts s f = Some v ->
  match v with
  | Independent _ => exists g k C, Some g ∈ l /\ readable_safe g = Some k /\ quorum g k C /\ C ## keys
  | Dependent c => (forall g k C, Some g ∈ l -> readable_safe g = Some k -> quorum g k C -> ~ C ## keys) /\ exists b, c = Some b /\ block_of keys l b
  | Undetermined _ => forall g, Some g ∈ l -> readable_safe g = None
  end.
Proof.
  intros K (entries & E & ->) W V. unfold keyset_independence in V. rewrite K, E in V. cbn [mbind option_bind] in V. injection V as <-.
  set (l := List.map (entry_facts facts) entries) in *. pose proof (compare_recovery_spec keys l W false None) as H.
  destruct (compare_recovery keys false None l) as [n|c|n] eqn:R; cbn [compared] in H; [done| |].
  - destruct H as [D [-> |B]]; [exfalso|]; [|split; [intros g k C Hg Hk; by apply D|done]]. clear -R.
    assert (forall l saw best, (saw = true -> best <> None) -> compare_recovery keys saw best l <> Dependent None) as H; [|by apply (H l false None)].
    clear. induction l as [|[g|] l IH]; intros saw best Hb; cbn [compare_recovery]; [destruct saw; [|done]; intros [= ->]; by apply Hb| |by apply IH].
    destruct (readable_safe g); [|by apply IH]. destruct (_ <=? _)%Z; [done|]. by apply IH.
  - clear -R. assert (forall l saw best, compare_recovery keys saw best l = Undetermined n -> saw = false /\ forall g, Some g ∈ l -> readable_safe g = None) as H; [|by eapply H].
    clear. induction l as [|[g|] l IH]; intros saw best; cbn [compare_recovery].
    + destruct saw; [done|]. intros _. split; [done|]. by intros g ?%not_elem_of_nil.
    + destruct (readable_safe g) as [k|] eqn:Rk.
      * destruct (_ <=? _)%Z; [done|]. intros H. by apply IH in H as [? _].
      * intros [? H]%IH. split; [done|]. intros h [[= ->]|Hh]%elem_of_cons; [done|by apply H].
    + intros [? H]%IH. split; [done|]. intros h [?|Hh]%elem_of_cons; [done|by apply H].
Qed.

(** C26: what each freeze verdict says, for recovery Safes whose thresholds are
    between one and their number of owners.  An independent verdict: the freezing
    keys and the recovery set are read, and a readable recovery Safe has a quorum
    that avoids the freezing keys.  A dependent one: both are read, no readable
    recovery Safe has such a quorum, and the coalition is the size of a set of
    freezing keys that every quorum of one of those Safes meets.  An undetermined
    one: the freezing keys are not readable, or the recovery set is not
    determined, or none of its principals is a readable Safe. *)
Theorem freeze_verdict_quorums facts s f v :
  (forall l g, recovery_facts facts s l -> Some g ∈ l -> sound_safe g) -> keyset_independence facts s f = Some v ->
  match v with
  | Independent _ => exists keys l g k C, freezing_keys f = Some keys /\ recovery_facts facts s l /\
      Some g ∈ l /\ readable_safe g = Some k /\ quorum g k C /\ C ## keys
  | Dependent c => exists keys l b, freezing_keys f = Some keys /\ recovery_facts facts s l /\
      (forall g k C, Some g ∈ l -> readable_safe g = Some k -> quorum g k C -> ~ C ## keys) /\ c = Some b /\ block_of keys l b
  | Undetermined _ => freezing_keys f = None \/ recovery_entries s = Some None \/
      exists l, recovery_facts facts s l /\ forall g, Some g ∈ l -> readable_safe g = None
  end.
Proof.
  intros W V. destruct (freezing_keys f) as [keys|] eqn:K.
  - destruct (recovery_entries s) as [[entries|]|] eqn:E; [| |unfold keyset_independence in V; by rewrite K, E in V].
    + assert (recovery_facts facts s (List.map (entry_facts facts) entries)) as R by by exists entries.
      pose proof (freeze_compared facts s f keys _ v K R (fun g => W _ g R) V) as H. destruct v as [n|c|n].
      * destruct H as (g & k & C & ?). by exists keys, (List.map (entry_facts facts) entries), g, k, C.
      * destruct H as (H & b & -> & B). by exists keys, (List.map (entry_facts facts) entries), b.
      * right. right. by exists (List.map (entry_facts facts) entries).
    + unfold keyset_independence in V. rewrite K, E in V. injection V as <-. right. by left.
  - unfold keyset_independence in V. rewrite K in V. injection V as <-. by left.
Qed.

Definition pauser : PrincipalFacts := plain_facts 1 "0xa" "safe" ["o1"; "o2"; "o3"] (Some 1%Z) None.
Definition narrow_safe : PrincipalFacts := plain_facts 2 "0xb" "safe" ["o1"; "o2"] (Some 2%Z) None.
Definition wide_safe : PrincipalFacts := plain_facts 3 "0xc" "safe" ["o1"; "o2"; "o3"] (Some 1%Z) None.
Definition lone_key : PrincipalFacts := plain_facts 4 "0xd" "eoa" [] None None.
Definition far_safe : PrincipalFacts := plain_facts 5 "0xe" "safe" ["o3"; "o4"; "o5"] (Some 2%Z) None.

Definition freeze_facts : list (Z * PrincipalFacts) := [(1%Z, pauser); (2%Z, narrow_safe); (3%Z, wide_safe); (4%Z, lone_key); (5%Z, far_safe)].

Definition pause_signal (recovery : list Z) : FunctionSignal :=
  MkSignal 1 "ethereum" "0xf" "pause" PAUSE_SET tri_not_determined [] "restricted" "enumerated" []
    [("freeze_recovery_principals", PyDict [("state", PyStr "enumerated"); ("value", PyList (List.map (fun i => PyDict [("function_principal_id", PyInt i)]) recovery))])] [] "0x".

(** The recovery principals of a signal are what its entries name. *)
Lemma recovery_facts_at facts s l0 l : recovery_facts facts s l0 -> recovery_facts facts s l -> l = l0.
Proof. intros (e0 & E0 & ->) (e & E & ->). congruence. Qed.

Lemma sound_safes l0 : l0 ⊆ [Some narrow_safe; Some wide_safe; Some far_safe] -> forall g, Some g ∈ l0 -> sound_safe g.
Proof.
  intros S g Hg k Hk. apply S in Hg. repeat (apply elem_of_cons in Hg as [[= ->]|Hg]; [injection Hk as <-; vm_compute; by split|]). by apply not_elem_of_nil in Hg.
Qed.

Lemma freeze_verdict_quorums_witness :
  (exists b, keyset_independence freeze_facts (pause_signal [2; 3]%Z) pauser = Some (Dependent (Some b)) /\
     (forall C, quorum wide_safe 1 C -> ~ C ## owners pauser)) /\
  (exists l g k C, keyset_independence freeze_facts (pause_signal [2; 5]%Z) pauser = Some (Independent "keyset_independent:2>=2") /\
     recovery_facts freeze_facts (pause_signal [2; 5]%Z) l /\ Some g ∈ l /\ quorum g k C /\ C ## owners pauser).
Proof.
  assert (recovery_facts freeze_facts (pause_signal [2; 3]%Z) [Some narrow_safe; Some wide_safe]) as R3 by (eexists; split; vm_compute; reflexivity).
  assert (recovery_facts freeze_facts (pause_signal [2; 5]%Z) [Some narrow_safe; Some far_safe]) as R5 by (eexists; split; vm_compute; reflexivity).
  split.
  - exists 1%Z. split; [vm_compute; reflexivity|]. intros C Q.
    destruct (freeze_verdict_quorums freeze_facts (pause_signal [2; 3]%Z) pauser (Dependent (Some 1%Z))) as (keys & l & b & K & R & H & _);
      [|vm_compute; reflexivity|].
    + intros l g R Hg. rewrite (recovery_facts_at _ _ _ _ R3 R) in Hg. eapply sound_safes; [|exact Hg]. set_solver.
    + injection K as <-. apply (H wide_safe 1%Z C); [|reflexivity|exact Q]. rewrite (recovery_facts_at _ _ _ _ R3 R). right. left.
  - destruct (freeze_verdict_quorums freeze_facts (pause_signal [2; 5]%Z) pauser (Independent "keyset_independent:2>=2")) as (keys & l & g & k & C & K & R & Hg & _ & Q & Dj);
      [|vm_compute; reflexivity|].
    + intros l g R Hg. rewrite (recovery_facts_at _ _ _ _ R5 R) in Hg. eapply sound_safes; [|exact Hg]. set_solver.
    + injection K as <-. exists l, g, k, C. split; [vm_compute; reflexivity|]. done.
Defined.

(** Two ways the published dependence is wider than what it is proven from.  With two
    recovery Safes, the coalition said to sustain the freeze denies one of them
    only: another keeps a quorum that avoids any coalition of that size.  And a
    recovery principal that is not a Safe with owners is skipped: a lone key
    outside the freezing keys can lift the freeze while the verdict stays
    dependent. *)
Theorem freeze_dependence_overstated :
  (keyset_independence freeze_facts (pause_signal [2; 3]%Z) pauser = Some (Dependent (Some 1%Z)) /\
   forall D : gset string, size D = 1%nat -> exists C, quorum wide_safe 1 C /\ C ## D) /\
  (keyset_independence freeze_facts (pause_signal [2; 4]%Z) pauser = Some (Dependent (Some 1%Z)) /\
   facts_get 4 freeze_facts = Some lone_key /\ freezing_keys lone_key = Some {[pf_address lone_key]} /\ pf_address lone_key ∉ owners pauser).
Proof.
  split; [split; [vm_compute; reflexivity|]|].
  - intros D [x Hx]%size_1_elem_of. destruct (decide (x = "o1")) as [-> |N]; [exists {["o2"]}|exists {["o1"]}]; (split; [split; [|by rewrite size_singleton]|set_solver]);
      intros y ->%elem_of_singleton; apply (bool_decide_unpack _); vm_compute; exact I.
  - split; [vm_compute; reflexivity|]. split; [reflexivity|]. split; [vm_compute; reflexivity|]. apply (bool_decide_unpack _). vm_compute. exact I.
Qed.
