(* ===== verification/Grade.v ===== *)
(** * Subsumption and the grade

    From the rows of [_aggregate] ([services/scoring/fold/core.py]) to the grade:
    the rows of one principal unit are subsumed by the worst of them, and
    [_grade] ([services/scoring/fold/grade.py]) discounts the findings by rank and
    charges the value they reach, each entity at most once.

    - A row is the record [Row] of the published fields these functions read;
      [undetermined_instances] is the list of its entities.
    - A per-entity dict is a finite map; the loops run over its sorted keys.
    - [_exposure_coverage] reads the priced sheets through [priced_total], the
      value plane's [total] of its [canonical] key, an argument. *)

From stdpp Require Import base gmap sets list strings sorting pretty.
From Stdlib Require Import String Ascii ZArith QArith Qround Qminmax Lia Lqa.
From S2P Require Import Prelude PyText EvalContext Planes ScoreModel Units.

Local Open Scope string_scope.

(** ** Rows *)

Record Row := MkRow {
  r_unit : string;
  r_capability : string;
  r_path : string;
  r_severity : Q;
  r_weakness : Q;
  r_points : Q;
  r_value : option Q;
  r_values : gmap string Q;
  r_weakness_by : gmap string Q;
  r_reach : list string;
  r_sheet_ceilings : gset string;
  r_undetermined : list string;
  r_n_entities : nat;
}.

(** [round(K.SEV_SCALE * severity * weakness * band, 4)] *)
Definition raw_points (severity weakness : Q) (value_usd : option Q) : Q := py_round 4 (SEV_SCALE * severity * weakness * band value_usd).

(** The fraction of an entity a row charges. *)
Definition row_fraction (r : Row) (key : string) : Q := (r_severity r * default (r_weakness r) (r_weakness_by r !! key))%Q.

(** The sort keys, as orders: points descending, then the fields in turn. *)
Definition str_cmp (a b : string) (next : bool) : bool := if String.eqb a b then next else String.ltb a b.

Definition points_first (x y : Row) (next : bool) : bool :=
  if Qlt_bool (r_points y) (r_points x) then true else if Qlt_bool (r_points x) (r_points y) then false else next.

Definition unit_row_leb (x y : Row) : bool :=
  points_first x y (str_cmp (r_capability x) (r_capability y) (str_cmp (r_path x) (r_path y) (Qle_bool (r_weakness x) (r_weakness y)))).

Definition finding_leb (x y : Row) : bool :=
  points_first x y (str_cmp (r_capability x) (r_capability y) (str_cmp (r_unit x) (r_unit y) true)).

Definition unit_row_le (x y : Row) : Prop := unit_row_leb x y = true.
#[export] Instance unit_row_le_dec : RelDecision unit_row_le.
Proof. intros x y. unfold unit_row_le. apply _. Defined.

Definition row_le (x y : Row) : Prop := finding_leb x y = true.
#[export] Instance row_le_dec : RelDecision row_le.
Proof. intros x y. unfold row_le. apply _. Defined.

(** ** Subsumption *)

Record Exclusive := MkExclusive { ex_values : gmap string (Q * Q); ex_ceilings : gset string }.

Definition exclusive_step (occupied : gset string) (row : Row) (ex : Exclusive) (key : string) : Exclusive :=
  match r_values row !! key with
  | None => ex
  | Some held =>
      if bool_decide (key ∈ occupied) then ex
      else
        let fraction := row_fraction row key in
        let better := match ex_values ex !! key with
                      | None => true
                      | Some (usd, f) => Qlt_bool (usd * f) (held * fraction)
                      end in
        if better then
          MkExclusive (<[key := (held, py_round 6 fraction)]> (ex_values ex))
            (if bool_decide (key ∈ r_sheet_ceilings row) then {[key]} ∪ ex_ceilings ex else ex_ceilings ex ∖ {[key]})
        else ex
  end.

Definition occupied_by (top : Row) : gset string := dom (r_values top) ∖ r_sheet_ceilings top.

Definition exclusive_of (top : Row) (rest : list Row) : Exclusive :=
  foldl (fun ex row => foldl (exclusive_step (occupied_by top) row) ex (sorted_keys (r_values row))) (MkExclusive ∅ ∅) rest.

(** A finding: the worst row of a unit, with what it subsumes. *)
Record Finding := MkFinding { f_row : Row; f_subsumed : list Row; f_subsumed_points : Q; f_exclusive : Exclusive }.

Definition q_sum (l : list Q) : Q := foldr Qplus 0%Q l.

Definition unit_finding (rows : list Row) (unit : string) : option Finding :=
  match merge_sort unit_row_le (List.filter (fun r => String.eqb (r_unit r) unit) rows) with
  | [] => None
  | top :: rest => Some (MkFinding top rest (py_round 4 (q_sum (List.map r_points rest))) (exclusive_of top rest))
  end.

Definition units_of (rows : list Row) : list string := sorted_strings (remove_dups (List.map r_unit rows)).

Definition finding_le (x y : Finding) : Prop := row_le (f_row x) (f_row y).
#[export] Instance finding_le_dec : RelDecision finding_le.
Proof. intros x y. unfold finding_le. apply _. Defined.

(** The findings and the subsumed rows of [_aggregate]. *)
Definition subsume (rows : list Row) : list Finding * list Row :=
  let found := omap (unit_finding rows) (units_of rows) in
  (merge_sort finding_le found, merge_sort row_le (List.concat (List.map f_subsumed found))).

(** ** The grade *)

Record Claim := MkClaim { cl_unit : string; cl_capability : string; cl_fraction : Q }.

(** The exposure budget: what is claimed of each entity, and by whom. *)
Record Budget := MkBudget { claimed : gmap string Q; claimed_by : gmap string (list Claim) }.

Definition claimed_at (b : Budget) (key : string) : Q := default 0%Q (claimed b !! key).
Definition claims_at (b : Budget) (key : string) : list Claim := default [] (claimed_by b !! key).

Record Partial := MkPartial { p_entity : string; p_wanted : Q; p_taken : Q; p_claimed_by : list Claim }.

(** One finding's charges. *)
Record Charge := MkCharge {
  c_mine : Q;
  c_measured : nat;
  c_exhausted : list (string * list Claim);
  c_partial : list Partial;
  c_unpriced : list string;
  c_excluded : list string;
}.

(** The figure an entity is charged at: the row's own, or the one only a subsumed
    row names.  [inl true] is a sheet ceiling, [inl false] no figure. *)
Definition figure (f : Finding) (key : string) : bool + (Q * Q) :=
  let row := f_row f in
  let own := if bool_decide (key ∈ r_sheet_ceilings row) then None else r_values row !! key in
  let excluded := bool_decide (key ∈ r_sheet_ceilings row) in
  match own, ex_values (f_exclusive f) !! key with
  | Some held, _ => inr (held, row_fraction row key)
  | None, Some (usd, fraction) => if bool_decide (key ∈ ex_ceilings (f_exclusive f)) then inl true else inr (usd, fraction)
  | None, None => inl excluded
  end.

(** One key of the charging loop. *)
Definition charge_key (f : Finding) (st : Budget * Charge) (key : string) : Budget * Charge :=
  let '(b, c) := st in
  match figure f key with
  | inl true => (b, MkCharge (c_mine c) (c_measured c) (c_exhausted c) (c_partial c) (c_unpriced c) (c_excluded c ++ [key])%list)
  | inl false => (b, MkCharge (c_mine c) (c_measured c) (c_exhausted c) (c_partial c) (c_unpriced c ++ [key])%list (c_excluded c))
  | inr (held, fraction) =>
      let room := Qmax 0 (1 - claimed_at b key) in
      if Qle_bool room 0 then
        (b, MkCharge (c_mine c) (c_measured c) (c_exhausted c ++ [(key, claims_at b key)])%list (c_partial c) (c_unpriced c) (c_excluded c))
      else
        let take := Qmin fraction room in
        let partial := if Qlt_bool room fraction
                       then (c_partial c ++ [MkPartial key (py_round 6 fraction) (py_round 6 take) (claims_at b key)])%list else c_partial c in
        if Qlt_bool 0 take then
          (MkBudget (<[key := (claimed_at b key + take)%Q]> (claimed b))
             (<[key := (claims_at b key ++ [MkClaim (r_unit (f_row f)) (r_capability (f_row f)) (py_round 6 take)])%list]> (claimed_by b)),
           MkCharge (c_mine c + take * held) (S (c_measured c)) (c_exhausted c) partial (c_unpriced c) (c_excluded c))
        else (b, MkCharge (c_mine c) (S (c_measured c)) (c_exhausted c) partial (c_unpriced c) (c_excluded c))
  end.

Definition charged_entities (f : Finding) : list string :=
  (r_reach (f_row f) ++ List.filter (fun k => negb (bool_decide (k ∈ r_reach (f_row f)))) (sorted_keys (ex_values (f_exclusive f))))%list.

Definition no_charge : Charge := MkCharge 0 0 [] [] [] [].

Definition charge (b : Budget) (f : Finding) : Budget * Charge := foldl (charge_key f) (b, no_charge) (charged_entities f).

Record Gap := MkGap {
  gap_unit : string;
  gap_capability : string;
  gap_unpriced : list string;
  gap_exhausted : list (string * list Claim);
  gap_partial : list Partial;
  gap_excluded : list string;
  gap_exposure : option Q;
}.

(** A graded finding. *)
Record Graded := MkGraded { g_finding : Finding; g_net : Q; g_exposure : option Q; g_charged : list string; g_gap : option Gap }.

(** [exposure_entities_charged] *)
Definition entities_charged (f : Finding) (c : Charge) : list string :=
  sorted_strings (List.filter (fun k => negb (bool_decide (k ∈ c_excluded c)) &&
                                        (bool_decide (k ∈ dom (r_values (f_row f))) || bool_decide (k ∈ dom (ex_values (f_exclusive f)))))
                    (charged_entities f)).

Definition exposure_of (c : Charge) : option Q := match c_measured c with O => None | S _ => Some (py_round 2 (c_mine c)) end.

Definition gap_of (f : Finding) (c : Charge) : option Gap :=
  match c_unpriced c, c_exhausted c, c_partial c, c_excluded c, exposure_of c with
  | [], [], [], [], Some _ => None
  | _, _, _, _, e =>
      Some (MkGap (r_unit (f_row f)) (r_capability (f_row f))
              (sorted_strings (remove_dups (c_unpriced c ++ r_undetermined (f_row f))%list)) (c_exhausted c) (c_partial c)
              (sorted_strings (c_excluded c)) e)
  end.

Definition net_points (index : nat) (f : Finding) : Q := py_round 4 (r_points (f_row f) * Qpower LAMBDA (Z.of_nat index)).

(** The two loops of [_grade]. *)
Fixpoint grade_loop (index : nat) (b : Budget) (fs : list Finding) : list Graded * Budget :=
  match fs with
  | [] => ([], b)
  | f :: fs =>
      let '(b, c) := charge b f in
      let '(gs, b) := grade_loop (S index) b fs in
      (MkGraded f (net_points index f) (exposure_of c) (entities_charged f c) (gap_of f c) :: gs, b)
  end.

Definition exposure_sum (gs : list Graded) : Q := q_sum (omap g_exposure gs).

Record Grade := MkGrade {
  grade_lambda : option Q;
  grade_exposure : option Q;
  exposure_usd : option Q;
  exposure_gaps : list Gap;
  graded : list Graded;
}.

Definition empty_budget : Budget := MkBudget ∅ ∅.

(** [_grade] *)
Definition grade (tracked : Q) (fs : list Finding) : Grade :=
  match fs with
  | [] => MkGrade None None None [] []
  | _ =>
      let '(gs, _) := grade_loop 0 empty_budget fs in
      let cumulative := py_round 4 (q_sum (List.map g_net gs)) in
      let lambda := py_round 4 (100 - Qmin cumulative 100) in
      let exposure := exposure_sum gs in
      MkGrade (Some lambda)
        (if Qeq_bool tracked 0 || forallb (fun g => match g_exposure g with None => true | Some _ => false end) gs then None
         else Some (py_round 3 (100 * (1 - exposure / tracked))))
        (Some (py_round 2 exposure)) (omap g_gap gs) gs
  end.

(** ** Coverage *)

Record Coverage := MkCoverage {
  cov_findings : nat;
  cov_determined : nat;
  cov_undetermined : nat;
  cov_charged : nat;
  cov_usd_charged : Q;
  cov_usd_unmeasured : Q;
  cov_tracked : option Q;
  cov_share : option Q;
}.

Section Coverage.
Context (canonical : string -> string) (priced_total : string -> option Q) (tracked : Q).

Definition priced (keys : gset string) : Q := py_round 2 (q_sum (omap (fun k => priced_total (canonical k)) (sorted_set keys))).

(** [_exposure_coverage] *)
Definition exposure_coverage (gs : list Graded) : Coverage :=
  let determined := List.filter (fun g => match g_exposure g with Some _ => true | None => false end) gs in
  let undetermined := List.filter (fun g => match g_exposure g with Some _ => false | None => true end) gs in
  let charged : gset string := list_to_set (List.concat (List.map g_charged determined)) in
  let reached : gset string := list_to_set (List.map canonical (List.concat (List.map (fun g => r_reach (f_row (g_finding g))) undetermined))) in
  let unmeasured := reached ∖ list_to_set (List.map canonical (elements charged)) in
  MkCoverage (List.length gs) (List.length determined) (List.length undetermined) (size charged) (priced charged) (priced unmeasured)
    (if Qeq_bool tracked 0 then None else Some (py_round 2 tracked))
    (if Qeq_bool tracked 0 then None else Some (py_round 3 (100 * priced charged / tracked))).

End Coverage.

(** ** What the document publishes *)

Inductive Withheld := StaleInputs | PartialPrincipalSets | ExposureUnpriced.

(** The end of [compute_protocol_score]: the basis a grade is withheld on. *)
Definition withheld_basis (stale partial : bool) (g : Grade) : option Withheld :=
  if stale then Some StaleInputs
  else if partial then Some PartialPrincipalSets
  else match graded g, grade_exposure g with _ :: _, None => Some ExposureUnpriced | _, _ => None end.

Record Document := MkDocument {
  doc_state : string;
  doc_lambda : option Q;
  doc_exposure : option Q;
  doc_confidence : option Q;
  doc_net : list (option Q);
}.

Definition GRADE_STATE_COMPUTED : string := "computed".
Definition GRADE_STATE_NOT_DETERMINED : string := "not_determined".

Definition is_some {A} (o : option A) : bool := match o with Some _ => true | None => false end.

(** [ScoreDocument.__post_init__]: [None] is its [ValueError]. *)
Definition score_document (d : Document) : option Document :=
  let all := is_some (doc_lambda d) && is_some (doc_exposure d) && is_some (doc_confidence d) in
  if Bool.eqb (String.eqb (doc_state d) GRADE_STATE_COMPUTED) all then Some d else None.

Definition publish (stale partial : bool) (g : Grade) (confidence : Q) : option Document :=
  let scored := match graded g, withheld_basis stale partial g with _ :: _, None => true | _, _ => false end in
  score_document (MkDocument (if scored then GRADE_STATE_COMPUTED else GRADE_STATE_NOT_DETERMINED)
                    (if scored then grade_lambda g else None) (if scored then grade_exposure g else None)
                    (if scored then Some confidence else None)
                    (List.map (fun x => if scored then Some (g_net x) else None) (graded g))).
