(* ===== verification/GradeTheory.v ===== *)
(** * What a grade rests on

    - Subsumption keeps every row, one finding per unit, and every entity a row
      values ([subsumption_conserves]).
    - The exposure budget charges an entity at most once, whatever the findings
      ([exposure_charged_once]); a finding without a published gap is charged in
      full ([gapless_finding_charged]).
    - The three figures of a document stand or fall together
      ([grade_published_together]).
    - A sheet ceiling hides a witnessed figure ([sheet_ceiling_hides_figure]). *)

From stdpp Require Import base gmap sets list strings sorting pretty.
From Stdlib Require Import String Ascii ZArith QArith Qpower Qround Qminmax Lia Lqa.
From S2P Require Import Prelude PyText EvalContext Planes ScoreModel Units UnitsTheory Grade.

Local Open Scope string_scope.

(** ** The sort orders *)

Lemma ltb_leb a b : a <> b -> String.ltb a b = String.leb a b.
Proof.
  intros N. unfold String.ltb, String.leb. destruct (String.compare a b) eqn:E; try done. apply String.compare_eq_iff in E. congruence.
Qed.

Lemma str_cmp_spec a b n : str_cmp a b n = true <-> (a = b /\ n = true) \/ (a <> b /\ str_le a b).
Proof.
  unfold str_cmp, str_le. destruct (String.eqb_spec a b) as [-> |N]; [naive_solver|]. rewrite ltb_leb by done. naive_solver.
Qed.

Lemma str_cmp_trans a b c n1 n2 n3 : str_cmp a b n1 = true -> str_cmp b c n2 = true -> (n1 = true -> n2 = true -> n3 = true) -> str_cmp a c n3 = true.
Proof.
  rewrite !str_cmp_spec. intros [[-> H1]|[N1 L1]] [[-> H2]|[N2 L2]] H; [left; auto|by right|by right|].
  right. split; [|by etrans]. intros ->. apply N1. by apply (anti_symm str_le).
Qed.

Lemma str_cmp_total a b n1 n2 : n1 = true \/ n2 = true -> str_cmp a b n1 = true \/ str_cmp b a n2 = true.
Proof.
  rewrite !str_cmp_spec. intros [H|H]; (destruct (decide (a = b)) as [-> |N]; [auto|]); destruct (total str_le a b); auto 6.
Qed.

Lemma points_first_spec x y n : points_first x y n = true <-> (r_points y < r_points x)%Q \/ (r_points x == r_points y /\ n = true)%Q.
Proof.
  unfold points_first. destruct (Qlt_bool (r_points y) (r_points x)) eqn:A; [apply Qlt_bool_iff in A; split; [by left|done]|]. apply Qlt_bool_false in A.
  destruct (Qlt_bool (r_points x) (r_points y)) eqn:B; [apply Qlt_bool_iff in B|apply Qlt_bool_false in B].
  - split; [done|]. intros [?|[? ?]]; exfalso; lra.
  - split; [intros ->; right; split; [lra|done]|]. intros [?|[_ ?]]; [exfalso; lra|done].
Qed.

Lemma points_first_trans x y z n1 n2 n3 : points_first x y n1 = true -> points_first y z n2 = true -> (n1 = true -> n2 = true -> n3 = true) -> points_first x z n3 = true.
Proof. rewrite !points_first_spec. intros [A|[A A2]] [B|[B B2]] F; [left; lra..|right]. split; [lra|auto]. Qed.

Lemma points_first_total x y n1 n2 : n1 = true \/ n2 = true -> points_first x y n1 = true \/ points_first y x n2 = true.
Proof.
  rewrite !points_first_spec. intros H. destruct (Q_dec (r_points x) (r_points y)) as [[L|L]|E]; [right; by left|left; by left|].
  destruct H; [left|right]; right; (split; [lra|done]).
Qed.

#[export] Instance unit_row_le_trans : Transitive unit_row_le.
Proof.
  intros x y z. unfold unit_row_le, unit_row_leb. intros H1 H2. eapply points_first_trans; [done|done|]. intros A B. eapply str_cmp_trans; [done|done|].
  clear A B. intros A B. eapply str_cmp_trans; [done|done|]. rewrite !Qle_bool_iff. intros. lra.
Qed.

#[export] Instance unit_row_le_total : Total unit_row_le.
Proof.
  intros x y. unfold unit_row_le, unit_row_leb. apply points_first_total, str_cmp_total, str_cmp_total. rewrite !Qle_bool_iff.
  destruct (Qlt_le_dec (r_weakness x) (r_weakness y)); [left; lra|by right].
Qed.

#[export] Instance finding_le_trans : Transitive finding_le.
Proof.
  intros x y z. unfold finding_le, row_le, finding_leb. intros H1 H2. eapply points_first_trans; [done|done|]. intros A B. eapply str_cmp_trans; [done|done|].
  clear A B. intros A B. by eapply str_cmp_trans.
Qed.

#[export] Instance finding_le_total : Total finding_le.
Proof. intros x y. unfold finding_le, row_le, finding_leb. apply points_first_total, str_cmp_total, str_cmp_total. by left. Qed.

Lemma unit_row_le_points x y : unit_row_le x y -> (r_points y <= r_points x)%Q.
Proof. unfold unit_row_le, unit_row_leb. rewrite points_first_spec. intros [?|[? _]]; lra. Qed.

(** ** Rows by unit *)

Definition rows_of (rows : list Row) (unit : string) : list Row := List.filter (fun r => String.eqb (r_unit r) unit) rows.

Lemma rows_of_cons r rows u : rows_of (r :: rows) u = if String.eqb (r_unit r) u then r :: rows_of rows u else rows_of rows u.
Proof. done. Qed.

Lemma unit_rows_elem rows u r : r ∈ rows_of rows u <-> r ∈ rows /\ r_unit r = u.
Proof. unfold rows_of. rewrite !list_elem_of_In, filter_In, String.eqb_eq. done. Qed.

Lemma rows_concat_cons r rows us : NoDup us -> r_unit r ∈ us ->
  List.concat (List.map (rows_of (r :: rows)) us) ≡ₚ r :: List.concat (List.map (rows_of rows) us).
Proof.
  assert (forall us, r_unit r ∉ us -> List.map (rows_of (r :: rows)) us = List.map (rows_of rows) us) as Out.
  { intros vs N. apply map_ext_in. intros u Hu. rewrite rows_of_cons. destruct (String.eqb_spec (r_unit r) u) as [<- |]; [|done].
    destruct N. by apply list_elem_of_In. }
  induction us as [|u us IH]; intros ND E; [by apply not_elem_of_nil in E|]. cbn [List.map List.concat]. apply NoDup_cons in ND as [N ND].
  rewrite rows_of_cons. destruct (String.eqb_spec (r_unit r) u) as [<- |Nu].
  - by rewrite Out.
  - apply elem_of_cons in E as [|E]; [done|]. rewrite (IH ND E). by rewrite Permutation_middle.
Qed.

Lemma rows_partition us rows : NoDup us -> (forall r, r ∈ rows -> r_unit r ∈ us) -> List.concat (List.map (rows_of rows) us) ≡ₚ rows.
Proof.
  intros ND. induction rows as [|r rows IH]; intros H.
  - clear. induction us as [|u us IH]; [done|]. exact IH.
  - rewrite rows_concat_cons; [|done|apply H; left]. f_equiv. apply IH. intros x Hx. apply H. by right.
Qed.

Lemma units_of_spec rows : NoDup (units_of rows) /\ forall u, u ∈ units_of rows <-> exists r, r ∈ rows /\ r_unit r = u.
Proof.
  unfold units_of, sorted_strings. split; [rewrite merge_sort_Permutation; apply NoDup_remove_dups|]. intros u.
  rewrite merge_sort_Permutation, elem_of_remove_dups, list_elem_of_fmap. naive_solver.
Qed.

(** ** Findings *)

Lemma unit_finding_spec rows u f : unit_finding rows u = Some f ->
  f_row f :: f_subsumed f ≡ₚ rows_of rows u /\ (forall r, r ∈ rows_of rows u -> (r_points r <= r_points (f_row f))%Q) /\
  f_exclusive f = exclusive_of (f_row f) (f_subsumed f).
Proof.
  unfold unit_finding. fold (rows_of rows u). pose proof (StronglySorted_merge_sort unit_row_le (rows_of rows u)) as S.
  pose proof (merge_sort_Permutation unit_row_le (rows_of rows u)) as P. destruct (merge_sort unit_row_le (rows_of rows u)) as [|top rest]; [done|].
  intros [= <-]. cbn [f_row f_subsumed f_exclusive]. split; [done|]. split; [|done]. intros r Hr. rewrite <- P in Hr. apply elem_of_cons in Hr as [-> |Hr]; [apply Qle_refl|].
  apply StronglySorted_inv in S as [_ S]. apply unit_row_le_points. by apply (proj1 (Forall_forall _ _) S).
Qed.

Lemma unit_finding_some rows u : u ∈ units_of rows -> is_Some (unit_finding rows u).
Proof.
  intros (r & Hr & Hu)%units_of_spec. unfold unit_finding. fold (rows_of rows u). pose proof (merge_sort_Permutation unit_row_le (rows_of rows u)) as P.
  destruct (merge_sort unit_row_le (rows_of rows u)); [|by eexists]. assert (r ∈ rows_of rows u) as X by by apply unit_rows_elem. rewrite <- P in X. by apply not_elem_of_nil in X.
Qed.

Lemma found_perm rows us : (forall u, u ∈ us -> is_Some (unit_finding rows u)) ->
  (List.map f_row (omap (unit_finding rows) us) ++ List.concat (List.map f_subsumed (omap (unit_finding rows) us)))%list ≡ₚ List.concat (List.map (rows_of rows) us).
Proof.
  induction us as [|u us IH]; intros H; [done|]. destruct (H u ltac:(left)) as [f F]. cbn [omap list_omap]. rewrite F. cbn [List.map List.concat].
  destruct (unit_finding_spec _ _ _ F) as (P & _). rewrite <- P. rewrite <- IH by (intros v Hv; apply H; by right).
  rewrite <- !app_comm_cons. f_equiv. rewrite !app_assoc. f_equiv. apply Permutation_app_comm.
Qed.

Lemma finding_units rows us : (forall u, u ∈ us -> is_Some (unit_finding rows u)) -> List.map (fun f => r_unit (f_row f)) (omap (unit_finding rows) us) = us.
Proof.
  induction us as [|u us IH]; intros H; [done|]. destruct (H u ltac:(left)) as [f F]. cbn [omap list_omap]. rewrite F. cbn [List.map].
  rewrite IH by (intros v Hv; apply H; by right). f_equal. destruct (unit_finding_spec _ _ _ F) as (P & _).
  assert (f_row f ∈ rows_of rows u) as X by (rewrite <- P; left). by apply unit_rows_elem in X as [_ X].
Qed.

(** ** Exclusive values *)

Lemma exclusive_step_dom occupied row ex key k : k ∈ dom (ex_values (exclusive_step occupied row ex key)) <->
  k ∈ dom (ex_values ex) \/ (k = key /\ is_Some (r_values row !! key) /\ key ∉ occupied).
Proof.
  unfold exclusive_step. destruct (r_values row !! key) as [held|] eqn:E; [|split; [by left|]; intros [?|(_ & [? ?] & _)]; done].
  destruct (bool_decide_reflect (key ∈ occupied)) as [O|O]; [naive_solver|].
  assert (k ∈ dom (ex_values ex) \/ (k = key /\ is_Some (Some held) /\ key ∉ occupied) <-> k ∈ dom (ex_values ex) \/ k = key) as -> by (split; [tauto|]; intros [?| ->]; [by left|right; split; [done|split; [by eexists|done]]]).
  destruct (ex_values ex !! key) as [[usd f]|] eqn:X; [destruct (Qlt_bool _ _)|]; cbn [ex_values]; rewrite ?dom_insert_L; try set_solver.
  split; [by left|]. intros [?| ->]; [done|]. by apply elem_of_dom_2 in X.
Qed.

Lemma exclusive_of_dom top rest k : k ∈ dom (ex_values (exclusive_of top rest)) <->
  exists row, row ∈ rest /\ k ∈ dom (r_values row) /\ k ∉ occupied_by top.
Proof.
  unfold exclusive_of.
  rewrite (foldl_grows _ (fun ex => k ∈ dom (ex_values ex)) (fun row => k ∈ dom (r_values row) /\ k ∉ occupied_by top)).
  - cbn [ex_values]. rewrite dom_empty_L. set_solver.
  - intros ex row. rewrite (foldl_grows _ (fun ex => k ∈ dom (ex_values ex)) (fun key => k = key /\ is_Some (r_values row !! key) /\ key ∉ occupied_by top)
      (fun b a => exclusive_step_dom _ row b a k)). f_equiv. split.
    + intros (key & _ & -> & S & N). split; [by apply elem_of_dom|done].
    + intros [D N]. exists k. split; [by apply sorted_keys_elem|]. split; [done|]. split; [by apply elem_of_dom|done].
Qed.

(** ** The budget *)

Lemma q_sum_cons x l : q_sum (x :: l) = (x + q_sum l)%Q.
Proof. done. Qed.

Lemma q_sum_nil : q_sum [] = 0%Q.
Proof. done. Qed.

Definition budget_ok (b : Budget) : Prop := forall k, (0 <= claimed_at b k <= 1)%Q.

(** What the claims of a budget are worth at [worth] dollars an entity. *)
Definition spent (worth : string -> Q) (keys : list string) (b : Budget) : Q := q_sum (List.map (fun k => claimed_at b k * worth k)%Q keys).

Lemma spent_insert worth keys b key take cs : NoDup keys -> key ∈ keys ->
  (spent worth keys (MkBudget (<[key := claimed_at b key + take]> (claimed b)) cs) == spent worth keys b + take * worth key)%Q.
Proof.
  unfold spent. assert (forall k, k <> key -> claimed_at (MkBudget (<[key := claimed_at b key + take]> (claimed b)) cs) k = claimed_at b k) as Ne.
  { intros k N. unfold claimed_at. cbn [claimed]. by rewrite lookup_insert_ne. }
  assert (claimed_at (MkBudget (<[key := claimed_at b key + take]> (claimed b)) cs) key = claimed_at b key + take)%Q as Eq.
  { unfold claimed_at at 1. cbn [claimed]. by rewrite lookup_insert_eq. }
  induction keys as [|k keys IH]; [by intros _ ?%not_elem_of_nil|]. intros [N ND]%NoDup_cons E. cbn [List.map]. rewrite !q_sum_cons.
  destruct (decide (k = key)) as [-> |Nk].
  - rewrite Eq. assert (q_sum (List.map (fun k => claimed_at (MkBudget (<[key := claimed_at b key + take]> (claimed b)) cs) k * worth k)%Q keys)
      = q_sum (List.map (fun k => claimed_at b k * worth k)%Q keys)) as ->; [|ring].
    f_equal. apply map_ext_in. intros x Hx. rewrite Ne; [done|]. intros ->. apply N. by apply list_elem_of_In.
  - apply elem_of_cons in E as [|E]; [done|]. rewrite (Ne k Nk), (IH ND E). ring.
Qed.

Lemma claimed_at_insert b key take cs k :
  claimed_at (MkBudget (<[key := (claimed_at b key + take)%Q]> (claimed b)) cs) k = if decide (k = key) then (claimed_at b key + take)%Q else claimed_at b k.
Proof.
  unfold claimed_at. cbn [claimed]. destruct (decide (k = key)) as [-> |N]; [by rewrite lookup_insert_eq|by rewrite lookup_insert_ne].
Qed.

(** One key: the claim stays within the entity, and what is charged within what is
    claimed. *)
Lemma charge_key_ok worth keys f b c key b' c' : NoDup keys -> budget_ok b ->
  (forall held fraction, figure f key = inr (held, fraction) -> key ∈ keys /\ (held <= worth key)%Q) ->
  charge_key f (b, c) key = (b', c') -> budget_ok b' /\ (c_mine c' - c_mine c <= spent worth keys b' - spent worth keys b)%Q.
Proof.
  intros ND Ok H E. unfold charge_key in E. destruct (figure f key) as [[]|[held fraction]] eqn:F; [injection E as <- <-; split; [done|cbn; lra]..|].
  destruct (H held fraction eq_refl) as [K W]. destruct (Qle_bool (Qmax 0 (1 - claimed_at b key)) 0); [injection E as <- <-; split; [done|cbn; lra]|].
  destruct (Qlt_bool 0 (Qmin fraction (Qmax 0 (1 - claimed_at b key)))) eqn:T; injection E as <- <-; [|split; [done|cbn; lra]].
  apply Qlt_bool_iff in T. set (take := Qmin fraction (Qmax 0 (1 - claimed_at b key))) in *. split.
  - intros k. rewrite claimed_at_insert. destruct (decide (k = key)) as [-> |]; [|apply Ok]. pose proof (Ok key).
    assert (take <= 1 - claimed_at b key)%Q; [|lra]. eapply Qle_trans; [apply Q.le_min_r|]. apply Q.max_lub; [lra|apply Qle_refl].
  - rewrite spent_insert by done. cbn [c_mine]. assert (take * held <= take * worth key)%Q; [|lra].
    rewrite !(Qmult_comm take). apply Qmult_le_compat_r; [done|lra].
Qed.

Lemma charge_ok worth keys f b b' c : NoDup keys -> budget_ok b ->
  (forall k held fraction, k ∈ charged_entities f -> figure f k = inr (held, fraction) -> k ∈ keys /\ (held <= worth k)%Q) ->
  charge b f = (b', c) -> budget_ok b' /\ (c_mine c <= spent worth keys b' - spent worth keys b)%Q.
Proof.
  intros ND Ok H. unfold charge. assert (forall l b c b' c', budget_ok b -> (forall k, k ∈ l -> k ∈ charged_entities f) ->
    foldl (charge_key f) (b, c) l = (b', c') -> budget_ok b' /\ (c_mine c' - c_mine c <= spent worth keys b' - spent worth keys b)%Q) as L.
  { clear b b' c Ok. induction l as [|k l IH]; intros b c b' c' Ok S; cbn [foldl]; [intros [= <- <-]; split; [done|lra]|].
    destruct (charge_key f (b, c) k) as [b1 c1] eqn:E. intros F.
    destruct (charge_key_ok worth keys f b c k b1 c1 ND Ok) as [Ok1 L1]; [intros held fr; apply H, S; left|done|].
    destruct (IH b1 c1 b' c' Ok1) as [Ok2 L2]; [intros x Hx; apply S; by right|done|]. split; [done|]. lra. }
  intros E. destruct (L _ _ _ _ _ Ok (fun k H => H) E) as [Ok' M]. split; [done|]. cbn [c_mine no_charge] in M. lra.
Qed.

Lemma exposure_rounded c e : exposure_of c = Some e -> (e <= c_mine c + (1 # 200))%Q.
Proof.
  unfold exposure_of. destruct (c_measured c); [done|]. intros [= <-]. pose proof (py_round_close 2 (c_mine c)) as [_ L]. exact L.
Qed.

(** No measured entity, nothing charged. *)
Lemma charge_key_measured f b c key b' c' : charge_key f (b, c) key = (b', c') ->
  (c_measured c = 0%nat -> (c_mine c == 0)%Q) -> (c_measured c' = 0%nat -> (c_mine c' == 0)%Q).
Proof.
  unfold charge_key. destruct (figure f key) as [[]|[held fraction]]; [intros [= _ <-]; done..|].
  destruct (Qle_bool _ _); [intros [= _ <-]; done|]. destruct (Qlt_bool 0 _); intros [= _ <-] _; done.
Qed.

Lemma charge_measured b f b' c : charge b f = (b', c) -> c_measured c = 0%nat -> (c_mine c == 0)%Q.
Proof.
  unfold charge. assert (forall l b c b' c', foldl (charge_key f) (b, c) l = (b', c') -> (c_measured c = 0%nat -> (c_mine c == 0)%Q) -> (c_measured c' = 0%nat -> (c_mine c' == 0)%Q)) as L.
  { clear. induction l as [|k l IH]; intros b c b' c'; cbn [foldl]; [intros [= <- <-]; done|]. destruct (charge_key f (b, c) k) as [b1 c1] eqn:E.
    intros F H. eapply IH; [done|]. by eapply charge_key_measured. }
  intros E. by eapply L.
Qed.

Lemma q_sum_app l1 l2 : (q_sum (l1 ++ l2) == q_sum l1 + q_sum l2)%Q.
Proof. induction l1 as [|x l1 IH]; cbn [app]; rewrite ?q_sum_cons; [rewrite q_sum_nil; ring|]. rewrite IH. ring. Qed.

Lemma grade_loop_ok worth keys fs : NoDup keys ->
  (forall f k held fraction, f ∈ fs -> k ∈ charged_entities f -> figure f k = inr (held, fraction) -> k ∈ keys /\ (held <= worth k)%Q) ->
  forall index b gs b', budget_ok b -> grade_loop index b fs = (gs, b') ->
  budget_ok b' /\ (exposure_sum gs <= spent worth keys b' - spent worth keys b + (Z.of_nat (List.length fs) # 200))%Q /\ List.length gs = List.length fs.
Proof.
  intros ND. induction fs as [|f fs IH]; intros H index b gs b' Ok; cbn [grade_loop]; [intros [= <- <-]; split; [done|]; split; [|done]; change (exposure_sum []) with 0%Q; change (Z.of_nat (List.length (@nil Finding)) # 200)%Q with (0 # 200)%Q; lra|].
  destruct (charge b f) as [b1 c] eqn:C. destruct (grade_loop (S index) b1 fs) as [gs1 b2] eqn:G. intros [= <- <-].
  destruct (charge_ok worth keys f b b1 c ND Ok) as [Ok1 M]; [intros; eapply H; [left|done|done]|done|].
  destruct (IH ltac:(intros; eapply H; [by right|done|done]) (S index) b1 gs1 b2 Ok1 G) as (Ok2 & L & Len). split; [done|]. split; [|cbn; congruence].
  unfold exposure_sum in *. cbn [omap list_omap g_exposure]. cbn [List.length].
  assert ((Z.of_nat (S (List.length fs)) # 200) == (Z.of_nat (List.length fs) # 200) + (1 # 200))%Q as -> by (rewrite Nat2Z.inj_succ; unfold Qeq; cbn; lia).
  destruct (exposure_of c) as [e|] eqn:X; rewrite ?q_sum_cons.
  - apply exposure_rounded in X. lra.
  - assert (c_measured c = 0%nat) as Z by (unfold exposure_of in X; by destruct (c_measured c)). pose proof (charge_measured _ _ _ _ C Z). lra.
Qed.

Lemma empty_budget_ok : budget_ok empty_budget.
Proof. intros k. unfold claimed_at, empty_budget. cbn [claimed]. rewrite lookup_empty. cbn. lra. Qed.

Lemma spent_empty worth keys : (spent worth keys empty_budget == 0)%Q.
Proof.
  unfold spent. induction keys as [|k keys IH]; cbn [List.map]; [reflexivity|]. rewrite q_sum_cons.
  rewrite IH. unfold claimed_at, empty_budget. cbn [claimed]. rewrite lookup_empty. cbn [default from_option]. ring.
Qed.

Lemma spent_bound worth keys b : budget_ok b -> (forall k, k ∈ keys -> 0 <= worth k)%Q -> (spent worth keys b <= q_sum (List.map worth keys))%Q.
Proof.
  intros Ok. unfold spent. induction keys as [|k keys IH]; intros W; cbn [List.map]; [apply Qle_refl|].
  rewrite !q_sum_cons. specialize (IH ltac:(intros x Hx; apply W; by right)).
  assert (claimed_at b k * worth k <= 1 * worth k)%Q; [|lra]. apply Qmult_le_compat_r; [apply Ok|apply W; left].
Qed.

(** ** Gaps *)

Definition clean (c : Charge) : Prop := c_unpriced c = [] /\ c_exhausted c = [] /\ c_partial c = [] /\ c_excluded c = [].

(** The whole of what a finding would take at an entity. *)
Definition full_charge (f : Finding) (k : string) : Q := match figure f k with inr (held, fraction) => (fraction * held)%Q | inl _ => 0%Q end.

Lemma app_one_nil {A} (l : list A) x : (l ++ [x])%list <> [].
Proof. by destruct l. Qed.

Lemma charge_key_clean f b c k b' c' : (forall held fraction, figure f k = inr (held, fraction) -> 0 <= fraction)%Q ->
  charge_key f (b, c) k = (b', c') -> clean c' ->
  clean c /\ (exists held fraction, figure f k = inr (held, fraction)) /\ (c_mine c' == c_mine c + full_charge f k)%Q.
Proof.
  intros H E (U & X & P & O). unfold charge_key, full_charge in *. destruct (figure f k) as [[]|[held fraction]];
    [injection E as <- <-; by destruct (app_one_nil _ _ O)|injection E as <- <-; by destruct (app_one_nil _ _ U)|].
  specialize (H held fraction eq_refl). destruct (Qle_bool _ 0); [injection E as <- <-; by destruct (app_one_nil _ _ X)|].
  set (room := Qmax 0 (1 - claimed_at b k)) in *. destruct (Qlt_bool room fraction) eqn:L.
  { destruct (Qlt_bool 0 (Qmin fraction room)); injection E as <- <-; by destruct (app_one_nil _ _ P). }
  apply Qlt_bool_false in L. assert (Qmin fraction room == fraction)%Q as M by by apply Q.min_l.
  destruct (Qlt_bool 0 (Qmin fraction room)) eqn:T; injection E as <- <-; (split; [done|]; split; [by eexists _, _|]); cbn [c_mine].
  - rewrite M. ring.
  - apply Qlt_bool_false in T. rewrite M in T. assert (fraction == 0)%Q as -> by lra. ring.
Qed.

Lemma charge_clean b f b' c : (forall k held fraction, figure f k = inr (held, fraction) -> 0 <= fraction)%Q -> charge b f = (b', c) -> clean c ->
  (forall k, k ∈ charged_entities f -> exists held fraction, figure f k = inr (held, fraction)) /\
  (c_mine c == q_sum (List.map (full_charge f) (charged_entities f)))%Q.
Proof.
  intros H. unfold charge. assert (forall l b c b' c', foldl (charge_key f) (b, c) l = (b', c') -> clean c' -> clean c /\
    (forall k, k ∈ l -> exists held fraction, figure f k = inr (held, fraction)) /\ (c_mine c' == c_mine c + q_sum (List.map (full_charge f) l))%Q) as L.
  { induction l as [|k l IH]; intros b0 c0 b1 c1; cbn [foldl].
    - intros [= <- <-] C. split; [done|]. split; [by intros ? ?%not_elem_of_nil|]. cbn [List.map]. rewrite q_sum_nil. ring.
    - destruct (charge_key f (b0, c0) k) as [b2 c2] eqn:E. intros F C. destruct (IH _ _ _ _ F C) as (C2 & K & M).
      destruct (charge_key_clean f b0 c0 k b2 c2 (H k) E C2) as (C0 & Kk & Mk). split; [done|]. split.
      + intros x [-> |Hx]%elem_of_cons; [done|by apply K].
      + cbn [List.map]. rewrite q_sum_cons, M, Mk. ring. }
  intros E C. destruct (L _ _ _ _ _ E C) as (_ & K & M). split; [done|]. rewrite M. cbn [c_mine no_charge]. ring.
Qed.

Lemma gap_none f c : gap_of f c = None -> clean c /\ exists e, exposure_of c = Some e.
Proof. unfold gap_of, clean. repeat case_match; try done. intros _. split; [done|by eexists]. Qed.

(** ** The grade of a list of findings *)

Lemma Qpower_nonneg n : (0 <= Qpower LAMBDA (Z.of_nat n))%Q.
Proof. apply Qpower_pos. by vm_compute. Qed.

Lemma py_round_nonneg n x : (0 <= x)%Q -> (0 <= py_round n x)%Q.
Proof.
  intros H. assert (py_round n 0 == 0)%Q as E. { unfold py_round. assert (0 * inject_Z (Zpos (decimals n)) == inject_Z 0)%Q as E by ring. rewrite (round_even_proper _ _ E), round_even_int. reflexivity. }
  rewrite <- E. by apply py_round_mono.
Qed.

Lemma q_sum_nonneg l : (forall x, x ∈ l -> 0 <= x)%Q -> (0 <= q_sum l)%Q.
Proof.
  induction l as [|x l IH]; intros H; [apply Qle_refl|]. rewrite q_sum_cons. assert (0 <= x)%Q by (apply H; left). specialize (IH ltac:(intros y Hy; apply H; by right)). lra.
Qed.

Lemma grade_loop_nets index b fs gs b' : (forall f, f ∈ fs -> 0 <= r_points (f_row f))%Q -> grade_loop index b fs = (gs, b') -> forall x, x ∈ List.map g_net gs -> (0 <= x)%Q.
Proof.
  revert index b gs b'. induction fs as [|f fs IH]; intros index b gs b' H; cbn [grade_loop]; [intros [= <- <-] x ?%not_elem_of_nil; done|].
  destruct (charge b f) as [b1 c]. destruct (grade_loop (S index) b1 fs) as [gs1 b2] eqn:G. intros [= <- <-] x. cbn [List.map]. intros [-> |Hx]%elem_of_cons.
  - cbn [g_net]. unfold net_points. apply py_round_nonneg. apply Qmult_le_0_compat; [apply H; left|apply Qpower_nonneg].
  - eapply IH; [|exact G|exact Hx]. intros g Hg. apply H. by right.
Qed.

Lemma grade_eq tracked fs : fs <> [] -> exists gs b, grade_loop 0 empty_budget fs = (gs, b) /\ List.length gs = List.length fs /\ graded (grade tracked fs) = gs /\
  exposure_usd (grade tracked fs) = Some (py_round 2 (exposure_sum gs)) /\
  grade_lambda (grade tracked fs) = Some (py_round 4 (100 - Qmin (py_round 4 (q_sum (List.map g_net gs))) 100)).
Proof.
  intros N. destruct fs as [|f fs]; [done|]. unfold grade. destruct (grade_loop 0 empty_budget (f :: fs)) as [gs b] eqn:G. exists gs, b.
  split; [done|]. split; [|done].
  assert (forall fs index b gs b', grade_loop index b fs = (gs, b') -> List.length gs = List.length fs) as L; [|by eapply L].
  clear. induction fs as [|f fs IH]; intros index b gs b'; cbn [grade_loop]; [by intros [= <- <-]|]. destruct (charge b f) as [b1 c].
  destruct (grade_loop (S index) b1 fs) as [gs1 b2] eqn:G. intros [= <- <-]. cbn. f_equal. by eapply IH.
Qed.

Lemma grade_lambda_range tracked fs l : (forall f, f ∈ fs -> 0 <= r_points (f_row f))%Q -> grade_lambda (grade tracked fs) = Some l -> (0 <= l <= 100)%Q.
Proof.
  intros H E. destruct fs as [|f fs]; [done|]. destruct (grade_eq tracked (f :: fs) ltac:(done)) as (gs & b & G & _ & _ & _ & L). rewrite L in E. injection E as <-.
  assert (0 <= py_round 4 (q_sum (List.map g_net gs)))%Q as P. { apply py_round_nonneg, q_sum_nonneg. by eapply grade_loop_nets. }
  apply py_round_bounds; [by vm_compute|by vm_compute|]. set (cum := py_round 4 (q_sum (List.map g_net gs))) in *.
  assert (0 <= Qmin cum 100 <= 100)%Q; [|lra]. split; [by apply Q.min_glb|apply Q.le_min_r].
Qed.

(** ** Claims *)

(** C14: Subsumption loses nothing.  The findings' rows and the subsumed rows are the
    rows it was given; each unit has one finding, whose points are the highest of
    its unit; and an entity that any subsumed row values is valued by the
    finding's own row or kept among its exclusive values. *)
Theorem subsumption_conserves rows fs subsumed :
  subsume rows = (fs, subsumed) ->
  (List.map f_row fs ++ subsumed)%list ≡ₚ rows /\
  (NoDup (List.map (fun f => r_unit (f_row f)) fs) /\ forall r, r ∈ rows -> r_unit r ∈ List.map (fun f => r_unit (f_row f)) fs) /\
  (forall f r, f ∈ fs -> r ∈ rows -> r_unit r = r_unit (f_row f) -> (r_points r <= r_points (f_row f))%Q) /\
  (forall f r key, f ∈ fs -> r ∈ f_subsumed f -> key ∈ dom (r_values r) ->
     r ∈ rows /\ (key ∈ dom (r_values (f_row f)) \/ key ∈ dom (ex_values (f_exclusive f)))).
Proof.
  unfold subsume. set (found := omap (unit_finding rows) (units_of rows)). intros [= <- <-].
  destruct (units_of_spec rows) as [ND Units]. pose proof (unit_finding_some rows) as Some_.
  assert (forall f, f ∈ merge_sort finding_le found <-> exists u, u ∈ units_of rows /\ unit_finding rows u = Some f) as In.
  { intros f. rewrite merge_sort_Permutation. apply list_elem_of_omap. }
  assert (forall f, f ∈ merge_sort finding_le found -> unit_finding rows (r_unit (f_row f)) = Some f) as Own.
  { intros f (u & Hu & F)%In. destruct (unit_finding_spec _ _ _ F) as (P & _). assert (f_row f ∈ rows_of rows u) as X by (rewrite <- P; left).
    by apply unit_rows_elem in X as [_ ->]. }
  split; [|split; [split|split]].
  - rewrite (merge_sort_Permutation finding_le), (merge_sort_Permutation row_le). unfold found. rewrite found_perm by done.
    apply rows_partition; [done|]. intros r Hr. apply Units. eauto.
  - rewrite (merge_sort_Permutation finding_le). unfold found. by rewrite finding_units.
  - intros r Hr. rewrite (merge_sort_Permutation finding_le). unfold found. rewrite finding_units by done. apply Units. eauto.
  - intros f r Hf Hr Hu. destruct (unit_finding_spec _ _ _ (Own f Hf)) as (_ & M & _). apply M, unit_rows_elem. done.
  - intros f r key Hf Hr Hk. destruct (unit_finding_spec _ _ _ (Own f Hf)) as (P & _ & E). split.
    + assert (r ∈ rows_of rows (r_unit (f_row f))) as X by (rewrite <- P; by right). by apply unit_rows_elem in X as [X _].
    + destruct (decide (key ∈ dom (r_values (f_row f)))) as [|N]; [by left|]. right. rewrite E. apply exclusive_of_dom. exists r. split; [done|]. split; [done|].
      unfold occupied_by. set_solver.
Qed.

Definition plain_row (unit cap path : string) (severity weakness : Q) (value : option Q) (values : list (string * Q)) (sheet : list string) : Row :=
  MkRow unit cap path severity weakness (raw_points severity weakness value) value (list_to_map values) ∅ (List.map fst values) (list_to_set sheet) [] 1.

Definition top_row : Row := plain_row "u" "upgrade.implementation" "direct" 1 (9 # 10) (Some (inject_Z 2000000000)) [("k1", inject_Z 2000000000)] [].
Definition flow_row : Row := plain_row "u" "flow.out" "direct" 1 (1 # 2) (Some (inject_Z 100)) [("k2", inject_Z 100)] [].
Definition code_row : Row := plain_row "u" "delegatecall.execute" "direct" 1 (1 # 2) (Some (inject_Z 1000)) [("k2", inject_Z 1000)] ["k2"].
Definition other_row : Row := plain_row "v" "flow.out" "direct" (1 # 2) (1 # 2) (Some (inject_Z 200)) [("k1", inject_Z 200)] [].

Lemma subsumption_conserves_witness : exists fs subsumed, subsume [other_row; flow_row; top_row] = (fs, subsumed) /\
  List.map (fun f => r_unit (f_row f)) fs = ["u"; "v"] /\ (List.map f_row fs ++ subsumed)%list ≡ₚ [other_row; flow_row; top_row].
Proof.
  destruct (subsume [other_row; flow_row; top_row]) as [fs subsumed] eqn:E. exists fs, subsumed. split; [done|]. split.
  - assert (List.map (fun f => r_unit (f_row f)) (subsume [other_row; flow_row; top_row]).1 = ["u"; "v"]) as X by by vm_compute. by rewrite E in X.
  - by apply (subsumption_conserves _ _ _ E).
Defined.

(** C4: An entity is charged once.  Let every figure the findings charge at an entity
    be at most what the entity is worth.  Then the exposure they publish together
    is at most the worth of the entities, each counted once, however many findings
    reach it; rounding to cents adds half a cent a finding and half a cent. *)
Theorem exposure_charged_once tracked fs keys worth e :
  NoDup keys -> (forall k, k ∈ keys -> 0 <= worth k)%Q ->
  (forall f k held fraction, f ∈ fs -> k ∈ charged_entities f -> figure f k = inr (held, fraction) -> k ∈ keys /\ (held <= worth k)%Q) ->
  exposure_usd (grade tracked fs) = Some e ->
  (e <= q_sum (List.map worth keys) + (Z.of_nat (S (List.length fs)) # 200))%Q.
Proof.
  intros ND W H E. destruct fs as [|f fs]; [done|]. destruct (grade_eq tracked (f :: fs) ltac:(done)) as (gs & b & G & _ & _ & X & _). rewrite X in E. injection E as <-.
  destruct (grade_loop_ok worth keys (f :: fs) ND H 0 empty_budget gs b empty_budget_ok G) as (Ok & L & _).
  pose proof (spent_empty worth keys) as Z. pose proof (spent_bound worth keys b Ok W) as B. pose proof (py_round_close 2 (exposure_sum gs)) as [_ C].
  change (1 # 2 * decimals 2)%Q with (1 # 200)%Q in C.
  assert ((Z.of_nat (S (List.length (f :: fs))) # 200) == (Z.of_nat (List.length (f :: fs)) # 200) + (1 # 200))%Q as -> by (rewrite Nat2Z.inj_succ; unfold Qeq; cbn; lia).
  lra.
Qed.

Lemma exposure_charged_once_witness : exists e, exposure_usd (grade (inject_Z 1000000) (subsume [other_row; flow_row; top_row]).1) = Some e /\ (e <= 2000000100 + (3 # 200))%Q.
Proof.
  destruct (exposure_usd (grade (inject_Z 1000000) (subsume [other_row; flow_row; top_row]).1)) as [e|] eqn:E; [|by vm_compute in E]. exists e. split; [done|].
  pose proof (exposure_charged_once (inject_Z 1000000) (subsume [other_row; flow_row; top_row]).1 ["k1"; "k2"]
    (fun k => if String.eqb k "k1" then inject_Z 2000000000 else inject_Z 100)) as H.
  eapply Qle_trans; [apply H; [| | |exact E]|vm_compute; discriminate].
  - apply (bool_decide_unpack _). vm_compute. exact I.
  - intros k _. destruct (String.eqb k "k1"); vm_compute; discriminate.
  - clear. assert (forallb (fun f => forallb (fun k => match figure f k with
        | inr (held, _) => bool_decide (k ∈ ["k1"; "k2"]) && Qle_bool held (if String.eqb k "k1" then inject_Z 2000000000 else inject_Z 100)
        | inl _ => true end) (charged_entities f)) (subsume [other_row; flow_row; top_row]).1 = true) as A by by vm_compute.
    intros f k held fraction Hf Hk F. apply (proj1 (forallb_forall _ _)) with (x := f) in A; [|by apply list_elem_of_In].
    apply (proj1 (forallb_forall _ _)) with (x := k) in A; [|by apply list_elem_of_In]. rewrite F in A. apply andb_true_iff in A as [A1 A2].
    split; [by apply bool_decide_eq_true in A1|by apply Qle_bool_iff].
Defined.

(** No gap, no omission.  A finding published without a gap was charged in full:
    every entity it reaches or inherits from a subsumed row has a figure, and its
    exposure is, to the cent, the sum of the figures at the finding's own
    fractions. *)
Theorem gapless_finding_charged b f b' c :
  (forall k held fraction, figure f k = inr (held, fraction) -> (0 <= fraction)%Q) ->
  charge b f = (b', c) -> gap_of f c = None ->
  (forall k, k ∈ charged_entities f -> exists held fraction, figure f k = inr (held, fraction)) /\
  exists e, exposure_of c = Some e /\ (e == py_round 2 (q_sum (List.map (full_charge f) (charged_entities f))))%Q.
Proof.
  intros H C G. destruct (gap_none _ _ G) as [Cl [e E]]. destruct (charge_clean _ _ _ _ H C Cl) as [K M]. split; [done|]. exists e. split; [done|].
  unfold exposure_of in E. destruct (c_measured c); [done|]. injection E as <-. by rewrite M.
Qed.

Lemma gapless_finding_charged_witness : exists c e,
  (charge empty_budget (MkFinding flow_row [] 0 (MkExclusive ∅ ∅))).2 = c /\ gap_of (MkFinding flow_row [] 0 (MkExclusive ∅ ∅)) c = None /\
  exposure_of c = Some e /\ (e == 50)%Q.
Proof.
  set (f := MkFinding flow_row [] 0 (MkExclusive ∅ ∅)). destruct (charge empty_budget f) as [b' c] eqn:C.
  assert (gap_of f c = None) as G. { assert (gap_of f (charge empty_budget f).2 = None) as X by by vm_compute. by rewrite C in X. }
  destruct (gapless_finding_charged empty_budget f b' c) as [_ (e & E & V)]; [|exact C|exact G|exists c, e; split_and!; [done..|rewrite V; by vm_compute]].
  intros k held fraction F. unfold figure in F. change (ex_values (f_exclusive f)) with (∅ : gmap string (Q * Q)) in F. rewrite lookup_empty in F.
  repeat case_match; simplify_eq; vm_compute; discriminate.
Defined.

(** C27: The grade's figures stand or fall together.  Whatever the findings and the
    inputs' faults, the document is accepted by its own constructor: it is computed
    with a grade between 0 and 100, an exposure ratio and a confidence, and then
    there were findings and no stale or partial input; or it publishes none of the
    three and no net points either. *)
Theorem grade_published_together stale partial tracked fs confidence :
  (forall f, f ∈ fs -> (0 <= r_points (f_row f))%Q) ->
  exists d, publish stale partial (grade tracked fs) confidence = Some d /\
    ((doc_state d = GRADE_STATE_COMPUTED /\ stale = false /\ partial = false /\ fs <> [] /\
      (exists l x, doc_lambda d = Some l /\ doc_exposure d = Some x /\ (0 <= l <= 100)%Q) /\ doc_confidence d = Some confidence) \/
     (doc_state d = GRADE_STATE_NOT_DETERMINED /\ doc_lambda d = None /\ doc_exposure d = None /\ doc_confidence d = None /\
      forall n, n ∈ doc_net d -> n = None)).
Proof.
  intros H. unfold publish. destruct fs as [|f fs].
  { eexists. split; [by destruct stale, partial|]. right. split_and!; try done. by intros n ?%not_elem_of_nil. }
  destruct (grade_eq tracked (f :: fs) ltac:(done)) as (gs & b & G & Len & Gr & _ & L). destruct gs as [|g gs]; [done|]. rewrite Gr.
  unfold withheld_basis. rewrite Gr. assert (forall d, d = MkDocument GRADE_STATE_NOT_DETERMINED None None None (List.map (fun _ => None) (g :: gs)) ->
    (doc_state d = GRADE_STATE_NOT_DETERMINED /\ doc_lambda d = None /\ doc_exposure d = None /\ doc_confidence d = None /\ forall n, n ∈ doc_net d -> n = None)) as ND.
  { intros d ->. split_and!; try done. cbn [doc_net]. intros n (x & -> & _)%list_elem_of_fmap. done. }
  destruct stale; [eexists; split; [done|right; by apply ND]|]. destruct partial; [eexists; split; [done|right; by apply ND]|].
  destruct (grade_exposure (grade tracked (f :: fs))) as [x|]; [|eexists; split; [done|right; by apply ND]].
  eexists. split; [unfold score_document; cbn [doc_state doc_lambda doc_exposure doc_confidence]; by rewrite L|]. left.
  split_and!; try done. eexists _, x. cbn [doc_lambda doc_exposure]. split; [reflexivity|]. split; [done|]. by eapply grade_lambda_range.
Qed.

Lemma grade_published_together_witness : exists d,
  publish false false (grade (inject_Z 4000000000) (subsume [other_row; flow_row; top_row]).1) 50 = Some d /\ doc_state d = GRADE_STATE_COMPUTED.
Proof.
  destruct (grade_published_together false false (inject_Z 4000000000) (subsume [other_row; flow_row; top_row]).1 50) as (d & P & _).
  - assert (forallb (fun f => Qle_bool 0 (r_points (f_row f))) (subsume [other_row; flow_row; top_row]).1 = true) as A by by vm_compute.
    intros f Hf. apply Qle_bool_iff. apply (proj1 (forallb_forall _ _) A). by apply list_elem_of_In.
  - exists d. split; [done|]. assert ((doc_state <$> publish false false (grade (inject_Z 4000000000) (subsume [other_row; flow_row; top_row]).1) 50) = Some GRADE_STATE_COMPUTED) as X by by vm_compute.
    rewrite P in X. by injection X.
Defined.

(** A sheet ceiling hides a figure.  A subsumed row with a witnessed figure at an
    entity charges it; subsumed next to a row whose only claim on that entity is a
    larger sheet ceiling, the figure is replaced by the ceiling, and the entity is
    charged nothing. *)
Theorem sheet_ceiling_hides_figure :
  (exposure_usd (grade (inject_Z 1000000) (subsume [top_row; flow_row]).1) ≫= fun e => Some (Qred e)) = Some (inject_Z 1800000050) /\
  (exposure_usd (grade (inject_Z 1000000) (subsume [top_row; flow_row; code_row]).1) ≫= fun e => Some (Qred e)) = Some (inject_Z 1800000000) /\
  List.map gap_excluded (exposure_gaps (grade (inject_Z 1000000) (subsume [top_row; flow_row; code_row]).1)) = [["k2"]].
Proof. by vm_compute. Qed.
