(* ===== verification/Value.v ===== *)
(** * The value plane ([services/scoring/planes/value.py])

    What an entity's balance sheet proves in dollars: the reduction of balance
    rows to one reading per asset, the fold of implementations onto proxies, the
    state of a sheet and its total, and the ceiling a sheet can bound.

    - A nested dict is a finite map of finite maps; the code only asks [any], [all]
      and sums of it, so the order is immaterial.
    - A balance row carries its price and quantity parsed ([_float], [None] where
      the text is not a number).
    - [_alias_fixed_point] runs on two more steps than there are aliases; [None] is
      running out, which never happens ([alias_fixed_point_total]). *)

From stdpp Require Import base gmap sets list strings sorting.
From Stdlib Require Import String Ascii ZArith QArith Qround Qminmax Lia Lqa.
From S2P Require Import Prelude PyText EvalContext Planes ScoreModel Signals Units Grade.

Local Open Scope string_scope.

Inductive asset_state := ASSET_PRICED | ASSET_BELOW_RESOLUTION | ASSET_PROVEN_ZERO | ASSET_UNPRICED | ASSET_AIRDROP_DELIVERED.
#[export] Instance asset_state_eq_dec : EqDecision asset_state.
Proof. solve_decision. Defined.

Inductive sheet := SHEET_PRICED | SHEET_BELOW_RESOLUTION | SHEET_UNPRICED | SHEET_PROVEN_EMPTY | SHEET_NO_ROWS | SHEET_AIRDROP_DETERMINED.
#[export] Instance sheet_eq_dec : EqDecision sheet.
Proof. solve_decision. Defined.

Definition NATIVE_ASSET : string := "native".

(** [_round_presented] *)
Definition round_presented (value : Q) : Q :=
  let rounded := py_round 6 value in if negb (Qeq_bool rounded 0) || Qeq_bool value 0 then rounded else value.

(** ** Balance rows *)

Record BalanceRow := MkBalance {
  b_id : Z;
  b_block : option Z;
  b_fetched_at : option Z;
  b_usd : option Q;
  b_quantity : option Q;
}.

(** [_write_order], strictly: rows never fetched come first. *)
Definition write_order_lt (x y : BalanceRow) : bool :=
  match b_fetched_at x, b_fetched_at y with
  | None, Some _ => true
  | Some _, None => false
  | None, None => (b_id x <? b_id y)%Z
  | Some s, Some t => if (s =? t)%Z then (b_id x <? b_id y)%Z else (s <? t)%Z
  end.

Definition block_order_lt (x y : BalanceRow) : bool :=
  let bx := default 0%Z (b_block x) in let by_ := default 0%Z (b_block y) in
  if (bx =? by_)%Z then write_order_lt x y else (bx <? by_)%Z.

(** [max(rows, key=...)]: the first of the greatest. *)
Definition max_row (lt : BalanceRow -> BalanceRow -> bool) (r : BalanceRow) (rows : list BalanceRow) : BalanceRow :=
  foldl (fun best x => if lt best x then x else best) r rows.

(** [_latest_observation] of a non-empty list, and whether a height decided it. *)
Definition latest_observation (r : BalanceRow) (rows : list BalanceRow) : BalanceRow * bool :=
  match rows with
  | [] => (r, is_some (b_block r))
  | _ => if forallb (fun x => is_some (b_block x)) (r :: rows) then (max_row block_order_lt r rows, true)
         else (max_row write_order_lt r rows, false)
  end.

(** [_asset_reading], with [_is_proven_zero_quantity] *)
Definition asset_reading (row : BalanceRow) : option Q * asset_state :=
  match b_usd row with
  | None => (None, ASSET_UNPRICED)
  | Some usd =>
      if negb (Qeq_bool usd 0) then (Some usd, ASSET_PRICED)
      else match b_quantity row with
           | Some q => if Qeq_bool q 0 then (Some 0%Q, ASSET_PROVEN_ZERO) else (None, ASSET_BELOW_RESOLUTION)
           | None => (None, ASSET_BELOW_RESOLUTION)
           end
  end.

Definition any_state (s : asset_state) (readings : list (option Q * asset_state)) : bool := existsb (fun r => bool_decide (r.2 = s)) readings.

Definition q_max (x : Q) (l : list Q) : Q := foldl Qmax x l.

(** The current readings of a bucket, by account. *)
Definition account_readings (accounts : list (string * list BalanceRow)) : list (option Q * asset_state) :=
  omap (fun a => match a.2 with [] => None | r :: rows => Some (asset_reading (latest_observation r rows).1) end) accounts.

(** One bucket of [_reduce_observations]: the accounts of an entity's asset. *)
Definition reduce_bucket (accounts : list (string * list BalanceRow)) : asset_state * option Q :=
  let readings := account_readings accounts in
  let determined := omap fst readings in
  if any_state ASSET_PRICED readings then
    (ASSET_PRICED,
     Some (match determined with
           | [] => 0%Q
           | x :: l => if bool_decide ("" ∈ accounts.*1) && (1 <? List.length accounts)%nat then q_max x l else q_sum (x :: l)
           end))
  else if any_state ASSET_BELOW_RESOLUTION readings then (ASSET_BELOW_RESOLUTION, None)
  else if any_state ASSET_UNPRICED readings then (ASSET_UNPRICED, None)
  else (ASSET_PROVEN_ZERO, Some 0%Q).

Notation table A := (gmap string (gmap string A)).

Definition put2 {A} (key asset : string) (v : A) (m : table A) : table A := <[key := <[asset := v]> (default ∅ (m !! key))]> m.

Definition reduce_step (st : table Q * table asset_state) (o : string * string * list (string * list BalanceRow)) : table Q * table asset_state :=
  let '(key, asset, accounts) := o in
  let '(state, value) := reduce_bucket accounts in
  (match value with Some v => put2 key asset (round_presented v) st.1 | None => st.1 end, put2 key asset state st.2).

(** [_reduce_observations]: the priced readings and the states. *)
Definition reduce_observations (observations : list (string * string * list (string * list BalanceRow))) : table Q * table asset_state :=
  foldl reduce_step (∅, ∅) observations.

(** ** Implementations and proxies *)

(** [_alias_fixed_point] for one key; [Some None] is [AliasCycleError]. *)
Fixpoint alias_climb (fuel : nat) (alias : gmap string string) (seen : list string) (current : string) : option (option string) :=
  match fuel with
  | O => None
  | S fuel =>
      match alias !! current with
      | Some next =>
          if String.eqb next current then Some (Some current)
          else if bool_decide (current ∈ seen) then Some None
          else alias_climb fuel alias (current :: seen) next
      | None => Some (Some current)
      end
  end.

Definition alias_fuel (alias : gmap string string) : nat := S (S (size alias)).

Definition alias_target (alias : gmap string string) (key : string) : option (option string) :=
  match alias !! key with Some next => alias_climb (alias_fuel alias) alias [key] next | None => Some (Some key) end.

(** The whole map, or the cycle's exception. *)
Definition alias_fixed_point (alias : gmap string string) : option (option (gmap string string)) :=
  foldr (fun key acc =>
           m ← acc;
           t ← alias_target alias key;
           Some (match m, t with Some m, Some target => Some (<[key := target]> m) | _, _ => None end))
    (Some (Some ∅)) (sorted_keys alias).

Record ContractPointer := MkPointer { cp_chain : option string; cp_address : option string; cp_implementation : option string }.

Definition pointer_keys (row : ContractPointer) : option (string * string) :=
  match cp_implementation row with
  | None => None
  | Some impl =>
      if String.eqb impl "" then None
      else let chain := coalesce_chain (cp_chain row) in Some (entity_key (Some chain) (Some impl), entity_key (Some chain) (cp_address row))
  end.

Definition impl_proxies (rows : list ContractPointer) (impl : string) : gset string :=
  list_to_set (omap (fun r => match pointer_keys r with Some (i, p) => if String.eqb i impl then Some p else None | None => None end) rows).

Definition impl_to_proxy (rows : list ContractPointer) : gmap string string :=
  foldl (fun m r => match pointer_keys r with Some (i, p) => <[i := p]> m | None => m end) ∅ rows.

Definition ambiguous_impls (rows : list ContractPointer) : gset string :=
  filter (fun impl => (1 < size (impl_proxies rows impl))%nat) (dom (impl_to_proxy rows)).

(** [_implementation_alias] *)
Definition implementation_alias (rows : list ContractPointer) : option (option (gmap string string) * gset string) :=
  let ambiguous := ambiguous_impls rows in
  m ← alias_fixed_point (filter (fun kv => kv.1 ∉ ambiguous) (impl_to_proxy rows));
  Some (m, ambiguous).

(** ** The plane *)

Record ValuePlane := MkPlane {
  per_asset : table Q;
  per_asset_state : table asset_state;
  native_fact : gmap string string;
  asset_set_truncated : gset string;
  asset_set_proven_complete : gset string;
  asset_set_accounts_unscanned : gmap string (list string);
  typed_receipts_unresolved : gmap string (list pyval);
  alias : gmap string string;
  alias_ambiguous : gset string;
  unpriced_positions : gmap string (list (string * Q));
}.

Definition canonical (p : ValuePlane) (key : string) : string := default key (alias p !! key).

(** A list of the plane that is there and not empty. *)
Definition listed_at {A} (m : gmap string (list A)) (key : string) : bool := match m !! key with Some (_ :: _) => true | _ => false end.

Definition asset_set_is_truncated (p : ValuePlane) (key : string) : bool := bool_decide (canonical p key ∈ asset_set_truncated p).

Inductive empty_refusal := EMPTY_REFUSED_TYPED_RECEIPT_UNRESOLVED | EMPTY_REFUSED_UNSCANNED_ACCOUNT
  | EMPTY_REFUSED_ASSET_SET_NOT_PROVEN_COMPLETE | EMPTY_REFUSED_UNPRICED_POSITIONS.

Definition proven_empty_refusal (p : ValuePlane) (key : string) : option empty_refusal :=
  let key := canonical p key in
  if listed_at (typed_receipts_unresolved p) key then Some EMPTY_REFUSED_TYPED_RECEIPT_UNRESOLVED
  else if negb (bool_decide (key ∈ asset_set_proven_complete p)) then
    Some (if listed_at (asset_set_accounts_unscanned p) key then EMPTY_REFUSED_UNSCANNED_ACCOUNT else EMPTY_REFUSED_ASSET_SET_NOT_PROVEN_COMPLETE)
  else if listed_at (unpriced_positions p) key then Some EMPTY_REFUSED_UNPRICED_POSITIONS
  else None.

Inductive disposition_refused := DISPOSITION_REFUSED_TYPED_RECEIPT_UNRESOLVED | DISPOSITION_REFUSED_ASSET_LIST_TRUNCATED
  | DISPOSITION_REFUSED_UNSCANNED_ACCOUNT | DISPOSITION_REFUSED_UNPRICED_POSITIONS.

Definition disposition_refusal (p : ValuePlane) (key : string) : option disposition_refused :=
  let key := canonical p key in
  if listed_at (typed_receipts_unresolved p) key then Some DISPOSITION_REFUSED_TYPED_RECEIPT_UNRESOLVED
  else if bool_decide (key ∈ asset_set_truncated p) then Some DISPOSITION_REFUSED_ASSET_LIST_TRUNCATED
  else if listed_at (asset_set_accounts_unscanned p) key then Some DISPOSITION_REFUSED_UNSCANNED_ACCOUNT
  else if listed_at (unpriced_positions p) key then Some DISPOSITION_REFUSED_UNPRICED_POSITIONS
  else None.

Definition values_at (p : ValuePlane) (key : string) : list Q := (map_to_list (default ∅ (per_asset p !! key))).*2.
Definition states_at (p : ValuePlane) (key : string) : list asset_state := (map_to_list (default ∅ (per_asset_state p !! key))).*2.

Definition has_state (s : asset_state) (states : list asset_state) : bool := existsb (fun x => bool_decide (x = s)) states.

Definition sheet_state (p : ValuePlane) (key : string) : sheet :=
  let key := canonical p key in
  let values := values_at p key in
  let states := states_at p key in
  if has_state ASSET_PRICED states || existsb (fun v => negb (Qeq_bool v 0)) values then SHEET_PRICED
  else if has_state ASSET_BELOW_RESOLUTION states then SHEET_BELOW_RESOLUTION
  else if has_state ASSET_UNPRICED states then SHEET_UNPRICED
  else if has_state ASSET_AIRDROP_DELIVERED states
          && forallb (fun s => bool_decide (s = ASSET_AIRDROP_DELIVERED) || bool_decide (s = ASSET_PROVEN_ZERO)) states then
    match disposition_refusal p key with None => SHEET_AIRDROP_DETERMINED | Some _ => SHEET_UNPRICED end
  else if negb (match values with [] => true | _ => false end) || has_state ASSET_PROVEN_ZERO states then
    match proven_empty_refusal p key with None => SHEET_PROVEN_EMPTY | Some _ => SHEET_UNPRICED end
  else if listed_at (typed_receipts_unresolved p) key then SHEET_UNPRICED
  else SHEET_NO_ROWS.

Definition total (p : ValuePlane) (key : string) : option Q :=
  match sheet_state p key with
  | SHEET_PROVEN_EMPTY | SHEET_AIRDROP_DETERMINED => Some 0%Q
  | SHEET_BELOW_RESOLUTION | SHEET_UNPRICED | SHEET_NO_ROWS => None
  | SHEET_PRICED => Some (round_presented (q_sum (values_at p (canonical p key))))
  end.

Definition trimming_total (p : ValuePlane) (key : string) : option Q :=
  match sheet_state p key with SHEET_AIRDROP_DETERMINED => None | _ => total p key end.

Definition tracked_total (p : ValuePlane) : Q :=
  py_round 2 (q_sum (omap (total p) (elements (dom (per_asset p) ∪ dom (per_asset_state p))))).

(** [native_value_state] of [provenance.py] *)
Definition native_value_state (p : ValuePlane) (key : string) : option Q :=
  let key := canonical p key in
  match default ∅ (per_asset p !! key) !! NATIVE_ASSET with
  | Some held => Some held
  | None => match native_fact p !! key with
            | Some fact => if starts_with "proven_zero" fact then Some 0%Q else None
            | None => None
            end
  end.

(** ** Ceilings *)

Inductive ceiling_reason := CEILING_ADMITTED | CEILING_PROVEN_EMPTY | CEILING_AIRDROP_DETERMINED | CEILING_NO_ROWS | CEILING_BELOW_RESOLUTION
  | CEILING_UNPRICED | CEILING_ASSET_LIST_TRUNCATED | CEILING_ALIAS_AMBIGUOUS.
#[export] Instance ceiling_reason_eq_dec : EqDecision ceiling_reason.
Proof. solve_decision. Defined.

Definition CEILING_ADMITTING_REASONS : list ceiling_reason := [CEILING_ADMITTED; CEILING_PROVEN_EMPTY; CEILING_AIRDROP_DETERMINED].

(** [ceiling_for] *)
Definition ceiling_for (p : ValuePlane) (key : string) : option Q * ceiling_reason :=
  if bool_decide (key ∈ alias_ambiguous p) then (None, CEILING_ALIAS_AMBIGUOUS)
  else if asset_set_is_truncated p key then (None, CEILING_ASSET_LIST_TRUNCATED)
  else match sheet_state p key with
       | SHEET_PRICED => (total p key, CEILING_ADMITTED)
       | SHEET_PROVEN_EMPTY => (Some 0%Q, CEILING_PROVEN_EMPTY)
       | SHEET_AIRDROP_DETERMINED => (Some 0%Q, CEILING_AIRDROP_DETERMINED)
       | SHEET_NO_ROWS => (None, CEILING_NO_ROWS)
       | SHEET_BELOW_RESOLUTION => (None, CEILING_BELOW_RESOLUTION)
       | SHEET_UNPRICED => (None, CEILING_UNPRICED)
       end.
