(* ===== verification/Balances.v ===== *)
(** * Balance observations ([services/monitoring/balance_reads.py], [balance_observation.py], [balance_collection.py])

    Who owns a balance read and what it leaves behind: the leases of
    [balance_collection_state], the insert-only fetches with their rows, the
    retention prune, and the readers that choose which fetch is current.

    - Times are microseconds.  A database clock and a fresh owner token are
      arguments of the operation that reads them.
    - A subject's columns ([contract_id] or [(entity_chain, entity_address)], one of
      them by a CHECK) are a [SubjectKey].
    - [session.add] gives the next id; a deleted fetch takes its rows with it
      ([ON DELETE CASCADE]).  An operation that raises commits nothing: [None].
    - [claim_read] reads once without a lock and, when the read is due, once more
      under it: [claim_peek] and [claim_locked], between which other transactions
      may commit.
    - A payload is the dataclass it was made from; [mark_protocol_score_dirty] is a
      hint that never fails its host and is recorded as the protocol it marks. *)

From stdpp Require Import base gmap sets list strings sorting pretty.
From Stdlib Require Import String Ascii ZArith QArith Lia.
From S2P Require Import Prelude PyText ScoreModel Grade.

Local Open Scope string_scope.

(** ** Status vocabularies ([utils/balance_status.py]) *)

Inductive native_status := NATIVE_UNATTEMPTED | NATIVE_STATUS_PROVEN_ZERO | NATIVE_STATUS_PROVEN_NONZERO | NATIVE_STATUS_FETCH_FAILED | NATIVE_STATUS_NOT_DETERMINED.
#[export] Instance native_status_eq_dec : EqDecision native_status.
Proof. solve_decision. Defined.

Inductive asset_set_status := ASSETS_UNATTEMPTED | ASSET_SET_STATUS_RETURNED_ASSETS | ASSET_SET_STATUS_RETURNED_EMPTY | ASSET_SET_STATUS_AT_PAGE_CAP | ASSET_SET_STATUS_FETCH_FAILED.
#[export] Instance asset_set_status_eq_dec : EqDecision asset_set_status.
Proof. solve_decision. Defined.

Inductive asset_set_source := ASSET_SET_SOURCE_ETHERSCAN_PAGES | ASSET_SET_SOURCE_CHAIN_LOG_SWEEP.
#[export] Instance asset_set_source_eq_dec : EqDecision asset_set_source.
Proof. solve_decision. Defined.

Inductive sweep_status := SWEEP_STATUS_COMPLETED | SWEEP_STATUS_FAILED.
#[export] Instance sweep_status_eq_dec : EqDecision sweep_status.
Proof. solve_decision. Defined.

Definition NATIVE_ACCEPTED_STATUSES : list native_status := [NATIVE_STATUS_PROVEN_ZERO; NATIVE_STATUS_PROVEN_NONZERO; NATIVE_STATUS_NOT_DETERMINED].
Definition ASSET_ACCEPTED_STATUSES : list asset_set_status := [ASSET_SET_STATUS_RETURNED_ASSETS; ASSET_SET_STATUS_RETURNED_EMPTY].
Definition ASSET_OBSERVED_STATUSES : list asset_set_status := (ASSET_ACCEPTED_STATUSES ++ [ASSET_SET_STATUS_AT_PAGE_CAP])%list.

Definition native_accepted (s : native_status) : bool := bool_decide (s ∈ NATIVE_ACCEPTED_STATUSES).
Definition asset_accepted (s : asset_set_status) : bool := bool_decide (s ∈ ASSET_ACCEPTED_STATUSES).
Definition asset_observed (s : asset_set_status) : bool := bool_decide (s ∈ ASSET_OBSERVED_STATUSES).
Definition at_page_cap (s : asset_set_status) : bool := bool_decide (s = ASSET_SET_STATUS_AT_PAGE_CAP).

Definition asset_snapshot_priority (s : asset_set_status) : Z := if asset_accepted s then 2 else if at_page_cap s then 1 else 0.

(** ** Subjects and rows *)

Inductive SubjectKey := OfContract (id : Z) | OfEntity (chain address : string).
#[export] Instance subject_key_eq_dec : EqDecision SubjectKey.
Proof. solve_decision. Defined.

Record ObservationSubject := MkSubject { s_key : SubjectKey; s_address : string }.

Definition of_contract (id : Z) (address : string) : ObservationSubject := MkSubject (OfContract id) address.
Definition of_entity (chain address : string) : ObservationSubject :=
  let address := str_lower address in MkSubject (OfEntity chain address) address.

Record Fetch := MkFetch {
  f_id : Z;
  f_subject : SubjectKey;
  f_chain_id : Z;
  f_observed_address : string;
  f_block : option Z;
  f_native : native_status;
  f_assets : asset_set_status;
  f_page_length : option Z;
  f_source : asset_set_source;
  f_basis : option string;
  f_sweep : option sweep_status;
  f_typed_assets : option pyval;
  f_swept_from : option Z;
  f_swept_through : option Z;
  f_writer : string;
  f_observed_at : option Z;
  f_fetched_at : Z;
}.

Inductive balance_source := FROM_ETHERSCAN_PAGES | FROM_CHAIN_LOG_SWEEP | BALANCE_SOURCE_PINNED_NATIVE_READ | BALANCE_SOURCE_UNPINNED_NATIVE_READ.

Record Balance := MkStored {
  sb_id : Z;
  sb_subject : SubjectKey;
  sb_token : option string;
  sb_token_name : option string;
  sb_token_symbol : option string;
  sb_decimals : Z;
  sb_decimals_known : option bool;
  sb_raw_balance : string;
  sb_price : option Q;
  sb_usd : option Q;
  sb_observed_address : option string;
  sb_block : option Z;
  sb_observed_at : option Z;
  sb_fetched_at : Z;
  sb_price_observed_at : option Z;
  sb_fetch_id : option Z;
  sb_source : option balance_source;
}.

Record Store := MkStore { fetches : list Fetch; balances : list Balance; next_fetch : Z; next_balance : Z }.

(** ** Retention *)

(** [balance_history_depth]; [None] is its [ValueError]. *)
Definition balance_history_depth (env : option string) : option nat :=
  match int_text 10 (default "10" env) with
  | Some depth => if (depth <? 1)%Z then None else Some (Z.to_nat depth)
  | None => None
  end.

(** [ORDER BY fetched_at DESC, id DESC] *)
Definition newer_first (x y : Fetch) : Prop := (f_fetched_at y < f_fetched_at x \/ (f_fetched_at x = f_fetched_at y /\ f_id y <= f_id x))%Z.
#[export] Instance newer_first_dec : RelDecision newer_first.
Proof. intros x y. unfold newer_first. apply _. Defined.

Definition group_of (key : SubjectKey) (observed : string) (f : Fetch) : bool :=
  bool_decide (f_subject f = key) && String.eqb (f_observed_address f) observed.

(** The first row of a class, which the loop over the statuses keeps. *)
Definition first_of_class (p : Fetch -> bool) (rows : list Fetch) : list Z :=
  match List.filter p rows with f :: _ => [f_id f] | [] => [] end.

Definition kept_ids (depth : nat) (rows : list Fetch) : list Z :=
  ((f_id <$> take depth rows) ++ first_of_class (fun f => native_accepted (f_native f)) rows
   ++ first_of_class (fun f => asset_accepted (f_assets f)) rows ++ first_of_class (fun f => at_page_cap (f_assets f)) rows)%list.

Definition doomed_ids (depth : nat) (rows : list Fetch) : list Z :=
  List.filter (fun i => negb (bool_decide (i ∈ kept_ids depth rows))) (f_id <$> rows).

Definition cascade (doomed : list Z) (b : Balance) : bool :=
  match sb_fetch_id b with Some i => negb (bool_decide (i ∈ doomed)) | None => true end.

(** [prune_balance_fetches] and the number of fetches it deleted. *)
Definition prune_balance_fetches (depth : nat) (subject : ObservationSubject) (observed : string) (st : Store) : nat * Store :=
  let rows := merge_sort newer_first (List.filter (group_of (s_key subject) observed) (fetches st)) in
  if (List.length rows <=? depth)%nat then (0%nat, st)
  else match doomed_ids depth rows with
       | [] => (0%nat, st)
       | doomed => (List.length doomed,
                    MkStore (List.filter (fun f => negb (bool_decide (f_id f ∈ doomed))) (fetches st))
                      (List.filter (cascade doomed) (balances st)) (next_fetch st) (next_balance st))
       end.

(** ** One observation *)

Record NativeReading := MkNative {
  nr_wei : option Z;
  nr_block : option Z;
  nr_failed : bool;
  nr_price : option Q;
  nr_symbol : string;
  nr_name : string;
  nr_attempted : bool;
  nr_observed_at : option Z;
  nr_price_observed_at : option Z;
}.

Record PageRow := MkPageRow {
  pr_token_address : string;
  pr_token_name : option string;
  pr_token_symbol : option string;
  pr_balance : Z;
  pr_decimals : option Z;
  pr_decimals_reported : bool;
  pr_price : option Q;
  pr_usd : option Q;
}.

Record TokenBalancePage := MkPage { pg_rows : list PageRow; pg_length : option Z; pg_status : asset_set_status; pg_basis : string }.

Definition native_status_for (wei : option Z) (pinned failed : bool) : native_status :=
  match wei with
  | None => NATIVE_STATUS_FETCH_FAILED
  | Some wei =>
      if failed then NATIVE_STATUS_FETCH_FAILED
      else if (0 <? wei)%Z then NATIVE_STATUS_PROVEN_NONZERO
      else if pinned then NATIVE_STATUS_PROVEN_ZERO else NATIVE_STATUS_NOT_DETERMINED
  end.

Definition native_balance_fact (s : native_status) (block : option Z) : string :=
  match s, block with
  | NATIVE_STATUS_PROVEN_ZERO, Some b => "proven_zero_at_block_" ++ pretty b
  | NATIVE_STATUS_PROVEN_NONZERO, Some b => "proven_nonzero_at_block_" ++ pretty b
  | NATIVE_STATUS_PROVEN_NONZERO, None => "nonzero_at_unrecorded_height"
  | _, _ => "not_determined"
  end.

Definition reading_status (native : NativeReading) : native_status :=
  if nr_attempted native then native_status_for (nr_wei native) (is_some (nr_block native)) (nr_failed native) else NATIVE_UNATTEMPTED.

(** The dollars stored beside a native quantity. *)
Definition native_usd (native : NativeReading) : option Q :=
  match nr_wei native with
  | None => None
  | Some wei =>
      if (wei =? 0)%Z && bool_decide (reading_status native = NATIVE_STATUS_PROVEN_ZERO) then Some 0%Q
      else match nr_price native with
           | None => None
           | Some price =>
               let value := (inject_Z wei / inject_Z (10 ^ 18) * price)%Q in
               if Qle_bool 0 value && Qlt_bool value (inject_Z (10 ^ 20)) then Some value else None
           end
  end.

Definition native_row (subject : ObservationSubject) (native : NativeReading) (when fetch id : Z) : option Balance :=
  match nr_wei native with
  | Some wei =>
      if nr_attempted native && negb (nr_failed native)
         && ((0 <? wei)%Z || bool_decide (reading_status native = NATIVE_STATUS_PROVEN_ZERO)) then
        Some (MkStored id (s_key subject) None (Some (nr_name native)) (Some (nr_symbol native)) 18 (Some true) (pretty wei) (nr_price native)
                (native_usd native) (Some (s_address subject)) (nr_block native) (Some (default when (nr_observed_at native))) when
                (if is_some (nr_price native) then nr_price_observed_at native else None) (Some fetch)
                (Some (if is_some (nr_block native) then BALANCE_SOURCE_PINNED_NATIVE_READ else BALANCE_SOURCE_UNPINNED_NATIVE_READ)))
      else None
  | None => None
  end.

Definition token_row (subject : ObservationSubject) (row : PageRow) (when fetch id : Z) : Balance :=
  let known := pr_decimals_reported row in
  let price := if known then pr_price row else None in
  MkStored id (s_key subject) (Some (str_lower (pr_token_address row))) (pr_token_name row) (pr_token_symbol row) (default 18%Z (pr_decimals row))
    (Some known) (pretty (pr_balance row)) price (if known then pr_usd row else None) (Some (s_address subject)) None (Some when) when
    (if is_some price then Some when else None) (Some fetch) (Some FROM_ETHERSCAN_PAGES).

(** The page's holdings, unless the read failed or was not made. *)
Definition page_holdings (page : TokenBalancePage) : list PageRow :=
  match pg_status page with
  | ASSET_SET_STATUS_FETCH_FAILED | ASSETS_UNATTEMPTED => []
  | _ => List.filter (fun r => (0 <? pr_balance r)%Z) (pg_rows page)
  end.

Definition written_rows (subject : ObservationSubject) (native : NativeReading) (page : TokenBalancePage) (when fetch first : Z) : list Balance :=
  let own := match native_row subject native when fetch first with Some b => [b] | None => [] end in
  (own ++ imap (fun i r => token_row subject r when fetch (first + Z.of_nat (List.length own + i))) (page_holdings page))%list.

Record Observation := MkObservation {
  o_subject : ObservationSubject;
  o_chain_id : Z;
  o_native : NativeReading;
  o_page : TokenBalancePage;
  o_writer : string;
  o_when : Z;
}.

Definition fetch_of (o : Observation) (id : Z) : Fetch :=
  MkFetch id (s_key (o_subject o)) (o_chain_id o) (s_address (o_subject o)) (nr_block (o_native o)) (reading_status (o_native o))
    (pg_status (o_page o)) (pg_length (o_page o)) ASSET_SET_SOURCE_ETHERSCAN_PAGES (Some (pg_basis (o_page o))) None None None None
    (o_writer o) (Some (o_when o)) (o_when o).

(** The rows of an observation, before the prune. *)
Definition insert_observation (o : Observation) (st : Store) : Store :=
  let rows := written_rows (o_subject o) (o_native o) (o_page o) (o_when o) (next_fetch st) (next_balance st) in
  MkStore (fetches st ++ [fetch_of o (next_fetch st)])%list (balances st ++ rows)%list (next_fetch st + 1)
    (next_balance st + Z.of_nat (List.length rows)).

(** [record_observation] *)
Definition record_observation (env : option string) (o : Observation) (st : Store) : option Store :=
  depth ← balance_history_depth env;
  Some (prune_balance_fetches depth (o_subject o) (s_address (o_subject o)) (insert_observation o st)).2.

(** ** Which fetch is current *)

Definition accepted_first (x y : Fetch) : Prop :=
  let px := asset_accepted (f_assets x) in let py := asset_accepted (f_assets y) in
  (px = true /\ py = false) \/ (px = py /\ newer_first x y).
#[export] Instance accepted_first_dec : RelDecision accepted_first.
Proof. intros x y. unfold accepted_first. apply _. Defined.

(** [DISTINCT ON] keeps the first row of the order. *)
Definition top (R : Fetch -> Fetch -> Prop) `{RelDecision Fetch Fetch R} (rows : list Fetch) : option Fetch := head (merge_sort R rows).

Definition of_subject (key : SubjectKey) (p : Fetch -> bool) (fs : list Fetch) : list Fetch :=
  List.filter (fun f => bool_decide (f_subject f = key) && p f) fs.

(** [winning_asset_fetches] and [winning_entity_asset_fetches], for one subject *)
Definition asset_winner (fs : list Fetch) (key : SubjectKey) : option Fetch := top accepted_first (of_subject key (fun f => asset_observed (f_assets f)) fs).

(** [latest_partial_asset_fetches] and the entities', for one subject *)
Definition latest_partial (fs : list Fetch) (key : SubjectKey) : option Fetch :=
  row ← top newer_first (of_subject key (fun f => at_page_cap (f_assets f)) fs);
  match asset_winner fs key with
  | None => Some row
  | Some w => if bool_decide (newer_first row w) then Some row else None
  end.

Definition native_winner (fs : list Fetch) (key : SubjectKey) : option Fetch :=
  top newer_first (of_subject key (fun f => native_accepted (f_native f)) fs).

(** The view [contract_balances_latest]: the class a row belongs to, and its fetch. *)
Definition class_winner (fs : list Fetch) (b : Balance) : option Fetch :=
  match sb_token b with None => native_winner fs (sb_subject b) | Some _ => asset_winner fs (sb_subject b) end.

Definition in_latest_view (fs : list Fetch) (b : Balance) : bool :=
  match sb_fetch_id b, class_winner fs b with
  | Some i, Some f => (i =? f_id f)%Z
  | None, None => true
  | _, _ => false
  end.

Definition contract_balances_latest (st : Store) : list Balance := List.filter (in_latest_view (fetches st)) (balances st).

Definition partial_asset_rows (st : Store) (key : SubjectKey) : list Balance :=
  match latest_partial (fetches st) key with
  | Some f => List.filter (fun b => bool_decide (sb_fetch_id b = Some (f_id f)) && is_some (sb_token b)) (balances st)
  | None => []
  end.

Definition has_native_row (st : Store) (fetch : Z) : bool :=
  existsb (fun b => bool_decide (sb_fetch_id b = Some fetch) && negb (is_some (sb_token b))) (balances st).

(** [contracts_missing_current_rows], for one contract *)
Definition missing_current_rows (st : Store) (contract : Z) : bool :=
  let key := OfContract contract in
  match of_subject key (fun _ => true) (fetches st) with
  | [] => false
  | _ => match native_winner (fetches st) key, top newer_first (of_subject key (fun f => asset_observed (f_assets f)) (fetches st)) with
         | Some n, Some _ => bool_decide (f_native n = NATIVE_STATUS_PROVEN_NONZERO) && negb (has_native_row st (f_id n))
         | _, _ => true
         end
  end.
