(* ===== verification/BalancesTheory.v ===== *)
(** * Retention is invisible

    The store of balance fetches keeps a bounded history; every reader of it
    answers as if nothing had ever been deleted. *)

From stdpp Require Import base gmap sets list strings sorting pretty.
From Stdlib Require Import String Ascii ZArith QArith Lia.
From S2P Require Import Prelude PyText ScoreModel Grade Balances.

Local Open Scope string_scope.

(** ** The first row of an order *)

#[export] Instance newer_first_total : Total newer_first.
Proof. intros x y. unfold newer_first. lia. Qed.
#[export] Instance newer_first_trans : Transitive newer_first.
Proof. intros x y z. unfold newer_first. lia. Qed.
#[export] Instance accepted_first_total : Total accepted_first.
Proof. intros x y. unfold accepted_first, newer_first. destruct (asset_accepted (f_assets x)), (asset_accepted (f_assets y)); try tauto; lia. Qed.
#[export] Instance accepted_first_trans : Transitive accepted_first.
Proof.
  intros x y z. unfold accepted_first, newer_first.
  destruct (asset_accepted (f_assets x)), (asset_accepted (f_assets y)), (asset_accepted (f_assets z)); intuition (try congruence; lia).
Qed.

Lemma newer_first_antisym x y : newer_first x y -> newer_first y x -> f_id x = f_id y.
Proof. unfold newer_first. lia. Qed.

Lemma accepted_first_antisym x y : accepted_first x y -> accepted_first y x -> f_id x = f_id y.
Proof. unfold accepted_first. intros [[]|[]] [[]|[]]; try congruence. by apply newer_first_antisym. Qed.

Section top.
Context (R : Fetch -> Fetch -> Prop) `{!RelDecision R, !Total R, !Transitive R}.

Lemma top_spec l x : top R l = Some x -> x ∈ l /\ forall y, y ∈ l -> R x y.
Proof.
  unfold top. intros E. assert (P := merge_sort_Permutation R l).
  assert (S := StronglySorted_merge_sort R l). destruct (merge_sort R l) as [|a l'] eqn:M; [done|]. injection E as ->.
  apply StronglySorted_inv in S as [_ F]. rewrite Forall_forall in F. split; [rewrite <-P; set_solver|].
  intros y Hy. rewrite <-P in Hy. apply elem_of_cons in Hy as [->|Hy]; [|by apply F]. by destruct (total R x x).
Qed.

Lemma top_none l : top R l = None -> l = [].
Proof. unfold top. intros E. assert (P := merge_sort_Permutation R l). destruct (merge_sort R l); [by apply Permutation_nil in P|done]. Qed.

Context (antisym : forall x y, R x y -> R y x -> f_id x = f_id y).

Lemma top_unique l x : (forall y z, y ∈ l -> z ∈ l -> f_id y = f_id z -> y = z) -> x ∈ l -> (forall y, y ∈ l -> R x y) -> top R l = Some x.
Proof.
  intros inj Hx Hmin. destruct (top R l) as [y|] eqn:E; [|apply top_none in E as ->; set_solver].
  apply top_spec in E as [Hy Hmin']. f_equal. apply inj; auto.
Qed.

(** Deleting rows each of which leaves a better one does not change the first. *)
Lemma top_filter l keep : (forall y z, y ∈ l -> z ∈ l -> f_id y = f_id z -> y = z) ->
  (forall f, f ∈ l -> keep f = false -> exists g, g ∈ l /\ keep g = true /\ R g f) -> top R (List.filter keep l) = top R l.
Proof.
  intros inj better. assert (In : forall f, f ∈ List.filter keep l <-> f ∈ l /\ keep f = true) by (intros f; by rewrite !list_elem_of_In, filter_In).
  destruct (top R (List.filter keep l)) as [x|] eqn:E.
  - apply top_spec in E as [Hx Hmin]. apply In in Hx as [Hx Kx]. symmetry. apply top_unique; [done..|].
    intros y Hy. destruct (keep y) eqn:K; [by apply Hmin, In|].
    destruct (better y Hy K) as (g & Hg & Kg & Rg). transitivity g; [by apply Hmin, In|done].
  - apply top_none in E. destruct l as [|f l]; [done|]. exfalso.
    assert (exists g, g ∈ List.filter keep (f :: l)) as [g Hg]; [|rewrite E in Hg; set_solver].
    destruct (keep f) eqn:K; [exists f; apply In; set_solver|].
    destruct (better f) as (g & ? & ? & _); [set_solver|done|]. exists g. by apply In.
Qed.
End top.

(** ** The log and the store that forgets *)

Definition ids_unique (fs : list Fetch) : Prop := forall f g, f ∈ fs -> g ∈ fs -> f_id f = f_id g -> f = g.

(** A store whose ids are the table's keys. *)
Definition store_ok (st : Store) : Prop := NoDup (f_id <$> fetches st) /\ forall f, f ∈ fetches st -> (f_id f < next_fetch st)%Z.

Lemma ids_unique_NoDup fs : NoDup (f_id <$> fs) -> ids_unique fs.
Proof.
  intros N f g Hf Hg E. apply list_elem_of_lookup in Hf as [i Hi], Hg as [j Hj].
  assert (i = j) as ->; [|congruence]. eapply NoDup_lookup; [exact N|rewrite list_lookup_fmap, Hi; done|]. rewrite list_lookup_fmap, Hj. cbn. congruence.
Qed.

(** The classes a reader chooses from. *)
Definition reader_class (p : Fetch -> bool) : Prop :=
  p = (fun _ => true) \/ p = (fun f => native_accepted (f_native f)) \/ p = (fun f => asset_accepted (f_assets f)) \/ p = (fun f => at_page_cap (f_assets f)).

Definition kept (dropped : list Z) (f : Fetch) : bool := negb (bool_decide (f_id f ∈ dropped)).

(** Each deleted fetch leaves a newer one of its subject in each of its classes. *)
Definition harmless (dropped : list Z) (fs : list Fetch) : Prop := forall f p, f ∈ fs -> kept dropped f = false -> reader_class p -> p f = true ->
  exists g, g ∈ fs /\ kept dropped g = true /\ p g = true /\ f_subject g = f_subject f /\ f_observed_address g = f_observed_address f /\ newer_first g f.

Definition forgets (log st : Store) : Prop := exists dropped,
  fetches st = List.filter (kept dropped) (fetches log) /\ balances st = List.filter (cascade dropped) (balances log) /\
  next_fetch st = next_fetch log /\ next_balance st = next_balance log /\
  store_ok log /\ (forall i, i ∈ dropped -> i < next_fetch log)%Z /\ harmless dropped (fetches log).

Lemma elem_filter {A} (p : A -> bool) l x : x ∈ List.filter p l <-> x ∈ l /\ p x = true.
Proof. by rewrite !list_elem_of_In, filter_In. Qed.

Lemma filter_filter {A} (p q : A -> bool) l : List.filter p (List.filter q l) = List.filter (fun x => q x && p x) l.
Proof. induction l as [|x l IH]; [done|]. cbn. destruct (q x) eqn:Q; cbn; [destruct (p x)|]; by rewrite ?IH. Qed.

Lemma filter_same {A} (p q : A -> bool) l : (forall x, x ∈ l -> p x = q x) -> List.filter p l = List.filter q l.
Proof. intros E. apply filter_ext_in. intros x Hx. apply E. by apply list_elem_of_In. Qed.

Lemma filter_keeps {A} (p : A -> bool) l : (forall x, x ∈ l -> p x = true) -> List.filter p l = l.
Proof. intros E. induction l as [|x l IH]; [done|]. cbn. rewrite (E x) by set_solver. f_equal. apply IH. set_solver. Qed.

Lemma of_subject_filter key p keep fs : of_subject key p (List.filter keep fs) = List.filter keep (of_subject key p fs).
Proof. unfold of_subject. rewrite !filter_filter. apply filter_same. intros x _. by rewrite andb_comm. Qed.

Lemma of_subject_elem key p fs f : f ∈ of_subject key p fs <-> f ∈ fs /\ f_subject f = key /\ p f = true.
Proof. unfold of_subject. rewrite elem_filter, andb_true_iff, bool_decide_eq_true. tauto. Qed.

Lemma forgets_refl st : store_ok st -> forgets st st.
Proof.
  intros ok. exists []. assert (K : forall f, kept [] f = true) by (intros f; unfold kept; by rewrite bool_decide_false by set_solver).
  repeat split; [..|by destruct ok|by destruct ok|set_solver|intros f p _ H; by rewrite K in H].
  - symmetry. apply filter_keeps. auto.
  - symmetry. apply filter_keeps. intros b _. unfold cascade. destruct (sb_fetch_id b); [|done]. by rewrite bool_decide_false by set_solver.
Qed.

(** ** Each step *)

Lemma written_rows_fetch s n g when fetch first b : b ∈ written_rows s n g when fetch first -> sb_fetch_id b = Some fetch.
Proof.
  unfold written_rows. rewrite elem_of_app. intros [H|H].
  - destruct (native_row s n when fetch first) as [c|] eqn:E; [|set_solver]. apply list_elem_of_singleton in H as ->. unfold native_row in E.
    destruct (nr_wei n); [|done]. by case_match; simplify_eq.
  - apply elem_of_lookup_imap in H as (i & r & -> & _). done.
Qed.

Lemma insert_forgets o log st : forgets log st -> forgets (insert_observation o log) (insert_observation o st).
Proof.
  intros (dropped & F & B & N & NB & ok & below & H). destruct ok as [U lt]. exists dropped.
  set (f := fetch_of o (next_fetch log)). assert (Kf : kept dropped f = true).
  { unfold kept. rewrite bool_decide_false; [done|]. intros Hf. apply below in Hf. cbn in Hf. lia. }
  unfold insert_observation; cbn [fetches balances next_fetch next_balance]. rewrite N, NB. repeat split.
  - rewrite F, List.filter_app. cbn [List.filter]. fold f. by rewrite Kf.
  - rewrite B, List.filter_app. f_equal. symmetry. apply filter_keeps. intros b Hb. apply written_rows_fetch in Hb.
    unfold cascade. rewrite Hb. exact Kf.
  - cbn [fetches]. rewrite fmap_app. apply NoDup_app. split; [done|]. split; [|apply NoDup_singleton].
    intros i Hi Hn. apply list_elem_of_fmap in Hi as (x & -> & Hx). apply lt in Hx. apply list_elem_of_singleton in Hn. cbn in Hn. lia.
  - intros x Hx. cbn [fetches] in Hx. rewrite elem_of_app, list_elem_of_singleton in Hx. destruct Hx as [Hx| ->]; [apply lt in Hx|]; cbn; lia.
  - intros i Hi. apply below in Hi. lia.
  - intros x p Hx K P px. rewrite elem_of_app, list_elem_of_singleton in Hx. destruct Hx as [Hx| ->]; [|fold f in K; congruence].
    destruct (H x p Hx K P px) as (g & Hg & rest). exists g. split; [set_solver|done].
Qed.

Lemma first_of_class_kept depth rows p f : reader_class p -> (1 <= depth)%nat -> StronglySorted newer_first rows -> f ∈ rows -> p f = true ->
  exists g, g ∈ rows /\ p g = true /\ f_id g ∈ kept_ids depth rows /\ newer_first g f.
Proof.
  intros P D S Hf pf. assert (exists g l, List.filter p rows = g :: l) as (g & l & E).
  { destruct (List.filter p rows) eqn:E; [|eauto]. assert (f ∈ List.filter p rows) as Hn by (by apply elem_filter). rewrite E in Hn. set_solver. }
  assert (g ∈ rows /\ p g = true) as [Hg pg] by (apply elem_filter; rewrite E; set_solver).
  assert (newer_first g f) as Hgf.
  { assert (Sp : StronglySorted newer_first (g :: l)).
    { rewrite <-E. clear -S. induction S as [|x xs S IH F]; cbn; [constructor|]. destruct (p x); [|done]. constructor; [done|].
      rewrite Forall_forall in *. intros y Hy. apply elem_filter in Hy as [Hy _]. auto. }
    apply StronglySorted_inv in Sp as [_ F]. rewrite Forall_forall in F.
    assert (f ∈ g :: l) as [->|Hl]%elem_of_cons by (rewrite <-E; by apply elem_filter); [|by apply F]. by destruct (total newer_first g g). }
  exists g. repeat split; [done..| |done]. unfold kept_ids. rewrite !elem_of_app.
  assert (First : f_id g ∈ first_of_class p rows) by (unfold first_of_class; rewrite E; set_solver).
  destruct P as [->|[->|[->| ->]]]; [|tauto..]. left. rewrite (filter_keeps (fun _ => true) rows) in E by done. subst rows.
  destruct depth as [|depth]; [lia|]. cbn. set_solver.
Qed.

Lemma kept_app d1 d2 f : kept (d1 ++ d2)%list f = kept d1 f && kept d2 f.
Proof. unfold kept. rewrite <-negb_orb. f_equal. apply eq_bool_prop_intro. rewrite orb_True, !bool_decide_spec. apply elem_of_app. Qed.

Lemma prune_eq depth s observed st : (prune_balance_fetches depth s observed st).2 = st \/ exists rows,
  rows = merge_sort newer_first (List.filter (group_of (s_key s) observed) (fetches st)) /\
  (prune_balance_fetches depth s observed st).2 =
    MkStore (List.filter (kept (doomed_ids depth rows)) (fetches st)) (List.filter (cascade (doomed_ids depth rows)) (balances st)) (next_fetch st) (next_balance st).
Proof.
  unfold prune_balance_fetches. set (rows := merge_sort _ _). destruct (_ <=? _)%nat; [by left|].
  destruct (doomed_ids depth rows) as [|i l] eqn:E; [by left|]. right. exists rows. rewrite E. done.
Qed.

Lemma prune_forgets depth s observed log st : (1 <= depth)%nat -> forgets log st -> forgets log (prune_balance_fetches depth s observed st).2.
Proof.
  intros D (dropped & F & B & N & NB & ok & below & H). destruct (prune_eq depth s observed st) as [->|(rows & Er & ->)]; [by exists dropped|].
  set (doomed := doomed_ids depth rows). exists (dropped ++ doomed)%list. cbn [fetches balances next_fetch next_balance].
  assert (Hrows : forall g, g ∈ rows <-> g ∈ fetches log /\ kept dropped g = true /\ group_of (s_key s) observed g = true).
  { intros g. rewrite Er, merge_sort_Permutation, elem_filter, F, elem_filter. tauto. }
  assert (S : StronglySorted newer_first rows) by (rewrite Er; apply StronglySorted_merge_sort; apply _).
  assert (Hdoomed : forall i, i ∈ doomed <-> i ∈ f_id <$> rows /\ i ∉ kept_ids depth rows).
  { intros i. unfold doomed, doomed_ids. rewrite elem_filter, negb_true_iff, bool_decide_eq_false. done. }
  assert (Survive : forall f p, f ∈ fetches log -> kept dropped f = true -> reader_class p -> p f = true ->
    exists g, g ∈ fetches log /\ kept (dropped ++ doomed)%list g = true /\ p g = true /\ f_subject g = f_subject f /\ f_observed_address g = f_observed_address f /\ newer_first g f).
  { intros f p Hf Kf P pf. destruct (kept doomed f) eqn:Kd.
    - exists f. rewrite kept_app, Kf, Kd. repeat split; try done. by destruct (total newer_first f f).
    - unfold kept in Kd. rewrite negb_false_iff, bool_decide_eq_true in Kd. apply Hdoomed in Kd as [Hin _].
      apply list_elem_of_fmap in Hin as (f' & Ef & Hf'). assert (f' = f) as ->.
      { destruct ok as [U%ids_unique_NoDup _]. apply U; [by apply Hrows|done|done]. }
      destruct (first_of_class_kept depth rows p f P D S Hf' pf) as (g & Hg & pg & Kg & Ng). exists g.
      apply Hrows in Hg as Hg'. destruct Hg' as (Lg & Kdg & Gg). apply Hrows in Hf' as (_ & _ & Gf).
      unfold group_of in Gg, Gf. rewrite andb_true_iff, bool_decide_eq_true, String.eqb_eq in Gg, Gf. destruct Gg, Gf.
      repeat split; try congruence. rewrite kept_app, Kdg. unfold kept. rewrite bool_decide_false; [done|].
      intros Hd. by apply Hdoomed in Hd as []. }
  repeat split; [| |done|done|by destruct ok|by destruct ok| |].
  - rewrite F, filter_filter. apply filter_same. intros x _. by rewrite kept_app.
  - rewrite B, filter_filter. apply filter_same. intros b _. unfold cascade. destruct (sb_fetch_id b) as [i|]; [|done].
    rewrite <-negb_orb. f_equal. apply eq_bool_prop_intro. rewrite orb_True, !bool_decide_spec. by rewrite elem_of_app.
  - intros i Hi. apply elem_of_app in Hi as [Hi|Hi]; [by apply below|]. apply Hdoomed in Hi as [Hin _].
    apply list_elem_of_fmap in Hin as (f & -> & Hf). destruct ok as [_ lt]. apply lt. by apply Hrows.
  - intros f p Hf Kf P pf. destruct (kept dropped f) eqn:K; [by apply Survive|].
    destruct (H f p Hf K P pf) as (g & Hg & Kg & pg & Sg & Og & Ng). destruct (Survive g p Hg Kg P pg) as (g' & ? & ? & ? & ? & ? & ?).
    exists g'. repeat split; try done; try congruence. by transitivity g.
Qed.

(** ** What the readers see *)

(** A class whose members are of classes the prune keeps, by an order it respects. *)
Lemma top_forgets R `{!RelDecision R, !Total R, !Transitive R} p dropped fs key :
  (forall x y, R x y -> R y x -> f_id x = f_id y) -> ids_unique fs -> harmless dropped fs ->
  (forall f, p f = true -> exists q, reader_class q /\ q f = true /\ forall g, q g = true -> newer_first g f -> p g = true /\ R g f) ->
  top R (of_subject key p (List.filter (kept dropped) fs)) = top R (of_subject key p fs).
Proof.
  intros anti U H cls. rewrite of_subject_filter. apply top_filter; [done..| |].
  - intros y z Hy Hz. apply of_subject_elem in Hy as [? _], Hz as [? _]. by apply U.
  - intros f Hf K. apply of_subject_elem in Hf as (Hf & Sf & pf). destruct (cls f pf) as (q & Q & qf & better).
    destruct (H f q Hf K Q qf) as (g & Hg & Kg & qg & Sg & _ & Ng). destruct (better g qg Ng) as [pg Rg].
    exists g. rewrite of_subject_elem. repeat split; congruence || done.
Qed.

Lemma observed_split s : asset_observed s = true -> asset_accepted s = true \/ (asset_accepted s = false /\ at_page_cap s = true).
Proof. destruct s; vm_compute; tauto. Qed.

Lemma accepted_observed s : asset_accepted s = true -> asset_observed s = true.
Proof. by destruct s. Qed.

Lemma cap_not_accepted s : at_page_cap s = true -> asset_observed s = true /\ asset_accepted s = false.
Proof. by destruct s. Qed.

Section readers.
Context (log st : Store) (dropped : list Z).
Hypothesis F : fetches st = List.filter (kept dropped) (fetches log).
Hypothesis B : balances st = List.filter (cascade dropped) (balances log).
Hypothesis ok : store_ok log.
Hypothesis H : harmless dropped (fetches log).

Lemma native_winner_kept key : native_winner (fetches st) key = native_winner (fetches log) key.
Proof.
  unfold native_winner. rewrite F. apply (top_forgets newer_first); [apply newer_first_antisym|apply ids_unique_NoDup, ok|done|].
  intros f pf. exists (fun f => native_accepted (f_native f)). unfold reader_class. auto.
Qed.

Lemma asset_winner_kept key : asset_winner (fetches st) key = asset_winner (fetches log) key.
Proof.
  unfold asset_winner. rewrite F. apply (top_forgets accepted_first); [apply accepted_first_antisym|apply ids_unique_NoDup, ok|done|].
  intros f pf. apply observed_split in pf as [A|[A C]].
  - exists (fun f => asset_accepted (f_assets f)). split; [unfold reader_class; auto|]. split; [done|]. intros g Ag Ng.
    split; [by apply accepted_observed|]. right. by rewrite Ag, A.
  - exists (fun f => at_page_cap (f_assets f)). split; [unfold reader_class; auto|]. split; [done|]. intros g Cg Ng.
    apply cap_not_accepted in Cg as [Og Ag]. split; [done|]. right. by rewrite Ag, A.
Qed.

Lemma newest_observed_kept key : top newer_first (of_subject key (fun f => asset_observed (f_assets f)) (fetches st)) =
  top newer_first (of_subject key (fun f => asset_observed (f_assets f)) (fetches log)).
Proof.
  rewrite F. apply (top_forgets newer_first); [apply newer_first_antisym|apply ids_unique_NoDup, ok|done|]. intros f pf. apply observed_split in pf as [A|[_ C]].
  - exists (fun f => asset_accepted (f_assets f)). split; [unfold reader_class; auto|]. split; [done|]. intros g Ag Ng.
    split; [by apply accepted_observed|done].
  - exists (fun f => at_page_cap (f_assets f)). split; [unfold reader_class; auto|]. split; [done|]. intros g Cg Ng.
    by apply cap_not_accepted in Cg as [Og _].
Qed.

Lemma latest_partial_kept key : latest_partial (fetches st) key = latest_partial (fetches log) key.
Proof.
  unfold latest_partial. rewrite asset_winner_kept. rewrite F, (top_forgets newer_first); [done|apply newer_first_antisym|apply ids_unique_NoDup, ok|done|].
  intros f pf. exists (fun f => at_page_cap (f_assets f)). unfold reader_class. auto 6.
Qed.

(** A chosen fetch is not one the prune deleted. *)
Lemma chosen_kept R `{!RelDecision R, !Total R, !Transitive R} key p f :
  top R (of_subject key p (fetches st)) = Some f -> kept dropped f = true.
Proof. intros E. apply (top_spec R) in E as [E _]. apply of_subject_elem in E as (E & _). rewrite F in E. by apply elem_filter in E as [_ ?]. Qed.

Lemma rows_of_chosen i p : (bool_decide (i ∈ dropped) = false) ->
  List.filter (fun b => bool_decide (sb_fetch_id b = Some i) && p b) (balances st) =
  List.filter (fun b => bool_decide (sb_fetch_id b = Some i) && p b) (balances log).
Proof.
  intros K. rewrite B, filter_filter. apply filter_same. intros b _. unfold cascade.
  destruct (bool_decide_reflect (sb_fetch_id b = Some i)) as [E|E]; [rewrite E, K|rewrite andb_false_r]; done.
Qed.

Lemma view_kept : contract_balances_latest st = contract_balances_latest log.
Proof.
  unfold contract_balances_latest. rewrite B, filter_filter. apply filter_same. intros b _.
  assert (W : class_winner (fetches st) b = class_winner (fetches log) b)
    by (unfold class_winner; destruct (sb_token b); [apply asset_winner_kept|apply native_winner_kept]).
  unfold in_latest_view. rewrite W. unfold cascade. destruct (sb_fetch_id b) as [i|]; [|by destruct (class_winner _ b)].
  destruct (class_winner (fetches log) b) as [f|] eqn:E; [|apply andb_false_r].
  destruct (Z.eqb_spec i (f_id f)) as [->|]; [|apply andb_false_r]. rewrite andb_true_r.
  unfold class_winner in W. change (kept dropped f = true).
  destruct (sb_token b); unfold asset_winner, native_winner in W; [apply (chosen_kept accepted_first) in W|apply (chosen_kept newer_first) in W]; exact W.
Qed.

Lemma partial_rows_kept key : partial_asset_rows st key = partial_asset_rows log key.
Proof.
  unfold partial_asset_rows. rewrite <-latest_partial_kept. destruct (latest_partial (fetches st) key) as [f|] eqn:E; [|done].
  apply rows_of_chosen. unfold latest_partial in E. destruct (top newer_first _) as [g|] eqn:T; [|done]. cbn in E.
  apply (chosen_kept newer_first) in T. unfold kept in T. rewrite negb_true_iff in T.
  destruct (asset_winner (fetches st) key); [destruct (bool_decide (newer_first g f0)); [|done]|]; by injection E as <-.
Qed.

Lemma any_fetch_kept key : of_subject key (fun _ => true) (fetches st) = [] <-> of_subject key (fun _ => true) (fetches log) = [].
Proof.
  assert (T := top_forgets newer_first (fun _ => true) dropped (fetches log) key newer_first_antisym (ids_unique_NoDup _ (proj1 ok)) H). rewrite <-F in T.
  assert (E : forall l, top newer_first l = None <-> l = []) by (split; [apply top_none; apply _|by intros ->]).
  rewrite <-!E, T; [done|]. intros f _. exists (fun _ => true). unfold reader_class. auto.
Qed.

Lemma missing_kept contract : missing_current_rows st contract = missing_current_rows log contract.
Proof.
  unfold missing_current_rows. assert (A := any_fetch_kept (OfContract contract)).
  rewrite <-native_winner_kept, <-newest_observed_kept.
  assert (Hrow : forall f, native_winner (fetches st) (OfContract contract) = Some f -> has_native_row st (f_id f) = has_native_row log (f_id f)).
  { intros f E. unfold has_native_row, native_winner in *. apply (chosen_kept newer_first) in E. unfold kept in E. rewrite negb_true_iff in E.
    apply Bool.eq_iff_eq_true. rewrite !existsb_exists.
    assert (R := rows_of_chosen (f_id f) (fun b => negb (is_some (sb_token b))) E).
    split; intros (b & Hb & Pb); exists b; (split; [|done]); apply list_elem_of_In; apply list_elem_of_In in Hb;
      (eapply proj1; apply elem_filter); [rewrite <-R|rewrite R]; apply elem_filter; (split; [exact Hb|exact Pb]). }
  destruct (of_subject _ _ (fetches st)), (of_subject _ _ (fetches log)); [done|discriminate (proj1 A eq_refl)|discriminate (proj2 A eq_refl)|].
  destruct (native_winner (fetches st) _) as [n|] eqn:E; [|done]. by rewrite (Hrow n).
Qed.
End readers.

(** ** Theorems *)

Definition record_step (acc : option Store) (op : option string * Observation) : option Store := st ← acc; record_observation op.1 op.2 st.
Definition record_all (ops : list (option string * Observation)) (st : Store) : option Store := foldl record_step (Some st) ops.

(** The table had nothing ever been deleted. *)
Definition full_log (ops : list (option string * Observation)) (st : Store) : Store := foldl (fun s op => insert_observation op.2 s) st ops.

Lemma depth_positive env d : balance_history_depth env = Some d -> (1 <= d)%nat.
Proof. unfold balance_history_depth. destruct (int_text _ _) as [z|]; [|done]. destruct (Z.ltb_spec z 1); [done|]. intros [= <-]. lia. Qed.

Lemma record_all_forgets ops : forall log st, Forall (fun op => is_Some (balance_history_depth op.1)) ops -> forgets log st ->
  exists st', record_all ops st = Some st' /\ forgets (full_log ops log) st'.
Proof.
  induction ops as [|[env o] ops IH]; intros log st V Fg; [by exists st|]. apply Forall_cons in V as [[d E] V].
  cbn [fst] in E. unfold record_all, full_log. cbn [foldl record_step mbind option_bind fst snd]. unfold record_observation. rewrite E. cbn [mbind option_bind].
  apply IH; [done|]. apply prune_forgets; [by eapply depth_positive|]. by apply insert_forgets.
Qed.

(** C6: Retention deletes only what no reader can see: after any observations under any
    history depths, the pruned tables answer every reader (the view of current rows,
    the winning and partial asset fetches, the native winner, the partial prefix's
    rows, the contracts with missing rows) exactly as the insert-only log would. *)
Theorem pruning_invisible st ops :
  store_ok st -> Forall (fun op => is_Some (balance_history_depth op.1)) ops ->
  exists st', record_all ops st = Some st' /\
    contract_balances_latest st' = contract_balances_latest (full_log ops st) /\
    (forall key, asset_winner (fetches st') key = asset_winner (fetches (full_log ops st)) key /\
       native_winner (fetches st') key = native_winner (fetches (full_log ops st)) key /\
       latest_partial (fetches st') key = latest_partial (fetches (full_log ops st)) key /\
       partial_asset_rows st' key = partial_asset_rows (full_log ops st) key) /\
    forall contract, missing_current_rows st' contract = missing_current_rows (full_log ops st) contract.
Proof.
  intros ok V. destruct (record_all_forgets ops st st V (forgets_refl st ok)) as (st' & E & dropped & F & B & _ & _ & ok' & _ & H).
  exists st'. split; [done|]. split; [by eapply view_kept|]. split; [|intros c; by eapply missing_kept].
  intros key. split; [by eapply asset_winner_kept|]. split; [by eapply native_winner_kept|].
  split; [by eapply latest_partial_kept|by eapply partial_rows_kept].
Qed.

Definition empty_store : Store := MkStore [] [] 1 1.
Definition sample_subject : ObservationSubject := of_contract 7 "0xaa".
Definition sample_read (wei : option Z) (status : asset_set_status) (rows : list PageRow) (when : Z) : option string * Observation :=
  (Some "1", MkObservation sample_subject 1 (MkNative wei (Some 100%Z) (negb (is_some wei)) None "ETH" "ETH" true None None) (MkPage rows (Some 1%Z) status "page") "tvl" when).
Definition sample_ops : list (option string * Observation) :=
  [sample_read (Some 5%Z) ASSET_SET_STATUS_RETURNED_ASSETS [MkPageRow "0xTT" None None 9 None true None None] 10;
   sample_read None ASSET_SET_STATUS_FETCH_FAILED [] 20; sample_read None ASSET_SET_STATUS_AT_PAGE_CAP [] 30; sample_read None ASSET_SET_STATUS_FETCH_FAILED [] 40].

Lemma pruning_invisible_witness : exists st', record_all sample_ops empty_store = Some st' /\
  contract_balances_latest st' = contract_balances_latest (full_log sample_ops empty_store) /\
  (f_id <$> fetches st') = [1; 3; 4]%Z /\ List.length (contract_balances_latest st') = 2%nat.
Proof.
  destruct (pruning_invisible empty_store sample_ops) as (st' & E & V & _).
  - split; [apply NoDup_nil_2|]. intros f Hf. apply not_elem_of_nil in Hf as [].
  - repeat constructor; vm_compute; eauto.
  - exists st'. split; [exact E|]. split; [exact V|]. clear V. vm_compute in E. injection E as <-. split; vm_compute; reflexivity.
Defined.

Lemma first_of_class_short p rows : (List.length (first_of_class p rows) <= 1)%nat.
Proof. unfold first_of_class. destruct (List.filter p rows); cbn; lia. Qed.

Lemma kept_ids_length depth rows : (List.length (kept_ids depth rows) <= depth + 3)%nat.
Proof.
  unfold kept_ids. rewrite !length_app, length_fmap, length_take.
  pose proof (first_of_class_short (fun f => native_accepted (f_native f)) rows). pose proof (first_of_class_short (fun f => asset_accepted (f_assets f)) rows).
  pose proof (first_of_class_short (fun f => at_page_cap (f_assets f)) rows). lia.
Qed.

Lemma filter_ids_NoDup p fs : NoDup (f_id <$> fs) -> NoDup (f_id <$> List.filter p fs).
Proof.
  induction fs as [|f fs IH]; [done|]. cbn. rewrite NoDup_cons. intros [Hf N]. destruct (p f); [|auto]. cbn. apply NoDup_cons. split; [|auto].
  intros Hn. apply Hf. apply list_elem_of_fmap in Hn as (g & E & Hg). rewrite E. apply elem_filter in Hg as [Hg _]. by apply list_elem_of_fmap_2.
Qed.

(** The history of one address at one subject stays bounded: whatever it held
    before, after an observation it keeps at most [depth] fetches and one more for
    each of the three classes a reader chooses from. *)
Theorem retention_bounded env depth o st st' :
  store_ok st -> balance_history_depth env = Some depth -> record_observation env o st = Some st' ->
  (List.length (List.filter (group_of (s_key (o_subject o)) (s_address (o_subject o))) (fetches st')) <= depth + 3)%nat.
Proof.
  intros ok E R. unfold record_observation in R. rewrite E in R. cbn [mbind option_bind] in R. injection R as <-.
  destruct (insert_forgets o st st (forgets_refl st ok)) as (_ & _ & _ & _ & _ & [N _] & _).
  set (log := insert_observation o st) in *. set (grp := group_of _ _).
  set (rows := merge_sort newer_first (List.filter grp (fetches log))).
  assert (L : List.length rows = List.length (List.filter grp (fetches log))) by (unfold rows; by rewrite merge_sort_Permutation).
  assert (Fit : forall p, (forall f, f ∈ rows -> p f = true -> f_id f ∈ kept_ids depth rows) ->
    (List.length (List.filter grp (List.filter p (fetches log))) <= depth + 3)%nat).
  { intros p K. etransitivity; [|apply (kept_ids_length depth rows)]. rewrite <-(length_fmap f_id). apply submseteq_length, NoDup_submseteq.
    - by apply filter_ids_NoDup, filter_ids_NoDup.
    - intros i Hi. apply list_elem_of_fmap in Hi as (f & -> & Hf). rewrite !elem_filter in Hf. destruct Hf as [[Hf pf] Gf].
      apply K; [|done]. unfold rows. rewrite merge_sort_Permutation. by apply elem_filter. }
  unfold prune_balance_fetches. fold grp. fold rows. destruct (Nat.leb_spec (List.length rows) depth) as [Hle|_]; [cbn [snd]; lia|].
  destruct (doomed_ids depth rows) as [|i l] eqn:D; cbn [snd fetches].
  - rewrite <-(filter_keeps (fun _ => true) (fetches log)) by done. apply Fit. intros f Hf _.
    destruct (decide (f_id f ∈ kept_ids depth rows)) as [|n]; [done|]. assert (f_id f ∈ doomed_ids depth rows) as Hd; [|rewrite D in Hd; set_solver].
    unfold doomed_ids. apply elem_filter. rewrite bool_decide_false by done. split; [by apply list_elem_of_fmap_2|done].
  - apply Fit. intros f Hf K. rewrite negb_true_iff, bool_decide_eq_false in K. rewrite <-D in K.
    destruct (decide (f_id f ∈ kept_ids depth rows)) as [|n]; [done|]. destruct K. unfold doomed_ids. apply elem_filter.
    rewrite bool_decide_false by done. split; [by apply list_elem_of_fmap_2|done].
Qed.

Lemma retention_bounded_witness : exists st',
  record_observation (Some "1") (sample_read None ASSET_SET_STATUS_FETCH_FAILED [] 40).2 (full_log (take 3 sample_ops) empty_store) = Some st' /\
  (List.length (List.filter (group_of (OfContract 7) "0xaa") (fetches st')) <= 1 + 3)%nat.
Proof.
  eexists. split; [reflexivity|].
  apply (retention_bounded (Some "1") 1 (sample_read None ASSET_SET_STATUS_FETCH_FAILED [] 40).2 (full_log (take 3 sample_ops) empty_store)); [|reflexivity..].
  split.
  - replace (f_id <$> fetches (full_log (take 3 sample_ops) empty_store)) with [1; 2; 3]%Z by (vm_compute; reflexivity). apply (bool_decide_unpack _). vm_compute. exact I.
  - apply Forall_forall. vm_compute. repeat constructor.
Defined.
