(* ===== verification/Collection.v ===== *)
(** * Balance collection ([services/monitoring/balance_collection.py])

    The leases that decide which collector reads an account, what a finished read
    leaves in [balance_collection_state], and the publication of a reading to each
    subject that shares the account.  Conventions are those of [Balances]. *)

From stdpp Require Import base gmap sets list strings sorting.
From Stdlib Require Import String Ascii ZArith QArith Lia.
From S2P Require Import Prelude PyText ScoreModel Grade Balances.

Local Open Scope string_scope.

Definition SECOND : Z := 1000000.
Definition LEASE_SECONDS : Z := 300.

Inductive read_class := NativeRead | TokensRead | NativeQuote.
#[export] Instance read_class_eq_dec : EqDecision read_class.
Proof. solve_decision. Defined.
#[export] Instance read_class_countable : Countable read_class.
Proof.
  refine (inj_countable' (fun c => match c with NativeRead => 0 | TokensRead => 1 | NativeQuote => 2 end)
            (fun n => match n with 0 => NativeRead | 1 => TokensRead | _ => NativeQuote end) _)%nat.
  by intros [].
Defined.

Inductive outcome := Success | PartialRead | Failed | BudgetDeferred.
#[export] Instance outcome_eq_dec : EqDecision outcome.
Proof. solve_decision. Defined.

Inductive payload := NativePayload (r : NativeReading) | PagePayload (p : TokenBalancePage) | QuotePayload (price : Q).

(** [BalanceCollectionState] *)
Record CollectionState := MkState {
  generation : Z;
  lease_owner : option string;
  lease_until : option Z;
  next_attempt_at : option Z;
  last_attempt_at : option Z;
  observed_at : option Z;
  failures : Z;
  last_outcome : option outcome;
  cached : option payload;
}.

(** The inserted row's defaults. *)
Definition new_state : CollectionState := MkState 0 None None None None None 0 None None.

Definition StateKey : Type := Z * string * read_class.
Notation states := (gmap StateKey CollectionState).

Record CollectionSubject := MkTarget { t_subject : ObservationSubject; t_chain_id : Z }.

Record Claim := MkClaim {
  c_target : CollectionSubject;
  c_class : read_class;
  c_owner : option string;
  c_generation : Z;
  c_payload : option payload;
  c_observed_at : option Z;
  c_reason : string;
}.

(** [_key] *)
Definition key_of (target : CollectionSubject) (cls : read_class) : StateKey := (t_chain_id target, str_lower (s_address (t_subject target)), cls).
Definition claim_key (c : Claim) : StateKey := key_of (c_target c) (c_class c).

Definition past (limit : option Z) (now : Z) : bool := match limit with Some t => (now <? t)%Z | None => false end.

(** A success older than the caller's [max_age_seconds]. *)
Definition too_old (s : CollectionState) (now : Z) (max_age : option Z) : bool :=
  bool_decide (last_outcome s = Some Success)
  && match observed_at s, max_age with Some t, Some age => (age * SECOND <=? now - t)%Z | _, _ => false end.

(** [_read_reason] *)
Definition read_reason (s : option CollectionState) (now : Z) (max_age : option Z) : string :=
  match s with
  | None => "due"
  | Some s =>
      if past (lease_until s) now then "leased"
      else if past (next_attempt_at s) now && negb (too_old s now max_age) then
        (if bool_decide (last_outcome s = Some Success) then "fresh" else "backoff")
      else "due"
  end.

(** ** Claims *)

Definition unowned (target : CollectionSubject) (cls : read_class) (s : CollectionState) (reason : string) : Claim :=
  MkClaim target cls None (generation s) (cached s) (observed_at s) reason.

(** The read without a lock: an answer unless the read is due. *)
Definition claim_peek (target : CollectionSubject) (cls : read_class) (max_age : option Z) (now : Z) (m : states) : option Claim :=
  s ← m !! key_of target cls;
  let reason := read_reason (Some s) now max_age in
  if String.eqb reason "due" then None else Some (unowned target cls s reason).

(** The read under [FOR UPDATE], after the row's insert. *)
Definition claim_locked (target : CollectionSubject) (cls : read_class) (max_age : option Z) (now : Z) (owner : string) (m : states) : Claim * states :=
  let s := default new_state (m !! key_of target cls) in
  let reason := read_reason (Some s) now max_age in
  if String.eqb reason "due" then
    (MkClaim target cls (Some owner) (generation s + 1) (cached s) (observed_at s) "due",
     <[key_of target cls := MkState (generation s + 1) (Some owner) (Some (now + LEASE_SECONDS * SECOND)%Z) (next_attempt_at s) (Some now)
                              (observed_at s) (failures s) (last_outcome s) (cached s)]> m)
  else (unowned target cls s reason, m).

(** [claim_read], with nothing between the two reads. *)
Definition claim_read (target : CollectionSubject) (cls : read_class) (max_age : option Z) (now1 now2 : Z) (owner : string) (m : states) : Claim * states :=
  match claim_peek target cls max_age now1 m with
  | Some c => (c, m)
  | None => claim_locked target cls max_age now2 owner m
  end.

(** The row, while the claim still holds its lease. *)
Definition held_state (c : Claim) (m : states) : option CollectionState :=
  s ← m !! claim_key c;
  if bool_decide (lease_owner s = c_owner c) && (generation s =? c_generation c)%Z then Some s else None.

(** ** Publication *)

Record World := MkWorld { ledger : states; store : Store; contracts : gmap Z (option Z); dirty : list Z }.

Definition observed_class (cls : read_class) (f : Fetch) : bool :=
  match cls with
  | NativeRead => negb (bool_decide (f_native f = NATIVE_UNATTEMPTED))
  | _ => negb (bool_decide (f_assets f = ASSETS_UNATTEMPTED))
  end.

Definition higher_id (x y : Fetch) : Prop := (f_id y <= f_id x)%Z.
#[export] Instance higher_id_dec : RelDecision higher_id.
Proof. intros x y. unfold higher_id. apply _. Defined.

(** The fetch that already published this reading. *)
Definition previous_fetch (st : Store) (key : SubjectKey) (cls : read_class) (at_ : Z) : option Fetch :=
  top higher_id (of_subject key (fun f => bool_decide (f_observed_at f = Some at_) && observed_class cls f) (fetches st)).

Definition payload_price (p : payload) : option Q := match p with NativePayload r => nr_price r | _ => None end.

(** Whether a price has arrived for the unpriced native row of a fetch. *)
Definition unpriced_native (st : Store) (cls : read_class) (p : payload) (f : Fetch) : bool :=
  bool_decide (cls = NativeRead) && is_some (payload_price p)
  && existsb (fun b => bool_decide (sb_fetch_id b = Some (f_id f)) && negb (is_some (sb_token b)) && negb (is_some (sb_price b))) (balances st).

Definition no_native : NativeReading := MkNative None None false None "" "" false None None.
Definition no_page : TokenBalancePage := MkPage [] None ASSETS_UNATTEMPTED "".

Definition observation_of (c : Claim) (p : payload) (at_ : Z) (writer : string) : option Observation :=
  let o n g := MkObservation (t_subject (c_target c)) (t_chain_id (c_target c)) n g writer at_ in
  match c_class c, p with
  | NativeRead, NativePayload r => Some (o r no_page)
  | NativeRead, _ => None
  | _, PagePayload g => Some (o no_native g)
  | _, _ => None
  end.

(** [_publish]: whether it wrote; [None] where it raises. *)
Definition publish (env : option string) (c : Claim) (p : payload) (at_ : Z) (writer : string) (st : Store) : option (bool * Store) :=
  let previous := previous_fetch st (s_key (t_subject (c_target c))) (c_class c) at_ in
  if match previous with Some f => negb (unpriced_native st (c_class c) p f) | None => false end then Some (false, st)
  else o ← observation_of c p at_ writer;
       st ← record_observation env o st;
       Some (true, st).

(** [_dirty] *)
Definition mark_dirty (target : CollectionSubject) (w : World) : World :=
  match s_key (t_subject target) with
  | OfContract id => match contracts w !! id with
                     | Some (Some protocol) => MkWorld (ledger w) (store w) (contracts w) (dirty w ++ [protocol])%list
                     | _ => w
                     end
  | OfEntity _ _ => w
  end.

Definition committed (c : Claim) (r : bool * Store) (w : World) : World :=
  let w := MkWorld (ledger w) (snd r) (contracts w) (dirty w) in if fst r then mark_dirty (c_target c) w else w.

(** [publish_reuse] *)
Definition publish_reuse (env : option string) (c : Claim) (writer : string) (w : World) : option (bool * World) :=
  match c_payload c, c_observed_at c, ledger w !! claim_key c with
  | Some p, Some at_, Some s =>
      if (generation s =? c_generation c)%Z then
        match publish env c p at_ writer (store w) with
        | Some r => Some (fst r, if fst r then committed c r w else w)
        | None => None
        end
      else Some (false, w)
  | _, _, _ => Some (false, w)
  end.

Definition backoff (failed : Z) : Z := Z.min 3600 (30 * 2 ^ Z.min failed 7).

(** The row after a read. *)
Definition finished_state (s : CollectionState) (p : payload) (o : outcome) (ttl now : Z) : CollectionState :=
  let ok := bool_decide (o = Success) in
  let failed := if ok then 0%Z else (failures s + 1)%Z in
  let usable := ok || bool_decide (o = PartialRead) in
  MkState (generation s) None None
    (Some (now + (if ok then ttl else backoff (failed - 1)) * SECOND)%Z) (last_attempt_at s)
    (if usable then Some now else observed_at s) failed (Some o) (if usable then Some p else cached s).

(** [finish_read] *)
Definition finish_read (env : option string) (c : Claim) (p : payload) (o : outcome) (writer : string) (ttl now : Z) (w : World) : option (bool * World) :=
  match held_state c (ledger w) with
  | None => Some (false, w)
  | Some s =>
      match publish env c p now writer (store w) with
      | Some r => Some (fst r, committed c r (MkWorld (<[claim_key c := finished_state s p o ttl now]> (ledger w)) (store w) (contracts w) (dirty w)))
      | None => None
      end
  end.

(** [release_claim] *)
Definition release_claim (c : Claim) (now : Z) (m : states) : states :=
  match m !! claim_key c with
  | Some s => if bool_decide (lease_owner s = c_owner c) then
                <[claim_key c := MkState (generation s) None None (Some (now + 30 * SECOND)%Z) (last_attempt_at s) (observed_at s) (failures s)
                                   (Some BudgetDeferred) (cached s)]> m
              else m
  | None => m
  end.

(** ** Native quotes *)

Definition quote_target (chain_name : Z -> option string) (chain_id : Z) : option CollectionSubject :=
  name ← chain_name chain_id;
  Some (MkTarget (of_entity name "0x0000000000000000000000000000000000000000") chain_id).

(** The provider's price, where it is one. *)
Definition usable_price (price : option Q) : option Q :=
  p ← price; if Qlt_bool 0 p && Qlt_bool p (inject_Z (10 ^ 20)) then Some p else None.

(** The end of [read_native_quote], once the provider has answered. *)
Definition finish_quote (c : Claim) (price : option Q) (now : Z) (m : states) : option (Q * Z) * states :=
  let price := usable_price price in
  match held_state c m with
  | None => (None, m)
  | Some s =>
      let failed := if is_some price then 0%Z else (failures s + 1)%Z in
      ((fun p => (p, now)) <$> price,
       <[claim_key c := MkState (generation s) None None
                          (Some (now + (if is_some price then 300 else backoff failed) * SECOND)%Z) (last_attempt_at s)
                          (if is_some price then Some now else observed_at s) failed
                          (Some (if is_some price then Success else Failed))
                          (match price with Some p => Some (QuotePayload p) | None => cached s end)]> m)
  end.

(** A cached quote: [read_native_quote] of a claim without a lease. *)
Definition cached_quote (c : Claim) : option (Q * Z) :=
  match c_payload c, c_observed_at c with
  | Some (QuotePayload p), Some t => if String.eqb (c_reason c) "fresh" then Some (p, t) else None
  | _, _ => None
  end.

Definition with_price (r : NativeReading) (price : Q) (at_ : Z) : NativeReading :=
  MkNative (nr_wei r) (nr_block r) (nr_failed r) (Some price) (nr_symbol r) (nr_name r) (nr_attempted r) (nr_observed_at r) (Some at_).

(** [reprice_unpriced_native], with the quote it reads. *)
Definition reprice_unpriced_native (c : Claim) (quote : option (Q * Z)) (m : states) : Claim * states :=
  match c_class c, c_payload c, quote with
  | NativeRead, Some (NativePayload r), Some (price, at_) =>
      if is_some (nr_price r) then (c, m)
      else match m !! claim_key c with
           | Some s => if (generation s =? c_generation c)%Z then
                         let p := NativePayload (with_price r price at_) in
                         (MkClaim (c_target c) (c_class c) (c_owner c) (c_generation c) (Some p) (c_observed_at c) (c_reason c),
                          <[claim_key c := MkState (generation s) (lease_owner s) (lease_until s) (next_attempt_at s) (last_attempt_at s)
                                             (observed_at s) (failures s) (last_outcome s) (Some p)]> m)
                       else (c, m)
           | None => (c, m)
           end
  | _, _, _ => (c, m)
  end.
