(* ===== verification/CollectionTheory.v ===== *)
(** * Leases of the balance collection

    Collectors interleave: each step of a run is one transaction of one of them,
    and a claim may be used long after it was issued. *)

From stdpp Require Import base gmap sets list strings sorting.
From Stdlib Require Import String Ascii ZArith QArith Lia.
From S2P Require Import Prelude PyText ScoreModel Grade Balances Collection.

Local Open Scope string_scope.

Section runs.
Context (env : option string).

Definition with_ledger (m : states) (w : World) : World := MkWorld m (store w) (contracts w) (dirty w).

(** One committed transaction, and the claims issued so far. *)
Inductive step : World * list Claim -> World * list Claim -> Prop :=
| step_peek w l target cls age now c : claim_peek target cls age now (ledger w) = Some c -> step (w, l) (w, c :: l)
| step_lock w l target cls age now owner c m : (forall d, d ∈ l -> c_owner d <> Some owner) ->
    claim_locked target cls age now owner (ledger w) = (c, m) -> step (w, l) (with_ledger m w, c :: l)
| step_finish w l c p o writer ttl now b w' : c ∈ l -> is_Some (c_owner c) -> finish_read env c p o writer ttl now w = Some (b, w') -> step (w, l) (w', l)
| step_quote w l c price now q m : c ∈ l -> is_Some (c_owner c) -> finish_quote c price now (ledger w) = (q, m) -> step (w, l) (with_ledger m w, l)
| step_release w l c now : c ∈ l -> is_Some (c_owner c) -> step (w, l) (with_ledger (release_claim c now (ledger w)) w, l)
| step_reuse w l c writer b w' : c ∈ l -> c_owner c = None -> publish_reuse env c writer w = Some (b, w') -> step (w, l) (w', l)
| step_reprice w l c quote c' m : c ∈ l -> c_owner c = None -> c_reason c = "fresh" ->
    reprice_unpriced_native c quote (ledger w) = (c', m) -> step (w, l) (with_ledger m w, c' :: l).

Definition reachable (w0 : World) (r : World * list Claim) : Prop := rtc step (w0, []) r.
End runs.

(** ** The invariant *)

Record leases_ok (m : states) (l : list Claim) : Prop := {
  claims_known : forall c, c ∈ l -> exists s, m !! claim_key c = Some s /\ (c_generation c <= generation s)%Z;
  grants_unique : forall c d, c ∈ l -> d ∈ l -> is_Some (c_owner c) -> c_owner c = c_owner d -> c = d;
  grants_ordered : forall c d, c ∈ l -> d ∈ l -> is_Some (c_owner c) -> is_Some (c_owner d) -> claim_key c = claim_key d ->
    c_generation c = c_generation d -> c = d;
  lease_granted : forall k s o, m !! k = Some s -> lease_owner s = Some o ->
    exists c, c ∈ l /\ claim_key c = k /\ c_owner c = Some o /\ c_generation c = generation s;
}.

(** A row keeps its generation, and loses or keeps its owner. *)
Definition row_step (s t : CollectionState) : Prop := generation t = generation s /\ (lease_owner t = None \/ lease_owner t = lease_owner s).

Lemma leases_update m l k s t : leases_ok m l -> m !! k = Some s -> row_step s t -> leases_ok (<[k := t]> m) l.
Proof.
  intros [K U O G] Hs [E W]. split; [|done|done|].
  - intros c Hc. destruct (K c Hc) as (u & Hu & Le). destruct (decide (k = claim_key c)) as [->|n].
    + exists t. rewrite lookup_insert_eq. split; [done|]. assert (u = s) as -> by congruence. lia.
    + exists u. by rewrite lookup_insert_ne.
  - intros j u o Hu Ho. destruct (decide (k = j)) as [->|n]; [|rewrite lookup_insert_ne in Hu by done; eauto].
    rewrite lookup_insert_eq in Hu. injection Hu as <-. destruct W as [W|W]; [congruence|]. rewrite W in Ho.
    destruct (G j s o Hs Ho) as (c & ? & ? & ? & ?). exists c. rewrite E. auto.
Qed.

(** An unowned claim at a row's own generation. *)
Lemma leases_unowned m l c s : leases_ok m l -> c_owner c = None -> m !! claim_key c = Some s -> (c_generation c <= generation s)%Z -> leases_ok m (c :: l).
Proof.
  intros [K U O G] N Hs Le. split.
  - intros d [->|Hd]%elem_of_cons; [eauto|auto].
  - intros d e [->|Hd]%elem_of_cons [->|He]%elem_of_cons [o Ho] E; [done|congruence..|]. apply U; [done..|by eexists|done].
  - intros d e [->|Hd]%elem_of_cons [->|He]%elem_of_cons [o Ho] [o' Ho']; try congruence. apply O; by eauto.
  - intros k u o Hu Ho. destruct (G k u o Hu Ho) as (d & Hd & rest). exists d. set_solver.
Qed.

Lemma read_reason_new now age : read_reason (Some new_state) now age = "due".
Proof. done. Qed.

Lemma leases_lock target cls age now owner m l c m' : leases_ok m l -> (forall d, d ∈ l -> c_owner d <> Some owner) ->
  claim_locked target cls age now owner m = (c, m') -> leases_ok m' (c :: l).
Proof.
  intros ok fresh E. unfold claim_locked in E. set (k := key_of target cls) in *. set (s := default new_state (m !! k)) in *.
  destruct (String.eqb_spec (read_reason (Some s) now age) "due") as [_|n]; injection E as <- <-.
  2: { destruct (m !! k) as [t|] eqn:Hk; [|by destruct n].
       eapply leases_unowned; [done|done|exact Hk|]. cbn. unfold s. cbn. lia. }
  destruct ok as [K U O G]. set (c := MkClaim _ _ _ _ _ _ _). assert (Kc : claim_key c = k) by done.
  assert (Le : forall d, d ∈ l -> claim_key d = k -> (c_generation d <= generation s)%Z).
  { intros d Hd Ek. destruct (K d Hd) as (t & Ht & Le). rewrite Ek in Ht. unfold s. by rewrite Ht. }
  split.
  - intros d [->|Hd]%elem_of_cons; [rewrite Kc, lookup_insert_eq; eexists; split; [done|cbn; lia]|].
    destruct (decide (k = claim_key d)) as [e|n].
    + exists (MkState (generation s + 1) (Some owner) (Some (now + LEASE_SECONDS * SECOND)%Z) (next_attempt_at s) (Some now) (observed_at s) (failures s) (last_outcome s) (cached s)).
      rewrite <-e, lookup_insert_eq. split; [done|]. cbn. assert (H := Le d Hd (eq_sym e)). lia.
    + rewrite lookup_insert_ne by done. auto.
  - intros d e [->|Hd]%elem_of_cons [->|He]%elem_of_cons P E; [done| | |by apply U].
    + exfalso. by apply (fresh e He).
    + exfalso. by apply (fresh d Hd).
  - intros d e [->|Hd]%elem_of_cons [->|He]%elem_of_cons P Q Ek Eg; [done| | |by apply O].
    + exfalso. assert (H := Le e He (eq_trans (eq_sym Ek) Kc)). cbn in Eg. lia.
    + exfalso. assert (H := Le d Hd (eq_trans Ek Kc)). cbn in Eg. lia.
  - intros j t o Ht Ho. destruct (decide (k = j)) as [<-|n].
    + rewrite lookup_insert_eq in Ht. injection Ht as <-. cbn in Ho. injection Ho as <-. exists c. cbn. set_solver.
    + rewrite lookup_insert_ne in Ht by done. destruct (G j t o Ht Ho) as (d & Hd & rest). exists d. set_solver.
Qed.

Lemma held_some c m s : held_state c m = Some s <-> m !! claim_key c = Some s /\ lease_owner s = c_owner c /\ generation s = c_generation c.
Proof.
  unfold held_state. destruct (m !! claim_key c) as [t|]; cbn; [|naive_solver].
  destruct (bool_decide_reflect (lease_owner t = c_owner c)), (Z.eqb_spec (generation t) (c_generation c)); cbn; naive_solver.
Qed.

Lemma committed_ledger c r w : ledger (committed c r w) = ledger w.
Proof.
  unfold committed, mark_dirty. destruct (fst r); [|done]. destruct (s_key _); [|done]. cbn. by destruct (contracts w !! id) as [[]|].
Qed.

Lemma finish_ledger env c p o writer ttl now w b w' : finish_read env c p o writer ttl now w = Some (b, w') ->
  (held_state c (ledger w) = None /\ w' = w) \/
  exists s, held_state c (ledger w) = Some s /\ ledger w' = <[claim_key c := finished_state s p o ttl now]> (ledger w).
Proof.
  unfold finish_read. destruct (held_state c (ledger w)) as [s|]; [|intros [= <- <-]; auto].
  destruct (publish _ _ _ _ _ _) as [r|]; [|done]. intros [= <- <-]. right. exists s. by rewrite committed_ledger.
Qed.

Lemma quote_ledger c price now m q m' : finish_quote c price now m = (q, m') ->
  (held_state c m = None /\ m' = m) \/ exists s t, held_state c m = Some s /\ m' = <[claim_key c := t]> m /\ generation t = generation s /\ lease_owner t = None.
Proof. unfold finish_quote. destruct (held_state c m) as [s|]; intros [= <- <-]; [right|auto]. exists s. eexists. auto. Qed.

Lemma reuse_ledger env c writer w b w' : publish_reuse env c writer w = Some (b, w') -> ledger w' = ledger w.
Proof.
  unfold publish_reuse. intros E. repeat (case_match; simplify_eq; try done). by rewrite committed_ledger.
Qed.

Lemma leases_reprice c quote m l c' m' : leases_ok m l -> c ∈ l -> c_owner c = None -> reprice_unpriced_native c quote m = (c', m') -> leases_ok m' (c' :: l).
Proof.
  intros ok Hc N E. destruct (claims_known _ _ ok c Hc) as (s & Hs & Le).
  assert (Keep : leases_ok m (c :: l)) by (by eapply leases_unowned).
  unfold reprice_unpriced_native in E. repeat (case_match; simplify_eq; try done).
  match goal with E : c_class c = NativeRead |- _ => assert (Kc : key_of (c_target c) NativeRead = claim_key c) by (unfold claim_key; by rewrite E) end.
  eapply leases_unowned; [eapply leases_update; [exact ok|eassumption|]|done|unfold claim_key; cbn [c_target c_class]; rewrite Kc; apply lookup_insert_eq|exact Le].
  split; [done|by right].
Qed.

Lemma step_leases env r r' : step env r r' -> leases_ok (ledger r.1) r.2 -> leases_ok (ledger r'.1) r'.2.
Proof.
  intros S ok. destruct S as [w l target cls age now c E|w l target cls age now owner c m fresh E|w l c p o writer ttl now b w' Hc P E|
    w l c price now q m Hc P E|w l c now Hc P|w l c writer b w' Hc P E|w l c quote c' m Hc P R E]; cbn [fst snd with_ledger ledger] in *.
  - unfold claim_peek in E. destruct (ledger w !! key_of target cls) as [s|] eqn:Hs; [|done]. cbn in E. case_match; [done|]. injection E as <-.
    eapply leases_unowned; [done|done|exact Hs|cbn; lia].
  - by eapply leases_lock.
  - apply finish_ledger in E as [[_ ->]|(s & Hs & ->)]; [done|]. apply held_some in Hs as (Hs & _). eapply leases_update; [done..|]. split; [done|by left].
  - apply quote_ledger in E as [[_ ->]|(s & t & Hs & -> & G & O)]; [done|]. apply held_some in Hs as (Hs & _). eapply leases_update; [done..|]. split; [done|by left].
  - unfold release_claim. destruct (ledger w !! claim_key c) as [s|] eqn:Hs; [|done]. case_bool_decide; [|done].
    eapply leases_update; [done..|]. split; [done|by left].
  - apply reuse_ledger in E as ->. done.
  - by eapply leases_reprice.
Qed.

Definition no_leases (m : states) : Prop := forall k s, m !! k = Some s -> lease_owner s = None.

Lemma reachable_leases env w0 r : no_leases (ledger w0) -> reachable env w0 r -> leases_ok (ledger r.1) r.2.
Proof.
  intros N R. assert (ok : leases_ok (ledger w0) []).
  { split; [set_solver..|]. intros k s o Hs Ho. rewrite (N k s Hs) in Ho. done. }
  unfold reachable in R. remember (w0, [] : list Claim) as r0 eqn:E0. assert (leases_ok (ledger r0.1) r0.2) as ok0 by (by rewrite E0). clear E0 ok N.
  induction R as [|x y z S R IH]; [exact ok0|]. apply IH. eapply step_leases; [exact S|exact ok0].
Qed.

(** C12: Whatever the collectors interleave, an account's read has one writer: the claim
    whose lease the row still carries is the newest grant, every other grant of the
    row is older and writes nothing, the row is not granted again while the lease
    lives, and the claim itself writes once. *)
Theorem collection_single_writer env w0 w l c s :
  no_leases (ledger w0) -> reachable env w0 (w, l) -> c ∈ l -> is_Some (c_owner c) -> held_state c (ledger w) = Some s ->
  (forall d, d ∈ l -> is_Some (c_owner d) -> claim_key d = claim_key c -> d <> c ->
     (c_generation d < c_generation c)%Z /\ forall p o writer ttl now, finish_read env d p o writer ttl now w = Some (false, w)) /\
  (forall target cls age now owner t, key_of target cls = claim_key c -> lease_until s = Some t -> (now < t)%Z ->
     claim_locked target cls age now owner (ledger w) = (unowned target cls s "leased", ledger w)) /\
  forall p o writer ttl now b w', finish_read env c p o writer ttl now w = Some (b, w') -> held_state c (ledger w') = None.
Proof.
  intros N R Hc P Hs. assert (ok := reachable_leases _ _ _ N R). cbn [fst snd] in ok. assert (Hs' := proj1 (held_some c (ledger w) s) Hs). destruct Hs' as (Hk & Ho & Hg). split; [|split].
  - intros d Hd Pd Ek nd. destruct (claims_known _ _ ok d Hd) as (t & Ht & Le). rewrite Ek, Hk in Ht. injection Ht as <-.
    split.
    + destruct (decide (c_generation d = c_generation c)) as [e|]; [|lia]. by destruct (nd (grants_ordered _ _ ok d c Hd Hc Pd P Ek e)).
    + intros p o writer ttl now. unfold finish_read. assert (held_state d (ledger w) = None) as ->; [|done].
      destruct (held_state d (ledger w)) as [t|] eqn:E; [|done]. apply held_some in E as (Hk' & Ho' & _). rewrite Ek, Hk in Hk'. injection Hk' as <-.
      destruct nd. apply (grants_unique _ _ ok); [done..|congruence].
  - intros target cls age now owner t Ek Hl Lt. unfold claim_locked. rewrite Ek, Hk. change (default new_state (Some s)) with s.
    assert (read_reason (Some s) now age = "leased") as ->; [|done]. unfold read_reason, past. rewrite Hl. by destruct (Z.ltb_spec now t); [|lia].
  - intros p o writer ttl now b w' E. apply finish_ledger in E as [[E _]|(t & Ht & ->)]; [congruence|].
    unfold held_state. rewrite lookup_insert_eq. cbn. destruct P as [x Px]. rewrite Px. by rewrite bool_decide_false.
Qed.

(** ** A run with an expired lease *)

Definition secs (n : Z) : Z := n * SECOND.
Definition account : CollectionSubject := MkTarget (of_contract 7 "0xaa") 1.
Definition reading (wei : Z) : payload := NativePayload (MkNative (Some wei) (Some 100%Z) false None "ETH" "ETH" true None None).

Definition start_world : World := MkWorld ∅ (MkStore [] [] 1 1) {[ 7%Z := Some 1%Z ]} [].

(** A daily collector reads 100 wei at ten seconds. *)
Definition daily : Claim := (claim_locked account NativeRead (Some 86400%Z) (secs 0) "daily" ∅).1.
Definition world_daily : World := with_ledger (claim_locked account NativeRead (Some 86400%Z) (secs 0) "daily" ∅).2 start_world.
Definition after (r : option (bool * World)) (w : World) : World := match r with Some (_, w') => w' | None => w end.
Definition world_read : World := after (finish_read None daily (reading 100) Success "tvl" 86400 (secs 10) world_daily) world_daily.

(** An hourly collector claims the same account and is slow. *)
Definition hourly : Claim := (claim_locked account NativeRead (Some 3600%Z) (secs 3700) "hourly" (ledger world_read)).1.
Definition world_hourly : World := with_ledger (claim_locked account NativeRead (Some 3600%Z) (secs 3700) "hourly" (ledger world_read)).2 world_read.

(** Its lease has expired when the daily collector finds the old reading fresh. *)
Definition reuser : Claim := unowned account NativeRead (default new_state (ledger world_hourly !! claim_key hourly)) "fresh".

(** The hourly collector reads 40 wei and finishes late. *)
Definition world_late : World := after (finish_read None hourly (reading 40) Success "tvl" 3600 (secs 4200) world_hourly) world_hourly.

(** The daily one then prices the reading it found, and republishes. *)
Definition repriced : Claim := (reprice_unpriced_native reuser (Some (2000%Q, secs 4150)) (ledger world_late)).1.
Definition world_repriced : World := with_ledger (reprice_unpriced_native reuser (Some (2000%Q, secs 4150)) (ledger world_late)).2 world_late.
Definition fresh_again : Claim := unowned account NativeRead (default new_state (ledger world_repriced !! claim_key hourly)) "fresh".
Definition world_republished : World := after (publish_reuse None fresh_again "tvl" world_repriced) world_repriced.

Lemma run_hourly : reachable None start_world (world_hourly, [hourly; daily]).
Proof.
  eapply rtc_l; [eapply (step_lock None start_world [] account NativeRead (Some 86400%Z) (secs 0) "daily"); [set_solver|apply surjective_pairing]|].
  eapply rtc_l; [eapply (step_finish None world_daily [daily] daily (reading 100) Success "tvl" 86400 (secs 10) true world_read);
                 [set_solver|by eexists|vm_compute; reflexivity]|].
  apply rtc_once. apply (step_lock None world_read [daily] account NativeRead (Some 3600%Z) (secs 3700) "hourly"); [|apply surjective_pairing].
  intros d Hd. apply list_elem_of_singleton in Hd as ->. vm_compute. discriminate.
Qed.

Lemma collection_single_writer_witness : held_state hourly (ledger world_hourly) <> None /\
  (c_generation daily < c_generation hourly)%Z /\ finish_read None daily (reading 1) Success "tvl" 86400 (secs 3800) world_hourly = Some (false, world_hourly).
Proof.
  destruct (held_state hourly (ledger world_hourly)) as [s|] eqn:E; [|vm_compute in E; discriminate E].
  destruct (collection_single_writer None start_world world_hourly [hourly; daily] hourly s) as [W _].
  - intros k t Ht. vm_compute in Ht. discriminate Ht.
  - exact run_hourly.
  - apply elem_of_cons; left; reflexivity.
  - eexists. reflexivity.
  - exact E.
  - split; [discriminate|]. destruct (W daily) as [G F].
    + apply elem_of_cons; right; apply elem_of_cons; left; reflexivity.
    + eexists. reflexivity.
    + vm_compute. reflexivity.
    + intros D. apply (f_equal c_generation) in D. vm_compute in D. discriminate D.
    + split; [exact G|apply F].
Defined.

(** A reading can come back: with collectors of different periods, a lease that
    expired without being superseded lets a collector find the older reading fresh
    under the newer claim's generation; pricing it after the newer read has finished
    overwrites the newer quantity in the cache, under the newer observation time,
    and republishing makes the older quantity the current row. *)
Theorem repricing_resurrects_reading :
  reachable None start_world (world_republished, [fresh_again; repriced; reuser; hourly; daily]) /\
  (exists s, ledger world_republished !! claim_key hourly = Some s /\ observed_at s = Some (secs 4200) /\
     cached s = Some (NativePayload (with_price (MkNative (Some 100%Z) (Some 100%Z) false None "ETH" "ETH" true None None) 2000 (secs 4150)))) /\
  (sb_raw_balance <$> contract_balances_latest (store world_late)) = ["40"] /\
  (sb_raw_balance <$> contract_balances_latest (store world_republished)) = ["100"].
Proof.
  split; [|split; [eexists|]; repeat split; vm_compute; reflexivity].
  unfold reachable. transitivity (world_hourly, [hourly; daily]); [apply run_hourly|].
  eapply rtc_l; [apply (step_peek None world_hourly [hourly; daily] account NativeRead (Some 86400%Z) (secs 4100) reuser); vm_compute; reflexivity|].
  eapply rtc_l; [apply (step_finish None world_hourly [reuser; hourly; daily] hourly (reading 40) Success "tvl" 3600 (secs 4200) true world_late);
                 [set_solver|by eexists|vm_compute; reflexivity]|].
  eapply rtc_l; [apply (step_reprice None world_late [reuser; hourly; daily] reuser (Some (2000%Q, secs 4150)) repriced (ledger world_repriced));
                 [set_solver|done|done|apply surjective_pairing]|].
  eapply rtc_l; [apply (step_peek None world_repriced [repriced; reuser; hourly; daily] account NativeRead (Some 3600%Z) (secs 4300) fresh_again); vm_compute; reflexivity|].
  apply rtc_once. apply (step_reuse None world_repriced _ fresh_again "tvl" true world_republished); [set_solver|done|vm_compute; reflexivity].
Qed.
