(* ===== verification/ValueLoad.v ===== *)
(** * Loading the value plane ([load_value_plane] of [services/scoring/planes/value.py])

    From a protocol's contracts, the codeless principals its control graph reached,
    the stored fetches and the rows of the latest view, to the plane of [Value].

    - [to_float] is [float] of a text.
    - The rows of a query are lists in the query's order; where only a sum, a maximum
      or emptiness is read of a dict, its order is left open.
    - [None] is [AliasCycleError] ([ValueTheory.alias_fixed_point_total]). *)

From stdpp Require Import base gmap sets list strings sorting.
From Stdlib Require Import String Ascii ZArith QArith Lia.
From S2P Require Import Prelude PyText EvalContext Chains Planes ScoreModel Signals Units Grade Value Balances.

Local Open Scope string_scope.

Record ContractRow := MkContractRow { ct_id : Z; ct_chain : option string; ct_address : option string; ct_implementation : option string }.

Definition pointer_of (c : ContractRow) : ContractPointer := MkPointer (ct_chain c) (ct_address c) (ct_implementation c).

(** An account of the perimeter, with its [chain_of] and [address_of]. *)
Record Account := MkAccount { ac_key : SubjectKey; ac_chain : string; ac_address : string }.

Definition contract_account (c : ContractRow) : Account := MkAccount (OfContract (ct_id c)) (coalesce_chain (ct_chain c)) (str_lower (default "" (ct_address c))).

(** [str.partition] *)
Fixpoint partition_at (sep s : string) : string * string :=
  match str_after sep s with
  | Some r => ("", r)
  | None => match s with
            | EmptyString => ("", "")
            | String c s => let '(a, b) := partition_at sep s in (String c a, b)
            end
  end.

(** [load_proven_eoa_entities] *)
Definition load_proven_eoa_entities (nodes : list (option string * option string)) : gset string :=
  list_to_set (List.map (fun n => entity_key n.2 n.1) nodes).

(** [entity_identities] *)
Definition entity_account (key : string) : option Account :=
  let '(chain, address) := partition_at "::" key in
  if String.eqb chain "" || String.eqb address "" then None else Some (MkAccount (OfEntity chain address) chain address).

Definition perimeter (contracts : list ContractRow) (eoas : gset string) : list Account :=
  (List.map contract_account contracts ++ omap entity_account (sorted_set eoas))%list.

Definition own_key (a : Account) : string := entity_key (Some (ac_chain a)) (Some (ac_address a)).

Definition folded (alias : gmap string string) (key : string) : string := default key (alias !! key).
Definition account_key (alias : gmap string string) (a : Account) : string := folded alias (own_key a).

Definition account_of (accounts : list Account) (key : SubjectKey) : option Account :=
  head (List.filter (fun a => bool_decide (ac_key a = key)) accounts).

(** [typed_receipt_is_resolved] of [_shared.py] *)
Definition TYPED_PER_ID_BASES : list string := ["balance_of_batch_per_id"; "balance_of_account_id_per_id"; "owner_of_per_id"].

Definition is_true_value (v : pyval) : bool := match v with PyBool true => true | _ => false end.

Record Position := MkPosition {
  po_chain_id : option Z;
  po_node : option string;
  po_shares : option Q;
  po_basis : option string;
  po_agreement : option string;
}.

Definition chain_name (chain_id : option Z) : option string :=
  i ← chain_id;
  match chain_by_id i with Ok info => Some (coalesce_chain (Some (ci_name info))) | Raise _ => None end.

Section Load.
Context (to_float : string -> option Q).

Definition typed_receipt_is_resolved (entry : pyval) : bool :=
  match entry with
  | PyDict d =>
      if negb (is_true_value (py_get "quantity_readable" d)) then false
      else if existsb (py_eq_str (py_get "quantity_basis" d)) TYPED_PER_ID_BASES && negb (is_true_value (py_get "ids_complete" d)) then false
      else match to_float (py_str (py_get "quantity" d)) with Some q => Qeq_bool q 0 | None => false end
  | _ => false
  end.

(** ** Observations *)

Definition reading_of (b : Balance) : BalanceRow := MkBalance (sb_id b) (sb_block b) (Some (sb_fetched_at b)) (sb_usd b) (to_float (sb_raw_balance b)).

Definition asset_of (b : Balance) : string :=
  match sb_token b with Some t => if String.eqb t "" then NATIVE_ASSET else str_lower t | None => NATIVE_ASSET end.

(** A row of the perimeter, under its sheet's key. *)
Record Observed := MkObserved { ob_key : string; ob_asset : string; ob_account : string; ob_reading : BalanceRow }.

Definition observed_of (alias : gmap string string) (accounts : list Account) (b : Balance) : option Observed :=
  a ← account_of accounts (sb_subject b);
  Some (MkObserved (account_key alias a) (asset_of b) (str_lower (default "" (sb_observed_address b))) (reading_of b)).

Definition bucket_rows (rows : list Observed) (ka : string * string) : list Observed :=
  List.filter (fun o => String.eqb (ob_key o) ka.1 && String.eqb (ob_asset o) ka.2) rows.

Definition bucket_accounts (rows : list Observed) : list (string * list BalanceRow) :=
  List.map (fun acc => (acc, List.map ob_reading (List.filter (fun o => String.eqb (ob_account o) acc) rows))) (remove_dups (List.map ob_account rows)).

Definition observations (rows : list Observed) : list (string * string * list (string * list BalanceRow)) :=
  List.map (fun ka => (ka, bucket_accounts (bucket_rows rows ka))) (remove_dups (List.map (fun o => (ob_key o, ob_asset o)) rows)).

Definition native_seen (rows : list Observed) : gset string :=
  list_to_set (omap (fun o => if String.eqb (ob_asset o) NATIVE_ASSET then Some (ob_key o) else None) rows).

(** ** Completeness *)

(** The fetch whose rows were loaded is a completed scan of the account's own address. *)
Definition swept (a : Account) (f : Fetch) : bool :=
  bool_decide (f_source f = ASSET_SET_SOURCE_CHAIN_LOG_SWEEP) && bool_decide (f_sweep f = Some SWEEP_STATUS_COMPLETED) && is_some (f_swept_through f)
  && match f_typed_assets f with Some (PyList _) => true | _ => false end
  && String.eqb (str_lower (f_observed_address f)) (ac_address a).

Definition typed_entries (f : Fetch) : list pyval := match f_typed_assets f with Some (PyList l) => l | _ => [] end.

Definition account_truncated (fs : list Fetch) (a : Account) : bool :=
  is_some (latest_partial fs (ac_key a))
  || match asset_winner fs (ac_key a) with Some f => bool_decide (f_assets f = ASSET_SET_STATUS_AT_PAGE_CAP) | None => false end.

Definition account_scanned (fs : list Fetch) (a : Account) : bool :=
  match asset_winner fs (ac_key a) with Some f => swept a f | None => false end.

Definition account_unresolved (fs : list Fetch) (a : Account) : list pyval :=
  match asset_winner fs (ac_key a) with Some f => List.filter (fun e => negb (typed_receipt_is_resolved e)) (typed_entries f) | None => [] end.

Section Fold.
Context (alias : gmap string string) (accounts : list Account) (fs : list Fetch).

Definition accounts_at (key : string) : list Account := List.filter (fun a => String.eqb (account_key alias a) key) accounts.
Definition sheet_keys : gset string := list_to_set (List.map (account_key alias) accounts).

Definition truncated_keys : gset string := filter (fun k => existsb (account_truncated fs) (accounts_at k) = true) sheet_keys.

(** Keys with at least one scan. *)
Definition scanned_keys : gset string := filter (fun k => existsb (account_scanned fs) (accounts_at k) = true) sheet_keys.

Definition unscanned_at (key : string) : list string :=
  sorted_strings (List.map ac_address (List.filter (fun a => negb (account_scanned fs a)) (accounts_at key))).

Definition accounts_unscanned : gmap string (list string) :=
  filter (fun kl => kl.2 <> []) (set_to_map (fun k => (k, unscanned_at k)) scanned_keys).

Definition proven_complete : gset string := filter (fun k => unscanned_at k = [] /\ k ∉ truncated_keys) scanned_keys.

Definition typed_unresolved : gmap string (list pyval) :=
  filter (fun kl => kl.2 <> []) (set_to_map (fun k => (k, List.concat (List.map (account_unresolved fs) (accounts_at k)))) sheet_keys).

(** ** The native discriminator *)

(** [latest_fetch]: the last fetch that attempted the native read. *)
Definition latest_native (a : Account) : option Fetch := top newer_first (of_subject (ac_key a) (fun f => negb (bool_decide (f_native f = NATIVE_UNATTEMPTED))) fs).

(** By account key; a later account of the same key replaces an earlier one. *)
Definition native_facts_at (key : string) : gmap string string :=
  foldl (fun m a => match latest_native a with Some f => <[own_key a := native_balance_fact (f_native f) (f_block f)]> m | None => m end) ∅ (accounts_at key).

(** The text before ["_at_block"]. *)
Definition polarity (fact : string) : string := (partition_at "_at_block" fact).1.

Definition native_fact_of (key : string) : option string :=
  let facts := native_facts_at key in
  if bool_decide (facts = ∅) then None
  else Some (if (1 <? List.length (remove_dups (List.map (fun f => polarity f.2) (map_to_list facts))))%nat then "not_determined"
             else default "not_determined" (facts !! key)).

Definition native_facts (seen : gset string) : gmap string string :=
  omap (fun f : option string => f) (set_to_map (fun k => (k, native_fact_of k)) (sheet_keys ∖ seen)).
End Fold.

(** ** Restaking positions *)

Definition position_shares (alias : gmap string string) (p : Position) : option (string * Q) :=
  chain ← chain_name (po_chain_id p);
  let key := folded alias (entity_key (Some chain) (po_node p)) in
  if negb (bool_decide (po_basis p ∈ [Some "eigenlayer_beacon_shares"; Some "no_eigenpod_proven"])) then None
  else match po_shares p with
       | None => None
       | Some shares => if bool_decide (po_agreement p = Some "inconsistent") then None else Some (key, shares)
       end.

Definition max_share (m : gmap string Q) (ks : string * Q) : gmap string Q :=
  match m !! ks.1 with
  | Some previous => if Qlt_bool previous ks.2 then <[ks.1 := ks.2]> m else m
  | None => <[ks.1 := ks.2]> m
  end.

Definition unpriced_shares (alias : gmap string string) (positions : list Position) : gmap string Q :=
  foldl max_share ∅ (omap (position_shares alias) positions).

Definition position_record (shares : Q) : list (string * Q) := [("eigenlayer_beacon_shares_wei", shares)].

(** ** The plane *)

(** The native zero of a sheet whose list is proven whole. *)
Definition native_zero_step (seen : gset string) (facts : gmap string string) (st : table Q * table asset_state) (key : string) : table Q * table asset_state :=
  if bool_decide (key ∈ seen) || negb (starts_with "proven_zero" (default "" (facts !! key))) then st
  else (put2 key NATIVE_ASSET 0%Q st.1, put2 key NATIVE_ASSET ASSET_PROVEN_ZERO st.2).

Definition plane_of (al : gmap string string) (ambiguous : gset string) (accounts : list Account) (st : Store) (positions : list Position) : ValuePlane :=
  let fs := fetches st in
  let rows := omap (observed_of al accounts) (contract_balances_latest st) in
  let complete := proven_complete al accounts fs in
  let facts := native_facts al accounts fs (native_seen rows) in
  let readings := foldl (native_zero_step (native_seen rows) facts) (reduce_observations (observations rows)) (sorted_set complete) in
  MkPlane readings.1 readings.2 facts (truncated_keys al accounts fs) complete (accounts_unscanned al accounts fs) (typed_unresolved al accounts fs)
    al ambiguous (position_record <$> unpriced_shares al positions).

(** [load_value_plane] *)
Definition load_value_plane (contracts : list ContractRow) (eoas : gset string) (st : Store) (positions : list Position) : option ValuePlane :=
  match implementation_alias (List.map pointer_of contracts) with
  | Some (Some al, ambiguous) => Some (plane_of al ambiguous (perimeter contracts eoas) st positions)
  | _ => None
  end.
End Load.
