(* ===== verification/ValueTheory.v ===== *)
(** * What the value plane publishes

    The alias fold ends at the proxy or at the cycle's exception; off a priced sheet
    the only number the loaded plane publishes is a zero every witness supports; and
    what that zero leaves unread. *)

From stdpp Require Import base gmap sets list strings sorting.
From Stdlib Require Import String Ascii ZArith QArith Lia.
From S2P Require Import Prelude PyText EvalContext Planes ScoreModel Signals Units Grade Value Balances BalancesTheory UnitsTheory ValueLoad.

Local Open Scope string_scope.

(** ** The alias fold *)

(** [ends alias k n e]: following the alias from [k] stops at [e] after [n] steps. *)
Inductive ends (alias : gmap string string) : string -> nat -> string -> Prop :=
| ends_here k : alias !! k = None \/ alias !! k = Some k -> ends alias k 0 k
| ends_next k next n e : alias !! k = Some next -> next <> k -> ends alias next n e -> ends alias k (S n) e.

Lemma ends_det alias k n e : ends alias k n e -> forall n' e', ends alias k n' e' -> n' = n /\ e' = e.
Proof.
  induction 1 as [k H|k next n e Hk Hn Hend IH]; intros n' e' E; inversion E as [? H1|? next' ? ? Hk' Hn' E']; subst.
  - done.
  - exfalso. destruct H; congruence.
  - exfalso. destruct H1; congruence.
  - assert (next' = next) as -> by congruence. destruct (IH _ _ E'). split; congruence.
Qed.

Lemma ends_stop alias k n e : ends alias k n e -> alias !! e = None \/ alias !! e = Some e.
Proof. by induction 1. Qed.

Lemma climb_spec alias fuel : forall seen current, NoDup seen -> (forall x, x ∈ seen -> x ∈ dom alias) ->
  (size alias + 2 <= List.length seen + fuel)%nat -> (forall x n e, x ∈ seen -> ends alias current n e -> exists n', (n < n')%nat /\ ends alias x n' e) ->
  (exists n e, alias_climb fuel alias seen current = Some (Some e) /\ ends alias current n e) \/
  (alias_climb fuel alias seen current = Some None /\ forall n e, ~ ends alias current n e).
Proof.
  induction fuel as [|fuel IH]; intros seen current ND D Len Back.
  { exfalso. assert (List.length seen <= size alias)%nat; [|lia]. rewrite <-size_dom. rewrite <-(size_list_to_set (C := gset string) seen ND).
    apply subseteq_size. intros x Hx. apply D. by apply elem_of_list_to_set in Hx. }
  cbn [alias_climb]. destruct (alias !! current) as [next|] eqn:E.
  2: { left. exists 0%nat, current. split; [done|]. constructor. by left. }
  destruct (String.eqb_spec next current) as [->|n]; [left; exists 0%nat, current; split; [done|constructor; by right]|].
  case_bool_decide as S.
  - right. split; [done|]. intros m e He. destruct (Back current m e S He) as (m' & Lt & He'). apply (ends_det _ _ _ _ He) in He' as [-> _]. lia.
  - assert (Step : forall m e, ends alias current m e -> exists m', m = Datatypes.S m' /\ ends alias next m' e).
    { intros m e He. inversion He as [? H|? nx m' ? H1 H2 H3]; subst; [destruct H; congruence|]. assert (nx = next) as -> by congruence. eauto. }
    destruct (IH (current :: seen) next) as [(m & e & Ec & He)|[Ec No]].
    + by constructor.
    + intros x [->|Hx]%elem_of_cons; [apply elem_of_dom; eauto|auto].
    + cbn. lia.
    + intros x m e [->|Hx]%elem_of_cons He; [exists (Datatypes.S m); split; [lia|by econstructor]|].
      destruct (Back x (Datatypes.S m) e Hx) as (m' & Lt & He'); [by econstructor|]. exists m'. split; [lia|done].
    + left. exists (Datatypes.S m), e. split; [done|by econstructor].
    + right. split; [done|]. intros m e He. apply Step in He as (m' & _ & He'). by eapply No.
Qed.

Lemma target_spec alias key : key ∈ dom alias -> (exists n e, alias_target alias key = Some (Some e) /\ ends alias key n e) \/
  (alias_target alias key = Some None /\ forall n e, ~ ends alias key n e).
Proof.
  intros [next E]%elem_of_dom. unfold alias_target. rewrite E. destruct (decide (next = key)) as [->|n].
  - left. exists 0%nat, key. unfold alias_fuel. cbn [alias_climb]. rewrite E, String.eqb_refl. split; [done|]. constructor. by right.
  - destruct (climb_spec alias (alias_fuel alias) [key] next) as [(m & e & Ec & He)|[Ec No]].
    + apply NoDup_singleton.
    + intros x Hx. apply list_elem_of_singleton in Hx as ->. apply elem_of_dom. eauto.
    + unfold alias_fuel. cbn. lia.
    + intros x m e Hx He. apply list_elem_of_singleton in Hx as ->. exists (S m). split; [lia|by econstructor].
    + left. exists (S m), e. split; [done|by econstructor].
    + right. split; [done|]. intros m e He. inversion He as [? H|? nx m' ? H1 H2 H3]; subst; [destruct H; congruence|].
      assert (nx = next) as -> by congruence. by eapply No.
Qed.

(** The fold never runs out: it resolves every alias to the end of its chain, or
    raises because some alias has none. *)
Lemma alias_fixed_point_total alias :
  (exists m, alias_fixed_point alias = Some (Some m) /\ dom m = dom alias /\ forall k e, m !! k = Some e -> exists n, ends alias k n e) \/
  (alias_fixed_point alias = Some None /\ exists k, k ∈ dom alias /\ forall n e, ~ ends alias k n e).
Proof.
  unfold alias_fixed_point. assert (Hin : forall k, k ∈ sorted_keys alias -> k ∈ dom alias) by (intros k; apply sorted_keys_elem).
  assert (Dom : dom alias = list_to_set (sorted_keys alias)) by (apply set_eq; intros k; rewrite elem_of_list_to_set, sorted_keys_elem; done).
  rewrite Dom. clear Dom. induction (sorted_keys alias) as [|k l IH]; [left; exists ∅; split; [done|]; split; [set_solver|]; intros k e H; by rewrite lookup_empty in H|].
  cbn [foldr]. destruct IH as [(m & Em & Dm & Hm)|(Em & k' & Hk' & No)]; [set_solver| |].
  - rewrite Em. cbn [mbind option_bind]. destruct (target_spec alias k) as [(n & e & Et & He)|[Et No]]; [set_solver| |]; rewrite Et; cbn [mbind option_bind].
    + left. eexists. split; [done|]. split; [rewrite dom_insert_L, Dm; set_solver|]. intros j f Hj.
      destruct (decide (k = j)) as [<-|nj]; [rewrite lookup_insert_eq in Hj; injection Hj as <-; eauto|]. rewrite lookup_insert_ne in Hj by done. eauto.
    + right. split; [done|]. exists k. set_solver.
  - rewrite Em. cbn [mbind option_bind]. right. destruct (target_spec alias k) as [(n & e & Et & He)|[Et _]]; [set_solver| |];
      rewrite Et; (split; [done|]; exists k'; set_solver).
Qed.

(** The fold is its own fixed point. *)
Lemma resolved_idem alias m k : alias_fixed_point alias = Some (Some m) -> folded m (folded m k) = folded m k.
Proof.
  intros E. destruct (alias_fixed_point_total alias) as [(m' & E' & D & H)|[E' _]]; [|congruence]. rewrite E in E'. injection E' as <-.
  unfold folded. destruct (m !! k) as [e|] eqn:K; cbn; [|by rewrite K]. destruct (H k e K) as [n He]. apply ends_stop in He as S.
  destruct (m !! e) as [e'|] eqn:Ke; [|done]. cbn. destruct (H e e' Ke) as [n' He']. destruct S as [S|S].
  - exfalso. assert (e ∈ dom alias) as [x Hx]%elem_of_dom; [rewrite <-D; apply elem_of_dom; eauto|congruence].
  - assert (Hee : ends alias e 0 e) by (constructor; by right). by destruct (ends_det _ _ _ _ Hee _ _ He') as [_ ->].
Qed.

(** ** The reduction *)

Definition state_at (t : table asset_state) (key asset : string) : option asset_state := m ← t !! key; m !! asset.

Lemma state_at_put t key asset v k a : state_at (put2 key asset v t) k a = if bool_decide (k = key /\ a = asset) then Some v else state_at t k a.
Proof.
  unfold state_at, put2. destruct (decide (k = key)) as [->|n].
  - rewrite lookup_insert_eq. cbn [mbind option_bind]. destruct (decide (a = asset)) as [->|na].
    + by rewrite lookup_insert_eq, bool_decide_true.
    + rewrite lookup_insert_ne, bool_decide_false by naive_solver. by destruct (t !! key).
  - rewrite lookup_insert_ne, bool_decide_false by naive_solver. done.
Qed.

Notation bucket := (string * string * list (string * list BalanceRow))%type.

Lemma reduce_keeps (os : list bucket) : forall st k a, (k, a) ∉ List.map fst os -> state_at (foldl reduce_step st os).2 k a = state_at st.2 k a.
Proof.
  induction os as [|[[k0 a0] acc0] os IH]; intros st k a N; [done|]. cbn [foldl]. rewrite IH by set_solver.
  cbn [reduce_step]. destruct (reduce_bucket acc0) as [s v]. cbn [snd]. rewrite state_at_put, bool_decide_false; [done|]. intros [-> ->]. set_solver.
Qed.

Lemma reduce_state (os : list bucket) : NoDup (List.map fst os) -> forall st k a accounts, (k, a, accounts) ∈ os ->
  state_at (foldl reduce_step st os).2 k a = Some (reduce_bucket accounts).1.
Proof.
  induction os as [|[[k0 a0] acc0] os IH]; intros ND st k a accounts H; [set_solver|]. cbn in ND. apply NoDup_cons in ND as [N ND].
  apply elem_of_cons in H as [E|H]; cbn [foldl]; [|by apply IH].
  injection E as -> -> ->. rewrite reduce_keeps by done. cbn [reduce_step]. destruct (reduce_bucket acc0) as [s v]. cbn [snd fst].
  by rewrite state_at_put, bool_decide_true.
Qed.

(** The reduction never disposes of an asset. *)
Lemma reduce_bucket_state accounts : (reduce_bucket accounts).1 <> ASSET_AIRDROP_DELIVERED.
Proof. unfold reduce_bucket. repeat case_match; done. Qed.

Lemma asset_reading_zero r : (asset_reading r).2 = ASSET_PROVEN_ZERO -> asset_reading r = (Some 0%Q, ASSET_PROVEN_ZERO).
Proof. unfold asset_reading. repeat case_match; done. Qed.

Lemma any_state_false s rs : any_state s rs = false -> forall r, r ∈ rs -> r.2 <> s.
Proof.
  unfold any_state. intros E r Hr Es. assert (existsb (fun r => bool_decide (r.2 = s)) rs = true); [|congruence].
  apply existsb_exists. exists r. split; [by apply list_elem_of_In|by apply bool_decide_true].
Qed.

(** A bucket is a proven zero only when each account's current reading is. *)
Lemma reduce_bucket_zero accounts acc r rs : (reduce_bucket accounts).1 = ASSET_PROVEN_ZERO -> (acc, r :: rs) ∈ accounts ->
  asset_reading (latest_observation r rs).1 = (Some 0%Q, ASSET_PROVEN_ZERO).
Proof.
  intros E H. set (x := asset_reading _). assert (Hx : x ∈ account_readings accounts).
  { unfold account_readings. apply list_elem_of_omap. exists (acc, r :: rs). done. }
  apply asset_reading_zero. fold x. unfold reduce_bucket in E.
  destruct (any_state ASSET_PRICED _) eqn:P; [done|]. destruct (any_state ASSET_BELOW_RESOLUTION _) eqn:B; [done|].
  destruct (any_state ASSET_UNPRICED _) eqn:U; [done|].
  pose proof (any_state_false _ _ P x Hx). pose proof (any_state_false _ _ B x Hx). pose proof (any_state_false _ _ U x Hx).
  assert (x.2 <> ASSET_AIRDROP_DELIVERED) by (unfold x, asset_reading; repeat case_match; done). destruct (x.2); congruence.
Qed.

Lemma observations_fst rows : List.map fst (observations rows) = remove_dups (List.map (fun o => (ob_key o, ob_asset o)) rows).
Proof. unfold observations. rewrite List.map_map. apply List.map_id. Qed.

Lemma observations_asset rows k a accounts : (k, a, accounts) ∈ observations rows -> exists o, o ∈ rows /\ ob_key o = k /\ ob_asset o = a.
Proof.
  intros H. assert ((k, a) ∈ List.map fst (observations rows)) as Hka.
  { apply list_elem_of_In. apply in_map_iff. exists (k, a, accounts). split; [done|by apply list_elem_of_In]. }
  rewrite observations_fst, elem_of_remove_dups in Hka. apply list_elem_of_In, in_map_iff in Hka as (o & E & Ho). injection E as <- <-.
  exists o. split; [by apply list_elem_of_In|done].
Qed.

Lemma native_seen_elem rows k : (exists o, o ∈ rows /\ ob_key o = k /\ ob_asset o = NATIVE_ASSET) -> k ∈ native_seen rows.
Proof. intros (o & Ho & <- & Ea). unfold native_seen. apply elem_of_list_to_set, list_elem_of_omap. exists o. by rewrite Ea. Qed.

Lemma native_zero_keeps seen facts ks : forall st k a, (k ∈ seen \/ a <> NATIVE_ASSET) ->
  state_at (foldl (native_zero_step seen facts) st ks).2 k a = state_at st.2 k a.
Proof.
  induction ks as [|key ks IH]; intros st k a H; [done|]. cbn [foldl]. rewrite IH by done. unfold native_zero_step.
  destruct (bool_decide (key ∈ seen) || _) eqn:E; [done|]. cbn [snd]. rewrite state_at_put, bool_decide_false; [done|].
  intros [-> ->]. apply orb_false_iff in E as [E _]. rewrite bool_decide_eq_false in E. naive_solver.
Qed.

(** Each state of the loaded plane is a bucket's, or the native zero. *)
Lemma zero_states seen facts ks : forall st, (forall k a, state_at st.2 k a <> Some ASSET_AIRDROP_DELIVERED) ->
  forall k a, state_at (foldl (native_zero_step seen facts) st ks).2 k a <> Some ASSET_AIRDROP_DELIVERED.
Proof.
  induction ks as [|key ks IH]; intros st H; [done|]. cbn [foldl]. apply IH. intros k a. unfold native_zero_step.
  destruct (_ || _); [apply H|]. cbn [snd]. rewrite state_at_put. destruct (bool_decide _); [done|apply H].
Qed.

Lemma reduce_states (os : list bucket) : forall st, (forall k a, state_at st.2 k a <> Some ASSET_AIRDROP_DELIVERED) ->
  forall k a, state_at (foldl reduce_step st os).2 k a <> Some ASSET_AIRDROP_DELIVERED.
Proof.
  induction os as [|[[k0 a0] acc0] os IH]; intros st H; [done|]. cbn [foldl]. apply IH. intros k a. cbn [reduce_step].
  pose proof (reduce_bucket_state acc0) as N. destruct (reduce_bucket acc0) as [s v]. cbn [fst snd] in *. rewrite state_at_put.
  destruct (bool_decide _); [congruence|apply H].
Qed.

Lemma states_at_elem p k s : s ∈ states_at p k <-> exists a, state_at (per_asset_state p) k a = Some s.
Proof.
  unfold states_at, state_at. destruct (per_asset_state p !! k) as [m|]; cbn [default mbind option_bind].
  - rewrite list_elem_of_fmap. split.
    + intros ([a x] & -> & H). apply elem_of_map_to_list in H. eauto.
    + intros [a H]. exists (a, s). split; [done|]. by apply elem_of_map_to_list.
  - cbn. rewrite map_to_list_empty. cbn. split; [set_solver|by intros []].
Qed.

Lemma has_state_iff s l : has_state s l = true <-> s ∈ l.
Proof.
  unfold has_state. rewrite existsb_exists. split.
  - intros (x & Hx & E). apply bool_decide_eq_true in E as ->. by apply list_elem_of_In.
  - intros H. exists s. split; [by apply list_elem_of_In|by apply bool_decide_true].
Qed.

(** ** The witnesses of a zero *)

Lemma sheet_empty_inv p key : sheet_state p key = SHEET_PROVEN_EMPTY ->
  (forall s, s ∈ states_at p (canonical p key) -> s = ASSET_PROVEN_ZERO \/ s = ASSET_AIRDROP_DELIVERED) /\ proven_empty_refusal p (canonical p key) = None.
Proof.
  unfold sheet_state. set (k := canonical p key). destruct (has_state ASSET_PRICED _) eqn:P; [done|]. cbn [orb].
  destruct (existsb _ _); [done|]. destruct (has_state ASSET_BELOW_RESOLUTION _) eqn:B; [done|]. destruct (has_state ASSET_UNPRICED _) eqn:U; [done|].
  intros E. split.
  - intros s Hs. apply not_true_iff_false in P, B, U. rewrite has_state_iff in P, B, U. destruct s; auto; by destruct P || destruct B || destruct U.
  - destruct (_ && _) in E; [by destruct (disposition_refusal p k)|]. destruct (_ || _) in E; [by destruct (proven_empty_refusal p k)|].
    by destruct (listed_at _ _).
Qed.

Lemma sheet_airdrop_inv p key : sheet_state p key = SHEET_AIRDROP_DETERMINED -> ASSET_AIRDROP_DELIVERED ∈ states_at p (canonical p key).
Proof.
  unfold sheet_state. set (k := canonical p key). intros E. destruct (has_state ASSET_AIRDROP_DELIVERED (states_at p k)) eqn:A; [by apply has_state_iff|].
  cbn [andb] in E. repeat case_match; done.
Qed.

Lemma refusal_none p key : proven_empty_refusal p key = None ->
  listed_at (typed_receipts_unresolved p) (canonical p key) = false /\ canonical p key ∈ asset_set_proven_complete p /\ listed_at (unpriced_positions p) (canonical p key) = false.
Proof.
  unfold proven_empty_refusal. destruct (listed_at (typed_receipts_unresolved p) _); [done|]. case_bool_decide; [|done]. cbn [negb].
  by destruct (listed_at (unpriced_positions p) _).
Qed.

Lemma accounts_at_elem al accounts k a : a ∈ accounts_at al accounts k <-> a ∈ accounts /\ account_key al a = k.
Proof. unfold accounts_at. rewrite elem_filter, String.eqb_eq. done. Qed.

Lemma sorted_nil l : sorted_strings l = [] -> l = [].
Proof. unfold sorted_strings. intros E. assert (P := merge_sort_Permutation str_le l). rewrite E in P. by apply Permutation_nil in P. Qed.

Lemma complete_scanned al accounts fs k a : k ∈ proven_complete al accounts fs -> a ∈ accounts -> account_key al a = k ->
  account_scanned fs a = true /\ account_truncated fs a = false.
Proof.
  unfold proven_complete. rewrite elem_of_filter. intros [[U T] S] Ha Ek. split.
  - unfold unscanned_at in U. apply sorted_nil in U. destruct (account_scanned fs a) eqn:E; [done|].
    assert (a ∈ List.filter (fun a => negb (account_scanned fs a)) (accounts_at al accounts k)) as Hn.
    { apply elem_filter. rewrite E, accounts_at_elem. done. }
    apply map_eq_nil in U. rewrite U in Hn. set_solver.
  - destruct (account_truncated fs a) eqn:E; [|done]. destruct T. unfold truncated_keys. apply elem_of_filter. split.
    + apply existsb_exists. exists a. split; [apply list_elem_of_In, accounts_at_elem; done|done].
    + unfold scanned_keys in S. by apply elem_of_filter in S as [_ S].
Qed.

Lemma swept_spec a f : swept a f = true -> f_source f = ASSET_SET_SOURCE_CHAIN_LOG_SWEEP /\ f_sweep f = Some SWEEP_STATUS_COMPLETED /\
  is_Some (f_swept_through f) /\ str_lower (f_observed_address f) = ac_address a.
Proof.
  unfold swept. rewrite !andb_true_iff, !bool_decide_eq_true, String.eqb_eq. intros [[[[-> ->] T] _] ->].
  destruct (f_swept_through f); [|done]. split; [done|]. split; [done|]. split; [by eexists|done].
Qed.

Lemma complete_accounts al accounts fs k : k ∈ proven_complete al accounts fs -> exists a, a ∈ accounts /\ account_key al a = k.
Proof.
  unfold proven_complete, scanned_keys. rewrite !elem_of_filter. intros [_ [E _]]. apply existsb_exists in E as (a & Ha & _).
  exists a. by apply accounts_at_elem, list_elem_of_In.
Qed.

Lemma set_to_map_listed {A} (f : string -> list A) (ks : gset string) k :
  listed_at (filter (fun kl => kl.2 <> []) (set_to_map (fun k => (k, f k)) ks)) k = false -> k ∈ ks -> f k = [].
Proof.
  intros E Hk. destruct (f k) as [|x l] eqn:F; [done|]. unfold listed_at in E.
  assert (L : filter (fun kl : string * list A => kl.2 <> []) (set_to_map (fun k => (k, f k)) ks : gmap string (list A)) !! k = Some (x :: l)).
  { apply map_lookup_filter_Some. split; [|done]. apply lookup_set_to_map; [by intros i j|]. exists k. by rewrite F. }
  by rewrite L in E.
Qed.

Lemma typed_resolved tf al accounts fs k a : listed_at (typed_unresolved tf al accounts fs) k = false -> a ∈ accounts -> account_key al a = k ->
  account_unresolved tf fs a = [].
Proof.
  intros E Ha Ek. apply set_to_map_listed in E.
  2: { unfold sheet_keys. apply elem_of_list_to_set, list_elem_of_In, in_map_iff. exists a. split; [done|by apply list_elem_of_In]. }
  destruct (account_unresolved tf fs a) as [|x l] eqn:U; [done|]. exfalso.
  assert (x ∈ List.concat (List.map (account_unresolved tf fs) (accounts_at al accounts k))) as Hx; [|rewrite E in Hx; set_solver].
  apply list_elem_of_In, in_concat. exists (x :: l). split; [|by left]. apply in_map_iff. exists a. split; [done|]. by apply list_elem_of_In, accounts_at_elem.
Qed.

Lemma max_share_some ks k : forall m, is_Some (m !! k) \/ k ∈ List.map fst ks -> is_Some (foldl max_share m ks !! k).
Proof.
  induction ks as [|[k0 q0] ks IH]; intros m H; [by destruct H as [H|H]; [|set_solver]|]. cbn [foldl]. apply IH. unfold max_share. cbn [fst snd].
  destruct (decide (k = k0)) as [->|n].
  - left. destruct (m !! k0) as [q|] eqn:E; [destruct (Qlt_bool q q0)|]; rewrite ?lookup_insert_eq, ?E; by eexists.
  - destruct H as [H|H]; [left|right; set_solver]. destruct (m !! k0) as [q|]; [destruct (Qlt_bool q q0)|]; by rewrite ?lookup_insert_ne by done.
Qed.

Lemma no_positions al positions k pos q : listed_at (position_record <$> unpriced_shares al positions) k = false -> pos ∈ positions ->
  position_shares al pos <> Some (k, q).
Proof.
  intros E Hp P. destruct (max_share_some (omap (position_shares al) positions) k ∅) as [v Hv].
  { right. apply list_elem_of_In, in_map_iff. exists (k, q). split; [done|]. apply list_elem_of_In, list_elem_of_omap. eauto. }
  unfold listed_at in E. rewrite lookup_fmap in E. unfold unpriced_shares in E. by rewrite Hv in E.
Qed.

(** The rows the loader reads, under their sheets. *)
Definition loaded_rows (tf : string -> option Q) (al : gmap string string) (contracts : list ContractRow) (eoas : gset string) (st : Store) : list Observed :=
  omap (observed_of tf al (perimeter contracts eoas)) (contract_balances_latest st).

Lemma loaded_bucket tf contracts eoas st positions p k a accounts : load_value_plane tf contracts eoas st positions = Some p ->
  (k, a, accounts) ∈ observations (loaded_rows tf (alias p) contracts eoas st) -> state_at (per_asset_state p) k a = Some (reduce_bucket accounts).1.
Proof.
  unfold load_value_plane. destruct (implementation_alias _) as [[[al|] amb]|]; [|done..]. intros [= <-] H. cbn [alias plane_of] in H.
  unfold plane_of. cbn [per_asset_state]. fold (loaded_rows tf al contracts eoas st). set (rows := loaded_rows tf al contracts eoas st) in *.
  rewrite native_zero_keeps.
  - unfold reduce_observations. apply reduce_state; [|done]. rewrite observations_fst. apply NoDup_remove_dups.
  - destruct (decide (a = NATIVE_ASSET)) as [->|]; [left|by right]. apply native_seen_elem. by eapply observations_asset.
Qed.

Lemma loaded_no_airdrop tf contracts eoas st positions p k a : load_value_plane tf contracts eoas st positions = Some p ->
  state_at (per_asset_state p) k a <> Some ASSET_AIRDROP_DELIVERED.
Proof.
  unfold load_value_plane. destruct (implementation_alias _) as [[[al|] amb]|]; [|done..]. intros [= <-]. cbn [per_asset_state plane_of].
  apply zero_states. intros k' a'. unfold reduce_observations. apply reduce_states. intros. unfold state_at. cbn [snd]. by rewrite lookup_empty.
Qed.

Lemma loaded_canonical tf contracts eoas st positions p key : load_value_plane tf contracts eoas st positions = Some p ->
  canonical p (canonical p key) = canonical p key.
Proof.
  unfold load_value_plane, implementation_alias. destruct (alias_fixed_point _) as [[al|]|] eqn:E; cbn [mbind option_bind]; [|done..]. intros [= <-].
  unfold canonical. cbn [alias plane_of]. by apply (resolved_idem _ _ _ E).
Qed.


(** ** A sheet with an unread native balance *)

Definition int_float (s : string) : option Q := inject_Z <$> int_text 10 s.
Definition sample_contracts : list ContractRow := [MkContractRow 7 (Some "ethereum") (Some "0xAA") None].
Definition sample_scan : Fetch :=
  MkFetch 1 (OfContract 7) 1 "0xaa" None NATIVE_STATUS_FETCH_FAILED ASSET_SET_STATUS_RETURNED_ASSETS (Some 1%Z) ASSET_SET_SOURCE_CHAIN_LOG_SWEEP
    None (Some SWEEP_STATUS_COMPLETED) (Some (PyList [])) (Some 0%Z) (Some 100%Z) "tvl" (Some 5%Z) 5.
Definition sample_row : Balance :=
  MkStored 1 (OfContract 7) (Some "0xtt") None None 18 (Some true) "0" (Some 1%Q) (Some 0%Q) (Some "0xaa") None (Some 5%Z) 5 None (Some 1%Z) (Some FROM_CHAIN_LOG_SWEEP).
Definition sample_store : Store := MkStore [sample_scan] [sample_row] 2 2.
Definition sample_plane : option ValuePlane := load_value_plane int_float sample_contracts ∅ sample_store [].


(** The zero does not cover the native asset: a sheet with one token row read as
    zero, a completed scan, and a native read that failed publishes $0 and a ceiling
    of zero, while the native balance is not determined. *)
Theorem empty_sheet_native_unread : exists p, sample_plane = Some p /\
  sheet_state p "ethereum::0xaa" = SHEET_PROVEN_EMPTY /\ total p "ethereum::0xaa" = Some 0%Q /\ ceiling_for p "ethereum::0xaa" = (Some 0%Q, CEILING_PROVEN_EMPTY) /\
  native_fact p !! "ethereum::0xaa" = Some "not_determined" /\ native_value_state p "ethereum::0xaa" = None.
Proof. eexists. repeat split; vm_compute; reflexivity. Qed.

(** [ceiling_for] has a number exactly on the admitting reasons. *)
Lemma ceiling_number p key : is_some (ceiling_for p key).1 = bool_decide ((ceiling_for p key).2 ∈ CEILING_ADMITTING_REASONS).
Proof. unfold ceiling_for, total. repeat (case_match; try done). Qed.
