(* ===== verification/Contributions.v ===== *)
(** * What one call is charged ([services/scoring/fold/contributions.py])

    The dollars a call is proven to move against each entity it reaches: only a
    witnessed magnitude, a composed one or the controlled node's own sheet gives a
    number, and the keys of one call share the one magnitude it proved.

    - [_Instance] keeps the fields read here; a magnitude is a rational.
    - A disclosure keeps its function, capability, entity, state and figure; its
      prose is left out.  A gap names the entity and the reason. *)

From stdpp Require Import base gmap sets list strings sorting.
From Stdlib Require Import String Ascii ZArith QArith Qminmax Lia Lqa.
From S2P Require Import Prelude PyText EvalContext Planes EntityReach ScoreModel Signals Units Grade Value.

Local Open Scope string_scope.

Definition MAGNITUDE_STATE_PROVEN_EXACT : string := "proven_exact".
Definition MAGNITUDE_STATE_PROVEN_FLOOR : string := "proven_floor".
Definition MAGNITUDE_STATE_PROVEN_UPPER_BOUND : string := "proven_upper_bound".
Definition MAGNITUDE_STATE_PROVEN_CEILING : string := "proven_ceiling".
Definition MAGNITUDE_STATES_UPPER_BOUNDING : list string := [MAGNITUDE_STATE_PROVEN_UPPER_BOUND; MAGNITUDE_STATE_PROVEN_CEILING].

Definition PUBLISHED_CENT : Q := 5 # 1000.

Record Instance := MkInstance { in_signal : FunctionSignal; in_magnitude : Tri Q; in_native_only : bool }.

(** [_ComposedMagnitude] *)
Record Composed := MkComposed { cm_entity : string; cm_function : string; cm_witness_state : string; cm_usd : Q; cm_sheet_usd : option Q }.

Record Unbounded := MkUnbounded { ub_function : string; ub_capability : string; ub_entity : string; ub_state : string; ub_figure : string * Q }.

Inductive ceiling_kind := CEILING_KIND_COMPOSED | CEILING_KIND_SHEET.

Record Contribution := MkContribution {
  co_usd : option Q;
  co_why : string;
  co_note : option Unbounded;
  co_composed : bool;
  co_state : option string;
}.

Definition refused (why : string) : Contribution := MkContribution None why None false None.

(** [_state_word] *)
Definition state_word (state : string) : string := default state (str_after "proven_" state).

(** [_unbounded_figure] *)
Definition unbounded_figure (state : string) (usd : Q) : string * Q :=
  (if String.eqb state MAGNITUDE_STATE_PROVEN_FLOOR then "witnessed_floor_usd"
   else if bool_decide (state ∈ MAGNITUDE_STATES_UPPER_BOUNDING) then "witnessed_upper_bound_usd" else "witnessed_usd", usd).

(** [_ceiling_kind] *)
Definition ceiling_kind_of (from_composed : bool) (state : option string) : option ceiling_kind :=
  if from_composed then Some CEILING_KIND_COMPOSED
  else if bool_decide (state = Some MAGNITUDE_STATE_PROVEN_CEILING) then Some CEILING_KIND_SHEET else None.

(** [_witnessed_magnitude] *)
Definition witnessed_magnitude (i : Instance) : option Q := if tri_is_determined (in_magnitude i) then tri_value (in_magnitude i) else None.

Definition reason_text (r : ceiling_reason) : string :=
  match r with
  | CEILING_ADMITTED => "admitted" | CEILING_PROVEN_EMPTY => "proven_empty" | CEILING_AIRDROP_DETERMINED => "airdrop_determined"
  | CEILING_NO_ROWS => "no_rows" | CEILING_BELOW_RESOLUTION => "below_resolution" | CEILING_UNPRICED => "unpriced"
  | CEILING_ASSET_LIST_TRUNCATED => "asset_list_truncated" | CEILING_ALIAS_AMBIGUOUS => "alias_ambiguous"
  end.

Definition SHEET_BOUND_REFUSED_BY_DISPOSITION : string := "sheet_determined_by_disposition_does_not_bound".
Definition SHEET_CEILING_REFUSED_PREFIX : string := "code_control_sheet_ceiling_refused(".

Section Calls.
Context (p : ValuePlane).

(** [_sheet_ceiling]: [None] when the question does not arise. *)
Definition sheet_ceiling (i : Instance) (key : string) : option (option Q * string) :=
  let s := in_signal i in
  if negb (bool_decide (sig_claim_id s ∈ CODE_CONTROL_CAPABILITIES)) then None
  else if negb (String.eqb (canonical p key) (canonical p (signal_entity s))) then None
  else let '(usd, reason) := ceiling_for p (canonical p key) in
       Some (if bool_decide (reason ∈ CEILING_ADMITTING_REASONS)
             then (usd, "code_control_sheet_ceiling(" ++ reason_text reason ++ ") x entity_holdings")
             else (None, SHEET_CEILING_REFUSED_PREFIX ++ reason_text reason ++ ")")).

(** What the entity holds, what may bound a witness, and the name of both; [None]
    where a native-only flow meets an unread native balance. *)
Definition holdings (i : Instance) (key : string) : option (option Q * option Q * string) :=
  if in_native_only i then
    match native_value_state p key with
    | Some held => Some (Some held, Some held, "native_only_flow x native_balance")
    | None => None
    end
  else Some (total p key, trimming_total p key, "entity_holdings").

(** The branches with a magnitude. *)
Definition witnessed_contribution (i : Instance) (key : string) (held trim : option Q) (basis : string) (magnitude : Q) : Contribution :=
  let s := in_signal i in
  let state := tri_state (in_magnitude i) in
  let note := Some (MkUnbounded (sig_function_name s) (sig_claim_id s) key state (unbounded_figure state magnitude)) in
  match trim, held with
  | Some t, _ => MkContribution (Some (Qmin t magnitude)) ("witnessed_reach(" ++ state_word state ++ ") x " ++ basis) None false (Some state)
  | None, Some _ => MkContribution (Some magnitude) ("witnessed_reach(" ++ state_word state ++ ")+" ++ SHEET_BOUND_REFUSED_BY_DISPOSITION) note false (Some state)
  | None, None =>
      if String.eqb state MAGNITUDE_STATE_PROVEN_EXACT then MkContribution (Some magnitude) ("witnessed_reach(exact) x " ++ basis) None false (Some state)
      else MkContribution (Some magnitude) ("witnessed_reach(" ++ state_word state ++ ")+sheet_not_determined") note false (Some state)
  end.

(** [_entity_contribution] *)
Definition entity_contribution (i : Instance) (transitive : bool) (composed : gmap string Composed) (key : string) : Contribution :=
  if bool_decide (key ∈ alias_ambiguous p) then refused "shared_implementation_folds_onto_no_proxy(not_determined)"
  else match holdings i key with
       | None => refused "native_only_flow+absent_native_row(not_determined)"
       | Some (held, trim, basis) =>
           match witnessed_magnitude i with
           | Some magnitude => witnessed_contribution i key held trim basis magnitude
           | None =>
               match composed !! canonical p key with
               | Some c =>
                   let s := in_signal i in
                   MkContribution (Some (cm_usd c)) ("composed_reach_magnitude(" ++ cm_function c ++ ") x " ++ basis)
                     (if is_some (cm_sheet_usd c) then None
                      else Some (MkUnbounded (sig_function_name s) (sig_claim_id s) (cm_entity c) (cm_witness_state c) (unbounded_figure (cm_witness_state c) (cm_usd c))))
                     true (Some (cm_witness_state c))
               | None =>
                   match sheet_ceiling i key with
                   | Some (Some usd, why) => MkContribution (Some usd) why None false (Some MAGNITUDE_STATE_PROVEN_CEILING)
                   | Some (None, why) => refused why
                   | None =>
                       refused (if is_some held then "reach_magnitude_not_witnessed(not_determined) x " ++ basis ++ (if transitive then "+closure" else "")
                                else if transitive then "closure_entity_value_not_determined" else "entity_value_not_determined")
                   end
               end
           end
       end.

(** ** The keys of one call *)

Record CallGap := MkCallGap { cg_entity : string; cg_why : string }.

(** What the loop over the keys keeps. *)
Record Gathered := MkGathered {
  per_key : gmap string Q;
  call_gaps : list CallGap;
  unbounded : list Unbounded;
  ceilings : gmap string ceiling_kind;
  non_attributed : gset string;
}.

Definition bears_grade (state : option string) : bool :=
  match state with Some s => negb (bool_decide (s ∈ MAGNITUDE_STATES_UPPER_BOUNDING)) | None => false end.

Definition gather (i : Instance) (transitive : bool) (composed : gmap string Composed) (g : Gathered) (key : string) : Gathered :=
  let c := entity_contribution i transitive composed key in
  let notes := (unbounded g ++ match co_note c with Some n => [n] | None => [] end)%list in
  match co_usd c with
  | None => MkGathered (per_key g) (call_gaps g ++ [MkCallGap key (co_why c)])%list notes (ceilings g) (non_attributed g)
  | Some usd =>
      let k := canonical p key in
      let wins := match per_key g !! k with Some previous => Qlt_bool previous usd | None => true end in
      let values := if wins then <[k := usd]> (per_key g) else per_key g in
      let kinds := if wins then delete k (ceilings g) else ceilings g in
      let graded := if wins then non_attributed g ∖ {[k]} else non_attributed g in
      let stands := match values !! k with Some v => Qle_bool v usd | None => true end in
      let kinds := match ceiling_kind_of (co_composed c) (co_state c) with Some kind => if stands then <[k := kind]> kinds else kinds | None => kinds end in
      let graded := if stands then (if bears_grade (co_state c) then {[k]} ∪ graded else graded ∖ {[k]}) else graded in
      MkGathered values (call_gaps g) notes kinds graded
  end.

Definition gather_all (i : Instance) (transitive : bool) (composed : gmap string Composed) (keys : gset string) : Gathered :=
  foldl (gather i transitive composed) (MkGathered ∅ [] [] ∅ ∅) (sorted_set keys).

(** The budget loop: the shares, the exhausted keys and what is left. *)
Definition cap_step (values : gmap string Q) (st : gmap string Q * list string * Q) (key : string) : gmap string Q * list string * Q :=
  let '(capped, exhausted, remaining) := st in
  let take := py_round 6 (Qmin (default 0%Q (values !! key)) remaining) in
  let remaining := py_round 6 (remaining - take) in
  if Qlt_bool take PUBLISHED_CENT then (capped, (exhausted ++ [key])%list, remaining) else (<[key := take]> capped, exhausted, remaining).

Definition cap_all (values : gmap string Q) (magnitude : Q) : gmap string Q * list string * Q := foldl (cap_step values) (∅, [], magnitude) (sorted_keys values).

(** The published record of a magnitude over several keys. *)
Record Capped := MkCapped {
  cp_witnessed : Q;
  cp_entities : list string;
  cp_left : list string;
  cp_uncapped_sum : Q;
  cp_published_sum : option Q;
}.

Record Call := MkCall {
  call_values : gmap string Q;
  all_gaps : list CallGap;
  call_cap : option Capped;
  call_unbounded : list Unbounded;
  call_ceilings : gmap string ceiling_kind;
  call_graded : gset string;
}.

Definition map_total (m : gmap string Q) : Q := q_sum (map_to_list m).*2.

Definition restrict {A} (m : gmap string Q) (kinds : gmap string A) : gmap string A := filter (fun kv => is_Some (m !! kv.1)) kinds.

Definition as_gathered (g : Gathered) : Call :=
  MkCall (per_key g) (call_gaps g) None (unbounded g) (restrict (per_key g) (ceilings g)) (non_attributed g ∩ dom (per_key g)).

(** [_instance_contributions] *)
Definition instance_contributions (i : Instance) (transitive : bool) (composed : gmap string Composed) (keys : gset string) : Call :=
  let g := gather_all i transitive composed keys in
  match witnessed_magnitude i with
  | None => as_gathered g
  | Some magnitude =>
      if (size (per_key g) <? 2)%nat then as_gathered g
      else
        let uncapped := py_round 6 (map_total (per_key g)) in
        if negb (String.eqb (tri_state (in_magnitude i)) MAGNITUDE_STATE_PROVEN_EXACT) then
          MkCall ∅
            (call_gaps g ++ List.map (fun k => MkCallGap k "floor_magnitude_over_multiple_keys_without_apportionment_witness(not_determined)") (sorted_keys (per_key g)))%list
            (Some (MkCapped magnitude (sorted_keys (per_key g)) [] uncapped None)) (unbounded g) ∅ ∅
        else if Qle_bool uncapped magnitude then as_gathered g
        else
          let '(capped, exhausted, _) := cap_all (per_key g) magnitude in
          MkCall capped
            (call_gaps g ++ List.map (fun k => MkCallGap k "call_magnitude_consumed_by_earlier_keys(share_not_determined)") exhausted)%list
            (Some (MkCapped magnitude (sorted_keys (per_key g)) exhausted uncapped (Some (py_round 6 (map_total capped))))) (unbounded g)
            (restrict capped (ceilings g)) (non_attributed g ∩ dom capped)
  end.
End Calls.
