(* ===== verification/ContributionsTheory.v ===== *)
(** * One call, one magnitude

    The figures of a call come from witnesses, share the magnitude the call proved,
    and leave no key out. *)

From stdpp Require Import base gmap sets list strings sorting.
From Stdlib Require Import String Ascii ZArith QArith Qminmax Lia Lqa.
From S2P Require Import Prelude PyText EvalContext Planes EntityReach ScoreModel Signals Units Grade Value UnitsTheory GradeTheory Contributions.

Local Open Scope string_scope.

(** ** Sums over a map *)

Lemma q_sum_perm l1 l2 : l1 ≡ₚ l2 -> (q_sum l1 == q_sum l2)%Q.
Proof. induction 1; rewrite ?q_sum_cons; lra. Qed.

Lemma map_total_empty : (map_total ∅ == 0)%Q.
Proof. unfold map_total. by rewrite map_to_list_empty. Qed.

Lemma map_total_insert m k v : m !! k = None -> (map_total (<[k := v]> m) == v + map_total m)%Q.
Proof.
  intros N. unfold map_total. rewrite (q_sum_perm _ ((k, v) :: map_to_list m).*2).
  - cbn [fmap list_fmap snd]. unfold q_sum. cbn [foldr]. lra.
  - by apply fmap_Permutation, map_to_list_insert.
Qed.

Section Theory.
Context (p : ValuePlane) (i : Instance) (transitive : bool) (composed : gmap string Composed).

Notation contribution := (entity_contribution p i transitive composed).
Notation collect := (foldl (gather p i transitive composed) (MkGathered ∅ [] [] ∅ ∅)).

(** ** The loop over the keys *)

Lemma gather_values l : forall k v, per_key (collect l) !! k = Some v -> exists key, key ∈ l /\ canonical p key = k /\ co_usd (contribution key) = Some v.
Proof.
  induction l as [|x l IH] using rev_ind; intros k v H; [cbn [foldl per_key] in H; by rewrite lookup_empty in H|]. rewrite foldl_app in H. cbn [foldl] in H. unfold gather in H at 1.
  destruct (co_usd (contribution x)) as [usd|] eqn:E; cbn [per_key] in H; [|destruct (IH k v H) as (key & ? & ?); exists key; set_solver].
  destruct (match per_key (collect l) !! canonical p x with Some previous => Qlt_bool previous usd | None => true end) in H.
  - destruct (decide (canonical p x = k)) as [<-|n]; [rewrite lookup_insert_eq in H; injection H as <-; exists x; set_solver|].
    rewrite lookup_insert_ne in H by done. destruct (IH k v H) as (key & ? & ?). exists key. set_solver.
  - destruct (IH k v H) as (key & ? & ?). exists key. set_solver.
Qed.

Lemma gather_accounts l : forall key, key ∈ l -> canonical p key ∈ dom (per_key (collect l)) \/ exists g, g ∈ call_gaps (collect l) /\ cg_entity g = key.
Proof.
  induction l as [|x l IH] using rev_ind; intros key H; [set_solver|]. rewrite foldl_app. cbn [foldl]. unfold gather at 1 3.
  assert (Old : forall y, y ∈ dom (per_key (collect l)) -> forall b usd, y ∈ dom (if b : bool then <[canonical p x := usd]> (per_key (collect l)) else per_key (collect l)))
    by (intros y Hy [] usd; [rewrite dom_insert|]; set_solver).
  destruct (co_usd (contribution x)) as [usd|] eqn:E; cbn [per_key call_gaps].
  - apply elem_of_app in H as [H|H]; [destruct (IH key H); [left; by apply Old|by right]|]. apply list_elem_of_singleton in H as ->. left.
    destruct (per_key (collect l) !! canonical p x) as [v|] eqn:P; [apply Old; apply elem_of_dom; eauto|]. rewrite dom_insert. set_solver.
  - apply elem_of_app in H as [H|H]; [destruct (IH key H) as [|(g & ? & ?)]; [by left|right; exists g; set_solver]|].
    apply list_elem_of_singleton in H as ->. right. eexists. rewrite elem_of_app, list_elem_of_singleton. split; [by right|done].
Qed.

Lemma gather_size l : (size (per_key (collect l)) <= List.length l)%nat.
Proof.
  induction l as [|x l IH] using rev_ind; [by cbn|]. rewrite foldl_app, length_app. cbn [foldl List.length]. unfold gather at 1.
  destruct (co_usd _) as [usd|]; cbn [per_key]; [|lia]. case_match; [|lia].
  destruct (per_key (collect l) !! canonical p x) eqn:E; [rewrite map_size_insert_Some by (rewrite E; done)|rewrite map_size_insert_None by done]; lia.
Qed.

(** ** Where a figure comes from *)

(** A sheet ceiling of the node whose code the call controls. *)
Definition node_ceiling (k : string) (v : Q) : Prop :=
  sig_claim_id (in_signal i) ∈ CODE_CONTROL_CAPABILITIES /\ k = canonical p (signal_entity (in_signal i)) /\
  exists reason, ceiling_for p k = (Some v, reason) /\ reason ∈ CEILING_ADMITTING_REASONS.

Lemma contribution_source key v : co_usd (contribution key) = Some v ->
  match witnessed_magnitude i with
  | Some m => (v <= m)%Q
  | None => (exists c, composed !! canonical p key = Some c /\ v = cm_usd c) \/ node_ceiling (canonical p key) v
  end.
Proof.
  unfold entity_contribution. case_bool_decide; [done|]. destruct (holdings p i key) as [[[held trim] basis]|]; [|done].
  destruct (witnessed_magnitude i) as [m|] eqn:W.
  - unfold witnessed_contribution. destruct trim as [t|]; [|destruct held; [|destruct (String.eqb _ _)]]; cbn [co_usd]; intros [= <-]; try lra. apply Q.le_min_r.
  - destruct (composed !! canonical p key) as [c|]; [cbn [co_usd]; intros [= <-]; left; eauto|].
    unfold sheet_ceiling. destruct (bool_decide_reflect (sig_claim_id (in_signal i) ∈ CODE_CONTROL_CAPABILITIES)) as [CC|]; [|done]. cbn [negb].
    destruct (String.eqb_spec (canonical p key) (canonical p (signal_entity (in_signal i)))) as [E|]; [|done]. cbn [negb].
    destruct (ceiling_for p (canonical p key)) as [usd reason] eqn:C. destruct (bool_decide_reflect (reason ∈ CEILING_ADMITTING_REASONS)); [|done].
    destruct usd as [u|]; [|done]. cbn [co_usd]. intros [= <-]. right. split; [done|]. split; [done|]. eauto.
Qed.

(** ** The budget *)

Definition micro : Q := 1 # 1000000.

Lemma py_round6 x : (x - (1 # 2) * micro <= py_round 6 x <= x + (1 # 2) * micro)%Q.
Proof. pose proof (py_round_close 6 x) as H. change (1 # 2 * decimals 6)%Q with (1 # 2000000)%Q in H. unfold micro. lra. Qed.

Lemma cap_bound values keys : NoDup keys -> (forall k v, values !! k = Some v -> 0 <= v)%Q -> forall capped exhausted r,
  (forall k, k ∈ keys -> capped !! k = None) -> (forall k v, capped !! k = Some v -> 0 <= v)%Q ->
  (map_total (foldl (cap_step values) (capped, exhausted, r) keys).1.1 <= map_total capped + Qmax r 0 + inject_Z (Z.of_nat (List.length keys)) * micro)%Q /\
  (forall k v, (foldl (cap_step values) (capped, exhausted, r) keys).1.1 !! k = Some v -> (0 <= v)%Q).
Proof.
  intros ND Pos. induction keys as [|x keys IH]; intros capped exhausted r Fresh CP.
  { cbn [foldl fst List.length Z.of_nat]. split; [|done]. pose proof (Q.le_max_r r 0). change (inject_Z (Z.of_nat 0)) with 0%Q. lra. }
  apply NoDup_cons in ND as [Nx ND]. cbn [foldl cap_step]. set (v := default 0%Q (values !! x)). set (t := py_round 6 (Qmin v r)). set (r' := py_round 6 (r - t)).
  assert (Hv : (0 <= v)%Q) by (unfold v; destruct (values !! x) eqn:E; cbn; [by eapply Pos|lra]).
  pose proof (py_round6 (Qmin v r)) as Ht. fold t in Ht. pose proof (py_round6 (r - t)) as Hr. fold r' in Hr.
  assert (Len : (inject_Z (Z.of_nat (List.length (x :: keys))) == inject_Z (Z.of_nat (List.length keys)) + 1)%Q).
  { cbn [List.length]. rewrite Nat2Z.inj_succ, <-Z.add_1_r, inject_Z_plus. done. }
  pose proof (Q.le_min_l v r) as Ml. pose proof (Q.le_min_r v r) as Mr. pose proof (Q.le_max_l r 0) as Xl. pose proof (Q.le_max_r r 0) as Xr.
  assert (Hmin : (Qmin v r == v \/ Qmin v r == r)%Q) by (destruct (Q.min_spec v r) as [[_ ->]|[_ ->]]; [left|right]; done).
  assert (Hmax : (Qmax r' 0 == r' \/ Qmax r' 0 == 0)%Q) by (destruct (Q.max_spec r' 0) as [[_ ->]|[_ ->]]; [right|left]; done).
  destruct (Qlt_bool t PUBLISHED_CENT) eqn:C.
  - destruct (IH ND capped (exhausted ++ [x])%list r') as [B CP']; [intros k Hk; apply Fresh; set_solver|done|]. split; [|exact CP'].
    rewrite Len. unfold micro in *. assert (Qmax r' 0 <= Qmax r 0 + (1 # 1000000))%Q; [|lra].
    destruct Hmax as [->| ->]; [|lra]. destruct Hmin as [E|E]; rewrite E in Ht; lra.
  - apply Qlt_bool_false in C. unfold PUBLISHED_CENT in C.
    destruct (IH ND (<[x := t]> capped) exhausted r') as [B CP'].
    { intros k Hk. rewrite lookup_insert_ne by (intros ->; done). apply Fresh. set_solver. }
    { intros k w Hk. destruct (decide (x = k)) as [->|n]; [rewrite lookup_insert_eq in Hk; injection Hk as <-; lra|]. rewrite lookup_insert_ne in Hk by done. by eapply CP. }
    split; [|exact CP']. rewrite map_total_insert in B by (apply Fresh; set_solver). rewrite Len. unfold micro in *.
    destruct Hmax as [E|E]; rewrite E in B; lra.
Qed.

Lemma map_total_small m b : (size m < 2)%nat -> (forall k v, m !! k = Some v -> v <= b)%Q -> (0 <= b)%Q -> (map_total m <= b)%Q.
Proof.
  intros S B P. unfold map_total. assert (E : forall k v, (k, v) ∈ map_to_list m -> (v <= b)%Q) by (intros k v H; apply elem_of_map_to_list in H; by eapply B).
  rewrite <-length_map_to_list in S. destruct (map_to_list m) as [|[k v] [|? l]]; cbn in S; [done| |lia].
  unfold q_sum. cbn. specialize (E k v). assert (v <= b)%Q by (apply E; set_solver). lra.
Qed.

(** Sheets hold no negative dollars. *)
Definition sheets_nonnegative : Prop := (forall k v, total p k = Some v -> 0 <= v)%Q /\ (forall k v, native_value_state p k = Some v -> 0 <= v)%Q.

Lemma contribution_nonneg m key v : sheets_nonnegative -> witnessed_magnitude i = Some m -> (0 <= m)%Q -> co_usd (contribution key) = Some v -> (0 <= v)%Q.
Proof.
  intros [T N] W M. unfold entity_contribution. case_bool_decide; [done|]. destruct (holdings p i key) as [[[held trim] basis]|] eqn:Hh; [|done]. rewrite W.
  assert (Tr : forall t, trim = Some t -> (0 <= t)%Q).
  { intros t ->. unfold holdings in Hh. destruct (in_native_only i).
    - destruct (native_value_state p key) eqn:E; [|done]. injection Hh as _ <- _. by eapply N.
    - injection Hh as _ Ht _. unfold trimming_total in Ht. destruct (sheet_state p key); try done; by eapply T. }
  unfold witnessed_contribution. destruct trim as [t|]; [|destruct held; [|destruct (String.eqb _ _)]]; cbn [co_usd]; intros [= <-]; [|done..].
  apply Q.min_glb; [by apply Tr|done].
Qed.

Lemma sorted_set_length (keys : gset string) : List.length (sorted_set keys) = size keys.
Proof. unfold sorted_set, sorted_strings. by rewrite merge_sort_Permutation. Qed.

Lemma sorted_keys_NoDup {A} (m : gmap string A) : NoDup (sorted_keys m).
Proof. unfold sorted_keys, sorted_strings. rewrite merge_sort_Permutation. apply NoDup_elements. Qed.

Lemma sorted_keys_length {A} (m : gmap string A) : List.length (sorted_keys m) = size m.
Proof. unfold sorted_keys, sorted_strings. rewrite merge_sort_Permutation. by rewrite <-size_dom. Qed.

End Theory.

(** C13: One call is charged once.  Whatever keys a call reaches, the figures it
    contributes are not negative and together at most the magnitude the call was
    witnessed to move, up to a millionth of a dollar per key of rounding. *)
Theorem call_within_witness p i transitive composed keys m :
  sheets_nonnegative p -> witnessed_magnitude i = Some m -> (0 <= m)%Q ->
  (map_total (call_values (instance_contributions p i transitive composed keys)) <= m + inject_Z (Z.of_nat (size keys)) * micro)%Q /\
  forall k v, call_values (instance_contributions p i transitive composed keys) !! k = Some v -> (0 <= v)%Q.
Proof.
  intros SN W M. unfold instance_contributions. rewrite W. unfold gather_all. set (g := foldl _ _ _).
  assert (V : forall k v, per_key g !! k = Some v -> (0 <= v <= m)%Q).
  { intros k v H. apply gather_values in H as (key & _ & _ & H). split; [by eapply contribution_nonneg|].
    apply contribution_source in H. by rewrite W in H. }
  assert (Sz : (size (per_key g) <= size keys)%nat) by (rewrite <-sorted_set_length; apply gather_size). clearbody g.
  assert (Slack : (0 <= inject_Z (Z.of_nat (size keys)) * micro)%Q).
  { apply Qmult_le_0_compat; [|unfold micro; lra]. change 0%Q with (inject_Z 0). rewrite <-Zle_Qle. lia. }
  destruct (Nat.ltb_spec (size (per_key g)) 2) as [Lt|Ge]; [|destruct (String.eqb _ _); cbn [negb]].
  - split; [|intros k v H; by eapply V]. pose proof (map_total_small (per_key g) m Lt (fun k v H => proj2 (V k v H)) M). cbn [call_values as_gathered]. lra.
  - destruct (Qle_bool _ m) eqn:E.
    + split; [|intros k v H; by eapply V]. apply Qle_bool_iff in E. cbn [call_values as_gathered]. pose proof (py_round6 (map_total (per_key g))) as R.
      assert (One : (1 <= inject_Z (Z.of_nat (size keys)))%Q) by (change 1%Q with (inject_Z 1); rewrite <-Zle_Qle; lia). unfold micro in *. lra.
    + unfold cap_all. destruct (cap_bound (per_key g) (sorted_keys (per_key g)) (sorted_keys_NoDup _) (fun k v H => proj1 (V k v H)) ∅ [] m) as [B CP].
      { intros. apply lookup_empty. }
      { intros k v H. by rewrite lookup_empty in H. }
      destruct (foldl _ _ _) as [[capped exhausted] r]. cbn [call_values fst] in *. split; [|exact CP].
      rewrite map_total_empty, sorted_keys_length in B. rewrite (Q.max_l m 0) in B by done.
      assert (Zm : (inject_Z (Z.of_nat (size (per_key g))) <= inject_Z (Z.of_nat (size keys)))%Q) by (rewrite <-Zle_Qle; lia). unfold micro in *. lra.
  - cbn [call_values]. split; [rewrite map_total_empty; lra|]. intros k v H. by rewrite lookup_empty in H.
Qed.

Lemma round_presented_nonneg v : (0 <= v)%Q -> (0 <= round_presented v)%Q.
Proof. intros H. unfold round_presented. destruct (_ || _); [by apply py_round_nonneg|done]. Qed.

Lemma sheets_from_values p : (forall k m a v, per_asset p !! k = Some m -> m !! a = Some v -> 0 <= v)%Q -> sheets_nonnegative p.
Proof.
  intros H. split; intros k v E.
  - unfold total in E. destruct (sheet_state p k); try done; injection E as <-; try lra. apply round_presented_nonneg, q_sum_nonneg.
    intros x Hx. unfold values_at in Hx. apply list_elem_of_fmap in Hx as ([a y] & -> & Hy). apply elem_of_map_to_list in Hy. cbn [snd].
    destruct (per_asset p !! canonical p k) as [m|] eqn:P; cbn in Hy; [by eapply H|by rewrite lookup_empty in Hy].
  - unfold native_value_state in E. destruct (per_asset p !! canonical p k) as [m|] eqn:P; cbn [default from_option id] in E.
    + destruct (m !! NATIVE_ASSET) eqn:A; [injection E as <-; by eapply H|]. repeat case_match; simplify_eq; lra.
    + rewrite lookup_empty in E. repeat case_match; simplify_eq; lra.
Qed.

Definition two_sheets : ValuePlane :=
  MkPlane {["a" := {["t" := 80%Q]}; "b" := {["t" := 80%Q]}]} {["a" := {["t" := ASSET_PRICED]}; "b" := {["t" := ASSET_PRICED]}]} ∅ ∅ ∅ ∅ ∅ ∅ ∅ ∅.
Definition exact_call : Instance :=
  MkInstance (MkSignal 1 "ethereum" "0xaa" "sweep" FLOW_OUT (MkTri "proven" (Some 1%Q)) [] "gated" "exact" [] [] [] "0x01") (MkTri MAGNITUDE_STATE_PROVEN_EXACT (Some 100%Q)) false.

Lemma call_within_witness_witness :
  (map_total (call_values (instance_contributions two_sheets exact_call false ∅ {["a"; "b"]})) <= 100 + 2 * micro)%Q /\
  call_values (instance_contributions two_sheets exact_call false ∅ {["a"; "b"]}) !! "a" = Some (80000000 # 1000000)%Q.
Proof.
  split; [|vm_compute; reflexivity].
  destruct (call_within_witness two_sheets exact_call false ∅ {["a"; "b"]} 100%Q) as [B _].
  - apply sheets_from_values. intros k m a v Hk Ha. cbn [per_asset two_sheets] in Hk.
    apply lookup_insert_Some in Hk as [[<- <-]|[_ Hk]].
    + apply lookup_singleton_Some in Ha as [<- <-]. vm_compute. discriminate.
    + apply lookup_singleton_Some in Hk as [<- <-]. apply lookup_singleton_Some in Ha as [<- <-]. vm_compute. discriminate.
  - vm_compute. reflexivity.
  - vm_compute. discriminate.
  - replace (size ({["a"; "b"]} : gset string)) with 2%nat in B by (vm_compute; reflexivity). exact B.
Defined.

(** The budget loop only adds shares of its keys, and answers for each. *)
Lemma cap_keeps values keys : forall capped exhausted r,
  (forall k, k ∈ dom (foldl (cap_step values) (capped, exhausted, r) keys).1.1 -> k ∈ dom capped \/ k ∈ keys) /\
  (forall k, k ∈ dom capped \/ k ∈ exhausted \/ k ∈ keys ->
     k ∈ dom (foldl (cap_step values) (capped, exhausted, r) keys).1.1 \/ k ∈ (foldl (cap_step values) (capped, exhausted, r) keys).1.2).
Proof.
  induction keys as [|x keys IH]; intros capped exhausted r; [cbn; set_solver|]. cbn [foldl cap_step]. destruct (Qlt_bool _ _).
  - destruct (IH capped (exhausted ++ [x])%list (py_round 6 (r - py_round 6 (Qmin (default 0%Q (values !! x)) r)))) as [A B].
    split; [intros k Hk; apply A in Hk; set_solver|]. intros k Hk. apply B. set_solver.
  - destruct (IH (<[x := py_round 6 (Qmin (default 0%Q (values !! x)) r)]> capped) exhausted (py_round 6 (r - py_round 6 (Qmin (default 0%Q (values !! x)) r)))) as [A B].
    split; [intros k Hk; apply A in Hk; rewrite dom_insert in Hk; set_solver|]. intros k Hk. apply B. rewrite dom_insert. set_solver.
Qed.

(** C25: No key is left out and no figure made up.  Each key a call reaches is valued
    under its canonical entity or named in a gap; each value is some reached key's;
    and a call without a witnessed magnitude is valued only by a composed one, or, when
    it controls the entity's code, by the entity's own admitted ceiling. *)
Theorem call_keys_accounted p i transitive composed keys :
  (forall key, key ∈ keys -> canonical p key ∈ dom (call_values (instance_contributions p i transitive composed keys)) \/
     exists g, g ∈ all_gaps (instance_contributions p i transitive composed keys) /\ (cg_entity g = key \/ cg_entity g = canonical p key)) /\
  (forall k v, call_values (instance_contributions p i transitive composed keys) !! k = Some v ->
     (exists key, key ∈ keys /\ canonical p key = k) /\
     (witnessed_magnitude i = None -> (exists c, composed !! k = Some c /\ v = cm_usd c) \/ node_ceiling p i k v)).
Proof.
  unfold instance_contributions, gather_all. assert (Val := gather_values p i transitive composed (sorted_set keys)).
  assert (Acc := gather_accounts p i transitive composed (sorted_set keys)). set (g := foldl _ _ _) in *. clearbody g.
  assert (In : forall key, key ∈ sorted_set keys <-> key ∈ keys) by (intros key; unfold sorted_set, sorted_strings; rewrite merge_sort_Permutation; apply elem_of_elements).
  assert (Plain : (forall key, key ∈ keys -> canonical p key ∈ dom (per_key g) \/ exists x, x ∈ call_gaps g /\ (cg_entity x = key \/ cg_entity x = canonical p key))).
  { intros key Hk. apply In, Acc in Hk as [|(x & ? & ?)]; [by left|right; eauto]. }
  assert (Own : forall k, k ∈ dom (per_key g) -> exists key, key ∈ keys /\ canonical p key = k).
  { intros k [v Hv]%elem_of_dom. apply Val in Hv as (key & Hk & E & _). exists key. by rewrite <-In. }
  assert (Moved : forall l why key, (forall k, k ∈ dom (per_key g) -> k ∈ l) -> key ∈ keys ->
    exists x, x ∈ (call_gaps g ++ List.map (fun k => MkCallGap k why) l)%list /\ (cg_entity x = key \/ cg_entity x = canonical p key)).
  { intros l why key Hl Hk. apply Plain in Hk as [Hk|(x & ? & ?)]; [|exists x; set_solver]. exists (MkCallGap (canonical p key) why). split; [|by right].
    apply elem_of_app. right. apply list_elem_of_In, in_map_iff. exists (canonical p key). split; [done|]. apply list_elem_of_In. auto. }
  destruct (witnessed_magnitude i) as [m|] eqn:W; cycle 1.
  { split; [exact Plain|]. intros k v H. cbn [call_values as_gathered] in H. split; [apply Own, elem_of_dom; eauto|]. intros _.
    apply Val in H as (key & Hk & <- & H). apply contribution_source in H. by rewrite W in H. }
  destruct (Nat.ltb_spec (size (per_key g)) 2); [split; [exact Plain|intros k v H'; split; [apply Own, elem_of_dom; eauto|done]]|].
  destruct (String.eqb _ _); cbn [negb].
  - destruct (Qle_bool _ m); [split; [exact Plain|intros k v H'; split; [apply Own, elem_of_dom; eauto|done]]|].
    unfold cap_all. destruct (cap_keeps (per_key g) (sorted_keys (per_key g)) ∅ [] m) as [A B]. destruct (foldl _ _ _) as [[capped exhausted] r].
    cbn [call_values all_gaps fst snd] in *. split.
    + intros key Hk. destruct (Plain key Hk) as [D|(x & ? & ?)]; [|right; exists x; set_solver].
      destruct (B (canonical p key)) as [|E]; [right; right; by apply sorted_keys_elem|by left|]. right.
      eexists. split; [apply elem_of_app; right; apply list_elem_of_In, in_map_iff; exists (canonical p key); split; [reflexivity|by apply list_elem_of_In]|]. by right.
    + intros k v Hk. split; [|done]. apply Own. destruct (A k) as [D|D]; [apply elem_of_dom; eauto|rewrite dom_empty in D; set_solver|by apply sorted_keys_elem].
  - cbn [call_values all_gaps]. split; [|intros k v Hk; by rewrite lookup_empty in Hk]. intros key Hk. right. apply Moved; [|done]. intros k D. by apply sorted_keys_elem.
Qed.
